(* ===== verification/_CoqProject ===== *)
-Q . S2P
Prelude.v
Float64.v
Event.v
EventSerial.v
EventLog.v
NodeHeap.v
OrderBook.v
BookSpec.v
BookRefine.v
BookMatch.v
BookTheorems.v
RingBuffer.v
DeferredQueue.v
Pools.v
Arith.v
Portfolio.v
Sizing.v
Risk.v
Exits.v
ExitTheorems.v
ExitRuns.v
ExitPolicy.v
Symbols.v
ClientOrderId.v
RateLimiter.v
Indicators.v
IndicatorTheorems.v
LocalAdapter.v
MarketMaker.v
ShadowAdapter.v
QueueAdapter.v
LocalAdapterTheorems.v
Bridge.v
BridgeSteps.v
BridgeTheorems.v
Swing.v
SwingTheorems.v
Checkpoint.v
EngineEvents.v
Analytics.v
AnalyticsTheorems.v
Trackers.v
EngineState.v
Engine.v
EngineLoop.v
EngineLogic.v
EngineRuns.v
EngineTheorems.v
EngineOrders.v
EngineExamples.v
StateStore.v
Strategies.v
StrategyTheorems.v
BracketStrategies.v
Continuation.v
ContinuationTheorems.v
BracketTheorems.v
Hybrid.v
HybridTheorems.v
JsonScan.v
JsonTheorems.v
BinanceParsers.v
BitgetParsers.v
VenueTheorems.v
LiveSafety.v
LiveSafetyTheorems.v
Encoders.v
EncoderTheorems.v
VenueBrackets.v
VenueBracketTheorems.v
DateParse.v
DateTheorems.v
MarketSeries.v
SeriesTheorems.v
CsvSource.v
DataBridge.v
CsvTheorems.v
MarginTable.v
IlpWriter.v
EngineFeed.v
