(* ===== verification/Prelude.v ===== *)
(** * TrueTest core: a verified library of its trading engine

    TrueTest core (C++23, src/src) runs trading strategies against historical,
    synthetic and live markets.  An engine loop pulls market events from a
    provider, shows them to strategies, checks and sizes the orders they return,
    sends them to an execution adapter (a simulated book or a bridge to a venue),
    books the fills in a portfolio, and watches the exits of open positions.
    Worker threads receive copies of the events over bounded rings and log,
    check and measure them; the objects the hot path needs come from pools.

    This library models the parts that decide what is traded and what is
    recorded, and proves them correct.  Definitions keep the names of the source;
    a C++ class is a record of its data members, a member function a function of
    it that returns the new state, an exception a value of [exc].

    ** Files and what they model

    - Prelude.v: machine-width integers ([wrapu], [wraps]), exceptions, tactics,
      hints and the lemmas on lists and sums the components share.
    - Float64.v: IEEE binary64 with C++ comparisons and conversions.
    - Event.v, EventSerial.v, EventLog.v: core/event.h, the byte format and the
      logger and replayer of core/event_log.h, with files as byte strings and zstd
      as a parameter.
    - NodeHeap.v, OrderBook.v: the order book of orderbook/orderbook.h and .cpp down
      to the nodes, levels and free lists; the order pool is the interface
      [OrderPool].  BookSpec.v is the abstract book (two lists in price-time
      priority); BookRefine.v and BookMatch.v show that every operation of the
      class implements it; BookTheorems.v states what clients may rely on.
    - RingBuffer.v (threading/ring_buffer.h), DeferredQueue.v
      (types/deferred_return_queue.h, pool_free_stack.h), Pools.v
      (types/object_pool.h, control_block_pool.h): the lock-free rings and pools,
      as functions and as step relations that interleave the threads at their
      atomic actions.
    - Arith.v: the arithmetic of prices and quantities as a type class, with the
      instances binary64 (what runs) and the rationals (free of rounding).
    - Portfolio.v (execution/portfolio.h and .cpp), Sizing.v (position_sizing.h,
      fee_model.h, instrument.h), Risk.v (risk/risk_manager.h and .cpp,
      futures_risk_check.h, maintenance_margin_table.h): positions, lots and cash,
      order sizes, the checks an order passes.
    - Exits.v, ExitTheorems.v, ExitRuns.v, ExitPolicy.v: exits/exit_manager.h and
      .cpp, bracket_adapter.h, default_exit_policy.h and .cpp and the engine's
      registration of exits.
    - LocalAdapter.v, MarketMaker.v, LocalAdapterTheorems.v: the simulated
      execution adapter of execution/execution_adapter.h, with the order objects it
      shares with the book, over the interface [Book] that OrderBook.v implements,
      and market_maker/market_maker.h and .cpp that quotes on the same book.
    - Bridge.v, BridgeSteps.v, BridgeTheorems.v: execution/execution_bridge.h with
      its engine, transport and fill threads interleaved at the critical sections.
    - ShadowAdapter.v (execution/trade_tape_shadow_adapter.h,
      queue_position_model.h) and QueueAdapter.v (queue_aware_book_adapter.h,
      queue_model.h): orders matched against the trade tape behind the queue ahead
      of them.
    - Symbols.v: types/symbol_table.h and orderbook/orderbook_registry.h, the books
      in a store of shared objects.
    - ClientOrderId.v (execution/client_order_id.h, order_tracker.h) and
      RateLimiter.v (execution/rate_limiter.h).
    - Indicators.v, IndicatorTheorems.v: the moving averages, RSI, ATR, Bollinger
      bands, rolling extremes and stochastic oscillator of indicator/.  Swing.v,
      SwingTheorems.v: the swing and regime detectors (swing_detector.h,
      ema_regime.h).
    - EngineEvents.v, Analytics.v, AnalyticsTheorems.v, Trackers.v: the events as the
      engine passes them around and the statistics of analytics/ (ledger, curves,
      ratios, bars, adverse selection, shadow comparison).
    - EngineState.v, Engine.v, EngineLoop.v: engine/engine.h and .cpp,
      execution_router and instrument_spec_cache: the order flow, the handlers and
      the loops over bars, ticks and logs, as computations over the engine's state
      and a world of adapters and event pools behind the interface [Execution], with
      strategies behind [IStrategy]; callbacks, adapters and exhausted pools may throw.
      EngineLogic.v and EngineRuns.v are the program logic
      that carries a promise of the primitive actions to whole runs;
      EngineTheorems.v, EngineOrders.v and EngineExamples.v use it.
    - Checkpoint.v: engine/checkpoint.h and .cpp, with the disk that may lose the tail
      of a file and the stream that reads it back.
    - StateStore.v (strategy/symbol_state_store.h), Strategies.v and
      StrategyTheorems.v: the state store of the strategies, and the average,
      crossover, pullback and hedge strategies of strategy/.  BracketStrategies.v,
      Continuation.v, BracketTheorems.v and ContinuationTheorems.v: the mean
      reversion, breakout and structure continuation strategies with the exits they
      register.  Hybrid.v, HybridTheorems.v: the adaptive hybrid strategy with its
      imbalance engine, validator and monitors.
    - JsonScan.v, JsonTheorems.v, BinanceParsers.v, BitgetParsers.v, VenueTheorems.v:
      how the providers read messages of the venues (providers/binance and
      providers/bitget: the parsers of market data, depth, execution reports and
      account updates) with the scanners they use instead of a JSON library.
    - LiveSafety.v, LiveSafetyTheorems.v: the kill switches, reconcilers and dead
      man's switches of both venues, their startup advisories and
      threading/worker_watchdog.h, over the interface [Venue] of a world that answers
      requests and has a clock.
    - Encoders.v, EncoderTheorems.v: the order encoders of both venues.
      VenueBrackets.v, VenueBracketTheorems.v: the adapters that rest brackets at the
      venue for the exit manager and read them back after a restart.
    - DateParse.v, DateTheorems.v (data/date_parse.h), MarketSeries.v, SeriesTheorems.v
      (data/market_series.h and .cpp), CsvSource.v (csv_data_source.cpp,
      tick_csv_data_source.cpp, data_wrapper.cpp), DataBridge.v (providers/data_bridge.h
      with the file and prepending transports, the parsers of files and of combined
      streams, and the converters) and CsvTheorems.v: how market data gets from files and
      streams into the series the engine reads, over the interface [IMarketSink].
    - EngineFeed.v: the runs of engine/engine.cpp over a series and over the bridge, with
      the handler of each venue event.
    - MarginTable.v: loading the tiers of risk/maintenance_margin_table.cpp.  IlpWriter.v: the rows and the buffered writer
      of data/questdb/ilp_writer.h and .cpp.

    ** What the theorems show

    - Order book: every public operation refines the abstract price-time book,
      never follows a bad pointer and ends within its loop bound; every reachable
      book is consistent; matching leaves the book uncrossed and conserves
      quantity; fill-or-kill is all or nothing; immediate orders never rest, except
      after a modification.
    - Event log: serialising and replaying give the events back as the format holds
      them, truncated data is an error; the replayer's guess of compression and its seek can be wrong.
    - Rings and pools: first in first out and bounded for every interleaving; a
      slot is never given to two owners, a released one comes back once.
    - Accounting: fills move cash, positions and lots by the exact amounts in exact
      arithmetic; a quantity sized for a risk budget stays within it; an order that
      passes the risk checks satisfies every limit; the order rate and the daily
      reset hold on every sequence of orders.
    - Exits: which intents a price or bar fires and at which price; closes stay
      within the fills when the fractions do; trailing stops only tighten; venue
      brackets are cancelled once; an entry ends up protected.
    - Execution: over every run the simulated adapter never reports more than was
      submitted, and can report less; in the bridge the id maps stay inverse, each
      request is answered once and each fill delivered once, in every interleaving.
    - Paper adapters: a print fills only crossed orders, behind their queues, and
      never more than the print or the order.
    - Support: no two symbols share a book; client order ids do not repeat while the
      prefix fits its buffer; the rate limiter grants at most capacity plus refill in
      every window, and blocks for ever on a request above its capacity; streaming
      indicators equal their two-pass definitions and oscillators stay in range.
    - Engine: after a halt nothing is submitted; the portfolio of every run that
      returns is the replay of the fills it published, one that ends with an exception
      may have booked one fill more, and the statistics agree with the portfolio; stop
      orders never reach an adapter or the queue of pending orders; an order that
      the checks do not clear is rejected and not sent; pending orders go out in
      the order of time and arrival and never on the bar they were decided on;
      exactly the stops a bar reaches fire, at their price or the open beyond it; a paused engine loses exits, and a
      replay counts fills twice.
    - Statistics: drawdown, running moments and bars equal their definitions.
    - Checkpoints: what was written is restored, and a torn file changes nothing.
    - Strategies and detectors: the state store is a map; the crossover and the
      pullback strategy trade exactly by their rules on the whole history of a
      symbol; the swing detector holds exactly the pivots of the history, and the
      regime detector inverts the rule it documents.  The continuation strategy
      trades only the second signal after a sideways phase; breakout and mean
      reversion entries lose at most the risk budget at the stop they register (a
      breakout sold in its two parts one fixed fee more), and mean reversion in a quiet market and continuation far above its average lose
      more; the adaptive hybrid strategy never sends an order, and its imbalance
      engine keeps its book and values in their ranges.

    - Venues: for every set of fields printed compactly the parsers give back what was
      printed, and the order encoders send what a venue reads as the order, with or
      without their cache; only closed candles pass the gate, once.  On every venue,
      whatever it answers, the kill switch cancels before it closes and sends one
      reduce-only order exactly when a position is reported in time, brackets are cancelled as they were
      accepted and recovered as they rest, and a dead man's switch that does not fail
      twice in a row keeps the venue's timer from firing; the watchdog comes after
      that timer.
    - Market data: a printed date is the day of the calendar it names; the columns of the
      series are those of a list of bars, and its sort is stable; a file of named columns
      in any order becomes the acceptable bars of its rows, in order, and both readers of
      files give the same bars on plain fields; a printed body of margin tiers becomes the
      sorted table of them.  A streaming run is the handler of the events of its frames,
      in order and each once, until their end, a halt or an exception.  Every line given to the database writer is sent, diverted
      or still in its buffer, and in one of these only.

    Theorems about accounting are proved in every arithmetic where they hold there,
    and else in exact arithmetic: rounding is then not part of the claim.  Several
    theorems are about behaviour the code or its documents do not intend; they are
    stated as what the code does on a concrete run.

    ** Bounds and fuel

    Loops of the source are structural recursion on the data they walk where
    possible.  The matching loop, the level scans, the ring and the queue loops
    take a bound computed from their input (the number of resting orders, of
    levels, of slots) and the theorems show it is never used up.  The loop over the
    pending orders takes the length of the queue, and the theorem on it shows that
    nothing due is left.  The bridge reads frames as long as there are some; over a file
    the number of its lines is enough, and for a stream the theorem asks that it ends
    within the bound.  Counters of 64
    bits wrap where the source wraps; a theorem that needs an id counter not to
    have wrapped says so.

    ** Not modelled

    - Of the venue providers (providers/): the transports over HTTP and WebSocket
      libraries, signatures and clocks, backfill and recording, the wiring of the
      provider classes, and the Bitunix and synthetic providers.  What a venue answers
      is an argument of the parts that are modelled.
    - The worker threads of the engine beyond their rings, its dashboard snapshots
      and reports: they copy data out and decide nothing that is traded.
    - Monte Carlo simulation; the parameter schemas and indicator values strategies
      show on dashboards.
    - The body of a constructor that throws inside a pool, and the DropOldest push of
      the rings as a step between threads (it is a function of the ring).
    - The sockets and the schema of the database, the web API, terminal user interfaces, debug output,
      thread affinity, presets and command lines: input, output and glue.
    - Memory orderings weaker than sequential consistency, and NaN payloads.

    ** Plan

    Next: the Bitunix parser, the wiring of the provider classes, and the streams of
    bars and of ticks with their switches of symbol and strategy. *)

From stdpp Require Export base list strings gmap numbers pretty.
From Stdlib Require Export ZArith Lia.
From Stdlib Require Strings.Byte.

#[export] Set Default Goal Selector "!".

(** ** Machine-width integers

    A C++ integer of width [w] is a [Z]; the wrap-around of unsigned
    arithmetic and of a narrowing cast is written out with these functions. *)

Open Scope Z_scope.

Definition wrapu (w : Z) (z : Z) : Z := z mod 2 ^ w.
Definition wraps (w : Z) (z : Z) : Z := (z + 2 ^ (w - 1)) mod 2 ^ w - 2 ^ (w - 1).

Abbreviation u8 := (wrapu 8).
Abbreviation u16 := (wrapu 16).
Abbreviation u32 := (wrapu 32).
Abbreviation u64 := (wrapu 64).
Abbreviation i32 := (wraps 32).
Abbreviation i64 := (wraps 64).

Definition in_u (w z : Z) : Prop := 0 <= z < 2 ^ w.
Definition in_s (w z : Z) : Prop := - 2 ^ (w - 1) <= z < 2 ^ (w - 1).

#[export] Instance in_u_dec w z : Decision (in_u w z).
Proof. unfold in_u. apply _. Defined.
#[export] Instance in_s_dec w z : Decision (in_s w z).
Proof. unfold in_s. apply _. Defined.

Create HintDb tt_int.

Lemma wrapu_id w z : in_u w z → wrapu w z = z.
Proof. intros H. unfold wrapu, in_u in *. by apply Z.mod_small. Qed.

Lemma wrapu_range w z : 0 <= w → in_u w (wrapu w z).
Proof. intros H. apply Z.mod_pos_bound. by apply Z.pow_pos_nonneg. Qed.

Lemma wraps_id w z : 0 < w → in_s w z → wraps w z = z.
Proof.
  unfold wraps, in_s. intros Hw H.
  assert (2 ^ w = 2 * 2 ^ (w - 1)) as E.
  { rewrite <- Z.pow_succ_r by lia. f_equal. lia. }
  rewrite Z.mod_small by lia. lia.
Qed.

Lemma wraps_range w z : 0 < w → in_s w (wraps w z).
Proof.
  unfold wraps, in_s. intros Hw.
  assert (2 ^ w = 2 * 2 ^ (w - 1)) as E.
  { rewrite <- Z.pow_succ_r by lia. f_equal. lia. }
  pose proof (Z.mod_pos_bound (z + 2 ^ (w - 1)) (2 ^ w)).
  pose proof (Z.pow_pos_nonneg 2 (w - 1)). lia.
Qed.

(** The unsigned image of a signed number determines it. *)
Lemma wraps_wrapu w z : 0 < w → wraps w (wrapu w z) = wraps w z.
Proof.
  intros Hw. unfold wraps, wrapu. f_equal.
  by rewrite Zplus_mod_idemp_l.
Qed.

Lemma wrapu_add_l w a b : wrapu w (wrapu w a + b) = wrapu w (a + b).
Proof. unfold wrapu. apply Zplus_mod_idemp_l. Qed.

Lemma wrapu_sub_l w a b : wrapu w (wrapu w a - b) = wrapu w (a - b).
Proof. unfold wrapu. apply Zminus_mod_idemp_l. Qed.

Lemma wrapu_wrapu w z : wrapu w (wrapu w z) = wrapu w z.
Proof. unfold wrapu. apply Zmod_mod. Qed.

Lemma in_u_0 w : 0 <= w → in_u w 0.
Proof. intros. unfold in_u. pose proof (Z.pow_pos_nonneg 2 w). lia. Qed.

#[export] Hint Resolve wrapu_range wraps_range in_u_0 : tt_int.
#[export] Hint Extern 1 (_ <= _) => lia : tt_int.
#[export] Hint Extern 1 (_ < _) => lia : tt_int.

(** Slots of a buffer of a power of two: [pos & (capacity - 1)]. *)
Lemma land_mask k pos : 0 <= k → Z.land pos (2 ^ k - 1) = pos mod 2 ^ k.
Proof. intros Hk. by rewrite <- Z.land_ones, Z.ones_equiv, Z.sub_1_r. Qed.

Lemma mask_slot_lt k pos : 0 <= k → (Z.to_nat (Z.land pos (2 ^ k - 1)) < Z.to_nat (2 ^ k))%nat.
Proof.
  intros Hk. rewrite land_mask by done. assert (0 < 2 ^ k) as HN by (by apply Z.pow_pos_nonneg).
  destruct (Z.mod_pos_bound pos (2 ^ k) HN). apply Z2Nat.inj_lt; lia.
Qed.

(** Different positions less than a capacity apart have different slots. *)
Lemma mask_slot_inj k p q : 0 <= k → - 2 ^ k < p - q < 2 ^ k →
  Z.to_nat (Z.land p (2 ^ k - 1)) = Z.to_nat (Z.land q (2 ^ k - 1)) → p = q.
Proof.
  intros Hk Hd. rewrite !land_mask by done. intros E.
  assert (0 < 2 ^ k) as HN by (by apply Z.pow_pos_nonneg).
  apply Z2Nat.inj in E; [|by apply Z.mod_pos_bound..].
  pose proof (Z.div_mod p (2 ^ k) ltac:(lia)) as Ep. pose proof (Z.div_mod q (2 ^ k) ltac:(lia)) as Eq.
  rewrite E in Ep. assert (p / 2 ^ k = q / 2 ^ k) as Ed; [|lia].
  assert (p - q = 2 ^ k * (p / 2 ^ k - q / 2 ^ k)) as Ed by lia. clear Ep Eq E. nia.
Qed.

(** ** Exceptions

    A C++ function that may throw [std::runtime_error] (or a subclass)
    returns a value of [exc]; [Throw] carries the exception's message. *)

Inductive exc (A : Type) : Type :=
| Ret (a : A)
| Throw (what : string).
Arguments Ret {A} a.
Arguments Throw {A} what.

#[export] Instance exc_ret : MRet exc := λ A a, Ret a.
#[export] Instance exc_bind : MBind exc := λ A B f m,
  match m with Ret a => f a | Throw w => Throw w end.
#[export] Instance exc_fmap : FMap exc := λ A B f m,
  match m with Ret a => Ret (f a) | Throw w => Throw w end.

Definition returns {A} (m : exc A) : Prop := ∃ a, m = Ret a.

(** ** Generic lemmas on lists *)

Lemma take_drop_app {A} (l k : list A) n :
  length l = n → take n (l ++ k) = l ∧ drop n (l ++ k) = k.
Proof. intros <-. by rewrite take_app_length, drop_app_length. Qed.

Lemma sum_Z_app (l1 l2 : list Z) : foldr Z.add 0 (l1 ++ l2) = foldr Z.add 0 l1 + foldr Z.add 0 l2.
Proof. induction l1; simpl; lia. Qed.

Lemma filter_none {A} (P : A → Prop) `{!∀ x, Decision (P x)} (l : list A) :
  (∀ x, x ∈ l → ¬ P x) → filter P l = [].
Proof.
  intros Hn. induction l as [|x l IH]; [done|]. rewrite filter_cons_False; [|apply Hn; left].
  apply IH. intros y Hy. apply Hn. by right.
Qed.

Lemma filter_all {A} (Q : A → Prop) `{!∀ x, Decision (Q x)} (l : list A) :
  (∀ x, x ∈ l → Q x) → filter Q l = l.
Proof.
  intros Hl. induction l as [|x l IH]; [done|]. rewrite filter_cons_True by (apply Hl; left).
  f_equal. apply IH. intros y Hy. apply Hl. by right.
Qed.

(** ** [std::lower_bound] as libstdc++ has it: a binary search by halving for
    the first element [less] does not hold of. *)

Fixpoint lower_bound_loop {A} (fuel : nat) (less : A → bool) (l : list A) (first len : nat) : nat :=
  match fuel with
  | O => first
  | S fuel =>
      if (len =? 0)%nat then first else
      let half := (len / 2)%nat in
      let mid := (first + half)%nat in
      match l !! mid with
      | Some x => if less x then lower_bound_loop fuel less l (mid + 1) (len - half - 1)
                  else lower_bound_loop fuel less l first half
      | None => first
      end
  end.

Definition lower_bound {A} (less : A → bool) (l : list A) : nat :=
  lower_bound_loop (S (length l)) less l 0 (length l).

Lemma lower_bound_loop_partition {A} (less : A → bool) (l1 l2 : list A) fuel first len :
  Forall (λ x, less x = true) l1 → Forall (λ x, less x = false) l2 →
  (first <= length l1 <= first + len)%nat → (first + len <= length (l1 ++ l2))%nat →
  (len < fuel)%nat →
  lower_bound_loop fuel less (l1 ++ l2) first len = length l1.
Proof.
  intros H1 H2. revert first len. induction fuel as [|fuel IH]; intros first len Hr Hl Hf; [lia|].
  cbn [lower_bound_loop]. destruct (Nat.eqb_spec len 0) as [->|Hne]; [lia|].
  pose proof (Nat.div_lt len 2 ltac:(lia) ltac:(lia)) as Hhalf.
  destruct ((l1 ++ l2) !! (first + len / 2)%nat) as [x|] eqn:E.
  - destruct (decide (first + len / 2 < length l1)%nat) as [Hlt|Hge].
    + rewrite lookup_app_l in E by done. rewrite Forall_lookup in H1. rewrite (H1 _ _ E).
      apply IH; lia.
    + rewrite lookup_app_r in E by lia. rewrite Forall_lookup in H2. rewrite (H2 _ _ E).
      apply IH; lia.
  - apply lookup_ge_None in E. lia.
Qed.

Lemma lower_bound_partition {A} (less : A → bool) (l1 l2 : list A) :
  Forall (λ x, less x = true) l1 → Forall (λ x, less x = false) l2 →
  lower_bound less (l1 ++ l2) = length l1.
Proof.
  intros H1 H2. apply lower_bound_loop_partition; try done; rewrite length_app; lia.
Qed.

(** ** Tactics of the development *)

(** Case split on the boolean and decision tests the code makes. *)
Ltac tt_cases :=
  repeat match goal with
  | |- context [if decide ?P then _ else _] => destruct (decide P)
  | |- context [if ?b then _ else _] => destruct b eqn:?
  | H : context [if decide ?P then _ else _] |- _ => destruct (decide P)
  end.

(** Run the exception monad over a computed result. *)
Ltac tt_bind := cbn [mbind exc_bind fmap exc_fmap mret exc_ret].

(** Reflect boolean comparisons on [Z] into propositions. *)
Ltac tt_bool :=
  repeat match goal with
  | H : (_ <? _) = true |- _ => apply Z.ltb_lt in H
  | H : (_ <? _) = false |- _ => apply Z.ltb_ge in H
  | H : (_ <=? _) = true |- _ => apply Z.leb_le in H
  | H : (_ <=? _) = false |- _ => apply Z.leb_gt in H
  | H : (_ =? _) = true |- _ => apply Z.eqb_eq in H
  | H : (_ =? _) = false |- _ => apply Z.eqb_neq in H
  | H : _ && _ = true |- _ => apply andb_true_iff in H as [? ?]
  | H : _ || _ = false |- _ => apply orb_false_iff in H as [? ?]
  | H : negb _ = true |- _ => apply negb_true_iff in H
  | H : negb _ = false |- _ => apply negb_false_iff in H
  end.
