(* ===== verification/Float64.v ===== *)
(** * IEEE-754 binary64

    A C++ [double] is a value of the Standard Library's executable
    specification of floating-point numbers at precision 53 and maximal
    exponent 1024.  The arithmetic rounds to nearest even, as the default
    floating-point environment does; the ordered comparisons are false when an
    operand is a NaN.  NaN payloads are not represented: every NaN is
    [S754_nan]. *)

From S2P Require Import Prelude.
From Stdlib Require Import SpecFloat.

Open Scope Z_scope.

Definition double : Type := spec_float.

#[export] Instance double_eq_dec : EqDecision double.
Proof. intros x y. unfold Decision, double in *. repeat decide equality. Defined.

Definition d_valid (d : double) : Prop := valid_binary 53 1024 d = true.

(** ** Operators of the language *)

Definition d_add (x y : double) : double := SFadd 53 1024 x y.
Definition d_sub (x y : double) : double := SFsub 53 1024 x y.
Definition d_mul (x y : double) : double := SFmul 53 1024 x y.
Definition d_div (x y : double) : double := SFdiv 53 1024 x y.
Definition d_opp (x : double) : double := SFopp x.
Definition d_abs (x : double) : double := SFabs x.
Definition d_lt (x y : double) : bool := SFltb x y.
Definition d_le (x y : double) : bool := SFleb x y.
Definition d_gt (x y : double) : bool := SFltb y x.
Definition d_ge (x y : double) : bool := SFleb y x.
Definition d_eq (x y : double) : bool := SFeqb x y.

Declare Scope double_scope.
Delimit Scope double_scope with D.
Bind Scope double_scope with double.
Infix "+" := d_add : double_scope.
Infix "-" := d_sub : double_scope.
Infix "*" := d_mul : double_scope.
Infix "/" := d_div : double_scope.
Notation "- x" := (d_opp x) : double_scope.
Infix "<?" := d_lt : double_scope.
Infix "<=?" := d_le : double_scope.
Infix ">?" := d_gt : double_scope.
Infix ">=?" := d_ge : double_scope.
Infix "=?" := d_eq : double_scope.

(** [std::min(a, b)] is [b < a ? b : a]; [std::max(a, b)] is [a < b ? b : a]. *)
Definition d_min (a b : double) : double := if (b <? a)%D then b else a.
Definition d_max (a b : double) : double := if (a <? b)%D then b else a.

(** ** Literals: the double nearest to the rational [n / d] *)

Definition d_of_ratio (n : Z) (d : positive) : double :=
  match n with
  | Z0 => S754_zero false
  | Zpos p =>
      let '(m, e, l) := SFdiv_core_binary 53 1024 (Zpos p) 0 (Zpos d) 0 in
      binary_round_aux 53 1024 false m e l
  | Zneg p =>
      let '(m, e, l) := SFdiv_core_binary 53 1024 (Zpos p) 0 (Zpos d) 0 in
      binary_round_aux 53 1024 true m e l
  end.

(** [static_cast<double>(z)] *)
Definition d_of_Z (z : Z) : double := binary_normalize 53 1024 z 0 false.

Definition d_zero : double := S754_zero false.
Definition d_one : double := d_of_Z 1.
Definition d_inf : double := S754_infinity false.
Definition d_nan : double := S754_nan.
(** [std::numeric_limits<double>::max()] *)
Definition d_max_finite : double := SFmax_float 53 1024.

(** ** Conversion to an integer: [static_cast<int64_t>] truncates toward zero
    and is defined only when the result fits; [std::llround] rounds halves
    away from zero. *)

Definition d_trunc (d : double) : option Z :=
  match d with
  | S754_zero _ => Some 0
  | S754_finite s m e =>
      let a := if 0 <=? e then Zpos m * 2 ^ e else Zpos m / 2 ^ (- e) in
      Some (if s then - a else a)
  | _ => None
  end.

Definition d_round_away (d : double) : option Z :=
  match d with
  | S754_zero _ => Some 0
  | S754_finite s m e =>
      let a := if 0 <=? e then Zpos m * 2 ^ e
               else (2 * Zpos m + 2 ^ (- e)) / (2 * 2 ^ (- e)) in
      Some (if s then - a else a)
  | _ => None
  end.

(** ** The object representation: eight bytes, as a 64-bit word *)

Definition sign_bit (s : bool) : Z := if s then 1 else 0.

Definition bits_of_double (d : double) : Z :=
  match d with
  | S754_zero s => sign_bit s * 2 ^ 63
  | S754_infinity s => sign_bit s * 2 ^ 63 + 2047 * 2 ^ 52
  | S754_nan => 2047 * 2 ^ 52 + 2 ^ 51
  | S754_finite s m e =>
      if Zpos m <? 2 ^ 52
      then sign_bit s * 2 ^ 63 + Zpos m
      else sign_bit s * 2 ^ 63 + (e + 1075) * 2 ^ 52 + (Zpos m - 2 ^ 52)
  end.

Definition double_of_bits (z : Z) : double :=
  let s := bool_decide (z / 2 ^ 63 = 1) in
  let ex := (z / 2 ^ 52) mod 2048 in
  let f := z mod 2 ^ 52 in
  if ex =? 2047 then (if f =? 0 then S754_infinity s else S754_nan)
  else if ex =? 0 then
    match f with Zpos m => S754_finite s m (-1074) | _ => S754_zero s end
  else S754_finite s (Z.to_pos (f + 2 ^ 52)) (ex - 1075).

(** ** [std::to_string(double)], that is [printf("%f")]: the exact value rounded
    to six decimals, ties to even.  The sign of a NaN is not represented. *)

Definition div_half_even (n d : Z) : Z :=
  let q := n / d in
  let r := n mod d in
  if (2 * r <? d) || ((2 * r =? d) && Z.even q) then q else q + 1.

Definition pad6 (z : Z) : string :=
  let s := pretty z in
  String.append (String.concat "" (replicate (6 - String.length s) "0"%string)) s.

Definition d_to_string (d : double) : string :=
  let dec (s : bool) (scaled : Z) : string :=
    String.append (if s then "-" else "")
      (String.append (pretty (scaled / 1000000))
        (String.append "." (pad6 (scaled mod 1000000)))) in
  match d with
  | S754_nan => "nan"
  | S754_infinity s => if s then "-inf" else "inf"
  | S754_zero s => dec s 0
  | S754_finite s m e =>
      dec s (if 0 <=? e then Zpos m * 2 ^ e * 1000000
             else div_half_even (Zpos m * 1000000) (2 ^ (- e)))
  end.

(** ** Facts *)

Lemma digits2_pos_bounds (m : positive) :
  2 ^ (Zpos (digits2_pos m) - 1) <= Zpos m < 2 ^ Zpos (digits2_pos m).
Proof.
  induction m as [m IH|m IH|]; simpl digits2_pos.
  - rewrite Pos2Z.inj_succ.
    replace (Z.succ (Zpos (digits2_pos m)) - 1) with (Z.succ (Zpos (digits2_pos m) - 1)) by lia.
    rewrite !Z.pow_succ_r by lia. lia.
  - rewrite Pos2Z.inj_succ.
    replace (Z.succ (Zpos (digits2_pos m)) - 1) with (Z.succ (Zpos (digits2_pos m) - 1)) by lia.
    rewrite !Z.pow_succ_r by lia. lia.
  - simpl. lia.
Qed.

(** What validity means for a finite double: either a normal number with a
    53-bit significand or a subnormal one at the least exponent. *)
Lemma valid_finite_cases s m e :
  d_valid (S754_finite s m e) →
  (2 ^ 52 <= Zpos m < 2 ^ 53 ∧ -1074 <= e <= 971) ∨ (Zpos m < 2 ^ 52 ∧ e = -1074).
Proof.
  unfold d_valid, valid_binary, bounded, canonical_mantissa, fexp, emin.
  intros [H1 H2]%andb_true_iff. apply Z.eqb_eq in H1. apply Z.leb_le in H2.
  change ((1024 - 53)%Z) with 971 in H2. change (3 - 1024 - 53) with (-1074) in H1.
  pose proof (digits2_pos_bounds m) as [Hl Hu].
  assert (Zpos (digits2_pos m) = 53 ∨ Zpos (digits2_pos m) < 53) as [E|E] by lia.
  - rewrite E in *. left. simpl in *. lia.
  - right. assert (2 ^ Zpos (digits2_pos m) <= 2 ^ 52).
    { apply Z.pow_le_mono_r; lia. }
    lia.
Qed.

Lemma unpack_fields b ex f :
  0 <= ex < 2048 → 0 <= f < 2 ^ 52 →
  let z := sign_bit b * 2 ^ 63 + ex * 2 ^ 52 + f in
  bool_decide (z / 2 ^ 63 = 1) = b ∧ (z / 2 ^ 52) mod 2048 = ex ∧ z mod 2 ^ 52 = f.
Proof.
  intros Hex Hf z.
  assert (z / 2 ^ 52 = sign_bit b * 2048 + ex) as E1.
  { unfold z. replace (sign_bit b * 2 ^ 63 + ex * 2 ^ 52 + f)
      with (f + (sign_bit b * 2048 + ex) * 2 ^ 52) by lia.
    rewrite Z.div_add by lia. rewrite Z.div_small by lia. lia. }
  assert (z / 2 ^ 63 = sign_bit b) as E2.
  { unfold z. replace (sign_bit b * 2 ^ 63 + ex * 2 ^ 52 + f)
      with ((ex * 2 ^ 52 + f) + sign_bit b * 2 ^ 63) by lia.
    rewrite Z.div_add by lia. rewrite Z.div_small by lia. lia. }
  split_and!.
  - rewrite E2. by destruct b.
  - rewrite E1. replace (sign_bit b * 2048 + ex) with (ex + sign_bit b * 2048) by lia.
    rewrite Z.mod_add by lia. by apply Z.mod_small.
  - unfold z. replace (sign_bit b * 2 ^ 63 + ex * 2 ^ 52 + f)
      with (f + (sign_bit b * 2048 + ex) * 2 ^ 52) by lia.
    rewrite Z.mod_add by lia. by apply Z.mod_small.
Qed.

Lemma bits_of_double_range d : d_valid d → in_u 64 (bits_of_double d).
Proof.
  unfold in_u. destruct d as [s|s| |s m e]; simpl; intros Hv;
    try (destruct s; simpl; lia); try lia.
  apply valid_finite_cases in Hv as [[Hm He]|[Hm ->]].
  - rewrite (proj2 (Z.ltb_ge _ _)) by lia. destruct s; simpl sign_bit; lia.
  - rewrite (proj2 (Z.ltb_lt _ _)) by lia. destruct s; simpl sign_bit; lia.
Qed.

(** Writing a double's bytes and reading them back gives the double. *)
Lemma double_of_bits_of_double d : d_valid d → double_of_bits (bits_of_double d) = d.
Proof.
  destruct d as [s|s| |s m e]; intros Hv.
  - by destruct s.
  - by destruct s.
  - done.
  - unfold bits_of_double. apply valid_finite_cases in Hv as [[Hm He]|[Hm ->]].
    + rewrite (proj2 (Z.ltb_ge _ _)) by lia.
      destruct (unpack_fields s (e + 1075) (Zpos m - 2 ^ 52)) as (E1 & E2 & E3); [lia..|].
      unfold double_of_bits. rewrite E1, E2, E3.
      rewrite (proj2 (Z.eqb_neq _ 2047)) by lia.
      rewrite (proj2 (Z.eqb_neq _ 0)) by lia.
      f_equal; lia.
    + rewrite (proj2 (Z.ltb_lt _ _)) by lia.
      destruct (unpack_fields s 0 (Zpos m)) as (E1 & E2 & E3); [lia..|].
      unfold double_of_bits.
      replace (sign_bit s * 2 ^ 63 + Zpos m) with (sign_bit s * 2 ^ 63 + 0 * 2 ^ 52 + Zpos m) by lia.
      rewrite E1, E2, E3. done.
Qed.

(** Every word decodes to a valid double. *)
Lemma double_of_bits_valid z : d_valid (double_of_bits z).
Proof.
  unfold double_of_bits, d_valid.
  set (s := bool_decide _). clearbody s.
  pose proof (Z.mod_pos_bound (z / 2 ^ 52) 2048) as Hex.
  pose proof (Z.mod_pos_bound z (2 ^ 52)) as Hf.
  set (ex := (z / 2 ^ 52) mod 2048) in *. set (f := z mod 2 ^ 52) in *.
  clearbody ex f. specialize (Hex ltac:(lia)). specialize (Hf ltac:(lia)).
  destruct (Z.eqb_spec ex 2047); [by destruct (f =? 0)|].
  destruct (Z.eqb_spec ex 0) as [->|Hne].
  - destruct f as [|m|m]; try done. simpl valid_binary.
    unfold bounded, canonical_mantissa, fexp, emin.
    apply andb_true_iff; split; [|done]. apply Z.eqb_eq.
    pose proof (digits2_pos_bounds m) as [Hl Hu].
    assert (Zpos (digits2_pos m) <= 52).
    { destruct (Z.le_gt_cases (Zpos (digits2_pos m)) 52); [done|].
      assert (2 ^ 52 <= 2 ^ (Zpos (digits2_pos m) - 1)) by (apply Z.pow_le_mono_r; lia). lia. }
    lia.
  - assert (∃ m, f + 2 ^ 52 = Zpos m) as [m Em].
    { exists (Z.to_pos (f + 2 ^ 52)). rewrite Z2Pos.id; lia. }
    rewrite Em. simpl Z.to_pos. simpl valid_binary.
    unfold bounded, canonical_mantissa, fexp, emin.
    pose proof (digits2_pos_bounds m) as [Hl Hu].
    assert (Zpos (digits2_pos m) = 53).
    { destruct (Z.le_gt_cases (Zpos (digits2_pos m)) 52).
      - assert (2 ^ Zpos (digits2_pos m) <= 2 ^ 52) by (apply Z.pow_le_mono_r; lia). lia.
      - destruct (Z.le_gt_cases (Zpos (digits2_pos m)) 53); [lia|].
        assert (2 ^ 53 <= 2 ^ (Zpos (digits2_pos m) - 1)) by (apply Z.pow_le_mono_r; lia). lia. }
    apply andb_true_iff; split; [apply Z.eqb_eq|apply Z.leb_le]; lia.
Qed.

(** Comparison facts the clients use. *)
Lemma d_lt_irrefl x : (x <? x)%D = false.
Proof.
  unfold d_lt, SFltb, SFcompare. destruct x as [s|s| |s m e]; try done; destruct s; try done;
  rewrite Z.compare_refl; change (Pos.compare_cont Eq m m) with (Pos.compare m m);
  by rewrite Pos.compare_refl.
Qed.

Example d_tenth : d_of_ratio 1 10 = S754_finite false 7205759403792794 (-56).
Proof. vm_compute. reflexivity. Qed.

Example d_to_string_neg : d_to_string (d_of_ratio (-12345) 1000) = "-12.345000"%string.
Proof. vm_compute. reflexivity. Qed.
