(* ===== verification/Event.v ===== *)
(** * Events (src/src/core/event.h)

    The event classes the engine exchanges: every class is a record holding
    the base class's fields in [*_base] and its own members, with one
    constructor function per C++ constructor and one function per setter.
    [any_event] is the dynamic type behind an [event_pointer]. *)

From S2P Require Import Prelude Float64.

Open Scope Z_scope.
Open Scope string_scope.

(** A [std::chrono::system_clock::time_point]: nanoseconds since the epoch
    (libstdc++'s representation, a signed 64-bit count). *)
Definition time_point : Type := Z.

(** ** Enumerations.  An [enum class] has underlying type [int] and a
    [static_cast] can give it a value none of the enumerators has: the [_raw]
    constructor of each type stands for those. *)

Inductive event_type :=
| et_market | et_signal | et_order | et_fill | et_tick | et_l2_snapshot
| et_l2_update | et_cancel | et_amend | et_rejection | et_funding
| et_raw (v : Z).

Inductive signal_type := sig_buy | sig_sell | sig_hold | sig_raw (v : Z).
Inductive order_type := ot_market | ot_limit | ot_stop | ot_stop_limit | ot_raw (v : Z).
Inductive time_in_force := tif_ioc | tif_fok | tif_gtc | tif_day | tif_raw (v : Z).
Inductive order_side := side_buy | side_sell | side_raw (v : Z).
Inductive fill_source := src_unknown | src_simulated | src_exchange | src_raw (v : Z).
Inductive tick_side := tick_bid | tick_ask | tick_unknown | tick_raw (v : Z).

#[export] Instance event_type_eq_dec : EqDecision event_type.
Proof. solve_decision. Defined.
#[export] Instance signal_type_eq_dec : EqDecision signal_type.
Proof. solve_decision. Defined.
#[export] Instance order_type_eq_dec : EqDecision order_type.
Proof. solve_decision. Defined.
#[export] Instance time_in_force_eq_dec : EqDecision time_in_force.
Proof. solve_decision. Defined.
#[export] Instance order_side_eq_dec : EqDecision order_side.
Proof. solve_decision. Defined.
#[export] Instance fill_source_eq_dec : EqDecision fill_source.
Proof. solve_decision. Defined.
#[export] Instance tick_side_eq_dec : EqDecision tick_side.
Proof. solve_decision. Defined.

(** The underlying integers. *)
Definition event_type_code (t : event_type) : Z :=
  match t with
  | et_market => 0 | et_signal => 1 | et_order => 2 | et_fill => 3 | et_tick => 4
  | et_l2_snapshot => 5 | et_l2_update => 6 | et_cancel => 7 | et_amend => 8
  | et_rejection => 9 | et_funding => 10 | et_raw v => v
  end.
Definition signal_type_code (t : signal_type) : Z :=
  match t with sig_buy => 0 | sig_sell => 1 | sig_hold => 2 | sig_raw v => v end.
Definition order_type_code (t : order_type) : Z :=
  match t with ot_market => 0 | ot_limit => 1 | ot_stop => 2 | ot_stop_limit => 3 | ot_raw v => v end.
Definition time_in_force_code (t : time_in_force) : Z :=
  match t with tif_ioc => 0 | tif_fok => 1 | tif_gtc => 2 | tif_day => 3 | tif_raw v => v end.
Definition order_side_code (t : order_side) : Z :=
  match t with side_buy => 0 | side_sell => 1 | side_raw v => v end.
Definition fill_source_code (t : fill_source) : Z :=
  match t with src_unknown => 0 | src_simulated => 1 | src_exchange => 2 | src_raw v => v end.
Definition tick_side_code (t : tick_side) : Z :=
  match t with tick_bid => 0 | tick_ask => 1 | tick_unknown => 2 | tick_raw v => v end.

(** ** The base class *)

Record event := {
  type_ : event_type;
  timestamp_ : time_point;
  recv_ns_ : Z;
  latency_ns_ : Z }.

Definition mk_event (t : event_type) (ts : time_point) : event :=
  {| type_ := t; timestamp_ := ts; recv_ns_ := 0; latency_ns_ := 0 |}.

Definition set_recv_ns (ns : Z) (e : event) : event :=
  {| type_ := type_ e; timestamp_ := timestamp_ e; recv_ns_ := ns; latency_ns_ := latency_ns_ e |}.
Definition set_latency_ns (ns : Z) (e : event) : event :=
  {| type_ := type_ e; timestamp_ := timestamp_ e; recv_ns_ := recv_ns_ e; latency_ns_ := ns |}.

Definition event_to_string (e : event) : string :=
  "Event[type=" +:+ pretty (event_type_code (type_ e)) +:+ "]".

(** ** Market data *)

Record market_event := {
  me_base : event;
  me_symbol : string;
  me_open : double; me_high : double; me_low : double; me_close : double;
  me_volume : Z }.

Definition mk_market_event (ts : time_point) (symbol : string)
    (open high low close : double) (volume : Z) : market_event :=
  {| me_base := mk_event et_market ts; me_symbol := symbol;
     me_open := open; me_high := high; me_low := low; me_close := close;
     me_volume := volume |}.

Definition market_event_to_string (e : market_event) : string :=
  "MarketEvent[" +:+ me_symbol e +:+ " OHLC=" +:+
  d_to_string (me_open e) +:+ "/" +:+ d_to_string (me_high e) +:+ "/" +:+
  d_to_string (me_low e) +:+ "/" +:+ d_to_string (me_close e) +:+ "]".

Record signal_event := {
  se_base : event;
  se_symbol : string;
  se_signal : signal_type;
  se_strength : double }.

Definition mk_signal_event (ts : time_point) (symbol : string)
    (signal : signal_type) (strength : double) : signal_event :=
  {| se_base := mk_event et_signal ts; se_symbol := symbol;
     se_signal := signal; se_strength := strength |}.

Definition signal_event_to_string (e : signal_event) : string :=
  let signal_str := match se_signal e with
    | sig_buy => "BUY" | sig_sell => "SELL" | sig_hold => "HOLD" | sig_raw _ => "" end in
  "SignalEvent[" +:+ se_symbol e +:+ " " +:+ signal_str +:+ " strength=" +:+
  d_to_string (se_strength e) +:+ "]".

(** ** Orders *)

Record order_event := {
  oe_base : event;
  oe_order_id : Z;
  oe_symbol : string;
  oe_order_type : order_type;
  oe_side : order_side;
  oe_quantity : double;
  oe_price : double;
  oe_tif : time_in_force;
  oe_stop_price : double;
  oe_earliest_eligible_ts : time_point;
  oe_strategy_name : string;
  oe_opener_order_id : Z }.

(** The constructor turns a good-till-cancel market order into an
    immediate-or-cancel one. *)
Definition mk_order_event (ts : time_point) (symbol : string) (ot : order_type)
    (side : order_side) (quantity price : double) (tif : time_in_force)
    (stop_price : double) : order_event :=
  {| oe_base := mk_event et_order ts;
     oe_order_id := 0;
     oe_symbol := symbol;
     oe_order_type := ot;
     oe_side := side;
     oe_quantity := quantity;
     oe_price := price;
     oe_tif := if bool_decide (tif = tif_gtc) && bool_decide (ot = ot_market)
               then tif_ioc else tif;
     oe_stop_price := stop_price;
     oe_earliest_eligible_ts := ts;
     oe_strategy_name := "";
     oe_opener_order_id := 0 |}.

(** The setters, as one update function over the mutable members. *)
Definition oe_update (e : order_event) (id : Z) (q p sp : double) (name : string)
    (opener : Z) (el : time_point) : order_event :=
  {| oe_base := oe_base e; oe_order_id := id; oe_symbol := oe_symbol e;
     oe_order_type := oe_order_type e; oe_side := oe_side e;
     oe_quantity := q; oe_price := p; oe_tif := oe_tif e; oe_stop_price := sp;
     oe_earliest_eligible_ts := el; oe_strategy_name := name;
     oe_opener_order_id := opener |}.

Definition set_order_id (id : Z) (e : order_event) : order_event :=
  oe_update e id (oe_quantity e) (oe_price e) (oe_stop_price e)
    (oe_strategy_name e) (oe_opener_order_id e) (oe_earliest_eligible_ts e).
Definition set_quantity (q : double) (e : order_event) : order_event :=
  oe_update e (oe_order_id e) q (oe_price e) (oe_stop_price e)
    (oe_strategy_name e) (oe_opener_order_id e) (oe_earliest_eligible_ts e).
Definition set_price (p : double) (e : order_event) : order_event :=
  oe_update e (oe_order_id e) (oe_quantity e) p (oe_stop_price e)
    (oe_strategy_name e) (oe_opener_order_id e) (oe_earliest_eligible_ts e).
Definition set_stop_price (p : double) (e : order_event) : order_event :=
  oe_update e (oe_order_id e) (oe_quantity e) (oe_price e) p
    (oe_strategy_name e) (oe_opener_order_id e) (oe_earliest_eligible_ts e).
Definition set_strategy_name (n : string) (e : order_event) : order_event :=
  oe_update e (oe_order_id e) (oe_quantity e) (oe_price e) (oe_stop_price e)
    n (oe_opener_order_id e) (oe_earliest_eligible_ts e).
Definition set_opener_order_id (id : Z) (e : order_event) : order_event :=
  oe_update e (oe_order_id e) (oe_quantity e) (oe_price e) (oe_stop_price e)
    (oe_strategy_name e) id (oe_earliest_eligible_ts e).
Definition set_earliest_eligible_ts (ts : time_point) (e : order_event) : order_event :=
  oe_update e (oe_order_id e) (oe_quantity e) (oe_price e) (oe_stop_price e)
    (oe_strategy_name e) (oe_opener_order_id e) ts.

Definition order_event_to_string (e : order_event) : string :=
  let side_str := if bool_decide (oe_side e = side_buy) then "BUY" else "SELL" in
  let type_str := match oe_order_type e with
    | ot_market => "MARKET" | ot_limit => "LIMIT" | ot_stop => "STOP"
    | ot_stop_limit => "STOP_LIMIT" | ot_raw _ => "" end in
  "OrderEvent[id=" +:+ pretty (oe_order_id e) +:+ " " +:+ type_str +:+ " " +:+
  side_str +:+ " " +:+ d_to_string (oe_quantity e) +:+ " " +:+ oe_symbol e +:+
  " @ " +:+ d_to_string (oe_price e) +:+ "]".

(** ** Fills *)

Record fill_event := {
  fe_base : event;
  fe_order_id : Z;
  fe_symbol : string;
  fe_side : order_side;
  fe_filled_quantity : double;
  fe_fill_price : double;
  fe_commission : double;
  fe_remaining_qty : double;
  fe_fill_id : Z;
  fe_source : fill_source;
  fe_strategy_name : string;
  fe_opener_order_id : Z }.

Definition mk_fill_event (ts : time_point) (symbol : string) (order_id : Z)
    (side : order_side) (filled_quantity fill_price commission remaining_qty : double)
    (fill_id : Z) (strategy_name : string) (opener_order_id : Z) : fill_event :=
  {| fe_base := mk_event et_fill ts;
     fe_order_id := order_id; fe_symbol := symbol; fe_side := side;
     fe_filled_quantity := filled_quantity; fe_fill_price := fill_price;
     fe_commission := commission; fe_remaining_qty := remaining_qty;
     fe_fill_id := fill_id; fe_source := src_unknown;
     fe_strategy_name := strategy_name; fe_opener_order_id := opener_order_id |}.

Definition fe_update (e : fill_event) (s : fill_source) (n : string) (o : Z) : fill_event :=
  {| fe_base := fe_base e;
     fe_order_id := fe_order_id e; fe_symbol := fe_symbol e; fe_side := fe_side e;
     fe_filled_quantity := fe_filled_quantity e; fe_fill_price := fe_fill_price e;
     fe_commission := fe_commission e; fe_remaining_qty := fe_remaining_qty e;
     fe_fill_id := fe_fill_id e; fe_source := s;
     fe_strategy_name := n; fe_opener_order_id := o |}.

Definition set_source (s : fill_source) (e : fill_event) : fill_event :=
  fe_update e s (fe_strategy_name e) (fe_opener_order_id e).
Definition fe_set_strategy_name (n : string) (e : fill_event) : fill_event :=
  fe_update e (fe_source e) n (fe_opener_order_id e).
Definition fe_set_opener_order_id (o : Z) (e : fill_event) : fill_event :=
  fe_update e (fe_source e) (fe_strategy_name e) o.

Definition is_partial (e : fill_event) : bool := (fe_remaining_qty e >? d_zero)%D.

Definition get_total_cost (e : fill_event) : double :=
  let base := (fe_filled_quantity e * fe_fill_price e)%D in
  if bool_decide (fe_side e = side_buy)
  then (base + fe_commission e)%D else (base - fe_commission e)%D.

Definition fill_event_to_string (e : fill_event) : string :=
  let side_str := if bool_decide (fe_side e = side_buy) then "BOUGHT" else "SOLD" in
  "FillEvent[order_id=" +:+ pretty (fe_order_id e) +:+
  " fill_id=" +:+ pretty (fe_fill_id e) +:+ " " +:+ side_str +:+ " " +:+
  d_to_string (fe_filled_quantity e) +:+ " " +:+ fe_symbol e +:+
  " @ " +:+ d_to_string (fe_fill_price e) +:+
  " remaining=" +:+ d_to_string (fe_remaining_qty e) +:+
  " commission=" +:+ d_to_string (fe_commission e) +:+
  (if bool_decide (fe_strategy_name e = "") then "" else " strategy=" +:+ fe_strategy_name e) +:+
  (if bool_decide (fe_opener_order_id e = 0) then "" else " opener=" +:+ pretty (fe_opener_order_id e)) +:+
  "]".

(** ** Ticks and depth *)

Record tick_event := {
  te_base : event;
  te_symbol : string;
  te_price : double;
  te_quantity : Z;
  te_side : tick_side }.

Definition mk_tick_event (ts : time_point) (symbol : string) (price : double)
    (quantity : Z) (side : tick_side) : tick_event :=
  {| te_base := mk_event et_tick ts; te_symbol := symbol; te_price := price;
     te_quantity := quantity; te_side := side |}.

Definition tick_event_to_string (e : tick_event) : string :=
  let side_str := match te_side e with
    | tick_bid => "BID" | tick_ask => "ASK" | tick_unknown => "UNK" | tick_raw _ => "" end in
  "TickEvent[" +:+ te_symbol e +:+ " " +:+ d_to_string (te_price e) +:+
  " x" +:+ pretty (te_quantity e) +:+ " " +:+ side_str +:+ "]".

Record l2_level := { l2_price : double; l2_quantity : Z }.

Definition kL2SnapshotMaxLevels : nat := 20.

(** The two fixed arrays and their counts are kept as the prefixes in use: the
    constructor copies [min(count, 20)] levels, and nothing reads a slot past
    the count.  The pointer-and-count arguments are the lists [bids], [asks]. *)
Record l2_snapshot_event := {
  ls_base : event;
  ls_symbol : string;
  ls_bids : list l2_level;
  ls_asks : list l2_level }.

Definition mk_l2_snapshot_event (ts : time_point) (symbol : string)
    (bids asks : list l2_level) : l2_snapshot_event :=
  {| ls_base := mk_event et_l2_snapshot ts; ls_symbol := symbol;
     ls_bids := take kL2SnapshotMaxLevels bids;
     ls_asks := take kL2SnapshotMaxLevels asks |}.

Definition bid_count (e : l2_snapshot_event) : nat := length (ls_bids e).
Definition ask_count (e : l2_snapshot_event) : nat := length (ls_asks e).

Definition l2_snapshot_event_to_string (e : l2_snapshot_event) : string :=
  "L2SnapshotEvent[" +:+ ls_symbol e +:+
  " bids=" +:+ pretty (Z.of_nat (bid_count e)) +:+
  " asks=" +:+ pretty (Z.of_nat (ask_count e)) +:+ "]".

Record l2_update_event := {
  lu_base : event;
  lu_symbol : string;
  lu_side : tick_side;
  lu_price : double;
  lu_new_quantity : Z }.

Definition mk_l2_update_event (ts : time_point) (symbol : string) (side : tick_side)
    (price : double) (new_quantity : Z) : l2_update_event :=
  {| lu_base := mk_event et_l2_update ts; lu_symbol := symbol; lu_side := side;
     lu_price := price; lu_new_quantity := new_quantity |}.

Definition l2_update_event_to_string (e : l2_update_event) : string :=
  let side_str := if bool_decide (lu_side e = tick_bid) then "BID" else "ASK" in
  "L2UpdateEvent[" +:+ lu_symbol e +:+ " " +:+ side_str +:+ " " +:+
  d_to_string (lu_price e) +:+ " qty=" +:+ pretty (lu_new_quantity e) +:+ "]".

(** ** Order management *)

Record cancel_event := {
  ce_base : event; ce_symbol : string; ce_order_id : Z; ce_reason : string }.

Definition mk_cancel_event (ts : time_point) (symbol : string) (order_id : Z)
    (reason : string) : cancel_event :=
  {| ce_base := mk_event et_cancel ts; ce_symbol := symbol;
     ce_order_id := order_id; ce_reason := reason |}.

Definition cancel_event_to_string (e : cancel_event) : string :=
  "CancelEvent[order_id=" +:+ pretty (ce_order_id e) +:+ " " +:+ ce_symbol e +:+
  " reason=" +:+ ce_reason e +:+ "]".

Record amend_event := {
  ae_base : event; ae_symbol : string; ae_order_id : Z;
  ae_new_price : double; ae_new_quantity : double }.

Definition mk_amend_event (ts : time_point) (symbol : string) (order_id : Z)
    (new_price new_quantity : double) : amend_event :=
  {| ae_base := mk_event et_amend ts; ae_symbol := symbol; ae_order_id := order_id;
     ae_new_price := new_price; ae_new_quantity := new_quantity |}.

Definition amend_event_to_string (e : amend_event) : string :=
  "AmendEvent[order_id=" +:+ pretty (ae_order_id e) +:+ " " +:+ ae_symbol e +:+
  " new_price=" +:+ d_to_string (ae_new_price e) +:+
  " new_qty=" +:+ d_to_string (ae_new_quantity e) +:+ "]".

Record rejection_event := {
  re_base : event; re_symbol : string; re_order_id : Z; re_reason : string }.

Definition mk_rejection_event (ts : time_point) (symbol : string) (order_id : Z)
    (reason : string) : rejection_event :=
  {| re_base := mk_event et_rejection ts; re_symbol := symbol;
     re_order_id := order_id; re_reason := reason |}.

Definition rejection_event_to_string (e : rejection_event) : string :=
  "RejectionEvent[order_id=" +:+ pretty (re_order_id e) +:+ " " +:+ re_symbol e +:+
  " reason=" +:+ re_reason e +:+ "]".

Record funding_event := {
  fu_base : event; fu_symbol : string;
  fu_qty_change : double; fu_cash_delta : double; fu_reason : string }.

Definition mk_funding_event (ts : time_point) (symbol : string)
    (qty_change cash_delta : double) (reason : string) : funding_event :=
  {| fu_base := mk_event et_funding ts; fu_symbol := symbol;
     fu_qty_change := qty_change; fu_cash_delta := cash_delta; fu_reason := reason |}.

Definition funding_event_to_string (e : funding_event) : string :=
  "FundingEvent[" +:+ fu_symbol e +:+ " qty=" +:+ d_to_string (fu_qty_change e) +:+
  " cash=" +:+ d_to_string (fu_cash_delta e) +:+ " reason=" +:+ fu_reason e +:+ "]".

(** ** The dynamic type of an event *)

Inductive any_event :=
| EvMarket (e : market_event)
| EvSignal (e : signal_event)
| EvOrder (e : order_event)
| EvFill (e : fill_event)
| EvTick (e : tick_event)
| EvL2Snapshot (e : l2_snapshot_event)
| EvL2Update (e : l2_update_event)
| EvCancel (e : cancel_event)
| EvAmend (e : amend_event)
| EvRejection (e : rejection_event)
| EvFunding (e : funding_event).

Definition ev_base (e : any_event) : event :=
  match e with
  | EvMarket e => me_base e | EvSignal e => se_base e | EvOrder e => oe_base e
  | EvFill e => fe_base e | EvTick e => te_base e | EvL2Snapshot e => ls_base e
  | EvL2Update e => lu_base e | EvCancel e => ce_base e | EvAmend e => ae_base e
  | EvRejection e => re_base e | EvFunding e => fu_base e
  end.

Definition get_timestamp (e : any_event) : time_point := timestamp_ (ev_base e).
Definition get_type (e : any_event) : event_type := type_ (ev_base e).

(** The virtual [to_string]. *)
Definition to_string (e : any_event) : string :=
  match e with
  | EvMarket e => market_event_to_string e | EvSignal e => signal_event_to_string e
  | EvOrder e => order_event_to_string e | EvFill e => fill_event_to_string e
  | EvTick e => tick_event_to_string e | EvL2Snapshot e => l2_snapshot_event_to_string e
  | EvL2Update e => l2_update_event_to_string e | EvCancel e => cancel_event_to_string e
  | EvAmend e => amend_event_to_string e | EvRejection e => rejection_event_to_string e
  | EvFunding e => funding_event_to_string e
  end.

Example fill_string :
  fill_event_to_string (mk_fill_event 0 "BTC" 7 side_sell (d_of_ratio 3 2) (d_of_Z 100)
    d_zero d_zero 9 "sma" 0)
  = "FillEvent[order_id=7 fill_id=9 SOLD 1.500000 BTC @ 100.000000 remaining=0.000000 commission=0.000000 strategy=sma]".
Proof. vm_compute. reflexivity. Qed.
