(* ===== verification/EventSerial.v ===== *)
(** * Event serialisation (namespace event_serial of src/src/core/event_log.h)

    The byte format of the event log: little-endian fixed-width integers, the
    eight bytes of a double, strings with a 16-bit length, timestamps in
    microseconds.  [BufReader] is a small state-and-error monad over the bytes
    left to read.  The central notion is [reads r w a]: the reader [r] consumes
    exactly the bytes [w], yields [a], and on any strict prefix of [w] throws
    the end-of-payload error.  It composes along [rbind], so every payload's
    round trip and truncation behaviour is derived field by field. *)

From S2P Require Import Prelude Float64 Event.
From Stdlib Require Import Strings.Byte.

Open Scope string_scope.
Open Scope list_scope.
Open Scope Z_scope.

Definition bytes : Type := list byte.

(** ** Bytes of an integer, least significant first (memcpy on x86-64) *)

Definition byte_of_Z (z : Z) : byte :=
  match Byte.of_N (Z.to_N (z mod 256)) with Some b => b | None => x00 end.
Definition Z_of_byte (b : byte) : Z := Z.of_N (Byte.to_N b).

Fixpoint le_bytes (n : nat) (z : Z) : bytes :=
  match n with
  | O => []
  | S n => byte_of_Z z :: le_bytes n (z / 256)
  end.

Fixpoint le_Z (bs : bytes) : Z :=
  match bs with
  | [] => 0
  | b :: bs => Z_of_byte b + 256 * le_Z bs
  end.

Definition write_u8 (v : Z) : bytes := le_bytes 1 v.
Definition write_u16 (v : Z) : bytes := le_bytes 2 v.
Definition write_u32 (v : Z) : bytes := le_bytes 4 v.
Definition write_u64 (v : Z) : bytes := le_bytes 8 v.
Definition write_i64 (v : Z) : bytes := le_bytes 8 v.
Definition write_f64 (v : double) : bytes := le_bytes 8 (bits_of_double v).
Definition write_i32 (v : Z) : bytes := le_bytes 4 v.

(** The length is cast to [uint16_t], and that many bytes are written. *)
Definition write_str (s : string) : bytes :=
  let bs := String.list_byte_of_string s in
  let len := u16 (Z.of_nat (length bs)) in
  write_u16 len ++ take (Z.to_nat len) bs.

(** [duration_cast<microseconds>] truncates toward zero. *)
Definition us_of_tp (tp : time_point) : Z := Z.quot tp 1000.
Definition tp_of_us (us : Z) : time_point := us * 1000.

Definition write_ts (tp : time_point) : bytes := write_i64 (us_of_tp tp).

(** ** BufReader *)

Definition reader (A : Type) : Type := bytes → exc (A * bytes).

Definition end_of_payload : string := "event_log: unexpected end of payload".

Definition rret {A} (a : A) : reader A := λ bs, Ret (a, bs).
Definition rbind {A B} (r : reader A) (f : A → reader B) : reader B := λ bs,
  match r bs with Ret (a, bs') => f a bs' | Throw w => Throw w end.

Declare Scope reader_scope.
Delimit Scope reader_scope with reader.
Notation "x <- r ;; k" := (rbind r (λ x, k))
  (at level 100, r at next level, right associativity) : reader_scope.
Open Scope reader_scope.

(** [ensure(n)] followed by the copy of [n] bytes and the advance of [p_]. *)
Definition read_bytes (n : nat) : reader bytes := λ bs,
  if (length bs <? n)%nat then Throw end_of_payload
  else Ret (take n bs, drop n bs).

Definition read_unsigned (n : nat) : reader Z := bs <- read_bytes n ;; rret (le_Z bs).

Definition read_u8 : reader Z := read_unsigned 1.
Definition read_u16 : reader Z := read_unsigned 2.
Definition read_u32 : reader Z := read_unsigned 4.
Definition read_u64 : reader Z := read_unsigned 8.
Definition read_i64 : reader Z := z <- read_unsigned 8 ;; rret (i64 z).
Definition read_i32 : reader Z := z <- read_unsigned 4 ;; rret (i32 z).
Definition read_f64 : reader double := z <- read_unsigned 8 ;; rret (double_of_bits z).

Definition read_str : reader string :=
  len <- read_u16 ;; bs <- read_bytes (Z.to_nat len) ;;
  rret (String.string_of_list_byte bs).

Definition read_ts : reader time_point := us <- read_i64 ;; rret (tp_of_us us).

(** ** Enumerations through a byte *)

Definition event_type_of (v : Z) : event_type :=
  match v with
  | 0 => et_market | 1 => et_signal | 2 => et_order | 3 => et_fill | 4 => et_tick
  | 5 => et_l2_snapshot | 6 => et_l2_update | 7 => et_cancel | 8 => et_amend
  | 9 => et_rejection | 10 => et_funding | _ => et_raw v
  end.
Definition signal_type_of (v : Z) : signal_type :=
  match v with 0 => sig_buy | 1 => sig_sell | 2 => sig_hold | _ => sig_raw v end.
Definition order_type_of (v : Z) : order_type :=
  match v with 0 => ot_market | 1 => ot_limit | 2 => ot_stop | 3 => ot_stop_limit | _ => ot_raw v end.
Definition time_in_force_of (v : Z) : time_in_force :=
  match v with 0 => tif_ioc | 1 => tif_fok | 2 => tif_gtc | 3 => tif_day | _ => tif_raw v end.
Definition order_side_of (v : Z) : order_side :=
  match v with 0 => side_buy | 1 => side_sell | _ => side_raw v end.
Definition fill_source_of (v : Z) : fill_source :=
  match v with 0 => src_unknown | 1 => src_simulated | 2 => src_exchange | _ => src_raw v end.
Definition tick_side_of (v : Z) : tick_side :=
  match v with 0 => tick_bid | 1 => tick_ask | 2 => tick_unknown | _ => tick_raw v end.

(** ** serialise, one overload per class *)

Definition serialise_market (e : market_event) : bytes :=
  write_ts (timestamp_ (me_base e)) ++ write_str (me_symbol e) ++
  write_f64 (me_open e) ++ write_f64 (me_high e) ++ write_f64 (me_low e) ++
  write_f64 (me_close e) ++ write_i64 (me_volume e).

Definition serialise_signal (e : signal_event) : bytes :=
  write_ts (timestamp_ (se_base e)) ++ write_str (se_symbol e) ++
  write_u8 (u8 (signal_type_code (se_signal e))) ++ write_f64 (se_strength e).

Definition serialise_order (e : order_event) : bytes :=
  write_ts (timestamp_ (oe_base e)) ++ write_str (oe_symbol e) ++
  write_u8 (u8 (order_type_code (oe_order_type e))) ++
  write_u8 (u8 (order_side_code (oe_side e))) ++
  write_f64 (oe_quantity e) ++ write_f64 (oe_price e) ++
  write_u8 (u8 (time_in_force_code (oe_tif e))) ++
  write_f64 (oe_stop_price e) ++ write_u64 (oe_order_id e) ++
  write_ts (oe_earliest_eligible_ts e).

Definition serialise_fill (e : fill_event) : bytes :=
  write_ts (timestamp_ (fe_base e)) ++ write_str (fe_symbol e) ++
  write_u64 (fe_order_id e) ++ write_u8 (u8 (order_side_code (fe_side e))) ++
  write_f64 (fe_filled_quantity e) ++ write_f64 (fe_fill_price e) ++
  write_f64 (fe_commission e) ++ write_f64 (fe_remaining_qty e) ++
  write_u64 (fe_fill_id e) ++ write_u8 (u8 (fill_source_code (fe_source e))).

Definition serialise_tick (e : tick_event) : bytes :=
  write_ts (timestamp_ (te_base e)) ++ write_str (te_symbol e) ++
  write_f64 (te_price e) ++ write_i64 (te_quantity e) ++
  write_u8 (u8 (tick_side_code (te_side e))).

Definition serialise_level (l : l2_level) : bytes :=
  write_f64 (l2_price l) ++ write_i64 (l2_quantity l).

Definition serialise_l2_snapshot (e : l2_snapshot_event) : bytes :=
  write_ts (timestamp_ (ls_base e)) ++ write_str (ls_symbol e) ++
  write_u32 (u32 (Z.of_nat (bid_count e))) ++ concat (map serialise_level (ls_bids e)) ++
  write_u32 (u32 (Z.of_nat (ask_count e))) ++ concat (map serialise_level (ls_asks e)).

Definition serialise_cancel (e : cancel_event) : bytes :=
  write_ts (timestamp_ (ce_base e)) ++ write_str (ce_symbol e) ++
  write_u64 (ce_order_id e) ++ write_str (ce_reason e).

Definition serialise_l2_update (e : l2_update_event) : bytes :=
  write_ts (timestamp_ (lu_base e)) ++ write_str (lu_symbol e) ++
  write_u8 (u8 (tick_side_code (lu_side e))) ++ write_f64 (lu_price e) ++
  write_i64 (lu_new_quantity e).

Definition serialise_amend (e : amend_event) : bytes :=
  write_ts (timestamp_ (ae_base e)) ++ write_str (ae_symbol e) ++
  write_u64 (ae_order_id e) ++ write_f64 (ae_new_price e) ++ write_f64 (ae_new_quantity e).

Definition serialise_rejection (e : rejection_event) : bytes :=
  write_ts (timestamp_ (re_base e)) ++ write_str (re_symbol e) ++
  write_u64 (re_order_id e) ++ write_str (re_reason e).

Definition serialise_funding (e : funding_event) : bytes :=
  write_ts (timestamp_ (fu_base e)) ++ write_str (fu_symbol e) ++
  write_f64 (fu_qty_change e) ++ write_f64 (fu_cash_delta e) ++ write_str (fu_reason e).

(** The dispatch on the event's type that [EventLogger::log] makes. *)
Definition serialise (e : any_event) : bytes :=
  match e with
  | EvMarket e => serialise_market e | EvSignal e => serialise_signal e
  | EvOrder e => serialise_order e | EvFill e => serialise_fill e
  | EvTick e => serialise_tick e | EvL2Snapshot e => serialise_l2_snapshot e
  | EvL2Update e => serialise_l2_update e | EvCancel e => serialise_cancel e
  | EvAmend e => serialise_amend e | EvRejection e => serialise_rejection e
  | EvFunding e => serialise_funding e
  end.

(** ** deserialise, one case of the switch per definition *)

Definition read_market : reader market_event :=
  ts <- read_ts ;; symbol <- read_str ;; open <- read_f64 ;; high <- read_f64 ;;
  low <- read_f64 ;; close <- read_f64 ;; volume <- read_i64 ;;
  rret (mk_market_event ts symbol open high low close volume).

Definition read_signal : reader signal_event :=
  ts <- read_ts ;; symbol <- read_str ;; sig <- read_u8 ;; strength <- read_f64 ;;
  rret (mk_signal_event ts symbol (signal_type_of sig) strength).

Definition read_order : reader order_event :=
  ts <- read_ts ;; symbol <- read_str ;; ot <- read_u8 ;; sd <- read_u8 ;;
  qty <- read_f64 ;; price <- read_f64 ;; tif <- read_u8 ;; stop_price <- read_f64 ;;
  oid <- read_u64 ;; elig_ts <- read_ts ;;
  rret (set_earliest_eligible_ts elig_ts (set_order_id oid
    (mk_order_event ts symbol (order_type_of ot) (order_side_of sd) qty price
      (time_in_force_of tif) stop_price))).

(** The last three members are read inside a [try] whose handler is empty:
    what was assigned before the exception stays. *)
Definition read_fill_tail : reader (double * Z * fill_source) := λ bs,
  match read_f64 bs with
  | Throw _ => Ret (d_zero, 0, src_unknown, bs)
  | Ret (remaining, bs1) =>
      match read_u64 bs1 with
      | Throw _ => Ret (remaining, 0, src_unknown, bs1)
      | Ret (fill_id, bs2) =>
          match read_u8 bs2 with
          | Throw _ => Ret (remaining, fill_id, src_unknown, bs2)
          | Ret (src, bs3) => Ret (remaining, fill_id, fill_source_of src, bs3)
          end
      end
  end.

Definition read_fill : reader fill_event :=
  ts <- read_ts ;; symbol <- read_str ;; oid <- read_u64 ;; sd <- read_u8 ;;
  qty <- read_f64 ;; price <- read_f64 ;; commission <- read_f64 ;;
  t <- read_fill_tail ;;
  rret (set_source t.2
    (mk_fill_event ts symbol oid (order_side_of sd) qty price commission t.1.1 t.1.2 "" 0)).

Definition read_tick : reader tick_event :=
  ts <- read_ts ;; symbol <- read_str ;; price <- read_f64 ;; qty <- read_i64 ;;
  sd <- read_u8 ;; rret (mk_tick_event ts symbol price qty (tick_side_of sd)).

Definition read_level : reader l2_level :=
  p <- read_f64 ;; q <- read_i64 ;; rret {| l2_price := p; l2_quantity := q |}.

Fixpoint read_levels (n : nat) : reader (list l2_level) :=
  match n with
  | O => rret []
  | S n => l <- read_level ;; ls <- read_levels n ;; rret (l :: ls)
  end.

(** [min(n, 20)] levels are kept and the rest of the announced ones skipped. *)
Definition read_side : reader (list l2_level) :=
  n <- read_u32 ;;
  kept <- read_levels (Nat.min (Z.to_nat n) kL2SnapshotMaxLevels) ;;
  skipped <- read_levels (Z.to_nat n - Nat.min (Z.to_nat n) kL2SnapshotMaxLevels) ;;
  rret kept.

Definition read_l2_snapshot : reader l2_snapshot_event :=
  ts <- read_ts ;; symbol <- read_str ;; bids <- read_side ;; asks <- read_side ;;
  rret (mk_l2_snapshot_event ts symbol bids asks).

Definition read_l2_update : reader l2_update_event :=
  ts <- read_ts ;; symbol <- read_str ;; sd <- read_u8 ;; price <- read_f64 ;;
  new_qty <- read_i64 ;; rret (mk_l2_update_event ts symbol (tick_side_of sd) price new_qty).

Definition read_cancel : reader cancel_event :=
  ts <- read_ts ;; symbol <- read_str ;; oid <- read_u64 ;; reason <- read_str ;;
  rret (mk_cancel_event ts symbol oid reason).

Definition read_amend : reader amend_event :=
  ts <- read_ts ;; symbol <- read_str ;; oid <- read_u64 ;; new_price <- read_f64 ;;
  new_qty <- read_f64 ;; rret (mk_amend_event ts symbol oid new_price new_qty).

Definition read_rejection : reader rejection_event :=
  ts <- read_ts ;; symbol <- read_str ;; oid <- read_u64 ;; reason <- read_str ;;
  rret (mk_rejection_event ts symbol oid reason).

Definition read_funding : reader funding_event :=
  ts <- read_ts ;; symbol <- read_str ;; qty <- read_f64 ;; cash <- read_f64 ;;
  reason <- read_str ;; rret (mk_funding_event ts symbol qty cash reason).

Definition read_event (t : event_type) : reader any_event :=
  match t with
  | et_market => e <- read_market ;; rret (EvMarket e)
  | et_signal => e <- read_signal ;; rret (EvSignal e)
  | et_order => e <- read_order ;; rret (EvOrder e)
  | et_fill => e <- read_fill ;; rret (EvFill e)
  | et_tick => e <- read_tick ;; rret (EvTick e)
  | et_l2_snapshot => e <- read_l2_snapshot ;; rret (EvL2Snapshot e)
  | et_l2_update => e <- read_l2_update ;; rret (EvL2Update e)
  | et_cancel => e <- read_cancel ;; rret (EvCancel e)
  | et_amend => e <- read_amend ;; rret (EvAmend e)
  | et_rejection => e <- read_rejection ;; rret (EvRejection e)
  | et_funding => e <- read_funding ;; rret (EvFunding e)
  | et_raw v => λ _, Throw ("event_log: unknown event type " +:+ pretty v)
  end.

(** [deserialise(type, data, size)]: the bytes after the last member are
    ignored. *)
Definition deserialise (t : event_type) (data : bytes) : exc any_event :=
  match read_event t data with Ret (e, _) => Ret e | Throw w => Throw w end.

(** ** Facts on bytes *)

Lemma Z_of_byte_range b : 0 <= Z_of_byte b < 256.
Proof. unfold Z_of_byte. pose proof (Byte.to_N_bounded b). lia. Qed.

Lemma Z_of_byte_of_Z z : Z_of_byte (byte_of_Z z) = z mod 256.
Proof.
  unfold Z_of_byte, byte_of_Z. pose proof (Z.mod_pos_bound z 256).
  destruct (Byte.of_N (Z.to_N (z mod 256))) as [b|] eqn:E.
  - apply Byte.to_of_N in E. rewrite E. lia.
  - apply Byte.of_N_None_iff in E. lia.
Qed.

Lemma le_bytes_length n z : length (le_bytes n z) = n.
Proof. revert z; induction n; intros; simpl; auto. Qed.

Lemma le_Z_bytes n z : le_Z (le_bytes n z) = z mod 256 ^ Z.of_nat n.
Proof.
  revert z; induction n as [|n IH]; intros z; simpl le_bytes; simpl le_Z.
  - by rewrite Z.mod_1_r.
  - rewrite IH, Z_of_byte_of_Z, Nat2Z.inj_succ, Z.pow_succ_r by lia.
    rewrite (Z.rem_mul_r z 256 (256 ^ Z.of_nat n)); lia.
Qed.

Lemma le_bytes_inj n z1 z2 :
  0 <= z1 < 256 ^ Z.of_nat n → 0 <= z2 < 256 ^ Z.of_nat n →
  le_bytes n z1 = le_bytes n z2 → z1 = z2.
Proof.
  intros H1 H2 E. apply (f_equal le_Z) in E. rewrite !le_Z_bytes in E.
  rewrite !Z.mod_small in E; lia.
Qed.

(** ** Exact readers *)

Definition reads {A} (r : reader A) (w : bytes) (a : A) : Prop :=
  (∀ k, r (w ++ k) = Ret (a, k)) ∧
  (∀ n, (n < length w)%nat → r (take n w) = Throw end_of_payload).

Create HintDb codec.

Lemma reads_ret {A} (a : A) : reads (rret a) [] a.
Proof. split; [done|]. simpl. lia. Qed.

Lemma reads_bind {A B} (r : reader A) (f : A → reader B) w1 w2 a b :
  reads r w1 a → reads (f a) w2 b → reads (rbind r f) (w1 ++ w2) b.
Proof.
  intros [R1 T1] [R2 T2]. split.
  - intros k. unfold rbind. rewrite <- app_assoc, R1. apply R2.
  - intros n Hn. unfold rbind. rewrite length_app in Hn.
    destruct (decide (n < length w1)%nat) as [Hlt|Hge].
    + rewrite take_app_le by lia. by rewrite T1.
    + rewrite take_app_ge by lia. rewrite R1. apply T2. lia.
Qed.

Lemma reads_bind_ret {A B} (r : reader A) (f : A → B) w a :
  reads r w a → reads (rbind r (λ x, rret (f x))) w (f a).
Proof.
  intros H. rewrite <- (app_nil_r w). eapply reads_bind; [done|apply reads_ret].
Qed.

Lemma reads_eq {A} (r : reader A) w a b : reads r w a → a = b → reads r w b.
Proof. by intros H <-. Qed.

Lemma reads_bytes bs : reads (read_bytes (length bs)) bs bs.
Proof.
  split.
  - intros k. unfold read_bytes. rewrite length_app.
    destruct (Nat.ltb_spec (length bs + length k) (length bs)); [lia|].
    by rewrite take_app_length, drop_app_length.
  - intros n Hn. unfold read_bytes. rewrite length_take.
    destruct (Nat.ltb_spec (n `min` length bs)%nat (length bs)); [done|lia].
Qed.

Lemma reads_unsigned n z :
  reads (read_unsigned n) (le_bytes n z) (z mod 256 ^ Z.of_nat n).
Proof.
  rewrite <- le_Z_bytes. apply reads_bind_ret.
  rewrite <- (le_bytes_length n z) at 1. apply reads_bytes.
Qed.

Lemma reads_u8 v : in_u 8 v → reads read_u8 (write_u8 v) v.
Proof.
  intros H. unfold in_u in H. pose proof (reads_unsigned 1 v) as R.
  rewrite Z.mod_small in R by (simpl; lia). exact R.
Qed.
Lemma reads_u16 v : in_u 16 v → reads read_u16 (write_u16 v) v.
Proof.
  intros H. unfold in_u in H. pose proof (reads_unsigned 2 v) as R.
  rewrite Z.mod_small in R by (simpl; lia). exact R.
Qed.
Lemma reads_u32 v : in_u 32 v → reads read_u32 (write_u32 v) v.
Proof.
  intros H. unfold in_u in H. pose proof (reads_unsigned 4 v) as R.
  rewrite Z.mod_small in R by (simpl; lia). exact R.
Qed.
Lemma reads_u64 v : in_u 64 v → reads read_u64 (write_u64 v) v.
Proof.
  intros H. unfold in_u in H. pose proof (reads_unsigned 8 v) as R.
  rewrite Z.mod_small in R by (simpl; lia). exact R.
Qed.
Lemma reads_i64 v : in_s 64 v → reads read_i64 (write_i64 v) v.
Proof.
  intros H. pose proof (reads_unsigned 8 v) as R.
  change (256 ^ Z.of_nat 8) with (2 ^ 64) in R. fold (wrapu 64 v) in R.
  apply (reads_bind_ret _ (λ z, i64 z)) in R.
  rewrite wraps_wrapu, wraps_id in R by (done || lia). exact R.
Qed.
Lemma reads_i32 v : in_s 32 v → reads read_i32 (write_i32 v) v.
Proof.
  intros H. pose proof (reads_unsigned 4 v) as R.
  change (256 ^ Z.of_nat 4) with (2 ^ 32) in R. fold (wrapu 32 v) in R.
  apply (reads_bind_ret _ (λ z, i32 z)) in R.
  rewrite wraps_wrapu, wraps_id in R by (done || lia). exact R.
Qed.
Lemma reads_f64 d : d_valid d → reads read_f64 (write_f64 d) d.
Proof.
  intros Hv. pose proof (bits_of_double_range d Hv) as H.
  pose proof (reads_bind_ret _ double_of_bits _ _ (reads_u64 _ H)) as R.
  rewrite double_of_bits_of_double in R by done. exact R.
Qed.

(** What a string keeps: its first [length mod 65536] bytes. *)
Definition truncate_str (s : string) : string :=
  let bs := String.list_byte_of_string s in
  String.string_of_list_byte (take (Z.to_nat (u16 (Z.of_nat (length bs)))) bs).

Definition truncate_tp (tp : time_point) : time_point := tp_of_us (us_of_tp tp).

Lemma reads_str s : reads read_str (write_str s) (truncate_str s).
Proof.
  unfold read_str, write_str, truncate_str.
  set (bs := String.list_byte_of_string s).
  set (len := u16 (Z.of_nat (length bs))).
  assert (in_u 16 len) as Hl by (apply wrapu_range; lia).
  eapply reads_bind; [by apply reads_u16|].
  apply (reads_bind_ret _ String.string_of_list_byte).
  assert (length (take (Z.to_nat len) bs) = Z.to_nat len) as E.
  { rewrite length_take. apply Nat.min_l. unfold len, wrapu.
    pose proof (Z.mod_le (Z.of_nat (length bs)) (2 ^ 16)). lia. }
  rewrite <- E at 1. apply reads_bytes.
Qed.

Lemma reads_ts tp : in_s 64 tp → reads read_ts (write_ts tp) (truncate_tp tp).
Proof.
  intros H. apply (reads_bind_ret _ tp_of_us). apply reads_i64.
  unfold in_s, us_of_tp in *. pose proof (Z.quot_rem' tp 1000).
  pose proof (Z.rem_bound_abs tp 1000). lia.
Qed.

#[export] Hint Resolve reads_u8 reads_u16 reads_u32 reads_u64 reads_i64 reads_f64
  reads_str reads_ts reads_ret : codec.
#[export] Hint Resolve wrapu_range : codec.
#[export] Hint Extern 1 (_ <= _) => lia : codec.

(** ** What serialisation keeps of an event *)

(** The values a C++ object of the class can hold. *)
Definition base_ok (e : event) : Prop := in_s 64 (timestamp_ e).

(** An enumerator, or a value a [static_cast] from a byte gives. *)
Definition enum_ok {E} (dec : Z → E) (code : E → Z) (t : E) : Prop :=
  dec (code t) = t ∧ in_u 8 (code t).

Definition level_ok (l : l2_level) : Prop := d_valid (l2_price l) ∧ in_s 64 (l2_quantity l).

Definition event_ok (e : any_event) : Prop :=
  base_ok (ev_base e) ∧
  match e with
  | EvMarket e => d_valid (me_open e) ∧ d_valid (me_high e) ∧ d_valid (me_low e) ∧
      d_valid (me_close e) ∧ in_s 64 (me_volume e)
  | EvSignal e => d_valid (se_strength e) ∧ enum_ok signal_type_of signal_type_code (se_signal e)
  | EvOrder e => d_valid (oe_quantity e) ∧ d_valid (oe_price e) ∧ d_valid (oe_stop_price e) ∧
      in_u 64 (oe_order_id e) ∧ in_s 64 (oe_earliest_eligible_ts e) ∧
      enum_ok order_type_of order_type_code (oe_order_type e) ∧
      enum_ok order_side_of order_side_code (oe_side e) ∧
      enum_ok time_in_force_of time_in_force_code (oe_tif e) ∧
      ¬ (oe_tif e = tif_gtc ∧ oe_order_type e = ot_market)
  | EvFill e => d_valid (fe_filled_quantity e) ∧ d_valid (fe_fill_price e) ∧
      d_valid (fe_commission e) ∧ d_valid (fe_remaining_qty e) ∧
      in_u 64 (fe_order_id e) ∧ in_u 64 (fe_fill_id e) ∧
      enum_ok order_side_of order_side_code (fe_side e) ∧
      enum_ok fill_source_of fill_source_code (fe_source e)
  | EvTick e => d_valid (te_price e) ∧ in_s 64 (te_quantity e) ∧
      enum_ok tick_side_of tick_side_code (te_side e)
  | EvL2Snapshot e => Forall level_ok (ls_bids e) ∧ Forall level_ok (ls_asks e) ∧
      (length (ls_bids e) <= kL2SnapshotMaxLevels)%nat ∧
      (length (ls_asks e) <= kL2SnapshotMaxLevels)%nat
  | EvL2Update e => d_valid (lu_price e) ∧ in_s 64 (lu_new_quantity e) ∧
      enum_ok tick_side_of tick_side_code (lu_side e)
  | EvCancel e => in_u 64 (ce_order_id e)
  | EvAmend e => in_u 64 (ae_order_id e) ∧ d_valid (ae_new_price e) ∧ d_valid (ae_new_quantity e)
  | EvRejection e => in_u 64 (re_order_id e)
  | EvFunding e => d_valid (fu_qty_change e) ∧ d_valid (fu_cash_delta e)
  end.

(** The event a payload decodes to: the receive and latency stamps, the
    strategy name and the opener id are not in the format, timestamps lose
    their sub-microsecond part, and strings are cut at [length mod 65536]. *)
Definition normalise (e : any_event) : any_event :=
  let ts := truncate_tp (get_timestamp e) in
  match e with
  | EvMarket e => EvMarket (mk_market_event ts (truncate_str (me_symbol e))
      (me_open e) (me_high e) (me_low e) (me_close e) (me_volume e))
  | EvSignal e => EvSignal (mk_signal_event ts (truncate_str (se_symbol e))
      (se_signal e) (se_strength e))
  | EvOrder e => EvOrder (set_earliest_eligible_ts (truncate_tp (oe_earliest_eligible_ts e))
      (set_order_id (oe_order_id e)
        (mk_order_event ts (truncate_str (oe_symbol e)) (oe_order_type e) (oe_side e)
          (oe_quantity e) (oe_price e) (oe_tif e) (oe_stop_price e))))
  | EvFill e => EvFill (set_source (fe_source e)
      (mk_fill_event ts (truncate_str (fe_symbol e)) (fe_order_id e)
        (fe_side e) (fe_filled_quantity e)
        (fe_fill_price e) (fe_commission e) (fe_remaining_qty e) (fe_fill_id e) "" 0))
  | EvTick e => EvTick (mk_tick_event ts (truncate_str (te_symbol e)) (te_price e)
      (te_quantity e) (te_side e))
  | EvL2Snapshot e => EvL2Snapshot (mk_l2_snapshot_event ts (truncate_str (ls_symbol e))
      (ls_bids e) (ls_asks e))
  | EvL2Update e => EvL2Update (mk_l2_update_event ts (truncate_str (lu_symbol e))
      (lu_side e) (lu_price e) (lu_new_quantity e))
  | EvCancel e => EvCancel (mk_cancel_event ts (truncate_str (ce_symbol e))
      (ce_order_id e) (truncate_str (ce_reason e)))
  | EvAmend e => EvAmend (mk_amend_event ts (truncate_str (ae_symbol e))
      (ae_order_id e) (ae_new_price e) (ae_new_quantity e))
  | EvRejection e => EvRejection (mk_rejection_event ts (truncate_str (re_symbol e))
      (re_order_id e) (truncate_str (re_reason e)))
  | EvFunding e => EvFunding (mk_funding_event ts (truncate_str (fu_symbol e))
      (fu_qty_change e) (fu_cash_delta e) (truncate_str (fu_reason e)))
  end.

(** The type tag of the dynamic class, which [log] writes and [deserialise]
    switches on. *)
Definition ev_tag (e : any_event) : event_type :=
  match e with
  | EvMarket _ => et_market | EvSignal _ => et_signal | EvOrder _ => et_order
  | EvFill _ => et_fill | EvTick _ => et_tick | EvL2Snapshot _ => et_l2_snapshot
  | EvL2Update _ => et_l2_update | EvCancel _ => et_cancel | EvAmend _ => et_amend
  | EvRejection _ => et_rejection | EvFunding _ => et_funding
  end.

(** Consume the next [n] fields of a payload. *)
Tactic Notation "reads_fields" integer(n) := do n (eapply reads_bind; [solve [eauto with codec]|]).

(** An enumerator through its byte. *)
Lemma enum_byte {E} (dec : Z → E) (code : E → Z) t : enum_ok dec code t → dec (u8 (code t)) = t.
Proof. intros [E1 E2]. by rewrite wrapu_id. Qed.

Lemma reads_level l : level_ok l → reads read_level (serialise_level l) l.
Proof.
  intros [Hp Hq]. unfold read_level, serialise_level.
  eapply reads_bind; [by apply reads_f64|].
  destruct l as [p q]; simpl in *.
  by apply (reads_bind_ret _ (λ q, {| l2_price := p; l2_quantity := q |})), reads_i64.
Qed.

Lemma reads_levels ls :
  Forall level_ok ls → reads (read_levels (length ls)) (concat (map serialise_level ls)) ls.
Proof.
  induction 1 as [|l ls Hl Hls IH]; [apply reads_ret|].
  cbn [length map concat read_levels].
  eapply reads_bind; [by apply reads_level|].
  by apply (reads_bind_ret _ (λ ls, l :: ls)).
Qed.

Lemma reads_side ls :
  Forall level_ok ls → (length ls <= kL2SnapshotMaxLevels)%nat →
  reads read_side (write_u32 (u32 (Z.of_nat (length ls))) ++ concat (map serialise_level ls)) ls.
Proof.
  intros Hok Hlen. unfold read_side.
  assert (u32 (Z.of_nat (length ls)) = Z.of_nat (length ls)) as E.
  { apply wrapu_id. unfold in_u, kL2SnapshotMaxLevels in *. lia. }
  rewrite E. eapply reads_bind.
  { apply reads_u32. unfold in_u, kL2SnapshotMaxLevels in *. lia. }
  rewrite Nat2Z.id, Nat.min_l by done. rewrite Nat.sub_diag.
  rewrite <- (app_nil_r (concat _)).
  eapply reads_bind; [by apply reads_levels|].
  apply (reads_bind_ret (rret []) (λ _, ls) [] []), reads_ret.
Qed.

#[export] Hint Resolve reads_side : codec.

Lemma reads_fill_tail rem fid src :
  d_valid rem → in_u 64 fid → in_u 8 src →
  ∀ k, read_fill_tail ((write_f64 rem ++ write_u64 fid ++ write_u8 src) ++ k)
       = Ret (rem, fid, fill_source_of src, k).
Proof.
  intros Hr Hf Hs k. unfold read_fill_tail. rewrite <- !app_assoc.
  rewrite (proj1 (reads_f64 _ Hr)), (proj1 (reads_u64 _ Hf)), (proj1 (reads_u8 _ Hs)). done.
Qed.

(** The members of a fill every version of the format has. *)
Definition fill_head_reader : reader (time_point * string * Z * Z * double * double * double) :=
  ts <- read_ts ;; symbol <- read_str ;; oid <- read_u64 ;; sd <- read_u8 ;;
  qty <- read_f64 ;; price <- read_f64 ;; commission <- read_f64 ;;
  rret (ts, symbol, oid, sd, qty, price, commission).

Definition fill_head (e : fill_event) : bytes :=
  write_ts (timestamp_ (fe_base e)) ++ write_str (fe_symbol e) ++
  write_u64 (fe_order_id e) ++ write_u8 (u8 (order_side_code (fe_side e))) ++
  write_f64 (fe_filled_quantity e) ++ write_f64 (fe_fill_price e) ++
  write_f64 (fe_commission e).

Definition fill_tail (e : fill_event) : bytes :=
  write_f64 (fe_remaining_qty e) ++ write_u64 (fe_fill_id e) ++
  write_u8 (u8 (fill_source_code (fe_source e))).

Lemma serialise_fill_split e : serialise_fill e = fill_head e ++ fill_tail e.
Proof. unfold serialise_fill, fill_head, fill_tail. by rewrite <- !app_assoc. Qed.

Lemma rbind_assoc {A B C} (r : reader A) (f : A → reader B) (g : B → reader C) bs :
  rbind (rbind r f) g bs = rbind r (λ a, rbind (f a) g) bs.
Proof. unfold rbind. destruct (r bs) as [[a b]|w]; done. Qed.

Lemma read_fill_split bs :
  read_fill bs =
  (h <- fill_head_reader ;; t <- read_fill_tail ;;
   rret (set_source t.2 (mk_fill_event h.1.1.1.1.1.1 h.1.1.1.1.1.2 h.1.1.1.1.2
     (order_side_of h.1.1.1.2) h.1.1.2 h.1.2 h.2 t.1.1 t.1.2 "" 0))) bs.
Proof.
  unfold read_fill, fill_head_reader. unfold rbind, rret.
  repeat match goal with |- context [match ?r ?b with Ret _ => _ | Throw _ => _ end] =>
    destruct (r b) as [[? ?]|?]; [|done] end.
  done.
Qed.

Lemma reads_fill_head e :
  event_ok (EvFill e) →
  reads fill_head_reader (fill_head e)
    (truncate_tp (timestamp_ (fe_base e)), truncate_str (fe_symbol e), fe_order_id e,
     u8 (order_side_code (fe_side e)), fe_filled_quantity e, fe_fill_price e, fe_commission e).
Proof.
  intros (Hb & Hq & Hp & Hc & Hr & Ho & Hf). unfold fill_head_reader, fill_head.
  reads_fields 6.
  apply (reads_bind_ret _ (λ c, (truncate_tp (timestamp_ (fe_base e)), truncate_str (fe_symbol e),
    fe_order_id e, u8 (order_side_code (fe_side e)), fe_filled_quantity e, fe_fill_price e, c))).
  eauto with codec.
Qed.

(** Every payload but a fill's is exact. *)
Definition is_fill (e : any_event) : bool := match e with EvFill _ => true | _ => false end.

Lemma serialise_exact e :
  event_ok e → is_fill e = false →
  reads (read_event (ev_tag e)) (serialise e) (normalise e).
Proof.
  intros Hok Hnf. destruct e as [e|e|e|e|e|e|e|e|e|e|e]; try discriminate Hnf;
    destruct Hok as [Hb Hok]; cbn [ev_base] in *; cbn [ev_tag read_event serialise];
    destruct_and?; (eapply reads_eq;
      [|unfold normalise, get_timestamp; cbn [ev_base];
        repeat match goal with H : enum_ok _ _ _ |- _ =>
          rewrite <- (enum_byte _ _ _ H); clear H end; reflexivity]).
  - apply (reads_bind_ret _ EvMarket). unfold read_market, serialise_market.
    reads_fields 6.
    eapply (reads_bind_ret _ (λ v, mk_market_event _ _ _ _ _ _ v)); eauto with codec.
  - apply (reads_bind_ret _ EvSignal). unfold read_signal, serialise_signal.
    reads_fields 3.
    eapply (reads_bind_ret _ (λ v, mk_signal_event _ _ _ v)); eauto with codec.
  - eapply (reads_bind_ret _ EvOrder). unfold read_order, serialise_order.
    reads_fields 9.
    eapply (reads_bind_ret _ (λ v, set_earliest_eligible_ts v _)); eauto with codec.
  - apply (reads_bind_ret _ EvTick). unfold read_tick, serialise_tick.
    reads_fields 4.
    eapply (reads_bind_ret _ (λ v, mk_tick_event _ _ _ _ (tick_side_of v))); eauto with codec.
  - apply (reads_bind_ret _ EvL2Snapshot).
    unfold read_l2_snapshot, serialise_l2_snapshot, bid_count, ask_count.
    reads_fields 2.
    rewrite app_assoc. eapply reads_bind; [eauto with codec|].
    eapply (reads_bind_ret _ (λ v, mk_l2_snapshot_event _ _ _ v)); eauto with codec.
  - apply (reads_bind_ret _ EvL2Update). unfold read_l2_update, serialise_l2_update.
    reads_fields 4.
    eapply (reads_bind_ret _ (λ v, mk_l2_update_event _ _ _ _ v)); eauto with codec.
  - apply (reads_bind_ret _ EvCancel). unfold read_cancel, serialise_cancel.
    reads_fields 3.
    eapply (reads_bind_ret _ (λ v, mk_cancel_event _ _ _ v)); eauto with codec.
  - apply (reads_bind_ret _ EvAmend). unfold read_amend, serialise_amend.
    reads_fields 4.
    eapply (reads_bind_ret _ (λ v, mk_amend_event _ _ _ _ v)); eauto with codec.
  - apply (reads_bind_ret _ EvRejection). unfold read_rejection, serialise_rejection.
    reads_fields 3.
    eapply (reads_bind_ret _ (λ v, mk_rejection_event _ _ _ v)); eauto with codec.
  - apply (reads_bind_ret _ EvFunding). unfold read_funding, serialise_funding.
    reads_fields 4.
    eapply (reads_bind_ret _ (λ v, mk_funding_event _ _ _ _ v)); eauto with codec.
Qed.

Lemma read_fill_full e k :
  event_ok (EvFill e) →
  read_event et_fill (serialise_fill e ++ k) = Ret (normalise (EvFill e), k).
Proof.
  intros Hok. pose proof (reads_fill_head e Hok) as [Hh _].
  destruct Hok as (Hb & Hq & Hp & Hc & Hr & Ho & Hf & Hs & Hsrc).
  cbn [read_event]. unfold rbind at 1. rewrite read_fill_split, serialise_fill_split, <- app_assoc.
  unfold rbind at 1. rewrite Hh. unfold rbind at 1. unfold fill_tail.
  rewrite reads_fill_tail by (done || (apply wrapu_range; lia)).
  unfold rret; cbn [fst snd]. unfold normalise.
  by rewrite (enum_byte _ _ _ Hs), (enum_byte _ _ _ Hsrc).
Qed.

Lemma read_event_full e k :
  event_ok e → read_event (ev_tag e) (serialise e ++ k) = Ret (normalise e, k).
Proof.
  intros Hok. destruct (is_fill e) eqn:Hf.
  - destruct e; try discriminate. by apply read_fill_full.
  - by apply serialise_exact.
Qed.

(** round trip of the event format.  For every event a C++ object can be,
    deserialising its payload (whatever bytes follow it) under its type tag
    returns the event, up to what the format does not store: sub-microsecond
    time, receive and latency stamps, strategy name and opener id, and string
    bytes past the 16-bit length. *)
Theorem serialise_roundtrip e k :
  event_ok e → deserialise (ev_tag e) (serialise e ++ k) = Ret (normalise e).
Proof. intros Hok. unfold deserialise. by rewrite read_event_full. Qed.

(** What a truncated fill still decodes to. *)
Definition fill_cut (e : fill_event) (n : nat) : any_event :=
  let m := (n - length (fill_head e))%nat in
  EvFill (set_source src_unknown
    (mk_fill_event (truncate_tp (timestamp_ (fe_base e))) (truncate_str (fe_symbol e))
       (fe_order_id e) (fe_side e) (fe_filled_quantity e) (fe_fill_price e) (fe_commission e)
       (if (m <? 8)%nat then d_zero else fe_remaining_qty e)
       (if (m <? 16)%nat then 0 else fe_fill_id e) "" 0)).

Lemma read_fill_tail_cut rem fid src m :
  d_valid rem → in_u 64 fid → in_u 8 src → (m < 17)%nat →
  ∃ k, read_fill_tail (take m (write_f64 rem ++ write_u64 fid ++ write_u8 src)) =
    Ret (if (m <? 8)%nat then d_zero else rem, if (m <? 16)%nat then 0 else fid, src_unknown, k).
Proof.
  intros Hr Hf Hs Hm. unfold read_fill_tail.
  pose proof (le_bytes_length 8 (bits_of_double rem)) as L1.
  pose proof (le_bytes_length 8 fid) as L2. pose proof (le_bytes_length 1 src) as L3.
  destruct (Nat.ltb_spec m 8) as [H8|H8].
  { rewrite take_app_le by (unfold write_f64; lia).
    rewrite (proj2 (reads_f64 _ Hr)) by (unfold write_f64; lia).
    destruct (Nat.ltb_spec m 16); [eauto|lia]. }
  rewrite take_app_ge by (unfold write_f64; lia). rewrite (proj1 (reads_f64 _ Hr)).
  destruct (Nat.ltb_spec m 16) as [H16|H16].
  { rewrite take_app_le by (unfold write_u64, write_f64; lia).
    rewrite (proj2 (reads_u64 _ Hf)) by (unfold write_u64, write_f64; lia). eauto. }
  rewrite take_app_ge by (unfold write_u64, write_f64; lia). rewrite (proj1 (reads_u64 _ Hf)).
  rewrite (proj2 (reads_u8 _ Hs)) by (unfold write_u64, write_f64, write_u8; lia). eauto.
Qed.

Lemma fill_tail_length e : length (fill_tail e) = 17%nat.
Proof. unfold fill_tail, write_f64, write_u64, write_u8. by rewrite !length_app, !le_bytes_length. Qed.

Lemma deserialise_fill_cut e n :
  event_ok (EvFill e) → (n < length (serialise_fill e))%nat →
  deserialise et_fill (take n (serialise_fill e)) =
    if (n <? length (fill_head e))%nat then Throw end_of_payload else Ret (fill_cut e n).
Proof.
  intros Hok Hn. pose proof (reads_fill_head e Hok) as [Hh Ht].
  destruct Hok as (Hb & Hq & Hp & Hc & Hr & Ho & Hf & Hs & Hsrc).
  rewrite serialise_fill_split in *. rewrite length_app, fill_tail_length in Hn.
  unfold deserialise; cbn [read_event]. unfold rbind at 1. rewrite read_fill_split.
  unfold rbind at 1. destruct (Nat.ltb_spec n (length (fill_head e))) as [Hlt|Hge].
  - rewrite take_app_le by lia. by rewrite Ht.
  - rewrite take_app_ge by lia. rewrite Hh. unfold rbind at 1, fill_tail.
    destruct (read_fill_tail_cut (fe_remaining_qty e) (fe_fill_id e)
      (u8 (fill_source_code (fe_source e))) (n - length (fill_head e))) as [k Ek];
      [done|done|apply wrapu_range; lia|lia|].
    rewrite Ek. cbn [fst snd rret]. unfold fill_cut. by rewrite (enum_byte _ _ _ Hs).
Qed.

(** truncated payloads.  Cutting a payload anywhere throws the
    end-of-payload error, except for a fill cut after its commission: the
    older, shorter fill format is accepted, with the missing remaining
    quantity and fill id zero and the source unknown. *)
Theorem deserialise_truncated e n :
  event_ok e → (n < length (serialise e))%nat →
  deserialise (ev_tag e) (take n (serialise e)) =
    match e with
    | EvFill f => if (n <? length (fill_head f))%nat then Throw end_of_payload
                  else Ret (fill_cut f n)
    | _ => Throw end_of_payload
    end.
Proof.
  intros Hok Hn. destruct (is_fill e) eqn:Hf.
  - destruct e; try discriminate. by apply deserialise_fill_cut.
  - destruct (serialise_exact e Hok Hf) as [_ Ht].
    unfold deserialise. rewrite Ht by done. by destruct e.
Qed.

(** ** Stability of the format *)

Lemma truncate_tp_us tp : us_of_tp (truncate_tp tp) = us_of_tp tp.
Proof. unfold truncate_tp, us_of_tp, tp_of_us. by rewrite Z.quot_mul. Qed.

Lemma write_ts_truncate tp : write_ts (truncate_tp tp) = write_ts tp.
Proof. unfold write_ts. by rewrite truncate_tp_us. Qed.

Lemma list_byte_truncate s :
  String.list_byte_of_string (truncate_str s) =
  take (Z.to_nat (u16 (Z.of_nat (length (String.list_byte_of_string s)))))
    (String.list_byte_of_string s).
Proof. unfold truncate_str. by rewrite String.list_byte_of_string_of_list_byte. Qed.

Lemma write_str_truncate s : write_str (truncate_str s) = write_str s.
Proof.
  unfold write_str. rewrite list_byte_truncate.
  set (bs := String.list_byte_of_string s). rewrite length_take.
  set (len := u16 (Z.of_nat (length bs))).
  assert (in_u 16 len) as Hl by (apply wrapu_range; lia).
  assert ((Z.to_nat len `min` length bs)%nat = Z.to_nat len) as E.
  { apply Nat.min_l. unfold len, wrapu.
    pose proof (Z.mod_le (Z.of_nat (length bs)) (2 ^ 16)). lia. }
  rewrite E, Z2Nat.id by (unfold in_u in Hl; lia). rewrite (wrapu_id 16 len Hl).
  by rewrite take_take, Nat.min_id.
Qed.

#[export] Hint Rewrite write_ts_truncate write_str_truncate : codec.

Lemma take_levels (l : list l2_level) :
  (length l <= kL2SnapshotMaxLevels)%nat → take kL2SnapshotMaxLevels l = l.
Proof. intros. by rewrite take_ge. Qed.

Lemma truncate_tp_idem tp : truncate_tp (truncate_tp tp) = truncate_tp tp.
Proof. unfold truncate_tp at 1 3. by rewrite truncate_tp_us. Qed.

Lemma truncate_str_idem s : truncate_str (truncate_str s) = truncate_str s.
Proof.
  pose proof (write_str_truncate s) as E.
  pose proof (reads_str (truncate_str s)) as [R1 _]. pose proof (reads_str s) as [R2 _].
  specialize (R1 []). specialize (R2 []). rewrite E, R2 in R1. by simplify_eq.
Qed.

#[export] Hint Rewrite truncate_tp_idem truncate_str_idem : codec.

(** logging what was replayed gives the same bytes: the payload of the
    event a payload decodes to is that payload, and a second pass through the
    log loses nothing more. *)
Theorem serialise_normalise e :
  event_ok e → serialise (normalise e) = serialise e ∧ normalise (normalise e) = normalise e.
Proof.
  intros Hok.
  destruct e as [e|e|e|e|e|e|e|e|e|e|e]; destruct e;
    lazy -[app concat map take length write_ts write_str write_f64 write_u64 write_i64 write_u8
          write_u32 truncate_str truncate_tp wrapu kL2SnapshotMaxLevels Z.of_nat bool_decide andb
          order_type_eq_dec time_in_force_eq_dec serialise_level order_type_code order_side_code
          time_in_force_code fill_source_code tick_side_code signal_type_code];
    autorewrite with codec; try done.
  - destruct Hok as (_ & _ & _ & _ & _ & _ & _ & _ & _ & Hnot). simpl in Hnot.
    repeat case_bool_decide; subst; try done; exfalso; auto.
  - destruct Hok as (_ & _ & _ & H1 & H2). simpl in H1, H2. by rewrite !take_levels.
Qed.

(** ** The hypotheses can hold: a fill, written and read *)

Definition sample_fill : any_event :=
  EvFill (set_source src_exchange
    (mk_fill_event 1700000000123456789 "BTCUSDT" 42 side_buy (d_of_ratio 3 2) (d_of_Z 30000)
       (d_of_Z 12) (d_of_ratio 1 2) 7 "trend" 41)).

Lemma serialise_roundtrip_witness :
  deserialise et_fill (serialise sample_fill ++ [Byte.x00]) = Ret (normalise sample_fill).
Proof.
  apply (serialise_roundtrip sample_fill). unfold event_ok, base_ok, in_s, in_u, enum_ok.
  vm_compute. split_and!; done.
Defined.

Lemma deserialise_truncated_witness :
  deserialise et_fill (take 40 (serialise sample_fill)) = Throw end_of_payload.
Proof.
  apply (deserialise_truncated sample_fill 40).
  - unfold event_ok, base_ok, in_s, in_u, enum_ok. vm_compute. split_and!; done.
  - apply Nat.ltb_lt. vm_compute. done.
Defined.

Lemma serialise_normalise_witness :
  serialise (normalise sample_fill) = serialise sample_fill ∧
  normalise (normalise sample_fill) = normalise sample_fill.
Proof.
  apply (serialise_normalise sample_fill). unfold event_ok, base_ok, in_s, in_u, enum_ok.
  vm_compute. split_and!; done.
Defined.
