(* ===== verification/EventLog.v ===== *)
(** * The event log (EventLogger and EventReplayer of src/src/core/event_log.h)

    The logger appends one frame per event (type byte, 32-bit payload size,
    payload, optionally zstd-compressed), keeps one index entry per thousand
    events, writes the index and a 16-byte footer on [finalize], and shifts
    numbered files on [rotate].  The replayer reads the footer, seeks by the
    index, guesses compression from the first payload's magic number, and
    returns the events of a time window.  zstd is a third-party library: its
    four functions are parameters of the section. *)

From S2P Require Import Prelude Float64 Event EventSerial.
From Stdlib Require Import Strings.Byte Sorting.Sorted.

Open Scope string_scope.
Open Scope list_scope.
Open Scope Z_scope.

Record EventLogIndexEntry := { timestamp_us : Z; file_offset : Z }.

Definition EVENT_LOG_INDEX_MAGIC : Z := 0x58495454.
Definition EVENT_LOG_INDEX_INTERVAL : Z := 1000.
Definition ZSTD_MAGIC : Z := 0xFD2FB528.

(** ** The logger's state: the stream [out_] is the contents written to
    [path_] so far, and the other files of the directory are in [lg_fs]. *)
Record EventLogger := {
  lg_path : string;
  lg_fs : gmap string bytes;
  lg_out : bytes;
  lg_compress : bool;
  lg_index : list EventLogIndexEntry;
  lg_event_count : Z;
  lg_finalized : bool;
  lg_max_bytes : Z;
  lg_max_files : Z }.

(** ** An input stream: contents, read position and failure flag.  A failed
    stream ignores reads and seeks until it is cleared; a short read delivers
    what is left and fails. *)
Record ifstream := { st_data : bytes; st_pos : Z; st_fail : bool }.

Definition st_read (n : Z) (s : ifstream) : bytes * ifstream :=
  if st_fail s then ([], s) else
  let avail := drop (Z.to_nat (st_pos s)) (st_data s) in
  if Z.of_nat (length avail) <? n
  then (avail, {| st_data := st_data s; st_pos := st_pos s; st_fail := true |})
  else (take (Z.to_nat n) avail,
        {| st_data := st_data s; st_pos := st_pos s + n; st_fail := false |}).

Definition st_seekg (p : Z) (s : ifstream) : ifstream :=
  if st_fail s then s
  else if p <? 0 then {| st_data := st_data s; st_pos := st_pos s; st_fail := true |}
  else {| st_data := st_data s; st_pos := p; st_fail := false |}.

Definition st_tellg (s : ifstream) : Z := if st_fail s then -1 else st_pos s.
Definition st_clear (s : ifstream) : ifstream :=
  {| st_data := st_data s; st_pos := st_pos s; st_fail := false |}.

(** A short read fills the low bytes of a zero-initialised integer. *)
Definition st_read_uint (n : Z) (s : ifstream) : Z * ifstream :=
  let '(bs, s') := st_read n s in (le_Z bs, s').

Record EventReplayer := {
  rp_in : ifstream;
  rp_compressed : bool;
  rp_from_us : Z;
  rp_to_us : Z;
  rp_has_index : bool;
  rp_data_end : Z;
  rp_index : list EventLogIndexEntry }.

Section EventLog.

(** The zstd library: compression of a whole buffer (None is an error code),
    the content size a frame announces (None when unknown or not a frame),
    decompression into a buffer of a given capacity, error names; and whether
    the operating system lets a file be opened for writing. *)
Context (zstd_compress : bytes → option bytes).
Context (zstd_frame_content_size : bytes → option Z).
Context (zstd_decompress : Z → bytes → option bytes).
Context (zstd_error_name : bytes → string).
Context (can_open : string → bool).

(** ** EventLogger *)

Definition mk_EventLogger (path : string) (fs : gmap string bytes) (compress : bool)
    (max_bytes max_files : Z) : exc EventLogger :=
  if can_open path then
    Ret {| lg_path := path; lg_fs := fs; lg_out := []; lg_compress := compress;
           lg_index := []; lg_event_count := 0; lg_finalized := false;
           lg_max_bytes := max_bytes; lg_max_files := max_files |}
  else Throw ("EventLogger: cannot open " +:+ path).

Definition lg_write (bs : bytes) (l : EventLogger) : EventLogger :=
  {| lg_path := lg_path l; lg_fs := lg_fs l; lg_out := lg_out l ++ bs;
     lg_compress := lg_compress l; lg_index := lg_index l;
     lg_event_count := lg_event_count l; lg_finalized := lg_finalized l;
     lg_max_bytes := lg_max_bytes l; lg_max_files := lg_max_files l |}.

Definition tellp (l : EventLogger) : Z := Z.of_nat (length (lg_out l)).

Definition write_entry (en : EventLogIndexEntry) : bytes :=
  write_i64 (timestamp_us en) ++ write_u64 (file_offset en).

Definition finalize (l : EventLogger) : EventLogger :=
  if lg_finalized l then l else
  let index_offset := u64 (tellp l) in
  let tail := concat (map write_entry (lg_index l)) ++ write_u64 index_offset ++
              write_u32 (u32 (Z.of_nat (length (lg_index l)))) ++
              write_u32 EVENT_LOG_INDEX_MAGIC in
  {| lg_path := lg_path l; lg_fs := lg_fs l; lg_out := lg_out l ++ tail;
     lg_compress := lg_compress l; lg_index := lg_index l;
     lg_event_count := lg_event_count l; lg_finalized := true;
     lg_max_bytes := lg_max_bytes l; lg_max_files := lg_max_files l |}.

(** The [i]-th rotated file. *)
Definition nth_path (path : string) (i : Z) : string := path +:+ "." +:+ pretty i.

(** [std::rename] replaces the target; it does nothing when the source is
    missing. *)
Definition fs_rename (src dst : string) (fs : gmap string bytes) : gmap string bytes :=
  match fs !! src with
  | Some c => <[dst := c]> (delete src fs)
  | None => fs
  end.

(** [for (i = max_files - 1; i >= 1; --i) rename(nth(i), nth(i + 1))] *)
Fixpoint shift_files (path : string) (n : nat) (fs : gmap string bytes) : gmap string bytes :=
  match n with
  | O => fs
  | S m => shift_files path m
             (fs_rename (nth_path path (Z.of_nat n)) (nth_path path (Z.of_nat n + 1)) fs)
  end.

Definition rotate (l0 : EventLogger) : exc EventLogger :=
  let l := finalize l0 in
  let path := lg_path l in
  let fs := lg_fs l in
  let fs' :=
    if 0 <? lg_max_files l then
      let fs1 := delete (nth_path path (lg_max_files l)) fs in
      let fs2 := shift_files path (Z.to_nat (lg_max_files l - 1)) fs1 in
      <[nth_path path 1 := lg_out l]> fs2
    else fs in
  if can_open path then
    Ret {| lg_path := path; lg_fs := fs'; lg_out := []; lg_compress := lg_compress l;
           lg_index := []; lg_event_count := 0; lg_finalized := false;
           lg_max_bytes := lg_max_bytes l; lg_max_files := lg_max_files l |}
  else Throw ("EventLogger: reopen after rotate failed: " +:+ path).

Definition log (e : any_event) (l0 : EventLogger) : exc EventLogger :=
  let entry := {| timestamp_us := us_of_tp (get_timestamp e); file_offset := u64 (tellp l0) |} in
  let l1 :=
    {| lg_path := lg_path l0; lg_fs := lg_fs l0; lg_out := lg_out l0;
       lg_compress := lg_compress l0;
       lg_index := if lg_event_count l0 mod EVENT_LOG_INDEX_INTERVAL =? 0
                   then lg_index l0 ++ [entry] else lg_index l0;
       lg_event_count := u64 (lg_event_count l0 + 1); lg_finalized := lg_finalized l0;
       lg_max_bytes := lg_max_bytes l0; lg_max_files := lg_max_files l0 |} in
  let payload := serialise e in
  let l2 := lg_write (write_u8 (u8 (event_type_code (get_type e)))) l1 in
  l3 ← (if lg_compress l2 then
          match zstd_compress payload with
          | None => Throw ("zstd compress: " +:+ zstd_error_name payload)
          | Some c => Ret (lg_write (write_u32 (u32 (Z.of_nat (length c))) ++ c) l2)
          end
        else Ret (lg_write (write_u32 (u32 (Z.of_nat (length payload))) ++ payload) l2));
  if (0 <? lg_max_bytes l3) && (lg_max_bytes l3 <=? u64 (tellp l3))
  then rotate l3 else Ret l3.

Fixpoint log_all (es : list any_event) (l : EventLogger) : exc EventLogger :=
  match es with
  | [] => Ret l
  | e :: es => l' ← log e l; log_all es l'
  end.

(** ** EventReplayer *)

(** libstdc++'s [std::upper_bound] over the index, comparing
    [ts < entry.timestamp_us]: a binary search by halving. *)
Fixpoint upper_bound_loop (fuel : nat) (ix : list EventLogIndexEntry) (ts : Z)
    (first len : nat) : nat :=
  match fuel with
  | O => first
  | S fuel =>
      if (len =? 0)%nat then first else
      let half := (len / 2)%nat in
      let mid := (first + half)%nat in
      match ix !! mid with
      | Some en =>
          if ts <? timestamp_us en
          then upper_bound_loop fuel ix ts first half
          else upper_bound_loop fuel ix ts (mid + 1) (len - half - 1)
      | None => first
      end
  end.

Definition upper_bound (ix : list EventLogIndexEntry) (ts : Z) : nat :=
  upper_bound_loop (S (length ix)) ix ts 0 (length ix).

Fixpoint read_entries (n : nat) (s : ifstream) : list EventLogIndexEntry * ifstream :=
  match n with
  | O => ([], s)
  | S n =>
      let '(t, s1) := st_read_uint 8 s in
      let '(o, s2) := st_read_uint 8 s1 in
      let '(ens, s3) := read_entries n s2 in
      ({| timestamp_us := i64 t; file_offset := o |} :: ens, s3)
  end.

(** The footer: the stream afterwards, whether an index was found, where the
    events end, and the index. *)
Definition read_footer (s0 : ifstream) : ifstream * bool * Z * list EventLogIndexEntry :=
  let file_size := Z.of_nat (length (st_data s0)) in
  let s1 := st_seekg file_size s0 in
  if 16 <=? file_size then
    let s2 := st_seekg (file_size - 16) s1 in
    let '(index_offset, s3) := st_read_uint 8 s2 in
    let '(entry_count, s4) := st_read_uint 4 s3 in
    let '(magic, s5) := st_read_uint 4 s4 in
    if magic =? EVENT_LOG_INDEX_MAGIC then
      if 0 <? entry_count then
        let '(ens, s7) := read_entries (Z.to_nat entry_count) (st_seekg (i64 index_offset) s5) in
        (s7, true, i64 index_offset, ens)
      else (s5, true, i64 index_offset, [])
    else (s5, false, file_size, [])
  else (s1, false, 0, []).

(** Where replay starts: the entry before the first one later than the
    window's start. *)
Definition seek_start (from_us : Z) (has_index : bool) (ix : list EventLogIndexEntry)
    (s : ifstream) : ifstream :=
  if has_index && (0 <? from_us) && negb (bool_decide (ix = [])) then
    let it := upper_bound ix from_us in
    let it' := if (it =? 0)%nat then it else (it - 1)%nat in
    match ix !! it' with
    | Some en => st_seekg (i64 (file_offset en)) s
    | None => s
    end
  else st_seekg 0 s.

(** Peek at the first frame at the start position. *)
Definition detect_compressed (s : ifstream) : bool :=
  let '(_, s1) := st_read_uint 1 s in
  if st_fail s1 then false else
  let '(payload_size, s2) := st_read_uint 4 s1 in
  if negb (st_fail s2) && (4 <=? payload_size) then
    let '(zmagic, _) := st_read_uint 4 s2 in
    zmagic =? ZSTD_MAGIC
  else false.

Definition mk_EventReplayer (path : string) (contents : option bytes)
    (from_us to_us : Z) : exc EventReplayer :=
  match contents with
  | None => Throw ("EventReplayer: cannot open " +:+ path)
  | Some data =>
      let s0 := {| st_data := data; st_pos := 0; st_fail := false |} in
      let '(s1, has_index, data_end, ix) := read_footer s0 in
      let s2 := seek_start from_us has_index ix s1 in
      let start_pos := st_tellg s2 in
      let compressed := detect_compressed s2 in
      let s3 := st_seekg start_pos (st_clear s2) in
      Ret {| rp_in := s3; rp_compressed := compressed; rp_from_us := from_us;
             rp_to_us := to_us; rp_has_index := has_index; rp_data_end := data_end;
             rp_index := ix |}
  end.

Definition rp_with_in (s : ifstream) (r : EventReplayer) : EventReplayer :=
  {| rp_in := s; rp_compressed := rp_compressed r; rp_from_us := rp_from_us r;
     rp_to_us := rp_to_us r; rp_has_index := rp_has_index r;
     rp_data_end := rp_data_end r; rp_index := rp_index r |}.

Definition has_next (r : EventReplayer) : bool :=
  let s := rp_in r in
  if st_fail s then false
  else if rp_has_index r && (rp_data_end r <=? st_pos s) then false
  else bool_decide (drop (Z.to_nat (st_pos s)) (st_data s) ≠ []).

(** The payload of a frame, decompressed when the log is compressed. *)
Definition decode_payload (r : EventReplayer) (payload_size : Z) (raw : bytes) : exc bytes :=
  if rp_compressed r then
    let cap := match zstd_frame_content_size raw with
               | Some n => n
               | None => u32 (payload_size * 10)
               end in
    match zstd_decompress cap raw with
    | None => Throw ("zstd decompress: " +:+ zstd_error_name raw)
    | Some d => Ret d
    end
  else Ret raw.

(** One iteration of [next]'s loop: finished with an event or the end, or
    continue with the stream after a frame before the window. *)
Inductive next_step := Done (e : option any_event) (r : EventReplayer) | Continue (r : EventReplayer).

Definition next_iter (r : EventReplayer) : exc next_step :=
  if rp_has_index r && (rp_data_end r <=? st_tellg (rp_in r)) then Ret (Done None r) else
  let '(type_byte, s1) := st_read_uint 1 (rp_in r) in
  if st_fail s1 then Ret (Done None (rp_with_in s1 r)) else
  let '(payload_size, s2) := st_read_uint 4 s1 in
  if st_fail s2 then Ret (Done None (rp_with_in s2 r)) else
  let '(raw, s3) := st_read payload_size s2 in
  let r3 := rp_with_in s3 r in
  if st_fail s3 then Ret (Done None r3) else
  data ← decode_payload r payload_size raw;
  ev ← deserialise (event_type_of type_byte) data;
  let ts_us := us_of_tp (get_timestamp ev) in
  Ret (if rp_to_us r <? ts_us then Done None r3
       else if ts_us <? rp_from_us r then Continue r3
       else Done (Some ev) r3).

(** A frame has at least five bytes, so a stream of [n] bytes is consumed in
    fewer than [n + 1] iterations. *)
Fixpoint next_loop (fuel : nat) (r : EventReplayer) : exc (option any_event * EventReplayer) :=
  match fuel with
  | O => Ret (None, r)
  | S fuel =>
      st ← next_iter r;
      match st with
      | Done e r' => Ret (e, r')
      | Continue r' => next_loop fuel r'
      end
  end.

Definition next (r : EventReplayer) : exc (option any_event * EventReplayer) :=
  next_loop (S (length (st_data (rp_in r)))) r.

(** The engine's replay loop: [while (has_next()) { ev = next(); if (!ev) break; ... }],
    collecting the events it hands on. *)
Fixpoint replay_loop (fuel : nat) (r : EventReplayer) : exc (list any_event) :=
  match fuel with
  | O => Ret []
  | S fuel =>
      if has_next r then
        res ← next r;
        match res.1 with
        | None => Ret []
        | Some ev => rest ← replay_loop fuel res.2; Ret (ev :: rest)
        end
      else Ret []
  end.

Definition run_replay (path : string) (contents : option bytes) (from_us to_us : Z)
    : exc (list any_event) :=
  r ← mk_EventReplayer path contents from_us to_us;
  replay_loop (S (length (st_data (rp_in r)))) r.


(** ** Reading from the middle of a stream *)

Definition at_pos (pre post : bytes) : ifstream :=
  {| st_data := pre ++ post; st_pos := Z.of_nat (length pre); st_fail := false |}.

Lemma at_pos_drop pre post : drop (Z.to_nat (st_pos (at_pos pre post))) (st_data (at_pos pre post)) = post.
Proof. simpl. by rewrite Nat2Z.id, drop_app_length. Qed.

Lemma st_read_mid pre w post n :
  n = Z.of_nat (length w) →
  st_read n (at_pos pre (w ++ post)) = (w, at_pos (pre ++ w) post).
Proof.
  intros ->. unfold st_read. rewrite at_pos_drop. simpl st_fail. cbv iota.
  rewrite length_app. destruct (Z.ltb_spec (Z.of_nat (length w + length post)) (Z.of_nat (length w)));
    [lia|].
  rewrite Nat2Z.id, take_app_length. unfold at_pos.
  by rewrite length_app, Nat2Z.inj_add, <- app_assoc.
Qed.

Lemma st_read_uint_mid pre n z post :
  st_read_uint (Z.of_nat n) (at_pos pre (le_bytes n z ++ post)) =
  (z mod 256 ^ Z.of_nat n, at_pos (pre ++ le_bytes n z) post).
Proof.
  unfold st_read_uint. rewrite st_read_mid by (by rewrite le_bytes_length).
  by rewrite le_Z_bytes.
Qed.

Lemma st_read_uint_end pre n z :
  st_read_uint (Z.of_nat n) (at_pos pre (le_bytes n z)) =
  (z mod 256 ^ Z.of_nat n, at_pos (pre ++ le_bytes n z) []).
Proof. rewrite <- st_read_uint_mid. by rewrite app_nil_r. Qed.

Lemma st_seekg_at pre post pre' post' :
  pre ++ post = pre' ++ post' →
  st_seekg (Z.of_nat (length pre')) (at_pos pre post) = at_pos pre' post'.
Proof.
  intros E. unfold st_seekg, at_pos. simpl.
  destruct (Z.ltb_spec (Z.of_nat (length pre')) 0); [lia|]. by rewrite E.
Qed.

(** ** Frames *)

Definition event_payload (compress : bool) (e : any_event) (body : bytes) : Prop :=
  if compress then zstd_compress (serialise e) = Some body else body = serialise e.

(** [f] is the frame [log] writes for [e]. *)
Definition framed (compress : bool) (e : any_event) (f : bytes) : Prop :=
  ∃ body, event_payload compress e body ∧
    f = write_u8 (u8 (event_type_code (get_type e))) ++
        write_u32 (u32 (Z.of_nat (length body))) ++ body.

(** The index entries of a run of frames written from event number [cnt] at
    offset [off]. *)
Fixpoint index_of (cnt off : Z) (es : list any_event) (fs : list bytes) : list EventLogIndexEntry :=
  match es, fs with
  | e :: es, f :: fs =>
      (if cnt mod EVENT_LOG_INDEX_INTERVAL =? 0
       then [{| timestamp_us := us_of_tp (get_timestamp e); file_offset := u64 off |}] else []) ++
      index_of (u64 (cnt + 1)) (off + Z.of_nat (length f)) es fs
  | _, _ => []
  end.

Definition no_rotation (l : EventLogger) : Prop := lg_max_bytes l = 0.

Lemma log_frame e l l' :
  no_rotation l → log e l = Ret l' →
  ∃ f, framed (lg_compress l) e f ∧ lg_out l' = lg_out l ++ f ∧
    lg_index l' = lg_index l ++ index_of (lg_event_count l) (tellp l) [e] [f] ∧
    lg_event_count l' = u64 (lg_event_count l + 1) ∧
    lg_compress l' = lg_compress l ∧ lg_finalized l' = lg_finalized l ∧ no_rotation l'.
Proof.
  unfold no_rotation. intros Hn. unfold log, framed, event_payload. cbn [lg_compress lg_write].
  destruct (lg_compress l) eqn:Hc.
  - destruct (zstd_compress (serialise e)) as [c|]; [|done]. cbn -[u64 u32 u8 index_of].
    rewrite Hn; simpl. intros [= <-]. eexists. split; [by exists c|].
    simpl. rewrite <- !app_assoc. split_and!; try done.
    unfold tellp. case_match; by rewrite ?app_nil_r.
  - cbn -[u64 u32 u8 index_of]. rewrite Hn; simpl. intros [= <-].
    eexists. split; [by exists (serialise e)|].
    simpl. rewrite <- !app_assoc. split_and!; try done.
    unfold tellp. case_match; by rewrite ?app_nil_r.
Qed.

Lemma index_of_cons cnt off e es f fs :
  index_of cnt off (e :: es) (f :: fs) =
  index_of cnt off [e] [f] ++ index_of (u64 (cnt + 1)) (off + Z.of_nat (length f)) es fs.
Proof. simpl. by rewrite app_nil_r. Qed.

Lemma log_all_frames es l l' :
  no_rotation l → log_all es l = Ret l' →
  ∃ fs, Forall2 (framed (lg_compress l)) es fs ∧ lg_out l' = lg_out l ++ concat fs ∧
    lg_index l' = lg_index l ++ index_of (lg_event_count l) (tellp l) es fs ∧
    lg_finalized l' = lg_finalized l.
Proof.
  revert l. induction es as [|e es IH]; intros l Hn; cbn [log_all].
  - intros [= <-]. exists []. rewrite !app_nil_r. by split_and!.
  - destruct (log e l) as [l1|] eqn:E; [|done]. cbn [mbind exc_bind]. intros E'.
    apply log_frame in E as (f & Hf & Ho & Hi & Hc & Hcmp & Hfin & Hn1); [|done].
    apply IH in E' as (fs & Hfs & Ho' & Hi' & Hfin'); [|done].
    exists (f :: fs). rewrite Hcmp in Hfs. split_and!.
    + by constructor.
    + rewrite Ho', Ho. simpl. by rewrite app_assoc.
    + assert (tellp l1 = tellp l + Z.of_nat (length f)) as Et
        by (unfold tellp; rewrite Ho, length_app; lia).
      by rewrite Hi', Hi, Hc, Et, <- app_assoc, (index_of_cons _ _ e es).
    + congruence.
Qed.

(** ** What the code relies on of zstd, as its manual documents it: a
    compressed buffer is a frame that starts with the magic number, announces
    its content size, decompresses to the input in a buffer of that size, and
    is not much longer than the input. *)
Context (zstd_size : ∀ b c, zstd_compress b = Some c →
  zstd_frame_content_size c = Some (Z.of_nat (length b))).
Context (zstd_inverse : ∀ b c, zstd_compress b = Some c →
  zstd_decompress (Z.of_nat (length b)) c = Some b).
Context (zstd_magic : ∀ b c, zstd_compress b = Some c →
  ∃ rest, c = le_bytes 4 ZSTD_MAGIC ++ rest).
Context (zstd_bound : ∀ b c, zstd_compress b = Some c →
  Z.of_nat (length b) < 2 ^ 20 → Z.of_nat (length c) < 2 ^ 32).

(** An event as the engine builds it: the stored type is its class's. *)
Definition logged_ok (e : any_event) : Prop := event_ok e ∧ get_type e = ev_tag e.

Lemma write_str_length s : Z.of_nat (length (write_str s)) <= 65537.
Proof.
  unfold write_str. rewrite length_app, length_take. unfold write_u16. rewrite le_bytes_length.
  pose proof (wrapu_range 16 (Z.of_nat (length (String.list_byte_of_string s)))).
  unfold in_u in *. change (2 ^ 16) with 65536 in *. lia.
Qed.

Lemma levels_length ls : length (concat (map serialise_level ls)) = (16 * length ls)%nat.
Proof.
  induction ls as [|l ls IH]; [done|]. cbn [map concat]. rewrite length_app, IH.
  unfold serialise_level, write_f64, write_i64. rewrite length_app, !le_bytes_length. simpl. lia.
Qed.

Lemma payload_length e : event_ok e → Z.of_nat (length (serialise e)) < 2 ^ 20.
Proof.
  intros Hok. destruct e as [e|e|e|e|e|e|e|e|e|e|e]; unfold serialise, serialise_market,
    serialise_signal, serialise_order, serialise_fill, serialise_tick, serialise_l2_snapshot,
    serialise_l2_update, serialise_cancel, serialise_amend, serialise_rejection,
    serialise_funding, write_ts, write_i64, write_u64, write_f64, write_u8, write_u32;
    rewrite ?length_app, ?le_bytes_length, ?levels_length;
    repeat match goal with |- context [length (write_str ?s)] =>
      lazymatch goal with
      | _ : Z.of_nat (length (write_str s)) <= _ |- _ => fail
      | _ => pose proof (write_str_length s)
      end end; try lia.
  destruct Hok as (_ & _ & _ & H1 & H2). unfold kL2SnapshotMaxLevels in *. lia.
Qed.

Lemma payload_prefix e :
  ∃ rest, serialise e = le_bytes 4 (us_of_tp (get_timestamp e)) ++ rest.
Proof.
  assert (∃ rest, serialise e = le_bytes 8 (us_of_tp (get_timestamp e)) ++ rest) as [rest ->].
  { destruct e; eexists; reflexivity. }
  cbn [le_bytes app]. eexists. reflexivity.
Qed.

Lemma decode_payload_framed r e body payload_size :
  event_payload (rp_compressed r) e body →
  decode_payload r payload_size body = Ret (serialise e).
Proof.
  unfold event_payload, decode_payload. destruct (rp_compressed r); [|by intros ->].
  intros Hc. by rewrite (zstd_size _ _ Hc), (zstd_inverse _ _ Hc).
Qed.

Lemma body_length compress e body :
  event_ok e → event_payload compress e body → Z.of_nat (length body) < 2 ^ 32.
Proof.
  intros Hok. unfold event_payload. pose proof (payload_length e Hok) as Hl.
  destruct compress; [|intros ->; lia]. intros Hc. by apply (zstd_bound _ _ Hc).
Qed.

Lemma tag_code e : get_type e = ev_tag e →
  event_type_of (u8 (event_type_code (get_type e))) = ev_tag e.
Proof. intros ->. by destruct e. Qed.

Lemma normalise_us e : us_of_tp (get_timestamp (normalise e)) = us_of_tp (get_timestamp e).
Proof. rewrite <- (truncate_tp_us (get_timestamp e)). by destruct e. Qed.

(** One frame in the middle of the log. *)
Lemma next_iter_frame r e f pre post :
  logged_ok e → framed (rp_compressed r) e f →
  rp_in r = at_pos pre (f ++ post) →
  (rp_has_index r = true → Z.of_nat (length pre) < rp_data_end r) →
  let ts_us := us_of_tp (get_timestamp e) in
  let r' := rp_with_in (at_pos (pre ++ f) post) r in
  next_iter r = Ret (if rp_to_us r <? ts_us then Done None r'
                     else if ts_us <? rp_from_us r then Continue r'
                     else Done (Some (normalise e)) r').
Proof.
  intros [Hok Hty] (body & Hb & ->) Hin Hend ts_us r'. unfold next_iter.
  pose proof (body_length _ _ _ Hok Hb) as Hlen.
  rewrite (wrapu_id 32) in * by (unfold in_u; lia).
  assert (rp_has_index r && (rp_data_end r <=? st_tellg (rp_in r)) = false) as ->.
  { rewrite Hin. cbn [st_tellg st_fail at_pos st_pos]. destruct (rp_has_index r); [|done].
    apply Z.leb_gt. by apply Hend. }
  rewrite Hin, <- !app_assoc. unfold write_u8.
  change 1 with (Z.of_nat 1). rewrite st_read_uint_mid.
  cbn [st_fail at_pos]. fold (at_pos (pre ++ le_bytes 1 (u8 (event_type_code (get_type e))))
    (write_u32 (Z.of_nat (length body)) ++ body ++ post)).
  unfold write_u32. change 4 with (Z.of_nat 4). rewrite st_read_uint_mid.
  cbn [st_fail at_pos]. fold (at_pos ((pre ++ le_bytes 1 (u8 (event_type_code (get_type e)))) ++
    le_bytes 4 (Z.of_nat (length body))) (body ++ post)).
  rewrite (Z.mod_small (Z.of_nat (length body))) by (simpl; lia).
  rewrite st_read_mid by done. cbn [st_fail at_pos].
  rewrite (decode_payload_framed r e) by done. cbn [mbind exc_bind].
  change (256 ^ Z.of_nat 1) with (2 ^ 8). fold (wrapu 8 (u8 (event_type_code (get_type e)))).
  rewrite wrapu_wrapu, tag_code by done.
  rewrite <- (app_nil_r (serialise e)). unfold deserialise.
  rewrite read_event_full by done. cbn [mbind exc_bind].
  rewrite normalise_us. unfold r', write_u8, write_u32.
  rewrite (wrapu_id 32) by (unfold in_u; lia). by rewrite <- !app_assoc.
Qed.

(** ** The window a replay returns: the events not before [from_us], up to the
    first one after [to_us]. *)
Fixpoint window (from_us to_us : Z) (es : list any_event) : list any_event :=
  match es with
  | [] => []
  | e :: es =>
      let t := us_of_tp (get_timestamp e) in
      if to_us <? t then []
      else if t <? from_us then window from_us to_us es
      else normalise e :: window from_us to_us es
  end.

(** A replayer standing before the frames of [es] in a finalised log. *)
Definition positioned (r : EventReplayer) (es : list any_event) (pre : bytes) : Prop :=
  ∃ fs post, Forall2 (framed (rp_compressed r)) es fs ∧ Forall logged_ok es ∧
    rp_in r = at_pos pre (concat fs ++ post) ∧ rp_has_index r = true ∧
    rp_data_end r = Z.of_nat (length pre + length (concat fs)).

Lemma framed_length compress e f : framed compress e f → (5 <= length f)%nat.
Proof.
  intros (body & _ & ->). unfold write_u8, write_u32.
  rewrite !length_app, !le_bytes_length. lia.
Qed.

Lemma frames_length compress es fs :
  Forall2 (framed compress) es fs → (length es <= length (concat fs))%nat.
Proof.
  induction 1 as [|e f es fs Hf Hfs IH]; [done|]. simpl. rewrite length_app.
  apply framed_length in Hf. lia.
Qed.

Lemma positioned_step r e es pre :
  positioned r (e :: es) pre →
  ∃ f post, framed (rp_compressed r) e f ∧ logged_ok e ∧ rp_in r = at_pos pre (f ++ post) ∧
    Z.of_nat (length pre) < rp_data_end r ∧
    positioned (rp_with_in (at_pos (pre ++ f) post) r) es (pre ++ f).
Proof.
  intros (fs' & post & HF & Hok & Hin & Hix & Hend).
  apply Forall2_cons_inv_l in HF as (f & fs & Hf & Hfs & ->).
  apply Forall_cons in Hok as [Hoke Hok]. simpl concat in *.
  exists f, (concat fs ++ post). rewrite <- app_assoc in Hin.
  pose proof (framed_length _ _ _ Hf). rewrite length_app in Hend.
  split_and!; try done; [lia|]. exists fs, post. split_and!; try done.
  rewrite length_app. simpl. lia.
Qed.

Lemma next_iter_end r pre : positioned r [] pre → next_iter r = Ret (Done None r).
Proof.
  intros (fs & post & HF & _ & Hin & Hix & Hend). apply Forall2_nil_inv_l in HF as ->.
  unfold next_iter. rewrite Hix, Hin. cbn [st_tellg at_pos st_fail st_pos andb].
  destruct (Z.leb_spec (rp_data_end r) (Z.of_nat (length pre))); [done|simpl in *; lia].
Qed.

(** [next] returns the first event of the window and stops right after it. *)
Lemma next_loop_window fuel r es pre :
  positioned r es pre → (length es < fuel)%nat →
  match window (rp_from_us r) (rp_to_us r) es with
  | [] => ∃ r', next_loop fuel r = Ret (None, r')
  | ev :: _ => ∃ s pre' es', next_loop fuel r = Ret (Some ev, rp_with_in s r) ∧
      positioned (rp_with_in s r) es' pre' ∧ (length es' < length es)%nat ∧
      window (rp_from_us r) (rp_to_us r) es = ev :: window (rp_from_us r) (rp_to_us r) es'
  end.
Proof.
  revert fuel r pre. induction es as [|e es IH]; intros fuel r pre Hpos Hfuel;
    (destruct fuel as [|fuel]; [simpl in *; lia|]); cbn [next_loop window].
  - rewrite (next_iter_end _ _ Hpos). simpl. eauto.
  - destruct (positioned_step _ _ _ _ Hpos) as (f & post & Hf & Hoke & Hin & Hlt & Hpos').
    rewrite (next_iter_frame _ _ _ _ _ Hoke Hf Hin (λ _, Hlt)).
    set (t := us_of_tp (get_timestamp e)). cbv zeta.
    destruct (rp_to_us r <? t) eqn:E1; [simpl; eauto|].
    destruct (t <? rp_from_us r) eqn:E2.
    + cbn [mbind exc_bind].
      specialize (IH fuel _ _ Hpos' ltac:(simpl in *; lia)).
      cbn [rp_with_in rp_from_us rp_to_us] in IH.
      destruct (window (rp_from_us r) (rp_to_us r) es) as [|ev w]; [done|].
      destruct IH as (s & pre' & es' & E & Hp & Hl & Ew).
      exists s, pre', es'. split_and!; [done|done|simpl; lia|done].
    + simpl. eexists _, _, es. split_and!; [done|exact Hpos'|lia|done].
Qed.

Lemma has_next_cons r e es pre : positioned r (e :: es) pre → has_next r = true.
Proof.
  intros Hpos. pose proof (positioned_step _ _ _ _ Hpos) as (f & post & Hf & _ & Hin & Hlt & _).
  unfold has_next. rewrite Hin. cbn [st_fail at_pos].
  assert (rp_has_index r && (rp_data_end r <=? st_pos (at_pos pre (f ++ post))) = false) as ->.
  { simpl. apply andb_false_iff. right. apply Z.leb_gt. lia. }
  change {| st_data := pre ++ f ++ post; st_pos := Z.of_nat (length pre); st_fail := false |}
    with (at_pos pre (f ++ post)).
  rewrite at_pos_drop. apply bool_decide_eq_true. intros E.
  apply framed_length in Hf. destruct f; simpl in *; [lia|done].
Qed.

Lemma positioned_length r es pre :
  positioned r es pre → (length es <= length (st_data (rp_in r)))%nat.
Proof.
  intros (fs & post & HF & _ & Hin & _). apply frames_length in HF.
  rewrite Hin. simpl. rewrite !length_app. lia.
Qed.

Lemma replay_loop_window fuel r es pre :
  positioned r es pre → (length es < fuel)%nat →
  replay_loop fuel r = Ret (window (rp_from_us r) (rp_to_us r) es).
Proof.
  revert r es pre. induction fuel as [|fuel IH]; intros r es pre Hpos Hfuel; [lia|].
  cbn [replay_loop]. destruct es as [|e es].
  - unfold has_next. destruct Hpos as (fs & post & HF & _ & Hin & Hix & Hend).
    apply Forall2_nil_inv_l in HF as ->. rewrite Hix, Hin. simpl in *.
    by rewrite (proj2 (Z.leb_le _ _)) by lia.
  - rewrite (has_next_cons _ _ _ _ Hpos). unfold next.
    pose proof (next_loop_window (S (length (st_data (rp_in r)))) r (e :: es) pre Hpos) as H.
    specialize (H ltac:(apply positioned_length in Hpos; lia)).
    destruct (window (rp_from_us r) (rp_to_us r) (e :: es)) as [|ev w].
    + destruct H as [r' ->]. done.
    + destruct H as (s & pre' & es' & -> & Hp & Hl & Ew). cbn [mbind exc_bind fst snd].
      rewrite (IH _ _ _ Hp) by lia. cbn [mbind exc_bind rp_with_in rp_from_us rp_to_us].
      by rewrite Ew.
Qed.

(** ** Opening a finalised log *)

Definition entry_ok (en : EventLogIndexEntry) : Prop :=
  in_s 64 (timestamp_us en) ∧ in_u 64 (file_offset en).

Lemma read_entries_mid ens pre post :
  Forall entry_ok ens →
  read_entries (length ens) (at_pos pre (concat (map write_entry ens) ++ post)) =
  (ens, at_pos (pre ++ concat (map write_entry ens)) post).
Proof.
  intros Hok. revert pre. induction Hok as [|[t o] ens [Ht Ho] _ IH]; intros pre; cbn -[st_read_uint le_bytes].
  - by rewrite app_nil_r.
  - unfold write_entry at 1. cbn [timestamp_us file_offset]. unfold write_i64, write_u64.
    rewrite <- !app_assoc. change 8 with (Z.of_nat 8). rewrite !st_read_uint_mid, IH.
    change (256 ^ Z.of_nat 8) with (2 ^ 64). fold (wrapu 64 t) (wrapu 64 o).
    rewrite wraps_wrapu, wraps_id, wrapu_id by (done || lia).
    unfold write_entry, write_i64, write_u64. cbn [timestamp_us file_offset].
    by rewrite <- !app_assoc.
Qed.

Definition footer (off : Z) (ix : list EventLogIndexEntry) : bytes :=
  concat (map write_entry ix) ++ write_u64 off ++
  write_u32 (u32 (Z.of_nat (length ix))) ++ write_u32 EVENT_LOG_INDEX_MAGIC.

Lemma read_footer_log body ix :
  Z.of_nat (length body) < 2 ^ 63 → Z.of_nat (length ix) < 2 ^ 32 → Forall entry_ok ix →
  let off := Z.of_nat (length body) in
  let data := body ++ footer off ix in
  ∃ pre post, pre ++ post = data ∧ read_footer (at_pos [] data) = (at_pos pre post, true, off, ix).
Proof.
  intros Hoff Hn Hix off data.
  set (ixb := concat (map write_entry ix)).
  set (q1 := write_u64 off). set (q2 := write_u32 (u32 (Z.of_nat (length ix)))).
  set (q3 := write_u32 EVENT_LOG_INDEX_MAGIC).
  assert (data = (body ++ ixb) ++ q1 ++ q2 ++ q3) as Ed.
  { unfold data, footer. by rewrite <- !app_assoc. }
  assert (length (q1 ++ q2 ++ q3) = 16%nat) as L16.
  { unfold q1, q2, q3, write_u64, write_u32. by rewrite !length_app, !le_bytes_length. }
  assert (Z.of_nat (length data) - 16 = Z.of_nat (length (body ++ ixb))) as Esz.
  { rewrite Ed, length_app, L16. lia. }
  unfold read_footer. cbn [st_data at_pos]. rewrite app_nil_l.
  rewrite (st_seekg_at [] data data []) by (by rewrite app_nil_r).
  rewrite (proj2 (Z.leb_le 16 _)) by lia.
  rewrite Esz, (st_seekg_at data [] (body ++ ixb) (q1 ++ q2 ++ q3)) by (by rewrite app_nil_r).
  unfold q1, q2, q3, write_u64, write_u32.
  change 8 with (Z.of_nat 8). change 4 with (Z.of_nat 4).
  rewrite !st_read_uint_mid, st_read_uint_end. change (256 ^ Z.of_nat 8) with (2 ^ 64).
  change (256 ^ Z.of_nat 4) with (2 ^ 32).
  fold (wrapu 64 off) (wrapu 32 EVENT_LOG_INDEX_MAGIC) (wrapu 32 (u32 (Z.of_nat (length ix)))).
  rewrite wrapu_wrapu, (wrapu_id 64), (wrapu_id 32 (Z.of_nat _)) by (unfold in_u, off in *; lia).
  rewrite (wrapu_id 32 EVENT_LOG_INDEX_MAGIC) by (unfold in_u, EVENT_LOG_INDEX_MAGIC; lia).
  rewrite Z.eqb_refl. rewrite (wraps_id 64 off) by (unfold in_s, off in *; lia).
  set (tail := le_bytes 8 off ++ le_bytes 4 (Z.of_nat (length ix)) ++ le_bytes 4 EVENT_LOG_INDEX_MAGIC).
  assert (((((body ++ ixb) ++ le_bytes 8 off) ++ le_bytes 4 (Z.of_nat (length ix))) ++
    le_bytes 4 EVENT_LOG_INDEX_MAGIC) ++ [] = body ++ ixb ++ tail) as Et.
  { unfold tail. by rewrite app_nil_r, <- !app_assoc. }
  assert (body ++ ixb ++ tail = data) as Ed'.
  { rewrite Ed. unfold tail, q1, q2, q3, write_u64, write_u32.
    rewrite (wrapu_id 32) by (unfold in_u; lia). by rewrite <- !app_assoc. }
  destruct (Z.ltb_spec 0 (Z.of_nat (length ix))) as [Hpos|Hzero].
  - change (st_seekg off) with (st_seekg (Z.of_nat (length body))).
    rewrite (st_seekg_at _ _ _ _ Et). rewrite Nat2Z.id. unfold ixb.
    rewrite read_entries_mid by done. eexists _, tail. split; [|done].
    rewrite <- Ed'. unfold ixb. by rewrite <- app_assoc.
  - assert (ix = []) as -> by (destruct ix; simpl in *; [done|lia]).
    eexists _, []. split; [|done]. etransitivity; [|exact Ed']. exact Et.
Qed.

(** Compression is detected from the first payload of the frame replay starts
    at: right for a compressed log, and for an uncompressed one unless the low
    word of that event's microsecond timestamp is zstd's magic number. *)
Definition no_magic_clash (compress : bool) (e : any_event) : Prop :=
  compress = false → u32 (us_of_tp (get_timestamp e)) ≠ ZSTD_MAGIC.

Lemma payload_starts compress e body :
  event_payload compress e body →
  ∃ w rest, body = le_bytes 4 w ++ rest ∧
    w = if compress then ZSTD_MAGIC else us_of_tp (get_timestamp e).
Proof.
  unfold event_payload. destruct compress.
  - intros Hc. destruct (zstd_magic _ _ Hc) as [rest ->]. eauto.
  - intros ->. destruct (payload_prefix e) as [rest ->]. eauto.
Qed.

Lemma detect_framed compress e f pre post :
  logged_ok e → framed compress e f → no_magic_clash compress e →
  detect_compressed (at_pos pre (f ++ post)) = compress.
Proof.
  intros [Hok _] (body & Hb & ->) Hclash.
  pose proof (body_length _ _ _ Hok Hb) as Hlen.
  rewrite (wrapu_id 32) by (unfold in_u; lia).
  destruct (payload_starts _ _ _ Hb) as (w & rest & -> & Ew).
  unfold detect_compressed, write_u8, write_u32. rewrite <- !app_assoc.
  change (st_read_uint 1) with (st_read_uint (Z.of_nat 1)).
  change (st_read_uint 4) with (st_read_uint (Z.of_nat 4)).
  rewrite st_read_uint_mid. cbn [st_fail at_pos].
  rewrite st_read_uint_mid. cbn [st_fail at_pos negb andb].
  change (256 ^ Z.of_nat 4) with (2 ^ 32). rewrite (Z.mod_small (Z.of_nat _)) by lia.
  rewrite length_app, le_bytes_length, (proj2 (Z.leb_le 4 _)) by lia.
  rewrite st_read_uint_mid. change (256 ^ Z.of_nat 4) with (2 ^ 32). fold (wrapu 32 w).
  subst w. destruct compress; [done|]. apply Z.eqb_neq. by apply Hclash.
Qed.

(** ** The index *)

Definition ev_us (e : any_event) : Z := us_of_tp (get_timestamp e).

Lemma index_of_elem cnt off es fs en compress :
  Forall2 (framed compress) es fs → en ∈ index_of cnt off es fs →
  ∃ es1 e es2 fs1 f fs2, es = es1 ++ e :: es2 ∧ fs = fs1 ++ f :: fs2 ∧
    Forall2 (framed compress) es1 fs1 ∧ Forall2 (framed compress) (e :: es2) (f :: fs2) ∧
    en = {| timestamp_us := ev_us e; file_offset := u64 (off + Z.of_nat (length (concat fs1))) |}.
Proof.
  intros HF. revert cnt off. induction HF as [|e f es fs Hf HF IH]; intros cnt off; simpl;
    [by intros ?%not_elem_of_nil|].
  intros [Hin|Hin]%elem_of_app.
  - exists [], e, es, [], f, fs. split_and!; try done; [by constructor|].
    case_match; [|by apply not_elem_of_nil in Hin].
    apply list_elem_of_singleton in Hin as ->. simpl. by rewrite Z.add_0_r.
  - apply IH in Hin as (es1 & e' & es2 & fs1 & f' & fs2 & -> & -> & H1 & H2 & ->).
    exists (e :: es1), e', es2, (f :: fs1), f', fs2. split_and!; try done; [by constructor|].
    simpl. rewrite length_app, Nat2Z.inj_add. by rewrite Z.add_assoc.
Qed.

Lemma index_of_head off es fs en : index_of 0 off es fs !! 0%nat = Some en → file_offset en = u64 off.
Proof. destruct es as [|e es], fs as [|f fs]; simpl; try done. by intros [= <-]. Qed.

Lemma index_of_length cnt off es fs : (length (index_of cnt off es fs) <= length es)%nat.
Proof.
  revert cnt off fs. induction es as [|e es IH]; intros cnt off [|f fs]; simpl; try lia.
  rewrite length_app. specialize (IH (u64 (cnt + 1)) (off + Z.of_nat (length f)) fs).
  case_match; simpl in *; lia.
Qed.

(** The binary search never steps past an entry it did not find early enough,
    whatever the order of the index. *)
Lemma upper_bound_loop_before fuel ix ts first len :
  first = 0%nat ∨ (∃ en, ix !! (first - 1)%nat = Some en ∧ timestamp_us en <= ts) →
  (first + len <= length ix)%nat →
  let it := upper_bound_loop fuel ix ts first len in
  (it = 0%nat ∨ ∃ en, ix !! (it - 1)%nat = Some en ∧ timestamp_us en <= ts) ∧ (it <= length ix)%nat.
Proof.
  revert first len. induction fuel as [|fuel IH]; intros first len Hf Hl; cbn [upper_bound_loop];
    [split; [done|lia]|].
  destruct (Nat.eqb_spec len 0) as [->|Hne]; [split; [done|lia]|].
  pose proof (Nat.div_lt len 2 ltac:(lia) ltac:(lia)) as Hhalf.
  destruct (ix !! (first + len / 2)%nat) as [en|] eqn:E; [|split; [done|lia]].
  destruct (Z.ltb_spec ts (timestamp_us en)) as [Hlt|Hge].
  - apply IH; [done|lia].
  - apply IH; [|lia]. right. exists en. split; [|done].
    by replace (first + len / 2 + 1 - 1)%nat with (first + len / 2)%nat by lia.
Qed.

Lemma upper_bound_entry ix ts :
  ix ≠ [] →
  let it := upper_bound ix ts in
  let it' := if (it =? 0)%nat then it else (it - 1)%nat in
  ∃ en, ix !! it' = Some en ∧ (it' = 0%nat ∨ timestamp_us en <= ts).
Proof.
  intros Hne. unfold upper_bound.
  destruct (upper_bound_loop_before (S (length ix)) ix ts 0 (length ix)) as [Hit _];
    [by left|lia|].
  cbv zeta. destruct (Nat.eqb_spec (upper_bound_loop (S (length ix)) ix ts 0 (length ix)) 0) as [->|Hnz].
  - destruct ix as [|en ix]; [done|]. exists en. split; [done|by left].
  - destruct Hit as [?|(en & E & Hle)]; [done|]. eauto.
Qed.

(** ** A whole log, written and replayed *)

Definition write_log (path : string) (compress : bool) (es : list any_event) : exc bytes :=
  l0 ← mk_EventLogger path ∅ compress 0 5;
  l1 ← log_all es l0;
  Ret (lg_out (finalize l1)).

Lemma write_log_shape path compress es data :
  write_log path compress es = Ret data →
  ∃ fs, Forall2 (framed compress) es fs ∧
    data = concat fs ++ footer (u64 (Z.of_nat (length (concat fs)))) (index_of 0 0 es fs).
Proof.
  unfold write_log, mk_EventLogger. destruct (can_open path); [|done].
  cbn [mbind exc_bind]. match goal with |- context [log_all es ?l] => set (l0 := l) end.
  destruct (log_all es l0) as [l1|] eqn:E; [|done]. cbn [mbind exc_bind]. intros [= <-].
  apply log_all_frames in E as (fs & HF & Ho & Hi & Hfin); [|done].
  exists fs. split; [done|]. unfold finalize. rewrite Hfin. cbn [lg_finalized l0 lg_out].
  unfold tellp. rewrite Hi, Ho. cbn [lg_out lg_index l0 lg_event_count tellp app]. done.
Qed.

Lemma index_ok es fs cnt off : Forall logged_ok es → Forall entry_ok (index_of cnt off es fs).
Proof.
  intros Hok. revert cnt off fs. induction Hok as [|e es [[Hb _] _] _ IH]; intros cnt off [|f fs];
    simpl; try done. apply Forall_app; split; [|apply IH]. case_match; [|done].
  constructor; [|done]. split; simpl.
  - unfold base_ok, in_s, us_of_tp, get_timestamp in *.
    pose proof (Z.quot_rem' (timestamp_ (ev_base e)) 1000).
    pose proof (Z.rem_bound_abs (timestamp_ (ev_base e)) 1000). lia.
  - apply wrapu_range. lia.
Qed.

(** Opening a written log puts the replayer before some event: the first one,
    or one that is not later than the window's start. *)
Lemma open_positioned path compress es data from_us to_us :
  write_log path compress es = Ret data → Forall logged_ok es →
  Forall (no_magic_clash compress) es →
  Z.of_nat (length data) < 2 ^ 63 → Z.of_nat (length es) < 2 ^ 32 →
  ∃ r es1 es2 pre, mk_EventReplayer path (Some data) from_us to_us = Ret r ∧
    es = es1 ++ es2 ∧ positioned r es2 pre ∧ rp_from_us r = from_us ∧ rp_to_us r = to_us ∧
    (es1 = [] ∨ (0 < from_us ∧ ∃ e es3, es2 = e :: es3 ∧ ev_us e <= from_us)).
Proof.
  intros Hw Hok Hclash Hlen Hcount.
  apply write_log_shape in Hw as (fs & HF & ->).
  set (ix := index_of 0 0 es fs) in *. set (off := Z.of_nat (length (concat fs))) in *.
  assert (off < 2 ^ 63) as Hoff by (rewrite length_app in Hlen; unfold off; lia).
  rewrite (wrapu_id 64 off) in * by (unfold in_u, off in *; lia).
  unfold mk_EventReplayer.
  change {| st_data := concat fs ++ footer off ix; st_pos := 0; st_fail := false |}
    with (at_pos [] (concat fs ++ footer off ix)).
  destruct (read_footer_log (concat fs) ix) as (pre & post & Edata & Efoot).
  { done. } { pose proof (index_of_length 0 0 es fs). unfold ix. lia. } { by apply index_ok. }
  fold off in Edata, Efoot. rewrite Efoot. set (data := concat fs ++ footer off ix) in *.
  assert (∃ es1 es2 fs1 fs2, es = es1 ++ es2 ∧ fs = fs1 ++ fs2 ∧
    Forall2 (framed compress) es2 fs2 ∧
    seek_start from_us true ix (at_pos pre post) = at_pos (concat fs1) (concat fs2 ++ footer off ix) ∧
    (es1 = [] ∨ (0 < from_us ∧ ∃ e es3, es2 = e :: es3 ∧ ev_us e <= from_us)))
    as (es1 & es2 & fs1 & fs2 & Ees & Efs & HF2 & Eseek & Hstart).
  { unfold seek_start. destruct (true && (0 <? from_us) && negb (bool_decide (ix = []))) eqn:Econd.
    - simpl in Econd. apply andb_true_iff in Econd as [Hfrom Hne].
      apply Z.ltb_lt in Hfrom. apply negb_true_iff, bool_decide_eq_false in Hne.
      destruct (upper_bound_entry ix from_us Hne) as (en & Hen & Hle).
      rewrite Hen. set (it' := if (upper_bound ix from_us =? 0)%nat then _ else _) in *. clearbody it'.
      destruct Hle as [->|Hle].
      + apply index_of_head in Hen as ->.
        exists [], es, [], fs. split_and!; try done; [|by left].
        apply (st_seekg_at pre post [] data Edata).
      + apply list_elem_of_lookup_2 in Hen.
        apply (index_of_elem _ _ _ _ _ _ HF) in Hen
          as (es1 & e & es2 & fs1 & f & fs2 & Ees & Efs & HF1 & HF2 & ->).
        exists es1, (e :: es2), fs1, (f :: fs2). split_and!; try done; [|right; eauto].
        cbn [file_offset]. rewrite Z.add_0_l.
        assert (off = Z.of_nat (length (concat fs1)) + Z.of_nat (length (concat (f :: fs2)))) as Eoff.
        { unfold off. rewrite Efs, concat_app, length_app. lia. }
        rewrite wrapu_id, wraps_id by (unfold in_u, in_s in *; lia).
        apply st_seekg_at. rewrite Edata. unfold data. rewrite Efs, concat_app. by rewrite <- app_assoc.
    - exists [], es, [], fs. split_and!; try done; [|by left].
      apply (st_seekg_at pre post [] data Edata). }
  rewrite Eseek. set (cmp := detect_compressed _).
  assert (es2 = [] ∨ cmp = compress) as Hcmp.
  { destruct HF2 as [|e f es2 fs2 Hf HF2]; [by left|right]. unfold cmp. simpl concat.
    rewrite <- app_assoc. rewrite Ees in Hok, Hclash.
    apply Forall_app in Hok as [_ [Hoke _]%Forall_cons].
    apply Forall_app in Hclash as [_ [Hce _]%Forall_cons].
    by apply (detect_framed _ e). }
  assert (st_seekg (st_tellg (at_pos (concat fs1) (concat fs2 ++ footer off ix)))
    (st_clear (at_pos (concat fs1) (concat fs2 ++ footer off ix))) =
    at_pos (concat fs1) (concat fs2 ++ footer off ix)) as ->.
  { unfold st_seekg, st_clear, st_tellg. cbn [st_fail at_pos st_pos st_data].
    by rewrite (proj2 (Z.ltb_ge _ 0)) by lia. }
  eexists _, es1, es2, (concat fs1). split_and!; try done.
  exists fs2, (footer off ix). cbn [rp_compressed rp_in rp_has_index rp_data_end]. split_and!; try done.
  - destruct Hcmp as [->| ->]; [|done]. by apply Forall2_nil_inv_l in HF2 as ->.
  - rewrite Ees in Hok. by apply Forall_app in Hok as [_ ?].
  - unfold off. rewrite Efs, concat_app, length_app. lia.
Qed.

(** C10: replaying a whole log.  Writing events to a log (compressed or not),
    finalising it and replaying it from the beginning gives back, in order, the
    events of the window, none lost, duplicated or misread, each as the format
    holds it: with its time cut to microseconds, strings cut to their length
    modulo 2^16, and without the strategy name, the opener's id and the receive
    and latency stamps; the index and footer are not taken for events.  This is
    of a log of fewer than 2^32 events and 2^63 bytes, and when it is not
    compressed of events none of whose times in microseconds has the zstd magic
    number as its low 32 bits. *)
Theorem replay_from_start path compress es data from_us to_us :
  write_log path compress es = Ret data → Forall logged_ok es →
  Forall (no_magic_clash compress) es →
  Z.of_nat (length data) < 2 ^ 63 → Z.of_nat (length es) < 2 ^ 32 →
  from_us <= 0 →
  run_replay path (Some data) from_us to_us = Ret (window from_us to_us es).
Proof.
  intros Hw Hok Hclash Hlen Hcount Hfrom.
  destruct (open_positioned _ _ _ _ from_us to_us Hw Hok Hclash Hlen Hcount)
    as (r & es1 & es2 & pre & E & -> & Hpos & <- & <- & [->|[? _]]); [|lia].
  unfold run_replay. rewrite E. cbn [mbind exc_bind].
  rewrite (replay_loop_window _ _ _ _ Hpos); [done|].
  apply positioned_length in Hpos. lia.
Qed.

(** *** Time-ordered logs *)

Definition time_ordered (es : list any_event) : Prop :=
  StronglySorted (λ a b, ev_us a <= ev_us b) es.

Lemma time_ordered_app es1 es2 :
  time_ordered (es1 ++ es2) →
  time_ordered es2 ∧ ∀ a b, a ∈ es1 → b ∈ es2 → ev_us a <= ev_us b.
Proof.
  induction es1 as [|e es1 IH]; simpl.
  - intros H. split; [done|]. by intros a b ?%not_elem_of_nil.
  - intros [Hs Hall]%StronglySorted_inv. apply IH in Hs as [H1 H2]. split; [done|].
    intros a b [->|Ha]%elem_of_cons Hb; [|by apply H2].
    rewrite Forall_forall in Hall. apply Hall, elem_of_app. by right.
Qed.

Lemma window_filter from_us to_us es :
  time_ordered es →
  window from_us to_us es = normalise <$> filter (λ e, from_us <= ev_us e <= to_us) es.
Proof.
  induction 1 as [|e es Hs IH Hall]; [done|]. cbn [window]. fold (ev_us e).
  rewrite filter_cons. destruct (Z.ltb_spec to_us (ev_us e)) as [Hto|Hto].
  - rewrite decide_False by lia.
    assert (filter (λ e, from_us <= ev_us e <= to_us) es = []) as ->; [|done].
    rewrite Forall_forall in Hall. apply filter_none. intros x Hx.
    specialize (Hall x Hx). simpl in *. lia.
  - destruct (Z.ltb_spec (ev_us e) from_us) as [Hf|Hf].
    + rewrite decide_False by lia. done.
    + rewrite decide_True by lia. by rewrite IH.
Qed.

Lemma window_skip from_us to_us es1 es2 :
  time_ordered (es1 ++ es2) → (∀ a, a ∈ es1 → ev_us a < from_us) →
  window from_us to_us (es1 ++ es2) = window from_us to_us es2.
Proof.
  intros Hs Hlt. rewrite !window_filter by (done || by apply time_ordered_app in Hs as [? _]).
  rewrite filter_app, filter_none; [done|]. intros x Hx. specialize (Hlt x Hx). lia.
Qed.

(** replaying a time window of a time-ordered log through the index.
    The seek by the index loses no event of the window, provided at most one
    event carries the window's start as its timestamp (see
    [replay_seek_drops_ties] for what happens otherwise). *)
Theorem replay_window_ordered path compress es data from_us to_us :
  write_log path compress es = Ret data → Forall logged_ok es →
  Forall (no_magic_clash compress) es →
  Z.of_nat (length data) < 2 ^ 63 → Z.of_nat (length es) < 2 ^ 32 →
  time_ordered es →
  (∀ i j a b, es !! i = Some a → es !! j = Some b → (i < j)%nat →
     ev_us a = from_us → ev_us b ≠ from_us) →
  run_replay path (Some data) from_us to_us =
    Ret (normalise <$> filter (λ e, from_us <= ev_us e <= to_us) es).
Proof.
  intros Hw Hok Hclash Hlen Hcount Hord Huniq.
  destruct (open_positioned _ _ _ _ from_us to_us Hw Hok Hclash Hlen Hcount)
    as (r & es1 & es2 & pre & E & -> & Hpos & <- & <- & Hstart).
  unfold run_replay. rewrite E. cbn [mbind exc_bind].
  rewrite (replay_loop_window _ _ _ _ Hpos); [|apply positioned_length in Hpos; lia].
  rewrite <- window_filter by done. f_equal. symmetry. apply window_skip; [done|].
  intros a Ha. destruct Hstart as [->|(_ & e & es3 & -> & Hle)]; [by apply not_elem_of_nil in Ha|].
  destruct (time_ordered_app _ _ Hord) as [_ Hbefore].
  specialize (Hbefore a e Ha (list_elem_of_here _ _)).
  apply list_elem_of_lookup_1 in Ha as [i Hi].
  assert (ev_us a ≠ rp_from_us r); [|lia]. intros Ea.
  apply (Huniq i (length es1) a e); [|apply list_lookup_middle; done| |done|lia].
  - rewrite lookup_app_l; [done|]. by apply lookup_lt_Some in Hi.
  - by apply lookup_lt_Some in Hi.
Qed.

(** *** Rotation *)

#[local] Instance nth_path_inj path : Inj (=) (=) (nth_path path).
Proof. intros i j H. unfold nth_path in H. by simplify_eq. Qed.

Lemma fs_rename_missing src dst fs k :
  src ≠ dst → fs !! dst = None →
  fs_rename src dst fs !! k =
    if decide (k = dst) then fs !! src else if decide (k = src) then None else fs !! k.
Proof.
  intros Hne Hd. unfold fs_rename. destruct (fs !! src) as [c|] eqn:E.
  - destruct (decide (k = dst)) as [->|Hk]; [by rewrite lookup_insert_eq|].
    rewrite lookup_insert_ne by done.
    destruct (decide (k = src)) as [->|]; [by rewrite lookup_delete_eq|by rewrite lookup_delete_ne].
  - destruct (decide (k = dst)) as [->|Hk]; [by rewrite Hd|].
    by destruct (decide (k = src)) as [->|].
Qed.

(** The loop moves every numbered file up by one, and leaves the others. *)
Lemma shift_files_spec path n fs :
  fs !! nth_path path (Z.of_nat n + 1) = None →
  let fs' := shift_files path n fs in
  (∀ i, 1 <= i <= Z.of_nat n → fs' !! nth_path path (i + 1) = fs !! nth_path path i) ∧
  (∀ k, (∀ i, 1 <= i <= Z.of_nat n + 1 → k ≠ nth_path path i) → fs' !! k = fs !! k) ∧
  fs' !! nth_path path 1 = None.
Proof.
  revert fs. induction n as [|n IH]; intros fs Hnone fs'.
  { split_and!; [intros; lia|done|exact Hnone]. }
  subst fs'. cbn [shift_files]. set (src := nth_path path (Z.of_nat (S n))) in *.
  set (dst := nth_path path (Z.of_nat (S n) + 1)) in *.
  assert (src ≠ dst) as Hne by (intros ?%(inj _); lia).
  pose proof (λ k, fs_rename_missing src dst fs k Hne Hnone) as Hren.
  set (fs1 := fs_rename src dst fs) in *.
  destruct (IH fs1) as (H1 & H2 & H3).
  { rewrite Hren. replace (Z.of_nat n + 1) with (Z.of_nat (S n)) by lia. fold src.
    by rewrite decide_False, decide_True. }
  split_and!; [| |done].
  - intros i Hi. destruct (decide (i = Z.of_nat (S n))) as [->|Hin].
    + rewrite H2 by (intros j Hj ?%(inj _); lia). rewrite Hren. by rewrite decide_True.
    + rewrite H1 by lia. rewrite Hren, !decide_False; [done| |]; intros ?%(inj _); lia.
  - intros k Hk. rewrite H2 by (intros j Hj; apply Hk; lia).
    rewrite Hren, !decide_False; [done| |]; apply Hk; lia.
Qed.

(** log rotation.  When the log reaches its size limit the finished file,
    with its index and footer, becomes [path.1], every older file moves up by
    one number, the oldest disappears, no other file is touched, and logging
    goes on in an empty file with an empty index. *)
Theorem rotate_shifts l l' :
  rotate l = Ret l' → 0 < lg_max_files l →
  let file i := nth_path (lg_path l) i in
  lg_fs l' !! file 1 = Some (lg_out (finalize l)) ∧
  (∀ i, 1 <= i < lg_max_files l → lg_fs l' !! file (i + 1) = lg_fs l !! file i) ∧
  (∀ k, (∀ i, 1 <= i <= lg_max_files l → k ≠ file i) → lg_fs l' !! k = lg_fs l !! k) ∧
  lg_out l' = [] ∧ lg_index l' = [] ∧ lg_event_count l' = 0 ∧ lg_finalized l' = false.
Proof.
  intros Hr Hmax file. unfold rotate in Hr.
  assert (lg_path (finalize l) = lg_path l ∧ lg_fs (finalize l) = lg_fs l ∧
    lg_max_files (finalize l) = lg_max_files l) as (E1 & E2 & E3)
    by (unfold finalize; by destruct (lg_finalized l)).
  rewrite E1, E2, E3, (proj2 (Z.ltb_lt _ _) Hmax) in Hr.
  destruct (can_open (lg_path l)); [|done]. simplify_eq/=.
  set (n := Z.to_nat (lg_max_files l - 1)).
  assert (Z.of_nat n + 1 = lg_max_files l) as En by lia.
  destruct (shift_files_spec (lg_path l) n (delete (file (lg_max_files l)) (lg_fs l)))
    as (H1 & H2 & H3).
  { rewrite En. apply lookup_delete_eq. }
  fold (file (lg_max_files l)).
  split_and!; try done.
  - apply lookup_insert_eq.
  - intros i Hi. rewrite lookup_insert_ne by (intros ?%(inj _); lia).
    unfold file at 1. rewrite H1 by lia.
    apply lookup_delete_ne. intros ?%(inj _). lia.
  - intros k Hk. rewrite lookup_insert_ne by (apply not_eq_sym, Hk; lia).
    rewrite H2 by (rewrite En; exact Hk).
    apply lookup_delete_ne. apply not_eq_sym, Hk. lia.
Qed.

End EventLog.

(** ** A codec that meets what is relied on of zstd: the magic number, the
    content size and the content itself. *)
Module StoredFrame.

Definition compress (b : bytes) : option bytes :=
  if Z.of_nat (length b) <? 2 ^ 31
  then Some (le_bytes 4 ZSTD_MAGIC ++ le_bytes 8 (Z.of_nat (length b)) ++ b) else None.
Definition frame_content_size (c : bytes) : option Z :=
  if le_Z (take 4 c) =? ZSTD_MAGIC then Some (le_Z (take 8 (drop 4 c))) else None.
Definition decompress (cap : Z) (c : bytes) : option bytes :=
  let b := drop 12 c in if Z.of_nat (length b) <=? cap then Some b else None.
Definition error_name (c : bytes) : string := "Destination buffer is too small".

Lemma compress_inv b c : compress b = Some c →
  c = le_bytes 4 ZSTD_MAGIC ++ le_bytes 8 (Z.of_nat (length b)) ++ b ∧ Z.of_nat (length b) < 2 ^ 31.
Proof. unfold compress. destruct (Z.ltb_spec (Z.of_nat (length b)) (2 ^ 31)); [|done]. by intros [= <-]. Qed.

Lemma size b c : compress b = Some c → frame_content_size c = Some (Z.of_nat (length b)).
Proof.
  intros [-> Hl]%compress_inv. unfold frame_content_size.
  destruct (take_drop_app (le_bytes 4 ZSTD_MAGIC) (le_bytes 8 (Z.of_nat (length b)) ++ b) 4) as [-> ->];
    [by rewrite le_bytes_length|].
  destruct (take_drop_app (le_bytes 8 (Z.of_nat (length b))) b 8) as [-> _];
    [by rewrite le_bytes_length|].
  rewrite !le_Z_bytes. rewrite (Z.mod_small (Z.of_nat _)); [done|].
  change (256 ^ Z.of_nat 8) with (2 ^ 64). lia.
Qed.

Lemma inverse b c : compress b = Some c → decompress (Z.of_nat (length b)) c = Some b.
Proof.
  intros [-> _]%compress_inv. unfold decompress. rewrite app_assoc.
  destruct (take_drop_app (le_bytes 4 ZSTD_MAGIC ++ le_bytes 8 (Z.of_nat (length b))) b 12) as [_ ->];
    [by rewrite length_app, !le_bytes_length|].
  by rewrite Z.leb_refl.
Qed.

Lemma magic b c : compress b = Some c → ∃ rest, c = le_bytes 4 ZSTD_MAGIC ++ rest.
Proof. intros [-> _]%compress_inv. eauto. Qed.

Lemma bound b c : compress b = Some c →
  Z.of_nat (length b) < 2 ^ 20 → Z.of_nat (length c) < 2 ^ 32.
Proof. intros [-> _]%compress_inv Hl. rewrite !length_app, !le_bytes_length. lia. Qed.

End StoredFrame.

Definition sample_cancel (us : Z) : any_event :=
  EvCancel (mk_cancel_event (us * 1000) "X" 1 "").
Definition sample_log : list any_event := [sample_cancel 5; sample_cancel 9; sample_cancel 12].
Definition sample_file (compress : bool) : bytes :=
  match write_log StoredFrame.compress StoredFrame.error_name (λ _, true) "log" compress sample_log with
  | Ret data => data | Throw _ => [] end.

Lemma sample_ok : Forall logged_ok sample_log.
Proof.
  repeat constructor; unfold base_ok, in_s, in_u; simpl; try done; unfold timestamp_; simpl; lia.
Qed.

Lemma sample_no_clash c : Forall (no_magic_clash c) sample_log.
Proof. repeat constructor; intros _; done. Qed.

Lemma replay_from_start_witness :
  run_replay StoredFrame.frame_content_size StoredFrame.decompress StoredFrame.error_name
    "log" (Some (sample_file true)) 0 10 = Ret [sample_cancel 5; sample_cancel 9].
Proof.
  apply (replay_from_start StoredFrame.compress StoredFrame.frame_content_size
    StoredFrame.decompress StoredFrame.error_name (λ _, true) StoredFrame.size StoredFrame.inverse
    StoredFrame.magic StoredFrame.bound "log" true sample_log (sample_file true) 0 10).
  - vm_compute. reflexivity.
  - apply sample_ok.
  - apply sample_no_clash.
  - vm_compute. reflexivity.
  - vm_compute. reflexivity.
  - lia.
Defined.

Lemma replay_window_ordered_witness :
  run_replay StoredFrame.frame_content_size StoredFrame.decompress StoredFrame.error_name
    "log" (Some (sample_file true)) 9 12 = Ret [sample_cancel 9; sample_cancel 12].
Proof.
  apply (replay_window_ordered StoredFrame.compress StoredFrame.frame_content_size
    StoredFrame.decompress StoredFrame.error_name (λ _, true) StoredFrame.size StoredFrame.inverse
    StoredFrame.magic StoredFrame.bound "log" true sample_log (sample_file true) 9 12).
  - vm_compute. reflexivity.
  - apply sample_ok.
  - apply sample_no_clash.
  - vm_compute. reflexivity.
  - vm_compute. reflexivity.
  - repeat constructor; vm_compute; done.
  - intros i j a b Hi Hj Hij Ha.
    destruct i as [|[|[|i]]]; simpl in Hi; simplify_eq; vm_compute in Ha; try done.
    destruct j as [|[|[|j]]]; simpl in Hj; simplify_eq; try lia. vm_compute. done.
Defined.

Definition sample_logger : EventLogger :=
  {| lg_path := "log"; lg_fs := {[ "log.1" := [Byte.x01]; "log.2" := [Byte.x02] ]};
     lg_out := [Byte.x07]; lg_compress := false; lg_index := []; lg_event_count := 1;
     lg_finalized := false; lg_max_bytes := 1; lg_max_files := 2 |}.

Definition sample_rotated : EventLogger :=
  match rotate (λ _, true) sample_logger with Ret l => l | Throw _ => sample_logger end.

Lemma rotate_shifts_witness : lg_fs sample_rotated !! "log.2" = Some [Byte.x01].
Proof.
  destruct (rotate_shifts (λ _, true) sample_logger sample_rotated) as (_ & H & _).
  - vm_compute. reflexivity.
  - vm_compute. reflexivity.
  - transitivity (lg_fs sample_logger !! nth_path "log" 1).
    + apply (H 1). simpl. lia.
    + vm_compute. reflexivity.
Defined.

(** ** Two behaviours of the replayer the theorems above exclude by hypothesis *)

(** A thousand and one events at one timestamp: two index entries. *)
Definition tied_log : list any_event := replicate 1001 (sample_cancel 5).

(** the seek by the index skips events at the window's start.  The index
    search steps back one entry from the first later one, which is the last
    entry at the start's timestamp and not the first: of 1001 events all at the
    window's start, replay returns one. *)
Theorem replay_seek_drops_ties zc zs zd zn :
  Forall (λ e, ev_us e = 5) tied_log ∧ length tied_log = 1001%nat ∧
  (data ← write_log zc zn (λ _, true) "log" false tied_log;
   run_replay zs zd zn "log" (Some data) 5 5) = Ret [sample_cancel 5].
Proof.
  split_and!.
  - apply Forall_replicate. vm_compute. reflexivity.
  - reflexivity.
  - vm_compute. reflexivity.
Qed.

(** The microsecond timestamp whose low word is zstd's magic number. *)
Definition clash_us : Z := 0x3FD2FB528.

(** A frame the decompressor rejects ends the replay with its error. *)
Lemma replay_loop_undecodable zs zd zn fuel r tb size raw s1 s2 s3 :
  has_next r = true → rp_has_index r && (rp_data_end r <=? st_tellg (rp_in r)) = false →
  st_read_uint 1 (rp_in r) = (tb, s1) → st_fail s1 = false →
  st_read_uint 4 s1 = (size, s2) → st_fail s2 = false →
  st_read size s2 = (raw, s3) → st_fail s3 = false →
  rp_compressed r = true → (∀ cap, zd cap raw = None) →
  replay_loop zs zd zn (S fuel) r = Throw ("zstd decompress: " +:+ zn raw).
Proof.
  intros Hn Hd E1 F1 E2 F2 E3 F3 Hc Hbad. cbn [replay_loop]. rewrite Hn.
  unfold next. cbn [next_loop]. unfold next_iter. rewrite Hd, E1, F1, E2, F2, E3, F3.
  unfold decode_payload. by rewrite Hc, Hbad.
Qed.

(** an uncompressed log can be taken for a compressed one.  Compression is
    guessed from the first four payload bytes, which in an uncompressed log are
    the low word of the first event's timestamp; when they equal the magic
    number, replay hands the payload to the decompressor and fails. *)
Theorem replay_misdetects_compression zc zs zd zn :
  (∀ cap, zd cap (serialise (sample_cancel clash_us)) = None) →
  (data ← write_log zc zn (λ _, true) "log" false [sample_cancel clash_us];
   run_replay zs zd zn "log" (Some data) 0 (2 ^ 63 - 1)) =
  Throw ("zstd decompress: " +:+ zn (serialise (sample_cancel clash_us))).
Proof.
  intros Hbad. set (written := write_log _ _ _ _ _ _). vm_compute in written. subst written.
  cbn [mbind exc_bind]. unfold run_replay. set (opened := mk_EventReplayer _ _ _ _).
  vm_compute in opened. subst opened. cbn [mbind exc_bind].
  eapply replay_loop_undecodable; [vm_compute; reflexivity..|exact Hbad].
Qed.

Lemma replay_misdetects_compression_witness :
  (data ← write_log StoredFrame.compress StoredFrame.error_name (λ _, true) "log" false
            [sample_cancel clash_us];
   run_replay StoredFrame.frame_content_size (λ _ _, None) StoredFrame.error_name "log"
     (Some data) 0 (2 ^ 63 - 1)) =
  Throw "zstd decompress: Destination buffer is too small".
Proof.
  apply (replay_misdetects_compression StoredFrame.compress StoredFrame.frame_content_size
    (λ _ _, None) StoredFrame.error_name). reflexivity.
Defined.
