(* ===== verification/NodeHeap.v ===== *)
(** * Order nodes and price levels (src/src/orderbook/orderbook.h and .cpp)

    Resting orders live in nodes taken from blocks of 4096; a price level is a
    doubly linked list of nodes with its head, tail and total quantity, and the
    free nodes form a singly linked list.  The heap of nodes is a map from
    addresses to nodes, a null pointer is [None], and following a null or
    dangling pointer is a [Throw] that the theorems exclude. *)

From S2P Require Import Prelude.

Open Scope string_scope.
Open Scope list_scope.
Open Scope Z_scope.

(** ** Data *)

Inductive ob_order_type := good_till_cancel | fill_or_kill | immediate_or_cancel.
Inductive side := buy | sell.

#[export] Instance ob_order_type_eq_dec : EqDecision ob_order_type.
Proof. solve_decision. Defined.
#[export] Instance side_eq_dec : EqDecision side.
Proof. solve_decision. Defined.

Record order := {
  o_type : ob_order_type;
  o_id : Z;
  o_side : side;
  o_price : Z;
  o_initial : Z;
  o_remaining : Z }.

#[export] Instance order_eq_dec : EqDecision order.
Proof. solve_decision. Defined.

Definition mk_order (t : ob_order_type) (id : Z) (s : side) (p q : Z) : order :=
  {| o_type := t; o_id := id; o_side := s; o_price := p; o_initial := q; o_remaining := q |}.

Definition o_set_remaining (o : order) (q : Z) : order :=
  {| o_type := o_type o; o_id := o_id o; o_side := o_side o; o_price := o_price o;
     o_initial := o_initial o; o_remaining := q |}.

Definition fill (q : Z) (o : order) : exc order :=
  if o_remaining o <? q
  then Throw ("Order (" +:+ pretty (o_id o) +:+
              ") cannot be filled for more than its remaining quantity")
  else Ret (o_set_remaining o (u64 (o_remaining o - q))).

Definition is_filled (o : order) : bool := o_remaining o =? 0.
Definition get_filled_quantity (o : order) : Z := u64 (o_initial o - o_remaining o).

Record order_node := {
  n_order : option order;
  n_next : option Z;
  n_prev : option Z }.

Record price_level := {
  lv_price : Z;
  lv_total : Z;
  lv_head : option Z;
  lv_tail : option Z }.

Definition new_level (p : Z) : price_level :=
  {| lv_price := p; lv_total := 0; lv_head := None; lv_tail := None |}.

Abbreviation heap := (gmap Z order_node).

(** ** Loads and stores *)

Definition bad_pointer : string := "undefined behaviour: null or dangling pointer".

Definition deref (h : heap) (p : option Z) : exc order_node :=
  match p with
  | Some a => match h !! a with Some n => Ret n | None => Throw bad_pointer end
  | None => Throw bad_pointer
  end.

Definition update (h : heap) (p : Z) (f : order_node → order_node) : exc heap :=
  n ← deref h (Some p); Ret (<[p := f n]> h).

Definition order_of (h : heap) (p : Z) : exc order :=
  n ← deref h (Some p);
  match n_order n with Some o => Ret o | None => Throw bad_pointer end.

Definition with_order (o : option order) (n : order_node) : order_node :=
  {| n_order := o; n_next := n_next n; n_prev := n_prev n |}.
Definition with_next (q : option Z) (n : order_node) : order_node :=
  {| n_order := n_order n; n_next := q; n_prev := n_prev n |}.
Definition with_prev (q : option Z) (n : order_node) : order_node :=
  {| n_order := n_order n; n_next := n_next n; n_prev := q |}.

(** ** price_level *)

Definition lv_empty (lv : price_level) : bool := bool_decide (lv_head lv = None).

Definition lv_set_total (q : Z) (lv : price_level) : price_level :=
  {| lv_price := lv_price lv; lv_total := q; lv_head := lv_head lv; lv_tail := lv_tail lv |}.

Definition append (n : Z) (h0 : heap) (lv : price_level) : exc (heap * price_level) :=
  h1 ← update h0 n (with_prev (lv_tail lv));
  h2 ← update h1 n (with_next None);
  h3 ← match lv_tail lv with
       | Some t => update h2 t (with_next (Some n))
       | None => Ret h2
       end;
  o ← order_of h3 n;
  Ret (h3, {| lv_price := lv_price lv; lv_total := u64 (lv_total lv + o_remaining o);
              lv_head := match lv_tail lv with Some _ => lv_head lv | None => Some n end;
              lv_tail := Some n |}).

Definition remove (n : Z) (h0 : heap) (lv : price_level) : exc (heap * price_level) :=
  nd0 ← deref h0 (Some n);
  h1 ← match n_prev nd0 with
       | Some p => update h0 p (with_next (n_next nd0))
       | None => Ret h0
       end;
  let head1 := match n_prev nd0 with Some _ => lv_head lv | None => n_next nd0 end in
  nd1 ← deref h1 (Some n);
  h2 ← match n_next nd1 with
       | Some q => update h1 q (with_prev (n_prev nd1))
       | None => Ret h1
       end;
  let tail1 := match n_next nd1 with Some _ => lv_tail lv | None => n_prev nd1 end in
  o ← order_of h2 n;
  h3 ← update h2 n (λ nd, with_prev None (with_next None nd));
  Ret (h3, {| lv_price := lv_price lv; lv_total := u64 (lv_total lv - o_remaining o);
              lv_head := head1; lv_tail := tail1 |}).

(** ** The free list *)

Definition NODE_BLOCK_SIZE : Z := 4096.

Record node_pool := { np_heap : heap; np_blocks : Z; np_free : option Z }.

Definition fresh_node (next : option Z) : order_node :=
  {| n_order := None; n_next := next; n_prev := None |}.

(** [for (i = 0; i < NODE_BLOCK_SIZE; ++i)] of alloc_node, from address [a]. *)
Fixpoint link_block (n : nat) (a : Z) (h : heap) (free : option Z) : heap * option Z :=
  match n with
  | O => (h, free)
  | S n => link_block n (a + 1) (<[a := fresh_node free]> h) (Some a)
  end.

Definition alloc_node (np : node_pool) : exc (Z * node_pool) :=
  let np1 :=
    match np_free np with
    | Some _ => np
    | None =>
        let '(h, f) := link_block (Z.to_nat NODE_BLOCK_SIZE) (np_blocks np * NODE_BLOCK_SIZE)
                         (np_heap np) None in
        {| np_heap := h; np_blocks := np_blocks np + 1; np_free := f |}
    end in
  nd ← deref (np_heap np1) (np_free np1);
  match np_free np1 with
  | Some n =>
      h ← update (np_heap np1) n
            (λ nd, {| n_order := None; n_next := None; n_prev := None |});
      Ret (n, {| np_heap := h; np_blocks := np_blocks np1; np_free := n_next nd |})
  | None => Throw bad_pointer
  end.

Definition free_node (n : Z) (np : node_pool) : exc node_pool :=
  h1 ← update (np_heap np) n (with_order None);
  h2 ← update h1 n (with_prev None);
  h3 ← update h2 n (with_next (np_free np));
  Ret {| np_heap := h3; np_blocks := np_blocks np; np_free := Some n |}.

(** ** Lists of nodes in the heap *)

Definition node (o : order) (next prev : option Z) : order_node :=
  {| n_order := Some o; n_next := next; n_prev := prev |}.

(** What a list of nodes shows: addresses and orders, in list order. *)
Abbreviation view := (list (Z * order)).

Definition first_or (v : view) (d : option Z) : option Z :=
  match v with [] => d | x :: _ => Some x.1 end.
Definition last_or (d : option Z) (v : view) : option Z :=
  match last v with Some x => Some x.1 | None => d end.

(** The segment [v], entered from [prev] and left to [next]. *)
Fixpoint seg (h : heap) (prev : option Z) (v : view) (next : option Z) : Prop :=
  match v with
  | [] => True
  | (p, o) :: v => h !! p = Some (node o (first_or v next) prev) ∧ seg h (Some p) v next
  end.

Definition addrs (v : view) : list Z := v.*1.

Definition total (v : view) : Z := foldr Z.add 0 ((λ x, o_remaining x.2) <$> v).

(** A level and the list of nodes it owns. *)
Definition level_of (h : heap) (lv : price_level) (v : view) : Prop :=
  seg h None v None ∧ lv_head lv = first_or v None ∧ lv_tail lv = last_or None v ∧
  lv_total lv = u64 (total v).

Lemma last_or_snoc d v x : last_or d (v ++ [x]) = Some x.1.
Proof. unfold last_or. by rewrite last_snoc. Qed.

Lemma last_or_cons d x v : last_or d (x :: v) = last_or (Some x.1) v.
Proof.
  unfold last_or. rewrite last_cons. by destruct (last v).
Qed.

Lemma first_or_app v w d : first_or (v ++ w) d = first_or v (first_or w d).
Proof. by destruct v. Qed.

Lemma last_or_app d v w : last_or d (v ++ w) = last_or (last_or d v) w.
Proof.
  revert d. induction v as [|x v IH]; intros d; [done|]. simpl app.
  by rewrite !last_or_cons, IH.
Qed.

Lemma seg_app h prev v w next :
  seg h prev (v ++ w) next ↔ seg h prev v (first_or w next) ∧ seg h (last_or prev v) w next.
Proof.
  revert prev. induction v as [|[p o] v IH]; intros prev; [simpl; tauto|].
  simpl app. rewrite last_or_cons. cbn [seg]. rewrite IH, first_or_app. simpl fst. tauto.
Qed.

Lemma seg_frame h h' prev v next :
  (∀ p, p ∈ addrs v → h' !! p = h !! p) → seg h prev v next → seg h' prev v next.
Proof.
  revert prev. induction v as [|[p o] v IH]; intros prev Hag; [done|].
  intros [Hp Hs]. split; [rewrite Hag; [done|left]|]. apply IH; [|done].
  intros q Hq. apply Hag. by right.
Qed.

Lemma seg_insert_ne h prev v next p n :
  p ∉ addrs v → seg h prev v next → seg (<[p := n]> h) prev v next.
Proof.
  intros Hp. apply seg_frame. intros q Hq. apply lookup_insert_ne. by intros ->.
Qed.

Lemma seg_lookup h prev v next p o :
  seg h prev v next → (p, o) ∈ v → ∃ nx pv, h !! p = Some (node o nx pv).
Proof.
  revert prev. induction v as [|[q o'] v IH]; intros prev; [by intros _ ?%not_elem_of_nil|].
  intros [Hq Hs] [?|Hin]%elem_of_cons; simplify_eq; eauto.
Qed.

Lemma total_app v w : total (v ++ w) = total v + total w.
Proof. unfold total. by rewrite fmap_app, sum_Z_app. Qed.

Lemma total_cons x v : total (x :: v) = o_remaining x.2 + total v.
Proof. done. Qed.

Lemma addrs_app v w : addrs (v ++ w) = addrs v ++ addrs w.
Proof. apply fmap_app. Qed.

(** ** The list operations on the heap *)

Lemma update_lookup h p n f : h !! p = Some n → update h p f = Ret (<[p := f n]> h).
Proof. intros E. unfold update, deref. by rewrite E. Qed.

Lemma deref_lookup h p n : h !! p = Some n → deref h (Some p) = Ret n.
Proof. intros E. unfold deref. by rewrite E. Qed.

Lemma order_of_lookup h p o nx pv : h !! p = Some (node o nx pv) → order_of h p = Ret o.
Proof. intros E. unfold order_of, deref. by rewrite E. Qed.

(** Redirecting the last node of a segment. *)
Lemma seg_set_next h prev v p o nx nx' pv :
  seg h prev (v ++ [(p, o)]) nx → p ∉ addrs v → h !! p = Some (node o nx pv) →
  seg (<[p := node o nx' pv]> h) prev (v ++ [(p, o)]) nx'.
Proof.
  intros [Hv Hp]%seg_app Hni Hl. apply seg_app. split.
  - by apply seg_insert_ne.
  - destruct Hp as [Hp _]. split; [|done]. cbn [first_or] in *. rewrite lookup_insert_eq. by simplify_eq.
Qed.

(** Redirecting the first node of a segment. *)
Lemma seg_set_prev h prev prev' p o v nx :
  seg h prev ((p, o) :: v) nx → p ∉ addrs v →
  seg (<[p := node o (first_or v nx) prev']> h) prev' ((p, o) :: v) nx.
Proof.
  intros [Hp Hv] Hni. split; [by rewrite lookup_insert_eq|]. by apply seg_insert_ne.
Qed.

Lemma append_spec h lv v n o :
  level_of h lv v → NoDup (addrs v) → n ∉ addrs v →
  h !! n = Some (node o None None) →
  ∃ h' lv', append n h lv = Ret (h', lv') ∧ level_of h' lv' (v ++ [(n, o)]) ∧
    lv_price lv' = lv_price lv ∧ (∀ p, p ∉ addrs v → p ≠ n → h' !! p = h !! p) ∧
    dom h' = dom h.
Proof.
  intros (Hseg & Hh & Ht & Hq) Hnd Hn Hl. unfold append.
  rewrite (update_lookup _ _ _ _ Hl). tt_bind.
  erewrite update_lookup by apply lookup_insert_eq. tt_bind.
  rewrite insert_insert_eq. set (h2 := <[n := _]> h).
  assert (n ∈ dom h) as Hnin by (apply elem_of_dom; eauto).
  assert (dom h2 = dom h) as Hdom2 by (unfold h2; apply dom_insert_lookup_L; eauto).
  assert (h2 !! n = Some (node o None (lv_tail lv))) as Hn2 by apply lookup_insert_eq.
  assert (seg h2 None v None) as Hseg2 by (by apply seg_insert_ne).
  assert (∀ p, p ≠ n → h2 !! p = h !! p) as Hfr by (intros; by apply lookup_insert_ne).
  clearbody h2. destruct v as [|x0 v0] using rev_ind.
  - unfold last_or in Ht. simpl in Ht. rewrite Ht in Hn2 |- *. tt_bind.
    rewrite (order_of_lookup _ _ _ _ _ Hn2). tt_bind. eexists _, _. split; [done|].
    unfold level_of. split_and!; try done.
    + cbn [lv_total]. rewrite Hq. unfold total. simpl. by rewrite wrapu_add_l, Z.add_0_r.
    + intros p _ Hpn. by apply Hfr.
  - clear IHv0. destruct x0 as [t ot]. rewrite last_or_snoc in Ht. simpl in Ht. rewrite Ht in Hn2 |- *.
    rewrite addrs_app in *. simpl in *.
    assert (t ∉ addrs v0) as Ht0.
    { apply NoDup_app in Hnd as (_ & Hd & _). intros Hin. apply (Hd t Hin). left. }
    assert (n ≠ t) as Hnt by set_solver.
    assert (h2 !! t = Some (node ot None (last_or None v0))) as Ht2
      by (apply seg_app in Hseg2 as [_ [? _]]; done).
    rewrite (update_lookup _ _ _ _ Ht2). tt_bind.
    erewrite order_of_lookup by (by rewrite lookup_insert_ne). tt_bind. eexists _, _. split; [done|].
    change (with_next (Some n) (node ot None (last_or None v0))) with (node ot (Some n) (last_or None v0)).
    split; [|split; [done|split]].
    + split; [|split; [|split]].
      * rewrite seg_app. split.
        -- by apply (seg_set_next _ _ _ _ _ None).
        -- rewrite last_or_snoc. split; [|done]. by rewrite lookup_insert_ne.
      * cbn [lv_head]. rewrite Hh, !first_or_app. by destruct v0.
      * by rewrite last_or_snoc.
      * cbn [lv_total]. rewrite Hq, !total_app, wrapu_add_l. unfold total. simpl. f_equal. lia.
    + intros p Hp Hpn. rewrite lookup_insert_ne by set_solver. by apply Hfr.
    + rewrite dom_insert_lookup_L by eauto. done.
Qed.

(** Unlinking a node from the middle: first the predecessor's next, then the
    successor's prev. *)
Lemma unlink_left h v1 n o v2 :
  seg h None (v1 ++ (n, o) :: v2) None → NoDup (addrs (v1 ++ (n, o) :: v2)) →
  ∃ h1, (match last_or None v1 with
         | Some p => update h p (with_next (first_or v2 None))
         | None => Ret h end) = Ret h1 ∧
    seg h1 None v1 (first_or v2 None) ∧ seg h1 (Some n) v2 None ∧
    h1 !! n = Some (node o (first_or v2 None) (last_or None v1)) ∧
    (∀ p, p ∉ addrs v1 → h1 !! p = h !! p) ∧ dom h1 = dom h.
Proof.
  intros [Hs1 [Hn Hs2]]%seg_app Hnd.
  destruct v1 as [|[t ot] v1 _] using rev_ind.
  { eexists. split; [done|]. by split_and!. }
  rewrite last_or_snoc in *. cbn [fst] in *. rewrite !addrs_app in Hnd. cbn [addrs fmap list_fmap fst] in Hnd.
  apply NoDup_app in Hnd as (Hnd1 & Hd & Hnd2). apply NoDup_app in Hnd1 as (_ & Hdt & _).
  assert (t ∉ addrs v1) as Ht1 by (intros Hin; apply (Hdt t Hin); left).
  assert (t ∉ n :: addrs v2) as Ht2 by (apply Hd, elem_of_app; right; left).
  assert (h !! t = Some (node ot (Some n) (last_or None v1))) as Ht
    by (apply seg_app in Hs1 as [_ [? _]]; done).
  rewrite (update_lookup _ _ _ _ Ht). eexists. split; [done|].
  change (with_next ?x (node ot ?y ?z)) with (node ot x z).
  apply not_elem_of_cons in Ht2 as [Htn Ht2]. split_and!.
  - by apply (seg_set_next _ _ _ _ _ (Some n)).
  - by apply seg_insert_ne.
  - by rewrite lookup_insert_ne.
  - intros p Hp. apply lookup_insert_ne. intros ->. apply Hp.
    rewrite addrs_app. apply elem_of_app. right. left.
  - apply dom_insert_lookup_L. eauto.
Qed.

Lemma unlink_right h v1 n v2 :
  seg h None v1 (first_or v2 None) → seg h (Some n) v2 None →
  NoDup (addrs v1 ++ addrs v2) → n ∉ addrs v2 →
  ∃ h2, (match first_or v2 None with
         | Some q => update h q (with_prev (last_or None v1))
         | None => Ret h end) = Ret h2 ∧
    seg h2 None (v1 ++ v2) None ∧ h2 !! n = h !! n ∧
    (∀ p, p ∉ addrs v2 → h2 !! p = h !! p) ∧ dom h2 = dom h.
Proof.
  intros Hs1 Hs2 Hnd Hn2. destruct v2 as [|[q oq] v2].
  { eexists. rewrite app_nil_r. by split_and!. }
  destruct Hs2 as [Hq Hs2]. cbn [first_or fst] in *.
  rewrite (update_lookup _ _ _ _ Hq). eexists. split; [done|].
  change (with_prev ?x (node oq ?y ?z)) with (node oq y x).
  cbn [addrs fmap list_fmap fst] in *. apply NoDup_app in Hnd as (_ & Hd & [Hq2 _]%NoDup_cons).
  assert (q ∉ addrs v1) as Hq1 by (intros Hin; apply (Hd q Hin); left).
  split_and!.
  - apply seg_app. split; [by apply seg_insert_ne|].
    by apply (seg_set_prev h (Some n)).
  - apply lookup_insert_ne. intros ->. apply Hn2. left.
  - intros p Hp. apply lookup_insert_ne. intros ->. apply Hp. left.
  - apply dom_insert_lookup_L. eauto.
Qed.

Lemma first_last_split v1 n (o : order) v2 :
  first_or (v1 ++ v2) None =
    (match last_or None v1 with
     | Some _ => first_or (v1 ++ (n, o) :: v2) None
     | None => first_or v2 None end) ∧
  last_or None (v1 ++ v2) =
    (match first_or v2 None with
     | Some _ => last_or None (v1 ++ (n, o) :: v2)
     | None => last_or None v1 end).
Proof.
  split.
  - destruct v1 as [|x v1]; [done|]. rewrite last_or_cons.
    by destruct (last_or (Some x.1) v1) eqn:E; [|destruct v1 using rev_ind;
      [|rewrite last_or_snoc in E]].
  - rewrite !last_or_app, last_or_cons. destruct v2 as [|y v2]; [done|]. by rewrite !last_or_cons.
Qed.

Lemma remove_spec h lv v1 n o v2 :
  level_of h lv (v1 ++ (n, o) :: v2) → NoDup (addrs (v1 ++ (n, o) :: v2)) →
  ∃ h' lv', remove n h lv = Ret (h', lv') ∧ level_of h' lv' (v1 ++ v2) ∧
    lv_price lv' = lv_price lv ∧ h' !! n = Some (node o None None) ∧
    (∀ p, p ∉ addrs (v1 ++ (n, o) :: v2) → h' !! p = h !! p) ∧ dom h' = dom h.
Proof.
  intros (Hseg & Hh & Ht & Hq) Hnd. unfold remove.
  assert (h !! n = Some (node o (first_or v2 None) (last_or None v1))) as Hn
    by (apply seg_app in Hseg as [_ [? _]]; done).
  rewrite (deref_lookup _ _ _ Hn). tt_bind. cbn [n_prev n_next node].
  destruct (unlink_left _ _ _ _ _ Hseg Hnd) as (h1 & -> & Hs1 & Hs2 & Hn1 & Hf1 & Hd1). tt_bind.
  rewrite (deref_lookup _ _ _ Hn1). tt_bind. cbn [n_prev n_next node].
  rewrite addrs_app in Hnd. cbn [addrs fmap list_fmap fst] in Hnd.
  apply NoDup_app in Hnd as (Hnd1 & Hdis & [Hn2 Hnd2]%NoDup_cons).
  assert (n ∉ addrs v1) as Hnv1 by (intros Hin; apply (Hdis n Hin); left).
  destruct (unlink_right h1 v1 n v2) as (h2 & -> & Hs & Hn' & Hf2 & Hd2); try done.
  { apply NoDup_app. split_and!; try done. intros x Hx Hx2. apply (Hdis x Hx). by right. }
  tt_bind. rewrite Hn1 in Hn'. rewrite (order_of_lookup _ _ _ _ _ Hn'). tt_bind.
  rewrite (update_lookup _ _ _ _ Hn'). tt_bind. eexists _, _. split; [done|].
  destruct (first_last_split v1 n o v2) as [Ef El].
  unfold level_of. cbn [lv_head lv_tail lv_total lv_price]. split_and!; try done.
  - apply seg_insert_ne; [|done]. rewrite addrs_app, elem_of_app. tauto.
  - by rewrite Ef, Hh.
  - by rewrite El, Ht.
  - rewrite Hq, wrapu_sub_l, !total_app, total_cons. f_equal. cbn [snd]. lia.
  - by rewrite lookup_insert_eq.
  - intros p Hp. rewrite addrs_app in Hp. apply not_elem_of_app in Hp as [Hp1 Hp2].
    apply not_elem_of_cons in Hp2 as [Hpn Hp2]. rewrite lookup_insert_ne by done.
    rewrite Hf2, Hf1 by done. done.
  - rewrite dom_insert_lookup_L by eauto. by rewrite Hd2.
Qed.

(** Filling the order of a node in place. *)
Lemma seg_set_order h prev v1 n o o' v2 nx :
  seg h prev (v1 ++ (n, o) :: v2) nx → NoDup (addrs (v1 ++ (n, o) :: v2)) →
  ∃ nd, h !! n = Some nd ∧ n_order nd = Some o ∧
    seg (<[n := with_order (Some o') nd]> h) prev (v1 ++ (n, o') :: v2) nx.
Proof.
  intros [Hs1 [Hn Hs2]]%seg_app Hnd.
  rewrite addrs_app in Hnd. cbn [addrs fmap list_fmap fst] in Hnd.
  apply NoDup_app in Hnd as (_ & Hdis & [Hn2 _]%NoDup_cons).
  assert (n ∉ addrs v1) as Hnv1 by (intros Hin; apply (Hdis n Hin); left).
  eexists. split; [done|]. split; [done|].
  apply seg_app. split; [by apply seg_insert_ne|].
  split; [by rewrite lookup_insert_eq|]. by apply seg_insert_ne.
Qed.

(** ** The free list *)

Fixpoint chain (h : heap) (hd : option Z) (fs : list Z) : Prop :=
  match fs with
  | [] => hd = None
  | p :: fs => hd = Some p ∧ ∃ n, h !! p = Some n ∧ chain h (n_next n) fs
  end.

Lemma chain_frame h h' hd fs :
  (∀ p, p ∈ fs → h' !! p = h !! p) → chain h hd fs → chain h' hd fs.
Proof.
  revert hd. induction fs as [|p fs IH]; intros hd Hag; [done|].
  intros (-> & n & Hn & Hc). split; [done|]. exists n. split; [rewrite Hag; [done|left]|].
  apply IH; [|done]. intros q Hq. apply Hag. by right.
Qed.

Lemma chain_insert_ne h hd fs p n : p ∉ fs → chain h hd fs → chain (<[p := n]> h) hd fs.
Proof. intros Hp. apply chain_frame. intros q Hq. apply lookup_insert_ne. by intros ->. Qed.

(** A pool: its free nodes, and every address below the next block. *)
Definition pool_ok (np : node_pool) (fs : list Z) : Prop :=
  chain (np_heap np) (np_free np) fs ∧ 0 <= np_blocks np ∧
  (∀ p, p ∈ dom (np_heap np) → 0 <= p < np_blocks np * NODE_BLOCK_SIZE).

Lemma free_node_spec np fs n :
  pool_ok np fs → n ∈ dom (np_heap np) → n ∉ fs →
  ∃ np', free_node n np = Ret np' ∧ pool_ok np' (n :: fs) ∧ np_blocks np' = np_blocks np ∧
    (∀ p, p ≠ n → np_heap np' !! p = np_heap np !! p) ∧ dom (np_heap np') = dom (np_heap np).
Proof.
  intros (Hc & Hb & Hd) [nd Hn]%elem_of_dom Hfs. unfold free_node.
  rewrite (update_lookup _ _ _ _ Hn). tt_bind.
  do 2 (erewrite update_lookup by apply lookup_insert_eq; tt_bind; rewrite ?insert_insert_eq).
  eexists. split; [done|]. assert (dom (<[n := with_next (np_free np) (with_prev None (with_order None nd))]> (np_heap np)) = dom (np_heap np)) as Hdom
    by (apply dom_insert_lookup_L; eauto).
  unfold pool_ok. cbn [np_heap np_free np_blocks]. rewrite Hdom. split_and!; try done.
  - split; [done|]. eexists. split; [by apply lookup_insert_eq|]. by apply chain_insert_ne.
  - intros p Hp. by apply lookup_insert_ne.
Qed.

Lemma link_block_spec n a h hd fs :
  chain h hd fs → (∀ p, p ∈ fs → p < a) →
  let r := link_block n a h hd in
  ∃ new, chain r.1 r.2 (new ++ fs) ∧ NoDup new ∧ (∀ p, p ∈ new ↔ a <= p < a + Z.of_nat n) ∧
    (∀ p, p < a → r.1 !! p = h !! p) ∧
    dom r.1 = dom h ∪ list_to_set new.
Proof.
  revert a h hd fs. induction n as [|n IH]; intros a h hd fs Hc Hlt.
  { exists []. simpl. split_and!; try done; [constructor| |set_solver].
    intros p. rewrite elem_of_nil. split; [done|lia]. }
  cbn [link_block].
  destruct (IH (a + 1) (<[a := fresh_node hd]> h) (Some a) (a :: fs))
    as (new & H1 & H2 & H3 & H4 & H5).
  { split; [done|]. eexists. split; [apply lookup_insert_eq|]. apply chain_insert_ne; [|done].
    intros Hin. specialize (Hlt a Hin). lia. }
  { intros p [->|Hp]%elem_of_cons; [lia|]. specialize (Hlt p Hp). lia. }
  exists (new ++ [a]). rewrite <- app_assoc. split_and!; try done.
  - apply NoDup_app. split_and!; [done| |apply NoDup_singleton].
    intros x Hx%H3 ->%list_elem_of_singleton. lia.
  - intros p. rewrite elem_of_app, H3, list_elem_of_singleton. lia.
  - intros p Hp. rewrite H4 by lia. apply lookup_insert_ne. lia.
  - rewrite H5, dom_insert_L, list_to_set_app_L. set_solver.
Qed.

(** Allocation returns a node that was free or new, blank, and keeps the rest. *)
Lemma alloc_node_spec np fs :
  pool_ok np fs → NoDup fs → (∀ p, p ∈ fs → p ∈ dom (np_heap np)) →
  ∃ n np' fs', alloc_node np = Ret (n, np') ∧ pool_ok np' fs' ∧ NoDup (n :: fs') ∧
    np_heap np' !! n = Some {| n_order := None; n_next := None; n_prev := None |} ∧
    (∀ p, p ∈ n :: fs' → p ∈ fs ∨ p ∉ dom (np_heap np)) ∧
    (∀ p, p ∈ fs' → p ∈ dom (np_heap np')) ∧
    (∀ p, p ∈ dom (np_heap np) → p ≠ n → np_heap np' !! p = np_heap np !! p).
Proof.
  intros (Hc & Hb & Hd) Hnd Hin.
  assert (∃ np1 n fs', (match np_free np with
    | Some _ => np
    | None =>
        let '(h, f) := link_block (Z.to_nat NODE_BLOCK_SIZE) (np_blocks np * NODE_BLOCK_SIZE)
                         (np_heap np) None in
        {| np_heap := h; np_blocks := np_blocks np + 1; np_free := f |}
    end) = np1 ∧ pool_ok np1 (n :: fs') ∧ NoDup (n :: fs') ∧
    (∀ p, p ∈ n :: fs' → p ∈ fs ∨ p ∉ dom (np_heap np)) ∧
    (∀ p, p ∈ n :: fs' → p ∈ dom (np_heap np1)) ∧
    (∀ p, p ∈ dom (np_heap np) → np_heap np1 !! p = np_heap np !! p))
    as (np1 & n & fs' & E & (Hc1 & Hb1 & Hd1) & Hnd1 & Hor & Hin1 & Hfr).
  { destruct fs as [|n fs'].
    - simpl in Hc. rewrite Hc.
      destruct (link_block_spec (Z.to_nat NODE_BLOCK_SIZE) (np_blocks np * NODE_BLOCK_SIZE)
        (np_heap np) None []) as (new & H1 & H2 & H3 & H4 & H5); [done|by intros ? ?%not_elem_of_nil|].
      destruct (link_block _ _ _ _) as [h f]. cbn [fst snd] in *. rewrite app_nil_r in H1.
      assert (∀ p, p ∈ new → p ∉ dom (np_heap np)) as Hnew.
      { intros p Hp%H3 Hp'%Hd. unfold NODE_BLOCK_SIZE in *. lia. }
      destruct new as [|n fs'].
      { exfalso. apply (not_elem_of_nil (np_blocks np * NODE_BLOCK_SIZE)), H3.
        unfold NODE_BLOCK_SIZE. lia. }
      eexists _, n, fs'. split; [done|]. unfold pool_ok. cbn [np_heap np_free np_blocks].
      split_and!; try done; [lia| | | |].
      + intros p. rewrite H5, elem_of_union. intros [Hp%Hd|Hp].
        * unfold NODE_BLOCK_SIZE in *. lia.
        * apply elem_of_list_to_set, H3 in Hp. unfold NODE_BLOCK_SIZE in *. lia.
      + intros p Hp. right. by apply Hnew.
      + intros p Hp. rewrite H5. apply elem_of_union_r. by apply elem_of_list_to_set.
      + intros p Hp. apply H4. apply Hd in Hp. lia.
    - pose proof Hc as (Ef & _). rewrite Ef. exists np, n, fs'. split; [done|].
      unfold pool_ok. split_and!; try done. by left. }
  unfold alloc_node. rewrite E. clear E.
  destruct Hc1 as (Ef & nd & Hn & Hc1). rewrite Ef. unfold deref. rewrite Hn. tt_bind.
  rewrite (update_lookup _ _ _ _ Hn). tt_bind.
  set (blank := {| n_order := None; n_next := None; n_prev := None |}).
  assert (dom (<[n := blank]> (np_heap np1)) = dom (np_heap np1)) as Hdom
    by (apply dom_insert_lookup_L; eauto).
  pose proof Hnd1 as [Hni _]%NoDup_cons.
  eexists n, _, fs'. split; [done|]. unfold pool_ok. cbn [np_heap np_free np_blocks].
  rewrite Hdom. split_and!; try done.
  - by apply chain_insert_ne.
  - apply lookup_insert_eq.
  - intros p Hp. apply Hin1. by right.
  - intros p Hp Hpn. rewrite lookup_insert_ne by done. by apply Hfr.
Qed.
