(* ===== verification/OrderBook.v ===== *)
(** * The limit order book (class orderbook of src/src/orderbook/orderbook.h
    and orderbook.cpp)

    One definition per member function, over the heap of nodes of NodeHeap.v.
    Bids are sorted by falling price and asks by rising price; a level that a
    function takes by reference is addressed by its index.  The pool that
    allocates order objects is behind the interface [OrderPool]; the functions
    that allocate return the exception together with the book as it is when
    the exception leaves them.  Iteration over an [unordered_map] follows a
    parameter, any order of its entries. *)

From S2P Require Import Prelude NodeHeap.

Open Scope string_scope.
Open Scope list_scope.
Open Scope Z_scope.

(** ** The allocator of order objects, as the book uses it *)
Class OrderPool (P : Type) := {
  pool_set_name : string → P → P;
  pool_set_control_blocks : Z → P → P;
  pool_ensure_min_blocks : Z → P → P;
  pool_set_forbid_grow : bool → P → P;
  pool_acquire : P → exc unit * P;
  pool_drop_ref : order → P → P }.

(** ** Trades and views *)

Record trade_info := { ti_order_id : Z; ti_price : Z; ti_quantity : Z }.
Record trade := { tr_bid : trade_info; tr_ask : trade_info }.
Record lvl_info := { li_price : Z; li_quantity : Z }.
Record orderbook_lvl_infos := { get_bids : list lvl_info; get_asks : list lvl_info }.

Record order_modify := { om_id : Z; om_side : side; om_price : Z; om_quantity : Z }.

Definition to_order_pointer (t : ob_order_type) (m : order_modify) : order :=
  mk_order t (om_id m) (om_side m) (om_price m) (om_quantity m).

Section Book.
Context {P : Type} `{OrderPool P}.

Record orderbook := {
  ob_pool : P;
  ob_pool_ready : bool;
  ob_nodes : node_pool;
  bid_levels : list price_level;
  ask_levels : list price_level;
  order_map : gmap Z Z }.

Definition ob_heap (b : orderbook) : heap := np_heap (ob_nodes b).

Definition set_pool (p : P) (b : orderbook) : orderbook :=
  {| ob_pool := p; ob_pool_ready := ob_pool_ready b; ob_nodes := ob_nodes b;
     bid_levels := bid_levels b; ask_levels := ask_levels b; order_map := order_map b |}.
Definition set_ready (r : bool) (b : orderbook) : orderbook :=
  {| ob_pool := ob_pool b; ob_pool_ready := r; ob_nodes := ob_nodes b;
     bid_levels := bid_levels b; ask_levels := ask_levels b; order_map := order_map b |}.
Definition set_nodes (np : node_pool) (b : orderbook) : orderbook :=
  {| ob_pool := ob_pool b; ob_pool_ready := ob_pool_ready b; ob_nodes := np;
     bid_levels := bid_levels b; ask_levels := ask_levels b; order_map := order_map b |}.
Definition set_heap (h : heap) (b : orderbook) : orderbook :=
  set_nodes {| np_heap := h; np_blocks := np_blocks (ob_nodes b); np_free := np_free (ob_nodes b) |} b.
Definition set_map (m : gmap Z Z) (b : orderbook) : orderbook :=
  {| ob_pool := ob_pool b; ob_pool_ready := ob_pool_ready b; ob_nodes := ob_nodes b;
     bid_levels := bid_levels b; ask_levels := ask_levels b; order_map := m |}.

Definition levels_of (s : side) (b : orderbook) : list price_level :=
  match s with buy => bid_levels b | sell => ask_levels b end.
Definition set_levels (s : side) (l : list price_level) (b : orderbook) : orderbook :=
  {| ob_pool := ob_pool b; ob_pool_ready := ob_pool_ready b; ob_nodes := ob_nodes b;
     bid_levels := match s with buy => l | sell => bid_levels b end;
     ask_levels := match s with buy => ask_levels b | sell => l end;
     order_map := order_map b |}.

Definition mk_orderbook (p : P) : orderbook :=
  {| ob_pool := p; ob_pool_ready := false;
     ob_nodes := {| np_heap := ∅; np_blocks := 0; np_free := None |};
     bid_levels := []; ask_levels := []; order_map := ∅ |}.

(** ** The order pool *)

Definition configure_order_pool (cb_pool : option Z) (min_blocks : Z) (forbid : bool)
    (b : orderbook) : orderbook :=
  let p1 := pool_set_name "orderbook_order_pool" (ob_pool b) in
  let p2 := match cb_pool with Some c => pool_set_control_blocks c p1 | None => p1 end in
  let p3 := pool_ensure_min_blocks (Z.max min_blocks 1) p2 in
  set_ready true (set_pool (pool_set_forbid_grow forbid p3) b).

Definition ensure_order_pool_ready (b : orderbook) : orderbook :=
  if ob_pool_ready b then b else
  set_ready true
    (set_pool (pool_ensure_min_blocks 1 (pool_set_name "orderbook_order_pool" (ob_pool b))) b).

Definition create_order (t : ob_order_type) (id : Z) (s : side) (p q : Z) (b : orderbook)
    : exc order * orderbook :=
  let b1 := ensure_order_pool_ready b in
  let '(r, pl) := pool_acquire (ob_pool b1) in
  ((_ ← r; Ret (mk_order t id s p q)), set_pool pl b1).

(** [n->order.reset()] and the rest of free_node. *)
Definition ob_free_node (n : Z) (b : orderbook) : exc orderbook :=
  nd ← deref (ob_heap b) (Some n);
  np ← free_node n (ob_nodes b);
  let b1 := set_nodes np b in
  Ret (match n_order nd with
       | Some o => set_pool (pool_drop_ref o (ob_pool b1)) b1
       | None => b1
       end).

(** ** Levels *)

Definition better (s : side) (p q : Z) : bool :=
  match s with buy => q <? p | sell => p <? q end.

Definition find_or_insert_level (levels : list price_level) (price : Z) (s : side)
    : nat * list price_level :=
  let it := lower_bound (λ lvl, better s (lv_price lvl) price) levels in
  let inserted := take it levels ++ new_level price :: drop it levels in
  match levels !! it with
  | Some lv => if lv_price lv =? price then (it, levels) else (it, inserted)
  | None => (it, inserted)
  end.

Fixpoint remove_level_if_empty (levels : list price_level) (price : Z) : list price_level :=
  match levels with
  | [] => []
  | lv :: rest =>
      if (lv_price lv =? price) && lv_empty lv then rest
      else lv :: remove_level_if_empty rest price
  end.

Definition can_match (s : side) (price : Z) (b : orderbook) : bool :=
  match s with
  | buy => match ask_levels b with [] => false | lv :: _ => lv_price lv <=? price end
  | sell => match bid_levels b with [] => false | lv :: _ => price <=? lv_price lv end
  end.

(** [n = alloc_node(); n->order = o; find_or_insert_level(...).append(n);
    order_map_[id] = n] *)
Definition rest_order (o : order) (b0 : orderbook) : exc orderbook :=
  '(n, np) ← alloc_node (ob_nodes b0);
  h1 ← update (np_heap np) n (with_order (Some o));
  let b1 := set_heap h1 (set_nodes np b0) in
  let '(i, lvs) := find_or_insert_level (levels_of (o_side o) b1) (o_price o) (o_side o) in
  match lvs !! i with
  | None => Throw bad_pointer
  | Some lv =>
      '(h2, lv') ← append n h1 lv;
      Ret (set_map (<[o_id o := n]> (order_map b1))
            (set_levels (o_side o) (<[i := lv']> lvs) (set_heap h2 b1)))
  end.

(** ** Matching *)

(** A node whose order is not in the map: unlink it and drop an empty level. *)
Definition drop_front (s : side) (n : Z) (lv : price_level) (rest : list price_level)
    (b : orderbook) : exc orderbook :=
  '(h, lv') ← remove n (ob_heap b) lv;
  b1 ← ob_free_node n (set_heap h b);
  Ret (set_levels s (if lv_empty lv' then rest else lv' :: rest) b1).

(** [lvl.total_qty -= trade_qty; if (filled) { remove, erase, free }] on the
    front level of a side. *)
Definition settle (s : side) (n q : Z) (b : orderbook) : exc orderbook :=
  match levels_of s b with
  | [] => Throw bad_pointer
  | lv :: rest =>
      let lv1 := lv_set_total (u64 (lv_total lv - q)) lv in
      o ← order_of (ob_heap b) n;
      if is_filled o then
        '(h, lv2) ← remove n (ob_heap b) lv1;
        let b1 := set_levels s (lv2 :: rest) (set_heap h b) in
        let b2 := set_map (delete (o_id o) (order_map b1)) b1 in
        ob_free_node n b2
      else Ret (set_levels s (lv1 :: rest) b)
  end.

Definition erase_empty_front (s : side) (b : orderbook) : orderbook :=
  match levels_of s b with
  | lv :: rest => if lv_empty lv then set_levels s rest b else b
  | [] => b
  end.

Inductive loop_step := Stop | Skip (b : orderbook) | Traded (t : trade) (b : orderbook).

Definition match_iter (b : orderbook) : exc loop_step :=
  match bid_levels b, ask_levels b with
  | bl :: brest, al :: arest =>
      if lv_price bl <? lv_price al then Ret Stop else
      match lv_head bl, lv_head al with
      | Some bn, Some an =>
          bo ← order_of (ob_heap b) bn;
          if bool_decide (order_map b !! o_id bo = None)
          then b' ← drop_front buy bn bl brest b; Ret (Skip b') else
          ao ← order_of (ob_heap b) an;
          if bool_decide (order_map b !! o_id ao = None)
          then b' ← drop_front sell an al arest b; Ret (Skip b') else
          let q := Z.min (o_remaining bo) (o_remaining ao) in
          bo' ← fill q bo;
          h1 ← update (ob_heap b) bn (with_order (Some bo'));
          ao1 ← order_of h1 an;
          ao' ← fill q ao1;
          h2 ← update h1 an (with_order (Some ao'));
          let t := {| tr_bid := {| ti_order_id := o_id bo'; ti_price := o_price bo'; ti_quantity := q |};
                      tr_ask := {| ti_order_id := o_id ao'; ti_price := o_price ao'; ti_quantity := q |} |} in
          b1 ← settle buy bn q (set_heap h2 b);
          b2 ← settle sell an q b1;
          Ret (Traded t (erase_empty_front sell (erase_empty_front buy b2)))
      | _, _ => Ret Stop
      end
  | _, _ => Ret Stop
  end.

Definition out_of_fuel : string := "loop bound reached".

Fixpoint match_loop (fuel : nat) (b : orderbook) : exc (list trade * orderbook) :=
  match fuel with
  | O => Throw out_of_fuel
  | S fuel =>
      st ← match_iter b;
      match st with
      | Stop => Ret ([], b)
      | Skip b' => match_loop fuel b'
      | Traded t b' => '(ts, b'') ← match_loop fuel b'; Ret (t :: ts, b'')
      end
  end.

Fixpoint level_at (price : Z) (levels : list price_level) : option nat :=
  match levels with
  | [] => None
  | lv :: rest => if lv_price lv =? price then Some 0%nat else S <$> level_at price rest
  end.

Definition cancel_order (oid : Z) (b0 : orderbook) : exc orderbook :=
  match order_map b0 !! oid with
  | None => Ret b0
  | Some n =>
      o ← order_of (ob_heap b0) n;
      let s := o_side o in
      let price := o_price o in
      b1 ← match level_at price (levels_of s b0) with
           | None => Ret b0
           | Some i =>
               match levels_of s b0 !! i with
               | None => Ret b0
               | Some lv =>
                   '(h, lv') ← remove n (ob_heap b0) lv;
                   Ret (set_levels s (<[i := lv']> (levels_of s b0)) (set_heap h b0))
               end
           end;
      b2 ← ob_free_node n (set_map (delete oid (order_map b1)) b1);
      Ret (set_levels s (remove_level_if_empty (levels_of s b2) price) b2)
  end.

Fixpoint cancel_aggressive (fuel : nat) (s : side) (b : orderbook) : exc orderbook :=
  match fuel with
  | O => Throw out_of_fuel
  | S fuel =>
      match levels_of s b with
      | [] => Ret b
      | lv :: rest =>
          match lv_head lv with
          | None => cancel_aggressive fuel s (set_levels s rest b)
          | Some n =>
              o ← order_of (ob_heap b) n;
              if bool_decide (order_map b !! o_id o = None)
              then b' ← drop_front s n lv rest b; cancel_aggressive fuel s b'
              else match o_type o with
                   | fill_or_kill | immediate_or_cancel => cancel_order (o_id o) b
                   | good_till_cancel => Ret b
                   end
          end
      end
  end.

(** Each iteration of the loops unlinks a node or is the last, so the number
    of mapped orders bounds them (proved with the refinement). *)
Definition match_orders (b : orderbook) : exc (list trade * orderbook) :=
  '(ts, b1) ← match_loop (S (size (order_map b))) b;
  b2 ← cancel_aggressive (S (size (order_map b1))) buy b1;
  b3 ← cancel_aggressive (S (size (order_map b2))) sell b2;
  Ret (ts, b3).

(** ** Public operations *)

Definition opposite (s : side) : side := match s with buy => sell | sell => buy end.

Definition crosses (s : side) (price level_price : Z) : bool :=
  match s with buy => level_price <=? price | sell => price <=? level_price end.

(** The loop over the opposite levels of a fill-or-kill order. *)
Fixpoint available (s : side) (price : Z) (acc : Z) (levels : list price_level) : Z :=
  match levels with
  | [] => acc
  | lv :: rest =>
      available s price (if crosses s price (lv_price lv) then u64 (acc + lv_total lv) else acc) rest
  end.

Definition add_order (o : order) (b : orderbook) : exc (list trade * orderbook) :=
  if bool_decide (is_Some (order_map b !! o_id o)) then Ret ([], b) else
  if bool_decide (o_type o = fill_or_kill) && negb (can_match (o_side o) (o_price o) b)
  then Ret ([], b) else
  if bool_decide (o_type o = fill_or_kill) &&
     (available (o_side o) (o_price o) 0 (levels_of (opposite (o_side o)) b) <? o_remaining o)
  then Ret ([], b) else
  if bool_decide (o_type o = immediate_or_cancel) && negb (can_match (o_side o) (o_price o) b)
  then Ret ([], b) else
  b1 ← rest_order o b;
  match_orders b1.

Definition match_order (m : order_modify) (b : orderbook) : exc (list trade * orderbook) :=
  match order_map b !! om_id m with
  | None => Ret ([], b)
  | Some n =>
      o ← order_of (ob_heap b) n;
      b1 ← cancel_order (om_id m) b;
      add_order (to_order_pointer (o_type o) m) b1
  end.

(** A computation over the book that may throw: the state when it throws. *)
Definition lift {A} (m : exc A) (b : orderbook) (k : A → exc bool * orderbook) : exc bool * orderbook :=
  match m with Ret a => k a | Throw w => (Throw w, b) end.

Definition modify_order (id new_price new_qty : Z) (b : orderbook) : exc bool * orderbook :=
  match order_map b !! id with
  | None => (Ret false, b)
  | Some n =>
      lift (order_of (ob_heap b) n) b (λ o,
      lift (cancel_order id b) b (λ b1,
      match create_order (o_type o) id (o_side o) new_price new_qty b1 with
      | (Throw w, b2) => (Throw w, b2)
      | (Ret o', b2) => lift (rest_order o' b2) b2 (λ b3, (Ret true, b3))
      end))
  end.

Definition ob_size (b : orderbook) : Z := Z.of_nat (size (order_map b)).

Definition level_infos (levels : list price_level) : list lvl_info :=
  omap (λ lv, if 0 <? lv_total lv then Some {| li_price := lv_price lv; li_quantity := lv_total lv |}
              else None) levels.

Definition get_order_infos (b : orderbook) : orderbook_lvl_infos :=
  {| get_bids := level_infos (bid_levels b); get_asks := level_infos (ask_levels b) |}.

(** The iteration order of [order_map_]. *)
Context (iterate : gmap Z Z → list (Z * Z)).

Fixpoint free_all (ns : list (Z * Z)) (b : orderbook) : exc orderbook :=
  match ns with
  | [] => Ret b
  | (_, n) :: ns => b' ← ob_free_node n b; free_all ns b'
  end.

Definition clear (b : orderbook) : exc orderbook :=
  b1 ← free_all (iterate (order_map b)) b;
  Ret (set_levels sell [] (set_levels buy [] (set_map ∅ b1))).

(** The order id counter is shared by the whole process: it is passed along,
    and [OrderIdGenerator::next] returns it and adds one. *)
Definition next_order_id (c : Z) : Z * Z := (c, u64 (c + 1)).

Record world := { w_book : orderbook; w_ids : Z }.

(** Creating one order of a book snapshot and resting it. *)
Definition rest_new (s : side) (price q : Z) (w : world) : exc unit * world :=
  let '(id, c) := next_order_id (w_ids w) in
  match create_order good_till_cancel id s price q (w_book w) with
  | (Throw e, b1) => (Throw e, {| w_book := b1; w_ids := c |})
  | (Ret o, b1) =>
      match rest_order o b1 with
      | Throw e => (Throw e, {| w_book := b1; w_ids := c |})
      | Ret b2 => (Ret (), {| w_book := b2; w_ids := c |})
      end
  end.

Fixpoint snapshot_side (s : side) (l : list (Z * Z)) (w : world) : exc unit * world :=
  match l with
  | [] => (Ret (), w)
  | (p, q) :: l =>
      if q =? 0 then snapshot_side s l w else
      match rest_new s p q w with
      | (Ret _, w') => snapshot_side s l w'
      | r => r
      end
  end.

Definition apply_l2_snapshot (bids asks : list (Z * Z)) (w : world) : exc unit * world :=
  match clear (w_book w) with
  | Throw e => (Throw e, w)
  | Ret b1 =>
      match snapshot_side buy bids {| w_book := b1; w_ids := w_ids w |} with
      | (Ret _, w1) => snapshot_side sell asks w1
      | r => r
      end
  end.

(** [while (lvl.head) { remove, erase, free }] on the level at index [i]. *)
Fixpoint empty_level (fuel : nat) (s : side) (i : nat) (b : orderbook) : exc orderbook :=
  match fuel with
  | O => Throw out_of_fuel
  | S fuel =>
      match levels_of s b !! i with
      | None => Throw bad_pointer
      | Some lv =>
          match lv_head lv with
          | None => Ret b
          | Some n =>
              '(h, lv') ← remove n (ob_heap b) lv;
              o ← order_of h n;
              let b1 := set_levels s (<[i := lv']> (levels_of s b)) (set_heap h b) in
              b2 ← ob_free_node n (set_map (delete (o_id o) (order_map b1)) b1);
              empty_level fuel s i b2
          end
      end
  end.

Definition apply_l2_update (s : side) (price new_qty : Z) (w : world) : exc unit * world :=
  let b := w_book w in
  let emptied := match level_at price (levels_of s b) with
                 | None => Ret b
                 | Some i => empty_level (S (size (order_map b))) s i b
                 end in
  match emptied with
  | Throw e => (Throw e, w)
  | Ret b1 =>
      let b2 := set_levels s (remove_level_if_empty (levels_of s b1) price) b1 in
      let w2 := {| w_book := b2; w_ids := w_ids w |} in
      if 0 <? new_qty then rest_new s price new_qty w2 else (Ret (), w2)
  end.

End Book.

Arguments orderbook P : clear implicits.
Arguments world P : clear implicits.
Arguments loop_step P : clear implicits.
