(* ===== verification/BookSpec.v ===== *)
(** * What the order book promises: price-time priority

    The abstract book is two lists of orders in priority order: better price
    first, earlier arrival first at the same price.  No levels, nodes, maps or
    pools.  [sp_add], [sp_cancel], [sp_modify] and the rest are what the
    operations of OrderBook.v are proved to do; the properties of a matching
    engine (the book ends uncrossed, quantities are conserved, immediate orders
    never rest, fill-or-kill orders fill completely or not at all) are proved
    here on lists. *)

From S2P Require Import Prelude NodeHeap OrderBook.
From Stdlib Require Import Sorting.Sorted.

Open Scope list_scope.
Open Scope Z_scope.

(** ** The abstract book *)

Record sbook := { sb_bids : list order; sb_asks : list order }.

Definition sb_side (s : side) (sb : sbook) : list order :=
  match s with buy => sb_bids sb | sell => sb_asks sb end.
Definition sb_set (s : side) (l : list order) (sb : sbook) : sbook :=
  match s with
  | buy => {| sb_bids := l; sb_asks := sb_asks sb |}
  | sell => {| sb_bids := sb_bids sb; sb_asks := l |}
  end.
Definition sb_orders (sb : sbook) : list order := sb_bids sb ++ sb_asks sb.
Definition sb_ids (sb : sbook) : list Z := o_id <$> sb_orders sb.

(** An order goes behind everything at least as good. *)
Fixpoint sp_insert (o : order) (l : list order) : list order :=
  match l with
  | [] => [o]
  | x :: l => if better (o_side o) (o_price o) (o_price x) then o :: x :: l else x :: sp_insert o l
  end.

Definition sp_rest (o : order) (sb : sbook) : sbook :=
  sb_set (o_side o) (sp_insert o (sb_side (o_side o) sb)) sb.

Definition trade_of (b a : order) (q : Z) : trade :=
  {| tr_bid := {| ti_order_id := o_id b; ti_price := o_price b; ti_quantity := q |};
     tr_ask := {| ti_order_id := o_id a; ti_price := o_price a; ti_quantity := q |} |}.

(** What is left of the first order after filling it by [q]. *)
Definition take_from (q : Z) (o : order) (l : list order) : list order :=
  if o_remaining o - q =? 0 then l else o_set_remaining o (o_remaining o - q) :: l.

Fixpoint sp_match (fuel : nat) (sb : sbook) : list trade * sbook :=
  match fuel with
  | O => ([], sb)
  | S fuel =>
      match sb_bids sb, sb_asks sb with
      | b :: bs, a :: as_ =>
          if o_price b <? o_price a then ([], sb) else
          let q := Z.min (o_remaining b) (o_remaining a) in
          let '(ts, sb') := sp_match fuel {| sb_bids := take_from q b bs; sb_asks := take_from q a as_ |} in
          (trade_of b a q :: ts, sb')
      | _, _ => ([], sb)
      end
  end.

(** Every trade uses up an order, so there are fewer trades than orders. *)
Definition sp_match_all (sb : sbook) : list trade * sbook :=
  sp_match (length (sb_orders sb)) sb.

Definition is_immediate (o : order) : bool := negb (bool_decide (o_type o = good_till_cancel)).

(** The first order of a side is dropped when it must not rest. *)
Definition sp_kill (l : list order) : list order :=
  match l with
  | o :: l' => if is_immediate o then l' else l
  | [] => []
  end.

Definition sp_settle (sb : sbook) : list trade * sbook :=
  let '(ts, sb1) := sp_match_all sb in
  (ts, {| sb_bids := sp_kill (sb_bids sb1); sb_asks := sp_kill (sb_asks sb1) |}).

Definition sp_crosses (o : order) (sb : sbook) : bool :=
  match sb_side (opposite (o_side o)) sb with
  | x :: _ => crosses (o_side o) (o_price o) (o_price x)
  | [] => false
  end.

(** The quantity on the other side at prices the order accepts. *)
Definition sp_available (o : order) (sb : sbook) : Z :=
  foldr Z.add 0 (o_remaining <$>
    filter (λ x, crosses (o_side o) (o_price o) (o_price x) = true)
      (sb_side (opposite (o_side o)) sb)).

Definition sp_accepts (o : order) (sb : sbook) : bool :=
  match o_type o with
  | good_till_cancel => true
  | immediate_or_cancel => sp_crosses o sb
  | fill_or_kill => sp_crosses o sb && negb (u64 (sp_available o sb) <? o_remaining o)
  end.

Definition sp_add (o : order) (sb : sbook) : list trade * sbook :=
  if bool_decide (o_id o ∈ sb_ids sb) then ([], sb) else
  if sp_accepts o sb then sp_settle (sp_rest o sb) else ([], sb).

Definition sp_drop (id : Z) (l : list order) : list order := filter (λ o, o_id o ≠ id) l.
Definition sp_cancel (id : Z) (sb : sbook) : sbook :=
  {| sb_bids := sp_drop id (sb_bids sb); sb_asks := sp_drop id (sb_asks sb) |}.

Definition sp_find (id : Z) (sb : sbook) : option order :=
  head (filter (λ o, o_id o = id) (sb_orders sb)).

(** ** Well-formed books *)

Definition order_ok (s : side) (o : order) : Prop := o_side o = s ∧ in_u 64 (o_remaining o).

Definition priority (s : side) (x y : order) : Prop := better s (o_price y) (o_price x) = false.

Definition sb_ok (sb : sbook) : Prop :=
  NoDup (sb_ids sb) ∧
  ∀ s, Forall (order_ok s) (sb_side s sb) ∧ StronglySorted (priority s) (sb_side s sb).

Definition uncrossed (sb : sbook) : Prop :=
  match sb_bids sb, sb_asks sb with
  | b :: _, a :: _ => o_price b < o_price a
  | _, _ => True
  end.

(** ** Matching ends with an uncrossed book *)

Lemma take_from_length q o l : (length (take_from q o l) <= S (length l))%nat.
Proof. unfold take_from. case_match; simpl; lia. Qed.

Lemma sb_orders_length sb :
  length (sb_orders sb) = (length (sb_bids sb) + length (sb_asks sb))%nat.
Proof. apply length_app. Qed.

(** A trade fills the smaller order. *)
Lemma take_from_shrinks b bs a as_ :
  let q := Z.min (o_remaining b) (o_remaining a) in
  (length (take_from q b bs) + length (take_from q a as_) < S (length bs) + S (length as_))%nat.
Proof.
  intros q. unfold take_from.
  assert (o_remaining b - q = 0 ∨ o_remaining a - q = 0) as [->| ->] by lia;
    rewrite Z.eqb_refl; case_match; simpl; lia.
Qed.

Lemma sp_match_enough fuel sb :
  (length (sb_orders sb) <= fuel)%nat → sp_match fuel sb = sp_match_all sb.
Proof.
  unfold sp_match_all. remember (length (sb_orders sb)) as n eqn:En.
  assert (length (sb_orders sb) <= n)%nat as Hn by lia. clear En. revert fuel sb Hn.
  induction n as [|n IH]; intros fuel sb Hn Hf.
  { rewrite sb_orders_length in Hn. destruct fuel; [done|]. cbn [sp_match].
    by destruct (sb_bids sb), (sb_asks sb); simpl in *; try lia. }
  destruct fuel as [|fuel]; [lia|]. cbn [sp_match].
  destruct (sb_bids sb) as [|b bs] eqn:Eb; [done|]. destruct (sb_asks sb) as [|a as_] eqn:Ea; [done|].
  destruct (o_price b <? o_price a); [done|].
  rewrite sb_orders_length, Eb, Ea in Hn. simpl in Hn.
  pose proof (take_from_shrinks b bs a as_) as Hs. cbv zeta in Hs.
  by rewrite IH by (rewrite ?sb_orders_length; cbn [sb_bids sb_asks]; lia).
Qed.

Lemma sp_match_uncrossed fuel sb :
  (length (sb_orders sb) <= fuel)%nat → uncrossed (sp_match fuel sb).2.
Proof.
  revert sb. induction fuel as [|fuel IH]; intros sb Hf.
  { rewrite sb_orders_length in Hf. unfold uncrossed. simpl.
    destruct (sb_bids sb); simpl in *; [done|lia]. }
  cbn [sp_match].
  destruct (sb_bids sb) as [|b bs] eqn:Eb; [unfold uncrossed; simpl; by rewrite Eb|].
  destruct (sb_asks sb) as [|a as_] eqn:Ea; [unfold uncrossed; simpl; by rewrite Eb, Ea|].
  destruct (Z.ltb_spec (o_price b) (o_price a)).
  { unfold uncrossed. simpl. by rewrite Eb, Ea. }
  rewrite sb_orders_length, Eb, Ea in Hf. simpl in Hf.
  pose proof (take_from_shrinks b bs a as_) as Hs. cbv zeta in Hs.
  specialize (IH {| sb_bids := take_from (Z.min (o_remaining b) (o_remaining a)) b bs;
                    sb_asks := take_from (Z.min (o_remaining b) (o_remaining a)) a as_ |}).
  rewrite sb_orders_length in IH. cbn [sb_bids sb_asks] in IH.
  destruct (sp_match fuel _) as [ts sb'] eqn:E. simpl in *. apply IH. lia.
Qed.

(** ** Conservation of quantity *)

Definition qty_of (id : Z) (l : list order) : Z :=
  foldr Z.add 0 (o_remaining <$> filter (λ o, o_id o = id) l).

(** What the trades fill of an order on a side. *)
Definition leg (s : side) (t : trade) : trade_info :=
  match s with buy => tr_bid t | sell => tr_ask t end.
Definition filled_of (s : side) (id : Z) (ts : list trade) : Z :=
  foldr Z.add 0 ((λ t, ti_quantity (leg s t)) <$> filter (λ t, ti_order_id (leg s t) = id) ts).

Definition traded (ts : list trade) : Z := foldr Z.add 0 ((λ t, ti_quantity (tr_bid t)) <$> ts).

Lemma qty_of_cons id o l :
  qty_of id (o :: l) = (if decide (o_id o = id) then o_remaining o else 0) + qty_of id l.
Proof. unfold qty_of. rewrite filter_cons. by case_decide. Qed.

Lemma filled_of_cons s id t ts :
  filled_of s id (t :: ts) =
  (if decide (ti_order_id (leg s t) = id) then ti_quantity (leg s t) else 0) + filled_of s id ts.
Proof. unfold filled_of. rewrite filter_cons. by case_decide. Qed.

Lemma qty_of_perm id l l' : l ≡ₚ l' → qty_of id l = qty_of id l'.
Proof. induction 1; rewrite ?qty_of_cons; lia. Qed.

Lemma qty_of_take_from id q o l :
  qty_of id (o :: l) = qty_of id (take_from q o l) + (if decide (o_id o = id) then q else 0).
Proof.
  rewrite qty_of_cons. unfold take_from. destruct (Z.eqb_spec (o_remaining o - q) 0).
  - case_decide; lia.
  - rewrite qty_of_cons. cbn [o_id o_remaining o_set_remaining]. case_decide; lia.
Qed.

Lemma sp_match_conserves fuel sb s id :
  let r := sp_match fuel sb in
  qty_of id (sb_side s sb) = qty_of id (sb_side s r.2) + filled_of s id r.1.
Proof.
  revert sb. induction fuel as [|fuel IH]; intros sb; cbn [sp_match].
  { unfold filled_of. simpl. lia. }
  destruct (sb_bids sb) as [|b bs] eqn:Eb; [unfold filled_of; simpl; lia|].
  destruct (sb_asks sb) as [|a as_] eqn:Ea; [unfold filled_of; simpl; lia|].
  destruct (o_price b <? o_price a); [unfold filled_of; simpl; lia|].
  set (q := Z.min _ _).
  specialize (IH {| sb_bids := take_from q b bs; sb_asks := take_from q a as_ |}).
  destruct (sp_match fuel _) as [ts sb']. cbn [fst snd] in *. rewrite filled_of_cons.
  destruct s; cbn [sb_side sb_bids sb_asks leg trade_of tr_bid tr_ask ti_order_id ti_quantity] in *.
  - rewrite Eb, (qty_of_take_from id q). lia.
  - rewrite Ea, (qty_of_take_from id q). lia.
Qed.

(** Every trade is between crossing prices, for a quantity both orders have. *)
Definition trade_fair (t : trade) : Prop :=
  ti_price (tr_ask t) <= ti_price (tr_bid t) ∧
  ti_quantity (tr_bid t) = ti_quantity (tr_ask t) ∧ 0 <= ti_quantity (tr_bid t).

Lemma take_from_forall (Q : order → Prop) q o l :
  (∀ r, 0 <= r <= o_remaining o → Q (o_set_remaining o r)) → 0 <= q <= o_remaining o →
  Forall Q l → Forall Q (take_from q o l).
Proof.
  intros Ho Hq Hl. unfold take_from. case_match; [done|]. constructor; [|done]. apply Ho. lia.
Qed.

Lemma sp_match_fair fuel sb :
  Forall (λ o, 0 <= o_remaining o) (sb_orders sb) → Forall trade_fair (sp_match fuel sb).1.
Proof.
  revert sb. induction fuel as [|fuel IH]; intros sb Hok; cbn [sp_match]; [constructor|].
  unfold sb_orders in *.
  destruct (sb_bids sb) as [|b bs] eqn:Eb; [constructor|].
  destruct (sb_asks sb) as [|a as_] eqn:Ea; [constructor|].
  destruct (Z.ltb_spec (o_price b) (o_price a)); [constructor|].
  set (q := Z.min _ _).
  specialize (IH {| sb_bids := take_from q b bs; sb_asks := take_from q a as_ |}).
  destruct (sp_match fuel _) as [ts sb']. cbn [fst sb_bids sb_asks] in *.
  apply Forall_app in Hok as [[Hb Hbs]%Forall_cons [Ha Has]%Forall_cons].
  constructor; [split_and!; cbn; lia|]. apply IH, Forall_app. split; apply take_from_forall; try done; cbn; lia.
Qed.

(** ** One order against the other side *)

Definition sb_of (s : side) (own opp : list order) : sbook :=
  match s with
  | buy => {| sb_bids := own; sb_asks := opp |}
  | sell => {| sb_bids := opp; sb_asks := own |}
  end.

Lemma sb_of_sides s sb : sb = sb_of s (sb_side s sb) (sb_side (opposite s) sb).
Proof. by destruct s, sb. Qed.

Lemma sb_of_own s own opp : sb_side s (sb_of s own opp) = own.
Proof. by destruct s. Qed.
Lemma sb_of_opp s own opp : sb_side (opposite s) (sb_of s own opp) = opp.
Proof. by destruct s. Qed.

Lemma sb_of_length s own opp : length (sb_orders (sb_of s own opp)) = (length own + length opp)%nat.
Proof. rewrite sb_orders_length. destruct s; simpl; lia. Qed.

Definition trade_by (s : side) (o x : order) (q : Z) : trade :=
  match s with buy => trade_of o x q | sell => trade_of x o q end.

Lemma trade_by_quantity s o x q : ti_quantity (tr_bid (trade_by s o x q)) = q.
Proof. by destruct s. Qed.

Lemma sp_match_step s fuel o own x opp :
  sp_match (S fuel) (sb_of s (o :: own) (x :: opp)) =
  if crosses s (o_price o) (o_price x) then
    let q := Z.min (o_remaining o) (o_remaining x) in
    let r := sp_match fuel (sb_of s (take_from q o own) (take_from q x opp)) in
    (trade_by s o x q :: r.1, r.2)
  else ([], sb_of s (o :: own) (x :: opp)).
Proof.
  destruct s; cbn [sp_match sb_of sb_bids sb_asks crosses].
  - rewrite Z.ltb_antisym. destruct (o_price x <=? o_price o); [|done]. simpl.
    by destruct (sp_match fuel _).
  - rewrite Z.ltb_antisym. destruct (o_price o <=? o_price x); [|done]. simpl.
    rewrite (Z.min_comm (o_remaining o)). by destruct (sp_match fuel _).
Qed.

Definition no_cross (s : side) (own opp : list order) : Prop :=
  ∀ x y, x ∈ own → y ∈ opp → crosses s (o_price x) (o_price y) = false.

Lemma sp_match_no_cross s fuel own opp :
  no_cross s own opp → sp_match fuel (sb_of s own opp) = ([], sb_of s own opp).
Proof.
  intros Hn. destruct fuel as [|fuel]; [done|].
  destruct own as [|o own]; [by destruct s, opp|]. destruct opp as [|x opp]; [by destruct s|].
  rewrite sp_match_step. rewrite Hn by left. done.
Qed.

(** The quantity of [opp] an order at [price] can trade with. *)
Definition crossing_qty (s : side) (price : Z) (opp : list order) : Z :=
  foldr Z.add 0 (o_remaining <$> filter (λ x, crosses s price (o_price x) = true) opp).

Lemma crossing_qty_cons s price x opp :
  crossing_qty s price (x :: opp) =
  (if crosses s price (o_price x) then o_remaining x else 0) + crossing_qty s price opp.
Proof.
  unfold crossing_qty. rewrite filter_cons. case_decide as E; [by rewrite E|].
  apply not_true_is_false in E. by rewrite E.
Qed.

Lemma crossing_qty_nonneg s price l :
  Forall (λ x, 0 <= o_remaining x) l → 0 <= crossing_qty s price l.
Proof.
  induction 1 as [|x l Hx _ IH]; [done|]. rewrite crossing_qty_cons. case_match; lia.
Qed.

Lemma crossing_qty_take_from s price q x opp :
  crosses s price (o_price x) = true →
  crossing_qty s price (x :: opp) = q + crossing_qty s price (take_from q x opp).
Proof.
  intros E. rewrite crossing_qty_cons, E. unfold take_from.
  destruct (Z.eqb_spec (o_remaining x - q) 0); [lia|].
  rewrite crossing_qty_cons. cbn [o_price o_set_remaining]. rewrite E. simpl. lia.
Qed.

Lemma crosses_priority s price x y :
  priority (opposite s) x y → crosses s price (o_price x) = false →
  crosses s price (o_price y) = false.
Proof. unfold priority. destruct s; cbn; intros; tt_bool; apply Z.leb_gt; lia. Qed.

Lemma sorted_no_cross s price x opp :
  StronglySorted (priority (opposite s)) (x :: opp) → crosses s price (o_price x) = false →
  ∀ y, y ∈ x :: opp → crosses s price (o_price y) = false.
Proof.
  intros [_ Hall]%StronglySorted_inv E y [->|Hy]%elem_of_cons; [done|].
  rewrite Forall_forall in Hall. by apply (crosses_priority _ _ x); [apply Hall|].
Qed.

Lemma take_from_sorted s q x opp :
  StronglySorted (priority s) (x :: opp) → StronglySorted (priority s) (take_from q x opp).
Proof.
  intros [Hs Hall]%StronglySorted_inv. unfold take_from. case_match; [done|]. by constructor.
Qed.

Lemma take_from_elem q x opp y :
  y ∈ take_from q x opp → ∃ z, z ∈ x :: opp ∧ ∃ r, y = o_set_remaining z r.
Proof.
  unfold take_from. case_match.
  - intros Hy. exists y. split; [by right|]. exists (o_remaining y). by destruct y.
  - intros [->|Hy]%elem_of_cons; [exists x; split; [left|eauto]|].
    exists y. split; [by right|]. exists (o_remaining y). by destruct y.
Qed.

Lemma no_cross_take_from s own q x opp :
  no_cross s own (x :: opp) → no_cross s own (take_from q x opp).
Proof.
  intros Hn a y Ha (z & Hz & r & ->)%take_from_elem. by apply (Hn a z).
Qed.

(** The sweep: an order whose own side does not cross trades until it is filled
    or nothing it accepts is left; the rest of its side is untouched. *)
Lemma sp_match_sweep s fuel o own opp :
  (S (length own + length opp) <= fuel)%nat → 0 <= o_remaining o →
  Forall (λ x, 0 <= o_remaining x) opp →
  StronglySorted (priority (opposite s)) opp → no_cross s own opp →
  ∃ ts own' opp', sp_match fuel (sb_of s (o :: own) opp) = (ts, sb_of s own' opp') ∧
    ((own' = own ∧ traded ts = o_remaining o ∧ ts ≠ []) ∨
     (own' = o_set_remaining o (o_remaining o - traded ts) :: own ∧
      (∀ y, y ∈ opp' → crosses s (o_price o) (o_price y) = false) ∧
      traded ts = crossing_qty s (o_price o) opp ∧
      ((∀ y, y ∈ opp → crosses s (o_price o) (o_price y) = false) ∨ traded ts < o_remaining o))).
Proof.
  revert o opp. induction fuel as [|fuel IH]; intros o opp Hf Ho Hpos Hs Hn; [lia|].
  destruct opp as [|x opp].
  { exists [], (o :: own), []. split; [by destruct s|]. right.
    split_and!; [|by intros ? ?%not_elem_of_nil|done|left; by intros ? ?%not_elem_of_nil].
    unfold traded. simpl. rewrite Z.sub_0_r. by destruct o. }
  rewrite sp_match_step. destruct (crosses s (o_price o) (o_price x)) eqn:Ec.
  2:{ exists [], (o :: own), (x :: opp). split; [done|]. right.
      pose proof (sorted_no_cross _ _ _ _ Hs Ec) as Hall. split_and!; [|done| |by left].
      - unfold traded. simpl. rewrite Z.sub_0_r. by destruct o.
      - unfold crossing_qty. rewrite filter_none; [done|]. intros y Hy. by rewrite Hall. }
  set (q := Z.min _ _). cbv zeta. apply Forall_cons in Hpos as [Hx Hpos].
  destruct (Z.eqb_spec (o_remaining o - q) 0) as [E0|E0].
  - assert (take_from q o own = own) as ->.
    { unfold take_from. by rewrite (proj2 (Z.eqb_eq _ 0) E0). }
    rewrite sp_match_no_cross by (by apply no_cross_take_from).
    eexists _, own, _. split; [done|]. left. split_and!; try done.
    unfold traded. simpl. rewrite trade_by_quantity. lia.
  - set (opp1 := take_from q x opp).
    assert (take_from q o own = o_set_remaining o (o_remaining o - q) :: own) as ->.
    { unfold take_from. by rewrite (proj2 (Z.eqb_neq _ 0) E0). }
    assert (opp1 = opp) as E1.
    { unfold opp1, take_from. rewrite (proj2 (Z.eqb_eq _ 0)); [done|]. lia. }
    rewrite E1. clear opp1 E1.
    destruct (IH (o_set_remaining o (o_remaining o - q)) opp) as (ts & own' & opp' & E & Hres);
      try done; [simpl in *; lia|simpl; lia|by apply StronglySorted_inv in Hs as [? _]| |].
    { intros a y Ha Hy. apply Hn; [done|by right]. }
    rewrite E. eexists (_ :: ts), own', opp'. split; [done|].
    assert (traded (trade_by s o x q :: ts) = q + traded ts) as Et.
    { unfold traded. simpl. by rewrite trade_by_quantity. }
    rewrite Et. cbn [o_remaining o_set_remaining o_price] in Hres.
    destruct Hres as [(-> & Hq & _)|(-> & Hno & Hq & Hlt)]; [left; split_and!; [done|lia|done]|right].
    split_and!; [|done| |right].
    + unfold o_set_remaining. simpl. by rewrite Z.sub_add_distr.
    + rewrite (crossing_qty_take_from _ _ q) by done. rewrite Hq. unfold take_from.
      rewrite (proj2 (Z.eqb_eq _ 0)); [done|]. lia.
    + destruct Hlt as [Hnone|Hlt]; [|lia]. rewrite Hq. unfold crossing_qty.
      rewrite filter_none; [simpl; lia|]. intros y Hy. by rewrite Hnone.
Qed.

(** ** Matching only shortens a side from the front *)

Inductive shrunk : list order → list order → Prop :=
| shrunk_refl l : shrunk l l
| shrunk_drop x l l' : shrunk l l' → shrunk (x :: l) l'
| shrunk_head x r l : 0 <= r <= o_remaining x → shrunk (x :: l) (o_set_remaining x r :: l).

Lemma shrunk_trans l1 l2 l3 : shrunk l1 l2 → shrunk l2 l3 → shrunk l1 l3.
Proof.
  induction 1 as [l|x l l' H IH|x r l Hr]; [done|intros; constructor; auto|].
  inversion 1 as [?|? ? ? H2|? r' ? Hr']; subst; [by constructor|by constructor|].
  apply (shrunk_head x r' l). simpl in *. lia.
Qed.

Lemma shrunk_take_from q o l : 0 <= q <= o_remaining o → shrunk (o :: l) (take_from q o l).
Proof.
  intros Hq. unfold take_from. case_match.
  - apply shrunk_drop, shrunk_refl.
  - apply shrunk_head. lia.
Qed.

Lemma shrunk_kill l : shrunk l (sp_kill l).
Proof.
  destruct l as [|x l]; [constructor|]. cbn. case_match; [apply shrunk_drop|]; constructor.
Qed.

Lemma shrunk_sorted s l l' :
  shrunk l l' → StronglySorted (priority s) l → StronglySorted (priority s) l'.
Proof.
  induction 1 as [l|x l l' H IH|x r l Hr]; [done| |];
    intros [Hs Hall]%StronglySorted_inv; [auto|by constructor].
Qed.

Lemma shrunk_forall (Q : order → Prop) l l' :
  (∀ x r, Q x → 0 <= r <= o_remaining x → Q (o_set_remaining x r)) →
  shrunk l l' → Forall Q l → Forall Q l'.
Proof.
  intros HQ. induction 1 as [l|x l l' H IH|x r l Hr]; [done| |]; intros [Hx Hl]%Forall_cons; [auto|].
  constructor; [by apply HQ|done].
Qed.

Lemma shrunk_ids l l' : shrunk l l' → o_id <$> l' `sublist_of` o_id <$> l.
Proof.
  induction 1 as [l|x l l' H IH|x r l Hr]; [done| |done]. by apply sublist_cons.
Qed.

Lemma sp_match_shrunk fuel sb s :
  Forall (λ o, 0 <= o_remaining o) (sb_orders sb) →
  shrunk (sb_side s sb) (sb_side s (sp_match fuel sb).2).
Proof.
  revert sb. induction fuel as [|fuel IH]; intros sb Hok; cbn [sp_match]; [constructor|].
  unfold sb_orders in *.
  destruct (sb_bids sb) as [|b bs] eqn:Eb; [constructor|].
  destruct (sb_asks sb) as [|a as_] eqn:Ea; [constructor|].
  destruct (o_price b <? o_price a); [constructor|]. set (q := Z.min _ _).
  apply Forall_app in Hok as [[Hb Hbs]%Forall_cons [Ha Has]%Forall_cons].
  specialize (IH {| sb_bids := take_from q b bs; sb_asks := take_from q a as_ |}).
  destruct (sp_match fuel _) as [ts sb']. cbn [snd sb_bids sb_asks] in *.
  eapply shrunk_trans; [|apply IH, Forall_app; split; apply take_from_forall; try done; cbn; lia].
  destruct s; cbn [sb_side sb_bids sb_asks]; rewrite ?Eb, ?Ea; apply shrunk_take_from; lia.
Qed.

Lemma sp_settle_shrunk sb s :
  Forall (λ o, 0 <= o_remaining o) (sb_orders sb) →
  shrunk (sb_side s sb) (sb_side s (sp_settle sb).2).
Proof.
  intros Hok. unfold sp_settle, sp_match_all.
  pose proof (sp_match_shrunk (length (sb_orders sb)) sb s Hok) as H.
  destruct (sp_match _ sb) as [ts sb1]. simpl in *.
  eapply shrunk_trans; [done|]. destruct s; apply shrunk_kill.
Qed.

Lemma sb_ok_nonneg sb : sb_ok sb → Forall (λ o, 0 <= o_remaining o) (sb_orders sb).
Proof.
  intros [_ H]. apply Forall_app.
  destruct (H buy) as [Hb _], (H sell) as [Ha _]. simpl in *.
  split; (eapply Forall_impl; [done|]); intros o [_ Hr]; unfold in_u in Hr; lia.
Qed.

Lemma sb_ok_shrunk sb sb' :
  sb_ok sb → (∀ s, shrunk (sb_side s sb) (sb_side s sb')) → sb_ok sb'.
Proof.
  intros [Hnd H] Hsh. split.
  - eapply sublist_NoDup; [exact Hnd|]. unfold sb_ids, sb_orders. rewrite !fmap_app.
    apply sublist_app; [apply (shrunk_ids _ _ (Hsh buy))|apply (shrunk_ids _ _ (Hsh sell))].
  - intros s. destruct (H s) as [Hok Hs]. split; [|by apply (shrunk_sorted _ _ _ (Hsh s))].
    eapply shrunk_forall; [|apply Hsh|done]. intros x r [? Hx] Hr. split; [done|].
    unfold in_u in *. simpl. lia.
Qed.

Lemma sp_settle_ok sb : sb_ok sb → sb_ok (sp_settle sb).2.
Proof. intros Hok. eapply sb_ok_shrunk; [done|]. intros s. by apply sp_settle_shrunk, sb_ok_nonneg. Qed.

(** ** Resting an order *)

Lemma sp_insert_perm o l : sp_insert o l ≡ₚ o :: l.
Proof.
  induction l as [|x l IH]; [done|]. simpl. case_match; [done|]. rewrite IH. apply Permutation_swap.
Qed.

Lemma better_asym s p q : better s p q = true → better s q p = false.
Proof. destruct s; cbn; intros; tt_bool; apply Z.ltb_ge; lia. Qed.

Lemma better_trans_not s p q r : better s q p = false → better s r q = false → better s r p = false.
Proof. destruct s; cbn; intros; tt_bool; apply Z.ltb_ge; lia. Qed.

Lemma sp_insert_sorted o l :
  StronglySorted (priority (o_side o)) l → StronglySorted (priority (o_side o)) (sp_insert o l).
Proof.
  induction 1 as [|x l Hs IH Hall]; [repeat constructor|]. simpl.
  destruct (better (o_side o) (o_price o) (o_price x)) eqn:E.
  - constructor; [by constructor|]. apply better_asym in E. constructor; [done|].
    eapply Forall_impl; [done|]. intros y Hy. unfold priority in *. by eapply better_trans_not.
  - constructor; [done|]. rewrite sp_insert_perm. by constructor.
Qed.

Lemma sb_set_orders s l sb : sb_orders (sb_set s l sb) ≡ₚ l ++ sb_side (opposite s) sb.
Proof. destruct s; [done|]. apply Permutation_app_comm. Qed.

Lemma sb_orders_side s sb : sb_orders sb ≡ₚ sb_side s sb ++ sb_side (opposite s) sb.
Proof. destruct s; [done|]. apply Permutation_app_comm. Qed.

Lemma sp_rest_orders o sb : sb_orders (sp_rest o sb) ≡ₚ o :: sb_orders sb.
Proof.
  unfold sp_rest. rewrite sb_set_orders, sp_insert_perm. simpl.
  by rewrite <- (sb_orders_side (o_side o)).
Qed.

Lemma sb_set_side s s' l sb :
  sb_side s' (sb_set s l sb) = if decide (s' = s) then l else sb_side s' sb.
Proof. by destruct s, s'. Qed.

Lemma sp_rest_ok o sb :
  sb_ok sb → o_id o ∉ sb_ids sb → in_u 64 (o_remaining o) → sb_ok (sp_rest o sb).
Proof.
  intros [Hnd H] Hid Hr. split.
  - unfold sb_ids. rewrite sp_rest_orders. simpl. by constructor.
  - intros s. unfold sp_rest. rewrite sb_set_side. destruct (H s) as [Hok Hs].
    case_decide as E; [subst s|done]. split; [|by apply sp_insert_sorted].
    rewrite sp_insert_perm. by constructor.
Qed.

(** ** Orders that must not rest *)

Definition gtc_only (sb : sbook) : Prop := Forall (λ o, o_type o = good_till_cancel) (sb_orders sb).

Lemma uncrossed_no_cross sb s :
  sb_ok sb → uncrossed sb → no_cross s (sb_side s sb) (sb_side (opposite s) sb).
Proof.
  intros [_ H] Hu. destruct (H buy) as [_ Hb], (H sell) as [_ Ha]. simpl in Hb, Ha.
  assert (∀ x y, x ∈ sb_bids sb → y ∈ sb_asks sb → o_price x < o_price y) as Hall.
  { intros x y Hx Hy. unfold uncrossed in Hu.
    destruct (sb_bids sb) as [|b bs]; [by apply not_elem_of_nil in Hx|].
    destruct (sb_asks sb) as [|a as_]; [by apply not_elem_of_nil in Hy|].
    apply StronglySorted_inv in Hb as [_ Hb], Ha as [_ Ha].
    rewrite Forall_forall in Hb, Ha.
    assert (o_price x <= o_price b).
    { apply elem_of_cons in Hx as [->|Hx]; [done|]. specialize (Hb x Hx). unfold priority in Hb.
      simpl in Hb. tt_bool. lia. }
    assert (o_price a <= o_price y); [|lia].
    apply elem_of_cons in Hy as [->|Hy]; [done|]. specialize (Ha y Hy). unfold priority in Ha.
    simpl in Ha. tt_bool. lia. }
  intros x y Hx Hy. destruct s; cbn [crosses sb_side opposite] in *; apply Z.leb_gt; by apply Hall.
Qed.

(** An order that crosses an uncrossed book is the best of its side. *)
Lemma sp_insert_crossing o own x opp :
  no_cross (o_side o) own (x :: opp) → crosses (o_side o) (o_price o) (o_price x) = true →
  sp_insert o own = o :: own.
Proof.
  intros Hn Hc. destruct own as [|y own]; [done|]. simpl.
  assert (better (o_side o) (o_price o) (o_price y) = true) as ->; [|done].
  specialize (Hn y x (list_elem_of_here _ _) (list_elem_of_here _ _)).
  destruct (o_side o); cbn in *; tt_bool; apply Z.ltb_lt; lia.
Qed.

Lemma sp_crosses_head o sb :
  sp_crosses o sb = true →
  ∃ x opp, sb_side (opposite (o_side o)) sb = x :: opp ∧
    crosses (o_side o) (o_price o) (o_price x) = true.
Proof. unfold sp_crosses. destruct (sb_side _ sb) as [|x opp]; [done|]. eauto. Qed.

(** An immediate order that is let in: what is left of the book. *)
Lemma sp_settle_immediate o sb :
  sb_ok sb → uncrossed sb → gtc_only sb → in_u 64 (o_remaining o) →
  is_immediate o = true → sp_crosses o sb = true →
  let s := o_side o in
  ∃ ts opp', sp_settle (sp_rest o sb) = (ts, sb_of s (sb_side s sb) opp') ∧
    shrunk (sb_side (opposite s) sb) opp' ∧
    (traded ts = o_remaining o ∨
     traded ts = sp_available o sb ∧ traded ts < o_remaining o).
Proof.
  intros Hok Hu Hg Hr Him Hc s. pose proof (uncrossed_no_cross sb s Hok Hu) as Hn.
  destruct (sp_crosses_head _ _ Hc) as (x & opp & Eopp & Hcx). fold s in Eopp, Hcx.
  assert (sp_rest o sb = sb_of s (o :: sb_side s sb) (sb_side (opposite s) sb)) as E.
  { unfold sp_rest. fold s. rewrite (sp_insert_crossing o (sb_side s sb) x opp);
      [|by rewrite <- Eopp|done]. by destruct s. }
  pose proof (proj2 Hok (opposite s)) as [Hopp Hsopp].
  assert (Forall (λ x, 0 <= o_remaining x) (sb_side (opposite s) sb)) as Hpos.
  { eapply Forall_impl; [done|]. intros y [_ Hy]. unfold in_u in Hy. lia. }
  pose proof (sp_settle_shrunk (sp_rest o sb) (opposite s)) as Hshr.
  assert (Forall (λ o, 0 <= o_remaining o) (sb_orders (sp_rest o sb))) as Hall.
  { rewrite sp_rest_orders. constructor; [unfold in_u in Hr; lia|]. by apply sb_ok_nonneg. }
  specialize (Hshr Hall). rewrite E in Hshr |- *. rewrite sb_of_opp in Hshr.
  unfold sp_settle, sp_match_all in Hshr |- *. rewrite sb_of_length in Hshr |- *.
  destruct (sp_match_sweep s (S (length (sb_side s sb) + length (sb_side (opposite s) sb))) o
    (sb_side s sb) (sb_side (opposite s) sb)) as (ts & own' & opp' & Em & Hres); try done;
    [unfold in_u in Hr; lia|].
  simpl length in Hshr |- *. simpl plus in Hshr |- *. rewrite Em in Hshr |- *. cbn [snd] in Hshr.
  assert (Forall (λ o, o_type o = good_till_cancel) (sb_side s sb) ∧
          Forall (λ o, o_type o = good_till_cancel) (sb_side (opposite s) sb)) as [Hg1 Hg2].
  { unfold gtc_only in Hg. rewrite (sb_orders_side s) in Hg. by apply Forall_app in Hg. }
  assert (∀ l, Forall (λ o, o_type o = good_till_cancel) l → sp_kill l = l) as Hkill.
  { intros l [|y l' Hy _]; [done|]. cbn. unfold is_immediate. by rewrite bool_decide_true. }
  assert (sp_kill own' = sb_side s sb) as Ek.
  { destruct Hres as [(-> & _)|(-> & _)]; [by apply Hkill|]. cbn.
    replace (is_immediate (o_set_remaining o (o_remaining o - traded ts))) with true by done. done. }
  assert (shrunk (sb_side (opposite s) sb) opp') as Hso.
  { pose proof (sp_match_shrunk (S (length (sb_side s sb) + length (sb_side (opposite s) sb)))
      (sb_of s (o :: sb_side s sb) (sb_side (opposite s) sb)) (opposite s)) as Hm.
    rewrite Em in Hm. cbn [snd] in Hm. rewrite !sb_of_opp in Hm. apply Hm. by rewrite <- E. }
  assert (sp_kill opp' = opp') as Eo.
  { apply Hkill. eapply shrunk_forall; [|done|done]. done. }
  exists ts, opp'. split; [|split; [done|]].
  - destruct s; cbn [sb_of sb_bids sb_asks] in *; by rewrite Ek, Eo.
  - destruct Hres as [(_ & Ht & _)|(_ & _ & Hq & [Hnone|Hlt])]; [by left| |by right].
    exfalso. rewrite (Hnone x) in Hcx; [done|]. rewrite Eopp. left.
Qed.

(** ** Adding an order *)

Lemma sp_add_ok o sb : sb_ok sb → in_u 64 (o_remaining o) → sb_ok (sp_add o sb).2.
Proof.
  intros Hok Hr. unfold sp_add. case_bool_decide as Hid; [done|].
  destruct (sp_accepts o sb); [|done]. by apply sp_settle_ok, sp_rest_ok.
Qed.

Lemma uncrossed_kill sb :
  sb_ok sb → uncrossed sb →
  uncrossed {| sb_bids := sp_kill (sb_bids sb); sb_asks := sp_kill (sb_asks sb) |}.
Proof.
  intros Hok Hu. pose proof (uncrossed_no_cross sb buy Hok Hu) as Hn. unfold uncrossed. simpl in *.
  destruct (sp_kill (sb_bids sb)) as [|b bs] eqn:Eb; [done|].
  destruct (sp_kill (sb_asks sb)) as [|a as_] eqn:Ea; [done|].
  assert (∀ l x l', sp_kill l = x :: l' → x ∈ l) as Hin.
  { intros [|y l] x l'; cbn; [done|]. case_match; intros; simplify_eq; [right; left|left]. }
  specialize (Hn b a (Hin _ _ _ Eb) (Hin _ _ _ Ea)). simpl in Hn. tt_bool. done.
Qed.

Lemma sp_settle_uncrossed sb : sb_ok sb → uncrossed (sp_settle sb).2.
Proof.
  intros Hok. unfold sp_settle, sp_match_all.
  pose proof (sp_match_uncrossed (length (sb_orders sb)) sb (Nat.le_refl _)) as Hu.
  assert (sb_ok (sp_match (length (sb_orders sb)) sb).2) as Hok'.
  { eapply sb_ok_shrunk; [done|]. intros s. by apply sp_match_shrunk, sb_ok_nonneg. }
  destruct (sp_match _ sb) as [ts sb1]. simpl in *. by apply uncrossed_kill.
Qed.

Lemma gtc_only_shrunk sb sb' :
  (∀ s, shrunk (sb_side s sb) (sb_side s sb')) → gtc_only sb → gtc_only sb'.
Proof.
  intros Hsh. unfold gtc_only, sb_orders. rewrite !Forall_app. intros [Hb Ha].
  split; (eapply shrunk_forall; [|by apply (Hsh buy) || by apply (Hsh sell)|done]); done.
Qed.

(** A book as only [add_order] and [cancel_order] leave it. *)
Definition sb_settled (sb : sbook) : Prop := sb_ok sb ∧ uncrossed sb ∧ gtc_only sb.

Lemma sp_add_settled o sb :
  sb_settled sb → in_u 64 (o_remaining o) → sb_settled (sp_add o sb).2.
Proof.
  intros (Hok & Hu & Hg) Hr. split; [by apply sp_add_ok|].
  unfold sp_add. case_bool_decide as Hid; [done|].
  destruct (sp_accepts o sb) eqn:Ha; [|done].
  split; [by apply sp_settle_uncrossed, sp_rest_ok|].
  destruct (is_immediate o) eqn:Him.
  - assert (sp_crosses o sb = true) as Hc.
    { unfold is_immediate, sp_accepts in *.
      destruct (o_type o); [done|by apply andb_true_iff in Ha as [? _]|done]. }
    destruct (sp_settle_immediate o sb) as (ts & opp' & -> & Hsh & _); try done.
    unfold gtc_only in *. rewrite (sb_orders_side (o_side o)). simpl.
    rewrite sb_of_own, sb_of_opp. rewrite (sb_orders_side (o_side o)) in Hg.
    apply Forall_app in Hg as [H1 H2]. apply Forall_app. split; [done|].
    by eapply shrunk_forall; [|done|done].
  - apply (gtc_only_shrunk (sp_rest o sb)).
    + intros s. by apply sp_settle_shrunk, sb_ok_nonneg, sp_rest_ok.
    + unfold gtc_only. rewrite sp_rest_orders. constructor; [|done].
      unfold is_immediate in Him. apply negb_false_iff in Him. by apply bool_decide_eq_true in Him.
Qed.

(** Fill or kill: all of it at once, or nothing happens at all. *)
Lemma sp_add_fill_or_kill o sb :
  sb_settled sb → in_u 64 (o_remaining o) → o_type o = fill_or_kill →
  sp_available o sb < 2 ^ 64 → 
  sp_add o sb = ([], sb) ∨
  (traded (sp_add o sb).1 = o_remaining o ∧
   sb_side (o_side o) (sp_add o sb).2 = sb_side (o_side o) sb).
Proof.
  intros (Hok & Hu & Hg) Hr Ht Hav. unfold sp_add. case_bool_decide as Hid; [by left|].
  destruct (sp_accepts o sb) eqn:Ha; [right|by left].
  unfold sp_accepts in Ha. rewrite Ht in Ha. apply andb_true_iff in Ha as [Hc Hq].
  assert (is_immediate o = true) as Him by (unfold is_immediate; by rewrite Ht).
  destruct (sp_settle_immediate o sb) as (ts & opp' & -> & _ & Htr); try done.
  cbn [fst snd]. rewrite sb_of_own. split; [|done].
  assert (0 <= sp_available o sb) as Hpos.
  { apply (crossing_qty_nonneg (o_side o) (o_price o)).
    pose proof (proj2 Hok (opposite (o_side o))) as [Hopp _].
    eapply Forall_impl; [done|]. intros y [_ Hy]. unfold in_u in Hy. lia. }
  rewrite wrapu_id in Hq by (unfold in_u; lia). tt_bool. lia.
Qed.

(** Immediate or cancel: trades what it can and leaves its side as it was. *)
Lemma sp_add_immediate o sb :
  sb_settled sb → in_u 64 (o_remaining o) → is_immediate o = true →
  sb_side (o_side o) (sp_add o sb).2 = sb_side (o_side o) sb.
Proof.
  intros (Hok & Hu & Hg) Hr Him. unfold sp_add. case_bool_decide as Hid; [done|].
  destruct (sp_accepts o sb) eqn:Ha; [|done].
  assert (sp_crosses o sb = true) as Hc.
  { unfold is_immediate, sp_accepts in *.
    destruct (o_type o); [done|by apply andb_true_iff in Ha as [? _]|done]. }
  destruct (sp_settle_immediate o sb) as (ts & opp' & -> & _ & _); try done.
  cbn [snd]. by rewrite sb_of_own.
Qed.

(** ** Cancelling *)

Lemma sp_drop_sublist id l : sp_drop id l `sublist_of` l.
Proof. apply sublist_filter. Qed.

Lemma sorted_sublist (R : order → order → Prop) l l' :
  l' `sublist_of` l → StronglySorted R l → StronglySorted R l'.
Proof.
  induction 1 as [|x l1 l2 H IH|x l1 l2 H IH]; [done| |]; intros [Hs Hall]%StronglySorted_inv; [|auto].
  constructor; [auto|]. rewrite Forall_forall in *. intros y Hy. apply Hall. by eapply elem_of_sublist.
Qed.

Lemma sublist_ids (l l' : list order) : l' `sublist_of` l → o_id <$> l' `sublist_of` o_id <$> l.
Proof. induction 1; [done|by apply sublist_skip|by apply sublist_cons]. Qed.

Lemma sp_cancel_ok id sb : sb_ok sb → sb_ok (sp_cancel id sb).
Proof.
  intros [Hnd H]. split.
  - unfold sb_ids, sb_orders, sp_cancel in *. cbn [sb_bids sb_asks].
    eapply sublist_NoDup; [exact Hnd|]. rewrite !fmap_app.
    apply sublist_app; apply sublist_ids, sp_drop_sublist.
  - intros s. destruct (H s) as [Hok Hs].
    assert (sb_side s (sp_cancel id sb) = sp_drop id (sb_side s sb)) as -> by (by destruct s).
    split.
    { rewrite Forall_forall in *. intros x [_ Hx]%list_elem_of_filter. by apply Hok. }
    eapply sorted_sublist; [apply sp_drop_sublist|done].
Qed.

Lemma sp_find_spec id sb o :
  NoDup (sb_ids sb) → o ∈ sb_orders sb → o_id o = id → sp_find id sb = Some o.
Proof.
  unfold sb_ids, sp_find. intros Hnd Hin Hid.
  apply list_elem_of_split in Hin as (l1 & l2 & E). rewrite E in *.
  rewrite fmap_app in Hnd. apply NoDup_app in Hnd as (_ & Hd & _).
  rewrite filter_app, filter_cons_True by done. rewrite (filter_none _ l1); [done|].
  intros x Hx Ex. apply (Hd (o_id x)); [by apply list_elem_of_fmap_2|].
  simpl. rewrite Ex, Hid. left.
Qed.

Lemma sp_find_none id sb : id ∉ sb_ids sb → sp_find id sb = None.
Proof.
  unfold sb_ids, sp_find. intros Hn. rewrite filter_none; [done|]. intros x Hx <-.
  apply Hn. by apply list_elem_of_fmap_2.
Qed.

(** ** Replacing an order, and level-2 data *)

(** The replacement goes to the back of its new price. *)
Definition sp_modify (o : order) (price q : Z) (sb : sbook) : sbook :=
  sp_rest (mk_order (o_type o) (o_id o) (o_side o) price q) (sp_cancel (o_id o) sb).

Definition sp_match_order (m : order_modify) (sb : sbook) : list trade * sbook :=
  match sp_find (om_id m) sb with
  | None => ([], sb)
  | Some o => sp_add (to_order_pointer (o_type o) m) (sp_cancel (om_id m) sb)
  end.

(** One order per reported level, with the next order ids. *)
Fixpoint sp_snapshot (s : side) (l : list (Z * Z)) (c : Z) (sb : sbook) : sbook * Z :=
  match l with
  | [] => (sb, c)
  | (p, q) :: l =>
      if q =? 0 then sp_snapshot s l c sb
      else sp_snapshot s l (c + 1) (sp_rest (mk_order good_till_cancel c s p q) sb)
  end.

Definition sp_wipe (s : side) (price : Z) (sb : sbook) : sbook :=
  sb_set s (filter (λ o, o_price o ≠ price) (sb_side s sb)) sb.

Definition sp_update (s : side) (price q c : Z) (sb : sbook) : sbook :=
  let sb1 := sp_wipe s price sb in
  if 0 <? q then sp_rest (mk_order good_till_cancel c s price q) sb1 else sb1.

Definition empty_book : sbook := {| sb_bids := []; sb_asks := [] |}.

(** The quantity resting at a price. *)
Definition depth (s : side) (price : Z) (sb : sbook) : Z :=
  foldr Z.add 0 (o_remaining <$> filter (λ o, o_price o = price) (sb_side s sb)).
