(* ===== verification/BookRefine.v ===== *)
(** * The order book implements price-time priority

    [book_ok] ties a book of OrderBook.v to the nodes its levels own, the free
    nodes and the order map; [refines] forgets them and keeps the abstract book
    of BookSpec.v.  Every operation of the class is shown to run without
    following a bad pointer, to stop within its loop bound, and to do to the
    abstract book what BookSpec.v says. *)

From S2P Require Import Prelude NodeHeap OrderBook BookSpec.
From Stdlib Require Import Sorting.Sorted.

Open Scope list_scope.
Open Scope Z_scope.

(** ** Representation *)

Definition sviews : Type := side → list view.
Definition all (vs : sviews) : view := concat (vs buy) ++ concat (vs sell).
Definition upd (s : side) (l : list view) (vs : sviews) : sviews :=
  λ s', if decide (s' = s) then l else vs s'.
Definition flat (vs : sviews) : sbook :=
  {| sb_bids := (concat (vs buy)).*2; sb_asks := (concat (vs sell)).*2 |}.
Definition entries (v : view) : list (Z * Z) := (λ x, (o_id x.2, x.1)) <$> v.

Definition level_ok (h : heap) (s : side) (lv : price_level) (v : view) : Prop :=
  level_of h lv v ∧ Forall (λ x, o_price x.2 = lv_price lv ∧ order_ok s x.2) v.

Definition prices_sorted (s : side) (lvs : list price_level) : Prop :=
  StronglySorted (λ p q, better s p q = true) (lv_price <$> lvs).

(** A side whose levels may be empty, and one whose levels are not. *)
Definition side_weak (h : heap) (s : side) (lvs : list price_level) (vs : list view) : Prop :=
  Forall2 (level_ok h s) lvs vs ∧ prices_sorted s lvs.
Definition side_ok (h : heap) (s : side) (lvs : list price_level) (vs : list view) : Prop :=
  side_weak h s lvs vs ∧ Forall (λ v, v ≠ []) vs.

Section Refine.
Context {P : Type} `{OrderPool P}.
Implicit Types (b : orderbook P) (vs : sviews) (fs : list Z).

Definition core b vs fs : Prop :=
  NoDup (addrs (all vs) ++ fs) ∧ pool_ok (ob_nodes b) fs ∧
  (∀ p, p ∈ addrs (all vs) ++ fs → p ∈ dom (ob_heap b)) ∧
  NoDup (o_id <$> (all vs).*2) ∧ order_map b = list_to_map (entries (all vs)).

Definition book_ok b vs fs : Prop :=
  core b vs fs ∧ ∀ s, side_ok (ob_heap b) s (levels_of s b) (vs s).

(** [b] implements the abstract book [sb]. *)
Definition refines b (sb : sbook) : Prop := ∃ vs fs, book_ok b vs fs ∧ flat vs = sb.

(** ** Generic facts *)

Lemma all_split s vs : all vs ≡ₚ concat (vs s) ++ concat (vs (opposite s)).
Proof. destruct s; [done|]. apply Permutation_app_comm. Qed.

Lemma upd_same s l vs : upd s l vs s = l.
Proof. unfold upd. by rewrite decide_True. Qed.
Lemma upd_opposite s l vs : upd s l vs (opposite s) = vs (opposite s).
Proof. unfold upd. rewrite decide_False; [done|]. by destruct s. Qed.

Lemma all_upd s l vs : all (upd s l vs) ≡ₚ concat l ++ concat (vs (opposite s)).
Proof. by rewrite (all_split s), upd_same, upd_opposite. Qed.

Lemma side_cases s s' : s' = s ∨ s' = opposite s.
Proof. destruct s, s'; auto. Qed.

Lemma flat_side s vs : sb_side s (flat vs) = (concat (vs s)).*2.
Proof. by destruct s. Qed.

Lemma flat_upd s l vs : flat (upd s l vs) = sb_set s (concat l).*2 (flat vs).
Proof. by destruct s. Qed.

Lemma flat_orders vs : sb_orders (flat vs) = (all vs).*2.
Proof. unfold sb_orders, all. by rewrite fmap_app. Qed.

Lemma entries_keys v : (entries v).*1 = o_id <$> v.*2.
Proof. unfold entries. by rewrite <- !list_fmap_compose. Qed.

Lemma entries_perm_map v w :
  NoDup (o_id <$> v.*2) → v ≡ₚ w → (list_to_map (entries v) : gmap Z Z) = list_to_map (entries w).
Proof.
  intros Hnd Hp. apply list_to_map_proper; [by rewrite entries_keys|].
  unfold entries. by rewrite Hp.
Qed.

Lemma addrs_perm v w : v ≡ₚ w → addrs v ≡ₚ addrs w.
Proof. intros Hp. unfold addrs. by rewrite Hp. Qed.

Lemma ids_perm (v w : view) : v ≡ₚ w → o_id <$> v.*2 ≡ₚ o_id <$> w.*2.
Proof. intros Hp. by rewrite Hp. Qed.

Lemma list_insert_middle {A} (l1 : list A) x y l2 :
  <[length l1 := y]> (l1 ++ x :: l2) = l1 ++ y :: l2.
Proof. induction l1; simpl; [done|]. by f_equal. Qed.

Lemma level_ok_frame h h' s lv v :
  (∀ p, p ∈ addrs v → h' !! p = h !! p) → level_ok h s lv v → level_ok h' s lv v.
Proof.
  intros Hag [(Hseg & Hh) Hf]. split; [|done]. split; [|done]. by apply (seg_frame h).
Qed.

Lemma side_weak_frame h h' s lvs ws :
  (∀ p, p ∈ addrs (concat ws) → h' !! p = h !! p) → side_weak h s lvs ws → side_weak h' s lvs ws.
Proof.
  intros Hag [Hf Hs]. split; [|done]. clear Hs.
  induction Hf as [|lv v lvs ws Hlv Hf IH]; [done|]. simpl in Hag. rewrite addrs_app in Hag.
  constructor.
  - eapply level_ok_frame; [|done]. intros p Hp. apply Hag, elem_of_app. by left.
  - apply IH. intros p Hp. apply Hag, elem_of_app. by right.
Qed.

Lemma pool_ok_frame np np' fs :
  pool_ok np fs → np_free np' = np_free np → np_blocks np' = np_blocks np →
  dom (np_heap np') = dom (np_heap np) →
  (∀ p, p ∈ fs → np_heap np' !! p = np_heap np !! p) → pool_ok np' fs.
Proof.
  intros (Hc & Hb & Hd) E1 E2 E3 Hag. unfold pool_ok. rewrite E1, E2, E3. split_and!; try done.
  by eapply chain_frame.
Qed.

Lemma core_addr_dom b vs fs p : core b vs fs → p ∈ addrs (all vs) → p ∈ dom (ob_heap b).
Proof. intros (_ & _ & Hd & _) Hp. apply Hd, elem_of_app. by left. Qed.

Lemma core_addrs_fs b vs fs p : core b vs fs → p ∈ addrs (all vs) → p ∉ fs.
Proof. intros (Hnd & _) Hp. apply NoDup_app in Hnd as (_ & Hd & _). by apply Hd. Qed.

Lemma core_nodup_side b vs fs s : core b vs fs →
  NoDup (addrs (concat (vs s))) ∧
  (∀ p, p ∈ addrs (concat (vs s)) → p ∉ addrs (concat (vs (opposite s)))).
Proof.
  intros (Hnd & _). apply NoDup_app in Hnd as (Hnd & _). rewrite (addrs_perm _ _ (all_split s vs)) in Hnd.
  rewrite addrs_app in Hnd. apply NoDup_app in Hnd as (H1 & H2 & _). done.
Qed.

Lemma side_addr_all s vs p : p ∈ addrs (concat (vs s)) → p ∈ addrs (all vs).
Proof.
  intros Hp. rewrite (addrs_perm _ _ (all_split s vs)), addrs_app. apply elem_of_app. by left.
Qed.

(** Adding, removing and replacing one order. *)
Lemma core_add b b' vs vs' fs fs' n o :
  core b vs fs → all vs' ≡ₚ (n, o) :: all vs →
  pool_ok (ob_nodes b') fs' → NoDup (n :: fs') → n ∉ addrs (all vs) →
  (∀ p, p ∈ addrs (all vs) → p ∉ fs') →
  (∀ p, p ∈ addrs (all vs) ++ n :: fs' → p ∈ dom (ob_heap b')) →
  o_id o ∉ o_id <$> (all vs).*2 → order_map b' = <[o_id o := n]> (order_map b) →
  core b' vs' fs'.
Proof.
  intros (Hnd & Hp & Hd & Hids & Hm) Hall Hp' Hndf Hn Hdis Hdom Hid Hm'.
  assert (addrs (all vs') ≡ₚ n :: addrs (all vs)) as Ha by (by rewrite (addrs_perm _ _ Hall)).
  apply NoDup_app in Hnd as (Hnd & _ & _). apply NoDup_cons in Hndf as [Hnf Hndf].
  assert (NoDup (o_id <$> (all vs').*2)) as Hids'.
  { rewrite (ids_perm _ _ Hall). simpl. by constructor. }
  split_and!; try done.
  - apply NoDup_app. split_and!; [rewrite Ha; by constructor| |done].
    intros p. rewrite Ha. intros [->|Hp'']%elem_of_cons; [done|by apply Hdis].
  - intros p. rewrite elem_of_app, Ha. intros [[->|Hin]%elem_of_cons|Hin]; apply Hdom, elem_of_app.
    + right. left.
    + by left.
    + right. by right.
  - rewrite Hm', Hm. rewrite (entries_perm_map _ _ Hids' Hall). done.
Qed.

Lemma core_del b b' vs vs' fs n o :
  core b vs fs → all vs ≡ₚ (n, o) :: all vs' → pool_ok (ob_nodes b') (n :: fs) →
  dom (ob_heap b') = dom (ob_heap b) → order_map b' = delete (o_id o) (order_map b) →
  core b' vs' (n :: fs).
Proof.
  intros (Hnd & Hp & Hd & Hids & Hm) Hall Hp' Hdom Hm'.
  assert (addrs (all vs) ≡ₚ n :: addrs (all vs')) as Ha by (by rewrite (addrs_perm _ _ Hall)).
  assert (addrs (all vs') ++ n :: fs ≡ₚ addrs (all vs) ++ fs) as Hpm.
  { rewrite Ha. by rewrite <- Permutation_middle. }
  pose proof Hids as Hids'. rewrite (ids_perm _ _ Hall) in Hids'. simpl in Hids'.
  apply NoDup_cons in Hids' as [Hni Hids'].
  split_and!; try done.
  - by rewrite Hpm.
  - intros p. rewrite Hpm, Hdom. apply Hd.
  - rewrite Hm', Hm, (entries_perm_map _ _ Hids Hall). simpl.
    rewrite delete_insert_id; [done|]. apply not_elem_of_list_to_map_1. by rewrite entries_keys.
Qed.

Lemma core_replace b b' vs vs' fs n o o' rest :
  core b vs fs → all vs ≡ₚ (n, o) :: rest → all vs' ≡ₚ (n, o') :: rest → o_id o' = o_id o →
  pool_ok (ob_nodes b') fs → dom (ob_heap b') = dom (ob_heap b) → order_map b' = order_map b →
  core b' vs' fs.
Proof.
  intros (Hnd & Hp & Hd & Hids & Hm) H1 H2 Hid Hp' Hdom Hm'.
  assert (addrs (all vs') ≡ₚ addrs (all vs)) as Ha
    by (by rewrite (addrs_perm _ _ H1), (addrs_perm _ _ H2)).
  assert (NoDup (o_id <$> (all vs').*2)) as Hids'.
  { rewrite (ids_perm _ _ H2). rewrite (ids_perm _ _ H1) in Hids. simpl in *. by rewrite Hid. }
  split_and!; try done.
  - by rewrite Ha.
  - intros p. rewrite Ha, Hdom. apply Hd.
  - rewrite Hm', Hm, (entries_perm_map _ _ Hids H1), (entries_perm_map _ _ Hids' H2). simpl.
    by rewrite Hid.
Qed.

(** ** Finding or inserting a level *)

Lemma better_trans s p q r : better s p q = true → better s q r = true → better s p r = true.
Proof. destruct s; cbn; intros; tt_bool; apply Z.ltb_lt; lia. Qed.

Lemma better_cases s p q : better s p q = false → p = q ∨ better s q p = true.
Proof. destruct s; cbn; intros; tt_bool; rewrite Z.ltb_lt; lia. Qed.

Lemma better_irrefl s p : better s p p = false.
Proof. destruct s; cbn; apply Z.ltb_irrefl. Qed.

Lemma prices_sorted_cons s lv lvs :
  prices_sorted s (lv :: lvs) ↔
  prices_sorted s lvs ∧ Forall (λ l, better s (lv_price lv) (lv_price l) = true) lvs.
Proof.
  unfold prices_sorted. simpl. split.
  - intros [Hs Hf]%StronglySorted_inv. split; [done|]. by rewrite Forall_fmap in Hf.
  - intros [Hs Hf]. constructor; [done|]. by rewrite Forall_fmap.
Qed.

Lemma prices_sorted_app s l1 l2 :
  prices_sorted s (l1 ++ l2) ↔ prices_sorted s l1 ∧ prices_sorted s l2 ∧
  (∀ x y, x ∈ l1 → y ∈ l2 → better s (lv_price x) (lv_price y) = true).
Proof.
  induction l1 as [|x l1 IH]; simpl.
  - split; [intros Hs; split_and!; [constructor|done|by intros ? ? ?%not_elem_of_nil]|by intros (_ & ? & _)].
  - rewrite !prices_sorted_cons, IH, Forall_app. rewrite !Forall_forall. split.
    + intros ((H1 & H2 & H3) & H4 & H5). split_and!; try done.
      intros y z [->|Hy]%elem_of_cons Hz; [by apply H5|by apply H3].
    + intros ((H1 & H2) & H3 & H4). split_and!; try done.
      * intros y z Hy Hz. apply H4; [by right|done].
      * intros z Hz. apply H4; [by left|done].
Qed.

Lemma prices_partition s price lvs :
  prices_sorted s lvs → ∃ l1 r, lvs = l1 ++ r ∧
    Forall (λ l, better s (lv_price l) price = true) l1 ∧
    Forall (λ l, better s (lv_price l) price = false) r.
Proof.
  induction lvs as [|lv lvs IH]; [by exists [], []|].
  intros [Hs Hf]%prices_sorted_cons. destruct (better s (lv_price lv) price) eqn:E.
  - destruct (IH Hs) as (l1 & r & -> & H1 & H2). exists (lv :: l1), r. split_and!; try done.
    by constructor.
  - exists [], (lv :: lvs). split_and!; try done. constructor; [done|].
    eapply Forall_impl; [done|]. intros l Hl. destruct (better s (lv_price l) price) eqn:E'; [|done].
    by rewrite (better_trans s _ _ _ Hl E') in E.
Qed.

Definition found_level (h : heap) (s : side) (price : Z) (lvs : list price_level) (ws : list view)
    (l1 : list price_level) (lv : price_level) (l2 : list price_level)
    (w1 : list view) (v : view) (w2 : list view) : Prop :=
  lv_price lv = price ∧ level_ok h s lv v ∧
  Forall2 (level_ok h s) l1 w1 ∧ Forall2 (level_ok h s) l2 w2 ∧
  concat ws = concat w1 ++ v ++ concat w2 ∧
  Forall (λ v, v ≠ []) w1 ∧ Forall (λ v, v ≠ []) w2 ∧ prices_sorted s (l1 ++ lv :: l2).

Lemma new_level_ok h s price : level_ok h s (new_level price) [].
Proof. by repeat split. Qed.

Lemma find_or_insert_ok h s lvs ws price :
  side_ok h s lvs ws →
  ∃ l1 lv l2 w1 v w2,
    find_or_insert_level lvs price s = (length l1, l1 ++ lv :: l2) ∧
    found_level h s price lvs ws l1 lv l2 w1 v w2.
Proof.
  intros [[HF Hs] Hne]. destruct (prices_partition s price lvs Hs) as (l1 & r & -> & H1 & H2).
  unfold find_or_insert_level. rewrite (lower_bound_partition _ l1 r) by done.
  rewrite take_app_length, drop_app_length, lookup_app_r, Nat.sub_diag by done.
  apply Forall2_app_inv_l in HF as (w1 & wr & HF1 & HFr & ->).
  apply Forall_app in Hne as [Hne1 Hner].
  apply prices_sorted_app in Hs as (Hs1 & Hsr & Hs12). rewrite Forall_forall in H1.
  assert (∀ lv, lv_price lv = price → ∀ x, x ∈ l1 → better s (lv_price x) (lv_price lv) = true) as Hl1.
  { intros lv -> x Hx. by apply H1. }
  destruct r as [|lv l2].
  - apply Forall2_nil_inv_l in HFr as ->. simpl.
    exists l1, (new_level price), [], w1, [], []. split; [done|].
    unfold found_level. rewrite concat_app. split_and!; try done.
    apply prices_sorted_app. split_and!; [done|by repeat constructor|].
    intros x y Hx ->%list_elem_of_singleton. by apply Hl1.
  - apply Forall2_cons_inv_l in HFr as (v & w2 & Hv & HF2 & ->). simpl.
    apply Forall_cons in Hner as [Hnv Hn2]. apply Forall_cons in H2 as [Hlv H2].
    apply prices_sorted_cons in Hsr as [Hs2 Hlt]. destruct (Z.eqb_spec (lv_price lv) price) as [E|E].
    + exists l1, lv, l2, w1, v, w2. split; [done|].
      unfold found_level. rewrite concat_app. split_and!; try done.
      apply prices_sorted_app. split_and!; [done|by apply prices_sorted_cons|].
      intros x y Hx [->|Hy]%elem_of_cons; [by apply Hl1|]. apply Hs12; [done|by right].
    + exists l1, (new_level price), (lv :: l2), w1, [], (v :: w2). split; [done|].
      unfold found_level. rewrite concat_app. split_and!; try done; [by constructor|by constructor|].
      assert (better s price (lv_price lv) = true) as Hb
        by (apply better_cases in Hlv as [?|?]; done).
      apply prices_sorted_app. split_and!; try done.
      * apply prices_sorted_cons. split; [by apply prices_sorted_cons|]. constructor; [done|].
        eapply Forall_impl; [exact Hlt|]. intros l Hl. exact (better_trans s _ _ _ Hb Hl).
      * intros x y Hx [->|Hy]%elem_of_cons; [by apply Hl1|by apply Hs12].
Qed.

(** ** Resting an order *)

Lemma sp_insert_split o (l1 l2 : list order) :
  (∀ x, x ∈ l1 → better (o_side o) (o_price o) (o_price x) = false) →
  (∀ x, x ∈ l2 → better (o_side o) (o_price o) (o_price x) = true) →
  sp_insert o (l1 ++ l2) = l1 ++ o :: l2.
Proof.
  intros H1 H2. induction l1 as [|x l1 IH]; simpl.
  - destruct l2 as [|x l2]; [done|]. simpl. rewrite H2 by left. done.
  - rewrite H1 by left. f_equal. apply IH. intros y Hy. apply H1. by right.
Qed.

Lemma levels_prices h s lvs ws x :
  Forall2 (level_ok h s) lvs ws → x ∈ (concat ws).*2 → ∃ lv, lv ∈ lvs ∧ o_price x = lv_price lv.
Proof.
  induction 1 as [|lv v lvs ws [_ Hv] HF IH]; simpl; [by intros ?%not_elem_of_nil|].
  rewrite fmap_app, elem_of_app. intros [Hx|Hx].
  - apply list_elem_of_fmap in Hx as (y & -> & Hy). rewrite Forall_forall in Hv.
    exists lv. split; [left|]. by apply Hv.
  - destruct (IH Hx) as (lv' & Hin & E). exists lv'. split; [by right|done].
Qed.

Lemma insert_flat h o lvs ws l1 lv l2 w1 v w2 n :
  found_level h (o_side o) (o_price o) lvs ws l1 lv l2 w1 v w2 →
  (concat (w1 ++ (v ++ [(n, o)]) :: w2)).*2 = sp_insert o (concat ws).*2.
Proof.
  intros (Hp & [_ Hv] & HF1 & HF2 & -> & _ & _ & Hs). rewrite concat_app. simpl concat.
  replace ((concat w1 ++ v ++ concat w2).*2) with ((concat w1 ++ v).*2 ++ (concat w2).*2)
    by (by rewrite <- fmap_app, app_assoc).
  rewrite sp_insert_split.
  - rewrite !fmap_app. simpl. by rewrite <- !app_assoc.
  - apply prices_sorted_app in Hs as (_ & _ & Hs12). intros x. rewrite fmap_app, elem_of_app.
    intros [Hx|Hx].
    + destruct (levels_prices _ _ _ _ _ HF1 Hx) as (l & Hl & ->). apply better_asym. rewrite <- Hp.
      apply Hs12; [done|left].
    + apply list_elem_of_fmap in Hx as (y & -> & Hy). rewrite Forall_forall in Hv.
      destruct (Hv y Hy) as [-> _]. rewrite Hp. apply better_irrefl.
  - apply prices_sorted_app in Hs as (_ & Hs2 & _). apply prices_sorted_cons in Hs2 as [_ Hs2].
    intros x Hx. destruct (levels_prices _ _ _ _ _ HF2 Hx) as (l & Hl & ->).
    rewrite <- Hp. rewrite Forall_forall in Hs2. by apply Hs2.
Qed.

Lemma level_replace h' s l1 lv lv' l2 w1 v' w2 :
  lv_price lv' = lv_price lv → Forall2 (level_ok h' s) l1 w1 → Forall2 (level_ok h' s) l2 w2 →
  level_ok h' s lv' v' → prices_sorted s (l1 ++ lv :: l2) →
  side_weak h' s (l1 ++ lv' :: l2) (w1 ++ v' :: w2).
Proof.
  intros E H1 H2 Hv Hs. split; [by apply Forall2_app; [|constructor]|].
  unfold prices_sorted in *. rewrite fmap_app in *. simpl in *. by rewrite E.
Qed.

Lemma levels_set_same s l b : levels_of s (set_levels s l b) = l.
Proof. by destruct s. Qed.
Lemma levels_set_map s m b : levels_of s (set_map m b) = levels_of s b.
Proof. by destruct s. Qed.
Lemma levels_set_opposite s l b : levels_of (opposite s) (set_levels s l b) = levels_of (opposite s) b.
Proof. by destruct s. Qed.

Lemma forall2_frame h h' s lvs ws :
  (∀ p, p ∈ addrs (concat ws) → h' !! p = h !! p) →
  Forall2 (level_ok h s) lvs ws → Forall2 (level_ok h' s) lvs ws.
Proof.
  intros Hag HF. induction HF as [|lv v lvs ws Hlv HF IH]; [done|].
  simpl in Hag. rewrite addrs_app in Hag. constructor.
  - eapply level_ok_frame; [|done]. intros p Hp. apply Hag, elem_of_app. by left.
  - apply IH. intros p Hp. apply Hag, elem_of_app. by right.
Qed.

Lemma side_ok_frame h h' s lvs ws :
  (∀ p, p ∈ addrs (concat ws) → h' !! p = h !! p) → side_ok h s lvs ws → side_ok h' s lvs ws.
Proof. intros Hag [Hw Hne]. split; [|done]. by eapply side_weak_frame. Qed.

(** The node allocated for an order, with the order in it. *)
Lemma alloc_order b vs fs o :
  core b vs fs →
  ∃ n np h fs', alloc_node (ob_nodes b) = Ret (n, np) ∧
    update (np_heap np) n (with_order (Some o)) = Ret h ∧ h !! n = Some (node o None None) ∧
    n ∉ addrs (all vs) ∧ NoDup (n :: fs') ∧ (∀ p, p ∈ addrs (all vs) → p ∉ fs') ∧
    (∀ p, p ∈ addrs (all vs) → h !! p = ob_heap b !! p) ∧
    (∀ p, p ∈ addrs (all vs) ++ n :: fs' → p ∈ dom h) ∧
    pool_ok {| np_heap := h; np_blocks := np_blocks np; np_free := np_free np |} fs'.
Proof.
  intros Hcore. pose proof Hcore as (Hnd & Hpool & Hdom & _).
  apply NoDup_app in Hnd as (_ & Hdis & Hndf).
  destruct (alloc_node_spec (ob_nodes b) fs) as (n & np & fs' & Ea & Hpool' & Hnd' & Hn & Hor & Hin & Hfr);
    [done|done|intros p Hp; apply Hdom, elem_of_app; by right|].
  assert (∀ p, p ∈ n :: fs' → p ∉ addrs (all vs)) as Hnew.
  { intros p Hp Hall. destruct (Hor p Hp) as [Hf|Hf]; [by apply (Hdis p)|].
    apply Hf. by apply (core_addr_dom b vs fs). }
  assert (n ∉ addrs (all vs)) as Hna by (apply Hnew; left).
  assert (∀ p, p ∈ addrs (all vs) → np_heap np !! p = ob_heap b !! p) as Hag.
  { intros p Hp. apply Hfr; [by apply (core_addr_dom b vs fs)|]. by intros ->. }
  exists n, np, (<[n := node o None None]> (np_heap np)), fs'.
  assert (dom (<[n := node o None None]> (np_heap np)) = dom (np_heap np)) as Hd
    by (apply dom_insert_lookup_L; eauto).
  pose proof Hnd' as [Hnf _]%NoDup_cons.
  split_and!; try done.
  - by rewrite (update_lookup _ _ _ _ Hn).
  - apply lookup_insert_eq.
  - intros p Hp Hf. apply (Hnew p); [by right|done].
  - intros p Hp. rewrite lookup_insert_ne by (by intros ->). by apply Hag.
  - intros p. rewrite Hd. intros [Hp|[->|Hp]%elem_of_cons]%elem_of_app.
    + apply elem_of_dom. rewrite Hag by done. by apply elem_of_dom, (core_addr_dom b vs fs).
    + apply elem_of_dom. eauto.
    + by apply Hin.
  - eapply pool_ok_frame; [exact Hpool'|done|done|done|].
    intros p Hp. apply lookup_insert_ne. by intros ->.
Qed.

Lemma rest_order_ok o b vs fs :
  book_ok b vs fs → o_id o ∉ o_id <$> (all vs).*2 → in_u 64 (o_remaining o) →
  ∃ b' vs' fs', rest_order o b = Ret b' ∧ book_ok b' vs' fs' ∧ flat vs' = sp_rest o (flat vs) ∧
    ob_pool b' = ob_pool b ∧ ob_pool_ready b' = ob_pool_ready b.
Proof.
  intros [Hcore Hsides] Hid Hr. set (s := o_side o).
  destruct (alloc_order b vs fs o Hcore)
    as (n & np & h1 & fs' & Ea & Eu & Hn1 & Hna & Hnd' & Hdis' & Hag1 & Hdom1 & Hpool1).
  unfold rest_order. rewrite Ea. tt_bind. rewrite Eu. tt_bind.
  assert (∀ s', side_ok h1 s' (levels_of s' b) (vs s')) as Hsides1.
  { intros s'. eapply side_ok_frame; [|apply Hsides]. intros p Hp. by apply Hag1, (side_addr_all s'). }
  set (b1 := set_heap h1 (set_nodes np b)).
  assert (∀ s', levels_of s' b1 = levels_of s' b) as Hlv by (by intros []).
  fold s. rewrite Hlv. destruct (find_or_insert_ok h1 s (levels_of s b) (vs s) (o_price o) (Hsides1 s))
    as (l1 & lv & l2 & w1 & v & w2 & -> & Hfound).
  pose proof Hfound as (Hprice & [Hlvl Hfv] & HF1 & HF2 & Hconc & Hne1 & Hne2 & Hsorted).
  rewrite list_lookup_middle by done.
  destruct (core_nodup_side b vs fs s Hcore) as [Hnds Hdisopp].
  rewrite Hconc, !addrs_app in Hnds. apply NoDup_app in Hnds as (Hnd1 & Hd1 & Hnds).
  apply NoDup_app in Hnds as (Hndv & Hd2 & Hnd2).
  assert (∀ p, p ∈ addrs (concat w1) ∨ p ∈ addrs v ∨ p ∈ addrs (concat w2) → p ∈ addrs (all vs)) as Hin.
  { intros p Hp. apply (side_addr_all s). rewrite Hconc, !addrs_app, !elem_of_app. done. }
  destruct (append_spec h1 lv v n o) as (h2 & lv' & -> & Hlvl' & Hprice' & Hfr & Hdom2); try done.
  { intros Hp. apply Hna, Hin. auto. }
  tt_bind. rewrite list_insert_middle.
  eexists _, (upd s (w1 ++ (v ++ [(n, o)]) :: w2) vs), fs'. split; [done|].
  assert (all (upd s (w1 ++ (v ++ [(n, o)]) :: w2) vs) ≡ₚ (n, o) :: all vs) as Hall.
  { rewrite all_upd, (all_split s), Hconc, concat_app. simpl.
    rewrite <- !app_assoc. simpl. by rewrite !(Permutation_middle _ _ (n, o)). }
  assert (∀ p, p ∉ addrs v → p ≠ n → h2 !! p = h1 !! p) as Hfr2 by (intros; by apply Hfr).
  split; [split|split; [|split]].
  - eapply (core_add b); try done.
    + eapply pool_ok_frame; [exact Hpool1|done|done|done|].
      intros p Hp. simpl. apply Hfr; [|intros ->; by apply NoDup_cons in Hnd' as [? _]].
      intros Hp'. apply (Hdis' p); [|done]. apply Hin. auto.
    + intros p Hp. unfold ob_heap. simpl. rewrite Hdom2. by apply Hdom1.
  - intros s'. unfold ob_heap. cbn [set_map set_levels set_heap set_nodes ob_nodes np_heap].
    destruct (side_cases s s') as [->| ->].
    + rewrite upd_same. split.
      * rewrite levels_set_map, levels_set_same. eapply level_replace; try done.
        -- eapply forall2_frame; [|exact HF1]. intros p Hp. apply Hfr; [intros Hp'; by apply (Hd1 p Hp), elem_of_app; left|].
           intros ->. apply Hna, Hin. auto.
        -- eapply forall2_frame; [|exact HF2]. intros p Hp. apply Hfr; [intros Hp'; by apply (Hd2 p)|].
           intros ->. apply Hna, Hin. auto.
        -- split; [done|]. rewrite Hprice'. apply Forall_app. split; [done|].
           constructor; [|done]. by split.
      * apply Forall_app. split; [done|]. constructor; [|done]. by destruct v.
    + rewrite upd_opposite, levels_set_map, levels_set_opposite.
      assert (levels_of (opposite s) (set_heap h2 b1) = levels_of (opposite s) b) as -> by (by destruct s).
      eapply side_ok_frame; [|apply (Hsides1 (opposite s))]. intros p Hp.
      apply Hfr; [|intros ->; by apply Hna, (side_addr_all (opposite s))].
      intros Hp'. apply (Hdisopp p); [|done]. rewrite Hconc, !addrs_app, !elem_of_app. auto.
  - rewrite flat_upd. unfold sp_rest. fold s. f_equal. rewrite flat_side. by eapply insert_flat.
  - done.
  - done.
Qed.

(** ** Taking an order out *)

Lemma ob_free_node_spec b fs n :
  pool_ok (ob_nodes b) fs → n ∈ dom (ob_heap b) → n ∉ fs →
  ∃ b', ob_free_node n b = Ret b' ∧ pool_ok (ob_nodes b') (n :: fs) ∧
    dom (ob_heap b') = dom (ob_heap b) ∧ (∀ p, p ≠ n → ob_heap b' !! p = ob_heap b !! p) ∧
    (∀ s, levels_of s b' = levels_of s b) ∧ order_map b' = order_map b.
Proof.
  intros Hpool Hn Hf. unfold ob_free_node. pose proof Hn as [nd Hnd]%elem_of_dom.
  rewrite (deref_lookup _ _ _ Hnd). tt_bind.
  destruct (free_node_spec _ _ _ Hpool Hn Hf) as (np & -> & Hpool' & _ & Hfr & Hdom). tt_bind.
  eexists. split; [done|]. destruct (n_order nd); split_and!; try done; by intros [].
Qed.

(** A view split at one of its orders, and the same without it. *)
Lemma core_split_perm s vs w1 v1 n o v2 w2 :
  vs s = w1 ++ (v1 ++ (n, o) :: v2) :: w2 →
  all vs ≡ₚ (n, o) :: all (upd s (w1 ++ (v1 ++ v2) :: w2) vs).
Proof.
  intros E. rewrite all_upd, (all_split s), E, !concat_app. simpl. rewrite <- !app_assoc.
  simpl. by rewrite <- (Permutation_middle v1), <- (Permutation_middle (concat w1)).
Qed.

(** Unlinking an order from its level and freeing its node: what every removal
    in the class does, whatever is done to the other fields in between. *)
Lemma take_out s b vs fs l1 lv l2 w1 v1 n o v2 w2 :
  core b vs fs → vs s = w1 ++ (v1 ++ (n, o) :: v2) :: w2 →
  side_weak (ob_heap b) s (l1 ++ lv :: l2) (vs s) → length l1 = length w1 →
  ∃ h lv', remove n (ob_heap b) lv = Ret (h, lv') ∧ order_of h n = Ret o ∧
    lv_head lv' = first_or (v1 ++ v2) None ∧ lv_price lv' = lv_price lv ∧
    ∀ b1, ob_nodes b1 = {| np_heap := h; np_blocks := np_blocks (ob_nodes b);
                           np_free := np_free (ob_nodes b) |} →
      order_map b1 = delete (o_id o) (order_map b) →
      ∃ b2, ob_free_node n b1 = Ret b2 ∧ (∀ s', levels_of s' b2 = levels_of s' b1) ∧
        core b2 (upd s (w1 ++ (v1 ++ v2) :: w2) vs) (n :: fs) ∧
        order_map b2 = delete (o_id o) (order_map b) ∧
        side_weak (ob_heap b2) s (l1 ++ lv' :: l2) (w1 ++ (v1 ++ v2) :: w2) ∧
        (∀ p, p ∈ addrs (concat (vs (opposite s))) → ob_heap b2 !! p = ob_heap b !! p).
Proof.
  intros Hcore Evs [HF Hsorted] Hlen.
  destruct (core_nodup_side b vs fs s Hcore) as [Hnds Hdisopp].
  rewrite Evs in HF. apply Forall2_app_inv in HF as [HF1 HF]; [|done].
  apply Forall2_cons in HF as [[Hlvl Hfv] HF2].
  rewrite Evs, concat_app, addrs_app in Hnds, Hdisopp. simpl in Hnds, Hdisopp.
  rewrite (addrs_app (v1 ++ _)) in Hnds, Hdisopp.
  apply NoDup_app in Hnds as (Hnd1 & Hd1 & Hnds). apply NoDup_app in Hnds as (Hndv & Hd2 & Hnd2).
  destruct (remove_spec (ob_heap b) lv v1 n o v2 Hlvl Hndv)
    as (h & lv' & -> & Hlvl' & Hprice & Hn & Hfr & Hdom).
  assert (n ∈ addrs (v1 ++ (n, o) :: v2)) as Hnv
    by (rewrite addrs_app; apply elem_of_app; right; left).
  assert (∀ p, p ∈ addrs (v1 ++ v2) → p ≠ n) as Hpn.
  { intros p Hp ->. rewrite addrs_app in Hndv, Hp. apply NoDup_app in Hndv as (_ & Hda & [Hnn _]%NoDup_cons).
    apply elem_of_app in Hp as [Hp|Hp]; [|done]. apply (Hda n Hp). left. }
  assert (n ∈ addrs (all vs)) as Hna.
  { apply (side_addr_all s). rewrite Evs, concat_app, addrs_app. simpl. rewrite (addrs_app (v1 ++ _)).
    rewrite !elem_of_app. auto. }
  exists h, lv'. split; [done|]. split; [by apply (order_of_lookup _ _ _ _ _ Hn)|].
  split; [by apply Hlvl'|]. split; [done|]. intros b1 Enodes Emap.
  assert (ob_heap b1 = h) as Eh by (unfold ob_heap; by rewrite Enodes).
  pose proof Hcore as (_ & Hpool & _).
  destruct (ob_free_node_spec b1 fs n) as (b2 & -> & Hpool2 & Hdom2 & Hfr2 & Hlv2 & Hmap2).
  { rewrite Enodes. eapply pool_ok_frame; [exact Hpool|done|done|exact Hdom|].
    intros p Hp. simpl. apply Hfr. intros Hp'. apply (core_addrs_fs b vs fs p Hcore); [|done].
    apply (side_addr_all s). rewrite Evs, concat_app, addrs_app. simpl. rewrite (addrs_app (v1 ++ _)).
    rewrite !elem_of_app. auto. }
  { rewrite Eh, Hdom. by apply (core_addr_dom b vs fs). }
  { by apply (core_addrs_fs b vs fs). }
  rewrite Eh in Hfr2, Hdom2. exists b2. split; [done|]. split; [done|]. split; [|split; [|split]].
  - eapply core_del; [exact Hcore|by apply core_split_perm|done| |by rewrite Hmap2].
    by rewrite Hdom2.
  - by rewrite Hmap2.
  - apply (level_replace _ _ _ lv); try done.
    + eapply forall2_frame; [|exact HF1]. intros p Hp. rewrite Hfr2, Hfr; [done| |].
      * intros Hp'. apply (Hd1 p Hp), elem_of_app. by left.
      * intros ->. apply (Hd1 n Hp), elem_of_app. by left.
    + eapply forall2_frame; [|exact HF2]. intros p Hp. rewrite Hfr2, Hfr; [done| |].
      * intros Hp'. by apply (Hd2 p Hp').
      * intros ->. by apply (Hd2 n Hnv).
    + eapply (level_ok_frame h); [intros p Hp; by apply Hfr2, Hpn|]. split; [done|].
      rewrite Hprice. rewrite Forall_app in Hfv |- *. destruct Hfv as [? [_ ?]%Forall_cons]. done.
  - intros p Hp. rewrite Hfr2, Hfr; [done| |].
    + intros Hp'. apply (Hdisopp p); [|done]. rewrite !elem_of_app. auto.
    + intros ->. apply (Hdisopp n); [|done]. rewrite !elem_of_app. auto.
Qed.

(** ** Locating an order *)

Lemma map_lookup_some b vs fs id n :
  core b vs fs → order_map b !! id = Some n → ∃ o, (n, o) ∈ all vs ∧ o_id o = id.
Proof.
  intros (_ & _ & _ & _ & ->) Hl%elem_of_list_to_map_2.
  apply list_elem_of_fmap in Hl as ([n' o] & [= -> ->] & Hin). eauto.
Qed.

Lemma map_lookup_order b vs fs n o :
  core b vs fs → (n, o) ∈ all vs → order_map b !! o_id o = Some n.
Proof.
  intros (_ & _ & _ & Hids & ->) Hin. apply elem_of_list_to_map_1; [by rewrite entries_keys|].
  apply list_elem_of_fmap. by exists (n, o).
Qed.

Lemma map_lookup_none b vs fs id :
  core b vs fs → order_map b !! id = None ↔ id ∉ o_id <$> (all vs).*2.
Proof.
  intros (_ & _ & _ & _ & ->). rewrite <- entries_keys. split.
  - apply not_elem_of_list_to_map_2.
  - apply not_elem_of_list_to_map_1.
Qed.

Lemma map_size b vs fs : core b vs fs → size (order_map b) = length (all vs).
Proof.
  intros (_ & _ & _ & Hids & ->). rewrite map_size_list_to_map by (by rewrite entries_keys).
  unfold entries. apply length_fmap.
Qed.

Lemma side_order_ok h s lvs ws n o :
  side_weak h s lvs ws → (n, o) ∈ concat ws → order_ok s o.
Proof.
  intros [HF _] Hin. induction HF as [|lv v lvs ws [_ Hv] HF IH]; simpl in Hin;
    [by apply not_elem_of_nil in Hin|].
  apply elem_of_app in Hin as [Hin|Hin]; [|by apply IH].
  rewrite Forall_forall in Hv. by apply (Hv (n, o)).
Qed.

Lemma elem_of_all vs x : x ∈ all vs ↔ ∃ s, x ∈ concat (vs s).
Proof.
  unfold all. rewrite elem_of_app. split; [intros [?|?]; eauto|].
  intros [[] ?]; auto.
Qed.

Lemma book_order_side b vs fs n o :
  book_ok b vs fs → (n, o) ∈ all vs → (n, o) ∈ concat (vs (o_side o)).
Proof.
  intros [_ Hsides] [s Hin]%elem_of_all. destruct (Hsides s) as [Hw _].
  by destruct (side_order_ok _ _ _ _ _ _ Hw Hin) as [-> _].
Qed.

Lemma elem_of_concat_split (ws : list view) n o :
  (n, o) ∈ concat ws → ∃ w1 v1 v2 w2, ws = w1 ++ (v1 ++ (n, o) :: v2) :: w2.
Proof.
  induction ws as [|v ws IH]; simpl; [by intros ?%not_elem_of_nil|].
  intros [(v1 & v2 & ->)%list_elem_of_split|Hin]%elem_of_app; [by exists [], v1, v2, ws|].
  destruct (IH Hin) as (w1 & v1 & v2 & w2 & ->). by exists (v :: w1), v1, v2, w2.
Qed.

Lemma level_order h s lvs ws n o :
  Forall2 (level_ok h s) lvs ws → (n, o) ∈ concat ws → order_of h n = Ret o.
Proof.
  intros HF Hin. induction HF as [|lv v lvs ws [Hl _] HF IH]; simpl in Hin;
    [by apply not_elem_of_nil in Hin|].
  apply elem_of_app in Hin as [Hin|Hin]; [|by apply IH].
  destruct (seg_lookup _ _ _ _ _ _ (proj1 Hl) Hin) as (nx & pv & E). by eapply order_of_lookup.
Qed.

Lemma level_at_sorted s l1 lv l2 :
  prices_sorted s (l1 ++ lv :: l2) → level_at (lv_price lv) (l1 ++ lv :: l2) = Some (length l1).
Proof.
  intros (_ & _ & Hlt)%prices_sorted_app. induction l1 as [|x l1 IH]; simpl.
  - by rewrite Z.eqb_refl.
  - destruct (Z.eqb_spec (lv_price x) (lv_price lv)) as [E|E].
    + specialize (Hlt x lv (list_elem_of_here _ _) (list_elem_of_here _ _)).
      rewrite E, better_irrefl in Hlt. done.
    + rewrite IH; [done|]. intros y z Hy Hz. apply Hlt; [by right|done].
Qed.

Lemma remove_level_other price lvs :
  Forall (λ l, lv_price l ≠ price) lvs → remove_level_if_empty lvs price = lvs.
Proof.
  induction 1 as [|x lvs Hx _ IH]; [done|]. simpl. rewrite (proj2 (Z.eqb_neq _ _) Hx). simpl. by f_equal.
Qed.

Lemma remove_level_sorted s l1 lv l2 :
  prices_sorted s (l1 ++ lv :: l2) →
  remove_level_if_empty (l1 ++ lv :: l2) (lv_price lv) =
    if lv_empty lv then l1 ++ l2 else l1 ++ lv :: l2.
Proof.
  intros (_ & Hs2 & Hlt)%prices_sorted_app. apply prices_sorted_cons in Hs2 as [_ Hs2].
  induction l1 as [|x l1 IH]; simpl.
  - rewrite Z.eqb_refl. simpl. destruct (lv_empty lv); [done|]. f_equal. apply remove_level_other.
    eapply Forall_impl; [done|]. intros l Hl E. simpl in Hl. by rewrite E, better_irrefl in Hl.
  - assert (lv_price x ≠ lv_price lv) as Hx.
    { intros E. specialize (Hlt x lv (list_elem_of_here _ _) (list_elem_of_here _ _)).
      by rewrite E, better_irrefl in Hlt. }
    rewrite (proj2 (Z.eqb_neq _ _) Hx). simpl. rewrite IH.
    + by destruct (lv_empty lv).
    + intros y z Hy Hz. apply Hlt; [by right|done].
Qed.

(** Dropping a level that has become empty. *)
Definition drop_empty (v : view) (w1 w2 : list view) : list view :=
  match v with [] => w1 ++ w2 | _ => w1 ++ v :: w2 end.

Lemma drop_empty_concat v w1 w2 : concat (drop_empty v w1 w2) = concat (w1 ++ v :: w2).
Proof. destruct v; simpl; [|done]. by rewrite !concat_app. Qed.

Lemma side_weak_drop h s l1 lv l2 w1 v w2 :
  side_weak h s (l1 ++ lv :: l2) (w1 ++ v :: w2) → length l1 = length w1 →
  Forall (λ v, v ≠ []) w1 → Forall (λ v, v ≠ []) w2 →
  side_ok h s (if lv_empty lv then l1 ++ l2 else l1 ++ lv :: l2) (drop_empty v w1 w2).
Proof.
  intros [HF Hs] Hlen H1 H2. pose proof HF as HF'.
  apply Forall2_app_inv in HF as [HF1 HF]; [|done]. apply Forall2_cons in HF as [[(_ & Hh & _) _] HF2].
  unfold lv_empty. destruct v as [|x v]; rewrite Hh; simpl.
  - split; [split; [by apply Forall2_app|]|by apply Forall_app].
    apply prices_sorted_app in Hs as (Hs1 & Hs2 & Hlt). apply prices_sorted_cons in Hs2 as [Hs2 _].
    apply prices_sorted_app. split_and!; try done. intros y z Hy Hz. apply Hlt; [done|by right].
  - split; [done|]. apply Forall_app. by split; [|constructor].
Qed.

Lemma core_ext b b' vs vs' fs :
  core b vs fs → all vs' ≡ₚ all vs → ob_nodes b' = ob_nodes b → order_map b' = order_map b →
  core b' vs' fs.
Proof.
  intros (Hnd & Hpool & Hdom & Hids & Hm) Hp E1 E2. unfold core, ob_heap in *.
  rewrite E1, E2. split_and!; try done.
  - by rewrite (addrs_perm _ _ Hp).
  - intros p. rewrite (addrs_perm _ _ Hp). apply Hdom.
  - by rewrite (ids_perm _ _ Hp).
  - rewrite Hm. by apply entries_perm_map.
Qed.

(** ** Cancelling *)

Lemma sp_drop_none id l : id ∉ o_id <$> l → sp_drop id l = l.
Proof.
  intros Hn. unfold sp_drop. induction l as [|x l IH]; [done|].
  rewrite fmap_cons, not_elem_of_cons in Hn. destruct Hn as [Hx Hl].
  rewrite filter_cons_True by (by apply not_eq_sym). by rewrite IH.
Qed.

Lemma sp_drop_split o l1 l2 :
  NoDup (o_id <$> l1 ++ o :: l2) → sp_drop (o_id o) (l1 ++ o :: l2) = l1 ++ l2.
Proof.
  rewrite fmap_app. simpl. intros (H1 & Hd & [Ho H2]%NoDup_cons)%NoDup_app.
  unfold sp_drop. rewrite filter_app, filter_cons_False by (intros Hne; by apply Hne).
  fold (sp_drop (o_id o) l1) (sp_drop (o_id o) l2).
  rewrite !sp_drop_none; [done|done|]. intros Hin. apply (Hd _ Hin). left.
Qed.

Lemma sp_cancel_side s id sb :
  NoDup (sb_ids sb) → id ∈ o_id <$> sb_side s sb →
  sp_cancel id sb = sb_set s (sp_drop id (sb_side s sb)) sb.
Proof.
  intros Hnd Hin. unfold sb_ids, sb_orders in Hnd. rewrite fmap_app in Hnd.
  apply NoDup_app in Hnd as (_ & Hd & _). unfold sp_cancel.
  destruct s; simpl in *; f_equal; apply sp_drop_none; [by apply Hd|].
  intros Hin'. by apply (Hd id).
Qed.

Lemma flat_nodup b vs fs : core b vs fs → NoDup (sb_ids (flat vs)).
Proof. intros (_ & _ & _ & Hids & _). unfold sb_ids. by rewrite flat_orders. Qed.

(** Removing the order at a known place, as [cancel_order] does it. *)
Lemma cancel_found b vs fs n o :
  book_ok b vs fs → (n, o) ∈ all vs →
  ∃ b' vs', cancel_order (o_id o) b = Ret b' ∧ book_ok b' vs' (n :: fs) ∧
    flat vs' = sp_cancel (o_id o) (flat vs).
Proof.
  intros Hok Hin. pose proof Hok as [Hcore Hsides].
  pose proof (book_order_side b vs fs n o Hok Hin) as Hin'. set (s := o_side o) in *.
  destruct (elem_of_concat_split _ _ _ Hin') as (w1 & v1 & v2 & w2 & Evs).
  destruct (Hsides s) as [Hweak Hne]. pose proof Hweak as [HF Hsorted]. rewrite Evs in HF, Hne.
  pose proof HF as (l1 & l & HF1 & HF' & El)%Forall2_app_inv_r.
  apply Forall2_cons_inv_r in HF' as (lv & l2 & [Hlvl Hfv] & HF2 & ->).
  apply Forall2_length in HF1 as Hlen. apply Forall_app in Hne as [Hne1 [_ Hne2]%Forall_cons].
  rewrite El in Hweak, Hsorted.
  assert (o_price o = lv_price lv) as Eprice.
  { rewrite Forall_forall in Hfv. apply (Hfv (n, o)), elem_of_app. right. left. }
  assert (order_of (ob_heap b) n = Ret o) as Eo.
  { rewrite <- Evs in HF. eapply level_order; [exact HF|done]. }
  unfold cancel_order. rewrite (map_lookup_order b vs fs n o Hcore Hin), Eo. tt_bind. fold s.
  rewrite Eprice, El, (level_at_sorted s) by done. rewrite list_lookup_middle by done.
  destruct (take_out s b vs fs l1 lv l2 w1 v1 n o v2 w2 Hcore Evs Hweak Hlen)
    as (h & lv' & -> & Eo' & Hhead & Hprice & Hfree). tt_bind.
  rewrite list_insert_middle.
  set (b1 := set_levels s (l1 ++ lv' :: l2) (set_heap h b)).
  destruct (Hfree (set_map (delete (o_id o) (order_map b1)) b1))
    as (b2 & -> & Hlv2 & Hcore2 & Hmap2 & Hweak2 & Hopp2); [done|done|]. tt_bind.
  rewrite Hlv2, levels_set_map. unfold b1 at 1. rewrite levels_set_same.
  rewrite <- Hprice. rewrite (remove_level_sorted s) by apply Hweak2.
  eexists _, (upd s (drop_empty (v1 ++ v2) w1 w2) vs). split; [done|]. split; [split|].
  - eapply core_ext; [exact Hcore2| |done|done].
    by rewrite !all_upd, drop_empty_concat.
  - intros s'. destruct (side_cases s s') as [->| ->].
    + rewrite levels_set_same, upd_same. by apply side_weak_drop.
    + rewrite levels_set_opposite, upd_opposite, Hlv2, levels_set_map. unfold b1.
      rewrite levels_set_opposite.
      assert (levels_of (opposite s) (set_heap h b) = levels_of (opposite s) b) as -> by (by destruct s).
      eapply side_ok_frame; [|apply Hsides]. done.
  - rewrite flat_upd, drop_empty_concat.
    assert (∃ a c, (concat (vs s)).*2 = a ++ o :: c ∧
      (concat (w1 ++ (v1 ++ v2) :: w2)).*2 = a ++ c) as (a & c & E1 & E2).
    { exists ((concat w1 ++ v1).*2), ((v2 ++ concat w2).*2). rewrite Evs, !concat_app. simpl.
      split; rewrite ?fmap_app, ?fmap_cons, ?fmap_app; simpl; by rewrite <- ?app_assoc. }
    rewrite E2, (sp_cancel_side s), flat_side, E1.
    + f_equal. symmetry. apply sp_drop_split. rewrite <- E1, <- (flat_side s).
      pose proof (flat_nodup _ _ _ Hcore) as Hnd. unfold sb_ids in Hnd.
      rewrite (sb_orders_side s), fmap_app in Hnd. by apply NoDup_app in Hnd as [? _].
    + by eapply flat_nodup.
    + rewrite flat_side, E1, fmap_app. apply elem_of_app. right. left.
Qed.

Lemma cancel_order_ok id b vs fs :
  book_ok b vs fs →
  ∃ b' vs' fs', cancel_order id b = Ret b' ∧ book_ok b' vs' fs' ∧ flat vs' = sp_cancel id (flat vs).
Proof.
  intros Hok. destruct (order_map b !! id) as [n|] eqn:E.
  - destruct (map_lookup_some b vs fs id n (proj1 Hok) E) as (o & Hin & <-).
    destruct (cancel_found b vs fs n o Hok Hin) as (b' & vs' & ? & ? & ?). eauto 6.
  - unfold cancel_order. rewrite E. exists b, vs, fs. split_and!; try done.
    rewrite (map_lookup_none b vs fs id (proj1 Hok)) in E.
    rewrite <- flat_orders in E. unfold sb_orders in E. rewrite fmap_app, not_elem_of_app in E.
    destruct E as [E1 E2]. unfold sp_cancel. rewrite !sp_drop_none by done. done.
Qed.

End Refine.
