(* ===== verification/BookMatch.v ===== *)
(** * Matching and the public operations of the order book refine BookSpec.v

    The matching loop of [match_orders], the cancellation of unfilled immediate
    orders after it, [add_order], [match_order], [modify_order], the level-2
    snapshot and update, and [clear]. *)

From S2P Require Import Prelude NodeHeap OrderBook BookSpec BookRefine.
From Stdlib Require Import Sorting.Sorted.

Open Scope list_scope.
Open Scope Z_scope.

Section Match.
Context {P : Type} `{OrderPool P}.
Implicit Types (b : orderbook P) (vs : sviews) (fs : list Z).

(** ** One fill on the front order of a side *)

Lemma upd_front_perm s vs n o v w o' :
  vs s = ((n, o) :: v) :: w →
  ∃ rest, all vs ≡ₚ (n, o) :: rest ∧ all (upd s (((n, o') :: v) :: w) vs) ≡ₚ (n, o') :: rest.
Proof.
  intros E. exists ((v ++ concat w) ++ concat (vs (opposite s))). split.
  - by rewrite (all_split s), E.
  - by rewrite all_upd.
Qed.

Lemma fill_front s q b vs fs lv rest n o v w :
  core b vs fs → vs s = ((n, o) :: v) :: w →
  side_weak (ob_heap b) s (lv :: rest) (vs s) → 0 <= q <= o_remaining o →
  let o' := o_set_remaining o (o_remaining o - q) in
  ∃ h, fill q o = Ret o' ∧ update (ob_heap b) n (with_order (Some o')) = Ret h ∧
    core (set_heap h b) (upd s (((n, o') :: v) :: w) vs) fs ∧
    side_weak h s (lv_set_total (u64 (lv_total lv - q)) lv :: rest) (((n, o') :: v) :: w) ∧
    (∀ p, p ≠ n → h !! p = ob_heap b !! p) ∧
    (∀ p, p ∈ addrs (concat (vs (opposite s))) → p ≠ n).
Proof.
  intros Hcore Evs [HF Hsorted] Hq o'.
  rewrite Evs in HF. apply Forall2_cons in HF as [[(Hseg & Hh & Ht & Htot) Hfv] HF2].
  destruct (core_nodup_side b vs fs s Hcore) as [Hnds Hdisopp]. rewrite Evs in Hnds, Hdisopp.
  simpl in Hnds, Hdisopp. rewrite (addrs_app v) in Hnds.
  apply NoDup_cons in Hnds as [Hn Hnds]. apply not_elem_of_app in Hn as [Hnv Hnw].
  assert (order_ok s o) as [Hs Hr] by (apply Forall_cons in Hfv as [[_ ?] _]; done).
  unfold in_u in Hr.
  assert (fill q o = Ret o') as Ef.
  { unfold fill. destruct (Z.ltb_spec (o_remaining o) q); [lia|]. unfold o'.
    by rewrite wrapu_id by (unfold in_u; lia). }
  assert (NoDup (addrs ([] ++ (n, o) :: v))) as Hndv.
  { simpl. constructor; [done|]. by apply NoDup_app in Hnds as [? _]. }
  destruct (seg_set_order (ob_heap b) None [] n o o' v None Hseg Hndv) as (nd & Hnd & Hno & Hseg').
  eexists. split; [done|]. split; [by rewrite (update_lookup _ _ _ _ Hnd)|].
  set (h := <[n := _]> (ob_heap b)) in *.
  assert (∀ p, p ≠ n → h !! p = ob_heap b !! p) as Hfr by (intros; by apply lookup_insert_ne).
  assert (dom h = dom (ob_heap b)) as Hdom by (apply dom_insert_lookup_L; eauto).
  split_and!; [| |done|].
  - destruct (upd_front_perm s vs n o v w o' Evs) as (r & H1 & H2).
    eapply (core_replace b); [done|done|done|done| |done|done].
    pose proof Hcore as (_ & Hpool & _). eapply pool_ok_frame; [exact Hpool|done|done|done|].
    intros p Hp. simpl. apply Hfr. intros ->. apply (core_addrs_fs b vs fs n Hcore); [|done].
    apply (side_addr_all s). rewrite Evs. simpl. left.
  - split.
    + constructor.
      * split; [split_and!|].
        -- exact Hseg'.
        -- exact Hh.
        -- simpl. rewrite Ht. by rewrite !last_or_cons.
        -- simpl. rewrite Htot, wrapu_sub_l, !total_cons. simpl. f_equal. lia.
        -- apply Forall_cons in Hfv as [[Hp _] Hfv]. constructor; [|done]. split; [done|].
           split; [done|]. unfold in_u. simpl. lia.
      * eapply forall2_frame; [|exact HF2]. intros p Hp. apply Hfr. by intros ->.
    + unfold prices_sorted in *. done.
  - intros p Hp ->. apply (Hdisopp n); [left|done].
Qed.

Lemma settle_front s q b vs fs lv rest n o v w :
  core b vs fs → vs s = ((n, o) :: v) :: w → levels_of s b = lv :: rest →
  side_weak (ob_heap b) s (lv_set_total (u64 (lv_total lv - q)) lv :: rest) (vs s) →
  ∃ b' fs' lv', settle s n q b = Ret b' ∧
    core b' (upd s ((if o_remaining o =? 0 then v else (n, o) :: v) :: w) vs) fs' ∧
    levels_of s b' = lv' :: rest ∧
    side_weak (ob_heap b') s (lv' :: rest) ((if o_remaining o =? 0 then v else (n, o) :: v) :: w) ∧
    levels_of (opposite s) b' = levels_of (opposite s) b ∧
    (∀ p, p ∈ addrs (concat (vs (opposite s))) → ob_heap b' !! p = ob_heap b !! p).
Proof.
  intros Hcore Evs Elv Hweak. unfold settle. rewrite Elv.
  assert (order_of (ob_heap b) n = Ret o) as Eo.
  { eapply level_order; [apply Hweak|]. rewrite Evs. left. }
  rewrite Eo. tt_bind. unfold is_filled. destruct (o_remaining o =? 0) eqn:E0.
  - destruct (take_out s b vs fs [] (lv_set_total (u64 (lv_total lv - q)) lv) rest [] [] n o v w
      Hcore Evs Hweak eq_refl) as (h & lv' & -> & _ & _ & _ & Hfree). tt_bind.
    set (b1 := set_levels s (lv' :: rest) (set_heap h b)).
    destruct (Hfree (set_map (delete (o_id o) (order_map b1)) b1))
      as (b2 & -> & Hlv2 & Hcore2 & _ & Hweak2 & Hopp2); [done|done|].
    exists b2, (n :: fs), lv'. split; [done|]. split_and!; try done.
    + rewrite Hlv2, levels_set_map. unfold b1. by rewrite levels_set_same.
    + rewrite Hlv2, levels_set_map. unfold b1. rewrite levels_set_opposite. by destruct s.
  - eexists _, fs, _. split; [done|]. split_and!; [|by rewrite levels_set_same|by rewrite <- Evs| |done].
    + eapply core_ext; [exact Hcore| |done|done]. by rewrite all_upd, (all_split s vs), Evs.
    + by rewrite levels_set_opposite.
Qed.

Lemma erase_front_ok s b lv rest v w :
  levels_of s b = lv :: rest → side_weak (ob_heap b) s (lv :: rest) (v :: w) →
  Forall (λ v, v ≠ []) w →
  side_ok (ob_heap b) s (levels_of s (erase_empty_front s b)) (drop_empty v [] w) ∧
  ob_nodes (erase_empty_front s b) = ob_nodes b ∧ order_map (erase_empty_front s b) = order_map b ∧
  levels_of (opposite s) (erase_empty_front s b) = levels_of (opposite s) b.
Proof.
  intros Elv Hweak Hne. unfold erase_empty_front. rewrite Elv.
  pose proof (side_weak_drop _ _ [] lv rest [] v w Hweak eq_refl (Forall_nil_2 _) Hne) as Hok.
  destruct (lv_empty lv); split_and!; try done.
  - by rewrite levels_set_same.
  - by rewrite levels_set_opposite.
  - by rewrite Elv.
Qed.

(** ** One iteration of the matching loop *)

Definition left_view (q : Z) (n : Z) (o : order) (v : view) : view :=
  if o_remaining o - q =? 0 then v else (n, o_set_remaining o (o_remaining o - q)) :: v.

Lemma left_view_flat q n o v w :
  (concat (drop_empty (left_view q n o v) [] w)).*2 = take_from q o (concat (v :: w)).*2.
Proof. rewrite drop_empty_concat. unfold left_view, take_from. by case_match. Qed.

(** Both fills and both settlements, before empty levels are erased. *)
Lemma trade_fronts b vs fs bl brest bn bo bv bw al arest an ao av aw q :
  core b vs fs → vs buy = ((bn, bo) :: bv) :: bw → vs sell = ((an, ao) :: av) :: aw →
  bid_levels b = bl :: brest → ask_levels b = al :: arest →
  side_weak (ob_heap b) buy (bl :: brest) (vs buy) →
  side_weak (ob_heap b) sell (al :: arest) (vs sell) →
  0 <= q <= o_remaining bo → q <= o_remaining ao →
  let bo' := o_set_remaining bo (o_remaining bo - q) in
  let ao' := o_set_remaining ao (o_remaining ao - q) in
  ∃ h1 h2 b1 b2 fs' bl' al',
    fill q bo = Ret bo' ∧ update (ob_heap b) bn (with_order (Some bo')) = Ret h1 ∧
    order_of h1 an = Ret ao ∧ fill q ao = Ret ao' ∧
    update h1 an (with_order (Some ao')) = Ret h2 ∧
    settle buy bn q (set_heap h2 b) = Ret b1 ∧ settle sell an q b1 = Ret b2 ∧
    core b2 (upd sell (left_view q an ao av :: aw) (upd buy (left_view q bn bo bv :: bw) vs)) fs' ∧
    bid_levels b2 = bl' :: brest ∧ ask_levels b2 = al' :: arest ∧
    side_weak (ob_heap b2) buy (bl' :: brest) (left_view q bn bo bv :: bw) ∧
    side_weak (ob_heap b2) sell (al' :: arest) (left_view q an ao av :: aw).
Proof.
  intros Hcore Evb Eva Elb Ela Hwb Hwa Hqb Hqa bo' ao'.
  destruct (fill_front buy q b vs fs bl brest bn bo bv bw Hcore Evb Hwb Hqb)
    as (h1 & Ef1 & Eu1 & Hcore1 & Hwb1 & Hfr1 & Hopp1). fold bo' in Ef1, Eu1, Hcore1, Hwb1.
  set (vs1 := upd buy (((bn, bo') :: bv) :: bw) vs) in *.
  assert (side_weak h1 sell (al :: arest) (vs1 sell)) as Hwa1.
  { eapply side_weak_frame; [|exact Hwa]. intros p Hp. by apply Hfr1, Hopp1. }
  destruct (fill_front sell q (set_heap h1 b) vs1 fs al arest an ao av aw Hcore1 Eva Hwa1 ltac:(lia))
    as (h2 & Ef2 & Eu2 & Hcore2 & Hwa2 & Hfr2 & Hopp2). fold ao' in Ef2, Eu2, Hcore2, Hwa2.
  change (set_heap h2 (set_heap h1 b)) with (set_heap h2 b) in Hcore2.
  change (ob_heap (set_heap h1 b)) with h1 in *.
  set (vs2 := upd sell (((an, ao') :: av) :: aw) vs1) in *.
  assert (side_weak h2 buy (lv_set_total (u64 (lv_total bl - q)) bl :: brest) (vs2 buy)) as Hwb2.
  { eapply side_weak_frame; [|exact Hwb1]. intros p Hp. by apply Hfr2, Hopp2. }
  destruct (settle_front buy q (set_heap h2 b) vs2 fs bl brest bn bo' bv bw Hcore2 eq_refl Elb Hwb2)
    as (b1 & fs1 & bl' & Es1 & Hcore3 & Elb1 & Hwb3 & Ela1 & Hopp3).
  set (vs3 := upd buy _ vs2) in *. change (levels_of (opposite buy)) with (@ask_levels P) in Ela1.
  assert (side_weak (ob_heap b1) sell (lv_set_total (u64 (lv_total al - q)) al :: arest) (vs3 sell)) as Hwa3.
  { eapply side_weak_frame; [|exact Hwa2]. intros p Hp. by apply Hopp3. }
  destruct (settle_front sell q b1 vs3 fs1 al arest an ao' av aw Hcore3 eq_refl) as
    (b2 & fs2 & al' & Es2 & Hcore4 & Ela2 & Hwa4 & Elb2 & Hopp4); [|done|].
  { simpl. rewrite Ela1. exact Ela. }
  exists h1, h2, b1, b2, fs2, bl', al'. split_and!; try done.
  - apply (level_order h1 sell (al :: arest) (vs sell)); [apply Hwa1|]. rewrite Eva. left.
  - simpl in Elb2. by rewrite Elb2.
  - eapply side_weak_frame; [|exact Hwb3]. intros p Hp. by apply Hopp4.
Qed.

Lemma match_iter_traded b vs fs bn bo bv bw an ao av aw :
  book_ok b vs fs → vs buy = ((bn, bo) :: bv) :: bw → vs sell = ((an, ao) :: av) :: aw →
  o_price ao <= o_price bo →
  let q := Z.min (o_remaining bo) (o_remaining ao) in
  ∃ b' vs' fs', match_iter b = Ret (Traded (trade_of bo ao q) b') ∧ book_ok b' vs' fs' ∧
    flat vs' = {| sb_bids := take_from q bo (concat (bv :: bw)).*2;
                  sb_asks := take_from q ao (concat (av :: aw)).*2 |}.
Proof.
  intros [Hcore Hsides] Evb Eva Hcross q.
  destruct (Hsides buy) as [Hwb Hneb], (Hsides sell) as [Hwa Hnea].
  change (levels_of buy b) with (bid_levels b) in *. change (levels_of sell b) with (ask_levels b) in *.
  pose proof Hwb as [HFb _]. pose proof Hwa as [HFa _]. rewrite Evb in HFb, Hneb. rewrite Eva in HFa, Hnea.
  apply Forall2_cons_inv_r in HFb as (bl & brest & [(_ & Hhb & _) Hfb] & _ & Elb).
  apply Forall2_cons_inv_r in HFa as (al & arest & [(_ & Hha & _) Hfa] & _ & Ela).
  apply Forall_cons in Hfb as [[Epb [_ Hrb]] _], Hfa as [[Epa [_ Hra]] _]. cbn [snd] in *.
  apply Forall_cons in Hneb as [_ Hneb], Hnea as [_ Hnea]. unfold in_u in Hrb, Hra.
  rewrite Elb in Hwb. rewrite Ela in Hwa.
  destruct (trade_fronts b vs fs bl brest bn bo bv bw al arest an ao av aw q)
    as (h1 & h2 & b1 & b2 & fs' & bl' & al' & Ef1 & Eu1 & Eo1 & Ef2 & Eu2 & Es1 & Es2 & Hcore2 &
        Elb2 & Ela2 & Hwb2 & Hwa2); try done; [lia|lia|].
  unfold match_iter. rewrite Elb, Ela, <- Epb, <- Epa.
  rewrite (proj2 (Z.ltb_ge _ _) Hcross). rewrite Hhb, Hha. cbn [first_or fst].
  assert (order_of (ob_heap b) bn = Ret bo) as ->
    by (eapply level_order; [apply Hwb|]; rewrite Evb; left).
  tt_bind. rewrite (map_lookup_order b vs fs bn bo Hcore); [|apply elem_of_all; exists buy; rewrite Evb; left].
  rewrite bool_decide_false by done.
  assert (order_of (ob_heap b) an = Ret ao) as ->
    by (eapply level_order; [apply Hwa|]; rewrite Eva; left).
  tt_bind. rewrite (map_lookup_order b vs fs an ao Hcore); [|apply elem_of_all; exists sell; rewrite Eva; left].
  rewrite bool_decide_false by done. fold q.
  rewrite Ef1. tt_bind. rewrite Eu1. tt_bind. rewrite Eo1. tt_bind. rewrite Ef2. tt_bind.
  rewrite Eu2. tt_bind. rewrite Es1. tt_bind. rewrite Es2. tt_bind.
  destruct (erase_front_ok buy b2 bl' brest (left_view q bn bo bv) bw Elb2 Hwb2 Hneb)
    as (Hokb & Enb & Emb & Eob). set (b3 := erase_empty_front buy b2) in *.
  assert (ob_heap b3 = ob_heap b2) as Eh3 by (unfold ob_heap; by rewrite Enb).
  destruct (erase_front_ok sell b3 al' arest (left_view q an ao av) aw) as (Hoka & Ena & Ema & Eoa);
    [simpl in Eob; simpl; by rewrite Eob|by rewrite Eh3|done|].
  set (b4 := erase_empty_front sell b3) in *.
  assert (ob_heap b4 = ob_heap b2) as Eh4 by (unfold ob_heap; by rewrite Ena, Enb).
  exists b4, (upd sell (drop_empty (left_view q an ao av) [] aw)
               (upd buy (drop_empty (left_view q bn bo bv) [] bw) vs)), fs'.
  split; [done|]. split; [split|].
  - eapply core_ext; [exact Hcore2| |by rewrite Ena|by rewrite Ema].
    unfold all, upd. simpl. by rewrite !drop_empty_concat.
  - intros s. rewrite Eh4. destruct s.
    + change (levels_of buy b4) with (levels_of (opposite sell) b4). rewrite Eoa. exact Hokb.
    + rewrite <- Eh3. exact Hoka.
  - unfold flat, upd. simpl. by rewrite !left_view_flat.
Qed.

Lemma match_iter_stop b vs fs :
  book_ok b vs fs →
  (∀ bo bs ao as_, sb_bids (flat vs) = bo :: bs → sb_asks (flat vs) = ao :: as_ →
     o_price bo < o_price ao) →
  match_iter b = Ret Stop.
Proof.
  intros [_ Hsides] Hno. destruct (Hsides buy) as [[HFb _] Hneb], (Hsides sell) as [[HFa _] Hnea].
  change (levels_of buy b) with (bid_levels b) in *. change (levels_of sell b) with (ask_levels b) in *.
  unfold match_iter. unfold flat in Hno. cbn [sb_bids sb_asks] in Hno.
  destruct HFb as [|bl bv blr bw [_ Hb] _]; [done|]. destruct HFa as [|al av alr aw [_ Ha] _]; [done|].
  apply Forall_cons in Hneb as [Hb0 _], Hnea as [Ha0 _].
  destruct bv as [|[bn bo] bv]; [done|]. destruct av as [|[an ao] av]; [done|].
  apply Forall_cons in Hb as [[Eb _] _], Ha as [[Ea _] _]. simpl in *.
  rewrite <- Eb, <- Ea, (proj2 (Z.ltb_lt _ _)); [done|]. by eapply Hno.
Qed.

(** ** The matching loop *)

Lemma book_side_front b vs fs s x l :
  book_ok b vs fs → sb_side s (flat vs) = x :: l →
  ∃ n v w, vs s = ((n, x) :: v) :: w ∧ l = (concat (v :: w)).*2.
Proof.
  intros [_ Hsides] E. destruct (Hsides s) as [_ Hne]. rewrite flat_side in E.
  destruct (vs s) as [|v w]; [done|]. apply Forall_cons in Hne as [Hv _].
  destruct v as [|[n o] v]; [done|]. simpl in E. simplify_eq. by exists n, v, w.
Qed.

Lemma flat_length vs : length (sb_orders (flat vs)) = length (all vs).
Proof. rewrite flat_orders. apply length_fmap. Qed.

Lemma match_loop_ok fuel b vs fs :
  book_ok b vs fs → (length (all vs) < fuel)%nat →
  ∃ b' vs' fs', match_loop fuel b = Ret ((sp_match fuel (flat vs)).1, b') ∧ book_ok b' vs' fs' ∧
    flat vs' = (sp_match fuel (flat vs)).2.
Proof.
  revert b vs fs. induction fuel as [|fuel IH]; intros b vs fs Hok Hf; [lia|].
  cbn [match_loop sp_match].
  assert (∀ r, match_iter b = Ret Stop → r = ([], flat vs) →
    ∃ b' vs' fs', (st ← match_iter b;
      match st with
      | Stop => Ret ([], b)
      | Skip b' => match_loop fuel b'
      | Traded t b' => '(ts, b'') ← match_loop fuel b'; Ret (t :: ts, b'')
      end) = Ret (r.1, b') ∧ book_ok b' vs' fs' ∧ flat vs' = r.2) as Hstop.
  { intros r -> ->. exists b, vs, fs. by split_and!. }
  destruct (sb_bids (flat vs)) as [|bo bs] eqn:Eb.
  { apply Hstop; [|done]. eapply match_iter_stop; [done|]. intros * E. by rewrite Eb in E. }
  destruct (sb_asks (flat vs)) as [|ao as_] eqn:Ea.
  { apply Hstop; [|done]. eapply match_iter_stop; [done|]. intros * _ E. by rewrite Ea in E. }
  destruct (Z.ltb_spec (o_price bo) (o_price ao)) as [Hlt|Hge].
  { apply Hstop; [|done]. eapply match_iter_stop; [done|]. intros * E1 E2. rewrite Eb in E1. rewrite Ea in E2. by simplify_eq. }
  clear Hstop.
  destruct (book_side_front b vs fs buy bo bs Hok Eb) as (bn & bv & bw & Evb & ->).
  destruct (book_side_front b vs fs sell ao as_ Hok Ea) as (an & av & aw & Eva & ->).
  destruct (match_iter_traded b vs fs bn bo bv bw an ao av aw Hok Evb Eva Hge)
    as (b1 & vs1 & fs1 & -> & Hok1 & Efl). tt_bind. rewrite <- Efl.
  destruct (IH b1 vs1 fs1 Hok1) as (b2 & vs2 & fs2 & -> & Hok2 & E2).
  { rewrite <- flat_length, sb_orders_length in Hf |- *. rewrite Efl. rewrite Eb, Ea in Hf.
    cbn [sb_bids sb_asks]. rewrite !length_cons in Hf.
    pose proof (take_from_shrinks bo (concat (bv :: bw)).*2 ao (concat (av :: aw)).*2) as Hs.
    cbv zeta in Hs. lia. }
  tt_bind. exists b2, vs2, fs2. split_and!; [|done|].
  - by destruct (sp_match fuel (flat vs1)).
  - by destruct (sp_match fuel (flat vs1)).
Qed.

(** ** Dropping an immediate order that is left *)

Lemma refines_ok b vs fs : book_ok b vs fs → sb_ok (flat vs).
Proof.
  intros [Hcore Hsides]. split; [by eapply flat_nodup|]. intros s. rewrite flat_side.
  destruct (Hsides s) as [[HF Hs] _]. clear Hsides. split.
  - apply Forall_forall. intros x (y & -> & Hy)%list_elem_of_fmap. destruct y as [n o].
    by eapply (side_order_ok (ob_heap b) s (levels_of s b) (vs s) n).
  - induction HF as [|lv v lvs ws [_ Hv] HF IH]; [constructor|].
    apply prices_sorted_cons in Hs as [Hs Hlt]. simpl. rewrite fmap_app.
    assert (Forall (λ x, o_price x = lv_price lv) v.*2) as Hvp.
    { rewrite Forall_fmap. eapply Forall_impl; [exact Hv|]. by intros x [? _]. }
    clear Hv. induction Hvp as [|x l Hx Hl IHl]; simpl; [by apply IH|]. constructor; [done|].
    apply Forall_app. split.
    + eapply Forall_impl; [exact Hl|]. intros y Hy. unfold priority. simpl in Hy.
      rewrite Hx, Hy. apply better_irrefl.
    + apply Forall_forall. intros y Hy. destruct (levels_prices _ _ _ _ _ HF Hy) as (l' & Hl' & E).
      rewrite Forall_forall in Hlt. unfold priority. rewrite E, Hx. by apply better_asym, Hlt.
Qed.

Lemma sp_cancel_head s o l sb :
  NoDup (sb_ids sb) → sb_side s sb = o :: l → sp_cancel (o_id o) sb = sb_set s l sb.
Proof.
  intros Hnd E. rewrite (sp_cancel_side s); [|done|rewrite E; left]. rewrite E. f_equal.
  apply (sp_drop_split o []). simpl. unfold sb_ids in Hnd.
  rewrite (sb_orders_side s), fmap_app, E in Hnd. by apply NoDup_app in Hnd as [? _].
Qed.

Lemma sb_set_id s sb : sb_set s (sb_side s sb) sb = sb.
Proof. by destruct s, sb. Qed.

Lemma cancel_aggressive_ok fuel s b vs fs :
  book_ok b vs fs →
  ∃ b' vs' fs', cancel_aggressive (S fuel) s b = Ret b' ∧ book_ok b' vs' fs' ∧
    flat vs' = sb_set s (sp_kill (sb_side s (flat vs))) (flat vs).
Proof.
  intros Hok. cbn [cancel_aggressive]. pose proof Hok as [Hcore Hsides].
  destruct (sb_side s (flat vs)) as [|o l] eqn:E.
  - pose proof (sb_set_id s (flat vs)) as Eid. rewrite E in Eid.
    destruct (Hsides s) as [[HF _] Hne]. rewrite flat_side in E.
    destruct HF as [|lv v lvs ws _ _].
    + by exists b, vs, fs.
    + exfalso. apply Forall_cons in Hne as [Hv _]. by destruct v.
  - destruct (book_side_front b vs fs s o l Hok E) as (n & v & w & Evs & El).
    destruct (Hsides s) as [[HF _] _]. pose proof HF as HF'. rewrite Evs in HF'.
    apply Forall2_cons_inv_r in HF' as (lv & rest & [(_ & Hh & _) _] & _ & Elv).
    rewrite Elv, Hh. cbn [first_or fst].
    assert ((n, o) ∈ all vs) as Hin by (apply elem_of_all; exists s; rewrite Evs; left).
    assert (order_of (ob_heap b) n = Ret o) as ->
      by (eapply level_order; [exact HF|]; rewrite Evs; left).
    tt_bind. rewrite (map_lookup_order b vs fs n o Hcore Hin), bool_decide_false by done.
    destruct (cancel_found b vs fs n o Hok Hin) as (b' & vs' & Ec & Hok' & Ef).
    cbn [sp_kill]. unfold is_immediate. destruct (o_type o) eqn:Et; simpl.
    + exists b, vs, fs. split_and!; try done. rewrite <- E. by rewrite sb_set_id.
    + exists b', vs', (n :: fs). split_and!; try done. rewrite Ef.
      by apply sp_cancel_head; [eapply flat_nodup|].
    + exists b', vs', (n :: fs). split_and!; try done. rewrite Ef.
      by apply sp_cancel_head; [eapply flat_nodup|].
Qed.

Lemma match_orders_ok b vs fs :
  book_ok b vs fs →
  ∃ b' vs' fs', match_orders b = Ret ((sp_settle (flat vs)).1, b') ∧ book_ok b' vs' fs' ∧
    flat vs' = (sp_settle (flat vs)).2.
Proof.
  intros Hok. unfold match_orders.
  destruct (match_loop_ok (S (size (order_map b))) b vs fs Hok) as (b1 & vs1 & fs1 & -> & Hok1 & E1).
  { rewrite (map_size b vs fs (proj1 Hok)). lia. }
  tt_bind. rewrite sp_match_enough in E1 |- *
    by (rewrite flat_length, (map_size b vs fs (proj1 Hok)); lia).
  destruct (cancel_aggressive_ok (size (order_map b1)) buy b1 vs1 fs1 Hok1)
    as (b2 & vs2 & fs2 & -> & Hok2 & E2). tt_bind.
  destruct (cancel_aggressive_ok (size (order_map b2)) sell b2 vs2 fs2 Hok2)
    as (b3 & vs3 & fs3 & -> & Hok3 & E3). tt_bind.
  exists b3, vs3, fs3. unfold sp_settle. destruct (sp_match_all (flat vs)) as [ts sb1].
  split_and!; try done. rewrite E3, E2, E1. done.
Qed.

(** ** add_order *)

Lemma can_match_ok b vs fs o :
  book_ok b vs fs → can_match (o_side o) (o_price o) b = sp_crosses o (flat vs).
Proof.
  intros [_ Hsides]. unfold sp_crosses. rewrite flat_side.
  assert (∀ s, match levels_of s b with [] => concat (vs s) = []
    | lv :: _ => ∃ n x r, concat (vs s) = (n, x) :: r ∧ o_price x = lv_price lv end) as Hfront.
  { intros s. destruct (Hsides s) as [[HF _] Hne]. destruct HF as [|lv v lvs ws [_ Hv] _]; [done|].
    apply Forall_cons in Hne as [Hv0 _]. destruct v as [|[n x] v]; [done|].
    apply Forall_cons in Hv as [[Ep _] _]. simpl in *. eauto. }
  specialize (Hfront (opposite (o_side o))).
  destruct (o_side o); cbn [can_match opposite levels_of crosses] in *.
  - destruct (ask_levels b); [by rewrite Hfront|]. destruct Hfront as (n & x & r & -> & E).
    simpl. by rewrite E.
  - destruct (bid_levels b); [by rewrite Hfront|]. destruct Hfront as (n & x & r & -> & E).
    simpl. by rewrite E.
Qed.

Lemma crossing_qty_app s price l1 l2 :
  crossing_qty s price (l1 ++ l2) = crossing_qty s price l1 + crossing_qty s price l2.
Proof. unfold crossing_qty. by rewrite filter_app, fmap_app, sum_Z_app. Qed.

Lemma crossing_qty_level s price p v :
  Forall (λ x, o_price x.2 = p) v →
  crossing_qty s price v.*2 = if crosses s price p then total v else 0.
Proof.
  induction 1 as [|x v Hx _ IH]; [simpl; by case_match|].
  rewrite fmap_cons, crossing_qty_cons, Hx, IH, total_cons. by case_match.
Qed.

Lemma available_ok h s' s price acc lvs ws :
  Forall2 (level_ok h s') lvs ws → in_u 64 acc →
  available s price acc lvs = u64 (acc + crossing_qty s price (concat ws).*2).
Proof.
  intros HF. revert acc. induction HF as [|lv v lvs ws [(_ & _ & _ & Ht) Hv] HF IH]; intros acc Ha; simpl.
  - rewrite Z.add_0_r. by rewrite wrapu_id.
  - rewrite fmap_app, crossing_qty_app, (crossing_qty_level s price (lv_price lv)).
    2:{ eapply Forall_impl; [exact Hv|]. by intros x [? _]. }
    destruct (crosses s price (lv_price lv)).
    + rewrite IH by (apply wrapu_range; lia). rewrite Ht, wrapu_add_l.
      rewrite <- Z.add_assoc, Z.add_comm, <- Z.add_assoc, wrapu_add_l. f_equal. lia.
    + by rewrite IH.
Qed.

Lemma add_order_ok o b vs fs :
  book_ok b vs fs → in_u 64 (o_remaining o) →
  ∃ b' vs' fs', add_order o b = Ret ((sp_add o (flat vs)).1, b') ∧ book_ok b' vs' fs' ∧
    flat vs' = (sp_add o (flat vs)).2.
Proof.
  intros Hok Hr. unfold add_order, sp_add.
  assert (order_map b !! o_id o = None ↔ o_id o ∉ sb_ids (flat vs)) as Hmap.
  { unfold sb_ids. rewrite flat_orders. by eapply map_lookup_none, Hok. }
  case_bool_decide as Hin.
  { exists b, vs, fs. rewrite bool_decide_true; [done|].
    destruct (decide (o_id o ∈ sb_ids (flat vs))); [done|]. apply Hmap in n. rewrite n in Hin.
    by destruct Hin. }
  assert (o_id o ∉ sb_ids (flat vs)) as Hni by (by apply Hmap, eq_None_not_Some).
  rewrite (bool_decide_false (o_id o ∈ _)) by done.
  assert (∃ b' vs' fs', (b1 ← rest_order o b; match_orders b1) =
    Ret ((sp_settle (sp_rest o (flat vs))).1, b') ∧ book_ok b' vs' fs' ∧
    flat vs' = (sp_settle (sp_rest o (flat vs))).2) as Hgo.
  { destruct (rest_order_ok o b vs fs Hok) as (b1 & vs1 & fs1 & -> & Hok1 & E1 & _); [|done|].
    - unfold sb_ids in Hni. by rewrite flat_orders in Hni.
    - tt_bind. rewrite <- E1. by apply (match_orders_ok b1 vs1 fs1). }
  assert (available (o_side o) (o_price o) 0 (levels_of (opposite (o_side o)) b) =
          u64 (sp_available o (flat vs))) as Eav.
  { destruct Hok as [_ Hsides]. destruct (Hsides (opposite (o_side o))) as [[HF _] _].
    rewrite (available_ok _ _ _ _ _ _ _ HF) by (apply in_u_0; lia).
    unfold sp_available. by rewrite flat_side. }
  rewrite (can_match_ok b vs fs o Hok), Eav. unfold sp_accepts.
  destruct (o_type o); simpl.
  - exact Hgo.
  - destruct (sp_crosses o (flat vs)); simpl; [|by exists b, vs, fs].
    destruct (u64 (sp_available o (flat vs)) <? o_remaining o); simpl; [by exists b, vs, fs|exact Hgo].
  - destruct (sp_crosses o (flat vs)); simpl; [exact Hgo|by exists b, vs, fs].
Qed.

(** ** match_order and modify_order *)

Lemma find_mapped b vs fs id n :
  book_ok b vs fs → order_map b !! id = Some n →
  ∃ o, (n, o) ∈ all vs ∧ o_id o = id ∧ order_of (ob_heap b) n = Ret o ∧
    sp_find id (flat vs) = Some o.
Proof.
  intros Hok E. pose proof Hok as [Hcore Hsides].
  destruct (map_lookup_some b vs fs id n Hcore E) as (o & Hin & Hid). exists o. split_and!; try done.
  - destruct (Hsides (o_side o)) as [[HF _] _]. eapply level_order; [exact HF|].
    by eapply book_order_side.
  - apply sp_find_spec; [by eapply flat_nodup| |done]. rewrite flat_orders.
    apply list_elem_of_fmap. by exists (n, o).
Qed.

Lemma find_unmapped b vs fs id :
  book_ok b vs fs → order_map b !! id = None → sp_find id (flat vs) = None.
Proof.
  intros [Hcore _] E. apply sp_find_none. unfold sb_ids. rewrite flat_orders.
  by apply (map_lookup_none b vs fs id Hcore).
Qed.

Lemma match_order_ok m b vs fs :
  book_ok b vs fs → in_u 64 (om_quantity m) →
  ∃ b' vs' fs', match_order m b = Ret ((sp_match_order m (flat vs)).1, b') ∧ book_ok b' vs' fs' ∧
    flat vs' = (sp_match_order m (flat vs)).2.
Proof.
  intros Hok Hq. unfold match_order, sp_match_order. destruct (order_map b !! om_id m) as [n|] eqn:E.
  - destruct (find_mapped b vs fs _ n Hok E) as (o & Hin & Hid & -> & ->). tt_bind.
    destruct (cancel_order_ok (om_id m) b vs fs Hok) as (b1 & vs1 & fs1 & -> & Hok1 & <-). tt_bind.
    by apply (add_order_ok _ b1 vs1 fs1).
  - rewrite (find_unmapped b vs fs _ Hok E). by exists b, vs, fs.
Qed.

Lemma book_ok_ext b b' vs fs :
  book_ok b vs fs → ob_nodes b' = ob_nodes b → order_map b' = order_map b →
  (∀ s, levels_of s b' = levels_of s b) → book_ok b' vs fs.
Proof.
  intros [Hcore Hsides] E1 E2 E3. split; [by eapply core_ext|].
  intros s. unfold ob_heap. rewrite E1, E3. apply Hsides.
Qed.

(** Creating an order only touches the pool. *)
Lemma create_order_ok t id s p q b vs fs :
  book_ok b vs fs →
  ∃ r b', create_order t id s p q b = (r, b') ∧ book_ok b' vs fs ∧
    (r = Ret (mk_order t id s p q) ∨ ∃ w, r = Throw w).
Proof.
  intros Hok. unfold create_order.
  assert (book_ok (ensure_order_pool_ready b) vs fs) as Hok1.
  { unfold ensure_order_pool_ready. destruct (ob_pool_ready b); [done|].
    eapply book_ok_ext; [exact Hok|done|done|by intros []]. }
  destruct (pool_acquire _) as [r pl]. eexists _, _. split; [done|]. split.
  - eapply book_ok_ext; [exact Hok1|done|done|by intros []].
  - destruct r; [by left|right; eauto].
Qed.

Lemma not_in_cancelled id sb : id ∉ sb_ids (sp_cancel id sb).
Proof.
  unfold sb_ids, sb_orders, sp_cancel. simpl. intros (x & Ex & Hx)%list_elem_of_fmap.
  apply elem_of_app in Hx as [Hx|Hx]; apply list_elem_of_filter in Hx as [? _]; by subst.
Qed.

Lemma modify_order_ok id price q b vs fs :
  book_ok b vs fs → in_u 64 q →
  match sp_find id (flat vs) with
  | None => modify_order id price q b = (Ret false, b)
  | Some o => ∃ b1 r b' vs' fs', cancel_order id b = Ret b1 ∧
      modify_order id price q b = (r, b') ∧ book_ok b' vs' fs' ∧
      match (create_order (o_type o) id (o_side o) price q b1).1 with
      | Ret _ => r = Ret true ∧ flat vs' = sp_modify o price q (flat vs)
      | Throw w => r = Throw w ∧ flat vs' = sp_cancel id (flat vs)
      end
  end.
Proof.
  intros Hok Hq. unfold modify_order. destruct (order_map b !! id) as [n|] eqn:E.
  - destruct (find_mapped b vs fs id n Hok E) as (o & Hin & Hid & -> & ->). cbn [lift].
    destruct (cancel_order_ok id b vs fs Hok) as (b1 & vs1 & fs1 & -> & Hok1 & E1). cbn [lift].
    destruct (create_order_ok (o_type o) id (o_side o) price q b1 vs1 fs1 Hok1)
      as (r & b2 & Ec & Hok2 & Hr). exists b1. rewrite Ec. cbn [fst].
    destruct Hr as [->|[w ->]].
    + destruct (rest_order_ok (mk_order (o_type o) id (o_side o) price q) b2 vs1 fs1 Hok2)
        as (b3 & vs3 & fs3 & -> & Hok3 & E3 & _).
      { rewrite <- flat_orders, E1. apply not_in_cancelled. }
      { done. }
      cbn [lift]. exists (Ret true), b3, vs3, fs3. split_and!; try done.
      rewrite E3, E1. unfold sp_modify. by rewrite Hid.
    + by exists (Throw w), b2, vs1, fs1.
  - by rewrite (find_unmapped b vs fs id Hok E).
Qed.

(** ** clear *)

Lemma free_all_ok ns b fs :
  pool_ok (ob_nodes b) fs → NoDup (ns.*2 ++ fs) → (∀ p, p ∈ ns.*2 ++ fs → p ∈ dom (ob_heap b)) →
  ∃ b' fs', free_all ns b = Ret b' ∧ pool_ok (ob_nodes b') fs' ∧ fs' ≡ₚ ns.*2 ++ fs ∧
    dom (ob_heap b') = dom (ob_heap b).
Proof.
  revert b fs. induction ns as [|[k n] ns IH]; intros b fs Hpool Hnd Hdom; simpl in *.
  { by exists b, fs. }
  apply NoDup_cons in Hnd as [Hn Hnd]. apply not_elem_of_app in Hn as [Hn1 Hn2].
  destruct (ob_free_node_spec b fs n Hpool) as (b1 & -> & Hpool1 & Hdom1 & _); [|done|].
  { apply Hdom. left. }
  tt_bind. destruct (IH b1 (n :: fs) Hpool1) as (b2 & fs2 & -> & Hpool2 & Hp & Hdom2).
  - rewrite <- Permutation_middle. constructor; [|done]. rewrite elem_of_app. tauto.
  - intros p. rewrite <- Permutation_middle, Hdom1. apply Hdom.
  - exists b2, fs2. split_and!; try done; [by rewrite Hp, <- Permutation_middle|by rewrite Hdom2].
Qed.

Context (iterate : gmap Z Z → list (Z * Z)).
Context (iterate_perm : ∀ m, iterate m ≡ₚ map_to_list m).

Lemma clear_ok b vs fs :
  book_ok b vs fs →
  ∃ b' vs' fs', clear iterate b = Ret b' ∧ book_ok b' vs' fs' ∧ flat vs' = empty_book.
Proof.
  intros [Hcore _]. pose proof Hcore as (Hnd & Hpool & Hdom & Hids & Hmap). unfold clear.
  assert ((iterate (order_map b)).*2 ≡ₚ addrs (all vs)) as Hp.
  { rewrite iterate_perm, Hmap, map_to_list_to_map by (by rewrite entries_keys).
    unfold entries, addrs. by rewrite <- list_fmap_compose. }
  destruct (free_all_ok (iterate (order_map b)) b fs Hpool) as (b1 & fs1 & -> & Hpool1 & Hp1 & Hdom1).
  { by rewrite Hp. } { intros p. rewrite Hp. apply Hdom. }
  tt_bind. eexists _, (λ _, []), fs1. split; [done|]. split; [split|done].
  - split_and!; try done.
    + simpl. rewrite Hp1, Hp. done.
    + intros p. simpl. rewrite Hp1, Hp. unfold ob_heap in *. simpl. rewrite Hdom1. apply Hdom.
    + constructor.
  - intros s. unfold levels_of. destruct s; simpl; (split; [split|]); constructor.
Qed.

(** ** Level-2 data *)

Lemma rest_new_ok s price q w vs fs :
  book_ok (w_book w) vs fs → w_ids w ∉ sb_ids (flat vs) → in_u 64 q →
  ∃ r w' vs' fs', rest_new s price q w = (r, w') ∧ book_ok (w_book w') vs' fs' ∧
    w_ids w' = u64 (w_ids w + 1) ∧
    ((r = Ret () ∧ flat vs' = sp_rest (mk_order good_till_cancel (w_ids w) s price q) (flat vs)) ∨
     ((∃ e, r = Throw e) ∧ flat vs' = flat vs)).
Proof.
  intros Hok Hni Hq. unfold rest_new. cbn [next_order_id].
  destruct (create_order_ok good_till_cancel (w_ids w) s price q (w_book w) vs fs Hok)
    as (r & b1 & -> & Hok1 & [->|[e ->]]).
  - destruct (rest_order_ok (mk_order good_till_cancel (w_ids w) s price q) b1 vs fs Hok1)
      as (b2 & vs2 & fs2 & -> & Hok2 & E2 & _); [|done|].
    { unfold sb_ids in Hni. by rewrite flat_orders in Hni. }
    eexists _, _, vs2, fs2. split; [done|]. split_and!; try done. by left.
  - eexists _, _, vs, fs. split; [done|]. split_and!; try done. right. eauto.
Qed.

Lemma sp_rest_ids o sb : sb_ids (sp_rest o sb) ≡ₚ o_id o :: sb_ids sb.
Proof. unfold sb_ids. by rewrite sp_rest_orders. Qed.

(** All ids of the book are below the counter. *)
Definition ids_below (c : Z) (sb : sbook) : Prop := ∀ id, id ∈ sb_ids sb → id < c.

Lemma snapshot_side_ok s l w vs fs :
  book_ok (w_book w) vs fs → ids_below (w_ids w) (flat vs) → Forall (λ x, in_u 64 x.2) l →
  0 <= w_ids w → w_ids w + Z.of_nat (length l) < 2 ^ 64 →
  ∃ r w' vs' fs', snapshot_side s l w = (r, w') ∧ book_ok (w_book w') vs' fs' ∧
    ids_below (w_ids w') (flat vs') ∧ w_ids w <= w_ids w' <= w_ids w + Z.of_nat (length l) ∧
    ((r = Ret () ∧ sp_snapshot s l (w_ids w) (flat vs) = (flat vs', w_ids w')) ∨ ∃ e, r = Throw e).
Proof.
  revert w vs fs. induction l as [|[p q] l IH]; intros w vs fs Hok Hids Hq Hc Hw; simpl.
  { exists (Ret ()), w, vs, fs. split_and!; try done; try lia. by left. }
  apply Forall_cons in Hq as [Hq1 Hq]. simpl in Hq1. simpl length in Hw. destruct (q =? 0) eqn:E0.
  { destruct (IH w vs fs) as (r & w' & vs' & fs' & ? & ? & ? & ? & ?); try done; [lia|].
    exists r, w', vs', fs'. split_and!; try done; lia. }
  destruct (rest_new_ok s p q w vs fs Hok) as (r & w1 & vs1 & fs1 & -> & Hok1 & Ec & Hr); [|done|].
  { intros Hin. apply Hids in Hin. lia. }
  rewrite wrapu_id in Ec by (unfold in_u; lia).
  destruct Hr as [[-> E1]|[[e ->] E1]].
  - destruct (IH w1 vs1 fs1) as (r & w2 & vs2 & fs2 & -> & Hok2 & Hids2 & Hle & Hr2); try done.
    + intros id. rewrite E1, sp_rest_ids, Ec. intros [->|Hin%Hids]%elem_of_cons; simpl; lia.
    + lia.
    + lia.
    + exists r, w2, vs2, fs2. rewrite <- Ec, <- E1. split_and!; try done; lia.
  - exists (Throw e), w1, vs1, fs1. split_and!; try done; try lia; [|eauto].
    intros id. rewrite E1, Ec. intros Hin%Hids. lia.
Qed.

Lemma apply_l2_snapshot_ok bids asks w vs fs :
  book_ok (w_book w) vs fs → Forall (λ x, in_u 64 x.2) bids → Forall (λ x, in_u 64 x.2) asks →
  0 <= w_ids w → w_ids w + Z.of_nat (length bids + length asks) < 2 ^ 64 →
  ∃ r w' vs' fs', apply_l2_snapshot iterate bids asks w = (r, w') ∧ book_ok (w_book w') vs' fs' ∧
    ids_below (w_ids w') (flat vs') ∧ w_ids w <= w_ids w' ∧
    ((∃ e, r = Throw e) ∨
     (r = Ret () ∧ let '(sb, c) := sp_snapshot buy bids (w_ids w) empty_book in
      sp_snapshot sell asks c sb = (flat vs', w_ids w'))).
Proof.
  intros Hok Hb Ha Hc Hw. unfold apply_l2_snapshot.
  destruct (clear_ok (w_book w) vs fs Hok) as (b0 & vs0 & fs0 & -> & Hok0 & E0).
  destruct (snapshot_side_ok buy bids {| w_book := b0; w_ids := w_ids w |} vs0 fs0)
    as (r & w1 & vs1 & fs1 & -> & Hok1 & Hids1 & Hle1 & Hr1); try done.
  { intros id. rewrite E0. by intros ?%not_elem_of_nil. } { simpl. lia. }
  cbn [w_ids] in *. destruct Hr1 as [[-> E1]|[e ->]].
  - destruct (snapshot_side_ok sell asks w1 vs1 fs1)
      as (r & w2 & vs2 & fs2 & -> & Hok2 & Hids2 & Hle2 & Hr2); try done; [lia|lia|].
    exists r, w2, vs2, fs2. split_and!; try done; [lia|]. rewrite <- E0, E1. destruct Hr2; eauto.
  - exists (Throw e), w1, vs1, fs1. split_and!; try done; [lia|]. eauto.
Qed.

Lemma empty_level_ok fuel s b vs fs l1 lv l2 w1 v w2 :
  core b vs fs → vs s = w1 ++ v :: w2 → levels_of s b = l1 ++ lv :: l2 →
  side_weak (ob_heap b) s (l1 ++ lv :: l2) (vs s) → length l1 = length w1 → (length v < fuel)%nat →
  ∃ b' fs' lv', empty_level fuel s (length l1) b = Ret b' ∧
    core b' (upd s (w1 ++ [] :: w2) vs) fs' ∧ levels_of s b' = l1 ++ lv' :: l2 ∧
    lv_price lv' = lv_price lv ∧ side_weak (ob_heap b') s (l1 ++ lv' :: l2) (w1 ++ [] :: w2) ∧
    levels_of (opposite s) b' = levels_of (opposite s) b ∧
    (∀ p, p ∈ addrs (concat (vs (opposite s))) → ob_heap b' !! p = ob_heap b !! p).
Proof.
  revert b vs fs lv v. induction fuel as [|fuel IH]; intros b vs fs lv v Hcore Evs Elv Hw Hlen Hf; [lia|].
  cbn [empty_level]. rewrite Elv, list_lookup_middle by done.
  assert (lv_head lv = first_or v None) as Hh.
  { destruct Hw as [HF _]. rewrite Evs in HF. apply Forall2_app_inv in HF as [_ HF]; [|done].
    by apply Forall2_cons in HF as [[(_ & ? & _) _] _]. }
  rewrite Hh. destruct v as [|[n o] v]; cbn [first_or fst].
  { exists b, fs, lv. split; [done|]. rewrite <- Evs. split_and!; try done.
    eapply core_ext; [exact Hcore| |done|done]. by rewrite all_upd, (all_split s vs). }
  destruct (take_out s b vs fs l1 lv l2 w1 [] n o v w2 Hcore Evs Hw Hlen)
    as (h & lv' & -> & Eo & _ & Hprice & Hfree). tt_bind. rewrite Eo. tt_bind.
  rewrite list_insert_middle.
  set (b1 := set_levels s (l1 ++ lv' :: l2) (set_heap h b)).
  destruct (Hfree (set_map (delete (o_id o) (order_map b1)) b1))
    as (b2 & -> & Hlv2 & Hcore2 & _ & Hw2 & Hopp2); [done|done|]. tt_bind.
  set (vs2 := upd s (w1 ++ ([] ++ v) :: w2) vs) in *.
  destruct (IH b2 vs2 (n :: fs) lv' v) as (b3 & fs3 & lv3 & -> & Hcore3 & Elv3 & Hp3 & Hw3 & Hopp3 & Hh3);
    try done.
  - unfold vs2. by rewrite upd_same.
  - rewrite Hlv2, levels_set_map. unfold b1. by rewrite levels_set_same.
  - unfold vs2. by rewrite upd_same.
  - simpl in Hf. lia.
  - exists b3, fs3, lv3. split; [done|]. unfold vs2 in Hh3, Hcore3. rewrite upd_opposite in Hh3.
    split_and!; try done.
    + eapply core_ext; [exact Hcore3| |done|done]. by rewrite !all_upd, upd_opposite.
    + by rewrite Hp3.
    + rewrite Hopp3, Hlv2, levels_set_map. unfold b1. rewrite levels_set_opposite. by destruct s.
    + intros p Hp. rewrite Hh3 by done. by apply Hopp2.
Qed.

Lemma level_at_none price lvs : level_at price lvs = None → Forall (λ l, lv_price l ≠ price) lvs.
Proof.
  induction lvs as [|lv lvs IH]; simpl; [done|]. destruct (Z.eqb_spec (lv_price lv) price); [done|].
  intros E. constructor; [done|]. apply IH. by destruct (level_at price lvs).
Qed.

Lemma level_at_some price lvs i :
  level_at price lvs = Some i → ∃ l1 lv l2, lvs = l1 ++ lv :: l2 ∧ i = length l1 ∧ lv_price lv = price.
Proof.
  revert i. induction lvs as [|lv lvs IH]; simpl; intros i; [done|].
  destruct (Z.eqb_spec (lv_price lv) price); [intros [= <-]; by exists [], lv, lvs|].
  destruct (level_at price lvs) as [j|]; [|done]. intros [= <-].
  destruct (IH j eq_refl) as (l1 & lv' & l2 & -> & -> & E). by exists (lv :: l1), lv', l2.
Qed.

Lemma wipe_absent h s lvs ws price :
  Forall2 (level_ok h s) lvs ws → Forall (λ l, lv_price l ≠ price) lvs →
  filter (λ o, o_price o ≠ price) (concat ws).*2 = (concat ws).*2.
Proof.
  intros HF Hp. apply filter_all. intros x Hx.
  destruct (levels_prices _ _ _ _ _ HF Hx) as (lv & Hlv & ->). rewrite Forall_forall in Hp. by apply Hp.
Qed.

Lemma sorted_others s l1 lv l2 :
  prices_sorted s (l1 ++ lv :: l2) →
  Forall (λ l, lv_price l ≠ lv_price lv) l1 ∧ Forall (λ l, lv_price l ≠ lv_price lv) l2.
Proof.
  intros (_ & Hs2 & Hlt)%prices_sorted_app. apply prices_sorted_cons in Hs2 as [_ Hs2].
  rewrite !Forall_forall in *. split; intros x Hx E.
  - specialize (Hlt x lv Hx (list_elem_of_here _ _)). by rewrite E, better_irrefl in Hlt.
  - specialize (Hs2 x Hx). by rewrite E, better_irrefl in Hs2.
Qed.

(** The level at a price, emptied and dropped. *)
Lemma wipe_ok s price b vs fs :
  book_ok b vs fs →
  ∃ b1 b2 vs' fs',
    (match level_at price (levels_of s b) with
     | None => Ret b
     | Some i => empty_level (S (size (order_map b))) s i b
     end) = Ret b1 ∧
    b2 = set_levels s (remove_level_if_empty (levels_of s b1) price) b1 ∧
    book_ok b2 vs' fs' ∧ flat vs' = sp_wipe s price (flat vs).
Proof.
  intros Hok. pose proof Hok as [Hcore Hsides]. destruct (Hsides s) as [Hw Hne]. unfold sp_wipe.
  destruct (level_at price (levels_of s b)) as [i|] eqn:E.
  - destruct (level_at_some _ _ _ E) as (l1 & lv & l2 & El & -> & <-). rewrite El in Hw.
    pose proof Hw as [HF Hs]. pose proof HF as (w1 & wr & HF1 & HFr & Evs)%Forall2_app_inv_l.
    apply Forall2_cons_inv_l in HFr as (v & w2 & [_ Hv] & HF2 & ->).
    pose proof (Forall2_length _ _ _ HF1) as Hlen. rewrite Evs in Hne.
    apply Forall_app in Hne as [Hne1 [_ Hne2]%Forall_cons].
    destruct (empty_level_ok (S (size (order_map b))) s b vs fs l1 lv l2 w1 v w2)
      as (b1 & fs1 & lv' & -> & Hcore1 & Elv1 & Hprice & Hw1 & Hopp1 & Hh1); try done.
    { rewrite (map_size b vs fs Hcore), (Permutation_length (all_split s vs)), length_app, Evs, concat_app,
        length_app. simpl. rewrite length_app. lia. }
    eexists _, _, (upd s (w1 ++ w2) vs), fs1. split; [done|]. split; [done|]. split; [split|].
    + eapply core_ext; [exact Hcore1| |done|done]. rewrite !all_upd, !concat_app. done.
    + intros s'. destruct (side_cases s s') as [->| ->].
      * rewrite levels_set_same, upd_same, Elv1, <- Hprice.
        rewrite (remove_level_sorted s) by apply Hw1.
        apply (side_weak_drop _ _ l1 lv' l2 w1 [] w2); done.
      * rewrite levels_set_opposite, upd_opposite, Hopp1.
        eapply side_ok_frame; [|apply Hsides]. done.
    + rewrite flat_upd. f_equal. rewrite flat_side, Evs, !concat_app. simpl.
      destruct (sorted_others s l1 lv l2 Hs) as [Hp1 Hp2].
      rewrite !fmap_app, !filter_app, (wipe_absent _ _ _ _ _ HF1 Hp1), (wipe_absent _ _ _ _ _ HF2 Hp2).
      rewrite (filter_none _ v.*2); [done|]. intros x (y & -> & Hy)%list_elem_of_fmap.
      rewrite Forall_forall in Hv. destruct (Hv y Hy) as [-> _]. intros Hx. by apply Hx.
  - exists b, (set_levels s (remove_level_if_empty (levels_of s b) price) b), vs, fs.
    split; [done|]. split; [done|]. apply level_at_none in E. split.
    + eapply book_ok_ext; [exact Hok|done|done|]. intros s'.
      destruct (side_cases s s') as [->| ->]; [|by rewrite levels_set_opposite].
      rewrite levels_set_same. by apply remove_level_other.
    + rewrite flat_side, (wipe_absent _ _ _ _ _ (proj1 Hw) E). rewrite <- flat_side. by rewrite sb_set_id.
Qed.

Lemma wipe_ids s price sb id : id ∈ sb_ids (sp_wipe s price sb) → id ∈ sb_ids sb.
Proof.
  unfold sb_ids, sp_wipe. rewrite sb_set_orders, (sb_orders_side s sb), !fmap_app, !elem_of_app.
  intros [Hin|Hin]; [left|by right]. apply list_elem_of_fmap in Hin as (x & -> & [_ Hx]%list_elem_of_filter).
  by apply list_elem_of_fmap_2.
Qed.

Lemma apply_l2_update_ok s price q w vs fs :
  book_ok (w_book w) vs fs → in_u 64 q → w_ids w ∉ sb_ids (flat vs) →
  ∃ r w' vs' fs', apply_l2_update s price q w = (r, w') ∧ book_ok (w_book w') vs' fs' ∧
    w_ids w' = (if 0 <? q then u64 (w_ids w + 1) else w_ids w) ∧
    ((r = Ret () ∧ flat vs' = sp_update s price q (w_ids w) (flat vs)) ∨
     ((∃ e, r = Throw e) ∧ flat vs' = sp_wipe s price (flat vs))).
Proof.
  intros Hok Hq Hni. unfold apply_l2_update, sp_update.
  destruct (wipe_ok s price (w_book w) vs fs Hok) as (b1 & b2 & vs2 & fs2 & -> & <- & Hok2 & E2).
  cbv zeta. rewrite <- E2. destruct (0 <? q).
  - destruct (rest_new_ok s price q {| w_book := b2; w_ids := w_ids w |} vs2 fs2)
      as (r & w' & vs' & fs' & -> & Hok' & Ec & Hr); try done.
    { simpl. rewrite E2. intros Hin. by apply Hni, (wipe_ids s price). }
    exists r, w', vs', fs'. by split_and!.
  - eexists _, _, vs2, fs2. split; [done|]. split; [done|]. split; [done|]. by left.
Qed.

(** ** The level-2 view *)

Lemma level_infos_spec h s lvs ws price q :
  side_ok h s lvs ws →
  {| li_price := price; li_quantity := q |} ∈ level_infos lvs ↔
  q = u64 (foldr Z.add 0 (o_remaining <$> filter (λ o, o_price o = price) (concat ws).*2)) ∧ 0 < q.
Proof.
  intros [[HF Hs] _]. unfold level_infos. rewrite list_elem_of_omap.
  assert (∀ v p, Forall (λ x : Z * order, o_price x.2 = p) v →
    foldr Z.add 0 (o_remaining <$> filter (λ o, o_price o = price) v.*2) =
    if p =? price then total v else 0) as Hlev.
  { intros v p Hv. induction Hv as [|x v Hx _ IH]; [by case_match|].
    rewrite fmap_cons, filter_cons, Hx. rewrite total_cons.
    destruct (Z.eqb_spec p price); case_decide; try done.
    rewrite fmap_cons. cbn [foldr]. by rewrite IH. }
  induction HF as [|lv v lvs ws [(_ & _ & _ & Ht) Hv] HF IH].
  { split; [by intros (? & ?%not_elem_of_nil & _)|]. intros [-> Hq]. by vm_compute in Hq. }
  apply prices_sorted_cons in Hs as [Hs Hlt]. simpl concat.
  rewrite fmap_app, filter_app, fmap_app, sum_Z_app, (Hlev v (lv_price lv)).
  2:{ eapply Forall_impl; [exact Hv|]. by intros x [? _]. }
  destruct (Z.eqb_spec (lv_price lv) price) as [E|E].
  - assert (filter (λ o, o_price o = price) (concat ws).*2 = []) as ->.
    { apply filter_none. intros x Hx. destruct (levels_prices _ _ _ _ _ HF Hx) as (l & Hl & ->).
      rewrite Forall_forall in Hlt. specialize (Hlt l Hl). intros E'.
      by rewrite E, E', better_irrefl in Hlt. }
    simpl. rewrite Z.add_0_r, <- Ht. split.
    + intros (l & [->|Hl]%elem_of_cons & Hx).
      * destruct (Z.ltb_spec 0 (lv_total lv)); simplify_eq. done.
      * rewrite Forall_forall in Hlt. specialize (Hlt l Hl). rewrite E in Hlt.
        destruct (0 <? lv_total l); [|done]. injection Hx as E' _.
        by rewrite E', better_irrefl in Hlt.
    + intros [-> Hq]. exists lv. split; [left|].
      rewrite (proj2 (Z.ltb_lt _ _) Hq). by rewrite E.
  - rewrite Z.add_0_l, <- IH by done. split.
    + intros (l & [->|Hl]%elem_of_cons & Hx); [|eauto]. destruct (0 <? lv_total lv); simplify_eq.
    + intros (l & Hl & Hx). exists l. split; [by right|done].
Qed.

End Match.
