(* ===== verification/BookTheorems.v ===== *)
(** * Theorems on the order book

    What clients of class orderbook may rely on, stated on the operations of
    OrderBook.v.  [refines b sb] says that the book [b] is consistent and shows
    the abstract price-time book [sb]; a new book is empty, every operation
    keeps a book consistent, and the guarantees of the abstract book carry over. *)

From S2P Require Import Prelude NodeHeap OrderBook BookSpec BookRefine BookMatch.

Open Scope string_scope.
Open Scope list_scope.
Open Scope Z_scope.

Section Theorems.
Context {P : Type} `{OrderPool P}.
Implicit Types (b : orderbook P) (sb : sbook).

(** ** Consistency *)

Lemma new_book_refines (p : P) : refines (mk_orderbook p) empty_book.
Proof.
  exists (λ _, []), []. split; [|done]. split.
  - split_and!; try done; try apply NoDup_nil_2. by intros q ?%not_elem_of_nil.
  - intros []; simpl; (split; [split|]); constructor.
Qed.

Lemma refines_sb_ok b sb : refines b sb → sb_ok sb.
Proof. intros (vs & fs & Hok & <-). by eapply refines_ok. Qed.

(** The best prices the code sees are the best of the abstract book. *)
Lemma best_levels b sb s :
  refines b sb →
  match levels_of s b, sb_side s sb with
  | [], [] => True
  | lv :: _, o :: _ => lv_price lv = o_price o
  | _, _ => False
  end.
Proof.
  intros (vs & fs & [_ Hsides] & <-). rewrite flat_side. destruct (Hsides s) as [[HF _] Hne].
  destruct HF as [|lv v lvs ws [_ Hv] _]; [done|]. apply Forall_cons in Hne as [Hv0 _].
  destruct v as [|[n o] v]; [done|]. by apply Forall_cons in Hv as [[? _] _].
Qed.

(** The best bid is below the best ask. *)
Definition levels_uncrossed b : Prop :=
  match bid_levels b, ask_levels b with
  | bl :: _, al :: _ => lv_price bl < lv_price al
  | _, _ => True
  end.

Lemma levels_uncrossed_iff b sb : refines b sb → levels_uncrossed b ↔ uncrossed sb.
Proof.
  intros Hr. pose proof (best_levels b sb buy Hr) as Hb. pose proof (best_levels b sb sell Hr) as Ha.
  unfold levels_uncrossed, uncrossed. simpl in *.
  destruct (bid_levels b), (sb_bids sb); try done. destruct (ask_levels b), (sb_asks sb); try done.
  by rewrite Hb, Ha.
Qed.

(** C1: adding an order is exactly price-time priority matching.  On every
    consistent book [add_order] returns (it follows no bad pointer, throws
    nothing and its loops end), gives the trades of the abstract book in order,
    and leaves a consistent book that shows the abstract result. *)
Theorem add_order_refines o b sb :
  refines b sb → in_u 64 (o_remaining o) →
  ∃ b', add_order o b = Ret ((sp_add o sb).1, b') ∧ refines b' (sp_add o sb).2.
Proof.
  intros (vs & fs & Hok & <-) Hr.
  destruct (add_order_ok o b vs fs Hok Hr) as (b' & vs' & fs' & E & Hok' & <-).
  exists b'. split; [done|]. by exists vs', fs'.
Qed.

(** cancelling removes exactly the order with that id, whatever its place
    in its level, and nothing when there is none; the order of the others is
    kept, and levels, map and free list stay consistent. *)
Theorem cancel_order_refines id b sb :
  refines b sb → ∃ b', cancel_order id b = Ret b' ∧ refines b' (sp_cancel id sb).
Proof.
  intros (vs & fs & Hok & <-).
  destruct (cancel_order_ok id b vs fs Hok) as (b' & vs' & fs' & E & Hok' & <-).
  exists b'. split; [done|]. by exists vs', fs'.
Qed.

(** C27: matching terminates and leaves the best bid below the best ask, from
    any consistent book, crossed or not. *)
Theorem match_orders_uncrosses b sb :
  refines b sb →
  ∃ ts b', match_orders b = Ret (ts, b') ∧ levels_uncrossed b' ∧ Forall trade_fair ts.
Proof.
  intros (vs & fs & Hok & Hsb). pose proof (refines_ok b vs fs Hok) as Hsok.
  destruct (match_orders_ok b vs fs Hok) as (b' & vs' & fs' & E & Hok' & Ef).
  exists (sp_settle (flat vs)).1, b'. split; [done|]. split.
  - apply (levels_uncrossed_iff b' (flat vs')); [by exists vs', fs'|]. rewrite Ef.
    by apply sp_settle_uncrossed.
  - unfold sp_settle, sp_match_all.
    pose proof (sp_match_fair (length (sb_orders (flat vs))) (flat vs) (sb_ok_nonneg _ Hsok)) as Hf.
    by destruct (sp_match _ (flat vs)).
Qed.

(** quantity is conserved by [add_order].  On a book of resting orders with
    no crossing prices, for every order id on either side, what was resting
    before (the new order included) is what rests afterwards plus what the
    returned trades fill of that order. *)
Theorem add_order_conserves o b sb s id :
  refines b sb → sb_settled sb → in_u 64 (o_remaining o) → o_type o = good_till_cancel →
  o_id o ∉ sb_ids sb →
  ∃ ts b' sb', add_order o b = Ret (ts, b') ∧ refines b' sb' ∧
    qty_of id (sb_side s sb) + (if decide (o_side o = s ∧ o_id o = id) then o_remaining o else 0) =
    qty_of id (sb_side s sb') + filled_of s id ts.
Proof.
  intros (vs & fs & Hbook & <-) Hset Hr Ht Hid.
  destruct (add_order_ok o b vs fs Hbook Hr) as (b' & vs' & fs' & E & Hok' & Ef).
  exists (sp_add o (flat vs)).1, b', (flat vs'). split; [done|]. split; [by exists vs', fs'|].
  rewrite Ef. set (sb := flat vs) in *. clearbody sb.
  pose proof (sp_add_settled o sb Hset Hr) as (_ & _ & Hg').
  unfold sp_add in Hg' |- *. rewrite bool_decide_false in Hg' |- * by done.
  unfold sp_accepts in Hg' |- *. rewrite Ht in Hg' |- *. unfold sp_settle, sp_match_all in Hg' |- *.
  pose proof (sp_match_conserves (length (sb_orders (sp_rest o sb))) (sp_rest o sb) s id) as Hc.
  assert (gtc_only (sp_match (length (sb_orders (sp_rest o sb))) (sp_rest o sb)).2) as Hg.
  { destruct Hset as (Hok & _ & Hg). apply (gtc_only_shrunk (sp_rest o sb)).
    - intros s'. by apply sp_match_shrunk, sb_ok_nonneg, sp_rest_ok.
    - unfold gtc_only. rewrite sp_rest_orders. by constructor. }
  destruct (sp_match _ (sp_rest o sb)) as [ts sb1]. cbn [fst snd] in *.
  assert (∀ l, Forall (λ o, o_type o = good_till_cancel) l → sp_kill l = l) as Hkill.
  { intros l [|y l' Hy _]; [done|]. cbn. unfold is_immediate. by rewrite bool_decide_true. }
  apply Forall_app in Hg as [Hg1 Hg2]. rewrite !Hkill by done.
  assert (qty_of id (sb_side s (sp_rest o sb)) =
    qty_of id (sb_side s sb) + (if decide (o_side o = s ∧ o_id o = id) then o_remaining o else 0)) as Eq.
  { unfold sp_rest. rewrite sb_set_side. destruct (decide (s = o_side o)) as [->|Hs].
    - rewrite (qty_of_perm id _ _ (sp_insert_perm o _)), qty_of_cons.
      destruct (decide (o_id o = id)); [rewrite decide_True by done|rewrite decide_False by naive_solver]; lia.
    - rewrite (decide_False (P := _ ∧ _)) by naive_solver. lia. }
  rewrite <- Eq, Hc. by destruct s.
Qed.

(** immediate orders never rest.  On a settled book (resting orders only, no
    crossing prices) an immediate-or-cancel or fill-or-kill order trades what
    it can and leaves its own side exactly as it was; the book is settled
    again. *)
Theorem immediate_never_rests o b sb :
  refines b sb → sb_settled sb → in_u 64 (o_remaining o) → o_type o ≠ good_till_cancel →
  ∃ ts b' sb', add_order o b = Ret (ts, b') ∧ refines b' sb' ∧ sb_settled sb' ∧
    sb_side (o_side o) sb' = sb_side (o_side o) sb.
Proof.
  intros (vs & fs & Hbook & <-) Hset Hr Ht.
  destruct (add_order_ok o b vs fs Hbook Hr) as (b' & vs' & fs' & E & Hok' & Ef).
  eexists _, b', (flat vs'). split; [done|]. split; [by exists vs', fs'|]. rewrite Ef.
  split; [by apply sp_add_settled|]. apply sp_add_immediate; [done|done|].
  unfold is_immediate. by rewrite bool_decide_false.
Qed.

(** fill-or-kill is all or nothing.  On a settled book whose acceptable
    quantity does not overflow 64 bits, a fill-or-kill order either changes
    nothing and trades nothing, or trades exactly its quantity. *)
Theorem fill_or_kill_all_or_nothing o b sb :
  refines b sb → sb_settled sb → in_u 64 (o_remaining o) → o_type o = fill_or_kill →
  sp_available o sb < 2 ^ 64 →
  ∃ ts b' sb', add_order o b = Ret (ts, b') ∧ refines b' sb' ∧
    ((ts = [] ∧ sb' = sb) ∨ traded ts = o_remaining o).
Proof.
  intros (vs & fs & Hbook & <-) Hset Hr Ht Hav.
  destruct (add_order_ok o b vs fs Hbook Hr) as (b' & vs' & fs' & E & Hok' & Ef).
  eexists _, b', (flat vs'). split; [done|]. split; [by exists vs', fs'|]. rewrite Ef.
  destruct (sp_add_fill_or_kill o (flat vs)) as [->|[Hq _]]; try done; [by left|by right].
Qed.

(** [match_order] cancels and re-adds under the type of the order it
    replaces: the new order loses its time priority and may trade; an unknown
    id does nothing. *)
Theorem match_order_refines m b sb :
  refines b sb → in_u 64 (om_quantity m) →
  ∃ b', match_order m b = Ret ((sp_match_order m sb).1, b') ∧ refines b' (sp_match_order m sb).2.
Proof.
  intros (vs & fs & Hok & <-) Hq.
  destruct (match_order_ok m b vs fs Hok Hq) as (b' & vs' & fs' & E & Hok' & <-).
  exists b'. split; [done|]. by exists vs', fs'.
Qed.

(** [modify_order] on every path: false and no change for an unknown id;
    otherwise the order moves to the back of its new price without matching,
    and when the order pool throws, the exception leaves a consistent book in
    which the original order is gone. *)
Theorem modify_order_paths id price q b sb :
  refines b sb → in_u 64 q →
  match sp_find id sb with
  | None => modify_order id price q b = (Ret false, b)
  | Some o => ∃ b1 r b' sb', cancel_order id b = Ret b1 ∧
      modify_order id price q b = (r, b') ∧ refines b' sb' ∧
      match (create_order (o_type o) id (o_side o) price q b1).1 with
      | Ret _ => r = Ret true ∧ sb' = sp_modify o price q sb
      | Throw w => r = Throw w ∧ sb' = sp_cancel id sb
      end
  end.
Proof.
  intros (vs & fs & Hok & <-) Hq. pose proof (modify_order_ok id price q b vs fs Hok Hq) as Hm.
  destruct (sp_find id (flat vs)) as [o|]; [|done].
  destruct Hm as (b1 & r & b' & vs' & fs' & E1 & E2 & Hok' & Hr).
  exists b1, r, b', (flat vs'). split_and!; try done. by exists vs', fs'.
Qed.

Context (iterate : gmap Z Z → list (Z * Z)).
Context (iterate_perm : ∀ m, iterate m ≡ₚ map_to_list m).

(** a level-2 snapshot replaces the whole book.  Whatever order the map is
    walked in, all old orders are freed; if the pool does not throw, the book
    is then the reported levels, one order each, numbered from the id counter;
    if it throws, the book is consistent all the same. *)
Theorem apply_l2_snapshot_refines bids asks w sb :
  refines (w_book w) sb → Forall (λ x, in_u 64 x.2) bids → Forall (λ x, in_u 64 x.2) asks →
  0 <= w_ids w → w_ids w + Z.of_nat (length bids + length asks) < 2 ^ 64 →
  ∃ r w' sb', apply_l2_snapshot iterate bids asks w = (r, w') ∧ refines (w_book w') sb' ∧
    ((∃ e, r = Throw e) ∨
     (r = Ret () ∧ let '(sb1, c) := sp_snapshot buy bids (w_ids w) empty_book in
      sp_snapshot sell asks c sb1 = (sb', w_ids w'))).
Proof.
  intros (vs & fs & Hok & <-) Hb Ha Hc Hw.
  destruct (apply_l2_snapshot_ok iterate iterate_perm bids asks w vs fs Hok Hb Ha Hc Hw)
    as (r & w' & vs' & fs' & E & Hok' & _ & _ & Hr).
  exists r, w', (flat vs'). split_and!; try done. by exists vs', fs'.
Qed.

(** a level-2 update sets one price: every order at the price is removed
    and, for a positive quantity, one order with a fresh id takes its place;
    other prices and the other side keep their orders and their priority. *)
Theorem apply_l2_update_refines s price q w sb :
  refines (w_book w) sb → in_u 64 q → w_ids w ∉ sb_ids sb →
  ∃ r w' sb', apply_l2_update s price q w = (r, w') ∧ refines (w_book w') sb' ∧
    ((r = Ret () ∧ sb' = sp_update s price q (w_ids w) sb) ∨
     ((∃ e, r = Throw e) ∧ sb' = sp_wipe s price sb)).
Proof.
  intros (vs & fs & Hok & <-) Hq Hni.
  destruct (apply_l2_update_ok s price q w vs fs Hok Hq Hni) as (r & w' & vs' & fs' & E & Hok' & _ & Hr).
  exists r, w', (flat vs'). split_and!; try done. by exists vs', fs'.
Qed.

(** the level-2 view reports, for each side, exactly the prices with a
    positive resting quantity, with that quantity modulo 64 bits. *)
Theorem order_infos_exact b sb s price q :
  refines b sb →
  let infos := match s with buy => get_bids (get_order_infos b) | sell => get_asks (get_order_infos b) end in
  {| li_price := price; li_quantity := q |} ∈ infos ↔ q = u64 (depth s price sb) ∧ 0 < q.
Proof.
  intros (vs & fs & [_ Hsides] & <-). unfold depth. rewrite flat_side.
  rewrite <- (level_infos_spec (ob_heap b) s (levels_of s b) (vs s)) by apply Hsides. by destruct s.
Qed.

(** ** Every reachable state *)

(** Calls on the book, by any clients that number their orders with the process's id
    counter, which is also the one the book draws the ids of its level-2 orders from;
    an exception leaves the book as the operation leaves it. *)
Inductive ob_step : world P → world P → Prop :=
| step_ids w : w_ids w + 1 < 2 ^ 64 → ob_step w {| w_book := w_book w; w_ids := w_ids w + 1 |}
| step_create w t id s p q r b' :
    create_order t id s p q (w_book w) = (r, b') → ob_step w {| w_book := b'; w_ids := w_ids w |}
| step_add w o ts b' :
    in_u 64 (o_remaining o) → o_id o < w_ids w → add_order o (w_book w) = Ret (ts, b') →
    ob_step w {| w_book := b'; w_ids := w_ids w |}
| step_cancel w id b' :
    cancel_order id (w_book w) = Ret b' → ob_step w {| w_book := b'; w_ids := w_ids w |}
| step_match w m ts b' :
    in_u 64 (om_quantity m) → match_order m (w_book w) = Ret (ts, b') →
    ob_step w {| w_book := b'; w_ids := w_ids w |}
| step_modify w id p q r b' :
    in_u 64 q → modify_order id p q (w_book w) = (r, b') →
    ob_step w {| w_book := b'; w_ids := w_ids w |}
| step_snapshot w bids asks r w' :
    Forall (λ x, in_u 64 x.2) bids → Forall (λ x, in_u 64 x.2) asks →
    w_ids w + Z.of_nat (length bids + length asks) < 2 ^ 64 →
    apply_l2_snapshot iterate bids asks w = (r, w') → ob_step w w'
| step_update w s p q r w' :
    in_u 64 q → w_ids w + 1 < 2 ^ 64 → apply_l2_update s p q w = (r, w') → ob_step w w'
| step_clear w b' :
    clear iterate (w_book w) = Ret b' → ob_step w {| w_book := b'; w_ids := w_ids w |}
| step_configure w cb n f :
    ob_step w {| w_book := configure_order_pool cb n f (w_book w); w_ids := w_ids w |}.

Definition consistent (w : world P) : Prop :=
  ∃ sb, refines (w_book w) sb ∧ ids_below (w_ids w) sb ∧ 0 <= w_ids w.

Lemma consistent_intro (w : world P) vs fs :
  book_ok (w_book w) vs fs → ids_below (w_ids w) (flat vs) → 0 <= w_ids w → consistent w.
Proof. intros Hok Hids Hc. exists (flat vs). split_and!; try done. by exists vs, fs. Qed.

Lemma ids_cancel id sb x : x ∈ sb_ids (sp_cancel id sb) → x ∈ sb_ids sb.
Proof.
  unfold sb_ids, sb_orders, sp_cancel. simpl. rewrite !fmap_app, !elem_of_app.
  intros [Hin|Hin]; [left|right];
    (eapply elem_of_sublist; [exact Hin|apply sublist_ids, sp_drop_sublist]).
Qed.

Lemma ids_add o sb x : sb_ok sb → in_u 64 (o_remaining o) →
  x ∈ sb_ids (sp_add o sb).2 → x = o_id o ∨ x ∈ sb_ids sb.
Proof.
  intros Hok Hr. unfold sp_add. case_bool_decide as Hid; [by right|].
  destruct (sp_accepts o sb); [|by right]. intros Hin.
  assert (x ∈ sb_ids (sp_rest o sb)) as Hin'.
  { assert (∀ s, shrunk (sb_side s (sp_rest o sb)) (sb_side s (sp_settle (sp_rest o sb)).2)) as Hsh
      by (intros s; by apply sp_settle_shrunk, sb_ok_nonneg, sp_rest_ok).
    unfold sb_ids, sb_orders in Hin |- *. rewrite fmap_app, elem_of_app in Hin |- *.
    destruct Hin as [Hin|Hin]; [left|right].
    - eapply elem_of_sublist; [exact Hin|]. apply (shrunk_ids _ _ (Hsh buy)).
    - eapply elem_of_sublist; [exact Hin|]. apply (shrunk_ids _ _ (Hsh sell)). }
  rewrite sp_rest_ids in Hin'. by apply elem_of_cons in Hin'.
Qed.

Lemma sp_find_in id sb o : sp_find id sb = Some o → o_id o = id ∧ id ∈ sb_ids sb.
Proof.
  unfold sp_find, sb_ids. destruct (filter _ (sb_orders sb)) as [|x l] eqn:E; [done|].
  intros [= ->]. assert (o ∈ filter (λ o, o_id o = id) (sb_orders sb)) as Ho by (rewrite E; left).
  apply list_elem_of_filter in Ho as [<- Ho]. split; [done|]. by apply list_elem_of_fmap_2.
Qed.

Lemma step_consistent w w' : consistent w → ob_step w w' → consistent w'.
Proof.
  intros (sb & (vs & fs & Hok & Hsb) & Hids & Hc) Hstep.
  pose proof (refines_ok _ _ _ Hok) as Hsok. rewrite Hsb in Hsok.
  destruct Hstep as [w Hw|w t id s p q r b' E|w o ts b' Hr Ho E|w id b' E|w m ts b' Hq E|w id p q r b' Hq E|
    w bids asks r w' Hb Ha Hw E|w s p q r w' Hq Hw E|w b' E|w cb n f].
  - apply (consistent_intro _ vs fs); [done| |simpl; lia]. rewrite Hsb. intros id Hin.
    apply Hids in Hin. simpl. lia.
  - destruct (create_order_ok t id s p q _ vs fs Hok) as (r1 & b1 & E1 & Hok1 & _). rewrite E in E1.
    injection E1 as -> ->. apply (consistent_intro _ vs fs); [done|by rewrite Hsb|done].
  - destruct (add_order_ok o _ vs fs Hok Hr) as (b1 & vs1 & fs1 & E1 & Hok1 & Ef). rewrite E in E1.
    injection E1 as _ ->. apply (consistent_intro _ vs1 fs1); [done| |done].
    rewrite Ef, Hsb. intros id [->|Hin]%ids_add; [done|by apply Hids|done|done].
  - destruct (cancel_order_ok id _ vs fs Hok) as (b1 & vs1 & fs1 & E1 & Hok1 & Ef). rewrite E in E1.
    injection E1 as ->. apply (consistent_intro _ vs1 fs1); [done| |done].
    rewrite Ef, Hsb. intros x Hin%ids_cancel. by apply Hids.
  - destruct (match_order_ok m _ vs fs Hok Hq) as (b1 & vs1 & fs1 & E1 & Hok1 & Ef). rewrite E in E1.
    injection E1 as _ ->. apply (consistent_intro _ vs1 fs1); [done| |done].
    rewrite Ef, Hsb. unfold sp_match_order.
    destruct (sp_find (om_id m) sb) as [o|] eqn:Efind; [|done]. apply sp_find_in in Efind as [_ Hin].
    intros x [->|Hx%ids_cancel]%ids_add; [by apply Hids|by apply Hids|by apply sp_cancel_ok|done].
  - pose proof (modify_order_ok id p q _ vs fs Hok Hq) as Hm. rewrite Hsb in Hm.
    destruct (sp_find id sb) as [o|] eqn:Efind.
    + destruct Hm as (b1 & r1 & b2 & vs2 & fs2 & _ & E2 & Hok2 & Hr). rewrite E in E2.
      injection E2 as -> ->. apply (consistent_intro _ vs2 fs2); [done| |done].
      apply sp_find_in in Efind as [Hid Hin].
      destruct (create_order _ _ _ _ _ b1).1; destruct Hr as [_ ->]; intros x Hx.
      * unfold sp_modify in Hx. rewrite sp_rest_ids in Hx. simpl in Hx. rewrite Hid in Hx.
        apply elem_of_cons in Hx as [->|Hx%ids_cancel]; by apply Hids.
      * apply ids_cancel in Hx. by apply Hids.
    + rewrite E in Hm. injection Hm as -> ->. apply (consistent_intro _ vs fs); [done|by rewrite Hsb|done].
  - destruct (apply_l2_snapshot_ok iterate iterate_perm bids asks w vs fs Hok Hb Ha Hc Hw)
      as (r1 & w1 & vs1 & fs1 & E1 & Hok1 & Hids1 & Hle & _). rewrite E in E1. injection E1 as -> ->.
    apply (consistent_intro _ vs1 fs1); [done|done|lia].
  - destruct (apply_l2_update_ok s p q w vs fs Hok Hq) as (r1 & w1 & vs1 & fs1 & E1 & Hok1 & Ec & Hr).
    { rewrite Hsb. intros Hin%Hids. lia. }
    rewrite E in E1. injection E1 as -> ->. rewrite wrapu_id in Ec by (unfold in_u; lia).
    assert (w_ids w <= w_ids w1) as Hle by (destruct (0 <? q); lia).
    apply (consistent_intro _ vs1 fs1); [done| |lia]. intros x Hx. rewrite Hsb in Hr.
    destruct Hr as [[_ Er]|[_ Er]]; rewrite Er in Hx.
    + unfold sp_update in Hx. destruct (0 <? q).
      * rewrite sp_rest_ids in Hx. apply elem_of_cons in Hx as [->|Hx%wipe_ids%Hids]; simpl; lia.
      * apply wipe_ids, Hids in Hx. lia.
    + apply wipe_ids, Hids in Hx. lia.
  - destruct (clear_ok iterate iterate_perm _ vs fs Hok) as (b1 & vs1 & fs1 & E1 & Hok1 & Ef).
    rewrite E in E1. injection E1 as ->. apply (consistent_intro _ vs1 fs1); [done| |done].
    rewrite Ef. by intros x ?%not_elem_of_nil.
  - apply (consistent_intro _ vs fs); [|by rewrite Hsb|done].
    eapply book_ok_ext; [exact Hok|done|done|by intros []].
Qed.

(** C2: every state reachable from a new book is consistent.  After any
    sequence of the public operations, creation of orders and exceptions
    included, by clients whose added orders have ids drawn from the process's
    counter, the levels, nodes, free list and order map agree and show a
    price-time book with unique ids, all below the counter; and from any such
    state the operations that allocate no order return normally. *)
Theorem reachable_consistent (p : P) w :
  rtc ob_step {| w_book := mk_orderbook p; w_ids := 1 |} w →
  consistent w ∧
  ∀ o id m, in_u 64 (o_remaining o) → in_u 64 (om_quantity m) →
    (∃ ts b', add_order o (w_book w) = Ret (ts, b')) ∧ (∃ b', cancel_order id (w_book w) = Ret b') ∧
    (∃ ts b', match_order m (w_book w) = Ret (ts, b')) ∧ (∃ b', clear iterate (w_book w) = Ret b').
Proof.
  intros Hrtc.
  assert (consistent w) as Hcons.
  { remember {| w_book := mk_orderbook p; w_ids := 1 |} as w0 eqn:E0.
    assert (consistent w0) as H0.
    { subst w0. exists empty_book. split; [apply new_book_refines|]. split; [|simpl; lia].
      by intros x ?%not_elem_of_nil. }
    clear E0. induction Hrtc as [|w0 w1 w2 Hstep _ IH]; [done|]. apply IH. by eapply step_consistent. }
  split; [done|]. intros o id m Hr Hq. destruct Hcons as (sb & (vs & fs & Hok & _) & _).
  destruct (add_order_ok o _ vs fs Hok Hr) as (b1 & _ & _ & E1 & _).
  destruct (cancel_order_ok id _ vs fs Hok) as (b2 & _ & _ & E2 & _).
  destruct (clear_ok iterate iterate_perm _ vs fs Hok) as (b3 & _ & _ & E3 & _).
  destruct (match_order_ok m _ vs fs Hok Hq) as (b4 & _ & _ & E4 & _). split_and!; eauto.
Qed.

End Theorems.

(** ** A concrete pool and a concrete book *)

(** A pool of [cp_limit] order objects that may not grow. *)
Record counted_pool := { cp_limit : Z; cp_used : Z }.

#[export] Instance counted_order_pool : OrderPool counted_pool := {
  pool_set_name _ p := p;
  pool_set_control_blocks _ p := p;
  pool_ensure_min_blocks _ p := p;
  pool_set_forbid_grow _ p := p;
  pool_acquire p :=
    if cp_used p <? cp_limit p
    then (Ret (), {| cp_limit := cp_limit p; cp_used := cp_used p + 1 |})
    else (Throw "object pool exhausted: orderbook_order_pool", p);
  pool_drop_ref _ p := {| cp_limit := cp_limit p; cp_used := cp_used p - 1 |} }.

Definition run_add {P} `{OrderPool P} (o : order) (b : orderbook P) : orderbook P :=
  match add_order o b with Ret (_, b') => b' | Throw _ => b end.

Lemma run_add_refines {P} `{OrderPool P} o (b : orderbook P) sb :
  refines b sb → in_u 64 (o_remaining o) → refines (run_add o b) (sp_add o sb).2.
Proof.
  intros (vs & fs & Hok & <-) Hr. unfold run_add.
  destruct (add_order_ok o b vs fs Hok Hr) as (b' & vs' & fs' & -> & Hok' & <-). by exists vs', fs'.
Qed.

Definition ask1 : order := mk_order good_till_cancel 1 sell 100 5.
Definition bid2 : order := mk_order good_till_cancel 2 buy 90 10.
Definition no_spare : counted_pool := {| cp_limit := 0; cp_used := 0 |}.
Definition one_spare : counted_pool := {| cp_limit := 5; cp_used := 0 |}.

Definition sample_book (p : counted_pool) : orderbook counted_pool :=
  run_add bid2 (run_add ask1 (mk_orderbook p)).
Definition sample_sbook : sbook := {| sb_bids := [bid2]; sb_asks := [ask1] |}.

Lemma sample_refines p : refines (sample_book p) sample_sbook.
Proof.
  assert ((sp_add bid2 (sp_add ask1 empty_book).2).2 = sample_sbook) as <- by reflexivity.
  unfold sample_book. apply run_add_refines; [|by split; vm_compute].
  apply run_add_refines; [apply new_book_refines|by split; vm_compute].
Qed.

Lemma sample_settled : sb_settled sample_sbook.
Proof.
  apply (sp_add_settled bid2 {| sb_bids := []; sb_asks := [ask1] |}); [|by split; vm_compute].
  apply (sp_add_settled ask1 empty_book); [|by split; vm_compute].
  split; [split; [apply NoDup_nil_2|]|split; [done|apply Forall_nil_2]].
  intros []; split; constructor.
Qed.

Definition taker (t : ob_order_type) (q : Z) : order := mk_order t 3 buy 101 q.

Lemma taker_ok t q : 0 <= q < 2 ^ 64 → in_u 64 (o_remaining (taker t q)).
Proof. done. Qed.

Lemma add_order_refines_witness :
  ∃ b', add_order (taker good_till_cancel 7) (sample_book one_spare) =
    Ret ([trade_of (taker good_till_cancel 7) ask1 5], b') ∧
    refines b' {| sb_bids := [o_set_remaining (taker good_till_cancel 7) 2; bid2]; sb_asks := [] |}.
Proof.
  apply (add_order_refines (taker good_till_cancel 7) (sample_book one_spare) sample_sbook).
  - apply sample_refines.
  - apply taker_ok. lia.
Defined.

Lemma cancel_order_refines_witness :
  ∃ b', cancel_order 2 (sample_book one_spare) = Ret b' ∧
    refines b' {| sb_bids := []; sb_asks := [ask1] |}.
Proof. apply (cancel_order_refines 2 (sample_book one_spare) sample_sbook). apply sample_refines. Defined.

Lemma match_orders_uncrosses_witness :
  ∃ ts b', match_orders (sample_book one_spare) = Ret (ts, b') ∧ levels_uncrossed b' ∧
    Forall trade_fair ts.
Proof.
  apply (match_orders_uncrosses (sample_book one_spare) sample_sbook). apply sample_refines.
Defined.

Lemma add_order_conserves_witness :
  ∃ ts b' sb', add_order (taker good_till_cancel 7) (sample_book one_spare) = Ret (ts, b') ∧
    refines b' sb' ∧ 5 + 0 = qty_of 1 (sb_asks sb') + filled_of sell 1 ts.
Proof.
  apply (add_order_conserves (taker good_till_cancel 7) (sample_book one_spare) sample_sbook sell 1).
  - apply sample_refines.
  - apply sample_settled.
  - apply taker_ok. lia.
  - reflexivity.
  - apply (bool_decide_unpack _). vm_compute. exact I.
Defined.

Lemma immediate_never_rests_witness :
  ∃ ts b' sb', add_order (taker immediate_or_cancel 7) (sample_book one_spare) = Ret (ts, b') ∧
    refines b' sb' ∧ sb_settled sb' ∧ sb_bids sb' = [bid2].
Proof.
  apply (immediate_never_rests (taker immediate_or_cancel 7) (sample_book one_spare) sample_sbook).
  - apply sample_refines.
  - apply sample_settled.
  - apply taker_ok. lia.
  - discriminate.
Defined.

Lemma fill_or_kill_all_or_nothing_witness :
  ∃ ts b' sb', add_order (taker fill_or_kill 3) (sample_book one_spare) = Ret (ts, b') ∧
    refines b' sb' ∧ ((ts = [] ∧ sb' = sample_sbook) ∨ traded ts = 3).
Proof.
  apply (fill_or_kill_all_or_nothing (taker fill_or_kill 3) (sample_book one_spare) sample_sbook).
  - apply sample_refines.
  - apply sample_settled.
  - apply taker_ok. lia.
  - reflexivity.
  - vm_compute. reflexivity.
Defined.

Definition sample_modify : order_modify :=
  {| om_id := 2; om_side := buy; om_price := 100; om_quantity := 4 |}.

Lemma match_order_refines_witness :
  ∃ b', match_order sample_modify (sample_book one_spare) =
    Ret ([trade_of (mk_order good_till_cancel 2 buy 100 4) ask1 4], b') ∧
    refines b' {| sb_bids := []; sb_asks := [o_set_remaining ask1 1] |}.
Proof.
  apply (match_order_refines sample_modify (sample_book one_spare) sample_sbook).
  - apply sample_refines.
  - split; vm_compute; done.
Defined.

(** The pool has no object left: the order is cancelled and not replaced. *)
Lemma modify_order_paths_witness :
  ∃ b1 r b' sb', cancel_order 2 (sample_book no_spare) = Ret b1 ∧
    modify_order 2 95 10 (sample_book no_spare) = (r, b') ∧ refines b' sb' ∧
    match (create_order good_till_cancel 2 buy 95 10 b1).1 with
    | Ret _ => r = Ret true ∧ sb' = sp_modify bid2 95 10 sample_sbook
    | Throw w => r = Throw w ∧ sb' = sp_cancel 2 sample_sbook
    end.
Proof.
  apply (modify_order_paths 2 95 10 (sample_book no_spare) sample_sbook).
  - apply sample_refines.
  - split; vm_compute; done.
Defined.

Definition sample_world : world counted_pool := {| w_book := sample_book one_spare; w_ids := 10 |}.

Lemma apply_l2_snapshot_refines_witness :
  ∃ r w' sb', apply_l2_snapshot map_to_list [(99, 4); (98, 0)] [(101, 6)] sample_world = (r, w') ∧
    refines (w_book w') sb' ∧
    ((∃ e, r = Throw e) ∨
     (r = Ret () ∧
      ({| sb_bids := [mk_order good_till_cancel 10 buy 99 4];
          sb_asks := [mk_order good_till_cancel 11 sell 101 6] |}, 12) = (sb', w_ids w'))).
Proof.
  apply (apply_l2_snapshot_refines map_to_list (λ _, Permutation_refl _)
    [(99, 4); (98, 0)] [(101, 6)] sample_world sample_sbook).
  - apply sample_refines.
  - repeat constructor; vm_compute; done.
  - repeat constructor; vm_compute; done.
  - vm_compute. done.
  - vm_compute. done.
Defined.

Lemma apply_l2_update_refines_witness :
  ∃ r w' sb', apply_l2_update sell 100 8 sample_world = (r, w') ∧ refines (w_book w') sb' ∧
    ((r = Ret () ∧
      sb' = {| sb_bids := [bid2]; sb_asks := [mk_order good_till_cancel 10 sell 100 8] |}) ∨
     ((∃ e, r = Throw e) ∧ sb' = sp_wipe sell 100 sample_sbook)).
Proof.
  apply (apply_l2_update_refines sell 100 8 sample_world sample_sbook).
  - apply sample_refines.
  - split; vm_compute; done.
  - apply (bool_decide_unpack _). vm_compute. exact I.
Defined.

Lemma order_infos_exact_witness :
  {| li_price := 90; li_quantity := 10 |} ∈ get_bids (get_order_infos (sample_book one_spare)).
Proof.
  apply (order_infos_exact (sample_book one_spare) sample_sbook buy 90 10).
  - apply sample_refines.
  - vm_compute. done.
Defined.

(** An ask and a bid rest, a bigger bid takes the ask and rests, the first bid is
    cancelled, and the venue reports a level of asks. *)
Definition at_ids (n : Z) (b : orderbook counted_pool) : world counted_pool := {| w_book := b; w_ids := n |}.
Definition created (o : order) (b : orderbook counted_pool) : orderbook counted_pool :=
  (create_order (o_type o) (o_id o) (o_side o) (o_price o) (o_remaining o) b).2.
Definition run_cancel (id : Z) (b : orderbook counted_pool) : orderbook counted_pool := match cancel_order id b with Ret b' => b' | Throw _ => b end.
Definition rested : orderbook counted_pool := run_add bid2 (run_add ask1 (created ask1 (mk_orderbook one_spare))).
Definition traded : orderbook counted_pool := run_add (taker good_till_cancel 7) rested.
Definition history_world : world counted_pool := (apply_l2_update sell 120 8 (at_ids 4 (run_cancel 2 traded))).2.

Lemma created_refines o b sb : refines b sb → refines (created o b) sb.
Proof.
  intros (vs & fs & Hok & <-). unfold created. destruct (create_order_ok (o_type o) (o_id o) (o_side o) (o_price o) (o_remaining o) b vs fs Hok) as (r & b' & -> & Hok' & _).
  by exists vs, fs.
Qed.
Lemma add_steps n o b sb : refines b sb → in_u 64 (o_remaining o) → o_id o < n → ob_step map_to_list (at_ids n b) (at_ids n (run_add o b)).
Proof.
  intros (vs & fs & Hok & _) Hr Hn. unfold run_add. destruct (add_order_ok o b vs fs Hok Hr) as (b' & _ & _ & E & _). rewrite E.
  by apply (step_add map_to_list (at_ids n b) o (sp_add o (flat vs)).1).
Qed.
Lemma cancel_steps n id b sb : refines b sb → ob_step map_to_list (at_ids n b) (at_ids n (run_cancel id b)).
Proof.
  intros (vs & fs & Hok & _). unfold run_cancel. destruct (cancel_order_ok id b vs fs Hok) as (b' & _ & _ & E & _). rewrite E.
  by apply (step_cancel map_to_list (at_ids n b) id).
Qed.
Lemma draw_steps n b : n + 1 < 2 ^ 64 → ob_step map_to_list (at_ids n b) (at_ids (n + 1) b).
Proof. intros Hn. by apply (step_ids map_to_list (at_ids n b)). Qed.

Lemma reachable_consistent_witness : consistent history_world ∧ length (map_to_list (order_map (w_book history_world))) = 2%nat ∧
  get_bids (get_order_infos (w_book history_world)) = [{| li_price := 101; li_quantity := 2 |}] ∧
  get_asks (get_order_infos (w_book history_world)) = [{| li_price := 120; li_quantity := 8 |}] ∧ w_ids history_world = 5.
Proof.
  split; [|split_and!; vm_compute; reflexivity].
  pose proof (created_refines ask1 _ _ (new_book_refines one_spare)) as R1.
  assert (in_u 64 5) as U1 by (split; lia). pose proof (run_add_refines ask1 _ _ R1 U1) as R2.
  assert (in_u 64 10) as U2 by (split; lia). pose proof (run_add_refines bid2 _ _ R2 U2) as R3.
  assert (in_u 64 7) as U3 by (split; lia). pose proof (run_add_refines (taker good_till_cancel 7) _ _ R3 U3) as R4.
  apply (reachable_consistent map_to_list (λ _, Permutation_refl _) one_spare).
  apply (rtc_l _ _ (at_ids (1 + 1) (mk_orderbook one_spare))); [by apply draw_steps|].
  apply (rtc_l _ _ (at_ids 2 (created ask1 (mk_orderbook one_spare)))).
  { eapply (step_create map_to_list (at_ids 2 (mk_orderbook one_spare)) good_till_cancel 1 sell 100 5). apply surjective_pairing. }
  eapply rtc_l; [by apply (add_steps 2 ask1 _ _ R1)|]. eapply rtc_l; [by apply draw_steps|].
  eapply rtc_l; [by apply (add_steps 3 bid2 _ _ R2)|]. eapply rtc_l; [by apply draw_steps|].
  eapply rtc_l; [by apply (add_steps 4 (taker good_till_cancel 7) _ _ R3)|]. eapply rtc_l; [apply (cancel_steps 4 2 _ _ R4)|].
  apply rtc_once. eapply (step_update map_to_list (at_ids 4 (run_cancel 2 traded)) sell 120 8); [split; lia|reflexivity|].
  apply surjective_pairing.
Defined.

(** ** What the guarantees on immediate orders leave out *)

(** A bid moved by [modify_order] above the best ask. *)
Definition crossed_book : orderbook counted_pool := (modify_order 2 105 10 (sample_book one_spare)).2.

(** an immediate order can rest after [modify_order].  [modify_order] does
    not match, so it can leave the bid above the ask; an immediate-or-cancel
    order added next is let in because it crosses, the older bid takes the
    liquidity, and only the head of the best level is checked for cancellation:
    the immediate order stays in the book, unfilled. *)
Theorem immediate_rests_after_modify :
  levels_uncrossed (sample_book one_spare) ∧
  (∃ n, order_map (run_add (taker immediate_or_cancel 3) crossed_book) !! 3 = Some n ∧
    order_of (ob_heap (run_add (taker immediate_or_cancel 3) crossed_book)) n =
      Ret (taker immediate_or_cancel 3)) ∧
  ¬ levels_uncrossed crossed_book.
Proof.
  split_and!.
  - vm_compute. reflexivity.
  - eexists. split; vm_compute; reflexivity.
  - vm_compute. intros Hlt. discriminate Hlt.
Qed.
