(* ===== verification/RingBuffer.v ===== *)
(** * The single-producer single-consumer ring buffer
    (src/src/threading/ring_buffer.h)

    First the operations as functions of the buffer's state, refined to a
    bounded queue; then the two threads as a step relation whose steps are the
    loads and stores of [try_push] and [try_pop], with the invariant that shows
    that nothing is lost, duplicated, reordered or read while it is written.
    The 64-bit positions keep their width; the buffer's theorems hold as long as
    they have not wrapped. *)

From S2P Require Import Prelude.

Open Scope string_scope.
Open Scope list_scope.
Open Scope Z_scope.

Inductive overflow_policy := SpinWait | DropOldest | AssertFull.

#[export] Instance overflow_policy_eq_dec : EqDecision overflow_policy.
Proof. solve_decision. Defined.

Definition should_spin (p : overflow_policy) : bool := bool_decide (p = SpinWait).
Definition should_drop (p : overflow_policy) : bool := bool_decide (p = DropOldest).

Section RingBuffer.
Context {T : Type} (dflt : T) (k : nat).

(** The capacity, a power of two. *)
Definition N : Z := 2 ^ Z.of_nat k.
Definition mask : Z := N - 1.

Record ring := {
  data : list T;
  write_pos : Z;
  read_pos : Z;
  high_watermark : Z;
  drop_count : Z;
  watermark_threshold : Z;
  watermark_cb : bool;
  (** the arguments the callback has been called with *)
  watermark_calls : list Z }.

Definition mk_ring : ring :=
  {| data := replicate (Z.to_nat N) dflt; write_pos := 0; read_pos := 0; high_watermark := 0;
     drop_count := 0; watermark_threshold := 0; watermark_cb := false; watermark_calls := [] |}.

Definition slot (pos : Z) : nat := Z.to_nat (Z.land pos mask).

Definition set_data (d : list T) (r : ring) : ring :=
  {| data := d; write_pos := write_pos r; read_pos := read_pos r;
     high_watermark := high_watermark r; drop_count := drop_count r;
     watermark_threshold := watermark_threshold r; watermark_cb := watermark_cb r;
     watermark_calls := watermark_calls r |}.
Definition set_write (w : Z) (r : ring) : ring :=
  {| data := data r; write_pos := w; read_pos := read_pos r;
     high_watermark := high_watermark r; drop_count := drop_count r;
     watermark_threshold := watermark_threshold r; watermark_cb := watermark_cb r;
     watermark_calls := watermark_calls r |}.
Definition set_read (p : Z) (r : ring) : ring :=
  {| data := data r; write_pos := write_pos r; read_pos := p;
     high_watermark := high_watermark r; drop_count := drop_count r;
     watermark_threshold := watermark_threshold r; watermark_cb := watermark_cb r;
     watermark_calls := watermark_calls r |}.

(** The occupancy after a push: the high watermark and the callback. *)
Definition note_occupancy (occ : Z) (r : ring) : ring :=
  {| data := data r; write_pos := write_pos r; read_pos := read_pos r;
     high_watermark := if high_watermark r <? occ then occ else high_watermark r;
     drop_count := drop_count r; watermark_threshold := watermark_threshold r;
     watermark_cb := watermark_cb r;
     watermark_calls :=
       if (0 <? watermark_threshold r) && (watermark_threshold r <=? occ) && watermark_cb r
       then watermark_calls r ++ [occ] else watermark_calls r |}.

Definition try_push (item : T) (r : ring) : bool * ring :=
  let wp := write_pos r in
  let rp := read_pos r in
  if N <=? u64 (wp - rp) then (false, r) else
  let r1 := set_data (<[slot wp := item]> (data r)) r in
  let r2 := set_write (u64 (wp + 1)) r1 in
  (true, note_occupancy (u64 (u64 (wp + 1) - rp)) r2).

Definition try_pop (r : ring) : option T * ring :=
  let rp := read_pos r in
  let wp := write_pos r in
  if wp <=? rp then (None, r) else
  let item := default dflt (data r !! slot rp) in
  let r1 := set_data (<[slot rp := dflt]> (data r)) r in
  (Some item, set_read (u64 (rp + 1)) r1).

Definition bump_drop (r : ring) : ring :=
  {| data := data r; write_pos := write_pos r; read_pos := read_pos r;
     high_watermark := high_watermark r; drop_count := u64 (drop_count r + 1);
     watermark_threshold := watermark_threshold r; watermark_cb := watermark_cb r;
     watermark_calls := watermark_calls r |}.

(** [push]: one turn of the spin loop is [None] when the buffer is still full,
    so that the consumer can run before the next. *)
Definition push (p : overflow_policy) (item : T) (r : ring) : exc (option ring) :=
  let '(ok, r1) := try_push item r in
  if should_spin p then Ret (if ok then Some r1 else None)
  else if should_drop p then
    if ok then Ret (Some r1) else
    let r2 := bump_drop (try_pop r1).2 in
    Ret (Some (try_push item r2).2)
  else if ok then Ret (Some r1) else Throw "RingBuffer full (AssertFull policy)".

Definition size (r : ring) : Z := u64 (write_pos r - read_pos r).
Definition empty (r : ring) : bool := size r =? 0.
Definition full (r : ring) : bool := N <=? size r.

Definition reset_metrics (r : ring) : ring :=
  {| data := data r; write_pos := write_pos r; read_pos := read_pos r;
     high_watermark := 0; drop_count := 0; watermark_threshold := watermark_threshold r;
     watermark_cb := watermark_cb r; watermark_calls := watermark_calls r |}.

Definition on_watermark (threshold : Z) (cb : bool) (r : ring) : ring :=
  {| data := data r; write_pos := write_pos r; read_pos := read_pos r;
     high_watermark := high_watermark r; drop_count := drop_count r;
     watermark_threshold := threshold; watermark_cb := cb; watermark_calls := watermark_calls r |}.

(** ** Slots *)

Lemma N_pos : 0 < N.
Proof. apply Z.pow_pos_nonneg; lia. Qed.

Lemma slot_lt pos : (slot pos < Z.to_nat N)%nat.
Proof. apply mask_slot_lt. lia. Qed.

Lemma slot_inj p q : - N < p - q < N → slot p = slot q → p = q.
Proof. apply mask_slot_inj. lia. Qed.

(** ** The buffer is a bounded queue *)

(** The items at positions [lo .. lo + n). *)
Definition window (d : list T) (lo : Z) (n : nat) (q : list T) : Prop :=
  length q = n ∧ ∀ i, (i < n)%nat → d !! slot (lo + Z.of_nat i) = q !! i.

Record repr (r : ring) (q : list T) : Prop := {
  repr_len : length (data r) = Z.to_nat N;
  repr_pos : 0 <= read_pos r <= write_pos r;
  repr_cap : write_pos r - read_pos r <= N;
  repr_width : write_pos r < 2 ^ 64;
  repr_items : window (data r) (read_pos r) (Z.to_nat (write_pos r - read_pos r)) q }.

Lemma repr_length r q : repr r q → Z.of_nat (length q) = write_pos r - read_pos r.
Proof. intros [_ Hp _ _ [-> _]]. lia. Qed.

Lemma repr_size r q : repr r q → size r = Z.of_nat (length q).
Proof.
  intros Hr. rewrite (repr_length r q Hr). destruct Hr. unfold size. apply wrapu_id. unfold in_u. lia.
Qed.

Lemma window_snoc d lo q x :
  window d lo (length q) q → length d = Z.to_nat N → Z.of_nat (length q) < N → 0 <= lo →
  window (<[slot (lo + Z.of_nat (length q)) := x]> d) lo (S (length q)) (q ++ [x]).
Proof.
  intros [_ Hq] Hd Hlt Hlo. split; [rewrite length_app; simpl; lia|]. intros i Hi.
  destruct (decide (i = length q)) as [->|Hne].
  - rewrite list_lookup_insert_eq by (rewrite Hd; apply slot_lt).
    by rewrite lookup_app_r, Nat.sub_diag.
  - rewrite list_lookup_insert_ne, lookup_app_l by
      (lia || (intros E; apply slot_inj in E; lia)). apply Hq. lia.
Qed.

Lemma window_tail d lo x q y :
  window d lo (S (length q)) (x :: q) → Z.of_nat (S (length q)) <= N → 0 <= lo →
  window (<[slot lo := y]> d) (lo + 1) (length q) q.
Proof.
  intros [_ Hq] Hlt Hlo. split; [done|]. intros i Hi.
  rewrite list_lookup_insert_ne by (intros E; apply slot_inj in E; lia).
  specialize (Hq (S i) ltac:(lia)). simpl in Hq. rewrite <- Hq. f_equal. f_equal. lia.
Qed.

Lemma try_push_spec item r q :
  repr r q → write_pos r + 1 < 2 ^ 64 →
  if decide (Z.of_nat (length q) < N)
  then ∃ r', try_push item r = (true, r') ∧ repr r' (q ++ [item]) ∧
    high_watermark r' = Z.max (high_watermark r) (Z.of_nat (length q) + 1) ∧
    drop_count r' = drop_count r
  else try_push item r = (false, r).
Proof.
  intros Hr Hw. pose proof (repr_length r q Hr) as Hl. pose proof (repr_size r q Hr) as Hs.
  destruct Hr as [Hd Hp Hc _ Hwin]. unfold try_push. fold (size r). rewrite Hs.
  destruct (decide (Z.of_nat (length q) < N)) as [Hlt|Hge].
  - rewrite (proj2 (Z.leb_gt _ _) Hlt). eexists. split; [done|].
    rewrite (wrapu_id 64 (write_pos r + 1)) by (unfold in_u; lia).
    assert (write_pos r = read_pos r + Z.of_nat (length q)) as Ewp by lia.
    split; [|split; [|done]].
    2:{ simpl. rewrite wrapu_id by (unfold in_u; lia).
        destruct (Z.ltb_spec (high_watermark r) (write_pos r + 1 - read_pos r)); lia. }
    split; cbn [note_occupancy set_write set_data data write_pos read_pos]; try lia.
    + by rewrite length_insert.
    + rewrite Ewp. replace (Z.to_nat (read_pos r + Z.of_nat (length q) + 1 - read_pos r))
        with (S (length q)) by lia.
      apply window_snoc; try done; try lia.
      by replace (length q) with (Z.to_nat (write_pos r - read_pos r)) at 1 by lia.
  - by rewrite (proj2 (Z.leb_le _ _)) by lia.
Qed.

Lemma try_pop_spec r q :
  repr r q →
  match q with
  | [] => try_pop r = (None, r)
  | x :: q' => ∃ r', try_pop r = (Some x, r') ∧ repr r' q' ∧
      write_pos r' = write_pos r ∧ read_pos r' = read_pos r + 1
  end.
Proof.
  intros Hr. pose proof (repr_length r q Hr) as Hl. destruct Hr as [Hd Hp Hc Hw Hwin].
  unfold try_pop. destruct q as [|x q]; simpl in Hl.
  - by rewrite (proj2 (Z.leb_le _ _)) by lia.
  - rewrite (proj2 (Z.leb_gt _ _)) by lia.
    assert (Z.to_nat (write_pos r - read_pos r) = S (length q)) as E by lia. rewrite E in Hwin.
    assert (data r !! slot (read_pos r) = Some x) as ->.
    { destruct Hwin as [_ Hq]. specialize (Hq 0%nat ltac:(lia)).
      by rewrite Z.add_0_r in Hq. }
    eexists. split; [done|]. rewrite wrapu_id by (unfold in_u; lia). split; [|done].
    split; cbn [set_read set_data data write_pos read_pos]; try lia.
    + by rewrite length_insert.
    + replace (Z.to_nat (write_pos r - (read_pos r + 1))) with (length q) by lia.
      apply (window_tail _ _ x); [done|lia|lia].
Qed.

Lemma mk_ring_repr : repr mk_ring [].
Proof.
  pose proof N_pos. split; simpl; try lia.
  - by rewrite length_replicate.
  - split; [done|]. intros i Hi. simpl in Hi. lia.
Qed.

(** the ring buffer is a bounded queue under each overflow policy.  A push
    with room appends and raises the high watermark; on a full buffer SpinWait
    keeps waiting with nothing changed, DropOldest discards the oldest item,
    counts it and appends, AssertFull throws; [try_push] on a full buffer
    changes nothing, so it is the new item that is lost; a pop takes the oldest
    item or reports that there is none. *)
Theorem ring_bounded_queue p item r q :
  repr r q → write_pos r + 1 < 2 ^ 64 →
  (if decide (Z.of_nat (length q) < N)
   then ∃ r', push p item r = Ret (Some r') ∧ repr r' (q ++ [item]) ∧
     high_watermark r' = Z.max (high_watermark r) (Z.of_nat (length q) + 1) ∧
     drop_count r' = drop_count r
   else try_push item r = (false, r) ∧
     match p with
     | SpinWait => push p item r = Ret None
     | DropOldest => ∃ r', push p item r = Ret (Some r') ∧ repr r' (drop 1 q ++ [item]) ∧
         drop_count r' = u64 (drop_count r + 1)
     | AssertFull => push p item r = Throw "RingBuffer full (AssertFull policy)"
     end) ∧
  (match q with
   | [] => try_pop r = (None, r)
   | x :: q' => ∃ r', try_pop r = (Some x, r') ∧ repr r' q'
   end) ∧
  size r = Z.of_nat (length q).
Proof.
  intros Hr Hw. split_and!; [| |by apply repr_size].
  - pose proof (try_push_spec item r q Hr Hw) as Hp. unfold push.
    destruct (decide (Z.of_nat (length q) < N)) as [Hlt|Hge].
    + destruct Hp as (r' & -> & Hr' & Hm). exists r'. split; [by destruct p|done].
    + rewrite Hp. split; [done|]. destruct p; [done| |done].
      pose proof (try_pop_spec r q Hr) as Hpop. pose proof N_pos as HN.
      destruct q as [|x q']; [simpl in Hge; lia|].
      destruct Hpop as (r' & Epop & Hr' & Ew & Erd). rewrite Epop. cbn.
      assert (repr (bump_drop r') q') as Hb by (destruct Hr'; by split).
      pose proof (try_push_spec item (bump_drop r') q' Hb) as Hp'.
      simpl write_pos in Hp'. rewrite Ew in Hp'. specialize (Hp' Hw).
      pose proof (repr_cap _ _ Hr) as Hcap. pose proof (repr_length _ _ Hr) as Hl. simpl in Hl.
      rewrite decide_True in Hp' by lia. destruct Hp' as (r2 & -> & Hr2 & _ & Hd).
      exists r2. split; [done|]. split; [done|]. rewrite Hd. simpl.
      unfold try_pop in Epop. destruct (write_pos r <=? read_pos r); [done|].
      injection Epop as _ <-. done.
  - pose proof (try_pop_spec r q Hr) as Hpop. destruct q as [|x q']; [done|].
    destruct Hpop as (r' & E & Hr' & _). eauto.
Qed.

(** ** Two threads *)

(** Where the producer is in [try_push] and the consumer in [try_pop]: the
    locals loaded so far. *)
Inductive producer_pc :=
| P_idle
| P_loaded (item : T) (wp rp : Z)
| P_stored (item : T) (wp : Z).
Inductive consumer_pc :=
| C_idle
| C_loaded (rp wp : Z)
| C_taken (rp : Z) (item : T)
| C_cleared (rp : Z) (item : T).

(** Shared memory, both threads, and the items pushed and popped so far. *)
Record spsc := {
  sp_data : list T; sp_write : Z; sp_read : Z;
  sp_prod : producer_pc; sp_cons : consumer_pc;
  sp_pushed : list T; sp_popped : list T }.

Definition spsc_init : spsc :=
  {| sp_data := replicate (Z.to_nat N) dflt; sp_write := 0; sp_read := 0;
     sp_prod := P_idle; sp_cons := C_idle; sp_pushed := []; sp_popped := [] |}.

(** One atomic action of one thread.  [step_publish] keeps the write position
    below the width of its type. *)
Inductive spsc_step : spsc → spsc → Prop :=
| step_load item d w r c h o :
    spsc_step {| sp_data := d; sp_write := w; sp_read := r; sp_prod := P_idle; sp_cons := c;
                 sp_pushed := h; sp_popped := o |}
              {| sp_data := d; sp_write := w; sp_read := r; sp_prod := P_loaded item w r; sp_cons := c;
                 sp_pushed := h; sp_popped := o |}
| step_full item wp rp d w r c h o :
    N <= u64 (wp - rp) →
    spsc_step {| sp_data := d; sp_write := w; sp_read := r; sp_prod := P_loaded item wp rp; sp_cons := c;
                 sp_pushed := h; sp_popped := o |}
              {| sp_data := d; sp_write := w; sp_read := r; sp_prod := P_idle; sp_cons := c;
                 sp_pushed := h; sp_popped := o |}
| step_store item wp rp d w r c h o :
    u64 (wp - rp) < N →
    spsc_step {| sp_data := d; sp_write := w; sp_read := r; sp_prod := P_loaded item wp rp; sp_cons := c;
                 sp_pushed := h; sp_popped := o |}
              {| sp_data := <[slot wp := item]> d; sp_write := w; sp_read := r;
                 sp_prod := P_stored item wp; sp_cons := c; sp_pushed := h; sp_popped := o |}
| step_publish item wp d w r c h o :
    wp + 1 < 2 ^ 64 →
    spsc_step {| sp_data := d; sp_write := w; sp_read := r; sp_prod := P_stored item wp; sp_cons := c;
                 sp_pushed := h; sp_popped := o |}
              {| sp_data := d; sp_write := u64 (wp + 1); sp_read := r; sp_prod := P_idle; sp_cons := c;
                 sp_pushed := h ++ [item]; sp_popped := o |}
| step_cload d w r p h o :
    spsc_step {| sp_data := d; sp_write := w; sp_read := r; sp_prod := p; sp_cons := C_idle;
                 sp_pushed := h; sp_popped := o |}
              {| sp_data := d; sp_write := w; sp_read := r; sp_prod := p; sp_cons := C_loaded r w;
                 sp_pushed := h; sp_popped := o |}
| step_empty rp wp d w r p h o :
    wp <= rp →
    spsc_step {| sp_data := d; sp_write := w; sp_read := r; sp_prod := p; sp_cons := C_loaded rp wp;
                 sp_pushed := h; sp_popped := o |}
              {| sp_data := d; sp_write := w; sp_read := r; sp_prod := p; sp_cons := C_idle;
                 sp_pushed := h; sp_popped := o |}
| step_take rp wp d w r p h o :
    rp < wp →
    spsc_step {| sp_data := d; sp_write := w; sp_read := r; sp_prod := p; sp_cons := C_loaded rp wp;
                 sp_pushed := h; sp_popped := o |}
              {| sp_data := d; sp_write := w; sp_read := r; sp_prod := p;
                 sp_cons := C_taken rp (default dflt (d !! slot rp)); sp_pushed := h; sp_popped := o |}
| step_clear rp x d w r p h o :
    spsc_step {| sp_data := d; sp_write := w; sp_read := r; sp_prod := p; sp_cons := C_taken rp x;
                 sp_pushed := h; sp_popped := o |}
              {| sp_data := <[slot rp := dflt]> d; sp_write := w; sp_read := r; sp_prod := p;
                 sp_cons := C_cleared rp x; sp_pushed := h; sp_popped := o |}
| step_release rp x d w r p h o :
    spsc_step {| sp_data := d; sp_write := w; sp_read := r; sp_prod := p; sp_cons := C_cleared rp x;
                 sp_pushed := h; sp_popped := o |}
              {| sp_data := d; sp_write := w; sp_read := u64 (rp + 1); sp_prod := p; sp_cons := C_idle;
                 sp_pushed := h; sp_popped := o ++ [x] |}.

(** The first position whose item is still in its slot. *)
Definition live_from (s : spsc) : Z :=
  match sp_cons s with C_cleared rp _ => rp + 1 | _ => sp_read s end.

Definition prod_inv (s : spsc) : Prop :=
  match sp_prod s with
  | P_idle => True
  | P_loaded _ wp rp => wp = sp_write s ∧ 0 <= rp <= sp_read s ∧ wp - rp <= N
  | P_stored item wp => wp = sp_write s ∧ wp - sp_read s < N ∧ sp_data s !! slot wp = Some item
  end.

Definition cons_inv (s : spsc) : Prop :=
  match sp_cons s with
  | C_idle => True
  | C_loaded rp wp => rp = sp_read s ∧ wp <= sp_write s
  | C_taken rp x | C_cleared rp x =>
      rp = sp_read s ∧ rp < sp_write s ∧ sp_pushed s !! Z.to_nat rp = Some x
  end.

Record spsc_inv (s : spsc) : Prop := {
  si_len : length (sp_data s) = Z.to_nat N;
  si_pos : 0 <= sp_read s <= sp_write s;
  si_cap : sp_write s - sp_read s <= N;
  si_width : sp_write s < 2 ^ 64;
  si_pushed : Z.of_nat (length (sp_pushed s)) = sp_write s;
  si_popped : sp_popped s = take (Z.to_nat (sp_read s)) (sp_pushed s);
  si_items : ∀ i, live_from s <= i < sp_write s →
    sp_data s !! slot i = sp_pushed s !! Z.to_nat i;
  si_prod : prod_inv s;
  si_cons : cons_inv s }.

Lemma spsc_init_inv : spsc_inv spsc_init.
Proof.
  pose proof N_pos. split; simpl; try done; try lia.
  - apply length_replicate.
  - unfold live_from. simpl. lia.
Qed.

Lemma live_pos s : spsc_inv s → sp_read s <= live_from s <= sp_write s.
Proof.
  intros [_ Hp _ _ _ _ _ _ Hc]. unfold cons_inv, live_from in *.
  destruct (sp_cons s); lia.
Qed.

(** Unfold the invariant of a state given by its fields. *)
Ltac spsc_inv_cases H :=
  destruct H as [Hlen Hpos Hcap Hw Hpu Hpo Hit Hpr Hco];
  unfold prod_inv, cons_inv, live_from in *;
  cbn [sp_data sp_write sp_read sp_prod sp_cons sp_pushed sp_popped] in *.
Ltac spsc_inv_split :=
  split; unfold prod_inv, cons_inv, live_from;
  cbn [sp_data sp_write sp_read sp_prod sp_cons sp_pushed sp_popped]; try done; try lia.

Lemma inv_store item wp rp d w r c h o :
  u64 (wp - rp) < N →
  spsc_inv {| sp_data := d; sp_write := w; sp_read := r; sp_prod := P_loaded item wp rp;
              sp_cons := c; sp_pushed := h; sp_popped := o |} →
  spsc_inv {| sp_data := <[slot wp := item]> d; sp_write := w; sp_read := r;
              sp_prod := P_stored item wp; sp_cons := c; sp_pushed := h; sp_popped := o |}.
Proof.
  intros Hf Hinv. pose proof (live_pos _ Hinv) as Hlive. pose proof N_pos as HN.
  spsc_inv_cases Hinv. destruct Hpr as (-> & Hrp & Hle).
  rewrite wrapu_id in Hf by (unfold in_u; lia). spsc_inv_split.
  - by rewrite length_insert.
  - intros i Hi. rewrite list_lookup_insert_ne; [by apply Hit|].
    intros E%slot_inj; lia.
  - split_and!; [done|lia|]. apply list_lookup_insert_eq. rewrite Hlen. apply slot_lt.
Qed.

Lemma inv_publish item wp d w r c h o :
  wp + 1 < 2 ^ 64 →
  spsc_inv {| sp_data := d; sp_write := w; sp_read := r; sp_prod := P_stored item wp;
              sp_cons := c; sp_pushed := h; sp_popped := o |} →
  spsc_inv {| sp_data := d; sp_write := u64 (wp + 1); sp_read := r; sp_prod := P_idle;
              sp_cons := c; sp_pushed := h ++ [item]; sp_popped := o |}.
Proof.
  intros Hf Hinv. pose proof (live_pos _ Hinv) as Hlive.
  spsc_inv_cases Hinv. destruct Hpr as (-> & Hle & Hs).
  rewrite wrapu_id by (unfold in_u; lia). spsc_inv_split.
  - rewrite length_app. simpl. lia.
  - rewrite take_app_le by lia. done.
  - intros i Hi. destruct (decide (i = w)) as [->|Hne].
    + rewrite Hs, lookup_app_r by lia. by replace (Z.to_nat w - length h)%nat with 0%nat by lia.
    + rewrite lookup_app_l by lia. apply Hit. lia.
  - destruct c as [|rp wp|rp x|rp x]; [done|lia| |];
      destruct Hco as (-> & Hlt & Hx); (split_and!; [done|lia|]; rewrite lookup_app_l; [done|];
      by apply lookup_lt_Some in Hx).
Qed.

Lemma inv_take rp wp d w r p h o :
  rp < wp →
  spsc_inv {| sp_data := d; sp_write := w; sp_read := r; sp_prod := p; sp_cons := C_loaded rp wp;
              sp_pushed := h; sp_popped := o |} →
  spsc_inv {| sp_data := d; sp_write := w; sp_read := r; sp_prod := p;
              sp_cons := C_taken rp (default dflt (d !! slot rp)); sp_pushed := h; sp_popped := o |}.
Proof.
  intros He Hinv. spsc_inv_cases Hinv. destruct Hco as [-> Hle]. spsc_inv_split.
  split_and!; [done|lia|]. rewrite Hit by lia.
  destruct (lookup_lt_is_Some_2 h (Z.to_nat r)) as [y ->]; [lia|done].
Qed.

Lemma inv_clear rp x d w r p h o :
  spsc_inv {| sp_data := d; sp_write := w; sp_read := r; sp_prod := p; sp_cons := C_taken rp x;
              sp_pushed := h; sp_popped := o |} →
  spsc_inv {| sp_data := <[slot rp := dflt]> d; sp_write := w; sp_read := r; sp_prod := p;
              sp_cons := C_cleared rp x; sp_pushed := h; sp_popped := o |}.
Proof.
  intros Hinv. spsc_inv_cases Hinv. destruct Hco as (-> & Hlt & Hx). spsc_inv_split.
  - by rewrite length_insert.
  - intros i Hi. rewrite list_lookup_insert_ne; [apply Hit; lia|]. intros E%slot_inj; lia.
  - destruct p as [|item wp rp|item wp]; try done. destruct Hpr as (-> & Hle & Hs).
    split_and!; [done|lia|]. rewrite list_lookup_insert_ne; [done|]. intros E%slot_inj; lia.
Qed.

Lemma inv_release rp x d w r p h o :
  spsc_inv {| sp_data := d; sp_write := w; sp_read := r; sp_prod := p; sp_cons := C_cleared rp x;
              sp_pushed := h; sp_popped := o |} →
  spsc_inv {| sp_data := d; sp_write := w; sp_read := u64 (rp + 1); sp_prod := p; sp_cons := C_idle;
              sp_pushed := h; sp_popped := o ++ [x] |}.
Proof.
  intros Hinv. spsc_inv_cases Hinv. destruct Hco as (-> & Hlt & Hx).
  rewrite wrapu_id by (unfold in_u; lia). spsc_inv_split.
  - replace (Z.to_nat (r + 1)) with (S (Z.to_nat r)) by lia. by rewrite (take_S_r _ _ _ Hx), Hpo.
  - destruct p as [|item wp rp|item wp]; [done|lia|]. destruct Hpr as (-> & Hle & Hs).
    split_and!; [done|lia|done].
Qed.

Lemma spsc_step_inv s s' : spsc_inv s → spsc_step s s' → spsc_inv s'.
Proof.
  intros Hinv Hstep.
  destruct Hstep; eauto using inv_store, inv_publish, inv_take, inv_clear, inv_release;
    spsc_inv_cases Hinv; spsc_inv_split.
Qed.

(** A thread is about to touch the slot of a position. *)
Definition producer_at (s : spsc) (pos : Z) : Prop :=
  match sp_prod s with P_loaded _ wp rp => pos = wp ∧ u64 (wp - rp) < N | _ => False end.
Definition consumer_at (s : spsc) (pos : Z) : Prop :=
  match sp_cons s with
  | C_loaded rp wp => pos = rp ∧ rp < wp
  | C_taken rp _ => pos = rp
  | _ => False
  end.

(** C21: one producer that refuses when the ring is full and one consumer, in any
    interleaving.  What has been
    popped is exactly the oldest part of what has been pushed, in order, with
    nothing lost or repeated; never more than the capacity is in flight; and
    when both threads are about to access a slot it is not the same one. *)
Theorem spsc_fifo s :
  rtc spsc_step spsc_init s →
  sp_popped s = take (length (sp_popped s)) (sp_pushed s) ∧
  Z.of_nat (length (sp_popped s)) = sp_read s ∧ Z.of_nat (length (sp_pushed s)) = sp_write s ∧
  sp_write s - sp_read s <= N ∧
  ∀ p q, producer_at s p → consumer_at s q → slot p ≠ slot q.
Proof.
  intros Hrtc. assert (spsc_inv s) as Hinv.
  { pose proof spsc_init_inv as H0. generalize dependent spsc_init. intros s0 Hrtc H0.
    induction Hrtc as [|s0 s1 s2 Hstep _ IH]; [done|]. by eapply IH, spsc_step_inv. }
  destruct Hinv as [Hlen Hpos Hcap Hw Hpu Hpo Hit Hpr Hco].
  assert (length (sp_popped s) = Z.to_nat (sp_read s)) as Hl
    by (rewrite Hpo, length_take; lia).
  split_and!; [by rewrite Hl|lia|done|done|].
  intros p q. unfold producer_at, consumer_at, prod_inv, cons_inv in *.
  destruct (sp_prod s) as [|item wp rp|]; try done. intros [-> Hf].
  destruct Hpr as (-> & Hrp & Hle). rewrite wrapu_id in Hf by (unfold in_u; lia).
  destruct (sp_cons s) as [|rq wq|rq x|]; try done.
  - intros [-> Hlt] E%slot_inj; lia.
  - intros -> E%slot_inj; lia.
Qed.

End RingBuffer.

Arguments spsc T : clear implicits.
Arguments ring T : clear implicits.

(** ** The hypotheses can hold *)

Definition sample_ring : ring Z := (try_push 1 20 (try_push 1 10 (mk_ring 0 1)).2).2.

Lemma sample_ring_repr : repr 1 sample_ring [10; 20].
Proof.
  split; try (vm_compute; done). split; [done|]. intros [|[|i]] Hi; [done|done|]. vm_compute in Hi. lia.
Qed.

Lemma ring_bounded_queue_witness :
  try_push 1 30 sample_ring = (false, sample_ring) ∧
  ∃ r', push 0 1 DropOldest 30 sample_ring = Ret (Some r') ∧ repr 1 r' [20; 30] ∧ drop_count r' = 1.
Proof.
  destruct (ring_bounded_queue 0 1 DropOldest 30 sample_ring [10; 20]) as (Hp & _ & _).
  - apply sample_ring_repr.
  - vm_compute. reflexivity.
  - exact Hp.
Defined.

Lemma spsc_fifo_witness :
  ∃ s : spsc Z, rtc (spsc_step 0 1) (spsc_init 0 1) s ∧ sp_pushed s = [7] ∧
    sp_popped s = take (length (sp_popped s)) (sp_pushed s).
Proof.
  eexists {| sp_data := [7; 0]; sp_write := 1; sp_read := 0; sp_prod := P_idle;
             sp_cons := C_loaded 0 1; sp_pushed := [7]; sp_popped := [] |}.
  assert (rtc (spsc_step 0 1) (spsc_init 0 1)
    {| sp_data := [7; 0]; sp_write := 1; sp_read := 0; sp_prod := P_idle;
       sp_cons := C_loaded 0 1; sp_pushed := [7]; sp_popped := [] |}) as Hrun.
  { eapply rtc_l; [apply (step_load 0 1 7)|].
    eapply rtc_l; [apply (step_store 0 1 7); vm_compute; reflexivity|].
    eapply rtc_l; [apply (step_publish 0 1 7); vm_compute; reflexivity|].
    eapply rtc_l; [apply (step_cload 0 1)|]. apply rtc_refl. }
  split; [exact Hrun|]. split; [reflexivity|].
  apply (spsc_fifo 0 1 _ Hrun).
Defined.
