(* ===== verification/DeferredQueue.v ===== *)
(** * The deferred-return queue (src/src/types/deferred_return_queue.h) and the
    pool free stack (src/src/types/pool_free_stack.h)

    A bounded queue with many producers and one consumer: a producer claims a
    position by advancing the tail with a compare-and-swap, writes the slot and
    then marks it ready; the consumer takes a slot only when it is ready.  The
    operations are given as functions of the state, as the pools use them, and
    as a step relation in which any number of producers interleave with the
    consumer at their atomic actions. *)

From S2P Require Import Prelude.

Open Scope list_scope.
Open Scope Z_scope.

Section DeferredQueue.
Context (k : nat).

(** [Capacity], a power of two. *)
Definition Capacity : Z := 2 ^ Z.of_nat k.
Definition qmask : Z := Capacity - 1.
Definition qslot (pos : Z) : nat := Z.to_nat (Z.land pos qmask).

Record dslot := { ds_item : Z; ds_ready : Z }.
Record dqueue := { dq_slots : list dslot; dq_head : Z; dq_tail : Z }.

Definition mk_dqueue : dqueue :=
  {| dq_slots := replicate (Z.to_nat Capacity) {| ds_item := 0; ds_ready := 0 |};
     dq_head := 0; dq_tail := 0 |}.

(** ** The operations run by themselves *)

Definition dq_try_push (item : Z) (q : dqueue) : bool * dqueue :=
  let tail := dq_tail q in
  if Capacity <=? u64 (tail - dq_head q) then (false, q) else
  (true, {| dq_slots := <[qslot tail := {| ds_item := item; ds_ready := u64 (tail + 1) |}]> (dq_slots q);
            dq_head := dq_head q; dq_tail := u64 (tail + 1) |}).

Definition dq_try_pop (q : dqueue) : option Z * dqueue :=
  let head := dq_head q in
  if dq_tail q <=? head then (None, q) else
  match dq_slots q !! qslot head with
  | Some s =>
      if ds_ready s =? u64 (head + 1)
      then (Some (ds_item s), {| dq_slots := dq_slots q; dq_head := u64 (head + 1); dq_tail := dq_tail q |})
      else (None, q)
  | None => (None, q)
  end.

Definition pending (q : dqueue) : Z := u64 (dq_tail q - dq_head q).

Lemma Capacity_pos : 0 < Capacity.
Proof. apply Z.pow_pos_nonneg; lia. Qed.

Lemma qslot_lt pos : (qslot pos < Z.to_nat Capacity)%nat.
Proof. apply mask_slot_lt. lia. Qed.

Lemma qslot_inj p q : - Capacity < p - q < Capacity → qslot p = qslot q → p = q.
Proof. apply mask_slot_inj. lia. Qed.

(** The queue run by one thread at a time holds [l]. *)
Record dq_repr (q : dqueue) (l : list Z) : Prop := {
  dr_len : length (dq_slots q) = Z.to_nat Capacity;
  dr_pos : 0 <= dq_head q;
  dr_tail : dq_tail q = dq_head q + Z.of_nat (length l);
  dr_cap : Z.of_nat (length l) <= Capacity;
  dr_width : dq_tail q < 2 ^ 64;
  dr_items : ∀ i x, l !! i = Some x →
    dq_slots q !! qslot (dq_head q + Z.of_nat i) =
      Some {| ds_item := x; ds_ready := dq_head q + Z.of_nat i + 1 |} }.

Lemma mk_dqueue_repr : dq_repr mk_dqueue [].
Proof.
  pose proof Capacity_pos. split; simpl; try done; try lia. apply length_replicate.
Qed.

Lemma dq_try_push_spec x q l :
  dq_repr q l → dq_tail q + 1 < 2 ^ 64 →
  if decide (Z.of_nat (length l) < Capacity)
  then ∃ q', dq_try_push x q = (true, q') ∧ dq_repr q' (l ++ [x]) ∧ dq_tail q' = dq_tail q + 1
  else dq_try_push x q = (false, q).
Proof.
  intros [Hlen Hpos Ht Hc Hw Hit] Hw'. unfold dq_try_push.
  rewrite !wrapu_id by (unfold in_u; lia). replace (dq_tail q - dq_head q) with (Z.of_nat (length l)) by lia.
  destruct (decide (Z.of_nat (length l) < Capacity)) as [Hlt|Hge].
  - rewrite (proj2 (Z.leb_gt _ _) Hlt). eexists. split; [done|]. split; [|done].
    split; cbn [dq_slots dq_head dq_tail]; rewrite ?length_app, ?length_insert; simpl; try lia.
    intros i y Hy. destruct (decide (i = length l)) as [->|Hne].
    + rewrite lookup_app_r, Nat.sub_diag in Hy by lia. injection Hy as ->.
      rewrite <- Ht. rewrite list_lookup_insert_eq; [done|]. rewrite Hlen. apply qslot_lt.
    + assert (i < length l)%nat as Hi.
      { apply lookup_lt_Some in Hy. rewrite length_app in Hy. simpl in Hy. lia. }
      rewrite lookup_app_l in Hy by done.
      rewrite list_lookup_insert_ne; [by apply Hit|]. intros E%qslot_inj; lia.
  - by rewrite (proj2 (Z.leb_le _ _)) by lia.
Qed.

Lemma dq_try_pop_spec q l :
  dq_repr q l →
  match l with
  | [] => dq_try_pop q = (None, q)
  | x :: l' => ∃ q', dq_try_pop q = (Some x, q') ∧ dq_repr q' l' ∧ dq_tail q' = dq_tail q
  end.
Proof.
  intros [Hlen Hpos Ht Hc Hw Hit]. unfold dq_try_pop. destruct l as [|x l]; simpl in *.
  - by rewrite (proj2 (Z.leb_le _ _)) by lia.
  - rewrite (proj2 (Z.leb_gt _ _)) by lia.
    pose proof (Hit 0%nat x eq_refl) as H0. rewrite Z.add_0_r in H0. rewrite H0. simpl.
    rewrite wrapu_id by (unfold in_u; lia). rewrite Z.eqb_refl. eexists. split; [done|]. split; [|done].
    split; simpl; try done; try lia. intros i y Hy. specialize (Hit (S i) y Hy).
    replace (dq_head q + 1 + Z.of_nat i) with (dq_head q + Z.of_nat (S i)) by lia. done.
Qed.

Lemma dq_pending q l : dq_repr q l → pending q = Z.of_nat (length l).
Proof.
  intros [_ Hpos Ht _ Hw _]. unfold pending. rewrite wrapu_id; [lia|]. unfold in_u. lia.
Qed.

(** ** Many producers and the consumer *)

(** The locals of a producer in [try_push] and of the consumer in [try_pop]. *)
Inductive push_pc :=
| T_idle
| T_tail (item tail : Z)
| T_head (item tail head : Z)
| T_claimed (item pos : Z)
| T_written (item pos : Z).
Inductive pop_pc :=
| D_idle
| D_loaded (head tail : Z)
| D_ready (head : Z)
| D_taken (head item : Z).

(** Shared memory, the threads, and two histories: the items in the order in
    which their positions were claimed, and the items popped. *)
Record mpsc := {
  mq : dqueue;
  mq_threads : nat → push_pc;
  mq_cons : pop_pc;
  mq_claimed : list Z;
  mq_popped : list Z }.

Definition mpsc_init : mpsc :=
  {| mq := mk_dqueue; mq_threads := λ _, T_idle; mq_cons := D_idle; mq_claimed := []; mq_popped := [] |}.

Definition set_thread (t : nat) (pc : push_pc) (f : nat → push_pc) : nat → push_pc :=
  λ t', if decide (t' = t) then pc else f t'.

Definition at_thread (s : mpsc) (t : nat) (pc : push_pc) : mpsc :=
  {| mq := mq s; mq_threads := set_thread t pc (mq_threads s); mq_cons := mq_cons s;
     mq_claimed := mq_claimed s; mq_popped := mq_popped s |}.
Definition at_cons (s : mpsc) (pc : pop_pc) : mpsc :=
  {| mq := mq s; mq_threads := mq_threads s; mq_cons := pc;
     mq_claimed := mq_claimed s; mq_popped := mq_popped s |}.
Definition with_queue (s : mpsc) (q : dqueue) : mpsc :=
  {| mq := q; mq_threads := mq_threads s; mq_cons := mq_cons s;
     mq_claimed := mq_claimed s; mq_popped := mq_popped s |}.

Definition set_slot (pos : Z) (f : dslot → dslot) (q : dqueue) : dqueue :=
  {| dq_slots := alter f (qslot pos) (dq_slots q); dq_head := dq_head q; dq_tail := dq_tail q |}.

(** One atomic action of one thread.  The compare-and-swap may fail, also
    spuriously, and then reloads the tail; it does not wrap the tail. *)
Inductive mpsc_step : mpsc → mpsc → Prop :=
| push_load s t item :
    mq_threads s t = T_idle → mpsc_step s (at_thread s t (T_tail item (dq_tail (mq s))))
| push_head s t item tail :
    mq_threads s t = T_tail item tail →
    mpsc_step s (at_thread s t (T_head item tail (dq_head (mq s))))
| push_full s t item tail head :
    mq_threads s t = T_head item tail head → Capacity <= u64 (tail - head) →
    mpsc_step s (at_thread s t T_idle)
| push_cas_fail s t item tail head :
    mq_threads s t = T_head item tail head → u64 (tail - head) < Capacity →
    mpsc_step s (at_thread s t (T_tail item (dq_tail (mq s))))
| push_cas s t item tail head :
    mq_threads s t = T_head item tail head → u64 (tail - head) < Capacity →
    dq_tail (mq s) = tail → tail + 1 < 2 ^ 64 →
    mpsc_step s
      {| mq := {| dq_slots := dq_slots (mq s); dq_head := dq_head (mq s); dq_tail := u64 (tail + 1) |};
         mq_threads := set_thread t (T_claimed item tail) (mq_threads s); mq_cons := mq_cons s;
         mq_claimed := mq_claimed s ++ [item]; mq_popped := mq_popped s |}
| push_write s t item pos :
    mq_threads s t = T_claimed item pos →
    mpsc_step s
      (at_thread (with_queue s (set_slot pos (λ d, {| ds_item := item; ds_ready := ds_ready d |}) (mq s)))
        t (T_written item pos))
| push_ready s t item pos :
    mq_threads s t = T_written item pos →
    mpsc_step s
      (at_thread (with_queue s (set_slot pos (λ d, {| ds_item := ds_item d; ds_ready := u64 (pos + 1) |}) (mq s)))
        t T_idle)
| pop_load s :
    mq_cons s = D_idle → mpsc_step s (at_cons s (D_loaded (dq_head (mq s)) (dq_tail (mq s))))
| pop_empty s head tail :
    mq_cons s = D_loaded head tail → tail <= head → mpsc_step s (at_cons s D_idle)
| pop_not_ready s head tail d :
    mq_cons s = D_loaded head tail → head < tail →
    dq_slots (mq s) !! qslot head = Some d → ds_ready d ≠ u64 (head + 1) →
    mpsc_step s (at_cons s D_idle)
| pop_ready s head tail d :
    mq_cons s = D_loaded head tail → head < tail →
    dq_slots (mq s) !! qslot head = Some d → ds_ready d = u64 (head + 1) →
    mpsc_step s (at_cons s (D_ready head))
| pop_take s head d :
    mq_cons s = D_ready head → dq_slots (mq s) !! qslot head = Some d →
    mpsc_step s (at_cons s (D_taken head (ds_item d)))
| pop_release s head item :
    mq_cons s = D_taken head item →
    mpsc_step s
      {| mq := {| dq_slots := dq_slots (mq s); dq_head := u64 (head + 1); dq_tail := dq_tail (mq s) |};
         mq_threads := mq_threads s; mq_cons := D_idle; mq_claimed := mq_claimed s;
         mq_popped := mq_popped s ++ [item] |}.

(** A claimed position whose slot is not ready yet. *)
Definition owns (pc : push_pc) (pos : Z) : Prop :=
  match pc with T_claimed _ p | T_written _ p => p = pos | _ => False end.

Definition thread_ok (s : mpsc) (pc : push_pc) : Prop :=
  match pc with
  | T_idle => True
  | T_tail _ tl => 0 <= tl <= dq_tail (mq s)
  | T_head _ tl hd => 0 <= tl <= dq_tail (mq s) ∧ 0 <= hd <= dq_head (mq s)
  | T_claimed x pos =>
      dq_head (mq s) <= pos < dq_tail (mq s) ∧ mq_claimed s !! Z.to_nat pos = Some x ∧
      ∃ d, dq_slots (mq s) !! qslot pos = Some d ∧ ds_ready d ≠ pos + 1
  | T_written x pos =>
      dq_head (mq s) <= pos < dq_tail (mq s) ∧ mq_claimed s !! Z.to_nat pos = Some x ∧
      ∃ d, dq_slots (mq s) !! qslot pos = Some d ∧ ds_ready d ≠ pos + 1 ∧ ds_item d = x
  end.

(** The slot of a position is ready and holds the item claimed there. *)
Definition published (s : mpsc) (pos : Z) : Prop :=
  ∃ x, mq_claimed s !! Z.to_nat pos = Some x ∧
    dq_slots (mq s) !! qslot pos = Some {| ds_item := x; ds_ready := pos + 1 |}.

Definition pop_ok (s : mpsc) : Prop :=
  match mq_cons s with
  | D_idle => True
  | D_loaded hd tl => hd = dq_head (mq s) ∧ tl <= dq_tail (mq s)
  | D_ready hd => hd = dq_head (mq s) ∧ hd < dq_tail (mq s) ∧ published s hd
  | D_taken hd x => hd = dq_head (mq s) ∧ hd < dq_tail (mq s) ∧ published s hd ∧
      mq_claimed s !! Z.to_nat hd = Some x
  end.

Record mpsc_inv (s : mpsc) : Prop := {
  mi_len : length (dq_slots (mq s)) = Z.to_nat Capacity;
  mi_pos : 0 <= dq_head (mq s) <= dq_tail (mq s);
  mi_cap : dq_tail (mq s) - dq_head (mq s) <= Capacity;
  mi_width : dq_tail (mq s) < 2 ^ 64;
  mi_old : ∀ i d, dq_slots (mq s) !! i = Some d → ds_ready d <= dq_tail (mq s);
  mi_claimed : Z.of_nat (length (mq_claimed s)) = dq_tail (mq s);
  mi_popped : mq_popped s = take (Z.to_nat (dq_head (mq s))) (mq_claimed s);
  mi_slots : ∀ pos, dq_head (mq s) <= pos < dq_tail (mq s) →
    (∃ t, owns (mq_threads s t) pos) ∨ published s pos;
  mi_threads : ∀ t, thread_ok s (mq_threads s t);
  mi_distinct : ∀ t1 t2 pos, owns (mq_threads s t1) pos → owns (mq_threads s t2) pos → t1 = t2;
  mi_pop : pop_ok s }.

Lemma mpsc_init_inv : mpsc_inv mpsc_init.
Proof.
  pose proof Capacity_pos. split; simpl; try done; try lia.
  - apply length_replicate.
  - intros i d Hd. apply lookup_replicate in Hd as [-> _]. simpl. lia.
Qed.

Lemma set_thread_eq t pc f : set_thread t pc f t = pc.
Proof. unfold set_thread. by rewrite decide_True. Qed.

(** A step of a thread that owns no position before or after it. *)
Lemma inv_thread s t pc :
  mpsc_inv s → (∀ pos, ¬ owns (mq_threads s t) pos) → (∀ pos, ¬ owns pc pos) → thread_ok s pc →
  mpsc_inv (at_thread s t pc).
Proof.
  intros [Hlen Hpos Hcap Hw Hold Hcl Hpo Hsl Hth Hdi Hpop] Hno Hno' Hok.
  split; cbn [at_thread mq mq_claimed mq_popped mq_threads]; try done.
  - intros pos Hp. destruct (Hsl pos Hp) as [[t' Ht]|Hpub]; [left|right; done].
    exists t'. unfold set_thread. case_decide as E; [subst; by destruct (Hno pos)|done].
  - intros t'. unfold set_thread. case_decide; [done|apply Hth].
  - intros t1 t2 pos. unfold set_thread. repeat case_decide; subst; try done;
      [by intros ?%Hno'|by intros _ ?%Hno'|apply Hdi].
Qed.

Lemma inv_consumer s pc :
  mpsc_inv s → pop_ok (at_cons s pc) → mpsc_inv (at_cons s pc).
Proof. by intros [Hlen Hpos Hcap Hw Hold Hcl Hpo Hsl Hth Hdi Hpop] Hok; split. Qed.

Lemma inv_claim s t item tail head :
  mpsc_inv s → mq_threads s t = T_head item tail head → u64 (tail - head) < Capacity →
  dq_tail (mq s) = tail → tail + 1 < 2 ^ 64 →
  mpsc_inv
    {| mq := {| dq_slots := dq_slots (mq s); dq_head := dq_head (mq s); dq_tail := u64 (tail + 1) |};
       mq_threads := set_thread t (T_claimed item tail) (mq_threads s); mq_cons := mq_cons s;
       mq_claimed := mq_claimed s ++ [item]; mq_popped := mq_popped s |}.
Proof.
  intros [Hlen Hpos Hcap Hw Hold Hcl Hpo Hsl Hth Hdi Hpop] Ht Hf <- Hw'.
  pose proof (Hth t) as Hok. rewrite Ht in Hok. simpl in Hok.
  rewrite !wrapu_id in * by (unfold in_u; lia).
  assert (∀ i (x : Z), mq_claimed s !! i = Some x → (mq_claimed s ++ [item]) !! i = Some x) as Hmono.
  { intros i x Hx. by apply lookup_app_l_Some. }
  split; cbn [mq mq_claimed mq_popped mq_threads dq_slots dq_head dq_tail mq_cons]; try done; try lia.
  - intros i d Hd. specialize (Hold i d Hd). lia.
  - rewrite length_app. simpl. lia.
  - by rewrite take_app_le by lia.
  - intros pos Hp. destruct (decide (pos = dq_tail (mq s))) as [->|Hne].
    { left. exists t. by rewrite set_thread_eq. }
    destruct (Hsl pos ltac:(lia)) as [[t' Ht']|(x & Hx & Hd)]; [left|right].
    + exists t'. unfold set_thread. case_decide; [subst; by rewrite Ht in Ht'|done].
    + exists x. split; [by apply Hmono|done].
  - intros t'. unfold set_thread. case_decide as E; [subst t'|].
    + simpl. split_and!; [lia|lia| |].
      * rewrite lookup_app_r by lia. by replace (Z.to_nat _ - _)%nat with 0%nat by lia.
      * destruct (lookup_lt_is_Some_2 (dq_slots (mq s)) (qslot (dq_tail (mq s)))) as [d Hd].
        { rewrite Hlen. apply qslot_lt. }
        exists d. split; [done|]. specialize (Hold _ _ Hd). lia.
    + specialize (Hth t'). destruct (mq_threads s t'); simpl in *; try done; try lia.
      * destruct Hth as (? & ? & ?). split_and!; [lia|lia|by apply Hmono|done].
      * destruct Hth as (? & ? & ?). split_and!; [lia|lia|by apply Hmono|done].
  - intros t1 t2 pos. unfold set_thread.
    assert (∀ t' , owns (mq_threads s t') (dq_tail (mq s)) → False) as Hfresh.
    { intros t' Ho. specialize (Hth t'). destruct (mq_threads s t'); simpl in *; try done; lia. }
    repeat case_decide; subst; try done; simpl.
    + intros <- Ho. by destruct (Hfresh t2).
    + intros Ho <-. by destruct (Hfresh t1).
    + apply Hdi.
  - unfold pop_ok in *. cbn [mq_cons mq dq_head dq_tail]. destruct (mq_cons s); try done; try lia.
    + destruct Hpop as (-> & Hlt & x & Hx & Hd). split_and!; [done|lia|]. exists x. by split; [apply Hmono|].
    + destruct Hpop as (-> & Hlt & (y & Hy & Hd) & Hx).
      split_and!; [done|lia|exists y; by split; [apply Hmono|]|by apply Hmono].
Qed.

(** An unpublished position is not ready, so no one else reads its slot. *)
Lemma owned_not_published s t pos : mpsc_inv s → owns (mq_threads s t) pos → ¬ published s pos.
Proof.
  intros Hinv Ho (x & _ & Hd). pose proof (mi_threads s Hinv t) as Hok.
  destruct (mq_threads s t); simpl in *; try done; subst; destruct Hok as (_ & _ & d & Hd' & Hr & _) || destruct Hok as (_ & _ & d & Hd' & Hr);
    rewrite Hd in Hd'; by simplify_eq.
Qed.

(** The owner of a position changes its slot: the other positions in flight
    have other slots. *)
Lemma inv_owner s t pos x f pc :
  mpsc_inv s → owns (mq_threads s t) pos → mq_claimed s !! Z.to_nat pos = Some x →
  (∀ d, dq_slots (mq s) !! qslot pos = Some d → ds_ready (f d) <= dq_tail (mq s)) →
  let s' := at_thread (with_queue s (set_slot pos f (mq s))) t pc in
  (owns pc pos ∨ published s' pos) → (∀ p, owns pc p → p = pos) → thread_ok s' pc →
  mpsc_inv s'.
Proof.
  intros Hinv Ho Hx Hf s' Hafter Honly Hok.
  pose proof (λ p, owned_not_published s t p Hinv) as Hnp.
  destruct Hinv as [Hlen Hpos Hcap Hw Hold Hcl Hpo Hsl Hth Hdi Hpop].
  assert (dq_head (mq s) <= pos < dq_tail (mq s)) as Hrange.
  { specialize (Hth t). destruct (mq_threads s t); simpl in *; try done; subst; by destruct Hth. }
  assert (∀ p, dq_head (mq s) <= p < dq_tail (mq s) → p ≠ pos →
    dq_slots (mq s') !! qslot p = dq_slots (mq s) !! qslot p) as Hfr.
  { intros p Hp Hne. simpl. apply list_lookup_alter_ne. intros E%qslot_inj; lia. }
  assert (∀ p, dq_head (mq s) <= p < dq_tail (mq s) → p ≠ pos → published s p → published s' p) as Hpub.
  { intros p Hp Hne (y & Hy & Hd). exists y. split; [done|]. by rewrite Hfr. }
  assert (∀ p, published s p → p ≠ pos) as Hpne by (intros p Hp ->; by apply (Hnp pos)).
  split; cbn [s' at_thread with_queue set_slot mq mq_claimed mq_popped mq_threads dq_head dq_tail]; try done.
  - unfold s'. simpl. by rewrite length_alter.
  - intros i d. unfold s'. simpl. destruct (decide (i = qslot pos)) as [->|Hne].
    + rewrite list_lookup_alter_eq. destruct (dq_slots (mq s) !! qslot pos) as [d0|] eqn:E; [|done].
      intros [= <-]. by apply Hf.
    + rewrite list_lookup_alter_ne by done. apply Hold.
  - intros p Hp. destruct (decide (p = pos)) as [->|Hne].
    { destruct Hafter as [Ha|Ha]; [left; exists t; by rewrite set_thread_eq|by right]. }
    destruct (Hsl p Hp) as [[t' Ht']|Hpb]; [left|right; by apply Hpub].
    exists t'. unfold set_thread. case_decide as E; [|done]. subst t'.
    destruct (mq_threads s t); simpl in *; try done; congruence.
  - intros t'. unfold set_thread. case_decide as E; [done|]. specialize (Hth t').
    assert (∀ p, owns (mq_threads s t') p → p ≠ pos) as Hp
      by (intros p Hp ->; by apply E, (Hdi t' t pos)).
    destruct (mq_threads s t') as [| | |y p|y p]; try done.
    + destruct Hth as (Hp' & Hy & d & Hd & Hr). split; [exact Hp'|].
      split; [exact Hy|]. exists d. rewrite Hfr; [done|done|by apply Hp].
    + destruct Hth as (Hp' & Hy & d & Hd & Hr). split; [exact Hp'|].
      split; [exact Hy|]. exists d. rewrite Hfr; [done|done|by apply Hp].
  - intros t1 t2 p. unfold set_thread. repeat case_decide; subst; try done.
    + intros ->%Honly Ho2. by apply (Hdi t t2 pos).
    + intros Ho1 ->%Honly. by apply (Hdi t1 t pos).
    + apply Hdi.
  - unfold pop_ok in *. cbn. destruct (mq_cons s); try done.
    + destruct Hpop as (-> & Hlt & Hpb). split_and!; try done. apply Hpub; [lia|by apply Hpne|done].
    + destruct Hpop as (-> & Hlt & Hpb & Hy). split_and!; try done.
      apply Hpub; [lia|by apply Hpne|done].
Qed.

Lemma inv_consumed s head item :
  mpsc_inv s → mq_cons s = D_taken head item →
  mpsc_inv
    {| mq := {| dq_slots := dq_slots (mq s); dq_head := u64 (head + 1); dq_tail := dq_tail (mq s) |};
       mq_threads := mq_threads s; mq_cons := D_idle; mq_claimed := mq_claimed s;
       mq_popped := mq_popped s ++ [item] |}.
Proof.
  intros Hinv Hc. pose proof (λ t p, owned_not_published s t p Hinv) as Hnp.
  destruct Hinv as [Hlen Hpos Hcap Hw Hold Hcl Hpo Hsl Hth Hdi Hpop].
  unfold pop_ok in Hpop. rewrite Hc in Hpop. destruct Hpop as (-> & Hlt & Hpub & Hx).
  rewrite wrapu_id by (unfold in_u; lia).
  assert (∀ t, ¬ owns (mq_threads s t) (dq_head (mq s))) as Hfree by (intros t Ho; by apply (Hnp t _ Ho)).
  split; cbn [mq mq_claimed mq_popped mq_threads dq_slots dq_head dq_tail]; try done; try lia.
  - replace (Z.to_nat (dq_head (mq s) + 1)) with (S (Z.to_nat (dq_head (mq s)))) by lia.
    by rewrite (take_S_r _ _ _ Hx), Hpo.
  - intros p Hp. apply Hsl. lia.
  - intros t. specialize (Hth t). specialize (Hfree t).
    destruct (mq_threads s t); simpl in *; try done; try lia.
    + destruct Hth as (? & ? & ?). split_and!; try done; lia.
    + destruct Hth as (? & ? & ?). split_and!; try done; lia.
Qed.

Lemma mpsc_step_inv s s' : mpsc_inv s → mpsc_step s s' → mpsc_inv s'.
Proof.
  intros Hinv Hstep. pose proof (mi_pos s Hinv) as Hpos. pose proof (mi_width s Hinv) as Hw.
  destruct Hstep as [s t item Ht|s t item tl Ht|s t item tl hd Ht Hf|s t item tl hd Ht Hf|
    s t item tl hd Ht Hf E Hw'|s t item pos Ht|s t item pos Ht|s Hc|s hd tl Hc He|s hd tl d Hc He Hd Hr|
    s hd tl d Hc He Hd Hr|s hd d Hc Hd|s hd item Hc].
  - apply inv_thread; [done|by intros ?; rewrite Ht; intros []|by intros ? []|simpl; lia].
  - pose proof (mi_threads s Hinv t) as Hok. rewrite Ht in Hok. simpl in Hok.
    apply inv_thread; [done|by intros ?; rewrite Ht; intros []|by intros ? []|simpl; lia].
  - apply inv_thread; [done|by intros ?; rewrite Ht; intros []|by intros ? []|done].
  - apply inv_thread; [done|by intros ?; rewrite Ht; intros []|by intros ? []|simpl; lia].
  - by apply (inv_claim s t item tl hd).
  - pose proof (mi_threads s Hinv t) as Hok. rewrite Ht in Hok. destruct Hok as (Hp & Hx & d & Hd & Hr).
    eapply (inv_owner s t pos item); [done|by rewrite Ht|done| |by left|by intros p|].
    + intros d' Hd'. by apply (mi_old s Hinv _ _ Hd').
    + split; [done|]. split; [done|]. eexists. simpl. rewrite list_lookup_alter_eq, Hd. by split.
  - pose proof (mi_threads s Hinv t) as Hok. rewrite Ht in Hok.
    destruct Hok as (Hp & Hx & d & Hd & Hr & Hi). rewrite wrapu_id by (unfold in_u; lia).
    eapply (inv_owner s t pos item); [done|by rewrite Ht|done| | |done|done].
    + intros d' _. simpl. lia.
    + right. exists item. split; [done|]. simpl. rewrite list_lookup_alter_eq, Hd. simpl. by rewrite Hi.
  - by apply inv_consumer.
  - by apply inv_consumer.
  - by apply inv_consumer.
  - pose proof (mi_pop s Hinv) as Hpop. unfold pop_ok in Hpop. rewrite Hc in Hpop. destruct Hpop as [-> Hle].
    rewrite wrapu_id in Hr by (unfold in_u; lia).
    apply inv_consumer; [done|]. split_and!; [done|simpl; lia|].
    destruct (mi_slots s Hinv (dq_head (mq s)) ltac:(lia)) as [[t Ho]|Hpub]; [|done].
    exfalso. pose proof (mi_threads s Hinv t) as Hok.
    destruct (mq_threads s t); simpl in *; try done; subst; destruct Hok as (_ & _ & d' & Hd' & Hr');
      rewrite Hd in Hd'; simplify_eq; by try destruct Hr'.
  - pose proof (mi_pop s Hinv) as Hpop. unfold pop_ok in Hpop. rewrite Hc in Hpop.
    destruct Hpop as (-> & Hlt & Hpub). apply inv_consumer; [done|]. split_and!; try done.
    destruct Hpub as (x & Hx & Hd'). rewrite Hd in Hd'. by simplify_eq.
  - by apply inv_consumed.
Qed.

(** the deferred-return queue with any number of producers and one consumer.
    In every interleaving of their atomic actions the consumer receives the
    items in the order in which the producers' compare-and-swaps claimed their
    positions, each exactly once and none before it is written; at most the
    capacity is in flight, and no two producers write the same slot. *)
Theorem mpsc_order s :
  rtc mpsc_step mpsc_init s →
  mq_popped s = take (length (mq_popped s)) (mq_claimed s) ∧
  Z.of_nat (length (mq_claimed s)) = dq_tail (mq s) ∧
  Z.of_nat (length (mq_popped s)) = dq_head (mq s) ∧
  dq_tail (mq s) - dq_head (mq s) <= Capacity ∧
  ∀ t1 t2 p1 p2, owns (mq_threads s t1) p1 → owns (mq_threads s t2) p2 → t1 ≠ t2 → qslot p1 ≠ qslot p2.
Proof.
  intros Hrtc. assert (mpsc_inv s) as Hinv.
  { pose proof mpsc_init_inv as H0. generalize dependent mpsc_init. intros s0 Hrtc H0.
    induction Hrtc as [|s0 s1 s2 Hstep _ IH]; [done|]. by eapply IH, mpsc_step_inv. }
  assert (∀ t p, owns (mq_threads s t) p → dq_head (mq s) <= p < dq_tail (mq s)) as Hrange.
  { intros t p Ho. pose proof (mi_threads s Hinv t) as Hok.
    destruct (mq_threads s t); simpl in *; try done; subst; by destruct Hok. }
  destruct Hinv as [Hlen Hpos Hcap Hw Hold Hcl Hpo Hsl Hth Hdi Hpop].
  assert (length (mq_popped s) = Z.to_nat (dq_head (mq s))) as Hl by (rewrite Hpo, length_take; lia).
  split_and!; [by rewrite Hl|done|lia|done|].
  intros t1 t2 p1 p2 H1 H2 Hne E. pose proof (Hrange _ _ H1). pose proof (Hrange _ _ H2).
  apply qslot_inj in E; [|lia]. subst p2. by apply Hne, (Hdi t1 t2 p1).
Qed.

End DeferredQueue.

(** A queue of two slots: one producer claims position 0 and stops there, a
    second one overtakes it, and the consumer finds position 0 not ready. *)
Lemma mpsc_order_witness :
  ∃ s, rtc (mpsc_step 1) (mpsc_init 1) s ∧ mq_claimed s = [7; 9] ∧ dq_tail (mq s) = 2 ∧ mq_popped s = [].
Proof.
  assert (∃ s, rtc (mpsc_step 1) (mpsc_init 1) s ∧ mq_claimed s = [7; 9] ∧ mq_popped s = []) as (s & Hs & Hc & Hp).
  { eexists. split; [|shelve].
    eapply rtc_l; [by apply (push_load 1 _ 0 7)|].
    eapply rtc_l; [by eapply (push_head 1 _ 0 7)|].
    eapply rtc_l; [by eapply (push_cas 1 _ 0 7)|].
    eapply rtc_l; [by apply (push_load 1 _ 1 9)|].
    eapply rtc_l; [by eapply (push_head 1 _ 1 9)|].
    eapply rtc_l; [by eapply (push_cas 1 _ 1 9)|].
    eapply rtc_l; [by eapply (push_write 1 _ 1 9)|].
    eapply rtc_l; [by eapply (push_ready 1 _ 1 9)|].
    eapply rtc_l; [by apply pop_load|].
    eapply rtc_l; [by eapply pop_not_ready|].
    apply rtc_refl. Unshelve. split; reflexivity. }
  destruct (mpsc_order 1 s Hs) as (_ & Ht & _).
  exists s. split; [exact Hs|]. split; [exact Hc|]. split; [|exact Hp].
  rewrite <- Ht, Hc. reflexivity.
Defined.

(** ** The free stack (pool_free_stack.h)

    A Treiber stack of slot addresses: pushes link the node to the head they
    saw and swap it in; one thread pops. *)
Module FreeStack.

Record stack := { head_ : option Z; next_ : gmap Z (option Z) }.

Definition mk_stack : stack := {| head_ := None; next_ := ∅ |}.

(** The compare-and-swap loop of [push] run to its successful iteration. *)
Definition push (node : Z) (s : stack) : stack :=
  {| head_ := Some node; next_ := <[node := head_ s]> (next_ s) |}.

Definition pop (s : stack) : option Z * stack :=
  match head_ s with
  | None => (None, s)
  | Some old => (Some old, {| head_ := default None (next_ s !! old); next_ := next_ s |})
  end.

Definition empty (s : stack) : bool := bool_decide (head_ s = None).

(** The nodes on the stack, top first. *)
Fixpoint linked (h : option Z) (nx : gmap Z (option Z)) (l : list Z) : Prop :=
  match l with
  | [] => h = None
  | n :: l => h = Some n ∧ ∃ h', nx !! n = Some h' ∧ linked h' nx l
  end.

Definition holds (s : stack) (l : list Z) : Prop := linked (head_ s) (next_ s) l.

Lemma linked_insert h nx l n v : n ∉ l → linked h nx l → linked h (<[n := v]> nx) l.
Proof.
  revert h. induction l as [|x l IH]; intros h Hn; [done|]. apply not_elem_of_cons in Hn as [Hx Hl].
  intros (-> & h' & E & Hr). split; [done|]. exists h'. rewrite lookup_insert_ne by done. auto.
Qed.

Lemma push_holds s l n : holds s l → n ∉ l → holds (push n s) (n :: l).
Proof.
  intros Hs Hn. split; [done|]. exists (head_ s). cbn [push next_]. rewrite lookup_insert_eq. split; [done|].
  by apply linked_insert.
Qed.

Lemma pop_holds s l : holds s l →
  match l with
  | [] => pop s = (None, s)
  | n :: l' => ∃ s', pop s = (Some n, s') ∧ holds s' l'
  end.
Proof.
  unfold holds, pop. destruct l as [|n l]; [by intros ->|]. intros (-> & h' & E & Hr).
  rewrite E. eexists. by split.
Qed.

Lemma empty_holds s l : holds s l → empty s = bool_decide (l = []).
Proof. unfold holds, empty. destruct l; [by intros ->|]. by intros (-> & _). Qed.

End FreeStack.
