(* ===== verification/Pools.v ===== *)
(** * The object pool and the control-block pool
    (src/src/types/object_pool.h, control_block_pool.h, pool_exhausted.h)

    Both hand out fixed slots of blocks they own: a free stack, a deferred-return
    queue that releases go through and that the next acquisition drains, and a
    block count; under [forbid_runtime_grow] running out throws.  An object's
    handle remembers the pool epoch it was acquired in: a release after the pool
    was re-armed or destroyed leaks the slot instead of returning it.  Addresses
    of slots are [block * BlockSize + index]. *)

From S2P Require Import Prelude DeferredQueue.

Open Scope string_scope.
Open Scope list_scope.
Open Scope Z_scope.

Definition pool_exhausted (name : string) : string := "object pool exhausted: " +:+ name.

Section Pools.
(** [BlockSize] slots a block (4096 in both pools) and deferred-return queues of
    [2 ^ k] entries (65536). *)
Context (BlockSize : nat) (k : nat).

(** The addresses of a block, in the order its slots are laid out. *)
Definition block_slots (b : Z) : list Z :=
  (λ i, b * Z.of_nat BlockSize + i) <$> seqZ 0 (Z.of_nat BlockSize).

Definition push_all (ns : list Z) (s : FreeStack.stack) : FreeStack.stack :=
  foldl (λ s n, FreeStack.push n s) s ns.

(** [while (deferred_returns_.try_pop(ptr)) free.push(ptr)], at most one round
    per pending entry. *)
Fixpoint drain_loop (fuel : nat) (q : dqueue) (s : FreeStack.stack) : dqueue * FreeStack.stack :=
  match fuel with
  | O => (q, s)
  | S fuel =>
      match dq_try_pop k q with
      | (Some n, q') => drain_loop fuel q' (FreeStack.push n s)
      | (None, q') => (q', s)
      end
  end.

Definition drain (q : dqueue) (s : FreeStack.stack) : dqueue * FreeStack.stack :=
  drain_loop (S (Z.to_nat (pending q))) q s.

(** ** ControlBlockPool *)

Record ControlBlockPool := {
  cb_blocks : Z;
  cb_free : FreeStack.stack;
  cb_deferred : dqueue;
  cb_block_count : Z;
  cb_in_use : Z;
  cb_grow_count : Z;
  cb_overflow : Z;
  cb_forbid : bool;
  cb_name : string }.

(** The batch is linked from its first slot to its last and pushed from its
    head, the last slot first. *)
Definition cb_grow (count_runtime_grow : bool) (p : ControlBlockPool) : ControlBlockPool :=
  {| cb_blocks := cb_blocks p + 1; cb_free := push_all (rev (block_slots (cb_blocks p))) (cb_free p);
     cb_deferred := cb_deferred p; cb_block_count := cb_blocks p + 1; cb_in_use := cb_in_use p;
     cb_grow_count := if count_runtime_grow then u64 (cb_grow_count p + 1) else cb_grow_count p;
     cb_overflow := cb_overflow p; cb_forbid := cb_forbid p; cb_name := cb_name p |}.

Definition mk_ControlBlockPool : ControlBlockPool :=
  cb_grow false
    {| cb_blocks := 0; cb_free := FreeStack.mk_stack; cb_deferred := mk_dqueue k;
       cb_block_count := 0; cb_in_use := 0; cb_grow_count := 0; cb_overflow := 0;
       cb_forbid := false; cb_name := "control_block_pool" |}.

Definition cb_set (q : dqueue) (s : FreeStack.stack) (p : ControlBlockPool) : ControlBlockPool :=
  {| cb_blocks := cb_blocks p; cb_free := s; cb_deferred := q; cb_block_count := cb_block_count p;
     cb_in_use := cb_in_use p; cb_grow_count := cb_grow_count p; cb_overflow := cb_overflow p;
     cb_forbid := cb_forbid p; cb_name := cb_name p |}.

Definition cb_drain (p : ControlBlockPool) : ControlBlockPool :=
  let '(q, s) := drain (cb_deferred p) (cb_free p) in cb_set q s p.

Definition cb_defer_release (n : Z) (p : ControlBlockPool) : ControlBlockPool :=
  let '(ok, q) := dq_try_push k n (cb_deferred p) in
  if ok then cb_set q (cb_free p) p else
  let p1 := cb_set q (FreeStack.push n (cb_free p)) p in
  {| cb_blocks := cb_blocks p1; cb_free := cb_free p1; cb_deferred := cb_deferred p1;
     cb_block_count := cb_block_count p1; cb_in_use := cb_in_use p1; cb_grow_count := cb_grow_count p1;
     cb_overflow := u64 (cb_overflow p1 + 1); cb_forbid := cb_forbid p1; cb_name := cb_name p1 |}.

Definition cb_pop (p0 : ControlBlockPool) : exc Z * ControlBlockPool :=
  let p := cb_drain p0 in
  match FreeStack.pop (cb_free p) with
  | (Some n, s) => (Ret n, cb_set (cb_deferred p) s p)
  | (None, _) =>
      if FreeStack.empty (cb_free p) && cb_forbid p
      then (Throw (pool_exhausted (cb_name p)), p)
      else
        let p1 := if FreeStack.empty (cb_free p) then cb_grow true p else p in
        match FreeStack.pop (cb_free p1) with
        | (Some n, s) => (Ret n, cb_set (cb_deferred p1) s p1)
        | (None, _) => (Throw (pool_exhausted (cb_name p1)), p1)
        end
  end.

Definition cb_count (d : Z) (p : ControlBlockPool) : ControlBlockPool :=
  {| cb_blocks := cb_blocks p; cb_free := cb_free p; cb_deferred := cb_deferred p;
     cb_block_count := cb_block_count p; cb_in_use := u64 (cb_in_use p + d);
     cb_grow_count := cb_grow_count p; cb_overflow := cb_overflow p; cb_forbid := cb_forbid p;
     cb_name := cb_name p |}.

Definition acquire_slot (p : ControlBlockPool) : exc Z * ControlBlockPool :=
  match cb_pop p with
  | (Ret n, p') => (Ret n, cb_count 1 p')
  | (Throw w, p') => (Throw w, p')
  end.

Definition release_slot (n : option Z) (p : ControlBlockPool) : ControlBlockPool :=
  match n with
  | None => p
  | Some n => cb_count (-1) (cb_defer_release n p)
  end.

(** control_block_allocator: one control block at a time, and only from a pool. *)
Definition cb_allocate (wired : bool) (n : Z) (p : ControlBlockPool) : exc Z * ControlBlockPool :=
  if negb wired || negb (n =? 1) then (Throw "std::bad_alloc", p) else acquire_slot p.

Definition cb_deallocate (wired : bool) (ptr : option Z) (n : Z) (p : ControlBlockPool) : ControlBlockPool :=
  if wired && bool_decide (is_Some ptr) && (n =? 1) then release_slot ptr p else p.

Definition cb_set_pool_name (n : string) (p : ControlBlockPool) : ControlBlockPool :=
  {| cb_blocks := cb_blocks p; cb_free := cb_free p; cb_deferred := cb_deferred p;
     cb_block_count := cb_block_count p; cb_in_use := cb_in_use p; cb_grow_count := cb_grow_count p;
     cb_overflow := cb_overflow p; cb_forbid := cb_forbid p;
     cb_name := if bool_decide (n = "") then "control_block_pool" else n |}.

Definition cb_set_forbid (f : bool) (p : ControlBlockPool) : ControlBlockPool :=
  {| cb_blocks := cb_blocks p; cb_free := cb_free p; cb_deferred := cb_deferred p;
     cb_block_count := cb_block_count p; cb_in_use := cb_in_use p; cb_grow_count := cb_grow_count p;
     cb_overflow := cb_overflow p; cb_forbid := f; cb_name := cb_name p |}.

(** [while (blocks_.size() < min_blocks) grow(false)] *)
Definition cb_ensure_min_blocks (m : Z) (p : ControlBlockPool) : ControlBlockPool :=
  Nat.iter (Z.to_nat (m - cb_blocks p)) (cb_grow false) p.

Definition cb_capacity_slots (p : ControlBlockPool) : Z := cb_block_count p * Z.of_nat BlockSize.

(** ** ObjectPool *)

Record ObjectPool := {
  op_free : FreeStack.stack;
  op_blocks : Z;
  op_block_count : Z;
  op_in_use : Z;
  op_grow_count : Z;
  op_alive : bool;
  op_epoch : Z;
  op_forbid : bool;
  op_name : string;
  op_deferred : dqueue;
  op_cb : bool }.

(** A shared pointer to a pooled object: its slot, the epoch its deleter
    remembers, and the control block's slot when that is pooled too. *)
Record handle := { h_slot : Z; h_epoch : Z; h_cb : option Z }.

Definition op_with (s : FreeStack.stack) (q : dqueue) (p : ObjectPool) : ObjectPool :=
  {| op_free := s; op_blocks := op_blocks p; op_block_count := op_block_count p;
     op_in_use := op_in_use p; op_grow_count := op_grow_count p; op_alive := op_alive p;
     op_epoch := op_epoch p; op_forbid := op_forbid p; op_name := op_name p; op_deferred := q;
     op_cb := op_cb p |}.

Definition op_grow (count_runtime_grow : bool) (p : ObjectPool) : ObjectPool :=
  {| op_free := push_all (block_slots (op_blocks p)) (op_free p); op_blocks := op_blocks p + 1;
     op_block_count := op_blocks p + 1; op_in_use := op_in_use p;
     op_grow_count := if count_runtime_grow then u64 (op_grow_count p + 1) else op_grow_count p;
     op_alive := op_alive p; op_epoch := op_epoch p; op_forbid := op_forbid p; op_name := op_name p;
     op_deferred := op_deferred p; op_cb := op_cb p |}.

Definition mk_ObjectPool : ObjectPool :=
  op_grow false
    {| op_free := FreeStack.mk_stack; op_blocks := 0; op_block_count := 0; op_in_use := 0;
       op_grow_count := 0; op_alive := true; op_epoch := 1; op_forbid := false;
       op_name := "object_pool"; op_deferred := mk_dqueue k; op_cb := false |}.

Definition drain_deferred_returns (p : ObjectPool) : ObjectPool :=
  let '(q, s) := drain (op_deferred p) (op_free p) in
  op_with (if op_alive p then s else op_free p) q p.

Definition op_pop (p0 : ObjectPool) : exc Z * ObjectPool :=
  let p := drain_deferred_returns p0 in
  if FreeStack.empty (op_free p) && op_forbid p then (Throw (pool_exhausted (op_name p)), p) else
  let p1 := if FreeStack.empty (op_free p) then op_grow true p else p in
  match FreeStack.pop (op_free p1) with
  | (Some n, s) => (Ret n, op_with s (op_deferred p1) p1)
  | (None, _) => (Throw (pool_exhausted (op_name p1)), p1)
  end.

Definition op_defer_release (n : Z) (p : ObjectPool) : ObjectPool :=
  let '(ok, q) := dq_try_push k n (op_deferred p) in
  if ok then op_with (op_free p) q p else op_with (FreeStack.push n (op_free p)) q p.

Definition op_count (d : Z) (p : ObjectPool) : ObjectPool :=
  {| op_free := op_free p; op_blocks := op_blocks p; op_block_count := op_block_count p;
     op_in_use := u64 (op_in_use p + d); op_grow_count := op_grow_count p; op_alive := op_alive p;
     op_epoch := op_epoch p; op_forbid := op_forbid p; op_name := op_name p;
     op_deferred := op_deferred p; op_cb := op_cb p |}.

(** The deleter of a pooled object. *)
Definition returner (h : handle) (p : ObjectPool) : ObjectPool :=
  if op_alive p && (op_epoch p =? h_epoch h)
  then op_count (-1) (op_defer_release (h_slot h) p)
  else p.

(** [acquire]: the control block is allocated last; when that throws, the
    shared pointer's constructor runs the deleter on the object. *)
Definition acquire (pc : ObjectPool * ControlBlockPool)
    : exc handle * (ObjectPool * ControlBlockPool) :=
  let '(p, c) := pc in
  match op_pop p with
  | (Throw w, p1) => (Throw w, (p1, c))
  | (Ret n, p1) =>
      let p2 := op_count 1 p1 in
      let h := {| h_slot := n; h_epoch := op_epoch p2; h_cb := None |} in
      if op_cb p2 then
        match cb_allocate (op_cb p2) 1 c with
        | (Ret m, c') => (Ret {| h_slot := n; h_epoch := op_epoch p2; h_cb := Some m |}, (p2, c'))
        | (Throw w, c') => (Throw w, (returner h p2, c'))
        end
      else (Ret h, (p2, c))
  end.

(** The last reference goes: the deleter, then the control block. *)
Definition release (h : handle) (pc : ObjectPool * ControlBlockPool) : ObjectPool * ControlBlockPool :=
  (returner h pc.1, cb_deallocate (bool_decide (is_Some (h_cb h))) (h_cb h) 1 pc.2).

Definition op_set_pool_name (n : string) (p : ObjectPool) : ObjectPool :=
  {| op_free := op_free p; op_blocks := op_blocks p; op_block_count := op_block_count p;
     op_in_use := op_in_use p; op_grow_count := op_grow_count p; op_alive := op_alive p;
     op_epoch := op_epoch p; op_forbid := op_forbid p;
     op_name := if bool_decide (n = "") then "object_pool" else n;
     op_deferred := op_deferred p; op_cb := op_cb p |}.

Definition op_set_forbid (f : bool) (p : ObjectPool) : ObjectPool :=
  {| op_free := op_free p; op_blocks := op_blocks p; op_block_count := op_block_count p;
     op_in_use := op_in_use p; op_grow_count := op_grow_count p; op_alive := op_alive p;
     op_epoch := op_epoch p; op_forbid := f; op_name := op_name p; op_deferred := op_deferred p;
     op_cb := op_cb p |}.

Definition op_set_control_block_pool (wired : bool) (p : ObjectPool) : ObjectPool :=
  {| op_free := op_free p; op_blocks := op_blocks p; op_block_count := op_block_count p;
     op_in_use := op_in_use p; op_grow_count := op_grow_count p; op_alive := op_alive p;
     op_epoch := op_epoch p; op_forbid := op_forbid p; op_name := op_name p;
     op_deferred := op_deferred p; op_cb := wired |}.

Definition op_ensure_min_blocks (m : Z) (p : ObjectPool) : ObjectPool :=
  Nat.iter (Z.to_nat (m - op_blocks p)) (op_grow false) p.

Definition op_set_alive (a : bool) (e : Z) (p : ObjectPool) : ObjectPool :=
  {| op_free := op_free p; op_blocks := op_blocks p; op_block_count := op_block_count p;
     op_in_use := op_in_use p; op_grow_count := op_grow_count p; op_alive := a; op_epoch := e;
     op_forbid := op_forbid p; op_name := op_name p; op_deferred := op_deferred p; op_cb := op_cb p |}.

Definition rearm_for_reuse (p : ObjectPool) : ObjectPool := op_set_alive true (u64 (op_epoch p + 1)) p.
Definition destroy (p : ObjectPool) : ObjectPool := op_set_alive false (op_epoch p) p.

Definition op_capacity_slots (p : ObjectPool) : Z := op_block_count p * Z.of_nat BlockSize.

(** ** Accounting of slots *)

Definition all_slots (blocks : Z) : list Z := seqZ 0 (blocks * Z.of_nat BlockSize).

Lemma block_slots_seq b : block_slots b = seqZ (b * Z.of_nat BlockSize) (Z.of_nat BlockSize).
Proof.
  unfold block_slots. apply list_eq. intros i. rewrite list_lookup_fmap.
  destruct (decide (i < BlockSize)%nat) as [Hi|Hi].
  - rewrite !lookup_seqZ_lt by lia. simpl; repeat f_equal; lia.
  - by rewrite !lookup_seqZ_ge by lia.
Qed.

Lemma all_slots_grow b : 0 <= b → all_slots (b + 1) = all_slots b ++ block_slots b.
Proof.
  intros Hb. unfold all_slots. rewrite block_slots_seq, Z.mul_add_distr_r, Z.mul_1_l.
  rewrite seqZ_app by lia. by rewrite Z.add_0_l.
Qed.

(** Every slot of the blocks is on the stack, in the queue or out, once. *)
Definition slots_ok (s : FreeStack.stack) (q : dqueue) (blocks : Z) (out : list Z) : Prop :=
  0 <= blocks ∧ ∃ fl dl, FreeStack.holds s fl ∧ dq_repr k q dl ∧ fl ++ dl ++ out ≡ₚ all_slots blocks.

Lemma slots_nodup fl dl out blocks : fl ++ dl ++ out ≡ₚ all_slots blocks → NoDup (fl ++ dl ++ out).
Proof. intros ->. apply NoDup_seqZ. Qed.

Lemma push_all_holds ns s l :
  FreeStack.holds s l → NoDup (ns ++ l) → FreeStack.holds (push_all ns s) (rev ns ++ l).
Proof.
  revert s l. induction ns as [|n ns IH]; intros s l Hs Hnd; [done|]. simpl in *.
  apply NoDup_cons in Hnd as [Hn Hnd]. apply not_elem_of_app in Hn as [Hn1 Hn2].
  rewrite <- app_assoc. apply IH; [by apply FreeStack.push_holds|].
  simpl. rewrite <- Permutation_middle. constructor; [|done]. rewrite elem_of_app. tauto.
Qed.

Lemma drain_loop_ok fuel q s fl dl :
  FreeStack.holds s fl → dq_repr k q dl → NoDup (fl ++ dl) → (length dl < fuel)%nat →
  ∃ q' s', drain_loop fuel q s = (q', s') ∧ dq_repr k q' [] ∧ dq_tail q' = dq_tail q ∧ FreeStack.holds s' (rev dl ++ fl).
Proof.
  revert q s fl dl. induction fuel as [|fuel IH]; intros q s fl dl Hs Hq Hnd Hf; [lia|].
  cbn [drain_loop]. pose proof (dq_try_pop_spec k q dl Hq) as Hpop. destruct dl as [|n dl].
  - rewrite Hpop. by exists q, s.
  - destruct Hpop as (q1 & -> & Hq1 & Ht1).
    assert (n ∉ fl) as Hn.
    { apply NoDup_app in Hnd as (_ & Hd & _). intros Hin. apply (Hd n Hin). left. }
    destruct (IH q1 (FreeStack.push n s) (n :: fl) dl) as (q2 & s2 & E & Hq2 & Ht2 & Hs2); try done.
    + by apply FreeStack.push_holds.
    + simpl. by rewrite (Permutation_middle fl dl n).
    + simpl in Hf. lia.
    + exists q2, s2. split_and!; try done; [by rewrite Ht2|]. simpl. by rewrite <- app_assoc.
Qed.

Lemma drain_ok q s fl dl :
  FreeStack.holds s fl → dq_repr k q dl → NoDup (fl ++ dl) →
  ∃ q' s', drain q s = (q', s') ∧ dq_repr k q' [] ∧ dq_tail q' = dq_tail q ∧ FreeStack.holds s' (rev dl ++ fl).
Proof.
  intros Hs Hq Hnd. apply drain_loop_ok; try done. rewrite (dq_pending k q dl Hq). lia.
Qed.

Lemma drain_slots_ok s q blocks out :
  slots_ok s q blocks out →
  ∃ q' s' fl, drain q s = (q', s') ∧ 0 <= blocks ∧ FreeStack.holds s' fl ∧ dq_repr k q' [] ∧
    dq_tail q' = dq_tail q ∧ fl ++ out ≡ₚ all_slots blocks.
Proof.
  intros (Hb & fl & dl & Hs & Hq & Hp). pose proof (slots_nodup _ _ _ _ Hp) as Hnd.
  rewrite app_assoc in Hnd. apply NoDup_app in Hnd as (Hnd & _).
  destruct (drain_ok q s fl dl Hs Hq Hnd) as (q' & s' & E & Hq' & Ht & Hs').
  exists q', s', (rev dl ++ fl). split_and!; try done. rewrite <- Hp, app_assoc.
  apply Permutation_app_tail. rewrite <- (Permutation_rev dl). apply Permutation_app_comm.
Qed.

Lemma grow_slots_ok ns s fl blocks out :
  0 <= blocks → FreeStack.holds s fl → fl ++ out ≡ₚ all_slots blocks → ns ≡ₚ block_slots blocks →
  FreeStack.holds (push_all ns s) (rev ns ++ fl) ∧ (rev ns ++ fl) ++ out ≡ₚ all_slots (blocks + 1).
Proof.
  intros Hb Hs Hp Hns. split.
  - apply push_all_holds; [done|].
    assert (NoDup (ns ++ fl ++ out)) as Hnd.
    { rewrite Hns, Hp, Permutation_app_comm, <- all_slots_grow by done. apply NoDup_seqZ. }
    rewrite app_assoc in Hnd. by apply NoDup_app in Hnd as [? _].
  - rewrite <- app_assoc, Hp, <- (Permutation_rev ns), Hns, all_slots_grow by done. apply Permutation_app_comm.
Qed.

Lemma slots_ok_intro s q blocks fl dl out :
  0 <= blocks → FreeStack.holds s fl → dq_repr k q dl → fl ++ dl ++ out ≡ₚ all_slots blocks →
  slots_ok s q blocks out.
Proof. intros. split; [done|]. by exists fl, dl. Qed.

(** Returning a slot that is out: to the queue, or to the stack when it is full. *)
Lemma defer_slots_ok n s q blocks out1 out2 :
  slots_ok s q blocks (out1 ++ n :: out2) → dq_tail q + 1 < 2 ^ 64 →
  let r := dq_try_push k n q in
  slots_ok (if r.1 then s else FreeStack.push n s) r.2 blocks (out1 ++ out2).
Proof.
  intros (Hb & fl & dl & Hs & Hq & Hp) Hw. pose proof (slots_nodup _ _ _ _ Hp) as Hnd.
  pose proof (dq_try_push_spec k n q dl Hq Hw) as Hpush. cbv zeta.
  destruct (decide (Z.of_nat (length dl) < Capacity k)) as [Hlt|Hge].
  - destruct Hpush as (q' & -> & Hq' & _). cbn [fst snd]. eapply (slots_ok_intro _ _ _ fl); try done.
    rewrite <- Hp, <- app_assoc. simpl. by rewrite <- (Permutation_middle out1).
  - rewrite Hpush. cbn [fst snd]. eapply (slots_ok_intro _ _ _ (n :: fl)); try done.
    + apply FreeStack.push_holds; [done|]. apply NoDup_app in Hnd as (_ & Hd & _). intros Hin.
      apply (Hd n Hin). rewrite !elem_of_app, elem_of_cons. auto.
    + rewrite <- Hp. simpl. rewrite (Permutation_middle fl). apply Permutation_app_head.
      rewrite (Permutation_middle dl). apply Permutation_app_head. by rewrite <- (Permutation_middle out1).
Qed.

Context (BlockSize_pos : (0 < BlockSize)%nat).

Definition op_ok (p : ObjectPool) (out : list Z) : Prop :=
  slots_ok (op_free p) (op_deferred p) (op_blocks p) out ∧ op_block_count p = op_blocks p.
Definition cb_ok (c : ControlBlockPool) (out : list Z) : Prop :=
  slots_ok (cb_free c) (cb_deferred c) (cb_blocks c) out ∧ cb_block_count c = cb_blocks c.

(** The fields of an object pool that a pop does not touch. *)
Definition op_same (p p' : ObjectPool) : Prop :=
  op_alive p' = op_alive p ∧ op_epoch p' = op_epoch p ∧ op_in_use p' = op_in_use p ∧
  op_forbid p' = op_forbid p ∧ op_name p' = op_name p ∧ op_cb p' = op_cb p ∧
  dq_tail (op_deferred p') = dq_tail (op_deferred p).

Lemma rev_block_nonempty b (fl : list Z) ns :
  ns ≡ₚ block_slots b → ∃ n l, rev ns ++ fl = n :: l.
Proof.
  intros Hns. destruct (rev ns) as [|n l] eqn:E; [|by exists n, (l ++ fl)].
  exfalso. assert (length ns = BlockSize) as Hl.
  { rewrite Hns, block_slots_seq, length_seqZ. lia. }
  rewrite <- length_rev, E in Hl. simpl in Hl. lia.
Qed.

Lemma op_pop_spec p out :
  op_ok p out → op_alive p = true →
  ∃ r p', op_pop p = (r, p') ∧ op_same p p' ∧
    ((∃ n, r = Ret n ∧ n ∉ out ∧ op_ok p' (n :: out)) ∨
     (r = Throw (pool_exhausted (op_name p)) ∧ op_forbid p = true ∧ op_ok p' out ∧
      out ≡ₚ all_slots (op_blocks p))).
Proof.
  intros [Hok Hbc] Hal. unfold op_pop, drain_deferred_returns.
  destruct (drain_slots_ok _ _ _ _ Hok) as (q & s & fl & -> & Hb & Hs & Hq & Ht & Hp).
  rewrite Hal. cbn [op_with op_free op_forbid op_name op_deferred op_blocks].
  rewrite (FreeStack.empty_holds _ _ Hs). destruct fl as [|n fl]; cbn [bool_decide].
  - rewrite bool_decide_true by done. destruct (op_forbid p) eqn:Ef; cbn [andb].
    + eexists _, _. split; [done|]. split; [done|]. right. split_and!; try done.
      split; [|done]. eapply (slots_ok_intro _ _ _ [] []); done.
    + destruct (grow_slots_ok (block_slots (op_blocks p)) s [] (op_blocks p) out Hb Hs Hp (Permutation_refl _))
        as [Hs' Hp'].
      destruct (rev_block_nonempty (op_blocks p) [] _ (Permutation_refl _)) as (n & l & E). rewrite E in Hs', Hp'.
      cbn [op_grow op_free op_blocks op_with op_deferred op_in_use].
      destruct (FreeStack.pop_holds _ _ Hs') as (s2 & -> & Hs2).
      eexists _, _. split; [done|]. split; [done|]. left. exists n. split; [done|].
      assert (NoDup (n :: l ++ out)) as Hnd by (simpl in Hp'; rewrite Hp'; apply NoDup_seqZ).
      apply NoDup_cons in Hnd as [Hn _]. rewrite elem_of_app in Hn. split; [tauto|].
      split; [|done]. eapply (slots_ok_intro _ _ _ l []); try done; [cbn; lia|].
      cbn. rewrite <- Hp'. simpl. by rewrite Permutation_middle.
  - rewrite bool_decide_false by done. cbn [andb].
    cbn [op_free op_blocks op_with op_deferred].
    destruct (FreeStack.pop_holds _ _ Hs) as (s2 & -> & Hs2).
    eexists _, _. split; [done|]. split; [done|]. left. exists n. split; [done|].
    assert (NoDup (n :: fl ++ out)) as Hnd by (simpl in Hp; rewrite Hp; apply NoDup_seqZ).
    apply NoDup_cons in Hnd as [Hn _]. rewrite elem_of_app in Hn. split; [tauto|].
    split; [|done]. eapply (slots_ok_intro _ _ _ fl []); try done.
    cbn. rewrite <- Hp. simpl. by rewrite Permutation_middle.
Qed.

Lemma acquire_slot_spec c out :
  cb_ok c out →
  ∃ r c', acquire_slot c = (r, c') ∧
    ((∃ n, r = Ret n ∧ n ∉ out ∧ cb_ok c' (n :: out) ∧ cb_in_use c' = u64 (cb_in_use c + 1)) ∨
     (r = Throw (pool_exhausted (cb_name c)) ∧ cb_forbid c = true ∧ cb_ok c' out ∧
      cb_in_use c' = cb_in_use c ∧ out ≡ₚ all_slots (cb_blocks c))).
Proof.
  intros [Hok Hbc]. unfold acquire_slot, cb_pop, cb_drain.
  destruct (drain_slots_ok _ _ _ _ Hok) as (q & s & fl & -> & Hb & Hs & Hq & Ht & Hp).
  cbn [cb_set cb_free cb_forbid cb_name cb_deferred cb_blocks].
  pose proof (FreeStack.pop_holds _ _ Hs) as Hpop. destruct fl as [|n fl].
  - rewrite Hpop. rewrite (FreeStack.empty_holds _ _ Hs), bool_decide_true by done. cbn [andb].
    destruct (cb_forbid c) eqn:Ef.
    + eexists _, _. split; [done|]. right. split_and!; try done.
      split; [|done]. eapply (slots_ok_intro _ _ _ [] []); done.
    + assert (rev (block_slots (cb_blocks c)) ≡ₚ block_slots (cb_blocks c)) as Hr
        by (by rewrite <- Permutation_rev).
      destruct (grow_slots_ok _ s [] (cb_blocks c) out Hb Hs Hp Hr) as [Hs' Hp'].
      destruct (rev_block_nonempty (cb_blocks c) [] _ Hr) as (n & l & E). rewrite E in Hs', Hp'.
      cbn [cb_grow cb_free cb_blocks cb_set cb_deferred].
      destruct (FreeStack.pop_holds _ _ Hs') as (s2 & -> & Hs2).
      eexists _, _. split; [done|]. left. exists n. split; [done|].
      assert (NoDup (n :: l ++ out)) as Hnd by (simpl in Hp'; rewrite Hp'; apply NoDup_seqZ).
      apply NoDup_cons in Hnd as [Hn _]. rewrite elem_of_app in Hn. split; [tauto|]. split; [|done].
      split; [|done]. eapply (slots_ok_intro _ _ _ l []); try done; [cbn; lia|].
      cbn. rewrite <- Hp'. simpl. by rewrite Permutation_middle.
  - destruct Hpop as (s2 & -> & Hs2).
    eexists _, _. split; [done|]. left. exists n. split; [done|].
    assert (NoDup (n :: fl ++ out)) as Hnd by (simpl in Hp; rewrite Hp; apply NoDup_seqZ).
    apply NoDup_cons in Hnd as [Hn _]. rewrite elem_of_app in Hn. split; [tauto|]. split; [|done].
    split; [|done]. eapply (slots_ok_intro _ _ _ fl []); try done.
    cbn. rewrite <- Hp. simpl. by rewrite Permutation_middle.
Qed.

Lemma op_defer_ok n p out1 out2 :
  op_ok p (out1 ++ n :: out2) → dq_tail (op_deferred p) + 1 < 2 ^ 64 →
  op_ok (op_defer_release n p) (out1 ++ out2).
Proof.
  intros [Hok Hbc] Hw. pose proof (defer_slots_ok n _ _ _ out1 out2 Hok Hw) as Hd.
  unfold op_defer_release. destruct (dq_try_push k n (op_deferred p)) as [ok q]. cbn [fst snd] in Hd.
  destruct ok; by split.
Qed.

Lemma release_slot_ok n c out1 out2 :
  cb_ok c (out1 ++ n :: out2) → dq_tail (cb_deferred c) + 1 < 2 ^ 64 →
  cb_ok (release_slot (Some n) c) (out1 ++ out2).
Proof.
  intros [Hok Hbc] Hw. pose proof (defer_slots_ok n _ _ _ out1 out2 Hok Hw) as Hd.
  unfold release_slot, cb_defer_release. destruct (dq_try_push k n (cb_deferred c)) as [ok q].
  cbn [fst snd] in Hd. destruct ok; by split.
Qed.

Lemma op_grow_ok g p out : op_ok p out → op_ok (op_grow g p) out.
Proof.
  intros [(Hb & fl & dl & Hs & Hq & Hp) Hbc].
  destruct (grow_slots_ok (block_slots (op_blocks p)) (op_free p) fl (op_blocks p) (dl ++ out)
    Hb Hs Hp (Permutation_refl _)) as [Hs' Hp'].
  split; [|done]. eapply (slots_ok_intro _ _ _ _ dl); try done. cbn [op_grow op_blocks]. lia.
Qed.

Lemma cb_grow_ok g c out : cb_ok c out → cb_ok (cb_grow g c) out.
Proof.
  intros [(Hb & fl & dl & Hs & Hq & Hp) Hbc].
  assert (rev (block_slots (cb_blocks c)) ≡ₚ block_slots (cb_blocks c)) as Hr
    by (by rewrite <- Permutation_rev).
  destruct (grow_slots_ok _ (cb_free c) fl (cb_blocks c) (dl ++ out) Hb Hs Hp Hr) as [Hs' Hp'].
  split; [|done]. eapply (slots_ok_intro _ _ _ _ dl); try done. cbn [cb_grow cb_blocks]. lia.
Qed.

Lemma op_ensure_ok m p out : op_ok p out → op_ok (op_ensure_min_blocks m p) out.
Proof. intros Hok. unfold op_ensure_min_blocks. apply (Nat.iter_invariant _ _ _ (λ p, op_ok p out)); [|done]. intros p' Hp'. by apply op_grow_ok. Qed.

Lemma cb_ensure_ok m c out : cb_ok c out → cb_ok (cb_ensure_min_blocks m c) out.
Proof. intros Hok. unfold cb_ensure_min_blocks. apply (Nat.iter_invariant _ _ _ (λ c, cb_ok c out)); [|done]. intros p' Hp'. by apply cb_grow_ok. Qed.

(** [ensure_min_blocks] keeps the counters. *)
Lemma op_ensure_same m p : op_same p (op_ensure_min_blocks m p).
Proof. unfold op_ensure_min_blocks. apply (Nat.iter_invariant _ _ _ (op_same p)); [|done]. intros p' Hp'. exact Hp'. Qed.

Lemma cb_ensure_in_use m c : cb_in_use (cb_ensure_min_blocks m c) = cb_in_use c.
Proof. unfold cb_ensure_min_blocks. apply (Nat.iter_invariant _ _ _ (λ c', cb_in_use c' = cb_in_use c)); [|done]. intros c' Hc'. exact Hc'. Qed.

Lemma mk_ObjectPool_ok : op_ok mk_ObjectPool [].
Proof.
  apply op_grow_ok. split; [|done]. eapply (slots_ok_intro _ _ _ [] []); try done. apply mk_dqueue_repr.
Qed.

Lemma mk_ControlBlockPool_ok : cb_ok mk_ControlBlockPool [].
Proof.
  apply cb_grow_ok. split; [|done]. eapply (slots_ok_intro _ _ _ [] []); try done. apply mk_dqueue_repr.
Qed.

Lemma op_drain_ok p out :
  op_ok p out → op_alive p = true → op_ok (drain_deferred_returns p) out.
Proof.
  intros [Hok Hbc] Hal. unfold drain_deferred_returns.
  destruct (drain_slots_ok _ _ _ _ Hok) as (q & s & fl & -> & Hb & Hs & Hq & Ht & Hp). rewrite Hal.
  split; [|done]. by eapply (slots_ok_intro _ _ _ fl []).
Qed.

Lemma drain_same p out :
  op_ok p out → op_same p (drain_deferred_returns p).
Proof.
  intros [Hok Hbc]. unfold drain_deferred_returns.
  by destruct (drain_slots_ok _ _ _ _ Hok) as (q & s & fl & -> & Hb & Hs & Hq & Ht & Hp).
Qed.

(** ** The pools in use *)

(** The two pools, the shared pointers that exist, and the slots that were
    leaked by releases across an epoch or after the destruction. *)
Record pool_world := {
  w_op : ObjectPool;
  w_cb : ControlBlockPool;
  w_live : list handle;
  w_leaked : list Z }.

Definition w_init : pool_world :=
  {| w_op := mk_ObjectPool; w_cb := mk_ControlBlockPool; w_live := []; w_leaked := [] |}.

Definition goes_back (h : handle) (p : ObjectPool) : bool := op_alive p && (op_epoch p =? h_epoch h).

(** The calls on a pool that exists, and the releases that may come after it is
    gone.  A deferred queue's positions do not wrap. *)
Inductive world_step : pool_world → pool_world → Prop :=
| w_acquire w h p c :
    op_alive (w_op w) = true → acquire (w_op w, w_cb w) = (Ret h, (p, c)) →
    dq_tail (op_deferred (w_op w)) + 1 < 2 ^ 64 →
    world_step w {| w_op := p; w_cb := c; w_live := h :: w_live w; w_leaked := w_leaked w |}
| w_acquire_throw w e p c :
    op_alive (w_op w) = true → acquire (w_op w, w_cb w) = (Throw e, (p, c)) →
    dq_tail (op_deferred (w_op w)) + 1 < 2 ^ 64 →
    world_step w {| w_op := p; w_cb := c; w_live := w_live w; w_leaked := w_leaked w |}
| w_release w h l1 l2 :
    w_live w = l1 ++ h :: l2 →
    dq_tail (op_deferred (w_op w)) + 1 < 2 ^ 64 → dq_tail (cb_deferred (w_cb w)) + 1 < 2 ^ 64 →
    world_step w
      {| w_op := (release h (w_op w, w_cb w)).1; w_cb := (release h (w_op w, w_cb w)).2;
         w_live := l1 ++ l2;
         w_leaked := if goes_back h (w_op w) then w_leaked w else h_slot h :: w_leaked w |}
| w_pool w f :
    op_alive (w_op w) = true →
    f ∈ [drain_deferred_returns; rearm_for_reuse; destroy] ∨
    (∃ m, f = op_ensure_min_blocks m) ∨ (∃ b, f = op_set_forbid b) ∨
    (∃ n, f = op_set_pool_name n) ∨ (∃ b, f = op_set_control_block_pool b) →
    world_step w {| w_op := f (w_op w); w_cb := w_cb w; w_live := w_live w; w_leaked := w_leaked w |}
| w_control w f :
    (∃ m, f = cb_ensure_min_blocks m) ∨ (∃ b, f = cb_set_forbid b) ∨ (∃ n, f = cb_set_pool_name n) →
    world_step w {| w_op := w_op w; w_cb := f (w_cb w); w_live := w_live w; w_leaked := w_leaked w |}.

Definition out_slots (w : pool_world) : list Z := (h_slot <$> w_live w) ++ w_leaked w.
Definition out_blocks (w : pool_world) : list Z := omap h_cb (w_live w).

Record world_ok (w : pool_world) : Prop := {
  wo_op : op_ok (w_op w) (out_slots w);
  wo_cb : cb_ok (w_cb w) (out_blocks w);
  wo_op_use : op_in_use (w_op w) = u64 (Z.of_nat (length (out_slots w)));
  wo_cb_use : cb_in_use (w_cb w) = u64 (Z.of_nat (length (out_blocks w))) }.

(** The deleter's counter after a slot goes back. *)
Lemma op_defer_release_use n p : op_in_use (op_defer_release n p) = op_in_use p.
Proof. unfold op_defer_release. by destruct (dq_try_push k n (op_deferred p)) as [[] q]. Qed.

Lemma cb_defer_release_use n c : cb_in_use (cb_defer_release n c) = cb_in_use c.
Proof. unfold cb_defer_release. by destruct (dq_try_push k n (cb_deferred c)) as [[] q]. Qed.

Lemma op_defer_same n p :
  op_alive (op_defer_release n p) = op_alive p.
Proof. unfold op_defer_release. by destruct (dq_try_push k n (op_deferred p)) as [[] q]. Qed.

(** What the pools promise of an acquisition while [out] and [cbs] are taken. *)
Lemma acquire_spec p c out cbs :
  op_ok p out → cb_ok c cbs → op_alive p = true → dq_tail (op_deferred p) + 1 < 2 ^ 64 →
  u64 (op_in_use p) = op_in_use p →
  ∃ r p' c', acquire (p, c) = (r, (p', c')) ∧ op_alive p' = true ∧
    match r with
    | Ret h =>
        h_slot h ∉ out ∧ h_epoch h = op_epoch p ∧ op_ok p' (h_slot h :: out) ∧
        op_in_use p' = u64 (op_in_use p + 1) ∧
        match h_cb h with
        | Some n => op_cb p = true ∧ n ∉ cbs ∧ cb_ok c' (n :: cbs) ∧ cb_in_use c' = u64 (cb_in_use c + 1)
        | None => op_cb p = false ∧ c' = c
        end
    | Throw w =>
        op_ok p' out ∧ cb_ok c' cbs ∧ op_in_use p' = op_in_use p ∧ cb_in_use c' = cb_in_use c ∧
        ((op_forbid p = true ∧ w = pool_exhausted (op_name p) ∧ out ≡ₚ all_slots (op_blocks p)) ∨
         (op_cb p = true ∧ cb_forbid c = true ∧ w = pool_exhausted (cb_name c) ∧
          cbs ≡ₚ all_slots (cb_blocks c)))
    end.
Proof.
  intros Hp Hc Hal Hw Hu. unfold acquire.
  destruct (op_pop_spec p out Hp Hal) as (r & p1 & -> & (Hal1 & He1 & Hu1 & Hf1 & Hn1 & Hcb1 & Ht1) & Hr).
  destruct Hr as [(n & -> & Hn & Hp1)|(-> & Hf & Hp1 & Hfull)].
  2:{ eexists _, _, _. split; [done|]. split; [congruence|]. split_and!; try done. by left. }
  cbn [op_count op_cb op_epoch]. rewrite Hcb1, He1. destruct (op_cb p) eqn:Ecb.
  2:{ eexists _, _, _. split; [done|]. cbn [op_count op_in_use op_alive h_cb h_slot h_epoch].
      rewrite Hu1. split_and!; try done; congruence. }
  cbn [cb_allocate negb orb Z.eqb Pos.eqb].
  destruct (acquire_slot_spec c cbs Hc) as (r & c1 & -> & [(m & -> & Hm & Hc1 & Hcu)|(-> & Hcf & Hc1 & Hcu & Hfull)]).
  - eexists _, _, _. split; [done|]. cbn [op_count op_in_use op_alive h_cb h_slot h_epoch]. rewrite Hu1.
    split_and!; try done; congruence.
  - eexists _, _, _. split; [done|]. unfold returner. cbn [op_count op_alive op_epoch h_epoch h_slot].
    rewrite Hal1, Hal, He1, Z.eqb_refl. cbn [andb].
    assert (op_ok (op_count 1 p1) ([] ++ n :: out)) as Hp2 by exact Hp1.
    assert (dq_tail (op_deferred (op_count 1 p1)) + 1 < 2 ^ 64) as Hw2 by (cbn [op_count op_deferred]; lia).
    assert (op_in_use (op_count (-1) (op_defer_release n (op_count 1 p1))) = op_in_use p) as Hu2.
    { cbn [op_count op_in_use]. rewrite op_defer_release_use. cbn [op_count op_in_use].
      rewrite wrapu_add_l, Hu1. by replace (op_in_use p + 1 + -1) with (op_in_use p) by lia. }
    split; [|split_and!; try done].
    + cbn [op_count op_alive]. rewrite op_defer_same. cbn [op_count op_alive]. congruence.
    + exact (op_defer_ok n _ [] out Hp2 Hw2).
    + right. done.
Qed.

Lemma u64_pred (l : nat) : u64 (u64 (Z.of_nat (S l)) + -1) = u64 (Z.of_nat l).
Proof. rewrite wrapu_add_l. f_equal. lia. Qed.

(** The last shared pointer to an object goes away. *)
Lemma release_ok w h l1 l2 :
  world_ok w → w_live w = l1 ++ h :: l2 →
  dq_tail (op_deferred (w_op w)) + 1 < 2 ^ 64 → dq_tail (cb_deferred (w_cb w)) + 1 < 2 ^ 64 →
  world_ok
    {| w_op := (release h (w_op w, w_cb w)).1; w_cb := (release h (w_op w, w_cb w)).2;
       w_live := l1 ++ l2;
       w_leaked := if goes_back h (w_op w) then w_leaked w else h_slot h :: w_leaked w |}.
Proof.
  intros [Hp Hc Hpu Hcu] El Hw1 Hw2. unfold out_slots, out_blocks in *. rewrite El in *. clear El.
  rewrite fmap_app, fmap_cons, <- app_assoc in Hp. rewrite omap_app in Hc. cbn [omap list_omap app] in Hc.
  rewrite !length_app, !length_fmap in Hpu. cbn [length] in Hpu. rewrite omap_app in Hcu. cbn [omap list_omap] in Hcu.
  destruct w as [p c live lk]. cbn [w_op w_cb w_live w_leaked] in *.
  split; unfold out_slots, out_blocks; cbn [w_op w_cb w_live w_leaked release fst snd returner].
  - rewrite fmap_app, <- app_assoc. unfold returner. fold (goes_back h p). destruct (goes_back h p).
    + exact (op_defer_ok (h_slot h) _ _ _ Hp Hw1).
    + destruct Hp as [(Hb & fl & dl & Hs & Hq & Hperm) Hbc]. split; [|done].
      eapply slots_ok_intro; try done. rewrite <- Hperm. do 3 f_equiv.
      by rewrite <- (Permutation_middle (h_slot <$> l2) lk (h_slot h)).
  - rewrite omap_app. unfold cb_deallocate. destruct (h_cb h) as [m|]; [|done].
    exact (release_slot_ok m _ _ _ Hc Hw2).
  - unfold returner. fold (goes_back h p). destruct (goes_back h p).
    + cbn [op_count op_in_use]. rewrite op_defer_release_use, Hpu, wrapu_add_l. f_equal.
      rewrite !length_app, length_fmap, !length_app. cbn [length]. lia.
    + rewrite Hpu. f_equal. rewrite !length_app, length_fmap, !length_app. cbn [length]. lia.
  - rewrite omap_app. unfold cb_deallocate. destruct (h_cb h) as [m|]; [|done].
    cbn [is_Some bool_decide andb Z.eqb Pos.eqb release_slot].
    rewrite bool_decide_true by eauto. cbn [andb release_slot cb_count cb_in_use].
    rewrite cb_defer_release_use, Hcu, !length_app. cbn [length].
    rewrite Nat.add_succ_r. apply u64_pred.
Qed.

Lemma w_init_ok : world_ok w_init.
Proof. split; [apply mk_ObjectPool_ok|apply mk_ControlBlockPool_ok|done|done]. Qed.

Lemma world_acquire_ok w h p c :
  world_ok w → op_alive (w_op w) = true → acquire (w_op w, w_cb w) = (Ret h, (p, c)) →
  dq_tail (op_deferred (w_op w)) + 1 < 2 ^ 64 →
  world_ok {| w_op := p; w_cb := c; w_live := h :: w_live w; w_leaked := w_leaked w |}.
Proof.
  intros [Hp Hc Hpu Hcu] Hal E Hw.
  assert (u64 (op_in_use (w_op w)) = op_in_use (w_op w)) as Hu by (rewrite Hpu; apply Z.mod_mod; lia).
  destruct (acquire_spec _ _ _ _ Hp Hc Hal Hw Hu) as (r & p' & c' & E' & _ & Hr).
  rewrite E in E'. simplify_eq. destruct Hr as (Hn & He & Hp' & Hpu' & Hcb).
  assert (∀ l : nat, u64 (u64 (Z.of_nat l) + 1) = u64 (Z.of_nat (S l))) as Hsucc
    by (intros l; rewrite wrapu_add_l; f_equal; lia).
  split; unfold out_slots, out_blocks in *; cbn [w_op w_cb w_live w_leaked] in *.
  - done.
  - cbn [omap list_omap]. destruct (h_cb h) as [m|]; [by destruct Hcb as (_ & _ & ? & _)|].
    by destruct Hcb as [_ ->].
  - rewrite Hpu', Hpu. apply Hsucc.
  - cbn [omap list_omap]. destruct (h_cb h) as [m|]; [|by destruct Hcb as [_ ->]].
    destruct Hcb as (_ & _ & _ & ->). rewrite Hcu. apply Hsucc.
Qed.

Lemma world_throw_ok w e p c :
  world_ok w → op_alive (w_op w) = true → acquire (w_op w, w_cb w) = (Throw e, (p, c)) →
  dq_tail (op_deferred (w_op w)) + 1 < 2 ^ 64 →
  world_ok {| w_op := p; w_cb := c; w_live := w_live w; w_leaked := w_leaked w |}.
Proof.
  intros [Hp Hc Hpu Hcu] Hal E Hw.
  assert (u64 (op_in_use (w_op w)) = op_in_use (w_op w)) as Hu by (rewrite Hpu; apply Z.mod_mod; lia).
  destruct (acquire_spec _ _ _ _ Hp Hc Hal Hw Hu) as (r & p' & c' & E' & _ & Hr).
  rewrite E in E'. simplify_eq. destruct Hr as (Hp' & Hc' & Hpu' & Hcu' & _).
  split; [done|done|rewrite <- Hpu' in Hpu; exact Hpu|rewrite <- Hcu' in Hcu; exact Hcu].
Qed.

Lemma world_step_ok w w' : world_ok w → world_step w w' → world_ok w'.
Proof.
  intros Hok Hstep. destruct Hstep as [w h p c Hal E Hw|w e p c Hal E Hw|w h l1 l2 El Hw1 Hw2|w f Hal Hf|w f Hf].
  - by apply world_acquire_ok.
  - by eapply world_throw_ok.
  - by apply release_ok.
  - destruct Hok as [Hp Hc Hpu Hcu].
    assert (op_ok (f (w_op w)) (out_slots w) ∧ op_in_use (f (w_op w)) = op_in_use (w_op w)) as [Hp' Hu].
    { destruct Hf as [Hf|[[m ->]|[[b ->]|[[n ->]|[b ->]]]]]; [|split|done|done|done].
      - rewrite !elem_of_cons, elem_of_nil in Hf. destruct Hf as [->|[->|[->|[]]]]; [|done|done].
        split; [by apply op_drain_ok|]. by eapply drain_same.
      - by apply op_ensure_ok.
      - apply op_ensure_same. }
    split; try done. cbn [w_op]. by rewrite Hu.
  - destruct Hok as [Hp Hc Hpu Hcu].
    destruct Hf as [[m ->]|[[b ->]|[n ->]]]; split; try done; cbn [w_cb].
    + by apply cb_ensure_ok.
    + by rewrite cb_ensure_in_use.
Qed.

Lemma world_reachable_ok w : rtc world_step w_init w → world_ok w.
Proof.
  intros Hr. pose proof w_init_ok as Hok. generalize dependent w_init. intros w0 Hr Hok.
  induction Hr as [|w0 w1 w2 Hs _ IH]; [done|]. by eapply IH, world_step_ok.
Qed.

Lemma all_slots_range b n : n ∈ all_slots b ↔ 0 <= n < b * Z.of_nat BlockSize.
Proof. unfold all_slots. rewrite elem_of_seqZ. lia. Qed.

(** C9: in every history of acquisitions (of objects whose constructors return),
    releases from any epoch, re-arms, a
    destruction and configuration calls, no two objects that exist share a slot
    or a pooled control block, no leaked slot is in use again, every slot lies
    in a block the pool owns, and the counters are the numbers of slots and
    control blocks that are out, leaked slots included. *)
Theorem pool_slots_exclusive w :
  rtc world_step w_init w →
  NoDup ((h_slot <$> w_live w) ++ w_leaked w) ∧ NoDup (omap h_cb (w_live w)) ∧
  (∀ n, n ∈ (h_slot <$> w_live w) ++ w_leaked w → 0 <= n < op_capacity_slots (w_op w)) ∧
  (∀ n, n ∈ omap h_cb (w_live w) → 0 <= n < cb_capacity_slots (w_cb w)) ∧
  op_in_use (w_op w) = u64 (Z.of_nat (length (w_live w) + length (w_leaked w))) ∧
  cb_in_use (w_cb w) = u64 (Z.of_nat (length (omap h_cb (w_live w)))).
Proof.
  intros Hr. destruct (world_reachable_ok w Hr) as [[(_ & fl & dl & _ & _ & Hp) Hbc]
    [(_ & fl' & dl' & _ & _ & Hc) Hbc'] Hpu Hcu].
  assert (∀ (a b o : list Z) n, a ++ b ++ o ≡ₚ all_slots n → NoDup o ∧ ∀ x, x ∈ o → x ∈ all_slots n) as Hout.
  { intros a b o n E. pose proof (slots_nodup _ _ _ _ E) as Hnd.
    apply NoDup_app in Hnd as (_ & _ & Hnd). apply NoDup_app in Hnd as (_ & _ & Hnd).
    split; [done|]. intros x Hx. rewrite <- E, !elem_of_app. auto. }
  apply Hout in Hp as [Hnd Hin]. apply Hout in Hc as [Hnd' Hin'].
  split_and!; try done.
  - intros n Hn. apply all_slots_range. unfold op_capacity_slots. rewrite Hbc. by apply Hin.
  - intros n Hn. apply all_slots_range. unfold cb_capacity_slots. rewrite Hbc'. by apply Hin'.
  - rewrite Hpu. unfold out_slots. by rewrite length_app, length_fmap.
Qed.

(** an acquisition from a pool that exists returns an object in a slot that
    is neither in use nor leaked, stamped with the current epoch, unless growing
    is forbidden and every slot of the pool, or of the wired control-block pool,
    is out: then it throws [pool_exhausted] with that pool's name and takes
    nothing, also when the object's slot was already popped. *)
Theorem acquire_fresh_or_exhausted w :
  rtc world_step w_init w → op_alive (w_op w) = true →
  dq_tail (op_deferred (w_op w)) + 1 < 2 ^ 64 →
  ∃ r p c, acquire (w_op w, w_cb w) = (r, (p, c)) ∧
    match r with
    | Ret h =>
        h_slot h ∉ (h_slot <$> w_live w) ++ w_leaked w ∧ h_epoch h = op_epoch (w_op w) ∧
        (is_Some (h_cb h) ↔ op_cb (w_op w) = true) ∧
        ∀ n, h_cb h = Some n → n ∉ omap h_cb (w_live w)
    | Throw e =>
        op_in_use p = op_in_use (w_op w) ∧ cb_in_use c = cb_in_use (w_cb w) ∧
        ((op_forbid (w_op w) = true ∧ e = pool_exhausted (op_name (w_op w)) ∧
          Z.of_nat (length (w_live w) + length (w_leaked w)) = op_capacity_slots (w_op w)) ∨
         (op_cb (w_op w) = true ∧ cb_forbid (w_cb w) = true ∧ e = pool_exhausted (cb_name (w_cb w)) ∧
          Z.of_nat (length (omap h_cb (w_live w))) = cb_capacity_slots (w_cb w)))
    end.
Proof.
  intros Hr Hal Hw. destruct (world_reachable_ok w Hr) as [Hp Hc Hpu Hcu].
  assert (u64 (op_in_use (w_op w)) = op_in_use (w_op w)) as Hu by (rewrite Hpu; apply Z.mod_mod; lia).
  destruct (acquire_spec _ _ _ _ Hp Hc Hal Hw Hu) as (r & p & c & E & _ & Hres).
  exists r, p, c. split; [done|]. destruct Hp as [(Hb & _) Hbc]. destruct Hc as [(Hb' & _) Hbc'].
  assert (∀ (o : list Z) b, 0 <= b → o ≡ₚ all_slots b → Z.of_nat (length o) = b * Z.of_nat BlockSize) as Hlen.
  { intros o b Hb0 ->. unfold all_slots. rewrite length_seqZ. nia. }
  destruct r as [h|e].
  - destruct Hres as (Hn & He & _ & _ & Hcb). split_and!; try done.
    + destruct (h_cb h) as [n|]; destruct Hcb as (-> & _); (split; [|done]); [done|by intros [? ?]].
    + intros n En. rewrite En in Hcb. by destruct Hcb as (_ & ? & _).
  - destruct Hres as (_ & _ & Hpu' & Hcu' & [(Hf & -> & Hfull)|(H1 & H2 & -> & Hfull)]); split_and!; try done.
    + left. split_and!; try done. unfold op_capacity_slots. rewrite Hbc, <- (Hlen _ _ Hb Hfull).
      unfold out_slots. by rewrite length_app, length_fmap.
    + right. split_and!; try done. unfold cb_capacity_slots. by rewrite Hbc', <- (Hlen _ _ Hb' Hfull).
Qed.

End Pools.

(** Pools of one block of two slots: an object is acquired and released in its
    epoch, another is taken, the pool re-armed, and the object leaks; the next
    object still gets a fresh slot. *)
Definition sample_acquire (w : pool_world) : pool_world :=
  match acquire 2 1 (w_op w, w_cb w) with
  | (Ret h, (p, c)) => {| w_op := p; w_cb := c; w_live := h :: w_live w; w_leaked := w_leaked w |}
  | (Throw _, (p, c)) => {| w_op := p; w_cb := c; w_live := w_live w; w_leaked := w_leaked w |}
  end.
Definition sample_release (w : pool_world) : pool_world :=
  match w_live w with
  | [] => w
  | h :: l =>
      {| w_op := (release 1 h (w_op w, w_cb w)).1; w_cb := (release 1 h (w_op w, w_cb w)).2; w_live := l;
         w_leaked := if goes_back h (w_op w) then w_leaked w else h_slot h :: w_leaked w |}
  end.
Definition sample_set (f : ObjectPool → ObjectPool) (w : pool_world) : pool_world :=
  {| w_op := f (w_op w); w_cb := w_cb w; w_live := w_live w; w_leaked := w_leaked w |}.

Definition sample_start : pool_world :=
  sample_set (op_set_control_block_pool true) (sample_set (op_set_forbid true) (w_init 2 1)).
Definition sample_leak : pool_world :=
  sample_release (sample_set rearm_for_reuse (sample_acquire (sample_release (sample_acquire sample_start)))).
Definition sample_full : pool_world := sample_acquire sample_leak.

Lemma sample_acquire_step w :
  op_alive (w_op w) = true → dq_tail (op_deferred (w_op w)) + 1 < 2 ^ 64 →
  world_step 2 1 w (sample_acquire w).
Proof.
  intros Hal Hw. unfold sample_acquire. destruct (acquire 2 1 (w_op w, w_cb w)) as [[h|e] [p c]] eqn:E.
  - by apply w_acquire.
  - by eapply w_acquire_throw.
Qed.

Lemma sample_release_steps w :
  dq_tail (op_deferred (w_op w)) + 1 < 2 ^ 64 → dq_tail (cb_deferred (w_cb w)) + 1 < 2 ^ 64 →
  rtc (world_step 2 1) w (sample_release w).
Proof.
  intros H1 H2. unfold sample_release. destruct (w_live w) as [|h l] eqn:El; [done|].
  apply rtc_once. by apply (w_release 2 1 w h [] l).
Qed.

Lemma sample_leak_reachable : rtc (world_step 2 1) (w_init 2 1) sample_leak.
Proof.
  unfold sample_leak, sample_start.
  eapply rtc_l; [apply (w_pool 2 1 _ (op_set_forbid true)); [done|eauto 6]|].
  eapply rtc_l; [apply (w_pool 2 1 _ (op_set_control_block_pool true)); [done|eauto 8]|].
  eapply rtc_l; [apply sample_acquire_step; by vm_compute|].
  etrans; [apply sample_release_steps; by vm_compute|].
  eapply rtc_l; [apply sample_acquire_step; by vm_compute|].
  eapply rtc_l; [apply (w_pool 2 1 _ rearm_for_reuse); [by vm_compute|left; set_solver]|].
  apply sample_release_steps; by vm_compute.
Qed.

Lemma pool_slots_exclusive_witness :
  w_leaked sample_leak = [1] ∧ NoDup ((h_slot <$> w_live sample_leak) ++ w_leaked sample_leak) ∧
  op_in_use (w_op sample_leak) = 1.
Proof.
  destruct (pool_slots_exclusive 2 1 ltac:(lia) sample_leak sample_leak_reachable) as (H1 & _ & _ & _ & H2 & _).
  split; [by vm_compute|]. split; [exact H1|]. rewrite H2. by vm_compute.
Defined.

Lemma acquire_fresh_or_exhausted_witness :
  ∃ r p c, acquire 2 1 (w_op sample_leak, w_cb sample_leak) = (r, (p, c)) ∧
    match r with Ret h => h_slot h ∉ w_leaked sample_leak | Throw _ => False end.
Proof.
  destruct (acquire_fresh_or_exhausted 2 1 ltac:(lia) sample_leak sample_leak_reachable ltac:(by vm_compute) ltac:(by vm_compute))
    as (r & p & c & E & Hr).
  exists r, p, c. split; [exact E|]. destruct r as [h|e]; [|by vm_compute in E].
  destruct Hr as (Hn & _). intros Hin. apply Hn. apply elem_of_app. right. exact Hin.
Defined.
