(* ===== verification/Arith.v ===== *)
(** * The arithmetic of prices, quantities and cash

    The accounting, sizing and risk code computes with [double]s.  It is
    translated once, over an interface [Arith] of the operations it uses; the
    instance [double_arith] is IEEE binary64, which is what the program runs,
    and the instance [exact_arith] is the rational numbers, in which the code's
    algorithms are compared with their specifications free of rounding.
    Theorems that hold of both are proved of every instance. *)

From S2P Require Import Prelude Float64.
From Stdlib Require Import QArith Qabs Qround Lqa.

Open Scope Z_scope.

Class Arith := {
  num : Type;
  n_add : num → num → num;
  n_sub : num → num → num;
  n_mul : num → num → num;
  n_div : num → num → num;
  n_opp : num → num;
  n_abs : num → num;
  n_lt : num → num → bool;
  n_le : num → num → bool;
  n_floor : num → num;
  n_round : num → num;
  (** The literal [n / d]. *)
  n_lit : Z → positive → num;
  (** [x < infinity] and [std::isfinite]. *)
  n_below_inf : num → bool;
  n_finite : num → bool;
  (** [std::llround]; what it gives out of range is unspecified, here zero. *)
  n_llround : num → Z }.

Declare Scope num_scope.
Delimit Scope num_scope with num.
Bind Scope num_scope with num.
Infix "+" := n_add : num_scope.
Infix "-" := n_sub : num_scope.
Infix "*" := n_mul : num_scope.
Infix "/" := n_div : num_scope.
Notation "- x" := (n_opp x) : num_scope.
Infix "<?" := n_lt : num_scope.
Infix "<=?" := n_le : num_scope.
Notation "x >? y" := (n_lt y x) (only parsing) : num_scope.
Notation "x >=? y" := (n_le y x) (only parsing) : num_scope.

Section Derived.
Context `{Arith}.

Definition n_zero : num := n_lit 0 1.
Definition n_one : num := n_lit 1 1.
(** [1e-12] and [1e-9] *)
Definition n_eps : num := n_lit 1 1000000000000.
Definition n_eps9 : num := n_lit 1 1000000000.
(** [std::min], [std::max] *)
Definition n_min (a b : num) : num := if (b <? a)%num then b else a.
Definition n_max (a b : num) : num := if (a <? b)%num then b else a.
(** [std::clamp] *)
Definition n_clamp (v lo hi : num) : num := if (v <? lo)%num then lo else if (hi <? v)%num then hi else v.

End Derived.

(** [std::floor] of a double: the quotient when the exponent is negative. *)
Definition d_floor (d : double) : double :=
  match d with
  | SpecFloat.S754_finite s m e =>
      if (0 <=? e)%Z then d else
      let z := (if s then Zneg m else Zpos m) / 2 ^ (- e) in
      if (z =? 0)%Z then SpecFloat.S754_zero s else d_of_Z z
  | _ => d
  end.

(** [std::round] of a double: halves go away from zero. *)
Definition d_round (d : double) : double :=
  match d with
  | SpecFloat.S754_finite s m e =>
      if (0 <=? e)%Z then d else
      let z := (Zpos m + 2 ^ (- e - 1)) / 2 ^ (- e) in
      if (z =? 0)%Z then SpecFloat.S754_zero s else d_of_Z (if s then - z else z)
  | _ => d
  end.

Definition double_arith : Arith :=
  {| num := double; n_add := d_add; n_sub := d_sub; n_mul := d_mul; n_div := d_div; n_opp := d_opp;
     n_abs := d_abs; n_lt := d_lt; n_le := d_le; n_floor := d_floor; n_round := d_round; n_lit := d_of_ratio;
     n_below_inf := λ x, (x <? d_inf)%D; n_finite := λ x, (d_abs x <? d_inf)%D;
     n_llround := λ x, default 0 (d_round_away x) |}.

Definition Qltb (x y : Q) : bool := negb (Qle_bool y x).

(** Halves away from zero. *)
Definition Q_round (x : Q) : Z :=
  if Qle_bool 0 x then Qfloor (x + (1 # 2)) else - Qfloor (- x + (1 # 2)).

Definition exact_arith : Arith :=
  {| num := Q; n_add := Qplus; n_sub := Qminus; n_mul := Qmult; n_div := Qdiv; n_opp := Qopp;
     n_abs := Qabs; n_lt := Qltb; n_le := Qle_bool; n_floor := λ x, inject_Z (Qfloor x); n_round := λ x, inject_Z (Q_round x);
     n_lit := Qmake; n_below_inf := λ _, true; n_finite := λ _, true; n_llround := Q_round |}.

Lemma Qltb_spec x y : BoolSpec (x < y)%Q (y <= x)%Q (Qltb x y).
Proof.
  unfold Qltb. destruct (Qle_bool y x) eqn:E; constructor.
  - by apply Qle_bool_iff.
  - apply Qnot_le_lt. intros Hle. apply Qle_bool_iff in Hle. congruence.
Qed.

Lemma Qltb_lt x y : (x < y)%Q → Qltb x y = true.
Proof. intros Hlt. destruct (Qltb_spec x y) as [|Hle]; [done|]. by apply Qle_not_lt in Hle. Qed.
Lemma Qltb_ge x y : (y <= x)%Q → Qltb x y = false.
Proof. intros Hle. destruct (Qltb_spec x y) as [Hlt|]; [|done]. by apply Qle_not_lt in Hle. Qed.

Lemma Qltb_true x y : Qltb x y = true ↔ (x < y)%Q.
Proof. destruct (Qltb_spec x y); split; intros; try done; lra. Qed.
Lemma Qltb_false x y : Qltb x y = false ↔ (y <= x)%Q.
Proof. destruct (Qltb_spec x y); split; intros; try done; lra. Qed.

Lemma Qleb_spec x y : BoolSpec (x <= y)%Q (y < x)%Q (Qle_bool x y).
Proof.
  destruct (Qle_bool x y) eqn:E; constructor.
  - by apply Qle_bool_iff.
  - apply Qnot_le_lt. intros Hle. apply Qle_bool_iff in Hle. congruence.
Qed.

Lemma Qleb_false x y : Qle_bool x y = false ↔ (y < x)%Q.
Proof. destruct (Qleb_spec x y); split; intros; try done; lra. Qed.

Lemma Qabs_spec x : ((0 <= x)%Q ∧ (Qabs x == x)%Q) ∨ ((x <= 0)%Q ∧ (Qabs x == - x)%Q).
Proof.
  destruct (Qlt_le_dec x 0) as [Hx|Hx].
  - right. split; [by apply Qlt_le_weak|]. by apply Qabs_neg, Qlt_le_weak.
  - left. split; [done|]. by apply Qabs_pos.
Qed.

Lemma Qmul_mono (a b c d : Q) : (0 <= a → a <= b → 0 <= c → c <= d → a * c <= b * d)%Q.
Proof. intros. nra. Qed.

(** Expose the exact arithmetic and decide the code's comparisons in it. *)
Ltac tt_exact :=
  cbn [num n_add n_sub n_mul n_div n_opp n_abs n_lt n_le n_floor n_round n_lit n_below_inf n_finite n_llround exact_arith] in *.
Ltac tt_compare :=
  repeat match goal with
  | |- context [Qltb ?x ?y] => destruct (Qltb_spec x y)
  | |- context [Qle_bool ?x ?y] => destruct (Qleb_spec x y)
  end.
Ltac tt_abs x := let H1 := fresh "Habs" in let H2 := fresh "Habs" in destruct (Qabs_spec x) as [[H1 H2]|[H1 H2]].
