(* ===== verification/Portfolio.v ===== *)
(** * The portfolio (src/src/execution/portfolio.h, portfolio.cpp)

    Cash, a netted position per symbol, and a table of lots keyed by the order
    that opened them.  The code is translated over the arithmetic interface; the
    theorems on cash, cost basis and lots are those of exact arithmetic, the
    structural ones hold in every arithmetic. *)

From Stdlib Require Import QArith Qabs Lqa.
From S2P Require Import Prelude Float64 Event Arith.

Open Scope string_scope.
Open Scope list_scope.
Open Scope Z_scope.

(** The order in which a range-for visits an unordered map: some order of its
    entries. *)
Class HashOrder := {
  iter : ∀ {K A} `{Countable K}, gmap K A → list (K * A);
  iter_perm : ∀ {K A} `{Countable K} (m : gmap K A), iter m ≡ₚ map_to_list m }.

#[export] Instance list_order : HashOrder :=
  {| iter := λ _ _ _ _ m, map_to_list m; iter_perm := λ _ _ _ _ m, Permutation_refl _ |}.

Section Portfolio.
Context {A : Arith} {HO : HashOrder}.

Record position := { qty : num; cost_basis : num }.
Definition new_position : position := {| qty := n_zero; cost_basis := n_zero |}.

Record lot := {
  lot_symbol : string;
  lot_side : order_side;
  qty_open : num;
  entry_price : num;
  entry_filled_qty : num;
  lot_strategy_name : string;
  ts_open : time_point }.

Record portfolio := {
  initial_balance_ : num;
  cash_ : num;
  positions_ : gmap string position;
  lots_ : gmap Z lot;
  total_trades_ : Z;
  total_fills_ : Z;
  total_funding_pnl_ : num }.

(** What the portfolio reads of a fill. *)
Record fill := {
  f_ts : time_point;
  f_symbol : string;
  f_order_id : Z;
  f_side : order_side;
  f_quantity : num;
  f_price : num;
  f_commission : num;
  f_strategy_name : string;
  f_opener_order_id : Z }.

Definition mk_portfolio (initial_balance : num) : portfolio :=
  {| initial_balance_ := initial_balance; cash_ := initial_balance; positions_ := ∅; lots_ := ∅;
     total_trades_ := 0; total_fills_ := 0; total_funding_pnl_ := n_zero |}.

(** [portfolio()] *)
Definition default_portfolio : portfolio := mk_portfolio (n_lit 10000 1).

(** Commission is prorated between the closing and the opening leg of a flip. *)
Definition comm_for (f : fill) (q : num) : num :=
  if (f_quantity f >? n_eps)%num then (f_commission f * (q / f_quantity f))%num else n_zero.

(** Cash, the symbol's position and the count of round trips. *)
Record net := { nt_cash : num; nt_pos : position; nt_trades : Z }.

(** Close against a short: the bought quantity that is left, after the close. *)
Definition close_short (f : fill) (fill_qty : num) (n : net) : net * num :=
  let pos := nt_pos n in
  let close_qty := n_min fill_qty (- qty pos)%num in
  let frac_closed := (close_qty / - qty pos)%num in
  let cash := (nt_cash n - (close_qty * f_price f + comm_for f close_qty))%num in
  let q := (qty pos + close_qty)%num in
  let cb := (cost_basis pos * (n_one - frac_closed))%num in
  let n' :=
    if (n_abs q <? n_eps)%num
    then {| nt_cash := cash; nt_pos := new_position; nt_trades := u64 (nt_trades n + 1) |}
    else {| nt_cash := cash; nt_pos := {| qty := q; cost_basis := cb |}; nt_trades := nt_trades n |} in
  (n', (fill_qty - close_qty)%num).

Definition close_long (f : fill) (fill_qty : num) (n : net) : net * num :=
  let pos := nt_pos n in
  let close_qty := n_min fill_qty (qty pos) in
  let frac_closed := (close_qty / qty pos)%num in
  let cash := (nt_cash n + (close_qty * f_price f - comm_for f close_qty))%num in
  let q := (qty pos - close_qty)%num in
  let cb := (cost_basis pos * (n_one - frac_closed))%num in
  let n' :=
    if (q <? n_eps)%num
    then {| nt_cash := cash; nt_pos := new_position; nt_trades := u64 (nt_trades n + 1) |}
    else {| nt_cash := cash; nt_pos := {| qty := q; cost_basis := cb |}; nt_trades := nt_trades n |} in
  (n', (fill_qty - close_qty)%num).

Definition open_long (f : fill) (fill_qty : num) (n : net) : net :=
  {| nt_cash := (nt_cash n - (fill_qty * f_price f + comm_for f fill_qty))%num;
     nt_pos := {| qty := (qty (nt_pos n) + fill_qty)%num;
                  cost_basis := (cost_basis (nt_pos n) + (fill_qty * f_price f + comm_for f fill_qty))%num |};
     nt_trades := nt_trades n |}.

Definition open_short (f : fill) (fill_qty : num) (n : net) : net :=
  {| nt_cash := (nt_cash n + (fill_qty * f_price f - comm_for f fill_qty))%num;
     nt_pos := {| qty := (qty (nt_pos n) - fill_qty)%num;
                  cost_basis := (cost_basis (nt_pos n) - (fill_qty * f_price f - comm_for f fill_qty))%num |};
     nt_trades := nt_trades n |}.

Definition net_fill (f : fill) (n : net) : net :=
  if bool_decide (f_side f = side_buy) then
    if (qty (nt_pos n) <? n_zero)%num then
      let '(n1, fill_qty) := close_short f (f_quantity f) n in
      if (fill_qty <? n_eps)%num then n1 else open_long f fill_qty n1
    else open_long f (f_quantity f) n
  else
    if (qty (nt_pos n) >? n_zero)%num then
      let '(n1, fill_qty) := close_long f (f_quantity f) n in
      if (fill_qty <? n_eps)%num then n1 else open_short f fill_qty n1
    else open_short f (f_quantity f) n.

Definition set_net (sym : string) (n : net) (p : portfolio) : portfolio :=
  {| initial_balance_ := initial_balance_ p; cash_ := nt_cash n;
     positions_ := <[sym := nt_pos n]> (positions_ p); lots_ := lots_ p;
     total_trades_ := nt_trades n; total_fills_ := total_fills_ p;
     total_funding_pnl_ := total_funding_pnl_ p |}.

(** [positions_[symbol]] creates a flat position when there is none. *)
Definition position_at (sym : string) (p : portfolio) : position :=
  default new_position (positions_ p !! sym).

Definition apply_netted_fill (f : fill) (p : portfolio) : portfolio :=
  set_net (f_symbol f)
    (net_fill f {| nt_cash := cash_ p; nt_pos := position_at (f_symbol f) p; nt_trades := total_trades_ p |}) p.

Definition set_lots (ls : gmap Z lot) (p : portfolio) : portfolio :=
  {| initial_balance_ := initial_balance_ p; cash_ := cash_ p; positions_ := positions_ p; lots_ := ls;
     total_trades_ := total_trades_ p; total_fills_ := total_fills_ p;
     total_funding_pnl_ := total_funding_pnl_ p |}.

Definition open_lot (f : fill) (strategy_name : string) : lot :=
  {| lot_symbol := f_symbol f; lot_side := f_side f; qty_open := f_quantity f; entry_price := f_price f;
     entry_filled_qty := f_quantity f; lot_strategy_name := strategy_name; ts_open := f_ts f |}.

(** A further partial fill of the opener. *)
Definition extend_lot (f : fill) (l : lot) : lot :=
  let new_filled := (entry_filled_qty l + f_quantity f)%num in
  {| lot_symbol := lot_symbol l; lot_side := lot_side l; qty_open := (qty_open l + f_quantity f)%num;
     entry_price :=
       if (new_filled >? n_zero)%num
       then ((entry_price l * entry_filled_qty l + f_price f * f_quantity f) / new_filled)%num
       else entry_price l;
     entry_filled_qty := new_filled; lot_strategy_name := lot_strategy_name l; ts_open := ts_open l |}.

Definition reduce_lot (f : fill) (l : lot) : lot :=
  {| lot_symbol := lot_symbol l; lot_side := lot_side l; qty_open := (qty_open l - f_quantity f)%num;
     entry_price := entry_price l; entry_filled_qty := entry_filled_qty l;
     lot_strategy_name := lot_strategy_name l; ts_open := ts_open l |}.

Definition apply_lot_fill (f : fill) (opener_order_id : Z) (strategy_name : string) (p : portfolio) : portfolio :=
  let is_opener := opener_order_id =? f_order_id f in
  match is_opener, lots_ p !! opener_order_id with
  | true, None => set_lots (<[opener_order_id := open_lot f strategy_name]> (lots_ p)) p
  | true, Some l => set_lots (<[opener_order_id := extend_lot f l]> (lots_ p)) p
  | false, None => p
  | false, Some l =>
      let l' := reduce_lot f l in
      if (qty_open l' <? n_eps)%num
      then set_lots (delete opener_order_id (lots_ p)) p
      else set_lots (<[opener_order_id := l']> (lots_ p)) p
  end.

Definition count_fill (p : portfolio) : portfolio :=
  {| initial_balance_ := initial_balance_ p; cash_ := cash_ p; positions_ := positions_ p; lots_ := lots_ p;
     total_trades_ := total_trades_ p; total_fills_ := u64 (total_fills_ p + 1);
     total_funding_pnl_ := total_funding_pnl_ p |}.

Definition on_fill_lot (f : fill) (opener_order_id : Z) (strategy_name : string) (p : portfolio) : portfolio :=
  let p1 := apply_netted_fill f (count_fill p) in
  if opener_order_id =? 0 then p1 else apply_lot_fill f opener_order_id strategy_name p1.

(** The legacy entry. *)
Definition on_fill (f : fill) (p : portfolio) : portfolio :=
  on_fill_lot f (if f_opener_order_id f =? 0 then f_order_id f else f_opener_order_id f) (f_strategy_name f) p.

Definition on_funding (cash_delta : num) (p : portfolio) : portfolio :=
  {| initial_balance_ := initial_balance_ p; cash_ := (cash_ p + cash_delta)%num; positions_ := positions_ p;
     lots_ := lots_ p; total_trades_ := total_trades_ p; total_fills_ := total_fills_ p;
     total_funding_pnl_ := (total_funding_pnl_ p + cash_delta)%num |}.

Definition open_lots_by_symbol (symbol : string) (p : portfolio) : list Z :=
  (filter (λ x, lot_symbol x.2 = symbol) (iter (lots_ p))).*1.
Definition open_lots_by_strategy (name : string) (p : portfolio) : list Z :=
  (filter (λ x, lot_strategy_name x.2 = name) (iter (lots_ p))).*1.

Definition is_open (pos : position) : bool := (n_abs (qty pos) >? n_eps)%num.

Definition any_position_open (p : portfolio) : bool := existsb (λ x, is_open x.2) (iter (positions_ p)).
Definition position_open (symbol : string) (p : portfolio) : bool :=
  match positions_ p !! symbol with Some pos => is_open pos | None => false end.

Definition can_afford_any (side : order_side) (quantity price commission : num) (p : portfolio) : bool :=
  if bool_decide (side = side_buy)
  then (cash_ p >=? quantity * price + n_max n_zero commission)%num
  else existsb (λ x, qty x.2 >=? quantity)%num (iter (positions_ p)).

Definition can_afford (symbol : string) (side : order_side) (quantity price commission : num)
    (p : portfolio) : bool :=
  if bool_decide (side = side_buy)
  then (cash_ p >=? quantity * price + n_max n_zero commission)%num
  else match positions_ p !! symbol with Some pos => (qty pos >=? quantity)%num | None => false end.

Definition get_equity (last_price : num) (p : portfolio) : num :=
  foldl (λ e x, if is_open x.2 then (e + qty x.2 * last_price)%num else e) (cash_ p) (iter (positions_ p)).

Definition restore_state (cash : num) (trades : Z) (ps : gmap string position) (p : portfolio) : portfolio :=
  {| initial_balance_ := initial_balance_ p; cash_ := cash; positions_ := ps; lots_ := lots_ p;
     total_trades_ := trades; total_fills_ := total_fills_ p; total_funding_pnl_ := total_funding_pnl_ p |}.

Definition pf_reset (p : portfolio) : portfolio :=
  {| initial_balance_ := initial_balance_ p; cash_ := initial_balance_ p; positions_ := ∅; lots_ := ∅;
     total_trades_ := 0; total_fills_ := 0; total_funding_pnl_ := n_zero |}.

(** ** What a fill touches, in any arithmetic *)

Definition netted (f : fill) (p : portfolio) : net :=
  net_fill f {| nt_cash := cash_ p; nt_pos := position_at (f_symbol f) p; nt_trades := total_trades_ p |}.

Lemma apply_lot_fill_parts f opener strategy p :
  let p' := apply_lot_fill f opener strategy p in
  cash_ p' = cash_ p ∧ positions_ p' = positions_ p ∧ total_trades_ p' = total_trades_ p ∧
  total_fills_ p' = total_fills_ p ∧ initial_balance_ p' = initial_balance_ p ∧
  total_funding_pnl_ p' = total_funding_pnl_ p.
Proof.
  unfold apply_lot_fill. destruct (opener =? f_order_id f), (lots_ p !! opener); try done. by destruct (_ <? _)%num.
Qed.

Lemma on_fill_parts f opener strategy p :
  let p' := on_fill_lot f opener strategy p in
  cash_ p' = nt_cash (netted f p) ∧ positions_ p' = <[f_symbol f := nt_pos (netted f p)]> (positions_ p) ∧
  total_trades_ p' = nt_trades (netted f p) ∧ total_fills_ p' = u64 (total_fills_ p + 1) ∧
  initial_balance_ p' = initial_balance_ p ∧ total_funding_pnl_ p' = total_funding_pnl_ p.
Proof.
  cbv zeta. unfold on_fill_lot. destruct (opener =? 0); [done|].
  destruct (apply_lot_fill_parts f opener strategy (apply_netted_fill f (count_fill p)))
    as (-> & -> & -> & -> & -> & ->). done.
Qed.

(** The lot table after a fill. *)
Definition lots_after (f : fill) (opener : Z) (strategy : string) (ls : gmap Z lot) : gmap Z lot :=
  if opener =? 0 then ls else
  match ls !! opener with
  | None => if opener =? f_order_id f then <[opener := open_lot f strategy]> ls else ls
  | Some l =>
      if opener =? f_order_id f then <[opener := extend_lot f l]> ls
      else if (qty_open (reduce_lot f l) <? n_eps)%num then delete opener ls
      else <[opener := reduce_lot f l]> ls
  end.

Lemma on_fill_lots f opener strategy p :
  lots_ (on_fill_lot f opener strategy p) = lots_after f opener strategy (lots_ p).
Proof.
  unfold on_fill_lot, lots_after, apply_lot_fill. destruct (opener =? 0); [done|].
  cbn [apply_netted_fill set_net count_fill lots_].
  destruct (opener =? f_order_id f), (lots_ p !! opener); try done. by destruct (_ <? _)%num.
Qed.

(** what a fill can change, in every arithmetic and so in the one the program
    runs: only the position of its symbol and only the lot of its opener; no lot
    when the opener is 0, and none when a closer refers to a lot that is not
    there; the initial balance and the funding total never. *)
Theorem fill_isolation f opener strategy p :
  let p' := on_fill_lot f opener strategy p in
  (∀ sym, sym ≠ f_symbol f → positions_ p' !! sym = positions_ p !! sym) ∧
  (∀ id, id ≠ opener → lots_ p' !! id = lots_ p !! id) ∧
  (opener = 0 ∨ (opener ≠ f_order_id f ∧ lots_ p !! opener = None) → lots_ p' = lots_ p) ∧
  (opener = f_order_id f → opener ≠ 0 → is_Some (lots_ p' !! opener)) ∧
  total_fills_ p' = u64 (total_fills_ p + 1) ∧
  initial_balance_ p' = initial_balance_ p ∧ total_funding_pnl_ p' = total_funding_pnl_ p.
Proof.
  cbv zeta. destruct (on_fill_parts f opener strategy p) as (_ & Ep & _ & Ef & Ei & Eu).
  rewrite Ep, Ef, Ei, Eu, on_fill_lots. unfold lots_after. split_and!; try done.
  - intros sym Hs. by rewrite lookup_insert_ne.
  - intros id Hid. destruct (opener =? 0); [done|].
    destruct (lots_ p !! opener), (opener =? f_order_id f); rewrite ?lookup_insert_ne by done; try done.
    destruct (_ <? _)%num; by rewrite ?lookup_delete_ne, ?lookup_insert_ne by done.
  - intros [->|[Hne Hl]]; [done|]. destruct (opener =? 0); [done|]. by rewrite Hl, (proj2 (Z.eqb_neq _ _) Hne).
  - intros Ho H0. rewrite (proj2 (Z.eqb_neq _ _) H0), (proj2 (Z.eqb_eq _ _) Ho).
    destruct (lots_ p !! opener); rewrite lookup_insert_eq; eauto.
Qed.

End Portfolio.

(** The fill of an event, as the program runs it. *)
Definition fill_of_event (e : fill_event) : @fill double_arith :=
  @Build_fill double_arith (timestamp_ (fe_base e)) (fe_symbol e) (fe_order_id e) (fe_side e)
    (fe_filled_quantity e) (fe_fill_price e) (fe_commission e) (fe_strategy_name e) (fe_opener_order_id e).

(** ** Exact accounting *)

Section Exact.
#[local] Existing Instance exact_arith.

Definition signed_quantity (f : fill) : Q :=
  if bool_decide (f_side f = side_buy) then f_quantity f else (- f_quantity f)%Q.

(** The fill trades against the position. *)
Definition opposes (f : fill) (q : Q) : Prop :=
  if bool_decide (f_side f = side_buy) then (q < 0)%Q else (0 < q)%Q.

(** A fill leaves no dust: it stops short of flat, lands on it or passes it by at
    least the code's tolerance. *)
Definition no_dust (f : fill) (q : Q) : Prop :=
  (n_eps < f_quantity f)%Q ∧
  (opposes f q →
   (f_quantity f + n_eps <= Qabs q)%Q ∨ (f_quantity f == Qabs q)%Q ∨ (Qabs q + n_eps <= f_quantity f)%Q).

(** What the closed part of a fill realises: its quantity times the move from the
    average entry, less its share of the commission. *)
Definition realised (f : fill) (pos : position) : Q :=
  let closed := n_min (f_quantity f) (Qabs (qty pos)) in
  let gain := (closed * (f_price f - cost_basis pos / qty pos))%Q in
  ((if bool_decide (f_side f = side_buy) then - gain else gain) - f_commission f * (closed / f_quantity f))%Q.

Lemma comm_for_exact f q :
  (n_eps < f_quantity f)%Q → (comm_for f q == f_commission f * (q / f_quantity f))%Q.
Proof. intros Hq. unfold comm_for. tt_exact. tt_compare; [done|lra]. Qed.

Definition exact_step (f : fill) (n n' : net) : Prop :=
  let pos := nt_pos n in
  let s := signed_quantity f in
  (nt_cash n' == nt_cash n - s * f_price f - f_commission f)%Q ∧
  (qty (nt_pos n') == qty pos + s)%Q ∧
  (¬ opposes f (qty pos) →
    nt_cash n' + cost_basis (nt_pos n') == nt_cash n + cost_basis pos ∧ nt_trades n' = nt_trades n)%Q ∧
  (opposes f (qty pos) →
    (nt_cash n' + cost_basis (nt_pos n') == nt_cash n + cost_basis pos + realised f pos)%Q ∧
    nt_trades n' = if Qle_bool (Qabs (qty pos)) (f_quantity f) then u64 (nt_trades n + 1) else nt_trades n).

(** Where a fill against the position leaves it: short of flat, flat, or on the
    other side. *)
Lemma buy_closes f cash q cb tr :
  f_side f = side_buy → (q < 0)%Q → no_dust f q →
  let fq := f_quantity f in let p := f_price f in
  let r := net_fill f {| nt_cash := cash; nt_pos := {| qty := q; cost_basis := cb |}; nt_trades := tr |} in
  (fq < - q ∧ r = {| nt_cash := cash - (fq * p + comm_for f fq);
                     nt_pos := {| qty := q + fq; cost_basis := cb * (1 - fq / - q) |};
                     nt_trades := tr |})%Q ∨
  (fq == - q ∧ r = {| nt_cash := cash - (fq * p + comm_for f fq); nt_pos := new_position;
                      nt_trades := u64 (tr + 1)%Z |})%Q ∨
  (- q < fq ∧ r = open_long f (fq - - q)
                   {| nt_cash := cash - (- q * p + comm_for f (- q)); nt_pos := new_position;
                      nt_trades := u64 (tr + 1)%Z |})%Q.
Proof.
  intros Hside Hs [Hq Hd]. cbv zeta. unfold opposes in Hd. rewrite (bool_decide_true _ Hside) in Hd.
  specialize (Hd Hs). unfold net_fill. rewrite (bool_decide_true _ Hside).
  unfold close_short, n_min, n_zero, n_one. cbn [nt_pos nt_cash nt_trades qty cost_basis].
  assert (0 < @n_eps exact_arith)%Q as Heps by (unfold n_eps; tt_exact; lra).
  assert (Qabs q == - q)%Q as Habs by (apply Qabs_neg; lra). rewrite Habs in Hd. clear Habs. tt_exact.
  rewrite (Qltb_lt q (0 # 1)) by done.
  generalize dependent (f_quantity f); cbn [num exact_arith]; intros fq ??.
  destruct Hd as [Hd|[Hd|Hd]].
  - left. rewrite (Qltb_ge (- q) fq), (Qltb_lt (fq - fq)) by lra.
    rewrite (Qltb_ge (Qabs (q + fq))); [split; [lra|done]|]. tt_abs (q + fq)%Q; lra.
  - right; left. rewrite (Qltb_ge (- q) fq), (Qltb_lt (fq - fq)) by lra.
    rewrite (Qltb_lt (Qabs (q + fq))); [done|]. tt_abs (q + fq)%Q; lra.
  - right; right. rewrite (Qltb_lt (- q) fq), (Qltb_ge (fq - - q)) by lra.
    rewrite (Qltb_lt (Qabs (q + - q))); [split; [lra|done]|]. tt_abs (q + - q)%Q; lra.
Qed.

Lemma sell_closes f cash q cb tr :
  f_side f ≠ side_buy → (0 < q)%Q → no_dust f q →
  let fq := f_quantity f in let p := f_price f in
  let r := net_fill f {| nt_cash := cash; nt_pos := {| qty := q; cost_basis := cb |}; nt_trades := tr |} in
  (fq < q ∧ r = {| nt_cash := cash + (fq * p - comm_for f fq);
                   nt_pos := {| qty := q - fq; cost_basis := cb * (1 - fq / q) |};
                   nt_trades := tr |})%Q ∨
  (fq == q ∧ r = {| nt_cash := cash + (fq * p - comm_for f fq); nt_pos := new_position;
                    nt_trades := u64 (tr + 1)%Z |})%Q ∨
  (q < fq ∧ r = open_short f (fq - q)
                 {| nt_cash := cash + (q * p - comm_for f q); nt_pos := new_position;
                    nt_trades := u64 (tr + 1)%Z |})%Q.
Proof.
  intros Hside Hs [Hq Hd]. cbv zeta. unfold opposes in Hd. rewrite (bool_decide_false _ Hside) in Hd.
  specialize (Hd Hs). unfold net_fill. rewrite (bool_decide_false _ Hside).
  unfold close_long, n_min, n_zero, n_one. cbn [nt_pos nt_cash nt_trades qty cost_basis].
  assert (0 < @n_eps exact_arith)%Q as Heps by (unfold n_eps; tt_exact; lra).
  assert (Qabs q == q)%Q as Habs by (apply Qabs_pos; lra). rewrite Habs in Hd. clear Habs. tt_exact.
  rewrite (Qltb_lt (0 # 1) q) by done.
  generalize dependent (f_quantity f); cbn [num exact_arith]; intros fq ??.
  destruct Hd as [Hd|[Hd|Hd]].
  - left. rewrite (Qltb_ge q fq), (Qltb_lt (fq - fq)), (Qltb_ge (q - fq)) by lra. split; [lra|done].
  - right; left. rewrite (Qltb_ge q fq), (Qltb_lt (fq - fq)), (Qltb_lt (q - fq)) by lra. done.
  - right; right. rewrite (Qltb_lt q fq), (Qltb_ge (fq - q)), (Qltb_lt (q - q)) by lra. split; [lra|done].
Qed.

(** The same in the terms of the fill, the average entry and the commission. *)
Lemma realised_eq f q cb c :
  (c == n_min (f_quantity f) (Qabs q))%Q →
  (realised f {| qty := q; cost_basis := cb |} ==
   (if bool_decide (f_side f = side_buy) then - (c * (f_price f - cb / q)) else c * (f_price f - cb / q)) -
   f_commission f * (c / f_quantity f))%Q.
Proof. intros E. unfold realised. cbn [qty cost_basis]. by case_bool_decide; rewrite <- E. Qed.

Lemma closed_min f q :
  (f_quantity f <= Qabs q → f_quantity f == n_min (f_quantity f) (Qabs q))%Q ∧
  (Qabs q <= f_quantity f → Qabs q == n_min (f_quantity f) (Qabs q))%Q.
Proof.
  unfold n_min. tt_exact. generalize (f_quantity f). cbn [num exact_arith]. intros fq.
  destruct (Qltb_spec (Qabs q) fq); split; intros; lra.
Qed.

Lemma exact_buy_closing f cash q cb tr :
  let n := {| nt_cash := cash; nt_pos := {| qty := q; cost_basis := cb |}; nt_trades := tr |} in
  f_side f = side_buy → (q < 0)%Q → no_dust f q → exact_step f n (net_fill f n).
Proof.
  intros n Hside Hs Hn. pose proof (λ x, comm_for_exact f x (proj1 Hn)) as Hc.
  assert (0 < f_quantity f)%Q as Hq.
  { destruct Hn as [Hq _]. unfold n_eps in Hq. tt_exact. lra. }
  assert (Qabs q == - q)%Q as Habs by (apply Qabs_neg; lra).
  pose proof (λ c, realised_eq f q cb c) as Hr. rewrite (bool_decide_true _ Hside) in Hr.
  destruct (closed_min f q) as [Hm1 Hm2].
  unfold exact_step, signed_quantity, opposes. rewrite !(bool_decide_true _ Hside).
  cbn [n nt_pos qty cost_basis nt_cash nt_trades].
  destruct (buy_closes f cash q cb tr Hside Hs Hn) as [[Hf E]|[[Hf E]|[Hf E]]];
    unfold n; rewrite E; clear E; cbn [nt_pos qty cost_basis nt_cash nt_trades open_long new_position];
    unfold n_zero; tt_exact; rewrite !Hc;
    (split_and!; [| |lra|intros _; split; [|destruct (Qleb_spec (Qabs q) (f_quantity f)); [try lra; done|try lra; done]]]).
  - field; lra.
  - lra.
  - rewrite (Hr _ (Hm1 ltac:(lra))). field; lra.
  - field; lra.
  - lra.
  - rewrite (Hr _ (Hm1 ltac:(lra))). assert (q == - f_quantity f)%Q as Eq by lra. rewrite Eq. field; lra.
  - field; lra.
  - lra.
  - rewrite (Hr _ (Hm2 ltac:(lra))), Habs. field; lra.
Qed.

Lemma exact_sell_closing f cash q cb tr :
  let n := {| nt_cash := cash; nt_pos := {| qty := q; cost_basis := cb |}; nt_trades := tr |} in
  f_side f ≠ side_buy → (0 < q)%Q → no_dust f q → exact_step f n (net_fill f n).
Proof.
  intros n Hside Hs Hn. pose proof (λ x, comm_for_exact f x (proj1 Hn)) as Hc.
  assert (0 < f_quantity f)%Q as Hq.
  { destruct Hn as [Hq _]. unfold n_eps in Hq. tt_exact. lra. }
  assert (Qabs q == q)%Q as Habs by (apply Qabs_pos; lra).
  pose proof (λ c, realised_eq f q cb c) as Hr. rewrite (bool_decide_false _ Hside) in Hr.
  destruct (closed_min f q) as [Hm1 Hm2].
  unfold exact_step, signed_quantity, opposes. rewrite !(bool_decide_false _ Hside).
  cbn [n nt_pos qty cost_basis nt_cash nt_trades].
  destruct (sell_closes f cash q cb tr Hside Hs Hn) as [[Hf E]|[[Hf E]|[Hf E]]];
    unfold n; rewrite E; clear E; cbn [nt_pos qty cost_basis nt_cash nt_trades open_short new_position];
    unfold n_zero; tt_exact; rewrite !Hc;
    (split_and!; [| |lra|intros _; split; [|destruct (Qleb_spec (Qabs q) (f_quantity f)); [try lra; done|try lra; done]]]).
  - field; lra.
  - lra.
  - rewrite (Hr _ (Hm1 ltac:(lra))). field; lra.
  - field; lra.
  - lra.
  - rewrite (Hr _ (Hm1 ltac:(lra))). assert (q == f_quantity f)%Q as Eq by lra. rewrite Eq. field; lra.
  - field; lra.
  - lra.
  - rewrite (Hr _ (Hm2 ltac:(lra))), Habs. field; lra.
Qed.

Lemma net_fill_exact f n : no_dust f (qty (nt_pos n)) → exact_step f n (net_fill f n).
Proof.
  intros Hn. destruct n as [cash [q cb] tr]. cbn [nt_pos qty] in Hn.
  pose proof (λ x, comm_for_exact f x (proj1 Hn)) as Hc.
  assert (0 < f_quantity f)%Q as Hq.
  { destruct Hn as [Hq _]. unfold n_eps in Hq. tt_exact. lra. }
  destruct (decide (f_side f = side_buy)) as [Hs|Hs].
  - destruct (Qlt_le_dec q 0) as [Hlt|Hge]; [by apply exact_buy_closing|].
    unfold exact_step, net_fill, signed_quantity, opposes. rewrite !(bool_decide_true _ Hs).
    cbn [nt_pos nt_cash nt_trades qty cost_basis]. unfold n_zero. tt_exact.
    rewrite (Qltb_ge q (0 # 1)) by done. cbn [open_long nt_pos nt_cash nt_trades qty cost_basis]. tt_exact.
    rewrite !Hc. split_and!; [field; lra|lra| |lra]. intros _. split; [field; lra|done].
  - destruct (Qlt_le_dec 0 q) as [Hlt|Hge]; [by apply exact_sell_closing|].
    unfold exact_step, net_fill, signed_quantity, opposes. rewrite !(bool_decide_false _ Hs).
    cbn [nt_pos nt_cash nt_trades qty cost_basis]. unfold n_zero. tt_exact.
    rewrite (Qltb_ge (0 # 1) q) by done. cbn [open_short nt_pos nt_cash nt_trades qty cost_basis]. tt_exact.
    rewrite !Hc. split_and!; [field; lra|lra| |lra]. intros _. split; [field; lra|done].
Qed.

(** C11: a fill in exact arithmetic.  Cash moves by the signed notional and the
    whole commission, charged once also when the fill crosses from one side to
    the other; the position moves by the signed quantity.  Opening moves cash
    into the cost basis; closing adds exactly what the closed part realises
    against the average entry, and a round trip is counted when the position is
    taken to flat or beyond.  Every other symbol keeps its position. *)
Theorem on_fill_exact f opener strategy p :
  let pos := position_at (f_symbol f) p in
  let p' := on_fill_lot f opener strategy p in
  let pos' := position_at (f_symbol f) p' in
  let s := signed_quantity f in
  no_dust f (qty pos) →
  (cash_ p' == cash_ p - s * f_price f - f_commission f)%Q ∧
  (qty pos' == qty pos + s)%Q ∧
  (¬ opposes f (qty pos) →
    (cash_ p' + cost_basis pos' == cash_ p + cost_basis pos)%Q ∧ total_trades_ p' = total_trades_ p) ∧
  (opposes f (qty pos) →
    (cash_ p' + cost_basis pos' == cash_ p + cost_basis pos + realised f pos)%Q ∧
    total_trades_ p' =
      if Qle_bool (Qabs (qty pos)) (f_quantity f) then u64 (total_trades_ p + 1) else total_trades_ p) ∧
  total_fills_ p' = u64 (total_fills_ p + 1) ∧
  ∀ sym, sym ≠ f_symbol f → positions_ p' !! sym = positions_ p !! sym.
Proof.
  cbv zeta. intros Hn. set (n := {| nt_cash := cash_ p; nt_pos := position_at (f_symbol f) p;
    nt_trades := total_trades_ p |}).
  destruct (net_fill_exact f n Hn) as (Hc & Hq & Ho & Hcl).
  destruct (on_fill_parts f opener strategy p) as (Ec & Ep & Et & Ef & _).
  unfold netted in *. fold n in Ec, Ep, Et.
  assert (position_at (f_symbol f) (on_fill_lot f opener strategy p) = nt_pos (net_fill f n)) as Epos
    by (unfold position_at; by rewrite Ep, lookup_insert_eq).
  rewrite Ec, Et, Epos, Ef, Ep.
  split_and!; try done. intros sym Hs. by rewrite lookup_insert_ne.
Qed.

(** [can_afford] is sound: a buy it allows, filled at no worse price and fee
    on a position that is not short, leaves cash that is not negative; a sell it
    allows leaves a position that is not short. *)
Theorem can_afford_sound f opener strategy q price commission p :
  can_afford (f_symbol f) (f_side f) q price commission p = true →
  (f_side f = side_buy ∨ f_side f = side_sell) →
  no_dust f (qty (position_at (f_symbol f) p)) →
  (f_quantity f <= q)%Q → (0 <= f_price f)%Q → (f_price f <= price)%Q → (f_commission f <= commission)%Q →
  let p' := on_fill_lot f opener strategy p in
  (f_side f = side_buy → 0 <= cash_ p')%Q ∧
  (f_side f = side_sell → 0 <= qty (position_at (f_symbol f) p'))%Q.
Proof.
  intros Hca Hside Hn Hq Hp0 Hp Hc p'. set (n := {| nt_cash := cash_ p; nt_pos := position_at (f_symbol f) p;
    nt_trades := total_trades_ p |}).
  destruct (net_fill_exact f n Hn) as (Hcash & Hqty & _).
  destruct (on_fill_parts f opener strategy p) as (Ec & Ep & _). unfold netted in *. fold n in Ec, Ep.
  assert (0 < f_quantity f)%Q as Hf by (destruct Hn as [Hx _]; unfold n_eps in Hx; tt_exact; lra).
  unfold can_afford, n_max, n_zero in Hca. unfold signed_quantity in *. tt_exact. split; intros Hs.
  - rewrite Hs in *. rewrite !bool_decide_true in Hca by done. rewrite bool_decide_true in Hcash by done.
    unfold p'. rewrite Ec, Hcash. cbn [n nt_cash].
    assert (f_quantity f * f_price f <= q * price)%Q by (apply Qmul_mono; lra).
    destruct (Qleb_spec (q * price + (if Qltb (0 # 1) commission then commission else 0 # 1)) (cash_ p)); [|done].
    destruct (Qltb_spec (0 # 1) commission); lra.
  - rewrite Hs in *. rewrite bool_decide_false in Hca by done. rewrite bool_decide_false in Hqty by done.
    unfold p', position_at at 1. rewrite Ep, lookup_insert_eq. cbn [default]. rewrite Hqty. cbn [n nt_pos].
    unfold position_at. destruct (positions_ p !! f_symbol f) as [pos|]; [|done]. cbn [default].
    destruct (Qleb_spec q (qty pos)); [|done]. unfold id. lra.
Qed.

(** ** Lots over a history of fills *)

(** A fill with the opener and the strategy it is booked under. *)
Definition booking : Type := fill * Z * string.

Definition run_fills (bs : list booking) (p : portfolio) : portfolio :=
  foldl (λ p b, on_fill_lot b.1.1 b.1.2 b.2 p) p bs.

Definition opens (id : Z) (b : booking) : bool := bool_decide (b.1.2 = id) && (f_order_id b.1.1 =? id).
Definition closes (id : Z) (b : booking) : bool := bool_decide (b.1.2 = id) && negb (f_order_id b.1.1 =? id).

Definition sum_over (sel : booking → bool) (v : fill → Q) (bs : list booking) : Q :=
  foldr (λ b a, if sel b then v b.1.1 + a else a)%Q 0%Q bs.

Lemma sum_over_snoc sel v bs b :
  (sum_over sel v (bs ++ [b]) == sum_over sel v bs + (if sel b then v b.1.1 else 0))%Q.
Proof.
  induction bs as [|b' bs IH]; cbn [sum_over foldr app].
  - destruct (sel b); lra.
  - fold (sum_over sel v (bs ++ [b])). fold (sum_over sel v bs). destruct (sel b'); rewrite IH; lra.
Qed.

(** A lot and the fills booked under it since it was opened by [b]. *)
Definition lot_history (id : Z) (l : lot) (b : booking) (bs : list booking) : Prop :=
  opens id b = true ∧ lot_symbol l = f_symbol b.1.1 ∧ lot_side l = f_side b.1.1 ∧ lot_strategy_name l = b.2 ∧
  ts_open l = f_ts b.1.1 ∧
  let total sel v := sum_over sel v (b :: bs) in
  (entry_filled_qty l == total (opens id) f_quantity)%Q ∧
  (entry_price l * entry_filled_qty l == total (opens id) (λ f, f_price f * f_quantity f))%Q ∧
  (qty_open l == total (opens id) f_quantity - total (closes id) f_quantity)%Q ∧
  (0 < entry_filled_qty l)%Q.

(** The next fill leaves the lot alone, extends it or reduces it. *)
Lemma lot_history_step id l l' b bs c :
  lot_history id l b bs → (0 < f_quantity c.1.1)%Q →
  (opens id c = false ∧ closes id c = false ∧ l' = l) ∨
  (opens id c = true ∧ closes id c = false ∧ l' = extend_lot c.1.1 l) ∨
  (opens id c = false ∧ closes id c = true ∧ l' = reduce_lot c.1.1 l) →
  lot_history id l' b (bs ++ [c]).
Proof.
  intros (Hb & Hsy & Hsi & Hst & Hts & Hf & He & Hq & Hpos) Hc Hcase.
  assert (∀ sel v, sum_over sel v (b :: bs ++ [c]) ==
    sum_over sel v (b :: bs) + (if sel c then v c.1.1 else 0))%Q as Hsum
    by (intros; apply (sum_over_snoc sel v (b :: bs) c)).
  unfold lot_history. cbv zeta. rewrite !Hsum. clear Hsum.
  destruct Hcase as [(-> & -> & ->)|[(-> & -> & ->)|(-> & -> & ->)]].
  - split_and!; try done; lra.
  - unfold extend_lot. cbn [lot_symbol lot_side lot_strategy_name ts_open entry_filled_qty entry_price qty_open].
    unfold n_zero. tt_exact. rewrite Qltb_lt by lra. split_and!; try done; try lra. rewrite <- He. field. lra.
  - split_and!; try done; cbn [reduce_lot entry_filled_qty entry_price qty_open]; tt_exact; lra.
Qed.

Lemma lot_history_open id c :
  opens id c = true → (0 < f_quantity c.1.1)%Q → lot_history id (open_lot c.1.1 c.2) c [].
Proof.
  intros Ho Hc. assert (closes id c = false) as Hcl.
  { unfold opens, closes in *. destruct (bool_decide _); [|done]. simpl in *. by rewrite Ho. }
  split_and!; try done; cbn [sum_over foldr open_lot entry_filled_qty entry_price qty_open];
    rewrite ?Ho, ?Hcl; tt_exact; lra.
Qed.

Lemma lots_after_lookup id c ls :
  id ≠ 0 →
  lots_after c.1.1 c.1.2 c.2 ls !! id =
    if opens id c then Some (match ls !! id with Some l => extend_lot c.1.1 l | None => open_lot c.1.1 c.2 end)
    else if closes id c then
      match ls !! id with
      | Some l => if (qty_open (reduce_lot c.1.1 l) <? n_eps)%num then None else Some (reduce_lot c.1.1 l)
      | None => None
      end
    else ls !! id.
Proof.
  intros Hid. destruct c as [[f o] st]. unfold lots_after, opens, closes. cbn [fst snd].
  destruct (decide (o = id)) as [->|Hne].
  - rewrite bool_decide_true by done. rewrite (proj2 (Z.eqb_neq _ _) Hid), (Z.eqb_sym (f_order_id f) id).
    destruct (ls !! id) as [l|] eqn:E, (id =? f_order_id f); cbn [andb negb]; rewrite ?lookup_insert_eq; try done.
    destruct (_ <? _)%num; by rewrite ?lookup_insert_eq, ?lookup_delete_eq.
  - rewrite bool_decide_false by done. cbn [andb]. destruct (o =? 0); [done|].
    destruct (ls !! o), (o =? f_order_id f); rewrite ?lookup_insert_ne by done; try done.
    destruct (_ <? _)%num; by rewrite ?lookup_insert_ne, ?lookup_delete_ne.
Qed.

Lemma opens_not_closes id c : opens id c = true → closes id c = false.
Proof. unfold opens, closes. destruct (bool_decide _); [|done]. simpl. by intros ->. Qed.

(** a lot over any history of fills, in exact arithmetic.  A lot that is open
    was opened by a fill of the order that is its key; it keeps that fill's
    symbol, side, strategy and time; its entry price is the quantity-weighted
    average of the opener's fills since then, and its open quantity is what the
    opener filled less what the closers booked against it took. *)
Theorem lot_lifecycle id bs p l :
  id ≠ 0 → lots_ p !! id = None → Forall (λ b, (0 < f_quantity b.1.1)%Q) bs →
  lots_ (run_fills bs p) !! id = Some l →
  ∃ bs1 b bs2, bs = bs1 ++ b :: bs2 ∧ lot_history id l b bs2.
Proof.
  intros Hid Hnone. revert l. induction bs as [|c bs IH] using rev_ind; intros l Hpos Hl.
  - cbn in Hl. congruence.
  - apply Forall_app in Hpos as [Hpos Hc]. apply Forall_cons in Hc as [Hc _].
    unfold run_fills in Hl. rewrite foldl_app in Hl. cbn [foldl] in Hl. fold (run_fills bs p) in Hl.
    rewrite on_fill_lots, lots_after_lookup in Hl by done.
    destruct (lots_ (run_fills bs p) !! id) as [l0|] eqn:E0.
    + destruct (IH l0 Hpos eq_refl) as (bs1 & b & bs2 & -> & Hh).
      exists bs1, b, (bs2 ++ [c]). split; [by rewrite <- app_assoc|]. eapply (lot_history_step id l0); try done.
      pose proof (opens_not_closes id c) as Hoc.
      destruct (opens id c); [|destruct (closes id c); [destruct (_ <? _)%num; [done|]|]]; simplify_eq; auto 8.
    + destruct (opens id c) eqn:Eo; [|by destruct (closes id c)]. simplify_eq.
      exists bs, c, []. split; [done|]. by apply lot_history_open.
Qed.

(** ** Concrete fills *)

Definition sample_fill (id : Z) (side : order_side) (q price comm : Q) : fill :=
  {| f_ts := 0; f_symbol := "BTC"; f_order_id := id; f_side := side; f_quantity := q; f_price := price;
     f_commission := comm; f_strategy_name := "s"; f_opener_order_id := 0 |}.

(** Long 2 at 100, then a sale of 5 at 110 that flips to short 3. *)
Definition sample_long : portfolio :=
  on_fill (sample_fill 1 side_buy (2 # 1) (100 # 1) (1 # 1)) (mk_portfolio (1000 # 1)).
Definition sample_flip : fill := sample_fill 2 side_sell (5 # 1) (110 # 1) (2 # 1).

Lemma sample_no_dust : no_dust sample_flip (qty (position_at "BTC" sample_long)).
Proof. split; [by vm_compute|]. intros _. right; right. by vm_compute. Qed.

Lemma on_fill_exact_witness :
  let p' := on_fill_lot sample_flip 2 "s" sample_long in
  (cash_ p' == 1347)%Q ∧ (qty (position_at "BTC" p') == - 3)%Q.
Proof.
  destruct (on_fill_exact sample_flip 2 "s" sample_long sample_no_dust) as (Hc & Hq & _).
  split; [etransitivity; [exact Hc|by vm_compute]|etransitivity; [exact Hq|by vm_compute]].
Defined.

Lemma can_afford_sound_witness :
  (0 <= cash_ (on_fill_lot (sample_fill 3 side_buy (1 # 1) (100 # 1) (1 # 1)) 3 "s" sample_long))%Q.
Proof.
  refine (proj1 (can_afford_sound (sample_fill 3 side_buy (1 # 1) (100 # 1) (1 # 1)) 3 "s"
    (1 # 1) (100 # 1) (1 # 1) sample_long _ _ _ _ _ _ _) eq_refl); try (by vm_compute). by left.
Defined.

Definition sample_empty : portfolio := mk_portfolio (1000 # 1).
Definition sample_bookings : list booking :=
  [(sample_fill 7 side_buy (2 # 1) (100 # 1) 0, 7, "s"); (sample_fill 8 side_sell (1 # 1) (120 # 1) 0, 7, "s");
   (sample_fill 7 side_buy (2 # 1) (110 # 1) 0, 7, "s")].

Lemma lot_lifecycle_witness :
  ∃ l, lots_ (run_fills sample_bookings sample_empty) !! 7 = Some l ∧
    ∃ bs1 b bs2, sample_bookings = bs1 ++ b :: bs2 ∧ lot_history 7 l b bs2.
Proof.
  eexists. split; [vm_compute; reflexivity|].
  apply (lot_lifecycle 7 sample_bookings sample_empty); [done|done| |by vm_compute].
  repeat constructor.
Defined.

End Exact.
