(* ===== verification/Sizing.v ===== *)
(** * Position sizing, fees and instrument filters
    (src/src/execution/position_sizing.h, fee_model.h, instrument.h, and
    [portfolio::compute_quantity])

    Over the arithmetic interface; the budgets are proved in exact arithmetic. *)

From Stdlib Require Import QArith Qabs Qround Lqa.
From S2P Require Import Prelude Float64 Event Arith Portfolio.

Open Scope string_scope.
Open Scope list_scope.
Open Scope Z_scope.

Section Sizing.
Context {A : Arith}.

Record risk_size_inputs := {
  equity : num;
  risk_fraction : num;
  in_entry_price : num;
  stop_price : num;
  is_long : bool;
  entry_fee_rate : num;
  exit_fee_rate : num;
  entry_slip_bps : num;
  exit_slip_bps : num;
  fixed_fee_per_leg : num;
  max_notional_frac : num }.

Definition n_pos (x : num) : bool := (x >? n_zero)%num.
(** [std::max(0.0, slip_bps) * 1.0e-4] *)
Definition slip_fraction (slip_bps : num) : num := (n_max n_zero slip_bps * n_lit 1 10000)%num.

Definition adverse_entry_price (intended : num) (long : bool) (slip_bps : num) : num :=
  if negb (n_pos intended) then n_zero else
  let m := slip_fraction slip_bps in
  if long then (intended * (n_one + m))%num else (intended * (n_one - m))%num.

Definition adverse_exit_price (stop : num) (long : bool) (slip_bps : num) : num :=
  if negb (n_pos stop) then n_zero else
  let m := slip_fraction slip_bps in
  if long then (stop * (n_one - m))%num else (stop * (n_one + m))%num.

Definition risk_per_unit (i : risk_size_inputs) (entry_est exit_est : num) : num :=
  let price_risk := if is_long i then (entry_est - exit_est)%num else (exit_est - entry_est)%num in
  let price_risk := if (price_risk <=? n_eps)%num then (n_lit 1 100 * n_max entry_est n_eps)%num else price_risk in
  let prop_fees :=
    (entry_est * n_max n_zero (entry_fee_rate i) + exit_est * n_max n_zero (exit_fee_rate i))%num in
  (price_risk + prop_fees)%num.

Definition fixed_round_trip (i : risk_size_inputs) : num := (n_lit 2 1 * n_max n_zero (fixed_fee_per_leg i))%num.

Definition compute_risk_quantity (i : risk_size_inputs) : num :=
  if negb (n_pos (equity i)) || negb (n_pos (risk_fraction i)) || negb (n_pos (in_entry_price i)) then n_zero else
  if negb (n_pos (stop_price i)) then n_zero else
  let entry_est := adverse_entry_price (in_entry_price i) (is_long i) (entry_slip_bps i) in
  if negb (n_pos entry_est) then n_zero else
  let exit_est := adverse_exit_price (stop_price i) (is_long i) (exit_slip_bps i) in
  if negb (n_pos exit_est) then n_zero else
  let denom := risk_per_unit i entry_est exit_est in
  if negb (denom >? n_eps)%num then n_zero else
  let risk_budget := (equity i * risk_fraction i)%num in
  if (risk_budget <=? fixed_round_trip i)%num then n_zero else
  let qty := ((risk_budget - fixed_round_trip i) / denom)%num in
  let qty :=
    if n_pos (max_notional_frac i)
    then n_min qty ((equity i * max_notional_frac i) /
                    (entry_est * (n_one + n_max n_zero (entry_fee_rate i))))%num
    else qty in
  if n_pos qty then qty else n_zero.

Definition compute_notional_quantity (equity risk_fraction price entry_fee_rate entry_slip_bps : num)
    (long : bool) (fixed_fee : num) : num :=
  if negb (n_pos equity) || negb (n_pos risk_fraction) || negb (n_pos price) then n_zero else
  let entry_est := adverse_entry_price price long entry_slip_bps in
  if negb (n_pos entry_est) then n_zero else
  let budget := (equity * risk_fraction)%num in
  if (budget <=? fixed_fee)%num then n_zero else
  let unit_cost := (entry_est * (n_one + n_max n_zero entry_fee_rate))%num in
  if negb (unit_cost >? n_eps)%num then n_zero else
  let qty := ((budget - fixed_fee) / unit_cost)%num in
  if n_pos qty then qty else n_zero.

Definition estimate_stop_loss (i : risk_size_inputs) (q : num) : num :=
  if negb (n_pos q) || negb (n_pos (in_entry_price i)) || negb (n_pos (stop_price i)) then n_zero else
  let entry_est := adverse_entry_price (in_entry_price i) (is_long i) (entry_slip_bps i) in
  let exit_est := adverse_exit_price (stop_price i) (is_long i) (exit_slip_bps i) in
  (q * risk_per_unit i entry_est exit_est + fixed_round_trip i)%num.

(** [portfolio::compute_quantity]: the default slip, side and fixed fee. *)
Definition compute_quantity (price risk_fraction entry_fee_rate : num) (p : portfolio) : num :=
  compute_notional_quantity (cash_ p) risk_fraction price entry_fee_rate n_zero true n_zero.

(** ** Fee models *)

Inductive fee_model :=
| ZeroFeeModel
| FixedFeeModel (fee_per_trade : num)
| TieredFeeModel (maker_rate taker_rate : num).

Definition compute_commission (m : fee_model) (side : order_side) (quantity price : num) (is_taker : bool) : num :=
  match m with
  | ZeroFeeModel => n_zero
  | FixedFeeModel fee => fee
  | TieredFeeModel maker taker => (n_abs (quantity * price) * (if is_taker then taker else maker))%num
  end.

(** ** Instrument filters *)

Record instrument_spec := {
  is_symbol : string;
  tick_size : num;
  lot_size : num;
  min_qty : num;
  min_notional : num;
  maker_rate : num;
  taker_rate : num }.

Definition quantize_price_to_tick (price tick : num) : num :=
  if (tick <=? n_zero)%num then price else (n_round (price / tick) * tick)%num.
Definition floor_qty_to_lot (q lot : num) : num :=
  if (lot <=? n_zero)%num then q else (n_floor (q / lot) * lot)%num.
Definition meets_min_qty (q min_qty : num) : bool :=
  (min_qty <=? n_zero)%num || (q >=? min_qty - n_eps)%num.
Definition meets_min_notional (q price min_notional : num) : bool :=
  (min_notional <=? n_zero)%num || (q * price >=? min_notional - n_eps9)%num.

End Sizing.

Section Exact.
#[local] Existing Instance exact_arith.

Lemma n_pos_spec (x : Q) : BoolSpec (0 < x)%Q (x <= 0)%Q (n_pos x).
Proof. unfold n_pos, n_zero. tt_exact. apply Qltb_spec. Qed.

Lemma n_max_zero (x : Q) : (0 <= n_max n_zero x)%Q.
Proof. unfold n_max, n_zero. tt_exact. destruct (Qltb_spec (0 # 1) x); lra. Qed.

Lemma Qdiv_mul (a b : Q) : (0 < b → a / b * b == a)%Q.
Proof. intros Hb. field. lra. Qed.

Lemma n_min_cases (a b : Q) : (n_min a b <= a)%Q ∧ (n_min a b <= b)%Q ∧ (n_min a b = a ∨ n_min a b = b).
Proof. unfold n_min. tt_exact. destruct (Qltb_spec b a); split_and!; auto; lra. Qed.

(** What the sizing promises, with the estimates it works with. *)
Definition entry_estimate (i : risk_size_inputs) : Q :=
  adverse_entry_price (in_entry_price i) (is_long i) (entry_slip_bps i).
Definition unit_risk (i : risk_size_inputs) : Q :=
  risk_per_unit i (entry_estimate i) (adverse_exit_price (stop_price i) (is_long i) (exit_slip_bps i)).

(** A positive quantity comes out of the code's last lines. *)
Lemma risk_quantity_shape (i : risk_size_inputs) :
  let q := compute_risk_quantity i in
  let budget := ((equity i * risk_fraction i - fixed_round_trip i) / unit_risk i)%Q in
  (q = 0)%Q ∨
  ((0 < q)%Q ∧ (0 < in_entry_price i)%Q ∧ (0 < stop_price i)%Q ∧ (0 < entry_estimate i)%Q ∧ (0 < unit_risk i)%Q ∧
   q = if n_pos (max_notional_frac i)
       then n_min budget
         ((equity i * max_notional_frac i) / (entry_estimate i * (1 + n_max n_zero (entry_fee_rate i))))%Q
       else budget).
Proof.
  cbv zeta. unfold compute_risk_quantity.
  destruct (n_pos_spec (equity i)); [|by left]. destruct (n_pos_spec (risk_fraction i)); [|by left].
  destruct (n_pos_spec (in_entry_price i)); [|by left]. cbn [negb orb].
  destruct (n_pos_spec (stop_price i)); [|by left]. cbn [negb].
  fold (entry_estimate i). destruct (n_pos_spec (entry_estimate i)); [|by left]. cbn [negb].
  destruct (n_pos_spec (adverse_exit_price (stop_price i) (is_long i) (exit_slip_bps i))); [|by left].
  cbn [negb]. fold (unit_risk i). unfold n_eps. tt_exact.
  destruct (Qltb_spec (1 # 1000000000000) (unit_risk i)); [|by left]. cbn [negb].
  destruct (Qle_bool _ _); [by left|].
  match goal with |- context [n_pos ?x] => match x with context [n_pos] => destruct (n_pos_spec x) end end; [|by left].
  right. split_and!; try done. lra.
Qed.

(** fixed-risk sizing keeps its promise in exact arithmetic.  The quantity is
    never negative; a positive one, stopped out at the designed stop with
    adverse fills, proportional and fixed fees, loses at most the risk budget,
    and exactly the budget when no notional cap is set; with a cap, the notional
    with its entry fee stays within it. *)
Theorem risk_quantity_within_budget (i : risk_size_inputs) :
  let q := compute_risk_quantity i in
  (0 <= q)%Q ∧
  (0 < q →
    estimate_stop_loss i q <= equity i * risk_fraction i ∧
    (max_notional_frac i <= 0 → estimate_stop_loss i q == equity i * risk_fraction i) ∧
    (0 < max_notional_frac i →
     q * (entry_estimate i * (1 + n_max n_zero (entry_fee_rate i))) <= equity i * max_notional_frac i))%Q.
Proof.
  cbv zeta. destruct (risk_quantity_shape i) as [->|(Hq & Hp & Hs & He & Hu & E)].
  { split; [lra|]. intros Hq. exfalso. lra. }
  split; [lra|]. intros _. set (q := compute_risk_quantity i) in *. clearbody q.
  assert (estimate_stop_loss i q = (q * unit_risk i + fixed_round_trip i)%Q) as ->.
  { unfold estimate_stop_loss. destruct (n_pos_spec q); [|lra].
    destruct (n_pos_spec (in_entry_price i)); [|lra]. by destruct (n_pos_spec (stop_price i)); [|lra]. }
  pose proof (n_max_zero (entry_fee_rate i)) as Hfee.
  set (budget := ((equity i * risk_fraction i - fixed_round_trip i) / unit_risk i)%Q) in *.
  assert (budget * unit_risk i == equity i * risk_fraction i - fixed_round_trip i)%Q as Hb by (by apply Qdiv_mul).
  set (u := (entry_estimate i * (1 + n_max n_zero (entry_fee_rate i)))%Q) in *.
  assert (0 < u)%Q as Hu0 by (unfold u; nra).
  set (cap := (equity i * max_notional_frac i / u)%Q) in *.
  assert (cap * u == equity i * max_notional_frac i)%Q as Hcap by (by apply Qdiv_mul).
  destruct (n_pos_spec (max_notional_frac i)) as [Hm|Hm].
  - destruct (n_min_cases budget cap) as (H1 & H2 & _). rewrite <- E in H1, H2.
    split_and!; [nra|lra|]. intros _. nra.
  - rewrite E. split_and!; [lra|lra|]. lra.
Qed.

(** notional sizing in exact arithmetic.  The quantity the portfolio computes
    for a fraction of cash at most one is not negative, and a buy of it at the
    sizing price, with a proportional fee at the sizing rate, passes the
    portfolio's own affordability check. *)
Theorem computed_quantity_affordable sym price fraction rate (p : portfolio) :
  (fraction <= 1)%Q → (0 <= rate)%Q → (0 <= cash_ p)%Q →
  let q := compute_quantity price fraction rate p in
  (0 <= q)%Q ∧
  can_afford sym side_buy q price
    (compute_commission (TieredFeeModel rate rate) side_buy q price true) p = true.
Proof.
  intros Hf Hr Hc. cbv zeta.
  assert (0 <= compute_quantity price fraction rate p ∧
    compute_quantity price fraction rate p * price * (1 + rate) <= cash_ p ∧
    0 <= compute_quantity price fraction rate p * price)%Q as (H1 & H2 & H3).
  { assert (0 <= @n_zero exact_arith ∧ @n_zero exact_arith * price * (1 + rate) <= cash_ p ∧
      0 <= @n_zero exact_arith * price)%Q as Hz by (unfold n_zero; tt_exact; split_and!; lra).
    unfold compute_quantity, compute_notional_quantity.
    destruct (n_pos_spec (cash_ p)); [|by apply Hz].
    destruct (n_pos_spec fraction); [|by apply Hz].
    destruct (n_pos_spec price) as [Hp|]; [|by apply Hz]. cbn [negb orb].
    assert (adverse_entry_price price true n_zero == price)%Q as Hest.
    { unfold adverse_entry_price, slip_fraction, n_max. destruct (n_pos_spec price); [|lra]. cbn [negb].
      unfold n_zero, n_one. tt_exact. rewrite Qltb_ge by lra. ring. }
    destruct (n_pos_spec (adverse_entry_price price true n_zero)); [|by apply Hz]. cbn [negb].
    assert (n_max n_zero rate == rate)%Q as Hmax.
    { unfold n_max, n_zero. tt_exact. destruct (Qltb_spec (0 # 1) rate); lra. }
    set (unit := (adverse_entry_price price true n_zero * (1 + @n_max exact_arith n_zero rate))%Q).
    assert (unit == price * (1 + rate))%Q as Hu by (unfold unit; rewrite Hest, Hmax; reflexivity).
    assert (0 < unit)%Q as Hu0 by (rewrite Hu; nra).
    tt_exact. destruct (Qle_bool _ _); [by apply Hz|].
    match goal with |- context [negb ?b] => destruct b end; [|by apply Hz]. cbn [negb].
    set (q := ((cash_ p * fraction - @n_zero exact_arith) / _)%Q).
    assert (q * unit == cash_ p * fraction)%Q as Hq.
    { unfold q. etransitivity; [by apply Qdiv_mul|]. unfold n_zero. tt_exact. lra. }
    clearbody q unit. destruct (n_pos_spec q); [|by apply Hz].
    assert (q * price * (1 + rate) == cash_ p * fraction)%Q as Hb by (rewrite <- Hq, Hu; ring).
    split_and!; [lra| |nra]. rewrite Hb. nra. }
  split; [done|]. unfold can_afford, compute_commission. rewrite bool_decide_true by done. tt_exact.
  generalize dependent (compute_quantity price fraction rate p). cbn [num exact_arith]. intros q H1 H2 H3.
  apply Qle_bool_iff. unfold n_max, n_zero. tt_exact.
  assert (Qabs (q * price) == q * price)%Q as Ha by (by apply Qabs_pos).
  destruct (Qltb (0 # 1) (Qabs (q * price) * rate)); [rewrite Ha|]; nra.
Qed.

(** rounding a quantity down to the lot size in exact arithmetic: the result is
    a whole number of lots, at most the quantity and less than one lot below
    it, and rounding it again changes nothing. *)
Theorem floor_to_lot_exact (q lot : Q) :
  (0 < lot)%Q →
  let r := floor_qty_to_lot q lot in
  (∃ k : Z, (r == inject_Z k * lot)%Q) ∧ (r <= q)%Q ∧ (q < r + lot)%Q ∧ (floor_qty_to_lot r lot == r)%Q.
Proof.
  intros Hl. cbv zeta. unfold floor_qty_to_lot. unfold n_zero. tt_exact.
  destruct (Qleb_spec lot (0 # 1)); [lra|].
  assert (q / lot * lot == q)%Q as Hq by (by apply Qdiv_mul).
  pose proof (Qfloor_le (q / lot)) as H1. pose proof (Qlt_floor (q / lot)) as H2.
  rewrite inject_Z_plus in H2. split_and!.
  - by exists (Qfloor (q / lot)).
  - nra.
  - change (inject_Z 1) with 1%Q in H2. nra.
  - assert (inject_Z (Qfloor (q / lot)) * lot / lot == inject_Z (Qfloor (q / lot)))%Q as -> by (field; lra).
    by rewrite Qfloor_Z.
Qed.

Definition sample_sizing : risk_size_inputs :=
  {| equity := 10000 # 1; risk_fraction := 1 # 100; in_entry_price := 100 # 1; stop_price := 95 # 1;
     is_long := true; entry_fee_rate := 4 # 10000; exit_fee_rate := 4 # 10000; entry_slip_bps := 2 # 1;
     exit_slip_bps := 5 # 1; fixed_fee_per_leg := 1 # 1; max_notional_frac := 1 # 10 |}.

(** A tenth of the equity caps the notional: just under ten are bought. *)
Example sample_sizing_quantity :
  (9 < compute_risk_quantity sample_sizing < 10)%Q.
Proof. split; by vm_compute. Qed.

Lemma computed_quantity_affordable_witness :
  can_afford "BTC" side_buy (compute_quantity (100 # 1) (1 # 2) (1 # 1000) sample_long) (100 # 1)
    (compute_commission (TieredFeeModel (1 # 1000) (1 # 1000)) side_buy
      (compute_quantity (100 # 1) (1 # 2) (1 # 1000) sample_long) (100 # 1) true) sample_long = true.
Proof.
  apply (proj2 (computed_quantity_affordable "BTC" (100 # 1) (1 # 2) (1 # 1000) sample_long
    ltac:(by vm_compute) ltac:(by vm_compute) ltac:(by vm_compute))).
Defined.

Lemma floor_to_lot_exact_witness : (floor_qty_to_lot (17 # 10) (1 # 2) <= 17 # 10)%Q.
Proof. apply (floor_to_lot_exact (17 # 10) (1 # 2)). by vm_compute. Defined.

End Exact.
