(* ===== verification/Risk.v ===== *)
(** * Pre-trade and post-trade risk
    (src/src/risk/risk_manager.h, risk_manager.cpp, futures_risk_check.h,
    maintenance_margin_table.h)

    The risk manager keeps the times of recent orders and trades, the realised
    loss of the day and the next daily boundary.  Times are nanoseconds since the
    epoch. *)

From Stdlib Require Import Sorted QArith Qabs Lqa.
From S2P Require Import Prelude Float64 Event Arith Portfolio.

Open Scope string_scope.
Open Scope list_scope.
Open Scope Z_scope.

Definition ns_per_s : Z := 1000000000.
Definition ns_per_hour : Z := 3600 * ns_per_s.
Definition ns_per_day : Z := 24 * ns_per_hour.

Inductive risk_action := pass | reject | halt | unwind.
#[export] Instance risk_action_eq_dec : EqDecision risk_action.
Proof. solve_decision. Defined.

Section Risk.
Context {A : Arith} {HO : HashOrder}.

Record risk_limits := {
  max_position_value : num;
  max_drawdown : num;
  max_loss_per_trade : num;
  max_open_orders : Z;
  max_portfolio_exposure : num;
  max_daily_loss : num;
  daily_reset_hour : Z;
  max_trades_per_hour : Z;
  max_orders_per_minute : Z;
  max_position_pct_of_equity : num;
  max_portfolio_var_estimate : num;
  max_spread_bps : num;
  max_funding_8h_rate : num }.

Record risk_snapshot := {
  sn_max_drawdown : num;
  total_orders : Z;
  total_fills : Z;
  last_trade_pnl : num;
  has_last_trade : bool;
  last_trade_seq : Z;
  sn_equity : num;
  realized_vol_1h : num;
  current_spread_bps : num;
  current_funding_8h_rate : num }.

(** What the checks read of an order. *)
Record risk_order := {
  ro_ts : time_point;
  ro_symbol : string;
  ro_side : order_side;
  ro_quantity : num;
  ro_price : num }.

Record RiskManager := {
  limits_ : risk_limits;
  order_timestamps_ : list time_point;
  trade_timestamps_ : list time_point;
  daily_loss_ : num;
  daily_start_equity_ : num;
  daily_reset_tp_ : time_point;
  last_daily_trade_seq_added_ : Z }.

Definition mk_RiskManager (l : risk_limits) : RiskManager :=
  {| limits_ := l; order_timestamps_ := []; trade_timestamps_ := []; daily_loss_ := n_zero;
     daily_start_equity_ := n_zero; daily_reset_tp_ := 0; last_daily_trade_seq_added_ := 0 |}.

Definition rm_set (ots tts : list time_point) (r : RiskManager) : RiskManager :=
  {| limits_ := limits_ r; order_timestamps_ := ots; trade_timestamps_ := tts; daily_loss_ := daily_loss_ r;
     daily_start_equity_ := daily_start_equity_ r; daily_reset_tp_ := daily_reset_tp_ r;
     last_daily_trade_seq_added_ := last_daily_trade_seq_added_ r |}.

Definition rm_daily (loss start : num) (tp : time_point) (seq : Z) (r : RiskManager) : RiskManager :=
  {| limits_ := limits_ r; order_timestamps_ := order_timestamps_ r; trade_timestamps_ := trade_timestamps_ r;
     daily_loss_ := loss; daily_start_equity_ := start; daily_reset_tp_ := tp;
     last_daily_trade_seq_added_ := seq |}.

(** ** Projections of an order on a position *)

Definition signed_order_quantity (o : risk_order) : num :=
  if bool_decide (ro_side o = side_buy) then ro_quantity o else (- ro_quantity o)%num.

Definition position_price (pos : position) : num :=
  if (n_abs (qty pos) >? n_eps)%num then n_abs (cost_basis pos / qty pos)%num else n_zero.

Definition valuation_price (o : risk_order) (pos : option position) : num :=
  if (ro_price o >? n_zero)%num then ro_price o else
  match pos with Some pos => position_price pos | None => n_zero end.

Definition current_qty (pos : option position) : num :=
  match pos with Some pos => qty pos | None => n_zero end.

Definition projected_position_notional (o : risk_order) (pos : option position) : num :=
  (n_abs (current_qty pos + signed_order_quantity o) * valuation_price o pos)%num.

Definition reduces_position_exposure (o : risk_order) (pos : option position) : bool :=
  match pos with
  | None => false
  | Some pos => (n_abs (qty pos + signed_order_quantity o) <? n_abs (qty pos) - n_eps)%num
  end.

(** ** Windows and the daily boundary *)

Fixpoint prune_old_entries (entries : list time_point) (cutoff : time_point) : list time_point :=
  match entries with
  | [] => []
  | ts :: rest => if ts <? cutoff then prune_old_entries rest cutoff else entries
  end.

(** [while (daily_reset_tp_ <= now) daily_reset_tp_ += 24h] *)
Fixpoint advance_boundary (fuel : nat) (tp now : time_point) : time_point :=
  match fuel with
  | O => tp
  | S fuel => if tp <=? now then advance_boundary fuel (tp + ns_per_day) now else tp
  end.

(** The first boundary: [to_time_t] truncates to the second, [gmtime_r] and
    [timegm] set the hour of the UTC day. *)
Definition first_boundary (hour : Z) (now : time_point) : time_point :=
  let tt := Z.quot now ns_per_s in
  let boundary := (tt / 86400 * 86400 + hour * 3600) * ns_per_s in
  if boundary <=? now then boundary + ns_per_day else boundary.

Definition update_daily_reset (now : time_point) (r : RiskManager) : RiskManager :=
  let tp := if daily_reset_tp_ r =? 0 then first_boundary (daily_reset_hour (limits_ r)) now
            else daily_reset_tp_ r in
  if tp <=? now
  then rm_daily n_zero n_zero (advance_boundary (Z.to_nat ((now - tp) / ns_per_day + 1)) tp now)
         (last_daily_trade_seq_added_ r) r
  else rm_daily (daily_loss_ r) (daily_start_equity_ r) tp (last_daily_trade_seq_added_ r) r.

(** ** The checks *)

Definition projected_total_exposure (o : risk_order) (p : portfolio) (projected : num) : num :=
  let total := foldl (λ e x, if bool_decide (x.1 = ro_symbol o) then (e + projected)%num
                             else (e + n_abs (cost_basis x.2))%num) n_zero (iter (positions_ p)) in
  match positions_ p !! ro_symbol o with Some _ => total | None => (total + projected)%num end.

(** The checks before the order-rate window, in the order of the code. *)
Definition static_checks (l : risk_limits) (o : risk_order) (p : portfolio) (s : risk_snapshot) : risk_action :=
  if (sn_max_drawdown s / n_lit 100 1 >=? max_drawdown l)%num then halt else
  if max_open_orders l <=? i32 (u64 (total_orders s - total_fills s)) then reject else
  let pos := positions_ p !! ro_symbol o in
  let reducing := reduces_position_exposure o pos in
  let projected := projected_position_notional o pos in
  let pct := (max_position_pct_of_equity l >? n_zero)%num && (sn_equity s >? n_zero)%num in
  let max_notional := (sn_equity s * max_position_pct_of_equity l)%num in
  if negb reducing && (projected >? max_position_value l)%num then reject else
  if negb reducing && pct && (projected >? max_notional)%num then reject else
  let total := projected_total_exposure o p projected in
  if negb reducing && (total >? max_portfolio_exposure l)%num then reject else
  if negb reducing && pct && (total >? max_notional)%num then reject else
  if (max_spread_bps l >? n_zero)%num && (current_spread_bps s >? max_spread_bps l)%num then
    (if (current_spread_bps s >? max_spread_bps l * n_lit 2 1)%num then halt else reject) else
  if (max_funding_8h_rate l >? n_zero)%num && (current_funding_8h_rate s >? max_funding_8h_rate l)%num then
    (if (current_funding_8h_rate s >? max_funding_8h_rate l * n_lit 3 2)%num then halt else reject) else
  pass.

Definition check_order (o : risk_order) (p : portfolio) (s : risk_snapshot) (r : RiskManager)
    : risk_action * RiskManager :=
  let l := limits_ r in
  match static_checks l o p s with
  | pass =>
      let '(full, r1) :=
        if 0 <? max_orders_per_minute l then
          let ots := prune_old_entries (order_timestamps_ r) (ro_ts o - 60 * ns_per_s) in
          if max_orders_per_minute l <=? i32 (Z.of_nat (length ots))
          then (true, rm_set ots (trade_timestamps_ r) r)
          else (false, rm_set (ots ++ [ro_ts o]) (trade_timestamps_ r) r)
        else (false, r) in
      if full : bool then (reject, r1) else
      if (max_daily_loss l >? n_zero)%num then
        let r2 := update_daily_reset (ro_ts o) r1 in
        if (daily_loss_ r2 >=? max_daily_loss l)%num then (halt, r2) else (pass, r2)
      else (pass, r1)
  | a => (a, r)
  end.

(** The halts that need no clock. *)
Definition post_fill_breach (s : risk_snapshot) (r : RiskManager) : bool :=
  let l := limits_ r in
  (sn_max_drawdown s / n_lit 100 1 >=? max_drawdown l)%num ||
  has_last_trade s && (last_trade_pnl s <? - max_loss_per_trade l)%num ||
  (0 <? max_trades_per_hour l) && (max_trades_per_hour l <=? i32 (Z.of_nat (length (trade_timestamps_ r)))).

(** Add the loss of the latest trade unless it was the last one added. *)
Definition add_trade_loss (s : risk_snapshot) (r : RiskManager) : RiskManager :=
  if has_last_trade s && negb (last_trade_seq s =? 0) && (last_trade_pnl s <? n_zero)%num &&
     negb (last_trade_seq s =? last_daily_trade_seq_added_ r)
  then rm_daily (daily_loss_ r + - last_trade_pnl s)%num (daily_start_equity_ r) (daily_reset_tp_ r)
         (last_trade_seq s) r
  else r.

Definition check_post_fill (ts : time_point) (s : risk_snapshot) (r : RiskManager) : risk_action * RiskManager :=
  if post_fill_breach s r then (halt, r) else
  if (max_daily_loss (limits_ r) >? n_zero)%num then
    let r2 := add_trade_loss s (update_daily_reset ts r) in
    if (daily_loss_ r2 >=? max_daily_loss (limits_ r))%num then (halt, r2) else (pass, r2)
  else (pass, r).

Definition rm_on_fill (ts : time_point) (r : RiskManager) : RiskManager :=
  let l := limits_ r in
  let r1 := if 0 <? max_trades_per_hour l
            then rm_set (order_timestamps_ r)
                   (prune_old_entries (trade_timestamps_ r) (ts - ns_per_hour) ++ [ts]) r
            else r in
  if (max_daily_loss l >? n_zero)%num then update_daily_reset ts r1 else r1.

Definition rm_reset (r : RiskManager) : RiskManager := mk_RiskManager (limits_ r).

(** ** The futures check *)

Record MarginTier := { notional_cap : num; maintenance_margin_rate : num; maint_amount : num }.

(** The tiers are kept sorted by their cap. *)
Fixpoint tier_for (notional : num) (tiers : list MarginTier) : option MarginTier :=
  match tiers with
  | [] => None
  | t :: rest =>
      if (notional <=? notional_cap t)%num then Some t else
      match rest with [] => Some t | _ => tier_for notional rest end
  end.

Definition maintenance_margin_rate_for_notional (notional : num) (tiers : list MarginTier) : num :=
  match tier_for notional tiers with Some t => maintenance_margin_rate t | None => n_lit 5 1000 end.
Definition maint_amount_for_notional (notional : num) (tiers : list MarginTier) : num :=
  match tier_for notional tiers with Some t => maint_amount t | None => n_zero end.

Record futures_config := {
  max_notional_usdt : num;
  max_leverage : num;
  min_liquidation_distance_pct : num;
  maintenance_margin_pct : num }.

(** The decision; a refusal carries the check that failed and the two numbers
    its message compares. *)
Inductive refusal := notional_exceeds | leverage_exceeds | liquidation_too_close.
Inductive decision := allow | refuse (why : refusal) (value bound : num).

Definition signed_delta (o : risk_order) : num := signed_order_quantity o.
Definition post_notional (o : risk_order) (p : portfolio) (mark : num) : num :=
  (n_abs (current_qty (positions_ p !! ro_symbol o) + signed_delta o) * mark)%num.

Definition mm_rate (c : futures_config) (tiers : option (list MarginTier)) (notional : num) : num :=
  match tiers with
  | Some (t :: ts) => maintenance_margin_rate_for_notional notional (t :: ts)
  | _ => maintenance_margin_pct c
  end.

Definition evaluate (c : futures_config) (tiers : option (list MarginTier)) (o : risk_order) (p : portfolio)
    (mark : num) : decision :=
  if (mark <=? n_zero)%num then allow else
  if (max_notional_usdt c <=? n_zero)%num && (max_leverage c <=? n_zero)%num &&
     (min_liquidation_distance_pct c <=? n_zero)%num then allow else
  let n := post_notional o p mark in
  if (max_notional_usdt c >? n_zero)%num && (n >? max_notional_usdt c)%num
  then refuse notional_exceeds n (max_notional_usdt c) else
  let cash := cash_ p in
  if (cash >? n_zero)%num && (n >? n_zero)%num then
    let implied_leverage := (n / cash)%num in
    if (max_leverage c >? n_zero)%num && (implied_leverage >? max_leverage c)%num
    then refuse leverage_exceeds implied_leverage (max_leverage c) else
    let distance := (cash / n - mm_rate c tiers n)%num in
    if (min_liquidation_distance_pct c >? n_zero)%num && (distance <? min_liquidation_distance_pct c)%num
    then refuse liquidation_too_close distance (min_liquidation_distance_pct c) else allow
  else allow.

(** ** The daily boundary *)

Lemma advance_boundary_spec fuel tp now :
  tp <= now → now - tp < Z.of_nat fuel * ns_per_day →
  let tp' := advance_boundary fuel tp now in
  now < tp' <= now + ns_per_day ∧ ∃ k, tp' = tp + k * ns_per_day.
Proof.
  revert tp. induction fuel as [|fuel IH]; intros tp Htp Hf; [lia|]. cbn [advance_boundary].
  rewrite (proj2 (Z.leb_le _ _) Htp). destruct (Z.le_gt_cases (tp + ns_per_day) now) as [Hle|Hgt].
  - destruct (IH (tp + ns_per_day) Hle ltac:(lia)) as (Hr & k & Hk). split; [done|].
    exists (k + 1). rewrite Hk. lia.
  - assert (advance_boundary fuel (tp + ns_per_day) now = tp + ns_per_day) as ->.
    { destruct fuel; [done|]. cbn [advance_boundary]. by rewrite (proj2 (Z.leb_gt _ _)) by lia. }
    split; [unfold ns_per_day in *; lia|]. exists 1. lia.
Qed.

Lemma advance_enough tp now :
  tp <= now → now - tp < Z.of_nat (Z.to_nat ((now - tp) / ns_per_day + 1)) * ns_per_day.
Proof.
  intros Htp. assert (0 < ns_per_day) as Hd by (by vm_compute).
  pose proof (Z.div_pos (now - tp) ns_per_day ltac:(lia) Hd).
  rewrite Z2Nat.id by lia. pose proof (Z.mod_pos_bound (now - tp) _ Hd).
  pose proof (Z.div_mod (now - tp) ns_per_day ltac:(lia)). nia.
Qed.

Lemma first_boundary_spec hour now :
  0 <= now → 0 <= hour < 24 →
  now < first_boundary hour now <= now + ns_per_day ∧
  first_boundary hour now mod ns_per_day = hour * ns_per_hour.
Proof.
  intros Hn Hh. unfold first_boundary. rewrite Z.quot_div_nonneg by (try done; by vm_compute).
  set (d := now / ns_per_s / 86400). assert (d = now / ns_per_day) as Ed.
  { unfold d. rewrite Z.div_div by done. done. }
  replace ((d * 86400 + hour * 3600) * ns_per_s) with (d * ns_per_day + hour * ns_per_hour)
    by (unfold ns_per_day, ns_per_hour, ns_per_s; lia).
  assert (0 < ns_per_day) as Hd by (by vm_compute).
  pose proof (Z.mod_pos_bound now _ Hd). pose proof (Z.div_mod now ns_per_day ltac:(lia)) as Hdm. rewrite <- Ed in Hdm.
  assert (0 <= hour * ns_per_hour < ns_per_day) as Hhour by (unfold ns_per_day, ns_per_hour, ns_per_s; lia).
  destruct (Z.leb_spec (d * ns_per_day + hour * ns_per_hour) now).
  - split; [lia|]. replace (d * ns_per_day + hour * ns_per_hour + ns_per_day)
      with (hour * ns_per_hour + (d + 1) * ns_per_day) by lia. rewrite Z_mod_plus_full. by apply Z.mod_small.
  - split; [lia|]. rewrite Z.add_comm, Z_mod_plus_full. by apply Z.mod_small.
Qed.

Lemma update_daily_reset_next now r : now < daily_reset_tp_ (update_daily_reset now r).
Proof.
  unfold update_daily_reset. set (tp := if daily_reset_tp_ r =? 0 then _ else _).
  destruct (Z.leb_spec tp now) as [Hle|Hgt]; cbn [rm_daily daily_reset_tp_]; [|done].
  apply (advance_boundary_spec _ tp now Hle), advance_enough; done.
Qed.

(** the daily boundary.  Whenever the risk manager consults the clock, the next
    boundary lies strictly ahead, at the configured UTC hour and, once a
    boundary was passed or on the first call, at most a day ahead; the day's
    loss is cleared exactly when a boundary was reached since the last call, however
    many days were skipped, and is kept otherwise. *)
Theorem daily_reset_boundary now r :
  let hour := daily_reset_hour (limits_ r) in
  let r' := update_daily_reset now r in
  0 <= now → 0 <= hour < 24 →
  daily_reset_tp_ r = 0 ∨ daily_reset_tp_ r mod ns_per_day = hour * ns_per_hour →
  now < daily_reset_tp_ r' ∧ daily_reset_tp_ r' mod ns_per_day = hour * ns_per_hour ∧
  (daily_reset_tp_ r <= now → daily_reset_tp_ r' <= now + ns_per_day) ∧
  daily_loss_ r' = (if bool_decide (daily_reset_tp_ r ≠ 0 ∧ daily_reset_tp_ r <= now)
                    then n_zero else daily_loss_ r) ∧
  order_timestamps_ r' = order_timestamps_ r ∧ trade_timestamps_ r' = trade_timestamps_ r ∧
  limits_ r' = limits_ r.
Proof.
  cbv zeta. intros Hn Hh Htp. split; [apply update_daily_reset_next|].
  destruct (first_boundary_spec _ now Hn Hh) as [Hfb Hfm]. unfold update_daily_reset.
  destruct (Z.eqb_spec (daily_reset_tp_ r) 0) as [E|E].
  - rewrite (proj2 (Z.leb_gt _ _)) by lia. rewrite bool_decide_false by tauto.
    cbn [rm_daily daily_reset_tp_ daily_loss_]. split_and!; try done. lia.
  - destruct Htp as [?|Htp]; [done|]. destruct (Z.leb_spec (daily_reset_tp_ r) now) as [Hle|Hgt].
    + rewrite bool_decide_true by done. cbn [rm_daily daily_reset_tp_ daily_loss_].
      destruct (advance_boundary_spec _ _ now Hle (advance_enough _ _ Hle)) as ([_ Hub] & k & Hk).
      split_and!; try done. rewrite Hk, Z_mod_plus_full. done.
    + rewrite bool_decide_false by lia. cbn [rm_daily daily_reset_tp_ daily_loss_]. split_and!; try done. lia.
Qed.

Lemma update_daily_reset_again now r :
  0 <= now → now < daily_reset_tp_ r → update_daily_reset now r = r.
Proof.
  intros Hn Hlt. unfold update_daily_reset. rewrite (proj2 (Z.eqb_neq _ _)) by lia.
  rewrite (proj2 (Z.leb_gt _ _)) by lia. by destruct r.
Qed.

Lemma update_keeps ts r :
  let r' := update_daily_reset ts r in
  limits_ r' = limits_ r ∧ order_timestamps_ r' = order_timestamps_ r ∧
  trade_timestamps_ r' = trade_timestamps_ r ∧
  last_daily_trade_seq_added_ r' = last_daily_trade_seq_added_ r.
Proof. unfold update_daily_reset. by destruct (_ <=? ts). Qed.

Lemma add_loss_keeps s r :
  let r' := add_trade_loss s r in
  limits_ r' = limits_ r ∧ order_timestamps_ r' = order_timestamps_ r ∧
  trade_timestamps_ r' = trade_timestamps_ r ∧ daily_reset_tp_ r' = daily_reset_tp_ r ∧
  (r' = r ∨
   (last_daily_trade_seq_added_ r' = last_trade_seq s ∧ (last_trade_pnl s <? n_zero)%num = true ∧
    daily_loss_ r' = (daily_loss_ r + - last_trade_pnl s)%num ∧
    last_trade_seq s ≠ last_daily_trade_seq_added_ r)).
Proof.
  unfold add_trade_loss. destruct (_ && _) eqn:E; [|by split_and!; auto].
  apply andb_true_iff in E as [E Hseq]. apply andb_true_iff in E as [E Hpnl].
  apply negb_true_iff, Z.eqb_neq in Hseq. split_and!; try done. by right.
Qed.

Lemma add_loss_again s r : add_trade_loss s (add_trade_loss s r) = add_trade_loss s r.
Proof.
  unfold add_trade_loss. destruct (_ && negb (last_trade_seq s =? last_daily_trade_seq_added_ r)) eqn:E.
  - cbn [rm_daily last_daily_trade_seq_added_]. by rewrite Z.eqb_refl, andb_false_r.
  - by rewrite E.
Qed.

(** the day's loss counts each closed trade once: checking a fill again against
    the same analytics snapshot gives the same answer and changes nothing, and
    one check adds the loss of the latest trade only when that trade lost and
    was not the one added last. *)
Theorem post_fill_counts_once ts s r :
  0 <= ts →
  let res := check_post_fill ts s r in
  check_post_fill ts s res.2 = res ∧
  order_timestamps_ res.2 = order_timestamps_ r ∧ trade_timestamps_ res.2 = trade_timestamps_ r ∧
  (last_daily_trade_seq_added_ res.2 = last_daily_trade_seq_added_ r →
   daily_loss_ res.2 = daily_loss_ r ∨ daily_loss_ res.2 = daily_loss_ (update_daily_reset ts r)) ∧
  (last_daily_trade_seq_added_ res.2 ≠ last_daily_trade_seq_added_ r →
   last_daily_trade_seq_added_ res.2 = last_trade_seq s ∧ (last_trade_pnl s <? n_zero)%num = true ∧
   daily_loss_ res.2 = (daily_loss_ (update_daily_reset ts r) + - last_trade_pnl s)%num).
Proof.
  intros Hts. cbv zeta. destruct (update_keeps ts r) as (El & Eo & Et & Es).
  destruct (add_loss_keeps s (update_daily_reset ts r)) as (El' & Eo' & Et' & Etp & Ecase).
  pose proof (update_daily_reset_next ts r) as Hnext. rewrite <- Etp in Hnext.
  set (r2 := add_trade_loss s (update_daily_reset ts r)) in *.
  assert (check_post_fill ts s r = (halt, r) ∨ check_post_fill ts s r = (pass, r) ∨
    (check_post_fill ts s r).2 = r2) as Hshape.
  { unfold check_post_fill. fold r2. destruct (post_fill_breach s r); [auto|].
    destruct (n_zero <? max_daily_loss (limits_ r))%num; [|auto]. right; right.
    by destruct (max_daily_loss (limits_ r) <=? daily_loss_ r2)%num. }
  destruct Hshape as [E|[E|E]].
  { rewrite E. cbn [snd]. rewrite E. by split_and!; auto. }
  { rewrite E. cbn [snd]. rewrite E. by split_and!; auto. }
  rewrite E. split_and!.
  - unfold check_post_fill at 2. fold r2. unfold check_post_fill in E. fold r2 in E.
    destruct (post_fill_breach s r) eqn:Eb; cbn [snd] in E; [rewrite <- E; unfold check_post_fill; by rewrite Eb|].
    destruct (n_zero <? max_daily_loss (limits_ r))%num eqn:Ed; cbn [snd] in E;
      [|rewrite <- E; unfold check_post_fill; by rewrite Eb, Ed].
    assert (post_fill_breach s r2 = false) as Eb2 by (unfold post_fill_breach; rewrite El', El, Et', Et; exact Eb).
    unfold check_post_fill. rewrite Eb2, El', El, Ed, update_daily_reset_again by done.
    assert (add_trade_loss s r2 = r2) as -> by apply add_loss_again. by destruct (_ <=? _)%num.
  - congruence.
  - congruence.
  - intros Eseq. right. destruct Ecase as [->|(Hseq & _ & _ & Hne)]; [done|]. congruence.
  - intros Hne. destruct Ecase as [E2|(Hseq & Hpnl & Hloss & _)]; [|done]. rewrite E2 in Hne. congruence.
Qed.

(** ** The order-rate window *)

(** The risk manager and the times of the orders it passed, after a call. *)
Definition call : Type := risk_order * portfolio * risk_snapshot.
Definition call_ts (c : call) : time_point := ro_ts c.1.1.

Definition run_call (st : RiskManager * list time_point) (c : call) : RiskManager * list time_point :=
  let '(a, r) := check_order c.1.1 c.1.2 c.2 st.1 in
  (r, if bool_decide (a = pass) then st.2 ++ [call_ts c] else st.2).

Definition run_calls (l : risk_limits) (cs : list call) : RiskManager * list time_point :=
  foldl run_call (mk_RiskManager l, []) cs.

Definition in_window (t : time_point) (ts : list time_point) : list time_point :=
  filter (λ x, t - 60 * ns_per_s <= x) ts.

Lemma prune_sorted ts c : StronglySorted Z.le ts → prune_old_entries ts c = filter (λ x, c <= x) ts.
Proof.
  induction 1 as [|t ts Hs IH Hle]; [done|]. cbn [prune_old_entries].
  destruct (Z.ltb_spec t c) as [Hlt|Hge].
  - by rewrite filter_cons_False by lia.
  - rewrite filter_cons_True by done. f_equal. symmetry. apply filter_all.
    rewrite Forall_forall in Hle. intros x Hx. specialize (Hle x Hx). lia.
Qed.

Lemma sorted_snoc ts t : StronglySorted Z.le ts → Forall (λ x, x <= t) ts → StronglySorted Z.le (ts ++ [t]).
Proof.
  intros Hs Hle. induction Hs as [|x ts Hs IH Hx]; [by repeat constructor|].
  apply Forall_cons in Hle as [Hxt Hle]. cbn. constructor; [by apply IH|]. apply Forall_app. by repeat constructor.
Qed.

(** [hist]: the times of all orders recorded; the deque is its tail from the last
    cutoff on, and the orders passed are among them. *)
Record window_ok (l : risk_limits) (last : time_point) (st : RiskManager * list time_point)
    (hist : list time_point) : Prop := {
  wk_limits : limits_ st.1 = l;
  wk_sorted : StronglySorted Z.le hist;
  wk_last : Forall (λ x, x <= last) hist;
  wk_deque : ∀ t, last <= t → filter (λ x, t - 60 * ns_per_s <= x) (order_timestamps_ st.1) = in_window t hist;
  wk_deque_sorted : StronglySorted Z.le (order_timestamps_ st.1);
  wk_len : Z.of_nat (length (order_timestamps_ st.1)) <= max_orders_per_minute l;
  wk_passed : sublist st.2 hist }.

Lemma filter_sublist_mono (P : Z → Prop) `{!∀ x, Decision (P x)} (l1 l2 : list Z) :
  sublist l1 l2 → sublist (filter P l1) (filter P l2).
Proof.
  induction 1 as [|x l1 l2 _ IH|x l1 l2 _ IH]; [done| |]; rewrite !filter_cons; case_decide; try done;
    by constructor.
Qed.

Lemma filter_le_filter (a b : Z) (ts : list Z) :
  a <= b → filter (λ x, b <= x) (filter (λ x, a <= x) ts) = filter (λ x, b <= x) ts.
Proof. intros Hab. rewrite list_filter_filter. apply list_filter_iff. intros x. split; [by intros []|]. lia. Qed.

Lemma check_order_cases c r :
  let '(a, r') := check_order c.1.1 c.1.2 c.2 r in
  limits_ r' = limits_ r ∧
  let l := limits_ r in
  let ots := prune_old_entries (order_timestamps_ r) (call_ts c - 60 * ns_per_s) in
  (a ≠ pass ∧ (order_timestamps_ r' = order_timestamps_ r ∨ order_timestamps_ r' = ots)) ∨
  (0 < max_orders_per_minute l →
   order_timestamps_ r' = ots ++ [call_ts c] ∧ i32 (Z.of_nat (length ots)) < max_orders_per_minute l).
Proof.
  unfold check_order, call_ts. destruct (static_checks (limits_ r) c.1.1 c.1.2 c.2); try (by split; [done|]; left; auto).
  destruct (Z.ltb_spec 0 (max_orders_per_minute (limits_ r))) as [Hm|Hm].
  - destruct (Z.leb_spec (max_orders_per_minute (limits_ r))
      (i32 (Z.of_nat (length (prune_old_entries (order_timestamps_ r) (ro_ts c.1.1 - 60 * ns_per_s)))))) as [Hf|Hf].
    + split; [done|]. left. split; [done|]. by right.
    + destruct (n_zero <? max_daily_loss (limits_ r))%num; [|by split; [done|]; right].
      match goal with |- context [update_daily_reset ?t ?x] =>
        destruct (update_keeps t x) as (El & Eo & _); destruct (_ <=? _)%num end;
        (split; [by rewrite El|]); right; intros _; by rewrite Eo.
  - destruct (n_zero <? max_daily_loss (limits_ r))%num; [|by split; [done|]; right; intros; lia].
    destruct (update_keeps (ro_ts c.1.1) r) as (El & Eo & _).
    destruct (_ <=? _)%num; (split; [done|]); right; intros; lia.
Qed.

Lemma sorted_filter (c : Z) (ts : list Z) :
  StronglySorted Z.le ts → StronglySorted Z.le (filter (λ x, c <= x) ts).
Proof.
  induction 1 as [|t ts Hs IH Hle]; [constructor|]. rewrite filter_cons. case_decide; [|done].
  constructor; [done|]. rewrite Forall_forall in *. intros x Hx. apply Hle. by apply list_elem_of_filter in Hx as [_ ?].
Qed.

Lemma prune_window l last st hist c :
  window_ok l last st hist → last <= call_ts c →
  prune_old_entries (order_timestamps_ st.1) (call_ts c - 60 * ns_per_s) = in_window (call_ts c) hist.
Proof. intros [Hl Hs Hla Hd Hds Hlen Hp] Hc. rewrite prune_sorted by done. by apply Hd. Qed.

(** A call that records nothing keeps the window. *)
Lemma window_keep l last st hist c r :
  window_ok l last st hist → last <= call_ts c → limits_ r = l →
  order_timestamps_ r = order_timestamps_ st.1 ∨
  order_timestamps_ r = prune_old_entries (order_timestamps_ st.1) (call_ts c - 60 * ns_per_s) →
  window_ok l (call_ts c) (r, st.2) hist.
Proof.
  intros Hok Hc Hlim Hots. pose proof (prune_window _ _ _ _ c Hok Hc) as Hpr.
  destruct Hok as [Hl Hs Hla Hd Hds Hlen Hp]. split; try done.
  - eapply Forall_impl; [done|]. simpl. lia.
  - cbn [fst]. intros t Ht. destruct Hots as [-> | ->]; [apply Hd; lia|]. rewrite Hpr. unfold in_window.
    apply filter_le_filter. lia.
  - cbn [fst]. destruct Hots as [-> | ->]; [done|]. rewrite Hpr. by apply sorted_filter.
  - cbn [fst]. destruct Hots as [-> | ->]; [done|]. rewrite Hpr.
    rewrite <- (Hd (call_ts c) Hc). etrans; [|exact Hlen]. apply inj_le, length_filter.
Qed.

(** A call that records its time, passed or halted by the day's loss. *)
Lemma window_record l last st hist c r passed :
  window_ok l last st hist → last <= call_ts c → limits_ r = l → max_orders_per_minute l < 2 ^ 31 →
  order_timestamps_ r = prune_old_entries (order_timestamps_ st.1) (call_ts c - 60 * ns_per_s) ++ [call_ts c] →
  i32 (Z.of_nat (length (prune_old_entries (order_timestamps_ st.1) (call_ts c - 60 * ns_per_s)))) <
    max_orders_per_minute l →
  passed = st.2 ++ [call_ts c] ∨ passed = st.2 →
  window_ok l (call_ts c) (r, passed) (hist ++ [call_ts c]) ∧
  Z.of_nat (length (in_window (call_ts c) (hist ++ [call_ts c]))) <= max_orders_per_minute l.
Proof.
  intros Hok Hc Hlim Hmax Hots Hlt Hpass. pose proof (prune_window _ _ _ _ c Hok Hc) as Hpr.
  destruct Hok as [Hl Hs Hla Hd Hds Hlen Hp]. rewrite Hpr in Hots, Hlt.
  assert (Z.of_nat (length (in_window (call_ts c) hist)) <= max_orders_per_minute l) as Hle.
  { rewrite <- (Hd (call_ts c) Hc). etrans; [|exact Hlen]. apply inj_le, length_filter. }
  rewrite wraps_id in Hlt by (unfold in_s; lia).
  assert (∀ t, call_ts c <= t → in_window t (hist ++ [call_ts c]) =
    filter (λ x, t - 60 * ns_per_s <= x) (in_window (call_ts c) hist ++ [call_ts c])) as Hwin.
  { intros t Ht. unfold in_window. rewrite !filter_app. f_equal. symmetry. apply filter_le_filter. lia. }
  assert (Forall (λ x, x <= call_ts c) hist) as Hla' by (eapply Forall_impl; [done|]; simpl; lia).
  split.
  - split; cbn [fst snd]; try done.
    + by apply sorted_snoc.
    + apply Forall_app. split; [done|]. by repeat constructor.
    + intros t Ht. by rewrite Hots, Hwin.
    + rewrite Hots. apply sorted_snoc; [by apply sorted_filter|]. rewrite Forall_forall in *.
      intros x Hx. apply Hla'. by apply list_elem_of_filter in Hx as [_ ?].
    + rewrite Hots, length_app. simpl. lia.
    + destruct Hpass as [-> | ->]; [by apply sublist_app|]. by apply sublist_inserts_r.
  - rewrite Hwin by done. etrans; [apply inj_le, length_filter|]. rewrite length_app. simpl. lia.
Qed.

Lemma sorted_snoc_inv (ts : list Z) t :
  StronglySorted Z.le (ts ++ [t]) → StronglySorted Z.le ts ∧ Forall (λ x, x <= t) ts.
Proof.
  induction ts as [|x ts IH]; cbn; [by repeat constructor|]. inversion 1 as [|? ? Hs Hx]; subst.
  destruct (IH Hs) as [? ?]. apply Forall_app in Hx as [Hx Ht]. apply Forall_cons in Ht as [? _].
  split; by constructor.
Qed.

Lemma run_calls_snoc l cs c : run_calls l (cs ++ [c]) = run_call (run_calls l cs) c.
Proof. unfold run_calls. by rewrite foldl_app. Qed.

Lemma window_step l last st hist c :
  0 < max_orders_per_minute l < 2 ^ 31 → window_ok l last st hist → last <= call_ts c →
  ∃ hist', window_ok l (call_ts c) (run_call st c) hist' ∧
    ((check_order c.1.1 c.1.2 c.2 st.1).1 = pass →
     Z.of_nat (length (in_window (call_ts c) hist')) <= max_orders_per_minute l).
Proof.
  intros Hm Hok Hc. pose proof (check_order_cases c st.1) as Hcase. unfold run_call.
  destruct (check_order c.1.1 c.1.2 c.2 st.1) as [a r]. rewrite (wk_limits _ _ _ _ Hok) in Hcase.
  destruct Hcase as [Hlim [[Ha Hots]|Hrec]].
  - exists hist. rewrite bool_decide_false by done. split; [by apply (window_keep l last)|done].
  - destruct (Hrec ltac:(lia)) as [Hots Hlt]. exists (hist ++ [call_ts c]).
    destruct (window_record l last st hist c r (if bool_decide (a = pass) then st.2 ++ [call_ts c] else st.2)
      Hok Hc Hlim ltac:(lia) Hots Hlt) as [Hok' Hcount]; [case_bool_decide; auto|]. done.
Qed.

Lemma window_later l last t st hist : last <= t → window_ok l last st hist → window_ok l t st hist.
Proof.
  intros Ht [Hl Hs Hla Hd Hds Hlen Hp]. split; try done.
  - eapply Forall_impl; [done|]. simpl. lia.
  - intros t' Ht'. apply Hd. lia.
Qed.

Lemma window_run l cs t :
  0 < max_orders_per_minute l < 2 ^ 31 → StronglySorted Z.le (call_ts <$> cs) →
  Forall (λ x, x <= t) (call_ts <$> cs) → ∃ hist, window_ok l t (run_calls l cs) hist.
Proof.
  intros Hm. revert t. induction cs as [|c cs IH] using rev_ind; intros t Hs Ht.
  - exists []. split; try done; cbn; lia.
  - rewrite fmap_app in *. apply sorted_snoc_inv in Hs as [Hs Hle]. apply Forall_app in Ht as [_ Ht].
    apply Forall_cons in Ht as [Ht _]. destruct (IH (call_ts c) Hs Hle) as (hist & Hok).
    destruct (window_step l _ _ hist c Hm Hok ltac:(lia)) as (hist' & Hok' & _).
    exists hist'. rewrite run_calls_snoc. by apply (window_later _ (call_ts c)).
Qed.

(** the order-rate limit.  Over any sequence of order checks at non-decreasing
    times, whenever an order passes, at most [max_orders_per_minute] orders
    passed within the sixty seconds up to and including it. *)
Theorem order_rate_limited l cs c :
  0 < max_orders_per_minute l < 2 ^ 31 → StronglySorted Z.le (call_ts <$> cs ++ [c]) →
  (check_order c.1.1 c.1.2 c.2 (run_calls l cs).1).1 = pass →
  Z.of_nat (length (in_window (call_ts c) (run_calls l (cs ++ [c])).2)) <= max_orders_per_minute l.
Proof.
  intros Hm Hs Hpass. rewrite fmap_app in Hs. apply sorted_snoc_inv in Hs as [Hs Hle].
  destruct (window_run l cs (call_ts c) Hm Hs Hle) as (hist & Hok).
  destruct (window_step l _ _ hist c Hm Hok ltac:(lia)) as (hist' & Hok' & Hcount).
  rewrite run_calls_snoc. etrans; [|by apply Hcount]. apply inj_le, sublist_length.
  apply filter_sublist_mono. apply (wk_passed _ _ _ _ Hok').
Qed.

End Risk.

(** ** The limits in exact arithmetic *)

Section Exact.
#[local] Existing Instance exact_arith.
Context {HO : HashOrder}.

Definition sum_Q (l : list Q) : Q := foldr Qplus 0%Q l.

Lemma sum_Q_perm l1 l2 : l1 ≡ₚ l2 → (sum_Q l1 == sum_Q l2)%Q.
Proof. unfold sum_Q. induction 1; cbn [foldr] in *; lra. Qed.

(** The exposure after the order: its own symbol at the projected notional, every
    other symbol at its cost basis, in no particular order. *)
Definition exposure_after (o : risk_order) (p : portfolio) (projected : Q) : Q :=
  (projected + sum_Q ((λ x, Qabs (cost_basis x.2)) <$>
                      filter (λ x, x.1 ≠ ro_symbol o) (map_to_list (positions_ p))))%Q.

Lemma foldl_sum (B : Type) (f : B → Q) (l : list B) (a : Q) :
  (foldl (λ e x, e + f x) a l == a + sum_Q (f <$> l))%Q.
Proof.
  revert a. induction l as [|x l IH]; intros a; cbn [foldl fmap list_fmap sum_Q foldr]; [lra|].
  rewrite IH. fold (sum_Q (f <$> l)). lra.
Qed.

Lemma sum_split (B : Type) (P : B → Prop) `{!∀ x, Decision (P x)} (f : B → Q) (c : Q) (l : list B) :
  (sum_Q ((λ x, if decide (P x) then c else f x) <$> l) ==
   inject_Z (Z.of_nat (length (filter P l))) * c + sum_Q (f <$> filter (λ x, ¬ P x) l))%Q.
Proof.
  induction l as [|x l IH]; [by vm_compute|]. rewrite !filter_cons. cbn [fmap list_fmap sum_Q foldr].
  fold (sum_Q ((λ x, if decide (P x) then c else f x) <$> l)). rewrite IH.
  destruct (decide (P x)) as [HP|HP].
  - rewrite decide_False by tauto. cbn [length]. rewrite Nat2Z.inj_succ, <- Z.add_1_r, inject_Z_plus. change (inject_Z 1) with 1%Q. lra.
  - rewrite decide_True by done. cbn [fmap list_fmap sum_Q foldr]. fold (sum_Q (f <$> filter (λ x, ¬ P x) l)). lra.
Qed.

Lemma entries_of_symbol (m : gmap string position) sym :
  length (filter (λ x, x.1 = sym) (map_to_list m)) = (if decide (is_Some (m !! sym)) then 1 else 0)%nat.
Proof.
  assert (filter (λ x : string * position, x.1 = sym) (map_to_list (delete sym m)) = []) as Hd.
  { apply filter_none. intros [k' pos] Hx <-. apply elem_of_map_to_list in Hx. by rewrite lookup_delete_eq in Hx. }
  case_decide as Hs.
  - destruct Hs as [pos Hpos]. rewrite <- (insert_delete_id m sym pos Hpos) at 1.
    rewrite map_to_list_insert by apply lookup_delete_eq. by rewrite filter_cons_True, Hd by done.
  - assert (m !! sym = None) as Hn by (by apply eq_None_not_Some).
    rewrite <- (delete_id m sym Hn) at 1. by rewrite Hd.
Qed.

(** The running total over the hash map's order is the exposure. *)
Lemma total_exposure_exact o p projected :
  (projected_total_exposure o p projected == exposure_after o p projected)%Q.
Proof.
  unfold projected_total_exposure, exposure_after.
  set (f := λ x : string * @position exact_arith, if decide (x.1 = ro_symbol o) then projected else Qabs (cost_basis x.2)).
  assert (∀ (l : list (string * @position exact_arith)) (a : Q), foldl (λ e x, if bool_decide (x.1 = ro_symbol o) then (e + projected)%num
      else (e + n_abs (cost_basis x.2))%num) a l = foldl (λ e x, e + f x)%Q a l) as Efold.
  { induction l as [|x l IH]; intros a; [done|]. cbn [foldl]. rewrite IH. f_equal.
    unfold f. case_bool_decide; case_decide; done. }
  rewrite Efold. clear Efold.
  assert (foldl (λ e x, e + f x)%Q n_zero (iter (positions_ p)) ==
    inject_Z (if decide (is_Some (positions_ p !! ro_symbol o)) then 1 else 0) * projected +
    sum_Q ((λ x, Qabs (cost_basis x.2)) <$> filter (λ x, x.1 ≠ ro_symbol o) (map_to_list (positions_ p))))%Q as E.
  { rewrite foldl_sum. rewrite (sum_Q_perm _ (f <$> map_to_list (positions_ p))).
    - unfold f. rewrite (sum_split _ (λ x, x.1 = ro_symbol o)), entries_of_symbol.
      unfold n_zero. tt_exact. case_decide; apply Qplus_0_l.
    - by rewrite iter_perm. }
  destruct (positions_ p !! ro_symbol o) as [pos|] eqn:Ep.
  - rewrite E. rewrite decide_True by eauto. change (inject_Z 1) with 1%Q. lra.
  - tt_exact. rewrite E. rewrite decide_False by (by intros [? ?]). change (inject_Z 0) with 0%Q. lra.
Qed.

(** What a passed order satisfies. *)
Record within_limits (l : risk_limits) (o : risk_order) (p : portfolio) (s : risk_snapshot) : Prop := {
  wl_drawdown : (sn_max_drawdown s / 100 < max_drawdown l)%Q;
  wl_open : i32 (u64 (total_orders s - total_fills s)) < max_open_orders l;
  wl_exposure :
    let pos := positions_ p !! ro_symbol o in
    let projected := projected_position_notional o pos in
    reduces_position_exposure o pos = true ∨
    ((projected <= max_position_value l)%Q ∧ (exposure_after o p projected <= max_portfolio_exposure l)%Q ∧
     ((0 < max_position_pct_of_equity l)%Q → (0 < sn_equity s)%Q →
      (projected <= sn_equity s * max_position_pct_of_equity l)%Q ∧
      (exposure_after o p projected <= sn_equity s * max_position_pct_of_equity l)%Q));
  wl_spread : (0 < max_spread_bps l)%Q → (current_spread_bps s <= max_spread_bps l)%Q;
  wl_funding : (0 < max_funding_8h_rate l)%Q → (current_funding_8h_rate s <= max_funding_8h_rate l)%Q }.

(** A guard that refuses. *)
Lemma guard_pass (b : bool) a x : a ≠ pass → (if b then a else x) = pass ↔ b = false ∧ x = pass.
Proof. destruct b; naive_solver. Qed.
Lemma severity_pass (b : bool) : (if b then halt else reject) ≠ pass.
Proof. by destruct b. Qed.

Lemma guarded_false (c b : bool) : negb c && b = false ↔ c = true ∨ b = false.
Proof. destruct c, b; naive_solver. Qed.
Lemma enabled_false (x : Q) (b : bool) : Qltb 0 x && b = false ↔ ((0 < x)%Q → b = false).
Proof.
  destruct (Qltb_spec 0 x) as [Hx|Hx]; cbn [andb]; split; try naive_solver.
  intros _ Hlt. lra.
Qed.

Lemma static_checks_pass l o p s : static_checks l o p s = pass ↔ within_limits l o p s.
Proof.
  unfold static_checks. set (pos := positions_ p !! ro_symbol o).
  set (projected := projected_position_notional o pos).
  pose proof (total_exposure_exact o p projected) as Hex.
  set (total := projected_total_exposure o p projected) in *. clearbody total.
  set (red := reduces_position_exposure o pos). unfold n_zero. tt_exact. cbv zeta.
  rewrite <- !andb_assoc, !guard_pass by (try apply severity_pass; done).
  rewrite !guarded_false, !enabled_false, !Qltb_false, Qleb_false, Z.leb_gt. split.
  - intros (H1 & H2 & H3 & H4 & H5 & H6 & H7 & H8 & _). split; try done. cbv zeta. fold pos. fold projected. fold red.
    destruct red; [by left|right].
    destruct H3 as [?|H3], H4 as [?|H4], H5 as [?|H5], H6 as [?|H6]; try done. rewrite <- Hex.
    split_and!; try done. intros Hp He. split; [by apply H4|by apply H6].
  - intros [H1 H2 H3 H7 H8]. cbv zeta in H3. fold pos in H3. fold projected in H3. fold red in H3.
    destruct red; [split_and!; auto|]. destruct H3 as [?|(H3 & H5 & H46)]; [done|]. rewrite <- Hex in *.
    split_and!; try done; try (right; try done); naive_solver.
Qed.

(** C24: which orders pass, in exact arithmetic: exactly those within the drawdown and
    open-order limits that either reduce the position or keep its notional, the
    whole exposure and their share of equity within the limits, with spread and
    funding within theirs, while the order-rate window has room and the day's loss
    is below its limit.  The exposure is the sum over all symbols whatever order
    the hash map yields them in. *)
Theorem check_order_passes o p s r :
  (check_order o p s r).1 = pass ↔
  within_limits (limits_ r) o p s ∧
  (0 < max_orders_per_minute (limits_ r) →
   i32 (Z.of_nat (length (prune_old_entries (order_timestamps_ r) (ro_ts o - 60 * ns_per_s)))) <
     max_orders_per_minute (limits_ r)) ∧
  ((0 < max_daily_loss (limits_ r))%Q →
   (daily_loss_ (update_daily_reset (ro_ts o) r) < max_daily_loss (limits_ r))%Q).
Proof.
  rewrite <- static_checks_pass. unfold check_order, n_zero. tt_exact.
  destruct (static_checks (limits_ r) o p s); try (by cbn; naive_solver).
  assert (∀ ots, daily_loss_ (update_daily_reset (ro_ts o) (rm_set ots (trade_timestamps_ r) r)) =
    daily_loss_ (update_daily_reset (ro_ts o) r)) as Hset.
  { intros ots. unfold update_daily_reset. cbn [rm_set daily_reset_tp_ limits_]. by destruct (_ <=? ro_ts o). }
  destruct (Z.ltb_spec 0 (max_orders_per_minute (limits_ r))) as [Hm|Hm].
  - destruct (Z.leb_spec (max_orders_per_minute (limits_ r)) (i32 (Z.of_nat (length
      (prune_old_entries (order_timestamps_ r) (ro_ts o - 60 * ns_per_s)))))) as [Hf|Hf].
    { split; [done|]. intros (_ & Hw & _). specialize (Hw Hm). lia. }
    destruct (Qltb_spec (0 # 1) (max_daily_loss (limits_ r))) as [Hd|Hd].
    + rewrite Hset. tt_exact. destruct (Qleb_spec (max_daily_loss (limits_ r))
        (daily_loss_ (update_daily_reset (ro_ts o) r))) as [Hl|Hl]; split; try done.
      intros (_ & _ & Hx). specialize (Hx Hd). exfalso. lra.
    + split; [|done]. intros _. split_and!; try done. intros Hx. exfalso. lra.
  - destruct (Qltb_spec (0 # 1) (max_daily_loss (limits_ r))) as [Hd|Hd].
    + destruct (Qleb_spec (max_daily_loss (limits_ r))
        (daily_loss_ (update_daily_reset (ro_ts o) r))) as [Hl|Hl]; split; try done.
      * intros (_ & _ & Hx). specialize (Hx Hd). exfalso. lra.
      * intros _. split_and!; try done. lia.
    + split; [|done]. intros _. split_and!; try done; [lia|]. intros Hx. exfalso. lra.
Qed.

(** ** The futures check *)

Lemma guard_allow (b : bool) w v c (x : decision) :
  (if b then refuse w v c else x) = allow ↔ b = false ∧ x = allow.
Proof. destruct b; naive_solver. Qed.

(** the futures check in exact arithmetic.  With a mark price and at least one cap
    set, an order is allowed exactly when its post-trade notional is within the
    notional cap and, if there is cash and the order does not end flat, its
    leverage is within the leverage cap and its distance to liquidation, at the
    maintenance rate of its tier, is at least the minimum.  Without a mark or
    without caps everything is allowed. *)
Theorem futures_check_allows c tiers o p (mark : Q) :
  let n := post_notional o p mark in
  let capped := ((0 < max_notional_usdt c) ∨ (0 < max_leverage c) ∨ (0 < min_liquidation_distance_pct c))%Q in
  evaluate c tiers o p mark = allow ↔
  ((0 < mark)%Q → capped →
   ((0 < max_notional_usdt c)%Q → (n <= max_notional_usdt c)%Q) ∧
   ((0 < cash_ p)%Q → (0 < n)%Q →
    ((0 < max_leverage c)%Q → (n <= max_leverage c * cash_ p)%Q) ∧
    ((0 < min_liquidation_distance_pct c)%Q →
     (min_liquidation_distance_pct c <= cash_ p / n - mm_rate c tiers n)%Q))).
Proof.
  cbv zeta. unfold evaluate, n_zero. set (n := post_notional o p mark). clearbody n. tt_exact.
  destruct (Qleb_spec mark (0 # 1)) as [Hm|Hm].
  { split; [|done]. intros _ Hx. exfalso. lra. }
  set (u := Qle_bool _ _ && _ && _). destruct u eqn:Eu.
  { unfold u in Eu. rewrite !andb_true_iff, !Qle_bool_iff in Eu. destruct Eu as [[E1 E2] E3].
    split; [|done]. intros _ _ [Hx|[Hx|Hx]]; exfalso; lra. }
  assert ((0 < max_notional_usdt c) ∨ (0 < max_leverage c) ∨ (0 < min_liquidation_distance_pct c))%Q as Hcap.
  { unfold u in Eu. rewrite !andb_false_iff, !Qleb_false in Eu. tauto. }
  rewrite guard_allow, enabled_false, Qltb_false.
  assert (Qltb (0 # 1) (cash_ p) && Qltb (0 # 1) n = true ↔ (0 < cash_ p)%Q ∧ (0 < n)%Q) as Hboth
    by (rewrite andb_true_iff, !Qltb_true; done).
  destruct (Qltb (0 # 1) (cash_ p) && Qltb (0 # 1) n) eqn:Eb.
  - destruct (proj1 Hboth eq_refl) as [Hc Hn]. rewrite !guard_allow, !enabled_false, !Qltb_false.
    assert (n / cash_ p <= max_leverage c ↔ n <= max_leverage c * cash_ p)%Q as Hlev.
    { assert (n / cash_ p * cash_ p == n)%Q as Hd by (field; lra). split; intros; nra. }
    rewrite Hlev. naive_solver.
  - split; [intros [H1 _] _ _; split; [done|]|].
    + intros Hc Hn. exfalso. by assert (false = true) by (by apply Hboth).
    + intros Hx. split; [|done]. by apply Hx.
Qed.

Lemma tier_for_elem (notional : Q) l t : tier_for notional l = Some t → t ∈ l.
Proof.
  induction l as [|a l IH]; [done|]. cbn [tier_for]. destruct (n_le _ _); [intros [= ->]; left|].
  destruct l; [intros [= ->]; left|]. intros Ht. right. by apply IH.
Qed.

(** the margin tier of a notional: over tiers sorted by strictly increasing cap,
    the rate is that of the one tier whose cap is the first at or above the
    notional, every earlier cap lying below it; beyond all caps, and only then,
    the last tier's. *)
Theorem tier_lookup_exact (notional : Q) ts t ts' :
  StronglySorted (λ a b, notional_cap a < notional_cap b)%Q (ts ++ t :: ts') →
  tier_for notional (ts ++ t :: ts') = Some t ↔
  (Forall (λ a, notional_cap a < notional)%Q ts ∧ ((notional <= notional_cap t)%Q ∨ ts' = [])).
Proof.
  intros Hs. induction ts as [|a ts IH]; cbn [app] in *; inversion Hs as [|? ? Hs' Hle]; subst.
  - cbn [tier_for]. tt_exact. destruct (Qleb_spec notional (notional_cap t)) as [Hn|Hn].
    { split; [|done]. intros _. split; [constructor|by left]. }
    destruct ts' as [|b ts']; [split; [|done]; intros _; split; [constructor|by right]|].
    split; [|intros [_ [Hx|?]]; [exfalso; lra|done]]. intros Ht%tier_for_elem. exfalso.
    rewrite Forall_forall in Hle. specialize (Hle t Ht). lra.
  - assert (notional_cap a < notional_cap t)%Q as Hat.
    { rewrite Forall_forall in Hle. apply Hle. rewrite elem_of_app. right; left. }
    assert (tier_for notional (a :: ts ++ t :: ts') =
      if Qle_bool notional (notional_cap a) then Some a else tier_for notional (ts ++ t :: ts')) as ->
      by (cbn [tier_for]; tt_exact; by destruct ts).
    rewrite Forall_cons. destruct (Qleb_spec notional (notional_cap a)) as [Hn|Hn].
    + split; [intros [= ->]; exfalso; lra|]. intros [[Hx _] _]. exfalso. lra.
    + rewrite (IH Hs'). tauto.
Qed.

(** ** Concrete checks *)

Definition sample_limits : risk_limits :=
  {| max_position_value := 1000 # 1; max_drawdown := 3 # 10; max_loss_per_trade := 100 # 1; max_open_orders := 10;
     max_portfolio_exposure := 5000 # 1; max_daily_loss := 50 # 1; daily_reset_hour := 8; max_trades_per_hour := 5;
     max_orders_per_minute := 2; max_position_pct_of_equity := 0 # 1; max_portfolio_var_estimate := 0 # 1;
     max_spread_bps := 10 # 1; max_funding_8h_rate := 0 # 1 |}.
Definition sample_snapshot : risk_snapshot :=
  {| sn_max_drawdown := 5 # 1; total_orders := 3; total_fills := 2; last_trade_pnl := -20 # 1;
     has_last_trade := true; last_trade_seq := 1; sn_equity := 1000 # 1; realized_vol_1h := 0 # 1;
     current_spread_bps := 4 # 1; current_funding_8h_rate := 0 # 1 |}.
Definition sample_order (ts : Z) : risk_order :=
  {| ro_ts := ts * ns_per_s; ro_symbol := "BTC"; ro_side := side_buy; ro_quantity := 1 # 1; ro_price := 100 # 1 |}.
Definition sample_call (ts : Z) : call := (sample_order ts, sample_empty, sample_snapshot).

End Exact.

Section Witnesses.
#[local] Existing Instance exact_arith.

Lemma daily_reset_boundary_witness :
  let r := update_daily_reset (100000 * ns_per_s) (mk_RiskManager sample_limits) in
  100000 * ns_per_s < daily_reset_tp_ r ∧ daily_reset_tp_ r mod ns_per_day = 8 * ns_per_hour.
Proof.
  destruct (daily_reset_boundary (100000 * ns_per_s) (mk_RiskManager sample_limits))
    as (H1 & H2 & _); [by vm_compute|by vm_compute|by left|]. by split.
Defined.

Lemma post_fill_counts_once_witness :
  let res := check_post_fill (5 * ns_per_s) sample_snapshot (mk_RiskManager sample_limits) in
  res.1 = pass ∧ check_post_fill (5 * ns_per_s) sample_snapshot res.2 = res.
Proof.
  split; [by vm_compute|].
  apply (post_fill_counts_once (5 * ns_per_s) sample_snapshot (mk_RiskManager sample_limits)). by vm_compute.
Defined.

Lemma order_rate_limited_witness :
  let cs := [sample_call 10; sample_call 20; sample_call 30] in
  (check_order (sample_order 75) sample_empty sample_snapshot (run_calls sample_limits cs).1).1 = pass ∧
  Z.of_nat (length (in_window (75 * ns_per_s) (run_calls sample_limits (cs ++ [sample_call 75])).2)) <= 2.
Proof.
  split; [by vm_compute|].
  apply (order_rate_limited sample_limits [sample_call 10; sample_call 20; sample_call 30] (sample_call 75)).
  - by vm_compute.
  - repeat constructor; by vm_compute.
  - by vm_compute.
Defined.

Definition sample_tier (cap rate : Q) : MarginTier :=
  {| notional_cap := cap; maintenance_margin_rate := rate; maint_amount := 0 # 1 |}.

Lemma tier_lookup_exact_witness :
  tier_for (60 # 1)%Q ([sample_tier (50 # 1) (1 # 100)] ++ sample_tier (100 # 1) (2 # 100) :: []) =
    Some (sample_tier (100 # 1) (2 # 100)).
Proof.
  apply (tier_lookup_exact (60 # 1) [sample_tier (50 # 1) (1 # 100)] (sample_tier (100 # 1) (2 # 100)) []).
  - repeat constructor; by vm_compute.
  - split; [repeat constructor; by vm_compute|]. by right.
Defined.

End Witnesses.
