(* ===== verification/Exits.v ===== *)
(** * Exit intents and the exit manager (src/src/exits/exit_intent.h,
    bracket_adapter.h, exit_manager.h, exit_manager.cpp)

    A strategy declares its exits at entry; the manager keeps them pending until
    the opener fills, arms them at the fill, and on every price or bar returns
    the close orders of the armed intents that trigger, mirrored by brackets
    resting at the venue through an adapter.  The containers keyed by opener are
    lists in iteration order; the adapter's answers are an argument and its calls
    are logged. *)

From Stdlib Require Import QArith Qabs Lqa.
From S2P Require Import Prelude Float64 Event Arith Portfolio.

Open Scope string_scope.
Open Scope list_scope.
Open Scope Z_scope.

(** Where an unordered multimap puts a new entry, and how it orders the others
    after it: some order.  Erasing keeps the order of what stays. *)
Class MultiOrder := {
  emplace : ∀ {K A}, list (K * A) → K → A → list (K * A);
  emplace_perm : ∀ {K A} (l : list (K * A)) k a, emplace l k a ≡ₚ (k, a) :: l }.

#[export] Instance append_order : MultiOrder :=
  {| emplace := λ _ _ l k a, l ++ [(k, a)];
     emplace_perm := λ _ _ l k a, Permutation_sym (Permutation_cons_append l (k, a)) |}.

(** [equal_range], [erase] of a key and [count] *)
Definition entries {K A} `{EqDecision K} (k : K) (l : list (K * A)) : list (K * A) := filter (λ e, e.1 = k) l.
Definition erase_key {K A} `{EqDecision K} (k : K) (l : list (K * A)) : list (K * A) := filter (λ e, e.1 ≠ k) l.
Definition count_key {K A} `{EqDecision K} (k : K) (l : list (K * A)) : nat := length (entries k l).

Section Exits.
Context {A : Arith} {MO : MultiOrder}.

Record exit_intent := {
  ei_symbol : string;
  close_side : order_side;
  ei_qty : num;
  qty_fraction : num;
  stop_loss : option num;
  take_profit : option num;
  reference_entry : option num;
  trailing_pct : option num;
  deadline : option time_point;
  ei_opener_order_id : Z;
  ei_strategy_name : string }.

Definition make_long_exit_intent (symbol : string) (entry qty sl_pct tp_pct : num) (strategy_name : string)
    : exit_intent :=
  {| ei_symbol := symbol; close_side := side_sell; ei_qty := qty; qty_fraction := n_one;
     stop_loss := if (sl_pct >? n_zero)%num then Some (entry * (n_one - sl_pct))%num else None;
     take_profit := if (tp_pct >? n_zero)%num then Some (entry * (n_one + tp_pct))%num else None;
     reference_entry := Some entry; trailing_pct := None; deadline := None; ei_opener_order_id := 0;
     ei_strategy_name := strategy_name |}.

Definition make_short_exit_intent (symbol : string) (entry qty sl_pct tp_pct : num) (strategy_name : string)
    : exit_intent :=
  {| ei_symbol := symbol; close_side := side_buy; ei_qty := qty; qty_fraction := n_one;
     stop_loss := if (sl_pct >? n_zero)%num then Some (entry * (n_one + sl_pct))%num else None;
     take_profit := if (tp_pct >? n_zero)%num then Some (entry * (n_one - tp_pct))%num else None;
     reference_entry := Some entry; trailing_pct := None; deadline := None; ei_opener_order_id := 0;
     ei_strategy_name := strategy_name |}.

(** The fields the manager updates. *)
Definition set_qty (q : num) (i : exit_intent) : exit_intent :=
  {| ei_symbol := ei_symbol i; close_side := close_side i; ei_qty := q; qty_fraction := qty_fraction i;
     stop_loss := stop_loss i; take_profit := take_profit i; reference_entry := reference_entry i;
     trailing_pct := trailing_pct i; deadline := deadline i; ei_opener_order_id := ei_opener_order_id i;
     ei_strategy_name := ei_strategy_name i |}.
Definition set_exit_levels (sl tp re : option num) (i : exit_intent) : exit_intent :=
  {| ei_symbol := ei_symbol i; close_side := close_side i; ei_qty := ei_qty i; qty_fraction := qty_fraction i;
     stop_loss := sl; take_profit := tp; reference_entry := re;
     trailing_pct := trailing_pct i; deadline := deadline i; ei_opener_order_id := ei_opener_order_id i;
     ei_strategy_name := ei_strategy_name i |}.

Record bracket_handles := {
  sl_exchange_id : option string;
  tp_exchange_id : option string;
  oco_list_id : option string;
  bh_symbol : string }.
Definition no_handles : bracket_handles :=
  {| sl_exchange_id := None; tp_exchange_id := None; oco_list_id := None; bh_symbol := "" |}.
Definition handles_empty (h : bracket_handles) : bool :=
  match sl_exchange_id h, tp_exchange_id h, oco_list_id h with None, None, None => true | _, _, _ => false end.

Record recovered_bracket := {
  rb_opener_order_id : Z;
  rb_strategy_name : string;
  rb_symbol : string;
  rb_close_side : order_side;
  rb_qty : num;
  rb_entry_price : num;
  rb_stop_loss : option num;
  rb_take_profit : option num;
  rb_handles : bracket_handles }.

Record armed_intent := { intent : exit_intent; ai_entry_price : num; best_price : num; ts_armed : time_point }.
Record exchange_leg := { leg_opener_order_id : Z; leg_strategy_name : string }.

(** What the manager asked of the adapter, with the answers. *)
Inductive adapter_call :=
| Place (opener : Z) (i : exit_intent) (px : num) (answer : bracket_handles)
| Cancel (opener : Z) (h : bracket_handles).

(** An adapter answers a placement from its arguments and its history. *)
Definition adapter : Type := list adapter_call → Z → exit_intent → num → bracket_handles.
Definition NullBracketAdapter : adapter := λ _ _ _ _, no_handles.

Record ExitManager := {
  pending_ : list (Z * exit_intent);
  armed_ : list (Z * armed_intent);
  opener_remaining_qty_ : gmap Z num;
  opener_close_in_flight_qty_ : gmap Z num;
  strategy_symbol_to_openers_ : list ((string * string) * Z);
  bracket_adapter_ : option adapter;
  handles_ : gmap Z bracket_handles;
  exchange_to_leg_ : gmap string exchange_leg;
  adapter_calls : list adapter_call }.

Definition mk_ExitManager : ExitManager :=
  {| pending_ := []; armed_ := []; opener_remaining_qty_ := ∅; opener_close_in_flight_qty_ := ∅;
     strategy_symbol_to_openers_ := []; bracket_adapter_ := None; handles_ := ∅; exchange_to_leg_ := ∅;
     adapter_calls := [] |}.

Definition set_intents (ps : list (Z * exit_intent)) (az : list (Z * armed_intent)) (m : ExitManager) : ExitManager :=
  {| pending_ := ps; armed_ := az; opener_remaining_qty_ := opener_remaining_qty_ m;
     opener_close_in_flight_qty_ := opener_close_in_flight_qty_ m;
     strategy_symbol_to_openers_ := strategy_symbol_to_openers_ m; bracket_adapter_ := bracket_adapter_ m;
     handles_ := handles_ m; exchange_to_leg_ := exchange_to_leg_ m; adapter_calls := adapter_calls m |}.
Definition set_armed (az : list (Z * armed_intent)) (m : ExitManager) : ExitManager :=
  set_intents (pending_ m) az m.
Definition set_quantities (r c : gmap Z num) (m : ExitManager) : ExitManager :=
  {| pending_ := pending_ m; armed_ := armed_ m; opener_remaining_qty_ := r;
     opener_close_in_flight_qty_ := c;
     strategy_symbol_to_openers_ := strategy_symbol_to_openers_ m; bracket_adapter_ := bracket_adapter_ m;
     handles_ := handles_ m; exchange_to_leg_ := exchange_to_leg_ m; adapter_calls := adapter_calls m |}.
Definition set_remaining (r : gmap Z num) (m : ExitManager) : ExitManager :=
  set_quantities r (opener_close_in_flight_qty_ m) m.
Definition set_in_flight (c : gmap Z num) (m : ExitManager) : ExitManager :=
  set_quantities (opener_remaining_qty_ m) c m.
Definition set_index (l : list ((string * string) * Z)) (m : ExitManager) : ExitManager :=
  {| pending_ := pending_ m; armed_ := armed_ m; opener_remaining_qty_ := opener_remaining_qty_ m;
     opener_close_in_flight_qty_ := opener_close_in_flight_qty_ m;
     strategy_symbol_to_openers_ := l; bracket_adapter_ := bracket_adapter_ m;
     handles_ := handles_ m; exchange_to_leg_ := exchange_to_leg_ m; adapter_calls := adapter_calls m |}.
Definition set_venue (hs : gmap Z bracket_handles) (ls : gmap string exchange_leg) (m : ExitManager) : ExitManager :=
  {| pending_ := pending_ m; armed_ := armed_ m; opener_remaining_qty_ := opener_remaining_qty_ m;
     opener_close_in_flight_qty_ := opener_close_in_flight_qty_ m;
     strategy_symbol_to_openers_ := strategy_symbol_to_openers_ m; bracket_adapter_ := bracket_adapter_ m;
     handles_ := hs; exchange_to_leg_ := ls; adapter_calls := adapter_calls m |}.
Definition log_call (c : adapter_call) (m : ExitManager) : ExitManager :=
  {| pending_ := pending_ m; armed_ := armed_ m; opener_remaining_qty_ := opener_remaining_qty_ m;
     opener_close_in_flight_qty_ := opener_close_in_flight_qty_ m;
     strategy_symbol_to_openers_ := strategy_symbol_to_openers_ m; bracket_adapter_ := bracket_adapter_ m;
     handles_ := handles_ m; exchange_to_leg_ := exchange_to_leg_ m; adapter_calls := adapter_calls m ++ [c] |}.
Definition set_bracket_adapter (a : option adapter) (m : ExitManager) : ExitManager :=
  {| pending_ := pending_ m; armed_ := armed_ m; opener_remaining_qty_ := opener_remaining_qty_ m;
     opener_close_in_flight_qty_ := opener_close_in_flight_qty_ m;
     strategy_symbol_to_openers_ := strategy_symbol_to_openers_ m; bracket_adapter_ := a;
     handles_ := handles_ m; exchange_to_leg_ := exchange_to_leg_ m; adapter_calls := adapter_calls m |}.
Definition has_bracket_adapter (m : ExitManager) : bool := bool_decide (is_Some (bracket_adapter_ m)).

Definition armed_count (m : ExitManager) : nat := length (armed_ m).
Definition pending_count (m : ExitManager) : nat := length (pending_ m).

(** ** Registration and release *)

Definition register_pending (i : exit_intent) (m : ExitManager) : ExitManager :=
  if ei_opener_order_id i =? 0 then m else
  set_intents (emplace (pending_ m) (ei_opener_order_id i) i) (armed_ m)
    (set_index (emplace (strategy_symbol_to_openers_ m) (ei_strategy_name i, ei_symbol i) (ei_opener_order_id i)) m).

Definition untrack_opener (opener : Z) (strategy_name symbol : string) (m : ExitManager) : ExitManager :=
  set_index (filter (λ e, ¬ (e.1 = (strategy_name, symbol) ∧ e.2 = opener)) (strategy_symbol_to_openers_ m)) m.

Definition erase_leg (id : option string) (ls : gmap string exchange_leg) : gmap string exchange_leg :=
  match id with Some x => delete x ls | None => ls end.

Definition release_venue_bracket (opener : Z) (m : ExitManager) : ExitManager :=
  match handles_ m !! opener with
  | None => m
  | Some h =>
      let m := set_venue (delete opener (handles_ m))
                 (erase_leg (tp_exchange_id h) (erase_leg (sl_exchange_id h) (exchange_to_leg_ m))) m in
      if bracket_adapter_ m then log_call (Cancel opener h) m else m
  end.

(** [unordered_map::emplace] keeps an entry that is already there. *)
Definition emplace_leg (id : option string) (leg : exchange_leg) (ls : gmap string exchange_leg)
    : gmap string exchange_leg :=
  match id with
  | Some x => match ls !! x with Some _ => ls | None => <[x := leg]> ls end
  | None => ls
  end.

Definition install_handles (opener : Z) (strategy_name : string) (h : bracket_handles) (m : ExitManager) : ExitManager :=
  let leg := {| leg_opener_order_id := opener; leg_strategy_name := strategy_name |} in
  set_venue (match handles_ m !! opener with Some _ => handles_ m | None => <[opener := h]> (handles_ m) end)
    (emplace_leg (tp_exchange_id h) leg (emplace_leg (sl_exchange_id h) leg (exchange_to_leg_ m))) m.

Definition drop_opener (opener : Z) (m : ExitManager) : ExitManager :=
  set_quantities (delete opener (opener_remaining_qty_ m)) (delete opener (opener_close_in_flight_qty_ m))
    (set_intents (erase_key opener (pending_ m)) (erase_key opener (armed_ m)) m).

(** The strategy and symbol of the opener's first pending, else first armed intent. *)
Definition opener_names (opener : Z) (m : ExitManager) : string * string :=
  match entries opener (pending_ m) with
  | (_, i) :: _ => (ei_strategy_name i, ei_symbol i)
  | [] =>
      match entries opener (armed_ m) with
      | (_, a) :: _ => (ei_strategy_name (intent a), ei_symbol (intent a))
      | [] => ("", "")
      end
  end.

Definition cancel (opener : Z) (m : ExitManager) : ExitManager :=
  let '(sname, sym) := opener_names opener m in
  let m := drop_opener opener m in
  let m := if bool_decide (sname = "") && bool_decide (sym = "") then m else untrack_opener opener sname sym m in
  release_venue_bracket opener m.

Definition cancel_all (strategy_name symbol : string) (m : ExitManager) : ExitManager :=
  let openers := (entries (strategy_name, symbol) (strategy_symbol_to_openers_ m)).*2 in
  let m := set_index (erase_key (strategy_name, symbol) (strategy_symbol_to_openers_ m)) m in
  foldl (λ m id, release_venue_bracket id (drop_opener id m)) m openers.

Definition openers_for (strategy_name symbol : string) (m : ExitManager) : nat :=
  count_key (strategy_name, symbol) (strategy_symbol_to_openers_ m).

Definition opener_for_exchange_order (x : string) (m : ExitManager) : Z :=
  match exchange_to_leg_ m !! x with Some l => leg_opener_order_id l | None => 0 end.
Definition strategy_name_for_exchange_order (x : string) (m : ExitManager) : string :=
  match exchange_to_leg_ m !! x with Some l => leg_strategy_name l | None => "" end.

(** ** Fills *)

Definition clamp_fraction (frac : num) : num :=
  let frac := if (frac <=? n_zero)%num then n_one else frac in
  if (frac >? n_one)%num then n_one else frac.

(** Levels given relative to an intended entry move with the entry. *)
Definition shift_levels (fill_price : num) (i : exit_intent) : exit_intent :=
  match reference_entry i with
  | Some re =>
      if (re >? n_zero)%num then
        let delta := (fill_price - re)%num in
        if (n_abs delta >? n_lit 1 1000000000000000)%num
        then set_exit_levels ((λ x, x + delta)%num <$> stop_loss i) ((λ x, x + delta)%num <$> take_profit i)
               (Some fill_price) i
        else set_exit_levels (stop_loss i) (take_profit i) (Some fill_price) i
      else i
  | None => i
  end.

Definition arm (f : fill) (i : exit_intent) : armed_intent :=
  {| intent := shift_levels (f_price f) (set_qty (f_quantity f * clamp_fraction (qty_fraction i))%num i);
     ai_entry_price := f_price f; best_price := f_price f; ts_armed := f_ts f |}.

(** A further fill of an opener that is armed already. *)
Definition grow (f : fill) (a : armed_intent) : armed_intent :=
  let add := (f_quantity f * clamp_fraction (qty_fraction (intent a)))%num in
  if (add <=? n_zero)%num then a else
  let prev := ei_qty (intent a) in
  {| intent := set_qty (prev + add)%num (intent a);
     ai_entry_price := if (prev + add >? n_zero)%num
                       then ((ai_entry_price a * prev + f_price f * add) / (prev + add))%num else ai_entry_price a;
     best_price := best_price a; ts_armed := ts_armed a |}.

Definition add_remaining (opener : Z) (q : num) (m : ExitManager) : ExitManager :=
  set_remaining (<[opener := (default n_zero (opener_remaining_qty_ m !! opener) + q)%num]> (opener_remaining_qty_ m)) m.

Definition place_bracket (f : fill) (to_place : list exit_intent) (m : ExitManager) : ExitManager :=
  match bracket_adapter_ m, to_place with
  | Some place, first :: _ =>
      let h := place (adapter_calls m) (f_order_id f) first (f_price f) in
      let m := log_call (Place (f_order_id f) first (f_price f) h) m in
      if handles_empty h then m else install_handles (f_order_id f) (ei_strategy_name first) h m
  | _, _ => m
  end.

Definition on_opener_fill (f : fill) (m : ExitManager) : ExitManager :=
  let id := f_order_id f in
  match entries id (pending_ m) with
  | [] =>
      add_remaining id (f_quantity f)
        (set_armed ((λ e, if bool_decide (e.1 = id) then (e.1, grow f e.2) else e) <$> armed_ m) m)
  | range =>
      let armed := (λ e, arm f e.2) <$> range in
      let m := set_intents (erase_key id (pending_ m)) (foldl (λ az a, emplace az id a) (armed_ m) armed) m in
      place_bracket f (intent <$> armed) (add_remaining id (f_quantity f) m)
  end.

(** What the closes in flight do not account for of a closing fill. *)
Definition match_in_flight (opener : Z) (q : num) (m : ExitManager) : num * ExitManager :=
  match opener_close_in_flight_qty_ m !! opener with
  | None => (q, m)
  | Some fl =>
      let matched := n_min q fl in
      let left := (fl - matched)%num in
      ((q - matched)%num,
       set_in_flight (if (left <=? n_eps)%num then delete opener (opener_close_in_flight_qty_ m)
                      else <[opener := left]> (opener_close_in_flight_qty_ m)) m)
  end.

Definition is_flat (opener : Z) (m : ExitManager) : bool :=
  match opener_remaining_qty_ m !! opener with None => true | Some r => (r <=? n_zero)%num end.

Definition on_closer_fill (f : fill) (opener : Z) (m : ExitManager) : ExitManager :=
  let '(unaccounted, m) := match_in_flight opener (f_quantity f) m in
  if (unaccounted >? n_eps)%num then cancel opener m else
  if is_flat opener m then cancel opener m else m.

Definition on_fill_with (f : fill) (opener : Z) (m : ExitManager) : ExitManager :=
  if negb (opener =? 0) && negb (opener =? f_order_id f) then on_closer_fill f opener m else on_opener_fill f m.

Definition on_fill (f : fill) (m : ExitManager) : ExitManager :=
  on_fill_with f (if negb (f_opener_order_id f =? 0) then f_opener_order_id f else f_order_id f) m.

(** ** Triggers *)

Record close_order := {
  co_ts : time_point;
  co_symbol : string;
  co_side : order_side;
  co_quantity : num;
  co_price : num;
  co_opener_order_id : Z;
  co_strategy_name : string }.

Definition consume_opener_qty (opener : Z) (requested : num) (m : ExitManager) : num * ExitManager :=
  if negb (requested >? n_zero)%num then (n_zero, m) else
  match opener_remaining_qty_ m !! opener with
  | None => (requested, m)
  | Some r =>
      let q := n_min requested r in
      let left := (r - q)%num in
      (q, set_remaining (<[opener := if (n_abs left <? n_eps)%num then n_zero else left]> (opener_remaining_qty_ m)) m)
  end.

Definition is_long (i : exit_intent) : bool := bool_decide (close_side i = side_sell).
Definition is_short (i : exit_intent) : bool := bool_decide (close_side i = side_buy).

(** The trail raises a long's stop, lowers a short's. *)
Definition trail (a : armed_intent) : exit_intent :=
  let i := intent a in
  match trailing_pct i with
  | None => i
  | Some pct =>
      if is_long i then
        let trailed := (best_price a * (n_one - pct))%num in
        if (trailed >? default n_zero (stop_loss i))%num
        then set_exit_levels (Some trailed) (take_profit i) (reference_entry i) i else i
      else
        let trailed := (best_price a * (n_one + pct))%num in
        if match stop_loss i with Some cur => (trailed <? cur)%num | None => n_below_inf trailed end
        then set_exit_levels (Some trailed) (take_profit i) (reference_entry i) i else i
  end.

(** The best price, then the trail, after a price.  [short]: whether what is not a
    long counts as a short. *)
Definition roll (short : bool) (px : num) (a : armed_intent) : armed_intent :=
  let best := if is_long (intent a)
              then (if (px >? best_price a)%num then px else best_price a)
              else (if short && (px <? best_price a)%num then px else best_price a) in
  let a := {| intent := intent a; ai_entry_price := ai_entry_price a; best_price := best; ts_armed := ts_armed a |} in
  {| intent := trail a; ai_entry_price := ai_entry_price a; best_price := best; ts_armed := ts_armed a |}.

(** A price at or beyond the stop, at or beyond the target; the deadline. *)
Definition sl_hit (short : bool) (px : num) (i : exit_intent) : bool :=
  match stop_loss i with
  | Some sl => if is_long i then (px <=? sl)%num else short && (px >=? sl)%num
  | None => false
  end.
Definition tp_hit (short : bool) (px : num) (i : exit_intent) : bool :=
  match take_profit i with
  | Some tp => if is_long i then (px >=? tp)%num else short && (px <=? tp)%num
  | None => false
  end.
Definition time_hit (ts : time_point) (i : exit_intent) : bool :=
  match deadline i with Some d => d <=? ts | None => false end.

Definition price_probe (px : num) (ts : time_point) (a : armed_intent) : armed_intent * option num :=
  let short := is_short (intent a) in
  let a := roll short px a in
  (a, if sl_hit short px (intent a) || tp_hit short px (intent a) || time_hit ts (intent a) then Some px else None).

(** The level, or the open when the bar gapped through it. *)
Definition bar_fire (op low high cl : num) (ts : time_point) (i : exit_intent) : option num :=
  let favorable := if is_long i then high else low in
  let adverse := if is_long i then low else high in
  if sl_hit true adverse i then (if sl_hit true op i then Some op else stop_loss i)
  else if tp_hit true favorable i then (if tp_hit true op i then Some op else take_profit i)
  else if time_hit ts i then Some cl else None.

Definition bar_probe (op low high cl : num) (ts : time_point) (a : armed_intent) : armed_intent * option num :=
  match bar_fire op low high cl ts (intent a) with
  | Some px => (a, Some px)
  | None => (roll true (if is_long (intent a) then high else low) a, None)
  end.

(** A triggered intent: [left] is what stays armed without it. *)
Definition fire (opener : Z) (a : armed_intent) (px : num) (ts : time_point) (left : list (Z * armed_intent))
    (m : ExitManager) : list close_order * ExitManager :=
  let i := intent a in
  let '(close_qty, m) := consume_opener_qty opener (ei_qty i) m in
  if negb (close_qty >? n_zero)%num then
    let m := set_armed left m in
    ([], if (count_key opener (armed_ m) =? 0)%nat
         then release_venue_bracket opener (untrack_opener opener (ei_strategy_name i) (ei_symbol i) m) else m)
  else
    let close := {| co_ts := ts; co_symbol := ei_symbol i; co_side := close_side i; co_quantity := close_qty;
                    co_price := px; co_opener_order_id := opener; co_strategy_name := ei_strategy_name i |} in
    let m := set_in_flight (<[opener := (default n_zero (opener_close_in_flight_qty_ m !! opener) + close_qty)%num]>
                              (opener_close_in_flight_qty_ m)) m in
    let m := release_venue_bracket opener (set_armed left m) in
    ([close],
     if is_flat opener m || (count_key opener (armed_ m) =? 0)%nat
     then release_venue_bracket opener
            (untrack_opener opener (ei_strategy_name i) (ei_symbol i)
               (set_remaining (delete opener (opener_remaining_qty_ m)) m))
     else m).

(** The loop over [armed_]: [seen] was visited and stays, [rest] is to visit. *)
Fixpoint scan (symbol : string) (ts : time_point) (probe : armed_intent → armed_intent * option num)
    (seen rest : list (Z * armed_intent)) (m : ExitManager) : list close_order * ExitManager :=
  match rest with
  | [] => ([], m)
  | (opener, a) :: rest =>
      if negb (bool_decide (ei_symbol (intent a) = symbol))
      then scan symbol ts probe (seen ++ [(opener, a)]) rest m
      else
        let '(a, fired) := probe a in
        let m := set_armed (seen ++ (opener, a) :: rest) m in
        match fired with
        | None => scan symbol ts probe (seen ++ [(opener, a)]) rest m
        | Some px =>
            let '(cs, m) := fire opener a px ts (seen ++ rest) m in
            let '(cs', m) := scan symbol ts probe seen rest m in
            (cs ++ cs', m)
        end
  end.

Definition on_price (symbol : string) (px : num) (ts : time_point) (m : ExitManager)
    : list close_order * ExitManager :=
  if bool_decide (armed_ m = []) || negb (px >? n_zero)%num then ([], m) else
  scan symbol ts (price_probe px ts) [] (armed_ m) m.

Definition on_bar (symbol : string) (op low high cl : num) (ts : time_point) (m : ExitManager)
    : list close_order * ExitManager :=
  if bool_decide (armed_ m = []) then ([], m) else
  if negb (low >? n_zero)%num || negb (high >? n_zero)%num || negb (cl >? n_zero)%num then ([], m) else
  let '(low, high) := if (low >? high)%num then (high, low) else (low, high) in
  let op := if negb (op >? n_zero)%num then cl else op in
  scan symbol ts (bar_probe op low high cl ts) [] (armed_ m) m.

(** ** Recovery, snapshot and reset *)

Definition recovered_intent (rb : recovered_bracket) : exit_intent :=
  {| ei_symbol := rb_symbol rb; close_side := rb_close_side rb; ei_qty := rb_qty rb; qty_fraction := n_one;
     stop_loss := rb_stop_loss rb; take_profit := rb_take_profit rb; reference_entry := None;
     trailing_pct := None; deadline := None; ei_opener_order_id := rb_opener_order_id rb;
     ei_strategy_name := rb_strategy_name rb |}.

Definition rehydrate (rb : recovered_bracket) (now : time_point) (m : ExitManager) : ExitManager :=
  let id := rb_opener_order_id rb in
  if id =? 0 then m else
  if handles_empty (rb_handles rb) then m else
  let a := {| intent := recovered_intent rb; ai_entry_price := rb_entry_price rb; best_price := rb_entry_price rb;
              ts_armed := now |} in
  let m := set_remaining (<[id := rb_qty rb]> (opener_remaining_qty_ m)) (set_armed (emplace (armed_ m) id a) m) in
  let m := if bool_decide (rb_strategy_name rb = "") && bool_decide (rb_symbol rb = "") then m
           else set_index (emplace (strategy_symbol_to_openers_ m) (rb_strategy_name rb, rb_symbol rb) id) m in
  install_handles id (rb_strategy_name rb) (rb_handles rb) m.

Definition reset (m : ExitManager) : ExitManager :=
  set_venue ∅ ∅ (set_index [] (set_quantities ∅ ∅ (set_intents [] [] m))).

Record armed_view := {
  av_opener_order_id : Z;
  av_strategy_name : string;
  av_symbol : string;
  av_close_side : order_side;
  av_qty : num;
  av_entry_price : num;
  av_stop_loss : option num;
  av_take_profit : option num;
  venue_managed : bool;
  venue_list_id : string;
  av_ts_armed : time_point }.

Definition view_armed (m : ExitManager) (e : Z * armed_intent) : armed_view :=
  let '(opener, a) := e in
  {| av_opener_order_id := opener; av_strategy_name := ei_strategy_name (intent a);
     av_symbol := ei_symbol (intent a); av_close_side := close_side (intent a); av_qty := ei_qty (intent a);
     av_entry_price := ai_entry_price a; av_stop_loss := stop_loss (intent a);
     av_take_profit := take_profit (intent a);
     venue_managed := bool_decide (is_Some (handles_ m !! opener));
     venue_list_id := match handles_ m !! opener with
                      | Some h => default "" (oco_list_id h) | None => "" end;
     av_ts_armed := ts_armed a |}.

Definition snapshot_armed (m : ExitManager) : list armed_view := view_armed m <$> armed_ m.

End Exits.
