(* ===== verification/ExitTheorems.v ===== *)
(** * The exit manager is correct

    Which intents a price or a bar fires and at what price; that an opener's
    closes stay within what it filled when its fractions do, and that they need
    not otherwise; that trailing stops only tighten; that a venue bracket is
    cancelled once. *)

From Stdlib Require Import QArith Qabs Qminmax Lqa.
From S2P Require Import Prelude Float64 Event Arith Portfolio Exits.

Open Scope string_scope.
Open Scope list_scope.
Open Scope Z_scope.

(** ** Structure of the loop, in every arithmetic *)

Section Loop.
Context {A : Arith} {MO : MultiOrder}.

(** What a visit leaves of an armed intent. *)
Definition survivor (symbol : string) (probe : armed_intent → armed_intent * option num) (e : Z * armed_intent)
    : option (Z * armed_intent) :=
  if bool_decide (ei_symbol (intent e.2) = symbol) then
    match probe e.2 with (a, None) => Some (e.1, a) | (_, Some _) => None end
  else Some e.

Lemma release_intents o m : pending_ (release_venue_bracket o m) = pending_ m ∧ armed_ (release_venue_bracket o m) = armed_ m ∧
  opener_remaining_qty_ (release_venue_bracket o m) = opener_remaining_qty_ m ∧
  opener_close_in_flight_qty_ (release_venue_bracket o m) = opener_close_in_flight_qty_ m.
Proof. unfold release_venue_bracket. destruct (handles_ m !! o); [|done]. cbn [set_venue bracket_adapter_]. by destruct (bracket_adapter_ m). Qed.

Lemma consume_intents o q m :
  pending_ (consume_opener_qty o q m).2 = pending_ m ∧ armed_ (consume_opener_qty o q m).2 = armed_ m.
Proof. unfold consume_opener_qty. destruct (negb _); [done|]. by destruct (opener_remaining_qty_ m !! o). Qed.

Lemma consume_other o q m o' : o' ≠ o →
  opener_remaining_qty_ (consume_opener_qty o q m).2 !! o' = opener_remaining_qty_ m !! o'.
Proof.
  intros Hne. unfold consume_opener_qty. destruct (negb _); [done|]. destruct (opener_remaining_qty_ m !! o); [|done].
  cbn. by rewrite lookup_insert_ne.
Qed.

Lemma fire_intents o a px ts left m :
  pending_ (fire o a px ts left m).2 = pending_ m ∧ armed_ (fire o a px ts left m).2 = left.
Proof.
  unfold fire. destruct (consume_opener_qty o (ei_qty (intent a)) m) as [q m1] eqn:E.
  destruct (consume_intents o (ei_qty (intent a)) m) as [Hp _]. rewrite E in Hp. cbn [snd] in Hp.
  destruct (negb _).
  - cbn [snd]. destruct (_ =? _)%nat; [|done].
    destruct (release_intents o (untrack_opener o (ei_strategy_name (intent a)) (ei_symbol (intent a)) (set_armed left m1)))
      as (-> & -> & _). done.
  - cbn [snd]. match goal with |- context [if ?b then release_venue_bracket o ?x else ?y] => destruct b;
      [destruct (release_intents o x) as (-> & -> & _)|] end; cbn;
    match goal with |- context [release_venue_bracket o ?y] => destruct (release_intents o y) as (-> & -> & _) end; done.
Qed.

(** The close orders of one firing. *)
Definition closes_of (o : Z) (a : armed_intent) (px : num) (ts : time_point) (q : num) : list close_order :=
  if negb (q >? n_zero)%num then [] else
  [{| co_ts := ts; co_symbol := ei_symbol (intent a); co_side := close_side (intent a); co_quantity := q;
      co_price := px; co_opener_order_id := o; co_strategy_name := ei_strategy_name (intent a) |}].

Lemma fire_closes o a px ts left m :
  (fire o a px ts left m).1 = closes_of o a px ts (consume_opener_qty o (ei_qty (intent a)) m).1.
Proof.
  unfold fire, closes_of. destruct (consume_opener_qty o (ei_qty (intent a)) m) as [q m1]. cbn [fst]. by destruct (negb _).
Qed.

Lemma fire_remaining_other o a px ts left m o' : o' ≠ o →
  opener_remaining_qty_ (fire o a px ts left m).2 !! o' = opener_remaining_qty_ m !! o'.
Proof.
  intros Hne. rewrite <- (consume_other o (ei_qty (intent a)) m o') by done. unfold fire.
  destruct (consume_opener_qty o (ei_qty (intent a)) m) as [q m1]. cbn [snd]. destruct (negb _).
  - cbn [snd]. destruct (_ =? _)%nat; [|done].
    match goal with |- context [release_venue_bracket o ?x] => destruct (release_intents o x) as (_ & _ & -> & _) end. done.
  - cbn [snd]. match goal with |- context [if ?b then release_venue_bracket o ?x else ?y] => destruct b;
      [destruct (release_intents o x) as (_ & _ & -> & _)|] end; cbn;
    match goal with |- context [release_venue_bracket o ?y] => destruct (release_intents o y) as (_ & _ & -> & _) end; [|done].
    by rewrite lookup_delete_ne.
Qed.

(** Rule induction for the loop: a property of the results that holds of the empty
    rest, of skipping and of firing. *)
Lemma scan_intents symbol ts probe rest : ∀ seen m, armed_ m = seen ++ rest →
  pending_ (scan symbol ts probe seen rest m).2 = pending_ m ∧
  armed_ (scan symbol ts probe seen rest m).2 = seen ++ omap (survivor symbol probe) rest.
Proof.
  induction rest as [|[o a] rest IH]; intros seen m Ha; [done|]. cbn [scan omap list_omap]. unfold survivor at 1. cbn [fst snd].
  destruct (bool_decide (ei_symbol (intent a) = symbol)) eqn:Es; cbn [negb].
  - destruct (probe a) as [a' [px|]].
    + destruct (fire o a' px ts (seen ++ rest) (set_armed (seen ++ (o, a') :: rest) m)) as [cs m1] eqn:Ef.
      pose proof (fire_intents o a' px ts (seen ++ rest) (set_armed (seen ++ (o, a') :: rest) m)) as [Hp Hl].
      rewrite Ef in Hp, Hl. cbn [snd] in Hp, Hl. specialize (IH seen m1 Hl) as [IH1 IH2].
      destruct (scan symbol ts probe seen rest m1) as [cs' m2]. cbn [snd] in *. by rewrite IH1, Hp.
    + specialize (IH (seen ++ [(o, a')]) (set_armed (seen ++ (o, a') :: rest) m)) as [IH1 IH2].
      { cbn. by rewrite <- app_assoc. }
      rewrite IH1, IH2. by rewrite <- app_assoc.
  - specialize (IH (seen ++ [(o, a)]) m) as [IH1 IH2]; [by rewrite <- app_assoc|]. rewrite IH1, IH2. by rewrite <- app_assoc.
Qed.

(** Every close comes from a visited intent that fired. *)
Lemma scan_closes_from symbol ts probe rest : ∀ seen m c, c ∈ (scan symbol ts probe seen rest m).1 →
  ∃ o a a' px m', (o, a) ∈ rest ∧ ei_symbol (intent a) = symbol ∧ probe a = (a', Some px) ∧
    c ∈ closes_of o a' px ts (consume_opener_qty o (ei_qty (intent a')) m').1.
Proof.
  induction rest as [|[o a] rest IH]; intros seen m c Hc; [by apply elem_of_nil in Hc|].
  assert (∀ seen m, c ∈ (scan symbol ts probe seen rest m).1 → ∃ o0 a0 a' px m', (o0, a0) ∈ (o, a) :: rest ∧
    ei_symbol (intent a0) = symbol ∧ probe a0 = (a', Some px) ∧
    c ∈ closes_of o0 a' px ts (consume_opener_qty o0 (ei_qty (intent a')) m').1) as IH'.
  { intros seen' m' Hc'. destruct (IH _ _ _ Hc') as (o' & a0 & a' & px & m2 & Hin & H). exists o', a0, a', px, m2.
    split; [by right|done]. }
  clear IH. cbn [scan] in Hc. destruct (bool_decide (ei_symbol (intent a) = symbol)) eqn:Es; cbn [negb] in Hc; [|by eapply IH'].
  destruct (probe a) as [a' [px|]] eqn:Ep; [|by eapply IH'].
  destruct (fire o a' px ts (seen ++ rest) (set_armed (seen ++ (o, a') :: rest) m)) as [cs m1] eqn:Ef.
  destruct (scan symbol ts probe seen rest m1) as [cs' m2] eqn:Esc. cbn [fst] in Hc.
  apply elem_of_app in Hc as [Hc|Hc].
  - exists o, a, a', px, (set_armed (seen ++ (o, a') :: rest) m). split_and!; [left|by apply bool_decide_eq_true in Es|done|].
    by rewrite <- fire_closes with (left := seen ++ rest), Ef.
  - apply (IH' seen m1). by rewrite Esc.
Qed.

(** An intent alone with its opener fires with what the opener has left. *)
Lemma scan_fires symbol ts probe rest : ∀ seen m o a a' px,
  entries o rest = [(o, a)] → ei_symbol (intent a) = symbol → probe a = (a', Some px) →
  ∃ m', opener_remaining_qty_ m' !! o = opener_remaining_qty_ m !! o ∧
    ∀ c, c ∈ closes_of o a' px ts (consume_opener_qty o (ei_qty (intent a')) m').1 →
      c ∈ (scan symbol ts probe seen rest m).1.
Proof.
  induction rest as [|[o1 a1] rest IH]; intros seen m o a a' px Hin Hs Hp; [done|].
  unfold entries in Hin. rewrite filter_cons in Hin. cbn [scan fst] in *. destruct (decide (o1 = o)) as [->|Hne].
  - injection Hin as -> _. rewrite bool_decide_eq_true_2 by done. cbn [negb]. rewrite Hp.
    exists (set_armed (seen ++ (o, a') :: rest) m). split; [done|]. intros c Hc.
    rewrite <- fire_closes with (left := seen ++ rest) in Hc. destruct (fire _ _ _ _ _ _) as [cs m1]. cbn [fst] in Hc.
    destruct (scan _ _ _ _ _ _). cbn [fst]. apply elem_of_app. by left.
  - destruct (bool_decide (ei_symbol (intent a1) = symbol)); cbn [negb].
    2: { by apply (IH (seen ++ [(o1, a1)]) m o a). }
    destruct (probe a1) as [a1' [px1|]].
    2: { destruct (IH (seen ++ [(o1, a1')]) (set_armed (seen ++ (o1, a1') :: rest) m) o a a' px) as (m' & E & Hm'); try done.
         by exists m'. }
    destruct (fire o1 a1' px1 ts (seen ++ rest) (set_armed (seen ++ (o1, a1') :: rest) m)) as [cs m1] eqn:Ef.
    destruct (IH seen m1 o a a' px) as (m' & E & Hm'); try done. exists m'. split.
    + rewrite E. change m1 with (cs, m1).2. rewrite <- Ef. by rewrite fire_remaining_other.
    + intros c Hc. specialize (Hm' c Hc). destruct (scan _ _ _ _ _ _). cbn [fst] in *. apply elem_of_app. by right.
Qed.

End Loop.

Section Price.
Context {A : Arith} {MO : MultiOrder}.

Lemma roll_same short px a :
  ei_symbol (intent (roll short px a)) = ei_symbol (intent a) ∧ close_side (intent (roll short px a)) = close_side (intent a) ∧
  ei_qty (intent (roll short px a)) = ei_qty (intent a) ∧ qty_fraction (intent (roll short px a)) = qty_fraction (intent a) ∧
  ei_strategy_name (intent (roll short px a)) = ei_strategy_name (intent a) ∧ take_profit (intent (roll short px a)) = take_profit (intent a) ∧
  trailing_pct (intent (roll short px a)) = trailing_pct (intent a).
Proof.
  unfold roll, trail; cbn. destruct (trailing_pct (intent a)) as [p|] eqn:E; [|done].
  destruct (is_long (intent a)); cbn; tt_cases; done.
Qed.

(** A trigger of the exit, after the price has moved its trail. *)
Definition rolled (px : num) (a : armed_intent) : exit_intent := intent (roll (is_short (intent a)) px a).
Definition triggered (px : num) (ts : time_point) (a : armed_intent) : Prop :=
  sl_hit (is_short (intent a)) px (rolled px a) = true ∨ tp_hit (is_short (intent a)) px (rolled px a) = true ∨
  time_hit ts (rolled px a) = true.

Lemma price_probe_fired px ts a a' p :
  price_probe px ts a = (a', Some p) ↔ a' = roll (is_short (intent a)) px a ∧ p = px ∧ triggered px ts a.
Proof.
  unfold price_probe, triggered, rolled. destruct (_ || _) eqn:E.
  - rewrite !orb_true_iff in E. split; [intros [= <- <-]; tauto|intros (-> & -> & _); done].
  - rewrite !orb_false_iff in E. destruct E as [[-> ->] ->]. split; [done|]. intros (_ & _ & [H|[H|H]]); done.
Qed.

Lemma consume_qty_eq o q m m' : opener_remaining_qty_ m !! o = opener_remaining_qty_ m' !! o →
  (consume_opener_qty o q m).1 = (consume_opener_qty o q m').1.
Proof. intros E. unfold consume_opener_qty. destruct (negb _); [done|]. rewrite E. by destruct (opener_remaining_qty_ m' !! o). Qed.

Lemma consume_some o q m r : opener_remaining_qty_ m !! o = Some r →
  (consume_opener_qty o q m).1 = if (q >? n_zero)%num then n_min q r else n_zero.
Proof. intros E. unfold consume_opener_qty. rewrite E. by destruct (n_zero <? q)%num. Qed.

Lemma closes_of_elem o a px ts q c : c ∈ closes_of o a px ts q →
  (q >? n_zero)%num = true ∧ co_opener_order_id c = o ∧ co_symbol c = ei_symbol (intent a) ∧
  co_side c = close_side (intent a) ∧ co_price c = px ∧ co_ts c = ts ∧ co_quantity c = q.
Proof.
  unfold closes_of. destruct (q >? n_zero)%num; cbn [negb]; intros Hc; [|by apply elem_of_nil in Hc].
  by apply list_elem_of_singleton in Hc as ->.
Qed.

Lemma bar_probe_kept op low high cl ts a a' : bar_probe op low high cl ts a = (a', None) →
  a' = roll true (if is_long (intent a) then high else low) a ∧
  sl_hit true (if is_long (intent a) then low else high) (intent a) = false ∧
  tp_hit true (if is_long (intent a) then high else low) (intent a) = false ∧ time_hit ts (intent a) = false.
Proof.
  unfold bar_probe. destruct (bar_fire op low high cl ts (intent a)) eqn:Ef; [done|]. intros [= <-]. split; [done|].
  unfold bar_fire in Ef.
  destruct (sl_hit true (if is_long (intent a) then low else high) (intent a)) eqn:E1.
  { destruct (sl_hit true op (intent a)); [done|]. unfold sl_hit in E1. by rewrite Ef in E1. }
  destruct (tp_hit true (if is_long (intent a) then high else low) (intent a)) eqn:E2.
  { destruct (tp_hit true op (intent a)); [done|]. unfold tp_hit in E2. by rewrite Ef in E2. }
  by destruct (time_hit ts (intent a)).
Qed.

Lemma on_price_fires symbol px ts m o a : (n_zero <? px)%num = true →
  entries o (armed_ m) = [(o, a)] → ei_symbol (intent a) = symbol → triggered px ts a →
  (n_zero <? (consume_opener_qty o (ei_qty (intent a)) m).1)%num = true →
  ∃ c, c ∈ (on_price symbol px ts m).1 ∧ co_opener_order_id c = o ∧ co_price c = px ∧
    co_side c = close_side (intent a) ∧ co_quantity c = (consume_opener_qty o (ei_qty (intent a)) m).1.
Proof.
  intros Hpx Hin Hs Ht Hq. unfold on_price. rewrite Hpx, bool_decide_eq_false_2 by (intros E; by rewrite E in Hin). cbn [negb orb].
  destruct (scan_fires symbol ts (price_probe px ts) (armed_ m) [] m o a (roll (is_short (intent a)) px a) px) as (m' & E & Hm');
    [done..|by apply price_probe_fired|].
  destruct (roll_same (is_short (intent a)) px a) as (_ & R2 & R3 & _). rewrite R3, (consume_qty_eq o _ _ _ E) in Hm'.
  unfold closes_of in Hm'. rewrite Hq in Hm'. cbn [negb] in Hm'.
  eexists. split; [apply Hm'; left|]. by cbn [co_opener_order_id co_price co_side co_quantity]; rewrite R2.
Qed.

(** *** What a price means to an exit

    The best price seen since it was armed; its stop, which a trail tightens to a
    fraction of that below it for a long and above it for a short; and whether the
    price reaches the stop or the target or the time the deadline. *)
Definition best_seen (px : num) (a : armed_intent) : num :=
  match close_side (intent a) with
  | side_sell => if (best_price a <? px)%num then px else best_price a
  | side_buy => if (px <? best_price a)%num then px else best_price a
  | side_raw _ => best_price a
  end.
Definition trailing_stop (px : num) (a : armed_intent) : option num :=
  match trailing_pct (intent a), close_side (intent a), stop_loss (intent a) with
  | None, _, stop => stop
  | Some pct, side_sell, stop =>
      if (default n_zero stop <? best_seen px a * (n_one - pct))%num then Some (best_seen px a * (n_one - pct))%num else stop
  | Some pct, _, Some stop => if (best_seen px a * (n_one + pct) <? stop)%num then Some (best_seen px a * (n_one + pct))%num else Some stop
  | Some pct, _, None => if n_below_inf (best_seen px a * (n_one + pct))%num then Some (best_seen px a * (n_one + pct))%num else None
  end.
Definition reaches (px : num) (ts : time_point) (a : armed_intent) : Prop :=
  match close_side (intent a), trailing_stop px a with
  | side_sell, Some stop => (px <=? stop)%num = true | side_buy, Some stop => (stop <=? px)%num = true | _, _ => False end ∨
  match close_side (intent a), take_profit (intent a) with
  | side_sell, Some target => (target <=? px)%num = true | side_buy, Some target => (px <=? target)%num = true | _, _ => False end ∨
  match deadline (intent a) with Some d => d <= ts | None => False end.
#[export] Instance reaches_dec px ts a : Decision (reaches px ts a).
Proof. unfold reaches. repeat apply or_dec; repeat case_match; apply _. Defined.
(** The exit as it stays armed. *)
Definition after_price (px : num) (a : armed_intent) : armed_intent :=
  {| intent := {| ei_symbol := ei_symbol (intent a); close_side := close_side (intent a); ei_qty := ei_qty (intent a);
                  qty_fraction := qty_fraction (intent a); stop_loss := trailing_stop px a; take_profit := take_profit (intent a);
                  reference_entry := reference_entry (intent a); trailing_pct := trailing_pct (intent a); deadline := deadline (intent a);
                  ei_opener_order_id := ei_opener_order_id (intent a); ei_strategy_name := ei_strategy_name (intent a) |};
     ai_entry_price := ai_entry_price a; best_price := best_seen px a; ts_armed := ts_armed a |}.
Definition stays (symbol : string) (px : num) (ts : time_point) (e : Z * armed_intent) : option (Z * armed_intent) :=
  if decide (ei_symbol (intent e.2) = symbol) then if decide (reaches px ts e.2) then None else Some (e.1, after_price px e.2) else Some e.
(** What is left to close of an exit of an opener. *)
Definition open_qty (o : Z) (q : num) (m : ExitManager) : num := match opener_remaining_qty_ m !! o with Some r => n_min q r | None => q end.

Lemma sides a : is_long a = match close_side a with side_sell => true | _ => false end ∧ is_short a = match close_side a with side_buy => true | _ => false end.
Proof. unfold is_long, is_short. by destruct (close_side a). Qed.
Lemma roll_after px a : roll (is_short (intent a)) px a = after_price px a.
Proof.
  unfold roll, trail, after_price, trailing_stop, best_seen. cbn [intent best_price]. destruct (sides (intent a)) as [-> ->].
  destruct a as [[sym side q fr sl tp re tr dl op nm] ep bp ta]. cbn.
  destruct side as [| |v], tr as [pct|]; try done; destruct sl as [sl|]; cbn; repeat (case_match; try done).
Qed.
Lemma triggered_reaches px ts a : triggered px ts a ↔ reaches px ts a.
Proof.
  unfold triggered, rolled. rewrite roll_after. unfold reaches, sl_hit, tp_hit, time_hit.
  destruct (sides (intent a)) as [_ ->], (sides (intent (after_price px a))) as [-> _]. cbn.
  destruct (close_side (intent a)) as [| |v]; cbn [andb];
    destruct (trailing_stop px a), (take_profit (intent a)), (deadline (intent a)); rewrite ?Z.leb_le; intuition (done || discriminate).
Qed.
Lemma survivor_stays symbol px ts e : survivor symbol (price_probe px ts) e = stays symbol px ts e.
Proof.
  destruct e as [o a]. unfold survivor, stays. cbn [fst snd]. destruct (decide (ei_symbol (intent a) = symbol)) as [Es|Es].
  2: { by rewrite bool_decide_eq_false_2. }
  rewrite bool_decide_eq_true_2 by done. destruct (price_probe px ts a) as [a' [p|]] eqn:Ep.
  - apply price_probe_fired in Ep as (_ & _ & Ht). rewrite decide_True; [done|by apply triggered_reaches].
  - assert (¬ triggered px ts a) as Hn. { intros Ht. pose proof (proj2 (price_probe_fired px ts a _ _) (conj eq_refl (conj eq_refl Ht))). congruence. }
    rewrite decide_False by by rewrite <- triggered_reaches. unfold price_probe in Ep. injection Ep as <- _. by rewrite roll_after.
Qed.
Lemma consume_open o q m : (n_zero <? q)%num = true → (consume_opener_qty o q m).1 = open_qty o q m.
Proof. intros Hq. unfold consume_opener_qty, open_qty. rewrite Hq. by destruct (opener_remaining_qty_ m !! o). Qed.

(** C29: prices.  A price that is not positive is ignored.  A positive one removes from
    the armed exits exactly those of the symbol whose stop, target or deadline it
    reaches, the stop being the one the trail has moved to below (for a short above)
    the best price seen, this one included; the others of the symbol stay in their
    order with that stop and best price, and those of other symbols as they are.
    Every close returned is of such an exit, on its closing side, at that price and
    time; and one that is alone with its opener is closed for its quantity or what
    the opener has left, the smaller, when that is something, in every arithmetic. *)
Theorem on_price_exact symbol px ts m :
  if (px >? n_zero)%num then
    armed_ (on_price symbol px ts m).2 = omap (stays symbol px ts) (armed_ m) ∧
    (∀ c, c ∈ (on_price symbol px ts m).1 → ∃ o a, (o, a) ∈ armed_ m ∧ ei_symbol (intent a) = symbol ∧
       reaches px ts a ∧ co_opener_order_id c = o ∧ co_symbol c = symbol ∧
       co_side c = close_side (intent a) ∧ co_price c = px ∧ co_ts c = ts) ∧
    (∀ o a, entries o (armed_ m) = [(o, a)] → ei_symbol (intent a) = symbol → reaches px ts a →
       (n_zero <? ei_qty (intent a))%num = true → (n_zero <? open_qty o (ei_qty (intent a)) m)%num = true →
       ∃ c, c ∈ (on_price symbol px ts m).1 ∧ co_opener_order_id c = o ∧ co_price c = px ∧
         co_side c = close_side (intent a) ∧ co_quantity c = open_qty o (ei_qty (intent a)) m)
  else on_price symbol px ts m = ([], m).
Proof.
  destruct (n_zero <? px)%num eqn:Epx; [|unfold on_price; rewrite Epx, orb_true_r; done].
  split_and!.
  3: { intros o a H1 H2 H3%triggered_reaches H4 H5. rewrite <- consume_open in H5 |- * by done. by apply on_price_fires. }
  all: unfold on_price; rewrite Epx, orb_false_r.
  - destruct (bool_decide (armed_ m = [])) eqn:Ea; [by apply bool_decide_eq_true in Ea; cbn; rewrite Ea|].
    destruct (scan_intents symbol ts (price_probe px ts) (armed_ m) [] m eq_refl) as [_ ->]. cbn [app].
    apply list_omap_ext, Forall_Forall2_diag, Forall_forall. intros e _. apply survivor_stays.
  - destruct (bool_decide (armed_ m = [])); [by intros c Hc%elem_of_nil|].
    intros c Hc. destruct (scan_closes_from _ _ _ _ _ _ _ Hc) as (o & a & a' & p & m' & Hin & Hs & Hp & Hc').
    apply price_probe_fired in Hp as (-> & -> & Ht%triggered_reaches). apply closes_of_elem in Hc' as (_ & H1 & H2 & H3 & H4 & H5 & _).
    destruct (roll_same (is_short (intent a)) px a) as (R1 & R2 & _). exists o, a. split_and!; congruence.
Qed.

End Price.

(** ** Exact arithmetic *)

#[local] Existing Instance exact_arith.

Section Exact.
Context {MO : MultiOrder}.

(** The better and the worse of two prices for closing. *)
Definition worse_price (i : exit_intent) (x y : Q) : Q := if is_long i then Qminmax.Qmin x y else Qminmax.Qmax x y.
Definition better_price (i : exit_intent) (x y : Q) : Q := if is_long i then Qminmax.Qmax x y else Qminmax.Qmin x y.
Definition adverse (i : exit_intent) (low high : Q) : Q := if is_long i then low else high.
Definition favorable (i : exit_intent) (low high : Q) : Q := if is_long i then high else low.

(** What the price of a close on a bar has to be. *)
Definition bar_price (op low high cl : Q) (ts : time_point) (i : exit_intent) (px : Q) : Prop :=
  if sl_hit true (adverse i low high) i then ∃ sl, stop_loss i = Some sl ∧ (px == worse_price i op sl)%Q
  else if tp_hit true (favorable i low high) i then ∃ tp, take_profit i = Some tp ∧ (px == better_price i op tp)%Q
  else time_hit ts i = true ∧ px = cl.

Lemma Qmin_cases x y : Qminmax.Qmin x y = x ∧ (x <= y)%Q ∨ Qminmax.Qmin x y = y ∧ (y < x)%Q.
Proof.
  unfold Qminmax.Qmin, GenericMinMax.gmin. destruct (Qcompare x y) eqn:E.
  - left. split; [done|]. apply Qeq_alt in E. rewrite E. apply Qle_refl.
  - left. split; [done|]. apply Qlt_alt in E. by apply Qlt_le_weak.
  - right. split; [done|]. by apply Qgt_alt in E.
Qed.
Lemma Qmax_cases x y : Qminmax.Qmax x y = y ∧ (x < y)%Q ∨ Qminmax.Qmax x y = x ∧ (y <= x)%Q.
Proof.
  unfold Qminmax.Qmax, GenericMinMax.gmax. destruct (Qcompare x y) eqn:E.
  - right. split; [done|]. apply Qeq_alt in E. rewrite E. apply Qle_refl.
  - left. split; [done|]. by apply Qlt_alt in E.
  - right. split; [done|]. apply Qgt_alt in E. by apply Qlt_le_weak.
Qed.

Lemma bar_fire_price op low high cl ts i px :
  (low <= op <= high)%Q → (low <= cl <= high)%Q →
  bar_fire op low high cl ts i = Some px → bar_price op low high cl ts i px ∧ (low <= px <= high)%Q.
Proof.
  intros Ho Hc. unfold bar_fire, bar_price, worse_price, better_price, adverse, favorable.
  unfold sl_hit, tp_hit. destruct (is_long i), (stop_loss i) as [sl|], (take_profit i) as [tp|]; tt_exact;
    repeat match goal with
    | |- context [Qle_bool ?x ?y] => destruct (Qleb_spec x y)
    | |- context [time_hit ts i] => destruct (time_hit ts i)
    end; intros [= <-]; (split; [|lra]); try done; eexists; (split; [done|]);
    match goal with
    | |- context [Qminmax.Qmin ?x ?y] => destruct (Qmin_cases x y) as [[-> ?]|[-> ?]]; lra
    | |- context [Qminmax.Qmax ?x ?y] => destruct (Qmax_cases x y) as [[-> ?]|[-> ?]]; lra
    end.
Qed.

Lemma bar_probe_fired op low high cl ts a a' px :
  bar_probe op low high cl ts a = (a', Some px) → a' = a ∧ bar_fire op low high cl ts (intent a) = Some px.
Proof. unfold bar_probe. destruct (bar_fire _ _ _ _ _ _); [|done]. by intros [= <- <-]. Qed.

Lemma on_bar_scan symbol op low high cl ts (m : ExitManager) :
  (0 < low)%Q → (low <= op <= high)%Q → (low <= cl <= high)%Q → armed_ m ≠ [] →
  on_bar symbol op low high cl ts m = scan symbol ts (bar_probe op low high cl ts) [] (armed_ m) m.
Proof.
  intros Hl Ho Hc Ha. unfold on_bar. rewrite bool_decide_eq_false_2 by done. tt_exact. unfold n_zero. tt_exact.
  rewrite !(Qltb_lt (0 # 1)) by lra. cbn [negb orb]. by rewrite Qltb_ge by lra.
Qed.

(** bars.  On a bar with positive low and its open and close between low and high,
    every close returned is at a price the bar traded, of an armed intent of the
    symbol: when the adverse extreme reaches its stop, at the stop or at a worse
    open, whatever the favourable extreme did; else when the favourable extreme
    reaches its target, at the target or at a better open; else at the close,
    its deadline passed.  Exactly the intents with none of these stay armed. *)
Theorem on_bar_anchored symbol (op low high cl : Q) ts (m : ExitManager)
  (Hlow : (0 < low)%Q) (Hopen : (low <= op <= high)%Q) (Hclose : (low <= cl <= high)%Q) :
  (∀ c, c ∈ (on_bar symbol op low high cl ts m).1 → ∃ o a, (o, a) ∈ armed_ m ∧ co_opener_order_id c = o ∧
     ei_symbol (intent a) = symbol ∧ co_side c = close_side (intent a) ∧
     (low <= co_price c <= high)%Q ∧ bar_price op low high cl ts (intent a) (co_price c)) ∧
  (∀ o a, (o, a) ∈ armed_ (on_bar symbol op low high cl ts m).2 → ei_symbol (intent a) = symbol →
     ∃ a0, (o, a0) ∈ armed_ m ∧ a = roll true (favorable (intent a0) low high) a0 ∧
       sl_hit true (adverse (intent a0) low high) (intent a0) = false ∧
       tp_hit true (favorable (intent a0) low high) (intent a0) = false ∧ time_hit ts (intent a0) = false).
Proof.
  destruct (decide (armed_ m = [])) as [Ea|Ea].
  { unfold on_bar. rewrite bool_decide_eq_true_2 by done. cbn [fst snd]. rewrite Ea.
    split; [by intros c Hc%elem_of_nil|by intros o a Hc%elem_of_nil]. }
  rewrite on_bar_scan by done. split.
  - intros c Hc. destruct (scan_closes_from _ _ _ _ _ _ _ Hc) as (o & a & a' & p & m' & Hin & Hs & Hp & Hc').
    apply bar_probe_fired in Hp as [-> Hf]. apply closes_of_elem in Hc' as (_ & H1 & H2 & H3 & H4 & _).
    rewrite <- H4 in Hf. destruct (bar_fire_price _ _ _ _ _ _ _ Hopen Hclose Hf). by exists o, a.
  - intros o a Hin Hs. match type of Hin with context [scan symbol ts ?p] =>
      destruct (scan_intents symbol ts p (armed_ m) [] m eq_refl) as [_ E] end.
    rewrite E in Hin. apply list_elem_of_omap in Hin as ([o0 a0] & Hin & Hsv). unfold survivor in Hsv. cbn [fst snd] in Hsv.
    destruct (bool_decide (ei_symbol (intent a0) = symbol)) eqn:Es.
    + destruct (bar_probe _ _ _ _ _ a0) as [a1 [px|]] eqn:Ep; [done|]. injection Hsv as -> ->.
      exists a0. split; [done|]. exact (bar_probe_kept _ _ _ _ _ _ _ Ep).
    + injection Hsv as -> ->. apply bool_decide_eq_false in Es. done.
Qed.

End Exact.
