(* ===== verification/ExitRuns.v ===== *)
(** * Runs of the exit manager

    Sequences of its operations from a fresh manager: what the closes of an
    opener add up to, what becomes of the venue's brackets, and how trailing
    stops move. *)

From Stdlib Require Import QArith Qabs Qminmax Lqa.
From S2P Require Import Prelude Float64 Event Arith Portfolio Exits ExitTheorems.

Open Scope string_scope.
Open Scope list_scope.
Open Scope Z_scope.

Section Ops.
Context {A : Arith} {MO : MultiOrder}.

Inductive exit_op :=
| Op_register (i : exit_intent)
| Op_fill (f : fill) (opener : Z)
| Op_price (symbol : string) (px : num) (ts : time_point)
| Op_bar (symbol : string) (op low high cl : num) (ts : time_point)
| Op_cancel (opener : Z)
| Op_cancel_all (strategy_name symbol : string)
| Op_rehydrate (rb : recovered_bracket) (now : time_point)
| Op_reset.

Definition run_op (op : exit_op) (m : ExitManager) : list close_order * ExitManager :=
  match op with
  | Op_register i => ([], register_pending i m)
  | Op_fill f opener => ([], on_fill_with f opener m)
  | Op_price symbol px ts => on_price symbol px ts m
  | Op_bar symbol o l h c ts => on_bar symbol o l h c ts m
  | Op_cancel opener => ([], cancel opener m)
  | Op_cancel_all s y => ([], cancel_all s y m)
  | Op_rehydrate rb now => ([], rehydrate rb now m)
  | Op_reset => ([], reset m)
  end.

Fixpoint run (ops : list exit_op) (m : ExitManager) : list close_order * ExitManager :=
  match ops with
  | [] => ([], m)
  | op :: ops => let '(cs, m) := run_op op m in let '(cs', m) := run ops m in (cs ++ cs', m)
  end.

Lemma run_app ops1 ops2 m :
  run (ops1 ++ ops2) m = ((run ops1 m).1 ++ (run ops2 (run ops1 m).2).1, (run ops2 (run ops1 m).2).2).
Proof.
  revert m. induction ops1 as [|op ops1 IH]; intros m; cbn [app run fst snd].
  - by destruct (run ops2 m).
  - destruct (run_op op m) as [cs m1]. rewrite IH. destruct (run ops1 m1) as [cs1 m2]. cbn [fst snd].
    by rewrite app_assoc.
Qed.

(** Both triggers scan or do nothing; the probes keep what identifies an intent. *)
Definition keeps (probe : armed_intent → armed_intent * option num) : Prop :=
  ∀ a, ei_symbol (intent (probe a).1) = ei_symbol (intent a) ∧ close_side (intent (probe a).1) = close_side (intent a) ∧
    ei_qty (intent (probe a).1) = ei_qty (intent a) ∧ qty_fraction (intent (probe a).1) = qty_fraction (intent a).

Lemma price_probe_keeps px ts : keeps (price_probe px ts).
Proof. intros a. destruct (roll_same (is_short (intent a)) px a) as (? & ? & ? & ? & _). done. Qed.

Lemma bar_probe_keeps op low high cl ts : keeps (bar_probe op low high cl ts).
Proof.
  intros a. unfold bar_probe. destruct (bar_fire _ _ _ _ _ _); [done|].
  destruct (roll_same true (if is_long (intent a) then high else low) a) as (? & ? & ? & ? & _). done.
Qed.

Lemma on_price_scan symbol px ts m : on_price symbol px ts m = ([], m) ∨
  on_price symbol px ts m = scan symbol ts (price_probe px ts) [] (armed_ m) m.
Proof. unfold on_price. destruct (_ || _); [by left|by right]. Qed.

Lemma on_bar_scan' symbol op low high cl ts m : on_bar symbol op low high cl ts m = ([], m) ∨
  ∃ probe, keeps probe ∧ on_bar symbol op low high cl ts m = scan symbol ts probe [] (armed_ m) m.
Proof.
  unfold on_bar. destruct (bool_decide _); [by left|]. destruct (_ || _); [by left|].
  destruct (high <? low)%num; right; eexists; (split; [|done]); apply bar_probe_keeps.
Qed.

(** What the operations that drop an opener leave. *)
Lemma cancel_intents o m : pending_ (cancel o m) = erase_key o (pending_ m) ∧ armed_ (cancel o m) = erase_key o (armed_ m).
Proof.
  unfold cancel. destruct (opener_names o m) as [s y].
  match goal with |- context [release_venue_bracket o ?x] => destruct (release_intents o x) as (-> & -> & _) end.
  by destruct (_ && _).
Qed.

Lemma cancel_all_intents s y m :
  ∃ os : list Z, pending_ (cancel_all s y m) = filter (λ e, e.1 ∉ os) (pending_ m) ∧
        armed_ (cancel_all s y m) = filter (λ e, e.1 ∉ os) (armed_ m).
Proof.
  unfold cancel_all. set (openers := (entries (s, y) (strategy_symbol_to_openers_ m)).*2). clearbody openers.
  set (m0 := set_index _ m). change (pending_ m) with (pending_ m0). change (armed_ m) with (armed_ m0). clearbody m0.
  exists openers. revert m0. induction openers as [|o os IH]; intros m0; cbn [foldl].
  - split; symmetry; apply filter_all; intros x _; apply not_elem_of_nil.
  - destruct (IH (release_venue_bracket o (drop_opener o m0))) as [-> ->].
    destruct (release_intents o (drop_opener o m0)) as (-> & -> & _). cbn. unfold erase_key.
    rewrite !list_filter_filter. split; apply list_filter_iff; intros [k v]; cbn; rewrite not_elem_of_cons; tauto.
Qed.

(** A recovered bracket the manager takes. *)
Definition accepts (rb : recovered_bracket) : bool := negb (rb_opener_order_id rb =? 0) && negb (handles_empty (rb_handles rb)).

(** ** Venue brackets

    The brackets cancelled at the adapter, those the adapter reported placed, and
    those recovered. *)

Definition cancelled (m : ExitManager) : list (Z * bracket_handles) :=
  omap (λ c, match c with Cancel o h => Some (o, h) | Place _ _ _ _ => None end) (adapter_calls m).
Definition placed (m : ExitManager) : list (Z * bracket_handles) :=
  omap (λ c, match c with
             | Place o _ _ h => if handles_empty h then None else Some (o, h)
             | Cancel _ _ => None end) (adapter_calls m).
Definition recovered (ops : list exit_op) : list (Z * bracket_handles) :=
  omap (λ op, match op with
              | Op_rehydrate rb _ => if accepts rb then Some (rb_opener_order_id rb, rb_handles rb) else None
              | _ => None end) ops.

Definition venue_ok (R : list (Z * bracket_handles)) (m : ExitManager) : Prop :=
  cancelled m ++ map_to_list (handles_ m) ⊆+ placed m ++ R.

Lemma release_venue_ok R o m : venue_ok R m → venue_ok R (release_venue_bracket o m).
Proof.
  unfold release_venue_bracket. destruct (handles_ m !! o) as [h|] eqn:E; [|done]. intros Hok.
  unfold venue_ok in *. rewrite <- (map_to_list_delete _ _ _ E) in Hok. cbn [bracket_adapter_ set_venue].
  destruct (bracket_adapter_ m).
  - unfold cancelled, placed in *. cbn. rewrite !omap_app. cbn. by rewrite app_nil_r, <- app_assoc.
  - cbn. etrans; [|exact Hok]. apply submseteq_skips_l. by apply submseteq_cons.
Qed.

Lemma install_ok R o s h m : venue_ok R m → venue_ok (R ++ [(o, h)]) (install_handles o s h m).
Proof.
  unfold venue_ok, install_handles. cbn. intros Hok. destruct (handles_ m !! o) eqn:E.
  - etrans; [exact Hok|]. rewrite app_assoc. apply submseteq_inserts_r. reflexivity.
  - rewrite (map_to_list_insert _ _ _ E), <- Permutation_middle, app_assoc, <- Permutation_cons_append.
    by apply submseteq_skip.
Qed.

Lemma place_bracket_ok R f l m : venue_ok R m → venue_ok R (place_bracket f l m).
Proof.
  intros Hok. unfold place_bracket. destruct (bracket_adapter_ m) as [place|]; [|done]. destruct l as [|i l]; [done|].
  set (h := place _ _ _ _). destruct (handles_empty h) eqn:E.
  - unfold venue_ok, cancelled, placed in *. cbn. rewrite !omap_app. cbn. by rewrite E, !app_nil_r.
  - unfold venue_ok, cancelled, placed, install_handles in *. cbn. rewrite !omap_app. cbn. rewrite E, app_nil_r.
    rewrite <- app_assoc. cbn. rewrite <- Permutation_middle. destruct (handles_ m !! f_order_id f) eqn:El.
    + by apply submseteq_cons.
    + rewrite (map_to_list_insert _ _ _ El), <- Permutation_middle. by apply submseteq_skip.
Qed.

Lemma consume_ok R o q m : venue_ok R m → venue_ok R (consume_opener_qty o q m).2.
Proof. unfold consume_opener_qty. destruct (negb _); [done|]. by destruct (opener_remaining_qty_ m !! o). Qed.

Lemma fire_ok R o a px ts left m : venue_ok R m → venue_ok R (fire o a px ts left m).2.
Proof.
  intros Hok. apply (consume_ok R o (ei_qty (intent a))) in Hok. unfold fire.
  destruct (consume_opener_qty o (ei_qty (intent a)) m) as [q m1]. cbn [snd] in Hok. destruct (negb _).
  - cbn [snd]. destruct (_ =? _)%nat; [by apply release_venue_ok|done].
  - cbn [snd]. match goal with |- context [release_venue_bracket o (set_armed left ?x)] =>
      assert (venue_ok R (release_venue_bracket o (set_armed left x))) as Hr by (by apply release_venue_ok) end.
    destruct (_ || _); [by apply release_venue_ok|done].
Qed.

Lemma scan_ok R symbol ts probe rest : ∀ seen m, venue_ok R m → venue_ok R (scan symbol ts probe seen rest m).2.
Proof.
  induction rest as [|[o a] rest IH]; intros seen m Hok; [done|]. cbn [scan]. destruct (negb _); [by apply IH|].
  destruct (probe a) as [a' [px|]]; [|by apply IH].
  pose proof (fire_ok R o a' px ts (seen ++ rest) (set_armed (seen ++ (o, a') :: rest) m) Hok) as Hf.
  destruct (fire _ _ _ _ _ _) as [cs m1]. cbn [snd] in Hf. specialize (IH seen m1 Hf).
  by destruct (scan _ _ _ _ _ m1).
Qed.

Lemma cancel_ok R o m : venue_ok R m → venue_ok R (cancel o m).
Proof. intros Hok. unfold cancel. destruct (opener_names o m). apply release_venue_ok. by destruct (_ && _). Qed.

Lemma cancel_all_ok R s y m : venue_ok R m → venue_ok R (cancel_all s y m).
Proof.
  intros Hok. unfold cancel_all. generalize ((entries (s, y) (strategy_symbol_to_openers_ m)).*2). intros os.
  assert (venue_ok R (set_index (erase_key (s, y) (strategy_symbol_to_openers_ m)) m)) as Hm by exact Hok.
  revert Hm. generalize (set_index (erase_key (s, y) (strategy_symbol_to_openers_ m)) m). clear Hok m.
  induction os as [|o os IH]; intros m Hm; [done|]. cbn [foldl]. apply IH. by apply release_venue_ok.
Qed.

Lemma fill_ok R f o m : venue_ok R m → venue_ok R (on_fill_with f o m).
Proof.
  intros Hok. unfold on_fill_with. destruct (_ && _).
  - unfold on_closer_fill, match_in_flight.
    destruct (opener_close_in_flight_qty_ m !! o); (destruct (_ <? _)%num; [by apply cancel_ok|]);
      (destruct (is_flat _ _); [by apply cancel_ok|done]).
  - unfold on_opener_fill. destruct (entries (f_order_id f) (pending_ m)); [done|]. by apply place_bracket_ok.
Qed.

Lemma rehydrate_ok R rb now m : venue_ok R m → venue_ok (R ++ recovered [Op_rehydrate rb now]) (rehydrate rb now m).
Proof.
  intros Hok. unfold rehydrate, recovered, accepts. cbn [omap list_omap].
  destruct (rb_opener_order_id rb =? 0); cbn [negb andb]; [by rewrite app_nil_r|].
  destruct (handles_empty (rb_handles rb)); cbn [negb andb]; [by rewrite app_nil_r|].
  apply install_ok. by destruct (_ && _).
Qed.

Lemma reset_ok R m : venue_ok R m → venue_ok R (reset m).
Proof.
  unfold venue_ok. intros Hok. cbn. rewrite map_to_list_empty, app_nil_r. etrans; [|exact Hok].
  by apply submseteq_inserts_r.
Qed.

Lemma run_ok R ops m : venue_ok R m → venue_ok (R ++ recovered ops) (run ops m).2.
Proof.
  revert R m. induction ops as [|op ops IH]; intros R m Hok; [by rewrite app_nil_r|]. cbn [run].
  assert (venue_ok (R ++ recovered [op]) (run_op op m).2) as H1.
  { destruct op; cbn [run_op snd]; try (rewrite app_nil_r).
    - unfold register_pending. by destruct (_ =? _).
    - by apply fill_ok.
    - destruct (on_price_scan symbol px ts m) as [-> | ->]; [done|by apply scan_ok].
    - destruct (on_bar_scan' symbol op low high cl ts m) as [-> |(probe & _ & ->)]; [done|by apply scan_ok].
    - by apply cancel_ok.
    - by apply cancel_all_ok.
    - by apply rehydrate_ok.
    - by apply reset_ok. }
  apply IH in H1. destruct (run_op op m) as [cs m1]. cbn [snd] in H1. destruct (run ops m1) as [cs' m2]. cbn [snd] in *.
  rewrite <- app_assoc in H1. unfold recovered in *. rewrite <- omap_app in H1. exact H1.
Qed.

(** venue brackets.  Over any sequence of operations on a fresh manager, with any
    adapter and in every arithmetic: the brackets cancelled at the venue together
    with those still held are among those the adapter reported placed and those
    recovered, each counted as often as it was placed, so no bracket is cancelled
    twice, none is cancelled and held, and none is cancelled that was not placed. *)
Theorem venue_cancelled_once place ops :
  let m := (run ops (set_bracket_adapter place mk_ExitManager)).2 in
  cancelled m ++ map_to_list (handles_ m) ⊆+ placed m ++ recovered ops.
Proof. cbn zeta. apply (run_ok [] ops). unfold venue_ok. cbn. by rewrite map_to_list_empty. Qed.

End Ops.

#[local] Existing Instance exact_arith.

Section Quantity.
Context {MO : MultiOrder}.

Definition qsum (l : list Q) : Q := foldr Qplus 0%Q l.

Lemma qsum_app l1 l2 : (qsum (l1 ++ l2) == qsum l1 + qsum l2)%Q.
Proof. unfold qsum. induction l1 as [|x l1 IH]; cbn; [lra|]. rewrite IH. lra. Qed.

(** The weight of an opener's entries. *)
Definition weight {B} (w : B → Q) (o : Z) (l : list (Z * B)) : Q := qsum ((λ e, w e.2) <$> entries o l).

Lemma weight_nil {B} (w : B → Q) o : weight w o [] = 0%Q.
Proof. done. Qed.
Lemma weight_cons {B} (w : B → Q) o k b l :
  weight w o ((k, b) :: l) = (if decide (k = o) then (w b + weight w o l)%Q else weight w o l).
Proof. unfold weight, entries. rewrite filter_cons. cbn [fst]. by destruct (decide (k = o)). Qed.

Lemma weight_app {B} (w : B → Q) o l1 l2 : (weight w o (l1 ++ l2) == weight w o l1 + weight w o l2)%Q.
Proof. unfold weight, entries. by rewrite filter_app, fmap_app, qsum_app. Qed.

Lemma weight_perm {B} (w : B → Q) o l1 l2 : l1 ≡ₚ l2 → (weight w o l1 == weight w o l2)%Q.
Proof.
  induction 1 as [|[k b]|[k1 b1] [k2 b2]|l1 l2 l3 _ IH1 _ IH2]; [done|..].
  - rewrite !weight_cons. destruct (decide (k = o)); [|done]. by rewrite IHPermutation.
  - rewrite !weight_cons. destruct (decide (k1 = o)), (decide (k2 = o)); lra.
  - by rewrite IH1.
Qed.

Lemma weight_nonneg {B} (w : B → Q) o l : (∀ b, (o, b) ∈ l → 0 <= w b)%Q → (0 <= weight w o l)%Q.
Proof.
  induction l as [|[k b] l IH]; intros Hw; [done|]. rewrite weight_cons.
  assert (0 <= weight w o l)%Q by (apply IH; intros b' Hb'; apply Hw; by right).
  destruct (decide (k = o)) as [->|]; [|done]. specialize (Hw b (list_elem_of_here _ _)). lra.
Qed.

(** A part of a list weighs no more. *)
Lemma weight_filter {B} (w : B → Q) o l (P : Z * B → Prop) `{!∀ e, Decision (P e)} :
  (∀ b, (o, b) ∈ l → 0 <= w b)%Q → (weight w o (filter P l) <= weight w o l)%Q.
Proof.
  induction l as [|[k b] l IH]; intros Hw; [apply Qle_refl|]. rewrite filter_cons.
  assert (weight w o (filter P l) <= weight w o l)%Q by (apply IH; intros b' Hb'; apply Hw; by right).
  specialize (Hw b). destruct (decide (P (k, b))); rewrite !weight_cons; destruct (decide (k = o)) as [->|]; try lra.
  specialize (Hw (list_elem_of_here _ _)). lra.
Qed.

Lemma weight_erase {B} (w : B → Q) o l : weight w o (erase_key o l) = 0%Q.
Proof.
  induction l as [|[k b] l IH]; [done|]. unfold erase_key in *. rewrite filter_cons. cbn [fst].
  destruct (decide (k ≠ o)); [|done]. rewrite weight_cons. by rewrite decide_False.
Qed.

Lemma weight_emplace {B} (w : B → Q) o l k b :
  (weight w o (emplace l k b) == (if decide (k = o) then w b else 0) + weight w o l)%Q.
Proof. rewrite (weight_perm w o _ _ (emplace_perm l k b)), weight_cons. destruct (decide (k = o)); lra. Qed.

Lemma weight_emplaces {B} (w : B → Q) o k (bs : list B) : ∀ l,
  (weight w o (foldl (λ l b, emplace l k b) l bs) == (if decide (k = o) then qsum (w <$> bs) else 0) + weight w o l)%Q.
Proof.
  induction bs as [|b bs IH]; intros l; cbn [foldl].
  - cbn. destruct (decide (k = o)); lra.
  - rewrite IH, weight_emplace. change (qsum (w <$> b :: bs)) with (w b + qsum (w <$> bs))%Q. destruct (decide (k = o)); lra.
Qed.

(** What an opener's closes add up to. *)
Definition closed (o : Z) (cs : list close_order) : Q :=
  qsum (co_quantity <$> filter (λ c, co_opener_order_id c = o) cs).

Lemma closed_app o cs cs' : (closed o (cs ++ cs') == closed o cs + closed o cs')%Q.
Proof. unfold closed. by rewrite filter_app, fmap_app, qsum_app. Qed.

Abbreviation armed_qty := (λ a, ei_qty (intent a)).
Abbreviation armed_fraction := (λ a, clamp_fraction (qty_fraction (intent a))).
Abbreviation intent_fraction := (λ i, clamp_fraction (qty_fraction i)).

Lemma clamp_range (x : Q) : (0 <= clamp_fraction x <= 1)%Q.
Proof.
  unfold clamp_fraction, n_one, n_zero. tt_exact. repeat (tt_compare; try lra).
Qed.

Lemma consume_le o (q : Q) (m : ExitManager) : (0 <= q)%Q → ((consume_opener_qty o q m).1 <= q)%Q.
Proof.
  intros Hq. unfold consume_opener_qty. destruct (negb _); [done|].
  destruct (opener_remaining_qty_ m !! o) as [r|]; cbn [fst]; [|apply Qle_refl]. unfold n_min. tt_exact.
  destruct (Qltb_spec r q); [by apply Qlt_le_weak|apply Qle_refl].
Qed.

(** A firing closes at most the intent's quantity. *)
Lemma fire_within o a px ts (m : ExitManager) o' : (0 <= armed_qty a)%Q →
  (closed o' (closes_of o a px ts (consume_opener_qty o (armed_qty a) m).1) <= if decide (o = o') then armed_qty a else 0)%Q.
Proof.
  intros Hq. unfold closes_of, closed. destruct (negb _) eqn:E.
  { cbn. destruct (decide (o = o')); [done|lra]. }
  rewrite filter_cons. cbn [co_opener_order_id filter list_filter]. destruct (decide (o = o')); [|cbn; lra].
  cbn [fmap list_fmap co_quantity qsum foldr]. rewrite Qplus_0_r. by apply consume_le.
Qed.

Lemma survivor_keeps symbol probe e e' : keeps probe → survivor symbol probe e = Some e' →
  e'.1 = e.1 ∧ armed_qty e'.2 = armed_qty e.2 ∧ qty_fraction (intent e'.2) = qty_fraction (intent e.2).
Proof.
  intros Hk. unfold survivor. destruct (bool_decide _).
  - specialize (Hk e.2). destruct (probe e.2) as [a [px|]]; [done|]. intros [= <-]. cbn in *. tauto.
  - by intros [= <-].
Qed.

Lemma scan_within symbol ts probe o rest : keeps probe → ∀ seen (m : ExitManager),
  (∀ a, (o, a) ∈ rest → 0 <= armed_qty a)%Q →
  (closed o (scan symbol ts probe seen rest m).1 + weight armed_qty o (omap (survivor symbol probe) rest)
     <= weight armed_qty o rest)%Q.
Proof.
  intros Hk. induction rest as [|[k a] rest IH]; intros seen m Hq; [cbn; lra|].
  assert (∀ seen m, (closed o (scan symbol ts probe seen rest m).1 + weight armed_qty o (omap (survivor symbol probe) rest)
     <= weight armed_qty o rest)%Q) as IH'. { intros. apply IH. intros b Hb. apply Hq. by right. }
  clear IH. cbn [scan omap list_omap]. unfold survivor at 1. cbn [fst snd]. rewrite (weight_cons _ _ k a).
  destruct (bool_decide (ei_symbol (intent a) = symbol)) eqn:Es; cbn [negb].
  - specialize (Hk a). destruct (probe a) as [a' [px|]]; cbn [fst] in Hk; destruct Hk as (_ & _ & Hka & _).
    + specialize (IH' seen (fire k a' px ts (seen ++ rest) (set_armed (seen ++ (k, a') :: rest) m)).2).
      pose proof (fire_closes k a' px ts (seen ++ rest) (set_armed (seen ++ (k, a') :: rest) m)) as Hc.
      destruct (fire _ _ _ _ _ _) as [cs m1]. cbn [fst snd] in Hc, IH'. destruct (scan _ _ _ _ _ m1) as [cs' m2].
      cbn [fst] in *. rewrite closed_app, Hc.
      destruct (decide (k = o)) as [->|Hne].
      * assert (0 <= armed_qty a')%Q as Hn by (rewrite Hka; apply Hq; left).
        pose proof (fire_within o a' px ts (set_armed (seen ++ (o, a') :: rest) m) o Hn) as Hw.
        rewrite decide_True, Hka in Hw by done. rewrite Hka. lra.
      * assert (closed o (closes_of k a' px ts (consume_opener_qty k (armed_qty a') (set_armed (seen ++ (k, a') :: rest) m)).1)
          = 0)%Q as ->; [|lra].
        unfold closes_of, closed. destruct (negb _); [done|]. by rewrite filter_cons_False.
    + rewrite weight_cons, Hka. specialize (IH' (seen ++ [(k, a')]) (set_armed (seen ++ (k, a') :: rest) m)).
      destruct (decide (k = o)); lra.
  - rewrite weight_cons. specialize (IH' (seen ++ [(k, a)]) m). destruct (decide (k = o)); lra.
Qed.

Lemma survivors_fraction symbol probe o rest : keeps probe →
  (weight armed_fraction o (omap (survivor symbol probe) rest) <= weight armed_fraction o rest)%Q.
Proof.
  intros Hk. induction rest as [|[k a] rest IH]; [apply Qle_refl|]. cbn [omap list_omap]. rewrite weight_cons.
  destruct (survivor symbol probe (k, a)) as [[k' a']|] eqn:E.
  - apply survivor_keeps in E as (E1 & _ & E2); [|done]. cbn in E1, E2. subst k'. rewrite weight_cons, E2.
    destruct (decide (k = o)); lra.
  - pose proof (clamp_range (qty_fraction (intent a))). destruct (decide (k = o)); lra.
Qed.

(** What an operation adds to an opener's filled quantity and to its fractions. *)
Definition is_opener_fill (f : fill) (opener : Z) : bool := (opener =? 0) || (opener =? f_order_id f).
Definition op_filled (o : Z) (op : exit_op) : Q :=
  match op with
  | Op_fill f opener => if is_opener_fill f opener && (f_order_id f =? o) then f_quantity f else 0
  | Op_rehydrate rb _ => if accepts rb && (rb_opener_order_id rb =? o) then rb_qty rb else 0
  | _ => 0
  end%Q.
Definition op_fraction (o : Z) (op : exit_op) : Q :=
  match op with
  | Op_register i => if ei_opener_order_id i =? o then clamp_fraction (qty_fraction i) else 0
  | Op_rehydrate rb _ => if rb_opener_order_id rb =? o then 1 else 0
  | _ => 0
  end%Q.
Definition op_nonneg (op : exit_op) : Prop :=
  match op with
  | Op_fill f _ => 0 <= f_quantity f
  | Op_rehydrate rb _ => 0 <= rb_qty rb
  | _ => True
  end%Q.

Lemma op_fraction_nonneg o op : (0 <= op_fraction o op)%Q.
Proof.
  destruct op; cbn; try lra; destruct (_ =? o); try lra. destruct (clamp_range (qty_fraction i)); lra.
Qed.

(** What is known of an opener's intents when fractions [F] were registered. *)
Record within (o : Z) (F : Q) (m : ExitManager) : Prop := {
  wi_nonneg : ∀ a, (o, a) ∈ armed_ m → (0 <= armed_qty a)%Q;
  wi_fractions : (weight intent_fraction o (pending_ m) + weight armed_fraction o (armed_ m) <= F)%Q }.

Lemma within_sub o F (m m' : ExitManager) (P : Z * exit_intent → Prop) (R : Z * armed_intent → Prop)
    `{!∀ e, Decision (P e)} `{!∀ e, Decision (R e)} :
  pending_ m' = filter P (pending_ m) → armed_ m' = filter R (armed_ m) → within o F m →
  within o F m' ∧ (weight armed_qty o (armed_ m') <= weight armed_qty o (armed_ m))%Q.
Proof.
  intros Ep Ea [H1 H2]. split; [split|].
  - intros a. rewrite Ea. intros [_ Hin]%list_elem_of_filter. by apply H1.
  - rewrite Ep, Ea.
    pose proof (weight_filter intent_fraction o (pending_ m) P (λ i _, proj1 (clamp_range (qty_fraction i)))).
    pose proof (weight_filter armed_fraction o (armed_ m) R (λ a _, proj1 (clamp_range (qty_fraction (intent a))))). lra.
  - rewrite Ea. by apply weight_filter.
Qed.

Lemma cancel_within o F o' (m : ExitManager) : within o F m →
  within o F (cancel o' m) ∧ (weight armed_qty o (armed_ (cancel o' m)) <= weight armed_qty o (armed_ m))%Q.
Proof. destruct (cancel_intents o' m) as [E1 E2]. exact (within_sub o F m _ _ _ E1 E2). Qed.

Lemma shift_levels_same px (i : exit_intent) : ei_qty (shift_levels px i) = ei_qty i ∧ qty_fraction (shift_levels px i) = qty_fraction i.
Proof. unfold shift_levels. destruct (reference_entry i); [|done]. by tt_cases. Qed.

Lemma arm_same (f : fill) (i : exit_intent) : armed_qty (arm f i) = (f_quantity f * clamp_fraction (qty_fraction i))%Q ∧
  armed_fraction (arm f i) = clamp_fraction (qty_fraction i).
Proof. unfold arm. cbn [intent]. by destruct (shift_levels_same (f_price f) (set_qty (f_quantity f * clamp_fraction (qty_fraction i))%num i)) as [-> ->]. Qed.

Lemma qsum_arms (f : fill) (l : list (Z * exit_intent)) :
  (qsum (armed_qty <$> ((λ e, arm f e.2) <$> l)) == f_quantity f * qsum ((λ e, intent_fraction e.2) <$> l))%Q ∧
  qsum (armed_fraction <$> ((λ e, arm f e.2) <$> l)) = qsum ((λ e, intent_fraction e.2) <$> l).
Proof.
  induction l as [|e l [IH1 IH2]]; [cbn; split; [lra|done]|]. destruct (arm_same f e.2) as [E1 E2].
  cbn [fmap list_fmap qsum foldr] in *. fold (qsum (armed_qty <$> ((λ e, arm f e.2) <$> l))) in *. split.
  - rewrite E1. unfold qsum in IH1. rewrite IH1. lra.
  - rewrite E2. by f_equal.
Qed.

Lemma grow_same (f : fill) (a : armed_intent) : (0 <= f_quantity f)%Q →
  (armed_qty (grow f a) == armed_qty a + f_quantity f * armed_fraction a)%Q ∧
  qty_fraction (intent (grow f a)) = qty_fraction (intent a).
Proof.
  intros Hq. unfold grow. destruct (n_le _ _) eqn:E; cbn [intent set_qty ei_qty qty_fraction]; [|done]. split; [|done].
  unfold n_zero in E. tt_exact. apply Qle_bool_iff in E. destruct (clamp_range (qty_fraction (intent a))).
  assert (0 <= f_quantity f * clamp_fraction (qty_fraction (intent a)))%Q by (apply Qmult_le_0_compat; lra). lra.
Qed.

Lemma weight_grow o id (f : fill) l : (0 <= f_quantity f)%Q →
  (weight armed_qty o ((λ e, if bool_decide (e.1 = id) then (e.1, grow f e.2) else e) <$> l)
     == weight armed_qty o l + if decide (id = o) then f_quantity f * weight armed_fraction o l else 0)%Q ∧
  weight armed_fraction o ((λ e, if bool_decide (e.1 = id) then (e.1, grow f e.2) else e) <$> l) = weight armed_fraction o l.
Proof.
  intros Hq. induction l as [|[k a] l [IH1 IH2]]; [cbn; split; [destruct (decide _); lra|done]|].
  destruct (grow_same f a Hq) as [G1 G2]. rewrite !fmap_cons. cbn [fst snd].
  destruct (bool_decide (k = id)) eqn:Ek; [apply bool_decide_eq_true in Ek as ->|apply bool_decide_eq_false in Ek];
    rewrite !weight_cons; (split; [|by rewrite IH2, ?G2]);
    repeat match goal with |- context [decide ?P] => destruct (decide P) end; subst; try done; lra.
Qed.

Lemma place_bracket_intents (f : fill) l (m : ExitManager) :
  pending_ (place_bracket f l m) = pending_ m ∧ armed_ (place_bracket f l m) = armed_ m.
Proof. unfold place_bracket. destruct (bracket_adapter_ m), l; try done. by destruct (handles_empty _). Qed.

(** An opener's fill, in both branches. *)
Lemma opener_fill_intents (f : fill) (m : ExitManager) :
  let id := f_order_id f in
  match entries id (pending_ m) with
  | [] => pending_ (on_opener_fill f m) = pending_ m ∧
      armed_ (on_opener_fill f m) = (λ e, if bool_decide (e.1 = id) then (e.1, grow f e.2) else e) <$> armed_ m
  | range => pending_ (on_opener_fill f m) = erase_key id (pending_ m) ∧
      armed_ (on_opener_fill f m) = foldl (λ az a, emplace az id a) (armed_ m) ((λ e, arm f e.2) <$> range)
  end.
Proof.
  cbn zeta. unfold on_opener_fill. destruct (entries (f_order_id f) (pending_ m)); [done|].
  match goal with |- context [place_bracket f ?l ?m'] => destruct (place_bracket_intents f l m') as [-> ->] end. done.
Qed.

Lemma emplaces_elem {B} (k : Z) (bs : list B) : ∀ l x,
  x ∈ foldl (λ l b, emplace l k b) l bs ↔ x ∈ l ∨ ∃ b, b ∈ bs ∧ x = (k, b).
Proof.
  induction bs as [|b bs IH]; intros l x; cbn [foldl].
  - split; [by left|]. intros [H|(b & Hb & _)]; [done|by apply elem_of_nil in Hb].
  - rewrite IH, (emplace_perm l k b), elem_of_cons. split.
    + intros [[->|H]|(b' & Hb & ->)]; [right; exists b; split; [left|done]|by left|right; exists b'; split; [by right|done]].
    + intros [H|(b' & Hb & ->)]; [by left; right|]. apply elem_of_cons in Hb as [->|Hb]; [by left; left|right; by exists b'].
Qed.

Lemma opener_fill_within o F (f : fill) (m : ExitManager) : (0 <= f_quantity f)%Q → (F <= 1)%Q → within o F m →
  within o F (on_opener_fill f m) ∧
  (weight armed_qty o (armed_ (on_opener_fill f m))
     <= weight armed_qty o (armed_ m) + if f_order_id f =? o then f_quantity f else 0)%Q.
Proof.
  intros Hq HF [H1 H2]. pose proof (opener_fill_intents f m) as Hf. cbn zeta in Hf.
  pose proof (weight_nonneg intent_fraction o (pending_ m) (λ i _, proj1 (clamp_range (qty_fraction i)))) as Hp0.
  pose proof (weight_nonneg armed_fraction o (armed_ m) (λ a _, proj1 (clamp_range (qty_fraction (intent a))))) as Ha0.
  destruct (entries (f_order_id f) (pending_ m)) as [|e r] eqn:Er.
  - destruct Hf as [Ep Ea]. destruct (weight_grow o (f_order_id f) f (armed_ m) Hq) as [G1 G2]. split; [split|].
    + rewrite Ea. intros a ([k b] & E & Hin)%list_elem_of_fmap. cbn [fst snd] in E.
      destruct (bool_decide (k = f_order_id f)); injection E as -> ->; [|by apply H1].
      destruct (grow_same f b Hq) as [-> _]. specialize (H1 _ Hin). destruct (clamp_range (qty_fraction (intent b))).
      assert (0 <= f_quantity f * clamp_fraction (qty_fraction (intent b)))%Q by (apply Qmult_le_0_compat; lra). lra.
    + by rewrite Ep, Ea, G2.
    + rewrite Ea, G1. destruct (Z.eqb_spec (f_order_id f) o) as [E|E]; [rewrite decide_True by done|rewrite decide_False by done; lra].
      assert (f_quantity f * weight armed_fraction o (armed_ m) <= f_quantity f * 1)%Q; [|lra]. nra.
  - destruct Hf as [Ep Ea]. rewrite <- Er in Ea. destruct (qsum_arms f (entries (f_order_id f) (pending_ m))) as [Q1 Q2]. split; [split|].
    + rewrite Ea. intros a [Hin|(b & Hb & [= -> ->])]%emplaces_elem; [by apply H1|].
      apply list_elem_of_fmap in Hb as ([k i] & -> & _). cbn [snd]. destruct (arm_same f i) as [-> _].
      destruct (clamp_range (qty_fraction i)). apply Qmult_le_0_compat; lra.
    + rewrite Ep, Ea, weight_emplaces.
      change (@num exact_arith) with Q in *. rewrite Q2. destruct (decide (f_order_id f = o)) as [E|E].
      * rewrite E, weight_erase. change (qsum _) with (weight intent_fraction o (pending_ m)). lra.
      * pose proof (weight_filter intent_fraction o (pending_ m) (λ e, e.1 ≠ f_order_id f)
          (λ i _, proj1 (clamp_range (qty_fraction i)))) as Hwf. unfold erase_key. lra.
    + rewrite Ea, weight_emplaces. change (@num exact_arith) with Q in *. destruct (Z.eqb_spec (f_order_id f) o) as [E|E];
        [rewrite decide_True by done|rewrite decide_False by done; lra].
      rewrite Q1, E. change (f_quantity f * weight intent_fraction o (pending_ m) + weight armed_qty o (armed_ m)
        <= weight armed_qty o (armed_ m) + f_quantity f)%Q.
      assert (f_quantity f * weight intent_fraction o (pending_ m) <= f_quantity f * 1)%Q; [|lra]. nra.
Qed.

Lemma scan_run_within o F symbol ts probe (m : ExitManager) : keeps probe → within o F m →
  within o F (scan symbol ts probe [] (armed_ m) m).2 ∧
  (closed o (scan symbol ts probe [] (armed_ m) m).1 + weight armed_qty o (armed_ (scan symbol ts probe [] (armed_ m) m).2)
     <= weight armed_qty o (armed_ m))%Q.
Proof.
  intros Hk [H1 H2]. destruct (scan_intents symbol ts probe (armed_ m) [] m eq_refl) as [Ep Ea]. cbn [app] in Ea. split; [split|].
  - rewrite Ea. intros a ([k b] & Hin & Hs)%list_elem_of_omap. apply survivor_keeps in Hs as (E1 & E2 & _); [|done].
    cbn in E1, E2. subst k. cbn. rewrite E2. by apply H1.
  - rewrite Ep, Ea. pose proof (survivors_fraction symbol probe o (armed_ m) Hk). lra.
  - rewrite Ea. by apply scan_within.
Qed.

Lemma install_intents o s h (m : ExitManager) :
  pending_ (install_handles o s h m) = pending_ m ∧ armed_ (install_handles o s h m) = armed_ m.
Proof. done. Qed.

Lemma rehydrate_within o F rb now (m : ExitManager) : (0 <= rb_qty rb)%Q → within o F m →
  within o (F + op_fraction o (Op_rehydrate rb now)) (rehydrate rb now m) ∧
  (weight armed_qty o (armed_ (rehydrate rb now m))
     <= weight armed_qty o (armed_ m) + op_filled o (Op_rehydrate rb now))%Q.
Proof.
  intros Hq [H1 H2]. pose proof (op_fraction_nonneg o (Op_rehydrate rb now)) as Hf. cbn [op_filled]. unfold accepts, rehydrate.
  destruct (rb_opener_order_id rb =? 0); cbn [negb andb]; [split; [split; [done|lra]|lra]|].
  destruct (handles_empty (rb_handles rb)); cbn [negb andb]; [split; [split; [done|lra]|lra]|].
  set (a := {| intent := recovered_intent rb; ai_entry_price := _; best_price := _; ts_armed := now |}).
  match goal with |- context [install_handles ?i ?s ?h ?m'] => destruct (install_intents i s h m') as [Ep Ea];
    assert (pending_ m' = pending_ m ∧ armed_ m' = emplace (armed_ m) i a) as [Ep' Ea'] by (by destruct (_ && _)) end.
  rewrite Ep' in Ep. rewrite Ea' in Ea. assert (clamp_fraction (qty_fraction (recovered_intent rb)) = 1%Q) as E1 by done.
  split; [split|].
  - rewrite Ea. intros b. rewrite (emplace_perm _ _ _), elem_of_cons. intros [[= -> ->]|Hin]; [done|by apply H1].
  - rewrite Ep, Ea, weight_emplace. cbn [op_fraction]. destruct (Z.eqb_spec (rb_opener_order_id rb) o) as [E|E];
      [rewrite decide_True by done|rewrite decide_False by done; lra]. cbn [intent a]. rewrite E1. lra.
  - rewrite Ea, weight_emplace. destruct (Z.eqb_spec (rb_opener_order_id rb) o) as [E|E];
      [rewrite decide_True by done|rewrite decide_False by done; lra]. cbn [intent a recovered_intent ei_qty]. lra.
Qed.

Lemma op_within o F op (m : ExitManager) : op_nonneg op → within o F m → (F + op_fraction o op <= 1)%Q →
  within o (F + op_fraction o op) (run_op op m).2 ∧
  (closed o (run_op op m).1 + weight armed_qty o (armed_ (run_op op m).2) <= weight armed_qty o (armed_ m) + op_filled o op)%Q.
Proof.
  intros Hn Hw HF. assert (within o (F + 0) m) as Hw0 by (destruct Hw; split; [done|lra]).
  assert (∀ m' : ExitManager, closed o [] + weight armed_qty o (armed_ m') == weight armed_qty o (armed_ m'))%Q as Hc
    by (intros m'; change (closed o []) with 0%Q; lra).
  destruct op as [i|f k|symbol px ts|symbol op low high cl ts|k|s y|rb now|]; cbn [run_op fst snd op_filled op_fraction op_nonneg] in *.
  - rewrite Hc, (Qplus_0_r (weight _ _ (armed_ m))). unfold register_pending. destruct Hw as [H1 H2]. pose proof (op_fraction_nonneg o (Op_register i)) as Hf.
    cbn [op_fraction] in Hf. destruct (ei_opener_order_id i =? 0); [split; [split; [done|lra]|lra]|]. split; [split|]; [done| |apply Qle_refl].
    cbn [pending_ armed_ set_intents]. rewrite weight_emplace. destruct (Z.eqb_spec (ei_opener_order_id i) o) as [E|E];
      [rewrite decide_True by done|rewrite decide_False by done]; lra.
  - rewrite Hc. unfold on_fill_with, is_opener_fill. destruct (k =? 0), (k =? f_order_id f); cbn [negb andb orb];
      try (apply (opener_fill_within o (F + 0) f m); [done|lra|done]). rewrite (Qplus_0_r (weight _ _ (armed_ m))). unfold on_closer_fill.
    assert (within o (F + 0) (match_in_flight k (f_quantity f) m).2 ∧ armed_ (match_in_flight k (f_quantity f) m).2 = armed_ m) as [Hw1 Ea].
    { unfold match_in_flight. destruct (opener_close_in_flight_qty_ m !! k); (split; [|done]); by destruct Hw0. }
    destruct (match_in_flight k (f_quantity f) m) as [q m1]. cbn [snd] in *. rewrite <- Ea.
    destruct (_ <? q)%num; [by apply cancel_within|]. destruct (is_flat k m1); [by apply cancel_within|]. split; [done|lra].
  - rewrite (Qplus_0_r (weight _ _ (armed_ m))). destruct (on_price_scan symbol px ts m) as [-> | ->]; [split; [done|by rewrite Hc; apply Qle_refl]|].
    apply scan_run_within; [apply price_probe_keeps|done].
  - rewrite (Qplus_0_r (weight _ _ (armed_ m))). destruct (on_bar_scan' symbol op low high cl ts m) as [-> |(probe & Hk & ->)]; [split; [done|by rewrite Hc; apply Qle_refl]|].
    by apply scan_run_within.
  - rewrite Hc, (Qplus_0_r (weight _ _ (armed_ m))). by apply cancel_within.
  - rewrite Hc, (Qplus_0_r (weight _ _ (armed_ m))). destruct (cancel_all_intents s y m) as (os & E1 & E2). exact (within_sub o _ m _ _ _ E1 E2 Hw0).
  - rewrite Hc. by apply rehydrate_within.
  - rewrite Hc. destruct Hw as [H1 H2]. split; [split|]; [intros a Ha; by apply elem_of_nil in Ha| |].
    + cbn. pose proof (weight_nonneg intent_fraction o (pending_ m) (λ i _, proj1 (clamp_range (qty_fraction i)))).
      pose proof (weight_nonneg armed_fraction o (armed_ m) (λ a _, proj1 (clamp_range (qty_fraction (intent a))))). unfold weight in *. cbn. lra.
    + pose proof (weight_nonneg armed_qty o (armed_ m) H1). unfold weight at 1. cbn. lra.
Qed.

(** C7: quantity.  In exact arithmetic, over any sequence of operations on a fresh
    manager whose fills are not negative: when the fractions registered for an
    opener add up to at most one, the closes returned for it, by prices and bars,
    over partial fills, cancels, recoveries and resets, never add up to more than
    the opener filled. *)
Theorem closes_within_fills (o : Z) (ops : list exit_op) :
  Forall op_nonneg ops → (qsum (op_fraction o <$> ops) <= 1)%Q →
  (closed o (run ops mk_ExitManager).1 <= qsum (op_filled o <$> ops))%Q.
Proof.
  intros Hn HF. assert (∀ F C (m : ExitManager), within o F m → (F + qsum (op_fraction o <$> ops) <= 1)%Q →
    (weight armed_qty o (armed_ m) <= C)%Q → (closed o (run ops m).1 <= C + qsum (op_filled o <$> ops))%Q) as H.
  { clear HF. induction ops as [|op ops IH]; intros F C m Hw HF HC.
    - cbn. destruct Hw as [H1 _]. pose proof (weight_nonneg armed_qty o (armed_ m) H1). unfold closed. cbn. lra.
    - apply Forall_cons in Hn as [Hop Hn]. specialize (IH Hn).
      assert (0 <= qsum (op_fraction o <$> ops))%Q as H0.
      { clear. induction ops as [|op ops IH]; [done|]. cbn. pose proof (op_fraction_nonneg o op). unfold qsum in IH. lra. }
      change (qsum (op_fraction o <$> op :: ops)) with (op_fraction o op + qsum (op_fraction o <$> ops))%Q in HF.
      change (qsum (op_filled o <$> op :: ops)) with (op_filled o op + qsum (op_filled o <$> ops))%Q.
      destruct (op_within o F op m Hop Hw ltac:(lra)) as [Hw' Hc]. cbn [run]. destruct (run_op op m) as [cs m1]. cbn [fst snd] in *.
      specialize (IH (F + op_fraction o op)%Q (C + op_filled o op - closed o cs)%Q m1 Hw' ltac:(lra) ltac:(lra)).
      destruct (run ops m1) as [cs' m2]. cbn [fst] in *. rewrite closed_app. lra. }
  specialize (H 0 0 mk_ExitManager)%Q. rewrite Qplus_0_l in H. rewrite <- (Qplus_0_l (qsum (op_filled o <$> ops))). apply H.
  - split; [intros a Ha; by apply elem_of_nil in Ha|]. apply Qle_refl.
  - done.
  - apply Qle_refl.
Qed.

End Quantity.

(** ** Trailing stops *)

Section Trail.
Context {MO : MultiOrder}.

(** The stop of [i'] protects at least what the stop of [i] does. *)
Definition tighter (i i' : exit_intent) : Prop :=
  match stop_loss i, stop_loss i' with
  | None, _ => True
  | Some _, None => False
  | Some s, Some s' => if is_long i then (s <= s')%Q else (s' <= s)%Q
  end.

(** The stop is at most the trail's distance from the best price. *)
Definition follows (a : armed_intent) : Prop :=
  match trailing_pct (intent a) with
  | None => True
  | Some p =>
      if is_long (intent a) then (best_price a * (1 - p) <= default 0 (stop_loss (intent a)))%Q
      else ∃ s, stop_loss (intent a) = Some s ∧ (s <= best_price a * (1 + p))%Q
  end.

(** [a'] is [a] some prices later. *)
Record later (a a' : armed_intent) : Prop := {
  la_side : close_side (intent a') = close_side (intent a);
  la_target : take_profit (intent a') = take_profit (intent a);
  la_qty : ei_qty (intent a') = ei_qty (intent a);
  la_stop : tighter (intent a) (intent a');
  la_best : if is_long (intent a) then (best_price a <= best_price a')%Q else (best_price a' <= best_price a)%Q;
  la_follows : a' = a ∨ follows a' }.

Lemma tighter_refl i : tighter i i.
Proof. unfold tighter. destruct (stop_loss i); [|done]. destruct (is_long i); apply Qle_refl. Qed.

Lemma later_refl a : later a a.
Proof. split; try done; [apply tighter_refl|destruct (is_long _); apply Qle_refl|by left]. Qed.

Lemma later_trans a b c : later a b → later b c → later a c.
Proof.
  intros [S1 T1 Q1 P1 B1 F1] [S2 T2 Q2 P2 B2 F2].
  assert (is_long (intent b) = is_long (intent a)) as El by (unfold is_long; by rewrite S1).
  rewrite El in B2. split; [congruence..| | |].
  - unfold tighter in *. rewrite El in P2. destruct (stop_loss (intent a)), (stop_loss (intent b)), (stop_loss (intent c)); try done.
    destruct (is_long (intent a)); lra.
  - destruct (is_long (intent a)); lra.
  - destruct F2 as [->|F2]; [|by right]. done.
Qed.

Lemma trail_tightens a : tighter (intent a) (trail a).
Proof.
  unfold trail. destruct (trailing_pct (intent a)) as [p|]; [|apply tighter_refl].
  destruct (is_long (intent a)) eqn:El, (stop_loss (intent a)) as [sl|] eqn:Es; cbn [default from_option];
    (match goal with |- context [if ?b then _ else _] => destruct b eqn:E end; [|apply tighter_refl]);
    unfold tighter; cbn [set_exit_levels stop_loss]; rewrite Es; try done; rewrite El; apply Qltb_true in E; by apply Qlt_le_weak.
Qed.

Lemma trail_follows a best ts : best = best_price a → follows {| intent := trail a; ai_entry_price := ai_entry_price a; best_price := best; ts_armed := ts |}.
Proof.
  intros ->. unfold follows, trail. cbn [intent best_price]. destruct (trailing_pct (intent a)) as [p|] eqn:Ep; [|by rewrite Ep].
  destruct (is_long (intent a)) eqn:El, (stop_loss (intent a)) as [sl|] eqn:Es; cbn [default from_option];
    match goal with |- context [if ?b then _ else _] => destruct b eqn:E end; cbn [set_exit_levels trailing_pct stop_loss];
    rewrite Ep; change (is_long (set_exit_levels _ _ _ (intent a))) with (is_long (intent a)); rewrite El; rewrite ?Es; cbn [default from_option];
    try done; try apply Qle_refl; try (apply Qltb_false in E; exact E); eexists; (split; [done|]);
    first [apply Qle_refl | by apply Qltb_false in E].
Qed.

Lemma roll_later short (px : Q) a : later a (roll short px a).
Proof.
  destruct (roll_same (A := exact_arith) short px a) as (_ & R2 & R3 & _ & _ & R6 & _). split; [done..| | |].
  - unfold roll. cbn [intent]. match goal with |- tighter (intent a) (trail ?b) => exact (trail_tightens b) end.
  - unfold roll. cbn [best_price]. tt_exact. destruct (is_long (intent a)), short; cbn [andb]; tt_compare; lra.
  - right. unfold roll. cbn zeta. by apply trail_follows.
Qed.

Definition is_trigger (op : exit_op) : bool :=
  match op with Op_price _ _ _ | Op_bar _ _ _ _ _ _ => true | _ => false end.

Lemma scan_later symbol ts probe (m : ExitManager) o a' :
  (∀ a b, probe a = (b, None) → later a b) →
  (o, a') ∈ armed_ (scan symbol ts probe [] (armed_ m) m).2 → ∃ a, (o, a) ∈ armed_ m ∧ later a a'.
Proof.
  intros Hp. destruct (scan_intents symbol ts probe (armed_ m) [] m eq_refl) as [_ ->].
  intros ([k a] & Hin & Hs)%list_elem_of_omap. unfold survivor in Hs. cbn [fst snd] in Hs.
  destruct (bool_decide _); [|injection Hs as -> ->; exists a'; split; [done|apply later_refl]].
  destruct (probe a) as [b [px|]] eqn:Epr; [done|]. injection Hs as -> ->. exists a. by auto.
Qed.

(** trailing.  In exact arithmetic, over any sequence of prices and bars, an intent
    that is still armed is one that was armed before, with the same side, target
    and quantity; its stop has only tightened and its best price only improved;
    and once an update has reached it, a trailing stop is no further from the
    best price than its fraction. *)
Theorem trailing_tightens ops (m : ExitManager) :
  Forall is_trigger ops →
  ∀ o a', (o, a') ∈ armed_ (run ops m).2 → ∃ a, (o, a) ∈ armed_ m ∧ later a a'.
Proof.
  revert m. induction ops as [|op ops IH]; intros m Ht o a' Hin; [exists a'; split; [done|apply later_refl]|].
  apply Forall_cons in Ht as [Hop Ht]. cbn [run] in Hin.
  assert (∃ a1, (o, a1) ∈ armed_ (run_op op m).2 ∧ later a1 a') as (a1 & Hin1 & Hl1).
  { revert Hin. destruct (run_op op m) as [cs m1]. cbn [snd]. intros Hin. apply IH; [done|]. revert Hin. by destruct (run ops m1). }
  assert (∃ a, (o, a) ∈ armed_ m ∧ later a a1) as (a & Ha & Hl); [|exists a; split; [done|by eapply later_trans]].
  clear IH Hin. destruct op; try done; cbn [run_op] in Hin1.
  - destruct (on_price_scan symbol px ts m) as [E|E]; rewrite E in Hin1; [exists a1; split; [done|apply later_refl]|].
    eapply scan_later; [|exact Hin1]. intros b c. unfold price_probe. destruct (_ || _); [done|]. intros [= <-]. apply roll_later.
  - unfold on_bar in Hin1. destruct (bool_decide _); [exists a1; split; [done|apply later_refl]|].
    destruct (_ || _); [exists a1; split; [done|apply later_refl]|]. destruct (high <? low)%num;
      (eapply scan_later; [|exact Hin1]); intros b c Hb; apply bar_probe_kept in Hb as [-> _]; apply roll_later.
Qed.

End Trail.

(** ** Concrete runs *)

Definition sample_intent (fraction : Q) (sl tp : option Q) : exit_intent :=
  {| ei_symbol := "X"; close_side := side_sell; ei_qty := 10%Q; qty_fraction := fraction; stop_loss := sl;
     take_profit := tp; reference_entry := None; trailing_pct := None; deadline := None; ei_opener_order_id := 42;
     ei_strategy_name := "s" |}.
Definition sample_fill (id : Z) (side : order_side) (q px : Q) : fill :=
  {| f_ts := 0; f_symbol := "X"; f_order_id := id; f_side := side; f_quantity := q; f_price := px;
     f_commission := 0%Q; f_strategy_name := "s"; f_opener_order_id := 0 |}.

(** Half at the target and half at the stop, over two partial fills and a bar. *)
Definition scale_out : list exit_op :=
  [Op_register (sample_intent (1 # 2) None (Some 110)); Op_register (sample_intent (1 # 2) (Some 90) None);
   Op_fill (sample_fill 42%Z side_buy 6 100) 42%Z; Op_fill (sample_fill 42%Z side_buy 4 101) 42%Z;
   Op_bar "X" 100 89 111 100 1%Z]%Q.

Lemma closes_within_fills_witness :
  (closed 42 (run scale_out mk_ExitManager).1 == 10)%Q ∧
  (closed 42 (run scale_out mk_ExitManager).1 <= qsum (op_filled 42 <$> scale_out))%Q.
Proof.
  split; [by vm_compute|]. apply closes_within_fills; [|by vm_compute].
  repeat constructor; by vm_compute.
Defined.

(** A full stop beside a half target, both armed on a fill of ten; the stop fires on
    one price, the target on the next, before the stop's order has filled. *)
Definition stop_then_target : list exit_op :=
  [Op_register (sample_intent 1 (Some 90) None); Op_register (sample_intent (1 # 2) None (Some 110));
   Op_fill (sample_fill 42%Z side_buy 10 100) 42%Z; Op_price "X" 89 1%Z; Op_price "X" 111 2%Z]%Q.

(** the cap of an opener's closes by what it has left does not hold when its
    fractions add up to more than one: the firing that empties the opener erases
    what it has left, the intents still armed for it then fire for their full
    quantity, and fifteen are closed of ten filled. *)
Theorem exits_overclose :
  (qsum (op_filled 42 <$> stop_then_target) == 10)%Q ∧
  (closed 42 (run stop_then_target mk_ExitManager).1 == 15)%Q.
Proof. split; by vm_compute. Qed.

(** A long from 100 trailing by a tenth: at 120 its stop is at 108. *)
Lemma trailing_tightens_witness :
  let ops := [Op_price "X" 120%Q 1; Op_bar "X" 115%Q 110%Q 118%Q 112%Q 2] in
  let a := {| intent := set_exit_levels (Some 90%Q) None None
                {| ei_symbol := "X"; close_side := side_sell; ei_qty := 10%Q; qty_fraction := 1%Q; stop_loss := None;
                   take_profit := None; reference_entry := None; trailing_pct := Some (1 # 10)%Q; deadline := None;
                   ei_opener_order_id := 42; ei_strategy_name := "s" |};
              ai_entry_price := 100%Q; best_price := 100%Q; ts_armed := 0 |} in
  let m := set_armed [(42, a)] mk_ExitManager in
  ∃ a', (42, a') ∈ armed_ (run ops m).2 ∧ option_map Qred (stop_loss (intent a')) = Some 108%Q ∧ ∃ a0, (42, a0) ∈ armed_ m ∧ later a0 a'.
Proof.
  cbn zeta. eexists. assert (∀ P Q : Prop, P → (P → Q) → P ∧ Q) as Hand by tauto. apply Hand; [vm_compute; left|]. clear Hand.
  intros Hin. split; [by vm_compute|]. refine (trailing_tightens _ _ _ _ _ Hin). by repeat constructor.
Defined.

Lemma on_bar_anchored_witness :
  ∃ c, c ∈ (on_bar "X" 100%Q 89%Q 111%Q 100%Q 1 (run (take 4 scale_out) mk_ExitManager).2).1 ∧
  ∃ o a, (o, a) ∈ armed_ (run (take 4 scale_out) mk_ExitManager).2 ∧ co_opener_order_id c = o ∧
    ei_symbol (intent a) = "X" ∧ co_side c = close_side (intent a) ∧
    (89 <= co_price c <= 111)%Q ∧ bar_price 100%Q 89%Q 111%Q 100%Q 1 (intent a) (co_price c).
Proof.
  eexists. assert (∀ P Q : Prop, P → (P → Q) → P ∧ Q) as Hand by tauto. apply Hand; [vm_compute; left|]. clear Hand.
  apply (on_bar_anchored "X" 100%Q 89%Q 111%Q 100%Q 1 (run (take 4 scale_out) mk_ExitManager).2); vm_compute; done.
Defined.
