(* ===== verification/ExitPolicy.v ===== *)
(** * The platform's default exits (src/src/exits/default_exit_policy.h,
    default_exit_policy.cpp)

    What the engine attaches to an entry beside the strategy's own exits, by
    mode, and the names of the modes. *)

From Stdlib Require Import QArith Qabs Lqa.
From S2P Require Import Prelude Float64 Event Arith Portfolio Exits ExitTheorems ExitRuns.

Open Scope string_scope.
Open Scope list_scope.
Open Scope Z_scope.

Inductive exit_policy_mode := mode_floor | strategy_only | engine_only | union_mode.
#[export] Instance exit_policy_mode_eq_dec : EqDecision exit_policy_mode.
Proof. solve_decision. Defined.

Definition parse_exit_policy_mode (s : string) : option exit_policy_mode :=
  if bool_decide (s = "floor") then Some mode_floor else
  if bool_decide (s = "strategy_only") || bool_decide (s = "strategy-only") then Some strategy_only else
  if bool_decide (s = "engine_only") || bool_decide (s = "engine-only") then Some engine_only else
  if bool_decide (s = "union") then Some union_mode else None.

Definition exit_policy_mode_name (m : exit_policy_mode) : string :=
  match m with
  | mode_floor => "floor" | strategy_only => "strategy_only" | engine_only => "engine_only" | union_mode => "union"
  end.

Section Policy.
Context {A : Arith}.

Record default_exit_params := { mode : exit_policy_mode; sl_pct : num; tp_pct : num; trail_pct : num }.

(** What the policy reads of an order. *)
Record entry_order := {
  eo_order_id : Z;
  eo_opener_order_id : Z;
  eo_symbol : string;
  eo_side : order_side;
  eo_price : num;
  eo_quantity : num }.

Definition platform_has_any_protection (p : default_exit_params) : bool :=
  (sl_pct p >? n_zero)%num || (tp_pct p >? n_zero)%num || (trail_pct p >? n_zero)%num.

Definition with_trail (pct : option num) (i : exit_intent) : exit_intent :=
  {| ei_symbol := ei_symbol i; close_side := close_side i; ei_qty := ei_qty i; qty_fraction := qty_fraction i;
     stop_loss := stop_loss i; take_profit := take_profit i; reference_entry := reference_entry i;
     trailing_pct := pct; deadline := deadline i; ei_opener_order_id := ei_opener_order_id i;
     ei_strategy_name := ei_strategy_name i |}.

Definition apply_trail (p : default_exit_params) (i : exit_intent) : exit_intent :=
  if (trail_pct p >? n_zero)%num then with_trail (Some (trail_pct p)) i else i.

Definition is_position_reducing (o : entry_order) (net_qty : num) : bool :=
  let oid := eo_order_id o in let opener := eo_opener_order_id o in
  if negb (opener =? 0) && ((oid =? 0) || negb (opener =? oid)) then true else
  if (net_qty >? n_eps)%num && bool_decide (eo_side o = side_sell) then true else
  if (net_qty <? - n_eps)%num && bool_decide (eo_side o = side_buy) then true else false.

Definition intents_have_stop_loss (l : list exit_intent) : bool := existsb (λ i, bool_decide (is_Some (stop_loss i))) l.
Definition intents_have_take_profit (l : list exit_intent) : bool := existsb (λ i, bool_decide (is_Some (take_profit i))) l.

Definition make_platform_exit_intent (o : entry_order) (p : default_exit_params) : option exit_intent :=
  if negb (platform_has_any_protection p) then None else
  let entry := eo_price o in let qty := eo_quantity o in
  if negb (entry >? n_zero)%num || negb (qty >? n_zero)%num || negb (n_finite entry) || negb (n_finite qty) then None else
  let make := if bool_decide (eo_side o = side_buy) then make_long_exit_intent else make_short_exit_intent in
  let i := make (eo_symbol o) entry qty (if (sl_pct p >? n_zero)%num then sl_pct p else n_zero)
             (if (tp_pct p >? n_zero)%num then tp_pct p else n_zero) "" in
  let i := set_exit_levels (if (sl_pct p <=? n_zero)%num then None else stop_loss i)
             (if (tp_pct p <=? n_zero)%num then None else take_profit i) (reference_entry i) i in
  let i := apply_trail p i in
  match stop_loss i, take_profit i, trailing_pct i with
  | None, None, None => None
  | _, _, _ => Some i
  end.

(** An update of the first intent. *)
Definition patch_front (g : exit_intent → exit_intent) (l : list exit_intent) : list exit_intent :=
  match l with i :: l => g i :: l | [] => [] end.

(** The floor: what the strategy's plan lacks is put into its first intent. *)
Definition floor_stop (platform : option exit_intent) (l : list exit_intent) : list exit_intent :=
  match platform with
  | Some pi =>
      if negb (intents_have_stop_loss l) && bool_decide (is_Some (stop_loss pi))
      then patch_front (λ i, set_exit_levels (stop_loss pi) (take_profit i)
             (match reference_entry i with Some r => Some r | None => reference_entry pi end) i) l
      else l
  | None => l
  end.
Definition floor_target (p : default_exit_params) (platform : option exit_intent) (l : list exit_intent)
    : list exit_intent :=
  match platform with
  | Some pi =>
      if negb (intents_have_take_profit l) && bool_decide (is_Some (take_profit pi)) && (tp_pct p >? n_zero)%num
      then patch_front (λ i, set_exit_levels (stop_loss i) (take_profit pi)
             (match reference_entry i with Some r => Some r | None => reference_entry pi end) i) l
      else l
  | None => l
  end.
Definition floor_trail (p : default_exit_params) (l : list exit_intent) : list exit_intent :=
  if (trail_pct p >? n_zero)%num && negb (existsb (λ i, bool_decide (is_Some (trailing_pct i))) l)
  then patch_front (with_trail (Some (trail_pct p))) l else l.

Definition apply_default_exit_policy (p : default_exit_params) (o : entry_order) (net_qty : num)
    (strategy_intents : list exit_intent) : list exit_intent :=
  if bool_decide (mode p = strategy_only) then strategy_intents else
  if is_position_reducing o net_qty then
    (if bool_decide (mode p = engine_only) then [] else strategy_intents) else
  let platform := make_platform_exit_intent o p in
  if bool_decide (mode p = engine_only) then option_list platform else
  if bool_decide (mode p = union_mode) then
    match platform with
    | Some pi =>
        if bool_decide (is_Some (stop_loss pi)) && negb (intents_have_stop_loss strategy_intents)
        then strategy_intents ++ [set_exit_levels (stop_loss pi) None (reference_entry pi) pi]
        else match strategy_intents with [] => [pi] | _ => strategy_intents end
    | None => strategy_intents
    end
  else
    match strategy_intents with
    | [] => option_list platform
    | _ => floor_trail p (floor_target p platform (floor_stop platform strategy_intents))
    end.

(** [engine::register_strategy_exit_intent]: the intents drained from the strategy,
    with the platform's, are registered under the order and the strategy. *)
Definition stamp_intent (order_id : Z) (strategy_name : string) (i : exit_intent) : exit_intent :=
  {| ei_symbol := ei_symbol i; close_side := close_side i; ei_qty := ei_qty i; qty_fraction := qty_fraction i;
     stop_loss := stop_loss i; take_profit := take_profit i; reference_entry := reference_entry i;
     trailing_pct := trailing_pct i; deadline := deadline i; ei_opener_order_id := order_id;
     ei_strategy_name := strategy_name |}.

Definition net_qty_of (symbol : string) (pf : portfolio) : num := default n_zero (qty <$> positions_ pf !! symbol).

Definition register_strategy_exit_intent {MO : MultiOrder} (p : default_exit_params) (strategy_name : string)
    (o : entry_order) (pf : portfolio) (intents : list exit_intent) (m : ExitManager) : ExitManager :=
  if eo_order_id o =? 0 then m else
  foldl (λ m i, register_pending (stamp_intent (eo_order_id o) strategy_name i) m) m
    (apply_default_exit_policy p o (net_qty_of (eo_symbol o) pf) intents).

End Policy.

(** ** Theorems *)

(** The names are read back, and nothing else than the names and their dashed
    spellings is. *)
Lemma mode_names_parse s m : parse_exit_policy_mode s = Some m ↔
  s = exit_policy_mode_name m ∨ (m = strategy_only ∧ s = "strategy-only") ∨ (m = engine_only ∧ s = "engine-only").
Proof.
  unfold parse_exit_policy_mode. split.
  - repeat case_bool_decide; cbn [orb]; intros [= <-]; subst; cbn; tauto.
  - intros [-> |[[-> ->]|[-> ->]]]; [by destruct m|done..].
Qed.

#[local] Existing Instance exact_arith.

Section Protection.
Context {MO : MultiOrder}.

(** The platform's stop for an entry. *)
Definition platform_stop (p : default_exit_params) (o : entry_order) : Q :=
  if bool_decide (eo_side o = side_buy) then (eo_price o * (1 - sl_pct p))%Q else (eo_price o * (1 + sl_pct p))%Q.

Definition closing_side (s : order_side) : order_side := if bool_decide (s = side_buy) then side_sell else side_buy.

Lemma platform_intent p o : (0 < sl_pct p)%Q → (0 < eo_price o)%Q → (0 < eo_quantity o)%Q →
  ∃ i, make_platform_exit_intent o p = Some i ∧ stop_loss i = Some (platform_stop p o) ∧
    close_side i = closing_side (eo_side o) ∧ ei_symbol i = eo_symbol o ∧ qty_fraction i = 1%Q ∧
    reference_entry i = Some (eo_price o) ∧ deadline i = None.
Proof.
  intros Hs Hp Hq. unfold make_platform_exit_intent, platform_has_any_protection, n_zero. tt_exact.
  rewrite (Qltb_lt _ _ Hs), (Qltb_lt _ _ Hp), (Qltb_lt _ _ Hq). cbn [orb negb].
  assert (Qle_bool (sl_pct p) 0 = false) as ->.
  { destruct (Qleb_spec (sl_pct p) 0) as [H|H]; [|done]. by apply Qle_not_lt in H. }
  unfold platform_stop, closing_side, apply_trail, make_long_exit_intent, make_short_exit_intent, n_zero, n_one.
  tt_exact. destruct (bool_decide (eo_side o = side_buy)); cbv beta iota; rewrite (Qltb_lt _ _ Hs);
    destruct (Qltb 0 (trail_pct p)), (Qle_bool (tp_pct p) 0); cbn; eexists; split_and!; done.
Qed.

(** [i'] is [i] with at most levels it lacked put in. *)
Record completes (i i' : exit_intent) : Prop := {
  cp_symbol : ei_symbol i' = ei_symbol i;
  cp_side : close_side i' = close_side i;
  cp_qty : ei_qty i' = ei_qty i ∧ qty_fraction i' = qty_fraction i;
  cp_stop : is_Some (stop_loss i) → stop_loss i' = stop_loss i;
  cp_target : is_Some (take_profit i) → take_profit i' = take_profit i;
  cp_trail : is_Some (trailing_pct i) → trailing_pct i' = trailing_pct i;
  cp_deadline : deadline i' = deadline i }.

Lemma completes_refl i : completes i i.
Proof. by split. Qed.
#[local] Instance completes_trans : Transitive completes.
Proof.
  intros i j k [A1 A2 [A3 A4] A5 A6 A7 A8] [B1 B2 [B3 B4] B5 B6 B7 B8]. split; try congruence; [split; congruence|..].
  - intros H. rewrite B5, A5; try done. by rewrite A5.
  - intros H. rewrite B6, A6; try done. by rewrite A6.
  - intros H. rewrite B7, A7; try done. by rewrite A7.
Qed.

Lemma existsb_false {B} (g : B → bool) l x : existsb g l = false → x ∈ l → g x = false.
Proof.
  induction l as [|y l IH]; [by intros _ H%elem_of_nil|]. cbn. intros [Hy Hl]%orb_false_iff [-> |Hx]%elem_of_cons; [done|by apply IH].
Qed.

(** Each stage of the floor completes the plan, intent by intent. *)
Lemma patch_completes (g : exit_intent → exit_intent) l : (∀ i, i ∈ l → completes i (g i)) → Forall2 completes l (patch_front g l).
Proof.
  intros Hg. assert (∀ k, Forall2 completes k k) as Hr by (intros k; induction k; constructor; [apply completes_refl|done]).
  destruct l as [|i l]; cbn; constructor; [apply Hg; left|apply Hr].
Qed.
Lemma forall2_completes_refl (l : list exit_intent) : Forall2 completes l l.
Proof. induction l; constructor; [apply completes_refl|done]. Qed.

Lemma floor_completes p pf l : Forall2 completes l (floor_trail p (floor_target p pf (floor_stop pf l))).
Proof.
  assert (∀ l, Forall2 completes l (floor_stop pf l)) as H1.
  { intros k. unfold floor_stop. destruct pf as [pi|]; [|apply forall2_completes_refl].
    destruct (intents_have_stop_loss k) eqn:E; cbn [negb andb]; [apply forall2_completes_refl|].
    destruct (bool_decide _); [|apply forall2_completes_refl]. apply patch_completes. intros i Hi. split; try done.
    intros Hs. pose proof (existsb_false _ _ _ E Hi) as Hf. cbn in Hf. by apply bool_decide_eq_false in Hf. }
  assert (∀ l, Forall2 completes l (floor_target p pf l)) as H2.
  { intros k. unfold floor_target. destruct pf as [pi|]; [|apply forall2_completes_refl].
    destruct (intents_have_take_profit k) eqn:E; cbn [negb andb]; [apply forall2_completes_refl|].
    destruct (_ && _); [|apply forall2_completes_refl]. apply patch_completes. intros i Hi. split; try done.
    intros Hs. pose proof (existsb_false _ _ _ E Hi) as Hf. cbn in Hf. by apply bool_decide_eq_false in Hf. }
  assert (∀ l, Forall2 completes l (floor_trail p l)) as H3.
  { intros k. unfold floor_trail. destruct (existsb _ k) eqn:E; [rewrite andb_false_r; apply forall2_completes_refl|].
    destruct (_ && _); [|apply forall2_completes_refl]. apply patch_completes. intros i Hi. split; try done.
    intros Hs. pose proof (existsb_false _ _ _ E Hi) as Hf. cbn in Hf. by apply bool_decide_eq_false in Hf. }
  by etrans; [apply H1|]; etrans; [apply H2|apply H3].
Qed.

Lemma floor_stop_has p o l : l ≠ [] → intents_have_stop_loss l = false →
  (0 < sl_pct p)%Q → (0 < eo_price o)%Q → (0 < eo_quantity o)%Q →
  ∃ i, i ∈ floor_trail p (floor_target p (make_platform_exit_intent o p) (floor_stop (make_platform_exit_intent o p) l)) ∧
    stop_loss i = Some (platform_stop p o).
Proof.
  intros Hl Hn Hs Hp Hq. destruct (platform_intent p o Hs Hp Hq) as (pi & -> & Hstop & _).
  destruct l as [|j l]; [done|]. unfold floor_stop. rewrite Hn. rewrite bool_decide_eq_true_2 by (by rewrite Hstop). cbn [negb andb patch_front].
  unfold floor_target, floor_trail, patch_front.
  match goal with |- context [if ?b then _ :: _ else _] => destruct b end;
    match goal with |- context [if ?b then _ :: _ else _] => destruct b end; eexists; (split; [left|]); cbn; exact Hstop.
Qed.

(** protection.  In exact arithmetic, an entry that does not reduce the position,
    at a positive price and quantity with a positive stop fraction, in every mode
    but strategy-only: the resulting plan has a stop; it has the platform's stop,
    at the fraction on the losing side of the entry, when the strategy gave none
    or is not asked; and unless only the engine decides, every intent of the
    strategy is in the plan with all the levels it set. *)
Theorem policy_protects (p : default_exit_params) (o : entry_order) (net_qty : Q) (l : list exit_intent) :
  mode p ≠ strategy_only → is_position_reducing o net_qty = false →
  (0 < sl_pct p)%Q → (0 < eo_price o)%Q → (0 < eo_quantity o)%Q →
  let plan := apply_default_exit_policy p o net_qty l in
  (∃ i, i ∈ plan ∧ is_Some (stop_loss i)) ∧
  (mode p = engine_only ∨ intents_have_stop_loss l = false → ∃ i, i ∈ plan ∧ stop_loss i = Some (platform_stop p o)) ∧
  (mode p ≠ engine_only → ∀ i, i ∈ l → ∃ i', i' ∈ plan ∧ completes i i').
Proof.
  intros Hm Hr Hs Hp Hq. cbn zeta. unfold apply_default_exit_policy. rewrite bool_decide_eq_false_2 by done. rewrite Hr.
  destruct (platform_intent p o Hs Hp Hq) as (pi & Epi & Hstop & _).
  assert (intents_have_stop_loss l = true → ∃ i, i ∈ l ∧ is_Some (stop_loss i)) as Hhave.
  { intros Hb. apply existsb_exists in Hb as (i & Hi & Hb). apply bool_decide_eq_true in Hb. exists i. by rewrite list_elem_of_In. }
  destruct (mode p) eqn:Em; [|done|..]; cbn [bool_decide decide decide_rel exit_policy_mode_eq_dec].
  - (* floor *)
    repeat rewrite bool_decide_eq_false_2 by done. destruct l as [|j l].
    { rewrite Epi. cbn [option_list]. split_and!; [|intros _|by intros _ i Hi%elem_of_nil]; exists pi; (split; [left|]); [by rewrite Hstop|done]. }
    set (l' := j :: l) in *. pose proof (floor_completes p (make_platform_exit_intent o p) l') as Hc.
    assert (∀ i, i ∈ l' → ∃ i', i' ∈ floor_trail p (floor_target p (make_platform_exit_intent o p) (floor_stop (make_platform_exit_intent o p) l')) ∧ completes i i') as Hin.
    { intros i [k Hk]%list_elem_of_lookup_1. destruct (Forall2_lookup_l _ _ _ _ _ Hc Hk) as (i' & Hk' & Hci).
      exists i'. split; [by eapply list_elem_of_lookup_2|done]. }
    assert (intents_have_stop_loss l' = false → ∃ i, i ∈ floor_trail p (floor_target p (make_platform_exit_intent o p)
      (floor_stop (make_platform_exit_intent o p) l')) ∧ stop_loss i = Some (platform_stop p o)) as Hf by (intros; by apply floor_stop_has).
    split_and!; [|by intros [?|Hf']; [done|apply Hf]|by intros _].
    destruct (intents_have_stop_loss l') eqn:E.
    + destruct (Hhave eq_refl) as (i & Hi & Hsi). destruct (Hin i Hi) as (i' & Hi' & Hci). exists i'. split; [done|].
      by rewrite (cp_stop _ _ Hci).
    + destruct (Hf eq_refl) as (i & Hi & E'). exists i. by rewrite E'.
  - (* engine only *)
    rewrite bool_decide_eq_true_2 by done. rewrite Epi. cbn [option_list].
    split_and!; [|intros _|done]; exists pi; (split; [left|]); [by rewrite Hstop|done].
  - (* union *)
    rewrite bool_decide_eq_false_2, bool_decide_eq_true_2 by done. rewrite Epi.
    rewrite bool_decide_eq_true_2 by (by rewrite Hstop). cbn [andb]. destruct (intents_have_stop_loss l) eqn:E; cbn [negb].
    + destruct (Hhave eq_refl) as (i & Hi & Hsi). destruct l as [|j l]; [done|].
      split_and!; [by exists i|by intros [?|?]|]. intros _ k Hk. exists k. split; [done|apply completes_refl].
    + split_and!; [|intros _|]; [eexists; split; [apply elem_of_app; right; left|]..|]; [by rewrite Hstop|exact Hstop|].
      intros _ i Hi. exists i. split; [apply elem_of_app; by left|apply completes_refl].
Qed.

(** ** From the entry to the stop *)

(** The plan of a strategy that gave none. *)
Lemma plan_alone p o (net : Q) : mode p ≠ strategy_only → is_position_reducing o net = false →
  (0 < sl_pct p)%Q → (0 < eo_price o)%Q → (0 < eo_quantity o)%Q →
  ∃ i, apply_default_exit_policy p o net [] = [i] ∧ stop_loss i = Some (platform_stop p o) ∧
    close_side i = closing_side (eo_side o) ∧ ei_symbol i = eo_symbol o ∧ qty_fraction i = 1%Q ∧
    reference_entry i = Some (eo_price o).
Proof.
  intros Hm Hr Hs Hp Hq. unfold apply_default_exit_policy. rewrite bool_decide_eq_false_2, Hr by done.
  destruct (platform_intent p o Hs Hp Hq) as (i & -> & Hi & H1 & H2 & H3 & H4 & _). cbn [option_list].
  destruct (bool_decide (mode p = engine_only)); [by exists i|]. destruct (bool_decide (mode p = union_mode)); [|by exists i].
  rewrite bool_decide_eq_true_2 by (by rewrite Hi). eexists. split; [done|]. by rewrite Hi.
Qed.

Lemma entries_emplace {B} (k : Z) (l : list (Z * B)) b : entries k l = [] → entries k (emplace l k b) = [(k, b)].
Proof.
  intros E. apply Permutation_singleton_r. unfold entries in *. rewrite (emplace_perm l k b), filter_cons, E. cbn [fst].
  by rewrite decide_True.
Qed.

(** The intents of an opener after its only intent is registered and it fills. *)
Lemma register_fill_entries (i : exit_intent) (f : fill) (m : ExitManager) :
  let id := ei_opener_order_id i in
  id ≠ 0 → f_order_id f = id → entries id (pending_ m) = [] → entries id (armed_ m) = [] →
  opener_remaining_qty_ m !! id = None →
  let m2 := on_fill_with f id (register_pending i m) in
  entries id (armed_ m2) = [(id, arm f i)] ∧ opener_remaining_qty_ m2 !! id = Some (0 + f_quantity f)%Q.
Proof.
  intros id Hid Hf Hp Ha Hr. cbn zeta. unfold on_fill_with. rewrite Hf, Z.eqb_refl, andb_false_r.
  unfold register_pending. replace (ei_opener_order_id i =? 0) with false by (symmetry; by apply Z.eqb_neq).
  set (m1 := set_intents _ _ _). assert (entries id (pending_ m1) = [(id, i)]) as E1 by (by apply entries_emplace).
  pose proof (opener_fill_intents f m1) as Hi. cbn zeta in Hi. rewrite Hf, E1 in Hi. destruct Hi as [_ Ea]. split.
  - rewrite Ea. by apply entries_emplace.
  - unfold on_opener_fill. rewrite Hf, E1. unfold place_bracket. cbn [bracket_adapter_ add_remaining set_remaining set_quantities set_intents].
    assert (∀ m0 : ExitManager, opener_remaining_qty_ (add_remaining id (f_quantity f) m0) !! id =
      Some (default (@n_zero exact_arith) (opener_remaining_qty_ m0 !! id) + f_quantity f)%Q) as Hadd by (intros; apply lookup_insert_eq).
    destruct (bracket_adapter_ m1); cbn [fmap list_fmap]; [destruct (handles_empty _)|];
      (etrans; [apply Hadd|]); cbn [opener_remaining_qty_ set_intents]; change (opener_remaining_qty_ m1) with (opener_remaining_qty_ m);
      by rewrite Hr.
Qed.

(** The stop of an armed entry-relative intent moves with the fill, to [1e-15]. *)
Lemma arm_stop (f : fill) (i : exit_intent) (sl re : Q) : stop_loss i = Some sl → reference_entry i = Some re → (0 < re)%Q →
  ∃ sl', stop_loss (intent (arm f i)) = Some sl' ∧
    (f_price f - re - (1 # 1000000000000000) <= sl' - sl <= f_price f - re + (1 # 1000000000000000))%Q.
Proof.
  intros Hs Hr Hp. unfold arm, shift_levels. cbn [intent set_qty reference_entry]. rewrite Hr. unfold n_zero. tt_exact.
  rewrite (Qltb_lt _ _ Hp). destruct (Qltb_spec (1 # 1000000000000000) (Qabs (f_price f - re))) as [H|H];
    cbn [set_exit_levels stop_loss set_qty]; rewrite Hs; cbn [fmap option_fmap option_map]; eexists; (split; [done|]).
  - lra.
  - tt_abs (f_price f - re)%Q; lra.
Qed.

(** C22: end to end, in exact arithmetic and in every mode but strategy-only.  A
    strategy emits an order that does not reduce its position, without exits of its
    own, with a positive price, quantity and stop fraction and an id that is not zero
    and that the manager does not know.  Once the entry has been registered and
    filled, at whatever price, the next positive price that is beyond the fill by the
    stop fraction of the intended entry and 1e-15 more returns a close of all that
    filled, on the other side, for that opener; and it does so beside any other
    intents. *)
Theorem entry_protected (p : default_exit_params) (name : string) (o : entry_order) (pf : portfolio) (f : fill)
    (m : ExitManager) (px : Q) (ts : time_point) :
  mode p ≠ strategy_only → is_position_reducing o (net_qty_of (eo_symbol o) pf) = false →
  (0 < sl_pct p)%Q → (0 < eo_price o)%Q → (0 < eo_quantity o)%Q →
  eo_order_id o ≠ 0 → entries (eo_order_id o) (pending_ m) = [] → entries (eo_order_id o) (armed_ m) = [] →
  opener_remaining_qty_ m !! eo_order_id o = None →
  f_order_id f = eo_order_id o → (0 < f_quantity f)%Q → (0 < px)%Q →
  (if bool_decide (eo_side o = side_buy) then px <= f_price f - eo_price o * sl_pct p - (1 # 1000000000000000)
   else f_price f + eo_price o * sl_pct p + (1 # 1000000000000000) <= px)%Q →
  ∃ c, c ∈ (on_price (eo_symbol o) px ts
              (on_fill_with f (eo_order_id o) (register_strategy_exit_intent p name o pf [] m))).1 ∧
    co_opener_order_id c = eo_order_id o ∧ co_side c = closing_side (eo_side o) ∧ co_price c = px ∧
    (co_quantity c == f_quantity f)%Q.
Proof.
  intros Hm Hr Hs Hp Hq Hid Hpe Ha Hrem Hf Hfq Hpx Hbeyond.
  destruct (plan_alone p o _ Hm Hr Hs Hp Hq) as (i & Epl & Hstop & Hside & Hsym & Hfr & Href).
  unfold register_strategy_exit_intent. apply Z.eqb_neq in Hid as Hid'. rewrite Hid', Epl. cbn [foldl].
  set (si := stamp_intent (eo_order_id o) name i).
  destruct (register_fill_entries si f m) as [Ee Er]; [done..|]. cbn [si stamp_intent ei_opener_order_id] in Ee, Er. fold si in Ee, Er.
  set (m2 := on_fill_with _ _ _) in *. destruct (arm_stop f si (platform_stop p o) (eo_price o)) as (sl & Esl & Hsl); [done..|].
  assert (close_side (intent (arm f si)) = closing_side (eo_side o) ∧ ei_symbol (intent (arm f si)) = eo_symbol o) as [Hside' Hsym'].
  { unfold arm, shift_levels. cbn [intent set_qty reference_entry si stamp_intent]. rewrite Href. tt_cases; cbn; by rewrite ?Hside, ?Hsym. }
  destruct (arm_same f si) as [Eq _]. assert (clamp_fraction (qty_fraction si) = 1%Q) as Ecl by (cbn; by rewrite Hfr).
  assert ((consume_opener_qty (eo_order_id o) (ei_qty (intent (arm f si))) m2).1 == f_quantity f)%Q as Ec.
  { rewrite (consume_some (A := exact_arith) _ _ _ _ Er), Eq, Ecl. unfold n_min, n_zero. tt_exact.
    rewrite (Qltb_lt 0 (f_quantity f * 1)) by lra. tt_compare; lra. }
  destruct (on_price_fires (A := exact_arith) (eo_symbol o) px ts m2 (eo_order_id o) (arm f si)) as (c & Hc & C1 & C2 & C3 & C4);
    [by apply Qltb_lt|done|done|..].
  - left. pose proof (la_stop _ _ (roll_later (is_short (intent (arm f si))) px (arm f si))) as Ht.
    unfold tighter in Ht. rewrite Esl in Ht. unfold sl_hit, rolled.
    destruct (roll_same (A := exact_arith) (is_short (intent (arm f si))) px (arm f si)) as (_ & Rs & _).
    destruct (stop_loss (intent (roll _ _ _))) as [sl'|]; [|done]. unfold is_long, is_short in *. rewrite Rs. rewrite Hside' in *.
    unfold closing_side, platform_stop in *. destruct (bool_decide (eo_side o = side_buy)); cbn [bool_decide decide decide_rel] in *; tt_exact.
    + apply Qle_bool_iff. rewrite bool_decide_eq_true_2 in Ht by done. lra.
    + rewrite bool_decide_eq_false_2, bool_decide_eq_true_2 by done. apply Qle_bool_iff.
      rewrite bool_decide_eq_false_2 in Ht by done. lra.
  - apply Qltb_lt. unfold n_zero. cbn [n_lit exact_arith]. rewrite Ec. done.
  - exists c. split; [done|]. split_and!; [done|by rewrite C3|done|by rewrite C4].
Qed.

End Protection.

(** ** A concrete entry *)

Definition sample_params : default_exit_params :=
  {| mode := mode_floor; sl_pct := (1 # 100)%Q; tp_pct := (2 # 100)%Q; trail_pct := 0%Q |}.
Definition sample_entry : entry_order :=
  {| eo_order_id := 42; eo_opener_order_id := 0; eo_symbol := "X"; eo_side := side_buy; eo_price := 100%Q; eo_quantity := 10%Q |}.

Lemma policy_protects_witness :
  let plan := apply_default_exit_policy sample_params sample_entry 0%Q [sample_intent 1 None (Some 120)%Q] in
  (∃ i, i ∈ plan ∧ is_Some (stop_loss i)) ∧ (∃ i, i ∈ plan ∧ stop_loss i = Some (platform_stop sample_params sample_entry)).
Proof.
  cbn zeta. destruct (policy_protects sample_params sample_entry 0%Q [sample_intent 1 None (Some 120)%Q]) as (H1 & H2 & _);
    [done|by vm_compute..|]. split; [exact H1|]. apply H2. right. by vm_compute.
Defined.

(** Bought at 101 instead of 100, stopped at 100. *)
Lemma entry_protected_witness :
  ∃ c, c ∈ (on_price "X" (9999 # 100)%Q 1
              (on_fill_with (sample_fill 42 side_buy 7%Q 101%Q) 42
                 (register_strategy_exit_intent sample_params "s" sample_entry (@mk_portfolio exact_arith 1000%Q) [] mk_ExitManager))).1 ∧
    co_opener_order_id c = 42 ∧ co_side c = side_sell ∧ co_price c = (9999 # 100)%Q ∧ (co_quantity c == 7)%Q.
Proof.
  apply (entry_protected sample_params "s" sample_entry (@mk_portfolio exact_arith 1000%Q) (sample_fill 42 side_buy 7%Q 101%Q) mk_ExitManager
    (9999 # 100)%Q 1); [done|by vm_compute..].
Defined.
