(* ===== verification/Symbols.v ===== *)
(** * Symbols and their books (class SymbolTable of src/src/types/symbol_table.h and
    class OrderbookRegistry of src/src/orderbook/orderbook_registry.h)

    Symbols are interned to dense 16-bit ids; the registry keeps one shared book per
    symbol in a vector indexed by id.  Books live in a store of objects and the
    registry holds their addresses. *)

From S2P Require Import Prelude NodeHeap OrderBook BookSpec BookRefine BookMatch BookTheorems.

Open Scope string_scope.
Open Scope list_scope.
Open Scope Z_scope.

(** ** Interning *)

Definition kInvalidId : Z := 65535.
Definition kMaxSymbols : Z := 256.

Record SymbolTable := { symbols_ : list string; index_ : gmap string Z }.
Definition mk_SymbolTable : SymbolTable := {| symbols_ := []; index_ := ∅ |}.

Definition intern_id (sym : string) (t : SymbolTable) : exc Z * SymbolTable :=
  match index_ t !! sym with
  | Some id => (Ret id, t)
  | None =>
      if kMaxSymbols <=? Z.of_nat (length (symbols_ t)) then (Throw "symbol table full", t) else
      let id := u16 (Z.of_nat (length (symbols_ t))) in
      (Ret id, {| symbols_ := symbols_ t ++ [sym]; index_ := <[sym := id]> (index_ t) |})
  end.
(** [symbols_[id]] *)
Definition resolve (id : Z) (t : SymbolTable) : exc string :=
  match symbols_ t !! Z.to_nat id with Some s => Ret s | None => Throw "vector::_M_range_check" end.
Definition intern (sym : string) (t : SymbolTable) : exc string * SymbolTable :=
  match intern_id sym t with
  | (Ret id, t') => (resolve id t', t')
  | (Throw w, t') => (Throw w, t')
  end.
Definition id_of (sym : string) (t : SymbolTable) : Z := default kInvalidId (index_ t !! sym).
Definition symbol_count (t : SymbolTable) : nat := length (symbols_ t).
Definition clear_symbols (t : SymbolTable) : SymbolTable := mk_SymbolTable.

(** Every symbol is indexed by its position. *)
Record table_ok (t : SymbolTable) : Prop := {
  tk_index : ∀ s id, index_ t !! s = Some id ↔ 0 <= id ∧ symbols_ t !! Z.to_nat id = Some s;
  tk_size : Z.of_nat (length (symbols_ t)) <= kMaxSymbols }.

Lemma table_ok_new : table_ok mk_SymbolTable.
Proof. split; [|done]. intros s id. cbn [mk_SymbolTable index_ symbols_]. rewrite lookup_empty, lookup_nil. split; [done|by intros [_ ?]]. Qed.

Lemma intern_id_ok sym t : table_ok t →
  let '(r, t') := intern_id sym t in
  table_ok t' ∧ (length (symbols_ t) <= length (symbols_ t'))%nat ∧
  match r with
  | Ret id => index_ t' !! sym = Some id ∧ (∀ s, s ≠ sym → index_ t' !! s = index_ t !! s) ∧
      (index_ t !! sym = Some id ∨ index_ t !! sym = None ∧ id = Z.of_nat (length (symbols_ t)))
  | Throw _ => t' = t ∧ index_ t !! sym = None ∧ Z.of_nat (length (symbols_ t)) = kMaxSymbols
  end.
Proof.
  intros [Hi Hs]. unfold intern_id. destruct (index_ t !! sym) as [id|] eqn:E; [split_and!; try done; by left|].
  destruct (Z.leb_spec kMaxSymbols (Z.of_nat (length (symbols_ t)))) as [Hfull|Hlt]; [split_and!; [by split|done|done|done|lia]|].
  assert (u16 (Z.of_nat (length (symbols_ t))) = Z.of_nat (length (symbols_ t))) as Eu.
  { apply wrapu_id. unfold in_u, kMaxSymbols in *. lia. }
  rewrite Eu. cbn [index_ symbols_]. split_and!.
  - split; cbn [index_ symbols_]; [|rewrite length_app; cbn; lia]. intros s id. rewrite lookup_insert_Some, Hi. split.
    + intros [[<- <-]|[Hne [H0 Hl]]].
      * split; [lia|]. rewrite Nat2Z.id, lookup_app_r, Nat.sub_diag by lia. done.
      * split; [done|]. by apply lookup_app_l_Some.
    + intros [H0 Hl]. destruct (decide (s = sym)) as [->|Hne].
      * left. split; [done|]. apply lookup_app_Some in Hl as [Hl|[Hge Hl]].
        -- exfalso. assert (index_ t !! sym = Some id) by (by apply Hi). congruence.
        -- apply list_lookup_singleton_Some in Hl as [Hz _]. lia.
      * right. split; [done|]. split; [done|]. apply lookup_app_Some in Hl as [Hl|[Hge Hl]]; [done|].
        apply list_lookup_singleton_Some in Hl as [_ ->]. done.
  - rewrite length_app. lia.
  - apply lookup_insert_eq.
  - intros s Hne. by rewrite lookup_insert_ne.
  - by right.
Qed.

(** Interning is a round trip: from any consistent table, an interned symbol has an
    id below the table's size that resolves to it and that looks it up again, no other
    symbol's id changes, interning it again changes nothing, and only a new symbol on a
    table of 256 fails, leaving the table as it was. *)
Theorem intern_roundtrip sym t : table_ok t →
  let '(r, t') := intern_id sym t in
  table_ok t' ∧
  match r with
  | Ret id => resolve id t' = Ret sym ∧ id_of sym t' = id ∧ 0 <= id < Z.of_nat (symbol_count t') ∧
      intern_id sym t' = (Ret id, t') ∧ ∀ s, s ≠ sym → id_of s t' = id_of s t
  | Throw _ => t' = t ∧ id_of sym t = kInvalidId ∧ symbol_count t = 256%nat
  end.
Proof.
  intros Hok. pose proof (intern_id_ok sym t Hok) as H. destruct (intern_id sym t) as [[id|w] t'] eqn:E.
  - destruct H as (Hok' & _ & Hl & Hoth & _). split; [done|]. destruct (proj1 (tk_index _ Hok' sym id) Hl) as [H0 Hr].
    unfold resolve, id_of, symbol_count, intern_id. rewrite Hr, Hl. pose proof (lookup_lt_Some _ _ _ Hr). split_and!; try done; [lia|].
    intros s Hs. by rewrite Hoth.
  - destruct H as (Hok' & _ & -> & Hn & Hfull). split; [done|]. unfold id_of, symbol_count, kMaxSymbols in *. rewrite Hn. split_and!; [done|done|lia].
Qed.

(** ** The registry *)

Section Registry.
Context {P : Type} `{OrderPool P}.
(** A new book's pool, and the iteration order of a book's map. *)
Context (p0 : P) (iterate : gmap Z Z → list (Z * Z)).

Record store := { st_books : gmap Z (orderbook P); st_next : Z }.
Record OrderbookRegistry := {
  rg_symbols : SymbolTable;
  rg_books : list (option Z);
  rg_cb_pool : option Z;
  rg_order_blocks : Z;
  rg_forbid : bool }.
Definition mk_registry : OrderbookRegistry :=
  {| rg_symbols := mk_SymbolTable; rg_books := []; rg_cb_pool := None; rg_order_blocks := 0; rg_forbid := false |}.

Definition update_book (f : orderbook P → orderbook P) (m : store) (a : option Z) : store :=
  match a with
  | Some a => {| st_books := alter f a (st_books m); st_next := st_next m |}
  | None => m
  end.

Definition set_order_pool_config (cb : option Z) (min_blocks : Z) (forbid : bool) (r : OrderbookRegistry) (m : store)
    : OrderbookRegistry * store :=
  ({| rg_symbols := rg_symbols r; rg_books := rg_books r; rg_cb_pool := cb; rg_order_blocks := min_blocks; rg_forbid := forbid |},
   foldl (update_book (configure_order_pool cb min_blocks forbid)) m (rg_books r)).

(** [books_.resize(need)] *)
Definition ensure_slot (id : Z) (books : list (option Z)) : list (option Z) :=
  let need := S (Z.to_nat id) in
  if (length books <? need)%nat then books ++ replicate (need - length books) None else books.

Definition get_or_create (symbol : string) (r : OrderbookRegistry) (m : store) : exc Z * OrderbookRegistry * store :=
  match intern_id symbol (rg_symbols r) with
  | (Throw w, t) =>
      (Throw w, {| rg_symbols := t; rg_books := rg_books r; rg_cb_pool := rg_cb_pool r; rg_order_blocks := rg_order_blocks r;
                   rg_forbid := rg_forbid r |}, m)
  | (Ret id, t) =>
      let books := ensure_slot id (rg_books r) in
      match books !! Z.to_nat id with
      | Some (Some a) =>
          (Ret a, {| rg_symbols := t; rg_books := books; rg_cb_pool := rg_cb_pool r; rg_order_blocks := rg_order_blocks r;
                     rg_forbid := rg_forbid r |}, m)
      | _ =>
          let a := st_next m in
          let ob := mk_orderbook p0 in
          let ob := if 0 <? rg_order_blocks r then configure_order_pool (rg_cb_pool r) (rg_order_blocks r) (rg_forbid r) ob else ob in
          (Ret a, {| rg_symbols := t; rg_books := <[Z.to_nat id := Some a]> books; rg_cb_pool := rg_cb_pool r;
                     rg_order_blocks := rg_order_blocks r; rg_forbid := rg_forbid r |},
           {| st_books := <[a := ob]> (st_books m); st_next := a + 1 |})
      end
  end.

Definition get (symbol : string) (r : OrderbookRegistry) : option Z :=
  let id := id_of symbol (rg_symbols r) in
  if (id =? kInvalidId) || (Z.of_nat (length (rg_books r)) <=? id) then None else mjoin (rg_books r !! Z.to_nat id).

Definition registry_symbols (r : OrderbookRegistry) : exc (list string) :=
  foldr (λ '(i, b) acc, match b with
                        | Some _ => s ← resolve (u16 (Z.of_nat i)) (rg_symbols r); l ← acc; Ret (s :: l)
                        | None => acc end)
        (Ret []) (imap pair (rg_books r)).
Definition registry_size (r : OrderbookRegistry) : nat := length (omap id (rg_books r)).

Fixpoint clear_books (books : list (option Z)) (m : store) : exc store :=
  match books with
  | [] => Ret m
  | None :: books => clear_books books m
  | Some a :: books =>
      match st_books m !! a with
      | Some ob => ob' ← clear iterate ob; clear_books books {| st_books := <[a := ob']> (st_books m); st_next := st_next m |}
      | None => clear_books books m
      end
  end.
Definition registry_clear (r : OrderbookRegistry) (m : store) : exc (OrderbookRegistry * store) :=
  m' ← clear_books (rg_books r) m;
  Ret ({| rg_symbols := clear_symbols (rg_symbols r); rg_books := []; rg_cb_pool := rg_cb_pool r;
          rg_order_blocks := rg_order_blocks r; rg_forbid := rg_forbid r |}, m').

(** ** One book per symbol *)

Record registry_ok (r : OrderbookRegistry) (m : store) : Prop := {
  rk_table : table_ok (rg_symbols r);
  rk_size : (length (rg_books r) <= length (symbols_ (rg_symbols r)))%nat;
  rk_live : ∀ i a, rg_books r !! i = Some (Some a) → a < st_next m ∧ is_Some (st_books m !! a);
  rk_distinct : ∀ i j a, rg_books r !! i = Some (Some a) → rg_books r !! j = Some (Some a) → i = j }.

Lemma ensure_slot_lookup id books i : ensure_slot id books !! i =
  match books !! i with Some x => Some x | None => if (i <=? Z.to_nat id)%nat then Some None else None end.
Proof.
  unfold ensure_slot. destruct (Nat.ltb_spec (length books) (S (Z.to_nat id))) as [Hlt|Hge].
  - destruct (books !! i) as [x|] eqn:E; [by apply lookup_app_l_Some|]. apply lookup_ge_None in E. rewrite lookup_app_r by done.
    destruct (Nat.leb_spec i (Z.to_nat id)); [apply lookup_replicate_2; lia|apply lookup_replicate_None; lia].
  - destruct (books !! i) as [x|] eqn:E; [done|]. apply lookup_ge_None in E. destruct (Nat.leb_spec i (Z.to_nat id)); [lia|done].
Qed.

Lemma get_spec symbol r m : registry_ok r m → get symbol r =
  match index_ (rg_symbols r) !! symbol with Some id => mjoin (rg_books r !! Z.to_nat id) | None => None end.
Proof.
  intros [[Hi Hs] Hlen _ _]. unfold get, id_of. destruct (index_ (rg_symbols r) !! symbol) as [id|] eqn:E; [|done].
  cbn [default from_option Datatypes.id]. destruct (proj1 (Hi symbol id) E) as [H0 Hl]. pose proof (lookup_lt_Some _ _ _ Hl) as Hlt.
  unfold kInvalidId, kMaxSymbols in *. destruct (Z.eqb_spec id 65535) as [->|_]; [lia|]. cbn [orb].
  destruct (Z.leb_spec (Z.of_nat (length (rg_books r))) id); [|done]. rewrite lookup_ge_None_2 by lia. done.
Qed.

Lemma update_books_ok f bs : ∀ m, st_next (foldl (update_book f) m bs) = st_next m ∧
  ∀ a, is_Some (st_books (foldl (update_book f) m bs) !! a) ↔ is_Some (st_books m !! a).
Proof.
  induction bs as [|b bs IH]; intros m; [done|]. cbn [foldl]. destruct (IH (update_book f m b)) as [E1 E2]. rewrite E1. split.
  - by destruct b.
  - intros a. rewrite E2. destruct b as [k|]; [|done]. cbn [update_book st_books]. by rewrite lookup_alter_is_Some.
Qed.

Lemma clear_books_ok bs : ∀ m m', clear_books bs m = Ret m' → st_next m' = st_next m ∧
  ∀ a, is_Some (st_books m !! a) → is_Some (st_books m' !! a).
Proof.
  induction bs as [|[k|] bs IH]; intros m m' E; cbn [clear_books] in E; [by injection E as <-| |by apply IH].
  destruct (st_books m !! k) as [ob|] eqn:Ek; [|by apply IH]. destruct (clear iterate ob) as [ob'|w]; [|done].
  change (clear_books bs {| st_books := <[k:=ob']> (st_books m); st_next := st_next m |} = Ret m') in E. destruct (IH _ _ E) as [E1 E2].
  split; [done|]. intros a Ha. apply E2. cbn [st_books]. destruct (decide (k = a)) as [->|]; [rewrite lookup_insert_eq; by eexists|by rewrite lookup_insert_ne].
Qed.

(** What a registry operation may do. *)
Inductive registry_step : OrderbookRegistry * store → OrderbookRegistry * store → Prop :=
  | rs_config cb n f r m : registry_step (r, m) (set_order_pool_config cb n f r m)
  | rs_get s r m res r' m' : get_or_create s r m = (res, r', m') → registry_step (r, m) (r', m')
  | rs_clear r m r' m' : registry_clear r m = Ret (r', m') → registry_step (r, m) (r', m')
  (** A client works on a book, or some other object is created. *)
  | rs_book f a r m : registry_step (r, m) (r, {| st_books := alter f a (st_books m); st_next := st_next m |})
  | rs_other ob r m : registry_step (r, m) (r, {| st_books := <[st_next m := ob]> (st_books m); st_next := st_next m + 1 |}).

Lemma get_or_create_ok s r m res r' m' : registry_ok r m → get_or_create s r m = (res, r', m') →
  registry_ok r' m' ∧ (∀ k, k ≠ s → get k r' = get k r) ∧
  match res with
  | Ret a => get s r' = Some a ∧ (get s r = Some a ∨ get s r = None ∧ a = st_next m)
  | Throw _ => r' = r ∧ m' = m ∧ get s r = None
  end.
Proof.
  intros Hok E. pose proof Hok as [Ht Hlen Hlive Hdist]. unfold get_or_create in E. pose proof (intern_id_ok s (rg_symbols r) Ht) as Hi.
  destruct (intern_id s (rg_symbols r)) as [[id|w] t].
  2: { destruct Hi as (_ & _ & -> & Hn & _). injection E as <- <- <-. assert (r = {| rg_symbols := rg_symbols r; rg_books := rg_books r;
      rg_cb_pool := rg_cb_pool r; rg_order_blocks := rg_order_blocks r; rg_forbid := rg_forbid r |}) as Er by (by destruct r). rewrite <- Er.
    split_and!; try done. by rewrite (get_spec s r m Hok), Hn. }
  destruct Hi as (Ht' & Hgrow & Hid & Hoth & Hor). destruct (proj1 (tk_index _ Ht' s id) Hid) as [H0 Hsid]. pose proof (lookup_lt_Some _ _ _ Hsid) as Hlt.
  set (books := ensure_slot id (rg_books r)) in E. pose proof (ensure_slot_lookup id (rg_books r)) as Hsl. fold books in Hsl.
  assert (∀ i a, books !! i = Some (Some a) → rg_books r !! i = Some (Some a)) as Hin.
  { intros i a. rewrite Hsl. destruct (rg_books r !! i); [done|]. by destruct (i <=? _)%nat. }
  assert (length books <= length (symbols_ t))%nat as Hlb.
  { unfold books, ensure_slot. destruct (_ <? _)%nat eqn:El; [|lia]. apply Nat.ltb_lt in El. rewrite length_app, length_replicate. lia. }
  assert (∀ i, mjoin (books !! i) = mjoin (rg_books r !! i)) as Hj.
  { intros i. rewrite Hsl. destruct (rg_books r !! i); [done|]. by destruct (i <=? _)%nat. }
  assert (get s r = mjoin (rg_books r !! Z.to_nat id)) as Hgs.
  { rewrite (get_spec s r m Hok). destruct Hor as [-> |[-> ->]]; [done|]. by rewrite Nat2Z.id, lookup_ge_None_2. }
  assert (∀ k books', registry_ok {| rg_symbols := t; rg_books := books'; rg_cb_pool := rg_cb_pool r; rg_order_blocks := rg_order_blocks r;
      rg_forbid := rg_forbid r |} m' → k ≠ s → (∀ i, i ≠ Z.to_nat id → mjoin (books' !! i) = mjoin (rg_books r !! i)) →
    get k {| rg_symbols := t; rg_books := books'; rg_cb_pool := rg_cb_pool r; rg_order_blocks := rg_order_blocks r;
      rg_forbid := rg_forbid r |} = get k r) as Hget.
  { intros k books' Hok' Hk Hb. rewrite (get_spec k _ _ Hok'), (get_spec k r m Hok). cbn [rg_symbols rg_books]. rewrite Hoth by done.
    destruct (index_ (rg_symbols r) !! k) as [idk|] eqn:Ek; [|done]. apply Hb. intros Eid. apply Hk.
    assert (index_ t !! k = Some idk) as Ek' by (by rewrite Hoth). destruct (proj1 (tk_index _ Ht' k idk) Ek') as [Hk0 Hkl].
    rewrite Eid in Hkl. congruence. }
  destruct (books !! Z.to_nat id) as [[a|]|] eqn:Eb.
  - injection E as <- <- <-. assert (registry_ok {| rg_symbols := t; rg_books := books; rg_cb_pool := rg_cb_pool r;
      rg_order_blocks := rg_order_blocks r; rg_forbid := rg_forbid r |} m) as Hok'.
    { split; cbn [rg_symbols rg_books]; [done|done|intros i b Hb; by eapply Hlive, Hin|intros i j b Hb1 Hb2; eapply Hdist; by apply Hin]. }
    split_and!; [done|intros k Hk; apply Hget; [done..|intros i _; apply Hj]| |left; by rewrite Hgs, <- Hj, Eb].
    rewrite (get_spec s _ _ Hok'). cbn [rg_symbols rg_books]. by rewrite Hid, Eb.
  - injection E as <- <- <-. assert (Z.to_nat id < length books)%nat as Hlt' by (by eapply lookup_lt_Some).
    set (books' := <[Z.to_nat id := Some (st_next m)]> books) in *.
    assert (∀ i a, books' !! i = Some (Some a) → i = Z.to_nat id ∧ a = st_next m ∨ i ≠ Z.to_nat id ∧ rg_books r !! i = Some (Some a)) as Hb'.
    { intros i a. unfold books'. rewrite list_lookup_insert_Some. intros [(<- & [= <-] & _)|[Hne Hl]]; [by left|right; split; [done|by apply Hin]]. }
    match goal with |- registry_ok ?x ?y ∧ _ => assert (registry_ok x y) as Hok' end.
    { split; cbn [rg_symbols rg_books st_next st_books]; [done|unfold books'; by rewrite length_insert| |].
      - intros i a Hi. destruct (Hb' i a Hi) as [[-> ->]|[_ Hr]]; [split; [lia|rewrite lookup_insert_eq; by eexists]|].
        destruct (Hlive i a Hr) as [Ha Hs]. split; [lia|]. rewrite lookup_insert_ne by lia. done.
      - intros i j a Hi Hj2. destruct (Hb' i a Hi) as [[-> Ea]|[_ Hr]], (Hb' j a Hj2) as [[-> Ea2]|[_ Hr2]]; try done.
        + destruct (Hlive j _ Hr2). lia.
        + destruct (Hlive i _ Hr). lia.
        + by eapply Hdist. }
    split_and!; [done| | |].
    + intros k Hk. apply Hget; [done|done|]. intros i Hi. unfold books'. rewrite list_lookup_insert_ne by done. apply Hj.
    + rewrite (get_spec s _ _ Hok'). cbn [rg_symbols rg_books]. rewrite Hid. unfold books'. rewrite list_lookup_insert_eq by done. done.
    + right. split; [|done]. by rewrite Hgs, <- Hj, Eb.
  - exfalso. rewrite Hsl in Eb. destruct (rg_books r !! Z.to_nat id); [done|]. by rewrite Nat.leb_refl in Eb.
Qed.

Lemma registry_step_ok r m r' m' : registry_step (r, m) (r', m') → registry_ok r m → registry_ok r' m'.
Proof.
  intros Hs Hok. inversion Hs as [cb n f r0 m0|s r0 m0 res r1 m1 E|r0 m0 r1 m1 E|f a r0 m0|ob r0 m0]; subst.
  - destruct Hok as [H1 H2 H3 H4]. destruct (update_books_ok (configure_order_pool cb n f) (rg_books r) m) as [E1 E2].
    split; cbn [rg_symbols rg_books]; [done|done| |done]. intros i a Hi. rewrite E1, E2. by eapply H3.
  - by eapply get_or_create_ok.
  - unfold registry_clear in E. destruct (clear_books (rg_books r) m) as [m1|w] eqn:Ec; [|done]. tt_bind. cbn in E. injection E as <- <-.
    split; cbn [rg_symbols rg_books clear_symbols]; [apply table_ok_new|cbn; lia|intros i a Hi; by rewrite lookup_nil in Hi|intros i j a Hi; by rewrite lookup_nil in Hi].
  - destruct Hok as [H1 H2 H3 H4]. split; try done. intros i b Hi. cbn [st_next st_books]. rewrite lookup_alter_is_Some. by eapply H3.
  - destruct Hok as [H1 H2 H3 H4]. split; try done. intros i b Hi. destruct (H3 i b Hi) as [Hb Hs']. cbn [st_next st_books].
    split; [lia|]. by rewrite lookup_insert_ne by lia.
Qed.

(** One book per symbol.  Over any sequence of registry operations and of work on the
    books and other objects: no two symbols share a book; asking for a symbol's book
    returns the one it has, or a new one no symbol has had, that a lookup then finds; and
    it changes no other symbol's book. *)
Theorem registry_books_exclusive m0 r m :
  rtc registry_step (mk_registry, m0) (r, m) →
  (∀ s1 s2 a, get s1 r = Some a → get s2 r = Some a → s1 = s2) ∧
  ∀ s a r' m', get_or_create s r m = (Ret a, r', m') →
    get s r' = Some a ∧ (get s r = Some a ∨ get s r = None ∧ ∀ k, get k r ≠ Some a) ∧ ∀ k, k ≠ s → get k r' = get k r.
Proof.
  intros Hrun. assert (registry_ok r m) as Hok.
  { remember (mk_registry, m0) as w0 eqn:E0. remember (r, m) as w eqn:E. assert (registry_ok w0.1 w0.2) as H0.
    - subst w0. split; cbn; [apply table_ok_new|lia|intros i a Hi; by rewrite lookup_nil in Hi|intros i j a Hi; by rewrite lookup_nil in Hi].
    - clear E0. revert H0 E. induction Hrun as [w|[r1 m1] [r2 m2] w3 Hs _ IH]; intros H0 E; [by subst w|].
      apply IH; [|done]. by eapply registry_step_ok. }
  assert (∀ k a, get k r = Some a → ∃ id, index_ (rg_symbols r) !! k = Some id ∧ rg_books r !! Z.to_nat id = Some (Some a)) as Hg.
  { intros k a. rewrite (get_spec k r m Hok). destruct (index_ (rg_symbols r) !! k) as [id|]; [|done]. intros E. exists id. split; [done|].
    destruct (rg_books r !! Z.to_nat id) as [x|]; [|done]. cbn in E. by rewrite E. }
  split.
  - intros s1 s2 a (id1 & E1 & B1)%Hg (id2 & E2 & B2)%Hg. pose proof (rk_distinct _ _ Hok _ _ _ B1 B2) as Eid.
    pose proof (rk_table _ _ Hok) as Ht. destruct (proj1 (tk_index _ Ht s1 id1) E1) as [_ L1], (proj1 (tk_index _ Ht s2 id2) E2) as [_ L2].
    rewrite Eid in L1. congruence.
  - intros s a r' m' E. destruct (get_or_create_ok s r m _ _ _ Hok E) as (_ & Hoth & Hs & Hor). split_and!; [done| |done].
    destruct Hor as [|[Hn ->]]; [by left|]. right. split; [done|]. intros k (id & _ & B)%Hg. destruct (rk_live _ _ Hok _ _ B). lia.
Qed.

End Registry.

(** ** Witnesses *)

Lemma intern_roundtrip_witness : table_ok mk_SymbolTable ∧ resolve 0 (intern_id "BTC" mk_SymbolTable).2 = Ret "BTC".
Proof. split; [apply table_ok_new|]. exact (proj1 (proj2 (intern_roundtrip "BTC" mk_SymbolTable table_ok_new))). Defined.

Definition empty_store : store (P := counted_pool) := {| st_books := ∅; st_next := 1 |}.
Definition two_books : OrderbookRegistry * store (P := counted_pool) :=
  let p0 := {| cp_limit := 4; cp_used := 0 |} in
  let '(_, r, m) := get_or_create p0 "BTC" mk_registry empty_store in
  let '(_, r, m) := get_or_create p0 "ETH" r m in (r, m).

Lemma registry_books_exclusive_witness :
  get "BTC" two_books.1 = Some 1 ∧ get "ETH" two_books.1 = Some 2 ∧ ("BTC" = "ETH" → False) ∧
  ∀ s1 s2 a, get s1 two_books.1 = Some a → get s2 two_books.1 = Some a → s1 = s2.
Proof.
  split_and!; [vm_compute; reflexivity..|done|].
  apply (registry_books_exclusive {| cp_limit := 4; cp_used := 0 |} map_to_list empty_store two_books.1 two_books.2).
  eapply rtc_l; [eapply (rs_get _ _ "BTC"); reflexivity|]. eapply rtc_l; [eapply (rs_get _ _ "ETH"); reflexivity|]. apply rtc_refl.
Defined.
