(* ===== verification/ClientOrderId.v ===== *)
(** * Client order ids (class ClientOrderIdMinter of
    src/src/execution/client_order_id.h) and order states (class OrderTracker of
    order_tracker.h)

    An id is the run's prefix, the start time, the seed and a counter in
    hexadecimal, printed into fixed buffers. *)

From Stdlib Require Import Ascii.
From S2P Require Import Prelude Float64 Event Arith Portfolio.

Open Scope string_scope.
Open Scope list_scope.
Open Scope Z_scope.

(** ** Printing *)

(** [std::string::c_str]: what a C string function sees of it. *)
Fixpoint c_str (s : string) : string :=
  match s with
  | EmptyString => EmptyString
  | String c s => if bool_decide (c = zero) then EmptyString else String c (c_str s)
  end.

(** [snprintf] into a buffer of [size] bytes keeps [size - 1] characters. *)
Fixpoint stake (n : nat) (s : string) : string :=
  match n, s with S n, String c s => String c (stake n s) | _, _ => EmptyString end.
Definition snprintf (size : nat) (s : string) : string := stake (size - 1) s.

Definition hex_digit (d : Z) : ascii :=
  if d <? 10 then ascii_of_nat (48 + Z.to_nat d) else ascii_of_nat (87 + Z.to_nat d).

(** [%llx]; sixteen digits are enough for 64 bits. *)
Fixpoint hex_digits (fuel : nat) (n : Z) (acc : string) : string :=
  match fuel with
  | O => acc
  | S fuel =>
      let acc := String (hex_digit (n mod 16)) acc in
      if n / 16 =? 0 then acc else hex_digits fuel (n / 16) acc
  end.
Definition llx (n : Z) : string := hex_digits 16 n EmptyString.

(** ** The minter *)

Record ClientOrderIdMinter := { prefix_ : string; seq_ : Z }.

Definition mk_minter (run_prefix : string) (seed epoch_ms : Z) : ClientOrderIdMinter :=
  {| prefix_ := snprintf 32 (c_str run_prefix +:+ "-" +:+ llx (u64 epoch_ms) +:+ "-" +:+ llx seed +:+ "-"); seq_ := 0 |}.

Definition minter_next (m : ClientOrderIdMinter) : string * ClientOrderIdMinter :=
  let n := u64 (seq_ m + 1) in
  (snprintf 48 (c_str (prefix_ m) +:+ llx n), {| prefix_ := prefix_ m; seq_ := n |}).

(** The ids of [k] calls. *)
Fixpoint mint (k : nat) (m : ClientOrderIdMinter) : list string :=
  match k with O => [] | S k => (minter_next m).1 :: mint k (minter_next m).2 end.

(** [std::toupper] in the C locale *)
Definition to_upper (c : ascii) : ascii :=
  let n := nat_of_ascii c in if ((97 <=? n) && (n <=? 122))%nat then ascii_of_nat (n - 32) else c.
Fixpoint upper (s : string) : string :=
  match s with EmptyString => EmptyString | String c s => String (to_upper c) (upper s) end.

Fixpoint starts_with (p s : string) : bool :=
  match p, s with
  | EmptyString, _ => true
  | String a p, String b s => bool_decide (a = b) && starts_with p s
  | _, EmptyString => false
  end.
(** [find(kw) != npos] *)
Fixpoint contains (kw s : string) : bool :=
  starts_with kw s || match s with EmptyString => false | String _ s => contains kw s end.

Definition forbidden : list string := ["OR"; "AND"; "SELECT"; "DROP"; "UNION"; "--"].
Definition sql_keyword_in (s : string) : string :=
  default "" (head (filter (λ kw, contains kw (upper s) = true) forbidden)).

(** ** Order states *)

Inductive order_status := st_pending | st_open | st_partially_filled | st_filled | st_cancelled | st_rejected.
#[export] Instance order_status_eq_dec : EqDecision order_status.
Proof. solve_decision. Defined.

Definition OrderTracker := gmap Z order_status.
Definition set_status (id : Z) (s : order_status) (t : OrderTracker) : OrderTracker := <[id := s]> t.
Definition get_order_status (id : Z) (t : OrderTracker) : order_status := default st_pending (t !! id).
Definition active_status (s : order_status) : bool :=
  bool_decide (s = st_open) || bool_decide (s = st_pending) || bool_decide (s = st_partially_filled).
Definition get_open_orders {HO : HashOrder} (t : OrderTracker) : list Z := (filter (λ x, active_status x.2 = true) (iter t)).*1.
Definition is_active (id : Z) (t : OrderTracker) : bool := active_status (get_order_status id t).
Definition active_count {HO : HashOrder} (t : OrderTracker) : nat := length (filter (λ x, active_status x.2 = true) (iter t)).
Definition tracker_reset (t : OrderTracker) : OrderTracker := ∅.

(** ** Ids do not repeat *)

Definition is_hex (c : ascii) : bool :=
  let n := nat_of_ascii c in ((48 <=? n) && (n <=? 57) || (97 <=? n) && (n <=? 102))%nat.
Fixpoint all_chars (P : ascii → bool) (s : string) : bool :=
  match s with EmptyString => true | String c s => P c && all_chars P s end.

Definition unhex_digit (c : ascii) : Z := let n := Z.of_nat (nat_of_ascii c) in if n <? 58 then n - 48 else n - 87.
Fixpoint unhex (acc : Z) (s : string) : Z :=
  match s with EmptyString => acc | String c s => unhex (16 * acc + unhex_digit c) s end.

Lemma digit_cases d : 0 <= d < 16 → d ∈ seqZ 0 16.
Proof. intros Hd. apply elem_of_seqZ. lia. Qed.

Lemma hex_digit_ok d : 0 <= d < 16 → is_hex (hex_digit d) = true ∧ unhex_digit (hex_digit d) = d.
Proof.
  intros Hd%digit_cases. revert d Hd. apply Forall_forall.
  change (Forall (λ d, is_hex (hex_digit d) = true ∧ unhex_digit (hex_digit d) = d) [0;1;2;3;4;5;6;7;8;9;10;11;12;13;14;15]).
  repeat constructor.
Qed.

Lemma hex_digits_ok fuel : ∀ n acc, 0 <= n < 16 ^ Z.of_nat fuel → all_chars is_hex acc = true → (0 < fuel)%nat →
  all_chars is_hex (hex_digits fuel n acc) = true ∧
  ∀ m, unhex m (hex_digits fuel n acc) = unhex (m * 16 ^ Z.of_nat (String.length (hex_digits fuel n acc) - String.length acc) + n) acc ∧
  (String.length acc < String.length (hex_digits fuel n acc) <= String.length acc + fuel)%nat.
Proof.
  induction fuel as [|fuel IH]; intros n acc Hn Hacc Hf; [lia|]. cbn [hex_digits].
  pose proof (Z.mod_pos_bound n 16 ltac:(lia)) as Hmod. pose proof (Z.div_mod n 16 ltac:(lia)) as Hdm.
  destruct (hex_digit_ok (n mod 16) Hmod) as [Hh Hu]. set (c := hex_digit (n mod 16)) in *.
  assert (all_chars is_hex (String c acc) = true) as Hacc' by (cbn; by rewrite Hh).
  destruct (Z.eqb_spec (n / 16) 0) as [E|Hne].
  - split; [done|]. intros m. cbn [unhex String.length]. rewrite Hu. replace (S (String.length acc) - String.length acc)%nat with 1%nat by lia.
    split; [f_equal; lia|lia].
  - assert (0 < fuel)%nat as Hf'.
    { destruct fuel; [|lia]. change (16 ^ Z.of_nat 1) with 16 in Hn. rewrite Z.div_small in Hne by lia. done. }
    assert (0 <= n / 16 < 16 ^ Z.of_nat fuel) as Hn'.
    { split; [apply Z.div_pos; lia|]. apply Z.div_lt_upper_bound; [lia|]. rewrite Nat2Z.inj_succ, Z.pow_succ_r in Hn; lia. }
    destruct (IH (n / 16) (String c acc) Hn' Hacc' Hf') as [Ha Hm]. split; [done|]. intros m. destruct (Hm m) as [E1 E2].
    cbn [String.length] in *. split; [|lia]. rewrite E1. cbn [unhex]. rewrite Hu. f_equal.
    set (k := (String.length (hex_digits fuel (n / 16) (String c acc)))%nat) in *.
    replace (k - String.length acc)%nat with (S (k - S (String.length acc)))%nat by lia.
    rewrite Nat2Z.inj_succ, Z.pow_succ_r by lia. lia.
Qed.

Lemma llx_ok n : in_u 64 n → all_chars is_hex (llx n) = true ∧ unhex 0 (llx n) = n ∧ (0 < String.length (llx n) <= 16)%nat.
Proof.
  intros Hn. destruct (hex_digits_ok 16 n "" Hn eq_refl ltac:(lia)) as [Ha Hm]. destruct (Hm 0) as [E1 E2].
  split_and!; [done|exact E1|cbn in E2 |- *; unfold llx; lia..].
Qed.

Lemma sapp_inj p a b : p +:+ a = p +:+ b → a = b.
Proof. induction p as [|c p IH]; [done|]. intros [= E]. by apply IH. Qed.
Lemma sapp_assoc (a b c : string) : (a +:+ b) +:+ c = a +:+ b +:+ c.
Proof. induction a as [|x a IH]; [done|]. change (String x ((a +:+ b) +:+ c) = String x (a +:+ b +:+ c)). by rewrite IH. Qed.
Lemma slength_app (a b : string) : String.length (a +:+ b) = (String.length a + String.length b)%nat.
Proof. induction a as [|x a IH]; [done|]. change (S (String.length (a +:+ b)) = S (String.length a + String.length b)). by rewrite IH. Qed.
Lemma stake_all n s : (String.length s <= n)%nat → stake n s = s.
Proof. revert n. induction s as [|c s IH]; intros n Hn; [by destruct n|]. destruct n as [|n]; cbn in *; [lia|]. f_equal. apply IH. lia. Qed.

Definition not_nul (c : ascii) : bool := bool_decide (c ≠ zero).
Lemma all_chars_app P a b : all_chars P (a +:+ b) = all_chars P a && all_chars P b.
Proof. induction a as [|x a IH]; [done|]. change (P x && all_chars P (a +:+ b) = P x && all_chars P a && all_chars P b). by rewrite IH, andb_assoc. Qed.
Lemma all_chars_impl (P R : ascii → bool) s : (∀ c, P c = true → R c = true) → all_chars P s = true → all_chars R s = true.
Proof. intros HPR. induction s as [|c s IH]; [done|]. cbn. intros [H1 H2]%andb_true_iff. by rewrite HPR, IH. Qed.
Lemma c_str_not_nul s : all_chars not_nul (c_str s) = true.
Proof. induction s as [|c s IH]; [done|]. cbn. case_bool_decide as E; [done|]. cbn. unfold not_nul at 1. by rewrite bool_decide_eq_true_2, IH. Qed.
Lemma c_str_id s : all_chars not_nul s = true → c_str s = s.
Proof.
  induction s as [|c s IH]; [done|]. cbn. intros [H1%bool_decide_eq_true H2]%andb_true_iff. rewrite bool_decide_eq_false_2 by done. f_equal. auto.
Qed.
Lemma hex_not_nul c : is_hex c = true → not_nul c = true.
Proof. intros Hc. unfold not_nul. apply bool_decide_eq_true. by intros ->. Qed.

(** Hexadecimal before a dash reads back. *)
Lemma hex_split a : ∀ b r r', all_chars is_hex a = true → all_chars is_hex b = true → a +:+ String "-" r = b +:+ String "-" r' → a = b ∧ r = r'.
Proof.
  induction a as [|x a IH]; intros [|y b] r r' Ha Hb E; cbn in *.
  - by injection E.
  - injection E as <- E. apply andb_true_iff in Hb as [Hb _]. discriminate Hb.
  - injection E as -> E. apply andb_true_iff in Ha as [Ha _]. discriminate Ha.
  - apply andb_true_iff in Ha as [_ Ha], Hb as [_ Hb]. injection E as <- E. destruct (IH b r r' Ha Hb E) as [-> ->]. done.
Qed.

Definition full_prefix (run_prefix : string) (seed epoch_ms : Z) : string :=
  c_str run_prefix +:+ "-" +:+ llx (u64 epoch_ms) +:+ "-" +:+ llx seed +:+ "-".

Lemma u64_range z : in_u 64 (u64 z).
Proof. apply wrapu_range. lia. Qed.

Lemma full_prefix_not_nul rp seed e : in_u 64 seed → all_chars not_nul (full_prefix rp seed e) = true.
Proof.
  intros Hs. unfold full_prefix. rewrite !all_chars_app, c_str_not_nul.
  destruct (llx_ok _ (u64_range e)) as [H1 _], (llx_ok _ Hs) as [H2 _].
  rewrite (all_chars_impl _ not_nul _ hex_not_nul H1), (all_chars_impl _ not_nul _ hex_not_nul H2). done.
Qed.

Lemma minted_id m n : all_chars not_nul (prefix_ m) = true → (String.length (prefix_ m) <= 31)%nat → in_u 64 n →
  snprintf 48 (c_str (prefix_ m) +:+ llx n) = prefix_ m +:+ llx n.
Proof.
  intros Hp Hl Hn. rewrite c_str_id by done. unfold snprintf. destruct (llx_ok n Hn) as (_ & _ & Hx).
  apply stake_all. rewrite slength_app. lia.
Qed.

Lemma stake_length n s : (String.length (stake n s) <= n)%nat.
Proof. revert s. induction n as [|n IH]; intros [|c s]; cbn; [lia..|]. specialize (IH s). lia. Qed.
Lemma stake_chars P n s : all_chars P s = true → all_chars P (stake n s) = true.
Proof. revert s. induction n as [|n IH]; intros [|c s]; try done. cbn. intros [H1 H2]%andb_true_iff. by rewrite H1, IH. Qed.

Lemma mint_lookup k : ∀ m i x, all_chars not_nul (prefix_ m) = true → (String.length (prefix_ m) <= 31)%nat → 0 <= seq_ m →
  seq_ m + Z.of_nat k < 2 ^ 64 → mint k m !! i = Some x →
  (i < k)%nat ∧ x = prefix_ m +:+ llx (seq_ m + Z.of_nat i + 1).
Proof.
  induction k as [|k IH]; intros m i x Hp Hl H0 Hk E; [done|]. cbn [mint] in E.
  assert (u64 (seq_ m + 1) = seq_ m + 1) as Eu by (apply wrapu_id; unfold in_u; lia). unfold minter_next in E. cbn [fst snd] in E. rewrite Eu in E.
  destruct i as [|i].
  - change (Some (snprintf 48 (c_str (prefix_ m) +:+ llx (seq_ m + 1))) = Some x) in E. apply (inj Some) in E as <-. split; [lia|]. rewrite minted_id by (try done; unfold in_u; lia). by rewrite Z.add_0_r.
  - change (mint k {| prefix_ := prefix_ m; seq_ := seq_ m + 1 |} !! i = Some x) in E.
    destruct (IH {| prefix_ := prefix_ m; seq_ := seq_ m + 1 |} i x Hp Hl ltac:(cbn; lia) ltac:(cbn; lia) E) as [Hi ->]. cbn [prefix_ seq_]. split; [lia|]. f_equal. f_equal. lia.
Qed.

(** Client order ids never repeat: two minters of the same run name whose full
    prefix fits its buffer give the same id only when they have the same start time and
    seed and it is the same call, over all the calls before the counter wraps; every id
    is at most 47 characters, is the prefix followed by the counter in hexadecimal, and
    no id is cut. *)
Theorem minted_ids_distinct rp seed e k i seed' e' k' i' x :
  in_u 64 seed → in_u 64 seed' → Z.of_nat k < 2 ^ 64 → Z.of_nat k' < 2 ^ 64 →
  (String.length (full_prefix rp seed e) <= 31)%nat → (String.length (full_prefix rp seed' e') <= 31)%nat →
  mint k (mk_minter rp seed e) !! i = Some x → mint k' (mk_minter rp seed' e') !! i' = Some x →
  seed = seed' ∧ u64 e = u64 e' ∧ i = i' ∧
  x = full_prefix rp seed e +:+ llx (Z.of_nat i + 1) ∧ (String.length x <= 47)%nat.
Proof.
  intros Hs Hs' Hk Hk' Hl Hl' E E'.
  assert (∀ s e, in_u 64 s → (String.length (full_prefix rp s e) <= 31)%nat → prefix_ (mk_minter rp s e) = full_prefix rp s e) as Hp.
  { intros s1 e1 _ Hl1. by apply stake_all. }
  apply mint_lookup in E as [Hi Ex]; rewrite ?Hp by done; try done; [|by apply full_prefix_not_nul].
  apply mint_lookup in E' as [Hi' Ex']; rewrite ?Hp by done; try done; [|by apply full_prefix_not_nul].
  cbn [seq_ mk_minter] in Ex, Ex'. rewrite Hp in Ex, Ex' by done. rewrite Z.add_0_l in Ex, Ex'.
  assert (in_u 64 (Z.of_nat i + 1) ∧ in_u 64 (Z.of_nat i' + 1)) as [Hn Hn'] by (unfold in_u; lia).
  destruct (llx_ok _ Hn) as (A1 & A2 & A3), (llx_ok _ Hn') as (B1 & B2 & _).
  destruct (llx_ok _ Hs) as (C1 & C2 & _), (llx_ok _ Hs') as (D1 & D2 & _).
  destruct (llx_ok _ (u64_range e)) as (F1 & F2 & _), (llx_ok _ (u64_range e')) as (G1 & G2 & _).
  pose proof Ex as Eq. rewrite Ex' in Eq. unfold full_prefix in Eq. rewrite !sapp_assoc in Eq. apply sapp_inj in Eq. cbn [String.append] in Eq.
  injection Eq as Eq. apply hex_split in Eq as [Ee Eq]; [|done..]. apply hex_split in Eq as [Es En]; [|done..].
  split_and!; [congruence|congruence| |done|].
  - assert (Z.of_nat i + 1 = Z.of_nat i' + 1); [congruence|lia].
  - rewrite Ex, slength_app. lia.
Qed.

(** A longer run name loses the time and the seed: two runs give the same ids. *)
Theorem minted_ids_collide :
  let name := "production-binance-futures-main" in
  1 ≠ 2 ∧ mint 3 (mk_minter name 1 1700000000000) = mint 3 (mk_minter name 2 1800000000000).
Proof. split; [done|]. vm_compute. reflexivity. Qed.

Lemma minted_ids_distinct_witness : ∃ x, mint 3 (mk_minter "tt" 42 1000) !! 1%nat = Some x ∧ (String.length x <= 47)%nat.
Proof.
  eexists. split; [reflexivity|].
  apply (minted_ids_distinct "tt" 42 1000 3 1 42 1000 3 1); try done; try (vm_compute; lia); reflexivity.
Defined.
