(* ===== verification/RateLimiter.v ===== *)
(** * The token-bucket rate limiter (src/src/execution/rate_limiter.h)

    Each operation takes its reading of the steady clock, in nanoseconds, as an
    argument: the critical sections of concurrent callers are a sequence of
    operations with readings that do not fall. *)

From Stdlib Require Import QArith Qabs Qround Lqa.
From S2P Require Import Prelude Float64 Arith.

Open Scope list_scope.
Open Scope Z_scope.

Section Limiter.
Context {A : Arith}.

Record TokenBucketRateLimiter := {
  capacity_ : num;
  refill_per_sec_ : num;
  tokens_ : num;
  last_refill_ : Z }.

Definition mk_limiter (capacity refill_per_sec : num) (now : Z) : TokenBucketRateLimiter :=
  {| capacity_ := capacity; refill_per_sec_ := refill_per_sec; tokens_ := capacity; last_refill_ := now |}.

Definition refill_locked (now : Z) (l : TokenBucketRateLimiter) : TokenBucketRateLimiter :=
  let elapsed := n_lit (now - last_refill_ l) 1000000000 in
  {| capacity_ := capacity_ l; refill_per_sec_ := refill_per_sec_ l;
     tokens_ := n_min (capacity_ l) (tokens_ l + elapsed * refill_per_sec_ l)%num; last_refill_ := now |}.

Definition take_tokens (tokens : num) (l : TokenBucketRateLimiter) : TokenBucketRateLimiter :=
  {| capacity_ := capacity_ l; refill_per_sec_ := refill_per_sec_ l; tokens_ := (tokens_ l - tokens)%num;
     last_refill_ := last_refill_ l |}.

Definition try_acquire (tokens : num) (now : Z) (l : TokenBucketRateLimiter) : bool * TokenBucketRateLimiter :=
  let l := refill_locked now l in
  if (tokens_ l + n_eps9 >=? tokens)%num then (true, take_tokens tokens l) else (false, l).

(** [std::ceil] and the conversion to an integer. *)
Definition n_ceil (x : num) : Z := n_llround (- n_floor (- x))%num.

(** [None]: [std::chrono::nanoseconds::max()]. *)
Definition time_until (tokens : num) (now : Z) (l : TokenBucketRateLimiter) : option Z * TokenBucketRateLimiter :=
  let l := refill_locked now l in
  if (tokens_ l >=? tokens)%num then (Some 0, l) else
  if (refill_per_sec_ l <=? n_zero)%num then (None, l) else
  let deficit := (tokens - tokens_ l)%num in
  let seconds := (deficit / refill_per_sec_ l)%num in
  (Some (n_ceil (seconds * n_lit 1000000000 1)%num), l).

Definition available_tokens (now : Z) (l : TokenBucketRateLimiter) : num * TokenBucketRateLimiter :=
  let l := refill_locked now l in (tokens_ l, l).

(** [acquire_blocking], with what the clock does between its calls: the time from
    the failed attempt to the call of [time_until], and how much longer than asked
    the thread sleeps.  The loop ends with the tokens, or without them when they
    never come; [None] when it still runs after as many rounds. *)
Inductive blocked := Acquired | GaveUp.
Fixpoint acquire_blocking (rounds : list (Z * Z)) (tokens : num) (now : Z) (l : TokenBucketRateLimiter)
    : option blocked * Z * TokenBucketRateLimiter :=
  match try_acquire tokens now l with
  | (true, l) => (Some Acquired, now, l)
  | (false, l) =>
      match rounds with
      | [] => (None, now, l)
      | (late, over) :: rounds =>
          match time_until tokens (now + late) l with
          | (None, l) => (Some GaveUp, now + late, l)
          | (Some wait, l) => acquire_blocking rounds tokens (now + late + wait + over) l
          end
      end
  end.

Inductive limiter_op := Op_try (tokens : num) | Op_until (tokens : num) | Op_available.
(** The tokens an operation grants. *)
Definition limiter_op_run (op : limiter_op) (now : Z) (l : TokenBucketRateLimiter) : num * TokenBucketRateLimiter :=
  match op with
  | Op_try t => let '(ok, l) := try_acquire t now l in (if ok then t else n_zero, l)
  | Op_until t => (n_zero, (time_until t now l).2)
  | Op_available => (n_zero, (available_tokens now l).2)
  end.
Fixpoint limiter_run (ops : list (limiter_op * Z)) (l : TokenBucketRateLimiter) : num * TokenBucketRateLimiter :=
  match ops with
  | [] => (n_zero, l)
  | (op, now) :: ops =>
      let '(g, l) := limiter_op_run op now l in
      let '(g', l) := limiter_run ops l in ((g + g')%num, l)
  end.

End Limiter.
Arguments limiter_op : clear implicits.
Arguments limiter_op {A}.

#[local] Existing Instance exact_arith.

(** Clock readings that do not fall. *)
Fixpoint clock_ok (t0 : Z) (ops : list (limiter_op * Z)) : Prop :=
  match ops with [] => True | (_, now) :: ops => t0 <= now ∧ clock_ok now ops end.
Definition clock_end (t0 : Z) (ops : list (limiter_op * Z)) : Z := default t0 (last ops.*2).

Definition secs (ns : Z) : Q := ns # 1000000000.
Definition eps : Q := 1 # 1000000000.

Lemma secs_mono a b : a <= b → (secs a <= secs b)%Q.
Proof. intros Hab. unfold secs, Qle. cbn. lia. Qed.
Lemma secs_sub a b c : (secs (a - b) + secs (b - c) == secs (a - c))%Q.
Proof. unfold secs, Qeq, Qplus. cbn. lia. Qed.

Record limiter_ok (l : TokenBucketRateLimiter) : Prop := {
  lo_capacity : (0 <= capacity_ l)%Q;
  lo_rate : (0 <= refill_per_sec_ l)%Q;
  lo_tokens : (- eps <= tokens_ l <= capacity_ l)%Q }.

Lemma refill_ok now l : limiter_ok l → last_refill_ l <= now →
  limiter_ok (refill_locked now l) ∧
  (tokens_ (refill_locked now l) <= tokens_ l + refill_per_sec_ l * secs (now - last_refill_ l))%Q ∧
  ((tokens_ (refill_locked now l) == tokens_ l + refill_per_sec_ l * secs (now - last_refill_ l))%Q ∨
   tokens_ (refill_locked now l) = capacity_ l).
Proof.
  intros [Hc Hr Ht] Hnow. pose proof (secs_mono 0 (now - last_refill_ l) ltac:(lia)) as Hs. change (secs 0) with (0 # 1000000000)%Q in Hs.
  assert (0 <= secs (now - last_refill_ l))%Q as Hs0 by (unfold secs, Qle; cbn; lia). clear Hs.
  unfold refill_locked. cbn [tokens_ capacity_ refill_per_sec_]. unfold n_min. tt_exact. fold (secs (now - last_refill_ l)).
  change (@num exact_arith) with Q in *. set (s := secs (now - last_refill_ l)) in *. clearbody s.
  assert (0 <= s * refill_per_sec_ l)%Q as Hg by nra. unfold eps in *.
  destruct (Qltb_spec (tokens_ l + s * refill_per_sec_ l) (capacity_ l)) as [Hlt|Hge].
  - split_and!; [split; cbn; unfold eps; [done|done|lra]|lra|left; lra].
  - split_and!; [split; cbn; unfold eps; [done|done|lra]|lra|by right].
Qed.

Definition op_ok (op : limiter_op) : Prop := match op with Op_try t => (0 <= t)%Q | _ => True end.

Lemma op_run_ok op now l : limiter_ok l → op_ok op → last_refill_ l <= now →
  let r := limiter_op_run op now l in
  limiter_ok r.2 ∧ capacity_ r.2 = capacity_ l ∧ refill_per_sec_ r.2 = refill_per_sec_ l ∧ last_refill_ r.2 = now ∧
  (r.1 + tokens_ r.2 <= tokens_ l + refill_per_sec_ l * secs (now - last_refill_ l))%Q.
Proof.
  intros Hl Hop Hnow. destruct (refill_ok now l Hl Hnow) as (Hok & Hle & _).
  assert (∃ l1, l1 = refill_locked now l ∧ capacity_ l1 = capacity_ l ∧ refill_per_sec_ l1 = refill_per_sec_ l ∧ last_refill_ l1 = now)
    as (l1 & El & E1 & E2 & E3) by eauto.
  rewrite <- El in Hok, Hle. assert (0 + tokens_ l1 <= tokens_ l + refill_per_sec_ l * secs (now - last_refill_ l))%Q as Hz by lra.
  destruct op as [t|t|]; cbn [limiter_op_run]; unfold try_acquire, time_until, available_tokens; rewrite <- El.
  - destruct (_ >=? _)%num eqn:Et; [|split_and!; first [done|exact Hz]]. cbn [fst snd take_tokens capacity_ refill_per_sec_ last_refill_ tokens_ op_ok] in *.
    unfold n_eps9 in Et. tt_exact. apply Qle_bool_iff in Et. change (@num exact_arith) with Q in *.
    split_and!; try done; [|lra]. destruct Hok as [H1 H2 H3]. split; cbn [take_tokens capacity_ refill_per_sec_ tokens_]; [done|done|].
    tt_exact. unfold eps in *. lra.
  - destruct (_ >=? _)%num; [|destruct (_ <=? _)%num]; split_and!; first [done|exact Hz].
  - split_and!; first [done|exact Hz].
Qed.

Lemma clock_end_cons t0 op now ops : clock_end t0 ((op, now) :: ops) = clock_end now ops.
Proof. unfold clock_end. change (((op, now) :: ops).*2) with (now :: ops.*2). rewrite last_cons. by destruct (last ops.*2). Qed.

Lemma limiter_run_ok ops : ∀ l, limiter_ok l → Forall (λ x, op_ok x.1) ops → clock_ok (last_refill_ l) ops →
  let r := limiter_run ops l in
  limiter_ok r.2 ∧ last_refill_ r.2 = clock_end (last_refill_ l) ops ∧
  (r.1 + tokens_ r.2 <= tokens_ l + refill_per_sec_ l * secs (clock_end (last_refill_ l) ops - last_refill_ l))%Q.
Proof.
  induction ops as [|[op now] ops IH]; intros l Hl Hops Hc.
  - cbn. split_and!; [done|done|]. rewrite Z.sub_diag. unfold secs. change (0 # 1000000000)%Q with (0 * (1 # 1000000000))%Q. lra.
  - destruct Hc as [Hnow Hc]. apply Forall_cons in Hops as [Hop Hops]. cbn [fst] in Hop.
    destruct (op_run_ok op now l Hl Hop Hnow) as (Hl1 & E1 & E2 & E3 & Hle). cbn [limiter_run].
    destruct (limiter_op_run op now l) as [g l1]. cbn [fst snd] in *. rewrite <- E3 in Hc.
    destruct (IH l1 Hl1 Hops Hc) as (Hl2 & E4 & Hle2). destruct (limiter_run ops l1) as [g' l2]. cbn [fst snd] in *.
    rewrite clock_end_cons. rewrite E3 in *. split_and!; [done|done|]. rewrite E2 in Hle2. tt_exact. change (@num exact_arith) with Q in *.
    rewrite <- (secs_sub _ now (last_refill_ l)). lra.
Qed.

(** C39: The limiter keeps its promise in any window of time: in exact arithmetic, from
    any state it can be in, whatever sequence of attempts and queries its callers make,
    with any number of tokens that is not negative and clock readings that do not fall, the tokens
    granted are at most its capacity plus what its rate refills over the window, and a
    billionth of a token for the tolerance of the comparison. *)
Theorem tokens_granted_bounded ops l : limiter_ok l → Forall (λ x, op_ok x.1) ops → clock_ok (last_refill_ l) ops →
  ((limiter_run ops l).1 <= capacity_ l + refill_per_sec_ l * secs (clock_end (last_refill_ l) ops - last_refill_ l) + eps)%Q ∧
  limiter_ok (limiter_run ops l).2.
Proof.
  intros Hl Hops Hc. destruct (limiter_run_ok ops l Hl Hops Hc) as (Hl' & _ & Hle). split; [|done].
  destruct Hl as [_ _ Ht], Hl' as [_ _ Ht']. change (@num exact_arith) with Q in *. lra.
Qed.

(** ** Blocking until the tokens are there *)

Lemma n_ceil_ge (x : Q) : (x <= inject_Z (n_ceil (A := exact_arith) x))%Q.
Proof.
  unfold n_ceil. tt_exact. set (z := Qfloor (- x)). assert (Q_round (- inject_Z z) = - z) as ->.
  { unfold Q_round. rewrite <- inject_Z_opp. destruct (Qle_bool 0 (inject_Z (- z))).
    - rewrite Qplus_comm. apply Z.le_antisymm.
      + assert (Qfloor ((1 # 2) + inject_Z (- z)) < - z + 1); [|lia]. rewrite Zlt_Qlt. eapply Qle_lt_trans; [apply Qfloor_le|].
        rewrite inject_Z_plus. change (inject_Z 1) with 1%Q. lra.
      + rewrite <- (Qfloor_Z (- z)) at 1. apply Qfloor_resp_le. lra.
    - assert (Qfloor (- inject_Z (- z) + (1 # 2)) = z) as ->; [|done]. rewrite inject_Z_opp. 
      assert (- - inject_Z z + (1 # 2) == inject_Z z + (1 # 2))%Q as -> by ring. apply Z.le_antisymm.
      + assert (Qfloor (inject_Z z + (1 # 2)) < z + 1); [|lia]. rewrite Zlt_Qlt. eapply Qle_lt_trans; [apply Qfloor_le|].
        rewrite inject_Z_plus. change (inject_Z 1) with 1%Q. lra.
      + rewrite <- (Qfloor_Z z) at 1. apply Qfloor_resp_le. lra. }
  rewrite inject_Z_opp. pose proof (Qfloor_le (- x)) as Hf. fold z in Hf. lra.
Qed.

Lemma try_acquire_true t now l : limiter_ok l → last_refill_ l <= now → (t <= capacity_ l)%Q →
  (t <= tokens_ l + refill_per_sec_ l * secs (now - last_refill_ l))%Q → (try_acquire t now l).1 = true.
Proof.
  intros Hl Hnow Hc Ht. destruct (refill_ok now l Hl Hnow) as (_ & _ & Hor). unfold try_acquire.
  assert (t <= tokens_ (refill_locked now l))%Q as Hle by (destruct Hor as [E|E]; rewrite E; done).
  destruct (_ >=? _)%num eqn:E; [done|]. unfold n_eps9 in E. tt_exact. apply Qleb_false in E. change (@num exact_arith) with Q in *. lra.
Qed.

Lemma try_acquire_false t now l : limiter_ok l → last_refill_ l <= now → (try_acquire t now l).1 = false →
  (try_acquire t now l).2 = refill_locked now l.
Proof. intros _ _. unfold try_acquire. by destruct (_ >=? _)%num. Qed.

(** The wait [time_until] asks for is enough. *)
Lemma time_until_enough t now l w : limiter_ok l → last_refill_ l <= now → (0 < refill_per_sec_ l)%Q →
  (time_until t now l).1 = Some w →
  0 <= w ∧ (time_until t now l).2 = refill_locked now l ∧ (t <= tokens_ (refill_locked now l) + refill_per_sec_ l * secs w)%Q.
Proof.
  intros Hl Hnow Hr. assert (∃ l1, l1 = refill_locked now l ∧ refill_per_sec_ l1 = refill_per_sec_ l) as (l1 & El & E1) by eauto.
  unfold time_until. rewrite <- El. unfold n_zero. tt_exact. destruct (Qleb_spec t (tokens_ l1)) as [Hle|Hlt].
  { intros [= <-]. split_and!; [lia|done|]. change (secs 0) with (0 * (1 # 1000000000))%Q. change (@num exact_arith) with Q in *. lra. }
  rewrite E1. destruct (Qleb_spec (refill_per_sec_ l) (0 # 1)) as [Hle|_].
  { change (0 # 1)%Q with 0%Q in Hle. change (@num exact_arith) with Q in *. lra. }
  intros Ew. apply (f_equal (default 0)) in Ew. cbn [default from_option Datatypes.id fst] in Ew. subst w.
  change (@num exact_arith) with Q in *. set (x := ((t - tokens_ l1) / refill_per_sec_ l * (1000000000 # 1))%Q).
  pose proof (n_ceil_ge x) as Hx. set (w := n_ceil (A := exact_arith) x) in *. clearbody w.
  assert (0 < (t - tokens_ l1) / refill_per_sec_ l)%Q as H0 by (apply Qlt_shift_div_l; lra).
  assert (0 < x)%Q as Hx0 by (unfold x; lra). assert (secs w == inject_Z w * (1 # 1000000000))%Q as Es.
  { unfold secs. rewrite Qmake_Qdiv. reflexivity. }
  split_and!; [|done|].
  - assert (0 < inject_Z w)%Q as Hw by lra. change 0%Q with (inject_Z 0) in Hw. rewrite <- Zlt_Qlt in Hw. lia.
  - rewrite Es. assert (t - tokens_ l1 == refill_per_sec_ l * ((t - tokens_ l1) / refill_per_sec_ l))%Q as Ed by (field; lra).
    assert ((t - tokens_ l1) / refill_per_sec_ l <= inject_Z w * (1 # 1000000000))%Q as Hd by (unfold x in Hx; lra).
    assert (refill_per_sec_ l * ((t - tokens_ l1) / refill_per_sec_ l) <= refill_per_sec_ l * (inject_Z w * (1 # 1000000000)))%Q as Hm.
    { apply Qmult_le_l; lra. }
    lra.
Qed.

Lemma time_until_asks t now l : limiter_ok l → last_refill_ l <= now → (0 < refill_per_sec_ l)%Q →
  ∃ w, (time_until t now l).1 = Some w.
Proof.
  intros Hl Hnow Hr. unfold time_until. destruct (_ >=? _)%num; [by eexists|]. unfold n_zero. tt_exact.
  destruct (Qleb_spec (refill_per_sec_ (refill_locked now l)) (0 # 1)) as [Hle|]; [|by eexists].
  cbn [refill_locked refill_per_sec_] in Hle. change (0 # 1)%Q with 0%Q in Hle. change (@num exact_arith) with Q in *. lra.
Qed.

Lemma acquire_first rounds t now l : (try_acquire t now l).1 = true → (acquire_blocking rounds t now l).1.1 = Some Acquired.
Proof. intros E. destruct rounds as [|[]]; cbn [acquire_blocking]; by destruct (try_acquire t now l) as [[] ?]. Qed.

(** One failed attempt and one query leave a consistent limiter, refilled when asked. *)
Lemma failed_round t now l late : limiter_ok l → last_refill_ l <= now → 0 <= late → (0 < refill_per_sec_ l)%Q →
  (try_acquire t now l).1 = false →
  ∃ w l2, time_until t (now + late) (try_acquire t now l).2 = (Some w, l2) ∧ limiter_ok l2 ∧ 0 <= w ∧ last_refill_ l2 = now + late ∧
    refill_per_sec_ l2 = refill_per_sec_ l ∧ capacity_ l2 = capacity_ l ∧ (t <= tokens_ l2 + refill_per_sec_ l * secs w)%Q.
Proof.
  intros Hl Hnow Hlate Hr E. rewrite (try_acquire_false t now l Hl Hnow E). destruct (refill_ok now l Hl Hnow) as (Hl1 & _ & _).
  assert (∃ l1, l1 = refill_locked now l ∧ last_refill_ l1 = now ∧ refill_per_sec_ l1 = refill_per_sec_ l ∧ capacity_ l1 = capacity_ l)
    as (l1 & El & E1 & E2 & E3) by eauto.
  rewrite <- El in *. destruct (time_until_asks t (now + late) l1 Hl1 ltac:(lia) ltac:(by rewrite E2)) as [w Ew].
  destruct (time_until_enough t (now + late) l1 w Hl1 ltac:(lia) ltac:(by rewrite E2) Ew) as (Hw & E5 & Hen).
  destruct (refill_ok (now + late) l1 Hl1 ltac:(lia)) as (Hl2 & _ & _). exists w, (refill_locked (now + late) l1).
  split_and!; try done; [|by rewrite <- E2]. rewrite <- E5, <- Ew. by destruct (time_until _ _ _).
Qed.

Lemma acquire_never rounds (t : @num exact_arith) : ∀ now l, limiter_ok l → last_refill_ l <= now → (0 < refill_per_sec_ l)%Q →
  Forall (λ r, 0 <= r.1 ∧ 0 <= r.2) rounds → (capacity_ l + eps < t)%Q → (acquire_blocking rounds t now l).1.1 = None.
Proof.
  induction rounds as [|[late over] rounds IH]; intros now l Hl Hnow Hr Hrs Ht;
    (assert ((try_acquire t now l).1 = false) as Ef;
      [destruct (refill_ok now l Hl Hnow) as ([_ _ Htok] & _ & _); unfold try_acquire; cbn [refill_locked capacity_] in Htok;
       destruct (_ >=? _)%num eqn:E; [|done]; unfold n_eps9 in E; tt_exact; apply Qle_bool_iff in E; change (@num exact_arith) with Q in *;
       unfold eps in *; lra|]).
  - cbn [acquire_blocking]. by destruct (try_acquire t now l) as [[] ?].
  - apply Forall_cons in Hrs as [[H1 H2] Hrs]. cbn [fst snd] in *.
    destruct (failed_round t now l late Hl Hnow H1 Hr Ef) as (w & l2 & E & Hl2 & Hw & E1 & E2 & E3 & _). cbn [acquire_blocking].
    destruct (try_acquire t now l) as [[] l1]; [done|]. cbn [fst snd] in *. rewrite E. apply IH; try done; [lia|by rewrite E2|by rewrite E3].
Qed.

(** With a positive rate and no other caller, [acquire_blocking] returns with its
    tokens after at most one wait, however late the thread runs, when it asks for no
    more than the capacity; and when it asks for more it never returns: in exact
    arithmetic the loop still runs after any number of rounds. *)
Theorem acquire_blocking_returns (t : @num exact_arith) now l late over rounds : limiter_ok l → last_refill_ l <= now → (0 < refill_per_sec_ l)%Q →
  Forall (λ r, 0 <= r.1 ∧ 0 <= r.2) ((late, over) :: rounds) →
  ((t <= capacity_ l)%Q → (acquire_blocking ((late, over) :: rounds) t now l).1.1 = Some Acquired) ∧
  ((capacity_ l + eps < t)%Q → (acquire_blocking ((late, over) :: rounds) t now l).1.1 = None).
Proof.
  intros Hl Hnow Hr Hrs. split; [|by apply acquire_never].
  intros Ht. destruct (try_acquire t now l).1 eqn:Ef; [by apply acquire_first|]. apply Forall_cons in Hrs as [[H1 H2] _]. cbn [fst snd] in *.
  destruct (failed_round t now l late Hl Hnow H1 Hr Ef) as (w & l2 & E & Hl2 & Hw & E1 & E2 & E3 & Hen). cbn [acquire_blocking].
  destruct (try_acquire t now l) as [[] l1]; [done|]. cbn [fst snd] in *. rewrite E. apply acquire_first, try_acquire_true; [done|lia|by rewrite E3|].
  rewrite E1, E2. pose proof (secs_mono w (now + late + w + over - (now + late)) ltac:(lia)) as Hs. change (@num exact_arith) with Q in *.
  assert (refill_per_sec_ l * secs w <= refill_per_sec_ l * secs (now + late + w + over - (now + late)))%Q by (apply Qmult_le_l; done). lra.
Qed.

(** ** Witnesses: ten tokens, five per second *)

Definition small_limiter : TokenBucketRateLimiter := mk_limiter (A := exact_arith) (10 # 1) (5 # 1) 0.

Definition some_ops : list (limiter_op (A := exact_arith) * Z) :=
  [(Op_try (A := exact_arith) (8 # 1), 0); (Op_try (A := exact_arith) (8 # 1), 1000000000); (Op_try (A := exact_arith) (2 # 1), 2000000000)].

Lemma small_limiter_ok : limiter_ok small_limiter.
Proof. split; cbn; unfold eps, Qle; cbn; lia. Qed.

Lemma tokens_granted_bounded_witness :
  ((limiter_run some_ops small_limiter).1 <= 21 # 1)%Q.
Proof.
  pose proof (tokens_granted_bounded some_ops small_limiter
    small_limiter_ok ltac:(repeat constructor; cbn; unfold Qle; cbn; lia) ltac:(cbn; lia)) as [H _].
  eapply Qle_trans; [exact H|]. apply Qle_bool_iff. vm_compute. reflexivity.
Defined.

Definition drained : TokenBucketRateLimiter := (try_acquire (A := exact_arith) (4 # 1) 0 small_limiter).2.

Lemma acquire_blocking_returns_witness :
  (acquire_blocking (A := exact_arith) [(0, 0)] (10 # 1) 0 drained).1.1 = Some Acquired ∧
  (acquire_blocking (A := exact_arith) [(0, 0)] (11 # 1) 0 small_limiter).1.1 = None.
Proof.
  split.
  - apply (acquire_blocking_returns (10 # 1) 0 drained 0 0 []); [|done|done|by repeat constructor|by apply Qle_bool_iff].
    split; [by apply Qle_bool_iff..|split; by apply Qle_bool_iff].
  - apply (acquire_blocking_returns (11 # 1) 0 small_limiter 0 0 []); [exact small_limiter_ok|done|done|by repeat constructor|done].
Defined.
