(* ===== verification/IndicatorTheorems.v ===== *)
(** * The indicators compute what they are named after

    In exact arithmetic the streaming updates of Indicators.v equal the textbook
    definitions over the last prices: the running mean, the two-pass variance, the
    smoothed averages; and the oscillators stay between 0 and 100. *)

From Stdlib Require Import QArith Qabs Lqa.
From S2P Require Import Prelude Float64 Arith Indicators.

Open Scope list_scope.
Open Scope Z_scope.

#[local] Existing Instance exact_arith.

(** ** Windows *)

Definition lastn {A} (n : nat) (l : list A) : list A := drop (length l - n) l.

Lemma lastn_short {A} n (l : list A) : (length l <= n)%nat → lastn n l = l.
Proof. intros Hl. unfold lastn. by replace (length l - n)%nat with 0%nat by lia. Qed.
Lemma lastn_length {A} n (l : list A) : length (lastn n l) = (n `min` length l)%nat.
Proof. unfold lastn. rewrite length_drop. lia. Qed.
Lemma lastn_snoc {A} n (l : list A) x : (0 < n)%nat →
  lastn n (l ++ [x]) = if (n <? length (lastn n l ++ [x]))%nat then drop 1 (lastn n l ++ [x]) else lastn n l ++ [x].
Proof.
  intros Hn. rewrite length_app, lastn_length. cbn [length]. destruct (Nat.ltb_spec n (n `min` length l + 1)) as [Hlt|Hge].
  - unfold lastn. rewrite length_app. cbn [length]. rewrite drop_app_le by lia. rewrite drop_app_le by (rewrite length_drop; lia).
    rewrite drop_drop. f_equal. f_equal. lia.
  - rewrite !lastn_short; [done|lia|rewrite length_app; cbn; lia].
Qed.
Lemma lastn_Forall {A} (P : A → Prop) n l : Forall P l → Forall P (lastn n l).
Proof. apply Forall_drop. Qed.

Definition wsum (f : Q → Q) (l : list Q) : Q := foldr (λ x s, f x + s)%Q 0%Q l.
Definition mean (l : list Q) : Q := (wsum (λ x, x) l / inject_Z (Z.of_nat (length l)))%Q.
Definition variance (l : list Q) : Q := (wsum (λ x, (x - mean l) * (x - mean l)) l / inject_Z (Z.of_nat (length l)))%Q.

Lemma wsum_cons f x l : wsum f (x :: l) = (f x + wsum f l)%Q.
Proof. done. Qed.
Lemma wsum_app f l1 l2 : (wsum f (l1 ++ l2) == wsum f l1 + wsum f l2)%Q.
Proof.
  induction l1 as [|x l1 IH]; cbn [app]; [change (wsum f []) with 0%Q; ring|]. rewrite !wsum_cons, IH. ring.
Qed.

Lemma push_window_exact n (f : Q → Q) (x : Q) (w : list Q) (sum : Q) (ps : list Q) : (0 < n)%nat → w = lastn n ps → (sum == wsum f w)%Q →
  (push_window n f x w sum).1 = lastn n (ps ++ [x]) ∧ ((push_window n f x w sum).2 == wsum f (lastn n (ps ++ [x])))%Q.
Proof.
  intros Hn -> Hs. rewrite lastn_snoc by done. unfold push_window. tt_exact.
  destruct (n <? length (lastn n ps ++ [x]))%nat eqn:E.
  - assert (∀ w : list Q, (sum == wsum f w)%Q → w ++ [x] ≠ [] ∧ ∀ old w', w ++ [x] = old :: w' → (sum + f x - f old == wsum f w')%Q) as G.
    { intros w Hw. split; [by destruct w|]. intros old w' Ew. pose proof (wsum_app f w [x]) as Ha. rewrite Ew, !wsum_cons in Ha.
      change (wsum f []) with 0%Q in Ha. rewrite Hw. lra. }
    destruct (G _ Hs) as [G1 G2]. destruct (lastn n ps ++ [x]) as [|old w'] eqn:Ew; [done|]. cbn [fst snd drop]. split; [done|]. by apply G2.
  - cbn [fst snd]. split; [done|]. rewrite wsum_app, wsum_cons. change (wsum f []) with 0%Q. rewrite Hs. ring.
Qed.

Lemma length_pos n (l : list Q) x : (0 < n)%nat → (0 < length (lastn n (l ++ [x])))%nat.
Proof. intros Hn. rewrite lastn_length, length_app. cbn. lia. Qed.
Lemma inject_pos n : (0 < n)%nat → (0 < inject_Z (Z.of_nat n))%Q.
Proof. intros Hn. change 0%Q with (inject_Z 0). rewrite <- Zlt_Qlt. lia. Qed.

(** The mean lies between bounds of the values. *)
Lemma mean_between lo hi l : l ≠ [] → Forall (λ x, lo <= x <= hi)%Q l → (lo <= mean l <= hi)%Q.
Proof.
  intros Hne Hl. assert (inject_Z (Z.of_nat (length l)) * lo <= wsum (λ x, x) l <= inject_Z (Z.of_nat (length l)) * hi)%Q as Hs.
  { clear Hne. induction Hl as [|x l Hx _ IH]; [change (wsum _ []) with 0%Q; change (inject_Z (Z.of_nat (length []))) with 0%Q; lra|].
    rewrite wsum_cons. cbn [length]. rewrite Nat2Z.inj_succ, <- Z.add_1_r, inject_Z_plus. change (inject_Z 1) with 1%Q. lra. }
  assert (0 < length l)%nat as Hp%inject_pos by (destruct l; [done|cbn; lia]). unfold mean.
  split; [apply Qle_shift_div_l|apply Qle_shift_div_r]; try done; lra.
Qed.

(** ** Simple moving average *)

Definition sma_shows (s : simple_moving_average) (n : nat) (ps : list Q) : Prop :=
  sma_period s = n ∧ sma_window s = lastn n ps ∧ (sma_sum s == wsum (λ x, x) (sma_window s))%Q.

Lemma sma_fresh n : sma_shows (mk_sma n) n [].
Proof. by split_and!. Qed.

Lemma sma_step s n (ps : list Q) (x : Q) : (0 < n)%nat → sma_shows s n ps →
  sma_shows (sma_update x s).2 n (ps ++ [x]) ∧
  if (length (ps ++ [x]) <? n)%nat then (sma_update x s).1 = None
  else ∃ v, (sma_update x s).1 = Some v ∧ (v == mean (lastn n (ps ++ [x])))%Q.
Proof.
  intros Hn (Hp & Hw & Hs). unfold sma_update. rewrite Hp, Hw in *.
  destruct (push_window_exact n (λ x, x) x (lastn n ps) (sma_sum s) ps Hn eq_refl Hs) as [E1 E2].
  destruct (push_window _ _ _ _ _) as [w sum]. cbn [fst snd] in E1, E2. subst w.
  pose proof (lastn_length n (ps ++ [x])) as Hl.
  destruct (_ =? n)%nat eqn:El; [apply Nat.eqb_eq in El|apply Nat.eqb_neq in El];
    change (@num exact_arith) with Q in El; (split; [by split_and!|]).
  - destruct (Nat.ltb_spec (length (ps ++ [x])) n) as [Hlt|Hge]; [lia|]. eexists. split; [done|]. unfold mean. rewrite El, <- E2. reflexivity.
  - destruct (Nat.ltb_spec (length (ps ++ [x])) n) as [Hlt|Hge]; [done|]. lia.
Qed.

Lemma sma_runs n ps : (0 < n)%nat → sma_shows (foldl (λ s p, (sma_update p s).2) (mk_sma n) ps) n ps.
Proof.
  intros Hn. induction ps as [|x ps IH] using rev_ind; [apply sma_fresh|]. rewrite foldl_app. cbn [foldl]. by apply sma_step.
Qed.

(** The running mean is the mean of the last [n] prices, once there are as many. *)
Theorem sma_exact n (ps : list Q) (x : Q) : (0 < n)%nat →
  let r := (sma_update x (foldl (λ s p, (sma_update p s).2) (mk_sma n) ps)).1 in
  if (length (ps ++ [x]) <? n)%nat then r = None else ∃ v, r = Some v ∧ (v == mean (lastn n (ps ++ [x])))%Q.
Proof. intros Hn. cbn zeta. apply sma_step; [done|]. by apply sma_runs. Qed.

(** ** Bollinger bands *)

Definition bollinger_run (sqrt : Q → Q) (n : nat) (k : Q) (ps : list Q) : bollinger_bands :=
  foldl (λ s p, (bollinger_update (A := exact_arith) sqrt p s).2) (mk_bollinger (A := exact_arith) n k) ps.

Lemma sum_deviations m l : (wsum (λ x, (x - m) * (x - m)) l ==
  wsum (λ x, x * x) l - (1 + 1) * m * wsum (λ x, x) l + inject_Z (Z.of_nat (length l)) * m * m)%Q.
Proof.
  induction l as [|x l IH].
  - change (wsum (λ x, (x - m) * (x - m))%Q []) with 0%Q. change (wsum (λ x, x * x)%Q []) with 0%Q. change (wsum (λ x, x) []) with 0%Q.
    change (inject_Z (Z.of_nat (length []))) with 0%Q. ring.
  - rewrite !wsum_cons, IH. cbn [length]. rewrite Nat2Z.inj_succ, <- Z.add_1_r, inject_Z_plus. change (inject_Z 1) with 1%Q. ring.
Qed.

Lemma variance_streaming l : l ≠ [] →
  (wsum (λ x, x * x) l / inject_Z (Z.of_nat (length l)) - mean l * mean l == variance l)%Q.
Proof.
  intros Hne. assert (0 < length l)%nat as Hp%inject_pos by (destruct l; [done|cbn; lia]). unfold variance. rewrite sum_deviations.
  unfold mean. field. lra.
Qed.

Lemma wsum_nonneg f l : (∀ x, 0 <= f x)%Q → (0 <= wsum f l)%Q.
Proof. intros Hf. induction l as [|x l IH]; [apply Qle_refl|]. rewrite wsum_cons. specialize (Hf x). lra. Qed.

Lemma variance_nonneg l : l ≠ [] → (0 <= variance l)%Q.
Proof.
  intros Hne. assert (0 < length l)%nat as Hp%inject_pos by (destruct l; [done|cbn; lia]). unfold variance.
  apply Qle_shift_div_l; [done|]. rewrite Qmult_0_l. apply wsum_nonneg. intros x. cbn beta. generalize (x - mean l)%Q. intros d. nra.
Qed.

Definition bollinger_shows (s : bollinger_bands) (n : nat) (k : Q) (ps : list Q) : Prop :=
  bb_period s = n ∧ bb_num_std s = k ∧ bb_window s = lastn n ps ∧
  (bb_sum s == wsum (λ x, x) (bb_window s))%Q ∧ (bb_sum_sq s == wsum (λ x, x * x) (bb_window s))%Q.

Lemma bollinger_step (sqrt : Q → Q) (s : bollinger_bands) n (k : Q) (ps : list Q) (x : Q) : (0 < n)%nat → bollinger_shows s n k ps →
  let w := lastn n (ps ++ [x]) in
  bollinger_shows (bollinger_update sqrt x s).2 n k (ps ++ [x]) ∧
  if (length (ps ++ [x]) <? n)%nat then (bollinger_update sqrt x s).1 = None
  else ∃ v var, (bollinger_update sqrt x s).1 = Some v ∧ (bb_middle v == mean w)%Q ∧ (var == variance w)%Q ∧
    (bb_upper v == mean w + k * sqrt var)%Q ∧ (bb_lower v == mean w - k * sqrt var)%Q.
Proof.
  intros Hn (Hp & Hk & Hw & Hs & Hq) w. unfold bollinger_update. rewrite Hp, Hk, Hw in *.
  destruct (push_window_exact n (λ x : @num exact_arith, x) x (lastn n ps) (bb_sum s) ps Hn eq_refl Hs) as [E1 E2].
  destruct (push_window_exact n (λ x : @num exact_arith, x * x)%num x (lastn n ps) (bb_sum_sq s) ps Hn eq_refl Hq) as [_ E3].
  destruct (push_window _ (λ x : @num exact_arith, x) _ _ _) as [w1 sum]. destruct (push_window _ _ _ _ _) as [w2 sq].
  cbn [fst snd] in E1, E2, E3. subst w1. change (sq == wsum (λ x, x * x) (lastn n (ps ++ [x])))%Q in E3.
  change (sum == wsum (λ x, x) (lastn n (ps ++ [x])))%Q in E2.
  pose proof (lastn_length n (ps ++ [x])) as Hl.
  destruct (_ =? n)%nat eqn:El; [apply Nat.eqb_eq in El|apply Nat.eqb_neq in El];
    change (@num exact_arith) with Q in El; (split; [by split_and!|]); fold w in El, E2, E3, Hl |- *;
    destruct (Nat.ltb_spec (length (ps ++ [x])) n) as [Hlt|Hge]; try done; try lia.
  assert (w ≠ []) as Hne by (intros E; rewrite E in El; cbn in El; lia).
  assert (sum / n_of_nat n == mean w)%Q as Em.
  { unfold mean. rewrite El, <- E2. reflexivity. }
  assert (clamped_variance (n_of_nat n) sum sq == variance w)%Q as Ev.
  { rewrite <- variance_streaming by done. rewrite El, <- E3, <- Em. unfold clamped_variance. tt_exact.
    assert (0 <= sq / n_of_nat n - sum / n_of_nat n * (sum / n_of_nat n))%Q as H0.
    { pose proof (variance_nonneg w Hne) as Hv. rewrite <- variance_streaming in Hv by done. rewrite El, <- E3, <- Em in Hv. exact Hv. }
    rewrite Qltb_ge by exact H0. reflexivity. }
  eexists _, (clamped_variance (n_of_nat n) sum sq). split; [done|]. cbn [bb_middle bb_upper bb_lower]. tt_exact.
  split_and!; [exact Em|exact Ev| |]; rewrite <- Em; reflexivity.
Qed.

Lemma bollinger_runs sqrt n k ps : (0 < n)%nat → bollinger_shows (bollinger_run sqrt n k ps) n k ps.
Proof.
  intros Hn. unfold bollinger_run. induction ps as [|x ps IH] using rev_ind; [by split_and!|].
  rewrite foldl_app. cbn [foldl]. by apply bollinger_step.
Qed.

(** In exact arithmetic the streaming Bollinger bands are the two-pass ones: from
    the first full window on, the middle band is the mean of the last [n] prices and
    the bands are that many standard deviations away from it, the deviation being the
    square root of the mean squared distance from the mean; before, there is none.
    The clamp of a negative variance never acts. *)
Theorem bollinger_exact (sqrt : Q → Q) n (k : Q) (ps : list Q) (x : Q) (w := lastn n (ps ++ [x])) : (0 < n)%nat →
  let r := (bollinger_update sqrt x (bollinger_run sqrt n k ps)).1 in
  if (length (ps ++ [x]) <? n)%nat then r = None
  else ∃ v var, r = Some v ∧ (bb_middle v == mean w)%Q ∧ (var == variance w)%Q ∧
    (bb_upper v == mean w + k * sqrt var)%Q ∧ (bb_lower v == mean w - k * sqrt var)%Q.
Proof. intros Hn. cbn zeta. apply bollinger_step; [done|]. by apply bollinger_runs. Qed.

(** ** Oscillators *)

Lemma max_element_ge (l : list Q) : ∀ x y : Q, y = x ∨ y ∈ l → (y <= max_element (A := exact_arith) x l)%Q.
Proof.
  induction l as [|z l IH]; intros x y Hy.
  - destruct Hy as [-> |Hy%elem_of_nil]; [apply Qle_refl|done].
  - cbn [max_element foldl]. assert (x <= n_max x z ∧ z <= n_max x z)%Q as [H1 H2].
    { unfold n_max. tt_exact. tt_compare; lra. }
    rewrite elem_of_cons in Hy. destruct Hy as [-> |[-> |Hy]].
    + eapply Qle_trans; [exact H1|]. apply IH. by left.
    + eapply Qle_trans; [exact H2|]. apply IH. by left.
    + apply IH. by right.
Qed.

Lemma min_element_le (l : list Q) : ∀ x y : Q, y = x ∨ y ∈ l → (min_element (A := exact_arith) x l <= y)%Q.
Proof.
  induction l as [|z l IH]; intros x y Hy.
  - destruct Hy as [-> |Hy%elem_of_nil]; [apply Qle_refl|done].
  - cbn [min_element foldl]. assert (n_min x z <= x ∧ n_min x z <= z)%Q as [H1 H2].
    { unfold n_min. tt_exact. tt_compare; lra. }
    rewrite elem_of_cons in Hy. destruct Hy as [-> |[-> |Hy]].
    + eapply Qle_trans; [|exact H1]. apply IH. by left.
    + eapply Qle_trans; [|exact H2]. apply IH. by left.
    + apply IH. by right.
Qed.

Definition percent (x : Q) : Prop := (0 <= x <= 100 # 1)%Q.

Lemma raw_k_percent (highs lows : list Q) (high low close : Q) : high ∈ highs → low ∈ lows → (low <= close <= high)%Q →
  percent (raw_k (A := exact_arith) highs lows close).
Proof.
  intros Hh Hl Hc. unfold raw_k. destruct highs as [|h highs]; [by apply elem_of_nil in Hh|].
  destruct lows as [|l lows]; [by apply elem_of_nil in Hl|]. cbn [list_max list_min default from_option Datatypes.id].
  pose proof (max_element_ge highs h high ltac:(by apply elem_of_cons)) as H1.
  pose proof (min_element_le lows l low ltac:(by apply elem_of_cons)) as H2. unfold percent, n_zero. tt_exact.
  set (hh := max_element _ _) in *. set (ll := min_element _ _) in *. clearbody hh ll. change (@num exact_arith) with Q in *.
  destruct (Qltb_spec 0 (hh - ll)) as [Hlt|Hge]; [|split; unfold Qle; cbn; lia].
  split; [apply Qle_shift_div_l|apply Qle_shift_div_r]; try done; lra.
Qed.

Definition sma_percent (s : simple_moving_average) (n : nat) : Prop :=
  ∃ ps, sma_shows s n ps ∧ Forall percent ps.

Lemma sma_percent_step s n (x : Q) : (0 < n)%nat → sma_percent s n → percent x →
  sma_percent (sma_update x s).2 n ∧ ∀ v, (sma_update x s).1 = Some v → percent v.
Proof.
  intros Hn (ps & Hs & Hp) Hx. destruct (sma_step s n ps x Hn Hs) as [Hs' Hv]. assert (Forall percent (ps ++ [x])) as Hp'.
  { apply Forall_app. split; [done|]. by constructor. }
  split; [by exists (ps ++ [x])|]. intros v Ev. destruct (length (ps ++ [x]) <? n)%nat; [congruence|]. destruct Hv as (v' & Ev' & Em).
  assert (v = v') as -> by congruence. unfold percent. rewrite Em. apply mean_between; [|by apply lastn_Forall].
  pose proof (length_pos n ps x Hn) as Hl. intros E. rewrite E in Hl. cbn in Hl. lia.
Qed.

Record stochastic_ok (s : stochastic_oscillator) : Prop := {
  so_periods : (0 < k_period s)%nat ∧ (0 < k_smoothing s)%nat ∧ (0 < d_period s)%nat;
  so_lengths : length (st_lows s) = length (st_highs s);
  so_raw : sma_percent (raw_k_sma s) (k_smoothing s);
  so_d : sma_percent (d_sma s) (d_period s) }.

Lemma in_trimmed (k m : nat) (l : list Q) x : (0 < k)%nat → length l = m →
  x ∈ (if (k <? m + 1)%nat then drop 1 (l ++ [x]) else l ++ [x]).
Proof.
  intros Hk Hm. destruct (Nat.ltb_spec k (m + 1)) as [Hlt|]; [|apply elem_of_app; right; left].
  destruct l as [|y l]; [cbn in Hm; lia|]. cbn. apply elem_of_app. right. left.
Qed.

(** A bar whose close is within its range keeps the oscillator in its. *)
Lemma stochastic_step s (high low close : Q) : stochastic_ok s → (low <= close <= high)%Q →
  stochastic_ok (stochastic_update high low close s).2 ∧
  ∀ v, (stochastic_update high low close s).1 = Some v → percent (sv_k v) ∧ percent (sv_d v) ∧ percent (sv_raw_k v).
Proof.
  intros [(Hk & Hks & Hd) Hl Hr Hds] Hc. unfold stochastic_update. cbv zeta. rewrite length_app. cbn [length].
  set (full := (k_period s <? _)%nat). match goal with |- context [raw_k ?h ?l _] => set (highs := h); set (lows := l) end.
  assert (length lows = length highs) as Hl'.
  { unfold lows, highs. destruct full; rewrite ?length_drop, !length_app, Hl; done. }
  pose proof (in_trimmed (k_period s) (length (st_highs s)) (st_highs s) high Hk eq_refl) as Hh.
  pose proof (in_trimmed (k_period s) (length (st_highs s)) (st_lows s) low Hk Hl) as Hlo.
  pose proof (raw_k_percent highs lows high low close Hh Hlo Hc) as Hp. destruct (length highs <? k_period s)%nat; [by repeat split|].
  destruct (sma_percent_step (raw_k_sma s) (k_smoothing s) _ Hks Hr Hp) as [Hr' Hv]. destruct (sma_update _ (raw_k_sma s)) as [[k|] sma1]; [|by repeat split].
  specialize (Hv k eq_refl). destruct (sma_percent_step (d_sma s) (d_period s) k Hd Hds Hv) as [Hd' Hv'].
  destruct (sma_update _ (d_sma s)) as [[d|] sma2]; [|by repeat split].
  split; [by repeat split|]. intros v [= <-]. split_and!; [exact Hv|by apply Hv'|exact Hp].
Qed.

(** Feeding bars. *)
Definition feed (s : stochastic_oscillator) (bars : list (Q * Q * Q)) : stochastic_oscillator :=
  foldl (λ s '(h, l, c), (stochastic_update (A := exact_arith) h l c s).2) s bars.

(** The stochastic oscillator stays in its range: for positive periods and bars
    whose close lies between their low and high, every value it returns has its
    smoothed, signal and raw lines between 0 and 100, flat windows included. *)
Theorem stochastic_bounded k ks d (bars : list (Q * Q * Q)) (high low close : Q) v :
  (0 < k)%nat → (0 < ks)%nat → (0 < d)%nat → Forall (λ '(h, l, c), l <= c <= h)%Q (bars ++ [(high, low, close)]) →
  (stochastic_update high low close (feed (mk_stochastic k ks d) bars)).1 = Some v →
  percent (sv_k v) ∧ percent (sv_d v) ∧ percent (sv_raw_k v).
Proof.
  intros Hk Hks Hd [Hb Hlast]%Forall_app Ev. apply Forall_cons in Hlast as [Hlast _]. revert Ev. apply stochastic_step; [|done].
  assert (stochastic_ok (mk_stochastic k ks d)) as H0.
  { split; [done|done|exists []; split; [apply sma_fresh|constructor]..]. }
  revert H0. generalize (mk_stochastic (A := exact_arith) k ks d). unfold feed.
  induction Hb as [|[[h l] c] bars Hx _ IH]; intros s Hs; [done|]. cbn [foldl]. apply IH, stochastic_step; done.
Qed.

(** ** Relative strength index *)

Record rsi_ok (s : relative_strength_index) : Prop := {
  ro_period : (0 < rsi_period s)%nat;
  ro_sums : (0 <= rsi_gain_sum s ∧ 0 <= rsi_loss_sum s)%Q;
  ro_avgs : (0 <= rsi_avg_gain s ∧ 0 <= rsi_avg_loss s)%Q }.

Lemma compute_rsi_percent (g l : Q) : (0 <= g)%Q → (0 <= l)%Q → percent (compute_rsi (A := exact_arith) g l).
Proof.
  intros Hg Hl. unfold compute_rsi, n_eqb, n_zero, n_one, percent. tt_exact. destruct (Qleb_spec l (0 # 1)) as [H1|H1]; cbn [andb].
  - destruct (Qleb_spec (0 # 1) l) as [|H2]; [split; unfold Qle; cbn; lia|]. change (0 # 1)%Q with 0%Q in *. lra.
  - change (0 # 1)%Q with 0%Q in *. assert (0 <= g / l)%Q as Hr by (apply Qle_shift_div_l; lra).
    revert Hr. generalize (g / l)%Q. intros rs Hr. assert (0 <= (100 # 1) / ((1 # 1) + rs) <= 100 # 1)%Q as Hd; [|lra].
    split; [apply Qle_shift_div_l|apply Qle_shift_div_r]; lra.
Qed.

Lemma rsi_step s (price : Q) : rsi_ok s →
  rsi_ok (rsi_update price s).2 ∧ ∀ v, (rsi_update price s).1 = Some v → percent v.
Proof.
  intros [Hp [Hg Hl] [Hag Hal]]. unfold rsi_update. destruct (rsi_has_prev s); cbn [negb]; [|by split].
  set (gain := if (_ >? _)%num then _ else _). set (loss := if (_ <? n_zero)%num then _ else _).
  assert (0 <= gain ∧ 0 <= loss)%Q as [Hgain Hloss].
  { unfold gain, loss, n_zero. tt_exact. change (0 # 1)%Q with 0%Q. change (@num exact_arith) with Q. split; tt_compare; lra. }
  clearbody gain loss. pose proof (inject_pos _ Hp) as Hn. change (inject_Z (Z.of_nat (rsi_period s))) with (n_of_nat (rsi_period s)) in Hn.
  assert (1 <= n_of_nat (rsi_period s))%Q as Hn1.
  { unfold n_of_nat. tt_exact. change 1%Q with (inject_Z 1). change (inject_Z 1 <= inject_Z (Z.of_nat (rsi_period s)))%Q. rewrite <- Zle_Qle. lia. }
  set (n := n_of_nat (rsi_period s)) in *. clearbody n. unfold n_one. tt_exact. change (@num exact_arith) with Q in *. change (1 # 1)%Q with 1%Q.
  assert (∀ a b, 0 <= a → 0 <= b → 0 <= (a * (n - 1) + b) / n)%Q as Hsm.
  { intros a b Ha Hb. apply Qle_shift_div_l; [done|]. nra. }
  assert (∀ a, 0 <= a → 0 <= a / n)%Q as Hdiv by (intros a Ha; apply Qle_shift_div_l; [done|lra]).
  destruct (rsi_initialized s); cbn [negb].
  - split; [split; cbn; [done|done|]; split; by apply Hsm|]. intros v [= <-]. apply compute_rsi_percent; by apply Hsm.
  - assert (0 <= rsi_gain_sum s + gain ∧ 0 <= rsi_loss_sum s + loss)%Q as [H1 H2] by (split; lra).
    destruct (_ =? _)%nat; (split; [split; cbn; [done|done|]; by auto|]); [|done]. intros v [= <-]. apply compute_rsi_percent; auto.
Qed.

(** The relative strength index is between 0 and 100. *)
Theorem rsi_bounded n (ps : list Q) (x v : Q) : (0 < n)%nat →
  (rsi_update x (foldl (λ s p, (rsi_update p s).2) (mk_rsi (A := exact_arith) n) ps)).1 = Some v → percent v.
Proof.
  intros Hn. apply rsi_step. assert (rsi_ok (mk_rsi n)) as H0 by (split; [done|split; apply Qle_refl..]).
  revert H0. generalize (mk_rsi (A := exact_arith) n). induction ps as [|p ps IH]; intros s Hs; [done|]. cbn [foldl]. by apply IH, rsi_step.
Qed.

(** ** Exponential moving average *)

Record ema_ok (lo hi : Q) (s : exponential_moving_average) : Prop := {
  eo_period : (0 < ema_period s)%nat;
  eo_k : (0 <= ema_k s <= 1)%Q;
  eo_sum : (inject_Z (Z.of_nat (ema_count s)) * lo <= ema_sum s <= inject_Z (Z.of_nat (ema_count s)) * hi)%Q;
  eo_value : ema_initialized s = true → ∃ v : Q, ema_last_value s = Some v ∧ (lo <= v <= hi)%Q }.

Lemma ema_step lo hi s (x : Q) : ema_ok lo hi s → (lo <= x <= hi)%Q →
  ema_ok lo hi (ema_update x s).2 ∧ ∀ v, (ema_update x s).1 = Some v → (lo <= v <= hi)%Q.
Proof.
  intros [Hp Hk Hs Hv] Hx. unfold ema_update. destruct (ema_initialized s) eqn:Ei; cbn [negb].
  - destruct (Hv eq_refl) as (v & Ev & Hb). rewrite Ev. cbn [default from_option Datatypes.id]. unfold n_one. tt_exact.
    change (@num exact_arith) with Q in *. change (1 # 1)%Q with 1%Q.
    assert (lo <= x * ema_k s + v * (1 - ema_k s) <= hi)%Q as Hn by (split; nra).
    split; [split; cbn; [done|done|done|]; intros _; by eexists|]. by intros v' [= <-].
  - assert (inject_Z (Z.of_nat (S (ema_count s))) * lo <= ema_sum s + x <= inject_Z (Z.of_nat (S (ema_count s))) * hi)%Q as Hs'.
    { rewrite Nat2Z.inj_succ, <- Z.add_1_r, inject_Z_plus. change (inject_Z 1) with 1%Q. lra. }
    destruct (Nat.eqb_spec (S (ema_count s)) (ema_period s)) as [E|]; [|split; [by split|done]].
    assert (lo <= (ema_sum s + x) / inject_Z (Z.of_nat (ema_period s)) <= hi)%Q as Hm.
    { pose proof (inject_pos _ Hp). rewrite E in Hs'. split; [apply Qle_shift_div_l|apply Qle_shift_div_r]; try done; lra. }
    split; [split; cbn; [done|done|done|]; intros _; by eexists|]. by intros v' [= <-].
Qed.

(** The exponential average lies between the lowest and the highest price seen. *)
Theorem ema_between lo hi n (ps : list Q) (x v : Q) : (0 < n)%nat → Forall (λ p, lo <= p <= hi)%Q (ps ++ [x]) →
  (ema_update x (foldl (λ s p, (ema_update p s).2) (mk_ema (A := exact_arith) n) ps)).1 = Some v → (lo <= v <= hi)%Q.
Proof.
  intros Hn [Hps Hx]%Forall_app. apply Forall_cons in Hx as [Hx _]. apply ema_step; [|done].
  assert (ema_ok lo hi (mk_ema n)) as H0.
  { split; [done| | |done]; cbn.
    - pose proof (inject_pos n Hn). change (Z.of_nat n # 1)%Q with (inject_Z (Z.of_nat n)).
      assert (1 <= inject_Z (Z.of_nat n))%Q by (change 1%Q with (inject_Z 1); rewrite <- Zle_Qle; lia).
      split; [apply Qle_shift_div_l|apply Qle_shift_div_r]; change (1 # 1)%Q with 1%Q; lra.
    - change (inject_Z (Z.of_nat 0)) with 0%Q. split; lra. }
  revert H0. generalize (mk_ema (A := exact_arith) n). induction Hps as [|p ps Hp _ IH]; intros s Hs; [done|]. cbn [foldl].
  by apply IH, ema_step.
Qed.

(** ** Witnesses *)

Definition some_prices : list Q := [10 # 1; 12 # 1; 11 # 1]%Q.
Lemma bollinger_exact_witness : ∃ v, (bollinger_update (λ x, x) (14 # 1) (bollinger_run (λ x, x) 3 (2 # 1) some_prices)).1 = Some v ∧
  (bb_middle v == mean (lastn 3 (some_prices ++ [14 # 1])))%Q.
Proof.
  pose proof (bollinger_exact (λ x, x) 3 (2 # 1) some_prices (14 # 1) ltac:(lia)) as H. cbn zeta in H.
  destruct H as (v & var & E & Em & _). exists v. split; [exact E|exact Em].
Defined.

Definition some_bars : list (Q * Q * Q) := [(3 # 1, 1 # 1, 2 # 1); (4 # 1, 2 # 1, 4 # 1)]%Q.
Lemma stochastic_bounded_witness : ∃ v,
  (stochastic_update (A := exact_arith) (5 # 1) (2 # 1) (3 # 1) (feed (mk_stochastic (A := exact_arith) 2 1 1) some_bars)).1 = Some v ∧ percent (sv_raw_k v).
Proof.
  eexists. split; [reflexivity|]. apply (stochastic_bounded 2 1 1 some_bars (5 # 1) (2 # 1) (3 # 1)); [lia..| |reflexivity].
  unfold some_bars. cbn [app]. repeat constructor; unfold Qle; cbn; lia.
Defined.
