(* ===== verification/LocalAdapter.v ===== *)
(** * The simulated execution adapter (class LocalBookAdapter of
    src/src/execution/execution_adapter.h, with types/price.h)

    It sends a strategy's orders to the order book, turns the trades into fills,
    and keeps the orders that rest so that later trades against them, by other
    orders or by the market maker's quotes, are reported too.  It is written
    against an interface of the book; the book of OrderBook.v implements it.

    The adapter shares each resting order object with the book.  The book changes
    an order object only by filling it in a trade it reports, so the adapter's
    view of the object follows the trades: [touch]. *)

From Stdlib Require Import QArith Qabs Lqa.
From S2P Require Import Prelude Float64 Event NodeHeap OrderBook BookSpec BookRefine BookMatch Arith Portfolio.

Open Scope string_scope.
Open Scope list_scope.
Open Scope Z_scope.

(** ** The book, as the adapter uses it *)

Class Book (B : Type) := {
  bk_create : ob_order_type → Z → side → Z → Z → B → exc order * B;
  bk_add : order → B → exc (list trade * B);
  bk_cancel : Z → B → exc B;
  bk_modify : Z → Z → Z → B → exc bool * B;
  bk_infos : B → orderbook_lvl_infos }.

(** What it promises: it shows an abstract book and acts on it by price and time. *)
Class BookLaws (B : Type) `{Book B} := {
  bk_shows : B → sbook → Prop;
  bk_shows_ok b sb : bk_shows b sb → sb_ok sb;
  bk_create_ok t id s p q b sb : bk_shows b sb →
    ∃ r b', bk_create t id s p q b = (r, b') ∧ bk_shows b' sb ∧ (r = Ret (mk_order t id s p q) ∨ ∃ w, r = Throw w);
  bk_add_ok o b sb : bk_shows b sb → in_u 64 (o_remaining o) →
    ∃ b', bk_add o b = Ret ((sp_add o sb).1, b') ∧ bk_shows b' (sp_add o sb).2;
  bk_cancel_ok id b sb : bk_shows b sb → ∃ b', bk_cancel id b = Ret b' ∧ bk_shows b' (sp_cancel id sb);
  bk_modify_ok id p q b sb : bk_shows b sb → in_u 64 q →
    ∃ r b' sb', bk_modify id p q b = (r, b') ∧ bk_shows b' sb' ∧
      (sb' = sb ∨ sb' = sp_cancel id sb ∨ ∃ o, sp_find id sb = Some o ∧ sb' = sp_modify o p q sb) }.

#[export] Instance orderbook_Book {P} `{OrderPool P} : Book (orderbook P) :=
  {| bk_create := create_order; bk_add := add_order; bk_cancel := cancel_order; bk_modify := modify_order;
     bk_infos := get_order_infos |}.

#[export] Program Instance orderbook_BookLaws {P} `{OrderPool P} : BookLaws (orderbook P) :=
  {| bk_shows := refines |}.
Next Obligation. intros P HP b sb (vs & fs & Hok & <-). by eapply refines_ok. Qed.
Next Obligation.
  intros P HP t id s p q b sb (vs & fs & Hok & <-). destruct (create_order_ok t id s p q b vs fs Hok) as (r & b' & E & Hok' & Hr).
  exists r, b'. split_and!; [done| |done]. by exists vs, fs.
Qed.
Next Obligation.
  intros P HP o b sb (vs & fs & Hok & <-) Hr. destruct (add_order_ok o b vs fs Hok Hr) as (b' & vs' & fs' & E & Hok' & <-).
  exists b'. split; [done|]. by exists vs', fs'.
Qed.
Next Obligation.
  intros P HP id b sb (vs & fs & Hok & <-). destruct (cancel_order_ok id b vs fs Hok) as (b' & vs' & fs' & E & Hok' & <-).
  exists b'. split; [done|]. by exists vs', fs'.
Qed.
Next Obligation.
  intros P HP id p q b sb (vs & fs & Hok & <-) Hq. pose proof (modify_order_ok id p q b vs fs Hok Hq) as Hm. cbn.
  destruct (sp_find id (flat vs)) as [o|] eqn:E.
  - destruct Hm as (b1 & r & b' & vs' & fs' & _ & E2 & Hok' & Hr). exists r, b', (flat vs').
    split_and!; [done|by exists vs', fs'|]. destruct (create_order _ _ _ _ _ _).1; destruct Hr as [_ ->]; eauto.
  - exists (Ret false), b, (flat vs). split_and!; [done|by exists vs, fs|by left].
Qed.

Section Adapter.
Context {A : Arith} {HO : HashOrder} {B : Type} `{Book B}.

(** ** Prices: fixed point with four decimals *)

Definition SCALE : Z := 10000.
Definition price_from_double (d : num) : Z := n_llround (d * n_lit SCALE 1)%num.
Definition price_to_double (p : Z) : num := (n_lit p 1 / n_lit SCALE 1)%num.

(** ** Models and configuration *)

Record fill_model := { get_fade_rate : num; get_fill_probability : order_side → num → num }.
Definition PerfectFillModel : fill_model := {| get_fade_rate := n_zero; get_fill_probability := λ _ _, n_one |}.

(** [exp_] is [std::exp]. *)
Definition RealisticFillModel (exp_ : num → num) (fade_rate base_fill_prob distance_decay : num) : fill_model :=
  {| get_fade_rate := n_clamp fade_rate n_zero n_one;
     get_fill_probability := λ _ d, (n_clamp base_fill_prob n_zero n_one * exp_ (- distance_decay * n_abs d))%num |}.

(** The fee model takes the side, quantity, price and whether the fill took; the
    impact model the side, quantity and reference price. *)
Record adapter_config := {
  fee_model_ : option (order_side → num → num → bool → num);
  fill_model_ : option fill_model;
  impact_model_ : option (order_side → num → num → num);
  latency_model_ : bool;
  market_aggression_ : num;
  qty_scale_ : num;
  walked_book_impact_ : bool }.

Definition ZeroImpactModel : order_side → num → num → num := λ _ _ px, px.
(** [sqrt_] is [std::sqrt]. *)
Definition SquareRootImpactModel (sqrt_ : num → num) (k_bps adv : num) : order_side → num → num → num := λ s qty px,
  if negb (adv >? n_zero)%num || negb (qty >? n_zero)%num || negb (px >? n_zero)%num then px else
  let impact_frac := (k_bps * sqrt_ (qty / adv) / n_lit 10000 1)%num in
  let sign := if bool_decide (s = side_buy) then n_one else (- n_one)%num in
  (px * (n_one + sign * impact_frac))%num.

(** What the adapter reads of an order. *)
Record local_order := {
  lo_id : Z;
  lo_symbol : string;
  lo_type : order_type;
  lo_side : order_side;
  lo_quantity : num;
  lo_price : num;
  lo_tif : time_in_force;
  lo_eligible : time_point;
  lo_recv_ns : Z }.

Record local_fill := {
  lf_ts : time_point;
  lf_symbol : string;
  lf_order_id : Z;
  lf_side : order_side;
  lf_quantity : num;
  lf_price : num;
  lf_commission : num;
  lf_remaining : num;
  lf_fill_id : Z;
  lf_recv_ns : Z;
  lf_latency_ns : Z }.

Record resting_info := { book_order : order; ri_symbol : string; ri_side : order_side }.

Record local_adapter := {
  la_pending_fills : list local_fill;
  la_mid_price : num;
  la_next_fill_id : Z;
  la_resting : gmap Z resting_info;
  la_l2_seeded : bool;
  la_pending_cancels : gmap Z time_point;
  la_current_time : time_point }.

Definition mk_local_adapter : local_adapter :=
  {| la_pending_fills := []; la_mid_price := n_zero; la_next_fill_id := 1; la_resting := ∅; la_l2_seeded := false;
     la_pending_cancels := ∅; la_current_time := 0 |}.

Definition set_resting (r : gmap Z resting_info) (a : local_adapter) : local_adapter :=
  {| la_pending_fills := la_pending_fills a; la_mid_price := la_mid_price a; la_next_fill_id := la_next_fill_id a;
     la_resting := r; la_l2_seeded := la_l2_seeded a; la_pending_cancels := la_pending_cancels a;
     la_current_time := la_current_time a |}.
Definition set_cancels (t : time_point) (c : gmap Z time_point) (a : local_adapter) : local_adapter :=
  {| la_pending_fills := la_pending_fills a; la_mid_price := la_mid_price a; la_next_fill_id := la_next_fill_id a;
     la_resting := la_resting a; la_l2_seeded := la_l2_seeded a; la_pending_cancels := c; la_current_time := t |}.
Definition set_mid_price (px : num) (a : local_adapter) : local_adapter :=
  {| la_pending_fills := la_pending_fills a; la_mid_price := px; la_next_fill_id := la_next_fill_id a;
     la_resting := la_resting a; la_l2_seeded := la_l2_seeded a; la_pending_cancels := la_pending_cancels a;
     la_current_time := la_current_time a |}.
Definition set_l2_seeded (s : bool) (a : local_adapter) : local_adapter :=
  {| la_pending_fills := la_pending_fills a; la_mid_price := la_mid_price a; la_next_fill_id := la_next_fill_id a;
     la_resting := la_resting a; la_l2_seeded := s; la_pending_cancels := la_pending_cancels a;
     la_current_time := la_current_time a |}.

(** [pending_fills_.emplace_back(..., next_fill_id_++)] *)
Definition emit (f : Z → local_fill) (a : local_adapter) : local_adapter :=
  {| la_pending_fills := la_pending_fills a ++ [f (la_next_fill_id a)]; la_mid_price := la_mid_price a;
     la_next_fill_id := u64 (la_next_fill_id a + 1); la_resting := la_resting a; la_l2_seeded := la_l2_seeded a;
     la_pending_cancels := la_pending_cancels a; la_current_time := la_current_time a |}.

Definition poll_local_fills (a : local_adapter) : list local_fill * local_adapter :=
  (la_pending_fills a,
   {| la_pending_fills := []; la_mid_price := la_mid_price a; la_next_fill_id := la_next_fill_id a;
      la_resting := la_resting a; la_l2_seeded := la_l2_seeded a; la_pending_cancels := la_pending_cancels a;
      la_current_time := la_current_time a |}).

(** ** The shared order objects *)

(** What the trades fill of an order, on either leg. *)
Definition fills_in (id : Z) (ts : list trade) : Z := filled_of buy id ts + filled_of sell id ts.
Definition touch (ts : list trade) (o : order) : order := o_set_remaining o (u64 (o_remaining o - fills_in (o_id o) ts)).
Definition touch_resting (ts : list trade) (a : local_adapter) : local_adapter :=
  set_resting ((λ r, {| book_order := touch ts (book_order r); ri_symbol := ri_symbol r; ri_side := ri_side r |})
                 <$> la_resting a) a.

Context (cf : adapter_config).

Definition units (q : Z) : num := (n_lit q 1 / qty_scale_ cf)%num.
Definition commission (s : order_side) (q px : num) (taker : bool) : num :=
  match fee_model_ cf with Some fee => fee s q px taker | None => n_zero end.

Definition record_resting_fill (ti : trade_info) (ts : time_point) (a : local_adapter) : local_adapter :=
  match la_resting a !! ti_order_id ti with
  | None => a
  | Some r =>
      let fill_qty := units (ti_quantity ti) in
      let fill_price := price_to_double (ti_price ti) in
      let a := emit (λ n, {| lf_ts := ts; lf_symbol := ri_symbol r; lf_order_id := ti_order_id ti; lf_side := ri_side r;
                             lf_quantity := fill_qty; lf_price := fill_price;
                             lf_commission := commission (ri_side r) fill_qty fill_price false;
                             lf_remaining := units (o_remaining (book_order r)); lf_fill_id := n; lf_recv_ns := 0;
                             lf_latency_ns := 0 |}) a in
      if is_filled (book_order r) then set_resting (delete (ti_order_id ti) (la_resting a)) a else a
  end.

(** ** Submission *)

Definition book_order_type (t : time_in_force) : ob_order_type :=
  match t with tif_fok => fill_or_kill | tif_ioc => immediate_or_cancel | _ => good_till_cancel end.
Definition book_side (s : order_side) : side := if bool_decide (s = side_buy) then buy else sell.

(** The fill model lets a limit order through by its distance and a random draw. *)
Definition lets_through (o : local_order) (draw : num) (a : local_adapter) : bool :=
  match fill_model_ cf with
  | Some fm =>
      if bool_decide (lo_type o = ot_limit) && (la_mid_price a >? n_zero)%num then
        let distance := (n_abs (lo_price o - la_mid_price a) / la_mid_price a)%num in
        negb (draw >? get_fill_probability fm (lo_side o) distance)%num
      else true
  | None => true
  end.

Fixpoint walk_levels (remaining cost consumed : num) (levels : list lvl_info) : num * num * num :=
  match levels with
  | [] => (remaining, cost, consumed)
  | l :: levels =>
      if (remaining <=? n_zero)%num then (remaining, cost, consumed) else
      let take := n_min remaining (n_lit (li_quantity l) 1) in
      walk_levels (remaining - take)%num (cost + take * price_to_double (li_price l))%num (consumed + take)%num levels
  end.

Definition walked_book_vwap (s : order_side) (qty : num) (b : B) : num :=
  let levels := if bool_decide (s = side_buy) then get_asks (bk_infos b) else get_bids (bk_infos b) in
  let '(remaining, cost, consumed) := walk_levels (qty * qty_scale_ cf)%num n_zero n_zero levels in
  if (remaining >? n_zero)%num || (consumed <=? n_zero)%num then n_zero else (cost / consumed)%num.

Definition reference_price (o : local_order) (a : local_adapter) (b : B) : num :=
  let ref_price := if (la_mid_price a >? n_zero)%num then la_mid_price a else lo_price o in
  let vwap := if walked_book_impact_ cf && la_l2_seeded a then walked_book_vwap (lo_side o) (lo_quantity o) b else n_zero in
  if (vwap >? n_zero)%num then vwap else
  match impact_model_ cf with Some impact => impact (lo_side o) (lo_quantity o) ref_price | None => ref_price end.

Definition book_price (o : local_order) (a : local_adapter) (b : B) : Z :=
  if bool_decide (lo_type o = ot_market) then
    let ref_price := reference_price o a b in
    if bool_decide (book_side (lo_side o) = buy) then price_from_double (ref_price * market_aggression_ cf)%num
    else price_from_double (ref_price * (n_lit 2 1 - market_aggression_ cf))%num
  else price_from_double (lo_price o).

Definition book_quantity (q : num) : Z := u64 (n_llround (q * qty_scale_ cf)%num).

Definition is_taker (o : local_order) (a : local_adapter) : bool :=
  bool_decide (lo_type o = ot_market) ||
  (bool_decide (lo_side o = side_buy) && (la_mid_price a >? n_zero)%num && (lo_price o >=? la_mid_price a)%num) ||
  (bool_decide (lo_side o = side_sell) && (la_mid_price a >? n_zero)%num && (lo_price o <=? la_mid_price a)%num).

Definition own_fill (o : local_order) (ours counter : trade_info) (remaining : Z) (now_ns : Z) (a : local_adapter)
    : local_adapter :=
  let fill_price := price_to_double (ti_price counter) in
  let fade := match fill_model_ cf with Some fm => get_fade_rate fm | None => n_zero end in
  let faded := (fade >? n_zero)%num in
  let fill_qty := if faded then (units (ti_quantity ours) * (n_one - fade))%num else units (ti_quantity ours) in
  if faded && (fill_qty <=? n_zero)%num then a else
  emit (λ n, {| lf_ts := lo_eligible o; lf_symbol := lo_symbol o; lf_order_id := lo_id o; lf_side := lo_side o;
                lf_quantity := fill_qty; lf_price := fill_price;
                lf_commission := match fee_model_ cf with
                                 | Some fee => fee (lo_side o) fill_qty fill_price (is_taker o a) | None => n_zero end;
                lf_remaining := units remaining; lf_fill_id := n; lf_recv_ns := lo_recv_ns o;
                lf_latency_ns := if 0 <? lo_recv_ns o then i64 (now_ns - lo_recv_ns o) else 0 |}) a.

(** One trade of the order's own matching: its counterparty may be a resting order
    of ours; [remaining] is what the whole matching left of it. *)
Definition on_own_trade (o : local_order) (remaining : Z) (now_ns : Z) (a : local_adapter) (t : trade) : local_adapter :=
  let we_are_bid := ti_order_id (tr_bid t) =? lo_id o in
  let ours := if we_are_bid then tr_bid t else tr_ask t in
  let counter := if we_are_bid then tr_ask t else tr_bid t in
  let a := if negb (ti_order_id counter =? lo_id o) then record_resting_fill counter (lo_eligible o) a else a in
  if ti_order_id ours =? lo_id o then own_fill o ours counter remaining now_ns a else a.

Definition submit_local_order (o : local_order) (draw : num) (now_ns : Z) (a : local_adapter) (b : B)
    : exc unit * local_adapter * B :=
  if bool_decide (lo_type o = ot_stop) || bool_decide (lo_type o = ot_stop_limit) then (Ret (), a, b) else
  if negb (lets_through o draw a) then (Ret (), a, b) else
  let typ := book_order_type (lo_tif o) in
  match bk_create typ (lo_id o) (book_side (lo_side o)) (book_price o a b) (book_quantity (lo_quantity o)) b with
  | (Throw w, b1) => (Throw w, a, b1)
  | (Ret bo, b1) =>
      match bk_add bo b1 with
      | Throw w => (Throw w, a, b1)
      | Ret (ts, b2) =>
          let a1 := touch_resting ts a in
          let bo' := touch ts bo in
          let a2 := if bool_decide (typ = good_till_cancel) && (0 <? o_remaining bo')
                    then set_resting (<[lo_id o := {| book_order := bo'; ri_symbol := lo_symbol o; ri_side := lo_side o |}]>
                                        (la_resting a1)) a1
                    else a1 in
          (Ret (), foldl (on_own_trade o (o_remaining bo') now_ns) a2 ts, b2)
      end
  end.

(** ** Cancels, modifications and time *)

Definition forget_resting (id : Z) (a : local_adapter) : local_adapter := set_resting (delete id (la_resting a)) a.

(** [lat]: the latency model's answer. *)
Definition cancel_local_order (id : Z) (lat : Z) (a : local_adapter) (b : B) : exc bool * local_adapter * B :=
  if latency_model_ cf then
    (Ret true, set_cancels (la_current_time a) (<[id := la_current_time a + lat]> (la_pending_cancels a)) a, b)
  else
    match bk_cancel id b with
    | Ret b' => (Ret true, forget_resting id a, b')
    | Throw w => (Throw w, a, b)
    end.

Definition modify_local_order (id : Z) (new_price new_qty : num) (a : local_adapter) (b : B)
    : exc bool * local_adapter * B :=
  let '(r, b') := bk_modify id (price_from_double new_price) (book_quantity new_qty) b in
  (r, forget_resting id a, b').

Fixpoint expire_cancels (ts : time_point) (cs : list (Z * time_point)) (a : local_adapter) (b : B)
    : exc unit * local_adapter * B :=
  match cs with
  | [] => (Ret (), a, b)
  | (id, due) :: cs =>
      if due <=? ts then
        match bk_cancel id b with
        | Ret b' =>
            expire_cancels ts cs
              (set_cancels ts (delete id (la_pending_cancels a)) (forget_resting id a)) b'
        | Throw w => (Throw w, a, b)
        end
      else expire_cancels ts cs a b
  end.
Definition advance_time (ts : time_point) (a : local_adapter) (b : B) : exc unit * local_adapter * B :=
  let a := set_cancels ts (la_pending_cancels a) a in
  expire_cancels ts (iter (la_pending_cancels a)) a b.

(** ** Trades of others *)

Definition on_book_trades (ts : list trade) (at_ : time_point) (a : local_adapter) : local_adapter :=
  foldl (λ a t, record_resting_fill (tr_ask t) at_ (record_resting_fill (tr_bid t) at_ a)) a ts.

(** Another client adds an order to the book the adapter shares: the resting
    objects change with the trades, the adapter learns of them later. *)
Definition external_add (o : order) (a : local_adapter) (b : B) : exc (list trade) * local_adapter * B :=
  match bk_add o b with
  | Ret (ts, b') => (Ret ts, touch_resting ts a, b')
  | Throw w => (Throw w, a, b)
  end.

Definition traversed (low high : num) (r : resting_info) : bool :=
  let px := price_to_double (o_price (book_order r)) in
  if bool_decide (ri_side r = side_buy) then (low <=? px)%num else (high >=? px)%num.

Fixpoint sweep_loop (symbol : string) (low high : num) (ts : time_point) (rs : list (Z * resting_info)) (any : bool)
    (a : local_adapter) (b : B) : exc bool * local_adapter * B :=
  match rs with
  | [] => (Ret any, a, b)
  | (id, r) :: rs =>
      if negb (bool_decide (ri_symbol r = symbol)) then sweep_loop symbol low high ts rs any a b else
      if bool_decide (is_Some (la_pending_cancels a !! id)) then sweep_loop symbol low high ts rs any a b else
      if negb (traversed low high r) then sweep_loop symbol low high ts rs any a b else
      let fill_qty := units (o_remaining (book_order r)) in
      if (fill_qty <=? n_zero)%num then sweep_loop symbol low high ts rs any (forget_resting id a) b else
      let px := price_to_double (o_price (book_order r)) in
      let a := emit (λ n, {| lf_ts := ts; lf_symbol := ri_symbol r; lf_order_id := id; lf_side := ri_side r;
                             lf_quantity := fill_qty; lf_price := px;
                             lf_commission := commission (ri_side r) fill_qty px false; lf_remaining := n_zero;
                             lf_fill_id := n; lf_recv_ns := 0; lf_latency_ns := 0 |}) a in
      match bk_cancel id b with
      | Ret b' => sweep_loop symbol low high ts rs true (forget_resting id a) b'
      | Throw w => (Throw w, a, b)
      end
  end.

Definition sweep_resting_range (symbol : string) (low high : num) (ts : time_point) (a : local_adapter) (b : B)
    : exc bool * local_adapter * B :=
  if bool_decide (la_resting a = ∅) || negb (low >? n_zero)%num || negb (high >? n_zero)%num then (Ret false, a, b) else
  let '(low, high) := if (low >? high)%num then (high, low) else (low, high) in
  sweep_loop symbol low high ts (iter (la_resting a)) false a b.

End Adapter.
