(* ===== verification/MarketMaker.v ===== *)
(** * The market maker (src/src/market_maker/market_maker.h, market_maker.cpp)

    It seeds the simulated book: on every quote update it pulls its previous
    quotes and inserts a ladder around the price, as wide as the recent volatility
    asks for up to a cap.  The trades of the insertion are returned, they are the
    fills of resting strategy orders. *)

From Stdlib Require Import QArith Qabs Lqa.
From S2P Require Import Prelude Float64 Event NodeHeap OrderBook BookSpec BookRefine BookMatch BookTheorems Arith Portfolio LocalAdapter.

Open Scope string_scope.
Open Scope list_scope.
Open Scope Z_scope.

Section MarketMaker.
Context {A : Arith} {B : Type} `{Book B}.
(** [std::sqrt] *)
Context (sqrt : num → num).

Record mm_order := { mo_side : order_side; mo_price : num; mo_quantity : num }.

Record mm_calibration := {
  levels_per_side : Z;
  base_depth : Z;
  base_spread_pct : num;
  vol_spread_mult : num;
  max_half_spread_pct : num }.
Definition default_calibration : mm_calibration :=
  {| levels_per_side := 10; base_depth := 100; base_spread_pct := n_lit 2 1000; vol_spread_mult := n_lit 25 100;
     max_half_spread_pct := n_lit 5 100 |}.

(** Books are named by their addresses. *)
Record MarketMaker := {
  calibration : mm_calibration;
  price_history_ : list num;
  live_quotes_ : gmap Z (list Z) }.

Definition mk_MarketMaker : MarketMaker :=
  {| calibration := default_calibration; price_history_ := []; live_quotes_ := ∅ |}.
Definition set_calibration (c : mm_calibration) (m : MarketMaker) : MarketMaker :=
  {| calibration := c; price_history_ := price_history_ m; live_quotes_ := live_quotes_ m |}.
Definition set_history (h : list num) (m : MarketMaker) : MarketMaker :=
  {| calibration := calibration m; price_history_ := h; live_quotes_ := live_quotes_ m |}.
Definition set_live (book : Z) (l : list Z) (m : MarketMaker) : MarketMaker :=
  {| calibration := calibration m; price_history_ := price_history_ m; live_quotes_ := <[book := l]> (live_quotes_ m) |}.
(** The generator's new seed is outside the model. *)
Definition mm_reset (m : MarketMaker) : MarketMaker :=
  {| calibration := calibration m; price_history_ := []; live_quotes_ := ∅ |}.

Definition volatility_window_ : nat := 50.

(** ** Volatility *)

Fixpoint bar_returns (l : list num) : list num :=
  match l with
  | p :: (q :: _) as l' => if (p >? n_zero)%num then ((q - p) / p)%num :: bar_returns l' else bar_returns l'
  | _ => []
  end.
Definition n_sum (l : list num) : num := foldl n_add n_zero l.

Definition compute_volatility (m : MarketMaker) : num :=
  match bar_returns (price_history_ m) with
  | [] => n_zero
  | returns =>
      let n := n_lit (Z.of_nat (length returns)) 1 in
      let mean := (n_sum returns / n)%num in
      let sq_sum := n_sum ((λ r, (r - mean) * (r - mean))%num <$> returns) in
      sqrt (sq_sum / n)%num
  end.

(** ** The ladder *)

Definition push_price (px : num) (h : list num) : list num :=
  let h := h ++ [px] in if (volatility_window_ <? length h)%nat then drop 1 h else h.

Definition half_spread (m : MarketMaker) : num :=
  let c := calibration m in
  n_min (base_spread_pct c + compute_volatility m * vol_spread_mult c)%num (max_half_spread_pct c).

Definition quotes_at (price half : num) (depth : Z) (i : Z) : list mm_order :=
  let distance := (half * n_lit i 1)%num in
  let bid := (price * (n_one - distance))%num in
  let ask := (price * (n_one + distance))%num in
  let q := n_lit (i32 (depth * i)) 1 in
  (if 0 <? price_from_double bid then [{| mo_side := side_buy; mo_price := bid; mo_quantity := q |}] else []) ++
  [{| mo_side := side_sell; mo_price := ask; mo_quantity := q |}].

Definition compute_replenish (current_price : num) (update_history : bool) (m : MarketMaker)
    : list mm_order * MarketMaker :=
  if (current_price <=? n_zero)%num then ([], m) else
  let m := if update_history then set_history (push_price current_price (price_history_ m)) m else m in
  let half := half_spread m in
  (concat (quotes_at current_price half (base_depth (calibration m)) <$> seqZ 1 (levels_per_side (calibration m))), m).

(** ** Inserting quotes *)

Fixpoint cancel_quotes (ids : list Z) (b : B) : exc B :=
  match ids with [] => Ret b | id :: ids => b' ← bk_cancel id b; cancel_quotes ids b' end.

Definition quote_units (q : num) : Z := u64 (n_llround (q * n_lit 100000000 1)%num).
Definition quote_side (s : order_side) : side := if bool_decide (s = side_buy) then buy else sell.

(** The loop of [replenish]: the trades and the ids so far, also when it throws; [c]
    is the process's order id counter. *)
Fixpoint add_quotes (qs : list mm_order) (c : Z) (b : B) : exc unit * (list trade * list Z) * Z * B :=
  match qs with
  | [] => (Ret (), ([], []), c, b)
  | q :: qs =>
      let '(id, c1) := next_order_id c in
      match bk_create good_till_cancel id (quote_side (mo_side q)) (price_from_double (mo_price q))
              (quote_units (mo_quantity q)) b with
      | (Throw w, b1) => (Throw w, ([], []), c1, b1)
      | (Ret o, b1) =>
          match bk_add o b1 with
          | Throw w => (Throw w, ([], []), c1, b1)
          | Ret (ts, b2) =>
              let '(r, (ts', ids), c2, b3) := add_quotes qs c1 b2 in
              (r, (ts ++ ts', id :: ids), c2, b3)
          end
      end
  end.

Definition replenish (book : Z) (current_price : num) (update_history : bool) (m : MarketMaker) (c : Z) (b : B)
    : exc (list trade) * MarketMaker * Z * B :=
  match cancel_quotes (default [] (live_quotes_ m !! book)) b with
  | Throw w => (Throw w, m, c, b)
  | Ret b1 =>
      let '(qs, m1) := compute_replenish current_price update_history (set_live book [] m) in
      let '(r, (ts, ids), c2, b2) := add_quotes qs c b1 in
      (match r with Ret _ => Ret ts | Throw w => Throw w end, set_live book ids m1, c2, b2)
  end.

(** [add_orders]: pairs of quotes at random distances, [spreads]; their trades are
    dropped. *)
Fixpoint add_orders (price : num) (spreads : list num) (c : Z) (b : B) : exc unit * Z * B :=
  match spreads with
  | [] => (Ret (), c, b)
  | s :: spreads =>
      let '(id1, c1) := next_order_id c in
      match bk_create good_till_cancel id1 buy (price_from_double (price * (n_one - s))%num) 10000000000 b with
      | (Throw w, b1) => (Throw w, c1, b1)
      | (Ret o1, b1) =>
          let '(id2, c2) := next_order_id c1 in
          match bk_create good_till_cancel id2 sell (price_from_double (price * (n_one + s))%num) 10000000000 b1 with
          | (Throw w, b2) => (Throw w, c2, b2)
          | (Ret o2, b2) =>
              match bk_add o1 b2 with
              | Throw w => (Throw w, c2, b2)
              | Ret (_, b3) =>
                  match bk_add o2 b3 with
                  | Throw w => (Throw w, c2, b3)
                  | Ret (_, b4) => add_orders price spreads c2 b4
                  end
              end
          end
      end
  end.

End MarketMaker.
