(* ===== verification/ShadowAdapter.v ===== *)
(** * The shadow adapter (class TradeTapeShadowAdapter of
    src/src/execution/trade_tape_shadow_adapter.h, with queue_position_model.h)

    In shadow mode the strategy's orders are not sent: they are matched against the
    live trade tape.  A print that crosses an order pays down the queue ahead of it
    and then fills it, order by order until the print is used up. *)

From Stdlib Require Import QArith Qabs Lqa.
From S2P Require Import Prelude Float64 Event Arith Portfolio LocalAdapter.

Open Scope string_scope.
Open Scope list_scope.
Open Scope Z_scope.

Section Shadow.
Context {A : Arith} {HO : HashOrder}.

(** ** Queue position from level-2 data *)

(** A [std::map] keyed by a price: keys neither of which is less are the same. *)
Definition same_key (a b : num) : bool := negb (a <? b)%num && negb (b <? a)%num.
Fixpoint lv_find (p : num) (m : list (num * num)) : option num :=
  match m with [] => None | (k, q) :: m => if same_key k p then Some q else lv_find p m end.
Fixpoint lv_set (p q : num) (m : list (num * num)) : list (num * num) :=
  match m with [] => [(p, q)] | (k, v) :: m => if same_key k p then (k, q) :: m else (k, v) :: lv_set p q m end.
Fixpoint lv_erase (p : num) (m : list (num * num)) : list (num * num) :=
  match m with [] => [] | (k, v) :: m => if same_key k p then m else (k, v) :: lv_erase p m end.

Record book_t := { bt_bids : list (num * num); bt_asks : list (num * num); bt_last_update : time_point }.
Record L2SnapshotQueueModel := { l2_books : gmap string book_t; l2_max_staleness : Z }.

Definition set_levels (ls : list (num * num)) : list (num * num) :=
  foldl (λ m '(p, q), if (q >? n_zero)%num then lv_set p q m else m) [] ls.
Definition l2_on_snapshot (symbol : string) (bids asks : list (num * num)) (now : time_point) (m : L2SnapshotQueueModel)
    : L2SnapshotQueueModel :=
  {| l2_books := <[symbol := {| bt_bids := set_levels bids; bt_asks := set_levels asks; bt_last_update := now |}]> (l2_books m);
     l2_max_staleness := l2_max_staleness m |}.

Definition no_book : book_t := {| bt_bids := []; bt_asks := []; bt_last_update := 0 |}.
Definition l2_on_update (symbol : string) (side : order_side) (price new_size : num) (now : time_point) (m : L2SnapshotQueueModel)
    : L2SnapshotQueueModel :=
  let book := default no_book (l2_books m !! symbol) in
  let change levels := if (new_size >? n_zero)%num then lv_set price new_size levels else lv_erase price levels in
  let book' := if bool_decide (side = side_buy)
               then {| bt_bids := change (bt_bids book); bt_asks := bt_asks book; bt_last_update := now |}
               else {| bt_bids := bt_bids book; bt_asks := change (bt_asks book); bt_last_update := now |} in
  {| l2_books := <[symbol := book']> (l2_books m); l2_max_staleness := l2_max_staleness m |}.

Definition l2_queue_ahead (symbol : string) (side : order_side) (limit_price : num) (ts : time_point) (m : L2SnapshotQueueModel) : num :=
  match l2_books m !! symbol with
  | None => n_zero
  | Some book =>
      if l2_max_staleness m <? ts - bt_last_update book then n_zero else
      default n_zero (lv_find limit_price (if bool_decide (side = side_buy) then bt_bids book else bt_asks book))
  end.

(** The queue model the adapter has: none, the one that knows nothing, or the
    snapshots. *)
Inductive queue_position_model := NoQueueModel | L2Model (m : L2SnapshotQueueModel).
Definition queue_ahead_of (qm : queue_position_model) (symbol : string) (side : order_side) (px : num) (ts : time_point) : num :=
  match qm with NoQueueModel => n_zero | L2Model m => l2_queue_ahead symbol side px ts m end.

(** ** Orders and fills *)

Record open_order := {
  oo_engine_id : Z;
  oo_symbol : string;
  oo_side : order_side;
  oo_type : order_type;
  oo_limit_price : num;
  oo_qty_remaining : num;
  oo_queue_ahead : num;
  oo_initial_queue : num;
  oo_queue_consumed : num;
  oo_counted_drain : bool;
  oo_submit_ts : time_point;
  oo_strategy_name : string;
  oo_opener_order_id : Z }.

Record tape_fill := {
  tf_ts : time_point;
  tf_symbol : string;
  tf_order_id : Z;
  tf_side : order_side;
  tf_quantity : num;
  tf_price : num;
  tf_commission : num;
  tf_remaining : num;
  tf_fill_id : Z;
  tf_strategy_name : string;
  tf_opener_order_id : Z;
  tf_source : fill_source }.

Record queue_stats := { submitted_with_queue : Z; filled_after_drain : Z; blocked_at_eos : Z }.

Record shadow_adapter := {
  sh_stats : queue_stats;
  sh_open_orders : list open_order;
  sh_pending_fills : list tape_fill;
  sh_next_fill_id : Z;
  sh_latency_model : bool;
  sh_fee_model : option (order_side → num → num → bool → num);
  sh_queue_model : option queue_position_model;
  sh_pending_cancels : gmap Z time_point;
  sh_current_time : time_point }.

Definition mk_shadow (latency : bool) (fee : option (order_side → num → num → bool → num)) : shadow_adapter :=
  {| sh_stats := {| submitted_with_queue := 0; filled_after_drain := 0; blocked_at_eos := 0 |}; sh_open_orders := [];
     sh_pending_fills := []; sh_next_fill_id := 0; sh_latency_model := latency; sh_fee_model := fee; sh_queue_model := None;
     sh_pending_cancels := ∅; sh_current_time := 0 |}.

Definition sh_set (orders : list open_order) (stats : queue_stats) (fills : list tape_fill) (next : Z) (s : shadow_adapter) : shadow_adapter :=
  {| sh_stats := stats; sh_open_orders := orders; sh_pending_fills := fills; sh_next_fill_id := next;
     sh_latency_model := sh_latency_model s; sh_fee_model := sh_fee_model s; sh_queue_model := sh_queue_model s;
     sh_pending_cancels := sh_pending_cancels s; sh_current_time := sh_current_time s |}.
Definition sh_set_orders (orders : list open_order) (s : shadow_adapter) : shadow_adapter :=
  sh_set orders (sh_stats s) (sh_pending_fills s) (sh_next_fill_id s) s.
Definition sh_set_cancels (c : gmap Z time_point) (now : time_point) (s : shadow_adapter) : shadow_adapter :=
  {| sh_stats := sh_stats s; sh_open_orders := sh_open_orders s; sh_pending_fills := sh_pending_fills s;
     sh_next_fill_id := sh_next_fill_id s; sh_latency_model := sh_latency_model s; sh_fee_model := sh_fee_model s;
     sh_queue_model := sh_queue_model s; sh_pending_cancels := c; sh_current_time := now |}.
Definition set_queue_model (qm : option queue_position_model) (s : shadow_adapter) : shadow_adapter :=
  {| sh_stats := sh_stats s; sh_open_orders := sh_open_orders s; sh_pending_fills := sh_pending_fills s;
     sh_next_fill_id := sh_next_fill_id s; sh_latency_model := sh_latency_model s; sh_fee_model := sh_fee_model s;
     sh_queue_model := qm; sh_pending_cancels := sh_pending_cancels s; sh_current_time := sh_current_time s |}.

(** [lat]: the latency model's answer. *)
Definition shadow_submit (o : local_order) (strategy : string) (opener : Z) (lat : Z) (s : shadow_adapter) : shadow_adapter :=
  let arrival_ts := if sh_latency_model s then lo_eligible o + lat else lo_eligible o in
  let queued := match sh_queue_model s with
                | Some qm => if bool_decide (lo_type o = ot_limit)
                             then Some (queue_ahead_of qm (lo_symbol o) (lo_side o) (lo_price o) arrival_ts) else None
                | None => None
                end in
  let ahead := default n_zero queued in
  let oo := {| oo_engine_id := lo_id o; oo_symbol := lo_symbol o; oo_side := lo_side o; oo_type := lo_type o;
               oo_limit_price := lo_price o; oo_qty_remaining := lo_quantity o; oo_queue_ahead := ahead;
               oo_initial_queue := ahead; oo_queue_consumed := n_zero; oo_counted_drain := false;
               oo_submit_ts := arrival_ts; oo_strategy_name := strategy; oo_opener_order_id := opener |} in
  let st := sh_stats s in
  let st' := if (ahead >? n_zero)%num
             then {| submitted_with_queue := submitted_with_queue st + 1; filled_after_drain := filled_after_drain st;
                     blocked_at_eos := blocked_at_eos st |} else st in
  sh_set (sh_open_orders s ++ [oo]) st' (sh_pending_fills s) (sh_next_fill_id s) s.

Definition shadow_poll (s : shadow_adapter) : list tape_fill * shadow_adapter :=
  (sh_pending_fills s, sh_set (sh_open_orders s) (sh_stats s) [] (sh_next_fill_id s) s).

Definition without_id (id : Z) (l : list open_order) : list open_order := filter (λ oo, oo_engine_id oo ≠ id) l.
Definition has_id (id : Z) (l : list open_order) : bool := bool_decide (Exists (λ oo, oo_engine_id oo = id) l).

Definition shadow_cancel (id : Z) (lat : Z) (s : shadow_adapter) : bool * shadow_adapter :=
  if sh_latency_model s then
    if has_id id (sh_open_orders s)
    then (true, sh_set_cancels (<[id := sh_current_time s + lat]> (sh_pending_cancels s)) (sh_current_time s) s)
    else (false, s)
  else (has_id id (sh_open_orders s), sh_set_orders (without_id id (sh_open_orders s)) s).

Definition shadow_advance (ts : time_point) (s : shadow_adapter) : shadow_adapter :=
  foldl (λ s '(id, due), if due <=? ts
           then sh_set_cancels (delete id (sh_pending_cancels s)) ts (sh_set_orders (without_id id (sh_open_orders s)) s) else s)
        (sh_set_cancels (sh_pending_cancels s) ts s) (iter (sh_pending_cancels s)).

Fixpoint modify_first (id : Z) (px q : num) (l : list open_order) : bool * list open_order :=
  match l with
  | [] => (false, [])
  | oo :: l =>
      if oo_engine_id oo =? id then
        (true, {| oo_engine_id := oo_engine_id oo; oo_symbol := oo_symbol oo; oo_side := oo_side oo; oo_type := oo_type oo;
                  oo_limit_price := px; oo_qty_remaining := q; oo_queue_ahead := oo_queue_ahead oo;
                  oo_initial_queue := oo_initial_queue oo; oo_queue_consumed := oo_queue_consumed oo;
                  oo_counted_drain := oo_counted_drain oo; oo_submit_ts := oo_submit_ts oo;
                  oo_strategy_name := oo_strategy_name oo; oo_opener_order_id := oo_opener_order_id oo |} :: l)
      else let '(b, l) := modify_first id px q l in (b, oo :: l)
  end.
Definition shadow_modify (id : Z) (px q : num) (s : shadow_adapter) : bool * shadow_adapter :=
  let '(b, l) := modify_first id px q (sh_open_orders s) in (b, sh_set_orders l s).

(** ** The tape *)

Definition tape_crosses (px : num) (oo : open_order) : bool :=
  bool_decide (oo_type oo = ot_market) ||
  (bool_decide (oo_side oo = side_buy) && (px <=? oo_limit_price oo)%num) ||
  (bool_decide (oo_side oo = side_sell) && (px >=? oo_limit_price oo)%num).

Definition oo_drain (eaten : num) (counted : bool) (oo : open_order) : open_order :=
  {| oo_engine_id := oo_engine_id oo; oo_symbol := oo_symbol oo; oo_side := oo_side oo; oo_type := oo_type oo;
     oo_limit_price := oo_limit_price oo; oo_qty_remaining := oo_qty_remaining oo;
     oo_queue_ahead := (oo_queue_ahead oo - eaten)%num; oo_initial_queue := oo_initial_queue oo;
     oo_queue_consumed := (oo_queue_consumed oo + eaten)%num; oo_counted_drain := counted; oo_submit_ts := oo_submit_ts oo;
     oo_strategy_name := oo_strategy_name oo; oo_opener_order_id := oo_opener_order_id oo |}.
Definition oo_fill (q : num) (oo : open_order) : open_order :=
  {| oo_engine_id := oo_engine_id oo; oo_symbol := oo_symbol oo; oo_side := oo_side oo; oo_type := oo_type oo;
     oo_limit_price := oo_limit_price oo; oo_qty_remaining := (oo_qty_remaining oo - q)%num; oo_queue_ahead := oo_queue_ahead oo;
     oo_initial_queue := oo_initial_queue oo; oo_queue_consumed := oo_queue_consumed oo;
     oo_counted_drain := oo_counted_drain oo; oo_submit_ts := oo_submit_ts oo;
     oo_strategy_name := oo_strategy_name oo; oo_opener_order_id := oo_opener_order_id oo |}.

(** Pays down the queue: the order, what is left of the print, whether a drain is
    counted, and whether the print goes on to the order. *)
Definition pay_queue (rem : num) (oo : open_order) : open_order * num * bool * bool :=
  if (oo_queue_ahead oo >? n_zero)%num then
    let eaten := n_min (oo_queue_ahead oo) rem in
    let rem' := (rem - eaten)%num in
    if (oo_queue_ahead oo - eaten >? n_eps)%num || (rem' <=? n_zero)%num
    then (oo_drain eaten (oo_counted_drain oo) oo, rem', false, false)
    else
      let counts := (oo_initial_queue oo >? n_zero)%num && negb (oo_counted_drain oo) in
      (oo_drain eaten (oo_counted_drain oo || counts) oo, rem', counts, true)
  else (oo, rem, false, true).

Section Print.
Context (fee : option (order_side → num → num → bool → num)) (symbol : string) (px : num) (ts : time_point).

Definition fill_of (oo : open_order) (q rem : num) (id : Z) : tape_fill :=
  {| tf_ts := ts; tf_symbol := oo_symbol oo; tf_order_id := oo_engine_id oo; tf_side := oo_side oo; tf_quantity := q;
     tf_price := px; tf_commission := match fee with Some f => f (oo_side oo) q px true | None => n_zero end;
     tf_remaining := rem; tf_fill_id := id; tf_strategy_name := oo_strategy_name oo;
     tf_opener_order_id := oo_opener_order_id oo; tf_source := src_exchange |}.

(** The loop: the orders kept, the fills, the drains counted and the next fill id. *)
Fixpoint tape_loop (orders : list open_order) (rem : num) (next : Z) : list open_order * list tape_fill * Z * Z :=
  match orders with
  | [] => ([], [], 0, next)
  | oo :: rest =>
      if negb (rem >? n_zero)%num then (orders, [], 0, next) else
      let skip oo rem := let '(os, fs, n, nx) := tape_loop rest rem next in (oo :: os, fs, n, nx) in
      if negb (bool_decide (oo_symbol oo = symbol)) || (ts <? oo_submit_ts oo) then skip oo rem else
      if negb (tape_crosses px oo) then skip oo rem else
      let '(oo, rem, counted, go) := pay_queue rem oo in
      if negb go then skip oo rem else
      let q := n_min (oo_qty_remaining oo) rem in
      let oo := oo_fill q oo in
      let f := fill_of oo q (n_max n_zero (oo_qty_remaining oo)) (u64 (next + 1)) in
      let '(os, fs, n, nx) := tape_loop rest (rem - q)%num (u64 (next + 1)) in
      (if (oo_qty_remaining oo <=? n_eps)%num then os else oo :: os, f :: fs, (if counted then n + 1 else n), nx)
  end.
End Print.

Definition shadow_on_trade (symbol : string) (px qty : num) (ts : time_point) (s : shadow_adapter) : shadow_adapter :=
  if bool_decide (sh_open_orders s = []) || negb (qty >? n_zero)%num || negb (px >? n_zero)%num then s else
  let '(os, fs, n, nx) := tape_loop (sh_fee_model s) symbol px ts (sh_open_orders s) qty (sh_next_fill_id s) in
  let st := sh_stats s in
  sh_set os {| submitted_with_queue := submitted_with_queue st; filled_after_drain := filled_after_drain st + n;
               blocked_at_eos := blocked_at_eos st |} (sh_pending_fills s ++ fs) nx s.

Definition shadow_on_l2_snapshot (symbol : string) (bids asks : list (num * num)) (now : time_point) (s : shadow_adapter) : shadow_adapter :=
  match sh_queue_model s with
  | Some (L2Model m) => set_queue_model (Some (L2Model (l2_on_snapshot symbol bids asks now m))) s
  | _ => s
  end.
Definition shadow_on_l2_update (symbol : string) (side : order_side) (px size : num) (now : time_point) (s : shadow_adapter) : shadow_adapter :=
  match sh_queue_model s with
  | Some (L2Model m) => set_queue_model (Some (L2Model (l2_on_update symbol side px size now m))) s
  | _ => s
  end.

Definition get_queue_stats (s : shadow_adapter) : queue_stats :=
  let st := sh_stats s in
  {| submitted_with_queue := submitted_with_queue st; filled_after_drain := filled_after_drain st;
     blocked_at_eos := blocked_at_eos st +
       Z.of_nat (length (filter (λ oo, (oo_initial_queue oo >? n_zero)%num && (oo_queue_ahead oo >? n_zero)%num = true) (sh_open_orders s))) |}.

End Shadow.

(** ** What a print does, in exact arithmetic *)

#[local] Existing Instance exact_arith.

Abbreviation qnum := (@num exact_arith).
Definition qtotal {X} (f : X → Q) (l : list X) : Q := foldr (λ x s, f x + s)%Q 0%Q l.

Lemma qtotal_cons {X} (f : X → Q) x l : qtotal f (x :: l) = (f x + qtotal f l)%Q.
Proof. done. Qed.

Definition orders_ok (l : list open_order) : Prop :=
  Forall (λ oo, 0 <= oo_qty_remaining oo ∧ 0 <= oo_queue_ahead oo)%Q l.

Definition id_remaining (id : Z) (oo : open_order) : Q := if decide (oo_engine_id oo = id) then oo_qty_remaining oo else 0%Q.
Definition id_filled (id : Z) (f : tape_fill) : Q := if decide (tf_order_id f = id) then tf_quantity f else 0%Q.

Lemma pay_queue_exact (rem : Q) (oo : open_order) oo' (rem' : Q) c go : (0 < rem)%Q → (0 <= oo_queue_ahead oo)%Q →
  pay_queue rem oo = (oo', rem', c, go) →
  (0 <= rem' /\ rem' + oo_queue_ahead oo == rem + oo_queue_ahead oo')%Q ∧ (0 <= oo_queue_ahead oo' <= oo_queue_ahead oo)%Q ∧
  oo_qty_remaining oo' = oo_qty_remaining oo ∧ oo_engine_id oo' = oo_engine_id oo ∧ oo_symbol oo' = oo_symbol oo ∧
  oo_side oo' = oo_side oo ∧ (go = true → 0 < rem' ∧ oo_queue_ahead oo' == 0)%Q.
Proof.
  intros Hr Hq. unfold pay_queue, n_zero, n_eps, n_min. tt_exact. change (@num exact_arith) with Q in *. change (0 # 1)%Q with 0%Q.
  destruct (Qltb_spec 0 (oo_queue_ahead oo)) as [Hlt|Hge].
  - destruct (Qltb_spec rem (oo_queue_ahead oo)) as [H1|H1];
      match goal with |- context [if ?b then _ else _] => destruct b eqn:Eb end; intros E; injection E as <- <- <- <-;
      cbn [oo_drain oo_queue_ahead oo_qty_remaining oo_engine_id oo_symbol oo_side]; tt_exact;
      split_and!; try done; try lra; intros Hgo; try discriminate Hgo; apply orb_false_iff in Eb as [_ Eb]; apply Qleb_false in Eb; split; lra.
  - intros E; injection E as <- <- <- <-. split_and!; try done; try lra; intros _; split; lra.
Qed.

(** A fill against an order that a print of [qty] reaches. *)
Definition good_fill (symbol : string) (px : Q) (ts : time_point) (qty : Q) (orders : list open_order) (f : tape_fill) : Prop :=
  ∃ oo, oo ∈ orders ∧ tf_order_id f = oo_engine_id oo ∧ tf_symbol f = symbol ∧ oo_symbol oo = symbol ∧ tf_side f = oo_side oo ∧
    oo_submit_ts oo <= ts ∧ tape_crosses px oo = true ∧ tf_price f = px ∧ tf_ts f = ts ∧
    (0 <= tf_quantity f <= oo_qty_remaining oo)%Q ∧ (oo_queue_ahead oo + tf_quantity f <= qty)%Q.

Lemma good_fill_weaken symbol (px : Q) ts (q q' : Q) oo orders f : (q <= q')%Q →
  good_fill symbol px ts q orders f → good_fill symbol px ts q' (oo :: orders) f.
Proof.
  intros Hq (o & Hin & H). exists o. split; [by right|]. destruct H as (H1 & H2 & H3 & H4 & H5 & H6 & H7 & H8 & H9 & H10). split_and!; try done; lra.
Qed.
Lemma good_fills_weaken symbol (px : Q) ts (q q' : Q) oo orders fs : (q <= q')%Q →
  Forall (good_fill symbol px ts q orders) fs → Forall (good_fill symbol px ts q' (oo :: orders)) fs.
Proof. intros Hq Hf. eapply Forall_impl; [exact Hf|]. intros f. by apply good_fill_weaken. Qed.

Definition loop_ok symbol (px : Q) ts (orders : list open_order) (rem : Q) (os : list open_order) (fs : list tape_fill) : Prop :=
  orders_ok os ∧ Forall (good_fill symbol px ts rem orders) fs ∧ (qtotal tf_quantity fs <= rem)%Q ∧
  ∀ id, (qtotal (id_filled id) fs + qtotal (id_remaining id) os <= qtotal (id_remaining id) orders)%Q.

Lemma loop_skip symbol (px : Q) ts oo oo' rest (rem rem' : Q) os fs :
  loop_ok symbol px ts rest rem' os fs → (rem' <= rem)%Q → (0 <= oo_qty_remaining oo')%Q → (0 <= oo_queue_ahead oo')%Q →
  oo_qty_remaining oo' = oo_qty_remaining oo → oo_engine_id oo' = oo_engine_id oo →
  loop_ok symbol px ts (oo :: rest) rem (oo' :: os) fs.
Proof.
  intros (H1 & H2 & H3 & H4) Hr Hq Hqu E1 E2. split_and!; [by constructor|by eapply good_fills_weaken|lra|].
  intros id. specialize (H4 id). rewrite !qtotal_cons. unfold id_remaining at 1 3. rewrite E1, E2. destruct (decide _); lra.
Qed.

Lemma tape_loop_exact fee symbol (px : qnum) ts orders : ∀ (rem : qnum) next os fs n nx, orders_ok orders → (0 <= rem)%Q →
  tape_loop fee symbol px ts orders rem next = (os, fs, n, nx) → loop_ok symbol px ts orders rem os fs.
Proof.
  induction orders as [|oo rest IH]; intros rem next os fs n nx Hok Hrem E; cbn [tape_loop] in E.
  { injection E as <- <- <- <-. split_and!; [constructor|constructor|done|]. intros id. cbn. lra. }
  pose proof Hok as Hok'. apply Forall_cons in Hok' as [[Hq0 Hqu0] Hrest]. destruct (negb (rem >? n_zero)%num) eqn:Er.
  { injection E as <- <- <- <-. split_and!; [done|constructor|done|]. intros id. cbn [qtotal foldr]. fold (qtotal (id_remaining id) (oo :: rest)). lra. }
  apply negb_false_iff in Er. apply Qltb_true in Er. change (0 < rem)%Q in Er.
  destruct (negb (bool_decide (oo_symbol oo = symbol)) || (ts <? oo_submit_ts oo)) eqn:Es.
  { destruct (tape_loop _ _ _ _ rest rem next) as [[[os1 fs1] n1] nx1] eqn:E1. injection E as <- <- <- <-.
    eapply loop_skip; [eapply IH; [exact Hrest|exact Hrem|exact E1]|apply Qle_refl|done..]. }
  apply orb_false_iff in Es as [Es Ets]. apply negb_false_iff, bool_decide_eq_true in Es. apply Z.ltb_ge in Ets.
  destruct (tape_crosses px oo) eqn:Ec; cbn [negb] in E.
  2: { destruct (tape_loop _ _ _ _ rest rem next) as [[[os1 fs1] n1] nx1] eqn:E1. injection E as <- <- <- <-.
    eapply loop_skip; [eapply IH; [exact Hrest|exact Hrem|exact E1]|apply Qle_refl|done..]. }
  destruct (pay_queue rem oo) as [[[oo1 rem1] c] go] eqn:Ep.
  destruct (pay_queue_exact rem oo oo1 rem1 c go Er Hqu0 Ep) as ([P1 P2] & P3 & P4 & P5 & P6 & P7 & P8).
  destruct go; cbn [negb] in E.
  2: { destruct (tape_loop _ _ _ _ rest rem1 next) as [[[os1 fs1] n1] nx1] eqn:E1. injection E as <- <- <- <-.
    eapply loop_skip; [eapply IH; [exact Hrest|exact P1|exact E1]|lra|rewrite P4; done|lra|done..]. }
  destruct (P8 eq_refl) as [P9 P10]. set (q := n_min (oo_qty_remaining oo1) rem1) in E.
  assert (0 <= q ∧ q <= oo_qty_remaining oo ∧ q <= rem1)%Q as (Q1 & Q2 & Q3).
  { unfold q, n_min. tt_exact. rewrite P4. destruct (Qltb_spec rem1 (oo_qty_remaining oo)); split_and!; lra. }
  clearbody q. destruct (tape_loop _ _ _ _ rest (rem1 - q)%num _) as [[[os1 fs1] n1] nx1] eqn:E1. injection E as <- <- <- <-.
  tt_exact. change (@num exact_arith) with Q in *. destruct (IH (rem1 - q)%Q _ _ _ _ _ Hrest ltac:(lra) E1) as (H1 & H2 & H3 & H4).
  assert (oo_qty_remaining (oo_fill q oo1) = (oo_qty_remaining oo - q)%Q) as Ef by (cbn [oo_fill oo_qty_remaining]; by rewrite P4).
  split_and!.
  - destruct (Qle_bool _ _); [done|]. constructor; [|done]. rewrite Ef. cbn [oo_fill oo_queue_ahead]. split; lra.
  - constructor; [|eapply good_fills_weaken; [|exact H2]; lra]. exists oo. split; [by left|].
    cbn [fill_of oo_fill tf_order_id tf_symbol tf_side tf_price tf_ts tf_quantity oo_engine_id oo_symbol oo_side].
    rewrite P6, P7. split_and!; try done; lra.
  - rewrite qtotal_cons. cbn [fill_of tf_quantity]. lra.
  - intros id. specialize (H4 id). rewrite !qtotal_cons.
    assert (id_remaining id (oo_fill q oo1) = if decide (oo_engine_id oo = id) then (oo_qty_remaining oo - q)%Q else 0%Q) as Eo.
    { unfold id_remaining. by rewrite Ef, <- P5. }
    match goal with |- context [qtotal (id_remaining id) (if ?b then os1 else ?l)] => set (kept := if b then os1 else l) end.
    assert (qtotal (id_remaining id) kept <= id_remaining id (oo_fill q oo1) + qtotal (id_remaining id) os1)%Q as Hd.
    { unfold kept. destruct (Qle_bool _ _); [|rewrite qtotal_cons; lra]. rewrite Eo. destruct (decide _); lra. }
    rewrite Eo in Hd. match goal with |- context [id_filled id ?f] =>
      assert (id_filled id f = if decide (oo_engine_id oo = id) then q else 0%Q) as -> by (unfold id_filled; by rewrite <- P5) end.
    unfold id_remaining at 2. destruct (decide (oo_engine_id oo = id)); lra.
Qed.

(** What one print of the tape does, in exact arithmetic.  Every fill it makes is of
    an open order of the symbol, already arrived, whose limit it crosses, at the print's
    price, for at most what the order has left, and only after the queue ahead of that
    order: queue and fill together fit in the print.  All the fills together are at most
    the print, and for every order id the fills and what stays open add up to at most
    what was open, so an order is never filled beyond its quantity. *)
Theorem tape_print_exact symbol (px qty : qnum) ts (s : shadow_adapter) : orders_ok (sh_open_orders s) → (0 < qty)%Q → (0 < px)%Q →
  let s' := shadow_on_trade symbol px qty ts s in
  ∃ fs, sh_pending_fills s' = sh_pending_fills s ++ fs ∧ orders_ok (sh_open_orders s') ∧
    Forall (good_fill symbol px ts qty (sh_open_orders s)) fs ∧ (qtotal tf_quantity fs <= qty)%Q ∧
    ∀ id, (qtotal (id_filled id) fs + qtotal (id_remaining id) (sh_open_orders s') <= qtotal (id_remaining id) (sh_open_orders s))%Q.
Proof.
  intros Hok Hq Hp s'. unfold s', shadow_on_trade. destruct (_ || _).
  { exists []. rewrite app_nil_r. split_and!; [done|done|constructor|apply Qlt_le_weak, Hq|]. intros id. cbn [qtotal foldr]. lra. }
  destruct (tape_loop _ _ _ _ _ _ _) as [[[os fs] n] nx] eqn:E. exists fs. split; [done|].
  exact (tape_loop_exact _ _ _ _ _ _ _ _ _ _ _ Hok (Qlt_le_weak _ _ Hq) E).
Qed.

Definition waiting_order (id : Z) (q queue : Q) : open_order :=
  {| oo_engine_id := id; oo_symbol := "BTC"; oo_side := side_buy; oo_type := ot_limit; oo_limit_price := (100 # 1 : qnum);
     oo_qty_remaining := (q : qnum); oo_queue_ahead := queue; oo_initial_queue := queue; oo_queue_consumed := (0 : Q); oo_counted_drain := false;
     oo_submit_ts := 0; oo_strategy_name := ""; oo_opener_order_id := 0 |}.
Definition two_waiting : shadow_adapter :=
  sh_set_orders [waiting_order 1 (5 # 1) (3 # 1); waiting_order 2 (4 # 1) 0] (mk_shadow false None).

Lemma tape_print_exact_witness :
  (tf_quantity <$> sh_pending_fills (shadow_on_trade (A := exact_arith) "BTC" (99 # 1) (10 # 1) 7 two_waiting)) = [5 # 1; 2 # 1]%Q ∧
  ∃ fs, sh_pending_fills (shadow_on_trade (A := exact_arith) "BTC" (99 # 1) (10 # 1) 7 two_waiting) = [] ++ fs ∧ (qtotal tf_quantity fs <= 10 # 1)%Q.
Proof.
  split; [vm_compute; reflexivity|].
  destruct (tape_print_exact "BTC" (99 # 1) (10 # 1) 7 two_waiting) as (fs & E & _ & _ & Hle & _); [|done|done|].
  - repeat constructor; cbn; unfold Qle; cbn; lia.
  - exists fs. split; [exact E|exact Hle].
Defined.
