(* ===== verification/QueueAdapter.v ===== *)
(** * The queue-aware paper adapter (class QueueAwareBookAdapter of
    src/src/execution/queue_aware_book_adapter.h, with queue_model.h)

    Limit orders join the back of their level's queue.  Trades at the level consume
    the queue ahead and then the order; a level that shrinks by more than it traded
    lost the rest to cancels, which a queue model attributes. *)

From Stdlib Require Import QArith Qabs Lqa.
From S2P Require Import Prelude Float64 Event Arith Portfolio LocalAdapter ShadowAdapter.

Open Scope string_scope.
Open Scope list_scope.
Open Scope Z_scope.

Section Queue.
Context {A : Arith} {HO : HashOrder}.

(** ** Where cancels sat *)

Inductive queue_model := FrontCancelModel | BackCancelModel | UniformCancelModel.
Definition update_on_cancels (m : queue_model) (size_ahead total_size cancels : num) : num :=
  match m with
  | FrontCancelModel => n_max n_zero (size_ahead - cancels)%num
  | BackCancelModel => size_ahead
  | UniformCancelModel =>
      if (total_size <=? n_zero)%num || (cancels <=? n_zero)%num then size_ahead
      else let frac := (size_ahead / total_size)%num in n_max n_zero (size_ahead - cancels * frac)%num
  end.

Record paper_order := {
  po_order_id : Z;
  po_symbol : string;
  po_side : order_side;
  po_price : num;
  po_qty_remaining : num;
  po_size_ahead : num;
  po_submit_ts : time_point;
  po_strategy_name : string;
  po_opener_order_id : Z;
  po_recv_ns : Z }.
Record level_state := { aggregate_size : num; trades_since_update : num }.

(** Levels are keyed by symbol, side and the price rounded to eight decimals. *)
Definition level_key : Type := string * bool * Z.
Definition make_key (sym : string) (s : order_side) (price : num) : level_key :=
  (sym, bool_decide (s = side_buy), n_llround (price * n_lit 100000000 1)%num).

Record paper_fill := {
  pf_ts : time_point;
  pf_symbol : string;
  pf_order_id : Z;
  pf_side : order_side;
  pf_quantity : num;
  pf_price : num;
  pf_commission : num;
  pf_strategy_name : string;
  pf_opener_order_id : Z;
  pf_recv_ns : Z;
  pf_latency_ns : Z }.

Record queue_adapter := {
  qa_queue_model : option queue_model;
  qa_fee_model : option (order_side → num → num → bool → num);
  qa_latency_model : bool;
  qa_orders : gmap Z paper_order;
  qa_levels : gmap level_key level_state;
  qa_pending_fills : list paper_fill;
  qa_pending_cancels : gmap Z time_point;
  qa_current_time : time_point;
  qa_mid_price : num }.

Definition mk_queue_adapter (qm : option queue_model) (fee : option (order_side → num → num → bool → num)) (lat : bool) : queue_adapter :=
  {| qa_queue_model := qm; qa_fee_model := fee; qa_latency_model := lat; qa_orders := ∅; qa_levels := ∅; qa_pending_fills := [];
     qa_pending_cancels := ∅; qa_current_time := 0; qa_mid_price := n_zero |}.
Definition qa_set (orders : gmap Z paper_order) (levels : gmap level_key level_state) (fills : list paper_fill)
    (cancels : gmap Z time_point) (now : time_point) (q : queue_adapter) : queue_adapter :=
  {| qa_queue_model := qa_queue_model q; qa_fee_model := qa_fee_model q; qa_latency_model := qa_latency_model q;
     qa_orders := orders; qa_levels := levels; qa_pending_fills := fills; qa_pending_cancels := cancels;
     qa_current_time := now; qa_mid_price := qa_mid_price q |}.
Definition qa_set_mid_price (px : num) (q : queue_adapter) : queue_adapter :=
  {| qa_queue_model := qa_queue_model q; qa_fee_model := qa_fee_model q; qa_latency_model := qa_latency_model q;
     qa_orders := qa_orders q; qa_levels := qa_levels q; qa_pending_fills := qa_pending_fills q;
     qa_pending_cancels := qa_pending_cancels q; qa_current_time := qa_current_time q; qa_mid_price := px |}.
Definition qa_set_orders (orders : gmap Z paper_order) (q : queue_adapter) : queue_adapter :=
  qa_set orders (qa_levels q) (qa_pending_fills q) (qa_pending_cancels q) (qa_current_time q) q.

Definition no_level : level_state := {| aggregate_size := n_zero; trades_since_update := n_zero |}.

Definition queue_submit (o : local_order) (strategy : string) (opener : Z) (q : queue_adapter) : queue_adapter :=
  if negb (bool_decide (lo_type o = ot_limit)) then q else
  let ahead := match qa_levels q !! make_key (lo_symbol o) (lo_side o) (lo_price o) with
               | Some lv => aggregate_size lv | None => n_zero end in
  qa_set_orders
    (<[lo_id o := {| po_order_id := lo_id o; po_symbol := lo_symbol o; po_side := lo_side o; po_price := lo_price o;
                     po_qty_remaining := lo_quantity o; po_size_ahead := ahead; po_submit_ts := lo_eligible o;
                     po_strategy_name := strategy; po_opener_order_id := opener; po_recv_ns := lo_recv_ns o |}]> (qa_orders q)) q.

Definition queue_poll (q : queue_adapter) : list paper_fill * queue_adapter :=
  (qa_pending_fills q, qa_set (qa_orders q) (qa_levels q) [] (qa_pending_cancels q) (qa_current_time q) q).

Definition queue_cancel (id : Z) (lat : Z) (q : queue_adapter) : bool * queue_adapter :=
  match qa_orders q !! id with
  | None => (false, q)
  | Some _ =>
      if qa_latency_model q
      then (true, qa_set (qa_orders q) (qa_levels q) (qa_pending_fills q) (<[id := qa_current_time q + lat]> (qa_pending_cancels q))
                    (qa_current_time q) q)
      else (true, qa_set_orders (delete id (qa_orders q)) q)
  end.

Definition queue_advance (ts : time_point) (q : queue_adapter) : queue_adapter :=
  let '(orders, cancels) :=
    foldl (λ '(os, cs) '(id, due), if due <=? ts then (delete id os, delete id cs) else (os, cs))
          (qa_orders q, qa_pending_cancels q) (iter (qa_pending_cancels q)) in
  qa_set orders (qa_levels q) (qa_pending_fills q) cancels ts q.

(** ** Level-2 data *)

Definition po_set_ahead (x : num) (po : paper_order) : paper_order :=
  {| po_order_id := po_order_id po; po_symbol := po_symbol po; po_side := po_side po; po_price := po_price po;
     po_qty_remaining := po_qty_remaining po; po_size_ahead := x; po_submit_ts := po_submit_ts po;
     po_strategy_name := po_strategy_name po; po_opener_order_id := po_opener_order_id po; po_recv_ns := po_recv_ns po |}.

Definition at_price (price : num) (po : paper_order) : bool := (n_abs (po_price po - price) <? n_eps)%num.

Definition cancelled_at (m : queue_model) (symbol : string) (side : order_side) (price old_size cancels : num) (po : paper_order) : paper_order :=
  if bool_decide (po_symbol po = symbol) && bool_decide (po_side po = side) && at_price price po
  then po_set_ahead (update_on_cancels m (po_size_ahead po) old_size cancels) po else po.

Definition queue_on_l2_update (symbol : string) (side : order_side) (price new_size : num) (q : queue_adapter) : queue_adapter :=
  let key := make_key symbol side price in
  let lv := default no_level (qa_levels q !! key) in
  let old_size := aggregate_size lv in
  let delta := (new_size - old_size)%num in
  let orders :=
    if (delta <? n_zero)%num then
      let cancels := n_max n_zero (- delta - trades_since_update lv)%num in
      match qa_queue_model q with
      | Some m => if (cancels >? n_zero)%num then cancelled_at m symbol side price old_size cancels <$> qa_orders q else qa_orders q
      | None => qa_orders q
      end
    else qa_orders q in
  qa_set orders (<[key := {| aggregate_size := new_size; trades_since_update := n_zero |}]> (qa_levels q)) (qa_pending_fills q)
    (qa_pending_cancels q) (qa_current_time q) q.

Definition queue_on_l2_snapshot (symbol : string) (bids asks : list (num * num)) (q : queue_adapter) : queue_adapter :=
  let q := foldl (λ q '(px, sz), queue_on_l2_update symbol side_buy px sz q) q bids in
  foldl (λ q '(px, sz), queue_on_l2_update symbol side_sell px sz q) q asks.

(** ** The tape *)

Definition po_traded (ahead filled : num) (po : paper_order) : paper_order :=
  {| po_order_id := po_order_id po; po_symbol := po_symbol po; po_side := po_side po; po_price := po_price po;
     po_qty_remaining := (po_qty_remaining po - filled)%num; po_size_ahead := ahead; po_submit_ts := po_submit_ts po;
     po_strategy_name := po_strategy_name po; po_opener_order_id := po_opener_order_id po; po_recv_ns := po_recv_ns po |}.

Section Trade.
Context (fee : option (order_side → num → num → bool → num)) (symbol : string) (px : num) (ts : time_point) (now_ns : Z).

Definition paper_fill_of (po : paper_order) (q : num) : paper_fill :=
  {| pf_ts := ts; pf_symbol := po_symbol po; pf_order_id := po_order_id po; pf_side := po_side po; pf_quantity := q; pf_price := px;
     pf_commission := match fee with Some f => f (po_side po) q px false | None => n_zero end;
     pf_strategy_name := po_strategy_name po; pf_opener_order_id := po_opener_order_id po; pf_recv_ns := po_recv_ns po;
     pf_latency_ns := if 0 <? po_recv_ns po then i64 (now_ns - po_recv_ns po) else 0 |}.

(** The orders in iteration order: those kept, and the fills. *)
Fixpoint trade_loop (orders : list (Z * paper_order)) (rem : num) : list (Z * paper_order) * list paper_fill :=
  match orders with
  | [] => ([], [])
  | (id, po) :: rest =>
      if negb (bool_decide (po_symbol po = symbol)) || (n_abs (po_price po - px) >=? n_eps)%num then
        let '(os, fs) := trade_loop rest rem in ((id, po) :: os, fs)
      else
        let consumed := n_min rem (po_size_ahead po) in
        let ahead := (po_size_ahead po - consumed)%num in
        let rem := (rem - consumed)%num in
        if (ahead <=? n_zero)%num && (rem >? n_zero)%num then
          let q := n_min rem (po_qty_remaining po) in
          let po' := po_traded ahead q po in
          let '(os, fs) := trade_loop rest (rem - q)%num in
          (if (po_qty_remaining po' <=? n_zero)%num then os else (id, po') :: os, paper_fill_of po q :: fs)
        else
          let '(os, fs) := trade_loop rest rem in ((id, po_set_ahead ahead po) :: os, fs)
  end.
End Trade.

Definition mark_traded (key : level_key) (qty : num) (levels : gmap level_key level_state) : gmap level_key level_state :=
  let lv := default no_level (levels !! key) in
  <[key := {| aggregate_size := aggregate_size lv; trades_since_update := (trades_since_update lv + qty)%num |}]> levels.

Definition queue_on_trade (symbol : string) (px qty : num) (ts : time_point) (now_ns : Z) (q : queue_adapter) : queue_adapter :=
  if negb (qty >? n_zero)%num then q else
  let '(os, fs) := trade_loop (qa_fee_model q) symbol px ts now_ns (iter (qa_orders q)) qty in
  qa_set (list_to_map os) (mark_traded (make_key symbol side_sell px) qty (mark_traded (make_key symbol side_buy px) qty (qa_levels q)))
    (qa_pending_fills q ++ fs) (qa_pending_cancels q) ts q.

Definition live_order_count (q : queue_adapter) : nat := size (qa_orders q).
Definition queue_frac (levels : gmap level_key level_state) (po : paper_order) : num :=
  let denom := match levels !! make_key (po_symbol po) (po_side po) (po_price po) with Some lv => aggregate_size lv | None => n_zero end in
  if (denom >? n_zero)%num then n_min n_one (po_size_ahead po / denom)%num else n_zero.
Definition avg_queue_position_bps (q : queue_adapter) : Z :=
  match iter (qa_orders q) with
  | [] => 0
  | l => let sum := foldl (λ s x, s + queue_frac (qa_levels q) x.2)%num n_zero l in
         u32 (n_llround (sum / n_lit (Z.of_nat (length l)) 1 * n_lit 10000 1)%num)
  end.

End Queue.

(** ** Queue positions, in exact arithmetic *)

#[local] Existing Instance exact_arith.

Definition paper_ok (po : paper_order) : Prop := (0 <= po_qty_remaining po ∧ 0 <= po_size_ahead po)%Q.
Definition adapter_ok (q : queue_adapter) : Prop :=
  ∀ id po, qa_orders q !! id = Some po → paper_ok po ∧ po_order_id po = id.

Lemma update_on_cancels_range m (ahead total cancels : qnum) : (0 <= ahead)%Q → (0 <= cancels)%Q →
  (0 <= update_on_cancels m ahead total cancels <= ahead)%Q.
Proof.
  intros Ha Hc. destruct m; cbn [update_on_cancels]; [|lra|]; unfold n_max, n_zero; tt_exact; change (@num exact_arith) with Q in *;
    change (0 # 1)%Q with 0%Q.
  - destruct (Qltb_spec 0 (ahead - cancels)); lra.
  - destruct (Qleb_spec total 0) as [|Ht]; cbn [orb]; [lra|]. destruct (Qleb_spec cancels 0) as [|Hc']; cbn [orb]; [lra|].
    assert (0 <= ahead / total)%Q as Hf by (apply Qle_shift_div_l; lra). assert (0 <= cancels * (ahead / total))%Q by nra.
    destruct (Qltb_spec 0 (ahead - cancels * (ahead / total))); lra.
Qed.

Definition left_of (q : queue_adapter) (id : Z) : Q := match qa_orders q !! id with Some po => po_qty_remaining po | None => 0%Q end.
Definition ahead_of (q : queue_adapter) (id : Z) : Q := match qa_orders q !! id with Some po => po_size_ahead po | None => 0%Q end.

(** A level-2 update never moves an order back, nor changes what it has left. *)
Theorem l2_update_advances symbol side (price size : qnum) (q : queue_adapter) : adapter_ok q →
  let q' := queue_on_l2_update symbol side price size q in
  adapter_ok q' ∧ qa_pending_fills q' = qa_pending_fills q ∧
  ∀ id, left_of q' id = left_of q id ∧ (0 <= ahead_of q' id <= ahead_of q id)%Q.
Proof.
  intros Hok q'. unfold q', queue_on_l2_update. set (cancels := n_max n_zero _). set (old := aggregate_size _).
  assert (∀ f : paper_order → paper_order,
    (∀ po, paper_ok po → paper_ok (f po) ∧ po_order_id (f po) = po_order_id po ∧ po_qty_remaining (f po) = po_qty_remaining po ∧
       (po_size_ahead (f po) <= po_size_ahead po)%Q) → ∀ levels,
    let r := qa_set (f <$> qa_orders q) levels (qa_pending_fills q) (qa_pending_cancels q) (qa_current_time q) q in
    adapter_ok r ∧ ∀ id, left_of r id = left_of q id ∧ (0 <= ahead_of r id <= ahead_of q id)%Q) as G.
  { intros f Hf levels r. split.
    - intros id po. unfold r. cbn [qa_set qa_orders]. rewrite lookup_fmap. destruct (qa_orders q !! id) as [po0|] eqn:E; [|done].
      intros [= <-]. destruct (Hok id po0 E) as [H1 H2]. destruct (Hf po0 H1) as (H3 & H4 & _). split; [done|]. by rewrite H4.
    - intros id. unfold left_of, ahead_of, r. cbn [qa_set qa_orders]. rewrite lookup_fmap. destruct (qa_orders q !! id) as [po0|] eqn:E; [|by split].
      destruct (Hok id po0 E) as [H1 _]. destruct (Hf po0 H1) as ([_ H3] & _ & H4 & H5). by cbn [fmap option_fmap option_map]. }
  assert (id <$> qa_orders q = qa_orders q) as Eid by apply map_fmap_id.
  assert (∀ levels, let r := qa_set (qa_orders q) levels (qa_pending_fills q) (qa_pending_cancels q) (qa_current_time q) q in
    adapter_ok r ∧ ∀ id, left_of r id = left_of q id ∧ (0 <= ahead_of r id <= ahead_of q id)%Q) as G0.
  { intros levels. rewrite <- Eid. apply G. intros po Hpo. split_and!; try done. apply Qle_refl. }
  split_and!; [|done|]; destruct (_ <? n_zero)%num; try apply G0; destruct (qa_queue_model q) as [m|]; try apply G0;
    destruct (cancels >? n_zero)%num eqn:Ec; try apply G0; apply G; intros po [H1 H2]; unfold cancelled_at; 
    (destruct (_ && _); [|split_and!; try done; apply Qle_refl]);
    (assert (0 <= cancels)%Q as Hc by (apply Qltb_true in Ec; apply Qlt_le_weak, Ec));
    destruct (update_on_cancels_range m (po_size_ahead po) old cancels H2 Hc); by split_and!.
Qed.

(** ** A trade *)

Definition keyed (f : paper_order → Q) (id : Z) (x : Z * paper_order) : Q := if decide (x.1 = id) then f x.2 else 0%Q.
Definition paper_filled (id : Z) (f : paper_fill) : Q := if decide (pf_order_id f = id) then pf_quantity f else 0%Q.

Lemma keyed_total f l id : NoDup l.*1 →
  (qtotal (keyed f id) l == match (list_to_map l : gmap Z paper_order) !! id with Some po => f po | None => 0 end)%Q.
Proof.
  induction l as [|[k po] l IH]; cbn [fmap list_fmap fst]; intros Hnd; [reflexivity|]. apply NoDup_cons in Hnd as [Hk Hnd].
  rewrite qtotal_cons, IH by done. unfold keyed at 1. cbn [fst snd]. rewrite list_to_map_cons. destruct (decide (k = id)) as [->|Hne].
  - rewrite lookup_insert_eq. rewrite (not_elem_of_list_to_map_1 l id Hk). ring.
  - rewrite lookup_insert_ne by done. ring.
Qed.

Lemma iter_to_map (m : gmap Z paper_order) {HO : HashOrder} : NoDup (iter m).*1 ∧ list_to_map (iter m) = m.
Proof.
  assert (NoDup (iter m).*1) as Hnd by (rewrite (iter_perm m); apply NoDup_fst_map_to_list). split; [done|].
  rewrite (list_to_map_proper _ (map_to_list m)); [apply list_to_map_to_list|done|apply iter_perm].
Qed.

(** A fill of an order at the traded price, behind its queue. *)
Definition good_paper_fill (symbol : string) (px : Q) (ts : time_point) (qty : Q) (orders : list (Z * paper_order)) (f : paper_fill) : Prop :=
  ∃ po, (pf_order_id f, po) ∈ orders ∧ pf_symbol f = symbol ∧ po_symbol po = symbol ∧ pf_side f = po_side po ∧ pf_price f = px ∧ pf_ts f = ts ∧
    (Qabs (po_price po - px) < 1 # 1000000000000)%Q ∧ (0 <= pf_quantity f <= po_qty_remaining po)%Q ∧ (po_size_ahead po + pf_quantity f <= qty)%Q.

Lemma good_paper_weaken symbol px ts q q' x orders fs : (q <= q')%Q →
  Forall (good_paper_fill symbol px ts q orders) fs → Forall (good_paper_fill symbol px ts q' (x :: orders)) fs.
Proof.
  intros Hq Hf. eapply Forall_impl; [exact Hf|]. intros f (po & Hin & H1 & H2 & H3 & H4 & H5 & H6 & H7 & H8). exists po.
  split; [by right|]. split_and!; try done; lra.
Qed.

Record trade_ok (symbol : string) (px : Q) (ts : time_point) (orders : list (Z * paper_order)) (rem : Q) (os : list (Z * paper_order))
    (fs : list paper_fill) : Prop := {
  to_kept : sublist os.*1 orders.*1;
  to_ok : Forall (λ x, paper_ok x.2 ∧ po_order_id x.2 = x.1) os;
  to_fills : Forall (good_paper_fill symbol px ts rem orders) fs;
  to_print : (qtotal pf_quantity fs <= rem)%Q;
  to_left : ∀ id, (qtotal (paper_filled id) fs + qtotal (keyed po_qty_remaining id) os <= qtotal (keyed po_qty_remaining id) orders)%Q }.

Lemma trade_skip symbol px ts id po po' rest (rem rem' : Q) os fs : trade_ok symbol px ts rest rem' os fs → (rem' <= rem)%Q →
  paper_ok po' → po_order_id po' = id → po_qty_remaining po' = po_qty_remaining po →
  trade_ok symbol px ts ((id, po) :: rest) rem ((id, po') :: os) fs.
Proof.
  intros [H1 H2 H3 H4 H5] Hr Hok Hid E. split; [by apply sublist_skip|by constructor|by eapply good_paper_weaken|lra|].
  intros k. specialize (H5 k). rewrite !qtotal_cons. unfold keyed at 1 3. cbn [fst snd]. rewrite E. destruct (decide (id = k)); lra.
Qed.

Lemma trade_loop_exact fee symbol (px : qnum) ts now orders : ∀ (rem : qnum) os fs,
  Forall (λ x, paper_ok x.2 ∧ po_order_id x.2 = x.1) orders → (0 <= rem)%Q →
  trade_loop fee symbol px ts now orders rem = (os, fs) → trade_ok symbol px ts orders rem os fs.
Proof.
  induction orders as [|[id po] rest IH]; intros rem os fs Hok Hrem E; cbn [trade_loop] in E.
  { injection E as <- <-. split; [constructor|constructor|constructor|done|]. intros k. cbn. lra. }
  apply Forall_cons in Hok as [[[Hq0 Ha0] Hid] Hrest]. cbn [fst snd] in *.
  destruct (negb (bool_decide (po_symbol po = symbol)) || _) eqn:Es.
  { destruct (trade_loop _ _ _ _ _ rest rem) as [os1 fs1] eqn:E1. injection E as <- <-.
    eapply trade_skip; [eapply IH; [exact Hrest|exact Hrem|exact E1]|apply Qle_refl|done..]. }
  apply orb_false_iff in Es as [Es Epx]. apply negb_false_iff, bool_decide_eq_true in Es. apply Qleb_false in Epx.
  set (consumed := n_min rem (po_size_ahead po)) in E. assert (0 <= consumed ∧ consumed <= rem ∧ consumed <= po_size_ahead po)%Q as (C1 & C2 & C3).
  { unfold consumed, n_min. tt_exact. destruct (Qltb_spec (po_size_ahead po) rem); split_and!; change (@num exact_arith) with Q in *; lra. }
  clearbody consumed. destruct ((po_size_ahead po - consumed <=? n_zero)%num && (rem - consumed >? n_zero)%num) eqn:Eg.
  2: { destruct (trade_loop _ _ _ _ _ rest (rem - consumed)%num) as [os1 fs1] eqn:E1. injection E as <- <-.
    change (@num exact_arith) with Q in *. eapply trade_skip; [eapply IH; [exact Hrest| |exact E1]|..]; try done; tt_exact; try lra.
    split; cbn [po_set_ahead po_qty_remaining po_size_ahead]; tt_exact; [done|lra]. }
  apply andb_true_iff in Eg as [Eg1 Eg2]. apply Qle_bool_iff in Eg1. apply Qltb_true in Eg2.
  change (po_size_ahead po - consumed <= 0)%Q in Eg1. change (0 < rem - consumed)%Q in Eg2.
  set (q := n_min (rem - consumed)%num (po_qty_remaining po)) in E.
  assert (0 <= q ∧ q <= po_qty_remaining po ∧ q <= rem - consumed)%Q as (Q1 & Q2 & Q3).
  { unfold q, n_min. tt_exact. change (@num exact_arith) with Q in *. destruct (Qltb_spec (po_qty_remaining po) (rem - consumed)); split_and!; lra. }
  clearbody q. destruct (trade_loop _ _ _ _ _ rest (rem - consumed - q)%num) as [os1 fs1] eqn:E1.
  assert (0 <= (rem - consumed - q)%num)%Q as Hrem1 by (tt_exact; change (@num exact_arith) with Q in *; lra).
  destruct (IH _ _ _ Hrest Hrem1 E1) as [H1 H2 H3 H4 H5]. match type of E with (?l, _) = _ => set (kept := l) in E end.
  assert (sublist kept.*1 (id :: rest.*1) ∧ Forall (λ x, paper_ok x.2 ∧ po_order_id x.2 = x.1) kept ∧
    ∀ k, qtotal (keyed po_qty_remaining k) kept <= (if decide (id = k) then po_qty_remaining po - q else 0) + qtotal (keyed po_qty_remaining k) os1)%Q
    as (K1 & K2 & K3).
  { unfold kept. destruct (_ <=? _)%num.
    - split_and!; [by apply sublist_cons|done|]. intros k. destruct (decide (id = k)); lra.
    - split_and!; [by apply sublist_skip| |].
      + constructor; [|done]. cbn [fst snd po_traded po_order_id]. split; [|done]. split; cbn [po_traded po_qty_remaining po_size_ahead]; tt_exact;
          change (@num exact_arith) with Q in *; lra.
      + intros k. rewrite qtotal_cons. unfold keyed at 1. cbn [fst snd po_traded po_qty_remaining]. tt_exact. destruct (decide (id = k)); lra. }
  clearbody kept. injection E as <- <-. tt_exact. change (@num exact_arith) with Q in *. split; [exact K1|exact K2| | |].
  - constructor; [|eapply good_paper_weaken; [|exact H3]; lra]. exists po.
    cbn [paper_fill_of pf_order_id pf_symbol pf_side pf_price pf_ts pf_quantity]. rewrite Hid. split_and!; try done; [left|lra].
  - rewrite qtotal_cons. cbn [paper_fill_of pf_quantity]. lra.
  - intros k. specialize (H5 k). specialize (K3 k). rewrite !qtotal_cons. unfold paper_filled at 1. cbn [paper_fill_of pf_order_id pf_quantity].
    rewrite Hid. unfold keyed at 2. cbn [fst snd]. destruct (decide (id = k)); lra.
Qed.

(** What a trade does to the paper orders, in exact arithmetic and any iteration
    order of the map: every fill is of an order of the symbol at the traded price, for at
    most what it has left, once the queue ahead of it fits in the trade together with it;
    the fills together are at most the trade; each order's fill and what stays of it are
    at most what it had; and an order that stays was there before. *)
Theorem queue_trade_exact {HO : HashOrder} symbol (px qty : qnum) ts now (q : queue_adapter) : adapter_ok q → (0 < qty)%Q →
  let q' := queue_on_trade symbol px qty ts now q in
  ∃ fs, qa_pending_fills q' = qa_pending_fills q ++ fs ∧ adapter_ok q' ∧ dom (qa_orders q') ⊆ dom (qa_orders q) ∧
    Forall (good_paper_fill symbol px ts qty (iter (qa_orders q))) fs ∧ (qtotal pf_quantity fs <= qty)%Q ∧
    ∀ id, (qtotal (paper_filled id) fs + left_of q' id <= left_of q id)%Q.
Proof.
  intros Hok Hq q'. unfold q', queue_on_trade. assert ((qty >? n_zero)%num = true) as -> by (apply Qltb_lt; exact Hq). cbn [negb].
  destruct (trade_loop _ _ _ _ _ _ _) as [os fs] eqn:E. destruct (iter_to_map (qa_orders q)) as [Hnd Hm].
  assert (Forall (λ x, paper_ok x.2 ∧ po_order_id x.2 = x.1) (iter (qa_orders q))) as Hall.
  { apply Forall_forall. intros [id po] Hin. rewrite (iter_perm (qa_orders q)) in Hin. apply elem_of_map_to_list in Hin. by apply Hok. }
  destruct (trade_loop_exact _ _ _ _ _ _ _ _ _ Hall (Qlt_le_weak _ _ Hq) E) as [H1 H2 H3 H4 H5].
  assert (NoDup os.*1) as Hnd' by (eapply sublist_NoDup; [exact Hnd|exact H1]). exists fs. split_and!; [done| | |done|done|].
  - intros id po. cbn [qa_set qa_orders]. intros Hl. apply elem_of_list_to_map in Hl; [|done]. rewrite Forall_forall in H2. exact (H2 _ Hl).
  - intros id. cbn [qa_set qa_orders]. rewrite !elem_of_dom. intros [po Hl]. apply elem_of_list_to_map in Hl; [|done].
    assert (id ∈ (iter (qa_orders q)).*1) as Hin.
    { eapply elem_of_sublist; [|exact H1]. apply list_elem_of_fmap. by exists (id, po). }
    apply list_elem_of_fmap in Hin as ([k po0] & -> & Hin). rewrite (iter_perm (qa_orders q)) in Hin. apply elem_of_map_to_list in Hin. by eexists.
  - intros id. specialize (H5 id). rewrite (keyed_total _ os id Hnd'), (keyed_total _ (iter (qa_orders q)) id Hnd), Hm in H5.
    unfold left_of. cbn [qa_set qa_orders]. exact H5.
Qed.

Definition paper_of (id : Z) (q ahead : Q) : paper_order :=
  {| po_order_id := id; po_symbol := "BTC"; po_side := side_buy; po_price := (100 # 1 : qnum); po_qty_remaining := q; po_size_ahead := ahead;
     po_submit_ts := 0; po_strategy_name := ""; po_opener_order_id := 0; po_recv_ns := 0 |}.
Definition one_paper : queue_adapter := qa_set_orders {[7 := paper_of 7 (5 # 1) (3 # 1)]} (mk_queue_adapter (Some UniformCancelModel) None false).

Lemma queue_trade_exact_witness :
  (pf_quantity <$> qa_pending_fills (queue_on_trade (A := exact_arith) "BTC" (100 # 1) (4 # 1) 9 0 one_paper)) = [1 # 1]%Q ∧
  ∃ fs, qa_pending_fills (queue_on_trade (A := exact_arith) "BTC" (100 # 1) (4 # 1) 9 0 one_paper) = [] ++ fs ∧ (qtotal pf_quantity fs <= 4 # 1)%Q.
Proof.
  split; [vm_compute; reflexivity|].
  destruct (queue_trade_exact "BTC" (100 # 1) (4 # 1) 9 0 one_paper) as (fs & E & _ & _ & _ & Hle & _); [|done|].
  - intros id po. cbn. intros [<- <-]%lookup_singleton_Some. split; [split; unfold Qle; cbn; lia|done].
  - exists fs. split; [exact E|exact Hle].
Defined.
