(* ===== verification/LocalAdapterTheorems.v ===== *)
(** * The simulated execution adapter is correct

    Proved against the book's interface: whatever the interleaving of orders,
    cancels, quotes of others, sweeps and time, the fills reported for an order
    never add up to more than was submitted.  They may add up to less: a resting
    order filled by two trades delivered together loses the second. *)

From Stdlib Require Import QArith Qabs Lqa.
From S2P Require Import Prelude Float64 Event NodeHeap OrderBook BookSpec BookRefine BookMatch BookTheorems Arith Portfolio LocalAdapter MarketMaker.

Open Scope string_scope.
Open Scope list_scope.
Open Scope Z_scope.

(** ** What matching takes from an order *)

Lemma qty_of_app id l1 l2 : qty_of id (l1 ++ l2) = qty_of id l1 + qty_of id l2.
Proof. unfold qty_of. by rewrite filter_app, fmap_app, sum_Z_app. Qed.

Lemma qty_of_nonneg id l : Forall (λ o, 0 <= o_remaining o) l → 0 <= qty_of id l.
Proof. induction 1 as [|o l Ho _ IH]; [done|]. rewrite qty_of_cons. case_decide; lia. Qed.

Lemma qty_of_absent id l : id ∉ o_id <$> l → qty_of id l = 0.
Proof. intros Hn. unfold qty_of. rewrite filter_none; [done|]. intros o Ho <-. apply Hn, list_elem_of_fmap. eauto. Qed.

Lemma qty_of_kill id l : Forall (λ o, 0 <= o_remaining o) l → qty_of id (sp_kill l) <= qty_of id l.
Proof.
  destruct l as [|o l]; [done|]. intros [Ho Hl]%Forall_cons. cbn [sp_kill]. destruct (is_immediate o); [|done].
  rewrite qty_of_cons. case_decide; lia.
Qed.

Lemma qty_of_drop id id' l : Forall (λ o, 0 <= o_remaining o) l → qty_of id (sp_drop id' l) <= qty_of id l.
Proof.
  induction 1 as [|o l Ho _ IH]; [done|]. unfold sp_drop in *. rewrite filter_cons, qty_of_cons.
  case_decide; rewrite ?qty_of_cons; case_decide; lia.
Qed.

Lemma cancel_qty id id' sb : sb_ok sb → qty_of id (sb_orders (sp_cancel id' sb)) <= qty_of id (sb_orders sb).
Proof.
  intros Hok%sb_ok_nonneg. unfold sb_orders in *. apply Forall_app in Hok as [Hb Ha]. cbn [sp_cancel sb_bids sb_asks].
  rewrite !qty_of_app. pose proof (qty_of_drop id id' _ Hb). pose proof (qty_of_drop id id' _ Ha). lia.
Qed.

Lemma cancelled_qty id sb : qty_of id (sb_orders (sp_cancel id sb)) = 0.
Proof.
  apply qty_of_absent. unfold sb_orders, sp_cancel, sp_drop. cbn [sb_bids sb_asks]. rewrite fmap_app, not_elem_of_app.
  split; intros (o & -> & [Ho _]%list_elem_of_filter)%list_elem_of_fmap; done.
Qed.

Lemma add_takes o sb id : sb_ok sb → in_u 64 (o_remaining o) →
  fills_in id (sp_add o sb).1 + qty_of id (sb_orders (sp_add o sb).2)
    <= qty_of id (sb_orders sb) + (if decide (o_id o = id) then o_remaining o else 0).
Proof.
  intros Hok Hr. assert (0 <= if decide (o_id o = id) then o_remaining o else 0) as H0 by (destruct Hr; case_decide; lia).
  assert (fills_in id [] = 0) as En by done. unfold sp_add.
  case_bool_decide as Hid; [cbn [fst snd]; lia|]. destruct (sp_accepts o sb); [|cbn [fst snd]; lia].
  pose proof (sp_rest_ok o sb Hok Hid Hr) as Hok1. pose proof (sp_rest_orders o sb) as Hp.
  pose proof (qty_of_perm id _ _ Hp) as Hq. rewrite qty_of_cons in Hq. unfold sp_settle, sp_match_all.
  set (n := length (sb_orders (sp_rest o sb))). pose proof (sp_match_conserves n (sp_rest o sb) buy id) as Hb.
  pose proof (sp_match_conserves n (sp_rest o sb) sell id) as Ha. cbn zeta in Hb, Ha. cbn [sb_side] in Hb, Ha.
  pose proof (λ s, sp_match_shrunk n (sp_rest o sb) s (sb_ok_nonneg _ Hok1)) as Hs.
  pose proof (sb_ok_nonneg _ (sb_ok_shrunk _ _ Hok1 Hs)) as Hnn. destruct (sp_match n (sp_rest o sb)) as [ts sb1].
  cbn [fst snd] in *. unfold sb_orders in Hnn, Hq |- *. apply Forall_app in Hnn as [Hnb Hna]. cbn [sb_bids sb_asks].
  rewrite !qty_of_app in *. pose proof (qty_of_kill id _ Hnb). pose proof (qty_of_kill id _ Hna). unfold fills_in. lia.
Qed.

Definition trades_ok (ts : list trade) : Prop :=
  Forall (λ t, 0 <= ti_quantity (tr_bid t) ∧ 0 <= ti_quantity (tr_ask t)) ts.

Lemma add_trades_ok o sb : sb_ok sb → in_u 64 (o_remaining o) → trades_ok (sp_add o sb).1.
Proof.
  intros Hok Hr. unfold sp_add. case_bool_decide as Hid; [constructor|]. destruct (sp_accepts o sb); [|constructor].
  unfold sp_settle, sp_match_all. pose proof (sp_rest_ok o sb Hok Hid Hr) as Hok1.
  pose proof (sp_match_fair (length (sb_orders (sp_rest o sb))) _ (sb_ok_nonneg _ Hok1)) as Hf.
  destruct (sp_match _ _) as [ts sb1]. cbn [fst] in *. eapply Forall_impl; [exact Hf|]. intros t (_ & H1 & H2). lia.
Qed.

Lemma fills_in_cons id t ts : fills_in id (t :: ts) =
  (if decide (ti_order_id (tr_bid t) = id) then ti_quantity (tr_bid t) else 0) +
  (if decide (ti_order_id (tr_ask t) = id) then ti_quantity (tr_ask t) else 0) + fills_in id ts.
Proof. unfold fills_in. rewrite !filled_of_cons. cbn [leg]. lia. Qed.

Lemma fills_in_nonneg id ts : trades_ok ts → 0 <= fills_in id ts.
Proof.
  induction 1 as [|t ts [H1 H2] _ IH]; [done|]. rewrite fills_in_cons. repeat case_decide; lia.
Qed.

Lemma fills_in_app id ts ts' : fills_in id (ts ++ ts') = fills_in id ts + fills_in id ts'.
Proof. induction ts as [|t ts IH]; [done|]. cbn [app]. rewrite !fills_in_cons, IH. lia. Qed.

(** ** Quotes of the market maker on a book *)

Section Quotes.
Context {A : Arith} {B : Type} `{BookLaws B}.

Lemma next_id c : 0 <= c → c + 1 < 2 ^ 64 → next_order_id c = (c, c + 1).
Proof. intros Hc0 Hc1. unfold next_order_id. by rewrite wrapu_id by (unfold in_u; lia). Qed.

Lemma cancel_quotes_ok ids : ∀ b sb, bk_shows b sb → ∃ b' sb', cancel_quotes ids b = Ret b' ∧ bk_shows b' sb' ∧
  (∀ id, qty_of id (sb_orders sb') <= qty_of id (sb_orders sb)) ∧
  (∀ x, x ∈ sb_ids sb' → x ∈ sb_ids sb ∧ x ∉ ids).
Proof.
  induction ids as [|i ids IH]; intros b sb Hb; cbn [cancel_quotes].
  { exists b, sb. split_and!; try done. intros x Hx. split; [done|apply not_elem_of_nil]. }
  destruct (bk_cancel_ok i b sb Hb) as (b1 & E & Hb1). rewrite E. tt_bind. destruct (IH b1 _ Hb1) as (b' & sb' & E' & Hb' & Hq & Hx).
  exists b', sb'. split_and!; [done|done| |].
  - intros id. pose proof (cancel_qty id i sb (bk_shows_ok b sb Hb)). specialize (Hq id). lia.
  - intros x Hin. destruct (Hx x Hin) as [Hx1 Hx2]. split; [by eapply ids_cancel|]. apply not_elem_of_cons. split; [|done].
    intros ->. unfold sb_ids, sb_orders, sp_cancel, sp_drop in Hx1. cbn in Hx1. rewrite fmap_app, elem_of_app in Hx1.
    destruct Hx1 as [(o & -> & [Ho _]%list_elem_of_filter)%list_elem_of_fmap|(o & -> & [Ho _]%list_elem_of_filter)%list_elem_of_fmap]; done.
Qed.

Lemma add_quotes_ok qs : ∀ c b sb, bk_shows b sb → 0 <= c → c + Z.of_nat (length qs) < 2 ^ 64 →
  ∃ r ts ids c' b' sb', add_quotes qs c b = (r, (ts, ids), c', b') ∧ bk_shows b' sb' ∧ trades_ok ts ∧
    c <= c' <= c + Z.of_nat (length qs) ∧ Forall (λ i, c <= i < c') ids ∧
    (r = Ret () → length ids = length qs) ∧
    (∀ id, id < c ∨ c' <= id → fills_in id ts + qty_of id (sb_orders sb') <= qty_of id (sb_orders sb)) ∧
    (∀ x, x ∈ sb_ids sb' → x ∈ sb_ids sb ∨ x ∈ ids).
Proof.
  induction qs as [|q qs IH]; intros c b sb Hb Hc0 Hc; cbn [add_quotes].
  { exists (Ret ()), [], [], c, b, sb. split_and!; try done; try (by constructor); try (by left); cbn [length]; lia. }
  cbn [length] in Hc. rewrite next_id by lia.
  destruct (bk_create_ok good_till_cancel c (quote_side (mo_side q)) (price_from_double (mo_price q)) (quote_units (mo_quantity q)) b sb Hb)
    as (r & b1 & E & Hb1 & Hr). rewrite E. destruct Hr as [-> |[w ->]].
  2: { exists (Throw w), [], [], (c + 1), b1, sb. split_and!; try done; try (by constructor); try (by left); cbn [length]; lia. }
  set (o := mk_order _ _ _ _ _). assert (in_u 64 (o_remaining o)) as Ho by (apply wrapu_range; lia).
  pose proof (bk_shows_ok b1 sb Hb1) as Hok. destruct (bk_add_ok o b1 sb Hb1 Ho) as (b2 & E2 & Hb2). rewrite E2.
  destruct (IH (c + 1) b2 _ Hb2 ltac:(lia) ltac:(lia)) as (r & ts & ids & c' & b' & sb' & E3 & Hb' & Ht & Hc' & Hids & Hlen & Hq & Hx).
  rewrite E3. exists r, ((sp_add o sb).1 ++ ts), (c :: ids), c', b', sb'. split_and!; try done.
  - apply Forall_app. split; [by apply add_trades_ok|done].
  - lia.
  - cbn [length]. lia.
  - constructor; [lia|]. eapply Forall_impl; [exact Hids|]. intros i Hi. cbn in Hi. lia.
  - intros Hr. cbn [length]. by rewrite Hlen.
  - intros id Hid. rewrite fills_in_app. pose proof (add_takes o sb id Hok Ho) as Ha. specialize (Hq id ltac:(lia)).
    rewrite decide_False in Ha by (cbn; lia). lia.
  - intros x Hin. destruct (Hx x Hin) as [Hx'|Hx']; [|right; by right].
    destruct (ids_add o sb x Hok Ho Hx') as [-> |Hx'']; [right; left|by left].
Qed.

End Quotes.

#[local] Existing Instance exact_arith.

Section Accounting.
Context {HO : HashOrder} (cf : adapter_config) (Hscale : (0 < qty_scale_ cf)%Q).

Definition qsumq (l : list Q) : Q := foldr Qplus 0%Q l.
(** What the fills report of an order. *)
Definition reported (id : Z) (fs : list local_fill) : Q :=
  qsumq (lf_quantity <$> filter (λ f, lf_order_id f = id) fs).

Lemma qsumq_app l1 l2 : (qsumq (l1 ++ l2) == qsumq l1 + qsumq l2)%Q.
Proof. unfold qsumq. induction l1 as [|x l1 IH]; cbn; [lra|]. rewrite IH. lra. Qed.

Lemma reported_snoc id fs f :
  (reported id (fs ++ [f]) == reported id fs + if decide (lf_order_id f = id) then lf_quantity f else 0)%Q.
Proof.
  unfold reported. rewrite filter_app, fmap_app, qsumq_app, filter_cons. destruct (decide (lf_order_id f = id)); cbn; lra.
Qed.

Definition u (q : Z) : Q := units cf q.

Lemma u_add a b : (u (a + b) == u a + u b)%Q.
Proof.
  unfold u, units. tt_exact. change ((a + b) # 1) with (inject_Z (a + b)). rewrite inject_Z_plus.
  change (a # 1) with (inject_Z a). change (b # 1) with (inject_Z b). field. lra.
Qed.
Lemma u_le a b : a <= b → (u a <= u b)%Q.
Proof.
  intros Hle. unfold u, units. tt_exact. apply Qle_shift_div_l; [done|]. 
  assert ((a # 1) / qty_scale_ cf * qty_scale_ cf == (a # 1))%Q as -> by (field; lra).
  change (inject_Z a <= inject_Z b)%Q. by rewrite <- Zle_Qle.
Qed.
Lemma u_zero : (u 0 == 0)%Q.
Proof. unfold u, units. tt_exact. field. lra. Qed.
Lemma u_nonneg a : 0 <= a → (0 <= u a)%Q.
Proof. intros Ha. pose proof (u_le 0 a Ha) as H. rewrite u_zero in H. lra. Qed.

(** The accounts, with [U] traded per order and not yet reported.  An order in [sub]
    was submitted for so many units. *)
Record accounts (sub : gmap Z Z) (fs : list local_fill) (rs : gmap Z resting_info) (U : Z → Z) : Prop := {
  ac_resting : ∀ id r, rs !! id = Some r → o_id (book_order r) = id ∧ 0 <= o_remaining (book_order r) ∧
    ∃ n, sub !! id = Some n ∧ (reported id fs + u (o_remaining (book_order r) + U id) <= u n)%Q;
  ac_all : ∀ id, (reported id fs <= u (default 0%Z (sub !! id)))%Q }.

(** [q] units of an order reported. *)
Definition less (U : Z → Z) (k q : Z) : Z → Z := λ id, if decide (k = id) then U id - q else U id.

Definition all_fills (out : list local_fill) (a : local_adapter) : list local_fill := out ++ la_pending_fills a.

Lemma emit_fills out f (a : local_adapter) : all_fills out (emit f a) = all_fills out a ++ [f (la_next_fill_id a)].
Proof. unfold all_fills, emit. cbn. by rewrite app_assoc. Qed.

Lemma accounts_emit sub fs rs U f q : accounts sub fs rs U →
  (lf_quantity f <= u q)%Q → 0 <= q <= U (lf_order_id f) →
  (reported (lf_order_id f) fs + u (U (lf_order_id f)) <= u (default 0%Z (sub !! lf_order_id f)))%Q →
  accounts sub (fs ++ [f]) rs (less U (lf_order_id f) q).
Proof.
  intros [Hr Ha] Hf Hq Hb. unfold less. split.
  - intros id r E. destruct (Hr id r E) as (H1 & H2 & n & H3 & H4). split_and!; [done|done|]. exists n. split; [done|].
    rewrite reported_snoc. destruct (decide (lf_order_id f = id)) as [<-|]; [|lra].
    assert (o_remaining (book_order r) + U (lf_order_id f) = (o_remaining (book_order r) + (U (lf_order_id f) - q)) + q) as E1 by lia.
    rewrite E1, u_add in H4. lra.
  - intros id. rewrite reported_snoc. destruct (decide (lf_order_id f = id)) as [<-|]; [|rewrite Qplus_0_r; apply Ha].
    pose proof (u_le q (U (lf_order_id f)) ltac:(lia)). lra.
Qed.

Lemma accounts_sub sub fs rs rs' U U' : accounts sub fs rs U → (∀ id r, rs' !! id = Some r → rs !! id = Some r ∧ U' id <= U id) →
  accounts sub fs rs' U'.
Proof.
  intros [Hr Ha] Hsub. split; [|done]. intros id r E. destruct (Hsub id r E) as [E' HU]. destruct (Hr id r E') as (H1 & H2 & n & H3 & H4).
  split_and!; [done|done|]. exists n. split; [done|].
  pose proof (u_le (o_remaining (book_order r) + U' id) (o_remaining (book_order r) + U id) ltac:(lia)). lra.
Qed.

Lemma record_accounts sub out (a : local_adapter) U ti at_ :
  accounts sub (all_fills out a) (la_resting a) U → 0 <= ti_quantity ti <= U (ti_order_id ti) →
  accounts sub (all_fills out (record_resting_fill cf ti at_ a)) (la_resting (record_resting_fill cf ti at_ a))
    (less U (ti_order_id ti) (ti_quantity ti)).
Proof.
  intros Hac Hq. unfold record_resting_fill. destruct (la_resting a !! ti_order_id ti) as [r|] eqn:E.
  - match goal with |- context [emit ?g a] => set (f := g) end.
    assert (accounts sub (all_fills out (emit f a)) (la_resting (emit f a)) (less U (ti_order_id ti) (ti_quantity ti))) as H1.
    { rewrite emit_fills. apply (accounts_emit sub _ _ U (f (la_next_fill_id a)) (ti_quantity ti)); [done|apply Qle_refl|done|].
      destruct Hac as [Hr _]. destruct (Hr _ _ E) as (_ & H2 & n & H3 & H4). cbn [lf_order_id f]. rewrite H3. cbn [default from_option Datatypes.id].
      rewrite u_add in H4. pose proof (u_nonneg _ H2). lra. }
    destruct (is_filled (book_order r)); [|done]. eapply accounts_sub; [exact H1|]. intros id r' E'.
    cbn in E'. apply lookup_delete_Some in E' as [_ E']. by split.
  - eapply accounts_sub; [done|]. intros id r' E'. split; [done|]. unfold less. destruct (decide (ti_order_id ti = id)); lia.
Qed.

Lemma accounts_ext sub fs rs U U' : (∀ id, U id = U' id) → accounts sub fs rs U → accounts sub fs rs U'.
Proof. intros HU Hac. eapply accounts_sub; [done|]. intros id r E. rewrite HU. by split. Qed.

(** Delivering a batch of trades of others reports them. *)
Lemma book_trades_accounts sub out ts at_ : ∀ a : local_adapter, trades_ok ts →
  accounts sub (all_fills out a) (la_resting a) (λ id, fills_in id ts) →
  accounts sub (all_fills out (on_book_trades cf ts at_ a)) (la_resting (on_book_trades cf ts at_ a)) (λ _, 0%Z).
Proof.
  induction ts as [|t ts IH]; intros a Hts Hac; [done|]. apply Forall_cons in Hts as [[H1 H2] Hts].
  pose proof (λ id, fills_in_nonneg id ts Hts) as Hn. unfold on_book_trades. cbn [foldl]. apply IH; [done|].
  eapply accounts_ext; [|apply record_accounts; [apply record_accounts; [exact Hac|]|]].
  - intros id. unfold less. cbn beta. rewrite fills_in_cons. repeat case_decide; lia.
  - cbn beta. rewrite fills_in_cons. specialize (Hn (ti_order_id (tr_bid t))). rewrite decide_True by done. case_decide; lia.
  - unfold less. cbn beta. rewrite fills_in_cons. specialize (Hn (ti_order_id (tr_ask t))). repeat case_decide; try done; lia.
Qed.

(** Every order the adapter still follows has at least what the book has of it. *)
Definition backed (rs : gmap Z resting_info) (sb : sbook) : Prop :=
  ∀ id r, rs !! id = Some r → qty_of id (sb_orders sb) <= o_remaining (book_order r) < 2 ^ 64.

Record good (sub : gmap Z Z) (out : list local_fill) (a : local_adapter) (sb : sbook) (U : Z → Z) : Prop := {
  go_accounts : accounts sub (all_fills out a) (la_resting a) U;
  go_backed : backed (la_resting a) sb }.

Lemma good_mono sub out (a a' : local_adapter) sb sb' U : good sub out a sb U → la_pending_fills a' = la_pending_fills a →
  (∀ id r, la_resting a' !! id = Some r → la_resting a !! id = Some r ∧ qty_of id (sb_orders sb') <= qty_of id (sb_orders sb)) →
  good sub out a' sb' U.
Proof.
  intros [Hac Hb] Ef Hr. split.
  - unfold all_fills. rewrite Ef. eapply accounts_sub; [exact Hac|]. intros id r E. by destruct (Hr id r E).
  - intros id r E. destruct (Hr id r E) as [E' Hq]. pose proof (Hb id r E'). lia.
Qed.

Lemma good_cancel sub out (a : local_adapter) sb id : sb_ok sb → good sub out a sb (λ _, 0%Z) →
  good sub out (forget_resting id a) (sp_cancel id sb) (λ _, 0%Z).
Proof.
  intros Hok Hg. eapply good_mono; [exact Hg|done|]. cbn. intros k r [_ E]%lookup_delete_Some. split; [done|]. by apply cancel_qty.
Qed.

(** Trades fill the shared objects by what they take from the book. *)
Lemma good_touch sub out (a : local_adapter) sb sb' ts : good sub out a sb (λ _, 0%Z) → trades_ok ts →
  (∀ id, is_Some (la_resting a !! id) → fills_in id ts + qty_of id (sb_orders sb') <= qty_of id (sb_orders sb)) →
  Forall (λ o, 0 <= o_remaining o) (sb_orders sb') →
  good sub out (touch_resting ts a) sb' (λ id, fills_in id ts).
Proof.
  intros [[Hr Ha] Hb] Hts Hq Hnn. pose proof (λ id, fills_in_nonneg id ts Hts) as Hn.
  assert (∀ id r, la_resting (touch_resting ts a) !! id = Some r → ∃ r0, la_resting a !! id = Some r0 ∧
    o_id (book_order r) = o_id (book_order r0) ∧ o_remaining (book_order r) = o_remaining (book_order r0) - fills_in id ts ∧
    qty_of id (sb_orders sb') <= o_remaining (book_order r) <= o_remaining (book_order r0)) as Ht.
  { intros id r E. cbn in E. rewrite lookup_fmap in E. destruct (la_resting a !! id) as [r0|] eqn:E0; [|done]. cbn in E.
    destruct (Hr id r0 E0) as (H1 & H2 & _). pose proof (Hb id r0 E0) as H3. pose proof (Hq id (mk_is_Some _ _ E0)) as H4. specialize (Hn id).
    pose proof (qty_of_nonneg id _ Hnn) as H5. simplify_eq. exists r0. cbn [book_order touch o_id o_remaining o_set_remaining].
    rewrite wrapu_id by (unfold in_u; lia). split_and!; try done; lia. }
  split; [split|].
  - intros id r E. destruct (Ht id r E) as (r0 & E0 & H1 & H2 & H3). destruct (Hr id r0 E0) as (H4 & H5 & n & H6 & H7).
    pose proof (qty_of_nonneg id _ Hnn). split_and!; [by rewrite H1|lia|]. exists n. split; [done|]. rewrite H2.
    replace (o_remaining (book_order r0) - fills_in id ts + fills_in id ts) with (o_remaining (book_order r0) + 0) by lia. exact H7.
  - exact Ha.
  - intros id r E. destruct (Ht id r E) as (r0 & E0 & _ & _ & H3). pose proof (Hb id r0 E0). lia.
Qed.

Lemma record_resting_sub (a : local_adapter) ti at_ id r :
  la_resting (record_resting_fill cf ti at_ a) !! id = Some r → la_resting a !! id = Some r.
Proof.
  unfold record_resting_fill. destruct (la_resting a !! ti_order_id ti) as [r0|]; [|done].
  destruct (is_filled (book_order r0)); cbn; [|done]. by intros [_ E]%lookup_delete_Some.
Qed.
Lemma book_trades_sub ts at_ id r : ∀ a : local_adapter,
  la_resting (on_book_trades cf ts at_ a) !! id = Some r → la_resting a !! id = Some r.
Proof.
  induction ts as [|t ts IH]; intros a; [done|]. unfold on_book_trades. cbn [foldl]. intros E.
  by apply IH, record_resting_sub, record_resting_sub in E.
Qed.

Lemma good_book_trades sub out (a : local_adapter) sb ts at_ : good sub out a sb (λ id, fills_in id ts) → trades_ok ts →
  good sub out (on_book_trades cf ts at_ a) sb (λ _, 0%Z).
Proof.
  intros [Hac Hb] Hts. split; [by apply book_trades_accounts|]. intros id r E%book_trades_sub. by apply Hb.
Qed.

(** ** The order's own trades *)

Definition own_bound (sub : gmap Z Z) (fs : list local_fill) (id : Z) (U : Z → Z) : Prop :=
  (reported id fs + u (U id) <= u (default 0%Z (sub !! id)))%Q.

Lemma own_fill_qty (o : local_order) ours counter rem now (a : local_adapter) : 0 <= ti_quantity ours →
  own_fill cf o ours counter rem now a = a ∨
  ∃ f, own_fill cf o ours counter rem now a = emit f a ∧
    (∀ n, lf_order_id (f n) = lo_id o ∧ (lf_quantity (f n) <= u (ti_quantity ours))%Q).
Proof.
  intros Hq. pose proof (u_nonneg _ Hq) as Hu. unfold own_fill.
  set (fade := match fill_model_ cf with Some fm => get_fade_rate fm | None => n_zero end).
  destruct (fade >? n_zero)%num eqn:Ef; cbn [andb].
  - destruct (_ <=? n_zero)%num; [by left|]. right. eexists. split; [done|]. intros n. cbn. split; [done|].
    cbn in Ef. apply Qltb_true in Ef. assert (∀ x y : Q, 0 <= x → 0 < y → x * (1 - y) <= x)%Q as G by (intros; nra).
    exact (G _ fade Hu Ef).
  - right. eexists. split; [done|]. intros n. cbn. split; [done|]. apply Qle_refl.
Qed.

Lemma reported_emit out f (a : local_adapter) id :
  (reported id (all_fills out (emit f a)) ==
   reported id (all_fills out a) + if decide (lf_order_id (f (la_next_fill_id a)) = id) then lf_quantity (f (la_next_fill_id a)) else 0)%Q.
Proof. rewrite emit_fills. apply reported_snoc. Qed.

Lemma record_reported out (a : local_adapter) ti at_ id : ti_order_id ti ≠ id →
  (reported id (all_fills out (record_resting_fill cf ti at_ a)) == reported id (all_fills out a))%Q.
Proof.
  intros Hid. unfold record_resting_fill. destruct (la_resting a !! ti_order_id ti) as [r|]; [|reflexivity].
  match goal with |- context [emit ?g a] => set (f := g) end.
  assert (reported id (all_fills out (emit f a)) == reported id (all_fills out a))%Q as E.
  { rewrite reported_emit. cbn [lf_order_id f]. rewrite decide_False by done. lra. }
  by destruct (is_filled (book_order r)).
Qed.

Definition tallies (sub : gmap Z Z) (out : list local_fill) (own : Z) (a : local_adapter) (U : Z → Z) : Prop :=
  accounts sub (all_fills out a) (la_resting a) U ∧ own_bound sub (all_fills out a) own U.

Lemma tallies_le sub out own (a : local_adapter) U U' : tallies sub out own a U → (∀ id, U' id <= U id) → tallies sub out own a U'.
Proof.
  intros [Hac Hown] HU. split; [eapply accounts_sub; [exact Hac|]; intros id r E; by split|].
  unfold own_bound in *. pose proof (u_le _ _ (HU own)). lra.
Qed.

Lemma tallies_counter sub out own (a : local_adapter) U ti at_ : tallies sub out own a U → ti_order_id ti ≠ own →
  0 <= ti_quantity ti <= U (ti_order_id ti) →
  tallies sub out own (record_resting_fill cf ti at_ a) (less U (ti_order_id ti) (ti_quantity ti)).
Proof.
  intros [Hac Hown] Hid Hq. split; [by apply record_accounts|]. unfold own_bound, less in *.
  by rewrite record_reported, decide_False by done.
Qed.

Lemma tallies_own sub out (o : local_order) ours counter rem now (a : local_adapter) U : tallies sub out (lo_id o) a U →
  0 <= ti_quantity ours <= U (lo_id o) →
  tallies sub out (lo_id o) (own_fill cf o ours counter rem now a) (less U (lo_id o) (ti_quantity ours)).
Proof.
  intros Ht Hq. destruct (own_fill_qty o ours counter rem now a (proj1 Hq)) as [-> |(f & -> & Hf)].
  { eapply tallies_le; [exact Ht|]. intros id. unfold less. case_decide; lia. }
  destruct Ht as [Hac Hown]. destruct (Hf (la_next_fill_id a)) as [Ef Hl]. split.
  - rewrite emit_fills, <- Ef. apply (accounts_emit sub _ _ U _ (ti_quantity ours) Hac Hl); by rewrite Ef.
  - unfold own_bound, less in *. rewrite reported_emit, Ef, !decide_True by done.
    replace (U (lo_id o)) with (U (lo_id o) - ti_quantity ours + ti_quantity ours) in Hown by lia. rewrite u_add in Hown. lra.
Qed.

Lemma tallies_own_trade sub out (o : local_order) rem now t ts (a : local_adapter) : trades_ok (t :: ts) →
  tallies sub out (lo_id o) a (λ id, fills_in id (t :: ts)) →
  tallies sub out (lo_id o) (on_own_trade cf o rem now a t) (λ id, fills_in id ts).
Proof.
  intros Hts Ht. apply Forall_cons in Hts as [[Hq1 Hq2] Hts]. pose proof (λ id, fills_in_nonneg id ts Hts) as Hn. unfold on_own_trade.
  set (own := lo_id o) in *. set (ours := if ti_order_id (tr_bid t) =? own then tr_bid t else tr_ask t).
  set (counter := if ti_order_id (tr_bid t) =? own then tr_ask t else tr_bid t).
  assert (0 <= ti_quantity ours ∧ 0 <= ti_quantity counter) as [Ho Hc] by (unfold ours, counter; destruct (_ =? _); done).
  set (U1 := λ id, (if decide (ti_order_id ours = id) then ti_quantity ours else 0) + fills_in id ts).
  assert (∀ id, fills_in id (t :: ts) = (if decide (ti_order_id counter = id) then ti_quantity counter else 0) + U1 id) as HU.
  { intros id. unfold U1. rewrite fills_in_cons. unfold ours, counter. destruct (_ =? _); lia. }
  assert (∀ id, 0 <= U1 id) as HU1 by (intros id; unfold U1; specialize (Hn id); case_decide; lia).
  set (a1 := if negb _ then _ else a). assert (tallies sub out own a1 U1) as H1.
  { unfold a1. destruct (Z.eqb_spec (ti_order_id counter) own) as [Ec|Ec]; cbn [negb].
    - eapply tallies_le; [exact Ht|]. intros id. cbn beta. rewrite HU. case_decide; lia.
    - eapply tallies_le; [apply tallies_counter; [exact Ht|done|]|].
      + cbn beta. rewrite HU, decide_True by done. specialize (HU1 (ti_order_id counter)). lia.
      + intros id. unfold less. cbn beta. rewrite HU. case_decide; lia. }
  destruct (Z.eqb_spec (ti_order_id ours) own) as [Eo|Eo].
  - eapply tallies_le; [apply tallies_own; [exact H1|]|].
    + unfold U1. fold own. rewrite decide_True by done. specialize (Hn own). lia.
    + intros id. unfold less, U1. fold own. rewrite <- Eo. case_decide; lia.
  - eapply tallies_le; [exact H1|]. intros id. unfold U1. case_decide; lia.
Qed.

Lemma tallies_own_trades sub out (o : local_order) rem now ts : ∀ a : local_adapter, trades_ok ts →
  tallies sub out (lo_id o) a (λ id, fills_in id ts) →
  tallies sub out (lo_id o) (foldl (on_own_trade cf o rem now) a ts) (λ _, 0%Z).
Proof.
  induction ts as [|t ts IH]; intros a Hts Ht; [done|]. cbn [foldl]. apply IH; [by apply Forall_cons in Hts as [_ Hts]|].
  by apply tallies_own_trade.
Qed.

Lemma own_trades_sub (o : local_order) rem now ts id r : ∀ a : local_adapter,
  la_resting (foldl (on_own_trade cf o rem now) a ts) !! id = Some r → la_resting a !! id = Some r.
Proof.
  induction ts as [|t ts IH]; intros a; [done|]. cbn [foldl]. intros E%IH. unfold on_own_trade in E.
  set (a1 := if negb _ then _ else a) in E. assert (la_resting a1 !! id = Some r) as E1.
  { revert E. unfold own_fill. repeat (match goal with |- context [if ?c then _ else _] => destruct c end); done. }
  revert E1. unfold a1. destruct (negb _); [apply record_resting_sub|done].
Qed.

(** ** Every way an order, the market or time reaches the adapter *)

Context {B : Type} {HBook : Book B} {HLaws : BookLaws B} (sqrt : @num exact_arith → @num exact_arith).

(** The adapter with its book, the fills polled so far, the units submitted per
    order, the ids issued to orders not submitted yet, the process's id counter and
    the market maker. *)
Record lworld := {
  lw_a : local_adapter; lw_b : B; lw_out : list local_fill; lw_sub : gmap Z Z; lw_issued : gset Z; lw_next : Z;
  lw_mm : MarketMaker }.

Inductive lstep : lworld → lworld → Prop :=
  | l_issue a b out sub iss c mm : c + 1 < 2 ^ 64 →
      lstep {| lw_a := a; lw_b := b; lw_out := out; lw_sub := sub; lw_issued := iss; lw_next := c; lw_mm := mm |}
            {| lw_a := a; lw_b := b; lw_out := out; lw_sub := sub; lw_issued := {[c]} ∪ iss; lw_next := (next_order_id c).2; lw_mm := mm |}
  | l_submit o draw now a b out sub iss c mm r a' b' : lo_id o ∈ iss →
      submit_local_order cf o draw now a b = (r, a', b') →
      lstep {| lw_a := a; lw_b := b; lw_out := out; lw_sub := sub; lw_issued := iss; lw_next := c; lw_mm := mm |}
            {| lw_a := a'; lw_b := b'; lw_out := out; lw_sub := <[lo_id o := book_quantity cf (lo_quantity o)]> sub;
               lw_issued := iss ∖ {[lo_id o]}; lw_next := c; lw_mm := mm |}
  | l_poll a b out sub iss c mm :
      lstep {| lw_a := a; lw_b := b; lw_out := out; lw_sub := sub; lw_issued := iss; lw_next := c; lw_mm := mm |}
            {| lw_a := (poll_local_fills a).2; lw_b := b; lw_out := out ++ (poll_local_fills a).1; lw_sub := sub;
               lw_issued := iss; lw_next := c; lw_mm := mm |}
  | l_cancel id lat a b out sub iss c mm r a' b' : cancel_local_order cf id lat a b = (r, a', b') →
      lstep {| lw_a := a; lw_b := b; lw_out := out; lw_sub := sub; lw_issued := iss; lw_next := c; lw_mm := mm |}
            {| lw_a := a'; lw_b := b'; lw_out := out; lw_sub := sub; lw_issued := iss; lw_next := c; lw_mm := mm |}
  | l_modify id px q a b out sub iss c mm r a' b' : modify_local_order cf id px q a b = (r, a', b') →
      lstep {| lw_a := a; lw_b := b; lw_out := out; lw_sub := sub; lw_issued := iss; lw_next := c; lw_mm := mm |}
            {| lw_a := a'; lw_b := b'; lw_out := out; lw_sub := sub; lw_issued := iss; lw_next := c; lw_mm := mm |}
  | l_advance ts a b out sub iss c mm r a' b' : advance_time ts a b = (r, a', b') →
      lstep {| lw_a := a; lw_b := b; lw_out := out; lw_sub := sub; lw_issued := iss; lw_next := c; lw_mm := mm |}
            {| lw_a := a'; lw_b := b'; lw_out := out; lw_sub := sub; lw_issued := iss; lw_next := c; lw_mm := mm |}
  | l_mid px l2 a b out sub iss c mm :
      lstep {| lw_a := a; lw_b := b; lw_out := out; lw_sub := sub; lw_issued := iss; lw_next := c; lw_mm := mm |}
            {| lw_a := set_mid_price px (set_l2_seeded l2 a); lw_b := b; lw_out := out; lw_sub := sub; lw_issued := iss; lw_next := c; lw_mm := mm |}
  | l_sweep symbol low high ts a b out sub iss c mm r a' b' : sweep_resting_range cf symbol low high ts a b = (r, a', b') →
      lstep {| lw_a := a; lw_b := b; lw_out := out; lw_sub := sub; lw_issued := iss; lw_next := c; lw_mm := mm |}
            {| lw_a := a'; lw_b := b'; lw_out := out; lw_sub := sub; lw_issued := iss; lw_next := c; lw_mm := mm |}
  | l_replenish book px upd at_ a b out sub iss c mm ts mm' c' b' :
      replenish sqrt book px upd mm c b = (Ret ts, mm', c', b') →
      c + Z.of_nat (length (compute_replenish sqrt px upd mm).1) < 2 ^ 64 →
      lstep {| lw_a := a; lw_b := b; lw_out := out; lw_sub := sub; lw_issued := iss; lw_next := c; lw_mm := mm |}
            {| lw_a := on_book_trades cf ts at_ (touch_resting ts a); lw_b := b'; lw_out := out; lw_sub := sub;
               lw_issued := iss; lw_next := c'; lw_mm := mm' |}.

Record linv (w : lworld) (sb : sbook) : Prop := {
  li_shows : bk_shows (lw_b w) sb;
  li_good : good (lw_sub w) (lw_out w) (lw_a w) sb (λ _, 0%Z);
  li_next : 0 <= lw_next w < 2 ^ 64;
  li_ids : ids_below (lw_next w) sb;
  li_sub : ∀ id n, lw_sub w !! id = Some n → 0 <= n ∧ id < lw_next w;
  li_issued : ∀ id, id ∈ lw_issued w → id < lw_next w ∧ id ∉ sb_ids sb ∧ lw_sub w !! id = None }.

Lemma sb_nonneg (b : B) sb : bk_shows b sb → Forall (λ o, 0 <= o_remaining o) (sb_orders sb).
Proof. intros Hb. by eapply sb_ok_nonneg, bk_shows_ok. Qed.

Lemma good_fresh sub out (a : local_adapter) sb id n : good sub out a sb (λ _, 0%Z) → sub !! id = None → 0 <= n →
  good (<[id := n]> sub) out a sb (λ _, 0%Z) ∧ (reported id (all_fills out a) <= 0)%Q ∧ la_resting a !! id = None.
Proof.
  intros [[Hr Ha] Hbk] Hs Hn. assert (reported id (all_fills out a) <= 0)%Q as Hzero.
  { specialize (Ha id). rewrite Hs in Ha. cbn [default from_option Datatypes.id] in Ha. by rewrite u_zero in Ha. }
  split_and!; [split; [split|done]|done|].
  - intros k r E. destruct (Hr k r E) as (H1 & H2 & m & H3 & H4). split_and!; [done|done|]. exists m. split; [|done].
    rewrite lookup_insert_ne; [done|congruence].
  - intros k. destruct (decide (k = id)) as [->|]; [|rewrite lookup_insert_ne by done; apply Ha].
    rewrite lookup_insert_eq. cbn [default from_option Datatypes.id]. pose proof (u_nonneg n Hn). lra.
  - destruct (la_resting a !! id) as [r|] eqn:E; [|done]. destruct (Hr _ _ E) as (_ & _ & k & Hk & _). congruence.
Qed.

Lemma good_track sub out (a : local_adapter) sb U n r (id := o_id (book_order r)) (rem := o_remaining (book_order r)) :
  good sub out a sb U → sub !! id = Some n → (reported id (all_fills out a) + u (rem + U id) <= u n)%Q →
  0 <= rem → qty_of id (sb_orders sb) <= rem < 2 ^ 64 →
  good sub out (set_resting (<[id := r]> (la_resting a)) a) sb U.
Proof.
  intros [[Hr Ha] Hbk] Hs Hb Hrem Hq. split; [split|].
  - intros k r'. cbn [set_resting la_resting]. destruct (decide (k = id)) as [->|].
    + rewrite lookup_insert_eq. intros [= <-]. split_and!; [done|done|]. by exists n.
    + rewrite lookup_insert_ne by done. apply Hr.
  - exact Ha.
  - intros k r'. cbn [set_resting la_resting]. destruct (decide (k = id)) as [->|].
    + rewrite lookup_insert_eq. by intros [= <-].
    + rewrite lookup_insert_ne by done. apply Hbk.
Qed.

(** What is true after the book took a new order of [n] units. *)
Lemma added_good sub out (a : local_adapter) sb bo : sb_ok sb → sb_ok (sp_add bo sb).2 → good sub out a sb (λ _, 0%Z) →
  la_resting a !! o_id bo = None → o_id bo ∉ sb_ids sb → in_u 64 (o_remaining bo) →
  good sub out (touch_resting (sp_add bo sb).1 a) (sp_add bo sb).2 (λ id, fills_in id (sp_add bo sb).1) ∧
  0 <= fills_in (o_id bo) (sp_add bo sb).1 ∧
  o_remaining (touch (sp_add bo sb).1 bo) = o_remaining bo - fills_in (o_id bo) (sp_add bo sb).1 ∧
  0 <= qty_of (o_id bo) (sb_orders (sp_add bo sb).2) <= o_remaining bo - fills_in (o_id bo) (sp_add bo sb).1.
Proof.
  intros Hok Hok2 Hg Hnone Hid Hr. pose proof (add_trades_ok bo sb Hok Hr) as Hts. pose proof (λ id, add_takes bo sb id Hok Hr) as Htk.
  pose proof (sb_ok_nonneg _ Hok2) as Hnn2. pose proof (fills_in_nonneg (o_id bo) _ Hts) as Hf0.
  pose proof (qty_of_nonneg (o_id bo) _ Hnn2) as Hq0. pose proof (Htk (o_id bo)) as Hown.
  rewrite decide_True, (qty_of_absent (o_id bo) (sb_orders sb)) in Hown by done. split_and!; [|lia| |lia|lia].
  - eapply good_touch; [exact Hg|done| |done]. intros id [ri Eri]. specialize (Htk id). rewrite decide_False in Htk; [lia|].
    intros <-. congruence.
  - cbn [touch o_remaining o_set_remaining]. apply wrapu_id. destruct Hr. unfold in_u. lia.
Qed.

Lemma submit_good sub out (o : local_order) draw now (a : local_adapter) (b : B) sb r a' b' :
  good sub out a sb (λ _, 0%Z) → bk_shows b sb → sub !! lo_id o = None → lo_id o ∉ sb_ids sb →
  submit_local_order cf o draw now a b = (r, a', b') →
  ∃ sb', bk_shows b' sb' ∧ good (<[lo_id o := book_quantity cf (lo_quantity o)]> sub) out a' sb' (λ _, 0%Z) ∧
    ∀ x, x ∈ sb_ids sb' → x = lo_id o ∨ x ∈ sb_ids sb.
Proof.
  intros Hg Hb Hs Hid E. remember (book_quantity cf (lo_quantity o)) as n eqn:En.
  assert (in_u 64 n) as Hn by (subst n; apply wrapu_range; lia).
  destruct (good_fresh sub out a sb (lo_id o) n Hg Hs (proj1 Hn)) as (Hg1 & Hzero & Hnone).
  assert (∀ b1, bk_shows b1 sb → ∃ sb', bk_shows b1 sb' ∧ good (<[lo_id o := n]> sub) out a sb' (λ _, 0%Z) ∧
    ∀ x, x ∈ sb_ids sb' → x = lo_id o ∨ x ∈ sb_ids sb) as Hsame by (intros b1 Hb1; exists sb; split_and!; auto).
  unfold submit_local_order in E. destruct (_ || _); [injection E as <- <- <-; by apply Hsame|].
  destruct (negb _); [injection E as <- <- <-; by apply Hsame|].
  match type of E with context [bk_create ?t ?i ?sd ?p ?q b] => destruct (bk_create_ok t i sd p q b sb Hb) as (r1 & b1 & E1 & Hb1 & Hr1) end.
  rewrite E1 in E. destruct Hr1 as [-> |[w ->]]; [|injection E as <- <- <-; by apply Hsame].
  rewrite <- En in E. set (bo := mk_order _ _ _ _ _) in *. pose proof (bk_shows_ok _ _ Hb) as Hok.
  destruct (bk_add_ok bo b1 sb Hb1 Hn) as (b2 & E2 & Hb2). rewrite E2 in E.
  destruct (added_good _ out a sb bo Hok (bk_shows_ok _ _ Hb2) Hg1 Hnone Hid Hn) as (Hg2 & Hf0 & Et & Hq).
  pose proof (add_trades_ok bo sb Hok Hn) as Hts. exists (sp_add bo sb).2.
  pose proof (λ x, ids_add bo sb x Hok Hn) as Hids. remember (sp_add bo sb) as res eqn:Eres. destruct res as [ts sb2]. cbn [fst snd] in *.
  change (o_id bo) with (lo_id o) in *. change (o_remaining bo) with n in *.
  set (a2 := if _ && _ then _ else _) in E. injection E as <- <- <-.
  assert (good (<[lo_id o := n]> sub) out a2 sb2 (λ id, fills_in id ts) ∧ all_fills out a2 = all_fills out a) as [Hg3 Ef].
  { unfold a2. destruct (bool_decide _ && _); [|done]. split; [|done].
    apply (good_track _ out (touch_resting ts a) sb2 _ n {| book_order := touch ts bo; ri_symbol := lo_symbol o; ri_side := lo_side o |});
      cbn [book_order]; rewrite ?Et; [done|apply lookup_insert_eq| |lia|destruct Hn; change (o_id (touch ts bo)) with (lo_id o); lia].
    change (o_id (touch ts bo)) with (lo_id o). replace (n - fills_in (lo_id o) ts + fills_in (lo_id o) ts) with n by lia.
    change (all_fills out (touch_resting ts a)) with (all_fills out a). lra. }
  split_and!; [done| |exact Hids].
  destruct (tallies_own_trades (<[lo_id o := n]> sub) out o (o_remaining (touch ts bo)) now ts a2 Hts) as [Hac _].
  { split; [apply Hg3|]. unfold own_bound. rewrite Ef, lookup_insert_eq. cbn [default from_option Datatypes.id].
    pose proof (u_le (fills_in (lo_id o) ts) n ltac:(lia)). lra. }
  split; [done|]. intros id ri Ei2%own_trades_sub. by apply (go_backed _ _ _ _ _ Hg3).
Qed.

Lemma forgot id (a : local_adapter) k r : la_resting (forget_resting id a) !! k = Some r → id ≠ k ∧ la_resting a !! k = Some r.
Proof. apply lookup_delete_Some. Qed.

(** The fills stay within what was submitted over an operation that only shrinks the book's orders. *)
Definition shrinks (sub : gmap Z Z) (out : list local_fill) (sb : sbook) (a' : local_adapter) (b' : B) : Prop :=
  ∃ sb', bk_shows b' sb' ∧ good sub out a' sb' (λ _, 0%Z) ∧ ∀ x, x ∈ sb_ids sb' → x ∈ sb_ids sb.

Lemma shrinks_trans sub out sb sb1 a' (b' : B) : shrinks sub out sb1 a' b' → (∀ x, x ∈ sb_ids sb1 → x ∈ sb_ids sb) →
  shrinks sub out sb a' b'.
Proof. intros (sb' & H1 & H2 & H3) Hx. exists sb'. auto. Qed.

Lemma cancel_good sub out (a : local_adapter) (b : B) sb id lat r a' b' : good sub out a sb (λ _, 0%Z) → bk_shows b sb →
  cancel_local_order cf id lat a b = (r, a', b') → shrinks sub out sb a' b'.
Proof.
  intros Hg Hb E. unfold cancel_local_order in E. destruct (latency_model_ cf).
  - injection E as <- <- <-. exists sb. split_and!; [done| |done]. eapply good_mono; [exact Hg|done|]. by intros k ri Ek.
  - destruct (bk_cancel_ok id b sb Hb) as (b1 & E1 & Hb1). rewrite E1 in E. injection E as <- <- <-.
    exists (sp_cancel id sb). split_and!; [done| |by apply ids_cancel]. apply good_cancel; [by eapply bk_shows_ok|done].
Qed.

Lemma modify_qty o p q sb id : sb_ok sb → id ≠ o_id o →
  qty_of id (sb_orders (sp_modify o p q sb)) <= qty_of id (sb_orders sb).
Proof.
  intros Hok Hid. unfold sp_modify. rewrite (qty_of_perm id _ _ (sp_rest_orders _ _)), qty_of_cons.
  rewrite decide_False by (cbn; congruence). pose proof (cancel_qty id (o_id o) sb Hok). lia.
Qed.

Lemma modify_good sub out (a : local_adapter) (b : B) sb id px q r a' b' : good sub out a sb (λ _, 0%Z) → bk_shows b sb →
  modify_local_order cf id px q a b = (r, a', b') → shrinks sub out sb a' b'.
Proof.
  intros Hg Hb E. unfold modify_local_order in E. pose proof (bk_shows_ok _ _ Hb) as Hok.
  destruct (bk_modify_ok id (price_from_double px) (book_quantity cf q) b sb Hb) as (r1 & b1 & sb1 & E1 & Hb1 & Hs).
  { apply wrapu_range. lia. }
  rewrite E1 in E. injection E as <- <- <-. exists sb1. split; [done|].
  destruct Hs as [-> |[-> |(o & Ho & ->)]].
  - split; [|done]. eapply good_mono; [exact Hg|done|]. intros k ri [_ Ek]%forgot. by split.
  - split; [|by apply ids_cancel]. by apply good_cancel.
  - assert (o ∈ sb_orders sb ∧ o_id o = id) as [Hin Hid].
    { unfold sp_find in Ho. assert (o ∈ filter (λ o, o_id o = id) (sb_orders sb)) as [? ?]%list_elem_of_filter; [|done].
      destruct (filter _ _); [done|]. cbn in Ho. simplify_eq. by left. }
    split.
    + eapply good_mono; [exact Hg|done|]. intros k ri [Hk Ek]%forgot. split; [done|]. apply modify_qty; [done|congruence].
    + intros x. unfold sp_modify. rewrite (sp_rest_ids _ _), elem_of_cons. cbn [o_id mk_order].
      intros [-> |Hx]; [apply list_elem_of_fmap; eauto|by eapply ids_cancel].
Qed.

Lemma expire_good sub out ts cs : ∀ (a : local_adapter) (b : B) sb r a' b', good sub out a sb (λ _, 0%Z) → bk_shows b sb →
  expire_cancels ts cs a b = (r, a', b') → shrinks sub out sb a' b'.
Proof.
  induction cs as [|[id due] cs IH]; intros a b sb r a' b' Hg Hb E; cbn [expire_cancels] in E.
  { injection E as <- <- <-. exists sb. by split_and!. }
  destruct (due <=? ts); [|by eapply IH]. destruct (bk_cancel_ok id b sb Hb) as (b1 & E1 & Hb1). rewrite E1 in E.
  eapply shrinks_trans; [eapply IH; [|exact Hb1|exact E]|by apply ids_cancel].
  eapply good_mono; [apply (good_cancel sub out a sb id); [by eapply bk_shows_ok|done]|done|]. by intros k ri Ek.
Qed.

(** A sweep fills an order it follows for what is left of it and takes it off the book. *)
Lemma swept_good sub out (a : local_adapter) sb id r f : sb_ok sb → good sub out a sb (λ _, 0%Z) → la_resting a !! id = Some r →
  (∀ n, lf_order_id (f n) = id ∧ lf_quantity (f n) = u (o_remaining (book_order r))) →
  good sub out (forget_resting id (emit f a)) (sp_cancel id sb) (λ _, 0%Z).
Proof.
  intros Hok [[Hr Ha] Hb] Er Hf. destruct (Hf (la_next_fill_id a)) as [Ef Eq].
  destruct (Hr id r Er) as (H1 & H2 & n & H3 & H4). rewrite Z.add_0_r in H4. split; [split|].
  - intros k rk [Hk Ek]%forgot. destruct (Hr k rk Ek) as (H5 & H6 & m & H7 & H8). split_and!; [done|done|].
    exists m. split; [done|]. change (all_fills out (forget_resting id (emit f a))) with (all_fills out (emit f a)).
    rewrite reported_emit, Ef, decide_False by done. lra.
  - intros k. change (all_fills out (forget_resting id (emit f a))) with (all_fills out (emit f a)). rewrite reported_emit, Ef, Eq.
    destruct (decide (id = k)) as [<-|]; [|specialize (Ha k); lra]. rewrite H3. exact H4.
  - intros k rk [Hk Ek]%forgot. pose proof (Hb k rk Ek). pose proof (cancel_qty k id sb Hok). lia.
Qed.

Lemma sweep_loop_good sub out symbol low high ts rs : ∀ any (a : local_adapter) (b : B) sb r a' b', NoDup rs.*1 →
  (∀ id ri, (id, ri) ∈ rs → la_resting a !! id = Some ri) → good sub out a sb (λ _, 0%Z) → bk_shows b sb →
  sweep_loop cf symbol low high ts rs any a b = (r, a', b') → shrinks sub out sb a' b'.
Proof.
  induction rs as [|[id ri] rs IH]; intros any a b sb r a' b' Hnd Hrs Hg Hb E; cbn [sweep_loop] in E.
  { injection E as <- <- <-. exists sb. by split_and!. }
  cbn in Hnd. apply NoDup_cons in Hnd as [Hnin Hnd]. pose proof (Hrs id ri ltac:(by left)) as Hri.
  assert (∀ k rk, (k, rk) ∈ rs → la_resting a !! k = Some rk ∧ k ≠ id) as Hrest.
  { intros k rk Hin. split; [apply Hrs; by right|]. intros ->. apply Hnin, list_elem_of_fmap. by exists (id, rk). }
  assert (∀ a1, la_resting a1 = la_resting a → ∀ k rk, (k, rk) ∈ rs → la_resting (forget_resting id a1) !! k = Some rk) as Hfor.
  { intros a1 Ea k rk Hin. cbn. destruct (Hrest k rk Hin). rewrite Ea, lookup_delete_ne by done. done. }
  destruct (negb _); [eapply IH; [done| |exact Hg|exact Hb|exact E]; intros k rk Hin; by apply Hrest|].
  destruct (bool_decide _); [eapply IH; [done| |exact Hg|exact Hb|exact E]; intros k rk Hin; by apply Hrest|].
  destruct (negb _); [eapply IH; [done| |exact Hg|exact Hb|exact E]; intros k rk Hin; by apply Hrest|].
  destruct (_ <=? _)%num.
  - eapply IH; [done|by apply Hfor| |exact Hb|exact E]. eapply good_mono; [exact Hg|done|].
    intros k rk [_ Ek]%forgot. by split.
  - match type of E with context [emit ?g a] => set (f := g) in E end. destruct (bk_cancel_ok id b sb Hb) as (b1 & E1 & Hb1).
    rewrite E1 in E. eapply shrinks_trans; [eapply IH; [done|exact (Hfor (emit f a) eq_refl)| |exact Hb1|exact E]|by apply ids_cancel].
    eapply swept_good; [by eapply bk_shows_ok|done|exact Hri|]. intros n. by split.
Qed.

Lemma sweep_good sub out (a : local_adapter) (b : B) sb symbol low high ts r a' b' : good sub out a sb (λ _, 0%Z) → bk_shows b sb →
  sweep_resting_range cf symbol low high ts a b = (r, a', b') → shrinks sub out sb a' b'.
Proof.
  intros Hg Hb E. unfold sweep_resting_range in E. destruct (_ || _).
  { injection E as <- <- <-. exists sb. by split_and!. }
  assert (NoDup (iter (la_resting a)).*1) as Hnd by (rewrite (iter_perm (la_resting a)); apply NoDup_fst_map_to_list).
  assert (∀ id ri, (id, ri) ∈ iter (la_resting a) → la_resting a !! id = Some ri) as Hin.
  { intros id ri. rewrite (iter_perm (la_resting a)). apply elem_of_map_to_list. }
  destruct (_ >? _)%num; by eapply sweep_loop_good.
Qed.

(** The market maker's new ladder trades with the orders the adapter follows. *)
Lemma compute_live px upd book l (mm : MarketMaker) :
  (compute_replenish sqrt px upd (set_live book l mm)).1 = (compute_replenish sqrt px upd mm).1.
Proof. unfold compute_replenish. by destruct (px <=? n_zero)%num, upd. Qed.

Lemma replenish_ok book px upd mm c (b : B) sb ts mm' c' b' : bk_shows b sb → 0 <= c →
  c + Z.of_nat (length (compute_replenish sqrt px upd mm).1) < 2 ^ 64 →
  replenish sqrt book px upd mm c b = (Ret ts, mm', c', b') →
  ∃ sb' ids, bk_shows b' sb' ∧ trades_ok ts ∧ c <= c' < 2 ^ 64 ∧ live_quotes_ mm' !! book = Some ids ∧
    Forall (λ i, c <= i < c') ids ∧ length ids = length (compute_replenish sqrt px upd mm).1 ∧
    (∀ id, id < c → fills_in id ts + qty_of id (sb_orders sb') <= qty_of id (sb_orders sb)) ∧
    (∀ x, x ∈ sb_ids sb' → (x ∈ sb_ids sb ∧ x ∉ default [] (live_quotes_ mm !! book)) ∨ x ∈ ids).
Proof.
  intros Hb Hc Hlen E. unfold replenish in E.
  destruct (cancel_quotes_ok (default [] (live_quotes_ mm !! book)) b sb Hb) as (b1 & sb1 & E1 & Hb1 & Hq1 & Hx1). rewrite E1 in E.
  rewrite <- (compute_live px upd book [] mm) in Hlen |- *. destruct (compute_replenish sqrt px upd (set_live book [] mm)) as [qs m1]. cbn [fst] in Hlen |- *.
  destruct (add_quotes_ok qs c b1 sb1 Hb1 Hc Hlen) as (r & ts1 & ids & c1 & b2 & sb2 & E2 & Hb2 & Hts & Hc1 & Hids & Hl & Hq2 & Hx2).
  rewrite E2 in E. destruct r as [[]|w]; [|done]. injection E as <- <- <- <-. exists sb2, ids.
  split_and!; try done; try lia.
  - cbn [set_live live_quotes_]. apply lookup_insert_eq.
  - by apply Hl.
  - intros id Hid. specialize (Hq1 id). specialize (Hq2 id ltac:(lia)). lia.
  - intros x Hx. destruct (Hx2 x Hx) as [Hx'|]; [left; by apply Hx1|by right].
Qed.

Lemma next_range c : 0 <= c → c + 1 < 2 ^ 64 → (next_order_id c).2 = c + 1.
Proof. intros. by rewrite next_id. Qed.

(** A step that only shrinks the book keeps the invariant. *)
Lemma linv_shrinks w sb a' (b' : B) mm : linv w sb → shrinks (lw_sub w) (lw_out w) sb a' b' →
  ∃ sb', linv {| lw_a := a'; lw_b := b'; lw_out := lw_out w; lw_sub := lw_sub w; lw_issued := lw_issued w;
                 lw_next := lw_next w; lw_mm := mm |} sb'.
Proof.
  intros [H1 H2 H3 H4 H5 H6] (sb' & Hb' & Hg & Hx). exists sb'. split; try done.
  - intros x Hin. by apply H4, Hx.
  - intros id Hid. destruct (H6 id Hid) as (? & Hn & ?). split_and!; [done| |done]. intros Hin. by apply Hn, Hx.
Qed.

Lemma lstep_linv w w' sb : lstep w w' → linv w sb → ∃ sb', linv w' sb'.
Proof.
  intros Hs Hi. destruct Hs as
    [a b out sub iss c mm Hc|o draw now a b out sub iss c mm r a' b' Hid E|a b out sub iss c mm|id lat a b out sub iss c mm r a' b' E
    |id px q a b out sub iss c mm r a' b' E|ts a b out sub iss c mm r a' b' E|px l2 a b out sub iss c mm
    |symbol low high ts a b out sub iss c mm r a' b' E|book px upd at_ a b out sub iss c mm ts mm' c' b' E Hlen].
  - pose proof (li_next _ _ Hi) as Hn. cbn in Hn. rewrite next_range by lia. destruct Hi as [H1 H2 H3 H4 H5 H6]. cbn in *. exists sb. split; cbn; try done; try lia.
    + intros x Hx. specialize (H4 x Hx). lia.
    + intros id n E. destruct (H5 id n E). lia.
    + intros id [->%elem_of_singleton|Hin]%elem_of_union.
      * split_and!; [lia|intros Hx; specialize (H4 c Hx); lia|]. destruct (sub !! c) as [n|] eqn:E; [|done]. destruct (H5 c n E). lia.
      * destruct (H6 id Hin) as (? & ? & ?). split_and!; [lia|done|done].
  - destruct Hi as [H1 H2 H3 H4 H5 H6]. cbn in *. destruct (H6 _ Hid) as (Hlt & Hnin & Hnone).
    destruct (submit_good _ _ _ _ _ _ _ _ _ _ _ H2 H1 Hnone Hnin E) as (sb' & Hb' & Hg & Hx). exists sb'. split; cbn; try done.
    + intros x Hin. destruct (Hx x Hin) as [-> |]; [done|by apply H4].
    + intros id n. rewrite lookup_insert_Some. intros [[<- <-]|[_ E']]; [|by apply H5]. split; [|done]. by apply wrapu_range.
    + intros id [Hin Hne%not_elem_of_singleton]%elem_of_difference. destruct (H6 id Hin) as (? & Hn & ?). split_and!; [done| |].
      * intros [-> |]%Hx; done.
      * by rewrite lookup_insert_ne by congruence.
  - destruct Hi as [H1 [[H2 H2'] H2''] H3 H4 H5 H6]. cbn in *. exists sb. split; cbn; try done. split; [|done]. 
    unfold all_fills in *. cbn. rewrite app_nil_r. by split.
  - eapply linv_shrinks in Hi; [exact Hi|]. eapply cancel_good; [apply Hi|apply Hi|exact E].
  - eapply linv_shrinks in Hi; [exact Hi|]. eapply modify_good; [apply Hi|apply Hi|exact E].
  - eapply linv_shrinks in Hi; [exact Hi|]. eapply expire_good; [|apply Hi|exact E].
    eapply good_mono; [apply Hi|done|]. by intros k rk Ek.
  - eapply linv_shrinks in Hi; [exact Hi|]. exists sb. split_and!; [apply Hi| |done]. eapply good_mono; [apply Hi|done|]. by intros k rk Ek.
  - eapply linv_shrinks in Hi; [exact Hi|]. eapply sweep_good; [apply Hi|apply Hi|exact E].
  - destruct Hi as [H1 H2 H3 H4 H5 H6]. cbn in *.
    destruct (replenish_ok _ _ _ _ _ _ _ _ _ _ _ H1 (proj1 H3) Hlen E) as (sb' & ids & Hb' & Hts & Hc' & _ & Hids & _ & Hq & Hx).
    rewrite Forall_forall in Hids.
    exists sb'. split; cbn; try done; try lia.
    + apply good_book_trades; [|done]. eapply good_touch; [exact H2|done| |by eapply sb_nonneg].
      intros id [ri Eri]. apply Hq. destruct (ac_resting _ _ _ _ (go_accounts _ _ _ _ _ H2) id ri Eri) as (_ & _ & n & En & _). by destruct (H5 id n En).
    + intros x Hin. destruct (Hx x Hin) as [[Hx' _]|Hx']; [specialize (H4 x Hx')|specialize (Hids x Hx')]; lia.
    + intros id n E'. destruct (H5 id n E'). lia.
    + intros id Hin. destruct (H6 id Hin) as (? & Hn & ?). split_and!; [lia| |done].
      intros Hin'. destruct (Hx id Hin') as [[Hx' _]|Hx']; [done|specialize (Hids id Hx'); lia].
Qed.

Definition lstart (b : B) (mm : MarketMaker) : lworld :=
  {| lw_a := mk_local_adapter; lw_b := b; lw_out := []; lw_sub := ∅; lw_issued := ∅; lw_next := 1; lw_mm := mm |}.

(** C23: In exact arithmetic, on any book that keeps the book's promises: whatever
    sequence of submissions, cancels, modifications, elapsed cancel latencies, price
    sweeps, market-maker ladders and polls the adapter goes through, the quantities
    it has reported as filled for an order never add up to more than the quantity
    sent to the book for it. *)
Theorem fills_within_submitted (b : B) mm w id : bk_shows b empty_book → rtc lstep (lstart b mm) w →
  (reported id (all_fills (lw_out w) (lw_a w)) <= u (default 0%Z (lw_sub w !! id)))%Q.
Proof.
  intros Hb Hrun. assert (∃ sb, linv w sb) as [sb Hi].
  { remember (lstart b mm) as w0 eqn:E0. assert (∃ sb, linv w0 sb) as [sb Hi].
    - subst w0. exists empty_book. split; [done| |done|by intros x Hx%elem_of_nil|done|by intros x Hx%elem_of_empty].
      split; [split|done]; [done|]. intros k. cbn -[u]. rewrite u_zero. apply Qle_refl.
    - clear E0. revert sb Hi. induction Hrun as [w|w1 w2 w3 Hs _ IH]; intros sb Hi; [by exists sb|].
      destruct (lstep_linv w1 w2 sb Hs Hi) as [sb2 Hi2]. by eapply IH. }
  apply (ac_all _ _ _ _ (go_accounts _ _ _ _ _ (li_good _ _ Hi))).
Qed.

(** Quoting replaces the ladder: after a replenish that returns, no quote of the
    previous ladder is left in the book, everything in it was there before or is one
    of the new quotes, whose ids are fresh, and no order that was in the book before
    has more left of it than before less what the reported trades took. *)
Theorem replenish_replaces book px upd mm c (b : B) sb ts mm' c' b' : bk_shows b sb → 0 <= c →
  c + Z.of_nat (length (compute_replenish sqrt px upd mm).1) < 2 ^ 64 → ids_below c sb →
  Forall (λ i, i < c) (default [] (live_quotes_ mm !! book)) →
  replenish sqrt book px upd mm c b = (Ret ts, mm', c', b') →
  ∃ sb' ids, bk_shows b' sb' ∧ live_quotes_ mm' !! book = Some ids ∧ length ids = length (compute_replenish sqrt px upd mm).1 ∧
    (∀ x, x ∈ default [] (live_quotes_ mm !! book) → x ∉ sb_ids sb') ∧
    (∀ x, x ∈ sb_ids sb' → x ∈ sb_ids sb ∨ x ∈ ids) ∧ (∀ x, x ∈ ids → c <= x < c') ∧
    (∀ id, id < c → fills_in id ts + qty_of id (sb_orders sb') <= qty_of id (sb_orders sb)).
Proof.
  intros Hb Hc Hlen Hids Hlive E.
  destruct (replenish_ok _ _ _ _ _ _ _ _ _ _ _ Hb Hc Hlen E) as (sb' & ids & Hb' & _ & Hc' & El & Hf & Hl & Hq & Hx).
  rewrite Forall_forall in Hf, Hlive. exists sb', ids. split_and!; try done.
  - intros x Hx1 Hx2. destruct (Hx x Hx2) as [[_ ?]|Hx3]; [done|]. specialize (Hf x Hx3). specialize (Hlive x Hx1). cbn in *. lia.
  - intros x Hx1. destruct (Hx x Hx1) as [[? _]|]; auto.
Qed.

End Accounting.

(** ** Concrete runs *)

Definition one_config : adapter_config :=
  {| fee_model_ := None; fill_model_ := None; impact_model_ := None; latency_model_ := false; market_aggression_ := 101 # 100;
     qty_scale_ := 100000000 # 1; walked_book_impact_ := false |}.
Definition limit_buy (id : Z) (q px : Q) : local_order :=
  {| lo_id := id; lo_symbol := "BTC"; lo_type := ot_limit; lo_side := side_buy; lo_quantity := q; lo_price := px;
     lo_tif := tif_gtc; lo_eligible := 0; lo_recv_ns := 0 |}.
Definition no_sqrt (x : @num exact_arith) : @num exact_arith := x.
Definition first_book : orderbook counted_pool := mk_orderbook {| cp_limit := 100; cp_used := 0 |}.

(** A buy of 250 at 101, then the ladder around 100. *)
Definition submitted : exc unit * local_adapter * orderbook counted_pool :=
  submit_local_order one_config (limit_buy 1 (250 # 1) (101 # 1)) (0 # 1) 0 mk_local_adapter first_book.
Definition resting_buy : lworld :=
  {| lw_a := submitted.1.2; lw_b := submitted.2; lw_out := []; lw_sub := <[1 := book_quantity one_config (250 # 1)]> ∅;
     lw_issued := ({[1]} ∪ ∅) ∖ {[1]}; lw_next := 2; lw_mm := mk_MarketMaker |}.
Definition replenished : exc (list trade) * MarketMaker * Z * orderbook counted_pool :=
  replenish no_sqrt 0 (100 # 1) true mk_MarketMaker 2 (lw_b resting_buy).
Definition ladder_trades : list trade := match replenished.1.1.1 with Ret ts => ts | Throw _ => [] end.
Definition quoted_buy : lworld :=
  {| lw_a := on_book_trades one_config ladder_trades 0 (touch_resting ladder_trades (lw_a resting_buy)); lw_b := replenished.2;
     lw_out := []; lw_sub := lw_sub resting_buy; lw_issued := lw_issued resting_buy; lw_next := replenished.1.2;
     lw_mm := replenished.1.1.2 |}.

Lemma quoted_run : rtc (lstep one_config no_sqrt) (lstart first_book mk_MarketMaker) quoted_buy.
Proof.
  eapply rtc_l; [apply l_issue; vm_compute; done|]. rewrite next_range by lia. eapply (rtc_l _ _ resting_buy).
  { apply (l_submit _ _ (limit_buy 1 (250 # 1) (101 # 1)) (0 # 1) 0 mk_local_adapter first_book [] ∅ _ _ _ submitted.1.1); [set_solver|].
    unfold submitted. by destruct (submit_local_order _ _ _ _ _ _) as [[]]. }
  assert (replenished = (Ret ladder_trades, replenished.1.1.2, replenished.1.2, replenished.2)) as E.
  { assert (match replenished.1.1.1 with Ret _ => true | _ => false end = true) as Hr by (vm_compute; reflexivity).
    unfold ladder_trades. destruct replenished as [[[[ts|] mm] c] b]; [done|discriminate Hr]. }
  apply rtc_once. apply (l_replenish one_config no_sqrt 0 (100 # 1) true 0); [exact E|vm_compute; reflexivity].
Qed.

(** A maker fill is lost: a resting buy of 250 is filled in full by the first two
    quotes of one ladder, 100 and 150, and is off the book; the adapter reports the
    first trade only, with nothing remaining, and no longer follows the order. *)
Theorem maker_fill_lost :
  rtc (lstep one_config no_sqrt) (lstart first_book mk_MarketMaker) quoted_buy ∧
  lw_sub quoted_buy !! 1 = Some 25000000000 ∧
  fills_in 1 ladder_trades = 25000000000 ∧
  order_map (lw_b quoted_buy) !! 1 = None ∧ la_resting (lw_a quoted_buy) !! 1 = None ∧
  lf_quantity <$> la_pending_fills (lw_a quoted_buy) = [100.00000000%Q] ∧
  (reported 1 (all_fills (lw_out quoted_buy) (lw_a quoted_buy)) == 100 # 1)%Q.
Proof. split; [exact quoted_run|]. split_and!; vm_compute; reflexivity. Qed.

Lemma fills_within_submitted_witness :
  (0 < qty_scale_ one_config)%Q ∧ bk_shows first_book empty_book ∧
  (reported 1 (all_fills (lw_out quoted_buy) (lw_a quoted_buy)) <= units one_config 25000000000)%Q.
Proof.
  assert (0 < qty_scale_ one_config)%Q as Hs by done. assert (bk_shows first_book empty_book) as Hb by apply new_book_refines.
  split_and!; [exact Hs|exact Hb|].
  exact (fills_within_submitted one_config Hs no_sqrt first_book mk_MarketMaker quoted_buy 1 Hb quoted_run).
Defined.

