(* ===== verification/Bridge.v ===== *)
(** * The execution bridge (src/src/execution/execution_bridge.h, fill_parser.h,
    async_support.h, order_transport.h, order_encoder.h, fill_transport.h)

    The engine thread submits and cancels orders and drains fills, results and
    metadata; a transport thread sends queued requests to the venue; the fill
    transport's worker turns the venue's messages into fills.  They share maps
    and queues, each under its own mutex.  Every critical section is a function
    of the shared state; the operations compose them, and a step relation
    interleaves the three threads at the critical sections.  The encoder, the
    parser and the venue's answers are arguments. *)

From S2P Require Import Prelude Float64 Event.

Open Scope string_scope.
Open Scope list_scope.
Open Scope Z_scope.

(** ** Messages, requests and results *)

Inductive exec_kind := k_ack | k_partial_fill | k_full_fill | k_canceled | k_rejected | k_expired | k_other.
#[export] Instance exec_kind_eq_dec : EqDecision exec_kind.
Proof. solve_decision. Defined.

Record parsed_exec := {
  pe_kind : exec_kind;
  pe_client_order_id : string;
  pe_exchange_order_id : string;
  pe_symbol : string;
  pe_side : order_side;
  pe_last_fill_qty : double;
  pe_last_fill_price : double;
  pe_cumulative_qty : double;
  pe_commission : double;
  pe_commission_asset : string;
  pe_ts : time_point;
  pe_error : string }.

Inductive snapshot_reason :=
| sr_unknown | sr_order | sr_funding_fee | sr_adjustment | sr_deposit | sr_withdraw | sr_margin_transfer
| sr_margin_type_change | sr_liquidation | sr_admin | sr_other.
Record position_row := { row_symbol : string; row_qty : double; row_margin_type : string; row_position_side : string }.
Record balance_row := { row_asset : string; row_wallet_balance : double; row_balance_change : double }.
Record parsed_position_snapshot := {
  ps_reason : snapshot_reason; ps_ts : time_point;
  ps_positions : list position_row; ps_balances : list balance_row }.

Record encoded_order := { enc_endpoint : string; enc_wire_payload : string; enc_client_order_id : string }.

(** [IOrderTransport::result] *)
Record tx_result := { tr_ok : bool; tr_exchange_order_id : string; tr_raw_response : string; tr_error : string }.

Inductive operation := op_submit | op_cancel.
#[export] Instance operation_eq_dec : EqDecision operation.
Proof. solve_decision. Defined.

Record submit_result := {
  sr_engine_id : Z; sr_symbol : string; sr_exchange_order_id : string; sr_error : string;
  sr_op : operation; sr_ok : bool }.
Record synth_result := { sy_fill : fill_event; sy_opener_order_id : Z; sy_strategy_name : string }.
Record synth_meta := { sm_engine_order_id : Z; sm_opener_order_id : Z; sm_strategy_name : string }.
Definition unknown_fill_handler : Type := parsed_exec → Z → option synth_result.

Inductive lifecycle := lc_closed | lc_connecting | lc_open | lc_degraded | lc_error.
Record status_event := { st_state : lifecycle; st_note : string }.

Record tracked_order := {
  t_engine_id : Z; t_client_id : string; t_exchange_id : string; t_symbol : string;
  t_side : order_side; t_total_qty : double; t_cumulative_qty : double }.
Record submit_request := {
  q_engine_id : Z; q_client_id : string; q_symbol : string; q_endpoint : string; q_wire_payload : string;
  q_is_cancel : bool; q_cancel_exchange_id : string }.

(** ** The shared state *)

Record bridge := {
  by_engine_id_ : gmap Z tracked_order;
  by_client_id_ : gmap string Z;
  pending_fills_ : list fill_event;
  next_fill_id_ : Z;
  pending_status_ : list status_event;
  last_error_ : string;
  unknown_fill_handler_ : option unknown_fill_handler;
  pending_synth_meta_ : list synth_meta;
  submit_queue_ : list submit_request;
  pending_submit_results_ : list submit_result;
  transport_running_ : bool;
  (** Snapshots given to the position-snapshot handler. *)
  snapshots_out : list parsed_position_snapshot }.

Definition mk_bridge : bridge :=
  {| by_engine_id_ := ∅; by_client_id_ := ∅; pending_fills_ := []; next_fill_id_ := 1; pending_status_ := [];
     last_error_ := ""; unknown_fill_handler_ := None; pending_synth_meta_ := []; submit_queue_ := [];
     pending_submit_results_ := []; transport_running_ := false; snapshots_out := [] |}.

Definition set_maps (es : gmap Z tracked_order) (cs : gmap string Z) (b : bridge) : bridge :=
  {| by_engine_id_ := es; by_client_id_ := cs; pending_fills_ := pending_fills_ b;
     next_fill_id_ := next_fill_id_ b; pending_status_ := pending_status_ b; last_error_ := last_error_ b;
     unknown_fill_handler_ := unknown_fill_handler_ b; pending_synth_meta_ := pending_synth_meta_ b;
     submit_queue_ := submit_queue_ b; pending_submit_results_ := pending_submit_results_ b;
     transport_running_ := transport_running_ b; snapshots_out := snapshots_out b |}.
Definition set_fills (fs : list fill_event) (next : Z) (b : bridge) : bridge :=
  {| by_engine_id_ := by_engine_id_ b; by_client_id_ := by_client_id_ b; pending_fills_ := fs;
     next_fill_id_ := next; pending_status_ := pending_status_ b; last_error_ := last_error_ b;
     unknown_fill_handler_ := unknown_fill_handler_ b; pending_synth_meta_ := pending_synth_meta_ b;
     submit_queue_ := submit_queue_ b; pending_submit_results_ := pending_submit_results_ b;
     transport_running_ := transport_running_ b; snapshots_out := snapshots_out b |}.
Definition set_status (l : list status_event) (b : bridge) : bridge :=
  {| by_engine_id_ := by_engine_id_ b; by_client_id_ := by_client_id_ b; pending_fills_ := pending_fills_ b;
     next_fill_id_ := next_fill_id_ b; pending_status_ := l; last_error_ := last_error_ b;
     unknown_fill_handler_ := unknown_fill_handler_ b; pending_synth_meta_ := pending_synth_meta_ b;
     submit_queue_ := submit_queue_ b; pending_submit_results_ := pending_submit_results_ b;
     transport_running_ := transport_running_ b; snapshots_out := snapshots_out b |}.
Definition set_error (e : string) (b : bridge) : bridge :=
  {| by_engine_id_ := by_engine_id_ b; by_client_id_ := by_client_id_ b; pending_fills_ := pending_fills_ b;
     next_fill_id_ := next_fill_id_ b; pending_status_ := pending_status_ b; last_error_ := e;
     unknown_fill_handler_ := unknown_fill_handler_ b; pending_synth_meta_ := pending_synth_meta_ b;
     submit_queue_ := submit_queue_ b; pending_submit_results_ := pending_submit_results_ b;
     transport_running_ := transport_running_ b; snapshots_out := snapshots_out b |}.
Definition set_handler (h : option unknown_fill_handler) (b : bridge) : bridge :=
  {| by_engine_id_ := by_engine_id_ b; by_client_id_ := by_client_id_ b; pending_fills_ := pending_fills_ b;
     next_fill_id_ := next_fill_id_ b; pending_status_ := pending_status_ b; last_error_ := last_error_ b;
     unknown_fill_handler_ := h; pending_synth_meta_ := pending_synth_meta_ b;
     submit_queue_ := submit_queue_ b; pending_submit_results_ := pending_submit_results_ b;
     transport_running_ := transport_running_ b; snapshots_out := snapshots_out b |}.
Definition set_meta (l : list synth_meta) (b : bridge) : bridge :=
  {| by_engine_id_ := by_engine_id_ b; by_client_id_ := by_client_id_ b; pending_fills_ := pending_fills_ b;
     next_fill_id_ := next_fill_id_ b; pending_status_ := pending_status_ b; last_error_ := last_error_ b;
     unknown_fill_handler_ := unknown_fill_handler_ b; pending_synth_meta_ := l;
     submit_queue_ := submit_queue_ b; pending_submit_results_ := pending_submit_results_ b;
     transport_running_ := transport_running_ b; snapshots_out := snapshots_out b |}.
Definition set_queue (q : list submit_request) (b : bridge) : bridge :=
  {| by_engine_id_ := by_engine_id_ b; by_client_id_ := by_client_id_ b; pending_fills_ := pending_fills_ b;
     next_fill_id_ := next_fill_id_ b; pending_status_ := pending_status_ b; last_error_ := last_error_ b;
     unknown_fill_handler_ := unknown_fill_handler_ b; pending_synth_meta_ := pending_synth_meta_ b;
     submit_queue_ := q; pending_submit_results_ := pending_submit_results_ b;
     transport_running_ := transport_running_ b; snapshots_out := snapshots_out b |}.
Definition set_results (l : list submit_result) (b : bridge) : bridge :=
  {| by_engine_id_ := by_engine_id_ b; by_client_id_ := by_client_id_ b; pending_fills_ := pending_fills_ b;
     next_fill_id_ := next_fill_id_ b; pending_status_ := pending_status_ b; last_error_ := last_error_ b;
     unknown_fill_handler_ := unknown_fill_handler_ b; pending_synth_meta_ := pending_synth_meta_ b;
     submit_queue_ := submit_queue_ b; pending_submit_results_ := l;
     transport_running_ := transport_running_ b; snapshots_out := snapshots_out b |}.
Definition set_running (r : bool) (b : bridge) : bridge :=
  {| by_engine_id_ := by_engine_id_ b; by_client_id_ := by_client_id_ b; pending_fills_ := pending_fills_ b;
     next_fill_id_ := next_fill_id_ b; pending_status_ := pending_status_ b; last_error_ := last_error_ b;
     unknown_fill_handler_ := unknown_fill_handler_ b; pending_synth_meta_ := pending_synth_meta_ b;
     submit_queue_ := submit_queue_ b; pending_submit_results_ := pending_submit_results_ b;
     transport_running_ := r; snapshots_out := snapshots_out b |}.
Definition deliver_snapshot (s : parsed_position_snapshot) (b : bridge) : bridge :=
  {| by_engine_id_ := by_engine_id_ b; by_client_id_ := by_client_id_ b; pending_fills_ := pending_fills_ b;
     next_fill_id_ := next_fill_id_ b; pending_status_ := pending_status_ b; last_error_ := last_error_ b;
     unknown_fill_handler_ := unknown_fill_handler_ b; pending_synth_meta_ := pending_synth_meta_ b;
     submit_queue_ := submit_queue_ b; pending_submit_results_ := pending_submit_results_ b;
     transport_running_ := transport_running_ b; snapshots_out := snapshots_out b ++ [s] |}.

Section Bridge.
(** The encoder; [configured]: an encoder and an order transport are wired; the
    parser's two entries, and whether a position-snapshot handler is set. *)
Context (encode_submit : order_event → string → encoded_order)
        (encode_cancel : string → string → string → encoded_order)
        (configured : bool)
        (parse : string → option parsed_exec)
        (parse_position_snapshot : string → option parsed_position_snapshot)
        (snapshot_handler : bool).

(** ** The engine's side *)

Definition make_client_id (engine_order_id : Z) : string := "tt-" +:+ pretty engine_order_id.

(** The id the configured function minted for this order, or the fallback. *)
Definition client_id_of (minted : option string) (o : order_event) : string :=
  default (make_client_id (oe_order_id o)) minted.

Definition track (o : order_event) (client_id : string) : tracked_order :=
  {| t_engine_id := oe_order_id o; t_client_id := client_id; t_exchange_id := ""; t_symbol := oe_symbol o;
     t_side := oe_side o; t_total_qty := oe_quantity o; t_cumulative_qty := d_zero |}.

(** Under [map_mu_]. *)
Definition register_order (t : tracked_order) (b : bridge) : bridge :=
  set_maps (<[t_engine_id t := t]> (by_engine_id_ b)) (<[t_client_id t := t_engine_id t]> (by_client_id_ b)) b.

Definition submit_request_of (o : order_event) (client_id : string) : submit_request :=
  let enc := encode_submit o client_id in
  {| q_engine_id := oe_order_id o; q_client_id := client_id; q_symbol := oe_symbol o;
     q_endpoint := enc_endpoint enc; q_wire_payload := enc_wire_payload enc; q_is_cancel := false;
     q_cancel_exchange_id := "" |}.

(** Under [submit_queue_mu_]. *)
Definition enqueue (q : submit_request) (b : bridge) : bridge := set_queue (submit_queue_ b ++ [q]) b.

Definition submit_order (o : order_event) (minted : option string) (b : bridge) : bridge :=
  let b := set_error "" b in
  if negb configured then set_error "ExecutionBridge: not configured" b else
  let client_id := client_id_of minted o in
  enqueue (submit_request_of o client_id) (register_order (track o client_id) b).

Definition cancel_request_of (t : tracked_order) (engine_order_id : Z) : submit_request :=
  {| q_engine_id := engine_order_id; q_client_id := t_client_id t; q_symbol := t_symbol t; q_endpoint := "";
     q_wire_payload := ""; q_is_cancel := true; q_cancel_exchange_id := t_exchange_id t |}.

Definition cancel_order (engine_order_id : Z) (b : bridge) : bool * bridge :=
  match by_engine_id_ b !! engine_order_id with
  | None => (false, b)
  | Some t => if negb configured then (false, b) else (true, enqueue (cancel_request_of t engine_order_id) b)
  end.

(** The drains: what they append to the caller's vector; they return whether it is
    non-empty. *)
Definition poll_fills (b : bridge) : list fill_event * bridge :=
  (pending_fills_ b, set_fills [] (next_fill_id_ b) b).
Definition poll_status (b : bridge) : list status_event * bridge := (pending_status_ b, set_status [] b).
Definition poll_submit_results (b : bridge) : list submit_result * bridge :=
  (pending_submit_results_ b, set_results [] b).
Definition poll_synth_meta (b : bridge) : list synth_meta * bridge := (pending_synth_meta_ b, set_meta [] b).

Definition set_unknown_fill_handler (h : unknown_fill_handler) (b : bridge) : bridge := set_handler (Some h) b.
Definition clear_unknown_fill_handler (b : bridge) : bridge := set_handler None b.

(** [open] with the answers of the two transports, and [close]. *)
Definition open (has_order_tx has_fill_tx order_open fill_open start_thread : bool) (b : bridge) : bool * bridge :=
  if negb has_order_tx || negb has_fill_tx then (false, set_error "ExecutionBridge: missing transport" b) else
  if negb order_open then (false, set_error "ExecutionBridge: order transport open failed" b) else
  if negb fill_open then (false, set_error "ExecutionBridge: fill transport open failed" b) else
  (true, if start_thread then set_running true b else b).
Definition close (b : bridge) : bridge := set_running false (clear_unknown_fill_handler b).

(** ** The worker's side *)

Definition is_fill (k : exec_kind) : bool := bool_decide (k = k_partial_fill) || bool_decide (k = k_full_fill).
Definition is_terminal (k : exec_kind) : bool :=
  bool_decide (k = k_full_fill) || bool_decide (k = k_canceled) || bool_decide (k = k_rejected) ||
  bool_decide (k = k_expired).

Definition set_exchange (id : string) (t : tracked_order) : tracked_order :=
  {| t_engine_id := t_engine_id t; t_client_id := t_client_id t; t_exchange_id := id; t_symbol := t_symbol t;
     t_side := t_side t; t_total_qty := t_total_qty t; t_cumulative_qty := t_cumulative_qty t |}.
Definition add_filled (q : double) (t : tracked_order) : tracked_order :=
  {| t_engine_id := t_engine_id t; t_client_id := t_client_id t; t_exchange_id := t_exchange_id t;
     t_symbol := t_symbol t; t_side := t_side t; t_total_qty := t_total_qty t;
     t_cumulative_qty := (t_cumulative_qty t + q)%D |}.

(** The tracked order after a message. *)
Definition update_tracked (msg : parsed_exec) (t : tracked_order) : tracked_order :=
  let t := if negb (bool_decide (pe_exchange_order_id msg = "")) && bool_decide (t_exchange_id t = "")
           then set_exchange (pe_exchange_order_id msg) t else t in
  if is_fill (pe_kind msg) then add_filled (pe_last_fill_qty msg) t else t.

(** The second critical section of [handle_message]: the order is looked up again,
    updated, and forgotten when the message ends it. *)
Definition apply_message (msg : parsed_exec) (b : bridge) : option (Z * double * double) * bridge :=
  match by_client_id_ b !! pe_client_order_id msg with
  | None => (None, b)
  | Some id =>
      match by_engine_id_ b !! id with
      | None => (None, b)
      | Some t0 =>
          let t := update_tracked msg t0 in
          (Some (id, t_total_qty t, t_cumulative_qty t),
           if is_terminal (pe_kind msg)
           then set_maps (delete id (by_engine_id_ b)) (delete (pe_client_order_id msg) (by_client_id_ b)) b
           else set_maps (<[id := t]> (by_engine_id_ b)) (by_client_id_ b) b)
      end
  end.

Definition own_fill (msg : parsed_exec) (id : Z) (total cumulative : double) (now : time_point) (fill_id : Z)
    : fill_event :=
  let ts := if pe_ts msg =? 0 then now else pe_ts msg in
  let remaining :=
    if bool_decide (pe_kind msg = k_partial_fill) && (total >? d_zero)%D
    then d_max d_zero (total - cumulative)%D else d_zero in
  set_source src_exchange
    (mk_fill_event ts (pe_symbol msg) id (pe_side msg) (pe_last_fill_qty msg) (pe_last_fill_price msg)
       (pe_commission msg) remaining fill_id "" 0).

(** The last critical section: a fill id is taken and the fill queued. *)
Definition emit_fill (msg : parsed_exec) (id : Z) (total cumulative : double) (now : time_point) (b : bridge)
    : bridge :=
  set_fills (pending_fills_ b ++ [own_fill msg id total cumulative now (next_fill_id_ b)])
    (u64 (next_fill_id_ b + 1)) b.

(** A message for an order the bridge does not track. *)
Definition take_fill_id (b : bridge) : Z * bridge :=
  (next_fill_id_ b, set_fills (pending_fills_ b) (u64 (next_fill_id_ b + 1)) b).
Definition meta_of (sr : synth_result) : synth_meta :=
  {| sm_engine_order_id := fe_order_id (sy_fill sr); sm_opener_order_id := sy_opener_order_id sr;
     sm_strategy_name := sy_strategy_name sr |}.
Definition push_meta (sr : synth_result) (b : bridge) : bridge :=
  set_meta (pending_synth_meta_ b ++ [meta_of sr]) b.
Definition push_fill (f : fill_event) (b : bridge) : bridge :=
  set_fills (pending_fills_ b ++ [f]) (next_fill_id_ b) b.

Definition dispatch_unknown_fill (msg : parsed_exec) (b : bridge) : bridge :=
  match unknown_fill_handler_ b with
  | None => b
  | Some h =>
      if bool_decide (pe_exchange_order_id msg = "") then b else
      let '(fill_id, b1) := take_fill_id b in
      match h msg fill_id with
      | None => b1
      | Some sr => push_fill (sy_fill sr) (push_meta sr b1)
      end
  end.

Definition handle_message (raw : string) (now : time_point) (b : bridge) : bridge :=
  match parse raw with
  | None =>
      if snapshot_handler then
        match parse_position_snapshot raw with Some s => deliver_snapshot s b | None => b end
      else b
  | Some msg =>
      match by_client_id_ b !! pe_client_order_id msg with
      | None => dispatch_unknown_fill msg b
      | Some _ =>
          match apply_message msg b with
          | (None, b1) => b1
          | (Some (id, total, cum), b1) =>
              if is_fill (pe_kind msg) then emit_fill msg id total cum now b1 else b1
          end
      end
  end.

Definition handle_status (st : lifecycle) (note : string) (b : bridge) : bridge :=
  set_status (pending_status_ b ++ [{| st_state := st; st_note := note |}]) b.

(** ** The transport thread's side *)

Definition pick (new old : string) : string := if bool_decide (new = "") then old else new.

(** The symbol, exchange id and client id a cancel is encoded with: the freshest
    the maps have. *)
Definition cancel_fields (q : submit_request) (b : bridge) : string * string * string :=
  match by_engine_id_ b !! q_engine_id q with
  | Some t => (pick (t_symbol t) (q_symbol q), pick (t_exchange_id t) (q_cancel_exchange_id q),
               pick (t_client_id t) (q_client_id q))
  | None => (q_symbol q, q_cancel_exchange_id q, q_client_id q)
  end.

Definition forget (id : Z) (client_id : string) (b : bridge) : bridge :=
  set_maps (delete id (by_engine_id_ b))
    (if bool_decide (client_id = "") then by_client_id_ b else delete client_id (by_client_id_ b)) b.

Definition learn_exchange (id : Z) (exchange_id : string) (b : bridge) : bridge :=
  match by_engine_id_ b !! id with
  | Some t => if bool_decide (t_exchange_id t = "")
              then set_maps (<[id := set_exchange exchange_id t]> (by_engine_id_ b)) (by_client_id_ b) b
              else b
  | None => b
  end.

Definition result_of (op : operation) (id : Z) (symbol : string) (res : tx_result) : submit_result :=
  {| sr_engine_id := id; sr_symbol := symbol; sr_exchange_order_id := tr_exchange_order_id res;
     sr_error := if tr_ok res then "" else tr_error res; sr_op := op; sr_ok := tr_ok res |}.

(** What the venue's answer does to the maps. *)
Definition settle_cancel (q : submit_request) (client_id : string) (res : tx_result) (b : bridge) : bridge :=
  if tr_ok res then forget (q_engine_id q) client_id b else set_error ("cancel failed: " +:+ tr_error res) b.
Definition settle_submit (q : submit_request) (res : tx_result) (b : bridge) : bridge :=
  if tr_ok res then
    (if bool_decide (tr_exchange_order_id res = "") then b
     else learn_exchange (q_engine_id q) (tr_exchange_order_id res) b)
  else forget (q_engine_id q) (q_client_id q) (set_error ("submit failed: " +:+ tr_error res) b).

Definition push_result (sr : submit_result) (b : bridge) : bridge :=
  set_results (pending_submit_results_ b ++ [sr]) b.

(** [process_one_submit] with the venue's answer. *)
Definition process_one_submit (q : submit_request) (res : tx_result) (b : bridge) : bridge :=
  if negb configured then b else
  if q_is_cancel q then
    let '(symbol, exchange_id, client_id) := cancel_fields q b in
    push_result (result_of op_cancel (q_engine_id q) symbol res) (settle_cancel q client_id res b)
  else
    push_result (result_of op_submit (q_engine_id q) (q_symbol q) res) (settle_submit q res b).

Definition exception_result (q : submit_request) (what : string) : submit_result :=
  {| sr_engine_id := q_engine_id q; sr_symbol := q_symbol q; sr_exchange_order_id := "";
     sr_error := "exception: " +:+ what; sr_op := if q_is_cancel q then op_cancel else op_submit; sr_ok := false |}.

(** One round of [transport_loop]: the answer of the venue, or the exception the
    call threw, for the request at the front. *)
Definition transport_round (answer : submit_request → exc tx_result) (b : bridge) : bridge :=
  match submit_queue_ b with
  | [] => b
  | q :: rest =>
      let b1 := set_queue rest b in
      match answer q with
      | Ret res => process_one_submit q res b1
      | Throw what => push_result (exception_result q what) b1
      end
  end.

(** [drain_outbound_for_test] swallows exceptions. *)
Fixpoint drain_outbound (fuel : nat) (answer : submit_request → exc tx_result) (b : bridge) : bridge :=
  match fuel with
  | O => b
  | S fuel =>
      match submit_queue_ b with
      | [] => b
      | q :: rest =>
          let b1 := set_queue rest b in
          drain_outbound fuel answer (match answer q with Ret res => process_one_submit q res b1 | Throw _ => b1 end)
      end
  end.
Definition drain_outbound_for_test (answer : submit_request → exc tx_result) (b : bridge) : bridge :=
  drain_outbound (length (submit_queue_ b)) answer b.

End Bridge.
