(* ===== verification/BridgeSteps.v ===== *)
(** * The threads of the execution bridge

    The engine thread, the transport thread and the fill worker, interleaved at
    the critical sections of [Bridge].  The engine registers an order before it
    enqueues the request, and drains metadata before fills; the transport thread
    takes requests one at a time; the venue's answers and messages are arbitrary.
    Beside the shared state the world keeps histories: the ids submitted, the
    requests enqueued, the results and fills produced and drained. *)

From S2P Require Import Prelude Float64 Event Bridge.

Open Scope string_scope.
Open Scope list_scope.
Open Scope Z_scope.

(** Where each thread stands between two critical sections. *)
Inductive eng_pc := E_idle | E_submit (o : order_event) (minted : option string) | E_enqueue (q : submit_request) | E_tick.
Inductive tx_pc :=
| X_idle
| X_got (q : submit_request)
| X_cancel (q : submit_request) (symbol exchange_id client_id : string)
| X_settle (q : submit_request) (symbol client_id : string) (res : tx_result)
| X_result (q : submit_request) (sr : submit_result).
Inductive wk_pc :=
| K_idle
| K_known (msg : parsed_exec)
| K_emit (msg : parsed_exec) (id : Z) (total cumulative : double)
| K_unknown (msg : parsed_exec)
| K_handler (msg : parsed_exec) (h : unknown_fill_handler)
| K_meta (sr : synth_result)
| K_fill (f : fill_event).

Record bworld := {
  w_b : bridge;
  w_eng : eng_pc;
  w_tx : tx_pc;
  w_wk : wk_pc;
  w_ids : gmap Z string;
  w_enq : list submit_request;
  w_done : list submit_result;
  w_results_out : list submit_result;
  w_own : list fill_event;
  w_synth : list fill_event;
  w_fills_out : list fill_event;
  w_meta_out : list synth_meta }.

Definition bworld_init : bworld :=
  {| w_b := mk_bridge; w_eng := E_idle; w_tx := X_idle; w_wk := K_idle; w_ids := ∅; w_enq := []; w_done := [];
     w_results_out := []; w_own := []; w_synth := []; w_fills_out := []; w_meta_out := [] |}.

(** A step of the engine thread, of the transport thread, of the worker. *)
Definition eng (w : bworld) (pc : eng_pc) (b : bridge) : bworld :=
  {| w_b := b; w_eng := pc; w_tx := w_tx w; w_wk := w_wk w; w_ids := w_ids w; w_enq := w_enq w;
     w_done := w_done w; w_results_out := w_results_out w; w_own := w_own w; w_synth := w_synth w;
     w_fills_out := w_fills_out w; w_meta_out := w_meta_out w |}.
Definition tx (w : bworld) (pc : tx_pc) (b : bridge) : bworld :=
  {| w_b := b; w_eng := w_eng w; w_tx := pc; w_wk := w_wk w; w_ids := w_ids w; w_enq := w_enq w;
     w_done := w_done w; w_results_out := w_results_out w; w_own := w_own w; w_synth := w_synth w;
     w_fills_out := w_fills_out w; w_meta_out := w_meta_out w |}.
Definition wk (w : bworld) (pc : wk_pc) (b : bridge) : bworld :=
  {| w_b := b; w_eng := w_eng w; w_tx := w_tx w; w_wk := pc; w_ids := w_ids w; w_enq := w_enq w;
     w_done := w_done w; w_results_out := w_results_out w; w_own := w_own w; w_synth := w_synth w;
     w_fills_out := w_fills_out w; w_meta_out := w_meta_out w |}.

(** The histories. *)
Definition submitted (id : Z) (c : string) (w : bworld) : bworld :=
  {| w_b := w_b w; w_eng := w_eng w; w_tx := w_tx w; w_wk := w_wk w; w_ids := <[id := c]> (w_ids w);
     w_enq := w_enq w; w_done := w_done w; w_results_out := w_results_out w; w_own := w_own w;
     w_synth := w_synth w; w_fills_out := w_fills_out w; w_meta_out := w_meta_out w |}.
Definition enqueued (q : submit_request) (w : bworld) : bworld :=
  {| w_b := w_b w; w_eng := w_eng w; w_tx := w_tx w; w_wk := w_wk w; w_ids := w_ids w;
     w_enq := w_enq w ++ [q]; w_done := w_done w; w_results_out := w_results_out w; w_own := w_own w;
     w_synth := w_synth w; w_fills_out := w_fills_out w; w_meta_out := w_meta_out w |}.
Definition answered (sr : submit_result) (w : bworld) : bworld :=
  {| w_b := w_b w; w_eng := w_eng w; w_tx := w_tx w; w_wk := w_wk w; w_ids := w_ids w;
     w_enq := w_enq w; w_done := w_done w ++ [sr]; w_results_out := w_results_out w; w_own := w_own w;
     w_synth := w_synth w; w_fills_out := w_fills_out w; w_meta_out := w_meta_out w |}.
Definition drained_results (l : list submit_result) (w : bworld) : bworld :=
  {| w_b := w_b w; w_eng := w_eng w; w_tx := w_tx w; w_wk := w_wk w; w_ids := w_ids w;
     w_enq := w_enq w; w_done := w_done w; w_results_out := w_results_out w ++ l; w_own := w_own w;
     w_synth := w_synth w; w_fills_out := w_fills_out w; w_meta_out := w_meta_out w |}.
Definition emitted (own synth : list fill_event) (w : bworld) : bworld :=
  {| w_b := w_b w; w_eng := w_eng w; w_tx := w_tx w; w_wk := w_wk w; w_ids := w_ids w;
     w_enq := w_enq w; w_done := w_done w; w_results_out := w_results_out w; w_own := w_own w ++ own;
     w_synth := w_synth w ++ synth; w_fills_out := w_fills_out w; w_meta_out := w_meta_out w |}.
Definition drained (fs : list fill_event) (ms : list synth_meta) (w : bworld) : bworld :=
  {| w_b := w_b w; w_eng := w_eng w; w_tx := w_tx w; w_wk := w_wk w; w_ids := w_ids w;
     w_enq := w_enq w; w_done := w_done w; w_results_out := w_results_out w; w_own := w_own w;
     w_synth := w_synth w; w_fills_out := w_fills_out w ++ fs; w_meta_out := w_meta_out w ++ ms |}.

Section Steps.
Context (encode_submit : order_event → string → encoded_order)
        (parse : string → option parsed_exec)
        (parse_position_snapshot : string → option parsed_position_snapshot).

Inductive bstep : bworld → bworld → Prop :=
(* The engine: a submission clears the error, registers the order and enqueues
   the request; order ids are never reused, client ids are unique and not empty. *)
| e_submit w o minted :
    w_eng w = E_idle → bstep w (eng w (E_submit o minted) (set_error "" (w_b w)))
| e_register w o minted :
    w_eng w = E_submit o minted →
    w_ids w !! oe_order_id o = None → client_id_of minted o ≠ "" →
    (∀ id, w_ids w !! id ≠ Some (client_id_of minted o)) →
    bstep w (submitted (oe_order_id o) (client_id_of minted o)
      (eng w (E_enqueue (submit_request_of encode_submit o (client_id_of minted o)))
        (register_order (track o (client_id_of minted o)) (w_b w))))
| e_enqueue w q :
    w_eng w = E_enqueue q → bstep w (enqueued q (eng w E_idle (enqueue q (w_b w))))
| e_cancel w id t :
    w_eng w = E_idle → by_engine_id_ (w_b w) !! id = Some t →
    bstep w (eng w (E_enqueue (cancel_request_of t id)) (w_b w))
| e_results w :
    w_eng w = E_idle →
    bstep w (drained_results (poll_submit_results (w_b w)).1 (eng w E_idle (poll_submit_results (w_b w)).2))
| e_meta w :
    w_eng w = E_idle →
    bstep w (drained [] (poll_synth_meta (w_b w)).1 (eng w E_tick (poll_synth_meta (w_b w)).2))
| e_fills w :
    w_eng w = E_tick →
    bstep w (drained (poll_fills (w_b w)).1 [] (eng w E_idle (poll_fills (w_b w)).2))
| e_status w :
    w_eng w = E_idle → bstep w (eng w E_idle (poll_status (w_b w)).2)
| e_handler w h :
    w_eng w = E_idle → bstep w (eng w E_idle (set_handler h (w_b w)))
| e_running w r :
    w_eng w = E_idle → bstep w (eng w E_idle (set_running r (w_b w)))
(* The transport thread. *)
| x_take w q rest :
    w_tx w = X_idle → transport_running_ (w_b w) = true → submit_queue_ (w_b w) = q :: rest →
    bstep w (tx w (X_got q) (set_queue rest (w_b w)))
| x_submit w q res :
    w_tx w = X_got q → q_is_cancel q = false →
    bstep w (tx w (X_settle q (q_symbol q) (q_client_id q) res) (w_b w))
| x_lookup w q symbol exchange_id client_id :
    w_tx w = X_got q → q_is_cancel q = true →
    cancel_fields q (w_b w) = (symbol, exchange_id, client_id) →
    bstep w (tx w (X_cancel q symbol exchange_id client_id) (w_b w))
| x_cancel w q symbol exchange_id client_id res :
    w_tx w = X_cancel q symbol exchange_id client_id →
    bstep w (tx w (X_settle q symbol client_id res) (w_b w))
| x_throw w q what :
    w_tx w = X_got q ∨ (∃ symbol exchange_id client_id, w_tx w = X_cancel q symbol exchange_id client_id) →
    bstep w (tx w (X_result q (exception_result q what)) (w_b w))
| x_settle w q symbol client_id res :
    w_tx w = X_settle q symbol client_id res →
    bstep w
      (if q_is_cancel q
       then tx w (X_result q (result_of op_cancel (q_engine_id q) symbol res)) (settle_cancel q client_id res (w_b w))
       else tx w (X_result q (result_of op_submit (q_engine_id q) symbol res)) (settle_submit q res (w_b w)))
| x_result w q sr :
    w_tx w = X_result q sr → bstep w (answered sr (tx w X_idle (push_result sr (w_b w))))
(* The worker. *)
| k_message w raw msg :
    w_wk w = K_idle → parse raw = Some msg →
    bstep w (wk w (match by_client_id_ (w_b w) !! pe_client_order_id msg with
                   | None => K_unknown msg | Some _ => K_known msg end) (w_b w))
| k_snapshot w raw s :
    w_wk w = K_idle → parse raw = None → parse_position_snapshot raw = Some s →
    bstep w (wk w K_idle (deliver_snapshot s (w_b w)))
| k_status w st note :
    w_wk w = K_idle → bstep w (wk w K_idle (handle_status st note (w_b w)))
| k_apply w msg :
    w_wk w = K_known msg →
    bstep w (wk w (match (apply_message msg (w_b w)).1 with
                   | Some (id, total, cum) => if is_fill (pe_kind msg) then K_emit msg id total cum else K_idle
                   | None => K_idle end) (apply_message msg (w_b w)).2)
| k_emit w msg id total cum now :
    w_wk w = K_emit msg id total cum → next_fill_id_ (w_b w) + 1 < 2 ^ 64 →
    bstep w (emitted [own_fill msg id total cum now (next_fill_id_ (w_b w))] []
      (wk w K_idle (emit_fill msg id total cum now (w_b w))))
| k_unknown w msg :
    w_wk w = K_unknown msg →
    bstep w (wk w (match unknown_fill_handler_ (w_b w) with
                   | Some h => if bool_decide (pe_exchange_order_id msg = "") then K_idle else K_handler msg h
                   | None => K_idle end) (w_b w))
| k_synth w msg h :
    w_wk w = K_handler msg h → next_fill_id_ (w_b w) + 1 < 2 ^ 64 →
    bstep w (wk w (match h msg (next_fill_id_ (w_b w)) with Some sr => K_meta sr | None => K_idle end)
      (take_fill_id (w_b w)).2)
| k_meta w sr :
    w_wk w = K_meta sr → bstep w (wk w (K_fill (sy_fill sr)) (push_meta sr (w_b w)))
| k_fill w f :
    w_wk w = K_fill f → bstep w (emitted [] [f] (wk w K_idle (push_fill f (w_b w)))).

End Steps.
