(* ===== verification/BridgeTheorems.v ===== *)
(** * What the execution bridge guarantees

    Invariants of every interleaving of the three threads: the two maps stay
    inverse to each other, every request is answered once and in order, every
    fill is attributed to a submitted order and delivered once; and a schedule in
    which a synthesised fill reaches the engine before its metadata. *)

From S2P Require Import Prelude Float64 Event Bridge BridgeSteps.

Open Scope string_scope.
Open Scope list_scope.
Open Scope Z_scope.

(** ** Tracking *)

(** The maps of tracked orders are inverse to each other and agree with the ids
    submitted. *)
Record maps_ok (ids : gmap Z string) (b : bridge) : Prop := {
  mo_client : ∀ c e, by_client_id_ b !! c = Some e → ∃ t, by_engine_id_ b !! e = Some t ∧ t_client_id t = c;
  mo_engine : ∀ e t, by_engine_id_ b !! e = Some t →
    by_client_id_ b !! t_client_id t = Some e ∧ ids !! e = Some (t_client_id t) }.

Definition ids_ok (ids : gmap Z string) : Prop :=
  (∀ e c, ids !! e = Some c → c ≠ "") ∧ (∀ e1 e2 c, ids !! e1 = Some c → ids !! e2 = Some c → e1 = e2).

(** A request carries the ids of a submission. *)
Definition req_ok (ids : gmap Z string) (q : submit_request) : Prop := ids !! q_engine_id q = Some (q_client_id q).

Definition eng_ok (ids : gmap Z string) (pc : eng_pc) : Prop :=
  match pc with E_enqueue q => req_ok ids q | _ => True end.
Definition tx_ok (ids : gmap Z string) (pc : tx_pc) : Prop :=
  match pc with
  | X_idle => True
  | X_got q => req_ok ids q
  | X_cancel q _ _ c => req_ok ids q ∧ c = q_client_id q
  | X_settle q _ c _ => req_ok ids q ∧ c = q_client_id q
  | X_result q _ => req_ok ids q
  end.
Definition wk_ok (ids : gmap Z string) (pc : wk_pc) : Prop :=
  match pc with K_emit _ id _ _ => is_Some (ids !! id) | _ => True end.

Record tracking (w : bworld) : Prop := {
  tk_ids : ids_ok (w_ids w);
  tk_maps : maps_ok (w_ids w) (w_b w);
  tk_queue : Forall (req_ok (w_ids w)) (submit_queue_ (w_b w));
  tk_eng : eng_ok (w_ids w) (w_eng w);
  tk_tx : tx_ok (w_ids w) (w_tx w);
  tk_wk : wk_ok (w_ids w) (w_wk w) }.

Lemma maps_register ids b o c :
  maps_ok ids b → ids !! oe_order_id o = None → (∀ id, ids !! id ≠ Some c) →
  maps_ok (<[oe_order_id o := c]> ids) (register_order (track o c) b).
Proof.
  intros [Hc He] Hid Hfresh. split; cbn.
  - intros c' e. rewrite lookup_insert_Some. intros [[E1 E2]|[Hne Hl]]; [rewrite <- E1, <- E2; clear E1 E2|].
    + rewrite lookup_insert_eq. eexists. by split.
    + destruct (Hc _ _ Hl) as (t & Ht & <-). destruct (He _ _ Ht) as [_ Hi]. exists t.
      rewrite lookup_insert_ne; [done|]. intros E. congruence.
  - intros e t. rewrite lookup_insert_Some. intros [[E1 E2]|[Hne Hl]]; [rewrite <- E1, <- E2; clear E1 E2|].
    + cbn. by rewrite !lookup_insert_eq.
    + destruct (He _ _ Hl) as [H1 H2]. rewrite !lookup_insert_ne; [done|done|]. intros E. apply (Hfresh e). by rewrite E.
Qed.

(** Dropping both entries of an order. *)
Lemma maps_drop ids b e c :
  ids_ok ids → maps_ok ids b → ids !! e = Some c →
  maps_ok ids (set_maps (delete e (by_engine_id_ b)) (delete c (by_client_id_ b)) b).
Proof.
  intros [_ Hinj] [Hc He] Hid. split; cbn.
  - intros c' e'. rewrite lookup_delete_Some. intros [Hne Hl]. destruct (Hc _ _ Hl) as (t & Ht & Et).
    exists t. rewrite lookup_delete_ne; [done|]. intros E. destruct (He _ _ Ht) as [_ Hi]. congruence.
  - intros e' t. rewrite lookup_delete_Some. intros [Hne Hl]. destruct (He _ _ Hl) as [H1 H2].
    rewrite lookup_delete_ne; [done|]. intros E. rewrite <- E in H2. by apply Hne, (Hinj _ _ c).
Qed.

Lemma maps_update ids b e t t' :
  maps_ok ids b → by_engine_id_ b !! e = Some t → t_client_id t' = t_client_id t →
  maps_ok ids (set_maps (<[e := t']> (by_engine_id_ b)) (by_client_id_ b) b).
Proof.
  intros [Hc He] Ht Et. split; cbn.
  - intros c e' Hl. destruct (Hc _ _ Hl) as (t0 & Ht0 & <-). destruct (decide (e = e')) as [<-|Hne].
    + exists t'. rewrite lookup_insert_eq. split; [done|]. congruence.
    + exists t0. by rewrite lookup_insert_ne.
  - intros e' t0. rewrite lookup_insert_Some. intros [[E1 E2]|[Hne Hl]]; [rewrite <- E1, <- E2; clear E1 E2|by apply He].
    rewrite Et. by apply He.
Qed.

Lemma forget_ok ids b e c :
  ids_ok ids → maps_ok ids b → ids !! e = Some c → maps_ok ids (forget e c b).
Proof.
  intros Hids Hm Hid. unfold forget. rewrite bool_decide_false by (by eapply (proj1 Hids)). by apply maps_drop.
Qed.

Lemma learn_exchange_ok ids b e x : maps_ok ids b → maps_ok ids (learn_exchange e x b).
Proof.
  intros Hm. unfold learn_exchange. destruct (by_engine_id_ b !! e) as [t|] eqn:E; [|done].
  case_bool_decide; [|done]. by eapply maps_update.
Qed.

Lemma update_tracked_client msg t : t_client_id (update_tracked msg t) = t_client_id t.
Proof. unfold update_tracked. by destruct (_ && _), (is_fill _). Qed.

Lemma apply_message_ok ids b msg :
  ids_ok ids → maps_ok ids b → maps_ok ids (apply_message msg b).2 ∧
  (∀ r, (apply_message msg b).1 = Some r → is_Some (ids !! r.1.1)) ∧
  submit_queue_ (apply_message msg b).2 = submit_queue_ b.
Proof.
  intros Hids Hm. unfold apply_message. destruct (by_client_id_ b !! _) as [e|] eqn:Ec; [|done].
  destruct (mo_client _ _ Hm _ _ Ec) as (t & Ht & Et). rewrite Ht.
  destruct (mo_engine _ _ Hm _ _ Ht) as [_ Hi]. cbn [fst snd]. split_and!.
  - destruct (is_terminal _).
    + rewrite <- Et. by apply maps_drop.
    + eapply maps_update; [done|done|]. apply update_tracked_client.
  - intros r [= <-]. by exists (t_client_id t).
  - by destruct (is_terminal _).
Qed.

Lemma settle_ok ids b q res :
  ids_ok ids → maps_ok ids b → req_ok ids q →
  maps_ok ids (settle_submit q res b) ∧ maps_ok ids (settle_cancel q (q_client_id q) res b) ∧
  submit_queue_ (settle_submit q res b) = submit_queue_ b ∧
  submit_queue_ (settle_cancel q (q_client_id q) res b) = submit_queue_ b.
Proof.
  intros Hids Hm Hq. unfold settle_submit, settle_cancel. destruct (tr_ok res); split_and!; try done.
  - case_bool_decide; [done|by apply learn_exchange_ok].
  - by apply forget_ok.
  - case_bool_decide; [done|]. unfold learn_exchange. destruct (by_engine_id_ b !! _); [|done]. by case_bool_decide.
  - apply forget_ok; try done. by destruct Hm.
  - by destruct Hm.
Qed.

Lemma cancel_fields_client ids b q s x c :
  maps_ok ids b → req_ok ids q → cancel_fields q b = (s, x, c) → c = q_client_id q.
Proof.
  intros Hm Hq. unfold cancel_fields. destruct (by_engine_id_ b !! q_engine_id q) as [t|] eqn:E; [|naive_solver].
  destruct (mo_engine _ _ Hm _ _ E) as [_ Hi]. unfold req_ok in Hq. rewrite Hi in Hq. injection Hq as Hq.
  intros [= _ _ <-]. unfold pick. rewrite Hq. by case_bool_decide.
Qed.

Lemma maps_ext ids b b' :
  by_engine_id_ b' = by_engine_id_ b → by_client_id_ b' = by_client_id_ b → maps_ok ids b → maps_ok ids b'.
Proof. intros E1 E2 [Hc He]. split; rewrite E1, E2; done. Qed.

Lemma ids_submitted ids e c :
  ids_ok ids → ids !! e = None → c ≠ "" → (∀ id, ids !! id ≠ Some c) → ids_ok (<[e := c]> ids).
Proof.
  intros [Hne Hinj] Hid Hc Hfresh. split.
  - intros e' c'. rewrite lookup_insert_Some. naive_solver.
  - intros e1 e2 c'. rewrite !lookup_insert_Some. naive_solver.
Qed.

Lemma req_later ids e c q : ids !! e = None → req_ok ids q → req_ok (<[e := c]> ids) q.
Proof. unfold req_ok. intros Hid Hq. rewrite lookup_insert_ne; [done|]. intros E. congruence. Qed.

Lemma tx_later ids e c pc : ids !! e = None → tx_ok ids pc → tx_ok (<[e := c]> ids) pc.
Proof.
  intros Hid. destruct pc; simpl; try done; intros; destruct_and?; repeat split; try done; by apply req_later.
Qed.

(** A step that leaves ids, maps and queue alone. *)
Lemma tracking_same w w' :
  tracking w → w_ids w' = w_ids w → by_engine_id_ (w_b w') = by_engine_id_ (w_b w) →
  by_client_id_ (w_b w') = by_client_id_ (w_b w) → submit_queue_ (w_b w') = submit_queue_ (w_b w) →
  eng_ok (w_ids w) (w_eng w') → tx_ok (w_ids w) (w_tx w') → wk_ok (w_ids w) (w_wk w') → tracking w'.
Proof.
  intros [Hi Hm Hq He Ht Hk] Ei E1 E2 Eq H1 H2 H3. split; rewrite ?Ei; try done.
  - by apply (maps_ext _ (w_b w)).
  - by rewrite Eq.
Qed.

Section Theorems.
Context (encode_submit : order_event → string → encoded_order)
        (parse : string → option parsed_exec)
        (parse_position_snapshot : string → option parsed_position_snapshot).
Abbreviation step := (bstep encode_submit parse parse_position_snapshot).

Lemma tracking_init : tracking bworld_init.
Proof. split; try done; split; intros *; by rewrite ?lookup_empty. Qed.

Lemma tracking_step w w' : tracking w → step w w' → tracking w'.
Proof.
  intros Hok Hstep. pose proof Hok as [Hi Hm Hq He Ht Hk].
  destruct Hstep as [w o mi Hpc|w o mi Hpc Hid Hne Hfresh|w q Hpc|w id t Hpc Hl|w Hpc|w Hpc|w Hpc|w Hpc|w h Hpc|w r Hpc|
    w q rest Hpc _ Hqu|w q res Hpc Hc|w q s x c Hpc Hc Hcf|w q s x c res Hpc|w q what Hpc|w q s c res Hpc|w q sr Hpc|
    w raw msg Hpc Hp|w raw s Hpc _ _|w st note Hpc|w msg Hpc|w msg id tot cum now Hpc _|w msg Hpc|w msg h Hpc _|
    w sr Hpc|w f Hpc];
    rewrite ?Hpc in *; try (by apply (tracking_same w)).
  - split; cbn [w_ids w_b w_eng w_tx w_wk submitted eng].
    + by apply ids_submitted.
    + by apply maps_register.
    + eapply Forall_impl; [exact Hq|]. intros. by apply req_later.
    + unfold eng_ok, req_ok. cbn. apply lookup_insert_eq.
    + by apply tx_later.
    + destruct (w_wk w); try done. simpl in *. destruct Hk as [c' Hk]. exists c'. rewrite lookup_insert_ne; [done|].
      intros E. congruence.
  - split; try done; [by apply (maps_ext _ (w_b w))|]. cbn. apply Forall_app. split; [done|]. by repeat constructor.
  - apply (tracking_same w); try done. cbn. unfold req_ok. cbn. by apply (mo_engine _ _ Hm).
  - rewrite Hqu in Hq. apply Forall_cons in Hq as [Hq1 Hq2]. by split; [|apply (maps_ext _ (w_b w))| | | |].
  - apply (tracking_same w); try done. cbn. split; [done|]. by eapply cancel_fields_client.
  - apply (tracking_same w); try done. destruct Hpc as [Hpc|(? & ? & ? & Hpc)]; rewrite Hpc in *; cbn in *; tauto.
  - destruct Ht as [Hreq ->]. destruct (settle_ok _ _ q res Hi Hm Hreq) as (H1 & H2 & H3 & H4).
    destruct (q_is_cancel q); split; try done; cbn; by rewrite ?H3, ?H4.
  - apply (tracking_same w); try done. cbn. by destruct (by_client_id_ _ !! _).
  - destruct (apply_message_ok _ _ msg Hi Hm) as (H1 & H2 & H3). split; try done; cbn [w_b wk w_wk].
    + by rewrite H3.
    + destruct (apply_message msg (w_b w)).1 as [[[id tot] cum]|] eqn:E; [|done].
      destruct (is_fill _); [|done]. by apply (H2 _ eq_refl).
  - apply (tracking_same w); try done. cbn. destruct (unknown_fill_handler_ _); [|done]. by case_bool_decide.
  - apply (tracking_same w); try done. cbn. by destruct (h msg _).
Qed.

(** ** Requests, results and fills *)

Definition answers (q : submit_request) (sr : submit_result) : Prop :=
  sr_engine_id sr = q_engine_id q ∧ sr_op sr = if q_is_cancel q then op_cancel else op_submit.

Definition in_flight (pc : tx_pc) : list submit_request :=
  match pc with X_idle => [] | X_got q | X_cancel q _ _ _ | X_settle q _ _ _ | X_result q _ => [q] end.
Definition result_ok (pc : tx_pc) : Prop := match pc with X_result q sr => answers q sr | _ => True end.

(** Every request enqueued was answered once and in order, is in flight or waits;
    every result and every fill was drained or waits; fills of the bridge's own
    orders carry increasing ids; synthesised fills have their metadata. *)
Record requests (w : bworld) : Prop := {
  rq_conserved : ∃ processed, w_enq w = processed ++ in_flight (w_tx w) ++ submit_queue_ (w_b w) ∧
    Forall2 answers processed (w_done w);
  rq_tx : result_ok (w_tx w);
  rq_results : w_done w = w_results_out w ++ pending_submit_results_ (w_b w) }.

Definition has_meta (w : bworld) (f : fill_event) : Prop :=
  ∃ m, m ∈ w_meta_out w ++ pending_synth_meta_ (w_b w) ∧ sm_engine_order_id m = fe_order_id f.

Record deliveries (w : bworld) : Prop := {
  dv_fills : w_fills_out w ++ pending_fills_ (w_b w) ≡ₚ w_own w ++ w_synth w;
  dv_next : 1 <= next_fill_id_ (w_b w) < 2 ^ 64;
  dv_ids : Forall (λ f, 1 <= fe_fill_id f < next_fill_id_ (w_b w)) (w_own w);
  dv_nodup : NoDup (fe_fill_id <$> w_own w);
  dv_orders : Forall (λ f, is_Some (w_ids w !! fe_order_id f)) (w_own w);
  dv_meta : Forall (has_meta w) (w_synth w);
  dv_pc : ∀ f, w_wk w = K_fill f → has_meta w f }.

(** The critical sections on the maps leave the queues alone. *)
Lemma apply_message_maps msg b : ∃ es cs, (apply_message msg b).2 = set_maps es cs b.
Proof.
  assert (b = set_maps (by_engine_id_ b) (by_client_id_ b) b) as E by (by destruct b).
  unfold apply_message. destruct (by_client_id_ b !! _) as [e|]; [|eauto].
  destruct (by_engine_id_ b !! e); [|eauto]. cbn. destruct (is_terminal _); eauto.
Qed.

Lemma settle_maps q c res b :
  (∃ es cs err, settle_submit q res b = set_maps es cs (set_error err b)) ∧
  (∃ es cs err, settle_cancel q c res b = set_maps es cs (set_error err b)).
Proof.
  assert (∀ b, b = set_maps (by_engine_id_ b) (by_client_id_ b) (set_error (last_error_ b) b)) as E by (by intros []).
  split.
  - unfold settle_submit. destruct (tr_ok res); [|by eexists _, _, _].
    case_bool_decide; [by eexists _, _, _|]. unfold learn_exchange.
    destruct (by_engine_id_ b !! _); [|by eexists _, _, _]. case_bool_decide; [|by eexists _, _, _].
    exists (<[q_engine_id q := set_exchange (tr_exchange_order_id res) t]> (by_engine_id_ b)), (by_client_id_ b), (last_error_ b).
    by destruct b.
  - unfold settle_cancel. destruct (tr_ok res).
    + by eexists _, _, (last_error_ b).
    + by exists (by_engine_id_ b), (by_client_id_ b), ("cancel failed: " +:+ tr_error res).
Qed.

Lemma requests_same w w' :
  requests w → w_enq w' = w_enq w → w_done w' = w_done w → w_results_out w' = w_results_out w →
  in_flight (w_tx w') = in_flight (w_tx w) → result_ok (w_tx w') →
  submit_queue_ (w_b w') = submit_queue_ (w_b w) →
  pending_submit_results_ (w_b w') = pending_submit_results_ (w_b w) → requests w'.
Proof. intros [H1 H2 H3] E1 E2 E3 E4 E5 E6 E7. split; rewrite ?E1, ?E2, ?E3, ?E4, ?E6, ?E7; done. Qed.

Lemma requests_step w w' : requests w → step w w' → requests w'.
Proof.
  intros Hok Hstep. pose proof Hok as [(pr & Hr1 & Hr2) Ht Hres].
  destruct Hstep as [w o mi Hpc|w o mi Hpc Hid Hne Hfresh|w q Hpc|w id t Hpc Hl|w Hpc|w Hpc|w Hpc|w Hpc|w h Hpc|w r Hpc|
    w q rest Hpc _ Hqu|w q res Hpc Hc|w q s x c Hpc Hc Hcf|w q s x c res Hpc|w q what Hpc|w q s c res Hpc|w q sr Hpc|
    w raw msg Hpc Hp|w raw s Hpc _ _|w st note Hpc|w msg Hpc|w msg id tot cum now Hpc _|w msg Hpc|w msg h Hpc _|
    w sr Hpc|w f Hpc];
    rewrite ?Hpc in *; try (by apply (requests_same w); rewrite ?Hpc).
  - split; [|done|done]. exists pr. cbn. rewrite Hr1, <- !app_assoc. done.
  - split; [exists pr; by cbn|done|]. cbn. by rewrite app_nil_r.
  - split; [|done|done]. exists pr. cbn. by rewrite Hr1, Hqu.
  - assert (in_flight (w_tx w) = [q]) as Ef by (destruct Hpc as [->|(? & ? & ? & ->)]; done).
    by apply (requests_same w).
  - destruct (settle_maps q c res (w_b w)) as [(es & cs & err & E1) (es' & cs' & err' & E2)].
    destruct (q_is_cancel q) eqn:E; apply (requests_same w); rewrite ?Hpc; try done; cbn;
      rewrite ?E1, ?E2; try done; by split; cbn; rewrite ?E.
  - cbn in Ht. split; [|done|].
    + exists (pr ++ [q]). cbn. rewrite Hr1, <- app_assoc. split; [done|]. apply Forall2_app; [done|]. by constructor.
    + cbn. by rewrite Hres, app_assoc.
  - destruct (apply_message_maps msg (w_b w)) as (es & cs & E). apply (requests_same w); try done; cbn; by rewrite E.
Qed.

Lemma requests_init : requests bworld_init.
Proof. split; [by exists []|done|done]. Qed.

Lemma deliveries_same w w' :
  deliveries w → w_fills_out w' = w_fills_out w → pending_fills_ (w_b w') = pending_fills_ (w_b w) →
  w_own w' = w_own w → w_synth w' = w_synth w → next_fill_id_ (w_b w') = next_fill_id_ (w_b w) →
  w_ids w' = w_ids w → w_meta_out w' ++ pending_synth_meta_ (w_b w') = w_meta_out w ++ pending_synth_meta_ (w_b w) →
  (∀ f, w_wk w' = K_fill f → w_wk w = K_fill f) → deliveries w'.
Proof.
  intros [H1 H2 H3 H4 H5 H6 H7] E1 E2 E3 E4 E5 E6 E7 E8.
  assert (∀ f, has_meta w f → has_meta w' f) as Hm by (unfold has_meta; by rewrite E7).
  split; rewrite ?E1, ?E2, ?E3, ?E4, ?E5, ?E6; try done.
  - eapply Forall_impl; [exact H6|]. exact Hm.
  - intros f Hf. by apply Hm, H7, E8.
Qed.

(** The worker takes the next fill id. *)
Lemma next_fill_bump w :
  deliveries w → next_fill_id_ (w_b w) + 1 < 2 ^ 64 →
  u64 (next_fill_id_ (w_b w) + 1) = next_fill_id_ (w_b w) + 1 ∧
  Forall (λ f, 1 <= fe_fill_id f < next_fill_id_ (w_b w) + 1) (w_own w).
Proof.
  intros [_ H2 H3 _ _ _ _] Hw. rewrite wrapu_id by (unfold in_u; lia). split; [done|].
  eapply Forall_impl; [exact H3|]. simpl. lia.
Qed.

Lemma has_meta_more w w' f :
  has_meta w f → (∀ m, m ∈ w_meta_out w ++ pending_synth_meta_ (w_b w) →
    m ∈ w_meta_out w' ++ pending_synth_meta_ (w_b w')) → has_meta w' f.
Proof. intros (m & Hm & E) Hsub. exists m. auto. Qed.

Lemma deliveries_step w w' : tracking w → deliveries w → step w w' → deliveries w'.
Proof.
  intros Htr Hok Hstep. pose proof Hok as [H1 H2 H3 H4 H5 H6 H7].
  pose proof (λ H, next_fill_bump w Hok H) as Hbump.
  destruct Hstep as [w o mi Hpc|w o mi Hpc Hid Hne Hfresh|w q Hpc|w id t Hpc Hl|w Hpc|w Hpc|w Hpc|w Hpc|w h Hpc|w r Hpc|
    w q rest Hpc _ Hqu|w q res Hpc Hc|w q s x c Hpc Hc Hcf|w q s x c res Hpc|w q what Hpc|w q s c res Hpc|w q sr Hpc|
    w raw msg Hpc Hp|w raw s Hpc _ _|w st note Hpc|w msg Hpc|w msg id tot cum now Hpc Hw|w msg Hpc|w msg h Hpc Hw|
    w sr Hpc|w f Hpc];
    try (by apply (deliveries_same w); cbn; rewrite ?app_nil_r).
  - split; try done. cbn. eapply Forall_impl; [exact H5|]. intros f [c Hf]. exists c.
    rewrite lookup_insert_ne; [done|]. intros E. congruence.
  - assert (∀ f, has_meta w f → has_meta (drained (poll_fills (w_b w)).1 []
      (eng w E_idle (poll_fills (w_b w)).2)) f) as Hm
      by (intros f Hf; eapply has_meta_more; [exact Hf|]; cbn; by rewrite app_nil_r).
    split; try done.
    + cbn. by rewrite app_nil_r.
    + eapply Forall_impl; [exact H6|]. exact Hm.
    + intros f Hf. by apply Hm, H7.
  - destruct (settle_maps q c res (w_b w)) as [(es & cs & err & E1) (es' & cs' & err' & E2)].
    destruct (q_is_cancel q); apply (deliveries_same w); try done; cbn; by rewrite ?E1, ?E2.
  - apply (deliveries_same w); try done. cbn. intros f. by destruct (by_client_id_ _ !! _).
  - destruct (apply_message_maps msg (w_b w)) as (es & cs & E). apply (deliveries_same w); try done; cbn;
      rewrite ?E; try done. intros f. destruct (apply_message msg (w_b w)).1 as [[[? ?] ?]|]; [|done].
    by destruct (is_fill _).
  - destruct (Hbump Hw) as [Eu Hlt]. pose proof (tk_wk _ Htr) as Hwk. rewrite Hpc in Hwk. split; cbn.
    + rewrite app_assoc, H1, app_nil_r, <- !app_assoc. apply Permutation_app_head, Permutation_app_comm.
    + rewrite Eu. lia.
    + rewrite Eu. apply Forall_app. split; [done|]. repeat constructor; cbn; lia.
    + rewrite fmap_app. apply NoDup_app. split; [done|]. split; [|apply NoDup_singleton].
      intros i Hi. apply list_elem_of_fmap in Hi as (f & -> & Hf). cbn. rewrite list_elem_of_singleton.
      rewrite Forall_forall in H3. specialize (H3 f Hf). lia.
    + apply Forall_app. split; [done|]. by repeat constructor.
    + by rewrite app_nil_r.
    + done.
  - apply (deliveries_same w); try done. cbn. intros f. destruct (unknown_fill_handler_ _); [|done]. by case_bool_decide.
  - destruct (Hbump Hw) as [Eu Hlt]. split; try done; cbn; rewrite ?Eu; try done; [lia|].
    intros f. by destruct (h msg _).
  - split; try done; cbn.
    + eapply Forall_impl; [exact H6|]. intros f Hf. eapply has_meta_more; [exact Hf|]. cbn. set_solver.
    + intros f [= <-]. exists (meta_of sr). cbn. set_solver.
  - split; try done; cbn.
    + rewrite !app_nil_r, !app_assoc, H1. done.
    + by rewrite app_nil_r.
    + by rewrite app_nil_r.
    + by rewrite app_nil_r.
    + apply Forall_app. split; [done|]. constructor; [|constructor]. by apply H7.
Qed.

Lemma deliveries_init : deliveries bworld_init.
Proof. split; try done; constructor. Qed.

Lemma reachable_ok w : rtc step bworld_init w → tracking w ∧ requests w ∧ deliveries w.
Proof.
  intros Hr. assert (tracking bworld_init ∧ requests bworld_init ∧ deliveries bworld_init) as H0
    by (split_and!; [apply tracking_init|apply requests_init|apply deliveries_init]).
  revert H0 Hr. generalize bworld_init. intros w0 H0 Hr.
  induction Hr as [|w0 w1 w2 Hs _ IH]; [done|]. destruct H0 as (Ht & Hq & Hd). apply IH. split_and!.
  - by eapply tracking_step.
  - by eapply requests_step.
  - by eapply deliveries_step.
Qed.

(** C28: tracking.  In every interleaving of the engine, which submits orders under
    fresh ids and client ids that are not empty and not in use, the transport thread
    and the fill worker the bridge's two maps are inverse to each other, and an order is
    tracked only under the client id it was submitted with: no message, answer
    or cancel ever leaves one map pointing at an order the other has dropped. *)
Theorem bridge_maps_inverse w :
  rtc step bworld_init w →
  ∀ e c, by_client_id_ (w_b w) !! c = Some e ↔
    ∃ t, by_engine_id_ (w_b w) !! e = Some t ∧ t_client_id t = c ∧ w_ids w !! e = Some c.
Proof.
  intros Hr e c. destruct (reachable_ok w Hr) as [[_ [Hc He] _ _ _ _] _]. split.
  - intros Hl. destruct (Hc _ _ Hl) as (t & Ht & <-). exists t. split_and!; try done. by apply He.
  - intros (t & Ht & <- & _). by apply He.
Qed.

(** requests.  In every interleaving the requests enqueued are, in order, those
    answered, the one in flight and those waiting; the results produced are one
    per answered request, in order, naming its order and operation, also when
    the venue call threw; and each result is drained once or still pending. *)
Theorem bridge_answers_once w :
  rtc step bworld_init w →
  ∃ processed, w_enq w = processed ++ in_flight (w_tx w) ++ submit_queue_ (w_b w) ∧
    Forall2 answers processed (w_results_out w ++ pending_submit_results_ (w_b w)).
Proof.
  intros Hr. destruct (reachable_ok w Hr) as (_ & [(pr & H1 & H2) _ H3] & _). exists pr. by rewrite <- H3.
Qed.

(** C8: fills.  In every such interleaving, in which a tick drains the metadata
    before the fills, the fills drained and pending are exactly those
    emitted, none lost or duplicated; a fill of the bridge's own carries an order
    id that was submitted and a fill id no other own fill has; a synthesised fill
    has its metadata drained or pending. *)
Theorem bridge_fills_delivered w :
  rtc step bworld_init w →
  w_fills_out w ++ pending_fills_ (w_b w) ≡ₚ w_own w ++ w_synth w ∧
  NoDup (fe_fill_id <$> w_own w) ∧ Forall (λ f, is_Some (w_ids w !! fe_order_id f)) (w_own w) ∧
  Forall (has_meta w) (w_synth w).
Proof. intros Hr. by destruct (reachable_ok w Hr) as (_ & _ & [H1 _ _ H4 H5 H6 _]). Qed.

End Theorems.

(** ** Concrete runs *)

Definition sample_encode (o : order_event) (c : string) : encoded_order :=
  {| enc_endpoint := "/order"; enc_wire_payload := c; enc_client_order_id := c |}.
Definition sample_msg (client exchange : string) (k : exec_kind) : parsed_exec :=
  {| pe_kind := k; pe_client_order_id := client; pe_exchange_order_id := exchange; pe_symbol := "BTC";
     pe_side := side_buy; pe_last_fill_qty := d_one; pe_last_fill_price := d_one; pe_cumulative_qty := d_one;
     pe_commission := d_zero; pe_commission_asset := ""; pe_ts := 1; pe_error := "" |}.
(** The raw text "leg" is an execution of a bracket leg the bridge never sent, any
    other text a full fill of the order with that client id. *)
Definition sample_parse (raw : string) : option parsed_exec :=
  if bool_decide (raw = "leg") then Some (sample_msg "leg" "42" k_full_fill)
  else Some (sample_msg raw "7" k_full_fill).
Definition sample_synth (fid : Z) : synth_result :=
  {| sy_fill := mk_fill_event 1 "BTC" 900 side_sell d_one d_one d_zero d_zero fid "" 0;
     sy_opener_order_id := 5; sy_strategy_name := "s" |}.
Definition sample_handler : unknown_fill_handler := λ _ fid, Some (sample_synth fid).
Abbreviation sample_step := (bstep sample_encode sample_parse (λ _, None)).

(** draining the metadata before the fills does not give the engine the metadata
    of every fill it drains: the worker may queue both between the two drains.
    In some interleaving the engine, at rest after a drain of metadata followed
    by a drain of fills, holds a synthesised fill and no metadata for its order. *)
Theorem synth_meta_race :
  ∃ w, rtc sample_step bworld_init w ∧ w_eng w = E_idle ∧
    ∃ f, f ∈ w_fills_out w ∧ f ∈ w_synth w ∧ Forall (λ m, sm_engine_order_id m ≠ fe_order_id f) (w_meta_out w).
Proof.
  eexists. split; [|shelve].
  eapply rtc_l; [by apply (e_handler _ _ _ _ (Some sample_handler))|].
  eapply rtc_l; [by apply e_meta|].
  eapply rtc_l; [by apply (k_message _ _ _ _ "leg" (sample_msg "leg" "42" k_full_fill))|].
  eapply rtc_l; [by apply (k_unknown _ _ _ _ (sample_msg "leg" "42" k_full_fill))|].
  eapply rtc_l; [by apply (k_synth _ _ _ _ (sample_msg "leg" "42" k_full_fill) sample_handler)|].
  eapply rtc_l; [by apply (k_meta _ _ _ _ (sample_synth 1))|].
  eapply rtc_l; [by apply (k_fill _ _ _ _ (sy_fill (sample_synth 1)))|].
  eapply rtc_l; [by apply e_fills|]. apply rtc_refl.
  Unshelve. split; [done|]. exists (sy_fill (sample_synth 1)). split; [left|]. split; [left|]. constructor.
Qed.

Definition sample_order_event : order_event :=
  set_order_id 3 (mk_order_event 0 "BTC" ot_limit side_buy d_one d_one tif_gtc d_zero).

(** One order submitted, sent, acknowledged and filled. *)
Lemma sample_run :
  ∃ w, rtc sample_step bworld_init w ∧ w_own w ≠ [] ∧ w_ids w = {[3 := "c3"]} ∧
    pending_submit_results_ (w_b w) ≠ [].
Proof.
  eexists. split; [|shelve].
  eapply rtc_l; [by apply (e_running _ _ _ _ true)|].
  eapply rtc_l; [by apply (e_submit _ _ _ _ sample_order_event (Some "c3"))|].
  eapply rtc_l; [by apply (e_register _ _ _ _ sample_order_event (Some "c3"))|].
  eapply rtc_l; [by eapply e_enqueue|].
  eapply rtc_l; [by eapply x_take|].
  eapply rtc_l; [by eapply (x_submit _ _ _ _ _ {| tr_ok := true; tr_exchange_order_id := "7"; tr_raw_response := ""; tr_error := "" |})|].
  eapply rtc_l; [by eapply x_settle|].
  eapply rtc_l; [by eapply x_result|].
  eapply rtc_l; [by apply (k_message _ _ _ _ "c3" (sample_msg "c3" "7" k_full_fill))|].
  eapply rtc_l; [by apply (k_apply _ _ _ _ (sample_msg "c3" "7" k_full_fill))|].
  eapply rtc_l; [by eapply (k_emit _ _ _ _ (sample_msg "c3" "7" k_full_fill) 3 _ _ 0)|]. apply rtc_refl.
  Unshelve. split; [done|]. split; [|done]. done.
Qed.

Lemma bridge_maps_inverse_witness :
  ∃ w, rtc sample_step bworld_init w ∧ w_own w ≠ [] ∧
    ∀ e c, by_client_id_ (w_b w) !! c = Some e ↔
      ∃ t, by_engine_id_ (w_b w) !! e = Some t ∧ t_client_id t = c ∧ w_ids w !! e = Some c.
Proof.
  destruct sample_run as (w & Hr & Ho & _). exists w. split; [exact Hr|]. split; [exact Ho|].
  exact (bridge_maps_inverse _ _ _ w Hr).
Defined.

Lemma bridge_answers_once_witness :
  ∃ w, rtc sample_step bworld_init w ∧ pending_submit_results_ (w_b w) ≠ [] ∧
    ∃ processed, w_enq w = processed ++ in_flight (w_tx w) ++ submit_queue_ (w_b w) ∧
      Forall2 answers processed (w_results_out w ++ pending_submit_results_ (w_b w)).
Proof.
  destruct sample_run as (w & Hr & _ & _ & Hp). exists w. split; [exact Hr|]. split; [exact Hp|].
  exact (bridge_answers_once _ _ _ w Hr).
Defined.

Lemma bridge_fills_delivered_witness :
  ∃ w, rtc sample_step bworld_init w ∧ w_own w ≠ [] ∧ NoDup (fe_fill_id <$> w_own w).
Proof.
  destruct sample_run as (w & Hr & Ho & _). exists w. split; [exact Hr|]. split; [exact Ho|].
  exact (proj1 (proj2 (bridge_fills_delivered _ _ _ w Hr))).
Defined.
