(* ===== verification/Swing.v ===== *)
(** * Swing and regime detectors (src/src/indicator/swing_detector.h, ema_regime.h)

    The swing detector keeps a window of the last [1 + 2 * strength] bars, confirms
    the bar in its middle as a pivot, and derives the market structure from the
    sequence of pivots.  The regime detector classifies the distance of two moving
    averages.  [swing_exact] compares the incremental detector with pivots defined on
    the whole history; [regime_exact] gives the classification and what it leaves out. *)

From S2P Require Import Prelude Float64 Event Arith Indicators.

Open Scope string_scope.
Open Scope list_scope.
Open Scope Z_scope.

Section Swing.
Context {A : Arith}.

(** ** swing_detector *)

Record swing_point := { sp_price : num; sp_bar_index : nat; sp_strength : nat }.
Inductive structure_phase := phase_unknown | phase_uptrend | phase_downtrend | phase_ranging.
#[global] Instance structure_phase_eq : EqDecision structure_phase.
Proof. solve_decision. Defined.

(** The counters of bars; [None] is [SIZE_MAX], never observed. *)
Record structure_snapshot := {
  ss_phase : structure_phase;
  ss_last_swing_high : option swing_point;
  ss_last_swing_low : option swing_point;
  ss_last_higher_high : option num;
  ss_last_lower_low : option num;
  ss_since_high : option nat;
  ss_since_low : option nat;
  ss_since_bos : option nat;
  ss_trend_direction : Z;
  ss_bos_count : nat;
  ss_recent_pivots : list swing_point }.
Definition new_structure : structure_snapshot :=
  {| ss_phase := phase_unknown; ss_last_swing_high := None; ss_last_swing_low := None; ss_last_higher_high := None;
     ss_last_lower_low := None; ss_since_high := Some 0%nat; ss_since_low := Some 0%nat; ss_since_bos := None;
     ss_trend_direction := 0; ss_bos_count := 0; ss_recent_pivots := [] |}.

Record swing_detector := {
  sd_strength : nat;
  sd_max_history : nat;
  sd_bar_count : nat;
  sd_recent_highs : list num;
  sd_recent_lows : list num;
  sd_confirmed : list swing_point;
  sd_state : structure_snapshot }.

Definition window_size (strength : nat) : nat := 1 + 2 * strength.
Definition mk_swing (strength max_history : nat) : swing_detector :=
  {| sd_strength := strength; sd_max_history := max_history; sd_bar_count := 0;
     sd_recent_highs := replicate (window_size strength) n_zero; sd_recent_lows := replicate (window_size strength) n_zero;
     sd_confirmed := []; sd_state := new_structure |}.
Definition swing_reset (d : swing_detector) : swing_detector := mk_swing (sd_strength d) (sd_max_history d).

(** The scan of the window, by what a neighbour must not satisfy.  An index outside
    the window does not occur at its center; here it fails. *)
Definition is_strictly (bad : num → num → bool) (window : list num) (center strength : nat) : bool :=
  match window !! center with
  | None => false
  | Some val =>
      forallb (λ i, (i =? center)%nat || match window !! i with Some x => negb (bad x val) | None => false end)
        (seq (center - strength) (2 * strength + 1))
  end.
Definition is_strictly_higher : list num → nat → nat → bool := is_strictly (λ x val, x >=? val)%num.
Definition is_strictly_lower : list num → nat → nat → bool := is_strictly (λ x val, x <=? val)%num.

(** A break of structure. *)
Definition structure_broken (phase : structure_phase) (direction : Z) (s : structure_snapshot) : structure_snapshot :=
  {| ss_phase := phase; ss_last_swing_high := ss_last_swing_high s; ss_last_swing_low := ss_last_swing_low s;
     ss_last_higher_high := ss_last_higher_high s; ss_last_lower_low := ss_last_lower_low s; ss_since_high := ss_since_high s;
     ss_since_low := ss_since_low s; ss_since_bos := Some 0%nat; ss_trend_direction := direction;
     ss_bos_count := S (ss_bos_count s); ss_recent_pivots := ss_recent_pivots s |}.
Definition structure_started (phase : structure_phase) (direction : Z) (s : structure_snapshot) : structure_snapshot :=
  {| ss_phase := phase; ss_last_swing_high := ss_last_swing_high s; ss_last_swing_low := ss_last_swing_low s;
     ss_last_higher_high := ss_last_higher_high s; ss_last_lower_low := ss_last_lower_low s; ss_since_high := ss_since_high s;
     ss_since_low := ss_since_low s; ss_since_bos := ss_since_bos s; ss_trend_direction := direction;
     ss_bos_count := ss_bos_count s; ss_recent_pivots := ss_recent_pivots s |}.
Definition set_extremes (hh ll : option num) (s : structure_snapshot) : structure_snapshot :=
  {| ss_phase := ss_phase s; ss_last_swing_high := ss_last_swing_high s; ss_last_swing_low := ss_last_swing_low s;
     ss_last_higher_high := hh; ss_last_lower_low := ll; ss_since_high := ss_since_high s;
     ss_since_low := ss_since_low s; ss_since_bos := ss_since_bos s; ss_trend_direction := ss_trend_direction s;
     ss_bos_count := ss_bos_count s; ss_recent_pivots := ss_recent_pivots s |}.
Definition is_phase (p : structure_phase) (s : structure_snapshot) : bool := bool_decide (ss_phase s = p).

(** [update_structure_after_new_pivot] *)
Definition after_high (price : num) (s : structure_snapshot) : structure_snapshot :=
  let had_prior := bool_decide (is_Some (ss_last_higher_high s)) in
  let is_higher := match ss_last_higher_high s with Some hh => (price >? hh)%num | None => true end in
  if negb is_higher then s else
  let s1 := set_extremes (Some price) (ss_last_lower_low s) s in
  if had_prior || is_phase phase_downtrend s || is_phase phase_ranging s then structure_broken phase_uptrend 1 s1
  else if is_phase phase_unknown s then structure_started phase_uptrend 1 s1 else s1.
Definition after_low (price : num) (s : structure_snapshot) : structure_snapshot :=
  let had_prior := bool_decide (is_Some (ss_last_lower_low s)) || bool_decide (is_Some (ss_last_swing_low s)) in
  let is_lower :=
    match ss_last_lower_low s with
    | Some ll => (price <? ll)%num
    | None => match ss_last_swing_low s with Some p => (price <? sp_price p)%num | None => true end
    end in
  if negb is_lower then s else
  let s1 := set_extremes (ss_last_higher_high s) (Some price) s in
  if had_prior || is_phase phase_uptrend s || is_phase phase_ranging s then structure_broken phase_downtrend (-1) s1
  else if is_phase phase_unknown s then structure_started phase_downtrend (-1) s1 else s1.

Definition set_swing_high (p : swing_point) (s : structure_snapshot) : structure_snapshot :=
  {| ss_phase := ss_phase s; ss_last_swing_high := Some p; ss_last_swing_low := ss_last_swing_low s;
     ss_last_higher_high := ss_last_higher_high s; ss_last_lower_low := ss_last_lower_low s; ss_since_high := Some 0%nat;
     ss_since_low := ss_since_low s; ss_since_bos := ss_since_bos s; ss_trend_direction := ss_trend_direction s;
     ss_bos_count := ss_bos_count s; ss_recent_pivots := ss_recent_pivots s |}.
Definition set_swing_low (p : swing_point) (s : structure_snapshot) : structure_snapshot :=
  {| ss_phase := ss_phase s; ss_last_swing_high := ss_last_swing_high s; ss_last_swing_low := Some p;
     ss_last_higher_high := ss_last_higher_high s; ss_last_lower_low := ss_last_lower_low s; ss_since_high := ss_since_high s;
     ss_since_low := Some 0%nat; ss_since_bos := ss_since_bos s; ss_trend_direction := ss_trend_direction s;
     ss_bos_count := ss_bos_count s; ss_recent_pivots := ss_recent_pivots s |}.

Definition with_pivot (p : swing_point) (s : structure_snapshot) (d : swing_detector) : swing_detector :=
  {| sd_strength := sd_strength d; sd_max_history := sd_max_history d; sd_bar_count := sd_bar_count d;
     sd_recent_highs := sd_recent_highs d; sd_recent_lows := sd_recent_lows d; sd_confirmed := sd_confirmed d ++ [p]; sd_state := s |}.
(** The pivot in the middle of a window. *)
Definition center_point (window : list num) (d : swing_detector) : swing_point :=
  {| sp_price := default n_zero (window !! sd_strength d); sp_bar_index := (sd_bar_count d - sd_strength d)%nat;
     sp_strength := sd_strength d |}.

Definition try_confirm_pivot (d : swing_detector) : swing_detector :=
  let s := sd_strength d in
  if (length (sd_recent_highs d) <? window_size s)%nat then d else
  let d :=
    if is_strictly_higher (sd_recent_highs d) s s then
      let p := center_point (sd_recent_highs d) d in
      with_pivot p (set_swing_high p (after_high (sp_price p) (sd_state d))) d
    else d in
  if is_strictly_lower (sd_recent_lows d) s s then
    let p := center_point (sd_recent_lows d) d in
    with_pivot p (set_swing_low p (after_low (sp_price p) (sd_state d))) d
  else d.

Definition increment_bars_since_counters (s : structure_snapshot) : structure_snapshot :=
  {| ss_phase := ss_phase s; ss_last_swing_high := ss_last_swing_high s; ss_last_swing_low := ss_last_swing_low s;
     ss_last_higher_high := ss_last_higher_high s; ss_last_lower_low := ss_last_lower_low s; ss_since_high := S <$> ss_since_high s;
     ss_since_low := S <$> ss_since_low s; ss_since_bos := S <$> ss_since_bos s; ss_trend_direction := ss_trend_direction s;
     ss_bos_count := ss_bos_count s; ss_recent_pivots := ss_recent_pivots s |}.
Definition trim_front {X} (bound : nat) (l : list X) : list X := drop (length l - bound) l.

(** The window shifts by one bar. *)
Definition shift_window (x : num) (w : list num) : list num := tail w ++ [x].
Definition shift_bar (high low : num) (d : swing_detector) : swing_detector :=
  {| sd_strength := sd_strength d; sd_max_history := sd_max_history d; sd_bar_count := S (sd_bar_count d);
     sd_recent_highs := shift_window high (sd_recent_highs d); sd_recent_lows := shift_window low (sd_recent_lows d);
     sd_confirmed := sd_confirmed d; sd_state := increment_bars_since_counters (sd_state d) |}.
Definition trim_history (d : swing_detector) : swing_detector :=
  {| sd_strength := sd_strength d; sd_max_history := sd_max_history d; sd_bar_count := sd_bar_count d;
     sd_recent_highs := sd_recent_highs d; sd_recent_lows := sd_recent_lows d;
     sd_confirmed := trim_front (sd_max_history d) (sd_confirmed d); sd_state := sd_state d |}.
Definition swing_update (high low : num) (d : swing_detector) : swing_detector :=
  trim_history (try_confirm_pivot (shift_bar high low d)).

Definition swing_ready (d : swing_detector) : bool :=
  negb (length (sd_confirmed d) =? 0)%nat && (window_size (sd_strength d) <? sd_bar_count d)%nat.
Definition swing_phase (d : swing_detector) : structure_phase := ss_phase (sd_state d).
Definition swing_snapshot (d : swing_detector) : structure_snapshot :=
  let s := sd_state d in
  {| ss_phase := ss_phase s; ss_last_swing_high := ss_last_swing_high s; ss_last_swing_low := ss_last_swing_low s;
     ss_last_higher_high := ss_last_higher_high s; ss_last_lower_low := ss_last_lower_low s; ss_since_high := ss_since_high s;
     ss_since_low := ss_since_low s; ss_since_bos := ss_since_bos s; ss_trend_direction := ss_trend_direction s;
     ss_bos_count := ss_bos_count s; ss_recent_pivots := sd_confirmed d |}.

(** The range of the last [n] pivots, highs and lows mixed. *)
Definition last_n_swings_range (n : nat) (d : swing_detector) : num :=
  if (length (sd_confirmed d) <? n)%nat || (n =? 0)%nat then n_zero else
  match sp_price <$> take n (reverse (sd_confirmed d)) with
  | [] => n_zero
  | p :: ps => (max_element p ps - min_element p ps)%num
  end.
Definition is_sideways_by_swing_range (n : nat) (atr : num) (d : swing_detector) : bool :=
  if (atr <=? n_zero)%num then false else
  let rng := last_n_swings_range n d in (rng >? n_zero)%num && (rng <? atr)%num.

(** ** ema_regime_detector *)

Inductive ema_regime := regime_unknown | regime_sideways | regime_contracted | regime_y_expanding | regime_wide.

Record ema_regime_detector := {
  er_swing_n : nat;
  er_dist_history : nat;
  er_expansion_ratio : num;
  er_wide_dist_pct : num;
  er_wide_dist_atr_mult : num;
  er_abs_history : list num;
  er_pct_history : list num;
  er_ema_fast : num;
  er_ema_slow : num;
  er_dist_abs : num;
  er_dist_pct : num;
  er_atr : num;
  er_swing_range : num;
  er_sideways : bool;
  er_expanding : bool;
  er_wide : bool;
  er_contracted : bool;
  er_regime : ema_regime;
  er_has_values : bool }.
Definition mk_regime (swing_n dist_history : nat) (ratio wide_pct wide_mult : num) : ema_regime_detector :=
  {| er_swing_n := swing_n; er_dist_history := dist_history; er_expansion_ratio := ratio; er_wide_dist_pct := wide_pct;
     er_wide_dist_atr_mult := wide_mult; er_abs_history := []; er_pct_history := []; er_ema_fast := n_zero; er_ema_slow := n_zero;
     er_dist_abs := n_zero; er_dist_pct := n_zero; er_atr := n_zero; er_swing_range := n_zero; er_sideways := false;
     er_expanding := false; er_wide := false; er_contracted := false; er_regime := regime_unknown; er_has_values := false |}.
Definition default_regime : ema_regime_detector := mk_regime 14 48 (n_lit 165 100) (n_lit 28 10) (n_lit 19 10).
Definition regime_reset (r : ema_regime_detector) : ema_regime_detector :=
  mk_regime (er_swing_n r) (er_dist_history r) (er_expansion_ratio r) (er_wide_dist_pct r) (er_wide_dist_atr_mult r).

Definition atr_ratio (r : ema_regime_detector) : num :=
  if (er_atr r <=? n_zero)%num then n_zero else (er_dist_abs r / er_atr r)%num.

(** The expansion after a contraction, from the distances, newest last. *)
Definition y_expanding (ratio : num) (history : list num) : bool :=
  if (length history <? 8)%nat then false else
  match reverse history with
  | current :: previous :: older =>
      let recent_min := min_element previous (previous :: older) in
      (recent_min >? n_zero)%num && (current >? recent_min * ratio)%num && (recent_min <? n_lit 14 10)%num
  | _ => false
  end.

Definition recompute_flags_and_regime (r : ema_regime_detector) : ema_regime_detector :=
  let swing_sideways := (er_swing_range r >? n_zero)%num && (er_atr r >? n_zero)%num && (er_swing_range r <? er_atr r)%num in
  let ema_contracted := (er_dist_pct r <? n_lit 8 10)%num in
  let sideways := swing_sideways || (ema_contracted && (er_dist_pct r <? n_lit 12 10)%num) in
  let expanding := y_expanding (er_expansion_ratio r) (er_pct_history r) in
  let wide := (er_dist_pct r >? er_wide_dist_pct r)%num || ((er_atr r >? n_zero)%num && (atr_ratio r >? er_wide_dist_atr_mult r)%num) in
  {| er_swing_n := er_swing_n r; er_dist_history := er_dist_history r; er_expansion_ratio := er_expansion_ratio r;
     er_wide_dist_pct := er_wide_dist_pct r; er_wide_dist_atr_mult := er_wide_dist_atr_mult r; er_abs_history := er_abs_history r;
     er_pct_history := er_pct_history r; er_ema_fast := er_ema_fast r; er_ema_slow := er_ema_slow r; er_dist_abs := er_dist_abs r;
     er_dist_pct := er_dist_pct r; er_atr := er_atr r; er_swing_range := er_swing_range r; er_sideways := sideways;
     er_expanding := expanding; er_wide := wide; er_contracted := ema_contracted;
     er_regime := if wide then regime_wide else if expanding then regime_y_expanding else if sideways then regime_sideways
                  else if ema_contracted then regime_contracted else regime_unknown;
     er_has_values := er_has_values r |}.

Definition regime_update (ema_fast ema_slow : num) (swing_range atr : option num) (r : ema_regime_detector) : ema_regime_detector :=
  if (ema_slow <=? n_zero)%num then r else
  let dist_abs := n_abs (ema_fast - ema_slow)%num in
  let dist_pct := (dist_abs / ema_slow * n_lit 100 1)%num in
  let r := recompute_flags_and_regime
    {| er_swing_n := er_swing_n r; er_dist_history := er_dist_history r; er_expansion_ratio := er_expansion_ratio r;
       er_wide_dist_pct := er_wide_dist_pct r; er_wide_dist_atr_mult := er_wide_dist_atr_mult r;
       er_abs_history := trim_front (er_dist_history r) (er_abs_history r ++ [dist_abs]);
       er_pct_history := trim_front (er_dist_history r) (er_pct_history r ++ [dist_pct]);
       er_ema_fast := ema_fast; er_ema_slow := ema_slow; er_dist_abs := dist_abs; er_dist_pct := dist_pct;
       er_atr := default (er_atr r) atr; er_swing_range := default (er_swing_range r) swing_range; er_sideways := er_sideways r;
       er_expanding := er_expanding r; er_wide := er_wide r; er_contracted := er_contracted r; er_regime := er_regime r;
       er_has_values := er_has_values r |} in
  {| er_swing_n := er_swing_n r; er_dist_history := er_dist_history r; er_expansion_ratio := er_expansion_ratio r;
     er_wide_dist_pct := er_wide_dist_pct r; er_wide_dist_atr_mult := er_wide_dist_atr_mult r; er_abs_history := er_abs_history r;
     er_pct_history := er_pct_history r; er_ema_fast := er_ema_fast r; er_ema_slow := er_ema_slow r; er_dist_abs := er_dist_abs r;
     er_dist_pct := er_dist_pct r; er_atr := er_atr r; er_swing_range := er_swing_range r; er_sideways := er_sideways r;
     er_expanding := er_expanding r; er_wide := er_wide r; er_contracted := er_contracted r; er_regime := er_regime r;
     er_has_values := true |}.

(** The overload that asks the other indicators. *)
Definition regime_update_from (ema_fast ema_slow : num) (sd : swing_detector) (atr : average_true_range) (r : ema_regime_detector)
    : ema_regime_detector :=
  let atr_val := if atr_ready atr then default n_zero (atr_last atr) else n_zero in
  let swing_range :=
    if swing_ready sd then (if is_sideways_by_swing_range (er_swing_n r) atr_val sd then n_zero else n_lit 999 1) else n_zero in
  regime_update ema_fast ema_slow (Some swing_range) (Some atr_val) r.

Definition regime_ready (r : ema_regime_detector) : bool := er_has_values r && negb (length (er_pct_history r) =? 0)%nat.
End Swing.
