(* ===== verification/SwingTheorems.v ===== *)
(** * The swing and regime detectors against their definitions

    [swing_exact]: the incremental detector equals pivots defined on the whole
    history, in every arithmetic.  [regime_exact]: the regimes the second detector
    can report, and what its overload makes of the swing rule. *)

From Stdlib Require Import QArith.
From S2P Require Import Prelude Float64 Event Arith Indicators Swing.

Open Scope string_scope.
Open Scope list_scope.
Open Scope Z_scope.

Section Pivots.
Context {A : Arith}.

(** ** Pivots of a history *)

(** The history is preceded by a window of zeros. *)
Definition padded (s : nat) (l : list num) : list num := replicate (window_size s) n_zero ++ l.
Definition at_ (l : list num) (i : nat) : num := default n_zero (l !! i).
(** No neighbour up to distance [s] on either side is [bad] for the center. *)
Definition peak (bad : num → num → bool) (s : nat) (l : list num) (c : nat) : bool :=
  forallb (λ d, negb (bad (at_ l (c - d)) (at_ l c)) && negb (bad (at_ l (c + d)) (at_ l c))) (seq 1 s).

Abbreviation pivot := (bool * swing_point)%type.
(** What bar [n] confirms: the bar [s] before it, as a high, as a low, or both. *)
Definition pivots_at (s : nat) (bars : list (num * num)) (n : nat) : list pivot :=
  let point l := {| sp_price := at_ l (n + s); sp_bar_index := n - s; sp_strength := s |} in
  let highs := padded s bars.*1 in
  let lows := padded s bars.*2 in
  (if peak (λ x v, x >=? v)%num s highs (n + s) then [(true, point highs)] else []) ++
  (if peak (λ x v, x <=? v)%num s lows (n + s) then [(false, point lows)] else []).
Definition pivots (s : nat) (bars : list (num * num)) : list pivot := concat (pivots_at s bars <$> seq 1 (length bars)).

Definition of_kind (high : bool) (ps : list pivot) : list swing_point := (filter (λ x : pivot, x.1 = high) ps).*2.
(** A pivot beyond every earlier one of its kind. *)
Definition sets_record (before : list pivot) (x : pivot) : bool :=
  if x.1
  then match list_max (sp_price <$> of_kind true before) with Some m => (m <? sp_price x.2)%num | None => true end
  else match list_min (sp_price <$> of_kind false before) with Some m => (sp_price x.2 <? m)%num | None => true end.
Fixpoint records_from (before ps : list pivot) : list bool :=
  match ps with
  | [] => []
  | x :: ps => (if sets_record before x then [x.1] else []) ++ records_from (before ++ [x]) ps
  end.
Definition records : list pivot → list bool := records_from [].

Definition phase_after (rs : list bool) : structure_phase :=
  match last rs with None => phase_unknown | Some true => phase_uptrend | Some false => phase_downtrend end.
Definition direction_of (p : structure_phase) : Z := match p with phase_uptrend => 1 | phase_downtrend => -1 | _ => 0 end.

(** ** Windows *)

Lemma shift_drop n x l : (n < length l)%nat → shift_window x (drop n l) = drop (S n) (l ++ [x]).
Proof.
  intros H. unfold shift_window. rewrite drop_app_le by lia. f_equal.
  by destruct (drop n l) as [|y t] eqn:E; rewrite <- (Nat.add_1_r n), <- drop_drop, E.
Qed.

Lemma at_drop n l i : at_ l (n + i) = default n_zero (drop n l !! i).
Proof. unfold at_. by rewrite lookup_drop. Qed.

Lemma is_strictly_peak bad s n l :
  (length l = n + window_size s)%nat → is_strictly bad (drop n l) s s = peak bad s l (n + s).
Proof.
  intros Hl. unfold is_strictly, peak, window_size in *.
  assert (∀ i, (i <= 2 * s)%nat → drop n l !! i = Some (at_ l (n + i))) as Hat.
  { intros i Hi. rewrite at_drop. destruct (drop n l !! i) eqn:E; [done|].
    apply lookup_ge_None in E. rewrite length_drop in E. lia. }
  rewrite (Hat s) by lia. rewrite Nat.sub_diag. apply eq_true_iff_eq. rewrite !forallb_forall. split.
  - intros H d [Hd1 Hd2]%in_seq.
    pose proof (H (s - d)%nat ltac:(apply in_seq; lia)) as H1. pose proof (H (s + d)%nat ltac:(apply in_seq; lia)) as H2.
    rewrite (Hat (s - d)%nat) in H1 by lia. rewrite (Hat (s + d)%nat) in H2 by lia.
    replace (n + s - d)%nat with (n + (s - d))%nat by lia. rewrite <- Nat.add_assoc.
    destruct (Nat.eqb_spec (s - d) s); [lia|]. destruct (Nat.eqb_spec (s + d) s); [lia|]. cbn in H1, H2. by rewrite H1, H2.
  - intros H i [Hi1 Hi2]%in_seq. rewrite (Hat i) by lia. destruct (Nat.eqb_spec i s) as [->|Hne]; [done|]. cbn.
    destruct (decide (i < s)%nat) as [Hlt|Hge].
    + specialize (H (s - i)%nat ltac:(apply in_seq; lia)). apply andb_true_iff in H as [H _].
      by replace (n + s - (s - i))%nat with (n + i)%nat in H by lia.
    + specialize (H (i - s)%nat ltac:(apply in_seq; lia)). apply andb_true_iff in H as [_ H].
      by replace (n + s + (i - s))%nat with (n + i)%nat in H by lia.
Qed.

Lemma at_app l l' i : (i < length l)%nat → at_ (l ++ l') i = at_ l i.
Proof. intros H. unfold at_. by rewrite lookup_app_l. Qed.
Lemma peak_app bad s l l' c : (c + s < length l)%nat → peak bad s (l ++ l') c = peak bad s l c.
Proof.
  intros H. unfold peak. apply eq_true_iff_eq. rewrite !forallb_forall.
  split; intros Hp d Hd; specialize (Hp d Hd); apply in_seq in Hd; rewrite !at_app in * by lia; done.
Qed.

Lemma padded_snoc s l x : padded s (l ++ [x]) = padded s l ++ [x].
Proof. unfold padded. by rewrite app_assoc. Qed.
Lemma length_padded s l : length (padded s l) = (length l + window_size s)%nat.
Proof. unfold padded. rewrite length_app, length_replicate. lia. Qed.

Lemma pivots_at_snoc s bars b n : (n <= length bars)%nat → pivots_at s (bars ++ [b]) n = pivots_at s bars n.
Proof.
  intros H. unfold pivots_at. rewrite !fmap_app. cbn [fmap list_fmap]. rewrite !padded_snoc.
  rewrite !peak_app, !at_app by (rewrite length_padded, length_fmap; unfold window_size; lia). done.
Qed.
Lemma pivots_snoc s bars b : pivots s (bars ++ [b]) = pivots s bars ++ pivots_at s (bars ++ [b]) (S (length bars)).
Proof.
  unfold pivots. rewrite length_app. cbn [length]. rewrite Nat.add_1_r, seq_S, fmap_app, concat_app. cbn. rewrite app_nil_r. f_equal.
  f_equal. apply list_fmap_ext. intros i n Hn. apply lookup_seq in Hn as [-> Hi]. apply pivots_at_snoc. lia.
Qed.

(** ** Records *)

Lemma records_from_app before ps qs : records_from before (ps ++ qs) = records_from before ps ++ records_from (before ++ ps) qs.
Proof.
  revert before. induction ps as [|x ps IH]; intros before; cbn; [by rewrite app_nil_r|]. by rewrite IH, <- !app_assoc.
Qed.
Lemma records_snoc ps x : records (ps ++ [x]) = records ps ++ (if sets_record ps x then [x.1] else []).
Proof. unfold records. rewrite records_from_app. cbn. by rewrite app_nil_r. Qed.
Lemma of_kind_snoc k ps x : of_kind k (ps ++ [x]) = of_kind k ps ++ (if bool_decide (x.1 = k) then [x.2] else []).
Proof.
  unfold of_kind. rewrite filter_app, fmap_app, filter_cons, filter_nil. case_decide; case_bool_decide; done.
Qed.
Lemma list_max_snoc l x : list_max (l ++ [x]) = Some (match list_max l with Some m => n_max m x | None => x end).
Proof. destruct l as [|y l]; [done|]. cbn. unfold max_element. by rewrite foldl_app. Qed.
Lemma list_min_snoc l x : list_min (l ++ [x]) = Some (match list_min l with Some m => n_min m x | None => x end).
Proof. destruct l as [|y l]; [done|]. cbn. unfold min_element. by rewrite foldl_app. Qed.

(** The structure after the pivots [ps]. *)
Record tracks (ps : list pivot) (s : structure_snapshot) : Prop := {
  tr_high : ss_last_swing_high s = last (of_kind true ps);
  tr_low : ss_last_swing_low s = last (of_kind false ps);
  tr_hh : ss_last_higher_high s = list_max (sp_price <$> of_kind true ps);
  tr_ll : ss_last_lower_low s = list_min (sp_price <$> of_kind false ps);
  tr_phase : ss_phase s = phase_after (records ps);
  tr_direction : ss_trend_direction s = direction_of (ss_phase s);
  tr_bos : ss_bos_count s = pred (length (records ps)) }.

Lemma records_empty ps : records ps = [] → ps = [].
Proof. by destruct ps as [|[[] p] ps]. Qed.

Lemma tracks_start : tracks [] new_structure.
Proof. by split. Qed.
Lemma tracks_count ps s : tracks ps s → tracks ps (increment_bars_since_counters s).
Proof. by intros []; split. Qed.

(** While one kind has not been seen, every record is of the other. *)
Lemma no_kind_records k ps : of_kind k ps = [] → Forall (λ r, r = negb k) (records ps).
Proof.
  induction ps as [|x ps IH] using rev_ind; [by constructor|]. rewrite of_kind_snoc, records_snoc.
  intros [H1 H2]%app_eq_nil. apply Forall_app. split; [by apply IH|].
  destruct (sets_record ps x); [|done]. constructor; [|done]. case_bool_decide; [done|]. by destruct x as [[] ?], k.
Qed.
Lemma other_phase k ps :
  of_kind k ps = [] → records ps ≠ [] → phase_after (records ps) = if k then phase_downtrend else phase_uptrend.
Proof.
  intros Hk Hne. pose proof (no_kind_records k ps Hk) as Hall. unfold phase_after.
  destruct (last (records ps)) as [r|] eqn:El; [|by apply last_None in El].
  apply last_Some in El as [l' El]. rewrite El in Hall. apply Forall_app in Hall as [_ Hall]. apply Forall_cons in Hall as [-> _].
  by destruct k.
Qed.
Lemma length_snoc {X} (l : list X) x : l ≠ [] → pred (length (l ++ [x])) = S (pred (length l)).
Proof. destruct l; [done|]. rewrite length_app. cbn. lia. Qed.

Lemma tracks_new_high ps s p : tracks ps s → tracks (ps ++ [(true, p)]) (set_swing_high p (after_high (sp_price p) s)).
Proof.
  intros T. pose proof (tr_hh ps s T) as Hh. unfold after_high. rewrite Hh.
  set (hh := list_max (sp_price <$> of_kind true ps)) in *.
  set (is_higher := match hh with Some m => (m <? sp_price p)%num | None => true end).
  assert (sets_record ps (true, p) = is_higher) as Hr by done.
  assert (list_max (sp_price <$> of_kind true (ps ++ [(true, p)])) = (if is_higher then Some (sp_price p) else hh)) as Hmax.
  { rewrite of_kind_snoc, bool_decide_true, fmap_app by done. cbn [fmap list_fmap snd]. rewrite list_max_snoc. fold hh.
    unfold is_higher. destruct hh as [m|]; [|done]. unfold n_max. by destruct (m <? sp_price p)%num. }
  assert (of_kind false (ps ++ [(true, p)]) = of_kind false ps) as Hlow by (by rewrite of_kind_snoc, bool_decide_false, app_nil_r).
  assert (last (of_kind true (ps ++ [(true, p)])) = Some p) as Hlast
    by (rewrite of_kind_snoc, bool_decide_true by done; apply last_snoc).
  pose proof (records_snoc ps (true, p)) as Hrec. rewrite Hr in Hrec. destruct T as [T1 T2 T3 T4 T5 T6 T7].
  destruct is_higher eqn:Ei; cbn [negb].
  - assert (phase_after (records (ps ++ [(true, p)])) = phase_uptrend) as Hph by (unfold phase_after; by rewrite Hrec, last_snoc).
    assert (records ps ≠ [] → bool_decide (is_Some hh) || is_phase phase_downtrend s || is_phase phase_ranging s = true) as Hbos.
    { intros Hne. destruct hh as [m|] eqn:Eh; [done|]. unfold is_phase. rewrite T5, (other_phase true ps); [done| |done].
      subst hh. by destruct (of_kind true ps). }
    destruct (decide (records ps = [])) as [Hemp|Hne].
    + pose proof (records_empty ps Hemp) as ->. assert (hh = None) as -> by done. cbn in T5. unfold is_phase. rewrite T5. cbn.
      split; cbn; try done; by rewrite ?Hlow.
    + rewrite (Hbos Hne). split; cbn [set_swing_high structure_broken set_extremes ss_last_swing_high ss_last_swing_low ss_last_higher_high
        ss_last_lower_low ss_phase ss_trend_direction ss_bos_count]; rewrite ?Hlow, ?Hmax, ?Hlast, ?Hph; try done.
      rewrite Hrec, length_snoc by done. by rewrite T7.
  - rewrite app_nil_r in Hrec. split; cbn; rewrite ?Hlow, ?Hmax, ?Hlast, ?Hrec; try done.
Qed.
Lemma tracks_new_low ps s p : tracks ps s → tracks (ps ++ [(false, p)]) (set_swing_low p (after_low (sp_price p) s)).
Proof.
  intros T. pose proof (tr_ll ps s T) as Hh. pose proof (tr_low ps s T) as Hl. unfold after_low. rewrite Hh, Hl.
  set (ll := list_min (sp_price <$> of_kind false ps)) in *.
  set (is_lower := match ll with Some m => (sp_price p <? m)%num | None => true end).
  assert (sets_record ps (false, p) = is_lower) as Hr by done.
  assert (ll = None → last (of_kind false ps) = None) as Hdead by (subst ll; by destruct (of_kind false ps)).
  replace (match ll with Some m => (sp_price p <? m)%num
           | None => match last (of_kind false ps) with Some q => (sp_price p <? sp_price q)%num | None => true end end) with is_lower
    by (unfold is_lower; destruct ll; [done|]; by rewrite Hdead).
  assert (list_min (sp_price <$> of_kind false (ps ++ [(false, p)])) = (if is_lower then Some (sp_price p) else ll)) as Hmax.
  { rewrite of_kind_snoc, bool_decide_true, fmap_app by done. cbn [fmap list_fmap snd]. rewrite list_min_snoc. fold ll.
    unfold is_lower. destruct ll as [m|]; [|done]. unfold n_min. by destruct (sp_price p <? m)%num. }
  assert (of_kind true (ps ++ [(false, p)]) = of_kind true ps) as Hhigh by (by rewrite of_kind_snoc, bool_decide_false, app_nil_r).
  assert (last (of_kind false (ps ++ [(false, p)])) = Some p) as Hlast
    by (rewrite of_kind_snoc, bool_decide_true by done; apply last_snoc).
  pose proof (records_snoc ps (false, p)) as Hrec. rewrite Hr in Hrec. destruct T as [T1 T2 T3 T4 T5 T6 T7].
  destruct is_lower eqn:Ei; cbn [negb].
  - assert (phase_after (records (ps ++ [(false, p)])) = phase_downtrend) as Hph by (unfold phase_after; by rewrite Hrec, last_snoc).
    assert (records ps ≠ [] → bool_decide (is_Some ll) || bool_decide (is_Some (last (of_kind false ps))) ||
              is_phase phase_uptrend s || is_phase phase_ranging s = true) as Hbos.
    { intros Hne. destruct ll as [m|] eqn:Eh; [done|]. unfold is_phase. rewrite T5, (other_phase false ps), Hdead; [done|done| |done].
      subst ll. by destruct (of_kind false ps). }
    destruct (decide (records ps = [])) as [Hemp|Hne].
    + pose proof (records_empty ps Hemp) as ->. assert (ll = None) as -> by done. cbn in T5. unfold is_phase. rewrite T5. cbn.
      split; cbn; try done; by rewrite ?Hhigh.
    + rewrite (Hbos Hne). split; cbn [set_swing_low structure_broken set_extremes ss_last_swing_high ss_last_swing_low ss_last_higher_high
        ss_last_lower_low ss_phase ss_trend_direction ss_bos_count]; rewrite ?Hhigh, ?Hmax, ?Hlast, ?Hph; try done.
      rewrite Hrec, length_snoc by done. by rewrite T7.
  - rewrite app_nil_r in Hrec. split; cbn; rewrite ?Hhigh, ?Hmax, ?Hlast, ?Hrec; try done.
Qed.

(** ** The detector *)

Definition run_swing (s h : nat) (bars : list (num * num)) : swing_detector :=
  foldl (λ d b, swing_update b.1 b.2 d) (mk_swing s h) bars.
Lemma trim_trim {X} h (l l' : list X) : trim_front h (trim_front h l ++ l') = trim_front h (l ++ l').
Proof.
  unfold trim_front. rewrite !length_app, length_drop.
  destruct (decide (length l <= h)%nat) as [H|H].
  - replace (length l - h)%nat with 0%nat by lia. rewrite drop_0. f_equal. lia.
  - replace (length l + length l' - h)%nat with (length l - h + (length l - (length l - h) + length l' - h))%nat by lia.
    rewrite <- drop_drop. by rewrite (drop_app_le l) by lia.
Qed.

(** The detector after some bars: its windows, its pivots and its structure. *)
Record detects (s h : nat) (bars : list (num * num)) (d : swing_detector) : Prop := {
  de_strength : sd_strength d = s ∧ sd_max_history d = h;
  de_count : sd_bar_count d = length bars;
  de_highs : sd_recent_highs d = drop (length bars) (padded s bars.*1);
  de_lows : sd_recent_lows d = drop (length bars) (padded s bars.*2);
  de_confirmed : sd_confirmed d = trim_front h (pivots s bars).*2;
  de_tracks : tracks (pivots s bars) (sd_state d) }.

(** In the middle of an update: the bar has been shifted in and [new] pivots confirmed. *)
Record confirming (s h n : nat) (highs lows : list num) (old new : list pivot) (d : swing_detector) : Prop := {
  cf_strength : sd_strength d = s ∧ sd_max_history d = h;
  cf_count : sd_bar_count d = n;
  cf_highs : sd_recent_highs d = drop n highs;
  cf_lows : sd_recent_lows d = drop n lows;
  cf_confirmed : sd_confirmed d = trim_front h old.*2 ++ new.*2;
  cf_tracks : tracks (old ++ new) (sd_state d) }.

Section Confirm.
Variables (s h n : nat) (highs lows : list num).
Hypotheses (Hhighs : length highs = (n + window_size s)%nat) (Hlows : length lows = (n + window_size s)%nat).

Definition point_of (l : list num) : swing_point := {| sp_price := at_ l (n + s); sp_bar_index := n - s; sp_strength := s |}.
Lemma center_is_point l d : sd_strength d = s → sd_bar_count d = n → center_point (drop n l) d = point_of l.
Proof using Type. intros Hs Hc. unfold center_point, point_of. by rewrite Hs, Hc, at_drop. Qed.

Lemma confirm_high old new d :
  confirming s h n highs lows old new d →
  confirming s h n highs lows old (new ++ if peak (λ x v, x >=? v)%num s highs (n + s) then [(true, point_of highs)] else [])
    (if is_strictly_higher (sd_recent_highs d) s s
     then let p := center_point (sd_recent_highs d) d in with_pivot p (set_swing_high p (after_high (sp_price p) (sd_state d))) d else d).
Proof using Hhighs.
  intros [[Hs Hh] Hc Hi Hl Hp Ht]. unfold is_strictly_higher. rewrite Hi, is_strictly_peak by done. rewrite center_is_point by done.
  destruct (peak _ _ _ _); [|by rewrite app_nil_r]. cbv zeta. split; cbn [with_pivot sd_strength sd_max_history sd_bar_count
    sd_recent_highs sd_recent_lows sd_confirmed sd_state]; try done.
  - by rewrite Hp, fmap_app, app_assoc.
  - rewrite app_assoc. by apply tracks_new_high.
Qed.
Lemma confirm_low old new d :
  confirming s h n highs lows old new d →
  confirming s h n highs lows old (new ++ if peak (λ x v, x <=? v)%num s lows (n + s) then [(false, point_of lows)] else [])
    (if is_strictly_lower (sd_recent_lows d) s s
     then let p := center_point (sd_recent_lows d) d in with_pivot p (set_swing_low p (after_low (sp_price p) (sd_state d))) d else d).
Proof using Hlows.
  intros [[Hs Hh] Hc Hi Hl Hp Ht]. unfold is_strictly_lower. rewrite Hl, is_strictly_peak by done. rewrite center_is_point by done.
  destruct (peak _ _ _ _); [|by rewrite app_nil_r]. cbv zeta. split; cbn [with_pivot sd_strength sd_max_history sd_bar_count
    sd_recent_highs sd_recent_lows sd_confirmed sd_state]; try done.
  - by rewrite Hp, fmap_app, app_assoc.
  - rewrite app_assoc. by apply tracks_new_low.
Qed.
End Confirm.

Lemma detects_step s h bars b d : detects s h bars d → detects s h (bars ++ [b]) (swing_update b.1 b.2 d).
Proof.
  intros [[Hs Hh] Hc Hhi Hlo Hp Ht]. set (n := S (length bars)).
  assert (length (bars ++ [b]) = n) as Hn by (rewrite length_app; cbn; lia).
  set (highs := padded s (bars ++ [b]).*1). set (lows := padded s (bars ++ [b]).*2).
  assert (length highs = (n + window_size s)%nat ∧ length lows = (n + window_size s)%nat) as [H1 H2].
  { subst highs lows. by rewrite !length_padded, !length_fmap, Hn. }
  assert (confirming s h n highs lows (pivots s bars) [] (shift_bar b.1 b.2 d)) as Hm.
  { split; cbn [shift_bar sd_strength sd_max_history sd_bar_count sd_recent_highs sd_recent_lows sd_confirmed sd_state];
      rewrite ?app_nil_r; try done; [by rewrite Hc| | |by apply tracks_count];
      rewrite ?Hhi, ?Hlo, shift_drop by (rewrite length_padded, length_fmap; unfold window_size; lia);
      subst highs lows; rewrite fmap_app; cbn [fmap list_fmap]; by rewrite padded_snoc. }
  unfold swing_update, try_confirm_pivot. set (d1 := shift_bar b.1 b.2 d) in *. clearbody d1.
  rewrite (proj1 (cf_strength _ _ _ _ _ _ _ _ Hm)), (cf_highs _ _ _ _ _ _ _ _ Hm), length_drop, H1.
  replace (n + window_size s - n)%nat with (window_size s) by lia. rewrite Nat.ltb_irrefl.
  rewrite <- (cf_highs _ _ _ _ _ _ _ _ Hm).
  apply (confirm_high _ _ _ _ _ H1), (confirm_low _ _ _ _ _ H2) in Hm. cbv zeta in Hm |- *.
  match type of Hm with confirming _ _ _ _ _ _ _ ?x => set (d3 := x) in *; clearbody d3 end.
  destruct Hm as [[Hs3 Hh3] Hc3 Hi3 Hl3 Hp3 Ht3].
  assert (pivots s (bars ++ [b]) = pivots s bars ++
    (([] ++ if peak (λ x v, x >=? v)%num s highs (n + s) then [(true, point_of s n highs)] else []) ++
     if peak (λ x v, x <=? v)%num s lows (n + s) then [(false, point_of s n lows)] else [])) as Ep by apply pivots_snoc.
  split; cbn [trim_history sd_strength sd_max_history sd_bar_count sd_recent_highs sd_recent_lows sd_confirmed sd_state];
    rewrite ?Hn; try done.
  - by rewrite Hp3, Hh3, trim_trim, Ep, !fmap_app.
  - by rewrite Ep.
Qed.

(** The swing detector is exact: after any bars, in any arithmetic, its pivots are the
    latest of those defined on the whole history (a bar strictly beyond [strength] bars on
    either side, where a window of zeros precedes the first bar), its last swings, highest
    high and lowest low are those of all pivots, its phase is the direction of the last
    pivot that set a record, so that it never ranges, and every record but the first is
    counted as a break of structure. *)
Theorem swing_exact s h bars :
  let d := run_swing s h bars in
  let ps := pivots s bars in
  sd_confirmed d = trim_front h ps.*2 ∧
  ss_last_swing_high (sd_state d) = last (of_kind true ps) ∧ ss_last_swing_low (sd_state d) = last (of_kind false ps) ∧
  ss_last_higher_high (sd_state d) = list_max (sp_price <$> of_kind true ps) ∧
  ss_last_lower_low (sd_state d) = list_min (sp_price <$> of_kind false ps) ∧
  swing_phase d = phase_after (records ps) ∧ ss_trend_direction (sd_state d) = direction_of (swing_phase d) ∧
  ss_bos_count (sd_state d) = pred (length (records ps)).
Proof.
  assert (detects s h bars (run_swing s h bars)) as [_ _ _ _ Hp [T1 T2 T3 T4 T5 T6 T7]]; [|by split_and!].
  induction bars as [|b bars IH] using rev_ind.
  - split; try done; unfold padded; by rewrite app_nil_r.
  - unfold run_swing. rewrite foldl_app. by apply detects_step.
Qed.

End Pivots.

(** ** Regimes *)

#[local] Existing Instance exact_arith.

Inductive regime_input :=
| given (ema_fast ema_slow : num) (swing_range atr : option num)
| observed (ema_fast ema_slow : num) (sd : swing_detector) (atr : average_true_range).
Definition regime_step (r : ema_regime_detector) (i : regime_input) : ema_regime_detector :=
  match i with
  | given f s sw atr => regime_update f s sw atr r
  | observed f s sd atr => regime_update_from f s sd atr r
  end.

(** What the detector reports of tight averages. *)
Definition tight_is_sideways (r : ema_regime_detector) : Prop :=
  er_regime r ≠ regime_contracted ∧ (er_contracted r = true → er_sideways r = true).
Lemma recompute_tight r : tight_is_sideways (recompute_flags_and_regime r).
Proof.
  unfold tight_is_sideways, recompute_flags_and_regime. cbn [er_regime er_contracted er_sideways].
  assert ((er_dist_pct r <? n_lit 8 10)%num = true → (er_dist_pct r <? n_lit 12 10)%num = true) as H.
  { tt_exact. intros H%Qltb_true. apply Qltb_true. eapply Qlt_trans; [exact H|done]. }
  destruct (er_dist_pct r <? n_lit 8 10)%num; [rewrite H by done|]; cbn [andb]; rewrite ?orb_true_r; [|split; [|done]].
  - split; [|done]. by repeat case_match.
  - by repeat case_match.
Qed.
Lemma regime_step_tight i r : tight_is_sideways r → tight_is_sideways (regime_step r i).
Proof.
  intros Hr. destruct i; cbn; unfold regime_update_from, regime_update; case_match; try done; apply recompute_tight.
Qed.

(** The regime detector never reports tight averages as contracted: over any inputs they
    are sideways first.  And the overload that asks the swing detector turns the rule
    "sideways when the swings stay within the true range" around: swings that do make no
    market sideways, and swings that do not make it sideways as soon as the true range
    exceeds the placeholder 999. *)
Theorem swing_rule_inverted n k ratio wp wm (ins : list regime_input) (f s v : num) (sd : swing_detector) (atr : average_true_range) :
  let r := foldl regime_step (mk_regime n k ratio wp wm) ins in
  let r' := regime_update_from f s sd atr r in
  er_regime r ≠ regime_contracted ∧
  ((0 < s)%Q → swing_ready sd = true → atr_ready atr = true → atr_last atr = Some v → (0 < v)%Q →
   er_sideways r' = er_contracted r' || (negb (is_sideways_by_swing_range n v sd) && Qltb (999 # 1) v)).
Proof.
  intros r r'. assert (tight_is_sideways r ∧ er_swing_n r = n) as [[Hr _] Hn].
  { subst r r'. clear. induction ins as [|i ins IH] using rev_ind; [by split|]. rewrite foldl_app. cbn [foldl].
    destruct IH as [IH1 IH2]. split; [by apply regime_step_tight|].
    destruct i; cbn; unfold regime_update_from, regime_update; by case_match. }
  split; [done|]. intros Hs Hsd Ha Hv Hpos. subst r'. unfold regime_update_from, regime_update.
  rewrite Hsd, Ha, Hv, Hn. cbn [default].
  assert ((s <=? n_zero)%num = false) as -> by (by apply Qleb_false).
  cbn [er_sideways er_contracted recompute_flags_and_regime er_swing_range er_atr er_dist_pct].
  assert (∀ x : Q, Qltb x (8 # 10) && Qltb x (12 # 10) = Qltb x (8 # 10)) as Hc.
  { intros x. destruct (Qltb_spec x (8 # 10)) as [H|]; [|done]. apply Qltb_lt. eapply Qlt_trans; [exact H|done]. }
  tt_exact. rewrite Hc, orb_comm. f_equal. unfold n_zero, id. tt_exact. rewrite (Qltb_lt _ _ Hpos), andb_true_r.
  by destruct (is_sideways_by_swing_range _ _ _).
Qed.

(** ** A short history *)

Definition falling : list (num * num) := [(10 # 1, 9 # 1); (9 # 1, 8 # 1); (8 # 1, 7 # 1)]%Q.
(** The first bar of a falling market is confirmed as a swing high although no bar
    precedes it: the zeros of the empty window stand in for the two bars before. *)
Lemma warmup_pivot :
  sd_confirmed (run_swing 2 32 falling) = [{| sp_price := (10 # 1)%Q; sp_bar_index := 1; sp_strength := 2 |}].
Proof. by vm_compute. Qed.

Definition calm_swings : swing_detector :=
  run_swing 1 32 [(10 # 1, 9 # 1); (20 # 1, 12 # 1); (11 # 1, 8 # 1); (15 # 1, 9 # 1); (14 # 1, 8 # 1); (13 # 1, 7 # 1)]%Q.
Definition range_of (v : Q) : average_true_range := (atr_update v 0%Q 0%Q (mk_atr 1)).2.

Definition px110 : num := (110 # 1)%Q.
Definition px100 : num := (100 # 1)%Q.

(** Swings within a true range of 1200 do not make the market sideways; with a range of
    two swings that is not within it, it is. *)
Lemma swing_rule_inverted_witness :
  er_sideways (regime_update_from px110 px100 calm_swings (range_of (1200 # 1)) (mk_regime 2 48 n_one n_one n_one)) = false ∧
  er_sideways (regime_update_from px110 px100 calm_swings (range_of (1200 # 1)) (mk_regime 9 48 n_one n_one n_one)) = true.
Proof.
  split.
  - destruct (swing_rule_inverted 2 48 n_one n_one n_one [] px110 px100 (1200 # 1)%Q calm_swings (range_of (1200 # 1)%Q)) as [_ H].
    specialize (H eq_refl eq_refl eq_refl eq_refl eq_refl). cbn [foldl] in H. rewrite H. by vm_compute.
  - destruct (swing_rule_inverted 9 48 n_one n_one n_one [] px110 px100 (1200 # 1)%Q calm_swings (range_of (1200 # 1)%Q)) as [_ H].
    specialize (H eq_refl eq_refl eq_refl eq_refl eq_refl). cbn [foldl] in H. rewrite H. by vm_compute.
Defined.
