(* ===== verification/Checkpoint.v ===== *)
(** * Portfolio checkpoints (src/src/engine/checkpoint.h and checkpoint.cpp)

    A checkpoint file holds the cash, the trade count and the open positions of the
    portfolio.  It is written in place, and read through a [std::ifstream] whose
    failures are looked at once, at the end: after a short read the locals keep what
    their memory held.  The stream is modelled with that junk as a parameter, and the
    theorems hold whatever it is. *)

From S2P Require Import Prelude Float64 Event EventSerial Arith Portfolio.
From Stdlib Require Import Strings.Byte SpecFloat.

Open Scope string_scope.
Open Scope list_scope.
Open Scope Z_scope.

#[local] Existing Instance double_arith.

Definition kMagic : Z := 1128811344.
Definition kVersion : Z := 1.

Record PosEntry := { pe_symbol : string; pe_qty : double; pe_cost_basis : double }.
Record CheckpointData := {
  cd_event_count : Z;
  cd_wall_ms : Z;
  cd_cash : double;
  cd_initial_balance : double;
  cd_total_trades : Z;
  cd_positions : list PosEntry }.

(** ** Writing *)

Section Write.
Context {HO : HashOrder}.

(** A position is counted when it is above the tolerance and skipped when it is not
    above it: a NaN quantity is neither. *)
Definition written (pos : position) : bool := negb (n_abs (qty pos) <=? n_eps)%num.
Definition write_position (x : string * position) : bytes :=
  write_str x.1 ++ write_f64 (qty x.2) ++ write_f64 (cost_basis x.2).

Definition file_of (p : portfolio) (event_count wall_ms : Z) : bytes :=
  write_u32 kMagic ++ write_u32 kVersion ++ write_u64 event_count ++ write_i64 wall_ms ++
  write_f64 (cash_ p) ++ write_f64 (initial_balance_ p) ++ write_u64 (u64 (total_trades_ p)) ++
  write_u32 (u32 (Z.of_nat (length (filter (λ x : string * position, is_open x.2 = true) (iter (positions_ p)))))) ++
  concat (write_position <$> filter (λ x : string * position, written x.2 = true) (iter (positions_ p))).
End Write.

(** What the disk does with a write: it cannot open the file, or keeps the first bytes
    of it (all of them when it works). *)
Inductive disk := disk_closed | disk_keeps (n : nat).
Definition write_file {HO : HashOrder} (d : disk) (p : portfolio) (event_count wall_ms : Z) (old : option bytes) : exc unit * option bytes :=
  match d with
  | disk_closed => (Throw "checkpoint: cannot open", old)
  | disk_keeps n =>
      let bs := file_of p event_count wall_ms in
      ((if (n <? length bs)%nat then Throw "checkpoint: write failed" else Ret ()), Some (take n bs))
  end.

(** ** Reading *)

Record istream := { is_rest : bytes; is_fail : bool; is_asked : nat }.

Section Read.
(** What uninitialised memory holds, by how many bytes were asked for before. *)
Variable junk : nat → byte.

Definition SR (X : Type) : Type := istream → exc (X * istream).
Definition sret {X} (x : X) : SR X := λ s, Ret (x, s).
Definition sbind {X Y} (r : SR X) (f : X → SR Y) : SR Y := λ s, '(x, s') ← r s; f x s'.
#[local] Notation "x <~ r ;; k" := (sbind r (λ x, k)) (at level 60, r at next level, right associativity).

(** [ifs.read] into a buffer that holds [init]. *)
Definition is_read (init : bytes) : SR bytes := λ s,
  let n := length init in
  let m := length (is_rest s) in
  Ret (if is_fail s then (init, {| is_rest := is_rest s; is_fail := true; is_asked := is_asked s + n |})
       else if (m <? n)%nat then (is_rest s ++ drop m init, {| is_rest := []; is_fail := true; is_asked := is_asked s + n |})
       else (take n (is_rest s), {| is_rest := drop n (is_rest s); is_fail := false; is_asked := is_asked s + n |})).
Definition is_uninit (n : nat) : SR bytes := λ s, is_read (junk <$> seq (is_asked s) n) s.

Definition cp_u32 : SR Z := bs <~ is_uninit 4 ;; sret (le_Z bs).
Definition cp_u64 : SR Z := bs <~ is_uninit 8 ;; sret (le_Z bs).
Definition cp_i64 : SR Z := bs <~ is_uninit 8 ;; sret (i64 (le_Z bs)).
Definition cp_f64 : SR double := bs <~ is_uninit 8 ;; sret (double_of_bits (le_Z bs)).
(** The length and the characters start as zeros. *)
Definition cp_str : SR string :=
  bs <~ is_read (replicate 2 x00) ;;
  cs <~ is_read (replicate (Z.to_nat (le_Z bs)) x00) ;; sret (String.string_of_list_byte cs).

Definition read_position : SR PosEntry :=
  sym <~ cp_str ;; q <~ cp_f64 ;; b <~ cp_f64 ;; sret {| pe_symbol := sym; pe_qty := q; pe_cost_basis := b |}.
Fixpoint read_positions (n : nat) : SR (list PosEntry) :=
  match n with
  | O => sret []
  | S n => x <~ read_position ;; xs <~ read_positions n ;; sret (x :: xs)
  end.

Definition s_check (b : bool) (msg : string) : SR unit := λ s, if b then Ret ((), s) else Throw msg.
Definition s_good : SR unit := λ s, if is_fail s then Throw "checkpoint: read truncated" else Ret ((), s).

Definition read_body : SR CheckpointData :=
  magic <~ cp_u32 ;; _ <~ s_check (magic =? kMagic) "checkpoint: bad magic" ;;
  version <~ cp_u32 ;; _ <~ s_check (version =? kVersion) ("checkpoint: unsupported version " +:+ pretty version) ;;
  ec <~ cp_u64 ;; wall <~ cp_i64 ;; cash <~ cp_f64 ;; init <~ cp_f64 ;; trades <~ cp_u64 ;;
  n <~ cp_u32 ;; ps <~ read_positions (Z.to_nat n) ;;
  sret {| cd_event_count := ec; cd_wall_ms := wall; cd_cash := cash; cd_initial_balance := init;
          cd_total_trades := trades; cd_positions := ps |}.

Definition read_file (file : option bytes) : exc CheckpointData :=
  match file with
  | None => Throw "checkpoint: cannot open"
  | Some bs => '(cp, _) ← (cp <~ read_body ;; _ <~ s_good ;; sret cp) {| is_rest := bs; is_fail := false; is_asked := 0 |}; Ret cp
  end.

(** ** CheckpointManager *)

Record checkpoint_config := { checkpoint_path : string; resume_checkpoint_path : string; checkpoint_interval_events : Z }.

(** The file system, and what it does with this write. *)
Definition write_if_due {HO : HashOrder} (cfg : checkpoint_config) (d : disk) (wall_ms : Z) (p : portfolio) (event_count : Z)
    (fs : gmap string bytes) : gmap string bytes :=
  let path := checkpoint_path cfg in
  let k := checkpoint_interval_events cfg in
  if bool_decide (path = "") then fs else
  if k =? 0 then fs else
  if (event_count =? 0) || negb (event_count mod k =? 0) then fs else
  match (write_file d p event_count wall_ms (fs !! path)).2 with Some bs => <[path := bs]> fs | None => fs end.

(** [emplace]: the first entry of a symbol stays. *)
Definition emplace_position (m : gmap string position) (e : PosEntry) : gmap string position :=
  match m !! pe_symbol e with
  | Some _ => m
  | None => <[pe_symbol e := {| qty := pe_qty e; cost_basis := pe_cost_basis e |}]> m
  end.
Definition pos_map (es : list PosEntry) : gmap string position := foldl emplace_position ∅ es.

Definition restore (cfg : checkpoint_config) (fs : gmap string bytes) (p : portfolio) : portfolio :=
  if bool_decide (resume_checkpoint_path cfg = "") then p else
  match read_file (fs !! resume_checkpoint_path cfg) with
  | Ret cp => restore_state (cd_cash cp) (cd_total_trades cp) (pos_map (cd_positions cp)) p
  | Throw _ => p
  end.
End Read.

#[local] Notation "x <~ r ;; k" := (sbind r (λ x, k)) (at level 60, r at next level, right associativity).

(** ** Reading back *)

Section Exact.
Variable junk : nat → byte.

(** A failed stream stays failed, or something is thrown. *)
Definition lost {X} (r : exc (X * istream)) : Prop := match r with Ret (_, s) => is_fail s = true | Throw _ => True end.

(** [r] takes exactly the bytes [w] and gives [x]; on less the stream fails. *)
Definition sreads {X} (r : SR X) (w : bytes) (x : X) : Prop :=
  (∀ k i, r {| is_rest := w ++ k; is_fail := false; is_asked := i |} =
          Ret (x, {| is_rest := k; is_fail := false; is_asked := i + length w |})) ∧
  (∀ n i, (n < length w)%nat → lost (r {| is_rest := take n w; is_fail := false; is_asked := i |})) ∧
  (∀ s, is_fail s = true → lost (r s)).
Definition sticky {X} (r : SR X) : Prop := ∀ s, is_fail s = true → lost (r s).

Lemma sticky_bind {X Y} (r : SR X) (f : X → SR Y) : sticky r → (∀ x, sticky (f x)) → sticky (sbind r f).
Proof.
  intros Hr Hf s Hs. unfold sbind. specialize (Hr s Hs). destruct (r s) as [[x s']|]; simpl in *; [by apply Hf|done].
Qed.
Lemma sticky_ret {X} (x : X) : sticky (sret x).
Proof. intros s Hs. exact Hs. Qed.
Lemma sticky_read n init : (∀ k, length (init k) = n) → sticky (λ s, is_read (init (is_asked s)) s).
Proof. intros _ s Hs. unfold is_read. by rewrite Hs. Qed.
Lemma sticky_uninit n : sticky (is_uninit junk n).
Proof. intros s Hs. unfold is_uninit, is_read. by rewrite Hs. Qed.
Lemma sticky_init bs : sticky (is_read bs).
Proof. intros s Hs. unfold is_read. by rewrite Hs. Qed.

Lemma sreads_bind {X Y} (r : SR X) (f : X → SR Y) w1 w2 x y :
  sreads r w1 x → (∀ x, sticky (f x)) → sreads (f x) w2 y → sreads (sbind r f) (w1 ++ w2) y.
Proof.
  intros (R1 & T1 & S1) Hf (R2 & T2 & S2). split_and!.
  - intros k i. unfold sbind. rewrite <- app_assoc, R1. cbn. rewrite R2, length_app. do 3 f_equal. lia.
  - intros n i Hn. rewrite length_app in Hn. unfold sbind. destruct (decide (n < length w1)%nat) as [Hlt|Hge].
    + rewrite take_app_le by lia. specialize (T1 n i Hlt).
      destruct (r _) as [[x' s']|]; cbn in *; [by apply Hf|done].
    + rewrite take_app_ge by lia. rewrite R1. cbn. apply T2. lia.
  - by apply (sticky_bind r f).
Qed.
Lemma sreads_ret {X} (x : X) : sreads (sret x) [] x.
Proof. split_and!; [intros; unfold sret; by rewrite Nat.add_0_r|simpl; lia|apply sticky_ret]. Qed.
Lemma sreads_map {X Y} (r : SR X) (g : X → Y) w x : sreads r w x → sreads (x <~ r ;; sret (g x)) w (g x).
Proof. intros H. rewrite <- (app_nil_r w). eapply sreads_bind; [done|intros; apply sticky_ret|apply sreads_ret]. Qed.

Lemma sreads_gen (init : nat → bytes) w : (∀ k, length (init k) = length w) → sreads (λ s, is_read (init (is_asked s)) s) w w.
Proof.
  intros Hl. split_and!.
  - intros k i. unfold is_read. cbn [is_rest is_fail is_asked]. rewrite Hl, length_app.
    destruct (Nat.ltb_spec (length w + length k) (length w)); [lia|]. by rewrite take_app_length, drop_app_length.
  - intros n i Hn. unfold is_read. cbn [is_rest is_fail is_asked]. rewrite Hl, length_take.
    destruct (Nat.ltb_spec (n `min` length w) (length w)); [done|lia].
  - apply (sticky_read (length w)). done.
Qed.
Lemma sreads_uninit n w : length w = n → sreads (is_uninit junk n) w w.
Proof. intros <-. apply (sreads_gen (λ k, junk <$> seq k (length w))). intros k. by rewrite length_fmap, length_seq. Qed.
Lemma sreads_init n w : length w = n → sreads (is_read (replicate n x00)) w w.
Proof. intros <-. apply (sreads_gen (λ _, replicate (length w) x00)). intros _. by rewrite length_replicate. Qed.

Lemma sreads_eq {X} (r : SR X) w x y : sreads r w x → x = y → sreads r w y.
Proof. by intros H <-. Qed.

Lemma sreads_u32 v : in_u 32 v → sreads (cp_u32 junk) (write_u32 v) v.
Proof.
  intros H. eapply sreads_eq; [apply (sreads_map _ le_Z), sreads_uninit, le_bytes_length|].
  unfold in_u in H. unfold write_u32, write_u64. rewrite le_Z_bytes. simpl. apply Z.mod_small. lia.
Qed.
Lemma sreads_u64 v : in_u 64 v → sreads (cp_u64 junk) (write_u64 v) v.
Proof.
  intros H. eapply sreads_eq; [apply (sreads_map _ le_Z), sreads_uninit, le_bytes_length|].
  unfold in_u in H. unfold write_u32, write_u64. rewrite le_Z_bytes. simpl. apply Z.mod_small. lia.
Qed.
Lemma sreads_i64 v : in_s 64 v → sreads (cp_i64 junk) (write_i64 v) v.
Proof.
  intros H. eapply sreads_eq; [apply (sreads_map _ (λ bs, i64 (le_Z bs))), sreads_uninit, le_bytes_length|].
  cbv beta. unfold write_i64, write_f64. rewrite le_Z_bytes. change (256 ^ Z.of_nat 8) with (2 ^ 64). fold (wrapu 64 v).
  by rewrite wraps_wrapu, wraps_id by (done || lia).
Qed.
Lemma sreads_f64 d : d_valid d → sreads (cp_f64 junk) (write_f64 d) d.
Proof.
  intros H. eapply sreads_eq; [apply (sreads_map _ (λ bs, double_of_bits (le_Z bs))), sreads_uninit, le_bytes_length|].
  cbv beta. unfold write_i64, write_f64. rewrite le_Z_bytes. pose proof (bits_of_double_range d H) as Hb. unfold in_u in Hb.
  rewrite Z.mod_small by (simpl; lia). by apply double_of_bits_of_double.
Qed.
End Exact.

(** A reader built from others keeps a failure. *)
Create HintDb stream.
#[export] Hint Resolve sticky_ret sticky_uninit sticky_init : stream.
Ltac stick :=
  repeat first
    [ progress unfold cp_u32, cp_u64, cp_i64, cp_f64, cp_str, read_position
    | match goal with |- ∀ _, _ => intros ? end
    | apply sticky_bind
    | solve [eauto 2 with stream] ].

(** ** Round trip *)

Section RoundTrip.
Context {HO : HashOrder}.
Variable junk : nat → byte.

(** A number is above the tolerance, or not above it, unless it is NaN. *)
Lemma compare_total x y : x ≠ S754_nan → y ≠ S754_nan → negb (d_le x y) = d_lt y x.
Proof.
  unfold d_le, d_lt, SFleb, SFltb.
  destruct x as [sx|sx| |sx mx ex], y as [sy|sy| |sy my ey]; intros Hx Hy; try done; try (by destruct sx); try (by destruct sy);
    try (by destruct sx, sy).
  assert (∀ p q, PosDef.Pos.compare_cont Eq p q = CompOpp (PosDef.Pos.compare_cont Eq q p)) as Hp.
  { intros p q. exact (Pos.compare_antisym q p). }
  cbn [SFcompare]. rewrite (Z.compare_antisym ex ey), (Hp my mx).
  destruct sx, sy; try done; destruct (ex ?= ey)%Z; try done; by destruct (PosDef.Pos.compare_cont Eq mx my).
Qed.

Lemma written_open (pos : position) : qty pos ≠ S754_nan → written pos = is_open pos.
Proof.
  intros H. unfold written, is_open. apply (compare_total (d_abs (qty pos)) (@n_eps double_arith)); [|done].
  by destruct (qty pos).
Qed.

(** What the format can hold. *)
Record storable (p : portfolio) : Prop := {
  sto_cash : d_valid (cash_ p);
  sto_initial : d_valid (initial_balance_ p);
  sto_trades : in_u 64 (total_trades_ p);
  sto_count : Z.of_nat (size (positions_ p)) < 2 ^ 32;
  sto_positions : map_Forall (λ sym pos, d_valid (qty pos) ∧ d_valid (cost_basis pos) ∧ qty pos ≠ S754_nan ∧
                                         Z.of_nat (String.length sym) < 2 ^ 16) (positions_ p) }.

Definition entry_of (x : string * position) : PosEntry :=
  {| pe_symbol := x.1; pe_qty := qty x.2; pe_cost_basis := cost_basis x.2 |}.
Definition live (p : portfolio) : list (string * position) :=
  filter (λ x : string * position, is_open x.2 = true) (iter (positions_ p)).
Definition data_of (p : portfolio) (event_count wall_ms : Z) : CheckpointData :=
  {| cd_event_count := event_count; cd_wall_ms := wall_ms; cd_cash := cash_ p; cd_initial_balance := initial_balance_ p;
     cd_total_trades := total_trades_ p; cd_positions := entry_of <$> live p |}.

Lemma list_byte_length s : length (String.list_byte_of_string s) = String.length s.
Proof. unfold String.list_byte_of_string. rewrite length_map. by induction s as [|c s IH]; simpl; [|rewrite IH]. Qed.

Lemma sreads_str s : Z.of_nat (String.length s) < 2 ^ 16 → sreads cp_str (write_str s) s.
Proof.
  intros H. unfold write_str. rewrite list_byte_length.
  assert (u16 (Z.of_nat (String.length s)) = Z.of_nat (String.length s)) as E by (apply wrapu_id; unfold in_u; lia).
  rewrite E, Nat2Z.id, <- list_byte_length, firstn_all. unfold cp_str.
  eapply sreads_bind; [apply sreads_init, le_bytes_length| |].
  { stick. }
  eapply sreads_eq; [apply (sreads_map _ String.string_of_list_byte), sreads_init|].
  - unfold write_u16. rewrite le_Z_bytes, Z.mod_small by (simpl; rewrite list_byte_length; lia). lia.
  - apply String.string_of_list_byte_of_string.
Qed.

Lemma sticky_position : sticky (read_position junk).
Proof. stick. Qed.
Lemma sticky_positions n : sticky (read_positions junk n).
Proof. induction n; cbn [read_positions]; stick. Qed.

Lemma sreads_position x :
  d_valid (qty x.2) → d_valid (cost_basis x.2) → Z.of_nat (String.length x.1) < 2 ^ 16 →
  sreads (read_position junk) (write_position x) (entry_of x).
Proof.
  intros Hq Hc Hs. unfold read_position, write_position.
  eapply sreads_bind; [by apply sreads_str|stick|].
  eapply sreads_bind; [by apply sreads_f64|stick|].
  by apply (sreads_map _ (λ b, {| pe_symbol := x.1; pe_qty := qty x.2; pe_cost_basis := b |})), sreads_f64.
Qed.

Definition fits (x : string * position) : Prop :=
  d_valid (qty x.2) ∧ d_valid (cost_basis x.2) ∧ qty x.2 ≠ S754_nan ∧ Z.of_nat (String.length x.1) < 2 ^ 16.

Lemma sreads_positions xs :
  Forall fits xs → sreads (read_positions junk (length xs)) (concat (write_position <$> xs)) (entry_of <$> xs).
Proof.
  induction 1 as [|x xs (Hq & Hc & _ & Hs) _ IH]; [apply sreads_ret|].
  rewrite !fmap_cons. cbn [length read_positions concat].
  eapply sreads_bind; [by apply sreads_position|pose proof sticky_positions; stick|].
  by apply (sreads_map _ (cons (entry_of x))).
Qed.

Lemma sticky_check b msg : sticky (s_check b msg).
Proof. intros s Hs. unfold s_check. by destruct b. Qed.
Lemma sreads_checked {X} b msg (r : SR X) w x : b = true → sreads r w x → sreads (_ <~ s_check b msg ;; r) w x.
Proof. intros -> (H1 & H2 & H3). split_and!; [apply H1|apply H2|apply H3]. Qed.

Lemma storable_fits p : storable p → Forall fits (iter (positions_ p)).
Proof.
  intros H. rewrite (iter_perm (positions_ p)). apply Forall_forall. intros [sym pos] Hin.
  apply elem_of_map_to_list in Hin. exact (sto_positions p H sym pos Hin).
Qed.
Lemma written_live p : storable p → filter (λ x : string * position, written x.2 = true) (iter (positions_ p)) = live p.
Proof.
  intros H. apply storable_fits in H. unfold live. induction H as [|x xs (_ & _ & Hn & _) _ IH]; [done|].
  rewrite !filter_cons, IH, written_open by done. done.
Qed.

Lemma live_count p : storable p → in_u 32 (Z.of_nat (length (live p))).
Proof.
  intros H. pose proof (sto_count p H) as Hs. pose proof (length_filter (λ x : string * position, is_open x.2 = true) (iter (positions_ p))).
  rewrite <- length_map_to_list, <- (iter_perm (positions_ p)) in Hs. unfold in_u, live. lia.
Qed.

Lemma pos_map_entries xs (m : gmap string position) :
  foldl emplace_position m (entry_of <$> xs) = m ∪ list_to_map xs.
Proof.
  revert m. induction xs as [|[k [q c]] xs IH]; intros m; cbn; [by rewrite (right_id_L ∅ (∪))|].
  rewrite IH. unfold emplace_position. cbn.
  destruct (m !! k) as [v|] eqn:E; apply map_eq; intros i; rewrite !lookup_union;
    destruct (decide (i = k)) as [->|]; rewrite ?lookup_insert_eq, ?lookup_insert_ne, ?E by done; try done; by destruct (list_to_map xs !! k).
Qed.
Lemma pos_map_live p : pos_map (entry_of <$> live p) = filter (λ x : string * position, is_open x.2 = true) (positions_ p).
Proof.
  unfold pos_map. rewrite pos_map_entries, (left_id_L ∅ (∪)), map_filter_alt. apply list_to_map_proper.
  - apply (sublist_NoDup _ (iter (positions_ p)).*1); [|apply fmap_sublist, sublist_filter].
    rewrite (iter_perm (positions_ p)). apply NoDup_fst_map_to_list.
  - unfold live. by rewrite (iter_perm (positions_ p)).
Qed.

Lemma sreads_body p ec wall :
  storable p → in_u 64 ec → in_s 64 wall → sreads (read_body junk) (file_of p ec wall) (data_of p ec wall).
Proof.
  intros H He Hw. unfold read_body, file_of. rewrite written_live by done. fold (live p).
  pose proof (live_count p H) as Hl. pose proof (sto_trades p H) as Ht. rewrite (wrapu_id 32), (wrapu_id 64) by done.
  assert (∀ n, sticky (read_positions junk n)) by apply sticky_positions.
  pose proof sticky_check. pose proof (sto_cash p H). pose proof (sto_initial p H).
  eapply sreads_bind; [by apply sreads_u32|stick|].
  apply sreads_checked; [done|].
  eapply sreads_bind; [by apply sreads_u32|stick|].
  apply sreads_checked; [done|].
  eapply sreads_bind; [by apply sreads_u64|stick|].
  eapply sreads_bind; [by apply sreads_i64|stick|].
  eapply sreads_bind; [by apply sreads_f64|stick|].
  eapply sreads_bind; [by apply sreads_f64|stick|].
  eapply sreads_bind; [by apply sreads_u64|stick|].
  eapply sreads_bind; [by apply sreads_u32|stick|]. rewrite Nat2Z.id.
  apply (sreads_map _ (λ ps, {| cd_event_count := ec; cd_wall_ms := wall; cd_cash := cash_ p; cd_initial_balance := initial_balance_ p;
    cd_total_trades := total_trades_ p; cd_positions := ps |})), sreads_positions.
  apply Forall_forall. intros x (_ & Hx)%list_elem_of_filter. exact (proj1 (Forall_forall _ _) (storable_fits p H) x Hx).
Qed.

Lemma read_whole bs cp : sreads (read_body junk) bs cp → read_file junk (Some bs) = Ret cp.
Proof.
  intros (H & _). unfold read_file, sbind. specialize (H [] 0%nat). rewrite app_nil_r in H. rewrite H. done.
Qed.
Lemma read_torn bs cp n : sreads (read_body junk) bs cp → (n < length bs)%nat → ∃ msg, read_file junk (Some (take n bs)) = Throw msg.
Proof.
  intros (_ & H & _) Hn. unfold read_file, sbind, s_good. specialize (H n 0%nat Hn).
  destruct (read_body junk _) as [[x s']|msg]; [|by exists msg]. cbn in *. rewrite H. by eexists.
Qed.

(** C25: A checkpoint resumes the portfolio it was written from: whatever stale memory the
    reader sees, a complete file restores cash, trade count and exactly the open
    positions, so that every symbol is open afterwards if and only if it was, and a file
    cut anywhere leaves the portfolio untouched; so does one the disk could not take
    whole when it was written. *)
Theorem checkpoint_resumes cfg wcfg d wall p ec fs q :
  storable p → in_u 64 ec → in_s 64 wall → resume_checkpoint_path cfg = checkpoint_path wcfg → checkpoint_path wcfg ≠ "" →
  0 < ec → 0 < checkpoint_interval_events wcfg → ec mod checkpoint_interval_events wcfg = 0 → d ≠ disk_closed →
  let whole := ∀ n, d = disk_keeps n → (length (file_of p ec wall) <= n)%nat in
  let r := restore junk cfg (write_if_due wcfg d wall p ec fs) q in
  (whole → r = restore_state (cash_ p) (total_trades_ p) (filter (λ x : string * position, is_open x.2 = true) (positions_ p)) q ∧
           ∀ sym, position_open sym r = position_open sym p) ∧
  (¬ whole → r = q).
Proof.
  intros H He Hw Hpath Hne Hpos Hk Hdue Hd whole r. pose proof (sreads_body p ec wall H He Hw) as Hb.
  destruct d as [|n]; [done|].
  assert (r = match read_file junk (Some (take n (file_of p ec wall))) with
              | Ret cp => restore_state (cd_cash cp) (cd_total_trades cp) (pos_map (cd_positions cp)) q
              | Throw _ => q
              end) as Hr.
  { subst r. unfold restore, write_if_due. rewrite Hpath, !bool_decide_false, Hdue by done.
    destruct (Z.eqb_spec (checkpoint_interval_events wcfg) 0) as [|_]; [lia|]. destruct (Z.eqb_spec ec 0) as [|_]; [lia|].
    cbn [write_file snd orb negb Z.eqb]. by rewrite lookup_insert_eq. }
  clearbody r. subst r. split.
  - intros Hwh. specialize (Hwh n eq_refl). rewrite take_ge by lia. rewrite (read_whole _ _ Hb : read_file junk (@Some (list byte) _) = _).
    cbn [data_of cd_cash cd_total_trades cd_positions].
    rewrite pos_map_live. split; [done|]. intros sym. unfold position_open. cbn [restore_state positions_].
    destruct (positions_ p !! sym) as [pos|] eqn:E; [|by rewrite map_lookup_filter_None_2 by auto].
    destruct (is_open pos) eqn:Ho; [by rewrite (map_lookup_filter_Some_2 _ _ _ pos)|].
    rewrite map_lookup_filter_None_2; [done|]. right. intros pos' E' Hp. simplify_eq. cbn [snd] in Hp. congruence.
  - intros Hnw. destruct (decide (n < length (file_of p ec wall))%nat) as [Hlt|Hge].
    + destruct (read_torn _ _ _ Hb Hlt) as [msg Hm]. by rewrite (Hm : read_file junk (@Some (list byte) _) = _).
    + destruct Hnw. intros ? [= <-]. lia.
Qed.
End RoundTrip.

(** ** A portfolio with a long, a short and a closed position *)

Definition pos (q c : Z) : position := {| qty := d_of_Z q; cost_basis := d_of_Z c |}.
Definition book_of_three : portfolio :=
  restore_state (d_of_Z 2500) 7 {["BTC" := pos 3 30000; "ETH" := pos (-2) 4000; "XRP" := pos 0 0]} (mk_portfolio (d_of_Z 10000)).
Definition stale (k : nat) : byte := if Nat.even k then x4b else xff.
Definition day_config : checkpoint_config :=
  {| checkpoint_path := "run.ckpt"; resume_checkpoint_path := "run.ckpt"; checkpoint_interval_events := 10 |}.

Lemma book_of_three_storable : storable book_of_three.
Proof.
  split; [done|done|done|done|]. intros sym x. cbn. intros Hx.
  repeat (apply lookup_insert_Some in Hx as [[<- <-]|[_ Hx]]; [done|]). apply lookup_singleton_Some in Hx as [<- <-]. done.
Qed.

(** Resuming the three positions, and resuming from a file of thirty bytes. *)
Lemma checkpoint_resumes_witness :
  (∀ sym, position_open sym (restore stale day_config (write_if_due day_config (disk_keeps 1000) 5 book_of_three 20 ∅) default_portfolio) =
          position_open sym book_of_three) ∧
  restore stale day_config (write_if_due day_config (disk_keeps 30) 5 book_of_three 20 ∅) default_portfolio = default_portfolio.
Proof.
  split.
  - apply (checkpoint_resumes stale day_config day_config (disk_keeps 1000) 5 book_of_three 20 ∅ default_portfolio);
      [apply book_of_three_storable|done..|]. intros n [= <-]. apply Nat.leb_le. vm_compute. done.
  - apply (checkpoint_resumes stale day_config day_config (disk_keeps 30) 5 book_of_three 20 ∅ default_portfolio);
      [apply book_of_three_storable|done..|]. intros Hw. specialize (Hw 30%nat eq_refl). apply Nat.leb_le in Hw. vm_compute in Hw. done.
Defined.
