(* ===== verification/EngineEvents.v ===== *)
(** * The engine's orders, fills and market data (src/src/core/event.h)

    Event.v models the events as the program stores and logs them, with doubles.
    The engine and its analytics compute with them through the arithmetic
    interface; here are the same members over it, with what each component reads
    of them. *)

From S2P Require Import Prelude Float64 Event Arith Portfolio Risk Exits ExitPolicy.

Open Scope string_scope.
Open Scope list_scope.
Open Scope Z_scope.

Section Events.
Context {A : Arith}.

(** ** Orders *)

Record order_msg := {
  om_ts : time_point;
  om_symbol : string;
  om_type : order_type;
  om_side : order_side;
  om_quantity : num;
  om_price : num;
  om_tif : time_in_force;
  om_stop_price : num;
  om_id : Z;
  om_eligible : time_point;
  om_strategy : string;
  om_opener : Z;
  om_recv_ns : Z }.

(** The constructor turns a good-till-cancel market order into an immediate one. *)
Definition mk_order_msg (ts : time_point) (symbol : string) (ot : order_type) (side : order_side) (quantity price : num)
    (tif : time_in_force) : order_msg :=
  {| om_ts := ts; om_symbol := symbol; om_type := ot; om_side := side; om_quantity := quantity; om_price := price;
     om_tif := if bool_decide (tif = tif_gtc) && bool_decide (ot = ot_market) then tif_ioc else tif;
     om_stop_price := n_zero; om_id := 0; om_eligible := ts; om_strategy := ""; om_opener := 0; om_recv_ns := 0 |}.

Definition om_set_id (id : Z) (o : order_msg) : order_msg :=
  {| om_ts := om_ts o; om_symbol := om_symbol o; om_type := om_type o; om_side := om_side o; om_quantity := om_quantity o;
     om_price := om_price o; om_tif := om_tif o; om_stop_price := om_stop_price o; om_id := id; om_eligible := om_eligible o;
     om_strategy := om_strategy o; om_opener := om_opener o; om_recv_ns := om_recv_ns o |}.
Definition om_set_eligible (ts : time_point) (o : order_msg) : order_msg :=
  {| om_ts := om_ts o; om_symbol := om_symbol o; om_type := om_type o; om_side := om_side o; om_quantity := om_quantity o;
     om_price := om_price o; om_tif := om_tif o; om_stop_price := om_stop_price o; om_id := om_id o; om_eligible := ts;
     om_strategy := om_strategy o; om_opener := om_opener o; om_recv_ns := om_recv_ns o |}.
Definition om_set_strategy (name : string) (o : order_msg) : order_msg :=
  {| om_ts := om_ts o; om_symbol := om_symbol o; om_type := om_type o; om_side := om_side o; om_quantity := om_quantity o;
     om_price := om_price o; om_tif := om_tif o; om_stop_price := om_stop_price o; om_id := om_id o; om_eligible := om_eligible o;
     om_strategy := name; om_opener := om_opener o; om_recv_ns := om_recv_ns o |}.
Definition om_set_opener (id : Z) (o : order_msg) : order_msg :=
  {| om_ts := om_ts o; om_symbol := om_symbol o; om_type := om_type o; om_side := om_side o; om_quantity := om_quantity o;
     om_price := om_price o; om_tif := om_tif o; om_stop_price := om_stop_price o; om_id := om_id o; om_eligible := om_eligible o;
     om_strategy := om_strategy o; om_opener := id; om_recv_ns := om_recv_ns o |}.
Definition om_set_recv_ns (ns : Z) (o : order_msg) : order_msg :=
  {| om_ts := om_ts o; om_symbol := om_symbol o; om_type := om_type o; om_side := om_side o; om_quantity := om_quantity o;
     om_price := om_price o; om_tif := om_tif o; om_stop_price := om_stop_price o; om_id := om_id o; om_eligible := om_eligible o;
     om_strategy := om_strategy o; om_opener := om_opener o; om_recv_ns := ns |}.
(** What the venue's filters rewrite. *)
Definition om_set_levels (quantity price stop_price : num) (o : order_msg) : order_msg :=
  {| om_ts := om_ts o; om_symbol := om_symbol o; om_type := om_type o; om_side := om_side o; om_quantity := quantity;
     om_price := price; om_tif := om_tif o; om_stop_price := stop_price; om_id := om_id o; om_eligible := om_eligible o;
     om_strategy := om_strategy o; om_opener := om_opener o; om_recv_ns := om_recv_ns o |}.

Definition om_is_stop (o : order_msg) : bool := bool_decide (om_type o = ot_stop) || bool_decide (om_type o = ot_stop_limit).

(** What the risk checks, the exit policy and the bracket closes carry of an order. *)
Definition risk_order_of (o : order_msg) : risk_order :=
  {| ro_ts := om_ts o; ro_symbol := om_symbol o; ro_side := om_side o; ro_quantity := om_quantity o; ro_price := om_price o |}.
Definition entry_order_of (o : order_msg) : entry_order :=
  {| eo_order_id := om_id o; eo_opener_order_id := om_opener o; eo_symbol := om_symbol o; eo_side := om_side o;
     eo_price := om_price o; eo_quantity := om_quantity o |}.
(** A bracket closes with a market order at the price it fired at. *)
Definition order_of_close (c : close_order) : order_msg :=
  om_set_strategy (co_strategy_name c) (om_set_opener (co_opener_order_id c)
    (mk_order_msg (co_ts c) (co_symbol c) ot_market (co_side c) (co_quantity c) (co_price c) tif_gtc)).

(** ** Fills *)

Record fill_msg := {
  fm_ts : time_point;
  fm_symbol : string;
  fm_order_id : Z;
  fm_side : order_side;
  fm_quantity : num;
  fm_price : num;
  fm_commission : num;
  fm_remaining : num;
  fm_fill_id : Z;
  fm_source : fill_source;
  fm_strategy : string;
  fm_opener : Z;
  fm_recv_ns : Z;
  fm_latency_ns : Z }.

Definition fm_attribute (name : string) (opener : Z) (f : fill_msg) : fill_msg :=
  {| fm_ts := fm_ts f; fm_symbol := fm_symbol f; fm_order_id := fm_order_id f; fm_side := fm_side f;
     fm_quantity := fm_quantity f; fm_price := fm_price f; fm_commission := fm_commission f; fm_remaining := fm_remaining f;
     fm_fill_id := fm_fill_id f; fm_source := fm_source f; fm_strategy := name; fm_opener := opener;
     fm_recv_ns := fm_recv_ns f; fm_latency_ns := fm_latency_ns f |}.
Definition fm_is_partial (f : fill_msg) : bool := (fm_remaining f >? n_zero)%num.

(** What the portfolio and the exit manager read of a fill. *)
Definition fill_of_msg (f : fill_msg) : fill :=
  {| f_ts := fm_ts f; f_symbol := fm_symbol f; f_order_id := fm_order_id f; f_side := fm_side f;
     f_quantity := fm_quantity f; f_price := fm_price f; f_commission := fm_commission f;
     f_strategy_name := fm_strategy f; f_opener_order_id := fm_opener f |}.

(** ** Market data *)

Record market_msg := {
  mm_ts : time_point;
  mm_symbol : string;
  mm_open : num;
  mm_high : num;
  mm_low : num;
  mm_close : num;
  mm_volume : Z;
  mm_recv_ns : Z }.

Record tick_msg := {
  tm_ts : time_point;
  tm_symbol : string;
  tm_price : num;
  tm_quantity : Z;
  tm_side : tick_side;
  tm_recv_ns : Z }.

Definition mm_set_recv_ns (ns : Z) (m : market_msg) : market_msg :=
  {| mm_ts := mm_ts m; mm_symbol := mm_symbol m; mm_open := mm_open m; mm_high := mm_high m; mm_low := mm_low m;
     mm_close := mm_close m; mm_volume := mm_volume m; mm_recv_ns := ns |}.
Definition mm_set_ts (ts : time_point) (m : market_msg) : market_msg :=
  {| mm_ts := ts; mm_symbol := mm_symbol m; mm_open := mm_open m; mm_high := mm_high m; mm_low := mm_low m;
     mm_close := mm_close m; mm_volume := mm_volume m; mm_recv_ns := mm_recv_ns m |}.
Definition tm_set_recv_ns (ns : Z) (t : tick_msg) : tick_msg :=
  {| tm_ts := tm_ts t; tm_symbol := tm_symbol t; tm_price := tm_price t; tm_quantity := tm_quantity t; tm_side := tm_side t;
     tm_recv_ns := ns |}.

End Events.
