(* ===== verification/Analytics.v ===== *)
(** * The engine's statistics (src/src/analytics/analytics.h, analytics.cpp)

    Analytics follows the event stream: it keeps its own cash and positions, the
    result of every closing fill, the equity curve, the drawdown and the returns,
    and answers the risk manager with a snapshot.  The members of the class are
    grouped here into records by what updates them together.  [log_], [sqrt_] and
    [pow_] are the C library's functions. *)

From Stdlib Require Import QArith Qabs Lqa.
From S2P Require Import Prelude Float64 Event Arith Portfolio Risk Exits ExitPolicy EngineEvents.

Open Scope string_scope.
Open Scope list_scope.
Open Scope Z_scope.

Section Analytics.
Context {A : Arith} {HO : HashOrder} (log_ sqrt_ : num → num) (pow_ : num → num → num).

Definition n_of (z : Z) : num := n_lit z 1.

(** ** Welford's running mean and squared deviations *)

Record welford_state := { w_n : Z; w_mean : num; w_m2 : num }.
Definition w_init : welford_state := {| w_n := 0; w_mean := n_zero; w_m2 := n_zero |}.
Definition w_update (x : num) (w : welford_state) : welford_state :=
  let n := i64 (w_n w + 1) in
  let delta := (x - w_mean w)%num in
  let mean := (w_mean w + delta / n_of n)%num in
  {| w_n := n; w_mean := mean; w_m2 := (w_m2 w + delta * (x - mean))%num |}.
Definition w_variance (w : welford_state) : num := if 1 <? w_n w then (w_m2 w / n_of (w_n w - 1))%num else n_zero.
Definition w_stddev (w : welford_state) : num := sqrt_ (w_variance w).

(** ** Curves of bounded length *)

Record equity_point := { ep_ts : time_point; ep_equity : num }.
Record curve := { cv_points : list equity_point; cv_stride : Z; cv_counter : Z }.
Definition new_curve : curve := {| cv_points := []; cv_stride := 1; cv_counter := 0 |}.

(** Every other point, the first one kept. *)
Fixpoint every_other {X} (l : list X) : list X :=
  match l with [] => [] | [x] => [x] | x :: _ :: l => x :: every_other l end.

Definition record_equity_point (max_points : Z) (pt : equity_point) (c : curve) : curve :=
  let counter := u64 (cv_counter c + 1) in
  if negb (counter mod cv_stride c =? 0)
  then {| cv_points := cv_points c; cv_stride := cv_stride c; cv_counter := counter |} else
  let points := cv_points c ++ [pt] in
  if max_points <? Z.of_nat (length points)
  then {| cv_points := every_other points; cv_stride := u64 (cv_stride c * 2); cv_counter := counter |}
  else {| cv_points := points; cv_stride := cv_stride c; cv_counter := counter |}.

(** ** The state *)

Record trade_record := {
  t_order_id : Z;
  t_side : order_side;
  t_quantity : num;
  t_fill_price : num;
  t_commission : num;
  t_intended_price : num;
  t_ts : time_point;
  t_pnl : num;
  t_symbol : string;
  t_strategy_name : string }.

Record sub_analytics := {
  sa_total_pnl : num;
  sa_trade_count : Z;
  sa_win_count : Z;
  sa_total_win : num;
  sa_total_loss : num }.
Definition sa_init : sub_analytics :=
  {| sa_total_pnl := n_zero; sa_trade_count := 0; sa_win_count := 0; sa_total_win := n_zero; sa_total_loss := n_zero |}.
Definition sa_win_rate (s : sub_analytics) : num :=
  if 0 <? sa_trade_count s then (n_of (sa_win_count s) / n_of (sa_trade_count s) * n_of 100)%num else n_zero.
Definition profit_factor (win loss : num) : num :=
  if (loss >? n_zero)%num then (win / loss)%num else if (win >? n_zero)%num then n_of 1000000000 else n_zero.
Definition sa_profit_factor (s : sub_analytics) : num := profit_factor (sa_total_win s) (sa_total_loss s).
Definition sa_add (pnl : num) (s : sub_analytics) : sub_analytics :=
  let won := (pnl >? n_zero)%num in
  {| sa_total_pnl := (sa_total_pnl s + pnl)%num;
     sa_trade_count := u64 (sa_trade_count s + 1);
     sa_win_count := if won then u64 (sa_win_count s + 1) else sa_win_count s;
     sa_total_win := if won then (sa_total_win s + pnl)%num else sa_total_win s;
     sa_total_loss := if won then sa_total_loss s else (sa_total_loss s + n_abs pnl)%num |}.

Record open_position := {
  op_qty : num;
  op_avg_entry : num;
  op_open_commission : num;
  op_last_price : num;
  op_entry_time : time_point }.
Definition op_init : open_position :=
  {| op_qty := n_zero; op_avg_entry := n_zero; op_open_commission := n_zero; op_last_price := n_zero; op_entry_time := 0 |}.
Definition op_mark (px : num) (p : open_position) : open_position :=
  {| op_qty := op_qty p; op_avg_entry := op_avg_entry p; op_open_commission := op_open_commission p;
     op_last_price := px; op_entry_time := op_entry_time p |}.
Definition op_is_open (p : open_position) : bool := (n_abs (op_qty p) >? n_eps)%num.

(** The cash and the positions. *)
Record ledger := { lg_cash : num; lg_positions : gmap string open_position; lg_funding_pnl : num }.
Definition position_of (sym : string) (l : ledger) : open_position := default op_init (lg_positions l !! sym).
Definition lg_set (cash : num) (sym : string) (p : open_position) (l : ledger) : ledger :=
  {| lg_cash := cash; lg_positions := <[sym := p]> (lg_positions l); lg_funding_pnl := lg_funding_pnl l |}.
Definition lg_mark (sym : string) (px : num) (l : ledger) : ledger := lg_set (lg_cash l) sym (op_mark px (position_of sym l)) l.
Definition position_value (l : ledger) : num :=
  foldl (λ v x, if op_is_open x.2 then (v + op_qty x.2 * op_last_price x.2)%num else v) n_zero (iter (lg_positions l)).
Definition lg_any_open (l : ledger) : bool := existsb (λ x, op_is_open x.2) (iter (lg_positions l)).
Definition lg_equity (l : ledger) : num := (lg_cash l + position_value l)%num.

(** The closed trades. *)
Record outcomes := {
  oc_trades : list trade_record;
  oc_returns : list num;
  oc_win_count : Z;
  oc_total_win : num;
  oc_total_loss : num;
  oc_largest_winner : num;
  oc_largest_loser : num;
  oc_per_symbol : gmap string sub_analytics;
  oc_per_strategy : gmap string sub_analytics;
  oc_holding_ms : num;
  oc_holding_count : Z }.
Definition oc_init : outcomes :=
  {| oc_trades := []; oc_returns := []; oc_win_count := 0; oc_total_win := n_zero; oc_total_loss := n_zero;
     oc_largest_winner := n_zero; oc_largest_loser := n_zero; oc_per_symbol := ∅; oc_per_strategy := ∅;
     oc_holding_ms := n_zero; oc_holding_count := 0 |}.

(** The execution quality. *)
Record slippage := {
  sl_orders : gmap Z num;
  sl_strategies : gmap Z string;
  sl_total : num;
  sl_signed : num;
  sl_adverse : num;
  sl_favorable : num;
  sl_count : Z;
  sl_adverse_count : Z;
  sl_favorable_count : Z;
  sl_total_orders : Z;
  sl_total_fills : Z;
  sl_latency : welford_state;
  sl_latency_min : Z;
  sl_latency_max : Z }.
Definition sl_init : slippage :=
  {| sl_orders := ∅; sl_strategies := ∅; sl_total := n_zero; sl_signed := n_zero; sl_adverse := n_zero; sl_favorable := n_zero;
     sl_count := 0; sl_adverse_count := 0; sl_favorable_count := 0; sl_total_orders := 0; sl_total_fills := 0;
     sl_latency := w_init; sl_latency_min := 0; sl_latency_max := 0 |}.

(** The returns from bar to bar, of the account and of holding the first price. *)
Record returns := {
  rt_curve : curve;
  rt_benchmark : curve;
  rt_prev_equity : num;
  rt_prev_bh_equity : num;
  rt_rolling : list num;
  rt_strategy : list num;
  rt_bench : list num;
  rt_stats : welford_state;
  rt_downside_sq_sum : num;
  rt_events : Z;
  rt_events_in_position : Z }.
Definition rt_init (cash bh : num) : returns :=
  {| rt_curve := new_curve; rt_benchmark := new_curve; rt_prev_equity := cash; rt_prev_bh_equity := bh; rt_rolling := [];
     rt_strategy := []; rt_bench := []; rt_stats := w_init; rt_downside_sq_sum := n_zero; rt_events := 0;
     rt_events_in_position := 0 |}.

(** The peak and the largest fall from it. *)
Record drawdown := { dd_peak : num; dd_max : num }.
Definition dd_update (equity : num) (d : drawdown) : drawdown :=
  let peak := if (equity >? dd_peak d)%num then equity else dd_peak d in
  let dd := ((peak - equity) / peak)%num in
  {| dd_peak := peak; dd_max := if (peak >? n_zero)%num && (dd >? dd_max d)%num then dd else dd_max d |}.

(** What the market shows. *)
Record market_view := {
  mv_last_close : num;
  mv_last_equity : num;
  mv_realized_vol : num;
  mv_last_mid : num;
  mv_spread_bps : num;
  mv_funding_rate : num;
  mv_first_price : num;
  mv_first_price_set : bool }.
Definition mv_init (last_close : num) : market_view :=
  {| mv_last_close := last_close; mv_last_equity := n_zero; mv_realized_vol := n_zero; mv_last_mid := n_zero;
     mv_spread_bps := n_zero; mv_funding_rate := n_zero; mv_first_price := n_zero; mv_first_price_set := false |}.

Record an_config := { ac_rolling_window : Z; ac_risk_free_rate : num; ac_periods_per_year : Z; ac_max_points : Z }.

Record Analytics := {
  an_cfg : an_config;
  an_initial_cash : num;
  an_ledger : ledger;
  an_outcomes : outcomes;
  an_slippage : slippage;
  an_returns : returns;
  an_drawdown : drawdown;
  an_view : market_view }.

Definition mk_Analytics (initial_cash : num) (rolling_window : Z) (risk_free_rate : num) (periods_per_year max_points : Z)
    : Analytics :=
  {| an_cfg := {| ac_rolling_window := rolling_window; ac_risk_free_rate := risk_free_rate;
                  ac_periods_per_year := if 0 <? periods_per_year then periods_per_year else 252;
                  ac_max_points := if 4 <? max_points then max_points else 4 |};
     an_initial_cash := initial_cash;
     an_ledger := {| lg_cash := initial_cash; lg_positions := ∅; lg_funding_pnl := n_zero |};
     an_outcomes := oc_init; an_slippage := sl_init; an_returns := rt_init initial_cash n_zero;
     an_drawdown := {| dd_peak := initial_cash; dd_max := n_zero |}; an_view := mv_init n_zero |}.

Definition an_reset (initial_cash : num) (a : Analytics) : Analytics :=
  {| an_cfg := an_cfg a;
     an_initial_cash := initial_cash;
     an_ledger := {| lg_cash := initial_cash; lg_positions := ∅; lg_funding_pnl := n_zero |};
     an_outcomes := oc_init; an_slippage := sl_init; an_returns := rt_init initial_cash initial_cash;
     an_drawdown := {| dd_peak := initial_cash; dd_max := n_zero |}; an_view := mv_init (mv_last_close (an_view a)) |}.

Definition with_ledger (l : ledger) (a : Analytics) : Analytics :=
  {| an_cfg := an_cfg a; an_initial_cash := an_initial_cash a; an_ledger := l; an_outcomes := an_outcomes a;
     an_slippage := an_slippage a; an_returns := an_returns a; an_drawdown := an_drawdown a; an_view := an_view a |}.
Definition with_outcomes (o : outcomes) (a : Analytics) : Analytics :=
  {| an_cfg := an_cfg a; an_initial_cash := an_initial_cash a; an_ledger := an_ledger a; an_outcomes := o;
     an_slippage := an_slippage a; an_returns := an_returns a; an_drawdown := an_drawdown a; an_view := an_view a |}.
Definition with_slippage (s : slippage) (a : Analytics) : Analytics :=
  {| an_cfg := an_cfg a; an_initial_cash := an_initial_cash a; an_ledger := an_ledger a; an_outcomes := an_outcomes a;
     an_slippage := s; an_returns := an_returns a; an_drawdown := an_drawdown a; an_view := an_view a |}.
Definition with_returns (r : returns) (a : Analytics) : Analytics :=
  {| an_cfg := an_cfg a; an_initial_cash := an_initial_cash a; an_ledger := an_ledger a; an_outcomes := an_outcomes a;
     an_slippage := an_slippage a; an_returns := r; an_drawdown := an_drawdown a; an_view := an_view a |}.
Definition with_drawdown (d : drawdown) (a : Analytics) : Analytics :=
  {| an_cfg := an_cfg a; an_initial_cash := an_initial_cash a; an_ledger := an_ledger a; an_outcomes := an_outcomes a;
     an_slippage := an_slippage a; an_returns := an_returns a; an_drawdown := d; an_view := an_view a |}.
Definition with_view (v : market_view) (a : Analytics) : Analytics :=
  {| an_cfg := an_cfg a; an_initial_cash := an_initial_cash a; an_ledger := an_ledger a; an_outcomes := an_outcomes a;
     an_slippage := an_slippage a; an_returns := an_returns a; an_drawdown := an_drawdown a; an_view := v |}.

(** ** Market data *)

Definition mv_update (close last_equity vol mid spread rate first : num) (set : bool) : market_view :=
  {| mv_last_close := close; mv_last_equity := last_equity; mv_realized_vol := vol; mv_last_mid := mid;
     mv_spread_bps := spread; mv_funding_rate := rate; mv_first_price := first; mv_first_price_set := set |}.
Definition mv_set_equity (e : num) (v : market_view) : market_view :=
  mv_update (mv_last_close v) e (mv_realized_vol v) (mv_last_mid v) (mv_spread_bps v) (mv_funding_rate v)
    (mv_first_price v) (mv_first_price_set v).
Definition mv_set_spread (s : num) (v : market_view) : market_view :=
  mv_update (mv_last_close v) (mv_last_equity v) (mv_realized_vol v) (mv_last_mid v) s (mv_funding_rate v)
    (mv_first_price v) (mv_first_price_set v).
Definition set_current_funding_rate_8h (rate : num) (a : Analytics) : Analytics :=
  let v := an_view a in
  with_view (mv_update (mv_last_close v) (mv_last_equity v) (mv_realized_vol v) (mv_last_mid v) (mv_spread_bps v) rate
               (mv_first_price v) (mv_first_price_set v)) a.

(** The smoothed absolute log return. *)
Definition vol_after (mid : num) (v : market_view) : num :=
  if (mv_last_mid v >? n_zero)%num && (mid >? n_zero)%num then
    let ret := log_ (mid / mv_last_mid v)%num in
    (n_lit 2 100 * n_abs ret + (n_one - n_lit 2 100) * mv_realized_vol v)%num
  else mv_realized_vol v.
(** A price is seen: the last close, the volatility and the first price. *)
Definition mv_price (px : num) (v : market_view) : market_view :=
  mv_update px (mv_last_equity v) (vol_after px v) px (mv_spread_bps v) (mv_funding_rate v)
    (if mv_first_price_set v then mv_first_price v else px) true.

(** The synchronous mark of the threaded engine. *)
Definition an_on_mark (symbol : string) (price : num) (a : Analytics) : Analytics :=
  let l := lg_mark symbol price (an_ledger a) in
  let equity := lg_equity l in
  let v := an_view a in
  with_drawdown (dd_update equity (an_drawdown a))
    (with_view (mv_update price equity (mv_realized_vol v) (mv_last_mid v) (mv_spread_bps v) (mv_funding_rate v)
                  (mv_first_price v) (mv_first_price_set v)) (with_ledger l a)).

(** One return of the account and of the benchmark. *)
Definition add_return (c : an_config) (equity : num) (bh : option num) (r : returns) : returns :=
  let strat_ret := ((equity - rt_prev_equity r) / rt_prev_equity r)%num in
  let mar := if 0 <? ac_periods_per_year c then (ac_risk_free_rate c / n_of (ac_periods_per_year c))%num else n_zero in
  let shortfall := (strat_ret - mar)%num in
  let rolling := rt_rolling r ++ [strat_ret] in
  {| rt_curve := rt_curve r; rt_benchmark := rt_benchmark r; rt_prev_equity := rt_prev_equity r;
     rt_prev_bh_equity := rt_prev_bh_equity r;
     rt_rolling := if ac_rolling_window c <? Z.of_nat (length rolling) then tail rolling else rolling;
     rt_strategy := rt_strategy r ++ [strat_ret];
     rt_bench := match bh with
                 | Some b => if (rt_prev_bh_equity r >? n_zero)%num
                             then rt_bench r ++ [((b - rt_prev_bh_equity r) / rt_prev_bh_equity r)%num] else rt_bench r
                 | None => rt_bench r end;
     rt_stats := w_update strat_ret (rt_stats r);
     rt_downside_sq_sum := if (shortfall <? n_zero)%num then (rt_downside_sq_sum r + shortfall * shortfall)%num
                           else rt_downside_sq_sum r;
     rt_events := rt_events r; rt_events_in_position := rt_events_in_position r |}.

(** The curves and counters of one bar. *)
Definition rt_on_bar (c : an_config) (ts : time_point) (equity : num) (bh : option num) (in_position : bool) (r : returns)
    : returns :=
  let r := {| rt_curve := record_equity_point (ac_max_points c) {| ep_ts := ts; ep_equity := equity |} (rt_curve r);
              rt_benchmark := rt_benchmark r; rt_prev_equity := rt_prev_equity r; rt_prev_bh_equity := rt_prev_bh_equity r;
              rt_rolling := rt_rolling r; rt_strategy := rt_strategy r; rt_bench := rt_bench r; rt_stats := rt_stats r;
              rt_downside_sq_sum := rt_downside_sq_sum r; rt_events := u64 (rt_events r + 1);
              rt_events_in_position := if in_position then u64 (rt_events_in_position r + 1)
                                       else rt_events_in_position r |} in
  let r := if (rt_prev_equity r >? n_zero)%num && (1 <? rt_events r) then add_return c equity bh r else r in
  {| rt_curve := rt_curve r;
     rt_benchmark := match bh with
                     | Some b => record_equity_point (ac_max_points c) {| ep_ts := ts; ep_equity := b |} (rt_benchmark r)
                     | None => rt_benchmark r end;
     rt_prev_equity := equity;
     rt_prev_bh_equity := match bh with Some b => b | None => rt_prev_bh_equity r end;
     rt_rolling := rt_rolling r; rt_strategy := rt_strategy r; rt_bench := rt_bench r; rt_stats := rt_stats r;
     rt_downside_sq_sum := rt_downside_sq_sum r; rt_events := rt_events r; rt_events_in_position := rt_events_in_position r |}.

Definition an_on_market (m : market_msg) (a : Analytics) : Analytics :=
  let v := mv_price (mm_close m) (an_view a) in
  let l := lg_mark (mm_symbol m) (mm_close m) (an_ledger a) in
  let equity := lg_equity l in
  let bh := if (mv_first_price v >? n_zero)%num
            then Some (an_initial_cash a * (mm_close m / mv_first_price v))%num else None in
  let r := rt_on_bar (an_cfg a) (mm_ts m) equity bh (lg_any_open l) (an_returns a) in
  with_drawdown (dd_update equity (an_drawdown a))
    (with_returns r (with_view (mv_set_equity equity v) (with_ledger l a))).

Definition an_on_tick (t : tick_msg) (a : Analytics) : Analytics :=
  let l := lg_mark (tm_symbol t) (tm_price t) (an_ledger a) in
  with_view (mv_set_equity (lg_equity l) (mv_price (tm_price t) (an_view a))) (with_ledger l a).

Definition an_on_funding (ts : time_point) (cash_delta : num) (a : Analytics) : Analytics :=
  let l := {| lg_cash := (lg_cash (an_ledger a) + cash_delta)%num; lg_positions := lg_positions (an_ledger a);
              lg_funding_pnl := (lg_funding_pnl (an_ledger a) + cash_delta)%num |} in
  let equity := lg_equity l in
  let r := an_returns a in
  with_returns {| rt_curve := record_equity_point (ac_max_points (an_cfg a)) {| ep_ts := ts; ep_equity := equity |} (rt_curve r);
                  rt_benchmark := rt_benchmark r; rt_prev_equity := rt_prev_equity r; rt_prev_bh_equity := rt_prev_bh_equity r;
                  rt_rolling := rt_rolling r; rt_strategy := rt_strategy r; rt_bench := rt_bench r; rt_stats := rt_stats r;
                  rt_downside_sq_sum := rt_downside_sq_sum r; rt_events := rt_events r;
                  rt_events_in_position := rt_events_in_position r |}
    (with_view (mv_set_equity equity (an_view a)) (with_ledger l a)).

(** The best levels of a snapshot give the spread. *)
Definition an_on_l2_snapshot (bids asks : list (num * Z)) (a : Analytics) : Analytics :=
  match bids, asks with
  | (best_bid, _) :: _, (best_ask, _) :: _ =>
      if (best_ask >? best_bid)%num && (best_bid >? n_zero)%num then
        let mid := ((best_ask + best_bid) / n_of 2)%num in
        with_view (mv_set_spread ((best_ask - best_bid) / mid * n_of 10000)%num (an_view a)) a
      else a
  | _, _ => a
  end.

(** ** Orders and fills *)

Definition an_on_order (o : order_msg) (a : Analytics) : Analytics :=
  let s := an_slippage a in
  with_slippage {| sl_orders := <[om_id o := om_price o]> (sl_orders s);
                   sl_strategies := if bool_decide (om_strategy o = "") then sl_strategies s
                                    else <[om_id o := om_strategy o]> (sl_strategies s);
                   sl_total := sl_total s; sl_signed := sl_signed s; sl_adverse := sl_adverse s;
                   sl_favorable := sl_favorable s; sl_count := sl_count s; sl_adverse_count := sl_adverse_count s;
                   sl_favorable_count := sl_favorable_count s; sl_total_orders := u64 (sl_total_orders s + 1);
                   sl_total_fills := sl_total_fills s; sl_latency := sl_latency s; sl_latency_min := sl_latency_min s;
                   sl_latency_max := sl_latency_max s |} a.

Definition side_sign (s : order_side) : num := if bool_decide (s = side_buy) then n_one else (- n_one)%num.

(** The counters, the latency and the slippage of a fill. *)
Definition sl_on_fill (f : fill_msg) (s : slippage) : slippage :=
  let lat := fm_latency_ns f in
  let timed := 0 <? lat in
  let w := if timed then w_update (n_of lat) (sl_latency s) else sl_latency s in
  let known := sl_orders s !! fm_order_id f in
  let raw := (fm_price f - default n_zero known)%num in
  let slip := (raw * side_sign (fm_side f))%num in
  let seen := bool_decide (is_Some known) in
  let adverse := seen && (slip >? n_zero)%num in
  let favorable := seen && negb (slip >? n_zero)%num && (slip <? n_zero)%num in
  {| sl_orders := sl_orders s; sl_strategies := sl_strategies s;
     sl_total := if seen then (sl_total s + n_abs raw)%num else sl_total s;
     sl_signed := if seen then (sl_signed s + slip)%num else sl_signed s;
     sl_adverse := if adverse then (sl_adverse s + slip)%num else sl_adverse s;
     sl_favorable := if favorable then (sl_favorable s + - slip)%num else sl_favorable s;
     sl_count := if seen then u64 (sl_count s + 1) else sl_count s;
     sl_adverse_count := if adverse then u64 (sl_adverse_count s + 1) else sl_adverse_count s;
     sl_favorable_count := if favorable then u64 (sl_favorable_count s + 1) else sl_favorable_count s;
     sl_total_orders := sl_total_orders s; sl_total_fills := u64 (sl_total_fills s + 1);
     sl_latency := w;
     sl_latency_min := if timed && ((w_n w =? 1) || (lat <? sl_latency_min s)) then lat else sl_latency_min s;
     sl_latency_max := if timed && (sl_latency_max s <? lat) then lat else sl_latency_max s |}.

(** A fill against an open position closes up to its size; the result is the gross
    gain less the closing commission and the share of the opening one. *)
Record closing := { cl_cash : num; cl_pos : open_position; cl_left : num; cl_pnl : option num }.

Definition close_part (f : fill_msg) (cash : num) (pos : open_position) : closing :=
  let sgn := side_sign (fm_side f) in
  if (n_abs (op_qty pos) >? n_eps)%num && (op_qty pos * sgn <? n_zero)%num then
    let pos_sign := if (op_qty pos >? n_zero)%num then n_one else (- n_one)%num in
    let prev_abs := n_abs (op_qty pos) in
    let close_qty := n_min prev_abs (fm_quantity f) in
    let gross := ((fm_price f - op_avg_entry pos) * close_qty * pos_sign)%num in
    let close_comm := (fm_commission f * (close_qty / fm_quantity f))%num in
    let open_share := (op_open_commission pos * (close_qty / prev_abs))%num in
    let qty := (op_qty pos + sgn * close_qty)%num in
    let flat := (n_abs qty <? n_eps)%num in
    {| cl_cash := (cash + (- sgn * close_qty * fm_price f - close_comm))%num;
       cl_pos := {| op_qty := if flat then n_zero else qty;
                    op_avg_entry := if flat then n_zero else op_avg_entry pos;
                    op_open_commission := if flat then n_zero else (op_open_commission pos - open_share)%num;
                    op_last_price := op_last_price pos; op_entry_time := op_entry_time pos |};
       cl_left := (fm_quantity f - close_qty)%num;
       cl_pnl := Some (gross - close_comm - open_share)%num |}
  else {| cl_cash := cash; cl_pos := pos; cl_left := fm_quantity f; cl_pnl := None |}.

(** What is left opens or extends the position at the average price. *)
Definition open_part (f : fill_msg) (c : closing) : num * open_position :=
  if (cl_left c >? n_eps)%num then
    let sgn := side_sign (fm_side f) in
    let pos := cl_pos c in
    let open_comm := (fm_commission f * (cl_left c / fm_quantity f))%num in
    let prev_abs := n_abs (op_qty pos) in
    ((cl_cash c - (sgn * cl_left c * fm_price f + open_comm))%num,
     {| op_qty := (op_qty pos + sgn * cl_left c)%num;
        op_avg_entry := ((op_avg_entry pos * prev_abs + fm_price f * cl_left c) / (prev_abs + cl_left c))%num;
        op_open_commission := (op_open_commission pos + open_comm)%num;
        op_last_price := op_last_price pos;
        op_entry_time := if (prev_abs <? n_eps)%num then fm_ts f else op_entry_time pos |})
  else (cl_cash c, cl_pos c).

(** The result of a close enters the totals, its symbol's and its strategy's. *)
Definition oc_close (sym strategy : string) (pnl : num) (held : Z) (o : outcomes) : outcomes :=
  let won := (pnl >? n_zero)%num in
  {| oc_trades := oc_trades o; oc_returns := oc_returns o ++ [pnl];
     oc_win_count := if won then u64 (oc_win_count o + 1) else oc_win_count o;
     oc_total_win := if won then (oc_total_win o + pnl)%num else oc_total_win o;
     oc_total_loss := if won then oc_total_loss o else (oc_total_loss o + n_abs pnl)%num;
     oc_largest_winner := if won && (pnl >? oc_largest_winner o)%num then pnl else oc_largest_winner o;
     oc_largest_loser := if negb won && (pnl <? oc_largest_loser o)%num then pnl else oc_largest_loser o;
     oc_per_symbol := <[sym := sa_add pnl (default sa_init (oc_per_symbol o !! sym))]> (oc_per_symbol o);
     oc_per_strategy := if bool_decide (strategy = "") then oc_per_strategy o
                        else <[strategy := sa_add pnl (default sa_init (oc_per_strategy o !! strategy))]> (oc_per_strategy o);
     oc_holding_ms := (oc_holding_ms o + n_of (Z.quot held 1000000))%num;
     oc_holding_count := u64 (oc_holding_count o + 1) |}.

Definition oc_record (t : trade_record) (o : outcomes) : outcomes :=
  {| oc_trades := oc_trades o ++ [t]; oc_returns := oc_returns o; oc_win_count := oc_win_count o;
     oc_total_win := oc_total_win o; oc_total_loss := oc_total_loss o; oc_largest_winner := oc_largest_winner o;
     oc_largest_loser := oc_largest_loser o; oc_per_symbol := oc_per_symbol o; oc_per_strategy := oc_per_strategy o;
     oc_holding_ms := oc_holding_ms o; oc_holding_count := oc_holding_count o |}.

Definition an_on_fill (f : fill_msg) (a : Analytics) : Analytics :=
  let s := an_slippage a in
  let strat := default "" (sl_strategies s !! fm_order_id f) in
  let pos := op_mark (fm_price f) (position_of (fm_symbol f) (an_ledger a)) in
  let c := close_part f (lg_cash (an_ledger a)) pos in
  let o := match cl_pnl c with
           | Some pnl => oc_close (fm_symbol f) strat pnl (fm_ts f - op_entry_time pos) (an_outcomes a)
           | None => an_outcomes a end in
  let opened := open_part f c in
  let rec_ := {| t_order_id := fm_order_id f; t_side := fm_side f; t_quantity := fm_quantity f; t_fill_price := fm_price f;
                 t_commission := fm_commission f; t_intended_price := default n_zero (sl_orders s !! fm_order_id f);
                 t_ts := fm_ts f; t_pnl := default n_zero (cl_pnl c); t_symbol := fm_symbol f; t_strategy_name := strat |} in
  with_outcomes (oc_record rec_ o)
    (with_ledger (lg_set opened.1 (fm_symbol f) opened.2 (an_ledger a)) (with_slippage (sl_on_fill f s) a)).

(** The events as the dispatch of [on_event] tells them apart.  A signal falls
    through to the snapshot's case, where it is cast to a type it does not have:
    the behaviour is undefined, [None]. *)
Inductive an_event :=
| av_market (m : market_msg)
| av_tick (t : tick_msg)
| av_order (o : order_msg)
| av_fill (f : fill_msg)
| av_signal
| av_l2_snapshot (bids asks : list (num * Z))
| av_l2_update
| av_cancel
| av_amend
| av_rejection
| av_funding (ts : time_point) (cash_delta : num).

Definition an_on_event (e : an_event) (a : Analytics) : option Analytics :=
  match e with
  | av_market m => Some (an_on_market m a)
  | av_tick t => Some (an_on_tick t a)
  | av_order o => Some (an_on_order o a)
  | av_fill f => Some (an_on_fill f a)
  | av_signal => None
  | av_l2_snapshot bids asks => Some (an_on_l2_snapshot bids asks a)
  | av_l2_update | av_cancel | av_amend | av_rejection => Some a
  | av_funding ts d => Some (an_on_funding ts d a)
  end.

(** ** What is read back *)

Definition risk_view (a : Analytics) : risk_snapshot :=
  let ts := oc_trades (an_outcomes a) in
  {| sn_max_drawdown := (dd_max (an_drawdown a) * n_of 100)%num;
     total_orders := sl_total_orders (an_slippage a);
     Risk.total_fills := sl_total_fills (an_slippage a);
     last_trade_pnl := match last ts with Some t => t_pnl t | None => n_zero end;
     has_last_trade := bool_decide (is_Some (last ts));
     last_trade_seq := Z.of_nat (length ts);
     sn_equity := mv_last_equity (an_view a);
     realized_vol_1h := mv_realized_vol (an_view a);
     current_spread_bps := mv_spread_bps (an_view a);
     current_funding_8h_rate := mv_funding_rate (an_view a) |}.

Definition realized_pnl (a : Analytics) : num := (oc_total_win (an_outcomes a) - oc_total_loss (an_outcomes a))%num.
Definition max_drawdown_pct (a : Analytics) : num := (dd_max (an_drawdown a) * n_of 100)%num.
Definition win_rate_pct (a : Analytics) : num :=
  let n := length (oc_returns (an_outcomes a)) in
  if (n =? 0)%nat then n_zero else (n_of (oc_win_count (an_outcomes a)) / n_of (Z.of_nat n) * n_of 100)%num.

Definition equity_tail (n : nat) (a : Analytics) : list num :=
  let c := cv_points (rt_curve (an_returns a)) in
  ep_equity <$> drop (length c - n `min` length c) c.

(** The falls from the running peak. *)
Fixpoint drawdowns (peak : num) (es : list num) : list num :=
  match es with
  | [] => []
  | eq :: es =>
      let peak := if (eq >? peak)%num then eq else peak in
      (if (peak >? n_zero)%num then n_max n_zero ((peak - eq) / peak * n_of 100)%num else n_zero) :: drawdowns peak es
  end.
Definition drawdown_tail (n : nat) (a : Analytics) : list num :=
  let c := cv_points (rt_curve (an_returns a)) in
  drop (length c - n `min` length c) (drawdowns n_zero (ep_equity <$> c)).

Definition n_total (l : list num) : num := foldl n_add n_zero l.

Definition rf_per_period (c : an_config) : num :=
  let ppy := n_of (ac_periods_per_year c) in if (ppy >? n_zero)%num then (ac_risk_free_rate c / ppy)%num else n_zero.

Definition rolling_sharpe (a : Analytics) : num :=
  let rs := rt_rolling (an_returns a) in
  if (length rs <? 2)%nat then n_zero else
  let count := Z.of_nat (length rs) in
  let mean := (n_total rs / n_of count)%num in
  let excess := (mean - rf_per_period (an_cfg a))%num in
  let sq_sum := foldl (λ s r, s + (r - mean) * (r - mean))%num n_zero rs in
  let stddev := sqrt_ (sq_sum / n_of (count - 1))%num in
  let ann := sqrt_ (n_of (ac_periods_per_year (an_cfg a))) in
  if (stddev >? n_zero)%num then (excess / stddev * ann)%num else n_zero.

Fixpoint compound_drawdown (peak equity max_dd : num) (rs : list num) : num :=
  match rs with
  | [] => max_dd
  | r :: rs =>
      let equity := (equity * (n_one + r))%num in
      let peak := if (equity >? peak)%num then equity else peak in
      let dd := ((peak - equity) / peak)%num in
      compound_drawdown peak equity (if (peak >? n_zero)%num && (dd >? max_dd)%num then dd else max_dd) rs
  end.
Definition rolling_max_drawdown (a : Analytics) : num :=
  match rt_rolling (an_returns a) with [] => n_zero | rs => compound_drawdown n_one n_one n_zero rs end.

(** ** The report *)

Record benchmark_stats := { bs_alpha : num; bs_beta : num; bs_information_ratio : num; bs_tracking_error : num }.
Definition no_benchmark : benchmark_stats :=
  {| bs_alpha := n_zero; bs_beta := n_zero; bs_information_ratio := n_zero; bs_tracking_error := n_zero |}.
Definition benchmark_of (ss bs : list num) : benchmark_stats :=
  if (1 <? length ss)%nat && (length bs =? length ss)%nat then
    let n := Z.of_nat (length ss) in
    let s_mean := (n_total ss / n_of n)%num in
    let b_mean := (n_total bs / n_of n)%num in
    let cov := (foldl (λ c x, c + (x.1 - s_mean) * (x.2 - b_mean))%num n_zero (zip ss bs) / n_of (n - 1))%num in
    let var_b := (foldl (λ c b, c + (b - b_mean) * (b - b_mean))%num n_zero bs / n_of (n - 1))%num in
    let beta := if (var_b >? n_zero)%num then (cov / var_b)%num else n_zero in
    let te_sum := foldl (λ c x, c + (x.1 - x.2 - (s_mean - b_mean)) * (x.1 - x.2 - (s_mean - b_mean)))%num n_zero (zip ss bs) in
    let te := sqrt_ (te_sum / n_of (n - 1))%num in
    {| bs_alpha := (s_mean - beta * b_mean)%num; bs_beta := beta;
       bs_information_ratio := if (te >? n_zero)%num then ((s_mean - b_mean) / te)%num else n_zero; bs_tracking_error := te |}
  else no_benchmark.

Record AnalyticsReport := {
  ar_initial_equity : num;
  ar_final_equity : num;
  ar_cumulative_return : num;
  ar_annualized_return : num;
  ar_sharpe_ratio : num;
  ar_sortino_ratio : num;
  ar_max_drawdown : num;
  ar_calmar_ratio : num;
  ar_avg_slippage : num;
  ar_avg_slippage_signed : num;
  ar_avg_adverse_slippage : num;
  ar_avg_favorable_slippage : num;
  ar_slippage : slippage;
  ar_time_in_market_pct : num;
  ar_avg_holding_period_ms : num;
  ar_total_trades : Z;
  ar_winning_trades : Z;
  ar_win_rate : num;
  ar_avg_win : num;
  ar_avg_loss : num;
  ar_profit_factor : num;
  ar_largest_winner : num;
  ar_largest_loser : num;
  ar_rolling_sharpe : num;
  ar_rolling_max_drawdown : num;
  ar_buy_and_hold_return : num;
  ar_strategy_vs_benchmark : num;
  ar_benchmark : benchmark_stats;
  ar_per_symbol : gmap string sub_analytics;
  ar_per_strategy : gmap string sub_analytics;
  ar_equity_curve : list equity_point;
  ar_trade_returns : list num;
  ar_trades : list trade_record;
  ar_benchmark_curve : list equity_point }.

Definition avg_of (total : num) (count : Z) : num := if 0 <? count then (total / n_of count)%num else n_zero.

(** The Sharpe and Sortino ratios of the returns. *)
Definition ratios (c : an_config) (r : returns) : num * num :=
  let w := rt_stats r in
  if 1 <? w_n w then
    let ann := sqrt_ (n_of (ac_periods_per_year c)) in
    let excess := (w_mean w - rf_per_period c)%num in
    let downside := sqrt_ (rt_downside_sq_sum r / n_of (w_n w))%num in
    (if (w_stddev w >? n_zero)%num then (excess / w_stddev w * ann)%num else n_zero,
     if (downside >? n_zero)%num then (excess / downside * ann)%num
     else if (excess >? n_zero)%num then n_of 1000000000 else n_zero)
  else (n_zero, n_zero).

(** [full]: with the curves and the trades. *)
Definition report (full : bool) (a : Analytics) : AnalyticsReport :=
  let o := an_outcomes a in
  let s := an_slippage a in
  let r := an_returns a in
  let v := an_view a in
  let c := an_cfg a in
  let final := lg_equity (an_ledger a) in
  let cumulative := ((final - an_initial_cash a) / an_initial_cash a)%num in
  let trades := Z.of_nat (length (oc_returns o)) in
  let some := 0 <? trades in
  let ppy := n_of (ac_periods_per_year c) in
  let periods := n_of (Z.of_nat (length (rt_strategy r))) in
  let max_dd := (dd_max (an_drawdown a) * n_of 100)%num in
  let annualized := if (periods >? n_zero)%num && (ppy >? n_zero)%num && (cumulative >? - n_one)%num
                    then (pow_ (n_one + cumulative) (ppy / periods) - n_one)%num else cumulative in
  let hold := if mv_first_price_set v && (mv_last_close v >? n_zero)%num && (mv_first_price v >? n_zero)%num
              then ((mv_last_close v - mv_first_price v) / mv_first_price v)%num else n_zero in
  {| ar_initial_equity := an_initial_cash a; ar_final_equity := final; ar_cumulative_return := cumulative;
     ar_annualized_return := annualized;
     ar_sharpe_ratio := (ratios c r).1; ar_sortino_ratio := (ratios c r).2; ar_max_drawdown := max_dd;
     ar_calmar_ratio := if (max_dd >? n_zero)%num then (annualized * n_of 100 / max_dd)%num else n_zero;
     ar_avg_slippage := avg_of (sl_total s) (sl_count s); ar_avg_slippage_signed := avg_of (sl_signed s) (sl_count s);
     ar_avg_adverse_slippage := avg_of (sl_adverse s) (sl_adverse_count s);
     ar_avg_favorable_slippage := avg_of (sl_favorable s) (sl_favorable_count s); ar_slippage := s;
     ar_time_in_market_pct := if 0 <? rt_events r
                              then (n_of (rt_events_in_position r) / n_of (rt_events r) * n_of 100)%num else n_zero;
     ar_avg_holding_period_ms := avg_of (oc_holding_ms o) (oc_holding_count o);
     ar_total_trades := trades;
     ar_winning_trades := if some then oc_win_count o else 0;
     ar_win_rate := if some then (n_of (oc_win_count o) / n_of trades * n_of 100)%num else n_zero;
     ar_avg_win := if some then avg_of (oc_total_win o) (oc_win_count o) else n_zero;
     ar_avg_loss := if some then avg_of (oc_total_loss o) (trades - oc_win_count o) else n_zero;
     ar_profit_factor := if some then profit_factor (oc_total_win o) (oc_total_loss o) else n_zero;
     ar_largest_winner := if some then oc_largest_winner o else n_zero;
     ar_largest_loser := if some then oc_largest_loser o else n_zero;
     ar_rolling_sharpe := rolling_sharpe a; ar_rolling_max_drawdown := (rolling_max_drawdown a * n_of 100)%num;
     ar_buy_and_hold_return := hold; ar_strategy_vs_benchmark := (cumulative - hold)%num;
     ar_benchmark := benchmark_of (rt_strategy r) (rt_bench r);
     ar_per_symbol := oc_per_symbol o; ar_per_strategy := oc_per_strategy o;
     ar_equity_curve := if full then cv_points (rt_curve r) else [];
     ar_trade_returns := if full then oc_returns o else [];
     ar_trades := if full then oc_trades o else [];
     ar_benchmark_curve := if full then cv_points (rt_benchmark r) else [] |}.
Definition snapshot (a : Analytics) : AnalyticsReport := report false a.
Definition generate_report (a : Analytics) : AnalyticsReport := report true a.

End Analytics.
