(* ===== verification/AnalyticsTheorems.v ===== *)
(** * The statistics agree with the accounts

    In exact arithmetic the ledger of Analytics.v is the portfolio's: the same cash
    and the same quantities after every fill, the same cost of what is open, and a
    reported result of every close equal to what the portfolio realises.  The
    running statistics are compared with their definitions over the whole history. *)

From Stdlib Require Import QArith Qabs Lqa Qfield.
From S2P Require Import Prelude Float64 Event Arith Portfolio Risk Exits ExitPolicy EngineEvents Indicators IndicatorTheorems Analytics.

Open Scope string_scope.
Open Scope list_scope.
Open Scope Z_scope.

#[local] Existing Instance exact_arith.

(** ** One fill *)

(** The cost of what is open, as the portfolio keeps it: commissions included. *)
Definition op_cost (p : open_position) : Q := (op_qty p * op_avg_entry p + op_open_commission p)%Q.

(** A fill that lands on flat or stays clear of it by more than the tolerance. *)
Definition clear_of_dust (f : fill) (q : Q) : Prop :=
  (n_eps < f_quantity f)%Q ∧
  (opposes f q →
   (f_quantity f + n_eps < Qabs q)%Q ∨ (f_quantity f == Qabs q)%Q ∨ (Qabs q + n_eps < f_quantity f)%Q).
Definition no_dust_held (q : Q) : Prop := (q == 0)%Q ∨ (n_eps < Qabs q)%Q.

Lemma clear_no_dust f q : clear_of_dust f q → no_dust f q.
Proof. intros [H1 H2]. split; [done|]. intros Ho. destruct (H2 Ho) as [H|[H|H]]; [left|by right; left|right; right]; lra. Qed.

(** The step of the ledger on one fill: the cash and quantity move by the fill, an
    opening keeps cash and cost together, a close adds its result, which is what the
    portfolio realises. *)
Record fill_step (f : fill_msg) (cash : Q) (pos : open_position) (cash' : Q) (pos' : open_position) (pnl : option Q) : Prop := {
  fs_cash : (cash' == cash - signed_quantity (fill_of_msg f) * fm_price f - fm_commission f)%Q;
  fs_qty : (op_qty pos' == op_qty pos + signed_quantity (fill_of_msg f))%Q;
  fs_held : no_dust_held (op_qty pos');
  fs_open : ¬ opposes (fill_of_msg f) (op_qty pos) → pnl = None ∧ (cash' + op_cost pos' == cash + op_cost pos)%Q;
  fs_close : opposes (fill_of_msg f) (op_qty pos) → ∃ x : Q, pnl = Some x ∧ (cash' + op_cost pos' == cash + op_cost pos + x)%Q ∧
    (x == realised (fill_of_msg f) {| qty := op_qty pos; cost_basis := op_cost pos |})%Q }.

Section Step.
Variables (ts : time_point) (sym : string) (oid : Z) (sd : order_side) (fq p cm rem : Q) (fid : Z) (src : fill_source)
  (st : string) (opn rn ln : Z) (cash q avg oc lp : Q) (et : time_point) (σ : Q).
Let f : fill_msg := {| fm_ts := ts; fm_symbol := sym; fm_order_id := oid; fm_side := sd; fm_quantity := fq; fm_price := p;
  fm_commission := cm; fm_remaining := rem; fm_fill_id := fid; fm_source := src; fm_strategy := st; fm_opener := opn;
  fm_recv_ns := rn; fm_latency_ns := ln |}.
Let pos : open_position := {| op_qty := q; op_avg_entry := avg; op_open_commission := oc; op_last_price := lp; op_entry_time := et |}.
Let ε : Q := 1 # 1000000000000.
Hypothesis Hσ : side_sign sd = σ.
Hypothesis Hq : (ε < fq)%Q.

Lemma sign_value : (σ = 1 ∨ σ = - (1))%Q.
Proof using Hσ. rewrite <- Hσ. unfold side_sign. case_bool_decide; [by left|by right]. Qed.
Lemma opposes_sign : opposes (fill_of_msg f) q ↔ (q * σ < 0)%Q.
Proof using Hσ. rewrite <- Hσ. unfold opposes, side_sign, f. cbn [fill_of_msg f_side fm_side]. case_bool_decide; unfold n_one; tt_exact; split; lra. Qed.
Lemma signed_sign : (signed_quantity (fill_of_msg f) == σ * fq)%Q.
Proof using Hσ. rewrite <- Hσ. unfold signed_quantity, side_sign, f. cbn [fill_of_msg f_side fm_side f_quantity fm_quantity].
  case_bool_decide; unfold n_one; tt_exact; ring. Qed.
Lemma realised_sign (cb c : Q) : (c == n_min fq (Qabs q))%Q →
  (realised (fill_of_msg f) {| qty := q; cost_basis := cb |} == - σ * (c * (p - cb / q)) - cm * (c / fq))%Q.
Proof using Hσ.
  intros Ec. rewrite (realised_eq _ _ _ c) by done. rewrite <- Hσ. unfold side_sign, f. cbn [fill_of_msg f_side fm_side f_quantity fm_quantity f_price fm_price f_commission fm_commission].
  case_bool_decide; unfold n_one; tt_exact; ring.
Qed.

Let held (q' avg' oc' : Q) : open_position :=
  {| op_qty := q'; op_avg_entry := avg'; op_open_commission := oc'; op_last_price := lp; op_entry_time := et |}.

Lemma opens_nothing cash' pos' (left' : Q) pnl : (left' <= 0)%Q →
  open_part f {| cl_cash := cash'; cl_pos := pos'; cl_left := left'; cl_pnl := pnl |} = (cash', pos').
Proof using. intros Hl. unfold open_part. cbn [cl_left]. unfold n_eps at 1. tt_exact. rewrite (Qltb_ge _ left') by lra. done. Qed.
Lemma opens_left (cash' q' avg' oc' left' : Q) pnl : (ε < left')%Q →
  ∃ t, open_part f {| cl_cash := cash'; cl_pos := held q' avg' oc'; cl_left := left'; cl_pnl := pnl |} =
    ((cash' - (σ * left' * p + cm * (left' / fq)))%Q,
     {| op_qty := (q' + σ * left')%Q; op_avg_entry := ((avg' * Qabs q' + p * left') / (Qabs q' + left'))%Q;
        op_open_commission := (oc' + cm * (left' / fq))%Q; op_last_price := lp; op_entry_time := t |}).
Proof using Hσ.
  intros Hl. unfold open_part, f, held. cbn [cl_left cl_cash cl_pos fm_side fm_quantity fm_commission fm_price fm_ts op_qty
    op_avg_entry op_open_commission op_last_price op_entry_time]. rewrite Hσ. unfold n_eps at 1. tt_exact.
  rewrite (Qltb_lt _ left') by done. by eexists.
Qed.

(** A close, of [c] and leaving [flat] or not. *)
Lemma closes_part (c : Q) : no_dust_held q → (q * σ < 0)%Q → n_min (Qabs q) fq = c →
  close_part f cash pos =
    {| cl_cash := (cash + (- σ * c * p - cm * (c / fq)))%Q;
       cl_pos := if Qltb (Qabs (q + σ * c)) ε then held 0 0 0 else held (q + σ * c) avg (oc - oc * (c / Qabs q));
       cl_left := (fq - c)%Q;
       cl_pnl := Some ((p - avg) * c * (if Qltb 0 q then 1 else - (1)) - cm * (c / fq) - oc * (c / Qabs q))%Q |}.
Proof using Hσ.
  intros Hh Ho Ec. unfold close_part, f, pos, held.
  cbn [cl_left cl_cash cl_pos fm_side fm_quantity fm_commission fm_price fm_ts op_qty op_avg_entry op_open_commission op_last_price op_entry_time].
  rewrite Hσ. tt_exact. rewrite Ec. unfold no_dust_held in Hh. rewrite (Qltb_lt _ (Qabs q)) by (destruct Hh as [Hh|Hh]; [exfalso; rewrite Hh in Ho; lra|done]).
  unfold n_zero at 1. tt_exact. rewrite (Qltb_lt (q * σ)) by done. cbn [andb].
  change (@n_eps exact_arith) with ε. unfold n_zero, n_one. tt_exact. by destruct (Qltb (Qabs (q + σ * c)) ε).
Qed.

Lemma step_along : (0 <= q * σ)%Q →
  fill_step f cash pos (open_part f (close_part f cash pos)).1 (open_part f (close_part f cash pos)).2 (cl_pnl (close_part f cash pos)).
Proof using Hσ Hq.
  intros Ha. pose proof sign_value as Hs.
  assert (close_part f cash pos = {| cl_cash := cash; cl_pos := pos; cl_left := fq; cl_pnl := None |}) as ->.
  { unfold close_part, f, pos. cbn [fm_side op_qty fm_quantity]. rewrite Hσ. unfold n_zero at 1. tt_exact.
    rewrite (Qltb_ge (q * σ)) by done. by rewrite andb_false_r. }
  destruct (opens_left cash q avg oc fq None Hq) as [t Et]. change (held q avg oc) with pos in Et. rewrite Et. clear Et.
  assert (0 < ε)%Q as He by (unfold ε; lra).
  assert (Qabs q == σ * q)%Q as Habs by (destruct Hs as [-> | ->]; tt_abs q; lra).
  split; cbn [fst snd op_qty pos].
  - rewrite signed_sign. unfold f. cbn [fm_price fm_commission]. tt_exact. field. lra.
  - by rewrite signed_sign.
  - right. unfold n_eps. tt_exact. change (ε < Qabs (q + σ * fq))%Q. destruct Hs as [-> | ->]; [tt_abs (q + 1 * fq)%Q|tt_abs (q + - (1) * fq)%Q]; lra.
  - intros _. split; [done|]. unfold op_cost. cbn [op_qty op_avg_entry op_open_commission pos]. tt_exact. rewrite Habs.
    destruct Hs as [-> | ->]; field; lra.
  - rewrite opposes_sign. intros Hlt. lra.
Qed.

(** Short of flat. *)
Lemma step_reduces : no_dust_held q → (q * σ < 0)%Q → (fq + ε < Qabs q)%Q →
  fill_step f cash pos (open_part f (close_part f cash pos)).1 (open_part f (close_part f cash pos)).2 (cl_pnl (close_part f cash pos)).
Proof using Hσ Hq.
  intros Hh Ho Hlt. pose proof sign_value as Hs. assert (0 < ε)%Q as He by (unfold ε; lra).
  assert (Qabs q == - (σ * q))%Q as Habs by (destruct Hs as [-> | ->]; tt_abs q; lra).
  assert (n_min (Qabs q) fq = fq) as Emin by (unfold n_min; tt_exact; by rewrite (Qltb_lt fq) by lra).
  assert (ε < Qabs (q + σ * fq))%Q as Habs2.
  { destruct Hs as [-> | ->]; [tt_abs (q + 1 * fq)%Q|tt_abs (q + - (1) * fq)%Q]; lra. }
  rewrite (closes_part fq Hh Ho Emin), (Qltb_ge (Qabs (q + σ * fq))) by lra. rewrite opens_nothing by lra.
  assert ((if Qltb 0 q then 1 else - (1)) == - σ)%Q as Hp by (destruct Hs as [-> | ->]; tt_compare; lra).
  split; cbn [fst snd op_qty pos held cl_pnl].
  - rewrite signed_sign. unfold f. cbn [fm_price fm_commission]. tt_exact. field. lra.
  - by rewrite signed_sign.
  - by right.
  - rewrite opposes_sign. done.
  - intros _. eexists. split; [done|]. unfold op_cost. cbn [op_qty op_avg_entry op_open_commission pos held]. tt_exact.
    rewrite (realised_sign _ fq); [|unfold n_min; tt_exact; by rewrite (Qltb_ge (Qabs q)) by lra].
    rewrite Hp, Habs. split; destruct Hs as [-> | ->]; field; lra.
Qed.

(** Onto flat or past it. *)
Lemma step_flattens : no_dust_held q → (q * σ < 0)%Q → (fq == Qabs q)%Q ∨ (Qabs q + ε < fq)%Q →
  fill_step f cash pos (open_part f (close_part f cash pos)).1 (open_part f (close_part f cash pos)).2 (cl_pnl (close_part f cash pos)).
Proof using Hσ Hq.
  intros Hh Ho Hge. pose proof sign_value as Hs. assert (0 < ε)%Q as He by (unfold ε; lra).
  assert (Qabs q == - (σ * q))%Q as Habs by (destruct Hs as [-> | ->]; tt_abs q; lra).
  assert (n_min (Qabs q) fq = Qabs q) as Emin by (unfold n_min; tt_exact; rewrite (Qltb_ge fq); [done|destruct Hge; lra]).
  assert (Qabs (q + σ * Qabs q) == 0)%Q as Hz by (rewrite Habs; destruct Hs as [-> | ->]; [tt_abs (q + 1 * - (1 * q))%Q|tt_abs (q + - (1) * - (- (1) * q))%Q]; lra).
  rewrite (closes_part _ Hh Ho Emin), (Qltb_lt (Qabs (q + σ * Qabs q))) by lra.
  assert ((if Qltb 0 q then 1 else - (1)) == - σ)%Q as Hp by (destruct Hs as [-> | ->]; tt_compare; lra).
  assert (Qabs q == @n_min exact_arith fq (Qabs q))%Q as Hmin by (unfold n_min; tt_exact; tt_compare; destruct Hge; lra).
  assert (∀ cash' pos', (cash' == cash - σ * fq * p - cm)%Q → (op_qty pos' == q + σ * fq)%Q →
    (cash' + op_cost pos' == cash + (- σ * Qabs q * p - cm * (Qabs q / fq)))%Q → no_dust_held (op_qty pos') →
    fill_step f cash pos cash' pos' (Some ((p - avg) * Qabs q * (if Qltb 0 q then 1 else - (1)) - cm * (Qabs q / fq) - oc * (Qabs q / Qabs q))%Q)) as Hfin.
  { intros cash' pos' E1 E2 E3 E4. split; cbn [op_qty pos]; [by rewrite signed_sign|by rewrite signed_sign|done|by rewrite opposes_sign|].
    intros _. eexists. split; [done|]. rewrite (realised_sign _ _ Hmin). rewrite E3. unfold op_cost. cbn [op_qty op_avg_entry op_open_commission pos].
    tt_exact. rewrite Hp, Habs. split; destruct Hs as [-> | ->]; field; lra. }
  destruct Hge as [Heq|Hgt].
  - rewrite opens_nothing by lra. cbn [fst snd cl_pnl]. apply Hfin; unfold op_cost; cbn [op_qty op_avg_entry op_open_commission held]; tt_exact.
    + rewrite <- Heq. field. lra.
    + rewrite Heq, Habs. destruct Hs as [-> | ->]; ring.
    + ring.
    + by left.
  - edestruct (opens_left (cash + (- σ * Qabs q * p - cm * (Qabs q / fq)))%Q 0 0 0 (fq - Qabs q)) as [t Et]; [lra|]. rewrite Et. clear Et.
    cbn [fst snd cl_pnl]. apply Hfin; unfold op_cost; cbn [op_qty op_avg_entry op_open_commission]; tt_exact.
    + rewrite Habs. field. lra.
    + rewrite Habs. destruct Hs as [-> | ->]; ring.
    + change (Qabs 0) with 0%Q. field. split; lra.
    + right. unfold n_eps. tt_exact. change (ε < Qabs (0 + σ * (fq - Qabs q)))%Q.
      destruct Hs as [-> | ->]; [tt_abs (0 + 1 * (fq - Qabs q))%Q|tt_abs (0 + - (1) * (fq - Qabs q))%Q]; lra.
Qed.
End Step.

Lemma ledger_step f (cash : Q) pos : clear_of_dust (fill_of_msg f) (op_qty pos) → no_dust_held (op_qty pos) →
  let c := close_part f cash pos in fill_step f cash pos (open_part f c).1 (open_part f c).2 (cl_pnl c).
Proof.
  destruct f as [ts sym oid sd fq p cm rem fid src st opn rn ln], pos as [q avg oc lp et]. intros [Hq Hd] Hh.
  cbn [op_qty] in *. cbv zeta.
  pose proof (opposes_sign ts sym oid sd fq p cm rem fid src st opn rn ln q (@side_sign exact_arith sd) eq_refl) as Ho.
  destruct (Qlt_le_dec (q * @side_sign exact_arith sd) 0) as [Hlt|Hge]; [|by eapply (step_along ts sym oid sd fq p cm rem fid src st opn rn ln)].
  destruct (Hd (proj2 Ho Hlt)) as [H|H].
  - by eapply (step_reduces ts sym oid sd fq p cm rem fid src st opn rn ln).
  - by eapply (step_flattens ts sym oid sd fq p cm rem fid src st opn rn ln).
Qed.

(** ** Every stream of events *)

Section Run.
Context {HO : HashOrder} (log_ : Q → Q).

(** What an event does to the portfolio. *)
Definition pf_event (e : an_event) (p : portfolio) : portfolio :=
  match e with
  | av_fill f => on_fill_lot (fill_of_msg f) (fm_opener f) (fm_strategy f) p
  | av_funding _ d => on_funding d p
  | _ => p
  end.

Fixpoint an_run (es : list an_event) (a : Analytics) : option Analytics :=
  match es with [] => Some a | e :: es => a' ← an_on_event log_ e a; an_run es a' end.

(** No fill of the stream leaves dust. *)
Fixpoint stream_clear (es : list an_event) (p : portfolio) : Prop :=
  match es with
  | [] => True
  | e :: es =>
      (match e with
       | av_fill f => clear_of_dust (fill_of_msg f) (qty (position_at (fm_symbol f) p))
       | av_signal => False
       | _ => True end) ∧ stream_clear es (pf_event e p)
  end.

(** What the portfolio realises on an event: nothing, unless a fill closes. *)
Definition realises (e : an_event) (p : portfolio) : Q :=
  match e with
  | av_fill f =>
      let pos := position_at (fm_symbol f) p in
      if (if bool_decide (fm_side f = side_buy) then Qltb (qty pos) 0 else Qltb 0 (qty pos)) then realised (fill_of_msg f) pos else 0%Q
  | _ => 0%Q
  end.
Fixpoint realises_all (es : list an_event) (p : portfolio) : Q :=
  match es with [] => 0%Q | e :: es => (realises e p + realises_all es (pf_event e p))%Q end.

Definition agrees (p : portfolio) (l : ledger) : Prop :=
  (cash_ p == lg_cash l)%Q ∧ (total_funding_pnl_ p == lg_funding_pnl l)%Q ∧
  ∀ sym, (qty (position_at sym p) == op_qty (position_of sym l))%Q ∧
    (cost_basis (position_at sym p) == op_cost (position_of sym l))%Q ∧ no_dust_held (op_qty (position_of sym l)).

Lemma realised_proper f (q cb q' cb' : Q) : (q == q')%Q → (cb == cb')%Q →
  (realised f {| qty := q; cost_basis := cb |} == realised f {| qty := q'; cost_basis := cb' |})%Q.
Proof.
  intros Eq Ec. assert (Qabs q == Qabs q')%Q as Ea by by rewrite Eq.
  rewrite !(realised_eq _ _ _ (n_min (f_quantity f) (Qabs q))); [|unfold n_min; tt_exact; tt_compare; lra|done].
  generalize (@n_min exact_arith (f_quantity f) (Qabs q)). destruct f as [t1 s1 i1 sd fq p cm n1 o1].
  cbn [f_side f_quantity f_price f_commission]. tt_exact. intros c. change (@num exact_arith) with Q in *. case_bool_decide; by rewrite Eq, Ec.
Qed.

Lemma opposes_proper f (q q' : Q) : (q == q')%Q → opposes f q ↔ opposes f q'.
Proof. intros Eq. unfold opposes. case_bool_decide; lra. Qed.
Lemma clear_proper f (q q' : Q) : (q == q')%Q → clear_of_dust f q → clear_of_dust f q'.
Proof.
  intros Eq [H1 H2]. split; [done|]. intros Ho. assert (Qabs q == Qabs q')%Q as Ea by by rewrite Eq.
  apply (opposes_proper f q q' Eq) in Ho. destruct (H2 Ho) as [H|[H|H]]; [left|right; left|right; right]; lra.
Qed.

Lemma position_of_set cash sym p l s : position_of s (lg_set cash sym p l) = if decide (sym = s) then p else position_of s l.
Proof.
  unfold position_of, lg_set. cbn [lg_positions]. destruct (decide (sym = s)) as [->|Hs]; [by rewrite lookup_insert_eq|by rewrite lookup_insert_ne].
Qed.

Lemma mark_keeps p l sym px : agrees p l → agrees p (lg_mark sym px l).
Proof.
  intros (Hc & Hf & Hp). split_and!; [done..|]. intros s. unfold lg_mark. rewrite position_of_set.
  destruct (decide (sym = s)) as [->|Hs]; apply Hp.
Qed.

Lemma pnl_total o sym st (pnl : Q) held :
  (oc_total_win (oc_close sym st pnl held o) - oc_total_loss (oc_close sym st pnl held o) == oc_total_win o - oc_total_loss o + pnl)%Q.
Proof.
  unfold oc_close. cbn [oc_total_win oc_total_loss]. unfold n_zero. tt_exact. destruct (Qltb_spec 0 pnl) as [H|H].
  - ring.
  - rewrite Qabs_neg by done. ring.
Qed.


Lemma position_eta (pos : position) : {| qty := qty pos; cost_basis := cost_basis pos |} = pos.
Proof. by destruct pos. Qed.

(** A fill keeps the agreement, and the two report the same result. *)
Lemma fill_agrees f p a : agrees p (an_ledger a) → clear_of_dust (fill_of_msg f) (qty (position_at (fm_symbol f) p)) →
  agrees (pf_event (av_fill f) p) (an_ledger (an_on_fill f a)) ∧
  (realized_pnl (an_on_fill f a) == realized_pnl a + realises (av_fill f) p)%Q.
Proof.
  intros (Hc & Hf & Hp) Hd. destruct (Hp (fm_symbol f)) as (Hq & Hcb & Hh).
  set (pos := op_mark (fm_price f) (position_of (fm_symbol f) (an_ledger a))).
  set (c := close_part f (lg_cash (an_ledger a)) pos).
  destruct (ledger_step f (lg_cash (an_ledger a)) pos (clear_proper _ _ _ Hq Hd) Hh) as [F1 F2 F3 F4 F5]. fold c in F1, F2, F3, F4, F5.
  set (n := {| nt_cash := cash_ p; nt_pos := position_at (fm_symbol f) p; nt_trades := total_trades_ p |}).
  destruct (net_fill_exact (fill_of_msg f) n (clear_no_dust _ _ Hd)) as (P1 & P2 & P3 & P4).
  destruct (on_fill_parts (fill_of_msg f) (fm_opener f) (fm_strategy f) p) as (Ec & Ep & _ & _ & _ & Ef).
  unfold netted in Ec, Ep. change (f_symbol (fill_of_msg f)) with (fm_symbol f) in *. fold n in Ec, Ep.
  assert (∀ s, position_at s (pf_event (av_fill f) p) = if decide (fm_symbol f = s) then nt_pos (net_fill (fill_of_msg f) n) else position_at s p) as Epos.
  { intros s. unfold position_at, pf_event. rewrite Ep. destruct (decide _) as [<-|Hs]; [by rewrite lookup_insert_eq|by rewrite lookup_insert_ne]. }
  assert (an_ledger (an_on_fill f a) = lg_set (open_part f c).1 (fm_symbol f) (open_part f c).2 (an_ledger a)) as El by done.
  assert (cash_ (pf_event (av_fill f) p) == (open_part f c).1)%Q as Hcash.
  { unfold pf_event. rewrite Ec, P1, F1. change (nt_cash n) with (cash_ p). by rewrite Hc. }
  assert ((realises (av_fill f) p == default 0 (cl_pnl c))%Q ∧
    (cost_basis (nt_pos (net_fill (fill_of_msg f) n)) == op_cost (open_part f c).2)%Q) as [Hpnl Hcost].
  { unfold pf_event in Hcash. rewrite Ec in Hcash. assert (opposes (fill_of_msg f) (qty (position_at (fm_symbol f) p)) ↔
      (if bool_decide (fm_side f = side_buy) then Qltb (qty (position_at (fm_symbol f) p)) 0 else Qltb 0 (qty (position_at (fm_symbol f) p))) = true) as Hop.
    { unfold opposes. cbn [f_side fill_of_msg]. case_bool_decide; by rewrite Qltb_true. }
    unfold realises. destruct (if bool_decide _ then _ else _) eqn:E.
    - assert (opposes (fill_of_msg f) (qty (position_at (fm_symbol f) p))) as Ho by by apply Hop.
      destruct (P4 Ho) as [P4' _]. destruct (F5 (proj1 (opposes_proper _ _ _ Hq) Ho)) as (x & Ex & F5a & F5b). rewrite Ex. cbn [default from_option].
      assert (x == realised (fill_of_msg f) (position_at (fm_symbol f) p))%Q as Hx.
      { etransitivity; [exact F5b|]. symmetry. rewrite <- (position_eta (position_at (fm_symbol f) p)) at 1. by apply realised_proper. }
      split; [by symmetry|]. change (nt_pos n) with (position_at (fm_symbol f) p) in *. change (nt_cash n) with (cash_ p) in *.
      change (op_cost (position_of (fm_symbol f) (an_ledger a))) with (op_cost pos) in Hcb. lra.
    - assert (¬ opposes (fill_of_msg f) (qty (position_at (fm_symbol f) p))) as Ho by (rewrite Hop; congruence).
      destruct (P3 Ho) as [P3' _]. destruct F4 as [-> F4']; [by intros Ho'; apply Ho, (opposes_proper _ _ _ Hq)|]. split; [done|].
      change (nt_pos n) with (position_at (fm_symbol f) p) in *. change (nt_cash n) with (cash_ p) in *.
      change (op_cost (position_of (fm_symbol f) (an_ledger a))) with (op_cost pos) in Hcb. lra. }
  split.
  - split_and!; [by rewrite El|by unfold pf_event; rewrite Ef|]. intros s. rewrite El, Epos, position_of_set.
    destruct (decide (fm_symbol f = s)) as [_|Hs]; [|apply Hp]. split_and!; [|exact Hcost|exact F3].
    etransitivity; [exact P2|]. etransitivity; [|symmetry; exact F2]. by apply Qplus_comp.
  - unfold realized_pnl. rewrite Hpnl. unfold an_on_fill. cbn [an_outcomes with_outcomes]. fold pos c. unfold oc_record. cbn [oc_total_win oc_total_loss].
    destruct (cl_pnl c) as [x|]; [apply pnl_total|cbn [default from_option]; tt_exact; lra].
Qed.

Lemma an_event_agrees e p a a' : agrees p (an_ledger a) →
  (match e with av_fill f => clear_of_dust (fill_of_msg f) (qty (position_at (fm_symbol f) p)) | _ => True end) →
  an_on_event (A := exact_arith) log_ e a = Some a' →
  agrees (pf_event e p) (an_ledger a') ∧ (realized_pnl a' == realized_pnl a + realises e p)%Q.
Proof.
  intros Ha Hd. destruct e as [m|t|o|f| |bids asks| | | | |ts d]; cbn [an_on_event]; intros [= <-]; cbn [pf_event realises].
  all: assert (realized_pnl a == realized_pnl a + 0)%Q as Hz by lra.
  - split; [by apply mark_keeps|exact Hz].
  - split; [by apply mark_keeps|exact Hz].
  - by split.
  - by apply fill_agrees.
  - unfold an_on_l2_snapshot. destruct bids as [|[b ?] ?], asks as [|[k ?] ?]; try done. by destruct (_ && _).
  - by split.
  - by split.
  - by split.
  - by split.
  - split; [|exact Hz]. destruct Ha as (H1 & H2 & H3). split_and!; [..|done]; by apply Qplus_comp.
Qed.

(** over any stream of orders, fills, prices, depth and funding whose fills leave
    no dust, the statistics and the portfolio agree: the same cash and funding, the
    same quantity and cost of every open position, and the profit and loss reported
    is the sum of what the portfolio realised, fill by fill.  Without a signal event
    the stream is never undefined. *)
Theorem analytics_agrees_with_portfolio es p a :
  agrees p (an_ledger a) → stream_clear es p →
  ∃ a', an_run es a = Some a' ∧ agrees (foldl (λ p e, pf_event e p) p es) (an_ledger a') ∧
    (realized_pnl a' == realized_pnl a + realises_all es p)%Q.
Proof.
  revert p a. induction es as [|e es IH]; intros p a Ha Hs; cbn [an_run foldl realises_all].
  - exists a. split_and!; [done..|lra].
  - destruct Hs as [He Hs]. destruct (an_on_event (A := exact_arith) log_ e a) as [a1|] eqn:E; [|by destruct e]. cbn [mbind option_bind].
    destruct (an_event_agrees e p a a1) as [H1 H2]; [done|by destruct e|done|].
    destruct (IH _ _ H1 Hs) as (a' & Er & Hr & Hp). exists a'. split_and!; [done..|]. lra.
Qed.
End Run.

(** ** The running statistics *)

Definition Zq (z : Z) : Q := inject_Z z.
Definition sq_dist (c : Q) (x : Q) : Q := ((x - c) * (x - c))%Q.

Record w_ok (xs : list Q) (w : welford_state) : Prop := {
  wo_n : w_n w = Z.of_nat (length xs);
  wo_mean : (Zq (w_n w) * w_mean w == wsum (λ x, x) xs)%Q;
  wo_m2 : (w_m2 w + Zq (w_n w) * w_mean w * w_mean w == wsum (λ x, x * x) xs)%Q }.

Lemma i64_small n : (0 ≤ n < 2 ^ 63)%Z → i64 n = n.
Proof. intros Hn. apply wraps_id; [lia|]. unfold in_s. change (2 ^ (64 - 1)) with (2 ^ 63). lia. Qed.

Lemma w_update_ok xs w (x : Q) : (Z.of_nat (length xs) < 2 ^ 63 - 1)%Z → w_ok xs w → w_ok (xs ++ [x]) (w_update x w).
Proof.
  intros Hlen [H1 H2 H3]. assert (i64 (w_n w + 1) = w_n w + 1) as Hn by (apply i64_small; lia).
  destruct w as [n m m2]. cbn [w_n w_mean w_m2] in *. unfold w_update. cbn [w_n w_mean w_m2]. rewrite Hn. unfold n_of. tt_exact.
  change (n + 1 # 1)%Q with (inject_Z (n + 1)). change (@num exact_arith) with Q in *.
  assert (Zq (n + 1) == Zq n + 1)%Q as En by (unfold Zq; rewrite inject_Z_plus; reflexivity).
  assert (0 <= Zq n)%Q as Hpos by (unfold Zq; change 0%Q with (inject_Z 0); rewrite <- Zle_Qle; lia).
  fold (Zq (n + 1)). split; [rewrite length_app; cbn [w_n length]; lia|..]; cbn [w_n w_mean w_m2]; rewrite wsum_app, wsum_cons;
    change (wsum _ []) with 0%Q; rewrite En; [rewrite <- H2|rewrite <- H3]; field; lra.
Qed.

Lemma wsum_sq_dist c xs : (wsum (sq_dist c) xs == wsum (λ x, x * x) xs - 2 * c * wsum (λ x, x) xs + Zq (Z.of_nat (length xs)) * c * c)%Q.
Proof.
  induction xs as [|x xs IH]; [cbn [wsum foldr length Z.of_nat]; unfold Zq; change (inject_Z 0) with 0%Q; ring|]. rewrite !wsum_cons, IH. cbn [length]. rewrite Nat2Z.inj_succ, <- Z.add_1_r.
  unfold Zq, sq_dist. rewrite inject_Z_plus. ring.
Qed.

Lemma w_run_ok xs : ∀ ys w, (Z.of_nat (length (ys ++ xs)) < 2 ^ 63)%Z → w_ok ys w → w_ok (ys ++ xs) (foldl (λ w x, w_update x w) w xs).
Proof.
  induction xs as [|x xs IH]; intros ys w Hlen Hw; [by rewrite app_nil_r|]. cbn [foldl]. rewrite length_app in Hlen. cbn [length] in Hlen.
  change (x :: xs) with ([x] ++ xs). rewrite app_assoc. apply IH; [rewrite !length_app; cbn; lia|]. apply w_update_ok; [lia|done].
Qed.

(** the running mean and squared deviations of the returns and latencies are, in
    exact arithmetic, those of the whole sample: the mean of the values, and the sum
    of their squared distances from it, so the variance is the sample variance. *)
Theorem welford_exact (xs : list Q) : (Z.of_nat (length xs) < 2 ^ 63)%Z → (0 < length xs)%nat →
  let w := foldl (λ w x, w_update x w) w_init xs in
  w_n w = Z.of_nat (length xs) ∧ (w_mean w == mean xs)%Q ∧ (w_m2 w == wsum (sq_dist (mean xs)) xs)%Q ∧
  ((1 < length xs)%nat → (w_variance w == wsum (sq_dist (mean xs)) xs / Zq (Z.of_nat (length xs) - 1))%Q).
Proof.
  intros Hlen Hpos w. assert (w_ok xs w) as Hw.
  { apply (w_run_ok xs []); [done|]. split; cbn [w_init w_n w_mean w_m2]; unfold n_zero; tt_exact; reflexivity. }
  clearbody w. destruct w as [n m m2], Hw as [H1 H2 H3]. unfold w_variance. cbn [w_n w_mean w_m2] in *. change (@num exact_arith) with Q in *.
  assert (0 < Zq n)%Q as Hn by (rewrite H1; unfold Zq; change 0%Q with (inject_Z 0); rewrite <- Zlt_Qlt; lia).
  assert (m == mean xs)%Q as Hm. { unfold mean. rewrite <- H1. fold (Zq n). rewrite <- H2. field. lra. }
  assert (m2 == wsum (sq_dist (mean xs)) xs)%Q as Hm2.
  { rewrite wsum_sq_dist, <- H1, <- H2, <- H3, <- Hm. ring. }
  split_and!; [done..|]. intros Hlt. rewrite H1. destruct (Z.ltb_spec 1 (Z.of_nat (length xs))); [|lia].
  unfold n_of. tt_exact. fold (inject_Z (Z.of_nat (length xs) - 1)). rewrite Hm2. reflexivity.
Qed.

(** ** The drawdown *)

(** The fall from [e] to a later [e']. *)
Definition fall (e e' : Q) : Q := ((e - e') / e)%Q.

Lemma fall_le e p e' : (0 < e)%Q → (e <= p)%Q → (0 <= e')%Q → (fall e e' <= fall p e')%Q.
Proof.
  intros He Hp He'. assert (fall p e' - fall e e' == e' * (p - e) * / (e * p))%Q as E by (unfold fall; field; lra).
  assert (0 <= e' * (p - e) * / (e * p))%Q; [|lra].
  apply Qmult_le_0_compat; [apply Qmult_le_0_compat; lra|]. apply Qinv_le_0_compat. apply Qmult_le_0_compat; lra.
Qed.
Lemma fall_rise e e' : (0 < e)%Q → (e <= e')%Q → (fall e e' <= 0)%Q.
Proof.
  intros He Hle. assert (fall e e' == - ((e' - e) * / e))%Q as E by (unfold fall; field; lra).
  assert (0 <= (e' - e) * / e)%Q; [|lra]. apply Qmult_le_0_compat; [lra|]. apply Qinv_le_0_compat. lra.
Qed.

(** A new mark adds the falls that end at it. *)
Definition falls_within (es : list Q) (m : Q) : Prop :=
  ∀ i j e e', (i <= j)%nat → es !! i = Some e → es !! j = Some e' → (0 < e)%Q → (fall e e' <= m)%Q.
Definition fall_reached (es : list Q) (m : Q) : Prop :=
  (m == 0)%Q ∨ ∃ i j e e', (i <= j)%nat ∧ es !! i = Some e ∧ es !! j = Some e' ∧ (0 < e)%Q ∧ (m == fall e e')%Q.

Lemma falls_snoc es e (m m' : Q) : falls_within es m → (m <= m')%Q → (∀ x, x ∈ es ++ [e] → (0 < x)%Q → (fall x e <= m')%Q) →
  falls_within (es ++ [e]) m'.
Proof.
  intros H Hm Hnew i j x y Hij Hi Hj Hx. apply lookup_app_Some in Hj as [Hj|[Hge Hj]].
  - rewrite lookup_app_l in Hi by (apply lookup_lt_Some in Hj; lia). specialize (H i j x y Hij Hi Hj Hx). lra.
  - apply list_lookup_singleton_Some in Hj as [_ <-]. apply Hnew; [by eapply list_elem_of_lookup_2|done].
Qed.
Lemma fall_reached_snoc es e m : fall_reached es m → fall_reached (es ++ [e]) m.
Proof.
  intros [H6|(i & j & x & y & ? & ? & ? & ? & ?)]; [by left|right]. exists i, j, x, y. split_and!; try done; by apply lookup_app_l_Some.
Qed.

Record dd_ok (es : list Q) (d : drawdown) : Prop := {
  do_pos : (0 < dd_peak d)%Q;
  do_nonneg : (0 <= dd_max d)%Q;
  do_peak : (dd_peak d : Q) ∈ es;
  do_top : ∀ e, e ∈ es → (e <= dd_peak d)%Q;
  do_falls : falls_within es (dd_max d);
  do_reached : fall_reached es (dd_max d) }.

Lemma dd_update_ok es d (e : Q) : (0 <= e)%Q → dd_ok es d → dd_ok (es ++ [e]) (dd_update e d).
Proof.
  intros He [H1 H2 H3 H4 H5 H6]. destruct d as [pk mx]. cbn [dd_peak dd_max] in *. change (@num exact_arith) with Q in *.
  unfold dd_update. cbn [dd_peak dd_max]. unfold n_zero. tt_exact. destruct (Qltb_spec pk e) as [Hup|Hdn].
  - rewrite (Qltb_lt (0 # 1) e) by lra. cbn [andb]. assert ((e - e) / e == 0)%Q as Ez by (field; lra). rewrite (Qltb_ge mx) by lra.
    assert (∀ x, x ∈ es ++ [e] → (x <= e)%Q) as Htop.
    { intros x [Hx|Hx%list_elem_of_singleton]%elem_of_app; [specialize (H4 x Hx); lra|subst; lra]. }
    split; cbn [dd_peak dd_max]; [lra|done|apply elem_of_app; right; by apply list_elem_of_singleton|done| |by apply fall_reached_snoc].
    apply falls_snoc with mx; [done|lra|]. intros x Hx H0. eapply Qle_trans; [|exact H2]. apply fall_rise; [done|]. by apply Htop.
  - rewrite (Qltb_lt (0 # 1) pk) by lra. cbn [andb]. fold (fall pk e).
    assert (∀ x, x ∈ es ++ [e] → (x <= pk)%Q) as Htop.
    { intros x [Hx|Hx%list_elem_of_singleton]%elem_of_app; [by apply H4|by subst]. }
    destruct (Qltb_spec mx (fall pk e)) as [Hm|Hm]; split; cbn [dd_peak dd_max]; try (apply elem_of_app; by left); try done; try lra.
    + apply falls_snoc with mx; [done|lra|]. intros x Hx H0. apply fall_le; auto.
    + right. apply list_elem_of_lookup in H3 as [i Hi]. exists i, (length es), pk, e. split_and!; try done.
      * apply lookup_lt_Some in Hi. lia.
      * by apply lookup_app_l_Some.
      * by rewrite lookup_app_r, Nat.sub_diag by done.
    + apply falls_snoc with mx; [done|lra|]. intros x Hx H0. eapply Qle_trans; [|exact Hm]. apply fall_le; auto.
    + by apply fall_reached_snoc.
Qed.

Section Marks.
Context {HO : HashOrder} (log_ : Q → Q).

(** The equities at the bars of a stream. *)
Fixpoint marks (es : list an_event) (a : Analytics) : list Q :=
  match es with
  | [] => []
  | e :: es =>
      match an_on_event (A := exact_arith) log_ e a with
      | Some a1 => (match e with av_market _ => [mv_last_equity (an_view a1) : Q] | _ => [] end) ++ marks es a1
      | None => []
      end
  end.

Lemma an_event_drawdown e a a' : an_on_event (A := exact_arith) log_ e a = Some a' →
  an_drawdown a' = match e with av_market _ => dd_update (mv_last_equity (an_view a')) (an_drawdown a) | _ => an_drawdown a end.
Proof.
  destruct e as [m|t|o|f| |bids asks| | | | |ts d]; cbn [an_on_event]; intros [= <-]; try done.
  unfold an_on_l2_snapshot. destruct bids as [|[b ?] ?], asks as [|[k ?] ?]; try done. by destruct (_ && _).
Qed.

Lemma marks_drawdown es : ∀ a a' hist, an_run log_ es a = Some a' → dd_ok hist (an_drawdown a) → Forall (λ e, 0 <= e)%Q (marks es a) →
  dd_ok (hist ++ marks es a) (an_drawdown a').
Proof.
  induction es as [|e es IH]; intros a a' hist Er Hd Hm; cbn [marks an_run] in *; [injection Er as <-; by rewrite app_nil_r|].
  destruct (an_on_event (A := exact_arith) log_ e a) as [a1|] eqn:E; [|done]. cbn [mbind option_bind] in Er.
  apply Forall_app in Hm as [Hm1 Hm2]. pose proof (an_event_drawdown e a a1 E) as Ed. rewrite app_assoc. apply IH; [done| |done].
  rewrite Ed. destruct e; try (by rewrite app_nil_r). apply dd_update_ok; [by inversion Hm1|done].
Qed.

(** the drawdown the risk manager halts on.  Over any stream from a fresh account
    with a positive balance whose equity at the bars is not negative, it is the
    largest relative fall from the starting balance or a bar's equity to a later
    bar's: no fall exceeds it and one attains it, unless it is zero.  Only bars count:
    ticks, fills and funding move the equity and never the drawdown. *)
Theorem drawdown_exact es (cash : Q) w rf ppy mp a' : (0 < cash)%Q →
  let a := mk_Analytics cash w rf ppy mp in
  an_run log_ es a = Some a' → Forall (λ e, 0 <= e)%Q (marks es a) →
  falls_within (cash :: marks es a) (dd_max (an_drawdown a')) ∧ fall_reached (cash :: marks es a) (dd_max (an_drawdown a')) ∧
  (∀ e, e ∈ cash :: marks es a → (e <= dd_peak (an_drawdown a'))%Q).
Proof.
  intros Hc a Er Hm. destruct (marks_drawdown es a a' [cash] Er) as [_ _ _ H4 H5 H6]; [|done|done].
  split; cbn [mk_Analytics an_drawdown a dd_peak dd_max]; unfold n_zero; tt_exact; [done|lra|by apply list_elem_of_singleton| | |left; reflexivity].
  - intros e He%list_elem_of_singleton. subst. lra.
  - intros i j e e' Hij Hi Hj He. apply list_lookup_singleton_Some in Hi as [_ <-]. apply list_lookup_singleton_Some in Hj as [_ <-]. apply fall_rise; lra.
Qed.

(** An inline run on ticks alone has no drawdown, whatever the prices; the mark the
    threaded run makes at the same ticks has. *)
Lemma ticks_never_draw_down es a a' : an_run log_ es a = Some a' → Forall (λ e, ¬ ∃ m, e = av_market m) es →
  an_drawdown a' = an_drawdown a.
Proof.
  revert a. induction es as [|e es IH]; intros a Er Hm; cbn [an_run] in Er; [by injection Er as <-|].
  destruct (an_on_event (A := exact_arith) log_ e a) as [a1|] eqn:E; [|done]. cbn [mbind option_bind] in Er.
  inversion Hm as [|? ? Hne Hm']; subst. rewrite (IH a1 Er Hm'). rewrite (an_event_drawdown e a a1 E). destruct e; try done. exfalso. apply Hne. eauto.
Qed.
End Marks.

(** ** The equity curve *)

Lemma every_other_length {X} (l : list X) : (2 * length (every_other l) <= length l + 1)%nat.
Proof.
  enough (∀ n (l : list X), (length l <= n)%nat → (2 * length (every_other l) <= length l + 1)%nat) by eauto. clear l.
  induction n as [|n IH]; intros [|x [|y l]] Hl; cbn [every_other length] in *; try lia. specialize (IH l). lia.
Qed.
Lemma every_other_sublist {X} (l : list X) : every_other l `sublist_of` l.
Proof.
  enough (∀ n (l : list X), (length l <= n)%nat → every_other l `sublist_of` l) by eauto. clear l.
  induction n as [|n IH]; intros [|x [|y l]] Hl; cbn [every_other length] in *; try done; try lia.
  apply sublist_skip, sublist_cons, IH. lia.
Qed.
Lemma every_other_head {X} (l : list X) : head (every_other l) = head l.
Proof. by destruct l as [|x [|y l]]. Qed.

(** the equity curve stays within its bound for ever: after any number of points
    it holds at most the maximum, which is at least four, every point is one that was
    recorded, in order, and the first one is never thinned out. *)
Theorem curve_bounded (max_points : Z) (pts : list equity_point) : (4 <= max_points)%Z →
  let c := foldl (λ c pt, record_equity_point max_points pt c) new_curve pts in
  (Z.of_nat (length (cv_points c)) <= max_points)%Z ∧ cv_points c `sublist_of` pts ∧ head (cv_points c) = head pts.
Proof.
  intros Hmax. cbv zeta. induction pts as [|pt pts IH] using rev_ind; [cbn; split_and!; [lia|done..]|].
  rewrite foldl_app. cbn [foldl]. destruct IH as (H1 & H2 & H3).
  assert (head (pts ++ [pt]) = match head pts with Some x => Some x | None => Some pt end) as Eh by by destruct pts.
  destruct (decide (pts = [])) as [->|Hne].
  { unfold record_equity_point. cbn [foldl new_curve cv_counter cv_stride cv_points app length head]. change (u64 (0 + 1) mod 1 =? 0) with true.
    cbn [negb]. destruct (Z.ltb_spec max_points (Z.of_nat 1)); [lia|]. cbn [cv_points length]. split_and!; [lia|done..]. }
  set (c := foldl _ _ pts) in *. assert (is_Some (head (cv_points c))) as [x Ex] by (rewrite H3; destruct pts; [done|by eexists]).
  assert (cv_points c ++ [pt] `sublist_of` pts ++ [pt]) as Hs by by apply sublist_app.
  assert (head (cv_points c ++ [pt]) = head (pts ++ [pt])) as Hh by (rewrite Eh, <- H3, Ex; by destruct (cv_points c)).
  unfold record_equity_point. destruct (negb _); cbn [cv_points].
  - split_and!; [done|by apply sublist_inserts_r|]. by rewrite Eh, <- H3, Ex.
  - destruct (Z.ltb_spec max_points (Z.of_nat (length (cv_points c ++ [pt])))) as [Hlt|Hge]; cbn [cv_points]; [|by split_and!].
    rewrite every_other_head. split_and!; [|by etransitivity; [apply every_other_sublist|]|done].
    pose proof (every_other_length (cv_points c ++ [pt])). rewrite length_app in *. cbn [length] in *. lia.
Qed.

(** ** Concrete streams *)

Definition a_fill (id : Z) (side : order_side) (q price comm : Q) : fill_msg :=
  {| fm_ts := id; fm_symbol := "BTC"; fm_order_id := id; fm_side := side; fm_quantity := q; fm_price := price;
     fm_commission := comm; fm_remaining := 0%Q; fm_fill_id := id; fm_source := src_simulated; fm_strategy := "s";
     fm_opener := 1; fm_recv_ns := 0; fm_latency_ns := 0 |}.
Definition a_bar (ts : Z) (px : Q) : market_msg :=
  {| mm_ts := ts; mm_symbol := "BTC"; mm_open := px; mm_high := px; mm_low := px; mm_close := px; mm_volume := 1; mm_recv_ns := 0 |}.
Definition a_tick (ts : Z) (px : Q) : tick_msg :=
  {| tm_ts := ts; tm_symbol := "BTC"; tm_price := px; tm_quantity := 1; tm_side := tick_unknown; tm_recv_ns := 0 |}.
Definition no_log (x : Q) : Q := 0%Q.
Definition fresh_stats : Analytics (A := exact_arith) := mk_Analytics (1000 # 1)%Q 252 0%Q 252 100000.

(** Buy two, see a bar, be charged funding, sell three: a flip through flat. *)
Definition flip_stream : list (an_event (A := exact_arith)) :=
  [av_fill (a_fill 1 side_buy (2 # 1) (100 # 1) (1 # 1)); av_market (a_bar 2 (110 # 1)); av_funding 3 (- (5) # 1)%Q;
   av_fill (a_fill 4 side_sell (3 # 1) (120 # 1) (3 # 1))].

Lemma analytics_agrees_with_portfolio_witness :
  ∃ a', an_run no_log flip_stream fresh_stats = Some a' ∧
    agrees (foldl (λ p e, pf_event e p) (mk_portfolio (A := exact_arith) (1000 # 1)%Q) flip_stream) (an_ledger a') ∧
    (realized_pnl a' == realized_pnl fresh_stats + realises_all flip_stream (mk_portfolio (A := exact_arith) (1000 # 1)%Q))%Q ∧ (realized_pnl a' == 37 # 1)%Q.
Proof.
  destruct (analytics_agrees_with_portfolio no_log flip_stream (mk_portfolio (A := exact_arith) (1000 # 1)%Q) fresh_stats) as (a' & E & Ha & Hp).
  - split_and!; [reflexivity..|]. intros sym. split_and!; [reflexivity..|]. by left.
  - cbn [stream_clear flip_stream]. split_and!; try done; try (vm_compute; done).
    split; [vm_compute; done|]. intros _. right. right. vm_compute. done.
  - exists a'. split_and!; [done..|]. rewrite Hp. vm_compute. done.
Defined.

Lemma welford_exact_witness :
  let xs := [1 # 1; 2 # 1; 6 # 1]%Q in
  w_n (foldl (λ w x, w_update x w) w_init xs) = 3 ∧ (w_variance (foldl (λ w x, w_update x w) w_init xs) == 7 # 1)%Q.
Proof.
  cbv zeta. destruct (welford_exact [1 # 1; 2 # 1; 6 # 1]%Q) as (H1 & _ & _ & H2); [cbn; lia|cbn; lia|]. split; [done|].
  rewrite H2 by (cbn; lia). vm_compute. done.
Defined.

(** A position of one unit bought at 100 falls to 10 and recovers. *)
Definition fall_stream : list (an_event (A := exact_arith)) :=
  [av_fill (a_fill 1 side_buy (1 # 1) (100 # 1) 0%Q); av_market (a_bar 2 (10 # 1)); av_market (a_bar 3 (200 # 1))].

Lemma drawdown_exact_witness : ∃ a', an_run no_log fall_stream fresh_stats = Some a' ∧
  falls_within ((1000 # 1)%Q :: marks no_log fall_stream fresh_stats) (dd_max (an_drawdown a')) ∧ (dd_max (an_drawdown a') == 9 # 100)%Q.
Proof.
  eexists. split; [reflexivity|]. split; [|vm_compute; done].
  apply (drawdown_exact no_log fall_stream (1000 # 1)%Q 252 0%Q 252 100000); [done|reflexivity|].
  repeat constructor; vm_compute; done.
Defined.

Lemma curve_bounded_witness :
  let c := foldl (λ c pt, record_equity_point 4 pt c) new_curve ((λ i, {| ep_ts := i; ep_equity := 0%Q |}) <$> [1; 2; 3; 4; 5; 6]) in
  (Z.of_nat (length (cv_points c)) <= 4)%Z ∧ ep_ts <$> cv_points c = [1; 3; 5; 6].
Proof. split; [apply (curve_bounded 4); lia|reflexivity]. Defined.

(** run inline on ticks, the statistics never show a drawdown: whatever the
    orders, fills and prices, the snapshot the risk manager reads has none, so its
    drawdown limit cannot halt; run threaded, the mark made at the same tick shows a
    fall of nine percent. *)
Theorem inline_ticks_hide_drawdown :
  (∀ (HO : HashOrder) log_ es (cash : Q) w rf ppy mp a', Forall (λ e, ¬ ∃ m, e = av_market m) es →
     an_run log_ es (mk_Analytics cash w rf ppy mp) = Some a' → (sn_max_drawdown (risk_view a') == 0)%Q) ∧
  let a := an_on_fill (a_fill 1 side_buy (1 # 1) (100 # 1) 0%Q) fresh_stats in
  (sn_max_drawdown (risk_view (an_on_tick no_log (a_tick 2 (10 # 1)) a)) == 0)%Q ∧
  (sn_max_drawdown (risk_view (an_on_mark "BTC" (10 # 1)%Q a)) == 9 # 1)%Q.
Proof.
  split.
  - intros HO log_ es cash w rf ppy mp a' Hm Er. unfold risk_view. cbn [sn_max_drawdown]. rewrite (ticks_never_draw_down log_ es _ a' Er Hm).
    cbn [mk_Analytics an_drawdown dd_max]. unfold n_zero, n_of. tt_exact. ring.
  - split; vm_compute; done.
Qed.
