(* ===== verification/Trackers.v ===== *)
(** * The trackers beside the statistics (src/src/analytics/adverse_selection_tracker.h
    and .cpp, bar_aggregator.h, shadow_tracker.h)

    The adverse selection tracker marks every fill to the market once, after a
    horizon; the bar aggregator cuts a tick stream into bars; the shadow tracker
    pairs simulated and exchange fills. *)

From Stdlib Require Import QArith Qabs Lqa.
From S2P Require Import Prelude Float64 Event Arith Portfolio Risk Exits ExitPolicy EngineEvents Indicators IndicatorTheorems Analytics AnalyticsTheorems.

Open Scope string_scope.
Open Scope list_scope.
Open Scope Z_scope.

Section Trackers.
Context {A : Arith} {HO : HashOrder} (sqrt_ : num → num).

(** ** Adverse selection *)

Record pending_fill := { pd_symbol : string; pd_price : num; pd_sign : Z; pd_ready_ts : time_point }.
Record AdverseSelectionTracker := {
  as_horizon_ms : Z;
  as_max_pending : Z;
  as_pending : list pending_fill;
  as_stats : welford_state;
  as_dropped : Z }.
Definition mk_adverse (horizon_ms max_pending : Z) : AdverseSelectionTracker :=
  {| as_horizon_ms := horizon_ms; as_max_pending := max_pending; as_pending := []; as_stats := w_init; as_dropped := 0 |}.
Definition as_set (p : list pending_fill) (w : welford_state) (d : Z) (t : AdverseSelectionTracker) : AdverseSelectionTracker :=
  {| as_horizon_ms := as_horizon_ms t; as_max_pending := as_max_pending t; as_pending := p; as_stats := w; as_dropped := d |}.

Definition as_on_fill (f : fill_msg) (t : AdverseSelectionTracker) : AdverseSelectionTracker :=
  let full := (0 <? as_max_pending t) && (as_max_pending t <=? Z.of_nat (length (as_pending t))) in
  let pf := {| pd_symbol := fm_symbol f; pd_price := fm_price f;
               pd_sign := if bool_decide (fm_side f = side_buy) then 1 else -1;
               pd_ready_ts := fm_ts f + as_horizon_ms t * 1000000 |} in
  as_set ((if full then tail (as_pending t) else as_pending t) ++ [pf]) (as_stats t)
    (if full then u64 (as_dropped t + 1) else as_dropped t) t.

Definition markout_bps (mid : num) (pf : pending_fill) : num :=
  ((mid - pd_price pf) / pd_price pf * n_lit 10000 1 * n_lit (pd_sign pf) 1)%num.
(** The count is unsigned here; Welford's step is otherwise the same. *)
Definition w_sample (x : num) (w : welford_state) : welford_state :=
  let n := u64 (w_n w + 1) in
  let delta := (x - w_mean w)%num in
  let mean := (w_mean w + delta / n_lit n 1)%num in
  {| w_n := n; w_mean := mean; w_m2 := (w_m2 w + delta * (x - mean))%num |}.

(** The mark takes the fills of its symbol whose horizon has passed. *)
Definition is_due (symbol : string) (ts : time_point) (pf : pending_fill) : bool :=
  negb (ts <? pd_ready_ts pf) && bool_decide (pd_symbol pf = symbol).
Definition as_on_mark (symbol : string) (mid : num) (ts : time_point) (t : AdverseSelectionTracker) : AdverseSelectionTracker :=
  if negb (mid >? n_zero)%num then t else
  as_set (filter (λ pf, is_due symbol ts pf = false) (as_pending t))
    (foldl (λ w pf, w_sample (markout_bps mid pf) w) (as_stats t) (filter (λ pf, is_due symbol ts pf = true) (as_pending t)))
    (as_dropped t) t.

Definition as_stdev_bps (t : AdverseSelectionTracker) : num :=
  let w := as_stats t in if w_n w <? 2 then n_zero else sqrt_ (w_m2 w / n_lit (w_n w - 1) 1)%num.
Definition as_reset (t : AdverseSelectionTracker) : AdverseSelectionTracker := as_set [] w_init 0 t.

(** ** Bars from ticks *)

Record bar_state := {
  bs_start : time_point;
  bs_symbol : string;
  bs_open : num;
  bs_high : num;
  bs_low : num;
  bs_close : num;
  bs_volume : Z }.
(** [ba_bar]: the bar in progress, when [bar_open_]; [ba_out]: the bars given to the
    callback. *)
Record BarAggregator := { ba_interval_ms : Z; ba_bar : option bar_state; ba_out : list bar_state }.
Definition mk_aggregator (interval_ms : Z) : BarAggregator := {| ba_interval_ms := interval_ms; ba_bar := None; ba_out := [] |}.

Definition start_bar (t : tick_msg) : bar_state :=
  {| bs_start := tm_ts t; bs_symbol := tm_symbol t; bs_open := tm_price t; bs_high := tm_price t; bs_low := tm_price t;
     bs_close := tm_price t; bs_volume := tm_quantity t |}.
Definition extend_bar (t : tick_msg) (b : bar_state) : bar_state :=
  {| bs_start := bs_start b; bs_symbol := bs_symbol b; bs_open := bs_open b; bs_high := n_max (bs_high b) (tm_price t);
     bs_low := n_min (bs_low b) (tm_price t); bs_close := tm_price t; bs_volume := i64 (bs_volume b + tm_quantity t) |}.
(** The milliseconds since the bar began, truncated. *)
Definition elapsed_ms (b : bar_state) (t : tick_msg) : Z := Z.quot (tm_ts t - bs_start b) 1000000.

Definition ba_on_tick (t : tick_msg) (g : BarAggregator) : BarAggregator :=
  match ba_bar g with
  | None => {| ba_interval_ms := ba_interval_ms g; ba_bar := Some (start_bar t); ba_out := ba_out g |}
  | Some b =>
      if ba_interval_ms g <=? elapsed_ms b t
      then {| ba_interval_ms := ba_interval_ms g; ba_bar := Some (start_bar t); ba_out := ba_out g ++ [b] |}
      else {| ba_interval_ms := ba_interval_ms g; ba_bar := Some (extend_bar t b); ba_out := ba_out g |}
  end.
(** The bar stays open. *)
Definition ba_flush (g : BarAggregator) : BarAggregator :=
  match ba_bar g with
  | Some b => {| ba_interval_ms := ba_interval_ms g; ba_bar := ba_bar g; ba_out := ba_out g ++ [b] |}
  | None => g
  end.
Definition ba_reset (g : BarAggregator) : BarAggregator :=
  {| ba_interval_ms := ba_interval_ms g; ba_bar := None; ba_out := ba_out g |}.

(** ** Simulated and exchange fills *)

Record leg := { lg_price : num; lg_quantity : num; lg_ts : time_point }.
(** A leg is set when its flag is. *)
Record shadow_fill := { sf_symbol : string; sf_side : order_side; sf_sim : option leg; sf_exchange : option leg }.
Definition ShadowTracker : Type := gmap Z shadow_fill.

Definition leg_of (f : fill_msg) : leg := {| lg_price := fm_price f; lg_quantity := fm_quantity f; lg_ts := fm_ts f |}.
Definition on_simulated_fill (f : fill_msg) (t : ShadowTracker) : ShadowTracker :=
  <[fm_order_id f := {| sf_symbol := fm_symbol f; sf_side := fm_side f; sf_sim := Some (leg_of f);
                        sf_exchange := t !! fm_order_id f ≫= sf_exchange |}]> t.
Definition on_exchange_fill (f : fill_msg) (t : ShadowTracker) : ShadowTracker :=
  <[fm_order_id f := {| sf_symbol := fm_symbol f; sf_side := fm_side f; sf_sim := t !! fm_order_id f ≫= sf_sim;
                        sf_exchange := Some (leg_of f) |}]> t.
Definition sf_slippage (s : shadow_fill) : num :=
  match sf_sim s, sf_exchange s with Some a, Some b => (lg_price b - lg_price a)%num | _, _ => n_zero end.
Definition sf_slippage_bps (s : shadow_fill) : num :=
  match sf_sim s, sf_exchange s with
  | Some a, Some b => if n_eqb (lg_price a) n_zero then n_zero else (sf_slippage s / lg_price a * n_lit 10000 1)%num
  | _, _ => n_zero
  end.
Definition sf_latency_ms (s : shadow_fill) : Z :=
  match sf_sim s, sf_exchange s with Some a, Some b => Z.quot (lg_ts b - lg_ts a) 1000000 | _, _ => 0 end.

(** The counts and sums of the report. *)
Record shadow_report := { sr_both : Z; sr_sim_only : Z; sr_exchange_only : Z; sr_slippage : num; sr_abs_slippage : num; sr_latency : Z }.
Definition sr_add (r : shadow_report) (s : shadow_fill) : shadow_report :=
  match sf_sim s, sf_exchange s with
  | Some _, Some _ =>
      {| sr_both := u64 (sr_both r + 1); sr_sim_only := sr_sim_only r; sr_exchange_only := sr_exchange_only r;
         sr_slippage := (sr_slippage r + sf_slippage s)%num; sr_abs_slippage := (sr_abs_slippage r + n_abs (sf_slippage s))%num;
         sr_latency := i64 (sr_latency r + sf_latency_ms s) |}
  | Some _, None =>
      {| sr_both := sr_both r; sr_sim_only := u64 (sr_sim_only r + 1); sr_exchange_only := sr_exchange_only r;
         sr_slippage := sr_slippage r; sr_abs_slippage := sr_abs_slippage r; sr_latency := sr_latency r |}
  | None, Some _ =>
      {| sr_both := sr_both r; sr_sim_only := sr_sim_only r; sr_exchange_only := u64 (sr_exchange_only r + 1);
         sr_slippage := sr_slippage r; sr_abs_slippage := sr_abs_slippage r; sr_latency := sr_latency r |}
  | None, None => r
  end.
Definition shadow_totals (t : ShadowTracker) : shadow_report :=
  foldl (λ r x, sr_add r x.2)
    {| sr_both := 0; sr_sim_only := 0; sr_exchange_only := 0; sr_slippage := n_zero; sr_abs_slippage := n_zero; sr_latency := 0 |}
    (iter t).

End Trackers.

(** ** Every fill is marked once, kept or dropped *)

Section Adverse.
Context {A : Arith}.

Inductive as_input := as_fill (f : fill_msg) | as_mark (symbol : string) (mid : num) (ts : time_point).
Definition as_step (t : AdverseSelectionTracker) (i : as_input) : AdverseSelectionTracker :=
  match i with as_fill f => as_on_fill f t | as_mark s m ts => as_on_mark s m ts t end.
Definition is_fill (i : as_input) : bool := match i with as_fill _ => true | _ => false end.
Definition fill_count (l : list as_input) : Z := Z.of_nat (length (filter (λ i, is_fill i = true) l)).

Lemma w_sample_count {X} (g : X → num) (xs : list X) : ∀ w, 0 <= w_n w → w_n w + Z.of_nat (length xs) < 2 ^ 64 →
  w_n (foldl (λ w x, w_sample (g x) w) w xs) = w_n w + Z.of_nat (length xs).
Proof.
  induction xs as [|x xs IH]; intros w H0 H1; cbn [foldl length] in *; [lia|]. assert (u64 (w_n w + 1) = w_n w + 1) as E by (apply wrapu_id; unfold in_u; lia).
  rewrite IH; cbn [w_sample w_n]; rewrite ?E; lia.
Qed.

Lemma split_by {X} (f : X → bool) (l : list X) :
  (length (filter (λ x, f x = false) l) + length (filter (λ x, f x = true) l) = length l)%nat.
Proof. induction l as [|x l IH]; [done|]. rewrite !filter_cons. destruct (f x); cbn [decide bool_eq_dec length] in *; repeat case_decide; cbn [length]; try done; lia. Qed.

(** No fill is lost: of those seen, each is waiting for its mark, was sampled, or was
    dropped for room; the queue never exceeds its bound. *)
Lemma fills_accounted h m (l : list as_input) : 0 < m → Z.of_nat (length l) < 2 ^ 64 →
  let t := foldl as_step (mk_adverse h m) l in
  w_n (as_stats t) + Z.of_nat (length (as_pending t)) + as_dropped t = fill_count l ∧ Z.of_nat (length (as_pending t)) <= m.
Proof.
  intros Hm Hl. cbv zeta.
  enough (let t := foldl as_step (mk_adverse h m) l in 0 <= w_n (as_stats t) ∧ 0 <= as_dropped t ∧ as_max_pending t = m ∧
    w_n (as_stats t) + Z.of_nat (length (as_pending t)) + as_dropped t = fill_count l ∧ Z.of_nat (length (as_pending t)) <= m) by (cbv zeta in *; tauto).
  induction l as [|i l IH] using rev_ind; [cbv zeta; split_and!; done || (cbn; lia)|]. rewrite length_app in Hl. cbn [length] in Hl. cbv zeta. rewrite foldl_app. cbn [foldl].
  specialize (IH ltac:(lia)). cbv zeta in IH. set (t := foldl as_step _ l) in *. clearbody t. destruct IH as (I1 & I2 & I3 & I4 & I5).
  assert (fill_count l <= Z.of_nat (length l)) as Hc.
  { unfold fill_count. pose proof (length_filter (λ i, is_fill i = true) l). lia. }
  unfold fill_count in *. rewrite filter_app, length_app. destruct i as [f|s mid ts]; cbn [as_step].
  - change (filter _ [as_fill f]) with [as_fill f]. unfold as_on_fill. rewrite I3. cbn [as_set as_stats as_pending as_dropped as_max_pending].
    rewrite length_app. cbn [length]. destruct (Z.ltb_spec 0 m); [|lia]. cbn [andb].
    destruct (Z.leb_spec m (Z.of_nat (length (as_pending t)))) as [Hf|Hf]; [|lia].
    rewrite wrapu_id by (unfold in_u; lia). destruct (as_pending t) as [|x p]; cbn [tail length] in *; [lia|]. lia.
  - change (filter _ [as_mark s mid ts]) with (@nil as_input). cbn [length]. unfold as_on_mark. destruct (negb _); [lia|].
    cbn [as_set as_stats as_pending as_dropped as_max_pending]. pose proof (split_by (is_due s ts) (as_pending t)) as Hs.
    rewrite w_sample_count; lia.
Qed.
End Adverse.

(** ** Bars *)

Section Bars.
Context {A : Arith}.

#[local] Abbreviation block := (tick_msg * list tick_msg)%type.
Definition block_ticks (b : block) : list tick_msg := b.1 :: b.2.
Definition block_bar (b : block) : bar_state := foldl (λ b t, extend_bar t b) (start_bar b.1) b.2.

Lemma block_bar_start b : bs_start (block_bar b) = tm_ts b.1.
Proof. destruct b as [t ts]. unfold block_bar. cbn [fst snd]. induction ts as [|x ts IH] using rev_ind; [done|]. by rewrite foldl_app. Qed.

(** How the stream is cut: a block lasts while the ticks come within the interval of
    its first one. *)
Record cut (iv : Z) (ticks : list tick_msg) (bs : list block) : Prop := {
  ct_all : concat (block_ticks <$> bs) = ticks;
  ct_within : ∀ b t, b ∈ bs → t ∈ b.2 → Z.quot (tm_ts t - tm_ts b.1) 1000000 < iv;
  ct_apart : ∀ i b b', bs !! i = Some b → bs !! S i = Some b' → iv <= Z.quot (tm_ts b'.1 - tm_ts b.1) 1000000 }.

Lemma run_cut iv ticks : let g := foldl (λ g t, ba_on_tick t g) (mk_aggregator iv) ticks in
  ba_interval_ms g = iv ∧
  match ba_bar g with
  | None => ticks = [] ∧ ba_out g = []
  | Some cur => ∃ bs b, cut iv ticks (bs ++ [b]) ∧ ba_out g = block_bar <$> bs ∧ cur = block_bar b
  end.
Proof.
  induction ticks as [|t ticks IH] using rev_ind; [done|]. rewrite foldl_app. cbn [foldl]. cbv zeta in *.
  set (g := foldl _ _ ticks) in *. clearbody g. destruct g as [iv' [cur|] out]; cbn [ba_interval_ms ba_bar ba_out] in *; destruct IH as [-> IH].
  - destruct IH as (bs & [t0 ts] & [Hc Hw Ha] & Ho & ->). unfold ba_on_tick. cbn [ba_interval_ms ba_bar ba_out].
    unfold elapsed_ms. rewrite block_bar_start. cbn [fst]. rewrite fmap_app, concat_app in Hc. cbn in Hc. rewrite app_nil_r in Hc.
    destruct (Z.leb_spec iv (Z.quot (tm_ts t - tm_ts t0) 1000000)) as [Hge|Hlt]; cbn [ba_interval_ms ba_bar ba_out]; split; try done.
    + exists (bs ++ [(t0, ts)]), (t, []). split; [|by rewrite fmap_app, Ho]. split.
      * rewrite !fmap_app, !concat_app. cbn. rewrite !app_nil_r. by rewrite <- Hc.
      * intros b x [Hb|Hb%list_elem_of_singleton]%elem_of_app Hx; [by apply (Hw b)|]. subst. by apply elem_of_nil in Hx.
      * intros i b b' Hi Hi'. apply lookup_app_Some in Hi' as [Hi'|[Hl Hi']].
        -- apply (Ha i); [|done]. rewrite lookup_app_l in Hi; [done|]. apply lookup_lt_Some in Hi'. lia.
        -- apply list_lookup_singleton_Some in Hi' as [Hz <-]. rewrite length_app in *. cbn [length] in *.
           replace i with (length bs) in Hi by lia. rewrite <- app_assoc in Hi. cbn [app] in Hi. rewrite list_lookup_middle in Hi by done. by injection Hi as <-.
    + exists bs, (t0, ts ++ [t]). split; [|split; [done|]; unfold block_bar; cbn [fst snd]; by rewrite foldl_app]. split.
      * rewrite fmap_app, concat_app. cbn. rewrite app_nil_r, <- Hc. by rewrite <- app_assoc.
      * intros b x [Hb|Hb%list_elem_of_singleton]%elem_of_app Hx; [apply (Hw b); [set_solver|done]|]. subst b. cbn [fst snd] in *.
        apply elem_of_app in Hx as [Hx|Hx%list_elem_of_singleton]; [|by subst]. apply (Hw (t0, ts)); [set_solver|done].
      * intros i b b' Hi Hi'. assert (∀ k x, (bs ++ [(t0, ts ++ [t])]) !! k = Some x → ∃ y, (bs ++ [(t0, ts)]) !! k = Some y ∧ y.1 = x.1) as Hk.
        { intros k x Hx. apply lookup_app_Some in Hx as [Hx|[Hl Hx]]; [exists x; split; [by apply lookup_app_l_Some|done]|].
          apply list_lookup_singleton_Some in Hx as [Hz <-]. exists (t0, ts). split; [|done]. rewrite lookup_app_r by done. by replace (k - length bs)%nat with 0%nat by lia. }
        destruct (Hk _ _ Hi) as (y & Hy & <-), (Hk _ _ Hi') as (y' & Hy' & <-). by apply (Ha i).
  - destruct IH as [-> ->]. split; [done|]. exists [], (t, []). split; [|done]. split; [done| |].
    + intros b x ->%list_elem_of_singleton Hx. by apply elem_of_nil in Hx.
    + intros [|i] b b' _ Hi'; done.
Qed.
End Bars.

Section Summary.
#[local] Existing Instance exact_arith.
#[local] Abbreviation qblock := (tick_msg (A := exact_arith) * list (tick_msg (A := exact_arith)))%type.

Definition total_volume (ts : list (tick_msg (A := exact_arith))) : Z := foldr (λ t v, tm_quantity t + v) 0 ts.

Lemma total_volume_snoc ts t : total_volume (ts ++ [t]) = total_volume ts + tm_quantity t.
Proof. induction ts as [|x ts IH]; cbn [app total_volume foldr] in *; [lia|]. unfold total_volume in IH. rewrite IH. cbn. lia. Qed.
Lemma i64_add_l a b : i64 (i64 a + b) = i64 (a + b).
Proof.
  unfold wraps. set (m := 2 ^ (64 - 1)). f_equal. replace ((a + m) mod 2 ^ 64 - m + b + m) with ((a + m) mod 2 ^ 64 + b) by lia.
  rewrite Zplus_mod_idemp_l. f_equal. lia.
Qed.

Lemma i64_i64 a : i64 (i64 a) = i64 a.
Proof. rewrite <- (Z.add_0_r (i64 a)), i64_add_l. by rewrite !Z.add_0_r. Qed.

(** What a bar says of the ticks of its block. *)
Record summarises (b : qblock) (s : bar_state) : Prop := {
  su_start : bs_start s = tm_ts b.1;
  su_symbol : bs_symbol s = tm_symbol b.1;
  su_open : bs_open s = tm_price b.1;
  su_close : Some (bs_close s) = tm_price <$> last (block_ticks b);
  su_range : ∀ t, t ∈ block_ticks b → (bs_low s <= tm_price t)%Q ∧ (tm_price t <= bs_high s)%Q;
  su_high : ∃ t, t ∈ block_ticks b ∧ bs_high s = tm_price t;
  su_low : ∃ t, t ∈ block_ticks b ∧ bs_low s = tm_price t;
  su_volume : i64 (bs_volume s) = i64 (total_volume (block_ticks b)) }.

Lemma extend_summarises t0 ts t s : summarises (t0, ts) s → summarises (t0, ts ++ [t]) (extend_bar t s).
Proof.
  intros [H1 H2 H3 H4 H5 (th & Hth & H6) (tl & Htl & H7) H8]. unfold block_ticks in *. cbn [fst snd] in *.
  assert (t0 :: ts ++ [t] = (t0 :: ts) ++ [t]) as E by done.
  assert (∀ x, x ∈ t0 :: ts ++ [t] ↔ x ∈ t0 :: ts ∨ x = t) as Hin by (intros x; rewrite E, elem_of_app, list_elem_of_singleton; done).
  destruct s as [st sy o h l c v]. unfold extend_bar, n_max, n_min. cbn [bs_start bs_symbol bs_open bs_high bs_low bs_close bs_volume] in *. subst h l. tt_exact.
  assert (∀ x, x = th ∨ x = tl ∨ x = t → x ∈ t0 :: ts ++ [t]) as Hin' by (intros x [-> |[-> | ->]]; rewrite Hin; tauto).
  split; unfold block_ticks; cbn [fst snd bs_start bs_symbol bs_open bs_high bs_low bs_close bs_volume]; try done.
  - by rewrite E, last_snoc.
  - intros x [Hx| ->]%Hin.
    + destruct (H5 x Hx) as [Ha Hb]. destruct (Qltb_spec (tm_price t) (tm_price tl)), (Qltb_spec (tm_price th) (tm_price t)); split; lra.
    + destruct (Qltb_spec (tm_price t) (tm_price tl)), (Qltb_spec (tm_price th) (tm_price t)); split; lra.
  - destruct (Qltb (tm_price th) (tm_price t)); eexists; (split; [apply Hin'|reflexivity]); tauto.
  - destruct (Qltb (tm_price t) (tm_price tl)); eexists; (split; [apply Hin'|reflexivity]); tauto.
  - rewrite E, total_volume_snoc, <- (i64_add_l (total_volume _)), <- H8, i64_add_l. apply i64_i64.
Qed.

Lemma block_summarised (b : qblock) : summarises b (block_bar b).
Proof.
  destruct b as [t0 ts]. induction ts as [|t ts IH] using rev_ind.
  - unfold block_bar. cbn [fst snd foldl start_bar]. split; unfold block_ticks; cbn [fst snd bs_start bs_symbol bs_open bs_high bs_low bs_close bs_volume]; try done.
    + intros t ->%list_elem_of_singleton. split; apply Qle_refl.
    + exists t0. split; [by left|done].
    + exists t0. split; [by left|done].
    + cbn. f_equal. lia.
  - unfold block_bar in *. cbn [fst snd] in *. rewrite foldl_app. cbn [foldl]. by apply extend_summarises.
Qed.

(** the bars of a tick stream that is flushed once at its end are its cut into
    consecutive blocks, each lasting while the ticks come within the interval of its
    first: no tick is lost or counted twice, a block's bar opens at its first price,
    closes at its last, has the highest, the lowest and the volume of exactly its
    ticks, and the next block begins an interval or more after it did. *)
Theorem bars_cut_the_ticks iv (ticks : list (tick_msg (A := exact_arith))) :
  ∃ bs : list qblock, cut iv ticks bs ∧
    Forall2 summarises bs (ba_out (ba_flush (foldl (λ g t, ba_on_tick t g) (mk_aggregator iv) ticks))).
Proof.
  pose proof (run_cut iv ticks) as Hr. cbv zeta in Hr. set (g := foldl _ _ ticks) in *. clearbody g. destruct g as [iv' [cur|] out].
  - destruct Hr as (_ & bs & b & Hc & Ho & Eb). cbn [ba_bar ba_out] in *. subst. exists (bs ++ [b]). split; [done|].
    unfold ba_flush. cbn [ba_bar ba_out]. change [block_bar b] with (block_bar <$> [b]). rewrite <- fmap_app.
    apply Forall2_fmap_r, Forall2_same_length_lookup_2; [done|]. intros i x y Hx Hy. rewrite Hx in Hy. injection Hy as <-. apply block_summarised.
  - destruct Hr as (_ & -> & Ho). cbn [ba_out] in Ho. subst. exists []. split; [|by cbn]. split; [done| |done]. intros b t Hb. by apply elem_of_nil in Hb.
Qed.

(** Flushed twice, the aggregator gives the same bar twice, and a tick in between
    extends the bar already given. *)
Lemma flush_repeats {A : Arith} (g : BarAggregator) b : ba_bar g = Some b →
  ba_out (ba_flush (ba_flush g)) = ba_out g ++ [b; b].
Proof. intros E. unfold ba_flush. rewrite E. cbn [ba_bar ba_out]. by rewrite <- app_assoc. Qed.
End Summary.
