(* ===== verification/EngineState.v ===== *)
(** * The engine: its collaborators and its state (src/src/engine/engine.h,
    engine_config.h, execution_router.h, src/src/strategy/strategy_interface.h,
    src/src/execution/execution_adapter.h)

    The engine composes the components of this library.  It reaches the venue side
    through virtual calls on shared adapter objects and reads market data, clocks
    and random latencies that are not its own: those are the interface [Execution]
    over a world [W], in which adapters, books and rings live as objects with
    handles.  Strategies are the interface [IStrategy].  Everything else is the
    state below, and an operation is a function on it that may throw: [E].

    Two parameters every call passes by reference, the event counter and the halt
    request, are fields of the state; [with_local] gives a callee a fresh halt
    request, the way a caller passes it a local variable.  [en_out] records what
    the engine does in the order it does it. *)

From S2P Require Import Prelude Float64 Event Bridge NodeHeap OrderBook Arith Portfolio Sizing Risk Exits ExitPolicy.
From S2P Require Import ClientOrderId EngineEvents Analytics Trackers.

Open Scope string_scope.
Open Scope list_scope.
Open Scope Z_scope.

(** ** Modes and rings *)

Inductive engine_mode := mode_backtest | mode_shadow | mode_live.
#[export] Instance engine_mode_eq_dec : EqDecision engine_mode.
Proof. solve_decision. Defined.
Inductive ring_drop_policy := drop_allow | halt_on_drop | drop_block.
#[export] Instance ring_drop_policy_eq_dec : EqDecision ring_drop_policy.
Proof. solve_decision. Defined.
Inductive thread_preset := inline_mode | preset_light | preset_standard | preset_full | preset_extended.
#[export] Instance thread_preset_eq_dec : EqDecision thread_preset.
Proof. solve_decision. Defined.
Inductive ring_name := ring_logging | ring_risk | ring_stats | ring_observer | ring_risk_stats | ring_mm.
#[export] Instance ring_name_eq_dec : EqDecision ring_name.
Proof. solve_decision. Defined.
#[export] Instance ring_name_countable : Countable ring_name.
Proof.
  refine (inj_countable' (λ r, match r with ring_logging => 0 | ring_risk => 1 | ring_stats => 2 | ring_observer => 3
                               | ring_risk_stats => 4 | ring_mm => 5 end)
            (λ n, match n with 0 => ring_logging | 1 => ring_risk | 2 => ring_stats | 3 => ring_observer | 4 => ring_risk_stats
                  | _ => ring_mm end) _). by intros [].
Defined.

(** The rings a published event is pushed to, and whether losing it is unsafe. *)
Definition rings_of (t : thread_preset) : list (ring_name * bool) :=
  match t with
  | inline_mode => []
  | preset_light => [(ring_observer, true)]
  | preset_standard => [(ring_logging, false); (ring_risk_stats, true)]
  | preset_full => [(ring_logging, false); (ring_risk, true); (ring_stats, false)]
  | preset_extended => [(ring_logging, false); (ring_risk, true); (ring_stats, false); (ring_mm, false)]
  end.

Section Engine.
Context {A : Arith} {HO : HashOrder} {MO : MultiOrder}.

(** ** Events and records the engine puts out *)

Inductive engine_event :=
| ev_order (o : order_msg)
| ev_fill (f : fill_msg)
| ev_rejection (ts : time_point) (symbol : string) (id : Z) (reason : string)
| ev_cancel (ts : time_point) (symbol : string) (id : Z) (reason : string)
| ev_amend (ts : time_point) (symbol : string) (id : Z) (price quantity : num)
| ev_market (m : market_msg)
| ev_tick (t : tick_msg)
| ev_l2_snapshot (symbol : string) (bids asks : list (num * Z))
| ev_l2_update (symbol : string) (side : tick_side) (price : num) (quantity : Z)
| ev_funding (ts : time_point) (symbol : string) (cash_delta : num) (reason : string).

(** What the audit sink is told. *)
Inductive audit_record :=
| au_submitted (id : Z) (status : string)
| au_transition (id : Z) (from to : order_status) (reason : option string)
| au_fill (f : fill_msg) (opener : Z) (strategy source : string)
| au_rejection (id : Z) (category detail : string)
| au_cancellation (id : Z) (symbol strategy reason : string)
| au_amendment (id : Z) (symbol : string) (price quantity : num)
| au_funding (cash_delta : num)
| au_event (kind : string) (id : Z) (severity message : string).

Inductive output :=
| out_log (e : engine_event)
| out_publish (e : engine_event)
| out_submit (adapter : Z) (o : order_msg)
| out_audit (r : audit_record)
| out_halt (reason : string).

(** ** The interfaces *)

(** Every callback may throw; it leaves the strategy as it was when it did. *)
Class IStrategy (S : Type) := {
  st_on_market : market_msg → S → exc (option order_msg) * S;
  st_on_tick : tick_msg → S → exc (option order_msg) * S;
  st_on_l2_update : string → tick_side → num → Z → S → exc (option order_msg) * S;
  st_set_position_open : string → bool → S → exc unit * S;
  st_on_fill : fill_msg → Z → S → exc unit * S;
  st_take_pending_exit_intents : S → exc (list exit_intent) * S }.

(** The pools the engine takes its events from. *)
Inductive event_pool :=
| market_pool | tick_pool | order_pool | fill_pool | l2_snapshot_pool | l2_update_pool | rejection_pool | cancel_pool | amend_pool | funding_pool.

(** The adapters by handle ([ad_*]), the books and the market maker by symbol
    ([bk_*]), and what the process gives the engine.  [ad_new] makes the adapter of
    a symbol: queue-aware when the flag is set, else over the symbol's book. *)
Class Execution (W : Type) := {
  ad_new : bool → string → W → exc Z * W;
  ad_is_async : Z → W → bool;
  ad_set_mid_price : Z → num → W → W;
  ad_set_l2_seeded : Z → bool → W → W;
  ad_submit : Z → order_msg → W → exc unit * W;
  ad_poll_fills : Z → W → list fill_msg * W;
  ad_cancel : Z → Z → W → exc bool * W;
  ad_modify : Z → Z → num → num → W → exc bool * W;
  ad_advance : Z → time_point → W → exc unit * W;
  ad_on_trade : Z → string → num → num → time_point → W → W;
  ad_on_l2_snapshot : Z → string → list (num * num) → list (num * num) → W → W;
  ad_on_l2_update : Z → string → order_side → num → num → W → W;
  ad_on_book_trades : Z → list trade → time_point → W → W;
  ad_sweep : Z → string → num → num → time_point → W → exc bool * W;
  ad_poll_results : Z → W → list submit_result * W;
  ad_poll_meta : Z → W → list synth_meta * W;
  bk_get_or_create : string → W → exc unit * W;
  bk_replenish : string → num → bool → W → exc (list trade) * W;
  bk_cancel_in : string → Z → W → exc unit * W;
  bk_l2_snapshot : string → list (num * Z) → list (num * Z) → W → exc unit * W;
  bk_l2_update : string → bool → num → Z → W → exc unit * W;
  w_next_id : W → Z * W;
  bk_add_maker_order : order_msg → W → exc (list trade) * W;
  bk_reset : W → W;
  w_now : W → time_point * W;
  w_steady_ns : W → Z * W;
  w_order_latency : W → Z * W;
  (** Push to a ring, waiting as the policy says: whether it got in. *)
  w_ring_push : ring_name → engine_event → W → bool * W;
  (** What the ring of the market maker's worker yields until it is empty. *)
  w_maker_orders : W → list order_msg * W;
  w_worker_failed : W → bool;
  w_instrument : string → W → option instrument_spec;
  (** Take an object from a pool: nothing to say, or why there is none. *)
  w_acquire : event_pool → W → option string * W;
  w_on_mid_price : string → num → W → W }.

(** ** Configuration and state *)

(** The provider: whether it executes, and its adapter. *)
Record provider := { pv_has_execution : bool; pv_adapter : option Z }.

Record engine_config := {
  cf_mode : engine_mode;
  cf_provider : option provider;
  cf_threading : thread_preset;
  cf_drop_policy : ring_drop_policy;
  cf_risk_unwind : bool;
  cf_risk_check : option (risk_order → portfolio → num → option string);
  cf_latency_model : bool;
  cf_execution_bar_delay : Z;
  cf_exit_defaults : default_exit_params;
  cf_maker_queue : bool;
  cf_event_logger : bool;
  cf_mm_worker : bool;
  cf_overrides : gmap string instrument_spec;
  cf_initial_balance : num;
  cf_primary_name : string;
  cf_extra_names : list string }.
Definition is_threaded (c : engine_config) : bool := bool_decide (cf_threading c ≠ inline_mode).

Record pending_cancel_meta := { pc_symbol : string; pc_reason : string }.
Record order_meta := { mt_opener : Z; mt_strategy : string }.
Record pending_entry := { pe_order : order_msg; pe_seq : Z }.

Context {S : Type} {SI : IStrategy S} {W : Type} {XW : Execution W} (log_ : num → num).

Record engine := {
  en_cfg : engine_config;
  en_portfolio : portfolio;
  en_risk : RiskManager;
  en_exits : ExitManager;
  en_tracker : OrderTracker;
  en_analytics : Analytics;
  en_adverse : AdverseSelectionTracker;
  en_shadow : option ShadowTracker;
  en_exchange_portfolio : option portfolio;
  en_exchange_analytics : option Analytics;
  en_stops : list order_msg;
  en_pending : list pending_entry;
  en_seq : Z;
  en_day_orders : list (string * Z);
  en_cancels : gmap Z pending_cancel_meta;
  en_meta : gmap Z order_meta;
  en_adapters : gmap string Z;
  en_specs : gmap string (option instrument_spec);
  en_l2_seeded : gset string;
  en_mid : num;
  en_mark_symbol : string;
  en_halt : bool;
  en_pause : bool;
  en_flatten : bool;
  en_drops : gmap ring_name Z;
  en_strategy : option S;
  en_extras : list S;
  en_world : W;
  en_out : list output;
  en_count : Z;
  en_halt_req : bool }.

Definition set_en_portfolio (x : portfolio) (e : engine) : engine :=
  {| en_cfg := en_cfg e; en_portfolio := x; en_risk := en_risk e; en_exits := en_exits e;
     en_tracker := en_tracker e; en_analytics := en_analytics e; en_adverse := en_adverse e;
     en_shadow := en_shadow e; en_exchange_portfolio := en_exchange_portfolio e;
     en_exchange_analytics := en_exchange_analytics e; en_stops := en_stops e; en_pending := en_pending e;
     en_seq := en_seq e; en_day_orders := en_day_orders e; en_cancels := en_cancels e; en_meta := en_meta e;
     en_adapters := en_adapters e; en_specs := en_specs e; en_l2_seeded := en_l2_seeded e; en_mid := en_mid e;
     en_mark_symbol := en_mark_symbol e; en_halt := en_halt e; en_pause := en_pause e; en_flatten := en_flatten e;
     en_drops := en_drops e; en_strategy := en_strategy e; en_extras := en_extras e; en_world := en_world e;
     en_out := en_out e; en_count := en_count e; en_halt_req := en_halt_req e |}.
Definition set_en_risk (x : RiskManager) (e : engine) : engine :=
  {| en_cfg := en_cfg e; en_portfolio := en_portfolio e; en_risk := x; en_exits := en_exits e;
     en_tracker := en_tracker e; en_analytics := en_analytics e; en_adverse := en_adverse e;
     en_shadow := en_shadow e; en_exchange_portfolio := en_exchange_portfolio e;
     en_exchange_analytics := en_exchange_analytics e; en_stops := en_stops e; en_pending := en_pending e;
     en_seq := en_seq e; en_day_orders := en_day_orders e; en_cancels := en_cancels e; en_meta := en_meta e;
     en_adapters := en_adapters e; en_specs := en_specs e; en_l2_seeded := en_l2_seeded e; en_mid := en_mid e;
     en_mark_symbol := en_mark_symbol e; en_halt := en_halt e; en_pause := en_pause e; en_flatten := en_flatten e;
     en_drops := en_drops e; en_strategy := en_strategy e; en_extras := en_extras e; en_world := en_world e;
     en_out := en_out e; en_count := en_count e; en_halt_req := en_halt_req e |}.
Definition set_en_exits (x : ExitManager) (e : engine) : engine :=
  {| en_cfg := en_cfg e; en_portfolio := en_portfolio e; en_risk := en_risk e; en_exits := x;
     en_tracker := en_tracker e; en_analytics := en_analytics e; en_adverse := en_adverse e;
     en_shadow := en_shadow e; en_exchange_portfolio := en_exchange_portfolio e;
     en_exchange_analytics := en_exchange_analytics e; en_stops := en_stops e; en_pending := en_pending e;
     en_seq := en_seq e; en_day_orders := en_day_orders e; en_cancels := en_cancels e; en_meta := en_meta e;
     en_adapters := en_adapters e; en_specs := en_specs e; en_l2_seeded := en_l2_seeded e; en_mid := en_mid e;
     en_mark_symbol := en_mark_symbol e; en_halt := en_halt e; en_pause := en_pause e; en_flatten := en_flatten e;
     en_drops := en_drops e; en_strategy := en_strategy e; en_extras := en_extras e; en_world := en_world e;
     en_out := en_out e; en_count := en_count e; en_halt_req := en_halt_req e |}.
Definition set_en_tracker (x : OrderTracker) (e : engine) : engine :=
  {| en_cfg := en_cfg e; en_portfolio := en_portfolio e; en_risk := en_risk e; en_exits := en_exits e;
     en_tracker := x; en_analytics := en_analytics e; en_adverse := en_adverse e; en_shadow := en_shadow e;
     en_exchange_portfolio := en_exchange_portfolio e; en_exchange_analytics := en_exchange_analytics e;
     en_stops := en_stops e; en_pending := en_pending e; en_seq := en_seq e; en_day_orders := en_day_orders e;
     en_cancels := en_cancels e; en_meta := en_meta e; en_adapters := en_adapters e; en_specs := en_specs e;
     en_l2_seeded := en_l2_seeded e; en_mid := en_mid e; en_mark_symbol := en_mark_symbol e; en_halt := en_halt e;
     en_pause := en_pause e; en_flatten := en_flatten e; en_drops := en_drops e; en_strategy := en_strategy e;
     en_extras := en_extras e; en_world := en_world e; en_out := en_out e; en_count := en_count e;
     en_halt_req := en_halt_req e |}.
Definition set_en_analytics (x : Analytics) (e : engine) : engine :=
  {| en_cfg := en_cfg e; en_portfolio := en_portfolio e; en_risk := en_risk e; en_exits := en_exits e;
     en_tracker := en_tracker e; en_analytics := x; en_adverse := en_adverse e; en_shadow := en_shadow e;
     en_exchange_portfolio := en_exchange_portfolio e; en_exchange_analytics := en_exchange_analytics e;
     en_stops := en_stops e; en_pending := en_pending e; en_seq := en_seq e; en_day_orders := en_day_orders e;
     en_cancels := en_cancels e; en_meta := en_meta e; en_adapters := en_adapters e; en_specs := en_specs e;
     en_l2_seeded := en_l2_seeded e; en_mid := en_mid e; en_mark_symbol := en_mark_symbol e; en_halt := en_halt e;
     en_pause := en_pause e; en_flatten := en_flatten e; en_drops := en_drops e; en_strategy := en_strategy e;
     en_extras := en_extras e; en_world := en_world e; en_out := en_out e; en_count := en_count e;
     en_halt_req := en_halt_req e |}.
Definition set_en_adverse (x : AdverseSelectionTracker) (e : engine) : engine :=
  {| en_cfg := en_cfg e; en_portfolio := en_portfolio e; en_risk := en_risk e; en_exits := en_exits e;
     en_tracker := en_tracker e; en_analytics := en_analytics e; en_adverse := x; en_shadow := en_shadow e;
     en_exchange_portfolio := en_exchange_portfolio e; en_exchange_analytics := en_exchange_analytics e;
     en_stops := en_stops e; en_pending := en_pending e; en_seq := en_seq e; en_day_orders := en_day_orders e;
     en_cancels := en_cancels e; en_meta := en_meta e; en_adapters := en_adapters e; en_specs := en_specs e;
     en_l2_seeded := en_l2_seeded e; en_mid := en_mid e; en_mark_symbol := en_mark_symbol e; en_halt := en_halt e;
     en_pause := en_pause e; en_flatten := en_flatten e; en_drops := en_drops e; en_strategy := en_strategy e;
     en_extras := en_extras e; en_world := en_world e; en_out := en_out e; en_count := en_count e;
     en_halt_req := en_halt_req e |}.
Definition set_en_shadow (x : option ShadowTracker) (e : engine) : engine :=
  {| en_cfg := en_cfg e; en_portfolio := en_portfolio e; en_risk := en_risk e; en_exits := en_exits e;
     en_tracker := en_tracker e; en_analytics := en_analytics e; en_adverse := en_adverse e; en_shadow := x;
     en_exchange_portfolio := en_exchange_portfolio e; en_exchange_analytics := en_exchange_analytics e;
     en_stops := en_stops e; en_pending := en_pending e; en_seq := en_seq e; en_day_orders := en_day_orders e;
     en_cancels := en_cancels e; en_meta := en_meta e; en_adapters := en_adapters e; en_specs := en_specs e;
     en_l2_seeded := en_l2_seeded e; en_mid := en_mid e; en_mark_symbol := en_mark_symbol e; en_halt := en_halt e;
     en_pause := en_pause e; en_flatten := en_flatten e; en_drops := en_drops e; en_strategy := en_strategy e;
     en_extras := en_extras e; en_world := en_world e; en_out := en_out e; en_count := en_count e;
     en_halt_req := en_halt_req e |}.
Definition set_en_exchange_portfolio (x : option portfolio) (e : engine) : engine :=
  {| en_cfg := en_cfg e; en_portfolio := en_portfolio e; en_risk := en_risk e; en_exits := en_exits e;
     en_tracker := en_tracker e; en_analytics := en_analytics e; en_adverse := en_adverse e;
     en_shadow := en_shadow e; en_exchange_portfolio := x; en_exchange_analytics := en_exchange_analytics e;
     en_stops := en_stops e; en_pending := en_pending e; en_seq := en_seq e; en_day_orders := en_day_orders e;
     en_cancels := en_cancels e; en_meta := en_meta e; en_adapters := en_adapters e; en_specs := en_specs e;
     en_l2_seeded := en_l2_seeded e; en_mid := en_mid e; en_mark_symbol := en_mark_symbol e; en_halt := en_halt e;
     en_pause := en_pause e; en_flatten := en_flatten e; en_drops := en_drops e; en_strategy := en_strategy e;
     en_extras := en_extras e; en_world := en_world e; en_out := en_out e; en_count := en_count e;
     en_halt_req := en_halt_req e |}.
Definition set_en_exchange_analytics (x : option Analytics) (e : engine) : engine :=
  {| en_cfg := en_cfg e; en_portfolio := en_portfolio e; en_risk := en_risk e; en_exits := en_exits e;
     en_tracker := en_tracker e; en_analytics := en_analytics e; en_adverse := en_adverse e;
     en_shadow := en_shadow e; en_exchange_portfolio := en_exchange_portfolio e; en_exchange_analytics := x;
     en_stops := en_stops e; en_pending := en_pending e; en_seq := en_seq e; en_day_orders := en_day_orders e;
     en_cancels := en_cancels e; en_meta := en_meta e; en_adapters := en_adapters e; en_specs := en_specs e;
     en_l2_seeded := en_l2_seeded e; en_mid := en_mid e; en_mark_symbol := en_mark_symbol e; en_halt := en_halt e;
     en_pause := en_pause e; en_flatten := en_flatten e; en_drops := en_drops e; en_strategy := en_strategy e;
     en_extras := en_extras e; en_world := en_world e; en_out := en_out e; en_count := en_count e;
     en_halt_req := en_halt_req e |}.
Definition set_en_stops (x : list order_msg) (e : engine) : engine :=
  {| en_cfg := en_cfg e; en_portfolio := en_portfolio e; en_risk := en_risk e; en_exits := en_exits e;
     en_tracker := en_tracker e; en_analytics := en_analytics e; en_adverse := en_adverse e;
     en_shadow := en_shadow e; en_exchange_portfolio := en_exchange_portfolio e;
     en_exchange_analytics := en_exchange_analytics e; en_stops := x; en_pending := en_pending e;
     en_seq := en_seq e; en_day_orders := en_day_orders e; en_cancels := en_cancels e; en_meta := en_meta e;
     en_adapters := en_adapters e; en_specs := en_specs e; en_l2_seeded := en_l2_seeded e; en_mid := en_mid e;
     en_mark_symbol := en_mark_symbol e; en_halt := en_halt e; en_pause := en_pause e; en_flatten := en_flatten e;
     en_drops := en_drops e; en_strategy := en_strategy e; en_extras := en_extras e; en_world := en_world e;
     en_out := en_out e; en_count := en_count e; en_halt_req := en_halt_req e |}.
Definition set_en_pending (x : list pending_entry) (e : engine) : engine :=
  {| en_cfg := en_cfg e; en_portfolio := en_portfolio e; en_risk := en_risk e; en_exits := en_exits e;
     en_tracker := en_tracker e; en_analytics := en_analytics e; en_adverse := en_adverse e;
     en_shadow := en_shadow e; en_exchange_portfolio := en_exchange_portfolio e;
     en_exchange_analytics := en_exchange_analytics e; en_stops := en_stops e; en_pending := x; en_seq := en_seq e;
     en_day_orders := en_day_orders e; en_cancels := en_cancels e; en_meta := en_meta e;
     en_adapters := en_adapters e; en_specs := en_specs e; en_l2_seeded := en_l2_seeded e; en_mid := en_mid e;
     en_mark_symbol := en_mark_symbol e; en_halt := en_halt e; en_pause := en_pause e; en_flatten := en_flatten e;
     en_drops := en_drops e; en_strategy := en_strategy e; en_extras := en_extras e; en_world := en_world e;
     en_out := en_out e; en_count := en_count e; en_halt_req := en_halt_req e |}.
Definition set_en_seq (x : Z) (e : engine) : engine :=
  {| en_cfg := en_cfg e; en_portfolio := en_portfolio e; en_risk := en_risk e; en_exits := en_exits e;
     en_tracker := en_tracker e; en_analytics := en_analytics e; en_adverse := en_adverse e;
     en_shadow := en_shadow e; en_exchange_portfolio := en_exchange_portfolio e;
     en_exchange_analytics := en_exchange_analytics e; en_stops := en_stops e; en_pending := en_pending e;
     en_seq := x; en_day_orders := en_day_orders e; en_cancels := en_cancels e; en_meta := en_meta e;
     en_adapters := en_adapters e; en_specs := en_specs e; en_l2_seeded := en_l2_seeded e; en_mid := en_mid e;
     en_mark_symbol := en_mark_symbol e; en_halt := en_halt e; en_pause := en_pause e; en_flatten := en_flatten e;
     en_drops := en_drops e; en_strategy := en_strategy e; en_extras := en_extras e; en_world := en_world e;
     en_out := en_out e; en_count := en_count e; en_halt_req := en_halt_req e |}.
Definition set_en_day_orders (x : list (string * Z)) (e : engine) : engine :=
  {| en_cfg := en_cfg e; en_portfolio := en_portfolio e; en_risk := en_risk e; en_exits := en_exits e;
     en_tracker := en_tracker e; en_analytics := en_analytics e; en_adverse := en_adverse e;
     en_shadow := en_shadow e; en_exchange_portfolio := en_exchange_portfolio e;
     en_exchange_analytics := en_exchange_analytics e; en_stops := en_stops e; en_pending := en_pending e;
     en_seq := en_seq e; en_day_orders := x; en_cancels := en_cancels e; en_meta := en_meta e;
     en_adapters := en_adapters e; en_specs := en_specs e; en_l2_seeded := en_l2_seeded e; en_mid := en_mid e;
     en_mark_symbol := en_mark_symbol e; en_halt := en_halt e; en_pause := en_pause e; en_flatten := en_flatten e;
     en_drops := en_drops e; en_strategy := en_strategy e; en_extras := en_extras e; en_world := en_world e;
     en_out := en_out e; en_count := en_count e; en_halt_req := en_halt_req e |}.
Definition set_en_cancels (x : gmap Z pending_cancel_meta) (e : engine) : engine :=
  {| en_cfg := en_cfg e; en_portfolio := en_portfolio e; en_risk := en_risk e; en_exits := en_exits e;
     en_tracker := en_tracker e; en_analytics := en_analytics e; en_adverse := en_adverse e;
     en_shadow := en_shadow e; en_exchange_portfolio := en_exchange_portfolio e;
     en_exchange_analytics := en_exchange_analytics e; en_stops := en_stops e; en_pending := en_pending e;
     en_seq := en_seq e; en_day_orders := en_day_orders e; en_cancels := x; en_meta := en_meta e;
     en_adapters := en_adapters e; en_specs := en_specs e; en_l2_seeded := en_l2_seeded e; en_mid := en_mid e;
     en_mark_symbol := en_mark_symbol e; en_halt := en_halt e; en_pause := en_pause e; en_flatten := en_flatten e;
     en_drops := en_drops e; en_strategy := en_strategy e; en_extras := en_extras e; en_world := en_world e;
     en_out := en_out e; en_count := en_count e; en_halt_req := en_halt_req e |}.
Definition set_en_meta (x : gmap Z order_meta) (e : engine) : engine :=
  {| en_cfg := en_cfg e; en_portfolio := en_portfolio e; en_risk := en_risk e; en_exits := en_exits e;
     en_tracker := en_tracker e; en_analytics := en_analytics e; en_adverse := en_adverse e;
     en_shadow := en_shadow e; en_exchange_portfolio := en_exchange_portfolio e;
     en_exchange_analytics := en_exchange_analytics e; en_stops := en_stops e; en_pending := en_pending e;
     en_seq := en_seq e; en_day_orders := en_day_orders e; en_cancels := en_cancels e; en_meta := x;
     en_adapters := en_adapters e; en_specs := en_specs e; en_l2_seeded := en_l2_seeded e; en_mid := en_mid e;
     en_mark_symbol := en_mark_symbol e; en_halt := en_halt e; en_pause := en_pause e; en_flatten := en_flatten e;
     en_drops := en_drops e; en_strategy := en_strategy e; en_extras := en_extras e; en_world := en_world e;
     en_out := en_out e; en_count := en_count e; en_halt_req := en_halt_req e |}.
Definition set_en_adapters (x : gmap string Z) (e : engine) : engine :=
  {| en_cfg := en_cfg e; en_portfolio := en_portfolio e; en_risk := en_risk e; en_exits := en_exits e;
     en_tracker := en_tracker e; en_analytics := en_analytics e; en_adverse := en_adverse e;
     en_shadow := en_shadow e; en_exchange_portfolio := en_exchange_portfolio e;
     en_exchange_analytics := en_exchange_analytics e; en_stops := en_stops e; en_pending := en_pending e;
     en_seq := en_seq e; en_day_orders := en_day_orders e; en_cancels := en_cancels e; en_meta := en_meta e;
     en_adapters := x; en_specs := en_specs e; en_l2_seeded := en_l2_seeded e; en_mid := en_mid e;
     en_mark_symbol := en_mark_symbol e; en_halt := en_halt e; en_pause := en_pause e; en_flatten := en_flatten e;
     en_drops := en_drops e; en_strategy := en_strategy e; en_extras := en_extras e; en_world := en_world e;
     en_out := en_out e; en_count := en_count e; en_halt_req := en_halt_req e |}.
Definition set_en_specs (x : gmap string (option instrument_spec)) (e : engine) : engine :=
  {| en_cfg := en_cfg e; en_portfolio := en_portfolio e; en_risk := en_risk e; en_exits := en_exits e;
     en_tracker := en_tracker e; en_analytics := en_analytics e; en_adverse := en_adverse e;
     en_shadow := en_shadow e; en_exchange_portfolio := en_exchange_portfolio e;
     en_exchange_analytics := en_exchange_analytics e; en_stops := en_stops e; en_pending := en_pending e;
     en_seq := en_seq e; en_day_orders := en_day_orders e; en_cancels := en_cancels e; en_meta := en_meta e;
     en_adapters := en_adapters e; en_specs := x; en_l2_seeded := en_l2_seeded e; en_mid := en_mid e;
     en_mark_symbol := en_mark_symbol e; en_halt := en_halt e; en_pause := en_pause e; en_flatten := en_flatten e;
     en_drops := en_drops e; en_strategy := en_strategy e; en_extras := en_extras e; en_world := en_world e;
     en_out := en_out e; en_count := en_count e; en_halt_req := en_halt_req e |}.
Definition set_en_l2_seeded (x : gset string) (e : engine) : engine :=
  {| en_cfg := en_cfg e; en_portfolio := en_portfolio e; en_risk := en_risk e; en_exits := en_exits e;
     en_tracker := en_tracker e; en_analytics := en_analytics e; en_adverse := en_adverse e;
     en_shadow := en_shadow e; en_exchange_portfolio := en_exchange_portfolio e;
     en_exchange_analytics := en_exchange_analytics e; en_stops := en_stops e; en_pending := en_pending e;
     en_seq := en_seq e; en_day_orders := en_day_orders e; en_cancels := en_cancels e; en_meta := en_meta e;
     en_adapters := en_adapters e; en_specs := en_specs e; en_l2_seeded := x; en_mid := en_mid e;
     en_mark_symbol := en_mark_symbol e; en_halt := en_halt e; en_pause := en_pause e; en_flatten := en_flatten e;
     en_drops := en_drops e; en_strategy := en_strategy e; en_extras := en_extras e; en_world := en_world e;
     en_out := en_out e; en_count := en_count e; en_halt_req := en_halt_req e |}.
Definition set_en_mid (x : num) (e : engine) : engine :=
  {| en_cfg := en_cfg e; en_portfolio := en_portfolio e; en_risk := en_risk e; en_exits := en_exits e;
     en_tracker := en_tracker e; en_analytics := en_analytics e; en_adverse := en_adverse e;
     en_shadow := en_shadow e; en_exchange_portfolio := en_exchange_portfolio e;
     en_exchange_analytics := en_exchange_analytics e; en_stops := en_stops e; en_pending := en_pending e;
     en_seq := en_seq e; en_day_orders := en_day_orders e; en_cancels := en_cancels e; en_meta := en_meta e;
     en_adapters := en_adapters e; en_specs := en_specs e; en_l2_seeded := en_l2_seeded e; en_mid := x;
     en_mark_symbol := en_mark_symbol e; en_halt := en_halt e; en_pause := en_pause e; en_flatten := en_flatten e;
     en_drops := en_drops e; en_strategy := en_strategy e; en_extras := en_extras e; en_world := en_world e;
     en_out := en_out e; en_count := en_count e; en_halt_req := en_halt_req e |}.
Definition set_en_mark_symbol (x : string) (e : engine) : engine :=
  {| en_cfg := en_cfg e; en_portfolio := en_portfolio e; en_risk := en_risk e; en_exits := en_exits e;
     en_tracker := en_tracker e; en_analytics := en_analytics e; en_adverse := en_adverse e;
     en_shadow := en_shadow e; en_exchange_portfolio := en_exchange_portfolio e;
     en_exchange_analytics := en_exchange_analytics e; en_stops := en_stops e; en_pending := en_pending e;
     en_seq := en_seq e; en_day_orders := en_day_orders e; en_cancels := en_cancels e; en_meta := en_meta e;
     en_adapters := en_adapters e; en_specs := en_specs e; en_l2_seeded := en_l2_seeded e; en_mid := en_mid e;
     en_mark_symbol := x; en_halt := en_halt e; en_pause := en_pause e; en_flatten := en_flatten e;
     en_drops := en_drops e; en_strategy := en_strategy e; en_extras := en_extras e; en_world := en_world e;
     en_out := en_out e; en_count := en_count e; en_halt_req := en_halt_req e |}.
Definition set_en_halt (x : bool) (e : engine) : engine :=
  {| en_cfg := en_cfg e; en_portfolio := en_portfolio e; en_risk := en_risk e; en_exits := en_exits e;
     en_tracker := en_tracker e; en_analytics := en_analytics e; en_adverse := en_adverse e;
     en_shadow := en_shadow e; en_exchange_portfolio := en_exchange_portfolio e;
     en_exchange_analytics := en_exchange_analytics e; en_stops := en_stops e; en_pending := en_pending e;
     en_seq := en_seq e; en_day_orders := en_day_orders e; en_cancels := en_cancels e; en_meta := en_meta e;
     en_adapters := en_adapters e; en_specs := en_specs e; en_l2_seeded := en_l2_seeded e; en_mid := en_mid e;
     en_mark_symbol := en_mark_symbol e; en_halt := x; en_pause := en_pause e; en_flatten := en_flatten e;
     en_drops := en_drops e; en_strategy := en_strategy e; en_extras := en_extras e; en_world := en_world e;
     en_out := en_out e; en_count := en_count e; en_halt_req := en_halt_req e |}.
Definition set_en_pause (x : bool) (e : engine) : engine :=
  {| en_cfg := en_cfg e; en_portfolio := en_portfolio e; en_risk := en_risk e; en_exits := en_exits e;
     en_tracker := en_tracker e; en_analytics := en_analytics e; en_adverse := en_adverse e;
     en_shadow := en_shadow e; en_exchange_portfolio := en_exchange_portfolio e;
     en_exchange_analytics := en_exchange_analytics e; en_stops := en_stops e; en_pending := en_pending e;
     en_seq := en_seq e; en_day_orders := en_day_orders e; en_cancels := en_cancels e; en_meta := en_meta e;
     en_adapters := en_adapters e; en_specs := en_specs e; en_l2_seeded := en_l2_seeded e; en_mid := en_mid e;
     en_mark_symbol := en_mark_symbol e; en_halt := en_halt e; en_pause := x; en_flatten := en_flatten e;
     en_drops := en_drops e; en_strategy := en_strategy e; en_extras := en_extras e; en_world := en_world e;
     en_out := en_out e; en_count := en_count e; en_halt_req := en_halt_req e |}.
Definition set_en_flatten (x : bool) (e : engine) : engine :=
  {| en_cfg := en_cfg e; en_portfolio := en_portfolio e; en_risk := en_risk e; en_exits := en_exits e;
     en_tracker := en_tracker e; en_analytics := en_analytics e; en_adverse := en_adverse e;
     en_shadow := en_shadow e; en_exchange_portfolio := en_exchange_portfolio e;
     en_exchange_analytics := en_exchange_analytics e; en_stops := en_stops e; en_pending := en_pending e;
     en_seq := en_seq e; en_day_orders := en_day_orders e; en_cancels := en_cancels e; en_meta := en_meta e;
     en_adapters := en_adapters e; en_specs := en_specs e; en_l2_seeded := en_l2_seeded e; en_mid := en_mid e;
     en_mark_symbol := en_mark_symbol e; en_halt := en_halt e; en_pause := en_pause e; en_flatten := x;
     en_drops := en_drops e; en_strategy := en_strategy e; en_extras := en_extras e; en_world := en_world e;
     en_out := en_out e; en_count := en_count e; en_halt_req := en_halt_req e |}.
Definition set_en_drops (x : gmap ring_name Z) (e : engine) : engine :=
  {| en_cfg := en_cfg e; en_portfolio := en_portfolio e; en_risk := en_risk e; en_exits := en_exits e;
     en_tracker := en_tracker e; en_analytics := en_analytics e; en_adverse := en_adverse e;
     en_shadow := en_shadow e; en_exchange_portfolio := en_exchange_portfolio e;
     en_exchange_analytics := en_exchange_analytics e; en_stops := en_stops e; en_pending := en_pending e;
     en_seq := en_seq e; en_day_orders := en_day_orders e; en_cancels := en_cancels e; en_meta := en_meta e;
     en_adapters := en_adapters e; en_specs := en_specs e; en_l2_seeded := en_l2_seeded e; en_mid := en_mid e;
     en_mark_symbol := en_mark_symbol e; en_halt := en_halt e; en_pause := en_pause e; en_flatten := en_flatten e;
     en_drops := x; en_strategy := en_strategy e; en_extras := en_extras e; en_world := en_world e;
     en_out := en_out e; en_count := en_count e; en_halt_req := en_halt_req e |}.
Definition set_en_strategy (x : option S) (e : engine) : engine :=
  {| en_cfg := en_cfg e; en_portfolio := en_portfolio e; en_risk := en_risk e; en_exits := en_exits e;
     en_tracker := en_tracker e; en_analytics := en_analytics e; en_adverse := en_adverse e;
     en_shadow := en_shadow e; en_exchange_portfolio := en_exchange_portfolio e;
     en_exchange_analytics := en_exchange_analytics e; en_stops := en_stops e; en_pending := en_pending e;
     en_seq := en_seq e; en_day_orders := en_day_orders e; en_cancels := en_cancels e; en_meta := en_meta e;
     en_adapters := en_adapters e; en_specs := en_specs e; en_l2_seeded := en_l2_seeded e; en_mid := en_mid e;
     en_mark_symbol := en_mark_symbol e; en_halt := en_halt e; en_pause := en_pause e; en_flatten := en_flatten e;
     en_drops := en_drops e; en_strategy := x; en_extras := en_extras e; en_world := en_world e;
     en_out := en_out e; en_count := en_count e; en_halt_req := en_halt_req e |}.
Definition set_en_extras (x : list S) (e : engine) : engine :=
  {| en_cfg := en_cfg e; en_portfolio := en_portfolio e; en_risk := en_risk e; en_exits := en_exits e;
     en_tracker := en_tracker e; en_analytics := en_analytics e; en_adverse := en_adverse e;
     en_shadow := en_shadow e; en_exchange_portfolio := en_exchange_portfolio e;
     en_exchange_analytics := en_exchange_analytics e; en_stops := en_stops e; en_pending := en_pending e;
     en_seq := en_seq e; en_day_orders := en_day_orders e; en_cancels := en_cancels e; en_meta := en_meta e;
     en_adapters := en_adapters e; en_specs := en_specs e; en_l2_seeded := en_l2_seeded e; en_mid := en_mid e;
     en_mark_symbol := en_mark_symbol e; en_halt := en_halt e; en_pause := en_pause e; en_flatten := en_flatten e;
     en_drops := en_drops e; en_strategy := en_strategy e; en_extras := x; en_world := en_world e;
     en_out := en_out e; en_count := en_count e; en_halt_req := en_halt_req e |}.
Definition set_en_world (x : W) (e : engine) : engine :=
  {| en_cfg := en_cfg e; en_portfolio := en_portfolio e; en_risk := en_risk e; en_exits := en_exits e;
     en_tracker := en_tracker e; en_analytics := en_analytics e; en_adverse := en_adverse e;
     en_shadow := en_shadow e; en_exchange_portfolio := en_exchange_portfolio e;
     en_exchange_analytics := en_exchange_analytics e; en_stops := en_stops e; en_pending := en_pending e;
     en_seq := en_seq e; en_day_orders := en_day_orders e; en_cancels := en_cancels e; en_meta := en_meta e;
     en_adapters := en_adapters e; en_specs := en_specs e; en_l2_seeded := en_l2_seeded e; en_mid := en_mid e;
     en_mark_symbol := en_mark_symbol e; en_halt := en_halt e; en_pause := en_pause e; en_flatten := en_flatten e;
     en_drops := en_drops e; en_strategy := en_strategy e; en_extras := en_extras e; en_world := x;
     en_out := en_out e; en_count := en_count e; en_halt_req := en_halt_req e |}.
Definition set_en_out (x : list output) (e : engine) : engine :=
  {| en_cfg := en_cfg e; en_portfolio := en_portfolio e; en_risk := en_risk e; en_exits := en_exits e;
     en_tracker := en_tracker e; en_analytics := en_analytics e; en_adverse := en_adverse e;
     en_shadow := en_shadow e; en_exchange_portfolio := en_exchange_portfolio e;
     en_exchange_analytics := en_exchange_analytics e; en_stops := en_stops e; en_pending := en_pending e;
     en_seq := en_seq e; en_day_orders := en_day_orders e; en_cancels := en_cancels e; en_meta := en_meta e;
     en_adapters := en_adapters e; en_specs := en_specs e; en_l2_seeded := en_l2_seeded e; en_mid := en_mid e;
     en_mark_symbol := en_mark_symbol e; en_halt := en_halt e; en_pause := en_pause e; en_flatten := en_flatten e;
     en_drops := en_drops e; en_strategy := en_strategy e; en_extras := en_extras e; en_world := en_world e;
     en_out := x; en_count := en_count e; en_halt_req := en_halt_req e |}.
Definition set_en_count (x : Z) (e : engine) : engine :=
  {| en_cfg := en_cfg e; en_portfolio := en_portfolio e; en_risk := en_risk e; en_exits := en_exits e;
     en_tracker := en_tracker e; en_analytics := en_analytics e; en_adverse := en_adverse e;
     en_shadow := en_shadow e; en_exchange_portfolio := en_exchange_portfolio e;
     en_exchange_analytics := en_exchange_analytics e; en_stops := en_stops e; en_pending := en_pending e;
     en_seq := en_seq e; en_day_orders := en_day_orders e; en_cancels := en_cancels e; en_meta := en_meta e;
     en_adapters := en_adapters e; en_specs := en_specs e; en_l2_seeded := en_l2_seeded e; en_mid := en_mid e;
     en_mark_symbol := en_mark_symbol e; en_halt := en_halt e; en_pause := en_pause e; en_flatten := en_flatten e;
     en_drops := en_drops e; en_strategy := en_strategy e; en_extras := en_extras e; en_world := en_world e;
     en_out := en_out e; en_count := x; en_halt_req := en_halt_req e |}.
Definition set_en_halt_req (x : bool) (e : engine) : engine :=
  {| en_cfg := en_cfg e; en_portfolio := en_portfolio e; en_risk := en_risk e; en_exits := en_exits e;
     en_tracker := en_tracker e; en_analytics := en_analytics e; en_adverse := en_adverse e;
     en_shadow := en_shadow e; en_exchange_portfolio := en_exchange_portfolio e;
     en_exchange_analytics := en_exchange_analytics e; en_stops := en_stops e; en_pending := en_pending e;
     en_seq := en_seq e; en_day_orders := en_day_orders e; en_cancels := en_cancels e; en_meta := en_meta e;
     en_adapters := en_adapters e; en_specs := en_specs e; en_l2_seeded := en_l2_seeded e; en_mid := en_mid e;
     en_mark_symbol := en_mark_symbol e; en_halt := en_halt e; en_pause := en_pause e; en_flatten := en_flatten e;
     en_drops := en_drops e; en_strategy := en_strategy e; en_extras := en_extras e; en_world := en_world e;
     en_out := en_out e; en_count := en_count e; en_halt_req := x |}.

(** ** Computations *)

Definition E (X : Type) : Type := engine → exc X * engine.
#[export] Instance E_ret : MRet E := λ X x e, (Ret x, e).
#[export] Instance E_bind : MBind E := λ X Y f m e,
  match m e with (Ret x, e1) => f x e1 | (Throw w, e1) => (Throw w, e1) end.

Definition gets {X} (f : engine → X) : E X := λ e, (Ret (f e), e).
Definition modify (f : engine → engine) : E unit := λ e, (Ret (), f e).
Definition when (b : bool) (m : E unit) : E unit := if b then m else mret ().
(** A call on the world; one that throws leaves the engine, as an exception or by
    ending the process inside a function declared noexcept. *)
Definition world {X} (f : W → exc X * W) : E X := λ e, let r := f (en_world e) in (r.1, set_en_world r.2 e).
Definition world_ {X} (f : W → X * W) : E X := λ e, let r := f (en_world e) in (Ret r.1, set_en_world r.2 e).
(** What a callback returned or threw. *)
Definition of_exc {X} (r : exc X) : E X := λ e, (r, e).
Definition put_world (f : W → W) : E unit := modify (λ e, set_en_world (f (en_world e)) e).
Definition out (o : output) : E unit := modify (λ e, set_en_out (en_out e ++ [o]) e).
Definition audit (r : audit_record) : E unit := out (out_audit r).
Definition count_event : E unit := modify (λ e, set_en_count (en_count e + 1) e).
Definition request_halt : E unit := modify (set_en_halt_req true).

(** Run with a halt request of one's own; its value comes with the result. *)
Definition with_local {X} (m : E X) : E (X * bool) := λ e,
  match m (set_en_halt_req false e) with
  | (Ret x, e1) => (Ret (x, en_halt_req e1), set_en_halt_req (en_halt_req e) e1)
  | (Throw w, e1) => (Throw w, e1)
  end.

Fixpoint for_each {X} (f : X → E unit) (l : list X) : E unit :=
  match l with [] => mret () | x :: l => _ ← f x; for_each f l end.
(** A loop that a [false] leaves, with [false]. *)
Fixpoint for_while {X} (f : X → E bool) (l : list X) : E bool :=
  match l with [] => mret true | x :: l => ok ← f x; if ok : bool then for_while f l else mret false end.

End Engine.
