(* ===== verification/Engine.v ===== *)
(** * The engine's order flow (src/src/engine/engine.cpp, execution_router.cpp,
    instrument_spec_cache.cpp)

    Every function below is the one of its name in the source: the submission of an
    order with its checks, the handling of a fill by every component, the routing of
    a new order into the queue of pending orders, the stops, the exits and the two
    event handlers, bar and tick.  A pool of events that is exhausted halts the engine
    and throws; the dashboard's caches and the debug timers have no state here. *)

From S2P Require Import Prelude Float64 Event Bridge NodeHeap OrderBook Arith Portfolio Sizing Risk Exits ExitPolicy.
From S2P Require Import ClientOrderId Indicators EngineEvents Analytics Trackers EngineState.

Open Scope string_scope.
Open Scope list_scope.
Open Scope Z_scope.

Section Flow.
Context {A : Arith} {HO : HashOrder} {MO : MultiOrder} {S : Type} {SI : IStrategy S} {W : Type} {XW : Execution W} (log_ : num → num).
#[local] Abbreviation engine := (@EngineState.engine A S W).
#[local] Abbreviation E := (@EngineState.E A S W).

(** ** Halts, logs and publication *)

Definition trigger_halt (reason : string) : E unit :=
  h ← gets en_halt; if h : bool then mret () else modify (set_en_halt true);; out (out_halt reason).

Definition acquire_pooled (p : event_pool) : E unit :=
  r ← world_ (w_acquire p);
  match r with Some why => trigger_halt why;; of_exc (Throw why) | None => mret () end.

Definition log_event (e : engine_event) : E unit :=
  c ← gets en_cfg; when (negb (is_threaded c) && cf_event_logger c) (out (out_log e)).

Definition ring_label (r : ring_name) : string :=
  match r with ring_logging => "logging" | ring_risk => "risk" | ring_stats => "stats" | ring_observer => "observer"
  | ring_risk_stats => "risk_stats" | ring_mm => "mm" end.

Definition push_ring (e : engine_event) (r : ring_name * bool) : E unit :=
  pushed ← world_ (w_ring_push r.1 e);
  if pushed : bool then mret () else
  modify (λ en, set_en_drops (<[r.1 := default 0 (en_drops en !! r.1) + 1]> (en_drops en)) en);;
  c ← gets en_cfg; n ← gets (λ en, default 0 (en_drops en !! r.1));
  when (r.2 && bool_decide (cf_drop_policy c = halt_on_drop))
    (trigger_halt ("ring drop on '" +:+ ring_label r.1 +:+ "' (" +:+ pretty n +:+ " dropped) — halted")).

Definition publish_event (e : engine_event) : E unit :=
  out (out_publish e);;
  match e with
  | ev_funding _ _ d _ => modify (λ en, set_en_portfolio (on_funding d (en_portfolio en)) en);; audit (au_funding d)
  | _ => mret ()
  end;;
  c ← gets en_cfg; for_each (push_ring e) (rings_of (cf_threading c)).

(** [analytics_.on_event] on the events the engine gives it, none of them a signal. *)
Definition analytics_on (e : an_event) : E unit :=
  modify (λ en, set_en_analytics (default (en_analytics en) (an_on_event log_ e (en_analytics en))) en).

Definition set_order_status (id : Z) (s : order_status) : E unit :=
  modify (λ en, set_en_tracker (set_status id s (en_tracker en)) en).

(** ** Attribution *)

Definition register_order_meta (o : order_msg) : E unit :=
  modify (λ en, set_en_meta (<[om_id o := {| mt_opener := if negb (om_opener o =? 0) then om_opener o else om_id o;
                                             mt_strategy := om_strategy o |}]> (en_meta en)) en).
Definition lookup_opener (id : Z) (e : engine) : Z := default 0 (mt_opener <$> en_meta e !! id).
Definition lookup_strategy_name (id : Z) (e : engine) : string := default "" (mt_strategy <$> en_meta e !! id).

Definition stamped (e : engine) (f : fill_msg) : fill_msg :=
  fm_attribute (if bool_decide (fm_strategy f = "") then lookup_strategy_name (fm_order_id f) e else fm_strategy f)
    (if fm_opener f =? 0 then lookup_opener (fm_order_id f) e else fm_opener f) f.
Definition stamp_fill_attribution (f : fill_msg) : E fill_msg := gets (λ e, stamped e f).

(** ** Strategies *)

(** A strategy by its place: the primary one, or one of the additional ones. *)
Inductive who := primary | extra (i : nat).
Definition strategy_at (w : who) (e : engine) : option S :=
  match w with primary => en_strategy e | extra i => en_extras e !! i end.
Definition put_strategy (w : who) (s : S) : E unit :=
  match w with
  | primary => modify (set_en_strategy (Some s))
  | extra i => modify (λ e, set_en_extras (<[i := s]> (en_extras e)) e)
  end.
Definition name_at (w : who) (e : engine) : string :=
  match w with primary => cf_primary_name (en_cfg e) | extra i => default "" (cf_extra_names (en_cfg e) !! i) end.
(** A call on a strategy that is there. *)
Definition ask {X} (w : who) (none : X) (f : S → exc X * S) : E X :=
  s ← gets (strategy_at w);
  match s with Some s => put_strategy w (f s).2;; of_exc (f s).1 | None => mret none end.
Definition extra_places : E (list nat) := gets (λ e, seq 0 (length (en_extras e))).

(** The first of the strategies' names that is the one asked for. *)
Fixpoint place_of (name : string) (names : list string) : option nat :=
  match names with n :: names => if bool_decide (n = name) then Some 0%nat else Datatypes.S <$> place_of name names | [] => None end.

Definition dispatch_fill_to_strategy (f : fill_msg) : E unit :=
  name ← gets (lookup_strategy_name (fm_order_id f)); opener ← gets (lookup_opener (fm_order_id f));
  c ← gets en_cfg; s ← gets en_strategy;
  if bool_decide (name = "") then mret () else
  if bool_decide (is_Some s) && bool_decide (name = cf_primary_name c) then ask primary () (st_on_fill f opener) else
  match place_of name (cf_extra_names c) with Some i => ask (extra i) () (st_on_fill f opener) | None => mret () end.

Definition sweep_brackets (symbol : string) (m : ExitManager) (name : string) : ExitManager :=
  if bool_decide (name = "") then m else
  if (openers_for name symbol m <=? 1)%nat then cancel_all name symbol m else m.

Definition notify_position_change_all (symbol : string) (open : bool) : E unit :=
  ask primary () (st_set_position_open symbol open);;
  places ← extra_places; for_each (λ i, ask (extra i) () (st_set_position_open symbol open)) places;;
  c ← gets en_cfg;
  when (negb open)
    (modify (λ e, set_en_exits (foldl (sweep_brackets symbol) (en_exits e) (cf_primary_name c :: cf_extra_names c)) e)).

(** ** The router *)

Definition provider_adapter (c : engine_config) : option Z := cf_provider c ≫= pv_adapter.

Definition resolve_adapter (symbol : string) : E Z :=
  ads ← gets en_adapters;
  match ads !! symbol with
  | Some h => mret h
  | None =>
      c ← gets en_cfg;
      let prov := match cf_provider c with
                  | Some p => if negb (bool_decide (cf_mode c = mode_shadow)) && pv_has_execution p then pv_adapter p else None
                  | None => None end in
      h ← match prov with Some h => mret h | None => world (ad_new (cf_maker_queue c) symbol) end;
      modify (λ e, set_en_adapters (<[symbol := h]> (en_adapters e)) e);; mret h
  end.

(** All adapters of the map, then the provider's again. *)
Definition each_adapter (f : Z → E unit) : E unit :=
  ads ← gets (λ e, iter (en_adapters e)); for_each (λ x : string * Z, f x.2) ads;;
  c ← gets en_cfg; match provider_adapter c with Some h => f h | None => mret () end.
Definition advance_all (ts : time_point) : E unit := each_adapter (λ h, world (ad_advance h ts)).
Definition router_on_l2_snapshot (symbol : string) (bids asks : list (num * num)) : E unit :=
  each_adapter (λ h, put_world (ad_on_l2_snapshot h symbol bids asks)).
Definition router_on_l2_update (symbol : string) (os : order_side) (price new_qty : num) : E unit :=
  each_adapter (λ h, put_world (ad_on_l2_update h symbol os price new_qty)).

Definition submit (h : Z) (o : order_msg) : E unit := out (out_submit h o);; world (ad_submit h o).
Definition poll_fills (h : Z) : E (list fill_msg) := world_ (ad_poll_fills h).

(** ** Answers of an asynchronous venue *)

Definition on_submit_result (sr : submit_result) : E unit :=
  status ← gets (λ e, get_order_status (sr_engine_id sr) (en_tracker e));
  if sr_ok sr then
    when (bool_decide (status = st_pending))
      (set_order_status (sr_engine_id sr) st_open;;
       audit (au_transition (sr_engine_id sr) st_pending st_open (Some "venue submit acknowledged")))
  else
    active ← gets (λ e, is_active (sr_engine_id sr) (en_tracker e));
    if negb active then mret () else
    now ← world_ w_now; acquire_pooled rejection_pool;;
    let rej := ev_rejection now (sr_symbol sr) (sr_engine_id sr) ("submit failed: " +:+ sr_error sr) in
    log_event rej;; publish_event rej;;
    set_order_status (sr_engine_id sr) st_rejected;;
    audit (au_transition (sr_engine_id sr) st_pending st_rejected (Some (snprintf 128 ("transport_error: " +:+ sr_error sr))));;
    audit (au_rejection (sr_engine_id sr) "transport_error" (sr_error sr)).

Definition or_manual (reason : string) : string := if bool_decide (reason = "") then "manual" else reason.
Definition reason_opt (reason : string) : option string := if bool_decide (reason = "") then None else Some reason.

(** A cancel takes effect: its status, its event and its records. *)
Definition confirm_cancel (symbol : string) (id : Z) (reason : string) : E unit :=
  set_order_status id st_cancelled;;
  now ← world_ w_now; acquire_pooled cancel_pool;;
  log_event (ev_cancel now symbol id reason);; publish_event (ev_cancel now symbol id reason);;
  c ← gets en_cfg; when (negb (is_threaded c)) (analytics_on av_cancel);;
  name ← gets (lookup_strategy_name id);
  audit (au_cancellation id symbol name (or_manual reason));;
  audit (au_transition id st_open st_cancelled (reason_opt reason)).

Definition on_cancel_result (sr : submit_result) : E unit :=
  meta ← gets (λ e, en_cancels e !! sr_engine_id sr);
  let symbol := if negb (bool_decide (sr_symbol sr = "")) then sr_symbol sr else default "" (pc_symbol <$> meta) in
  let given := default "" (pc_reason <$> meta) in
  let reason := if negb (bool_decide (given = "")) then given
                else if sr_ok sr then "venue cancel acknowledged" else "venue cancel failed" in
  active ← gets (λ e, is_active (sr_engine_id sr) (en_tracker e));
  when (sr_ok sr && active) (confirm_cancel symbol (sr_engine_id sr) reason);;
  modify (λ e, set_en_cancels (delete (sr_engine_id sr) (en_cancels e)) e).

Definition on_result (sr : submit_result) : E unit :=
  match sr_op sr with op_submit => on_submit_result sr | op_cancel => on_cancel_result sr end.
Definition drain_async_submit_results (h : Z) : E unit := rs ← world_ (ad_poll_results h); for_each on_result rs.

Definition drain_venue_bracket_meta : E unit :=
  c ← gets en_cfg;
  match provider_adapter c with
  | None => mret ()
  | Some h =>
      ms ← world_ (ad_poll_meta h);
      for_each (λ m, modify (λ e, set_en_meta (<[sm_engine_order_id m :=
        {| mt_opener := sm_opener_order_id m; mt_strategy := sm_strategy_name m |}]> (en_meta e)) e)) ms
  end.

(** ** Fills *)

Definition source_name (s : fill_source) : string :=
  match s with src_exchange => "exchange" | src_simulated => "simulated" | _ => "local" end.

(** [handle_engine_fill] up to its risk check: every component learns of the fill. *)
Definition book_fill (f0 : fill_msg) (mark_shadow_sim : bool) (status_reason : option string) : E fill_msg :=
  f ← stamp_fill_attribution f0;
  let opener := fm_opener f in
  let strat := fm_strategy f in
  let new_status := if fm_is_partial f then st_partially_filled else st_filled in
  set_order_status (fm_order_id f) new_status;;
  acquire_pooled fill_pool;;
  log_event (ev_fill f);;
  modify (λ e, set_en_portfolio (on_fill_lot (fill_of_msg f) opener strat (en_portfolio e)) e);;
  dispatch_fill_to_strategy f;;
  modify (λ e, set_en_adverse (as_on_fill f (en_adverse e)) e);;
  modify (λ e, set_en_exits (on_fill_with (fill_of_msg f) opener (en_exits e)) e);;
  modify (λ e, set_en_risk (rm_on_fill (fm_ts f) (en_risk e)) e);;
  audit (au_fill f opener strat (source_name (fm_source f)));;
  audit (au_transition (fm_order_id f) st_open new_status status_reason);;
  open ← gets (λ e, position_open (fm_symbol f) (en_portfolio e));
  notify_position_change_all (fm_symbol f) open;;
  publish_event (ev_fill f);;
  analytics_on (av_fill f);;
  c ← gets en_cfg;
  when (mark_shadow_sim && bool_decide (cf_mode c = mode_shadow))
    (modify (λ e, set_en_shadow (on_simulated_fill f <$> en_shadow e) e));;
  count_event;; mret f.

(** [unwind_positions]: one market order against every open position, whose fills are
    booked without a further risk check. *)
Definition unwind_one (x : string * num) : E unit :=
  let symbol := x.1 in
  let close_side := if (x.2 >? n_zero)%num then side_sell else side_buy in
  now ← world_ w_now; mid ← gets en_mid; acquire_pooled order_pool;; id ← world_ w_next_id;
  let o := om_set_strategy "risk_unwind" (om_set_id id (mk_order_msg now symbol ot_market close_side (n_abs x.2) mid tif_gtc)) in
  set_order_status id st_open;;
  log_event (ev_order o);; publish_event (ev_order o);; analytics_on (av_order o);;
  audit (au_submitted id "pending");; audit (au_transition id st_pending st_open (Some "risk_unwind"));;
  h ← resolve_adapter symbol; seeded ← gets (λ e, bool_decide (symbol ∈ en_l2_seeded e)); mid ← gets en_mid;
  put_world (ad_set_mid_price h mid);; put_world (ad_set_l2_seeded h seeded);;
  submit h o;;
  drain_async_submit_results h;;
  fills ← poll_fills h;
  for_each (λ f, _ ← book_fill f false (Some "risk_unwind"); mret ()) fills.

Definition to_close (p : portfolio) : list (string * num) :=
  (λ x : string * position, (x.1, qty x.2)) <$>
    filter (λ x : string * position, (n_abs (qty x.2) >=? n_eps)%num = true) (iter (positions_ p)).
Definition unwind_positions : E unit := xs ← gets (λ e, to_close (en_portfolio e)); for_each unwind_one xs.

(** A risk halt: flatten first when configured, then stop everything. *)
Definition risk_halt (reason : string) : E unit :=
  c ← gets en_cfg; when (cf_risk_unwind c) unwind_positions;; trigger_halt reason;; request_halt.

Definition post_fill_halts (f : fill_msg) : E bool :=
  e ← gets id;
  let r := check_post_fill (fm_ts f) (risk_view (en_analytics e)) (en_risk e) in
  modify (set_en_risk r.2);; mret (bool_decide (r.1 = halt)).

Definition handle_engine_fill (f0 : fill_msg) (mark_shadow_sim : bool) : E bool :=
  f ← book_fill f0 mark_shadow_sim None;
  halts ← post_fill_halts f;
  if halts : bool then risk_halt "risk post-fill limit breached - engine halted";; mret false else mret true.

Definition process_adapter_fills (h : Z) : E bool :=
  fills ← poll_fills h; c ← gets en_cfg;
  for_while (λ f, handle_engine_fill f (bool_decide (cf_mode c = mode_shadow))) fills.

(** ** Submission *)

Definition exchange_fill (f0 : fill_msg) : E unit :=
  f ← stamp_fill_attribution f0;
  modify (λ e, set_en_shadow (on_exchange_fill f <$> en_shadow e) e);;
  modify (λ e, set_en_exchange_portfolio
                 (on_fill_lot (fill_of_msg f) (fm_opener f) (fm_strategy f) <$> en_exchange_portfolio e) e).

(** The venue's adapter in shadow mode. *)
Definition shadow_exchange (c : engine_config) : option Z :=
  if bool_decide (cf_mode c = mode_shadow) then provider_adapter c else None.

Definition emit_rejection (o : order_msg) (reason : string) : E unit :=
  acquire_pooled rejection_pool;;
  log_event (ev_rejection (om_ts o) (om_symbol o) (om_id o) reason);;
  publish_event (ev_rejection (om_ts o) (om_symbol o) (om_id o) reason).

Definition venue_refusal (o : order_msg) : E (option string) :=
  e ← gets id;
  mret (match cf_risk_check (en_cfg e) with
        | Some check => check (risk_order_of o) (en_portfolio e) (en_mid e) | None => None end).
Definition refuse_by_venue (o : order_msg) (why : string) : E unit :=
  emit_rejection o ("venue risk check refused: " +:+ why);;
  audit (au_submitted (om_id o) "rejected");;
  audit (au_rejection (om_id o) "venue_risk_reject" (snprintf 128 ("venue risk check refused: " +:+ why)));;
  set_order_status (om_id o) st_rejected.

Definition risk_verdict (o : order_msg) : E risk_action :=
  e ← gets id;
  let r := check_order (risk_order_of o) (en_portfolio e) (risk_view (en_analytics e)) (en_risk e) in
  modify (set_en_risk r.2);; mret r.1.
Definition refuse_by_risk (o : order_msg) (halts : bool) : E unit :=
  let reason := if halts then "risk limit breached - engine halted" else "order rejected by risk manager" in
  emit_rejection o reason;;
  audit (au_submitted (om_id o) "rejected");;
  audit (au_rejection (om_id o) (if halts then "risk_halt" else "risk_reject") reason);;
  audit (au_event "risk_decision" (om_id o) (if halts then "halt" else "reject") reason);;
  set_order_status (om_id o) st_rejected.

(** The order has passed: it is announced, submitted, and its fills are handled. *)
Definition send_order (o : order_msg) : E bool :=
  h ← resolve_adapter (om_symbol o); async ← gets (λ e, ad_is_async h (en_world e));
  set_order_status (om_id o) (if async : bool then st_pending else st_open);;
  log_event (ev_order o);; publish_event (ev_order o);; analytics_on (av_order o);;
  audit (au_submitted (om_id o) "pending");;
  when (negb async) (audit (au_transition (om_id o) st_pending st_open None));;
  audit (au_event "order_intent" (om_id o) "info" "order generated by strategy");;
  mid ← gets en_mid; seeded ← gets (λ e, bool_decide (om_symbol o ∈ en_l2_seeded e));
  put_world (ad_set_mid_price h mid);; put_world (ad_set_l2_seeded h seeded);;
  submit h o;;
  drain_async_submit_results h;;
  c ← gets en_cfg;
  match shadow_exchange c with Some x => submit x o;; drain_async_submit_results x | None => mret () end;;
  ok ← process_adapter_fills h;
  if negb ok then mret false else
  match shadow_exchange c with
  | Some x => drain_async_submit_results x;; fs ← poll_fills x; for_each exchange_fill fs
  | None => mret ()
  end;;
  count_event;; mret true.

Definition process_order (o : order_msg) : E bool :=
  halted ← gets en_halt;
  if halted : bool then request_halt;; mret false else
  refusal ← venue_refusal o;
  match refusal with
  | Some why => refuse_by_venue o why;; mret true
  | None =>
      action ← risk_verdict o;
      match action with
      | halt => refuse_by_risk o true;; risk_halt "risk limit breached - engine halted";; mret false
      | reject => refuse_by_risk o false;; mret true
      | _ => send_order o
      end
  end.

Definition deliver_mm_book_trades (symbol : string) (trs : list trade) (ts : time_point) : E unit :=
  match trs with
  | [] => mret ()
  | _ =>
      ads ← gets en_adapters;
      match ads !! symbol with
      | None => mret ()
      | Some h => put_world (ad_on_book_trades h trs ts);; _ ← process_adapter_fills h; mret ()
      end
  end.
(** The market maker quotes around a price, unless its worker or real depth owns the
    book; the trades go to the symbol's adapter. *)
Definition recenter (symbol : string) (price : num) (update_history worker_owns : bool) (ts : time_point) : E unit :=
  world (bk_get_or_create symbol);;
  seeded ← gets (λ e, bool_decide (symbol ∈ en_l2_seeded e));
  when (negb worker_owns && negb seeded)
    (trs ← world (bk_replenish symbol price update_history); deliver_mm_book_trades symbol trs ts).

Definition sweep_resting_limits (symbol : string) (low high : num) (ts : time_point) : E unit :=
  ads ← gets en_adapters;
  match ads !! symbol with
  | None => mret ()
  | Some h => any ← world (ad_sweep h symbol low high ts); when any (_ ← process_adapter_fills h; mret ())
  end.

(** ** The instrument filters *)

Definition resolve_instrument_spec (symbol : string) : E (option instrument_spec) :=
  cache ← gets en_specs; c ← gets en_cfg;
  match cache !! symbol with
  | Some spec => mret spec
  | None =>
      spec ← match cf_overrides c !! symbol with
             | Some sp => mret (Some sp)
             | None => match cf_provider c with Some _ => gets (λ e, w_instrument symbol (en_world e)) | None => mret None end
             end;
      modify (λ e, set_en_specs (<[symbol := spec]> (en_specs e)) e);; mret spec
  end.

(** The order with its price, stop and quantity on the venue's grid, and whether it is
    large enough. *)
Definition apply_instrument_spec (o : order_msg) (spec : instrument_spec) : order_msg * bool :=
  let ticked := (tick_size spec >? n_zero)%num in
  let limited := bool_decide (om_type o = ot_limit) || bool_decide (om_type o = ot_stop_limit) in
  let price := if ticked && limited then quantize_price_to_tick (om_price o) (tick_size spec) else om_price o in
  let stop := if ticked && om_is_stop o then quantize_price_to_tick (om_stop_price o) (tick_size spec) else om_stop_price o in
  let qty := if (lot_size spec >? n_zero)%num then floor_qty_to_lot (om_quantity o) (lot_size spec) else om_quantity o in
  let ref := if bool_decide (om_type o = ot_stop) then stop else price in
  (om_set_levels qty price stop o, meets_min_qty qty (min_qty spec) && meets_min_notional qty ref (min_notional spec)).

(** ** Routing *)

(** The queue of pending orders: by time, then by arrival. *)
Definition runs_before (a b : pending_entry) : bool :=
  (om_eligible (pe_order a) <? om_eligible (pe_order b)) ||
  (om_eligible (pe_order a) =? om_eligible (pe_order b)) && (pe_seq a <? pe_seq b).
Fixpoint pq_push (x : pending_entry) (q : list pending_entry) : list pending_entry :=
  match q with [] => [x] | y :: q => if runs_before x y then x :: y :: q else y :: pq_push x q end.

Definition enqueue (o : order_msg) : E unit :=
  modify (λ e, set_en_pending (pq_push {| pe_order := o; pe_seq := en_seq e |} (en_pending e)) (set_en_seq (u64 (en_seq e + 1)) e)).
Definition note_day_order (o : order_msg) : E unit :=
  when (bool_decide (om_tif o = tif_day)) (modify (λ e, set_en_day_orders (en_day_orders e ++ [(om_symbol o, om_id o)]) e)).

(** A bracket that fires is filled where it fired: the book is quoted around that
    price for the time of the order. *)
Definition route_anchored (o : order_msg) (sim_time : time_point) : E bool :=
  let ref := om_price o in
  bar_mid ← gets en_mid; c ← gets en_cfg;
  when ((ref >? n_zero)%num && negb (n_eqb ref bar_mid))
    (recenter (om_symbol o) ref false (cf_mm_worker c) sim_time;; modify (set_en_mid ref));;
  let o := om_set_eligible sim_time o in
  acquire_pooled order_pool;; note_day_order o;;
  ok ← process_order o;
  modify (set_en_mid bar_mid);; mret ok.

(** The order is returned with what routing wrote into it. *)
Definition route_order (o : order_msg) (sim_time : time_point) (anchor_immediate : bool) : E (order_msg * bool) :=
  halted ← gets en_halt;
  if halted : bool then request_halt;; mret (o, false) else
  paused ← gets en_pause;
  if paused : bool then mret (o, true) else
  id ← world_ w_next_id;
  let o := om_set_id id o in
  set_order_status id st_pending;;
  register_order_meta o;;
  spec ← resolve_instrument_spec (om_symbol o);
  let filtered := match spec with Some sp => apply_instrument_spec o sp | None => (o, true) end in
  let o := filtered.1 in
  if negb filtered.2 then
    emit_rejection o "order rejected by venue filter (min_qty/min_notional)";;
    audit (au_submitted id "rejected");;
    audit (au_rejection id "venue_filter" "order rejected by venue filter (min_qty/min_notional)");;
    set_order_status id st_rejected;; mret (o, true)
  else if om_is_stop o then acquire_pooled order_pool;; modify (λ e, set_en_stops (en_stops e ++ [o]) e);; mret (o, true)
  else if anchor_immediate then ok ← route_anchored o sim_time; mret (om_set_eligible sim_time o, ok)
  else
  c ← gets en_cfg;
  if cf_latency_model c then
    lat ← world_ w_order_latency;
    let o := om_set_eligible (sim_time + lat) o in acquire_pooled order_pool;; enqueue o;; mret (o, true)
  else if 0 <? cf_execution_bar_delay c then
    let o := om_set_eligible (sim_time + 1) o in acquire_pooled order_pool;; enqueue o;; mret (o, true)
  else
    let o := om_set_eligible sim_time o in
    acquire_pooled order_pool;; note_day_order o;; ok ← process_order o; mret (o, ok).

(** ** Pending orders *)

(** One order, when one is due and nothing has halted. *)
Definition due (now : option time_point) (e : engine) : option pending_entry :=
  match en_pending e with
  | x :: _ =>
      if match now with Some t => om_eligible (pe_order x) <=? t | None => true end && negb (en_halt_req e) && negb (en_halt e)
      then Some x else None
  | [] => None
  end.
Definition pop_pending : E unit := modify (λ e, set_en_pending (tail (en_pending e)) e).
(** At most [n] orders; [now] is the time, none for the final drain. *)
Fixpoint drain_loop (n : nat) (now : option time_point) : E unit :=
  match n with
  | O => mret ()
  | Datatypes.S n =>
      x ← gets (due now);
      match x with
      | None => mret ()
      | Some x =>
          pop_pending;; note_day_order (pe_order x);;
          ok ← process_order (pe_order x);
          if ok : bool then drain_loop n now else mret ()
      end
  end.
Definition drain_pending (now : option time_point) : E unit :=
  n ← gets (λ e, length (en_pending e)); drain_loop n now.
Definition drain_final_pending : E unit := drain_pending None.

Definition cancel_day_orders : E unit :=
  ids ← gets en_day_orders; for_each (λ x : string * Z, world (bk_cancel_in x.1 x.2)) ids.
Definition clear_pending_state : E unit :=
  modify (λ e, set_en_day_orders [] (set_en_seq 0 (set_en_pending [] (set_en_stops [] e)))).

(** ** Stops *)

Definition stop_triggered (high low : num) (o : order_msg) : bool :=
  (bool_decide (om_side o = side_buy) && (high >=? om_stop_price o)%num) ||
  (negb (bool_decide (om_side o = side_buy) && (high >=? om_stop_price o)%num) && bool_decide (om_side o = side_sell) &&
   (low <=? om_stop_price o)%num).
(** The stop, or the open of a bar that gapped through it. *)
Definition stop_reference (op : num) (o : order_msg) : num :=
  if bool_decide (om_side o = side_buy)
  then (if (op >=? om_stop_price o)%num then op else om_stop_price o)
  else (if (op <=? om_stop_price o)%num then op else om_stop_price o).
Definition converted (sim_time : time_point) (o : order_msg) : order_msg :=
  let c := if bool_decide (om_type o = ot_stop)
           then mk_order_msg sim_time (om_symbol o) ot_market (om_side o) (om_quantity o) (om_stop_price o) tif_ioc
           else mk_order_msg sim_time (om_symbol o) ot_limit (om_side o) (om_quantity o) (om_price o) (om_tif o) in
  om_set_eligible sim_time (om_set_recv_ns (om_recv_ns o) (om_set_opener (om_opener o) (om_set_strategy (om_strategy o) (om_set_id (om_id o) c)))).

Definition fire_stop (op : num) (bar_mid : num) (sim_time : time_point) (o : order_msg) : E bool :=
  let ref := stop_reference op o in
  c ← gets en_cfg;
  modify (set_en_mid ref);;
  when (negb (n_eqb ref bar_mid)) (recenter (om_symbol o) ref false (cf_mm_worker c) sim_time);;
  acquire_pooled order_pool;; note_day_order (converted sim_time o);;
  ok ← process_order (converted sim_time o);
  modify (set_en_mid bar_mid);; mret ok.

(** [kept]: the stops already passed over; the vector holds them before the rest. *)
Fixpoint stops_loop (op high low bar_mid : num) (sim_time : time_point) (kept todo : list order_msg) : E unit :=
  match todo with
  | [] => mret ()
  | o :: todo =>
      stop ← gets (λ e, en_halt_req e || en_halt e);
      if stop : bool then mret () else
      if stop_triggered high low o then
        ok ← fire_stop op bar_mid sim_time o;
        if ok : bool then modify (set_en_stops (kept ++ todo));; stops_loop op high low bar_mid sim_time kept todo else mret ()
      else stops_loop op high low bar_mid sim_time (kept ++ [o]) todo
  end.
Definition check_pending_stops (op high low : num) (sim_time : time_point) : E unit :=
  bar_mid ← gets en_mid; todo ← gets en_stops; stops_loop op high low bar_mid sim_time [] todo.
End Flow.
