(* ===== verification/EngineLoop.v ===== *)
(** * The engine's event handlers and loops (src/src/engine/engine.cpp)

    What happens on each input: the bar and tick handlers of a live stream, the
    depth handlers, the operator's cancels and amendments, and the loops over a
    recorded history: bars ([run]), ticks ([run_tick_data]) and a log
    ([run_replay]).  Reports, timers, the checkpoint file and the worker threads'
    start and stop have no part in them here. *)

From S2P Require Import Prelude Float64 Event Bridge NodeHeap OrderBook Arith Portfolio Sizing Risk Exits ExitPolicy.
From S2P Require Import ClientOrderId Indicators EngineEvents Analytics Trackers EngineState Engine.

Open Scope string_scope.
Open Scope list_scope.
Open Scope Z_scope.

Section Loop.
Context {A : Arith} {HO : HashOrder} {MO : MultiOrder} {S : Type} {SI : IStrategy S} {W : Type} {XW : Execution W} (log_ : num → num).
#[local] Abbreviation engine := (@EngineState.engine A S W).
#[local] Abbreviation E := (@EngineState.E A S W).

(** ** Strategies *)

(** A call on the primary strategy that does not look whether there is one. *)
Definition ask_present {X} (f : S → exc X * S) : E X :=
  s ← gets en_strategy;
  match s with Some s => put_strategy primary (f s).2;; of_exc (f s).1 | None => of_exc (Throw "null strategy") end.
Definition take_intents (w : who) : E (list exit_intent) := ask w [] st_take_pending_exit_intents.

Definition resync_position (symbol : string) : E unit :=
  open ← gets (λ e, position_open symbol (en_portfolio e)); notify_position_change_all symbol open.

(** [finalize_strategy_route]: what becomes of the exits that come with an order. *)
Definition finalize_strategy_route (w : who) (o : order_msg) (halted : bool) : E unit :=
  if halted then _ ← take_intents w; mret () else
  if om_id o =? 0 then _ ← take_intents w; resync_position (om_symbol o) else
  st ← gets (λ e, get_order_status (om_id o) (en_tracker e));
  if bool_decide (st = st_rejected) then _ ← take_intents w; resync_position (om_symbol o) else
  intents ← take_intents w; c ← gets en_cfg; name ← gets (name_at w);
  modify (λ e, set_en_exits (register_strategy_exit_intent (cf_exit_defaults c) name (entry_order_of o)
                               (en_portfolio e) intents (en_exits e)) e).

(** The strategy's order is named, routed and finalized; [named]: under the
    strategy's name even when that is empty. *)
Definition route_of (w : who) (named : bool) (recv_ns : Z) (ts : time_point) (o : order_msg) : E unit :=
  name ← gets (name_at w);
  let o := om_set_recv_ns recv_ns o in
  let o := if named || negb (bool_decide (name = "")) then om_set_strategy name o else o in
  '(o, _) ← route_order log_ o ts false;
  halted ← gets en_halt_req;
  finalize_strategy_route w o halted.

(** ** Exits *)

Fixpoint route_closes (recv_ns : Z) (ts : time_point) (cs : list close_order) : E bool :=
  match cs with
  | [] => mret false
  | c :: cs =>
      '(_, halted) ← with_local (route_order log_ (om_set_recv_ns recv_ns (order_of_close c)) ts true);
      if halted : bool then mret true else route_closes recv_ns ts cs
  end.
Definition evaluate_exits_with (scan_exits : ExitManager → list close_order * ExitManager) (recv_ns : Z) (ts : time_point) : E bool :=
  cs ← gets (λ e, (scan_exits (en_exits e)).1);
  modify (λ e, set_en_exits (scan_exits (en_exits e)).2 e);;
  route_closes recv_ns ts cs.
Definition evaluate_exits (symbol : string) (px : num) (ts : time_point) (recv_ns : Z) : E bool :=
  evaluate_exits_with (on_price symbol px ts) recv_ns ts.
Definition evaluate_exits_bar (m : market_msg) : E bool :=
  evaluate_exits_with (on_bar (mm_symbol m) (mm_open m) (mm_low m) (mm_high m) (mm_close m) (mm_ts m)) (mm_recv_ns m) (mm_ts m).

(** The additional strategies, one after the other. *)
Fixpoint dispatch_extras (exits : E bool) (call : S → exc (option order_msg) * S) (recv_ns : Z) (ts : time_point) (places : list nat) : E unit :=
  match places with
  | [] => mret ()
  | i :: places =>
      halted ← gets en_halt;
      if halted : bool then mret () else
      stop ← exits;
      if stop : bool then mret () else
      o ← ask (extra i) None call;
      match o with
      | Some o =>
          '(_, asked) ← with_local (route_of (extra i) true recv_ns ts o);
          halted ← gets en_halt;
          if asked || halted then mret () else dispatch_extras exits call recv_ns ts places
      | None => dispatch_extras exits call recv_ns ts places
      end
  end.
Definition dispatch_extras_on_market (m : market_msg) : E unit :=
  places ← extra_places; dispatch_extras (evaluate_exits_bar m) (st_on_market m) (mm_recv_ns m) (mm_ts m) places.
Definition dispatch_extras_on_tick (t : tick_msg) : E unit :=
  places ← extra_places;
  dispatch_extras (evaluate_exits (tm_symbol t) (tm_price t) (tm_ts t) (tm_recv_ns t)) (st_on_tick t) (tm_recv_ns t) (tm_ts t) places.

(** ** The parts the handlers share *)

Definition stopped : E bool := gets (λ e, en_halt_req e || en_halt e).
Definition mark_price (price : num) : E unit := modify (set_en_mid price).
Definition mark (symbol : string) (price : num) : E unit := mark_price price;; modify (set_en_mark_symbol symbol).

(** The market maker quotes at the open when an order is due. *)
Definition recenter_if_due (symbol : string) (ts : time_point) (worker_owns : bool) : E unit :=
  first ← gets (λ e, head (en_pending e)); mid ← gets en_mid;
  match first with
  | Some x => when (om_eligible (pe_order x) <=? ts) (recenter log_ symbol mid false worker_owns ts)
  | None => mret ()
  end.

Definition announce (ev : engine_event) (av : an_event) (symbol : string) (price : num) (logged : bool) : E unit :=
  when logged (log_event ev);; publish_event ev;;
  c ← gets en_cfg;
  if is_threaded c then modify (λ e, set_en_analytics (an_on_mark symbol price (en_analytics e)) e) else analytics_on log_ av.
Definition announce_bar (m : market_msg) : bool → E unit := announce (ev_market m) (av_market m) (mm_symbol m) (mm_close m).
Definition announce_tick (t : tick_msg) : bool → E unit := announce (ev_tick t) (av_tick t) (tm_symbol t) (tm_price t).

(** A venue fill in shadow mode: it is compared, not booked. *)
Definition shadow_fill_of (f0 : fill_msg) : E unit :=
  modify (λ e, set_en_shadow (on_exchange_fill f0 <$> en_shadow e) e);;
  xp ← gets en_exchange_portfolio;
  f ← match xp with
      | Some p =>
          f ← stamp_fill_attribution f0;
          modify (set_en_exchange_portfolio (Some (on_fill_lot (fill_of_msg f) (fm_opener f) (fm_strategy f) p)));; mret f
      | None => mret f0
      end;
  xa ← gets en_exchange_analytics; when (bool_decide (is_Some xa)) (acquire_pooled fill_pool);;
  modify (λ e, set_en_exchange_analytics ((λ a, default a (an_on_event log_ (av_fill f) a)) <$> en_exchange_analytics e) e).
Definition venue_fill (f : fill_msg) : E bool :=
  c ← gets en_cfg;
  if bool_decide (cf_mode c = mode_shadow) then shadow_fill_of f;; mret true else handle_engine_fill log_ f false.

(** The provider's part of an event: the fills and answers that came in since.
    [print]: the trade a shadow venue is shown; [local]: each fill has a halt request
    of its own. *)
Definition drain_provider (symbol : string) (print : option (num * Z)) (ts : time_point) (local : bool) : E bool :=
  c ← gets en_cfg; mid ← gets en_mid;
  match cf_provider c with
  | Some p =>
      if negb (pv_has_execution p) then mret true else
      put_world (w_on_mid_price symbol mid);;
      match pv_adapter p, print with
      | Some h, Some (px, v) =>
          when (bool_decide (cf_mode c = mode_shadow)) (put_world (ad_on_trade h symbol px (n_of v) ts))
      | _, _ => mret ()
      end;;
      drain_venue_bracket_meta;;
      match pv_adapter p with
      | None => mret true
      | Some h =>
          drain_async_submit_results log_ h;;
          fills ← poll_fills h;
          for_while (λ f, if local then '(ok, _) ← with_local (venue_fill f); mret ok else venue_fill f) fills
      end
  | None => mret true
  end.

(** ** The handlers of a live stream *)

Definition flatten_if_asked : E unit :=
  f ← gets en_flatten; modify (set_en_flatten false);; when f (unwind_positions log_).

(** The primary strategy on a bar or tick, then the additional ones. *)
Definition consult (call : S → exc (option order_msg) * S) (recv_ns : Z) (ts : time_point) (recheck : bool) : E unit :=
  o ← ask primary None call;
  halted ← gets en_halt;
  match o with
  | Some o => when (negb (recheck && halted)) (route_of primary false recv_ns ts o)
  | None => mret ()
  end.
(** The strategies' turn: unless an exit halted the engine or there is no strategy. *)
Definition strategies_turn (exits : E bool) (call : S → exc (option order_msg) * S) (extras : E unit) (recv_ns : Z)
    (ts : time_point) (recheck : bool) : E bool :=
  stop ← exits;
  if stop : bool then mret false else
  none ← gets (λ e, negb (bool_decide (is_Some (en_strategy e))) || en_halt e);
  if none : bool then mret false else
  consult call recv_ns ts recheck;;
  halted ← gets en_halt;
  when (negb halted) extras;; mret true.

Definition process_single_bar (rec : market_msg) : E unit :=
  halted ← gets en_halt;
  if halted : bool then mret () else
  flatten_if_asked;;
  advance_all (mm_ts rec);;
  ns ← world_ w_steady_ns;
  let m := mm_set_recv_ns ns rec in
  c ← gets en_cfg;
  mark (mm_symbol m) (mm_open m);;
  _ ← with_local (recenter_if_due (mm_symbol m) (mm_ts m) (cf_mm_worker c));
  '(_, asked) ← with_local (drain_pending log_ (Some (mm_ts m)));
  halted ← gets en_halt;
  if asked || halted then mret () else
  mark (mm_symbol m) (mm_close m);;
  '(_, asked) ← with_local (check_pending_stops log_ (mm_open m) (mm_high m) (mm_low m) (mm_ts m);;
                            sweep_resting_limits log_ (mm_symbol m) (mm_low m) (mm_high m) (mm_ts m));
  halted ← gets en_halt;
  if asked || halted then mret () else
  mid ← gets en_mid;
  _ ← with_local (recenter log_ (mm_symbol m) mid true (cf_mm_worker c) (mm_ts m));
  ok ← drain_provider (mm_symbol m) (Some (mm_close m, mm_volume m)) (mm_ts m) true;
  if negb ok then mret () else
  '(_, asked) ← with_local (check_pending_stops log_ (mm_open m) (mm_high m) (mm_low m) (mm_ts m));
  halted ← gets en_halt;
  if asked || halted then mret () else
  acquire_pooled market_pool;; announce_bar m true;; count_event;;
  _ ← with_local (strategies_turn (evaluate_exits_bar m) (st_on_market m) (dispatch_extras_on_market m) (mm_recv_ns m) (mm_ts m) true);
  mret ().

Definition process_single_tick (rec : tick_msg) : E unit :=
  halted ← gets en_halt;
  if halted : bool then mret () else
  flatten_if_asked;;
  advance_all (tm_ts rec);;
  ns ← world_ w_steady_ns;
  let t := tm_set_recv_ns ns rec in
  mark (tm_symbol t) (tm_price t);;
  _ ← with_local (recenter log_ (tm_symbol t) (tm_price t) true false (tm_ts t));
  ok ← drain_provider (tm_symbol t) (Some (tm_price t, tm_quantity t)) (tm_ts t) true;
  if negb ok then mret () else
  _ ← with_local (
    drain_pending log_ (Some (tm_ts t));;
    stop ← stopped;
    if stop : bool then mret true else
    check_pending_stops log_ (tm_price t) (tm_price t) (tm_price t) (tm_ts t);;
    stop ← stopped;
    if stop : bool then mret true else
    acquire_pooled tick_pool;; announce_tick t true;; count_event;;
    strategies_turn (evaluate_exits (tm_symbol t) (tm_price t) (tm_ts t) (tm_recv_ns t)) (st_on_tick t) (dispatch_extras_on_tick t)
      (tm_recv_ns t) (tm_ts t) true);
  mret ().

(** ** Depth *)

Definition kL2SnapshotMaxLevels : nat := 20.
Definition as_level (x : num * Z) : num * num := (x.1, n_of x.2).
Definition apply_l2_snapshot (symbol : string) (bids asks : list (num * Z)) : E unit :=
  modify (λ e, set_en_l2_seeded ({[symbol]} ∪ en_l2_seeded e) e);;
  world (bk_get_or_create symbol);;
  let bids := take kL2SnapshotMaxLevels bids in
  let asks := take kL2SnapshotMaxLevels asks in
  world (bk_l2_snapshot symbol bids asks);;
  router_on_l2_snapshot symbol (as_level <$> bids) (as_level <$> asks);;
  acquire_pooled l2_snapshot_pool;;
  log_event (ev_l2_snapshot symbol bids asks);; publish_event (ev_l2_snapshot symbol bids asks).

(** The strategies on a depth update, each with a halt request of its own. *)
Fixpoint dispatch_l2 (call : S → exc (option order_msg) * S) (recv_ns : Z) (ts : time_point) (ws : list who) : E unit :=
  match ws with
  | [] => mret ()
  | w :: ws =>
      halted ← gets (λ e, match w with extra _ => en_halt e | primary => false end);
      if halted : bool then mret () else
      o ← ask w None call;
      match o with
      | Some o =>
          '(_, asked) ← with_local (route_of w true recv_ns ts o);
          halted ← gets en_halt;
          if asked || halted then mret () else dispatch_l2 call recv_ns ts ws
      | None => dispatch_l2 call recv_ns ts ws
      end
  end.

Definition apply_l2_update (symbol : string) (side : tick_side) (price : num) (new_qty : Z) : E unit :=
  world (bk_get_or_create symbol);;
  let bid := bool_decide (side = tick_bid) in
  world (bk_l2_update symbol bid price new_qty);;
  router_on_l2_update symbol (if bid then side_buy else side_sell) price (n_of new_qty);;
  ts ← world_ w_now; ns ← world_ w_steady_ns;
  acquire_pooled l2_update_pool;;
  log_event (ev_l2_update symbol side price new_qty);; publish_event (ev_l2_update symbol side price new_qty);;
  closed ← gets (λ e, en_pause e || en_halt e);
  if closed : bool then mret () else
  advance_all ts;;
  '(_, asked) ← with_local (drain_pending log_ (Some ts));
  halted ← gets en_halt;
  if asked || halted then mret () else
  exit_px ← gets (λ e, if (en_mid e >? n_zero)%num then en_mid e else price);
  stop ← evaluate_exits symbol exit_px ts ns;
  if stop : bool then mret () else
  places ← extra_places;
  dispatch_l2 (st_on_l2_update symbol side price new_qty) ns ts (primary :: (extra <$> places)).

(** ** Cancels and amendments *)

Definition cancel_order (symbol : string) (id : Z) (reason : string) : E bool :=
  h ← resolve_adapter symbol;
  drain_async_submit_results log_ h;;
  cancelled ← world (ad_cancel h id);
  async ← gets (λ e, ad_is_async h (en_world e));
  if cancelled && async then
    modify (λ e, set_en_cancels (<[id := {| pc_symbol := symbol; pc_reason := reason |}]> (en_cancels e)) e);; mret true
  else
  stops ← gets en_stops;
  let others := filter (λ o, om_id o ≠ id) stops in
  let found := negb (length others =? length stops)%nat in
  when (negb cancelled) (modify (set_en_stops others));;
  if cancelled || found then confirm_cancel log_ symbol id reason;; mret true else mret false.

Definition modify_order (symbol : string) (id : Z) (new_price new_qty : num) : E bool :=
  closed ← gets (λ e, en_halt e || en_pause e);
  if closed : bool then mret false else
  h ← resolve_adapter symbol;
  modified ← world (ad_modify h id new_price new_qty);
  if negb modified then mret false else
  now ← world_ w_now;
  acquire_pooled amend_pool;;
  log_event (ev_amend now symbol id new_price new_qty);; publish_event (ev_amend now symbol id new_price new_qty);;
  c ← gets en_cfg; when (negb (is_threaded c)) (analytics_on log_ av_amend);;
  audit (au_amendment id symbol new_price new_qty);; mret true.

(** ** The loops over a history *)

(** The worker threads start: an old halt is forgotten. *)
Definition start_workers : E unit := modify (set_en_halt false).

(** A bar of the history: [mm_ts] is the stored time, zero when there is none;
    [hb_date]: what its date parses to. *)
Record history_bar := { hb_msg : market_msg; hb_date : option time_point }.
Definition one_ms : Z := 1000000.
Definition resolve_bar_ts (base : time_point) (prev : option time_point) (b : history_bar) : time_point :=
  let later t := match prev with None => true | Some p => p <? t end in
  let stored := mm_ts (hb_msg b) in
  if negb (stored =? 0) && later stored then stored else
  match hb_date b with
  | Some d => if later d then d else match prev with None => base | Some p => p + one_ms end
  | None => match prev with None => base | Some p => p + one_ms end
  end.

Definition drain_maker_orders (ts : time_point) : E unit :=
  os ← world_ w_maker_orders;
  for_each (λ o, world (bk_get_or_create (om_symbol o));; trs ← world (bk_add_maker_order o);
                 deliver_mm_book_trades log_ (om_symbol o) trs ts) os.

(** One bar of [run]; [false] leaves the loop. *)
Definition run_bar (m0 : market_msg) : E bool :=
  ns ← world_ w_steady_ns;
  let m := mm_set_recv_ns ns m0 in
  c ← gets en_cfg;
  mark_price (mm_open m);;
  recenter_if_due (mm_symbol m) (mm_ts m) (cf_mm_worker c);;
  drain_pending log_ (Some (mm_ts m));;
  stop ← stopped;
  if stop : bool then mret false else
  mark_price (mm_close m);;
  check_pending_stops log_ (mm_open m) (mm_high m) (mm_low m) (mm_ts m);;
  sweep_resting_limits log_ (mm_symbol m) (mm_low m) (mm_high m) (mm_ts m);;
  stop ← stopped;
  if stop : bool then mret false else
  _ ← drain_provider (mm_symbol m) None (mm_ts m) false;
  stop ← stopped;
  if stop : bool then mret false else
  mid ← gets en_mid;
  recenter log_ (mm_symbol m) mid true (cf_mm_worker c) (mm_ts m);;
  drain_maker_orders (mm_ts m);;
  acquire_pooled market_pool;; announce_bar m true;; count_event;;
  strategies_turn (evaluate_exits_bar m) (st_on_market m) (dispatch_extras_on_market m) (mm_recv_ns m) (mm_ts m) false.

Definition may_go_on : E bool := gets (λ e, negb (en_halt_req e) && negb (en_halt e) && negb (w_worker_failed (en_world e))).
Fixpoint bars_loop (base : time_point) (prev : option time_point) (bars : list history_bar) : E unit :=
  match bars with
  | [] => mret ()
  | b :: bars =>
      go ← may_go_on;
      if negb go then mret () else
      let ts := resolve_bar_ts base prev b in
      ok ← run_bar (mm_set_ts ts (hb_msg b));
      if ok : bool then bars_loop base (Some ts) bars else mret ()
  end.

(** [run] on bars.  A run has its own halt request and event count; [seeded]: with a
    seed, a history without times starts at the epoch. *)
Definition run (seeded : bool) (bars : list history_bar) : E unit :=
  start_workers;;
  now ← world_ w_now;
  modify (set_en_count 0);;
  clear_pending_state;;
  _ ← with_local (bars_loop (if seeded then 0 else now) None bars;; drain_final_pending log_;; cancel_day_orders);
  mret ().

(** The bar a second of ticks has made. *)
Definition bar_of (b : bar_state) (ns : Z) : market_msg :=
  {| mm_ts := bs_start b; mm_symbol := bs_symbol b; mm_open := bs_open b; mm_high := bs_high b; mm_low := bs_low b;
     mm_close := bs_close b; mm_volume := bs_volume b; mm_recv_ns := ns |}.
Definition on_tick_bar (b : bar_state) : E unit :=
  ns ← world_ w_steady_ns;
  let m := bar_of b ns in
  acquire_pooled market_pool;; announce_bar m false;;
  _ ← strategies_turn (evaluate_exits_bar m) (st_on_market m) (dispatch_extras_on_market m) ns (mm_ts m) false;
  mret ().

Definition run_tick (rec : tick_msg) : E bool :=
  mark_price (tm_price rec);;
  recenter log_ (tm_symbol rec) (tm_price rec) true false (tm_ts rec);;
  drain_pending log_ (Some (tm_ts rec));;
  stop ← stopped;
  if stop : bool then mret false else
  check_pending_stops log_ (tm_price rec) (tm_price rec) (tm_price rec) (tm_ts rec);;
  stop ← stopped;
  if stop : bool then mret false else
  ns ← world_ w_steady_ns;
  let t := tm_set_recv_ns ns rec in
  acquire_pooled tick_pool;; announce_tick t true;; count_event;;
  stop ← evaluate_exits (tm_symbol t) (tm_price t) (tm_ts t) ns;
  if stop : bool then mret false else
  o ← ask_present (st_on_tick t);
  match o with Some o => route_of primary false ns (tm_ts t) o | None => mret () end;;
  halted ← gets en_halt;
  when (negb halted) (dispatch_extras_on_tick t);;
  asked ← gets en_halt_req;
  mret (negb asked).

Definition new_bars (g g' : BarAggregator) : list bar_state := drop (length (ba_out g)) (ba_out g').
Fixpoint ticks_loop (g : BarAggregator) (ticks : list tick_msg) : E BarAggregator :=
  match ticks with
  | [] => mret g
  | t :: ticks =>
      go ← may_go_on;
      if negb go then mret g else
      ok ← run_tick t;
      if negb ok then mret g else
      let g' := ba_on_tick t g in
      for_each on_tick_bar (new_bars g g');;
      ticks_loop g' ticks
  end.
Definition run_tick_data (ticks : list tick_msg) : E unit :=
  clear_pending_state;;
  start_workers;;
  modify (set_en_count 0);;
  _ ← with_local (
    g ← ticks_loop (mk_aggregator 1000) ticks;
    for_each on_tick_bar (new_bars g (ba_flush g));;
    drain_final_pending log_);
  mret ().

(** ** Replay of a log *)

Definition replay_bar (m : market_msg) : E unit :=
  mark_price (mm_open m);;
  recenter_if_due (mm_symbol m) (mm_ts m) false;;
  drain_pending log_ (Some (mm_ts m));;
  stop ← stopped;
  if stop : bool then mret () else
  mark_price (mm_close m);;
  check_pending_stops log_ (mm_open m) (mm_high m) (mm_low m) (mm_ts m);;
  stop ← stopped;
  if stop : bool then mret () else
  sweep_resting_limits log_ (mm_symbol m) (mm_low m) (mm_high m) (mm_ts m);;
  stop ← stopped;
  if stop : bool then mret () else
  mid ← gets en_mid;
  recenter log_ (mm_symbol m) mid true false (mm_ts m);;
  announce_bar m false;;
  _ ← strategies_turn (evaluate_exits_bar m) (st_on_market m) (dispatch_extras_on_market m) (mm_recv_ns m) (mm_ts m) false;
  mret ().

Definition replay_tick (t : tick_msg) : E unit :=
  mark_price (tm_price t);;
  drain_pending log_ (Some (tm_ts t));;
  stop ← stopped;
  if stop : bool then mret () else
  check_pending_stops log_ (tm_price t) (tm_price t) (tm_price t) (tm_ts t);;
  asked ← gets en_halt_req;
  if asked : bool then mret () else
  announce_tick t false;;
  _ ← strategies_turn (evaluate_exits (tm_symbol t) (tm_price t) (tm_ts t) (tm_recv_ns t)) (st_on_tick t) (dispatch_extras_on_tick t)
        (tm_recv_ns t) (tm_ts t) false;
  mret ().

Definition an_of (ev : engine_event) : an_event :=
  match ev with
  | ev_order o => av_order o
  | ev_fill f => av_fill f
  | ev_rejection _ _ _ _ => av_rejection
  | ev_cancel _ _ _ _ => av_cancel
  | ev_amend _ _ _ _ _ => av_amend
  | ev_market m => av_market m
  | ev_tick t => av_tick t
  | ev_l2_snapshot _ bids asks => av_l2_snapshot bids asks
  | ev_l2_update _ _ _ _ => av_l2_update
  | ev_funding ts _ d _ => av_funding ts d
  end.
Definition replay_event (ev : engine_event) : E unit :=
  match ev with
  | ev_market m => replay_bar m
  | ev_tick t => replay_tick t
  | _ => publish_event ev;; c ← gets en_cfg; when (negb (is_threaded c)) (analytics_on log_ (an_of ev))
  end.
Fixpoint replay_loop (evs : list engine_event) : E unit :=
  match evs with
  | [] => mret ()
  | ev :: evs =>
      stop ← stopped;
      if stop : bool then mret () else replay_event ev;; count_event;; replay_loop evs
  end.
Definition run_replay (evs : list engine_event) : E unit :=
  start_workers;;
  clear_pending_state;;
  modify (set_en_count 0);;
  _ ← with_local (replay_loop evs;; drain_final_pending log_;; cancel_day_orders);
  mret ().

(** ** Between runs *)

Definition reset_for_next_trial : E unit :=
  c ← gets en_cfg;
  let initial := if (cf_initial_balance c >? n_zero)%num then cf_initial_balance c else n_of 10000 in
  modify (λ e, set_en_portfolio (pf_reset (en_portfolio e)) e);;
  modify (λ e, set_en_analytics (an_reset initial (en_analytics e)) e);;
  modify (λ e, set_en_exits (Exits.reset (en_exits e)) e);;
  modify (λ e, set_en_tracker (tracker_reset (en_tracker e)) e);;
  modify (λ e, set_en_risk (rm_reset (en_risk e)) e);;
  modify (set_en_mid n_zero);; modify (set_en_mark_symbol "");;
  put_world bk_reset;;
  modify (λ e, set_en_adverse (as_reset (en_adverse e)) e);;
  modify (set_en_specs ∅);; modify (set_en_l2_seeded ∅);;
  modify (set_en_meta ∅);; modify (set_en_cancels ∅);;
  modify (λ e, set_en_shadow ((λ _, ∅) <$> en_shadow e) e).

Definition set_strategy (s : option S) : E unit :=
  match s with
  | None => mret ()
  | Some s =>
      modify (set_en_strategy (Some s));;
      ps ← gets (λ e, iter (positions_ (en_portfolio e)));
      for_each (λ x : string * position, ask_present (st_set_position_open x.1 (n_abs (qty x.2) >? n_eps)%num)) ps
  end.
Definition switch_symbol (symbol : string) : E unit := ask_present (st_set_position_open symbol false).

(** ** Inputs *)

(** What a live engine is given: the stream's events, the operator's commands, the
    provider's funding settlements, and what its callbacks and workers report. *)
Inductive input :=
| in_bar (m : market_msg)
| in_tick (t : tick_msg)
| in_l2_snapshot (symbol : string) (bids asks : list (num * Z))
| in_l2_update (symbol : string) (side : tick_side) (price : num) (quantity : Z)
| in_cancel (symbol : string) (id : Z) (reason : string)
| in_modify (symbol : string) (id : Z) (price quantity : num)
| in_pause (on : bool)
| in_flatten
| in_halt (reason : string)
| in_funding (ts : time_point) (symbol : string) (cash_delta : num) (reason : string).

Definition on_input (i : input) : E unit :=
  match i with
  | in_bar m => process_single_bar m
  | in_tick t => process_single_tick t
  | in_l2_snapshot s b a => apply_l2_snapshot s b a
  | in_l2_update s sd p q => apply_l2_update s sd p q
  | in_cancel s id r => _ ← cancel_order s id r; mret ()
  | in_modify s id p q => _ ← modify_order s id p q; mret ()
  | in_pause b => modify (set_en_pause b)
  | in_flatten => modify (set_en_flatten true)
  | in_halt r => trigger_halt r
  | in_funding ts s d r => acquire_pooled funding_pool;; publish_event (ev_funding ts s d r)
  end.
Definition stream (inputs : list input) : E unit := for_each on_input inputs.
End Loop.
