(* ===== verification/EngineLogic.v ===== *)
(** * Reasoning about the engine

    A small program logic for the computations of EngineState.v: [steps R P m Q]
    says that from a state with [P] the computation [m] keeps the queues well formed,
    that it moves the state along one relation of the law [R] when it returns and has
    [Q] then, and along the other when it throws.  What the components promise to the engine's
    theorems is the interface [Frame]: a relation that the primitive actions respect
    is respected by every handler and every loop.  Each theorem about whole runs
    is an instance. *)

From Stdlib Require Import Sorting.Sorted.
From S2P Require Import Prelude Float64 Event Bridge NodeHeap OrderBook Arith Portfolio Sizing Risk Exits ExitPolicy.
From S2P Require Import ClientOrderId Indicators EngineEvents Analytics Trackers EngineState Engine EngineLoop.

Open Scope string_scope.
Open Scope list_scope.
Open Scope Z_scope.

Section Logic.
Context {A : Arith} {HO : HashOrder} {MO : MultiOrder} {S : Type} {SI : IStrategy S} {W : Type} {XW : Execution W} (log_ : num → num).
#[local] Abbreviation engine := (@EngineState.engine A S W).
#[local] Abbreviation E := (@EngineState.E A S W).
(** The configuration, which never changes. *)
Variable cfg : engine_config.

(** ** Well-formed queues *)

(** [a] does not run after [b]. *)
Definition in_turn (a b : pending_entry) : Prop := runs_before b a = false.

(** Stops wait among the stops and nowhere else, and the queue is in the order in
    which it is served. *)
Record typed (e : engine) : Prop := {
  ty_cfg : en_cfg e = cfg;
  ty_stops : Forall (λ o, om_is_stop o = true) (en_stops e);
  ty_pending : Forall (λ x, om_is_stop (pe_order x) = false) (en_pending e);
  ty_order : StronglySorted in_turn (en_pending e) }.

Lemma typed_same (e e' : engine) : en_cfg e' = en_cfg e → en_stops e' = en_stops e → en_pending e' = en_pending e → typed e → typed e'.
Proof using Type. intros E0 E1 E2 [H0 H1 H2 H3]. split; by rewrite ?E0, ?E1, ?E2. Qed.

Lemma runs_before_total a b : runs_before a b = false → runs_before b a = true ∨
  (om_eligible (pe_order a) = om_eligible (pe_order b) ∧ pe_seq a = pe_seq b).
Proof. unfold runs_before. rewrite !orb_false_iff, !orb_true_iff, !andb_false_iff, !andb_true_iff, !Z.ltb_ge, !Z.ltb_lt, !Z.eqb_eq, !Z.eqb_neq. lia. Qed.
Lemma in_turn_before a b : runs_before a b = true → in_turn a b.
Proof. unfold in_turn, runs_before. rewrite !orb_false_iff, !orb_true_iff, !andb_false_iff, !andb_true_iff, !Z.ltb_ge, !Z.ltb_lt, !Z.eqb_eq, !Z.eqb_neq. lia. Qed.
Lemma in_turn_trans a b c : in_turn a b → in_turn b c → in_turn a c.
Proof. unfold in_turn, runs_before. rewrite !orb_false_iff, !andb_false_iff, !Z.ltb_ge, !Z.eqb_neq. lia. Qed.

Lemma pq_push_forall (P : pending_entry → Prop) x q : P x → Forall P q → Forall P (pq_push x q).
Proof. intros Hx. induction 1 as [|y q Hy Hq IH]; cbn [pq_push]; [by repeat constructor|]. destruct (runs_before x y); by repeat constructor. Qed.
Lemma pq_push_sorted x q : StronglySorted in_turn q → StronglySorted in_turn (pq_push x q).
Proof.
  induction 1 as [|y q Hq IH Hy]; cbn [pq_push]; [by repeat constructor|]. destruct (runs_before x y) eqn:Exy.
  - constructor; [by constructor|]. apply in_turn_before in Exy. constructor; [done|].
    eapply Forall_impl; [exact Hy|]. intros z Hz. by apply (in_turn_trans _ y).
  - constructor; [done|]. by apply pq_push_forall.
Qed.

(** ** Triples *)

(** How a computation moves the state when it returns, and when it throws. *)
Record law := { law_ret :> engine → engine → Prop; law_throw : engine → engine → Prop }.
Definition moved (R : law) {X} (e : engine) (r : exc X * engine) : Prop :=
  match r.1 with Ret _ => R e r.2 | Throw _ => law_throw R e r.2 end.
(** The same either way. *)
Definition both (R : engine → engine → Prop) : law := {| law_ret := R; law_throw := R |}.
Lemma moved_both R {X} e (r : exc X * engine) : moved (both R) e r → R e r.2.
Proof using Type. unfold moved. by destruct r.1. Qed.

Section Triples.
Variable R : law.

Definition steps (P : engine → Prop) {X} (m : E X) (Q : X → engine → Prop) : Prop :=
  ∀ e, typed e → P e → typed (m e).2 ∧ moved R e (m e) ∧ ∀ x, (m e).1 = Ret x → Q x (m e).2.
Definition anything {X} (_ : X) (_ : engine) : Prop := True.
Definition pres {X} (m : E X) : Prop := steps (λ _, True) m anything.

(** What is asked of [R]: it is a preorder, and what is not in view changes freely. *)
Record quiet (e e' : engine) : Prop := {
  qu_cfg : en_cfg e' = en_cfg e;
  qu_out : en_out e' = en_out e;
  qu_portfolio : en_portfolio e' = en_portfolio e;
  qu_analytics : en_analytics e' = en_analytics e;
  qu_halt : en_halt e' = en_halt e;
  qu_stops : en_stops e' = en_stops e;
  qu_pending : en_pending e' = en_pending e;
  qu_seq : en_seq e' = en_seq e;
  qu_mid : en_mid e' = en_mid e }.
(** The same but for the queues. *)
Record requeued (e e' : engine) : Prop := {
  rq_cfg : en_cfg e' = en_cfg e;
  rq_out : en_out e' = en_out e;
  rq_portfolio : en_portfolio e' = en_portfolio e;
  rq_analytics : en_analytics e' = en_analytics e;
  rq_halt : en_halt e' = en_halt e }.

Definition plain_event (ev : engine_event) : bool :=
  match ev with ev_order _ | ev_fill _ | ev_funding _ _ _ _ => false | _ => true end.
Definition plain (o : output) : bool :=
  match o with out_log _ | out_audit _ => true | out_publish ev => plain_event ev | _ => false end.
Definition emitted (o : output) (e : engine) : engine := set_en_out (en_out e ++ [o]) e.
Definition halted_with (reason : string) (e : engine) : engine := emitted (out_halt reason) (set_en_halt true e).

Class Calm : Prop := {
  ca_refl e : R e e;
  ca_trans e1 e2 e3 : R e1 e2 → R e2 e3 → R e1 e3;
  ca_quiet e e' : quiet e e' → R e e';
  ca_emit o e : plain o = true → R e (emitted o e);
  ca_throw e e' : R e e' → law_throw R e e';
  ca_throw_trans e1 e2 e3 : R e1 e2 → law_throw R e2 e3 → law_throw R e1 e3 }.

Section Rules.
Context {C : Calm}.

Lemma steps_conseq {X} (P P' : engine → Prop) (m : E X) (Q Q' : X → engine → Prop) :
  steps P m Q → (∀ e, P' e → P e) → (∀ x e, Q x e → Q' x e) → steps P' m Q'.
Proof using Type. intros H HP HQ e Ht Hp. destruct (H e Ht (HP e Hp)) as (H1 & H2 & H3). split_and!; [done..|]. intros x Ex. by apply HQ, H3. Qed.

Lemma steps_ret {X} (P : engine → Prop) (x : X) : steps P (mret x : E X) (λ y e, y = x ∧ P e).
Proof using C. intros e Ht Hp. split_and!; [done|apply ca_refl|]. by intros y [= <-]. Qed.
Lemma moved_quiet {X} (r : exc X) e e' : R e e' → moved R e (r, e').
Proof using C. intros H. unfold moved. cbn [fst snd]. destruct r; [done|by apply ca_throw]. Qed.
Lemma moved_trans {X} (r : exc X * engine) e1 e2 : R e1 e2 → moved R e2 r → moved R e1 r.
Proof using C. intros H. unfold moved. destruct r.1; [by apply ca_trans|by apply ca_throw_trans]. Qed.
Lemma pres_lift {X} (r : exc X) : pres (of_exc r).
Proof using C. intros e Ht Hp. split_and!; [done|apply moved_quiet, ca_refl|done]. Qed.
Lemma steps_gets {X} (P : engine → Prop) (f : engine → X) : steps P (gets f) (λ y e, y = f e ∧ P e).
Proof using C. intros e Ht Hp. split_and!; [done|apply ca_refl|]. by intros y [= <-]. Qed.

Lemma steps_bind {X Y} (P : engine → Prop) (m : E X) (k : X → E Y) (Q : X → engine → Prop) (Q' : Y → engine → Prop) :
  steps P m Q → (∀ x, steps (Q x) (k x) Q') → steps P (m ≫= k) Q'.
Proof using C.
  intros Hm Hk e Ht Hp. destruct (Hm e Ht Hp) as (H1 & H2 & H3). unfold mbind, E_bind, moved in *. destruct (m e) as [[x|w] e1]; cbn [fst snd] in *.
  - destruct (Hk x e1 H1 (H3 x eq_refl)) as (K1 & K2 & K3). unfold moved in K2. split_and!; [done| |done].
    destruct (k x e1) as [[y|w] e2]; cbn [fst snd] in *; [by apply (ca_trans _ e1)|by apply (ca_throw_trans _ e1)].
  - split_and!; done.
Qed.

Lemma steps_modify (P : engine → Prop) (f : engine → engine) Q :
  (∀ e, typed e → P e → typed (f e) ∧ R e (f e) ∧ Q (f e)) → steps P (modify f) (λ _, Q).
Proof using Type. intros H e Ht Hp. destruct (H e Ht Hp) as (H1 & H2 & H3). by split_and!. Qed.

Lemma steps_local {X} (m : E X) : pres m → pres (with_local m).
Proof using C.
  intros H e Ht _. unfold with_local.
  assert (typed (set_en_halt_req false e)) as Ht' by by apply (typed_same e).
  destruct (H _ Ht' I) as (H1 & H2 & _). unfold moved in H2. destruct (m (set_en_halt_req false e)) as [[x|w] e1]; cbn [fst snd] in *.
  - split_and!; [by apply (typed_same e1)| |done]. apply (ca_trans _ (set_en_halt_req false e)); [by apply ca_quiet|]. apply (ca_trans _ e1); [done|by apply ca_quiet].
  - split_and!; [done| |done]. apply (ca_throw_trans _ (set_en_halt_req false e)); [by apply ca_quiet|done].
Qed.

Lemma steps_for_each {X} (P : engine → Prop) (f : X → E unit) l : Forall (λ x, steps P (f x) (λ _, P)) l → steps P (for_each f l) (λ _, P).
Proof using C.
  induction 1 as [|x l Hx Hl IH]; cbn [for_each].
  - eapply steps_conseq; [apply (steps_ret P)|done|by intros ? ? []].
  - by eapply steps_bind.
Qed.

(** The rules without conditions, which the automation applies. *)
Lemma pres_of {X} (P : engine → Prop) (m : E X) Q : steps P m Q → (∀ e, P e) → pres m.
Proof using Type. intros H HP. by eapply steps_conseq. Qed.
Lemma pres_any {X} (P : engine → Prop) (m : E X) : pres m → steps P m anything.
Proof using Type. intros H. by eapply steps_conseq. Qed.
Lemma pres_ret {X} (x : X) : pres (mret x : E X).
Proof using C. by eapply steps_conseq; [apply (steps_ret (λ _, True))| |]. Qed.
Lemma pres_gets {X} (f : engine → X) : pres (gets f).
Proof using C. by eapply steps_conseq; [apply (steps_gets (λ _, True))| |]. Qed.
Lemma pres_cfg {X} (k : engine_config → E X) : pres (k cfg) → pres (gets en_cfg ≫= k).
Proof using Type. intros H e Ht _. unfold mbind, E_bind, gets. rewrite (ty_cfg e Ht). by apply H. Qed.
Lemma pres_bind {X Y} (m : E X) (k : X → E Y) : pres m → (∀ x, pres (k x)) → pres (m ≫= k).
Proof using C. intros H1 H2. eapply steps_bind; [exact H1|]. intros x. eapply steps_conseq; [apply H2|done|done]. Qed.
Lemma pres_when b (m : E unit) : pres m → pres (when b m).
Proof using C. intros H. destruct b; [done|apply pres_ret]. Qed.
Lemma pres_for_each {X} (f : X → E unit) l : (∀ x, pres (f x)) → pres (for_each f l).
Proof using C. intros H. induction l as [|x l IH]; cbn [for_each]; [apply pres_ret|]. apply pres_bind; [apply H|done]. Qed.
Lemma pres_for_while {X} (f : X → E bool) l : (∀ x, pres (f x)) → pres (for_while f l).
Proof using C. intros H. induction l as [|x l IH]; cbn [for_while]; [apply pres_ret|]. apply pres_bind; [apply H|]. intros [|]; [done|apply pres_ret]. Qed.
Lemma pres_quiet (f : engine → engine) : (∀ e, quiet e (f e)) → pres (modify f).
Proof using C. intros H e Ht _. split_and!; [by apply (typed_same e); [apply H..|]|apply ca_quiet, H|done]. Qed.
Lemma pres_world {X} (f : W → exc X * W) : pres (world f).
Proof using C. intros e Ht _. split_and!; [by apply (typed_same e)|by apply moved_quiet, ca_quiet|done]. Qed.
Lemma pres_world_ {X} (f : W → X * W) : pres (world_ f).
Proof using C. intros e Ht _. split_and!; [by apply (typed_same e)|by apply ca_quiet|done]. Qed.
Lemma pres_put_world f : pres (put_world f).
Proof using C. by apply pres_quiet. Qed.
Lemma pres_out o : plain o = true → pres (out o).
Proof using C. intros Ho e Ht _. split_and!; [by apply (typed_same e)|by apply ca_emit|done]. Qed.
End Rules.

(** ** The primitive actions *)

Definition plain_analytics (a : an_event) : bool := match a with av_fill _ | av_funding _ _ => false | _ => true end.

(** A pool that is exhausted halts the engine and throws; a ring that overflows halts a
    threaded engine at once; the statistics see all but fills and funding. *)
Class Flow : Prop := {
  fl_calm :: Calm;
  fl_pool e reason : en_halt e = false → law_throw R e (halted_with reason e);
  fl_ring e reason : is_threaded cfg = true → en_halt e = false → R e (halted_with reason e);
  fl_analytics e a : plain_analytics a = true →
    R e (set_en_analytics (default (en_analytics e) (an_on_event log_ a (en_analytics e))) e);
  fl_mark e symbol price : R e (set_en_analytics (an_on_mark symbol price (en_analytics e)) e) }.

(** The order may still go out: an engine without worker threads has not halted. *)
Definition clear_to_send (e : engine) : Prop := is_threaded cfg = true ∨ en_halt e = false.

(** Fills are booked, positions flattened and the engine halted. *)
Class Unwinding : Prop := {
  uw_flow :: Flow;
  uw_halt e reason : en_halt e = false → R e (halted_with reason e);
  uw_announce o e : om_is_stop o = false → om_strategy o = "risk_unwind" → R e (emitted (out_publish (ev_order o)) e);
  uw_submit h o e : om_is_stop o = false → om_strategy o = "risk_unwind" → R e (emitted (out_submit h o) e);
  uw_book f sim reason : pres (book_fill log_ f sim reason) }.

(** Orders go out while the engine runs. *)
Class Frame : Prop := {
  fr_unwinding :: Unwinding;
  fr_announce o e : om_is_stop o = false → en_halt e = false → R e (emitted (out_publish (ev_order o)) e);
  fr_submit h o e : om_is_stop o = false → clear_to_send e → R e (emitted (out_submit h o) e);
  fr_funding ts symbol d reason : pres (publish_event (ev_funding ts symbol d reason)) }.

(** The relation does not look at the queues. *)
Class Whole : Prop := {
  wh_frame :: Frame;
  wh_queue e e' : requeued e e' → R e e' }.
End Triples.
End Logic.
#[export] Existing Instances uw_flow fr_unwinding wh_frame.
#[export] Hint Extern 2 (Calm _) => (eapply fl_calm; exact _) : typeclass_instances.

(** Walk through a computation, rule by rule; what is left are the actions. *)
Create HintDb engine.
#[export] Hint Resolve pres_ret pres_gets pres_world pres_world_ pres_put_world pres_lift : engine.
#[export] Hint Extern 1 (Calm _) => exact _ : engine.
#[export] Hint Extern 1 (Flow _ _ _) => exact _ : engine.
#[export] Hint Extern 1 (Unwinding _ _ _) => exact _ : engine.
#[export] Hint Extern 1 (Frame _ _ _) => exact _ : engine.
#[export] Hint Extern 1 (Whole _ _ _) => exact _ : engine.
#[export] Hint Extern 2 (pres _ _ (out _)) => (apply pres_out; [exact _|reflexivity]) : engine.
#[export] Hint Extern 2 (pres _ _ (audit _)) => (apply pres_out; [exact _|reflexivity]) : engine.
#[export] Hint Extern 3 (pres _ _ (modify _)) => (apply pres_quiet; [exact _|intros ?; split; reflexivity]) : engine.

Ltac walk :=
  repeat (cbv zeta; lazymatch goal with
  | |- pres _ _ (mbind _ (gets en_cfg)) => apply pres_cfg
  | |- pres _ _ (mbind _ _) => apply pres_bind; [exact _| |intros ?]
  | |- pres _ _ (when _ _) => apply pres_when; [exact _|]
  | |- pres _ _ (for_each _ _) => first [solve [eauto 2 with engine] | apply pres_for_each; [exact _|intros ?]]
  | |- pres _ _ (for_while _ _) => apply pres_for_while; [exact _|intros ?]
  | |- pres _ _ (with_local _) => apply steps_local; [exact _|]
  | |- pres _ _ (if ?b then _ else _) => destruct b
  | |- pres _ _ (match ?x with _ => _ end) => destruct x
  | |- pres _ _ _ => solve [eauto with engine]
  end).


(** ** What never throws *)

Section Total.
Context {A : Arith} {S : Type} {W : Type}.
#[local] Abbreviation engine := (@EngineState.engine A S W).
#[local] Abbreviation E := (@EngineState.E A S W).

Definition total {X} (m : E X) : Prop := ∀ e, ∃ x, (m e).1 = Ret x.
Lemma total_ret {X} (x : X) : total (mret x : E X).
Proof. by exists x. Qed.
Lemma total_gets {X} (f : engine → X) : total (gets f).
Proof. intros e. by exists (f e). Qed.
Lemma total_modify f : total (modify f : E unit).
Proof. by exists (). Qed.
Lemma total_world_ {X} (f : W → X * W) : total (world_ f).
Proof. intros e. by eexists. Qed.
Lemma total_bind {X Y} (m : E X) (k : X → E Y) : total m → (∀ x, total (k x)) → total (m ≫= k).
Proof. intros Hm Hk e. unfold mbind, E_bind. destruct (Hm e) as [x Hx]. destruct (m e) as [[y|w] e1]; cbn [fst] in Hx; [|done]. apply Hk. Qed.
Lemma total_when b (m : E unit) : total m → total (when b m).
Proof. intros H. destruct b; [done|apply total_ret]. Qed.
Lemma total_for_each {X} (f : X → E unit) l : (∀ x, total (f x)) → total (for_each f l).
Proof. intros H. induction l as [|x l IH]; cbn [for_each]; [apply total_ret|]. apply total_bind; [apply H|done]. Qed.
Lemma bind_total {X Y} (m : E X) (k : X → E Y) e : total m → ∃ x, (m ≫= k) e = k x (m e).2.
Proof. intros H. unfold mbind, E_bind. destruct (H e) as [x Hx]. destruct (m e) as [[y|w] e1]; cbn [fst] in Hx; [by exists y|done]. Qed.
End Total.
#[export] Hint Resolve total_ret total_gets total_modify total_world_ : engine.
#[export] Hint Extern 2 (total (out _)) => apply total_modify : engine.
#[export] Hint Extern 2 (total (audit _)) => apply total_modify : engine.
Ltac never_throws :=
  repeat (cbv zeta; lazymatch goal with
  | |- total (mbind _ _) => apply total_bind; [|intros ?]
  | |- total (when _ _) => apply total_when
  | |- total (for_each _ _) => apply total_for_each; intros ?
  | |- total (if ?b then _ else _) => destruct b
  | |- total (match ?x with _ => _ end) => destruct x
  | |- total _ => solve [eauto with engine]
  end).

Section Preserved.
Context {A : Arith} {HO : HashOrder} {MO : MultiOrder} {S : Type} {SI : IStrategy S} {W : Type} {XW : Execution W} (log_ : num → num).
#[local] Abbreviation engine := (@EngineState.engine A S W).
#[local] Abbreviation E := (@EngineState.E A S W).
Variables (cfg : engine_config) (R : @law A S W).

(** ** What neither halts nor sends *)

Section Calmly.
Context {C : Calm R}.

Lemma log_event_pres ev : pres cfg R (log_event ev).
Proof using C. unfold log_event. walk. Qed.
Lemma set_order_status_pres id s : pres cfg R (set_order_status id s).
Proof using C. unfold set_order_status. walk. Qed.
Lemma register_order_meta_pres o : pres cfg R (register_order_meta o).
Proof using C. unfold register_order_meta. walk. Qed.
Lemma stamp_fill_attribution_pres f : pres cfg R (stamp_fill_attribution f).
Proof using C. unfold stamp_fill_attribution. walk. Qed.
Lemma ask_pres {X} w (none : X) f : pres cfg R (ask w none f).
Proof using C. unfold ask, put_strategy. walk. Qed.
#[local] Hint Resolve @ask_pres : engine.
Lemma dispatch_fill_to_strategy_pres f : pres cfg R (dispatch_fill_to_strategy f).
Proof using C. unfold dispatch_fill_to_strategy. walk. Qed.
Lemma notify_position_change_all_pres symbol open : pres cfg R (notify_position_change_all symbol open).
Proof using C. unfold notify_position_change_all, extra_places. walk. Qed.
Lemma resolve_adapter_pres symbol : pres cfg R (resolve_adapter symbol).
Proof using C. unfold resolve_adapter. walk. Qed.
End Calmly.
#[local] Hint Resolve @ask_pres log_event_pres set_order_status_pres register_order_meta_pres stamp_fill_attribution_pres dispatch_fill_to_strategy_pres
  notify_position_change_all_pres resolve_adapter_pres : engine.


Lemma trigger_halt_eq reason (e : engine) : trigger_halt reason e = (Ret (), if en_halt e then e else halted_with reason e).
Proof using Type. unfold trigger_halt, mbind, E_bind, gets. by destruct (en_halt e). Qed.

(** ** What sends nothing *)

Section Flowing.
Context {F : Flow log_ cfg R}.

Lemma acquire_pooled_pres p : pres cfg R (acquire_pooled p).
Proof using F.
  unfold acquire_pooled. apply pres_bind; [exact _|walk|intros [why|]; [|walk]]. intros e Ht _. unfold mbind, E_bind, of_exc.
  rewrite trigger_halt_eq. cbn [fst snd]. destruct (en_halt e) eqn:Eh.
  - split_and!; [done|by apply (ca_throw R), (ca_refl R)|done].
  - split_and!; [by apply (typed_same cfg e)|by eapply fl_pool|done].
Qed.
Hint Resolve acquire_pooled_pres : engine.
Lemma push_ring_pres ev r : is_threaded cfg = true → pres cfg R (push_ring ev r).
Proof using F.
  intros Hc. assert (∀ reason, pres cfg R (trigger_halt reason)).
  { intros reason e Ht _. rewrite trigger_halt_eq. destruct (en_halt e) eqn:Eh.
    - split_and!; [done|apply (ca_refl R)|done].
    - split_and!; [by apply (typed_same cfg e)|by eapply fl_ring|done]. }
  unfold push_ring. walk.
Qed.
Lemma rings_pres ev : pres cfg R (for_each (push_ring ev) (rings_of (cf_threading cfg))).
Proof using F.
  destruct (is_threaded cfg) eqn:Et.
  - apply pres_for_each; [exact _|]. intros r. by apply push_ring_pres.
  - unfold is_threaded in Et. destruct (cf_threading cfg); [cbn [rings_of for_each]; walk|discriminate..].
Qed.
Hint Resolve rings_pres : engine.

Lemma publish_plain ev : plain_event ev = true → pres cfg R (publish_event ev).
Proof using F. intros He. unfold publish_event. destruct ev; try done; walk. Qed.
Lemma analytics_on_pres a : plain_analytics a = true → pres cfg R (analytics_on log_ a).
Proof using F. intros Ha e Ht _. split_and!; [by apply (typed_same cfg e)|exact (fl_analytics log_ cfg R e a Ha)|done]. Qed.
Lemma analytics_mark_pres symbol price : pres cfg R (modify (λ e, set_en_analytics (an_on_mark symbol price (en_analytics e)) e)).
Proof using F. intros e Ht _. split_and!; [by apply (typed_same cfg e)|exact (fl_mark log_ cfg R e symbol price)|done]. Qed.
Hint Extern 2 (pres _ _ (publish_event _)) => (apply publish_plain; reflexivity) : engine.
Hint Extern 2 (pres _ _ (analytics_on _ _)) => (apply analytics_on_pres; reflexivity) : engine.

Lemma confirm_cancel_pres symbol id reason : pres cfg R (confirm_cancel log_ symbol id reason).
Proof using F. unfold confirm_cancel. walk. Qed.
Hint Resolve confirm_cancel_pres : engine.
Lemma on_result_pres sr : pres cfg R (on_result log_ sr).
Proof using F. unfold on_result, on_submit_result, on_cancel_result. walk. Qed.
Hint Resolve on_result_pres : engine.
Lemma drain_async_pres h : pres cfg R (drain_async_submit_results log_ h).
Proof using F. unfold drain_async_submit_results. walk. Qed.
Lemma drain_venue_bracket_meta_pres : pres cfg R drain_venue_bracket_meta.
Proof using F. unfold drain_venue_bracket_meta. walk. Qed.
Lemma emit_rejection_pres o reason : pres cfg R (emit_rejection o reason).
Proof using F. unfold emit_rejection. walk. Qed.
Hint Resolve emit_rejection_pres : engine.
Lemma refuse_by_venue_pres o why : pres cfg R (refuse_by_venue o why).
Proof using F. unfold refuse_by_venue. walk. Qed.
Lemma refuse_by_risk_pres o h : pres cfg R (refuse_by_risk o h).
Proof using F. unfold refuse_by_risk. walk. Qed.
Lemma resolve_instrument_spec_pres symbol : pres cfg R (resolve_instrument_spec symbol).
Proof using F. unfold resolve_instrument_spec. walk. Qed.
Lemma exchange_fill_pres f : pres cfg R (exchange_fill f).
Proof using F. unfold exchange_fill. walk. Qed.
Lemma each_adapter_pres (f : Z → E unit) : (∀ h, pres cfg R (f h)) → pres cfg R (each_adapter f).
Proof using F. intros Hf. unfold each_adapter. walk. Qed.
Lemma advance_all_pres ts : pres cfg R (advance_all ts).
Proof using F. apply each_adapter_pres. intros h. walk. Qed.
Lemma router_on_l2_snapshot_pres symbol bids asks : pres cfg R (router_on_l2_snapshot symbol bids asks).
Proof using F. apply each_adapter_pres. intros h. walk. Qed.
Lemma router_on_l2_update_pres symbol os price q : pres cfg R (router_on_l2_update symbol os price q).
Proof using F. apply each_adapter_pres. intros h. walk. Qed.
Lemma note_day_order_pres o : pres cfg R (note_day_order o).
Proof using F. unfold note_day_order. walk. Qed.
Lemma cancel_day_orders_pres : pres cfg R cancel_day_orders.
Proof using F. unfold cancel_day_orders. walk. Qed.
Lemma ask_present_pres {X} (f : S → exc X * S) : pres cfg R (ask_present f).
Proof using F. unfold ask_present, put_strategy. walk. Qed.
Lemma finalize_pres w o halted : pres cfg R (finalize_strategy_route w o halted).
Proof using F. unfold finalize_strategy_route, resync_position, take_intents. walk. Qed.
End Flowing.

(** ** What is kept besides *)

(** While nothing halts, a running engine keeps running. *)
Definition running (e : engine) : Prop := en_halt e = false.
Definition kept_running : law := {| law_ret e e' := R e e' ∧ en_halt e' = en_halt e; law_throw := law_throw R |}.
#[local] Instance kept_running_calm : Calm R → Calm kept_running.
Proof using Type.
  intros C. split.
  - intros e. split; [apply (ca_refl R)|done].
  - intros e1 e2 e3 [H1 E1] [H2 E2]. split; [by apply (ca_trans R _ e2)|congruence].
  - intros e e' Hq. split; [by apply (ca_quiet R)|apply Hq].
  - intros o e Ho. split; [by apply (ca_emit R)|done].
  - intros e e' [H _]. by apply (ca_throw R).
  - intros e1 e2 e3 [H _]. by apply (ca_throw_trans R).
Qed.
Lemma stays_running {X} (m : E X) : pres cfg kept_running m → steps cfg R running m (λ _, running).
Proof using Type.
  intros H e Ht Hp. destruct (H e Ht I) as (H1 & H2 & _). unfold moved in *. destruct (m e) as [[x|w] e1]; cbn [fst snd] in *.
  - destruct H2 as [H2 H3]. split_and!; [done..|]. intros y _. unfold running. by rewrite H3.
  - by split_and!.
Qed.

Lemma pres_unless_halted {X} (k : bool → E X) : pres cfg R (k true) → steps cfg R running (k false) anything → pres cfg R (gets en_halt ≫= k).
Proof using Type.
  intros H1 H2 e Ht _. unfold mbind, E_bind, gets. destruct (en_halt e) eqn:Eh; [by apply H1|by apply H2].
Qed.

(** What sends nothing leaves an order clear to be sent. *)
Definition kept_clear : law :=
  {| law_ret e e' := R e e' ∧ (clear_to_send cfg e → clear_to_send cfg e'); law_throw := law_throw R |}.
#[local] Instance kept_clear_flow : Flow log_ cfg R → Flow log_ cfg kept_clear.
Proof using Type.
  intros F. split; [split|..].
  - intros e. split; [apply (ca_refl R)|done].
  - intros e1 e2 e3 [H1 E1] [H2 E2]. split; [by apply (ca_trans R _ e2)|auto].
  - intros e e' Hq. split; [by apply (ca_quiet R)|]. unfold clear_to_send. by rewrite (qu_halt _ _ Hq).
  - intros x e Ho. split; [by apply (ca_emit R)|done].
  - intros e e' [H _]. by apply (ca_throw R).
  - intros e1 e2 e3 [H _]. by apply (ca_throw_trans R).
  - intros e reason Hh. by apply (fl_pool log_ cfg R).
  - intros e reason Hc Hh. split; [by apply (fl_ring log_ cfg R)|]. intros _. by left.
  - intros e a Ha. split; [by apply (fl_analytics log_ cfg R)|done].
  - intros e sym px. split; [by apply (fl_mark log_ cfg R)|done].
Qed.
Lemma stays_clear {X} (m : E X) : pres cfg kept_clear m → steps cfg R (clear_to_send cfg) m (λ _, clear_to_send cfg).
Proof using Type.
  intros H e Ht Hp. destruct (H e Ht I) as (H1 & H2 & _). unfold moved in *. destruct (m e) as [[x|w] e1]; cbn [fst snd] in *.
  - destruct H2 as [H2 H3]. split_and!; [done..|]. auto.
  - by split_and!.
Qed.
End Preserved.

#[export] Hint Resolve log_event_pres set_order_status_pres register_order_meta_pres stamp_fill_attribution_pres dispatch_fill_to_strategy_pres
  notify_position_change_all_pres resolve_adapter_pres acquire_pooled_pres rings_pres analytics_mark_pres confirm_cancel_pres on_result_pres drain_async_pres
  drain_venue_bracket_meta_pres emit_rejection_pres refuse_by_venue_pres refuse_by_risk_pres resolve_instrument_spec_pres exchange_fill_pres
  advance_all_pres router_on_l2_snapshot_pres router_on_l2_update_pres note_day_order_pres cancel_day_orders_pres @ask_pres @ask_present_pres
  finalize_pres : engine.
#[export] Hint Extern 2 (pres _ _ (publish_event _)) => (eapply publish_plain; [exact _|reflexivity]) : engine.
#[export] Hint Extern 2 (pres _ _ (analytics_on _ _)) => (eapply analytics_on_pres; [exact _|reflexivity]) : engine.

Section Unwound.
Context {A : Arith} {HO : HashOrder} {MO : MultiOrder} {S : Type} {SI : IStrategy S} {W : Type} {XW : Execution W} (log_ : num → num).
#[local] Abbreviation engine := (@EngineState.engine A S W).
#[local] Abbreviation E := (@EngineState.E A S W).
Variables (cfg : engine_config) (R : @law A S W).
Context {F : Unwinding log_ cfg R}.

(** ** Fills and halts *)

Lemma book_pres f sim reason : pres cfg R (book_fill log_ f sim reason).
Proof using F. exact (uw_book log_ cfg R f sim reason). Qed.
Lemma trigger_halt_pres reason : pres cfg R (trigger_halt reason).
Proof using F.
  intros e Ht _. rewrite trigger_halt_eq. destruct (en_halt e) eqn:Eh.
  - split_and!; [done|apply (ca_refl R)|done].
  - split_and!; [by apply (typed_same cfg e)|by eapply uw_halt|done].
Qed.
Hint Resolve book_pres trigger_halt_pres : engine.

Lemma publish_unwind o : om_is_stop o = false → om_strategy o = "risk_unwind" → pres cfg R (publish_event (ev_order o)).
Proof using F.
  intros Hs Hu. unfold publish_event. apply pres_bind; [exact _| |intros ?; walk].
  intros e Ht _. split_and!; [by apply (typed_same cfg e)|exact (uw_announce log_ cfg R o e Hs Hu)|done].
Qed.
Lemma submit_unwind h o : om_is_stop o = false → om_strategy o = "risk_unwind" → pres cfg R (submit h o).
Proof using F.
  intros Hs Hu. unfold submit. apply pres_bind; [exact _| |intros ?; walk].
  intros e Ht _. split_and!; [by apply (typed_same cfg e)|exact (uw_submit log_ cfg R h o e Hs Hu)|done].
Qed.

Lemma unwind_one_pres x : pres cfg R (unwind_one log_ x).
Proof using F.
  unfold unwind_one, poll_fills. cbv zeta. do 7 (apply pres_bind; [exact _|walk|intros ?]).
  - by apply publish_unwind.
  - walk. by apply submit_unwind.
Qed.
Hint Resolve unwind_one_pres : engine.
Lemma unwind_positions_pres : pres cfg R (unwind_positions log_).
Proof using F. unfold unwind_positions. walk. Qed.
Hint Resolve unwind_positions_pres : engine.
Lemma risk_halt_pres reason : pres cfg R (risk_halt log_ reason).
Proof using F. unfold risk_halt, request_halt. walk. Qed.
Hint Resolve risk_halt_pres : engine.
Lemma handle_engine_fill_pres f sim : pres cfg R (handle_engine_fill log_ f sim).
Proof using F. unfold handle_engine_fill, post_fill_halts. walk. Qed.
Hint Resolve handle_engine_fill_pres : engine.
Lemma process_adapter_fills_pres h : pres cfg R (process_adapter_fills log_ h).
Proof using F. unfold process_adapter_fills, poll_fills. walk. Qed.
Hint Resolve process_adapter_fills_pres : engine.

End Unwound.
#[export] Hint Resolve book_pres trigger_halt_pres unwind_positions_pres risk_halt_pres handle_engine_fill_pres process_adapter_fills_pres : engine.

Section Framed.
Context {A : Arith} {HO : HashOrder} {MO : MultiOrder} {S : Type} {SI : IStrategy S} {W : Type} {XW : Execution W} (log_ : num → num).
#[local] Abbreviation engine := (@EngineState.engine A S W).
#[local] Abbreviation E := (@EngineState.E A S W).
Variables (cfg : engine_config) (R : @law A S W).
Context {F : Frame log_ cfg R}.
#[local] Existing Instances kept_running_calm kept_clear_flow.

(** ** Orders on their way out *)

Lemma publish_order o : om_is_stop o = false → steps cfg R running (publish_event (ev_order o)) (λ _, clear_to_send cfg).
Proof using F.
  intros Hs. unfold publish_event. eapply (steps_bind cfg R running _ _ (λ _, clear_to_send cfg)).
  - intros e Ht Hp. split_and!; [by apply (typed_same cfg e)|exact (fr_announce log_ cfg R o e Hs Hp)|]. intros _ _. by right.
  - intros []. apply stays_clear. walk.
Qed.
Lemma submit_clear h o : om_is_stop o = false → steps cfg R (clear_to_send cfg) (submit h o) (λ _, clear_to_send cfg).
Proof using F.
  intros Hs. unfold submit. eapply (steps_bind cfg R _ _ _ (λ _, clear_to_send cfg)).
  - intros e Ht Hp. split_and!; [by apply (typed_same cfg e)|exact (fr_submit log_ cfg R h o e Hs Hp)|done].
  - intros []. apply stays_clear. walk.
Qed.
Lemma send_order_running o : om_is_stop o = false → steps cfg R running (send_order log_ o) anything.
Proof using F.
  intros Hs. unfold send_order. cbv zeta.
  do 4 (eapply steps_bind; [exact _|apply stays_running; walk|intros ?]).
  eapply steps_bind; [exact _|by apply publish_order|intros ?].
  do 8 (eapply steps_bind; [exact _|apply stays_clear; walk|intros ?]).
  eapply steps_bind; [exact _|by apply submit_clear|intros ?].
  do 2 (eapply steps_bind; [exact _|apply stays_clear; walk|intros ?]).
  eapply (steps_bind cfg R _ _ _ anything).
  - destruct (shadow_exchange _) as [h|]; [|apply pres_any; walk].
    eapply steps_bind; [exact _|by apply submit_clear|intros ?]. apply pres_any. walk.
  - intros ?. apply pres_any. unfold poll_fills, count_event. walk.
Qed.
Lemma process_order_pres o : om_is_stop o = false → pres cfg R (process_order log_ o).
Proof using F.
  intros Hs. unfold process_order. apply pres_unless_halted; [unfold request_halt; walk|].
  eapply steps_bind; [exact _|apply stays_running; unfold venue_refusal; walk|intros [why|]].
  { apply pres_any. walk. }
  eapply steps_bind; [exact _|apply stays_running; unfold risk_verdict; walk|intros action].
  destruct action; try by apply send_order_running. all: apply pres_any; walk.
Qed.
Hint Extern 2 (pres _ _ (process_order _ _)) => (apply process_order_pres; assumption || reflexivity) : engine.

(** ** Routing *)

Lemma deliver_mm_book_trades_pres symbol trs ts : pres cfg R (deliver_mm_book_trades log_ symbol trs ts).
Proof using F. unfold deliver_mm_book_trades. walk. Qed.
Hint Resolve deliver_mm_book_trades_pres : engine.
Lemma recenter_pres symbol price up own ts : pres cfg R (recenter log_ symbol price up own ts).
Proof using F. unfold recenter. walk. Qed.
Hint Resolve recenter_pres : engine.
Lemma sweep_resting_limits_pres symbol low high ts : pres cfg R (sweep_resting_limits log_ symbol low high ts).
Proof using F. unfold sweep_resting_limits. walk. Qed.

Lemma converted_not_stop ts o : om_is_stop (converted ts o) = false.
Proof using Type. unfold converted. by case_bool_decide. Qed.
End Framed.
#[export] Hint Resolve deliver_mm_book_trades_pres recenter_pres sweep_resting_limits_pres : engine.
#[export] Hint Extern 2 (pres _ _ (process_order _ _)) => (eapply process_order_pres; [exact _|assumption || reflexivity]) : engine.
