(* ===== verification/EngineRuns.v ===== *)
(** * Every run respects the interface

    From the promises of EngineLogic.v to whole runs: a relation that the primitive
    actions respect and that does not look at the queues is respected by routing,
    by the queue and the stops, by every handler and by the loops over a history. *)

From Stdlib Require Import Sorting.Sorted.
From S2P Require Import Prelude Float64 Event Bridge NodeHeap OrderBook Arith Portfolio Sizing Risk Exits ExitPolicy.
From S2P Require Import ClientOrderId Indicators EngineEvents Analytics Trackers EngineState Engine EngineLoop EngineLogic.

Open Scope string_scope.
Open Scope list_scope.
Open Scope Z_scope.

Section Wholly.
Context {A : Arith} {HO : HashOrder} {MO : MultiOrder} {S : Type} {SI : IStrategy S} {W : Type} {XW : Execution W} (log_ : num → num).
#[local] Abbreviation engine := (@EngineState.engine A S W).
#[local] Abbreviation E := (@EngineState.E A S W).
Variables (cfg : engine_config) (R : @law A S W).
Context {F : Whole log_ cfg R}.

(** ** The queues *)

Lemma queue_pres (f : engine → engine) : (∀ e, requeued e (f e)) → (∀ e, typed cfg e → typed cfg (f e)) → pres cfg R (modify f).
Proof using F. intros H1 H2 e Ht _. split_and!; [by apply H2|apply (wh_queue log_ cfg R), H1|done]. Qed.
Lemma set_mid_pres x : pres cfg R (modify (set_en_mid x)).
Proof using F. apply queue_pres; [by split|]. intros e Ht. by apply (typed_same cfg e). Qed.
Hint Resolve set_mid_pres : engine.
Lemma route_anchored_pres o ts : om_is_stop o = false → pres cfg R (route_anchored log_ o ts).
Proof using F. intros Hs. unfold route_anchored. walk. Qed.
Lemma fire_stop_pres op mid ts o : pres cfg R (fire_stop log_ op mid ts o).
Proof using F. unfold fire_stop. pose proof (converted_not_stop ts o). walk. Qed.
Hint Resolve fire_stop_pres : engine.
Lemma enqueue_pres o : om_is_stop o = false → pres cfg R (enqueue o).
Proof using F.
  intros Hs. apply queue_pres; [by split|]. intros e [H0 H1 H2 H3].
  split; [done|done|by apply pq_push_forall|by apply pq_push_sorted].
Qed.
Lemma add_stop_pres o : om_is_stop o = true → pres cfg R (modify (λ e, set_en_stops (en_stops e ++ [o]) e)).
Proof using F. intros Hs. apply queue_pres; [by split|]. intros e [H0 H1 H2 H3]. split; [done| |done|done]. apply Forall_app. by repeat constructor. Qed.

Lemma route_order_pres o ts anchor : pres cfg R (route_order log_ o ts anchor).
Proof using F.
  unfold route_order. cbv zeta. do 2 (apply pres_bind; [exact _|walk|intros [|]; [unfold request_halt; walk|]]).
  do 4 (apply pres_bind; [exact _|walk|intros ?]).
  destruct (negb _); [walk|]. destruct (om_is_stop _) eqn:Es.
  { apply pres_bind; [exact _|walk|intros _]. apply pres_bind; [exact _|by apply add_stop_pres|intros ?]. walk. }
  destruct anchor; [apply pres_bind; [exact _|by apply route_anchored_pres|intros ?]; walk|].
  apply pres_cfg. destruct (cf_latency_model cfg); [|destruct (0 <? _)].
  - do 2 (apply pres_bind; [exact _|walk|intros ?]). apply pres_bind; [exact _|by apply enqueue_pres|intros ?]. walk.
  - apply pres_bind; [exact _|walk|intros ?]. apply pres_bind; [exact _|by apply enqueue_pres|intros ?]. walk.
  - walk.
Qed.
Hint Resolve route_order_pres : engine.

(** ** The queue and the stops *)

Lemma drain_loop_pres n now : pres cfg R (drain_loop log_ n now).
Proof using F.
  induction n as [|n IH]; cbn [drain_loop]; [walk|].
  eapply (steps_bind cfg R _ _ _ (λ x e, ∀ y, x = Some y → om_is_stop (pe_order y) = false)).
  { intros e Ht _. split_and!; [done|apply (ca_refl R)|]. intros x [= <-] y Hy. unfold due in Hy.
    pose proof (ty_pending _ _ Ht) as Hp. cbn [snd gets] in *. destruct (en_pending e) as [|z q]; [done|]. apply Forall_cons_1 in Hp as [Hz _].
    destruct (_ && _); [|done]. by injection Hy as <-. }
  intros [y|]; [|apply pres_any; walk].
  intros e Ht Hp. specialize (Hp y eq_refl). revert e Ht.
  assert (pres cfg R (pop_pending;; note_day_order (pe_order y);; ok ← process_order log_ (pe_order y);
    if ok : bool then drain_loop log_ n now else mret ())) as H; [|intros e Ht; by apply H].
  apply pres_bind; [exact _| |intros ?; walk].
  apply queue_pres; [by split|]. intros e [H0 H1 H2 H3]. split; [done|done|by apply Forall_tail|].
  cbn [en_pending set_en_pending]. destruct (en_pending e); [done|]. by inversion H3.
Qed.
Hint Resolve drain_loop_pres : engine.
Lemma drain_pending_pres now : pres cfg R (drain_pending log_ now).
Proof using F. unfold drain_pending. walk. Qed.
Lemma drain_final_pending_pres : pres cfg R (drain_final_pending log_).
Proof using F. apply drain_pending_pres. Qed.
Lemma clear_pending_state_pres : pres cfg R clear_pending_state.
Proof using F. apply queue_pres; [by split|]. intros e [H0 H1 H2 H3]. split; cbn; [done|constructor..]. Qed.

Lemma stops_loop_pres op high low mid ts todo : ∀ kept, Forall (λ o, om_is_stop o = true) (kept ++ todo) →
  pres cfg R (stops_loop log_ op high low mid ts kept todo).
Proof using F.
  induction todo as [|o todo IH]; intros kept Hs; cbn [stops_loop]; [walk|].
  assert (Forall (λ o, om_is_stop o = true) (kept ++ todo)) as Hs' by (rewrite !Forall_app, Forall_cons in *; tauto).
  apply pres_bind; [exact _|walk|intros [|]; [walk|]]. destruct (stop_triggered _ _ _).
  - apply pres_bind; [exact _|walk|intros [|]; [|walk]]. apply pres_bind; [exact _| |intros ?; by apply IH].
    apply queue_pres; [by split|]. intros e [H0 H1 H2 H3]. by split.
  - apply IH. by rewrite <- app_assoc.
Qed.
Lemma check_pending_stops_pres op high low ts : pres cfg R (check_pending_stops log_ op high low ts).
Proof using F.
  unfold check_pending_stops. apply pres_bind; [exact _|walk|intros mid].
  eapply (steps_bind cfg R _ _ _ (λ x e, Forall (λ o, om_is_stop o = true) x)).
  - intros e Ht _. split_and!; [done|apply (ca_refl R)|]. intros x [= <-]. by apply Ht.
  - intros todo e Ht Hp. by apply stops_loop_pres.
Qed.
Hint Resolve drain_pending_pres drain_final_pending_pres clear_pending_state_pres check_pending_stops_pres sweep_resting_limits_pres : engine.

(** ** The handlers *)

Lemma route_of_pres w named ns ts o : pres cfg R (route_of log_ w named ns ts o).
Proof using F. unfold route_of. walk. Qed.
Hint Resolve route_of_pres : engine.
Lemma route_closes_pres ns ts cs : pres cfg R (route_closes log_ ns ts cs).
Proof using F. induction cs as [|c cs IH]; cbn [route_closes]; walk. Qed.
Hint Resolve route_closes_pres : engine.
Lemma evaluate_exits_with_pres scan ns ts : pres cfg R (evaluate_exits_with log_ scan ns ts).
Proof using F. unfold evaluate_exits_with. walk. Qed.
Hint Resolve evaluate_exits_with_pres : engine.
Lemma dispatch_extras_pres (exits : E bool) call ns ts places : pres cfg R exits → pres cfg R (dispatch_extras log_ exits call ns ts places).
Proof using F. intros He. induction places as [|i places IH]; cbn [dispatch_extras]; walk. Qed.
Lemma extras_on_market_pres m : pres cfg R (dispatch_extras_on_market log_ m).
Proof using F. unfold dispatch_extras_on_market, extra_places. walk. apply dispatch_extras_pres, evaluate_exits_with_pres. Qed.
Lemma extras_on_tick_pres t : pres cfg R (dispatch_extras_on_tick log_ t).
Proof using F. unfold dispatch_extras_on_tick, extra_places. walk. apply dispatch_extras_pres, evaluate_exits_with_pres. Qed.
Hint Resolve extras_on_market_pres extras_on_tick_pres : engine.

Lemma recenter_if_due_pres symbol ts own : pres cfg R (recenter_if_due log_ symbol ts own).
Proof using F. unfold recenter_if_due. walk. Qed.
Lemma announce_bar_pres m logged : pres cfg R (announce_bar log_ m logged).
Proof using F. unfold announce_bar, announce. walk. Qed.
Lemma announce_tick_pres t logged : pres cfg R (announce_tick log_ t logged).
Proof using F. unfold announce_tick, announce. walk. Qed.
Lemma venue_fill_pres f : pres cfg R (venue_fill log_ f).
Proof using F. unfold venue_fill, shadow_fill_of. walk. Qed.
Hint Resolve recenter_if_due_pres announce_bar_pres announce_tick_pres venue_fill_pres : engine.
Lemma drain_provider_pres symbol print ts local : pres cfg R (drain_provider log_ symbol print ts local).
Proof using F. unfold drain_provider, poll_fills. walk. Qed.
Lemma flatten_if_asked_pres : pres cfg R (flatten_if_asked log_).
Proof using F. unfold flatten_if_asked. walk. Qed.
Lemma consult_pres call ns ts recheck : pres cfg R (consult log_ call ns ts recheck).
Proof using F. unfold consult. walk. Qed.
Hint Resolve drain_provider_pres flatten_if_asked_pres consult_pres : engine.
Lemma strategies_turn_pres (exits : E bool) call (extras : E unit) ns ts recheck : pres cfg R exits → pres cfg R extras →
  pres cfg R (strategies_turn log_ exits call extras ns ts recheck).
Proof using F. intros H1 H2. unfold strategies_turn. walk. Qed.
Lemma bar_turn_pres m ns ts recheck :
  pres cfg R (strategies_turn log_ (evaluate_exits_bar log_ m) (st_on_market m) (dispatch_extras_on_market log_ m) ns ts recheck).
Proof using F. apply strategies_turn_pres; [apply evaluate_exits_with_pres|apply extras_on_market_pres]. Qed.
Lemma tick_turn_pres t symbol px ts' ns' ns ts recheck :
  pres cfg R (strategies_turn log_ (evaluate_exits log_ symbol px ts' ns') (st_on_tick t) (dispatch_extras_on_tick log_ t) ns ts recheck).
Proof using F. apply strategies_turn_pres; [apply evaluate_exits_with_pres|apply extras_on_tick_pres]. Qed.
Hint Resolve bar_turn_pres tick_turn_pres : engine.

Lemma process_single_bar_pres m : pres cfg R (process_single_bar log_ m).
Proof using F. unfold process_single_bar, mark, mark_price, count_event. walk. Qed.
Lemma process_single_tick_pres t : pres cfg R (process_single_tick log_ t).
Proof using F. unfold process_single_tick, mark, mark_price, count_event, stopped. walk. Qed.
Lemma apply_l2_snapshot_pres symbol bids asks : pres cfg R (apply_l2_snapshot symbol bids asks).
Proof using F. unfold apply_l2_snapshot. walk. Qed.
Lemma dispatch_l2_pres call ns ts ws : pres cfg R (dispatch_l2 log_ call ns ts ws).
Proof using F. induction ws as [|w ws IH]; cbn [dispatch_l2]; walk. Qed.
Hint Resolve dispatch_l2_pres : engine.
Lemma apply_l2_update_pres symbol side price q : pres cfg R (apply_l2_update log_ symbol side price q).
Proof using F. unfold apply_l2_update, extra_places, evaluate_exits. walk. Qed.
Lemma cancel_order_pres symbol id reason : pres cfg R (cancel_order log_ symbol id reason).
Proof using F.
  unfold cancel_order. do 2 (apply pres_bind; [exact _|walk|intros ?]). apply pres_bind; [exact _|walk|intros cancelled].
  apply pres_bind; [exact _|walk|intros async]. destruct (_ && _); [walk|].
  eapply (steps_bind cfg R _ _ _ (λ l e, Forall (λ o, om_is_stop o = true) l)).
  { intros e Ht _. split_and!; [done|apply (ca_refl R)|]. intros l [= <-]. by apply Ht. }
  intros stops. cbv zeta. eapply (steps_bind cfg R _ _ _ anything); [|intros ?; apply pres_any; walk].
  intros e Ht Hp. assert (pres cfg R (when (negb cancelled) (modify (set_en_stops (filter (λ o, om_id o ≠ id) stops))))) as H; [|by apply H].
  apply pres_when; [exact _|]. apply queue_pres; [by split|]. intros e' [H0 H1 H2 H3]. split; [done| |done|done].
  apply Forall_forall. intros o [_ Ho]%list_elem_of_filter. rewrite Forall_forall in Hp. by apply Hp.
Qed.
Lemma modify_order_pres symbol id price q : pres cfg R (modify_order log_ symbol id price q).
Proof using F. unfold modify_order. walk. Qed.
Hint Resolve process_single_bar_pres process_single_tick_pres apply_l2_snapshot_pres apply_l2_update_pres cancel_order_pres modify_order_pres : engine.
Lemma on_input_pres i : pres cfg R (on_input log_ i).
Proof using F.
  destruct i; cbn [on_input]; [walk..|]. apply pres_bind; [exact _|walk|intros _]. exact (fr_funding log_ cfg R _ _ _ _).
Qed.
Lemma stream_pres inputs : pres cfg R (stream log_ inputs).
Proof using F. apply pres_for_each; [exact _|]. intros i. apply on_input_pres. Qed.

(** ** The loops *)

Hint Resolve cancel_day_orders_pres drain_final_pending_pres : engine.
Lemma run_bar_pres m : pres cfg R (run_bar log_ m).
Proof using F. unfold run_bar, mark_price, stopped, count_event, drain_maker_orders. walk. Qed.
Hint Resolve run_bar_pres : engine.
Lemma bars_loop_pres base bars : ∀ prev, pres cfg R (bars_loop log_ base prev bars).
Proof using F. induction bars as [|b bars IH]; intros prev; cbn [bars_loop]; unfold may_go_on; walk. Qed.
Lemma on_tick_bar_pres b : pres cfg R (on_tick_bar log_ b).
Proof using F. unfold on_tick_bar. walk. Qed.
Lemma run_tick_pres t : pres cfg R (run_tick log_ t).
Proof using F. unfold run_tick, mark_price, stopped, count_event, evaluate_exits. walk. Qed.
Hint Resolve bars_loop_pres on_tick_bar_pres run_tick_pres : engine.
Lemma ticks_loop_pres ticks : ∀ g, pres cfg R (ticks_loop log_ g ticks).
Proof using F. induction ticks as [|t ticks IH]; intros g; cbn [ticks_loop]; unfold may_go_on; walk. Qed.
Hint Resolve ticks_loop_pres : engine.

(** A run begins by forgetting an old halt. *)
Section Runs.
Hypothesis Hstart : ∀ e, R e (set_en_halt false e).
Lemma start_workers_pres : pres cfg R start_workers.
Proof using Hstart. intros e Ht _. split_and!; [by apply (typed_same cfg e)|apply Hstart|done]. Qed.
Hint Resolve start_workers_pres : engine.
Lemma run_pres seeded bars : pres cfg R (run log_ seeded bars).
Proof using F Hstart. unfold run. walk. Qed.
Lemma run_tick_data_pres ticks : pres cfg R (run_tick_data log_ ticks).
Proof using F Hstart. unfold run_tick_data. walk. Qed.
End Runs.
End Wholly.
