(* ===== verification/EngineTheorems.v ===== *)
(** * What every run of the engine guarantees

    Instances of the interface of EngineLogic.v: the laws of the engine's trace
    (what it sends once it has halted, and what kinds of orders reach an adapter),
    and its accounts (the portfolio is the replay of the published fills, and the
    statistics agree with it).  They hold of every sequence of inputs, every
    strategy, every venue and every answer it gives, exceptions included. *)

From Stdlib Require Import Sorting.Sorted QArith.
From S2P Require Import Prelude Float64 Event Bridge NodeHeap OrderBook Arith Portfolio Sizing Risk Exits ExitPolicy.
From S2P Require Import ClientOrderId Indicators EngineEvents Analytics AnalyticsTheorems Trackers EngineState Engine EngineLoop EngineLogic EngineRuns.

Open Scope string_scope.
Open Scope list_scope.
Open Scope Z_scope.

Section Booking.
Context {A : Arith} {HO : HashOrder} {MO : MultiOrder} {S : Type} {SI : IStrategy S} {W : Type} {XW : Execution W} (log_ : num → num).
#[local] Abbreviation engine := (@EngineState.engine A S W).
#[local] Abbreviation E := (@EngineState.E A S W).
Variables (cfg : engine_config) (R : @law A S W).
Context {F : Flow log_ cfg R}.

(** A relation that does not look at the accounts is kept by the booking of a fill. *)
Lemma book_fill_pres (Hpf : ∀ e p, R e (set_en_portfolio p e)) (Han : ∀ e a, R e (set_en_analytics a e))
    (Hpub : ∀ f e, R e (emitted (out_publish (ev_fill f)) e)) f sim reason : pres cfg R (book_fill log_ f sim reason).
Proof using F.
  assert (∀ g, pres cfg R (modify (λ e, set_en_portfolio (g e) e))) as H1.
  { intros g e Ht _. split_and!; [by apply (typed_same cfg e)|apply Hpf|done]. }
  assert (∀ g, pres cfg R (modify (λ e, set_en_analytics (g e) e))) as H2.
  { intros g e Ht _. split_and!; [by apply (typed_same cfg e)|apply Han|done]. }
  assert (∀ f, pres cfg R (publish_event (ev_fill f))) as H3.
  { intros f'. unfold publish_event. apply pres_bind; [exact _| |intros ?; walk].
    intros e Ht _. split_and!; [by apply (typed_same cfg e)|apply Hpub|done]. }
  unfold book_fill, analytics_on, count_event. walk.
Qed.
End Booking.

(** ** The laws of the trace *)

Section Laws.
Context {A : Arith} {HO : HashOrder} {MO : MultiOrder} {S : Type} {SI : IStrategy S} {W : Type} {XW : Execution W} (log_ : num → num).
#[local] Abbreviation engine := (@EngineState.engine A S W).
#[local] Abbreviation E := (@EngineState.E A S W).
Variable cfg : engine_config.

Definition is_halt (o : output) : bool := match o with out_halt _ => true | _ => false end.

Section Allowed.
(** What may be put out, by whether the engine has halted. *)
Variable allowed : bool → output → Prop.
Fixpoint lawful (h : bool) (l : list output) : Prop :=
  match l with [] => True | o :: l => allowed h o ∧ lawful (h || is_halt o) l end.
Definition obeys (e e' : engine) : Prop :=
  ∃ l, en_out e' = en_out e ++ l ∧ en_halt e' = en_halt e || existsb is_halt l ∧ lawful (en_halt e) l.

Lemma lawful_app h l1 l2 : lawful h (l1 ++ l2) ↔ lawful h l1 ∧ lawful (h || existsb is_halt l1) l2.
Proof using Type.
  revert h. induction l1 as [|o l1 IH]; intros h; cbn [app lawful existsb]; [rewrite orb_false_r; tauto|]. rewrite IH, orb_assoc. tauto.
Qed.

Hypothesis allowed_plain : ∀ h o, plain o = true → allowed h o.
Hypothesis allowed_halt : ∀ r, allowed false (out_halt r).
Hypothesis allowed_fill : ∀ h f, allowed h (out_publish (ev_fill f)).
Hypothesis allowed_funding : ∀ h ts s d r, allowed h (out_publish (ev_funding ts s d r)).
Hypothesis allowed_order : ∀ h o, om_is_stop o = false → om_strategy o = "risk_unwind" ∨ h = false → allowed h (out_publish (ev_order o)).
Hypothesis allowed_submit : ∀ h x o, om_is_stop o = false → om_strategy o = "risk_unwind" ∨ is_threaded cfg = true ∨ h = false →
  allowed h (out_submit x o).

Lemma obeys_refl e : obeys e e.
Proof using Type. exists []. by rewrite app_nil_r, orb_false_r. Qed.
Lemma obeys_trans e1 e2 e3 : obeys e1 e2 → obeys e2 e3 → obeys e1 e3.
Proof using Type.
  intros (l1 & E1 & H1 & L1) (l2 & E2 & H2 & L2). exists (l1 ++ l2).
  rewrite E2, E1, <- app_assoc, existsb_app, H2, H1, orb_assoc. split_and!; [done..|]. apply lawful_app. by rewrite <- H1.
Qed.
Lemma obeys_silent e e' : en_out e' = en_out e → en_halt e' = en_halt e → obeys e e'.
Proof using Type. intros E1 E2. exists []. by rewrite E1, E2, app_nil_r, orb_false_r. Qed.
Lemma obeys_emit o e : is_halt o = false → allowed (en_halt e) o → obeys e (emitted o e).
Proof using Type. intros Ho Ha. exists [o]. cbn [lawful existsb]. rewrite Ho, orb_false_r. by split_and!. Qed.
Lemma obeys_halt r e : en_halt e = false → obeys e (halted_with r e).
Proof using allowed_halt. intros Eh. exists [out_halt r]. rewrite Eh. by split_and!; cbn. Qed.

#[local] Instance obeys_flow : Flow log_ cfg (both obeys).
Proof using allowed_plain allowed_halt.
  split; [split|..].
  - apply obeys_refl.
  - apply obeys_trans.
  - intros e e' Hq. apply obeys_silent; apply Hq.
  - intros o e Ho. apply obeys_emit; [by destruct o|auto].
  - done.
  - apply obeys_trans.
  - intros e r. apply obeys_halt.
  - intros e r _. apply obeys_halt.
  - intros e a _. by apply obeys_silent.
  - intros e s p. by apply obeys_silent.
Qed.
Lemma obeys_whole : Whole log_ cfg (both obeys).
Proof using allowed_plain allowed_halt allowed_fill allowed_funding allowed_order allowed_submit.
  split; [split; [split; [exact _|..]|..]|intros e e' Hq; apply obeys_silent; apply Hq].
  - intros e r. apply obeys_halt.
  - intros o e Hs Ho. apply obeys_emit; [done|auto].
  - intros h o e Hs Ho. apply obeys_emit; [done|auto].
  - intros f sim r. apply book_fill_pres; [exact _|intros; by apply obeys_silent..|]. intros f' e. apply obeys_emit; [done|auto].
  - intros o e Hs Ho. apply obeys_emit; [done|auto].
  - intros h o e Hs Ho. apply obeys_emit; [done|]. apply allowed_submit; [done|by right].
  - intros ts sym d r. unfold publish_event. apply pres_bind; [exact _|intros e Ht _|intros ?; walk].
    + split_and!; [by apply (typed_same cfg e)|by apply obeys_emit|done].
    + intros e Ht _. split_and!; [by apply (typed_same cfg e)|by apply obeys_silent|done].
Qed.
Lemma lawful_in h l1 o l2 : lawful h (l1 ++ o :: l2) → allowed (h || existsb is_halt l1) o ∧ lawful (h || existsb is_halt l1 || is_halt o) l2.
Proof using Type. intros H. by apply lawful_app in H as [_ H]. Qed.
Lemma lawful_all (P : output → Prop) h l : (∀ h o, allowed h o → P o) → lawful h l → Forall P l.
Proof using Type. intros HP. revert h. induction l as [|o l IH]; intros h; [by constructor|]. intros [H1 H2]. constructor; [by eapply HP|by eapply IH]. Qed.
End Allowed.

(** *** Halting *)

Definition by_halt (h : bool) (o : output) : Prop :=
  match o with
  | out_publish (ev_order o) => h = true → om_strategy o = "risk_unwind"
  | out_submit _ o => h = true → is_threaded cfg = false → om_strategy o = "risk_unwind"
  | out_halt _ => h = false
  | _ => True
  end.
Lemma by_halt_whole : Whole log_ cfg (both (obeys by_halt)).
Proof using Type.
  apply obeys_whole; try done.
  - intros h [ev|ev|x o|r|r] Ho; try done. by destruct ev.
  - intros h o _ [H|H] Hh; [done|congruence].
  - intros h x o _ [H|[H|H]] Hh Hc; [done|congruence..].
Qed.
Lemma by_halt_after l : lawful by_halt true l → ∀ o, o ∈ l → by_halt true o.
Proof using Type. intros Hl o Ho. apply list_elem_of_split in Ho as (l1 & l2 & ->). by apply (lawful_in _ true l1 o l2) in Hl as [H _]. Qed.

(** *** Kinds of orders *)

Definition by_kind (h : bool) (o : output) : Prop :=
  match o with out_publish (ev_order o) | out_submit _ o => om_is_stop o = false | _ => True end.
Lemma by_kind_whole : Whole log_ cfg (both (obeys by_kind)).
Proof using Type.
  apply obeys_whole; try done. intros h [ev|ev|x o|r|r] Ho; try done. by destruct ev.
Qed.
End Laws.

Section Claims.
Context {A : Arith} {HO : HashOrder} {MO : MultiOrder} {S : Type} {SI : IStrategy S} {W : Type} {XW : Execution W} (log_ : num → num).
#[local] Abbreviation engine := (@EngineState.engine A S W).

(** A stream keeps its configuration and its queues well formed. *)
Lemma stream_typed inputs (e : engine) : typed (en_cfg e) e → typed (en_cfg (stream log_ inputs e).2) (stream log_ inputs e).2.
Proof.
  intros Ht. pose proof (by_kind_whole log_ (en_cfg e)) as HF.
  destruct (stream_pres log_ (en_cfg e) (both (obeys by_kind)) inputs e Ht I) as (H1 & _ & _). by rewrite (ty_cfg _ _ H1).
Qed.

(** C3: the kill switch.  Whatever the inputs, the strategies and the venue do, an
    engine that is running halts at most once, its flag says whether it has, and
    after that point of its trace it announces no order but those that flatten its
    positions; without worker threads it submits no other either. *)
Theorem halt_is_terminal inputs (e : engine) : typed (en_cfg e) e → en_halt e = false →
  let e' := (stream log_ inputs e).2 in
  ∃ l, en_out e' = en_out e ++ l ∧ en_halt e' = existsb is_halt l ∧
    ∀ l1 reason l2, l = l1 ++ out_halt reason :: l2 → existsb is_halt (l1 ++ l2) = false ∧
      (∀ o, out_publish (ev_order o) ∈ l2 → om_strategy o = "risk_unwind") ∧
      (is_threaded (en_cfg e) = false → ∀ h o, out_submit h o ∈ l2 → om_strategy o = "risk_unwind").
Proof.
  intros Ht Hh. pose proof (by_halt_whole log_ (en_cfg e)) as HF.
  destruct (stream_pres log_ (en_cfg e) (both (obeys (by_halt (en_cfg e)))) inputs e Ht I) as (_ & (l & E1 & E2 & Hl)%moved_both & _).
  rewrite Hh in *. exists l. split_and!; [done..|]. intros l1 reason l2 ->.
  apply lawful_in in Hl as [H1 H2]. cbn [by_halt orb] in H1. rewrite H1 in H2. cbn [is_halt orb] in H2.
  pose proof (by_halt_after _ _ H2) as H3. split_and!.
  - rewrite existsb_app, H1. cbn [orb]. apply not_true_iff_false. intros (o & Ho & Hq)%existsb_exists.
    apply list_elem_of_In, H3 in Ho. by destruct o.
  - intros o Ho. by apply (H3 _ Ho).
  - intros Hc h o Ho. by apply (H3 _ Ho).
Qed.

(** C12: the engine's queues are well typed.  Every input keeps the stops apart from
    the queue of pending orders and the queue in the order it is served, and no
    stop or stop-limit order is ever announced or handed to an adapter. *)
Theorem queues_stay_typed inputs (e : engine) : typed (en_cfg e) e →
  let e' := (stream log_ inputs e).2 in
  typed (en_cfg e) e' ∧
  ∃ l, en_out e' = en_out e ++ l ∧
    Forall (λ x, match x with out_publish (ev_order o) | out_submit _ o => om_is_stop o = false | _ => True end) l.
Proof.
  intros Ht. pose proof (by_kind_whole log_ (en_cfg e)) as HF.
  destruct (stream_pres log_ (en_cfg e) (both (obeys by_kind)) inputs e Ht I) as (H1 & (l & E1 & _ & Hl)%moved_both & _).
  split; [done|]. exists l. split; [done|]. eapply lawful_all; [|exact Hl]. by intros h [].
Qed.
End Claims.

(** ** The accounts *)

Section Accounts.
Context {A : Arith} {HO : HashOrder} {MO : MultiOrder} {S : Type} {SI : IStrategy S} {W : Type} {XW : Execution W} (log_ : num → num).
#[local] Abbreviation engine := (@EngineState.engine A S W).
#[local] Abbreviation E := (@EngineState.E A S W).
Variable cfg : engine_config.

(** What an observer who reads the published events books. *)
Definition booked (p : portfolio) (o : output) : portfolio :=
  match o with
  | out_publish (ev_fill f) => on_fill_lot (fill_of_msg f) (fm_opener f) (fm_strategy f) p
  | out_publish (ev_funding _ _ d _) => on_funding d p
  | _ => p
  end.
Definition cashless (o : output) : bool :=
  match o with out_publish (ev_fill _) | out_publish (ev_funding _ _ _ _) => false | _ => true end.
Lemma booked_cashless l p : Forall (λ o, cashless o = true) l → foldl booked p l = p.
Proof. revert p. induction l as [|o l IH]; intros p H; [done|]. apply Forall_cons_1 in H as [H1 H2]. cbn [foldl]. rewrite IH by done. by destruct o as [ev|[]| | |]. Qed.

(** An agreement of the statistics with the portfolio, which prices and orders leave
    as it is, and which a fill moves along when it is fit. *)
Variables (agree : portfolio → Analytics → Prop) (fit : fill_msg → portfolio → Prop).
Hypothesis agree_plain : ∀ p a ev, plain_analytics ev = true → agree p a → agree p (default a (an_on_event log_ ev a)).
Hypothesis agree_mark : ∀ p a s px, agree p a → agree p (an_on_mark s px a).
Hypothesis agree_fill : ∀ p a f, agree p a → fit f p → agree (on_fill_lot (fill_of_msg f) (fm_opener f) (fm_strategy f) p) (an_on_fill f a).

(** The fills of a trace are fit where they are booked; no funding is among them. *)
Fixpoint trace_fit (p : portfolio) (l : list output) : Prop :=
  match l with
  | [] => True
  | o :: l =>
      match o with out_publish (ev_fill f) => fit f p | out_publish (ev_funding _ _ _ _) => False | _ => True end ∧
      trace_fit (booked p o) l
  end.
Lemma trace_fit_app p l1 l2 : trace_fit p (l1 ++ l2) ↔ trace_fit p l1 ∧ trace_fit (foldl booked p l1) l2.
Proof using Type. revert p. induction l1 as [|o l1 IH]; intros p; cbn [app trace_fit foldl]; [tauto|]. rewrite IH. tauto. Qed.

Definition accounts (e e' : engine) : Prop :=
  ∃ l, en_out e' = en_out e ++ l ∧ en_portfolio e' = foldl booked (en_portfolio e) l ∧
    (trace_fit (en_portfolio e) l → agree (en_portfolio e) (en_analytics e) → agree (en_portfolio e') (en_analytics e')).
(** A handler that throws may leave one fill booked that it did not publish. *)
Definition behind (e e' : engine) : Prop :=
  ∃ l, en_out e' = en_out e ++ l ∧
    (en_portfolio e' = foldl booked (en_portfolio e) l ∨
     ∃ f, en_portfolio e' = booked (foldl booked (en_portfolio e) l) (out_publish (ev_fill f))).
Definition accounts_law : @law A S W := {| law_ret := accounts; law_throw := behind |}.
(** Nothing is booked, and the statistics agree with whatever they agreed with. *)
Definition unbooked (e e' : engine) : Prop :=
  ∃ l, en_out e' = en_out e ++ l ∧ Forall (λ o, cashless o = true) l ∧ en_portfolio e' = en_portfolio e ∧
    ∀ p, agree p (en_analytics e) → agree p (en_analytics e').

Lemma unbooked_silent e e' : en_out e' = en_out e → en_portfolio e' = en_portfolio e →
  (∀ p, agree p (en_analytics e) → agree p (en_analytics e')) → unbooked e e'.
Proof using Type. intros E1 E2 E3. exists []. by rewrite E1, app_nil_r. Qed.
Lemma unbooked_emit o e : cashless o = true → unbooked e (emitted o e).
Proof using Type. intros Ho. exists [o]. split_and!; [done|by repeat constructor|done..]. Qed.
Lemma unbooked_trans e1 e2 e3 : unbooked e1 e2 → unbooked e2 e3 → unbooked e1 e3.
Proof using Type.
  intros (l1 & O1 & C1 & P1 & G1) (l2 & O2 & C2 & P2 & G2). exists (l1 ++ l2).
  split_and!; [by rewrite O2, O1, app_assoc|by apply Forall_app|congruence|auto].
Qed.
Lemma unbooked_accounts e e' : unbooked e e' → accounts e e'.
Proof using Type. intros (l & E1 & E2 & E3 & E4). exists l. split_and!; [done|by rewrite booked_cashless|]. intros _ H. rewrite E3. auto. Qed.

#[local] Instance unbooked_flow : Flow log_ cfg (both unbooked).
Proof using agree_plain agree_mark.
  split; [split|..].
  - intros e. by apply unbooked_silent.
  - apply unbooked_trans.
  - intros e e' Hq. apply unbooked_silent; [apply Hq..|]. by rewrite (qu_analytics _ _ Hq).
  - intros o e Ho. apply unbooked_emit. by destruct o as [|[]| | |].
  - done.
  - apply unbooked_trans.
  - intros e r _. exists [out_halt r]. split_and!; [done|by repeat constructor|done..].
  - intros e r _ _. exists [out_halt r]. split_and!; [done|by repeat constructor|done..].
  - intros e a Ha. apply unbooked_silent; [done..|]. intros p. by apply agree_plain.
  - intros e s px. apply unbooked_silent; [done..|]. intros p. by apply agree_mark.
Qed.
Lemma accounts_trans e1 e2 e3 : accounts e1 e2 → accounts e2 e3 → accounts e1 e3.
Proof using Type.
  intros (l1 & E1 & P1 & G1) (l2 & E2 & P2 & G2). exists (l1 ++ l2). rewrite E2, E1, <- app_assoc, foldl_app, P2, <- P1.
  split_and!; [done..|]. rewrite trace_fit_app, <- P1. intros [H1 H2] H. rewrite <- P2. auto.
Qed.
Lemma accounts_behind e e' : accounts e e' → behind e e'.
Proof using Type. intros (l & E1 & E2 & _). exists l. split; [done|by left]. Qed.
Lemma accounts_then_behind e1 e2 e3 : accounts e1 e2 → behind e2 e3 → behind e1 e3.
Proof using Type.
  intros (l1 & E1 & P1 & _) (l2 & E2 & P2). exists (l1 ++ l2). rewrite E2, E1, <- app_assoc, foldl_app, <- P1. by split.
Qed.
#[local] Instance accounts_flow : Flow log_ cfg accounts_law.
Proof using agree_plain agree_mark.
  pose proof unbooked_flow as U. split; [split|..].
  - intros e. apply unbooked_accounts, (ca_refl (both unbooked)).
  - apply accounts_trans.
  - intros e e' Hq. by apply unbooked_accounts, (ca_quiet (both unbooked)).
  - intros o e Ho. by apply unbooked_accounts, (ca_emit (both unbooked)).
  - apply accounts_behind.
  - apply accounts_then_behind.
  - intros e r H1. by apply accounts_behind, unbooked_accounts, (fl_pool log_ cfg (both unbooked)).
  - intros e r H1 H2. by apply unbooked_accounts, (fl_ring log_ cfg (both unbooked)).
  - intros e a Ha. by apply unbooked_accounts, (fl_analytics log_ cfg (both unbooked)).
  - intros e s px. by apply unbooked_accounts, (fl_mark log_ cfg (both unbooked)).
Qed.

(** *** The booking of one fill *)

(** The portfolio has the fill since [e0], the trace does not; then the trace has it
    too, the statistics do not. *)
Definition owed (f : fill_msg) (e0 e : engine) : Prop :=
  ∃ l, en_out e = en_out e0 ++ l ∧ Forall (λ o, cashless o = true) l ∧ en_portfolio e = booked (en_portfolio e0) (out_publish (ev_fill f)) ∧
    ∀ p, agree p (en_analytics e0) → agree p (en_analytics e).
Definition told (f : fill_msg) (e0 e : engine) : Prop :=
  ∃ l1 l2, en_out e = en_out e0 ++ l1 ++ out_publish (ev_fill f) :: l2 ∧ Forall (λ o, cashless o = true) (l1 ++ l2) ∧
    en_portfolio e = booked (en_portfolio e0) (out_publish (ev_fill f)) ∧
    ∀ p, agree p (en_analytics e0) → agree p (en_analytics e).
Lemma owed_unbooked f e0 e e' : owed f e0 e → unbooked e e' → owed f e0 e'.
Proof using Type.
  intros (l & O1 & C1 & P1 & G1) (l' & O2 & C2 & P2 & G2). exists (l ++ l').
  split_and!; [by rewrite O2, O1, app_assoc|by apply Forall_app|congruence|auto].
Qed.
Lemma owed_told f e0 e : owed f e0 e → told f e0 (emitted (out_publish (ev_fill f)) e).
Proof using Type. intros (l & O1 & C1 & P1 & G1). exists l, []. cbn. rewrite O1, app_nil_r, <- app_assoc. by split_and!. Qed.
Lemma told_unbooked f e0 e e' : told f e0 e → unbooked e e' → told f e0 e'.
Proof using Type.
  intros (l1 & l2 & O1 & C1 & P1 & G1) (l' & O2 & C2 & P2 & G2). exists l1, (l2 ++ l').
  split_and!; [by rewrite O2, O1, <- !app_assoc|rewrite app_assoc; by apply Forall_app|congruence|auto].
Qed.
Lemma told_accounts f e0 e : told f e0 e → accounts e0 (set_en_analytics (an_on_fill f (en_analytics e)) e).
Proof using agree_fill.
  intros (l1 & l2 & O1 & C1 & P1 & G1). exists (l1 ++ out_publish (ev_fill f) :: l2). apply Forall_app in C1 as [C1 C2].
  split_and!; [done| |].
  - rewrite foldl_app, (booked_cashless l1) by done. cbn [foldl]. by rewrite booked_cashless.
  - rewrite trace_fit_app, (booked_cashless l1) by done. intros (_ & Hf & _) Ha. cbn [en_portfolio en_analytics set_en_analytics].
    rewrite P1. apply agree_fill; auto.
Qed.

Lemma owed_behind f e0 e : owed f e0 e → behind e0 e.
Proof using Type. intros (l & O1 & C1 & P1 & _). exists l. split; [done|]. right. exists f. by rewrite booked_cashless. Qed.
Lemma told_behind f e0 e : told f e0 e → behind e0 e.
Proof using Type.
  intros (l1 & l2 & O1 & C1 & P1 & _). exists (l1 ++ out_publish (ev_fill f) :: l2). split; [done|]. left. apply Forall_app in C1 as [C1 C2].
  rewrite foldl_app, (booked_cashless l1) by done. cbn [foldl]. by rewrite booked_cashless.
Qed.

(** From a state in the middle of the booking that [e0] began, to its end. *)
Definition settles (T : engine → engine → Prop) {X} (m : E X) : Prop :=
  ∀ e0 e, typed cfg e → T e0 e → typed cfg (m e).2 ∧ moved accounts_law e0 (m e).
Lemma settle {X Y} (m : E X) (k : X → E Y) (T : engine → engine → Prop) :
  (∀ e0 e e', T e0 e → unbooked e e' → T e0 e') → (∀ e0 e, T e0 e → behind e0 e) →
  pres cfg (both unbooked) m → (∀ x, settles T (k x)) → settles T (m ≫= k).
Proof using Type.
  intros Hu Hb Hm Hk e0 e Ht He. destruct (Hm e Ht I) as (H1 & H2%moved_both & _). unfold mbind, E_bind.
  destruct (m e) as [[x|w] e1]; cbn [fst snd] in *; [apply Hk; [done|by eapply Hu]|]. split; [done|]. by eapply Hb, Hu.
Qed.
Lemma settle_owed f {X Y} (m : E X) (k : X → E Y) : pres cfg (both unbooked) m → (∀ x, settles (owed f) (k x)) → settles (owed f) (m ≫= k).
Proof using Type. apply settle; [apply owed_unbooked|apply owed_behind]. Qed.
Lemma settle_told f {X Y} (m : E X) (k : X → E Y) : pres cfg (both unbooked) m → (∀ x, settles (told f) (k x)) → settles (told f) (m ≫= k).
Proof using Type. apply settle; [apply told_unbooked|apply told_behind]. Qed.

Lemma total_publish ev : total (publish_event ev : E unit).
Proof using Type. unfold publish_event, push_ring, trigger_halt. never_throws. Qed.
Lemma publish_settles f {X} (k : unit → E X) : (∀ x, settles (told f) (k x)) → settles (owed f) (publish_event (ev_fill f) ≫= k).
Proof using agree_plain agree_mark.
  intros Hk e0 e Ht He. destruct (bind_total (publish_event (ev_fill f)) k e (total_publish _)) as [x ->].
  assert (typed cfg (publish_event (ev_fill f) e).2 ∧ told f e0 (publish_event (ev_fill f) e).2) as [H1 H2]; [|by apply Hk].
  unfold publish_event. destruct (bind_total (out (out_publish (ev_fill f))) (λ _ : unit, mret ();; c ← gets en_cfg;
    for_each (push_ring (ev_fill f)) (rings_of (cf_threading c))) e (total_modify _)) as [y ->].
  assert (pres cfg (both unbooked) (mret ();; c ← gets en_cfg; for_each (push_ring (ev_fill f)) (rings_of (cf_threading c)))) as Hp by walk.
  destruct (Hp (out (out_publish (ev_fill f)) e).2) as (K1 & K2%moved_both & _); [by apply (typed_same cfg e)|done|].
  split; [done|]. eapply told_unbooked; [by apply owed_told|done].
Qed.
Lemma start_settling f {X} (k : unit → E X) : (∀ x, settles (owed f) (k x)) →
  pres cfg accounts_law (modify (λ e, set_en_portfolio (on_fill_lot (fill_of_msg f) (fm_opener f) (fm_strategy f) (en_portfolio e)) e) ≫= k).
Proof using Type.
  intros Hk e Ht _. destruct (bind_total (modify (λ e, set_en_portfolio (on_fill_lot (fill_of_msg f) (fm_opener f) (fm_strategy f) (en_portfolio e)) e))
    k e (total_modify _)) as [x ->].
  destruct (Hk x e (set_en_portfolio (on_fill_lot (fill_of_msg f) (fm_opener f) (fm_strategy f) (en_portfolio e)) e)) as [H1 H2]; [by apply (typed_same cfg e)| |by split_and!].
  exists []. by rewrite app_nil_r.
Qed.
Lemma finish_settling f {X} (k : unit → E X) : (∀ x, pres cfg accounts_law (k x)) → settles (told f) (analytics_on log_ (av_fill f) ≫= k).
Proof using agree_fill agree_plain agree_mark.
  intros Hk e0 e Ht He. destruct (bind_total (analytics_on log_ (av_fill f)) k e (total_modify _)) as [x ->].
  destruct (Hk x (set_en_analytics (an_on_fill f (en_analytics e)) e)) as (H1 & H2 & _); [by apply (typed_same cfg e)|done|].
  split; [exact H1|]. exact (moved_trans accounts_law _ e0 _ (told_accounts f e0 e He) H2).
Qed.

Lemma book_fill_accounts f sim reason : pres cfg accounts_law (book_fill log_ f sim reason).
Proof using agree_plain agree_mark agree_fill.
  unfold book_fill. cbv zeta. apply pres_bind; [exact _|walk|intros f']. do 3 (apply pres_bind; [exact _|walk|intros ?]).
  apply start_settling. intros ?. do 8 (apply settle_owed; [walk|intros ?]).
  apply publish_settles. intros ?. apply finish_settling. intros ?. unfold count_event. walk.
Qed.

Lemma funding_accounts ts symbol d reason : pres cfg accounts_law (publish_event (ev_funding ts symbol d reason)).
Proof using agree_plain agree_mark.
  intros e Ht _. set (o := out_publish (ev_funding ts symbol d reason)). set (g := λ e : engine, set_en_portfolio (on_funding d (en_portfolio e)) e).
  assert (accounts e (g (emitted o e))) as H0.
  { exists [o]. by split_and!; [done..|intros [[] _]]. }
  assert (pres cfg accounts_law (audit (au_funding d);; c ← gets en_cfg;
    for_each (push_ring (ev_funding ts symbol d reason)) (rings_of (cf_threading c)) : E unit)) as Hr by walk.
  destruct (Hr (g (emitted o e))) as (H1 & H2 & _); [by apply (typed_same cfg e)|done|].
  split_and!; [exact H1|exact (moved_trans accounts_law _ e _ H0 H2)|done].
Qed.
Lemma accounts_whole : Whole log_ cfg accounts_law.
Proof using agree_plain agree_mark agree_fill.
  pose proof unbooked_flow as U. split; [split; [split; [exact _|..]|..]|].
  - intros e r _. apply unbooked_accounts. exists [out_halt r]. split_and!; [done|by repeat constructor|done..].
  - intros o e _ _. by apply unbooked_accounts, unbooked_emit.
  - intros h o e _ _. by apply unbooked_accounts, unbooked_emit.
  - apply book_fill_accounts.
  - intros o e _ _. by apply unbooked_accounts, unbooked_emit.
  - intros h o e _ _. by apply unbooked_accounts, unbooked_emit.
  - apply funding_accounts.
  - intros e e' Hq. apply unbooked_accounts, unbooked_silent; [apply Hq..|]. by rewrite (rq_analytics _ _ Hq).
Qed.
End Accounts.

Section AccountClaims.
Context {A : Arith} {HO : HashOrder} {MO : MultiOrder} {S : Type} {SI : IStrategy S} {W : Type} {XW : Execution W} (log_ : num → num).
#[local] Abbreviation engine := (@EngineState.engine A S W).

(** C4: the engine's portfolio refines its published trace: over any inputs, from any
    state with well-formed queues and in any arithmetic, an observer who starts with
    the same portfolio and books the fills and fundings the engine publishes, in
    their order and with the attribution they carry, ends with exactly the engine's
    portfolio, positions, lots, cash and counters, when the run returns; no fill is
    then booked unpublished, published unbooked or booked twice.  When the run ends
    with an exception, of a strategy's callback, of the venue or of an exhausted
    pool, the portfolio has at most one fill more, booked and never published. *)
Theorem portfolio_replays_trace inputs (e : engine) : typed (en_cfg e) e →
  let r := stream log_ inputs e in
  ∃ l, en_out r.2 = en_out e ++ l ∧
    match r.1 with
    | Ret _ => en_portfolio r.2 = foldl booked (en_portfolio e) l
    | Throw _ =>
        en_portfolio r.2 = foldl booked (en_portfolio e) l ∨
        ∃ f, en_portfolio r.2 = booked (foldl booked (en_portfolio e) l) (out_publish (ev_fill f))
    end.
Proof.
  intros Ht r.
  assert (Whole log_ (en_cfg e) (accounts_law (S := S) (W := W) (λ _ _, True) (λ _ _, True))) as HF by by apply accounts_whole.
  destruct (stream_pres log_ (en_cfg e) _ inputs e Ht I) as (_ & H & _). fold r in H. unfold moved in H.
  destruct r as [[x|w] e']; cbn [fst snd] in *; [|exact H]. destruct H as (l & E1 & E2 & _). by exists l.
Qed.
End AccountClaims.

Section Agreement.
#[local] Existing Instance exact_arith.
Context {HO : HashOrder} {MO : MultiOrder} {S : Type} {SI : IStrategy S} {W : Type} {XW : Execution W} (log_ : @num exact_arith → @num exact_arith).
#[local] Abbreviation engine := (@EngineState.engine exact_arith S W).

Definition in_agreement (p : portfolio) (a : Analytics) : Prop := agrees p (an_ledger a).
Definition fit_fill (f : fill_msg) (p : portfolio) : Prop := clear_of_dust (fill_of_msg f) (qty (position_at (fm_symbol f) p)).

Lemma agreement_plain p a ev : plain_analytics ev = true → in_agreement p a → in_agreement p (default a (an_on_event log_ ev a)).
Proof.
  intros Hp Ha. destruct (an_on_event log_ ev a) as [a'|] eqn:Ea; [|done]. cbn [default from_option id].
  destruct (an_event_agrees log_ ev p a a' Ha) as [H _]; [by destruct ev|done|]. by destruct ev.
Qed.

(** C5: the two accounts of the engine agree: in exact arithmetic, from a state with
    well-formed queues in which they agree and over any run of inputs that returns, in
    which no fill leaves dust and no funding is settled, the statistics, which the risk
    limits read, have the same cash, the same quantity and the same cost of every
    position as the portfolio. *)
Theorem engine_accounts_agree inputs (e : engine) : typed (en_cfg e) e → agrees (en_portfolio e) (an_ledger (en_analytics e)) →
  let r := stream log_ inputs e in
  ∃ l, en_out r.2 = en_out e ++ l ∧
    (r.1 = Ret () → trace_fit fit_fill (en_portfolio e) l → agrees (en_portfolio r.2) (an_ledger (en_analytics r.2))).
Proof.
  intros Ht Ha r.
  assert (Whole log_ (en_cfg e) (accounts_law (S := S) (W := W) in_agreement fit_fill)) as HF.
  { apply accounts_whole.
    - apply agreement_plain.
    - intros p a s px. apply mark_keeps.
    - intros p a f H1 H2. by apply fill_agrees. }
  destruct (stream_pres log_ (en_cfg e) _ inputs e Ht I) as (_ & H & _). fold r in H. unfold moved in H.
  destruct r as [[x|w] e']; cbn [fst snd] in *.
  - destruct H as (l & E1 & _ & E3). exists l. split; [done|]. intros _ Hf. by apply E3.
  - destruct H as (l & E1 & _). by exists l.
Qed.
End Agreement.
