(* ===== verification/EngineOrders.v ===== *)
(** * What becomes of an order

    One order at a time: which orders an adapter is handed, what a refused order
    leaves behind, when a waiting order goes out, which stops fire, and what a
    replayed log does to the accounts. *)

From Stdlib Require Import Sorting.Sorted QArith.
From S2P Require Import Prelude Float64 Event Bridge NodeHeap OrderBook Arith Portfolio Sizing Risk Exits ExitPolicy.
From S2P Require Import ClientOrderId Indicators EngineEvents Analytics AnalyticsTheorems Trackers EngineState Engine EngineLoop EngineLogic EngineRuns EngineTheorems.

Open Scope string_scope.
Open Scope list_scope.
Open Scope Z_scope.

Section Orders.
Context {A : Arith} {HO : HashOrder} {MO : MultiOrder} {S : Type} {SI : IStrategy S} {W : Type} {XW : Execution W} (log_ : num → num).
#[local] Abbreviation engine := (@EngineState.engine A S W).
#[local] Abbreviation E := (@EngineState.E A S W).
Variable cfg : engine_config.

(** The trace grows by outputs with [P]; the queues and the middle price are as they
    were. *)
Definition sends (P : output → Prop) (e e' : engine) : Prop :=
  ∃ l, en_out e' = en_out e ++ l ∧ Forall P l ∧ en_pending e' = en_pending e ∧ en_stops e' = en_stops e ∧ en_seq e' = en_seq e ∧ en_mid e' = en_mid e.

Section Sends.
Variable P : output → Prop.
Hypothesis P_plain : ∀ o, plain o = true → P o.
Hypothesis P_halt : ∀ r, P (out_halt r).
Hypothesis P_fill : ∀ f, P (out_publish (ev_fill f)).
Hypothesis P_unwind : ∀ h o, om_strategy o = "risk_unwind" → P (out_publish (ev_order o)) ∧ P (out_submit h o).

Lemma sends_silent e e' : en_out e' = en_out e → en_pending e' = en_pending e → en_stops e' = en_stops e → en_seq e' = en_seq e →
  en_mid e' = en_mid e → sends P e e'.
Proof using Type. intros E1 E2 E3 E4 E5. exists []. rewrite E1, app_nil_r. by split_and!. Qed.
Lemma sends_emit o e : P o → sends P e (emitted o e).
Proof using Type. intros Ho. exists [o]. by split_and!; [|repeat constructor|..]. Qed.
Lemma sends_halt r e : sends P e (halted_with r e).
Proof using P_halt. exists [out_halt r]. by split_and!; [|repeat constructor|..]. Qed.
Lemma sends_trans e1 e2 e3 : sends P e1 e2 → sends P e2 e3 → sends P e1 e3.
Proof using Type.
  intros (l1 & O1 & F1 & Q1 & T1 & S1 & M1) (l2 & O2 & F2 & Q2 & T2 & S2 & M2). exists (l1 ++ l2).
  rewrite O2, O1, <- app_assoc, Q2, T2, S2, M2. split_and!; [done|by apply Forall_app|done..].
Qed.
#[export] Instance sends_flow : Flow log_ cfg (both (sends P)).
Proof using P_plain P_halt.
  split; [split|..].
  - intros e. by apply sends_silent.
  - apply sends_trans.
  - intros e e' Hq. apply sends_silent; apply Hq.
  - intros o e Ho. by apply sends_emit, P_plain.
  - done.
  - apply sends_trans.
  - intros e r _. apply sends_halt.
  - intros e r _ _. apply sends_halt.
  - intros e a _. by apply sends_silent.
  - intros e s p. by apply sends_silent.
Qed.
Lemma sends_unwinding : Unwinding log_ cfg (both (sends P)).
Proof using P_plain P_halt P_fill P_unwind.
  split; [exact _|..].
  - intros e r _. apply sends_halt.
  - intros o e _ Ho. by apply sends_emit, (P_unwind 0).
  - intros h o e _ Ho. by apply sends_emit, P_unwind.
  - intros f sim r. apply book_fill_pres; [exact _|intros; by apply sends_silent..|]. intros f' e. by apply sends_emit.
Qed.
End Sends.

(** Any output. *)
Definition sends_any : @law A S W := both (sends (λ _, True)).
#[local] Instance sends_any_frame : Frame log_ cfg sends_any.
Proof using Type.
  split; [by apply sends_unwinding|..].
  - intros o e _ _. by apply sends_emit.
  - intros h o e _ _. by apply sends_emit.
  - intros ts sym d r. pose proof (sends_flow (λ _, True) ltac:(done) ltac:(done)) as Fl. fold sends_any in Fl. unfold publish_event.
    apply pres_bind; [exact _|intros e Ht _|intros ?; walk].
    + split_and!; [by apply (typed_same cfg e)|by apply sends_emit|done].
    + intros e Ht _. split_and!; [by apply (typed_same cfg e)|by apply sends_silent|done].
Qed.

(** ** Refusal and clearance *)

(** The checks an order passes, in the state it meets them. *)
Definition cleared (e : engine) (o : order_msg) : bool :=
  negb (en_halt e) &&
  match cf_risk_check (en_cfg e) with
  | Some check => match check (risk_order_of o) (en_portfolio e) (en_mid e) with Some _ => false | None => true end
  | None => true end &&
  match (check_order (risk_order_of o) (en_portfolio e) (risk_view (en_analytics e)) (en_risk e)).1 with
  | halt | reject => false | _ => true end.

(** No order but one that flattens a position is handed to an adapter. *)
Definition withheld (x : output) : Prop := match x with out_submit _ o | out_publish (ev_order o) => om_strategy o = "risk_unwind" | _ => True end.
Definition rejected_in (o : order_msg) (l : list output) : Prop :=
  ∃ reason, out_publish (ev_rejection (om_ts o) (om_symbol o) (om_id o) reason) ∈ l.
Definition sent_in (o : order_msg) (l : list output) : Prop := out_publish (ev_order o) ∈ l ∧ ∃ h, out_submit h o ∈ l.

#[local] Instance withheld_unwinding : Unwinding log_ cfg (both (sends withheld)).
Proof using Type. apply sends_unwinding; [|done..]. intros [ev|ev|x o|r|r] Ho; try done. by destruct ev. Qed.

(** *** Triples over the growing trace *)

Lemma stable_steps (R : engine → engine → Prop) (Q : engine → Prop) {X} (m : E X) : (∀ e e', Q e → R e e' → Q e') → pres cfg (both R) m →
  steps cfg (both R) Q m (λ _, Q).
Proof using Type. intros Hs H e Ht Hp. destruct (H e Ht I) as (H1 & H2 & _). split_and!; [done..|]. intros x _. eapply Hs; [done|]. by apply moved_both in H2. Qed.

(** The trace since [O] has [G]; a [G] that grows with the trace stays. *)
Definition since (O : list output) (G : list output → Prop) (e : engine) : Prop := ∃ l, en_out e = O ++ l ∧ G l.
Definition growing (G : list output → Prop) : Prop := ∀ l l', G l → G (l ++ l').
Lemma since_stable P O G : growing G → ∀ e e', since O G e → sends P e e' → since O G e'.
Proof. intros HG e e' (l & E1 & Hl) (l' & E2 & _). exists (l ++ l'). split; [by rewrite E2, E1, app_assoc|by apply HG]. Qed.
Lemma growing_in (x : output) : growing (λ l, x ∈ l).
Proof. intros l l' H. apply elem_of_app. by left. Qed.
Lemma growing_sent o : growing (sent_in o).
Proof. intros l l' [H (h & Hh)]. split; [by apply growing_in|]. exists h. by apply growing_in. Qed.
Lemma growing_rejected o : growing (rejected_in o).
Proof. intros l l' (r & H). exists r. by apply growing_in. Qed.
Lemma growing_true : growing (λ _, True).
Proof. done. Qed.
Lemma out_since (P : output → Prop) O (G G' : list output → Prop) x : P x → (∀ l, G l → G' (l ++ [x])) →
  steps cfg (both (sends P)) (since O G) (out x : E unit) (λ _, since O G').
Proof.
  intros Hx HG e Ht (l & El & Hl). split_and!; [by apply (typed_same cfg e)|by apply sends_emit|].
  intros _ _. exists (l ++ [x]). split; [|by apply HG]. change (en_out (out x e).2) with (en_out e ++ [x]). by rewrite El, app_assoc.
Qed.

(** *** Clearance *)

Lemma publish_since O ev : (match ev with ev_funding _ _ _ _ => False | _ => True end) →
  steps cfg sends_any (since O (λ _, True)) (publish_event ev) (λ _, since O (λ l, out_publish ev ∈ l)).
Proof.
  intros Hev. unfold publish_event. eapply (steps_bind cfg sends_any _ _ _ (λ _, since O (λ l, out_publish ev ∈ l))).
  - apply out_since; [done|]. intros l _. apply elem_of_app. right. by left.
  - intros []. apply stable_steps; [apply since_stable, growing_in|]. destruct ev; try done; walk.
Qed.

Lemma send_order_sends O o : om_is_stop o = false →
  steps cfg sends_any (since O (λ _, True)) (send_order log_ o) (λ _, since O (sent_in o)).
Proof.
  intros Hs. unfold send_order. cbv zeta.
  do 4 (eapply steps_bind; [exact _|apply stable_steps; [apply since_stable, growing_true|walk]|intros ?]).
  eapply steps_bind; [exact _|by apply publish_since|intros ?].
  do 8 (eapply steps_bind; [exact _|apply stable_steps; [apply since_stable, growing_in|walk]|intros ?]).
  eapply (steps_bind cfg sends_any _ _ _ (λ _, since O (sent_in o))).
  { unfold submit. eapply (steps_bind cfg sends_any _ _ _ (λ _, since O (sent_in o))).
    - apply out_since; [done|]. intros l Hl. split; [by apply growing_in|]. eexists. apply elem_of_app. right. by left.
    - intros ?. apply stable_steps; [apply since_stable, growing_sent|walk]. }
  intros ?. apply stable_steps; [apply since_stable, growing_sent|].
  assert (∀ h, pres cfg sends_any (submit h o)) as Hsub.
  { intros h. unfold submit. apply pres_bind; [exact _|intros e Ht _|intros ?; walk].
    split_and!; [by apply (typed_same cfg e)|by apply sends_emit|done]. }
  unfold poll_fills, count_event. walk.
Qed.

(** *** A [false] has asked for a halt *)

Definition asks (b : bool) (e : engine) : Prop := b = false → en_halt_req e = true.
Lemma ret_asks (b : bool) : steps cfg sends_any (λ e, en_halt_req e = true ∨ b = true) (mret b : E bool) asks.
Proof. intros e Ht Hp. split_and!; [done|apply (ca_refl sends_any)|]. intros x [= <-]. intros ->. by destruct Hp. Qed.
Lemma true_asks {X} (m : E X) : pres cfg sends_any m → steps cfg sends_any (λ _, True) (m;; mret true) asks.
Proof. intros H. eapply (steps_bind cfg sends_any _ _ _ anything); [done|]. intros ?. eapply steps_conseq; [apply ret_asks|by right|done]. Qed.
Lemma risk_halt_asks reason : steps cfg sends_any (λ _, True) (risk_halt log_ reason;; mret false) asks.
Proof.
  eapply (steps_bind cfg sends_any _ _ _ (λ _ e, en_halt_req e = true)); [|intros ?; eapply steps_conseq; [apply ret_asks|by left|done]].
  unfold risk_halt. apply (steps_bind cfg sends_any _ _ _ anything); [apply pres_gets; exact _|intros c].
  apply (steps_bind cfg sends_any _ _ _ anything); [apply pres_any; walk|intros ?].
  apply (steps_bind cfg sends_any _ _ _ anything); [apply pres_any; walk|intros ?].
  intros e Ht _. split_and!; [by apply (typed_same cfg e)|by apply (ca_quiet sends_any)|done].
Qed.
Lemma handle_fill_asks f sim : steps cfg sends_any (λ _, True) (handle_engine_fill log_ f sim) asks.
Proof.
  unfold handle_engine_fill, post_fill_halts. apply (steps_bind cfg sends_any _ _ _ anything); [apply pres_any; walk|intros ?].
  apply (steps_bind cfg sends_any _ _ _ anything); [apply pres_any; walk|intros [|]].
  - eapply steps_conseq; [apply risk_halt_asks|done|done].
  - eapply steps_conseq; [apply ret_asks|by right|done].
Qed.
Lemma for_while_asks {X} (f : X → E bool) l : (∀ x, steps cfg sends_any (λ _, True) (f x) asks) →
  steps cfg sends_any (λ _, True) (for_while f l) asks.
Proof.
  intros Hf. induction l as [|x l IH]; cbn [for_while]; [eapply steps_conseq; [apply ret_asks|by right|done]|].
  eapply (steps_bind cfg sends_any _ _ _ asks); [apply Hf|]. intros [|]; [by eapply steps_conseq|].
  eapply steps_conseq; [apply ret_asks| |done]. intros e H. left. by apply H.
Qed.
Lemma adapter_fills_ask h : steps cfg sends_any (λ _, True) (process_adapter_fills log_ h) asks.
Proof.
  unfold process_adapter_fills, poll_fills. do 2 (apply (steps_bind cfg sends_any _ _ _ anything); [apply pres_any; walk|intros ?]).
  eapply steps_conseq; [apply for_while_asks; intros ?; apply handle_fill_asks|done|done].
Qed.
Lemma send_order_asks o : om_is_stop o = false → steps cfg sends_any (λ _, True) (send_order log_ o) asks.
Proof.
  intros Hs. assert (∀ ev, (match ev with ev_funding _ _ _ _ => False | _ => True end) → pres cfg sends_any (publish_event ev)) as Hp.
  { intros ev Hev e Ht _. destruct (publish_since (en_out e) ev Hev e Ht) as (H1 & H2 & _); [exists []; by rewrite app_nil_r|done]. }
  assert (∀ h, pres cfg sends_any (submit h o)) as Hsub.
  { intros h. unfold submit. apply pres_bind; [exact _|intros e Ht _|intros ?; walk].
    split_and!; [by apply (typed_same cfg e)|by apply sends_emit|done]. }
  pose proof (Hp (ev_order o) I) as Ho.
  unfold send_order, poll_fills, count_event. cbv zeta.
  do 17 (apply (steps_bind cfg sends_any _ _ _ anything); [apply pres_any; walk|intros ?]).
  eapply (steps_bind cfg sends_any _ _ _ asks); [eapply steps_conseq; [apply adapter_fills_ask|done|done]|]. intros [|]; cbn [negb].
  - apply (steps_conseq cfg sends_any (λ _, True) (asks true) _ asks asks); [|done|done].
    apply (steps_bind cfg sends_any _ _ _ anything); [apply pres_any; walk|intros ?].
    eapply steps_conseq; [apply true_asks; walk|done|done].
  - eapply steps_conseq; [apply ret_asks| |done]. intros e H. left. by apply H.
Qed.
Lemma process_order_asks o : om_is_stop o = false → steps cfg sends_any (λ _, True) (process_order log_ o) asks.
Proof.
  intros Hs. unfold process_order, venue_refusal, risk_verdict. apply (steps_bind cfg sends_any _ _ _ anything); [apply pres_any; walk|intros [|]].
  { apply (steps_bind cfg sends_any _ _ _ (λ _ e, en_halt_req e = true)); [|intros ?; eapply steps_conseq; [apply ret_asks|by left|done]].
    intros e Ht _. split_and!; [by apply (typed_same cfg e)|by apply (ca_quiet sends_any)|done]. }
  apply (steps_bind cfg sends_any _ _ _ anything); [apply pres_any; walk|intros [why|]].
  { eapply steps_conseq; [apply true_asks; walk|done|done]. }
  apply (steps_bind cfg sends_any _ _ _ anything); [apply pres_any; walk|intros action].
  destruct action; try by eapply steps_conseq; [apply send_order_asks|done|done].
  - eapply steps_conseq; [apply true_asks; walk|done|done].
  - apply (steps_bind cfg sends_any _ _ _ anything); [apply pres_any; walk|intros ?].
    eapply steps_conseq; [apply risk_halt_asks|done|done].
Qed.

(** *** The decision *)

Definition venue_says (o : order_msg) (e : engine) : option string :=
  match cf_risk_check (en_cfg e) with Some check => check (risk_order_of o) (en_portfolio e) (en_mid e) | None => None end.
Definition risk_says (o : order_msg) (e : engine) : risk_action * RiskManager :=
  check_order (risk_order_of o) (en_portfolio e) (risk_view (en_analytics e)) (en_risk e).
Lemma process_order_eq o (e : engine) : process_order log_ o e =
  if en_halt e then (Ret false, set_en_halt_req true e) else
  match venue_says o e with
  | Some why => (refuse_by_venue o why;; mret true) e
  | None =>
      match (risk_says o e).1 with
      | halt => refuse_by_risk o true;; risk_halt log_ "risk limit breached - engine halted";; mret false
      | reject => refuse_by_risk o false;; mret true
      | _ => send_order log_ o
      end (set_en_risk (risk_says o e).2 e)
  end.
Proof.
  unfold process_order, venue_says, risk_says. unfold mbind at 1, E_bind at 1, gets at 1. destruct (en_halt e); [done|].
  unfold mbind at 1, E_bind at 1, venue_refusal. unfold mbind at 1, E_bind at 1, gets at 1. cbn [mret E_ret].
  destruct (match cf_risk_check _ with Some _ => _ | None => _ end); [done|].
  unfold mbind at 1, E_bind at 1, risk_verdict. unfold mbind at 1, E_bind at 1, gets at 1. unfold mbind at 1, E_bind at 1, modify at 1. cbn [mret E_ret].
  cbn [id]. by destruct (_.1).
Qed.

Lemma emit_rejection_since O o reason :
  steps cfg (both (sends withheld)) (since O (λ _, True)) (emit_rejection o reason) (λ _, since O (rejected_in o)).
Proof.
  unfold emit_rejection. do 2 (eapply steps_bind; [exact _|apply stable_steps; [apply since_stable, growing_true|walk]|intros ?]).
  unfold publish_event. eapply (steps_bind cfg (both (sends withheld)) _ _ _ (λ _, since O (rejected_in o))).
  - apply out_since; [done|]. intros l _. exists reason. apply elem_of_app. right. by left.
  - intros ?. apply stable_steps; [apply since_stable, growing_rejected|walk].
Qed.
Lemma rejected_stays {X} O o (m : E X) : pres cfg (both (sends withheld)) m →
  steps cfg (both (sends withheld)) (since O (rejected_in o)) m (λ _, since O (rejected_in o)).
Proof. apply stable_steps, since_stable, growing_rejected. Qed.
Lemma refuse_by_venue_since O o why : steps cfg (both (sends withheld)) (since O (λ _, True)) (refuse_by_venue o why) (λ _, since O (rejected_in o)).
Proof. unfold refuse_by_venue. eapply steps_bind; [exact _|apply emit_rejection_since|intros ?]. apply rejected_stays. walk. Qed.
Lemma refuse_by_risk_since O o h : steps cfg (both (sends withheld)) (since O (λ _, True)) (refuse_by_risk o h) (λ _, since O (rejected_in o)).
Proof. unfold refuse_by_risk. cbv zeta. eapply steps_bind; [exact _|apply emit_rejection_since|intros ?]. apply rejected_stays. walk. Qed.
Lemma refusal_since {X} O o (m : E unit) (k : E X) : steps cfg (both (sends withheld)) (since O (λ _, True)) m (λ _, since O (rejected_in o)) →
  pres cfg (both (sends withheld)) k → steps cfg (both (sends withheld)) (since O (λ _, True)) (m;; k) (λ _, since O (rejected_in o)).
Proof. intros Hm Hk. eapply steps_bind; [exact _|exact Hm|intros ?]. by apply rejected_stays. Qed.
Lemma since_start (e : engine) : since (en_out e) (λ _, True) e.
Proof. exists []. by rewrite app_nil_r. Qed.

(** A cleared order is announced and submitted. *)
Lemma cleared_sent o (e : engine) b : typed cfg e → om_is_stop o = false → cleared e o = true → (process_order log_ o e).1 = Ret b →
  since (en_out e) (sent_in o) (process_order log_ o e).2.
Proof.
  intros Ht Hs. unfold cleared. change (match cf_risk_check (en_cfg e) with Some check => _ | None => true end) with
    (match cf_risk_check (en_cfg e) with Some check => match check (risk_order_of o) (en_portfolio e) (en_mid e) with Some _ => false | None => true end | None => true end).
  intros [[Hh Hv]%andb_true_iff Hr]%andb_true_iff. apply negb_true_iff in Hh.
  rewrite process_order_eq, Hh. assert (venue_says o e = None) as ->.
  { unfold venue_says. destruct (cf_risk_check _) as [c|]; [|done]. by destruct (c _ _ _). }
  fold (risk_says o e) in Hr. pose proof (send_order_sends (en_out e) o Hs (set_en_risk (risk_says o e).2 e)) as H.
  destruct H as (_ & _ & H3); [by apply (typed_same cfg e)|apply (since_start e)|].
  intros E1. destruct (risk_says o e).1; try done; by apply (H3 b).
Qed.
(** One that is not cleared is withheld. *)
Lemma refused_withheld o (e : engine) : typed cfg e → cleared e o = false →
  sends withheld e (process_order log_ o e).2 ∧
  (en_halt e = false → ∀ b, (process_order log_ o e).1 = Ret b → since (en_out e) (rejected_in o) (process_order log_ o e).2).
Proof.
  intros Ht Hc. rewrite process_order_eq. unfold cleared in Hc. destruct (en_halt e) eqn:Eh; [split; [by apply sends_silent|done]|].
  fold (risk_says o e) in Hc. assert (match venue_says o e with Some _ => false | None => true end = true →
    match (risk_says o e).1 with halt | reject => false | _ => true end = false) as Hr.
  { unfold venue_says. revert Hc. destruct (cf_risk_check _) as [c|]; [destruct (c _ _ _)|]; cbn [negb andb]; congruence. }
  assert (∀ (m : E bool) e1, en_out e1 = en_out e → en_pending e1 = en_pending e → en_stops e1 = en_stops e → en_seq e1 = en_seq e → en_mid e1 = en_mid e → en_cfg e1 = en_cfg e →
    steps cfg (both (sends withheld)) (since (en_out e) (λ _, True)) m (λ _, since (en_out e) (rejected_in o)) →
    sends withheld e (m e1).2 ∧ ∀ b, (m e1).1 = Ret b → since (en_out e) (rejected_in o) (m e1).2) as Hm.
  { intros m e1 E1 E2 E3 Es Em E4 H. destruct (H e1) as (_ & H2 & H3); [by apply (typed_same cfg e)|rewrite <- E1; apply since_start|].
    split; [|done]. apply moved_both in H2. eapply sends_trans; [|exact H2]. by apply sends_silent. }
  destruct (venue_says o e) as [why|].
  - destruct (Hm (refuse_by_venue o why;; mret true) e) as [H1 H2]; [done..| |done]. apply refusal_since; [apply refuse_by_venue_since|walk].
  - specialize (Hr eq_refl). destruct (risk_says o e).1; try done.
    + destruct (Hm (refuse_by_risk o false;; mret true) (set_en_risk (risk_says o e).2 e)) as [H1 H2]; [done..| |done].
      apply refusal_since; [apply refuse_by_risk_since|walk].
    + destruct (Hm (refuse_by_risk o true;; risk_halt log_ "risk limit breached - engine halted";; mret false) (set_en_risk (risk_says o e).2 e)) as [H1 H2]; [done..| |done].
      apply refusal_since; [apply refuse_by_risk_since|walk].
Qed.

(** The order is sent or it is rejected. *)
Definition decided (o : order_msg) (l : list output) : Prop := sent_in o l ∨ rejected_in o l.
Lemma growing_decided o : growing (decided o).
Proof. intros l l' [H|H]; [left; by apply growing_sent|right; by apply growing_rejected]. Qed.
Lemma decided_later o l l' : decided o l' → decided o (l ++ l').
Proof. intros [[H1 (h & H2)]|(r & Hr)]; [left; split; [|exists h]|right; exists r]; apply elem_of_app; by right. Qed.
Lemma process_decides o (e : engine) b : typed cfg e → om_is_stop o = false → en_halt e = false → (process_order log_ o e).1 = Ret b →
  since (en_out e) (decided o) (process_order log_ o e).2.
Proof.
  intros Ht Hs Hh E1. destruct (cleared e o) eqn:Ec.
  - destruct (cleared_sent o e b Ht Hs Ec E1) as (l & El & Hl). exists l. split; [done|by left].
  - destruct (refused_withheld o e Ht Ec) as [_ H]. destruct (H Hh b E1) as (l & El & Hl). exists l. split; [done|by right].
Qed.
Lemma process_true_running o (e : engine) : (process_order log_ o e).1 = Ret true → en_halt e = false.
Proof. rewrite process_order_eq. by destruct (en_halt e). Qed.

(** ** The queue is served in its order *)

Definition stopped_at (e : engine) : Prop := en_halt_req e = true ∨ en_halt e = true.
(** The orders are decided one after the other. *)
Fixpoint served_in_order (q : list order_msg) (l : list output) : Prop :=
  match q with [] => True | o :: q => ∃ l1 l2, l = l1 ++ l2 ∧ decided o l1 ∧ served_in_order q l2 end.
(** What a drain up to [now] leaves and does. *)
Record drained (now : time_point) (e e' : engine) : Prop := {
  dr_typed : typed cfg e';
  dr_seq : en_seq e' = en_seq e;
  dr_split : ∃ served rest, en_pending e = served ++ rest ∧ en_pending e' = rest ∧
    Forall (λ x, om_eligible (pe_order x) <= now) served ∧
    since (en_out e) (served_in_order (pe_order <$> served)) e' ∧
    (stopped_at e' ∨ Forall (λ x, now < om_eligible (pe_order x)) rest) }.

Lemma sorted_later now x q : StronglySorted in_turn (x :: q) → now < om_eligible (pe_order x) →
  Forall (λ y, now < om_eligible (pe_order y)) (x :: q).
Proof.
  intros Hs Hx. inversion Hs as [|? ? _ Hq]; subst. constructor; [done|]. eapply Forall_impl; [exact Hq|].
  intros y Hy. unfold in_turn, runs_before in Hy. rewrite orb_false_iff, Z.ltb_ge in Hy. lia.
Qed.

(** The state in which the first order of the queue is processed. *)
Definition popped (e : engine) (x : pending_entry) : engine := (note_day_order (pe_order x) (set_en_pending (tail (en_pending e)) e)).2.
Lemma popped_keeps e x : en_out (popped e x) = en_out e ∧ en_pending (popped e x) = tail (en_pending e) ∧ en_stops (popped e x) = en_stops e ∧
  en_halt (popped e x) = en_halt e ∧ en_cfg (popped e x) = en_cfg e ∧ en_seq (popped e x) = en_seq e.
Proof. unfold popped, note_day_order, when. by case_bool_decide. Qed.
Lemma drain_loop_eq n now (e : engine) : drain_loop log_ (Datatypes.S n) now e =
  match due now e with
  | None => (Ret (), e)
  | Some x =>
      match process_order log_ (pe_order x) (popped e x) with
      | (Ret true, e2) => drain_loop log_ n now e2
      | (Ret false, e2) => (Ret (), e2)
      | (Throw w, e2) => (Throw w, e2)
      end
  end.
Proof.
  cbn [drain_loop]. unfold mbind, E_bind, gets, pop_pending, modify. destruct (due now e) as [x|]; [|done].
  unfold popped, note_day_order, when. case_bool_decide; cbn; by destruct (process_order _ _ _) as [[[|]|]].
Qed.
Lemma typed_tail (e e' : engine) : en_cfg e' = en_cfg e → en_stops e' = en_stops e → en_pending e' = tail (en_pending e) → typed cfg e → typed cfg e'.
Proof.
  intros E0 E1 E2 [H0 H1 H2 H3]. split; rewrite ?E0, ?E1, ?E2; [done|done|by apply Forall_tail|].
  destruct (en_pending e); [done|]. by inversion H3.
Qed.

Lemma none_drained now (e : engine) : typed cfg e → due (Some now) e = None → drained now e e.
Proof.
  intros Ht Hd. split; [done|done|]. exists [], (en_pending e). split_and!; [done|done|constructor|exists []; split; [by rewrite app_nil_r|done]|].
  unfold due in Hd. pose proof (ty_order _ _ Ht) as Ho. destruct (en_pending e) as [|x q]; [by right; constructor|].
  destruct (Z.leb_spec (om_eligible (pe_order x)) now); [|right; by apply sorted_later]. left. unfold stopped_at.
  destruct (en_halt_req e), (en_halt e); auto; done.
Qed.
Lemma due_first now (e : engine) x : due (Some now) e = Some x → ∃ q, en_pending e = x :: q ∧ om_eligible (pe_order x) <= now ∧ en_halt e = false.
Proof.
  unfold due. intros Hd. destruct (en_pending e) as [|y q]; [done|]. destruct (Z.leb_spec (om_eligible (pe_order y)) now) as [Hle|]; [|done].
  destruct (en_halt_req e); [done|]. destruct (en_halt e); [done|]. injection Hd as ->. by exists q.
Qed.
Lemma drain_loop_drains now : ∀ n (e : engine), typed cfg e → length (en_pending e) = n → (drain_loop log_ n (Some now) e).1 = Ret () →
  drained now e (drain_loop log_ n (Some now) e).2.
Proof.
  induction n as [|n IH]; intros e Ht Hn E1.
  { change (drained now e e). apply none_drained; [done|]. unfold due. destruct (en_pending e); [done|discriminate Hn]. }
  rewrite drain_loop_eq in *. destruct (due (Some now) e) as [x|] eqn:Hd; [|by apply none_drained].
  destruct (popped_keeps e x) as (P1 & P2 & P3 & P4 & P5 & P6). apply due_first in Hd as (q & Eq & Hle & Eh).
  assert (typed cfg (popped e x)) as Htp by by apply (typed_tail e). rewrite Eq in P2, Hn. rewrite Eh in P4. cbn [tail] in P2.
  assert (om_is_stop (pe_order x) = false) as Hs. { pose proof (ty_pending _ _ Ht) as Hp. rewrite Eq in Hp. by apply Forall_cons_1 in Hp as [Hp _]. }
  destruct (process_order_asks _ Hs (popped e x) Htp I) as (Ht2 & (l0 & O2 & _ & Q2 & T2 & S2 & _)%moved_both & Ha).
  pose proof (process_decides (pe_order x) (popped e x)) as Hdec.
  destruct (process_order log_ (pe_order x) (popped e x)) as [[b|w] e2]; cbn [fst snd] in *; [|done].
  specialize (Hdec b Htp Hs P4 eq_refl). rewrite P1 in Hdec, O2. rewrite P2 in Q2. rewrite P6 in S2. destruct Hdec as (l & El & Hl). destruct b.
  - destruct (IH e2 Ht2) as [Ht3 S3 (served & rest & R1 & R2 & R3 & (l2 & R4 & R5) & R6)]; [rewrite Q2; cbn in Hn; lia|done|].
    split; [done|by rewrite S3|]. exists (x :: served), rest. rewrite Q2 in R1. split_and!; [by rewrite Eq, R1|done|by constructor| |done].
    exists (l ++ l2). split; [by rewrite R4, El, app_assoc|]. by exists l, l2.
  - split; [done|done|]. exists [x], q. split_and!; [by rewrite Eq|done|by apply Forall_singleton|exists l; split; [done|]|].
    + exists l, []. by rewrite app_nil_r.
    + left. left. exact (Ha false eq_refl eq_refl).
Qed.
Lemma stopped_drains_nothing n now (e : engine) : stopped_at e → drain_loop log_ n now e = (Ret (), e).
Proof.
  intros Hs. destruct n as [|n]; [done|]. rewrite drain_loop_eq. assert (due now e = None) as ->; [|done].
  unfold due. destruct (en_pending e); [done|]. destruct Hs as [-> | ->]; destruct now as [t|]; cbn; rewrite ?andb_false_r; try done; by destruct (en_halt_req e).
Qed.

(** *** Arrivals and drains

    The specification knows orders only: one that arrives goes behind those of its
    time or an earlier one, and before those of a later time. *)

Definition fifo_insert (o : order_msg) (q : list order_msg) : list order_msg :=
  filter (λ y, om_eligible y <= om_eligible o) q ++ o :: filter (λ y, om_eligible o < om_eligible y) q.
Lemma push_fifo x q : StronglySorted in_turn q → Forall (λ y, pe_seq y < pe_seq x) q →
  pe_order <$> pq_push x q = fifo_insert (pe_order x) (pe_order <$> q).
Proof.
  intros Hq. induction Hq as [|y q Hq IH Hy]; intros Hs; [done|]. apply Forall_cons_1 in Hs as [Hs Hss]. cbn [pq_push].
  destruct (runs_before x y) eqn:Er; unfold fifo_insert; rewrite !fmap_cons.
  - assert (Forall (λ z, om_eligible (pe_order x) < om_eligible z) (pe_order <$> y :: q)) as Hall.
    { apply Forall_fmap. eapply Forall_impl; [apply sorted_later; [by constructor|]|by intros z; cbn]. 
      unfold runs_before in Er. rewrite orb_true_iff, andb_true_iff, !Z.ltb_lt, Z.eqb_eq in Er. lia. }
    rewrite fmap_cons in Hall. rewrite (filter_all (λ z, om_eligible (pe_order x) < om_eligible z)) by by apply Forall_forall.
    rewrite filter_none; [done|]. intros z Hz Hle. rewrite Forall_forall in Hall. specialize (Hall z Hz). cbn in Hall, Hle. lia.
  - unfold runs_before in Er. rewrite orb_false_iff, andb_false_iff, !Z.ltb_ge, Z.eqb_neq in Er.
    rewrite filter_cons_True, (filter_cons_False (λ z, om_eligible (pe_order x) < om_eligible z)) by lia. rewrite IH by done. done.
Qed.

Inductive turn := t_queue (o : order_msg) | t_drain (now : time_point).
Definition take_turn (t : turn) : E unit := match t with t_queue o => enqueue o | t_drain now => drain_pending log_ (Some now) end.
Definition take_turns (ts : list turn) : E unit := clear_pending_state;; for_each take_turn ts.
Definition queues_stop (t : turn) : bool := match t with t_queue o => om_is_stop o | t_drain _ => false end.

(** The orders [q] wait; [ts] happens, with the outputs [l], and [q'] wait.  [stopped]: the
    engine stops on the way. *)
Inductive serves (stopped : Prop) : list order_msg → list turn → list output → list order_msg → Prop :=
  | sv_done q : serves stopped q [] [] q
  | sv_queue o q ts l q' : serves stopped (fifo_insert o q) ts l q' → serves stopped q (t_queue o :: ts) l q'
  | sv_drain now served rest ts l1 l2 q' :
      Forall (λ o, om_eligible o <= now) served → served_in_order served l1 →
      stopped ∨ Forall (λ o, now < om_eligible o) rest →
      serves stopped rest ts l2 q' → serves stopped (served ++ rest) (t_drain now :: ts) (l1 ++ l2) q'.

Record numbered (left : Z) (e : engine) : Prop := {
  nb_low : 0 <= en_seq e;
  nb_high : en_seq e + left < 2 ^ 64;
  nb_fresh : Forall (λ x, pe_seq x < en_seq e) (en_pending e) }.

Lemma stopped_turns ts : ∀ e : engine, stopped_at e → stopped_at (for_each take_turn ts e).2.
Proof.
  induction ts as [|[o|now] ts IH]; intros e Hs; [done|..]; cbn [for_each take_turn].
  - unfold mbind at 1, E_bind at 1, enqueue, modify. by apply IH.
  - unfold mbind at 1, E_bind at 1, drain_pending. unfold mbind at 1, E_bind at 1, gets. rewrite stopped_drains_nothing by done. by apply IH.
Qed.
Lemma turns_serve ts : ∀ e : engine, typed cfg e → numbered (Z.of_nat (length ts)) e → Forall (λ t, queues_stop t = false) ts →
  (for_each take_turn ts e).1 = Ret () → let e' := (for_each take_turn ts e).2 in
  ∃ l, en_out e' = en_out e ++ l ∧ serves (stopped_at e') (pe_order <$> en_pending e) ts l (pe_order <$> en_pending e').
Proof.
  induction ts as [|t ts IH]; intros e Ht [N1 N2 N3] Hst; cbv zeta.
  { intros _. exists []. split; [by rewrite app_nil_r|apply sv_done]. }
  apply Forall_cons_1 in Hst as [Hst Hsts]. cbn [length] in N2. destruct t as [o|now]; cbn [for_each take_turn].
  - unfold mbind, E_bind, enqueue, modify. set (x := {| pe_order := o; pe_seq := en_seq e |}).
    set (e1 := set_en_pending _ _). intros Er. destruct (IH e1) as (l & O1 & H1); [..|done|done|].
    + destruct Ht as [H0 H1 H2 H3]. split; [done|done|by apply pq_push_forall|by apply pq_push_sorted].
    + assert (en_seq e1 = en_seq e + 1) as Es. { unfold e1. cbn. unfold wrapu. rewrite Z.mod_small; lia. }
      split; rewrite ?Es; [lia|lia|]. apply pq_push_forall; [cbn; lia|]. eapply Forall_impl; [exact N3|]. intros y Hy. cbn in Hy |- *. lia.
    + exists l. split; [done|]. apply sv_queue. rewrite <- (push_fifo x) by (done || apply Ht). exact H1.
  - unfold mbind at 1 3, E_bind at 1 3. intros Er.
    pose proof (drain_loop_drains now _ e Ht eq_refl) as Hd. unfold drain_pending, mbind, E_bind, gets in *.
    destruct (drain_loop log_ _ (Some now) e) as [[[]|w] e1]; cbn [fst snd] in *; [|done].
    destruct (Hd eq_refl) as [Ht1 S1 (served & rest & R1 & R2 & R3 & (l1 & O1 & R5) & R6)].
    destruct (IH e1 Ht1) as (l2 & O2 & H2); [|done|done|].
    { split; rewrite ?S1; [done|lia|]. rewrite R2. rewrite R1 in N3. by apply Forall_app in N3 as [_ N3]. }
    exists (l1 ++ l2). split; [by rewrite O2, O1, app_assoc|]. rewrite R1, fmap_app. apply sv_drain; [by apply Forall_fmap|done| |by rewrite R2 in H2].
    destruct R6 as [R6|R6]; [left; by apply stopped_turns|right; by apply Forall_fmap].
Qed.

(** ** Orders that wait *)

(** Nothing is sent, and what is new in the queue may run only after [ts]. *)
Definition parks (ts : time_point) (e e' : engine) : Prop :=
  (∃ l, en_out e' = en_out e ++ l ∧ Forall (λ x, match x with out_submit _ _ | out_publish (ev_order _) => False | _ => True end) l) ∧
  ∀ x, x ∈ en_pending e' → x ∈ en_pending e ∨ om_eligible (pe_order x) = ts + 1.
Lemma parks_silent ts e e' : en_out e' = en_out e → (∀ x, x ∈ en_pending e' → x ∈ en_pending e ∨ om_eligible (pe_order x) = ts + 1) → parks ts e e'.
Proof. intros E1 E2. split; [exists []; split; [by rewrite app_nil_r|constructor]|done]. Qed.
Lemma parks_emit ts o e : match o with out_submit _ _ | out_publish (ev_order _) => False | _ => True end → parks ts e (emitted o e).
Proof. intros Ho. split; [exists [o]; split; [done|by apply Forall_singleton]|by left]. Qed.
Lemma parks_trans ts e1 e2 e3 : parks ts e1 e2 → parks ts e2 e3 → parks ts e1 e3.
Proof.
  intros [(l1 & O1 & F1) Q1] [(l2 & O2 & F2) Q2]. split.
  - exists (l1 ++ l2). split; [by rewrite O2, O1, app_assoc|by apply Forall_app].
  - intros x [Hx|Hx]%Q2; [by apply Q1|by right].
Qed.
Lemma parks_halt ts r e : parks ts e (halted_with r e).
Proof. split; [exists [out_halt r]; split; [done|by apply Forall_singleton]|by left]. Qed.
#[local] Instance parks_flow ts : Flow log_ cfg (both (parks ts)).
Proof.
  split; [split|..].
  - intros e. apply parks_silent; [done|by left].
  - apply parks_trans.
  - intros e e' Hq. apply parks_silent; [apply Hq|]. rewrite (qu_pending _ _ Hq). by left.
  - intros o e Ho. apply parks_emit. by destruct o as [|[]| | |].
  - done.
  - apply parks_trans.
  - intros e r _. apply parks_halt.
  - intros e r _ _. apply parks_halt.
  - intros e a _. apply parks_silent; [done|by left].
  - intros e s p. apply parks_silent; [done|by left].
Qed.
Lemma pq_push_in x y q : y ∈ pq_push x q → y = x ∨ y ∈ q.
Proof.
  induction q as [|z q IH]; cbn [pq_push]; [by intros ->%list_elem_of_singleton; left|]. destruct (runs_before x z).
  - intros [->|H]%elem_of_cons; [by left|by right].
  - intros [->|H]%elem_of_cons; [right; by left|]. destruct (IH H); [by left|right; by right].
Qed.
Lemma route_parks o ts : cf_latency_model cfg = false → 0 < cf_execution_bar_delay cfg → pres cfg (both (parks ts)) (route_order log_ o ts false).
Proof.
  intros Hl Hd. unfold route_order. cbv zeta. do 2 (apply pres_bind; [exact _|walk|intros [|]; [unfold request_halt; walk|]]).
  do 4 (apply pres_bind; [exact _|walk|intros ?]).
  destruct (negb _); [walk|]. destruct (om_is_stop _) eqn:Es.
  { apply pres_bind; [exact _|walk|intros _]. apply pres_bind; [exact _|intros e Ht _|intros ?; walk]. split_and!; [|by apply parks_silent; [|left]|done].
    destruct Ht as [H0 H1 H2 H3]. split; [done| |done|done]. apply Forall_app. by repeat constructor. }
  apply pres_cfg. rewrite Hl. apply Z.ltb_lt in Hd. rewrite Hd. apply pres_bind; [exact _|walk|intros _]. apply pres_bind; [exact _|intros e Ht _|intros ?; walk]. split_and!; [| |done].
  - destruct Ht as [H0 H1 H2 H3]. split; [done|done|by apply pq_push_forall|by apply pq_push_sorted].
  - apply parks_silent; [done|]. intros y [->|Hy]%pq_push_in; [by right|by left].
Qed.
Lemma next_bar_later base ts b : ts + 1 <= resolve_bar_ts base (Some ts) b.
Proof.
  unfold resolve_bar_ts, one_ms. destruct (Z.ltb_spec ts (mm_ts (hb_msg b))).
  - destruct (negb _); cbn [andb]; [lia|]. destruct (hb_date b) as [d|]; [destruct (Z.ltb_spec ts d)|]; lia.
  - rewrite andb_false_r. destruct (hb_date b) as [d|]; [destruct (Z.ltb_spec ts d)|]; lia.
Qed.

(** ** Stops *)

Lemma stops_loop_eq op high low mid ts kept o todo (e : engine) : stops_loop log_ op high low mid ts kept (o :: todo) e =
  if en_halt_req e || en_halt e then (Ret (), e) else
  if stop_triggered high low o then
    match fire_stop log_ op mid ts o e with
    | (Ret true, e1) => stops_loop log_ op high low mid ts kept todo (set_en_stops (kept ++ todo) e1)
    | (Ret false, e1) => (Ret (), e1)
    | (Throw w, e1) => (Throw w, e1)
    end
  else stops_loop log_ op high low mid ts (kept ++ [o]) todo e.
Proof.
  cbn [stops_loop]. unfold mbind, E_bind, gets, modify. destruct (en_halt_req e || en_halt e); [done|].
  destruct (stop_triggered _ _ _); [|done]. by destruct (fire_stop _ _ _ _ _ _) as [[[|]|]].
Qed.

(** What a stop waits for: a bar that trades at its price or beyond. *)
Definition reached (high low : num) (o : order_msg) : Prop :=
  match om_side o with
  | side_buy => (om_stop_price o <=? high)%num = true
  | side_sell => (low <=? om_stop_price o)%num = true
  | side_raw _ => False
  end.
#[export] Instance reached_dec high low o : Decision (reached high low o).
Proof. unfold reached. destruct (om_side o); apply _. Defined.
Lemma triggered_reached high low o : stop_triggered high low o = bool_decide (reached high low o).
Proof.
  unfold stop_triggered. symmetry. destruct (bool_decide_reflect (reached high low o)) as [Hr|Hr]; unfold reached in Hr;
    destruct (om_side o); rewrite ?bool_decide_eq_true_2, ?bool_decide_eq_false_2 by done; cbn [andb orb negb]; try done.
  - by rewrite Hr.
  - apply not_true_is_false in Hr. by rewrite Hr.
  - by apply not_true_is_false in Hr.
Qed.
(** The price it trades at: its own, or the open of a bar that gapped beyond it. *)
Definition trades_at (op : num) (o : order_msg) (price : num) : Prop :=
  match om_side o with
  | side_buy => price = if (om_stop_price o <=? op)%num then op else om_stop_price o
  | side_sell => price = if (op <=? om_stop_price o)%num then op else om_stop_price o
  | side_raw _ => False
  end.
(** The order it becomes. *)
Record replaces (ts : time_point) (o o' : order_msg) : Prop := {
  rp_symbol : om_symbol o' = om_symbol o;
  rp_side : om_side o' = om_side o;
  rp_quantity : om_quantity o' = om_quantity o;
  rp_id : om_id o' = om_id o;
  rp_strategy : om_strategy o' = om_strategy o;
  rp_opener : om_opener o' = om_opener o;
  rp_times : om_ts o' = ts ∧ om_eligible o' = ts ∧ om_recv_ns o' = om_recv_ns o;
  rp_terms : (om_type o = ot_stop ∧ om_type o' = ot_market ∧ om_price o' = om_stop_price o ∧ om_tif o' = tif_ioc) ∨
             (om_type o ≠ ot_stop ∧ om_type o' = ot_limit ∧ om_price o' = om_price o ∧ om_tif o' = om_tif o) }.
Lemma converted_replaces ts o : replaces ts o (converted ts o).
Proof.
  unfold converted. case_bool_decide as Hty; cbn [om_set_eligible om_set_recv_ns om_set_opener om_set_strategy om_set_id mk_order_msg].
  - split; try done. by left.
  - split; try done. right. split_and!; try done. cbn. by rewrite andb_false_r.
Qed.
(** Between [e] and [e'] the order of the stop was decided, with the middle price at
    what the stop trades at. *)
Definition fired (op : num) (ts : time_point) (o : order_msg) (e e' : engine) : Prop :=
  ∃ o' e1 l1 l2 l3, replaces ts o o' ∧ trades_at op o (en_mid e1) ∧ (process_order log_ o' e1).1 = Ret true ∧
    en_out e1 = en_out e ++ l1 ∧ en_out (process_order log_ o' e1).2 = en_out e1 ++ l2 ∧ decided o' l2 ∧ en_out e' = en_out e ++ l1 ++ l2 ++ l3.
Lemma fired_within op ts o e0 e1 e2 e3 l l' : en_out e1 = en_out e0 ++ l → en_out e3 = en_out e2 ++ l' → fired op ts o e1 e2 → fired op ts o e0 e3.
Proof.
  intros O1 O3 (o' & d & l1 & l2 & l3 & H1 & H2 & H3 & H4 & H5 & H6 & H7). exists o', d, (l ++ l1), l2, (l3 ++ l').
  split_and!; [done..| |done|done|]; [by rewrite H4, O1, app_assoc|]. by rewrite O3, H7, O1, <- !app_assoc.
Qed.

(** A stop that fires: the middle price is put back, and its order is decided or the
    engine stops. *)
Definition fire_body (op mid : num) (ts : time_point) (o : order_msg) : E bool :=
  c ← gets en_cfg;
  when (negb (n_eqb (stop_reference op o) mid)) (recenter log_ (om_symbol o) (stop_reference op o) false (cf_mm_worker c) ts);;
  acquire_pooled order_pool;; note_day_order (converted ts o);; process_order log_ (converted ts o).
Lemma fire_stop_eq op mid ts o (e : engine) : fire_stop log_ op mid ts o e =
  match fire_body op mid ts o (set_en_mid (stop_reference op o) e) with
  | (Ret b, e1) => (Ret b, set_en_mid mid e1) | (Throw w, e1) => (Throw w, e1) end.
Proof.
  unfold fire_stop, fire_body. cbv zeta. unfold mbind, E_bind, gets, modify. change (en_cfg (set_en_mid _ e)) with (en_cfg e). cbn [mret E_ret].
  destruct (when _ _ _) as [[]]; [|done]. destruct (acquire_pooled _ _) as [[]]; [|done]. destruct (note_day_order _ _) as [[]]; [|done].
  by destruct (process_order _ _ _) as [[]].
Qed.
Lemma reference_trades_at high low op o : reached high low o → trades_at op o (stop_reference op o).
Proof. unfold reached, trades_at, stop_reference. destruct (om_side o); [by rewrite bool_decide_eq_true_2|by rewrite bool_decide_eq_false_2|done]. Qed.
Lemma fire_stop_fires high low op mid ts o (e : engine) b : typed cfg e → reached high low o → (fire_stop log_ op mid ts o e).1 = Ret b →
  let e' := (fire_stop log_ op mid ts o e).2 in
  typed cfg e' ∧ en_mid e' = mid ∧ en_stops e' = en_stops e ∧ since (en_out e) (λ _, True) e' ∧ (if b then fired op ts o e e' else stopped_at e').
Proof.
  intros Ht Hr. rewrite fire_stop_eq. set (e0 := set_en_mid _ e). pose proof (converted_not_stop ts o) as Hs.
  set (holds := λ e1 : engine, since (en_out e) (λ _, True) e1 ∧ en_mid e1 = stop_reference op o).
  assert (∀ e1 e2, holds e1 → sends (λ _, True) e1 e2 → holds e2) as Hst.
  { intros e1 e2 [K1 K2] K. split; [by eapply since_stable|]. destruct K as (? & _ & _ & _ & _ & _ & ->). done. }
  assert (steps cfg sends_any holds (fire_body op mid ts o) (λ (b : bool) e', if b then fired op ts o e e' else stopped_at e')) as H.
  { unfold fire_body. do 4 (eapply steps_bind; [exact _|apply (stable_steps _ holds _ Hst); walk|intros ?]).
    intros e1 Ht1 [(l1 & O1 & _) Em]. destruct (process_order_asks _ Hs e1 Ht1 I) as (K1 & K2 & K3). split_and!; [done..|].
    intros [|] Eb; [|left; exact (K3 false Eb eq_refl)]. pose proof (process_true_running _ _ Eb) as Hh.
    destruct (process_decides _ _ _ Ht1 Hs Hh Eb) as (l2 & O2 & Hl). exists (converted ts o), e1, l1, l2, [].
    split_and!; [apply converted_replaces|rewrite Em; by eapply reference_trades_at|done..|by rewrite O2, O1, app_nil_r, app_assoc]. }
  destruct (H e0) as (H1 & H2%moved_both & H3); [by apply (typed_same cfg e)|split; [apply (since_start e)|done]|].
  destruct (fire_body op mid ts o e0) as [[b'|w] e1]; cbn [fst snd] in *; [|done]. intros [= ->]. specialize (H3 b eq_refl).
  destruct H2 as (l & O2 & _ & _ & T2 & _). split_and!; [by apply (typed_same cfg e1)|done|done|by exists l|]. by destruct b.
Qed.

(** The stops are passed over in their order, the rest being left when the engine stops. *)
Definition passes (op high low : num) (ts : time_point) (todo : list order_msg) (kept : list order_msg) (e e' : engine) : Prop :=
  ∃ seen rest, todo = seen ++ rest ∧ en_stops e' = kept ++ filter (λ o, ¬ reached high low o) seen ++ rest ∧
    (∀ o, o ∈ seen → reached high low o → fired op ts o e e') ∧ (stopped_at e' ∨ rest = []).
Lemma stops_loop_spec op high low mid ts todo : ∀ kept (e : engine), typed cfg e → en_stops e = kept ++ todo → en_mid e = mid →
  (stops_loop log_ op high low mid ts kept todo e).1 = Ret () →
  let e' := (stops_loop log_ op high low mid ts kept todo e).2 in
  en_mid e' = mid ∧ since (en_out e) (λ _, True) e' ∧ passes op high low ts todo kept e e'.
Proof.
  induction todo as [|o todo IH]; intros kept e Ht Es Em E1; cbv zeta.
  { split_and!; [done|apply since_start|]. exists [], []. split_and!; [done|done|by intros ? ?%elem_of_nil|by right]. }
  rewrite stops_loop_eq in *. destruct (en_halt_req e || en_halt e) eqn:Eh.
  { split_and!; [done|apply since_start|]. exists [], (o :: todo). split_and!; [done|done|by intros ? ?%elem_of_nil|].
    left. unfold stopped_at. by apply orb_true_iff in Eh. }
  rewrite triggered_reached in *. case_bool_decide as Hr.
  - pose proof (fire_stop_fires high low op mid ts o e) as Hf. destruct (fire_stop log_ op mid ts o e) as [[b|w] e1]; [|done].
    destruct (Hf b Ht Hr eq_refl) as (Ht1 & Em1 & T1 & (l & O1 & _) & Hb). cbn [snd] in *.
    destruct b; [|cbn [snd] in *; split_and!; [done|by exists l|]; exists [], (o :: todo); split_and!; [done|rewrite T1; exact Es|by intros ? ?%elem_of_nil|by left]].
    destruct (IH kept (set_en_stops (kept ++ todo) e1)) as (H1 & (l2 & O2 & _) & seen & rest & R1 & R2 & R3 & R4); [|done|done|done|].
    { destruct Ht as [G0 G1 G2 G3], Ht1 as [K0 K1 K2 K3]. split; [done| |done|done]. rewrite Es in G1. cbn [en_stops set_en_stops].
      apply Forall_app in G1 as [G1 [_ G4]%Forall_cons_1]. by apply Forall_app. }
    cbn [en_out set_en_stops] in O2. split_and!; [done|exists (l ++ l2); split; [by rewrite O2, O1, app_assoc|done]|]. exists (o :: seen), rest.
    split_and!; [by rewrite R1|rewrite R2, filter_cons_False; [done|tauto]| |done]. intros z [->|Hz]%elem_of_cons Hzr.
    + by eapply (fired_within op ts o e e e1 _ []); [rewrite app_nil_r|..].
    + by eapply (fired_within op ts z e (set_en_stops (kept ++ todo) e1) _ _ l []); [..|rewrite app_nil_r|apply R3].
  - destruct (IH (kept ++ [o]) e) as (H1 & H2 & seen & rest & R1 & R2 & R3 & R4); [done|by rewrite <- app_assoc|done|done|]. split_and!; [done..|].
    exists (o :: seen), rest. split_and!; [by rewrite R1|rewrite R2, filter_cons_True by done; by rewrite <- app_assoc| |done].
    intros z [->|Hz]%elem_of_cons Hzr; [done|by apply R3].
Qed.
End Orders.

Section Claims.
Context {A : Arith} {HO : HashOrder} {MO : MultiOrder} {S : Type} {SI : IStrategy S} {W : Type} {XW : Execution W} (log_ : num → num).
#[local] Abbreviation engine := (@EngineState.engine A S W).

(** C6: the gate in front of every adapter.  An order that the halt, the venue's check
    or the risk manager does not clear in the state it meets them is not announced
    and not submitted (only orders that flatten positions may follow), and unless the
    engine had halted a rejection with its id is published; one that is cleared is
    announced and submitted; the queues are left alone, and the answer [false] comes
    with a request to halt. *)
Theorem order_gate o (e : engine) : typed (en_cfg e) e → om_is_stop o = false →
  let r := process_order log_ o e in
  ∃ l, en_out r.2 = en_out e ++ l ∧ en_pending r.2 = en_pending e ∧ en_stops r.2 = en_stops e ∧
    (if cleared e o then ∀ b, r.1 = Ret b → sent_in o l
     else Forall withheld l ∧ (en_halt e = false → ∀ b, r.1 = Ret b → rejected_in o l)) ∧
    (r.1 = Ret false → en_halt_req r.2 = true).
Proof.
  intros Ht Hs r. destruct (process_order_asks log_ (en_cfg e) o Hs e Ht I) as (_ & (l & O1 & _ & Q1 & T1 & _)%moved_both & Ha). fold r in O1, Q1, T1, Ha.
  destruct (cleared e o) eqn:Ec.
  - exists l. split_and!; [done..| |intros Eb; exact (Ha false Eb eq_refl)]. intros b Eb.
    destruct (cleared_sent log_ (en_cfg e) o e b Ht Hs Ec Eb) as (l' & O2 & Hl). fold r in O2. rewrite O1 in O2. by apply app_inv_head in O2 as ->.
  - destruct (refused_withheld log_ (en_cfg e) o e Ht Ec) as [(l' & O2 & F2 & _) Hr]. fold r in O2, Hr.
    exists l. assert (l' = l) as -> by (apply (app_inv_head (en_out e)); congruence). split_and!; [done..| |intros Eb; exact (Ha false Eb eq_refl)].
    intros Hh b Eb. destruct (Hr Hh b Eb) as (l' & O3 & H3). rewrite O1 in O3. by apply app_inv_head in O3 as ->.
Qed.

(** C13: orders wait their turn.  From a cleared queue, let orders arrive and drains take
    place in any sequence (fewer than 2^64 of them).  The queue is then at all times
    the one in which each arrival went behind the orders of its own time or an
    earlier one, and before those of a later time; a drain serves a prefix of it, the
    orders of which are eligible by then, one after the other, each sent or rejected
    before the next; and unless the engine stopped on the way, what a drain leaves is
    for later. *)
Theorem pending_served_in_turn ts (e : engine) : Z.of_nat (length ts) < 2 ^ 64 → Forall (λ t, queues_stop t = false) ts →
  (take_turns log_ ts e).1 = Ret () → let e' := (take_turns log_ ts e).2 in
  ∃ l, en_out e' = en_out e ++ l ∧ serves (stopped_at e') [] ts l (pe_order <$> en_pending e').
Proof.
  intros Hl Hst Er e'. unfold take_turns in *. unfold mbind, E_bind, clear_pending_state, modify in *. cbn [fst snd] in *.
  set (e1 := set_en_day_orders _ _) in *. destruct (turns_serve log_ (en_cfg e) ts e1) as (l & O1 & H1); [..|done|done|by exists l].
  - split; [done|constructor..].
  - split; [done|done|constructor].
Qed.

(** no order sees the bar it was decided on.  With the execution delay of a
    backtest, routing a strategy's order at a bar's time sends nothing at all: it
    waits under the next nanosecond, which no drain at that bar's time takes, and
    which the time of every next bar of a history, however its dates are given,
    reaches. *)
Theorem delayed_orders_wait o ts (e : engine) : typed (en_cfg e) e → cf_latency_model (en_cfg e) = false →
  0 < cf_execution_bar_delay (en_cfg e) →
  parks ts e (route_order log_ o ts false e).2 ∧
  (∀ x, x ∈ en_pending (route_order log_ o ts false e).2 → x ∉ en_pending e →
     ts < om_eligible (pe_order x) ∧ ∀ base b, om_eligible (pe_order x) <= resolve_bar_ts base (Some ts) b).
Proof.
  intros Ht Hl Hd. destruct (route_parks log_ (en_cfg e) o ts Hl Hd e Ht I) as (_ & Hp%moved_both & _). split; [done|].
  intros x Hx Hn. destruct Hp as [_ Hq]. destruct (Hq x Hx) as [H|H]; [done|]. split; [lia|]. intros base b. rewrite H. apply next_bar_later.
Qed.

(** C14: stops.  A check of the stops against a bar passes over them in their order and
    puts the middle price back.  A buy stop the bar's high reaches and a sell stop its
    low reaches is taken out and becomes an order of its side, size, id, strategy and
    opener, at market for a stop and at its limit for a stop-limit, which is sent or
    rejected while the middle price is the stop's own, or the bar's open where that
    lies beyond it; the others stay, in their order.  Only when the engine stops on
    the way is a rest of them left unseen. *)
Theorem stops_fire_or_wait op high low ts (e : engine) : typed (en_cfg e) e → (check_pending_stops log_ op high low ts e).1 = Ret () →
  let e' := (check_pending_stops log_ op high low ts e).2 in
  en_mid e' = en_mid e ∧ ∃ seen rest, en_stops e = seen ++ rest ∧ en_stops e' = filter (λ o, ¬ reached high low o) seen ++ rest ∧
    (∀ o, o ∈ seen → reached high low o → fired log_ op ts o e e') ∧ (stopped_at e' ∨ rest = []).
Proof.
  intros Ht E1. by destruct (stops_loop_spec log_ (en_cfg e) op high low (en_mid e) ts (en_stops e) [] e Ht eq_refl eq_refl E1) as (H1 & _ & H2).
Qed.

(** C40: an exit that fires while the engine is paused is lost.  Evaluating the exits
    of a paused engine takes the fired ones out of the exit manager, as the pass over
    them leaves it, and sends nothing, rejects nothing and remembers nothing of
    them. *)
Theorem pause_swallows_exits (scan_exits : ExitManager → list close_order * ExitManager) ns ts (e : engine) :
  en_halt e = false → en_pause e = true →
  evaluate_exits_with log_ scan_exits ns ts e = (Ret false, set_en_exits (scan_exits (en_exits e)).2 e).
Proof.
  intros Hh Hp. unfold evaluate_exits_with. unfold mbind, E_bind, gets, modify.
  assert (∀ cs (e : engine), en_halt e = false → en_pause e = true → route_closes log_ ns ts cs e = (Ret false, e)) as H; [|by apply H].
  clear e Hh Hp. induction cs as [|c cs IH]; intros e Hh Hp; cbn [route_closes]; [done|].
  unfold mbind at 1, E_bind at 1, with_local at 1, route_order at 1. unfold mbind at 1, E_bind at 1, gets at 1.
  change (en_halt (set_en_halt_req false e)) with (en_halt e). rewrite Hh. unfold mbind at 1, E_bind at 1, gets at 1.
  change (en_pause (set_en_halt_req false e)) with (en_pause e). rewrite Hp. cbn [mret E_ret]. cbn. rewrite IH by done. by destruct e.
Qed.

(** a replayed log counts its fills twice.  Replaying a recorded fill shows it to
    the statistics and not to the portfolio, which gets the fill the strategy's
    regenerated order makes. *)
Theorem replay_counts_twice f (e : engine) : is_threaded (en_cfg e) = false →
  let e' := (replay_event log_ (ev_fill f) e).2 in
  en_portfolio e' = en_portfolio e ∧ en_analytics e' = an_on_fill f (en_analytics e).
Proof.
  intros Hc. assert (cf_threading (en_cfg e) = inline_mode) as Hi.
  { unfold is_threaded in Hc. by destruct (cf_threading (en_cfg e)). }
  unfold replay_event, publish_event. unfold mbind, E_bind, gets, out, modify. cbn. rewrite Hi. cbn. by rewrite Hc.
Qed.
End Claims.
