(* ===== verification/EngineExamples.v ===== *)
(** * A small market

    A paper world and a scripted strategy, on which the engine runs: the adapter
    fills a market order at once at the middle price, and the strategy emits the
    orders of a list, one per bar. *)

From Stdlib Require Import Sorting.Sorted QArith.
From S2P Require Import Prelude Float64 Event Bridge NodeHeap OrderBook Arith Portfolio Sizing Risk Exits ExitPolicy.
From S2P Require Import ClientOrderId Indicators EngineEvents Analytics AnalyticsTheorems Trackers EngineState Engine EngineLoop EngineLogic EngineRuns EngineTheorems.
From S2P Require Import EngineOrders.

Open Scope string_scope.
Open Scope list_scope.
Open Scope Z_scope.

#[local] Existing Instance exact_arith.
#[local] Abbreviation num := (@Arith.num exact_arith).

(** ** The world *)

Record paper := { pw_next : Z; pw_clock : Z; pw_mid : num; pw_fills : list fill_msg }.
Definition pw_with_fills (fs : list fill_msg) (w : paper) : paper :=
  {| pw_next := pw_next w; pw_clock := pw_clock w; pw_mid := pw_mid w; pw_fills := fs |}.

Definition fill_at (price : num) (o : order_msg) : fill_msg :=
  {| fm_ts := om_eligible o; fm_symbol := om_symbol o; fm_order_id := om_id o; fm_side := om_side o; fm_quantity := om_quantity o;
     fm_price := price; fm_commission := 0%Q; fm_remaining := 0%Q; fm_fill_id := om_id o; fm_source := src_simulated;
     fm_strategy := ""; fm_opener := 0; fm_recv_ns := 0; fm_latency_ns := 0 |}.

#[local] Instance paper_execution : Execution paper := {|
  ad_new _ _ w := (Ret 7, w);
  ad_is_async _ _ := false;
  ad_set_mid_price _ p w := {| pw_next := pw_next w; pw_clock := pw_clock w; pw_mid := p; pw_fills := pw_fills w |};
  ad_set_l2_seeded _ _ w := w;
  ad_submit _ o w := (Ret (), if bool_decide (om_type o = ot_market) then pw_with_fills (pw_fills w ++ [fill_at (pw_mid w) o]) w else w);
  ad_poll_fills _ w := (pw_fills w, pw_with_fills [] w);
  ad_cancel _ _ w := (Ret false, w);
  ad_modify _ _ _ _ w := (Ret false, w);
  ad_advance _ _ w := (Ret (), w);
  ad_on_trade _ _ _ _ _ w := w;
  ad_on_l2_snapshot _ _ _ _ w := w;
  ad_on_l2_update _ _ _ _ _ w := w;
  ad_on_book_trades _ _ _ w := w;
  ad_sweep _ _ _ _ _ w := (Ret false, w);
  ad_poll_results _ w := ([], w);
  ad_poll_meta _ w := ([], w);
  bk_get_or_create _ w := (Ret (), w);
  bk_replenish _ _ _ w := (Ret [], w);
  bk_cancel_in _ _ w := (Ret (), w);
  bk_l2_snapshot _ _ _ w := (Ret (), w);
  bk_l2_update _ _ _ _ w := (Ret (), w);
  w_next_id w := (pw_next w, {| pw_next := pw_next w + 1; pw_clock := pw_clock w; pw_mid := pw_mid w; pw_fills := pw_fills w |});
  bk_add_maker_order _ w := (Ret [], w);
  bk_reset w := w;
  w_now w := (pw_clock w, w);
  w_steady_ns w := (pw_clock w, w);
  w_order_latency w := (0, w);
  w_ring_push _ _ w := (true, w);
  w_acquire _ w := (None, w);
  w_maker_orders w := ([], w);
  w_worker_failed _ := false;
  w_instrument _ _ := None;
  w_on_mid_price _ _ w := w |}.

(** ** The strategy *)

Definition script_strategy (on_fill : fill_msg → exc unit) : IStrategy (list (option order_msg)) := {|
  st_on_market _ s := match s with [] => (Ret None, []) | o :: s => (Ret o, s) end;
  st_on_tick _ s := match s with [] => (Ret None, []) | o :: s => (Ret o, s) end;
  st_on_l2_update _ _ _ _ s := (Ret None, s);
  st_set_position_open _ _ s := (Ret (), s);
  st_on_fill f _ s := (on_fill f, s);
  st_take_pending_exit_intents s := (Ret [], s) |}.
#[local] Instance scripted : IStrategy (list (option order_msg)) := script_strategy (λ _, Ret ()).
(** One whose table of symbols is full when its first fill comes. *)
Definition overfull : IStrategy (list (option order_msg)) := script_strategy (λ _, Throw "SymbolTable capacity exceeded").

(** ** The engine *)

Definition paper_config (delay : Z) (stop_pct : num) : engine_config := {|
  cf_mode := mode_backtest; cf_provider := None; cf_threading := inline_mode; cf_drop_policy := drop_allow; cf_risk_unwind := true;
  cf_risk_check := None; cf_latency_model := false; cf_execution_bar_delay := delay;
  cf_exit_defaults := {| mode := mode_floor; sl_pct := stop_pct; tp_pct := 0%Q; trail_pct := 0%Q |};
  cf_maker_queue := false; cf_event_logger := true; cf_mm_worker := false; cf_overrides := ∅; cf_initial_balance := (1000 # 1)%Q;
  cf_primary_name := "s"; cf_extra_names := [] |}.

Definition boot (delay : Z) (stop_pct : num) (limits : risk_limits) (script : list (option order_msg)) : engine (A := exact_arith) (S := list (option order_msg)) (W := paper) := {|
  en_cfg := paper_config delay stop_pct; en_portfolio := mk_portfolio (1000 # 1)%Q; en_risk := mk_RiskManager limits; en_exits := mk_ExitManager;
  en_tracker := ∅; en_analytics := fresh_stats; en_adverse := mk_adverse 0 0; en_shadow := None;
  en_exchange_portfolio := None; en_exchange_analytics := None; en_stops := []; en_pending := []; en_seq := 0; en_day_orders := [];
  en_cancels := ∅; en_meta := ∅; en_adapters := ∅; en_specs := ∅; en_l2_seeded := ∅; en_mid := 0%Q; en_mark_symbol := "";
  en_halt := false; en_pause := false; en_flatten := false; en_drops := ∅; en_strategy := Some script; en_extras := [];
  en_world := {| pw_next := 1; pw_clock := 0; pw_mid := 0%Q; pw_fills := [] |}; en_out := []; en_count := 0; en_halt_req := false |}.

Lemma boot_typed delay pct limits script : typed (paper_config delay pct) (boot delay pct limits script).
Proof. split; [done|constructor..]. Qed.

(** ** A day *)

Definition no_vol (x : num) : num := no_log x.

Definition an_order (side : order_side) (q price : num) : order_msg := mk_order_msg 0 "BTC" ot_market side q price tif_gtc.
(** Buy two, wait, sell them at half the price: the loss is beyond the day's limit, so
    that the order of the last bar never leaves. *)
Definition losing_script : list (option order_msg) :=
  [Some (an_order side_buy (2 # 1) (100 # 1)); None; Some (an_order side_sell (2 # 1) (50 # 1)); None; Some (an_order side_buy (1 # 1) (50 # 1))]%Q.
Definition losing_day : list input :=
  [in_bar (a_bar 1000 (100 # 1)); in_bar (a_bar 2000 (100 # 1)); in_bar (a_bar 3000 (50 # 1)); in_bar (a_bar 4000 (50 # 1));
   in_bar (a_bar 5000 (50 # 1)); in_bar (a_bar 6000 (50 # 1))]%Q.
Definition loser : engine (A := exact_arith) (S := list (option order_msg)) (W := paper) := boot 1 0%Q sample_limits losing_script.

Definition log_of (l : list output) : list engine_event := omap (λ o, match o with out_log e => Some e | _ => None end) l.

(** The day, its trace and what is left. *)
Definition day_end : engine (A := exact_arith) (S := list (option order_msg)) (W := paper) := (stream no_vol losing_day loser).2.

Lemma halt_is_terminal_witness : en_halt day_end = true ∧
  ∃ l, en_out day_end = l ∧ ∀ l1 reason l2, l = l1 ++ out_halt reason :: l2 → ∀ h o, out_submit h o ∈ l2 → om_strategy o = "risk_unwind".
Proof.
  split; [vm_compute; reflexivity|].
  destruct (halt_is_terminal no_vol losing_day loser) as (l & E1 & _ & H); [apply boot_typed|reflexivity|].
  exists l. split; [exact E1|]. intros l1 r l2 El. destruct (H l1 r l2 El) as (_ & _ & H3). by apply H3.
Defined.

Lemma queues_stay_typed_witness : typed (paper_config 1 0%Q) (stream no_vol (take 1 losing_day) loser).2 ∧
  length (en_pending (stream no_vol (take 1 losing_day) loser).2) = 1%nat.
Proof.
  split; [|vm_compute; reflexivity]. destruct (queues_stay_typed no_vol (take 1 losing_day) loser) as [H _]; [apply boot_typed|exact H].
Defined.

Definition fills_in (l : list output) : nat := length (omap (λ o, match o with out_publish (ev_fill f) => Some f | _ => None end) l).
Definition broken_day : exc unit * engine (A := exact_arith) (S := list (option order_msg)) (W := paper) := stream (SI := overfull) no_vol losing_day loser.
(** On the losing day two fills are published and booked; with a strategy that throws
    from its fill callback, one is booked and none is published. *)
Lemma portfolio_replays_trace_witness :
  (total_fills_ (en_portfolio day_end) = 2 ∧ fills_in (en_out day_end) = 2%nat ∧
   en_portfolio day_end = foldl booked (en_portfolio loser) (en_out day_end)) ∧
  (total_fills_ (en_portfolio broken_day.2) = 1 ∧ fills_in (en_out broken_day.2) = 0%nat ∧
   ∃ f, en_portfolio broken_day.2 = booked (foldl booked (en_portfolio loser) (en_out broken_day.2)) (out_publish (ev_fill f))).
Proof.
  split; (split; [vm_compute; reflexivity|split; [vm_compute; reflexivity|]]).
  - destruct (portfolio_replays_trace no_vol losing_day loser) as (l & E1 & E2); [apply boot_typed|].
    change (en_out loser) with (@nil (@output exact_arith)) in E1. cbn [app] in E1. unfold day_end. rewrite E1.
    assert ((stream no_vol losing_day loser).1 = Ret ()) as Er by (vm_compute; reflexivity). by rewrite Er in E2.
  - destruct (portfolio_replays_trace (SI := overfull) no_vol losing_day loser) as (l & E1 & E2); [apply boot_typed|].
    fold broken_day in E1, E2. change (en_out loser) with (@nil (@output exact_arith)) in E1. cbn [app] in E1. rewrite E1.
    assert (broken_day.1 = Throw "SymbolTable capacity exceeded") as Er by (vm_compute; reflexivity). rewrite Er in E2.
    destruct E2 as [E2|E2]; [|exact E2]. exfalso. rewrite <- E1 in E2. apply (f_equal total_fills_) in E2. vm_compute in E2. discriminate E2.
Defined.

Lemma engine_accounts_agree_witness : agrees (en_portfolio day_end) (an_ledger (en_analytics day_end)) ∧ (cash_ (en_portfolio day_end) == 900 # 1)%Q.
Proof.
  split; [|vm_compute; reflexivity]. destruct (engine_accounts_agree no_vol losing_day loser) as (l & E1 & H).
  - apply boot_typed.
  - split_and!; [reflexivity..|]. intros sym. split_and!; [reflexivity..|]. by left.
  - apply H; [vm_compute; reflexivity|]. change (en_out loser) with (@nil (@output exact_arith)) in E1. cbn [app] in E1. rewrite <- E1. clear E1 H.
    vm_compute. repeat split; try done. intros _. right. left. reflexivity.
Defined.

Definition in_queue : engine (A := exact_arith) (S := list (option order_msg)) (W := paper) := (stream no_vol (take 1 losing_day) loser).2.
Definition first_order : order_msg := om_set_eligible 1001 (om_set_id 1 (om_set_strategy "s" (an_order side_buy (2 # 1) (100 # 1))))%Q.
Lemma in_queue_typed : typed (en_cfg in_queue) in_queue.
Proof. apply stream_typed, boot_typed. Qed.
Lemma order_gate_witness : cleared in_queue first_order = true ∧ ∃ l, en_out (process_order no_vol first_order in_queue).2 = en_out in_queue ++ l ∧ sent_in first_order l.
Proof.
  split; [vm_compute; reflexivity|]. destruct (order_gate no_vol first_order in_queue) as (l & E1 & _ & _ & H & _).
  - apply in_queue_typed.
  - reflexivity.
  - exists l. split; [exact E1|]. change (cleared in_queue first_order) with true in H. apply (H true). vm_compute. reflexivity.
Defined.

(** Four orders arrive, the second for an earlier time than the first, the third for the
    same time and the fourth for a later one: the second, the first and the third are
    served, the third being rejected for the two orders of its minute, and the
    fourth waits. *)
Definition queued (id eligible : Z) : order_msg := om_set_eligible eligible (om_set_id id (an_order side_buy (1 # 10) (100 # 1)))%Q.
Definition five_turns : list turn := [t_queue (queued 11 300); t_queue (queued 12 100); t_queue (queued 13 300); t_queue (queued 14 400); t_drain 300].
Definition decisions (l : list output) : list (Z * bool) :=
  omap (λ o, match o with out_publish (ev_order o) => Some (om_id o, true) | out_publish (ev_rejection _ _ id _) => Some (id, false) | _ => None end) l.
Lemma pending_served_in_turn_witness : decisions (en_out (take_turns no_vol five_turns loser).2) = [(12, true); (11, true); (13, false)] ∧
  om_id <$> (pe_order <$> en_pending (take_turns no_vol five_turns loser).2) = [14] ∧
  ∃ l, en_out (take_turns no_vol five_turns loser).2 = l ∧
    serves (stopped_at (take_turns no_vol five_turns loser).2) [] five_turns l (pe_order <$> en_pending (take_turns no_vol five_turns loser).2).
Proof.
  split; [vm_compute; reflexivity|]. split; [vm_compute; reflexivity|].
  destruct (pending_served_in_turn no_vol five_turns loser) as (l & E1 & H); [reflexivity|repeat constructor|vm_compute; reflexivity|].
  exists l. split; [exact E1|exact H].
Defined.

Lemma delayed_orders_wait_witness :
  let e := (route_order no_vol (an_order side_buy (2 # 1) (100 # 1))%Q 1000 false loser).2 in
  parks 1000 loser e ∧ om_eligible <$> (pe_order <$> en_pending e) = [1001].
Proof.
  cbv zeta. split; [|vm_compute; reflexivity].
  destruct (delayed_orders_wait no_vol (an_order side_buy (2 # 1) (100 # 1))%Q 1000 loser) as [H _]; [apply boot_typed|reflexivity|reflexivity|exact H].
Defined.

(** Two stops wait; the bar falls through the first. *)
Definition a_stop (level : num) : order_msg := om_set_levels (1 # 1)%Q 0%Q level (mk_order_msg 0 "BTC" ot_stop side_sell (1 # 1)%Q 0%Q tif_gtc).
Definition two_stops : engine (A := exact_arith) (S := list (option order_msg)) (W := paper) :=
  (stream no_vol (take 2 losing_day) (boot 0 0%Q sample_limits [Some (a_stop (90 # 1)%Q); Some (a_stop (40 # 1)%Q)])).2.
Lemma stops_fire_or_wait_witness :
  let e' := (check_pending_stops no_vol (80 # 1)%Q (85 # 1)%Q (70 # 1)%Q 3000 two_stops).2 in
  om_stop_price <$> en_stops two_stops = [90 # 1; 40 # 1]%Q ∧ om_stop_price <$> en_stops e' = [40 # 1]%Q ∧ en_mid e' = en_mid two_stops ∧
  ∃ o, head (en_stops two_stops) = Some o ∧ fired no_vol (80 # 1)%Q 3000 o two_stops e'.
Proof.
  cbv zeta. split; [vm_compute; reflexivity|]. split; [vm_compute; reflexivity|].
  destruct (stops_fire_or_wait no_vol (80 # 1)%Q (85 # 1)%Q (70 # 1)%Q 3000 two_stops) as (H1 & seen & rest & R1 & R2 & R3 & R4);
    [apply stream_typed, boot_typed|vm_compute; reflexivity|].
  split; [exact H1|]. eexists. split; [vm_compute; reflexivity|]. destruct R4 as [[R4|R4]|R4]; [exfalso; vm_compute in R4; discriminate R4..|].
  rewrite R4, app_nil_r in R1. apply R3; [rewrite <- R1; vm_compute; by left|]. vm_compute. reflexivity.
Defined.

Definition px90 : num := (90 # 1)%Q.
(** A long with a stop one percent below; the engine is paused and the price falls. *)
Definition paused : engine (A := exact_arith) (S := list (option order_msg)) (W := paper) :=
  (stream no_vol (take 2 losing_day ++ [in_pause true]) (boot 1 (1 # 100)%Q sample_limits losing_script)).2.
Lemma pause_swallows_exits_witness :
  co_quantity <$> (on_price "BTC" px90 3000 (en_exits paused)).1 = [2 # 1]%Q ∧
  armed_ (on_price "BTC" px90 3000 (en_exits paused)).2 = [] ∧ position_open "BTC" (en_portfolio paused) = true ∧
  evaluate_exits_with no_vol (on_price "BTC" px90 3000) 0 3000 paused =
    (Ret false, set_en_exits (on_price "BTC" px90 3000 (en_exits paused)).2 paused).
Proof.
  split; [vm_compute; reflexivity|]. split; [vm_compute; reflexivity|]. split; [vm_compute; reflexivity|].
  apply (pause_swallows_exits no_vol (on_price "BTC" px90 3000) 0 3000 paused); vm_compute; reflexivity.
Defined.

(** The log of a day with one purchase, replayed with the same strategy: the
    statistics hold twice what the portfolio holds. *)
Definition one_buy : engine (A := exact_arith) (S := list (option order_msg)) (W := paper) := boot 1 0%Q sample_limits (take 2 losing_script).
Lemma replay_counts_twice_witness :
  let logged := log_of (en_out (stream no_vol (take 4 losing_day) one_buy).2) in
  let e' := (run_replay no_vol logged one_buy).2 in
  (qty (position_at "BTC" (en_portfolio e')) == 2 # 1)%Q ∧ (op_qty (position_of "BTC" (an_ledger (en_analytics e'))) == 4 # 1)%Q ∧
  ∀ f, en_portfolio (replay_event no_vol (ev_fill f) one_buy).2 = en_portfolio one_buy.
Proof.
  cbv zeta. split; [vm_compute; reflexivity|]. split; [vm_compute; reflexivity|]. intros f.
  destruct (replay_counts_twice no_vol f one_buy) as [H _]; [reflexivity|exact H].
Defined.
