(* ===== verification/StateStore.v ===== *)
(** * Per-symbol state of a strategy (src/src/strategy/symbol_state_store.h)

    A strategy keeps one state per symbol in a vector indexed by the interned id.
    [on_slot] is the use every handler makes of it: get the slot, made by the factory
    when it is new, run, and leave the changed state in place.  [store_refines_map]:
    the store is a map from symbols to states, up to the 256 symbols of its table. *)

From S2P Require Import Prelude Symbols.

Open Scope string_scope.
Open Scope list_scope.
Open Scope Z_scope.

Section Store.
Context {State : Type} (factory_ : State).

Record SymbolStateStore := { st_table : SymbolTable; st_slots : list (option State) }.
Definition mk_store : SymbolStateStore := {| st_table := mk_SymbolTable; st_slots := [] |}.

Definition ensure_state_slot (id : Z) (slots : list (option State)) : list (option State) :=
  slots ++ replicate (Z.to_nat (id + 1) - length slots) None.
Definition emplace_state (id : Z) (slots : list (option State)) : list (option State) :=
  match slots !! Z.to_nat id with Some None => <[Z.to_nat id := Some factory_]> slots | _ => slots end.

(** [get]: the state, the interned symbol and the id. *)
Definition store_get (symbol : string) (s : SymbolStateStore) : exc (State * string * Z) * SymbolStateStore :=
  match intern_id symbol (st_table s) with
  | (Throw why, t) => (Throw why, {| st_table := t; st_slots := st_slots s |})
  | (Ret id, t) =>
      let slots := emplace_state id (ensure_state_slot id (st_slots s)) in
      let s' := {| st_table := t; st_slots := slots |} in
      match slots !! Z.to_nat id, resolve id t with
      | Some (Some x), Ret sym => (Ret (x, sym, id), s')
      | _, Throw why => (Throw why, s')
      | _, _ => (Throw "bad optional access", s')
      end
  end.
(** Writing through the returned reference. *)
Definition store_put (id : Z) (x : State) (s : SymbolStateStore) : SymbolStateStore :=
  {| st_table := st_table s; st_slots := <[Z.to_nat id := Some x]> (st_slots s) |}.

(** [find] and [find_mut] *)
Definition store_find (symbol : string) (s : SymbolStateStore) : option State :=
  let id := id_of symbol (st_table s) in
  if (id =? kInvalidId) || (Z.of_nat (length (st_slots s)) <=? id) then None else mjoin (st_slots s !! Z.to_nat id).
Definition store_clear (s : SymbolStateStore) : SymbolStateStore := mk_store.
Definition store_size (s : SymbolStateStore) : nat := symbol_count (st_table s).

Definition on_slot {X} (symbol : string) (f : State → string → X * State) (s : SymbolStateStore) : exc X * SymbolStateStore :=
  match store_get symbol s with
  | (Throw why, s') => (Throw why, s')
  | (Ret (x, sym, id), s') => let r := f x sym in (Ret r.1, store_put id r.2 s')
  end.

(** ** The store is a map *)

Record store_ok (s : SymbolStateStore) : Prop := {
  so_table : table_ok (st_table s);
  so_length : length (st_slots s) = length (symbols_ (st_table s));
  so_full : ∀ i, (i < length (st_slots s))%nat → ∃ x, st_slots s !! i = Some (Some x) }.
Record holds (s : SymbolStateStore) (m : gmap string State) : Prop := {
  ho_ok : store_ok s;
  ho_size : store_size s = size m;
  ho_find : ∀ sym, store_find sym s = m !! sym }.

Lemma store_ok_new : holds mk_store ∅.
Proof. split; [split; [apply table_ok_new|done|cbn; lia]|done|]. intros sym. by rewrite lookup_empty. Qed.

Lemma store_find_index s sym : store_ok s →
  store_find sym s = match index_ (st_table s) !! sym with Some id => mjoin (st_slots s !! Z.to_nat id) | None => None end.
Proof.
  intros [[Hi Hs] Hl Hf]. unfold store_find, id_of. destruct (index_ (st_table s) !! sym) as [id|] eqn:E; cbn [default from_option Datatypes.id].
  - apply Hi in E as [H0 E]. apply lookup_lt_Some in E. unfold kInvalidId, kMaxSymbols in *.
    destruct (Z.eqb_spec id 65535); [lia|]. destruct (Z.leb_spec (Z.of_nat (length (st_slots s))) id); [lia|]. done.
  - by rewrite Z.eqb_refl.
Qed.

(** What [get] does, on a symbol it knows and on a new one. *)
Lemma store_get_spec s m sym : holds s m →
  match store_get sym s with
  | (Throw why, s') => why = "symbol table full" ∧ m !! sym = None ∧ Z.of_nat (size m) = kMaxSymbols ∧ holds s' m
  | (Ret (x, sym', id), s') => x = default factory_ (m !! sym) ∧ sym' = sym ∧ holds s' (<[sym := x]> m) ∧
      index_ (st_table s') !! sym = Some id
  end.
Proof.
  intros [Hok Hsize Hm]. pose proof (so_table s Hok) as Ht. pose proof (intern_id_ok sym (st_table s) Ht) as Hi.
  pose proof (Hm sym) as Hsym. rewrite store_find_index in Hsym by done.
  unfold store_get. destruct (intern_id sym (st_table s)) as [[id|why] t'] eqn:Eint.
  - destruct Hi as (Ht' & Hlen & Hid & Hother & Hcase).
    pose proof Hid as Hres. apply (tk_index t' Ht') in Hres as [H0 Hres].
    assert (resolve id t' = Ret sym) as -> by (unfold resolve; by rewrite Hres).
    destruct Hcase as [Hold|[Hnew ->]].
    + (* known *)
      assert (t' = st_table s) as -> by (unfold intern_id in Eint; rewrite Hold in Eint; congruence).
      rewrite Hold in Hsym. apply lookup_lt_Some in Hres as Hlt. rewrite <- (so_length s Hok) in Hlt.
      destruct (so_full s Hok (Z.to_nat id) Hlt) as [x Hx]. rewrite Hx in Hsym. cbn in Hsym.
      assert (emplace_state id (ensure_state_slot id (st_slots s)) = st_slots s) as Eslots.
      { unfold ensure_state_slot, emplace_state. replace (Z.to_nat (id + 1) - length (st_slots s))%nat with 0%nat by lia.
        cbn [replicate]. rewrite app_nil_r. by rewrite Hx. }
      rewrite Eslots, Hx, <- Hsym. split_and!; try done. rewrite insert_id by done. destruct s. by split.
    + (* new *)
      rewrite Hnew in Hsym. rewrite <- Hsym. cbn [default from_option].
      assert (t' = {| symbols_ := symbols_ (st_table s) ++ [sym]; index_ := <[sym := Z.of_nat (length (symbols_ (st_table s)))]> (index_ (st_table s)) |})
        as Et.
      { unfold intern_id in Eint. rewrite Hnew in Eint. case_match; [done|]. injection Eint as Eid <-. by rewrite Eid. }
      set (n := length (symbols_ (st_table s))) in *. pose proof (so_length s Hok) as Hlen'. fold n in Hlen'.
      assert (emplace_state (Z.of_nat n) (ensure_state_slot (Z.of_nat n) (st_slots s)) = st_slots s ++ [Some factory_]) as Eslots.
      { unfold ensure_state_slot, emplace_state. replace (Z.to_nat (Z.of_nat n + 1) - length (st_slots s))%nat with 1%nat by lia.
        rewrite Nat2Z.id. cbn [replicate]. rewrite lookup_app_r, Hlen', Nat.sub_diag by lia. cbn.
        rewrite insert_app_r_alt, Hlen', Nat.sub_diag by lia. done. }
      rewrite Eslots, Nat2Z.id, lookup_app_r, Hlen', Nat.sub_diag by lia. cbn [lookup list_lookup].
      assert (store_ok {| st_table := t'; st_slots := st_slots s ++ [Some factory_] |}) as Hok'.
      { split; cbn [st_table st_slots]; [done|rewrite Et; cbn; rewrite !length_app; cbn; lia|].
        intros i Hi. rewrite length_app in Hi. cbn in Hi. destruct (decide (i < n)%nat) as [Hlt|Hge].
        - rewrite lookup_app_l by lia. apply (so_full s Hok). lia.
        - replace i with n by lia. exists factory_. by rewrite lookup_app_r, Hlen', Nat.sub_diag by lia. }
      split_and!; try done. split; [done| |].
      { unfold store_size, symbol_count in *. cbn [st_table]. rewrite Et. cbn [symbols_]. rewrite length_app, map_size_insert_None by done. cbn. lia. }
      intros s'. rewrite store_find_index by done. cbn [st_table st_slots].
      destruct (decide (s' = sym)) as [->|Hne].
      * rewrite Hid, lookup_insert_eq, Nat2Z.id, lookup_app_r, Hlen', Nat.sub_diag by lia. done.
      * rewrite Hother, lookup_insert_ne, <- (Hm s'), store_find_index by done.
        destruct (index_ (st_table s) !! s') as [id|] eqn:Es; [|done]. apply (tk_index _ Ht) in Es as [_ Es].
        apply lookup_lt_Some in Es. by rewrite lookup_app_l by lia.
  - destruct Hi as (_ & _ & -> & Hnone & Hfull). rewrite Hnone in Hsym. split_and!; [|done|rewrite <- Hsize; exact Hfull|destruct s; by split].
    unfold intern_id in Eint. rewrite Hnone in Eint. by case_match; simplify_eq.
Qed.

Lemma on_slot_spec {X} s m sym (f : State → string → X * State) :
  holds s m → (m !! sym = None → Z.of_nat (size m) < kMaxSymbols) →
  let r := f (default factory_ (m !! sym)) sym in
  ∃ s', on_slot sym f s = (Ret r.1, s') ∧ holds s' (<[sym := r.2]> m).
Proof.
  intros H Hroom. pose proof (store_get_spec s m sym H) as Hg. unfold on_slot.
  destruct (store_get sym s) as [[[[x sym'] id]|why] s'].
  - destruct Hg as (-> & -> & [Hok Hsize Hm] & Hid). eexists. split; [done|].
    set (y := (f (default factory_ (m !! sym)) sym).2).
    assert (∀ s2, index_ (st_table s') !! s2 = Some id → s2 = sym) as Hinj.
    { intros s2 H2. apply (tk_index _ (so_table s' Hok)) in H2 as [_ H2]. apply (tk_index _ (so_table s' Hok)) in Hid as [_ Hid]. congruence. }
    pose proof (tk_index _ (so_table s' Hok) sym id) as [[H0 Hlt]%(λ g, g Hid) _]. apply lookup_lt_Some in Hlt.
    rewrite <- (so_length s' Hok) in Hlt.
    assert (store_ok (store_put id y s')) as Hok'.
    { destruct Hok as [T1 T2 T3]. split; cbn [store_put st_table st_slots]; rewrite ?length_insert; [done..|].
      intros i Hi. destruct (decide (i = Z.to_nat id)) as [->|Hne]; [eexists; by apply list_lookup_insert_eq|].
      rewrite list_lookup_insert_ne by done. by apply T3. }
    split; [done| |].
    { change (store_size s' = size (<[sym := y]> m)). rewrite Hsize, !map_size_insert. done. }
    intros s2. rewrite store_find_index by done. cbn [store_put st_table st_slots].
    destruct (decide (s2 = sym)) as [->|Hne].
    + by rewrite Hid, lookup_insert_eq, list_lookup_insert_eq by done.
    + rewrite lookup_insert_ne by done. specialize (Hm s2). rewrite lookup_insert_ne, store_find_index in Hm by done. rewrite <- Hm.
      destruct (index_ (st_table s') !! s2) as [id2|] eqn:E2; [|done]. rewrite list_lookup_insert_ne; [done|].
      intros Heq. apply (tk_index _ (so_table s' Hok)) in E2 as E2'. apply Hne, Hinj.
      destruct E2' as [H02 _]. assert (id2 = id) as -> by lia. done.
  - destruct Hg as (_ & Hn & Hs & _). specialize (Hroom Hn). lia.
Qed.

(** ** Runs *)

(** Handlers on symbols, one after the other: on the store and on a map. *)
Fixpoint run_store {X} (ops : list (string * (State → string → X * State))) (s : SymbolStateStore) : list (exc X) * SymbolStateStore :=
  match ops with
  | [] => ([], s)
  | (sym, f) :: ops => let r := on_slot sym f s in let rs := run_store ops r.2 in (r.1 :: rs.1, rs.2)
  end.
Fixpoint run_map {X} (ops : list (string * (State → string → X * State))) (m : gmap string State) : list X * gmap string State :=
  match ops with
  | [] => ([], m)
  | (sym, f) :: ops =>
      let r := f (default factory_ (m !! sym)) sym in
      let rs := run_map ops (<[sym := r.2]> m) in (r.1 :: rs.1, rs.2)
  end.

Lemma run_store_spec {X} (ops : list (string * (State → string → X * State))) s m :
  holds s m → Z.of_nat (size (dom m ∪ list_to_set ops.*1 : gset string)) <= kMaxSymbols →
  (run_store ops s).1 = Ret <$> (run_map ops m).1 ∧ holds (run_store ops s).2 (run_map ops m).2.
Proof.
  revert s m. induction ops as [|[sym f] ops IH]; intros s m H Hsize; [done|]. cbn [run_store run_map].
  destruct (on_slot_spec s m sym f H) as (s' & E & H').
  { intros Hnone. apply not_elem_of_dom in Hnone as Hn. rewrite <- size_dom. cbn [fmap list_fmap fst list_to_set] in Hsize.
    assert (size (dom m) < size (dom m ∪ ({[sym]} ∪ list_to_set ops.*1) : gset string))%nat; [|lia].
    apply subset_size. set_solver. }
  rewrite E. cbn [fst snd fmap list_fmap]. destruct (IH s' _ H') as [IH1 IH2]; [|by rewrite IH1].
  rewrite dom_insert_L. cbn [fmap list_fmap fst list_to_set] in Hsize. by rewrite (comm_L (∪) {[sym]}), <- (assoc_L (∪)).
Qed.

(** The store is a map from symbols to states: over any sequence of handlers on at most 256
    symbols, every handler sees the state its last visit of the symbol left, or a fresh one
    from the factory, and the symbol itself; it never throws, and in the end the store finds
    for every symbol what the map has for it. *)
Theorem store_refines_map {X} (ops : list (string * (State → string → X * State))) :
  Z.of_nat (size (list_to_set ops.*1 : gset string)) <= kMaxSymbols →
  (run_store ops mk_store).1 = Ret <$> (run_map ops ∅).1 ∧
  ∀ sym, store_find sym (run_store ops mk_store).2 = (run_map ops ∅).2 !! sym.
Proof.
  intros H. destruct (run_store_spec ops mk_store ∅ store_ok_new) as [H1 [_ _ H2]]; [|done]. by rewrite dom_empty_L, (left_id_L ∅ (∪)).
Qed.
End Store.

(** Counting visits: a second visit of a symbol sees the first. *)
Definition visit (n : nat) (sym : string) : string * nat := (sym +:+ pretty n, S n).
Lemma store_refines_map_witness :
  (run_store 0%nat [("BTC", visit); ("ETH", visit); ("BTC", visit)] mk_store).1 = [Ret "BTC0"; Ret "ETH0"; Ret "BTC1"].
Proof.
  destruct (store_refines_map 0%nat [("BTC", visit); ("ETH", visit); ("BTC", visit)]) as [H _]; [by vm_compute|]. rewrite H. by vm_compute.
Defined.
