(* ===== verification/Strategies.v ===== *)
(** * The simpler strategies (src/src/strategy)

    sma.cpp, sma_strategy, ma_crossover_strategy, larry_connor_strategy and
    hedge_demo_strategy.  A strategy is a record of its data members; each handler
    returns the order it emits and the new state.  Those that keep their state in a
    [SymbolStateStore] can throw when its table is full.  The others are instances of
    the interface the engine calls. *)

From S2P Require Import Prelude Float64 Event Arith Portfolio Sizing Exits Indicators Symbols EngineEvents EngineState StateStore.

Open Scope string_scope.
Open Scope list_scope.
Open Scope Z_scope.

Section Strategies.
Context {A : Arith}.

(** [static_cast<std::size_t>] of a parameter that is not negative. *)
Definition size_of_num (x : num) : nat := Z.to_nat (n_llround (n_floor x)).
(** [map[key]] of a map of flags. *)
Definition flag (sym : string) (m : gmap string bool) : bool := default false (m !! sym).

(** ** sma.cpp: signals of one average *)

Record sma_signals := { sg_sma : simple_moving_average; sg_open : bool }.
Definition mk_sma_signals (period : nat) : sma_signals := {| sg_sma := mk_sma period; sg_open := false |}.
(** The side of the signal. *)
Definition sma_signals_on_market (m : market_msg) (s : sma_signals) : option signal_type * sma_signals :=
  let r := sma_update (mm_close m) (sg_sma s) in
  let s' := {| sg_sma := r.2; sg_open := sg_open s |} in
  match r.1 with
  | None => (None, s')
  | Some v =>
      if negb (sg_open s) && (mm_close m >? v)%num then (Some sig_buy, s')
      else if sg_open s && (mm_close m <? v)%num then (Some sig_sell, s') else (None, s')
  end.
Definition sma_signals_set_position_open (open : bool) (s : sma_signals) : sma_signals := {| sg_sma := sg_sma s; sg_open := open |}.

(** ** sma_strategy *)

Record sma_strategy := {
  sx_period : nat;
  sx_fill_style : Z;
  sx_smas : gmap string simple_moving_average;
  sx_open : gmap string bool }.
Definition mk_sma_strategy (period : nat) : sma_strategy := {| sx_period := period; sx_fill_style := 0; sx_smas := ∅; sx_open := ∅ |}.

Definition order_type_for_fill_style (style : Z) : order_type := if style =? 1 then ot_limit else ot_market.
(** Orders are for a hundred units at the close. *)
Definition signal_order (m : market_msg) (style : Z) (side : order_side) : order_msg :=
  mk_order_msg (mm_ts m) (mm_symbol m) (order_type_for_fill_style style) side (n_lit 100 1) (mm_close m) tif_gtc.

Definition sma_on_market (m : market_msg) (s : sma_strategy) : option order_msg * sma_strategy :=
  let sym := mm_symbol m in
  let r := sma_update (mm_close m) (default (mk_sma (sx_period s)) (sx_smas s !! sym)) in
  let put open := {| sx_period := sx_period s; sx_fill_style := sx_fill_style s; sx_smas := <[sym := r.2]> (sx_smas s); sx_open := open |} in
  match r.1 with
  | None => (None, put (sx_open s))
  | Some v =>
      let is_open := flag sym (sx_open s) in
      if negb is_open && (mm_close m >? v)%num
      then (Some (signal_order m (sx_fill_style s) side_buy), put (<[sym := true]> (sx_open s)))
      else if is_open && (mm_close m <? v)%num
      then (Some (signal_order m (sx_fill_style s) side_sell), put (<[sym := false]> (sx_open s)))
      else (None, put (sx_open s))
  end.
Definition sma_set_position_open (sym : string) (open : bool) (s : sma_strategy) : sma_strategy :=
  {| sx_period := sx_period s; sx_fill_style := sx_fill_style s; sx_smas := sx_smas s; sx_open := <[sym := open]> (sx_open s) |}.

(** [static_cast<int>(value)], checked to be 0 or 1. *)
Definition fill_style_of (value : num) : exc Z :=
  if (value <=? - n_one)%num || (value >=? n_lit 2 1)%num then Throw "fill_style must be 0 or 1"
  else Ret (if (value >=? n_one)%num then 1 else 0).
Definition sma_set_param (key : string) (value : num) (s : sma_strategy) : exc sma_strategy :=
  if bool_decide (key = "period")
  then Ret {| sx_period := size_of_num value; sx_fill_style := sx_fill_style s; sx_smas := ∅; sx_open := sx_open s |}
  else if bool_decide (key = "fill_style")
  then v ← fill_style_of value;
       Ret {| sx_period := sx_period s; sx_fill_style := v; sx_smas := sx_smas s; sx_open := sx_open s |}
  else Throw ("Unknown parameter: " +:+ key).

(** ** ma_crossover_strategy *)

Record ma_crossover_strategy := {
  mx_fast_period : nat;
  mx_slow_period : nat;
  mx_fill_style : Z;
  mx_fast : gmap string simple_moving_average;
  mx_slow : gmap string simple_moving_average;
  mx_open : gmap string bool;
  mx_prev_above : gmap string bool }.
Definition mk_ma_crossover (fast slow : nat) : ma_crossover_strategy :=
  {| mx_fast_period := fast; mx_slow_period := slow; mx_fill_style := 0; mx_fast := ∅; mx_slow := ∅; mx_open := ∅; mx_prev_above := ∅ |}.

Definition ma_on_market (m : market_msg) (s : ma_crossover_strategy) : option order_msg * ma_crossover_strategy :=
  let sym := mm_symbol m in
  let f := sma_update (mm_close m) (default (mk_sma (mx_fast_period s)) (mx_fast s !! sym)) in
  let w := sma_update (mm_close m) (default (mk_sma (mx_slow_period s)) (mx_slow s !! sym)) in
  let put open prev :=
    {| mx_fast_period := mx_fast_period s; mx_slow_period := mx_slow_period s; mx_fill_style := mx_fill_style s;
       mx_fast := <[sym := f.2]> (mx_fast s); mx_slow := <[sym := w.2]> (mx_slow s); mx_open := open; mx_prev_above := prev |} in
  match f.1, w.1 with
  | Some fast_val, Some slow_val =>
      let fast_above := (fast_val >? slow_val)%num in
      let is_open := flag sym (mx_open s) in
      let prev := <[sym := fast_above]> (mx_prev_above s) in
      match mx_prev_above s !! sym with
      | None => (None, put (mx_open s) prev)
      | Some was_above =>
          if negb is_open && fast_above && negb was_above
          then (Some (signal_order m (mx_fill_style s) side_buy), put (<[sym := true]> (mx_open s)) prev)
          else if is_open && negb fast_above && was_above
          then (Some (signal_order m (mx_fill_style s) side_sell), put (<[sym := false]> (mx_open s)) prev)
          else (None, put (mx_open s) prev)
      end
  | _, _ => (None, put (mx_open s) (mx_prev_above s))
  end.
Definition ma_set_position_open (sym : string) (open : bool) (s : ma_crossover_strategy) : ma_crossover_strategy :=
  {| mx_fast_period := mx_fast_period s; mx_slow_period := mx_slow_period s; mx_fill_style := mx_fill_style s; mx_fast := mx_fast s;
     mx_slow := mx_slow s; mx_open := <[sym := open]> (mx_open s); mx_prev_above := mx_prev_above s |}.
Definition ma_set_param (key : string) (value : num) (s : ma_crossover_strategy) : exc ma_crossover_strategy :=
  let put fp sp style fast slow :=
    {| mx_fast_period := fp; mx_slow_period := sp; mx_fill_style := style; mx_fast := fast; mx_slow := slow; mx_open := mx_open s;
       mx_prev_above := mx_prev_above s |} in
  if bool_decide (key = "fast_period") then Ret (put (size_of_num value) (mx_slow_period s) (mx_fill_style s) ∅ (mx_slow s))
  else if bool_decide (key = "slow_period") then Ret (put (mx_fast_period s) (size_of_num value) (mx_fill_style s) (mx_fast s) ∅)
  else if bool_decide (key = "fill_style")
  then v ← fill_style_of value; Ret (put (mx_fast_period s) (mx_slow_period s) v (mx_fast s) (mx_slow s))
  else Throw ("Unknown parameter: " +:+ key).

(** ** larry_connor_strategy *)

Record connor_state := {
  cn_ma : simple_moving_average;
  cn_entry_low : rolling_extreme;
  cn_exit_high : rolling_extreme;
  cn_atr : average_true_range;
  cn_open : bool;
  cn_qty : num }.
Record larry_connor_strategy := {
  lc_ma_period : nat;
  lc_entry_period : nat;
  lc_exit_period : nat;
  lc_atr_period : nat;
  lc_equity : num;
  lc_risk_fraction : num;
  lc_entry_fee_rate : num;
  lc_entry_slip_bps : num;
  lc_fixed_fee_per_leg : num;
  lc_states : SymbolStateStore (State := connor_state) }.
Definition mk_larry_connor (ma entry exit atr : nat) (equity risk_fraction : num) : larry_connor_strategy :=
  {| lc_ma_period := ma; lc_entry_period := entry; lc_exit_period := exit; lc_atr_period := atr; lc_equity := equity;
     lc_risk_fraction := risk_fraction; lc_entry_fee_rate := n_zero; lc_entry_slip_bps := n_zero; lc_fixed_fee_per_leg := n_zero;
     lc_states := mk_store |}.
Definition connor_factory (s : larry_connor_strategy) : connor_state :=
  {| cn_ma := mk_sma (lc_ma_period s); cn_entry_low := {| rx_period := lc_entry_period s; rx_window := [] |};
     cn_exit_high := {| rx_period := lc_exit_period s; rx_window := [] |}; cn_atr := mk_atr (lc_atr_period s); cn_open := false;
     cn_qty := n_zero |}.
Definition connor_quantity (price : num) (s : larry_connor_strategy) : num :=
  compute_notional_quantity (lc_equity s) (lc_risk_fraction s) price (lc_entry_fee_rate s) (lc_entry_slip_bps s) true (lc_fixed_fee_per_leg s).
Definition lc_put (states : SymbolStateStore) (s : larry_connor_strategy) : larry_connor_strategy :=
  {| lc_ma_period := lc_ma_period s; lc_entry_period := lc_entry_period s; lc_exit_period := lc_exit_period s;
     lc_atr_period := lc_atr_period s; lc_equity := lc_equity s; lc_risk_fraction := lc_risk_fraction s;
     lc_entry_fee_rate := lc_entry_fee_rate s; lc_entry_slip_bps := lc_entry_slip_bps s; lc_fixed_fee_per_leg := lc_fixed_fee_per_leg s;
     lc_states := states |}.

(** The bar on the state of its symbol; [max()] and [min()] of a window that is ready are
    those of a list that is not empty. *)
Definition connor_bar (s : larry_connor_strategy) (m : market_msg) (st : connor_state) (sym : string) : option order_msg * connor_state :=
  let close := mm_close m in
  let ma := sma_update close (cn_ma st) in
  let low := rx_update close (cn_entry_low st) in
  let high := rx_update close (cn_exit_high st) in
  let put open qty :=
    {| cn_ma := ma.2; cn_entry_low := low; cn_exit_high := high; cn_atr := (atr_update (mm_high m) (mm_low m) close (cn_atr st)).2;
       cn_open := open; cn_qty := qty |} in
  let keep := put (cn_open st) (cn_qty st) in
  let order side qty := mk_order_msg (mm_ts m) sym ot_market side qty close tif_gtc in
  match ma.1 with
  | None => (None, keep)
  | Some ma_value =>
      if negb (rx_ready low) || negb (rx_ready high) then (None, keep) else
      if cn_open st then
        if (close >=? default n_zero (list_max (rx_window high)))%num then
          (if (cn_qty st <=? n_zero)%num then None else Some (order side_sell (cn_qty st)), put false n_zero)
        else (None, keep)
      else if (close >? ma_value)%num && (close <=? default n_zero (list_min (rx_window low)))%num then
        let qty := connor_quantity close s in
        if (qty <=? n_zero)%num then (None, keep) else (Some (order side_buy qty), put true qty)
      else (None, keep)
  end.
Definition connor_on_market (m : market_msg) (s : larry_connor_strategy) : exc (option order_msg) * larry_connor_strategy :=
  let r := on_slot (connor_factory s) (mm_symbol m) (connor_bar s m) (lc_states s) in (r.1, lc_put r.2 s).
Definition connor_gate (open : bool) (st : connor_state) (_ : string) : unit * connor_state :=
  ((), {| cn_ma := cn_ma st; cn_entry_low := cn_entry_low st; cn_exit_high := cn_exit_high st; cn_atr := cn_atr st; cn_open := open;
          cn_qty := if open then cn_qty st else n_zero |}).
Definition connor_set_position_open (sym : string) (open : bool) (s : larry_connor_strategy) : exc unit * larry_connor_strategy :=
  let r := on_slot (connor_factory s) sym (connor_gate open) (lc_states s) in (r.1, lc_put r.2 s).
Definition connor_set_param (key : string) (value : num) (s : larry_connor_strategy) : exc larry_connor_strategy :=
  let put ma entry exit atr equity risk fee slip fixed states :=
    {| lc_ma_period := ma; lc_entry_period := entry; lc_exit_period := exit; lc_atr_period := atr; lc_equity := equity;
       lc_risk_fraction := risk; lc_entry_fee_rate := fee; lc_entry_slip_bps := slip; lc_fixed_fee_per_leg := fixed; lc_states := states |} in
  let n := size_of_num value in
  let '(ma, entry, exit, atr) := (lc_ma_period s, lc_entry_period s, lc_exit_period s, lc_atr_period s) in
  let '(equity, risk, fee, slip, fixed) :=
    (lc_equity s, lc_risk_fraction s, lc_entry_fee_rate s, lc_entry_slip_bps s, lc_fixed_fee_per_leg s) in
  if bool_decide (key = "ma_period") then Ret (put n entry exit atr equity risk fee slip fixed mk_store)
  else if bool_decide (key = "entry_period") then Ret (put ma n exit atr equity risk fee slip fixed mk_store)
  else if bool_decide (key = "exit_period") then Ret (put ma entry n atr equity risk fee slip fixed mk_store)
  else if bool_decide (key = "atr_period") then Ret (put ma entry exit n equity risk fee slip fixed mk_store)
  else if bool_decide (key = "equity") then Ret (put ma entry exit atr value risk fee slip fixed (lc_states s))
  else if bool_decide (key = "risk_fraction") then Ret (put ma entry exit atr equity value fee slip fixed (lc_states s))
  else if bool_decide (key = "entry_fee_rate") then Ret (put ma entry exit atr equity risk value slip fixed (lc_states s))
  else if bool_decide (key = "entry_slip_bps") then Ret (put ma entry exit atr equity risk fee value fixed (lc_states s))
  else if bool_decide (key = "fixed_fee_per_leg") then Ret (put ma entry exit atr equity risk fee slip value (lc_states s))
  else Throw ("Unknown parameter for larry_connor: " +:+ key).
Definition connor_reset (s : larry_connor_strategy) : larry_connor_strategy := lc_put mk_store s.

(** ** hedge_demo_strategy *)

Record hedge_demo_strategy := {
  hd_gap : nat;
  hd_notional : num;
  hd_sl_pct : num;
  hd_tp_pct : num;
  hd_bars : gmap string Z;
  hd_long : gmap string Z;
  hd_short : gmap string Z;
  hd_sides : gmap Z order_side;
  hd_pending : list exit_intent }.
Definition mk_hedge_demo (gap : nat) (notional sl_pct tp_pct : num) : hedge_demo_strategy :=
  {| hd_gap := gap; hd_notional := notional; hd_sl_pct := sl_pct; hd_tp_pct := tp_pct; hd_bars := ∅; hd_long := ∅; hd_short := ∅;
     hd_sides := ∅; hd_pending := [] |}.
Definition count_at {K} `{Countable K} (k : K) (m : gmap K Z) : Z := default 0 (m !! k).
Definition hd_set (bars : gmap string Z) (pending : list exit_intent) (s : hedge_demo_strategy) : hedge_demo_strategy :=
  {| hd_gap := hd_gap s; hd_notional := hd_notional s; hd_sl_pct := hd_sl_pct s; hd_tp_pct := hd_tp_pct s; hd_bars := bars;
     hd_long := hd_long s; hd_short := hd_short s; hd_sides := hd_sides s; hd_pending := pending |}.
Definition hd_set_lots (long short : gmap string Z) (sides : gmap Z order_side) (s : hedge_demo_strategy) : hedge_demo_strategy :=
  {| hd_gap := hd_gap s; hd_notional := hd_notional s; hd_sl_pct := hd_sl_pct s; hd_tp_pct := hd_tp_pct s; hd_bars := hd_bars s;
     hd_long := long; hd_short := short; hd_sides := sides; hd_pending := hd_pending s |}.

Definition hedge_on_market (m : market_msg) (s : hedge_demo_strategy) : option order_msg * hedge_demo_strategy :=
  let sym := mm_symbol m in
  let price := mm_close m in
  if (price <=? n_zero)%num then (None, s) else
  let qty := (hd_notional s / price)%num in
  let counter := count_at sym (hd_bars s) in
  let order side := mk_order_msg (mm_ts m) sym ot_market side qty price tif_gtc in
  if (count_at sym (hd_long s) =? 0) && (counter =? 0) then
    (Some (order side_buy),
     hd_set (<[sym := 1]> (hd_bars s)) [make_long_exit_intent sym price qty (hd_sl_pct s) (hd_tp_pct s) "hedge-demo"] s)
  else if (0 <? count_at sym (hd_long s)) && (count_at sym (hd_short s) =? 0) && (Z.of_nat (hd_gap s) <=? counter) then
    (Some (order side_sell), hd_set (hd_bars s) [make_short_exit_intent sym price qty (hd_sl_pct s) (hd_tp_pct s) "hedge-demo"] s)
  else (None, if 0 <? counter then hd_set (<[sym := counter + 1]> (hd_bars s)) (hd_pending s) s else s).
Definition hedge_take_pending (s : hedge_demo_strategy) : list exit_intent * hedge_demo_strategy := (hd_pending s, hd_set (hd_bars s) [] s).
Definition hedge_on_fill (f : fill_msg) (opener : Z) (s : hedge_demo_strategy) : hedge_demo_strategy :=
  let sym := fm_symbol f in
  if opener =? fm_order_id f then
    let sides := <[opener := fm_side f]> (hd_sides s) in
    if bool_decide (fm_side f = side_buy)
    then hd_set_lots (<[sym := count_at sym (hd_long s) + 1]> (hd_long s)) (hd_short s) sides s
    else hd_set_lots (hd_long s) (<[sym := count_at sym (hd_short s) + 1]> (hd_short s)) sides s
  else
  match hd_sides s !! opener with
  | None => s
  | Some side =>
      let sides := delete opener (hd_sides s) in
      if bool_decide (side = side_buy)
      then hd_set_lots (<[sym := Z.max 0 (count_at sym (hd_long s) - 1)]> (hd_long s)) (hd_short s) sides s
      else hd_set_lots (hd_long s) (<[sym := Z.max 0 (count_at sym (hd_short s) - 1)]> (hd_short s)) sides s
  end.

Definition hedge_set_param (key : string) (value : num) (s : hedge_demo_strategy) : exc hedge_demo_strategy :=
  let put gap notional sl tp :=
    {| hd_gap := gap; hd_notional := notional; hd_sl_pct := sl; hd_tp_pct := tp; hd_bars := hd_bars s; hd_long := hd_long s;
       hd_short := hd_short s; hd_sides := hd_sides s; hd_pending := hd_pending s |} in
  if bool_decide (key = "hedge_gap") then Ret (put (size_of_num value) (hd_notional s) (hd_sl_pct s) (hd_tp_pct s))
  else if bool_decide (key = "notional") then Ret (put (hd_gap s) value (hd_sl_pct s) (hd_tp_pct s))
  else if bool_decide (key = "sl_pct") then Ret (put (hd_gap s) (hd_notional s) value (hd_tp_pct s))
  else if bool_decide (key = "tp_pct") then Ret (put (hd_gap s) (hd_notional s) (hd_sl_pct s) value)
  else Throw ("Unknown parameter: " +:+ key).

(** ** The engine's interface *)

(** Callbacks that do not throw. *)
Definition returns {X T} (r : X * T) : exc X * T := (Ret r.1, r.2).
Definition quietly {T} (s : T) : exc unit * T := (Ret (), s).
#[global] Instance sma_IStrategy : IStrategy sma_strategy := {|
  st_on_market m s := returns (sma_on_market m s);
  st_on_tick _ s := (Ret None, s);
  st_on_l2_update _ _ _ _ s := (Ret None, s);
  st_set_position_open sym open s := quietly (sma_set_position_open sym open s);
  st_on_fill _ _ s := quietly s;
  st_take_pending_exit_intents s := (Ret [], s) |}.
#[global] Instance ma_IStrategy : IStrategy ma_crossover_strategy := {|
  st_on_market m s := returns (ma_on_market m s);
  st_on_tick _ s := (Ret None, s);
  st_on_l2_update _ _ _ _ s := (Ret None, s);
  st_set_position_open sym open s := quietly (ma_set_position_open sym open s);
  st_on_fill _ _ s := quietly s;
  st_take_pending_exit_intents s := (Ret [], s) |}.
#[global] Instance hedge_IStrategy : IStrategy hedge_demo_strategy := {|
  st_on_market m s := returns (hedge_on_market m s);
  st_on_tick _ s := (Ret None, s);
  st_on_l2_update _ _ _ _ s := (Ret None, s);
  st_set_position_open _ _ s := quietly s;
  st_on_fill f opener s := quietly (hedge_on_fill f opener s);
  st_take_pending_exit_intents s := returns (hedge_take_pending s) |}.
(** The pullback strategy keeps its state by symbol, and the table of symbols can be full. *)
#[global] Instance connor_IStrategy : IStrategy larry_connor_strategy := {|
  st_on_market := connor_on_market;
  st_on_tick _ s := (Ret None, s);
  st_on_l2_update _ _ _ _ s := (Ret None, s);
  st_set_position_open := connor_set_position_open;
  st_on_fill _ _ s := quietly s;
  st_take_pending_exit_intents s := (Ret [], s) |}.
End Strategies.
