(* ===== verification/StrategyTheorems.v ===== *)
(** * What the simpler strategies trade

    [ma_crossover_exact]: the crossover strategy trades exactly the crossings of the
    two averages, as the averages are defined on the whole history of the symbol.
    [connor_exact]: the same for the pullback strategy, and that an exit sells what the
    entry bought. *)

From Stdlib Require Import QArith Lqa.
From S2P Require Import Prelude Float64 Event Arith Portfolio Sizing Exits Indicators IndicatorTheorems Symbols EngineEvents EngineState.
From S2P Require Import StateStore Strategies.

Open Scope string_scope.
Open Scope list_scope.
Open Scope Z_scope.

#[local] Existing Instance exact_arith.
#[local] Abbreviation num := (@Arith.num exact_arith).

(** What a strategy is told: a bar, or where the engine sees its position. *)
Inductive told := bar (m : market_msg) | resync (sym : string) (open : bool).
(** The closes of a symbol. *)
Definition closes (sym : string) (ts : list told) : list Q :=
  omap (λ t, match t with bar m => if bool_decide (mm_symbol m = sym) then Some (mm_close m) else None | resync _ _ => None end) ts.
Lemma closes_snoc sym ts t : closes sym (ts ++ [t]) =
  closes sym ts ++ match t with bar m => if bool_decide (mm_symbol m = sym) then [mm_close m] else [] | resync _ _ => [] end.
Proof. unfold closes. rewrite omap_app. destruct t as [m|]; cbn; [|done]. by case_bool_decide. Qed.

(** ** The crossover *)

Section Crossover.
Variables (fast slow : nat).

Definition ma_step (s : ma_crossover_strategy) (t : told) : ma_crossover_strategy :=
  match t with bar m => (ma_on_market m s).2 | resync sym open => ma_set_position_open sym open s end.
Definition ma_run (ts : list told) : ma_crossover_strategy := foldl ma_step (mk_ma_crossover fast slow) ts.

(** The fast mean is above the slow one at the end of a history. *)
Definition above (cs : list Q) : bool := Qltb (mean (lastn slow cs)) (mean (lastn fast cs)).
Definition both_ready (cs : list Q) : bool := (fast <=? length cs)%nat && (slow <=? length cs)%nat.
(** A crossing at the last close, from a bar at which both means were there. *)
Definition crosses_up (cs : list Q) (c : Q) : bool := both_ready cs && above (cs ++ [c]) && negb (above cs).
Definition crosses_down (cs : list Q) (c : Q) : bool := both_ready cs && negb (above (cs ++ [c])) && above cs.

Record ma_shows (ts : list told) (s : ma_crossover_strategy) : Prop := {
  ms_periods : mx_fast_period s = fast ∧ mx_slow_period s = slow ∧ mx_fill_style s = 0;
  ms_fast : ∀ sym, sma_shows (default (mk_sma fast) (mx_fast s !! sym)) fast (closes sym ts);
  ms_slow : ∀ sym, sma_shows (default (mk_sma slow) (mx_slow s !! sym)) slow (closes sym ts);
  ms_prev : ∀ sym, mx_prev_above s !! sym = if both_ready (closes sym ts) then Some (above (closes sym ts)) else None }.

Lemma ready_snoc cs (c : Q) : both_ready cs = true → both_ready (cs ++ [c]) = true.
Proof using Type. unfold both_ready. rewrite length_app. cbn. destruct (Nat.leb_spec fast (length cs)), (Nat.leb_spec slow (length cs)); try done.
  intros _. apply andb_true_iff. split; apply Nat.leb_le; lia. Qed.

Lemma Qltb_proper x x' y y' : (x == x')%Q → (y == y')%Q → Qltb x y = Qltb x' y'.
Proof using Type. intros Hx Hy. destruct (Qltb_spec x' y') as [H|H]; [apply Qltb_lt|apply Qltb_ge]; by rewrite Hx, Hy. Qed.

Hypotheses (Hfast : (0 < fast)%nat) (Hslow : (0 < slow)%nat).

(** The averages of the next bar. *)
Lemma ma_means ts s m (c : Q := mm_close m) (cs := closes (mm_symbol m) ts ++ [c]) : ma_shows ts s →
  let f := sma_update (mm_close m) (default (mk_sma (mx_fast_period s)) (mx_fast s !! mm_symbol m)) in
  let w := sma_update (mm_close m) (default (mk_sma (mx_slow_period s)) (mx_slow s !! mm_symbol m)) in
  sma_shows f.2 fast cs ∧ sma_shows w.2 slow cs ∧
  if both_ready cs then ∃ vf vw, f.1 = Some vf ∧ w.1 = Some vw ∧ (vf >? vw)%num = above cs
  else f.1 = None ∨ w.1 = None.
Proof using Hfast Hslow.
  intros [(Hp1 & Hp2 & _) Hf Hw _]. rewrite Hp1, Hp2. cbv zeta.
  destruct (sma_step _ fast _ (mm_close m) Hfast (Hf (mm_symbol m))) as [Hf1 Hf2].
  destruct (sma_step _ slow _ (mm_close m) Hslow (Hw (mm_symbol m))) as [Hw1 Hw2].
  split; [exact Hf1|]. split; [exact Hw1|]. unfold both_ready.
  change (closes (mm_symbol m) ts ++ [mm_close m]) with cs in Hf2, Hw2.
  destruct (Nat.ltb_spec (length cs) fast) as [H1|H1], (Nat.leb_spec fast (length cs)); try lia; cbn [andb]; [by left|].
  destruct (Nat.ltb_spec (length cs) slow) as [H2|H2], (Nat.leb_spec slow (length cs)); try lia; [by right|].
  destruct Hf2 as (vf & Ef & Hvf), Hw2 as (vw & Ew & Hvw). exists vf, vw. split_and!; [exact Ef|exact Ew|]. by apply Qltb_proper.
Qed.

(** The handler in terms of the history. *)
Lemma ma_decides ts s m (sym := mm_symbol m) (cs := closes sym ts) (c : Q := mm_close m) : ma_shows ts s →
  let r := ma_on_market m s in
  let gate := flag sym (mx_open s) in
  r.1 = (if crosses_up cs c && negb gate then Some (signal_order m 0 side_buy)
         else if crosses_down cs c && gate then Some (signal_order m 0 side_sell) else None) ∧
  mx_open r.2 = (match r.1 with Some o => <[sym := bool_decide (om_side o = side_buy)]> (mx_open s) | None => mx_open s end) ∧
  ma_shows (ts ++ [bar m]) r.2.
Proof using Hfast Hslow.
  intros H. cbv zeta. pose proof (ma_means ts s m H) as (Hf & Hw & Hboth). fold sym cs c in Hf, Hw, Hboth.
  destruct H as [(Hp1 & Hp2 & Hp3) Hfa Hsl Hprev]. unfold ma_on_market. fold sym c. rewrite Hp3.
  set (f := @sma_update exact_arith c (default (mk_sma (mx_fast_period s)) (mx_fast s !! sym))) in *.
  set (w := @sma_update exact_arith c (default (mk_sma (mx_slow_period s)) (mx_slow s !! sym))) in *.
  assert (∀ open prev, (∀ x, prev !! x = if both_ready (closes x (ts ++ [bar m])) then Some (above (closes x (ts ++ [bar m]))) else None) →
    ma_shows (ts ++ [bar m]) {| mx_fast_period := mx_fast_period s; mx_slow_period := mx_slow_period s; mx_fill_style := 0;
      mx_fast := <[sym := f.2]> (mx_fast s); mx_slow := <[sym := w.2]> (mx_slow s); mx_open := open; mx_prev_above := prev |}) as Hshow.
  { intros open prev Hpr. split; cbn; [done| | |exact Hpr]; intros x; rewrite closes_snoc; cbn; fold sym c;
      (destruct (decide (sym = x)) as [<-|Hne];
       [rewrite bool_decide_true, lookup_insert_eq by done; assumption|rewrite bool_decide_false, lookup_insert_ne, app_nil_r by done; auto]). }
  assert (∀ x, sym ≠ x → closes x (ts ++ [bar m]) = closes x ts) as Hother.
  { intros x Hne. rewrite closes_snoc. cbn. fold sym. by rewrite bool_decide_false, app_nil_r. }
  assert (closes sym (ts ++ [bar m]) = cs ++ [c]) as Hsame by (rewrite closes_snoc; cbn; fold sym; by rewrite bool_decide_true).
  destruct (both_ready (cs ++ [c])) eqn:Hready.
  - destruct Hboth as (vf & vw & -> & -> & Hab). rewrite Hab.
    assert (∀ x, <[sym := above (cs ++ [c])]> (mx_prev_above s) !! x =
      if both_ready (closes x (ts ++ [bar m])) then Some (above (closes x (ts ++ [bar m]))) else None) as Hpr.
    { intros x. destruct (decide (sym = x)) as [<-|Hne]; [by rewrite lookup_insert_eq, Hsame, Hready|].
      rewrite lookup_insert_ne, Hother by done. apply Hprev. }
    rewrite (Hprev sym). fold cs. unfold crosses_up, crosses_down.
    destruct (both_ready cs), (above (cs ++ [c])), (above cs), (flag sym (mx_open s)); cbn [andb negb]; split_and!; try done; by apply Hshow.
  - assert (both_ready cs = false) as Hno by (destruct (both_ready cs) eqn:E; [|done]; apply (ready_snoc cs c) in E; congruence).
    unfold crosses_up, crosses_down. rewrite Hno. cbn [andb].
    assert (∀ x, mx_prev_above s !! x =
      if both_ready (closes x (ts ++ [bar m])) then Some (above (closes x (ts ++ [bar m]))) else None) as Hpr.
    { intros x. destruct (decide (sym = x)) as [<-|Hne]; [|by rewrite Hother]. rewrite (Hprev sym), Hsame, Hready. fold cs. by rewrite Hno. }
    destruct Hboth as [-> | ->]; [|destruct f.1]; (split; [done|split; [done|by apply Hshow]]).
Qed.

Lemma ma_run_shows ts : ma_shows ts (ma_run ts).
Proof using Hfast Hslow.
  induction ts as [|t ts IH] using rev_ind.
  - split; [done| | |]; intros sym; [apply sma_fresh|apply sma_fresh|]. unfold both_ready.
    change (length (closes sym [])) with 0%nat. destruct (Nat.leb_spec fast 0); [lia|done].
  - unfold ma_run. rewrite foldl_app. cbn [foldl]. fold (ma_run ts). destruct t as [m|sym open]; cbn [ma_step]; [by apply ma_decides|].
    destruct IH as [H1 H2 H3 H4]. split; [done| | |]; intros x; rewrite closes_snoc, app_nil_r; auto.
Qed.
End Crossover.

(** The crossover strategy trades exactly the crossings: after anything it was told, a bar is
    answered with a buy order iff the mean of the symbol's last [fast] closes has just risen
    above that of its last [slow] closes and the gate of the symbol is shut, with a sell order
    iff it has just fallen back and the gate is open, and else not at all; an order flips the
    gate of its own symbol and nothing else does but the engine. *)
Theorem ma_crossover_exact fast slow ts m : (0 < fast)%nat → (0 < slow)%nat →
  let s := ma_run fast slow ts in
  let cs := closes (mm_symbol m) ts in
  let gate := flag (mm_symbol m) (mx_open s) in
  let r := ma_on_market m s in
  r.1 = (if crosses_up fast slow cs (mm_close m) && negb gate then Some (signal_order m 0 side_buy)
         else if crosses_down fast slow cs (mm_close m) && gate then Some (signal_order m 0 side_sell) else None) ∧
  ∀ sym, flag sym (mx_open r.2) =
    match r.1 with Some o => if bool_decide (sym = mm_symbol m) then bool_decide (om_side o = side_buy) else flag sym (mx_open s)
    | None => flag sym (mx_open s) end.
Proof.
  intros Hf Hs. destruct (ma_decides fast slow Hf Hs ts _ m (ma_run_shows fast slow Hf Hs ts)) as (H1 & H2 & _).
  split; [exact H1|]. intros sym. rewrite H2. destruct (ma_on_market m (ma_run fast slow ts)).1 as [o|]; [|done]. unfold flag.
  destruct (decide (sym = mm_symbol m)) as [->|Hne].
  - rewrite (bool_decide_true (mm_symbol m = mm_symbol m)) by done. by rewrite lookup_insert_eq.
  - rewrite (bool_decide_false (sym = mm_symbol m)) by done. by rewrite lookup_insert_ne by done.
Qed.

Definition close_of (ts : Z) (c : Q) : told :=
  bar {| mm_ts := ts; mm_symbol := "BTC"; mm_open := c; mm_high := c; mm_low := c; mm_close := c; mm_volume := 1; mm_recv_ns := 0 |}.
Definition dip : list told := [close_of 1 (10 # 1); close_of 2 (8 # 1); close_of 3 (6 # 1)]%Q.
Definition rebound : market_msg :=
  {| mm_ts := 4; mm_symbol := "BTC"; mm_open := (12 # 1)%Q; mm_high := (12 # 1)%Q; mm_low := (12 # 1)%Q; mm_close := (12 # 1)%Q;
     mm_volume := 1; mm_recv_ns := 0 |}.
Lemma ma_crossover_exact_witness : (ma_on_market rebound (ma_run 1 2 dip)).1 = Some (signal_order rebound 0 side_buy).
Proof.
  destruct (ma_crossover_exact 1 2 dip rebound) as [H _]; [lia|lia|]. rewrite H. by vm_compute.
Defined.

(** ** The pullback strategy, on one symbol *)

Lemma max_below (l : list Q) (x c : Q) : Qle_bool (@max_element exact_arith x l) c = forallb (λ y, Qle_bool y c) (x :: l).
Proof.
  unfold max_element. revert x. induction l as [|y l IH]; intros x; cbn [foldl forallb]; [by rewrite andb_true_r|].
  rewrite IH. cbn [forallb]. rewrite (andb_assoc (Qle_bool x c)). f_equal. unfold n_max. tt_exact.
  destruct (Qltb_spec x y), (Qleb_spec x c), (Qleb_spec y c); cbn; try done; exfalso; lra.
Qed.
Lemma min_above (l : list Q) (x c : Q) : Qle_bool c (@min_element exact_arith x l) = forallb (λ y, Qle_bool c y) (x :: l).
Proof.
  unfold min_element. revert x. induction l as [|y l IH]; intros x; cbn [foldl forallb]; [by rewrite andb_true_r|].
  rewrite IH. cbn [forallb]. rewrite (andb_assoc (Qle_bool c x)). f_equal. unfold n_min. tt_exact.
  destruct (Qltb_spec y x), (Qleb_spec c x), (Qleb_spec c y); cbn; try done; exfalso; lra.
Qed.

Lemma rx_step n (r : rolling_extreme) (cs : list Q) (c : Q) : (0 < n)%nat → rx_period r = n → rx_window r = lastn n cs →
  rx_period (@rx_update exact_arith c r) = n ∧ rx_window (@rx_update exact_arith c r) = lastn n (cs ++ [c]) ∧
  rx_ready (@rx_update exact_arith c r) = (n <=? length (cs ++ [c]))%nat.
Proof.
  intros Hn Hp Hw. assert (rx_window (@rx_update exact_arith c r) = lastn n (cs ++ [c])) as E.
  { unfold rx_update, push_bounded. cbn [rx_window]. rewrite Hp, Hw. by rewrite lastn_snoc. }
  split_and!; [done|done|]. unfold rx_ready. rewrite E. cbn [rx_update rx_period]. rewrite Hp.
  change (length (lastn n (cs ++ [c]))) with (@length Q (lastn n (cs ++ [c]))). rewrite lastn_length.
  destruct (Nat.leb_spec n (length (cs ++ [c]))); [apply Nat.eqb_eq; lia|apply Nat.eqb_neq; lia].
Qed.

Lemma lastn_cons n (cs : list Q) (c : Q) : (0 < n)%nat → ∃ x l, lastn n (cs ++ [c]) = x :: l.
Proof. intros Hn. pose proof (length_pos n cs c Hn). destruct (lastn n (cs ++ [c])) as [|x l]; [cbn in *; lia|]. by exists x, l. Qed.

Section Connor.
Variables (s : larry_connor_strategy) (sym : string).
Let ma := lc_ma_period s.
Let entry := lc_entry_period s.
Let exit := lc_exit_period s.

Inductive connor_told := c_bar (m : market_msg) | c_resync (open : bool).
Definition connor_step (st : connor_state) (t : connor_told) : connor_state :=
  match t with c_bar m => (connor_bar s m st sym).2 | c_resync open => (connor_gate open st sym).2 end.
Definition connor_run (ts : list connor_told) : connor_state := foldl connor_step (connor_factory s) ts.
Definition connor_closes (ts : list connor_told) : list Q := omap (λ t, match t with c_bar m => Some (mm_close m : Q) | c_resync _ => None end) ts.

(** The rules of the strategy, on the closes up to now. *)
Definition warmed_up (cs : list Q) : bool := (ma <=? length cs)%nat && (entry <=? length cs)%nat && (exit <=? length cs)%nat.
Definition pullback (cs : list Q) (c : Q) : bool := Qltb (mean (lastn ma cs)) c && forallb (λ x, Qle_bool c x) (lastn entry cs).
Definition new_high (cs : list Q) (c : Q) : bool := forallb (λ x, Qle_bool x c) (lastn exit cs).

Record connor_shows (cs : list Q) (st : connor_state) : Prop := {
  cs_ma : sma_shows (cn_ma st) ma cs;
  cs_low : rx_period (cn_entry_low st) = entry ∧ rx_window (cn_entry_low st) = lastn entry cs;
  cs_high : rx_period (cn_exit_high st) = exit ∧ rx_window (cn_exit_high st) = lastn exit cs }.

Hypotheses (Hma : (0 < ma)%nat) (Hentry : (0 < entry)%nat) (Hexit : (0 < exit)%nat).

Definition connor_order (m : market_msg) (side : order_side) (qty : Q) : order_msg :=
  mk_order_msg (mm_ts m) sym ot_market side (qty : num) (mm_close m) tif_gtc.

(** One bar, in terms of the closes before it. *)
Lemma connor_decides ts st m (c : Q := mm_close m) (cs := connor_closes ts ++ [c]) : connor_shows (connor_closes ts) st →
  let r := connor_bar s m st sym in
  let qty : Q := connor_quantity c s in
  connor_shows cs r.2 ∧
  if warmed_up cs && cn_open st && new_high cs c
  then r.1 = (if Qle_bool (cn_qty st) 0 then None else Some (connor_order m side_sell (cn_qty st))) ∧ cn_open r.2 = false ∧ cn_qty r.2 = 0%Q
  else if warmed_up cs && negb (cn_open st) && pullback cs c && Qltb 0 qty
  then r.1 = Some (connor_order m side_buy qty) ∧ cn_open r.2 = true ∧ cn_qty r.2 = qty
  else r.1 = None ∧ cn_open r.2 = cn_open st ∧ cn_qty r.2 = cn_qty st.
Proof using Hma Hentry Hexit.
  intros [Hm [Hl1 Hl2] [Hh1 Hh2]]. cbv zeta.
  destruct (sma_step _ ma _ c Hma Hm) as [Hm1 Hm2]. change (connor_closes ts ++ [c]) with cs in Hm1, Hm2.
  destruct (rx_step entry _ _ c Hentry Hl1 Hl2) as (Hl3 & Hl4 & Hl5). change (connor_closes ts ++ [c]) with cs in Hl4, Hl5.
  destruct (rx_step exit _ _ c Hexit Hh1 Hh2) as (Hh3 & Hh4 & Hh5). change (connor_closes ts ++ [c]) with cs in Hh4, Hh5.
  unfold connor_bar. fold c. cbv zeta.
  set (u := @sma_update exact_arith c (cn_ma st)) in *.
  set (lo := @rx_update exact_arith c (cn_entry_low st)) in *. set (hi := @rx_update exact_arith c (cn_exit_high st)) in *.
  assert (∀ open qty, connor_shows cs {| cn_ma := u.2; cn_entry_low := lo; cn_exit_high := hi;
    cn_atr := (atr_update (mm_high m) (mm_low m) c (cn_atr st)).2; cn_open := open; cn_qty := qty |}) as Hshow by (intros; by split).
  rewrite Hl5, Hh5, Hl4, Hh4. unfold warmed_up.
  destruct (lastn_cons entry (connor_closes ts) c Hentry) as (x & l & El). destruct (lastn_cons exit (connor_closes ts) c Hexit) as (y & k & Ek).
  change (connor_closes ts ++ [c]) with cs in El, Ek. unfold pullback, new_high. rewrite El, Ek. cbn [list_max list_min default from_option].
  unfold id.
  tt_exact. rewrite max_below, min_above.
  destruct (Nat.ltb_spec (length cs) ma) as [H1|H1], (Nat.leb_spec ma (length cs)); try lia; cbn [andb]; [rewrite Hm2; split; [apply Hshow|done]|].
  destruct Hm2 as (v & -> & Hv). rewrite (Qltb_proper v (mean (lastn ma cs)) c c Hv (Qeq_refl c)).
  destruct (entry <=? length cs)%nat; cbn [andb negb orb]; [|split; [apply Hshow|done]].
  destruct (exit <=? length cs)%nat; cbn [andb negb orb]; [|split; [apply Hshow|done]].
  destruct (cn_open st) eqn:Ho; cbn [andb negb].
  - destruct (forallb _ (y :: k)); cbn [andb]; (split; [apply Hshow|done]).
  - destruct (Qltb _ c), (forallb _ (x :: l)); cbn [andb]; try (split; [apply Hshow|done]).
    set (q := @connor_quantity exact_arith c s). change (@n_zero exact_arith) with 0%Q. destruct (Qleb_spec q 0), (Qltb_spec 0 q); try (split; [apply Hshow|done]); exfalso; lra.
Qed.

(** The bars, and what the handler returned at each. *)
Lemma connor_closes_snoc ts t : connor_closes (ts ++ [t]) =
  connor_closes ts ++ match t with c_bar m => [mm_close m : Q] | c_resync _ => [] end.
Proof using Type. unfold connor_closes. rewrite omap_app. by destruct t. Qed.
Lemma connor_run_snoc ts t : connor_run (ts ++ [t]) = connor_step (connor_run ts) t.
Proof using Type. unfold connor_run. by rewrite foldl_app. Qed.
Lemma connor_run_shows ts : connor_shows (connor_closes ts) (connor_run ts).
Proof using Hma Hentry Hexit.
  induction ts as [|t ts IH] using rev_ind; [split; cbn; rewrite ?lastn_nil; done|].
  rewrite connor_run_snoc, connor_closes_snoc. destruct t as [m|open]; cbn [connor_step].
  - by apply connor_decides.
  - rewrite app_nil_r. destruct IH. by split.
Qed.

(** The strategy as its rules read: the closes so far and the quantity held, if a
    position is open. *)
Definition connor_rule (cs : list Q) (held : option Q) (m : market_msg) : option order_msg * option Q :=
  let c : Q := mm_close m in
  let qty : Q := connor_quantity (mm_close m) s in
  match held with
  | Some q => if warmed_up cs && new_high cs c then (if Qle_bool q 0 then None else Some (connor_order m side_sell q), None) else (None, held)
  | None => if warmed_up cs && pullback cs c && Qltb 0 qty then (Some (connor_order m side_buy qty), Some qty) else (None, None)
  end.
Definition rule_step (p : list Q * option Q) (t : connor_told) : list Q * option Q :=
  match t with
  | c_bar m => let cs := p.1 ++ [mm_close m : Q] in (cs, (connor_rule cs p.2 m).2)
  | c_resync open => (p.1, if open then Some (default 0%Q p.2) else None)
  end.
Definition rule_run (ts : list connor_told) : list Q * option Q := foldl rule_step ([], None) ts.
Lemma rule_run_closes ts : (rule_run ts).1 = connor_closes ts.
Proof using Type.
  induction ts as [|t ts IH] using rev_ind; [done|]. unfold rule_run in *. rewrite foldl_app, connor_closes_snoc, <- IH.
  destruct t; cbn; [done|by rewrite app_nil_r].
Qed.

Definition held_by (st : connor_state) : option Q := if cn_open st then Some (cn_qty st : Q) else None.
(** A closed position holds nothing. *)
Definition flat_is_zero (st : connor_state) : Prop := cn_open st = false → cn_qty st = 0%Q.

Lemma connor_bar_rule ts st m : connor_shows (connor_closes ts) st → flat_is_zero st →
  let r := connor_bar s m st sym in
  (r.1, held_by r.2) = connor_rule (connor_closes ts ++ [mm_close m : Q]) (held_by st) m ∧ flat_is_zero r.2.
Proof using Hma Hentry Hexit.
  intros Hs Hz. cbv zeta. destruct (connor_decides ts st m Hs) as [_ H]. cbv zeta in H. unfold connor_rule, held_by, flat_is_zero in *.
  destruct (connor_bar s m st sym) as [o st']. cbn [fst snd] in *.
  destruct (cn_open st) eqn:Ho; cbn [andb negb] in H; rewrite ?andb_false_r, ?andb_true_r in H; cbn [andb] in H;
    (case_match; [destruct H as (-> & -> & Hq)|destruct H as (-> & -> & Hq)]); rewrite ?Hq; split; try done; by intros.
Qed.

Lemma connor_run_rule ts : held_by (connor_run ts) = (rule_run ts).2 ∧ flat_is_zero (connor_run ts).
Proof using Hma Hentry Hexit.
  induction ts as [|t ts [IH1 IH2]] using rev_ind; [done|].
  rewrite connor_run_snoc. unfold rule_run. rewrite foldl_app. fold (rule_run ts). cbn [foldl]. destruct t as [m|open]; cbn [connor_step rule_step snd].
  - destruct (connor_bar_rule ts _ m (connor_run_shows ts) IH2) as [E1 E2]. split; [|exact E2].
    rewrite rule_run_closes, <- IH1, <- E1. done.
  - rewrite <- IH1. unfold held_by, flat_is_zero in *. cbn. destruct open; [|done]. split; [|done].
    destruct (cn_open (connor_run ts)); [done|]. cbn. by rewrite IH2.
Qed.
End Connor.

(** ** The pullback strategy on its symbols *)

Section ConnorRuns.
Variable s : larry_connor_strategy.

Definition lc_step (st : larry_connor_strategy) (t : told) : larry_connor_strategy :=
  match t with bar m => (connor_on_market m st).2 | resync sym open => (connor_set_position_open sym open st).2 end.
Definition lc_run (ts : list told) : larry_connor_strategy := foldl lc_step (lc_put mk_store s) ts.
Definition symbol_of (t : told) : string := match t with bar m => mm_symbol m | resync sym _ => sym end.
(** What the strategy is told of one symbol. *)
Definition told_of (sym : string) (t : told) : option connor_told :=
  if bool_decide (symbol_of t = sym) then Some match t with bar m => c_bar m | resync _ open => c_resync open end else None.
Definition told_about (sym : string) (ts : list told) : list connor_told := omap (told_of sym) ts.
Definition symbols_of (ts : list told) : gset string := list_to_set (symbol_of <$> ts).

(** The store holds a state for each symbol, and the state of a symbol is that of its own history. *)
Definition lc_tracks (ts : list told) (st : larry_connor_strategy) : Prop :=
  ∃ store m, st = lc_put store s ∧ holds store m ∧ dom m = symbols_of ts ∧
    ∀ sym, default (connor_factory s) (m !! sym) = connor_run s sym (told_about sym ts).

Lemma told_about_snoc sym ts t : told_about sym (ts ++ [t]) = told_about sym ts ++ option_list (told_of sym t).
Proof using Type. unfold told_about. rewrite omap_app. cbn. by destruct (told_of sym t). Qed.

(** A handler of the slot of the symbol of [t] that does what [connor_step] does. *)
Lemma lc_slot {X} ts t store m (f : connor_state → string → X * connor_state) :
  holds store m → dom m = symbols_of ts → (∀ sym, default (connor_factory s) (m !! sym) = connor_run s sym (told_about sym ts)) →
  Z.of_nat (size (symbols_of (ts ++ [t]))) <= kMaxSymbols →
  (∀ x u, told_of (symbol_of t) t = Some u → (f x (symbol_of t)).2 = connor_step s (symbol_of t) x u) →
  let r := on_slot (connor_factory s) (symbol_of t) f store in
  r.1 = Ret (f (connor_run s (symbol_of t) (told_about (symbol_of t) ts)) (symbol_of t)).1 ∧ lc_tracks (ts ++ [t]) (lc_put r.2 s).
Proof using Type.
  intros Hh Hd Hm Hsize Hf. cbv zeta.
  assert (symbols_of (ts ++ [t]) = {[symbol_of t]} ∪ symbols_of ts) as Hsy.
  { unfold symbols_of. rewrite fmap_app, list_to_set_app_L. cbn. set_solver. }
  destruct (on_slot_spec (connor_factory s) store m (symbol_of t) f Hh) as (s' & E & H').
  { intros Hn. apply not_elem_of_dom in Hn. rewrite Hsy in Hsize. rewrite <- size_dom, Hd in *.
    rewrite size_union, size_singleton in Hsize by set_solver. lia. }
  rewrite E. cbn [fst snd]. rewrite Hm. split; [done|]. exists s'. eexists. split; [done|]. split; [exact H'|]. split; [by rewrite dom_insert_L, Hd, Hsy|].
  intros sym. rewrite told_about_snoc. destruct (decide (sym = symbol_of t)) as [->|Hne].
  - rewrite lookup_insert_eq, Hm. unfold told_of in *. rewrite bool_decide_true in Hf |- * by done.
    change (option_list (Some ?u)) with [u]. rewrite connor_run_snoc. by apply Hf.
  - rewrite lookup_insert_ne by done. unfold told_of. rewrite bool_decide_false by done. cbn. by rewrite app_nil_r, Hm.
Qed.

Lemma lc_step_tracks ts st t : lc_tracks ts st → Z.of_nat (size (symbols_of (ts ++ [t]))) <= kMaxSymbols →
  lc_tracks (ts ++ [t]) (lc_step st t) ∧
  ∀ m, t = bar m → (connor_on_market m st).1 = Ret (connor_bar s m (connor_run s (mm_symbol m) (told_about (mm_symbol m) ts)) (mm_symbol m)).1.
Proof using Type.
  intros (store & m & -> & Hh & Hd & Hm) Hsize. destruct t as [b|sym open]; cbn [lc_step].
  - destruct (lc_slot ts (bar b) store m (connor_bar s b) Hh Hd Hm Hsize) as [E1 E2].
    { intros x u. unfold told_of. rewrite bool_decide_true by done. by intros [= <-]. }
    split; [exact E2|]. intros ? [= <-]. exact E1.
  - destruct (lc_slot ts (resync sym open) store m (connor_gate open) Hh Hd Hm Hsize) as [_ E2].
    { intros x u. unfold told_of. rewrite bool_decide_true by done. by intros [= <-]. }
    split; [exact E2|]. by intros ?.
Qed.

Lemma symbols_of_le ts us : (size (symbols_of ts) <= size (symbols_of (ts ++ us)))%nat.
Proof using Type. apply subseteq_size. unfold symbols_of. rewrite fmap_app, list_to_set_app_L. set_solver. Qed.

Lemma lc_run_tracks ts : Z.of_nat (size (symbols_of ts)) <= kMaxSymbols → lc_tracks ts (lc_run ts).
Proof using Type.
  induction ts as [|t ts IH] using rev_ind; intros Hsize.
  - exists mk_store, ∅. split; [done|]. split; [apply store_ok_new|]. split; [by rewrite dom_empty_L|]. intros sym. by rewrite lookup_empty.
  - pose proof (symbols_of_le ts [t]). unfold lc_run. rewrite foldl_app. apply lc_step_tracks; [apply IH; lia|done].
Qed.
End ConnorRuns.

(** C36: In exact (rational) arithmetic, in which the running sum of an average is the sum of its window, for positive window
    lengths and at most 256 symbols, at every bar of every history of bars and of resyncs with the
    engine, the pullback strategy does exactly what its rules say of the whole history of closes of that symbol, whatever the
    other symbols did: with no position it buys when the close is above the long average and at or below
    every close of the entry window, for the quantity the sizing gives; with a position it sells when the close is at or above every
    close of the exit window, exactly the quantity it bought; it does nothing before all three windows are full. *)
Theorem connor_exact s ts m (sym := mm_symbol m) :
  (0 < lc_ma_period s)%nat → (0 < lc_entry_period s)%nat → (0 < lc_exit_period s)%nat →
  Z.of_nat (size (symbols_of (ts ++ [bar m]))) <= kMaxSymbols →
  let seen := told_about sym ts in
  (connor_on_market m (lc_run s ts)).1 =
    Ret (connor_rule s sym (connor_closes seen ++ [mm_close m : Q]) (rule_run s sym seen).2 m).1.
Proof.
  intros H1 H2 H3 Hsize seen. pose proof (symbols_of_le ts [bar m]).
  destruct (lc_step_tracks s ts _ (bar m) (lc_run_tracks s ts ltac:(lia)) Hsize) as [_ E]. rewrite (E m) by done. fold sym.
  destruct (connor_run_rule s sym H1 H2 H3 seen) as [E1 E2].
  destruct (connor_bar_rule s sym H1 H2 H3 seen _ m (connor_run_shows s sym H1 H2 H3 seen) E2) as [E3 _].
  rewrite <- E1, <- E3. done.
Qed.

(** A dip above the average is bought, and sold on the next high. *)
Definition connors : larry_connor_strategy := mk_larry_connor 4 2 2 14 (1000 # 1)%Q (1 # 10)%Q.
Definition climb : list told := [close_of 1 (10 # 1); close_of 2 (20 # 1); close_of 3 (30 # 1); close_of 4 (29 # 1)]%Q.
Definition exc_value (e : exc (option order_msg)) : option order_msg := match e with Ret o => o | Throw _ => None end.
Definition new_top : market_msg :=
  {| mm_ts := 5; mm_symbol := "BTC"; mm_open := (31 # 1)%Q; mm_high := (31 # 1)%Q; mm_low := (31 # 1)%Q; mm_close := (31 # 1)%Q;
     mm_volume := 1; mm_recv_ns := 0 |}.
Lemma connor_exact_witness :
  (om_side <$> exc_value (connor_on_market new_top (lc_run connors climb)).1) = Some side_sell.
Proof.
  rewrite (connor_exact connors climb new_top); [|cbn; lia|cbn; lia|cbn; lia|by vm_compute]. by vm_compute.
Defined.
