(* ===== verification/BracketStrategies.v ===== *)
(** * The strategies with brackets (src/src/strategy)

    mean_reversion_strategy and breakout_strategy (which coiled_spring_strategy
    renames): entries sized for a risk budget at a stop, and
    the exits they hand to the engine with the order.  The members a strategy sizes
    with are grouped in [sizing_params]; the members of a strategy that are neither
    state of a symbol nor pending exits are its configuration. *)

From S2P Require Import Prelude Float64 Event Arith Portfolio Sizing Exits Indicators Swing Symbols EngineEvents EngineState StateStore Strategies.

Open Scope string_scope.
Open Scope list_scope.
Open Scope Z_scope.

Section Brackets.
Context {A : Arith}.

(** ** Sizing *)

Record sizing_params := {
  sz_equity : num;
  sz_risk_fraction : num;
  sz_entry_fee_rate : num;
  sz_exit_fee_rate : num;
  sz_entry_slip_bps : num;
  sz_exit_slip_bps : num;
  sz_fixed_fee_per_leg : num;
  sz_max_notional_frac : num }.
Definition set_sz_equity (x : num) (c : sizing_params) : sizing_params :=
  {| sz_equity := x; sz_risk_fraction := sz_risk_fraction c; sz_entry_fee_rate := sz_entry_fee_rate c; sz_exit_fee_rate :=
     sz_exit_fee_rate c; sz_entry_slip_bps := sz_entry_slip_bps c; sz_exit_slip_bps := sz_exit_slip_bps c;
     sz_fixed_fee_per_leg := sz_fixed_fee_per_leg c; sz_max_notional_frac := sz_max_notional_frac c |}.
Definition set_sz_risk_fraction (x : num) (c : sizing_params) : sizing_params :=
  {| sz_equity := sz_equity c; sz_risk_fraction := x; sz_entry_fee_rate := sz_entry_fee_rate c; sz_exit_fee_rate :=
     sz_exit_fee_rate c; sz_entry_slip_bps := sz_entry_slip_bps c; sz_exit_slip_bps := sz_exit_slip_bps c;
     sz_fixed_fee_per_leg := sz_fixed_fee_per_leg c; sz_max_notional_frac := sz_max_notional_frac c |}.
Definition set_sz_entry_fee_rate (x : num) (c : sizing_params) : sizing_params :=
  {| sz_equity := sz_equity c; sz_risk_fraction := sz_risk_fraction c; sz_entry_fee_rate := x; sz_exit_fee_rate :=
     sz_exit_fee_rate c; sz_entry_slip_bps := sz_entry_slip_bps c; sz_exit_slip_bps := sz_exit_slip_bps c;
     sz_fixed_fee_per_leg := sz_fixed_fee_per_leg c; sz_max_notional_frac := sz_max_notional_frac c |}.
Definition set_sz_exit_fee_rate (x : num) (c : sizing_params) : sizing_params :=
  {| sz_equity := sz_equity c; sz_risk_fraction := sz_risk_fraction c; sz_entry_fee_rate := sz_entry_fee_rate c;
     sz_exit_fee_rate := x; sz_entry_slip_bps := sz_entry_slip_bps c; sz_exit_slip_bps := sz_exit_slip_bps c;
     sz_fixed_fee_per_leg := sz_fixed_fee_per_leg c; sz_max_notional_frac := sz_max_notional_frac c |}.
Definition set_sz_entry_slip_bps (x : num) (c : sizing_params) : sizing_params :=
  {| sz_equity := sz_equity c; sz_risk_fraction := sz_risk_fraction c; sz_entry_fee_rate := sz_entry_fee_rate c;
     sz_exit_fee_rate := sz_exit_fee_rate c; sz_entry_slip_bps := x; sz_exit_slip_bps := sz_exit_slip_bps c;
     sz_fixed_fee_per_leg := sz_fixed_fee_per_leg c; sz_max_notional_frac := sz_max_notional_frac c |}.
Definition set_sz_exit_slip_bps (x : num) (c : sizing_params) : sizing_params :=
  {| sz_equity := sz_equity c; sz_risk_fraction := sz_risk_fraction c; sz_entry_fee_rate := sz_entry_fee_rate c;
     sz_exit_fee_rate := sz_exit_fee_rate c; sz_entry_slip_bps := sz_entry_slip_bps c; sz_exit_slip_bps := x;
     sz_fixed_fee_per_leg := sz_fixed_fee_per_leg c; sz_max_notional_frac := sz_max_notional_frac c |}.
Definition set_sz_fixed_fee_per_leg (x : num) (c : sizing_params) : sizing_params :=
  {| sz_equity := sz_equity c; sz_risk_fraction := sz_risk_fraction c; sz_entry_fee_rate := sz_entry_fee_rate c;
     sz_exit_fee_rate := sz_exit_fee_rate c; sz_entry_slip_bps := sz_entry_slip_bps c; sz_exit_slip_bps := sz_exit_slip_bps
     c; sz_fixed_fee_per_leg := x; sz_max_notional_frac := sz_max_notional_frac c |}.
Definition set_sz_max_notional_frac (x : num) (c : sizing_params) : sizing_params :=
  {| sz_equity := sz_equity c; sz_risk_fraction := sz_risk_fraction c; sz_entry_fee_rate := sz_entry_fee_rate c;
     sz_exit_fee_rate := sz_exit_fee_rate c; sz_entry_slip_bps := sz_entry_slip_bps c; sz_exit_slip_bps := sz_exit_slip_bps
     c; sz_fixed_fee_per_leg := sz_fixed_fee_per_leg c; sz_max_notional_frac := x |}.

Definition size_inputs (p : sizing_params) (entry stop : num) (long : bool) : risk_size_inputs :=
  {| equity := sz_equity p; risk_fraction := sz_risk_fraction p; in_entry_price := entry; stop_price := stop; Sizing.is_long := long;
     entry_fee_rate := sz_entry_fee_rate p; exit_fee_rate := sz_exit_fee_rate p; entry_slip_bps := sz_entry_slip_bps p;
     exit_slip_bps := sz_exit_slip_bps p; fixed_fee_per_leg := sz_fixed_fee_per_leg p; max_notional_frac := sz_max_notional_frac p |}.
(** Members that start at zero, after the equity and the fraction. *)
Definition no_costs (equity fraction : num) : sizing_params :=
  {| sz_equity := equity; sz_risk_fraction := fraction; sz_entry_fee_rate := n_zero; sz_exit_fee_rate := n_zero;
     sz_entry_slip_bps := n_zero; sz_exit_slip_bps := n_zero; sz_fixed_fee_per_leg := n_zero; sz_max_notional_frac := n_zero |}.
(** The parameters the strategies have in common. *)
Definition set_sizing_param (key : string) (value : num) (p : sizing_params) : option sizing_params :=
  if bool_decide (key = "risk_fraction") then Some (set_sz_risk_fraction value p)
  else if bool_decide (key = "entry_fee_rate") then Some (set_sz_entry_fee_rate value p)
  else if bool_decide (key = "exit_fee_rate") then Some (set_sz_exit_fee_rate value p)
  else if bool_decide (key = "entry_slip_bps") then Some (set_sz_entry_slip_bps value p)
  else if bool_decide (key = "exit_slip_bps") then Some (set_sz_exit_slip_bps value p)
  else if bool_decide (key = "fixed_fee_per_leg") then Some (set_sz_fixed_fee_per_leg value p)
  else if bool_decide (key = "max_notional_frac") then Some (set_sz_max_notional_frac value p)
  else None.

Definition atr_value (a : average_true_range) : num := default n_zero (atr_last a).
(** An exit at the levels of a bracket, for the whole fill. *)
Definition bracket (sym : string) (long : bool) (qty : num) (sl tp reference trail : option num) (fraction : num) (name : string) : exit_intent :=
  {| ei_symbol := sym; close_side := if long then side_sell else side_buy; ei_qty := qty; qty_fraction := fraction; stop_loss := sl;
     take_profit := tp; reference_entry := reference; trailing_pct := trail; deadline := None; ei_opener_order_id := 0;
     ei_strategy_name := name |}.

(** ** mean_reversion_strategy *)

Record mr_config := {
  mr_period : nat;
  mr_sizing : sizing_params;
  mr_sl_pct : num;
  mr_tp_pct : num;
  mr_atr_period : nat;
  mr_sl_atr_mult : num;
  mr_tp_atr_mult : num;
  mr_swing_strength : nat;
  mr_swing_history : nat;
  mr_fib_sl_retracement : num;
  mr_fib_tp_extension : num;
  mr_atr_buffer_mult_sl : num;
  mr_atr_buffer_mult_tp : num;
  mr_exit_style : string;
  mr_scale_out_ratio : num;
  mr_trail_atr_mult : num }.
Definition set_mr_period (x : nat) (c : mr_config) : mr_config :=
  {| mr_period := x; mr_sizing := mr_sizing c; mr_sl_pct := mr_sl_pct c; mr_tp_pct := mr_tp_pct c; mr_atr_period :=
     mr_atr_period c; mr_sl_atr_mult := mr_sl_atr_mult c; mr_tp_atr_mult := mr_tp_atr_mult c; mr_swing_strength :=
     mr_swing_strength c; mr_swing_history := mr_swing_history c; mr_fib_sl_retracement := mr_fib_sl_retracement c;
     mr_fib_tp_extension := mr_fib_tp_extension c; mr_atr_buffer_mult_sl := mr_atr_buffer_mult_sl c; mr_atr_buffer_mult_tp
     := mr_atr_buffer_mult_tp c; mr_exit_style := mr_exit_style c; mr_scale_out_ratio := mr_scale_out_ratio c;
     mr_trail_atr_mult := mr_trail_atr_mult c |}.
Definition set_mr_sizing (x : sizing_params) (c : mr_config) : mr_config :=
  {| mr_period := mr_period c; mr_sizing := x; mr_sl_pct := mr_sl_pct c; mr_tp_pct := mr_tp_pct c; mr_atr_period :=
     mr_atr_period c; mr_sl_atr_mult := mr_sl_atr_mult c; mr_tp_atr_mult := mr_tp_atr_mult c; mr_swing_strength :=
     mr_swing_strength c; mr_swing_history := mr_swing_history c; mr_fib_sl_retracement := mr_fib_sl_retracement c;
     mr_fib_tp_extension := mr_fib_tp_extension c; mr_atr_buffer_mult_sl := mr_atr_buffer_mult_sl c; mr_atr_buffer_mult_tp
     := mr_atr_buffer_mult_tp c; mr_exit_style := mr_exit_style c; mr_scale_out_ratio := mr_scale_out_ratio c;
     mr_trail_atr_mult := mr_trail_atr_mult c |}.
Definition set_mr_sl_pct (x : num) (c : mr_config) : mr_config :=
  {| mr_period := mr_period c; mr_sizing := mr_sizing c; mr_sl_pct := x; mr_tp_pct := mr_tp_pct c; mr_atr_period :=
     mr_atr_period c; mr_sl_atr_mult := mr_sl_atr_mult c; mr_tp_atr_mult := mr_tp_atr_mult c; mr_swing_strength :=
     mr_swing_strength c; mr_swing_history := mr_swing_history c; mr_fib_sl_retracement := mr_fib_sl_retracement c;
     mr_fib_tp_extension := mr_fib_tp_extension c; mr_atr_buffer_mult_sl := mr_atr_buffer_mult_sl c; mr_atr_buffer_mult_tp
     := mr_atr_buffer_mult_tp c; mr_exit_style := mr_exit_style c; mr_scale_out_ratio := mr_scale_out_ratio c;
     mr_trail_atr_mult := mr_trail_atr_mult c |}.
Definition set_mr_tp_pct (x : num) (c : mr_config) : mr_config :=
  {| mr_period := mr_period c; mr_sizing := mr_sizing c; mr_sl_pct := mr_sl_pct c; mr_tp_pct := x; mr_atr_period :=
     mr_atr_period c; mr_sl_atr_mult := mr_sl_atr_mult c; mr_tp_atr_mult := mr_tp_atr_mult c; mr_swing_strength :=
     mr_swing_strength c; mr_swing_history := mr_swing_history c; mr_fib_sl_retracement := mr_fib_sl_retracement c;
     mr_fib_tp_extension := mr_fib_tp_extension c; mr_atr_buffer_mult_sl := mr_atr_buffer_mult_sl c; mr_atr_buffer_mult_tp
     := mr_atr_buffer_mult_tp c; mr_exit_style := mr_exit_style c; mr_scale_out_ratio := mr_scale_out_ratio c;
     mr_trail_atr_mult := mr_trail_atr_mult c |}.
Definition set_mr_atr_period (x : nat) (c : mr_config) : mr_config :=
  {| mr_period := mr_period c; mr_sizing := mr_sizing c; mr_sl_pct := mr_sl_pct c; mr_tp_pct := mr_tp_pct c; mr_atr_period
     := x; mr_sl_atr_mult := mr_sl_atr_mult c; mr_tp_atr_mult := mr_tp_atr_mult c; mr_swing_strength := mr_swing_strength
     c; mr_swing_history := mr_swing_history c; mr_fib_sl_retracement := mr_fib_sl_retracement c; mr_fib_tp_extension :=
     mr_fib_tp_extension c; mr_atr_buffer_mult_sl := mr_atr_buffer_mult_sl c; mr_atr_buffer_mult_tp :=
     mr_atr_buffer_mult_tp c; mr_exit_style := mr_exit_style c; mr_scale_out_ratio := mr_scale_out_ratio c;
     mr_trail_atr_mult := mr_trail_atr_mult c |}.
Definition set_mr_sl_atr_mult (x : num) (c : mr_config) : mr_config :=
  {| mr_period := mr_period c; mr_sizing := mr_sizing c; mr_sl_pct := mr_sl_pct c; mr_tp_pct := mr_tp_pct c; mr_atr_period
     := mr_atr_period c; mr_sl_atr_mult := x; mr_tp_atr_mult := mr_tp_atr_mult c; mr_swing_strength := mr_swing_strength c;
     mr_swing_history := mr_swing_history c; mr_fib_sl_retracement := mr_fib_sl_retracement c; mr_fib_tp_extension :=
     mr_fib_tp_extension c; mr_atr_buffer_mult_sl := mr_atr_buffer_mult_sl c; mr_atr_buffer_mult_tp :=
     mr_atr_buffer_mult_tp c; mr_exit_style := mr_exit_style c; mr_scale_out_ratio := mr_scale_out_ratio c;
     mr_trail_atr_mult := mr_trail_atr_mult c |}.
Definition set_mr_tp_atr_mult (x : num) (c : mr_config) : mr_config :=
  {| mr_period := mr_period c; mr_sizing := mr_sizing c; mr_sl_pct := mr_sl_pct c; mr_tp_pct := mr_tp_pct c; mr_atr_period
     := mr_atr_period c; mr_sl_atr_mult := mr_sl_atr_mult c; mr_tp_atr_mult := x; mr_swing_strength := mr_swing_strength c;
     mr_swing_history := mr_swing_history c; mr_fib_sl_retracement := mr_fib_sl_retracement c; mr_fib_tp_extension :=
     mr_fib_tp_extension c; mr_atr_buffer_mult_sl := mr_atr_buffer_mult_sl c; mr_atr_buffer_mult_tp :=
     mr_atr_buffer_mult_tp c; mr_exit_style := mr_exit_style c; mr_scale_out_ratio := mr_scale_out_ratio c;
     mr_trail_atr_mult := mr_trail_atr_mult c |}.
Definition set_mr_swing_strength (x : nat) (c : mr_config) : mr_config :=
  {| mr_period := mr_period c; mr_sizing := mr_sizing c; mr_sl_pct := mr_sl_pct c; mr_tp_pct := mr_tp_pct c; mr_atr_period
     := mr_atr_period c; mr_sl_atr_mult := mr_sl_atr_mult c; mr_tp_atr_mult := mr_tp_atr_mult c; mr_swing_strength := x;
     mr_swing_history := mr_swing_history c; mr_fib_sl_retracement := mr_fib_sl_retracement c; mr_fib_tp_extension :=
     mr_fib_tp_extension c; mr_atr_buffer_mult_sl := mr_atr_buffer_mult_sl c; mr_atr_buffer_mult_tp :=
     mr_atr_buffer_mult_tp c; mr_exit_style := mr_exit_style c; mr_scale_out_ratio := mr_scale_out_ratio c;
     mr_trail_atr_mult := mr_trail_atr_mult c |}.
Definition set_mr_fib_sl_retracement (x : num) (c : mr_config) : mr_config :=
  {| mr_period := mr_period c; mr_sizing := mr_sizing c; mr_sl_pct := mr_sl_pct c; mr_tp_pct := mr_tp_pct c; mr_atr_period
     := mr_atr_period c; mr_sl_atr_mult := mr_sl_atr_mult c; mr_tp_atr_mult := mr_tp_atr_mult c; mr_swing_strength :=
     mr_swing_strength c; mr_swing_history := mr_swing_history c; mr_fib_sl_retracement := x; mr_fib_tp_extension :=
     mr_fib_tp_extension c; mr_atr_buffer_mult_sl := mr_atr_buffer_mult_sl c; mr_atr_buffer_mult_tp :=
     mr_atr_buffer_mult_tp c; mr_exit_style := mr_exit_style c; mr_scale_out_ratio := mr_scale_out_ratio c;
     mr_trail_atr_mult := mr_trail_atr_mult c |}.
Definition set_mr_fib_tp_extension (x : num) (c : mr_config) : mr_config :=
  {| mr_period := mr_period c; mr_sizing := mr_sizing c; mr_sl_pct := mr_sl_pct c; mr_tp_pct := mr_tp_pct c; mr_atr_period
     := mr_atr_period c; mr_sl_atr_mult := mr_sl_atr_mult c; mr_tp_atr_mult := mr_tp_atr_mult c; mr_swing_strength :=
     mr_swing_strength c; mr_swing_history := mr_swing_history c; mr_fib_sl_retracement := mr_fib_sl_retracement c;
     mr_fib_tp_extension := x; mr_atr_buffer_mult_sl := mr_atr_buffer_mult_sl c; mr_atr_buffer_mult_tp :=
     mr_atr_buffer_mult_tp c; mr_exit_style := mr_exit_style c; mr_scale_out_ratio := mr_scale_out_ratio c;
     mr_trail_atr_mult := mr_trail_atr_mult c |}.
Definition set_mr_atr_buffer_mult_sl (x : num) (c : mr_config) : mr_config :=
  {| mr_period := mr_period c; mr_sizing := mr_sizing c; mr_sl_pct := mr_sl_pct c; mr_tp_pct := mr_tp_pct c; mr_atr_period
     := mr_atr_period c; mr_sl_atr_mult := mr_sl_atr_mult c; mr_tp_atr_mult := mr_tp_atr_mult c; mr_swing_strength :=
     mr_swing_strength c; mr_swing_history := mr_swing_history c; mr_fib_sl_retracement := mr_fib_sl_retracement c;
     mr_fib_tp_extension := mr_fib_tp_extension c; mr_atr_buffer_mult_sl := x; mr_atr_buffer_mult_tp :=
     mr_atr_buffer_mult_tp c; mr_exit_style := mr_exit_style c; mr_scale_out_ratio := mr_scale_out_ratio c;
     mr_trail_atr_mult := mr_trail_atr_mult c |}.
Definition set_mr_atr_buffer_mult_tp (x : num) (c : mr_config) : mr_config :=
  {| mr_period := mr_period c; mr_sizing := mr_sizing c; mr_sl_pct := mr_sl_pct c; mr_tp_pct := mr_tp_pct c; mr_atr_period
     := mr_atr_period c; mr_sl_atr_mult := mr_sl_atr_mult c; mr_tp_atr_mult := mr_tp_atr_mult c; mr_swing_strength :=
     mr_swing_strength c; mr_swing_history := mr_swing_history c; mr_fib_sl_retracement := mr_fib_sl_retracement c;
     mr_fib_tp_extension := mr_fib_tp_extension c; mr_atr_buffer_mult_sl := mr_atr_buffer_mult_sl c; mr_atr_buffer_mult_tp
     := x; mr_exit_style := mr_exit_style c; mr_scale_out_ratio := mr_scale_out_ratio c; mr_trail_atr_mult :=
     mr_trail_atr_mult c |}.
Definition set_mr_exit_style (x : string) (c : mr_config) : mr_config :=
  {| mr_period := mr_period c; mr_sizing := mr_sizing c; mr_sl_pct := mr_sl_pct c; mr_tp_pct := mr_tp_pct c; mr_atr_period
     := mr_atr_period c; mr_sl_atr_mult := mr_sl_atr_mult c; mr_tp_atr_mult := mr_tp_atr_mult c; mr_swing_strength :=
     mr_swing_strength c; mr_swing_history := mr_swing_history c; mr_fib_sl_retracement := mr_fib_sl_retracement c;
     mr_fib_tp_extension := mr_fib_tp_extension c; mr_atr_buffer_mult_sl := mr_atr_buffer_mult_sl c; mr_atr_buffer_mult_tp
     := mr_atr_buffer_mult_tp c; mr_exit_style := x; mr_scale_out_ratio := mr_scale_out_ratio c; mr_trail_atr_mult :=
     mr_trail_atr_mult c |}.
Definition set_mr_scale_out_ratio (x : num) (c : mr_config) : mr_config :=
  {| mr_period := mr_period c; mr_sizing := mr_sizing c; mr_sl_pct := mr_sl_pct c; mr_tp_pct := mr_tp_pct c; mr_atr_period
     := mr_atr_period c; mr_sl_atr_mult := mr_sl_atr_mult c; mr_tp_atr_mult := mr_tp_atr_mult c; mr_swing_strength :=
     mr_swing_strength c; mr_swing_history := mr_swing_history c; mr_fib_sl_retracement := mr_fib_sl_retracement c;
     mr_fib_tp_extension := mr_fib_tp_extension c; mr_atr_buffer_mult_sl := mr_atr_buffer_mult_sl c; mr_atr_buffer_mult_tp
     := mr_atr_buffer_mult_tp c; mr_exit_style := mr_exit_style c; mr_scale_out_ratio := x; mr_trail_atr_mult :=
     mr_trail_atr_mult c |}.
Definition set_mr_trail_atr_mult (x : num) (c : mr_config) : mr_config :=
  {| mr_period := mr_period c; mr_sizing := mr_sizing c; mr_sl_pct := mr_sl_pct c; mr_tp_pct := mr_tp_pct c; mr_atr_period
     := mr_atr_period c; mr_sl_atr_mult := mr_sl_atr_mult c; mr_tp_atr_mult := mr_tp_atr_mult c; mr_swing_strength :=
     mr_swing_strength c; mr_swing_history := mr_swing_history c; mr_fib_sl_retracement := mr_fib_sl_retracement c;
     mr_fib_tp_extension := mr_fib_tp_extension c; mr_atr_buffer_mult_sl := mr_atr_buffer_mult_sl c; mr_atr_buffer_mult_tp
     := mr_atr_buffer_mult_tp c; mr_exit_style := mr_exit_style c; mr_scale_out_ratio := mr_scale_out_ratio c;
     mr_trail_atr_mult := x |}.

Inductive sma_side := ss_unknown | ss_below | ss_equal | ss_above.
#[global] Instance sma_side_eq : EqDecision sma_side.
Proof. solve_decision. Defined.
(** [symbol_state] with its [symbol_gate]. *)
Record mr_state := {
  ms_sma : simple_moving_average;
  ms_atr : average_true_range;
  ms_swing : swing_detector;
  ms_open : bool;
  ms_prev_side : sma_side }.
Record mean_reversion_strategy := {
  mr_cfg : mr_config;
  mr_states : SymbolStateStore (State := mr_state);
  mr_pending : list exit_intent }.

Definition mk_mean_reversion (period : nat) (equity risk_fraction sl_pct tp_pct : num) (atr_period : nat) : mean_reversion_strategy :=
  {| mr_cfg := {| mr_period := period; mr_sizing := no_costs equity risk_fraction; mr_sl_pct := sl_pct; mr_tp_pct := tp_pct;
       mr_atr_period := atr_period; mr_sl_atr_mult := n_lit 15 10; mr_tp_atr_mult := n_lit 3 1; mr_swing_strength := 2;
       mr_swing_history := 32; mr_fib_sl_retracement := n_lit 618 1000; mr_fib_tp_extension := n_lit 1618 1000;
       mr_atr_buffer_mult_sl := n_lit 20 100; mr_atr_buffer_mult_tp := n_lit 10 100; mr_exit_style := "fib";
       mr_scale_out_ratio := n_lit 5 10; mr_trail_atr_mult := n_lit 2 1 |};
     mr_states := mk_store; mr_pending := [] |}.
Definition mr_factory (c : mr_config) : mr_state :=
  {| ms_sma := mk_sma (mr_period c); ms_atr := mk_atr (mr_atr_period c); ms_swing := mk_swing (mr_swing_strength c) (mr_swing_history c);
     ms_open := false; ms_prev_side := ss_unknown |}.
Definition needs_atr (c : mr_config) : bool := bool_decide (mr_exit_style c ≠ "pct").
Definition needs_swing (c : mr_config) : bool := bool_decide (mr_exit_style c = "fib").

Definition compute_quantity_with_sl (c : mr_config) (entry sl : num) (long : bool) : num :=
  compute_risk_quantity (size_inputs (mr_sizing c) entry sl long).
Definition update_indicators (c : mr_config) (high low close : num) (st : mr_state) : mr_state :=
  {| ms_sma := ms_sma st; ms_atr := if needs_atr c then (atr_update high low close (ms_atr st)).2 else ms_atr st;
     ms_swing := if needs_swing c then swing_update high low (ms_swing st) else ms_swing st; ms_open := ms_open st;
     ms_prev_side := ms_prev_side st |}.
Definition side_of (price sma_value : num) : sma_side :=
  if (price <? sma_value)%num then ss_below else if (price >? sma_value)%num then ss_above else ss_equal.

(** The swing on the far side of an entry, and the impulse it makes with the entry. *)
Definition opposing (st : mr_state) (long : bool) : option num :=
  sp_price <$> (if long then ss_last_swing_high (sd_state (ms_swing st)) else ss_last_swing_low (sd_state (ms_swing st))).
Definition impulse (st : mr_state) (entry : num) (long : bool) : num * num :=
  if long then (default (entry * n_lit 103 100)%num (opposing st long), entry)
  else (entry, default (entry * n_lit 97 100)%num (opposing st long)).
(** The stop a true range away, moved behind the swing and out to the least distance. *)
Definition structure_stop (c : mr_config) (st : mr_state) (entry : num) (long : bool) : num :=
  let atrv := atr_value (ms_atr st) in
  let min_dist := n_max (n_lit 4 10 * atrv)%num (n_lit 3 1000 * entry)%num in
  if long then
    let sl := (entry - mr_sl_atr_mult c * atrv)%num in
    let sl := match opposing st long with Some p => n_min sl (p - n_lit 2 10 * atrv)%num | None => sl end in
    if (entry - sl <? min_dist)%num then (entry - min_dist)%num else sl
  else
    let sl := (entry + mr_sl_atr_mult c * atrv)%num in
    let sl := match opposing st long with Some p => n_max sl (p + n_lit 2 10 * atrv)%num | None => sl end in
    if (sl - entry <? min_dist)%num then (entry + min_dist)%num else sl.
Definition atr_stop (c : mr_config) (st : mr_state) (entry : num) (long : bool) : num :=
  if long then (entry - mr_sl_atr_mult c * atr_value (ms_atr st))%num else (entry + mr_sl_atr_mult c * atr_value (ms_atr st))%num.
Definition use_structure (c : mr_config) (st : mr_state) : bool :=
  needs_swing c && swing_ready (ms_swing st) && atr_ready (ms_atr st).
Definition use_atr_levels (c : mr_config) (st : mr_state) : bool :=
  atr_ready (ms_atr st) && (atr_value (ms_atr st) >? n_zero)%num.

(** The impulse that is too short for a fraction of the price is replaced in the source
    and not read again. *)
Definition compute_intended_sl (c : mr_config) (st : mr_state) (entry : num) (long : bool) : num :=
  if use_structure c st then
    let '(hi, lo) := impulse st entry long in
    if (n_abs (hi - lo) <? n_lit 12 10 * atr_value (ms_atr st))%num then atr_stop c st entry long
    else structure_stop c st entry long
  else if (bool_decide (mr_exit_style c = "atr") || needs_swing c) && use_atr_levels c st then atr_stop c st entry long
  else if long then (entry * (n_one - mr_sl_pct c))%num else (entry * (n_one + mr_sl_pct c))%num.

Definition structure_target (c : mr_config) (st : mr_state) (entry : num) (long : bool) : num :=
  let atrv := atr_value (ms_atr st) in
  let '(hi, lo) := impulse st entry long in
  let short := (n_abs (hi - lo) <? n_lit 1 1000 * entry)%num in
  let hi := if short then if long then (entry * n_lit 102 100)%num else entry else hi in
  let lo := if short then if long then entry else (entry * n_lit 98 100)%num else lo in
  let extension := (mr_fib_tp_extension c * n_abs (hi - lo))%num in
  let least := (n_lit 15 10 * atrv)%num in
  if long then
    let tp := (entry + extension)%num in if (tp - entry <? least)%num then (entry + least)%num else tp
  else
    let tp := (entry - extension)%num in if (entry - tp <? least)%num then (entry - least)%num else tp.
Definition mr_base_intent (c : mr_config) (st : mr_state) (sym : string) (entry qty : num) (long : bool) : exit_intent :=
  let atrv := atr_value (ms_atr st) in
  if use_structure c st then
    bracket sym long qty (Some (structure_stop c st entry long)) (Some (structure_target c st entry long)) (Some entry) None n_one
      "mean-reversion"
  else if use_atr_levels c st && needs_atr c then
    let tp := if long then (entry + mr_tp_atr_mult c * atrv)%num else (entry - mr_tp_atr_mult c * atrv)%num in
    bracket sym long qty (Some (atr_stop c st entry long)) (Some tp) (Some entry) None n_one "mean-reversion"
  else (if long then make_long_exit_intent else make_short_exit_intent) sym entry qty (mr_sl_pct c) (mr_tp_pct c) "mean-reversion".
Definition first_part (fraction : num) (i : exit_intent) : exit_intent :=
  {| ei_symbol := ei_symbol i; close_side := close_side i; ei_qty := ei_qty i; qty_fraction := fraction; stop_loss := stop_loss i;
     take_profit := take_profit i; reference_entry := reference_entry i; trailing_pct := trailing_pct i; deadline := deadline i;
     ei_opener_order_id := ei_opener_order_id i; ei_strategy_name := ei_strategy_name i |}.
Definition runner_part (fraction trail : num) (i : exit_intent) : exit_intent :=
  {| ei_symbol := ei_symbol i; close_side := close_side i; ei_qty := ei_qty i; qty_fraction := fraction; stop_loss := stop_loss i;
     take_profit := None; reference_entry := reference_entry i; trailing_pct := Some trail; deadline := deadline i;
     ei_opener_order_id := ei_opener_order_id i; ei_strategy_name := ei_strategy_name i |}.
Definition mr_exit_intents (c : mr_config) (st : mr_state) (sym : string) (entry qty : num) (long : bool) : list exit_intent :=
  let base := mr_base_intent c st sym entry qty long in
  let r := mr_scale_out_ratio c in
  let do_scale := (needs_swing c || bool_decide (mr_exit_style c = "atr")) && (r >? n_zero)%num && (r <? n_one)%num in
  if do_scale then
    let atrv := if needs_atr c && atr_ready (ms_atr st) then atr_value (ms_atr st) else n_zero in
    let trail :=
      if (atrv >? n_zero)%num then n_clamp (mr_trail_atr_mult c * atrv / entry)%num (n_lit 3 1000) (n_lit 8 100)
      else n_clamp (mr_trail_atr_mult c * n_lit 1 100)%num (n_lit 3 1000) (n_lit 5 100) in
    [first_part r base; runner_part (n_one - r)%num trail base]
  else [base].
Definition mr_gate (open : bool) (prev : sma_side) (st : mr_state) : mr_state :=
  {| ms_sma := ms_sma st; ms_atr := ms_atr st; ms_swing := ms_swing st; ms_open := open; ms_prev_side := prev |}.
(** The order, the exits appended to the pending ones, and the state of the symbol. *)
Definition try_entry (c : mr_config) (sym : string) (ts : time_point) (price sma_value : num) (st : mr_state)
    : (option order_msg * list exit_intent) * mr_state :=
  if ms_open st then ((None, []), st) else
  let side := side_of price sma_value in
  let prev := ms_prev_side st in
  let st := mr_gate (ms_open st) side st in
  let long_edge := bool_decide (side = ss_below) && bool_decide (prev ≠ ss_below) in
  let short_edge := bool_decide (side = ss_above) && bool_decide (prev ≠ ss_above) in
  if bool_decide (side = ss_equal) || negb long_edge && negb short_edge then ((None, []), st) else
  let qty := compute_quantity_with_sl c price (compute_intended_sl c st price long_edge) long_edge in
  if (qty <=? n_zero)%num then ((None, []), st) else
  ((Some (mk_order_msg ts sym ot_market (if long_edge then side_buy else side_sell) qty price tif_gtc),
    mr_exit_intents c st sym price qty long_edge), mr_gate true side st).
Definition mr_bar (c : mr_config) (ts : time_point) (high low close : num) (st : mr_state) (sym : string)
    : (option order_msg * list exit_intent) * mr_state :=
  let u := sma_update close (ms_sma st) in
  let st := {| ms_sma := u.2; ms_atr := ms_atr st; ms_swing := ms_swing st; ms_open := ms_open st; ms_prev_side := ms_prev_side st |} in
  match u.1 with
  | None => ((None, []), st)
  | Some sma_value => try_entry c sym ts close sma_value (update_indicators c high low close st)
  end.
(** A handler of the slot of a symbol, and its pending exits. *)
Definition mr_handle (sym : string) (f : mr_state → string → (option order_msg * list exit_intent) * mr_state) (s : mean_reversion_strategy)
    : exc (option order_msg) * mean_reversion_strategy :=
  match on_slot (mr_factory (mr_cfg s)) sym f (mr_states s) with
  | (Throw why, states) => (Throw why, {| mr_cfg := mr_cfg s; mr_states := states; mr_pending := mr_pending s |})
  | (Ret (o, intents), states) => (Ret o, {| mr_cfg := mr_cfg s; mr_states := states; mr_pending := mr_pending s ++ intents |})
  end.
Definition mr_on_market (m : market_msg) (s : mean_reversion_strategy) : exc (option order_msg) * mean_reversion_strategy :=
  mr_handle (mm_symbol m) (mr_bar (mr_cfg s) (mm_ts m) (mm_high m) (mm_low m) (mm_close m)) s.
Definition mr_on_tick (t : tick_msg) (s : mean_reversion_strategy) : exc (option order_msg) * mean_reversion_strategy :=
  mr_handle (tm_symbol t) (mr_bar (mr_cfg s) (tm_ts t) (tm_price t) (tm_price t) (tm_price t)) s.
Definition mr_take_pending (s : mean_reversion_strategy) : list exit_intent * mean_reversion_strategy :=
  (mr_pending s, {| mr_cfg := mr_cfg s; mr_states := mr_states s; mr_pending := [] |}).
Definition mr_set_position_open (sym : string) (open : bool) (s : mean_reversion_strategy) : exc (option order_msg) * mean_reversion_strategy :=
  mr_handle sym (λ st _, ((None, []), mr_gate open (ms_prev_side st) st)) s.
Definition mr_update_equity (equity : num) (s : mean_reversion_strategy) : mean_reversion_strategy :=
  {| mr_cfg := set_mr_sizing (set_sz_equity equity (mr_sizing (mr_cfg s))) (mr_cfg s); mr_states := mr_states s; mr_pending := mr_pending s |}.
Definition mr_reset (s : mean_reversion_strategy) : mean_reversion_strategy := {| mr_cfg := mr_cfg s; mr_states := mk_store; mr_pending := [] |}.
Definition mr_set_param (key : string) (value : num) (s : mean_reversion_strategy) : exc mean_reversion_strategy :=
  let c := mr_cfg s in
  let keep c := Ret {| mr_cfg := c; mr_states := mr_states s; mr_pending := mr_pending s |} in
  let clear c := Ret {| mr_cfg := c; mr_states := mk_store; mr_pending := mr_pending s |} in
  if bool_decide (key = "period") then clear (set_mr_period (size_of_num value) c)
  else if bool_decide (key = "equity") then keep (set_mr_sizing (set_sz_equity value (mr_sizing c)) c)
  else match set_sizing_param key value (mr_sizing c) with Some p => keep (set_mr_sizing p c) | None =>
  if bool_decide (key = "sl_pct") then keep (set_mr_sl_pct value c)
  else if bool_decide (key = "tp_pct") then keep (set_mr_tp_pct value c)
  else if bool_decide (key = "atr_period") then clear (set_mr_atr_period (size_of_num value) c)
  else if bool_decide (key = "sl_atr_mult") then keep (set_mr_sl_atr_mult value c)
  else if bool_decide (key = "tp_atr_mult") then keep (set_mr_tp_atr_mult value c)
  else if bool_decide (key = "swing_strength") then clear (set_mr_swing_strength (size_of_num value) c)
  else if bool_decide (key = "fib_sl_retracement") then keep (set_mr_fib_sl_retracement value c)
  else if bool_decide (key = "fib_tp_extension") then keep (set_mr_fib_tp_extension value c)
  else if bool_decide (key = "atr_buffer_mult_sl") then keep (set_mr_atr_buffer_mult_sl value c)
  else if bool_decide (key = "atr_buffer_mult_tp") then keep (set_mr_atr_buffer_mult_tp value c)
  else if bool_decide (key = "exit_style") then
    clear (set_mr_exit_style (if n_eqb value n_zero then "pct" else if n_eqb value n_one then "atr" else "fib") c)
  else if bool_decide (key = "scale_out_ratio") then keep (set_mr_scale_out_ratio value c)
  else if bool_decide (key = "trail_atr_mult") then keep (set_mr_trail_atr_mult value c)
  else Throw ("Unknown parameter: " +:+ key)
  end.

(** ** breakout_strategy *)

Definition MAX_HISTORY : nat := 60.
Definition MIN_BODY_STRENGTH : num := n_lit 55 100.
(** [std::numeric_limits<double>::max()] *)
Definition n_dbl_max : num := n_lit (2 ^ 1024 - 2 ^ 971) 1.

Record bo_config := {
  bo_sizing : sizing_params;
  bo_atr_period : nat;
  bo_vol_period : nat;
  bo_lookback : nat;
  bo_threshold : num;
  bo_atr_expansion : num;
  bo_vol_mult : num;
  bo_min_rr : num }.
Definition set_bo_sizing (x : sizing_params) (c : bo_config) : bo_config :=
  {| bo_sizing := x; bo_atr_period := bo_atr_period c; bo_vol_period := bo_vol_period c; bo_lookback := bo_lookback c;
     bo_threshold := bo_threshold c; bo_atr_expansion := bo_atr_expansion c; bo_vol_mult := bo_vol_mult c; bo_min_rr :=
     bo_min_rr c |}.
Definition set_bo_atr_period (x : nat) (c : bo_config) : bo_config :=
  {| bo_sizing := bo_sizing c; bo_atr_period := x; bo_vol_period := bo_vol_period c; bo_lookback := bo_lookback c;
     bo_threshold := bo_threshold c; bo_atr_expansion := bo_atr_expansion c; bo_vol_mult := bo_vol_mult c; bo_min_rr :=
     bo_min_rr c |}.
Definition set_bo_vol_period (x : nat) (c : bo_config) : bo_config :=
  {| bo_sizing := bo_sizing c; bo_atr_period := bo_atr_period c; bo_vol_period := x; bo_lookback := bo_lookback c;
     bo_threshold := bo_threshold c; bo_atr_expansion := bo_atr_expansion c; bo_vol_mult := bo_vol_mult c; bo_min_rr :=
     bo_min_rr c |}.
Definition set_bo_lookback (x : nat) (c : bo_config) : bo_config :=
  {| bo_sizing := bo_sizing c; bo_atr_period := bo_atr_period c; bo_vol_period := bo_vol_period c; bo_lookback := x;
     bo_threshold := bo_threshold c; bo_atr_expansion := bo_atr_expansion c; bo_vol_mult := bo_vol_mult c; bo_min_rr :=
     bo_min_rr c |}.
Definition set_bo_threshold (x : num) (c : bo_config) : bo_config :=
  {| bo_sizing := bo_sizing c; bo_atr_period := bo_atr_period c; bo_vol_period := bo_vol_period c; bo_lookback :=
     bo_lookback c; bo_threshold := x; bo_atr_expansion := bo_atr_expansion c; bo_vol_mult := bo_vol_mult c; bo_min_rr :=
     bo_min_rr c |}.
Definition set_bo_atr_expansion (x : num) (c : bo_config) : bo_config :=
  {| bo_sizing := bo_sizing c; bo_atr_period := bo_atr_period c; bo_vol_period := bo_vol_period c; bo_lookback :=
     bo_lookback c; bo_threshold := bo_threshold c; bo_atr_expansion := x; bo_vol_mult := bo_vol_mult c; bo_min_rr :=
     bo_min_rr c |}.
Definition set_bo_vol_mult (x : num) (c : bo_config) : bo_config :=
  {| bo_sizing := bo_sizing c; bo_atr_period := bo_atr_period c; bo_vol_period := bo_vol_period c; bo_lookback :=
     bo_lookback c; bo_threshold := bo_threshold c; bo_atr_expansion := bo_atr_expansion c; bo_vol_mult := x; bo_min_rr :=
     bo_min_rr c |}.
Definition set_bo_min_rr (x : num) (c : bo_config) : bo_config :=
  {| bo_sizing := bo_sizing c; bo_atr_period := bo_atr_period c; bo_vol_period := bo_vol_period c; bo_lookback :=
     bo_lookback c; bo_threshold := bo_threshold c; bo_atr_expansion := bo_atr_expansion c; bo_vol_mult := bo_vol_mult c;
     bo_min_rr := x |}.

Inductive breakout_phase := SCANNING | CONSOLIDATING | BROKEN | RETESTED.
#[global] Instance breakout_phase_eq : EqDecision breakout_phase.
Proof. solve_decision. Defined.
Record bo_state := {
  bs_atr : average_true_range;
  bs_vol_sma : simple_moving_average;
  bs_highs : list num;
  bs_lows : list num;
  bs_atr_history : list num;
  bs_vol_history : list num;
  bs_open : bool;
  bs_open_lots : Z;
  bs_phase : breakout_phase;
  bs_level : num;
  bs_since_break : Z;
  bs_consolidation_low : num;
  bs_consolidation_high : num;
  bs_atr_at_break : num }.
Record breakout_strategy := {
  bo_cfg : bo_config;
  bo_states : SymbolStateStore (State := bo_state);
  bo_pending : list exit_intent }.
Definition mk_breakout (equity risk_fraction : num) (atr_period vol_period lookback : nat) (threshold atr_expansion vol_mult min_rr : num)
    : breakout_strategy :=
  {| bo_cfg := {| bo_sizing := no_costs equity risk_fraction; bo_atr_period := atr_period; bo_vol_period := vol_period;
       bo_lookback := lookback; bo_threshold := threshold; bo_atr_expansion := atr_expansion; bo_vol_mult := vol_mult; bo_min_rr := min_rr |};
     bo_states := mk_store; bo_pending := [] |}.
Definition bo_factory (c : bo_config) : bo_state :=
  {| bs_atr := mk_atr (bo_atr_period c); bs_vol_sma := mk_sma (bo_vol_period c); bs_highs := []; bs_lows := []; bs_atr_history := [];
     bs_vol_history := []; bs_open := false; bs_open_lots := 0; bs_phase := SCANNING; bs_level := n_zero; bs_since_break := 0;
     bs_consolidation_low := n_zero; bs_consolidation_high := n_zero; bs_atr_at_break := n_zero |}.

(** The moves of the breakout state machine and of the position. *)
Definition bo_move (phase : breakout_phase) (level : num) (since : Z) (low high atr_at_break : num) (st : bo_state) : bo_state :=
  {| bs_atr := bs_atr st; bs_vol_sma := bs_vol_sma st; bs_highs := bs_highs st; bs_lows := bs_lows st; bs_atr_history := bs_atr_history st;
     bs_vol_history := bs_vol_history st; bs_open := bs_open st; bs_open_lots := bs_open_lots st; bs_phase := phase; bs_level := level;
     bs_since_break := since; bs_consolidation_low := low; bs_consolidation_high := high; bs_atr_at_break := atr_at_break |}.
Definition bo_position (open : bool) (lots : Z) (st : bo_state) : bo_state :=
  {| bs_atr := bs_atr st; bs_vol_sma := bs_vol_sma st; bs_highs := bs_highs st; bs_lows := bs_lows st; bs_atr_history := bs_atr_history st;
     bs_vol_history := bs_vol_history st; bs_open := open; bs_open_lots := lots; bs_phase := bs_phase st; bs_level := bs_level st;
     bs_since_break := bs_since_break st; bs_consolidation_low := bs_consolidation_low st;
     bs_consolidation_high := bs_consolidation_high st; bs_atr_at_break := bs_atr_at_break st |}.
Definition bo_phase (phase : breakout_phase) (st : bo_state) : bo_state :=
  bo_move phase (bs_level st) (bs_since_break st) (bs_consolidation_low st) (bs_consolidation_high st) (bs_atr_at_break st) st.
Definition bo_since (since : Z) (st : bo_state) : bo_state :=
  bo_move (bs_phase st) (bs_level st) since (bs_consolidation_low st) (bs_consolidation_high st) (bs_atr_at_break st) st.
(** A new scan forgets the range. *)
Definition bo_rescan (st : bo_state) : bo_state := bo_move SCANNING (bs_level st) (bs_since_break st) n_zero n_zero (bs_atr_at_break st) st.

(** The indicators and histories of a bar, [trim_deques] included. *)
Definition bo_update (high low close volume : num) (st : bo_state) : bo_state :=
  let a := atr_update high low close (bs_atr st) in
  {| bs_atr := a.2; bs_vol_sma := (sma_update volume (bs_vol_sma st)).2; bs_highs := trim_front MAX_HISTORY (bs_highs st ++ [high]);
     bs_lows := trim_front MAX_HISTORY (bs_lows st ++ [low]);
     bs_atr_history := trim_front 20 (bs_atr_history st ++ option_list a.1);
     bs_vol_history := trim_front 30 (bs_vol_history st ++ [volume]); bs_open := bs_open st; bs_open_lots := bs_open_lots st;
     bs_phase := bs_phase st; bs_level := bs_level st; bs_since_break := bs_since_break st;
     bs_consolidation_low := bs_consolidation_low st; bs_consolidation_high := bs_consolidation_high st;
     bs_atr_at_break := bs_atr_at_break st |}.
Definition get_recent_atr_min (n : nat) (st : bo_state) : num :=
  if (length (bs_atr_history st) <? n)%nat then atr_value (bs_atr st)
  else foldl n_min n_dbl_max (take n (reverse (bs_atr_history st))).
(** The highest high and the lowest low of the window, newest first. *)
Definition window_range (lookback : nat) (st : bo_state) : num * num :=
  let hs := take (Nat.max 1 lookback) (reverse (bs_highs st)) in
  let ls := take (Nat.max 1 lookback) (reverse (bs_lows st)) in
  (default n_zero (list_max hs), default n_zero (list_min ls)).
Definition detect_consolidation (c : bo_config) (st : bo_state) : option (num * num) :=
  if (length (bs_highs st) <? bo_lookback c)%nat || (length (bs_lows st) <? bo_lookback c)%nat then None else
  let '(hh, ll) := window_range (bo_lookback c) st in
  if (hh <=? ll)%num then None else
  let atr := if atr_ready (bs_atr st) then atr_value (bs_atr st) else n_zero in
  if (atr >? n_zero)%num && (hh - ll >? n_lit 45 10 * atr)%num then None else
  if (5 <=? length (bs_atr_history st))%nat && (atr >? get_recent_atr_min 5 st * n_lit 135 100)%num then None else
  Some (hh, ll).
(** The break level when every gate is passed. *)
Definition check_breakout_gates (c : bo_config) (st : bo_state) (open close high low atr vol : num) : option num :=
  if negb (atr_ready (bs_atr st)) || negb (sma_ready (bs_vol_sma st)) || (atr <=? n_zero)%num then None else
  if (bs_consolidation_high st <=? bs_consolidation_low st)%num then None else
  let vol_avg := default n_zero (sma_last_value (bs_vol_sma st)) in
  let break_price := (bs_consolidation_high st * (n_one + bo_threshold c))%num in
  if (close <? break_price)%num then None else
  let bar_range := (high - low)%num in
  if (bar_range <=? n_zero)%num then None else
  if (n_abs (close - open) / bar_range <? MIN_BODY_STRENGTH)%num then None else
  if (atr <=? get_recent_atr_min 10 st * (n_one + bo_atr_expansion c))%num then None else
  if (vol_avg >? n_zero)%num && (vol <? vol_avg * bo_vol_mult c)%num then None else
  Some break_price.
Definition bo_quantity (c : bo_config) (price sl_distance : num) : num :=
  if (price <=? n_zero)%num || (sl_distance <=? n_zero)%num then n_zero
  else compute_risk_quantity (size_inputs (bo_sizing c) price (price - sl_distance)%num true).
(** The entry: stop, size, target and the two exits. *)
Definition bo_stop (st : bo_state) (atrv : num) : num := (bs_consolidation_low st - n_lit 65 100 * atrv)%num.
Definition bo_distance (st : bo_state) (price atrv : num) : num :=
  let d := (price - bo_stop st atrv)%num in if (d <? n_lit 3 10 * atrv)%num then (n_lit 8 10 * atrv)%num else d.
Definition bo_target (c : bo_config) (st : bo_state) (price atrv : num) : num :=
  let distance := bo_distance st price atrv in
  let tp1 := (price + (bs_consolidation_high st - bs_consolidation_low st) + n_lit 6 10 * atrv)%num in
  if ((tp1 - price) / distance <? bo_min_rr c)%num then (price + n_lit 28 10 * distance)%num else tp1.
Definition bo_intents (c : bo_config) (st : bo_state) (sym : string) (price qty atrv : num) : list exit_intent :=
  let sl := bo_stop st atrv in
  let trail := n_clamp (n_lit 2 1 * atrv / price)%num (n_lit 4 1000) (n_lit 25 1000) in
  [bracket sym true qty (Some sl) (Some (bo_target c st price atrv)) None None (n_lit 45 100) "breakout";
   bracket sym true qty (Some sl) None None (Some trail) (n_lit 55 100) "breakout"].

(** What a bar without an entry does to the state machine. *)
Definition bo_advance (c : bo_config) (close : num) (st : bo_state) : bo_state :=
  if (bs_consolidation_high st >? n_zero)%num &&
     (close >? bs_consolidation_high st * (n_one + bo_threshold c * n_lit 6 10))%num
  then
    match bs_phase st with
    | CONSOLIDATING => bo_move BROKEN close 0 (bs_consolidation_low st) (bs_consolidation_high st) (bs_atr_at_break st) st
    | BROKEN => let st := bo_since (bs_since_break st + 1) st in if bs_since_break st >? 8 then bo_rescan st else st
    | _ => st
    end
  else
    match bs_phase st with
    | BROKEN | RETESTED => let st := bo_since (bs_since_break st + 1) st in if bs_since_break st >? 12 then bo_rescan st else st
    | _ => st
    end.
Definition bo_consolidate (c : bo_config) (st : bo_state) : bo_state :=
  match detect_consolidation c st with
  | Some (hh, ll) =>
      bo_move (if bool_decide (bs_phase st = SCANNING) then CONSOLIDATING else bs_phase st) (bs_level st) (bs_since_break st) ll hh
        (bs_atr_at_break st) st
  | None => st
  end.
(** The bar on the state of its symbol.  [None] for the exits leaves the pending ones
    alone; an entry replaces them. *)
Definition bo_bar (c : bo_config) (m : market_msg) (st : bo_state) (sym : string)
    : (option order_msg * option (list exit_intent)) * bo_state :=
  let close := mm_close m in
  let vol := n_lit (mm_volume m) 1 in
  let st := bo_update (mm_high m) (mm_low m) close vol st in
  if negb (atr_ready (bs_atr st)) || negb (sma_ready (bs_vol_sma st)) then ((None, None), st) else
  let atrv := atr_value (bs_atr st) in
  let st := bo_consolidate c st in
  if bs_open st || (0 <? bs_open_lots st) then ((None, None), st) else
  match check_breakout_gates c st (mm_open m) close (mm_high m) (mm_low m) atrv vol, bs_phase st with
  | Some level, BROKEN | Some level, CONSOLIDATING =>
      if bool_decide (bs_phase st = BROKEN) && (bs_since_break st <? 1) then
        ((None, None), bo_move BROKEN level 1 (bs_consolidation_low st) (bs_consolidation_high st) (bs_atr_at_break st) st)
      else
        let qty := bo_quantity c close (bo_distance st close atrv) in
        if (qty <=? n_zero)%num then ((None, None), st) else
        ((Some (mk_order_msg (mm_ts m) sym ot_market side_buy qty close tif_gtc), Some (bo_intents c st sym close qty atrv)),
         bo_move RETESTED level 0 (bs_consolidation_low st) (bs_consolidation_high st) atrv st)
  | _, _ => ((None, None), bo_advance c close st)
  end.
Definition bo_handle (sym : string) (f : bo_state → string → (option order_msg * option (list exit_intent)) * bo_state) (s : breakout_strategy)
    : exc (option order_msg) * breakout_strategy :=
  match on_slot (bo_factory (bo_cfg s)) sym f (bo_states s) with
  | (Throw why, states) => (Throw why, {| bo_cfg := bo_cfg s; bo_states := states; bo_pending := bo_pending s |})
  | (Ret (o, intents), states) => (Ret o, {| bo_cfg := bo_cfg s; bo_states := states; bo_pending := default (bo_pending s) intents |})
  end.
Definition bo_on_market (m : market_msg) (s : breakout_strategy) : exc (option order_msg) * breakout_strategy :=
  bo_handle (mm_symbol m) (bo_bar (bo_cfg s) m) s.
Definition bo_take_pending (s : breakout_strategy) : list exit_intent * breakout_strategy :=
  (bo_pending s, {| bo_cfg := bo_cfg s; bo_states := bo_states s; bo_pending := [] |}).
Definition bo_filled (f : fill_msg) (opener : Z) (st : bo_state) : bo_state :=
  if opener =? fm_order_id f then
    if bool_decide (fm_side f = side_buy) then bo_position (bs_open st) (bs_open_lots st + 1) st else st
  else
    let lots := if 0 <? bs_open_lots st then bs_open_lots st - 1 else bs_open_lots st in
    if lots =? 0 then bo_rescan (bo_position false lots st) else bo_position (bs_open st) lots st.
Definition bo_on_fill (f : fill_msg) (opener : Z) (s : breakout_strategy) : exc (option order_msg) * breakout_strategy :=
  bo_handle (fm_symbol f) (λ st _, ((None, None), bo_filled f opener st)) s.
Definition bo_set_position_open (sym : string) (open : bool) (s : breakout_strategy) : exc (option order_msg) * breakout_strategy :=
  bo_handle sym (λ st _, ((None, None),
    bo_position open (if negb open && (0 <? bs_open_lots st) then 0 else bs_open_lots st) st)) s.
Definition bo_set_param (key : string) (value : num) (s : breakout_strategy) : exc breakout_strategy :=
  let c := bo_cfg s in
  let keep c := Ret {| bo_cfg := c; bo_states := bo_states s; bo_pending := bo_pending s |} in
  let clear c := Ret {| bo_cfg := c; bo_states := mk_store; bo_pending := bo_pending s |} in
  if bool_decide (key = "equity") then keep (set_bo_sizing (set_sz_equity value (bo_sizing c)) c)
  else match set_sizing_param key value (bo_sizing c) with Some p => keep (set_bo_sizing p c) | None =>
  if bool_decide (key = "atr_period") then clear (set_bo_atr_period (size_of_num value) c)
  else if bool_decide (key = "vol_period") then clear (set_bo_vol_period (size_of_num value) c)
  else if bool_decide (key = "lookback") then keep (set_bo_lookback (size_of_num value) c)
  else if bool_decide (key = "breakout_threshold") then keep (set_bo_threshold value c)
  else if bool_decide (key = "atr_expansion") then keep (set_bo_atr_expansion value c)
  else if bool_decide (key = "vol_mult") then keep (set_bo_vol_mult value c)
  else if bool_decide (key = "min_rr") then keep (set_bo_min_rr value c)
  else Throw ("Unknown parameter for breakout: " +:+ key)
  end.
End Brackets.
