(* ===== verification/Continuation.v ===== *)
(** * structure_continuation_strategy (src/src/strategy)

    The state machine that waits for a sideways market, takes the first signal after it
    as an orientation and trades the second, with its filters, its sizing and the exits it
    registers. *)

From S2P Require Import Prelude Float64 Event Arith Portfolio Sizing Exits Indicators Swing Symbols EngineEvents EngineState StateStore Strategies BracketStrategies.

Open Scope string_scope.
Open Scope list_scope.
Open Scope Z_scope.

Section Continuation.
Context {A : Arith}.

Inductive ContinuationPhase := NORMAL | AFTER_SIDEWAYS | ORIENTATION_PENDING | READY_FOR_CONTINUATION | IN_TRADE | COOLDOWN.
#[global] Instance ContinuationPhase_eq : EqDecision ContinuationPhase.
Proof. solve_decision. Defined.
Record ct_state := {
  ct_ema50 : exponential_moving_average;
  ct_ema100 : exponential_moving_average;
  ct_stoch : stochastic_oscillator;
  ct_swing : swing_detector;
  ct_atr : average_true_range;
  ct_regime : ema_regime_detector;
  ct_phase : ContinuationPhase;
  ct_bias : Z;
  ct_since_exit : Z;
  ct_signals : Z;
  ct_cooldown : Z;
  ct_open : bool;
  ct_open_lots : Z;
  ct_last_opener : Z;
  ct_last_close : num }.
(** The members it sizes with; it has no equity of its own. *)
Record structure_continuation_strategy := {
  sc_sizing : sizing_params;
  sc_swing_strength : nat;
  sc_swing_history : nat;
  sc_states : SymbolStateStore (State := ct_state);
  sc_pending : list exit_intent }.
Definition mk_continuation (risk_fraction : num) (swing_strength swing_history : nat) : structure_continuation_strategy :=
  {| sc_sizing := no_costs (n_lit 10000 1) risk_fraction; sc_swing_strength := swing_strength; sc_swing_history := swing_history;
     sc_states := mk_store; sc_pending := [] |}.
Definition ct_factory (strength history : nat) : ct_state :=
  {| ct_ema50 := mk_ema 50; ct_ema100 := mk_ema 100; ct_stoch := mk_stochastic 5 3 3; ct_swing := mk_swing strength history;
     ct_atr := mk_atr 14; ct_regime := default_regime; ct_phase := NORMAL; ct_bias := 0; ct_since_exit := 0; ct_signals := 0;
     ct_cooldown := 0; ct_open := false; ct_open_lots := 0; ct_last_opener := 0; ct_last_close := n_zero |}.

Definition ema_ready (e : exponential_moving_average) : bool := bool_decide (is_Some (ema_last_value e)).
Definition ema_value (e : exponential_moving_average) : num := default n_zero (ema_last_value e).
Definition is_in (p : ContinuationPhase) (st : ct_state) : bool := bool_decide (ct_phase st = p).
(** In a trade or cooling down, when stochastic, regime and setups are left alone. *)
Definition resting (st : ct_state) : bool := is_in IN_TRADE st || is_in COOLDOWN st.

Definition update_all_indicators (high low close : num) (st : ct_state) : ct_state :=
  let atr := (atr_update high low close (ct_atr st)).2 in
  let ema50 := (ema_update close (ct_ema50 st)).2 in
  let ema100 := (ema_update close (ct_ema100 st)).2 in
  let swing := swing_update high low (ct_swing st) in
  let stoch := if resting st then ct_stoch st else (stochastic_update high low close (ct_stoch st)).2 in
  let regime :=
    if negb (resting st) && ema_ready ema50 && ema_ready ema100 && stochastic_ready stoch && swing_ready swing && atr_ready atr
    then regime_update_from (ema_value ema50) (ema_value ema100) swing atr (ct_regime st) else ct_regime st in
  {| ct_ema50 := ema50; ct_ema100 := ema100; ct_stoch := stoch; ct_swing := swing; ct_atr := atr; ct_regime := regime;
     ct_phase := ct_phase st; ct_bias := ct_bias st; ct_since_exit := ct_since_exit st; ct_signals := ct_signals st;
     ct_cooldown := ct_cooldown st; ct_open := ct_open st; ct_open_lots := ct_open_lots st; ct_last_opener := ct_last_opener st;
     ct_last_close := close |}.

Definition setup_ready (st : ct_state) : bool :=
  ema_ready (ct_ema50 st) && ema_ready (ct_ema100 st) && stochastic_ready (ct_stoch st) && swing_ready (ct_swing st).
Definition regime_ok (st : ct_state) : bool := negb (er_sideways (ct_regime st)) && negb (er_wide (ct_regime st)).
Definition is_valid_long_setup (st : ct_state) : bool :=
  let k := sv_k (st_last (ct_stoch st)) in
  let d := sv_d (st_last (ct_stoch st)) in
  setup_ready st &&
  ((bool_decide (swing_phase (ct_swing st) = phase_uptrend) || bool_decide (is_Some (ss_last_higher_high (sd_state (ct_swing st))))) &&
   (ct_last_close st >? ema_value (ct_ema100 st))%num &&
   ((k >? d)%num && ((k >? n_lit 20 1)%num || (d >? n_lit 20 1)%num)) && regime_ok st).
Definition is_valid_short_setup (st : ct_state) : bool :=
  let k := sv_k (st_last (ct_stoch st)) in
  let d := sv_d (st_last (ct_stoch st)) in
  setup_ready st &&
  ((bool_decide (swing_phase (ct_swing st) = phase_downtrend) || bool_decide (is_Some (ss_last_lower_low (sd_state (ct_swing st))))) &&
   (ct_last_close st <? ema_value (ct_ema100 st))%num &&
   ((k <? d)%num && ((k <? n_lit 80 1)%num || (d <? n_lit 80 1)%num)) && regime_ok st).

(** The members of the state machine. *)
Definition ct_move (phase : ContinuationPhase) (bias since signals cooldown : Z) (st : ct_state) : ct_state :=
  {| ct_ema50 := ct_ema50 st; ct_ema100 := ct_ema100 st; ct_stoch := ct_stoch st; ct_swing := ct_swing st; ct_atr := ct_atr st;
     ct_regime := ct_regime st; ct_phase := phase; ct_bias := bias; ct_since_exit := since; ct_signals := signals;
     ct_cooldown := cooldown; ct_open := ct_open st; ct_open_lots := ct_open_lots st; ct_last_opener := ct_last_opener st;
     ct_last_close := ct_last_close st |}.
Definition ct_position (open : bool) (lots opener : Z) (st : ct_state) : ct_state :=
  {| ct_ema50 := ct_ema50 st; ct_ema100 := ct_ema100 st; ct_stoch := ct_stoch st; ct_swing := ct_swing st; ct_atr := ct_atr st;
     ct_regime := ct_regime st; ct_phase := ct_phase st; ct_bias := ct_bias st; ct_since_exit := ct_since_exit st;
     ct_signals := ct_signals st; ct_cooldown := ct_cooldown st; ct_open := open; ct_open_lots := lots; ct_last_opener := opener;
     ct_last_close := ct_last_close st |}.

Definition advance_continuation_fsm (long short : bool) (st : ct_state) : ct_state :=
  let sideways := er_sideways (ct_regime st) in
  let st' :=
    match ct_phase st with
    | NORMAL => if sideways then ct_move AFTER_SIDEWAYS 0 0 0 (ct_cooldown st) st else st
    | AFTER_SIDEWAYS =>
        let since := if sideways then ct_since_exit st else ct_since_exit st + 1 in
        let bias := if sideways then 0 else ct_bias st in
        let signals := if sideways then 0 else ct_signals st in
        if long || short then ct_move ORIENTATION_PENDING (if long then 1 else -1) since 1 (ct_cooldown st) st
        else ct_move AFTER_SIDEWAYS bias since signals (ct_cooldown st) st
    | ORIENTATION_PENDING =>
        if sideways then ct_move AFTER_SIDEWAYS 0 (ct_since_exit st) 0 (ct_cooldown st) st else
        if long || short then
          let signals := ct_signals st + 1 in
          let confirmed := (2 <=? signals) && (((0 <? ct_bias st) && long) || ((ct_bias st <? 0) && short)) in
          ct_move (if confirmed then READY_FOR_CONTINUATION else ORIENTATION_PENDING) (ct_bias st) (ct_since_exit st) signals
            (ct_cooldown st) st
        else st
    | READY_FOR_CONTINUATION | IN_TRADE => st
    | COOLDOWN =>
        let n := ct_cooldown st + 1 in
        if 8 <=? n then ct_move NORMAL 0 (ct_since_exit st) 0 0 st
        else ct_move COOLDOWN (ct_bias st) (ct_since_exit st) (ct_signals st) n st
    end in
  if is_in AFTER_SIDEWAYS st' && (30 <? ct_since_exit st')
  then ct_move NORMAL (ct_bias st') (ct_since_exit st') (ct_signals st') (ct_cooldown st') st' else st'.

Definition ct_quantity (p : sizing_params) (price sl_distance equity : num) (long : bool) : num :=
  if negb (price >? n_zero)%num || (sl_distance <=? n_zero)%num then n_zero else
  let equity := if (equity <=? n_zero)%num then n_lit 10000 1 else equity in
  compute_risk_quantity (size_inputs (set_sz_equity equity p) price (if long then price - sl_distance else price + sl_distance)%num long).

(** The stop and the target that are registered. *)
Definition ct_stop (st : ct_state) (entry : num) (long : bool) : num :=
  let ema100 := ema_value (ct_ema100 st) in
  let buffer := n_max (n_lit 2 1000 * entry)%num (n_lit 15 100 * atr_value (ct_atr st))%num in
  let swing := sp_price <$> (if long then ss_last_swing_low (sd_state (ct_swing st)) else ss_last_swing_high (sd_state (ct_swing st))) in
  let prev := default n_zero swing in
  if long then (n_min ema100 (if (prev >? n_zero)%num then prev else entry * n_lit 98 100)%num - buffer)%num
  else (n_max ema100 (if (prev >? n_zero)%num then prev else entry * n_lit 102 100)%num + buffer)%num.
Definition ct_target (st : ct_state) (entry : num) (long : bool) : num :=
  if long then default (entry * n_lit 104 100)%num (ss_last_higher_high (sd_state (ct_swing st)))
  else default (entry * n_lit 96 100)%num (ss_last_lower_low (sd_state (ct_swing st))).
Definition large_range (st : ct_state) (entry : num) (long : bool) : bool :=
  (atr_value (ct_atr st) >? n_zero)%num && (n_abs (ct_target st entry long - entry) >? n_lit 25 10 * atr_value (ct_atr st))%num.
Definition ct_exit_intents (sym : string) (st : ct_state) (entry qty : num) (long : bool) : list exit_intent :=
  if negb (ema_ready (ct_ema100 st)) || negb (swing_ready (ct_swing st)) || negb (atr_ready (ct_atr st)) then [] else
  let sl := ct_stop st entry long in
  let target := ct_target st entry long in
  let tp := if large_range st entry long then target else (entry + n_lit 85 100 * (target - entry))%num in
  let trail := n_clamp (if long && large_range st entry long then n_lit 8 1000 else n_lit 12 1000) (n_lit 4 1000) (n_lit 25 1000) in
  [bracket sym long qty (Some sl) (Some tp) None None (n_lit 45 100) "structure-continuation";
   bracket sym long qty (Some sl) None None (Some trail) (n_lit 55 100) "structure-continuation"].

(** The distance the size is computed for. *)
Definition ct_distance (st : ct_state) (price : num) (long : bool) : num :=
  let ema100 := ema_value (ct_ema100 st) in
  let d := if long then (price - n_min ema100 (price * n_lit 98 100))%num else (n_max ema100 (price * n_lit 102 100) - price)%num in
  n_max d (price * n_lit 5 1000)%num.
Definition ct_enter (p : sizing_params) (m : market_msg) (sym : string) (long : bool) (st : ct_state)
    : (option order_msg * list exit_intent) * ct_state :=
  let close := mm_close m in
  let qty := ct_quantity p close (ct_distance st close long) (n_lit 10000 1) long in
  let qty := if (qty <=? n_zero)%num then n_one else qty in
  let st := ct_move IN_TRADE (ct_bias st) (ct_since_exit st) (ct_signals st) (ct_cooldown st) st in
  ((Some (mk_order_msg (mm_ts m) sym ot_market (if long then side_buy else side_sell) qty close tif_gtc),
    ct_exit_intents sym st close qty long), st).
(** The signals of a bar, after its indicators. *)
Definition long_signal (st : ct_state) : bool := negb (resting st) && is_valid_long_setup st.
Definition short_signal (st : ct_state) : bool := negb (resting st) && is_valid_short_setup st.
Definition ct_bar (p : sizing_params) (m : market_msg) (st : ct_state) (sym : string) : (option order_msg * list exit_intent) * ct_state :=
  let st := update_all_indicators (mm_high m) (mm_low m) (mm_close m) st in
  let long_sig := long_signal st in
  let short_sig := short_signal st in
  let st := advance_continuation_fsm long_sig short_sig st in
  if is_in READY_FOR_CONTINUATION st && negb (ct_open st) then
    let go_long := (0 <? ct_bias st) && long_sig in
    let go_short := (ct_bias st <? 0) && short_sig in
    if go_long || go_short then ct_enter p m sym go_long st else ((None, []), st)
  else ((None, []), st).

Definition ct_opened (open : bool) (st : ct_state) : ct_state :=
  if open then ct_position true (ct_open_lots st) (ct_last_opener st) st
  else ct_move COOLDOWN 0 (ct_since_exit st) 0 0 (ct_position false 0 (ct_last_opener st) st).
Definition ct_filled (f : fill_msg) (opener : Z) (st : ct_state) : ct_state :=
  if opener =? 0 then st else
  let st := ct_position (ct_open st) (ct_open_lots st) opener st in
  if (opener =? ct_last_opener st) && negb (fm_order_id f =? opener) then
    ct_move COOLDOWN 0 (ct_since_exit st) 0 0 (ct_position (ct_open st) 0 (ct_last_opener st) st)
  else if opener =? fm_order_id f then ct_position (ct_open st) 1 (ct_last_opener st) st else st.

Definition sc_handle (sym : string) (f : ct_state → string → (option order_msg * list exit_intent) * ct_state)
    (s : structure_continuation_strategy) : exc (option order_msg) * structure_continuation_strategy :=
  let put states pending := {| sc_sizing := sc_sizing s; sc_swing_strength := sc_swing_strength s; sc_swing_history := sc_swing_history s;
    sc_states := states; sc_pending := pending |} in
  match on_slot (ct_factory (sc_swing_strength s) (sc_swing_history s)) sym f (sc_states s) with
  | (Throw why, states) => (Throw why, put states (sc_pending s))
  | (Ret (o, intents), states) => (Ret o, put states (sc_pending s ++ intents))
  end.
Definition sc_on_market (m : market_msg) (s : structure_continuation_strategy) : exc (option order_msg) * structure_continuation_strategy :=
  sc_handle (mm_symbol m) (ct_bar (sc_sizing s) m) s.
Definition sc_set_position_open (sym : string) (open : bool) (s : structure_continuation_strategy)
    : exc (option order_msg) * structure_continuation_strategy := sc_handle sym (λ st _, ((None, []), ct_opened open st)) s.
Definition sc_on_fill (f : fill_msg) (opener : Z) (s : structure_continuation_strategy)
    : exc (option order_msg) * structure_continuation_strategy := sc_handle (fm_symbol f) (λ st _, ((None, []), ct_filled f opener st)) s.
Definition sc_take_pending (s : structure_continuation_strategy) : list exit_intent * structure_continuation_strategy :=
  (sc_pending s, {| sc_sizing := sc_sizing s; sc_swing_strength := sc_swing_strength s; sc_swing_history := sc_swing_history s;
                    sc_states := sc_states s; sc_pending := [] |}).
Definition sc_set_param (key : string) (value : num) (s : structure_continuation_strategy) : exc structure_continuation_strategy :=
  let put p strength := Ret {| sc_sizing := p; sc_swing_strength := strength; sc_swing_history := sc_swing_history s;
    sc_states := sc_states s; sc_pending := sc_pending s |} in
  match set_sizing_param key value (sc_sizing s) with
  | Some p => put p (sc_swing_strength s)
  | None => if bool_decide (key = "swing_strength") then put (sc_sizing s) (size_of_num value) else Throw ("Unknown parameter: " +:+ key)
  end.
Definition sc_reset (s : structure_continuation_strategy) : structure_continuation_strategy :=
  {| sc_sizing := sc_sizing s; sc_swing_strength := sc_swing_strength s; sc_swing_history := sc_swing_history s; sc_states := mk_store;
     sc_pending := [] |}.
End Continuation.
