(* ===== verification/ContinuationTheorems.v ===== *)
(** * The continuation strategy trades the second signal

    Every order of every history of a symbol is preceded by its own pattern: a sideways bar, the
    first signal after it, and the next one in the same direction, with no return to
    sideways between the two and no close of a position since.  And it carries exits for the
    whole fill. *)

From S2P Require Import Prelude Float64 Event Arith Portfolio Sizing Exits Indicators Swing Symbols EngineEvents EngineState StateStore Strategies BracketStrategies.
From S2P Require Import Continuation.

Open Scope string_scope.
Open Scope list_scope.
Open Scope Z_scope.

Section Runs.
Context {A : Arith}.
Variables (p : sizing_params) (sym : string).

(** What the strategy is told of the symbol, and what a bar showed the state machine. *)
Inductive ct_told := tell_bar (m : market_msg) | tell_open (open : bool) | tell_fill (f : fill_msg) (opener : Z).
Inductive ct_seen := saw_bar (sideways long short : bool) (o : option order_msg) | saw_closed | saw_other.

Definition bar_seen (m : market_msg) (st : ct_state) : ct_seen :=
  let st' := update_all_indicators (mm_high m) (mm_low m) (mm_close m) st in
  saw_bar (er_sideways (ct_regime st')) (long_signal st') (short_signal st') (ct_bar p m st sym).1.1.
(** A position that was closed: the engine says so, or a closer was filled. *)
Definition seen_of (t : ct_told) (st : ct_state) : ct_seen :=
  match t with
  | tell_bar m => bar_seen m st
  | tell_open open => if open then saw_other else saw_closed
  | tell_fill f opener => if (opener =? 0) || (opener =? fm_order_id f) then saw_other else saw_closed
  end.
Definition ct_step (st : ct_state) (t : ct_told) : ct_state :=
  match t with tell_bar m => (ct_bar p m st sym).2 | tell_open open => ct_opened open st | tell_fill f opener => ct_filled f opener st end.
Fixpoint ct_trace (st : ct_state) (ts : list ct_told) : list ct_seen :=
  match ts with [] => [] | t :: ts => seen_of t st :: ct_trace (ct_step st t) ts end.
Definition ct_run (st : ct_state) (ts : list ct_told) : ct_state := foldl ct_step st ts.
(** Where a run may start: scanning, with no regime flag but from a true range.  A fresh state scans. *)
Definition scanning (st : ct_state) : Prop := ct_phase st = NORMAL ∧ (er_sideways (ct_regime st) = true → atr_ready (ct_atr st) = true).

(** The direction of a signal: long when both are there. *)
Definition direction (s : ct_seen) : option bool :=
  match s with saw_bar _ long short _ => if long then Some true else if short then Some false else None | _ => None end.
Definition signals_to (d : bool) (s : ct_seen) : bool := match s with saw_bar _ long short _ => if d then long else short | _ => false end.
Definition was_sideways (s : ct_seen) : bool := match s with saw_bar b _ _ _ => b | _ => false end.
Definition calm (s : ct_seen) : bool := match s with saw_bar _ _ _ o => bool_decide (o = None) | saw_closed => false | saw_other => true end.
(** While a first signal is awaited, and while the second one in direction [d] is. *)
Definition waits (s : ct_seen) : Prop := calm s = true ∧ direction s = None.
Definition waits_for (d : bool) (s : ct_seen) : Prop := calm s = true ∧ was_sideways s = false ∧ signals_to d s = false.

Definition after_sideways (tr : list ct_seen) : Prop :=
  ∃ before a mid, tr = before ++ a :: mid ∧ was_sideways a = true ∧ Forall waits mid.
Definition oriented (d : bool) (tr : list ct_seen) : Prop :=
  ∃ tr1 b mid, tr = tr1 ++ b :: mid ∧ after_sideways tr1 ∧ direction b = Some d ∧ calm b = true ∧ Forall (waits_for d) mid.

Definition bias_of (d : bool) : Z := if d then 1 else -1.
Record follows (tr : list ct_seen) (st : ct_state) : Prop := {
  fo_phase : match ct_phase st with
    | NORMAL | IN_TRADE | COOLDOWN => True
    | AFTER_SIDEWAYS => after_sideways tr
    | ORIENTATION_PENDING => ∃ d, ct_bias st = bias_of d ∧ 1 <= ct_signals st ∧ oriented d tr
    | READY_FOR_CONTINUATION => ct_open st = true
    end;
  fo_atr : er_sideways (ct_regime st) = true ∨ ct_phase st = AFTER_SIDEWAYS ∨ ct_phase st = ORIENTATION_PENDING → atr_ready (ct_atr st) = true }.

(** ** Indicators *)

Lemma atr_stays_ready high low close (a : average_true_range) : atr_ready a = true → atr_ready (atr_update high low close a).2 = true.
Proof using Type.
  unfold atr_ready, atr_update, atr_update_with. intros [-> _]%andb_true_iff. done.
Qed.
Lemma update_atr high low close st : atr_ready (ct_atr st) = true → atr_ready (ct_atr (update_all_indicators high low close st)) = true.
Proof using Type. apply atr_stays_ready. Qed.
Lemma update_sideways high low close st (st' := update_all_indicators high low close st) :
  er_sideways (ct_regime st') = true → er_sideways (ct_regime st) = true ∨ atr_ready (ct_atr st') = true.
Proof using Type.
  subst st'. unfold update_all_indicators. cbn [ct_regime ct_atr]. case_match eqn:E; [|by left]. intros _. right. by repeat apply andb_true_iff in E as [E ?].
Qed.

(** A signal comes with everything the exits need but the true range, and never sideways. *)
Lemma signal_ready st : long_signal st || short_signal st = true →
  resting st = false ∧ er_sideways (ct_regime st) = false ∧ ema_ready (ct_ema100 st) = true ∧ swing_ready (ct_swing st) = true.
Proof using Type.
  unfold long_signal, short_signal, is_valid_long_setup, is_valid_short_setup, setup_ready, regime_ok.
  destruct (resting st), (er_sideways (ct_regime st)), (ema_ready (ct_ema100 st)), (swing_ready (ct_swing st)); try done;
    rewrite ?andb_false_r; cbn; rewrite ?andb_false_r; done.
Qed.

(** ** Traces *)

Lemma after_sideways_snoc tr s : after_sideways tr → waits s → after_sideways (tr ++ [s]).
Proof using Type.
  intros (before & a & mid & -> & Ha & Hm) Hs. exists before, a, (mid ++ [s]). rewrite <- app_assoc. split_and!; [done|done|].
  by apply Forall_app_2; [|apply Forall_singleton].
Qed.
Lemma oriented_snoc d tr s : oriented d tr → waits_for d s → oriented d (tr ++ [s]).
Proof using Type.
  intros (tr1 & b & mid & -> & Ha & Hb & Hc & Hm) Hs. exists tr1, b, (mid ++ [s]). rewrite <- app_assoc. split_and!; try done.
  by apply Forall_app_2; [|apply Forall_singleton].
Qed.
Lemma now_sideways tr s : was_sideways s = true → after_sideways (tr ++ [s]).
Proof using Type. intros H. by exists tr, s, []. Qed.
Lemma now_oriented d tr s : after_sideways tr → direction s = Some d → calm s = true → oriented d (tr ++ [s]).
Proof using Type. intros H Hd Hc. by exists tr, s, []. Qed.

(** ** One bar *)

(** The exits of an order in direction [d]: two, for the whole of its fill. *)
Definition scaled_exits (d : bool) (o : order_msg) (intents : list exit_intent) : Prop := ∃ sl tp trail,
  intents = [bracket sym d (om_quantity o) (Some sl) (Some tp) None None (n_lit 45 100) "structure-continuation";
             bracket sym d (om_quantity o) (Some sl) None None (Some trail) (n_lit 55 100) "structure-continuation"].
Lemma enter_exits m d st : ema_ready (ct_ema100 st) = true → swing_ready (ct_swing st) = true → atr_ready (ct_atr st) = true →
  let r := ct_enter p m sym d st in
  ∃ o, r.1.1 = Some o ∧ om_side o = (if d then side_buy else side_sell) ∧ scaled_exits d o r.1.2 ∧ ct_phase r.2 = IN_TRADE ∧
       ct_regime r.2 = ct_regime st ∧ ct_atr r.2 = ct_atr st.
Proof using Type.
  intros H1 H2 H3. cbv zeta. unfold ct_enter. eexists. split; [done|]. split; [done|]. split; [|done].
  unfold ct_exit_intents. cbn [ct_move ct_ema100 ct_swing ct_atr snd fst]. rewrite H1, H2, H3. cbn [negb orb]. do 3 eexists. done.
Qed.

(** Which branch a known phase takes. *)
Ltac settle E := cbn -[app Z.ltb Z.leb Z.add]; rewrite ?E; repeat first [rewrite bool_decide_true by done|rewrite bool_decide_false by done]; cbn -[app Z.ltb Z.leb Z.add].

(** The state machine on a bar, from each phase. *)
Definition fsm_after (tr : list ct_seen) (s : ct_seen) (st st' : ct_state) : Prop :=
  ct_regime st' = ct_regime st ∧ ct_atr st' = ct_atr st ∧ ct_ema100 st' = ct_ema100 st ∧ ct_swing st' = ct_swing st ∧ ct_open st' = ct_open st ∧
  match ct_phase st' with
  | NORMAL | IN_TRADE | COOLDOWN => True
  | AFTER_SIDEWAYS => calm s = true → after_sideways (tr ++ [s])
  | ORIENTATION_PENDING => ∃ d, ct_bias st' = bias_of d ∧ 1 <= ct_signals st' ∧ (calm s = true → oriented d (tr ++ [s]))
  | READY_FOR_CONTINUATION => ct_open st = true ∨ ∃ d, ct_bias st' = bias_of d ∧ oriented d tr ∧ signals_to d s = true ∧ was_sideways s = false
  end.
Lemma fsm_follows tr st o (L := long_signal st) (S := short_signal st) (s := saw_bar (er_sideways (ct_regime st)) L S o) :
  follows tr st → fsm_after tr s st (advance_continuation_fsm L S st) ∧
  (ct_phase (advance_continuation_fsm L S st) = AFTER_SIDEWAYS ∨ ct_phase (advance_continuation_fsm L S st) = ORIENTATION_PENDING ∨
   ct_phase (advance_continuation_fsm L S st) = READY_FOR_CONTINUATION →
   (ct_phase st = READY_FOR_CONTINUATION ∧ ct_phase (advance_continuation_fsm L S st) = READY_FOR_CONTINUATION) ∨ atr_ready (ct_atr st) = true).
Proof using Type.
  intros [Hp Ha].
  pose proof (signal_ready st) as Hsig. fold L S in Hsig.
  unfold advance_continuation_fsm. cbv zeta. set (sw := er_sideways (ct_regime st)) in *.
  assert (sw = true → L = false ∧ S = false) as Hno.
  { intros Hsw. destruct L, S; try done; destruct (Hsig eq_refl) as (_ & H & _); congruence. }
  clear Hsig. unfold is_in. destruct (ct_phase st) eqn:Eph.
  - (* normal *)
    destruct sw eqn:Esw; settle Eph.
    + split; [|intros _; right; apply Ha; by left]. split_and!; try done. intros _. by apply now_sideways.
    + split; [split_and!; try done; by rewrite Eph|]. rewrite Eph. intros [?|[?|?]]; congruence.
  - (* after sideways *)
    assert (atr_ready (ct_atr st) = true) as Hatr by (apply Ha; auto).
    assert (∀ d, direction s = Some d → fsm_after tr s st (ct_move ORIENTATION_PENDING (bias_of d) (if sw then ct_since_exit st else ct_since_exit st + 1) 1 (ct_cooldown st) st)) as Hor.
    { intros d Hd. split_and!; try done. cbn -[app]. exists d. split_and!; [done|lia|]. intros Hc. by apply now_oriented. }
    split; [|by right].
    destruct L eqn:EL; settle Eph; [by apply (Hor true)|]. destruct S eqn:ES; settle Eph; [by apply (Hor false)|].
    destruct (30 <? _); split_and!; try done. intros Hc. apply after_sideways_snoc; [done|]. by split.
  - (* a first signal was seen *)
    assert (atr_ready (ct_atr st) = true) as Hatr by (apply Ha; auto). split; [|by right].
    destruct Hp as (d & Hb & Hn & Hd). destruct sw eqn:Esw.
    { settle Eph. destruct (30 <? _); split_and!; try done. intros _. by apply now_sideways. }
    destruct (L || S) eqn:ELS.
    + rewrite (proj2 (Z.leb_le 2 (ct_signals st + 1))) by lia. rewrite Hb.
      assert (((0 <? bias_of d) && L) || ((bias_of d <? 0) && S) = signals_to d s) as -> by (destruct d, L, S; done).
      destruct (signals_to d s) eqn:Esig; settle Eph.
      * split_and!; try done. right. by exists d.
      * split_and!; try done. exists d. split_and!; [done|cbn; lia|]. intros Hc. by apply oriented_snoc.
    + settle Eph. split_and!; try done. rewrite Eph. exists d. split_and!; [done|done|]. intros Hc. apply oriented_snoc; [done|].
      split_and!; [done|done|]. by destruct d, L, S.
  - settle Eph. split; [|by left]. split_and!; try done. rewrite Eph. by left.
  - settle Eph. split; [split_and!; try done; by rewrite Eph|]. rewrite Eph. intros [?|[?|?]]; congruence.
  - destruct (8 <=? _); settle Eph; (split; [by split_and!|]; intros [?|[?|?]]; congruence).
Qed.

(** Why a bar may trade. *)
Definition justified (tr : list ct_seen) (s : ct_seen) (o : order_msg) (intents : list exit_intent) : Prop :=
  ∃ d, oriented d tr ∧ was_sideways s = false ∧ signals_to d s = true ∧ om_side o = (if d then side_buy else side_sell) ∧
       scaled_exits d o intents.

Lemma bar_follows tr st m : follows tr st →
  let r := ct_bar p m st sym in
  follows (tr ++ [bar_seen m st]) r.2 ∧ ∀ o, r.1.1 = Some o → justified tr (bar_seen m st) o r.1.2.
Proof using Type.
  intros [Hp Ha]. unfold bar_seen. cbv zeta. set (o := (ct_bar p m st sym).1.1).
  set (st1 := update_all_indicators (mm_high m) (mm_low m) (mm_close m) st).
  assert (follows tr st1) as H1.
  { split; [exact Hp|]. intros [H|H]; [|apply update_atr, Ha; by right].
    destruct (update_sideways _ _ _ _ H) as [H'|H']; [apply update_atr, Ha; by left|done]. }
  pose proof (signal_ready st1) as Hsig. pose proof (update_sideways (mm_high m) (mm_low m) (mm_close m) st) as Hsw. fold st1 in Hsw.
  destruct (fsm_follows tr st1 o H1) as [(E1 & E2 & E3 & E4 & E5 & Hph) Hatr].
  assert (ct_bar p m st sym = let st2 := advance_continuation_fsm (long_signal st1) (short_signal st1) st1 in
    if is_in READY_FOR_CONTINUATION st2 && negb (ct_open st2) then
      if ((0 <? ct_bias st2) && long_signal st1) || ((ct_bias st2 <? 0) && short_signal st1)
      then ct_enter p m sym ((0 <? ct_bias st2) && long_signal st1) st2 else ((None, []), st2)
    else ((None, []), st2)) as Er by done.
  set (st2 := advance_continuation_fsm (long_signal st1) (short_signal st1) st1) in *. cbv zeta in Er.
  destruct (is_in READY_FOR_CONTINUATION st2 && negb (ct_open st2)) eqn:Eready.
  - apply andb_true_iff in Eready as [Er1%bool_decide_eq_true Er2%negb_true_iff]. rewrite Er1 in Hph. rewrite E5 in Er2.
    destruct Hph as [?|(d & Hb & Hor & Hd & Hs)]; [congruence|].
    assert (long_signal st1 || short_signal st1 = true) as Hls by (cbn in Hd; destruct d; rewrite Hd, ?orb_true_r; done).
    destruct (Hsig Hls) as (_ & _ & He & Hswing).
    assert (atr_ready (ct_atr st1) = true) as Hready.
    { destruct Hatr as [[Hc _]|]; [by right; right| |done]. destruct H1 as [Hp1 _]. rewrite Hc in Hp1. congruence. }
    assert (((0 <? ct_bias st2) && long_signal st1) || ((ct_bias st2 <? 0) && short_signal st1) = true ∧
            (0 <? ct_bias st2) && long_signal st1 = d) as [Hgo Hdir].
    { cbn in Hd. rewrite Hb. destruct d; rewrite Hd; done. }
    rewrite Hgo, Hdir in Er.
    destruct (enter_exits m d st2) as (o' & Eo & Hside & Hex & Hphase & Hreg & Hat); [by rewrite E3|by rewrite E4|by rewrite E2|].
    split.
    + rewrite Er. split; [by rewrite Hphase|]. by rewrite Hat, E2.
    + intros o2 Ho2. assert (o = Some o') as Eo' by (subst o; by rewrite Er). rewrite Eo' in Ho2. injection Ho2 as <-. exists d. rewrite Er. by split_and!.
  - split; [|intros ?; subst o; by rewrite Er]. assert (calm (saw_bar (er_sideways (ct_regime st1)) (long_signal st1) (short_signal st1) o) = true) as Hc.
    { cbn. subst o. by rewrite Er. }
    rewrite Er. cbn [snd]. split.
    + destruct (ct_phase st2) eqn:E; try done.
      * by apply Hph.
      * destruct Hph as (d & ? & ? & Ho). exists d. split_and!; [done|done|by apply Ho].
      * apply andb_false_iff in Eready as [Hn|Hn]; [by apply bool_decide_eq_false in Hn|]. by apply negb_false_iff in Hn.
    + rewrite E1, E2. intros [H|H]; [apply H1; by left|]. destruct Hatr as [[_ Hc']|]; [tauto| |done]. destruct H as [H|H]; congruence.
Qed.

Lemma step_follows tr st t : follows tr st → follows (tr ++ [seen_of t st]) (ct_step st t).
Proof using Type.
  intros H. destruct t as [m|open|f opener]; [by apply bar_follows|..]; cbn -[app]; destruct H as [Hp Ha].
  - destruct open; cbn -[app]; [|split; [done|]; intros [|[|]]; [apply Ha; by left|done|done]].
    split; [|exact Ha]. cbn -[app]. destruct (ct_phase st); try done.
    + by apply after_sideways_snoc.
    + destruct Hp as (d & ? & ? & Ho). exists d. split_and!; [done|done|]. by apply oriented_snoc.
  - assert (∀ st', ct_phase st' = ct_phase st → ct_bias st' = ct_bias st → ct_signals st' = ct_signals st → ct_open st' = ct_open st →
      ct_regime st' = ct_regime st → ct_atr st' = ct_atr st → follows (tr ++ [saw_other]) st') as Hkeep.
    { intros st' E1 E2 E3 E4 E5 E6. split; [|by rewrite E1, E5, E6]. rewrite E1, E2, E3, E4. destruct (ct_phase st); try done.
      - by apply after_sideways_snoc.
      - destruct Hp as (d & ? & ? & Ho). exists d. split_and!; [done|done|]. by apply oriented_snoc. }
    unfold ct_filled. destruct (Z.eqb_spec opener 0) as [->|Hne]; cbn -[app]; [by apply Hkeep|].
    rewrite Z.eqb_refl, (Z.eqb_sym (fm_order_id f)). destruct (opener =? fm_order_id f); cbn -[app]; [by apply Hkeep|].
    split; [done|]. intros [|[|]]; [apply Ha; by left|done|done].
Qed.

Lemma trace_snoc st ts t : ct_trace st (ts ++ [t]) = ct_trace st ts ++ [seen_of t (foldl ct_step st ts)].
Proof using Type. revert st. induction ts as [|t' ts IH]; intros st; [done|]. cbn. by rewrite IH. Qed.
Lemma factory_scans strength history : scanning (ct_factory strength history).
Proof using Type. done. Qed.
Lemma run_follows st ts : scanning st → follows (ct_trace st ts) (ct_run st ts).
Proof using Type.
  intros [H1 H2]. induction ts as [|t ts IH] using rev_ind.
  - split; cbn; [by rewrite H1|]. rewrite H1. intros [|[|]]; [auto|done|done].
  - rewrite trace_snoc. unfold ct_run. rewrite foldl_app. by apply step_follows.
Qed.
End Runs.

(** C37: The continuation strategy trades only the second signal, in every history of bars, fills and resyncs of a symbol
    from a state that scans (a fresh one does, for every strength and history) and in any arithmetic: an order at a bar is
    preceded by a sideways bar, then, with no signal, order or close of a position in between, by a first signal, and then,
    with no return to sideways, no further signal in its direction, no order and no close in between, by this bar, which
    signals the same direction again and is not sideways; the order trades that direction, and the strategy hands
    over exactly two exits for it, for 45 and 55 percent of the fill, with a common stop, a target and a trailing stop. *)
Theorem trades_second_signal {A : Arith} p sym st0 ts m o (tr := ct_trace p sym st0 ts) (st := ct_run p sym st0 ts) :
  scanning st0 ∨ (∃ strength history, st0 = ct_factory strength history) →
  (ct_bar p m st sym).1.1 = Some o →
  justified sym tr (bar_seen p sym m st) o (ct_bar p m st sym).1.2.
Proof.
  intros Hs Ho. apply bar_follows; [apply run_follows|done]. destruct Hs as [?|(? & ? & ->)]; [done|]. apply factory_scans.
Qed.

(** A market that moves sideways and then rises, with short indicators: the second signal is bought. *)
#[local] Existing Instance exact_arith.
Definition quick : ct_state :=
  {| ct_ema50 := mk_ema 1; ct_ema100 := mk_ema 2; ct_stoch := mk_stochastic 2 1 2; ct_swing := mk_swing 1 4; ct_atr := mk_atr 1;
     ct_regime := default_regime; ct_phase := NORMAL; ct_bias := 0; ct_since_exit := 0; ct_signals := 0; ct_cooldown := 0;
     ct_open := false; ct_open_lots := 0; ct_last_opener := 0; ct_last_close := n_zero |}.
Definition rising_bar (px : Z) : market_msg :=
  {| mm_ts := px; mm_symbol := "BTC"; mm_open := n_lit px 1; mm_high := n_lit (px + 5) 1; mm_low := n_lit (px - 5) 1;
     mm_close := n_lit px 1; mm_volume := 1; mm_recv_ns := 0 |}.
Definition one_percent : sizing_params := no_costs (n_lit 10000 1) (n_lit 1 100).
Definition rising : list ct_told := (λ px, tell_bar (rising_bar px)) <$> [1000; 1003; 1000; 1000; 1003; 1015; 1040].
#[local] Abbreviation rising_state := (ct_run one_percent "BTC" quick rising).
Lemma quick_scans : scanning quick.
Proof. by split. Qed.
Lemma rising_buys : om_side <$> (ct_bar one_percent (rising_bar 1080) rising_state "BTC").1.1 = Some side_buy.
Proof. vm_compute. reflexivity. Qed.

Lemma trades_second_signal_witness : ∃ o, om_side o = side_buy ∧
  justified "BTC" (ct_trace one_percent "BTC" quick rising) (bar_seen one_percent "BTC" (rising_bar 1080) rising_state) o
    (ct_bar one_percent (rising_bar 1080) rising_state "BTC").1.2.
Proof.
  pose proof rising_buys as H. pose proof (trades_second_signal one_percent "BTC" quick rising (rising_bar 1080)) as T.
  cbv zeta in T. revert H T. generalize (ct_bar one_percent (rising_bar 1080) rising_state "BTC"). intros [[[o|] es] st] H T; [|discriminate H].
  exists o. split; [by injection H|]. exact (T o (or_introl quick_scans) eq_refl).
Defined.
