(* ===== verification/BracketTheorems.v ===== *)
(** * What the strategies with brackets risk

    In exact arithmetic: the size of an entry against the stop it registers.  A breakout
    risks at most its budget at its stop; so does a mean-reversion entry, except in a quiet
    market, where the registered stop is farther than the one it was sized for; a
    continuation entry below its average always risks more than its budget. *)

From Stdlib Require Import QArith Qabs Lqa.
From S2P Require Import Prelude Float64 Event Arith Portfolio Sizing Exits Indicators Swing Symbols EngineEvents EngineState StateStore Strategies BracketStrategies.
From S2P Require Import Continuation.

Open Scope string_scope.
Open Scope list_scope.
Open Scope Z_scope.

#[local] Existing Instance exact_arith.
#[local] Abbreviation num := (@Arith.num exact_arith).

(** ** Sizes and stops *)

Definition budget (p : sizing_params) : Q := (sz_equity p * sz_risk_fraction p)%Q.
(** What the sizing estimates for a position of [q] that is stopped out. *)
Definition loss_at (p : sizing_params) (entry stop : Q) (long : bool) (q : Q) : Q := estimate_stop_loss (size_inputs p entry stop long) q.

Lemma sized_within p (entry stop : Q) long (q : Q := compute_risk_quantity (size_inputs p entry stop long)) :
  (0 < q)%Q → (loss_at p entry stop long q <= budget p)%Q ∧ ((sz_max_notional_frac p <= 0)%Q → (loss_at p entry stop long q == budget p)%Q).
Proof. intros Hq. destruct (risk_quantity_within_budget (size_inputs p entry stop long)) as [_ H]. destruct (H Hq) as (H1 & H2 & _). by split. Qed.

Lemma sized_positive p (entry stop : Q) long : (0 < compute_risk_quantity (size_inputs p entry stop long))%Q → (0 < entry)%Q ∧ (0 < stop)%Q.
Proof.
  intros Hq. destruct (risk_quantity_shape (size_inputs p entry stop long)) as [E|(_ & H1 & H2 & _)]; [|done].
  rewrite E in Hq. exfalso. lra.
Qed.

Lemma n_max_bound (x b : Q) : (0 < b)%Q → (x < b)%Q → (0 <= n_max n_zero x < b)%Q.
Proof. intros H1 H2. unfold n_max, n_zero. tt_exact. destruct (Qltb_spec (0 # 1) x); lra. Qed.

(** A stop farther below a long entry costs more. *)
Lemma farther_stop p (entry s1 s2 q : Q) : (0 < entry)%Q → (0 < s2)%Q → (s2 < s1)%Q → ((1 # 1000000000000) < entry - s1)%Q → (0 < q)%Q →
  (sz_exit_slip_bps p < 10000)%Q → (sz_exit_fee_rate p < 1)%Q → (loss_at p entry s1 true q < loss_at p entry s2 true q)%Q.
Proof.
  intros He Hs2 Hs Hd Hq Hslip Hfee.
  unfold loss_at, estimate_stop_loss, adverse_entry_price, adverse_exit_price, risk_per_unit, slip_fraction, fixed_round_trip, size_inputs.
  cbn [in_entry_price stop_price Sizing.is_long entry_slip_bps exit_slip_bps entry_fee_rate exit_fee_rate fixed_fee_per_leg].
  destruct (n_pos_spec q); [|lra]. destruct (n_pos_spec entry); [|lra]. destruct (n_pos_spec s1); [|lra]. destruct (n_pos_spec s2); [|lra].
  cbn [negb orb]. destruct (n_max_bound (sz_exit_slip_bps p) 10000 ltac:(lra) Hslip) as [M1 M2].
  destruct (n_max_bound (sz_exit_fee_rate p) 1 ltac:(lra) Hfee) as [F1 F2]. pose proof (n_max_zero (sz_entry_slip_bps p)) as N1.
  unfold n_one, n_eps. tt_exact.
  set (m := @n_max exact_arith n_zero (sz_exit_slip_bps p)) in *. set (f := @n_max exact_arith n_zero (sz_exit_fee_rate p)) in *.
  set (n := @n_max exact_arith n_zero (sz_entry_slip_bps p)) in *. set (g := @n_max exact_arith n_zero (sz_entry_fee_rate p)).
  set (x := @n_max exact_arith n_zero (sz_fixed_fee_per_leg p)). clearbody m f n g x.
  set (k := (1 - m * (1 # 10000))%Q). assert (0 < k <= 1)%Q as [K1 K2] by (unfold k; lra).
  set (E := (entry * (1 + n * (1 # 10000)))%Q). assert (entry <= E)%Q as HE by (unfold E; nra).
  assert (s1 * k <= s1)%Q by nra. assert (s2 * k <= s2)%Q by nra. clearbody k E.
  destruct (Qleb_spec (E - s1 * k) (1 # 1000000000000)); [exfalso; lra|]. destruct (Qleb_spec (E - s2 * k) (1 # 1000000000000)); [exfalso; lra|].
  assert (0 < (s1 - s2) * (k * (1 - f)))%Q as Hgap by (apply Qmult_lt_0_compat; [lra|]; apply Qmult_lt_0_compat; lra).
  assert (0 < q * ((s1 - s2) * (k * (1 - f))))%Q by (by apply Qmult_lt_0_compat). lra.
Qed.

Lemma Qsub_sub (x y : Q) : (x == y - (y - x))%Q.
Proof. ring. Qed.
(** Equal stops cost the same. *)
Lemma loss_at_proper p (entry s1 s2 q : Q) long : (s1 == s2)%Q → (loss_at p entry s1 long q == loss_at p entry s2 long q)%Q.
Proof.
  intros Hs. unfold loss_at, estimate_stop_loss, adverse_entry_price, adverse_exit_price, risk_per_unit, slip_fraction, fixed_round_trip, size_inputs.
  cbn [in_entry_price stop_price Sizing.is_long entry_slip_bps exit_slip_bps entry_fee_rate exit_fee_rate fixed_fee_per_leg].
  destruct (n_pos_spec s1), (n_pos_spec s2); try (exfalso; lra); cbn [negb]; destruct (n_pos_spec q), (n_pos_spec entry); cbn [negb orb]; try reflexivity.
  unfold n_one, n_eps. tt_exact. destruct long; repeat (match goal with |- context [Qle_bool ?a ?b] => destruct (Qleb_spec a b) end);
    try (rewrite Hs; reflexivity); exfalso; rewrite Hs in *; lra.
Qed.

(** The cash a long loses that is bought at the entry and sold at the stop in parts: the fills are
    worse than the prices by the slippage, every order pays its rate of what it trades and every
    order pays the fixed fee. *)
Definition at_least_zero (x : Q) : Q := if Qltb 0 x then x else 0%Q.
Definition paid (p : sizing_params) (entry q : Q) : Q :=
  let fill := (entry * (1 + at_least_zero (sz_entry_slip_bps p) * (1 # 10000)))%Q in
  (q * fill + q * fill * at_least_zero (sz_entry_fee_rate p) + at_least_zero (sz_fixed_fee_per_leg p))%Q.
Definition received (p : sizing_params) (stop q : Q) : Q :=
  let fill := (stop * (1 - at_least_zero (sz_exit_slip_bps p) * (1 # 10000)))%Q in
  (q * fill - q * fill * at_least_zero (sz_exit_fee_rate p) - at_least_zero (sz_fixed_fee_per_leg p))%Q.
Lemma max_at_least (x : Q) : n_max n_zero x = at_least_zero x.
Proof. done. Qed.
Lemma loss_is_cash p (entry stop q : Q) : (0 < entry)%Q → (0 < stop)%Q → ((1 # 1000000000000) < entry - stop)%Q → (0 < q)%Q →
  (sz_exit_slip_bps p < 10000)%Q → (paid p entry q - received p stop q == loss_at p entry stop true q)%Q.
Proof.
  intros He Hs Hd Hq Hslip.
  unfold loss_at, estimate_stop_loss, adverse_entry_price, adverse_exit_price, risk_per_unit, slip_fraction, fixed_round_trip, size_inputs, paid, received.
  cbn [in_entry_price stop_price Sizing.is_long entry_slip_bps exit_slip_bps entry_fee_rate exit_fee_rate fixed_fee_per_leg].
  destruct (n_pos_spec q); [|lra]. destruct (n_pos_spec entry); [|lra]. destruct (n_pos_spec stop); [|lra]. cbn [negb orb].
  destruct (n_max_bound (sz_exit_slip_bps p) 10000 ltac:(lra) Hslip) as [M1 M2]. pose proof (n_max_zero (sz_entry_slip_bps p)) as N1.
  rewrite max_at_least in M1, M2. rewrite max_at_least in N1.
  repeat match goal with |- context [n_max n_zero ?y] => change (n_max n_zero y) with (at_least_zero y) end. unfold n_one, n_eps. tt_exact.
  set (m := at_least_zero (sz_exit_slip_bps p)) in *. set (n := at_least_zero (sz_entry_slip_bps p)) in *.
  set (f := at_least_zero (sz_exit_fee_rate p)). set (g := at_least_zero (sz_entry_fee_rate p)). set (x := at_least_zero (sz_fixed_fee_per_leg p)).
  clearbody m n f g x. assert (0 <= entry * (n * (1 # 10000)))%Q by (apply Qmult_le_0_compat; lra).
  assert (0 <= stop * (m * (1 # 10000)))%Q by (apply Qmult_le_0_compat; lra).
  destruct (Qleb_spec (entry * ((1 # 1) + n * (1 # 10000)) - stop * ((1 # 1) - m * (1 # 10000))) (1 # 1000000000000)); [exfalso; lra|]. ring.
Qed.
(** Sold in two parts it pays one fixed fee more. *)
Lemma received_parts p (stop q a b : Q) : (a + b == q)%Q →
  (received p stop a + received p stop b == received p stop q - at_least_zero (sz_fixed_fee_per_leg p))%Q.
Proof. intros Eq. unfold received. rewrite <- Eq. ring. Qed.
(** A position that was sized can be sold at its stop for something. *)
Lemma sized_slips p (entry stop : Q) : (0 < compute_risk_quantity (size_inputs p entry stop true))%Q → (sz_exit_slip_bps p < 10000)%Q.
Proof.
  intros Hq. destruct (Qlt_le_dec (sz_exit_slip_bps p) 10000) as [|Hs]; [done|]. exfalso. revert Hq.
  unfold compute_risk_quantity, adverse_exit_price, slip_fraction, size_inputs. cbv zeta.
  cbn [equity risk_fraction in_entry_price stop_price Sizing.is_long entry_slip_bps exit_slip_bps entry_fee_rate exit_fee_rate fixed_fee_per_leg max_notional_frac].
  assert (∀ P : Prop, (0 < @n_zero exact_arith)%Q → P) as Hz by (intros P HP; exfalso; unfold n_zero in HP; tt_exact; lra).
  destruct (_ || _ || _); [apply Hz|]. destruct (n_pos_spec stop) as [Hst|]; cbn [negb]; [|apply Hz]. destruct (negb (n_pos _)); [apply Hz|].
  match goal with |- context [negb (n_pos ?e)] => destruct (n_pos_spec e) as [He|] end; cbn [negb]; [|apply Hz].
  intros _. rewrite max_at_least in He. unfold n_one in He. tt_exact. unfold at_least_zero in He. destruct (Qltb_spec 0 (sz_exit_slip_bps p)); [|lra].
  assert (0 <= stop * ((sz_exit_slip_bps p) * (1 # 10000) - 1))%Q by (apply Qmult_le_0_compat; lra). lra.
Qed.

(** ** The breakout *)

Section Breakout.
Variables (c : bo_config) (sym : string).
Hypothesis Hthreshold : (0 <= bo_threshold c)%Q.

(** What the strategy is told of a symbol whose highs are not negative. *)
Inductive bo_told := bo_tell_bar (m : market_msg) | bo_tell_open (open : bool) | bo_tell_fill (f : fill_msg) (opener : Z).
Definition bo_step (st : bo_state) (t : bo_told) : bo_state :=
  match t with
  | bo_tell_bar m => (bo_bar c m st sym).2
  | bo_tell_open open => bo_position open (if negb open && (0 <? bs_open_lots st) then 0 else bs_open_lots st) st
  | bo_tell_fill f opener => bo_filled f opener st
  end.
Definition bo_run (ts : list bo_told) : bo_state := foldl bo_step (bo_factory c) ts.
Definition priced (t : bo_told) : Prop := match t with bo_tell_bar m => (0 <= mm_high m)%Q | _ => True end.

Definition bo_ok (st : bo_state) : Prop := Forall (λ h : Q, (0 <= h)%Q) (bs_highs st) ∧ (0 <= bs_consolidation_high st)%Q.

Lemma max_nonneg (l : list Q) (x : Q) : (0 <= x)%Q → (0 <= @max_element exact_arith x l)%Q.
Proof using Type.
  unfold max_element. revert x. induction l as [|y l IH]; intros x Hx; [done|]. cbn [foldl]. apply IH. unfold n_max. tt_exact.
  destruct (Qltb_spec x y); lra.
Qed.
Lemma range_nonneg n st : bo_ok st → (0 <= (window_range n st).1)%Q.
Proof using Type.
  intros [H _]. unfold window_range. cbn [fst]. set (l := take (Nat.max 1 n) (reverse (bs_highs st))).
  assert (Forall (λ h : Q, (0 <= h)%Q) l) as Hl by (by apply Forall_take, Forall_reverse).
  destruct l as [|x l]; cbn; [unfold n_zero; tt_exact; lra|]. apply max_nonneg. by inversion Hl.
Qed.
Lemma breakout_update_ok high low close vol st : (0 <= high)%Q → bo_ok st → bo_ok (bo_update high low close vol st).
Proof using Type.
  intros Hh [H1 H2]. split; [|exact H2]. cbn [bo_update bs_highs]. unfold trim_front. apply Forall_drop, Forall_app. by split; [|apply Forall_singleton].
Qed.
Lemma consolidate_ok st : bo_ok st → bo_ok (bo_consolidate c st).
Proof using Type.
  intros H. pose proof (range_nonneg (bo_lookback c) st H) as Hr. unfold bo_consolidate, detect_consolidation. destruct (window_range _ _) as [hh ll].
  repeat (case_match; simplify_eq; try done); by split; [apply H|].
Qed.
Lemma rescan_ok st : bo_ok st → bo_ok (bo_rescan st).
Proof using Type. intros [H1 H2]. split; [done|]. cbn. unfold n_zero. tt_exact. lra. Qed.
Lemma advance_ok close st : bo_ok st → bo_ok (bo_advance c close st).
Proof using Type. intros H. unfold bo_advance. repeat case_match; try done; by apply rescan_ok. Qed.
Lemma bar_ok m st : (0 <= mm_high m)%Q → bo_ok st → bo_ok (bo_bar c m st sym).2.
Proof using Type.
  intros Hh H. unfold bo_bar. cbv zeta. apply (breakout_update_ok _ (mm_low m) (mm_close m) (n_lit (mm_volume m) 1) st Hh) in H.
  set (st1 := bo_update _ _ _ _ _) in *. clearbody st1. pose proof (consolidate_ok st1 H) as H'. set (st2 := bo_consolidate c st1) in *. clearbody st2.
  repeat (case_match; try done); cbn; try (by apply advance_ok); apply H'.
Qed.
Lemma breakout_run_ok ts : Forall priced ts → bo_ok (bo_run ts).
Proof using Type.
  induction ts as [|t ts IH] using rev_ind; intros H.
  - split; [constructor|]. cbn. unfold n_zero. tt_exact. lra.
  - apply Forall_app in H as [H1 H2]. rewrite Forall_singleton in H2. unfold bo_run. rewrite foldl_app. specialize (IH H1).
    destruct t as [m|open|f opener]; cbn [foldl bo_step]; [apply bar_ok; [exact H2|exact IH]|exact IH|]. unfold bo_filled. repeat case_match; try exact IH; by apply rescan_ok.
Qed.

(** The gates leave the close above the range, so that the stop is below it and the floor of the
    distance is never used. *)
Lemma gates_above st (o cl h l atr v lv : Q) : bo_ok st → check_breakout_gates c st o cl h l atr v = Some lv →
  (0 < atr)%Q ∧ (bs_consolidation_low st < cl)%Q.
Proof using Hthreshold.
  intros [_ H] Hg. unfold check_breakout_gates in Hg. unfold n_zero, n_one in Hg. tt_exact.
  destruct (negb (atr_ready (bs_atr st)) || negb (sma_ready (bs_vol_sma st))); [done|]. cbn [orb] in Hg.
  destruct (Qleb_spec atr (0 # 1)); [done|]. destruct (Qleb_spec (bs_consolidation_high st) (bs_consolidation_low st)); [done|].
  destruct (Qltb_spec cl (bs_consolidation_high st * ((1 # 1) + bo_threshold c))); [done|]. split; [lra|].
  assert (0 <= bs_consolidation_high st * bo_threshold c)%Q by (by apply Qmult_le_0_compat). lra.
Qed.
Lemma distance_exact st (cl atr : Q) : (0 < atr)%Q → (bs_consolidation_low st < cl)%Q →
  bo_distance st cl atr = (cl - bo_stop st atr)%Q ∧ (0 < cl - bo_stop st atr)%Q.
Proof using Type.
  intros Ha Hl. unfold bo_distance, bo_stop. tt_exact.
  destruct (Qltb_spec (cl - (bs_consolidation_low st - (65 # 100) * atr)) ((3 # 10) * atr)); [exfalso; lra|]. split; [done|lra].
Qed.
Lemma target_far st (cl atr : Q) (d := (cl - bo_stop st atr)%Q) : bo_distance st cl atr = d → (0 < d)%Q →
  (n_min (bo_min_rr c) (n_lit 28 10) * d <= bo_target c st cl atr - cl)%Q.
Proof using Type.
  intros Ed Hd. unfold bo_target. rewrite Ed. tt_exact. unfold n_min. tt_exact.
  set (tp := (cl + (bs_consolidation_high st - bs_consolidation_low st) + (6 # 10) * atr)%Q). clearbody tp d.
  assert ((tp - cl) / d * d == tp - cl)%Q as Hx by (by apply Qdiv_mul).
  destruct (Qltb_spec ((tp - cl) / d) (bo_min_rr c)), (Qltb_spec (28 # 10) (bo_min_rr c)); nra.
Qed.

Lemma bo_quantity_sized (cl d : Q) : (0 < bo_quantity c cl d)%Q →
  bo_quantity c cl d = compute_risk_quantity (size_inputs (bo_sizing c) cl (cl - d)%Q true).
Proof using Type. unfold bo_quantity. case_match; [|done]. unfold n_zero. tt_exact. intros H'. exfalso. lra. Qed.

(** The losses of a size made for a stop. *)
Lemma stop_costs (p : sizing_params) (cl stop q : Q) (fixed := at_least_zero (sz_fixed_fee_per_leg p)) (part := λ x, received p stop (x * q)) :
  q = compute_risk_quantity (size_inputs p cl (cl - (cl - stop))%Q true) → (0 < q)%Q → ((1 # 1000000000000) < cl - stop)%Q →
  (paid p cl q - part 1 <= budget p ∧ paid p cl q - (part (45 # 100) + part (55 # 100)) <= budget p + fixed ∧
   (sz_max_notional_frac p <= 0 → paid p cl q - (part (45 # 100) + part (55 # 100)) == budget p + fixed))%Q.
Proof using Type.
  intros Eq Hq Hd. rewrite Eq in Hq. pose proof (sized_slips _ _ _ Hq) as Hs. destruct (sized_positive _ _ _ _ Hq) as [He Hst].
  destruct (sized_within _ _ _ _ Hq) as [H1 H2]. rewrite <- Eq in H1, H2, Hq. pose proof (Qsub_sub stop cl) as Es.
  rewrite <- (loss_at_proper p cl _ _ q true Es) in H1. rewrite <- (loss_at_proper p cl _ _ q true Es) in H2.
  rewrite <- Es in Hst. pose proof (loss_is_cash p cl stop q He Hst Hd Hq Hs) as Hc.
  assert (part 1 == received p stop q)%Q as P1 by (unfold part, received; ring).
  assert (part (45 # 100) + part (55 # 100) == received p stop q - fixed)%Q as P2 by (apply received_parts; ring).
  split_and!; [lra|lra|]. intros Hm. specialize (H2 Hm). lra.
Qed.

(** What an entry hands over. *)
Record bo_entry (o : order_msg) (intents : option (list exit_intent)) (st : bo_state) : Prop := {
  be_buy : om_side o = side_buy ∧ om_symbol o = sym ∧ (0 < om_quantity o)%Q;
  be_waits : bs_phase st = RETESTED;
  be_exits : ∃ sl tp trail : Q,
    intents = Some [bracket sym true (om_quantity o) (Some (sl : num)) (Some (tp : num)) None None (n_lit 45 100) "breakout";
                    bracket sym true (om_quantity o) (Some (sl : num)) None None (Some (trail : num)) (n_lit 55 100) "breakout"] ∧
    (sl < om_price o)%Q ∧
    ((1 # 1000000000000) < om_price o - sl →
     let part x := received (bo_sizing c) sl (x * om_quantity o) in
     paid (bo_sizing c) (om_price o) (om_quantity o) - part 1 <= budget (bo_sizing c) ∧
     paid (bo_sizing c) (om_price o) (om_quantity o) - (part (45 # 100) + part (55 # 100)) <=
       budget (bo_sizing c) + at_least_zero (sz_fixed_fee_per_leg (bo_sizing c)) ∧
     (sz_max_notional_frac (bo_sizing c) <= 0 →
      paid (bo_sizing c) (om_price o) (om_quantity o) - (part (45 # 100) + part (55 # 100)) ==
        budget (bo_sizing c) + at_least_zero (sz_fixed_fee_per_leg (bo_sizing c))))%Q ∧
    (n_min (bo_min_rr c) (n_lit 28 10) * (om_price o - sl) <= tp - om_price o)%Q }.

Lemma bar_entry m st o intents st' : (0 <= mm_high m)%Q → bo_ok st → bo_bar c m st sym = ((Some o, intents), st') → bo_entry o intents st'.
Proof using Hthreshold.
  intros Hh H. unfold bo_bar. cbv zeta. apply (breakout_update_ok _ (mm_low m) (mm_close m) (n_lit (mm_volume m) 1) st Hh) in H.
  set (st1 := bo_update _ _ _ _ _) in *. clearbody st1. pose proof (consolidate_ok st1 H) as H'.
  assert (bs_atr (bo_consolidate c st1) = bs_atr st1) as Hat by (unfold bo_consolidate; by repeat case_match).
  set (st2 := bo_consolidate c st1) in *. clearbody st2.
  set (atr := atr_value (bs_atr st1)) in *. set (cl := mm_close m). case_match; [done|]. case_match; [done|].
  destruct (check_breakout_gates _ _ _ _ _ _ _ _) as [lv|] eqn:Eg; [|done].
  destruct (gates_above st2 _ _ _ _ _ _ _ H' Eg) as [Ha Hl].
  assert (∀ r, (if (bo_quantity c cl (bo_distance st2 cl atr) <=? n_zero)%num then ((None, None), st2) else
    ((Some (mk_order_msg (mm_ts m) sym ot_market side_buy (bo_quantity c cl (bo_distance st2 cl atr)) cl tif_gtc),
      Some (bo_intents c st2 sym cl (bo_quantity c cl (bo_distance st2 cl atr)) atr)),
     bo_move RETESTED lv 0 (bs_consolidation_low st2) (bs_consolidation_high st2) atr st2)) = r →
    r = ((Some o, intents), st') → bo_entry o intents st') as Hent.
  { intros r <-. destruct (distance_exact st2 cl atr Ha Hl) as [Ed Hd]. set (q := bo_quantity c cl (bo_distance st2 cl atr)).
    change (@n_zero exact_arith) with 0%Q. tt_exact. destruct (Qleb_spec q 0) as [|Hq]; [done|]. intros [= <- <- <-].
    split; [by split_and!|done|]. exists (bo_stop st2 atr), (bo_target c st2 cl atr). eexists. split; [done|].
    cbn [om_price om_quantity mk_order_msg]. split; [lra|]. split; [|by apply target_far].
    pose proof (bo_quantity_sized _ _ Hq) as Eq. fold q in Eq. rewrite Ed in Eq. by apply stop_costs. }
  destruct (bs_phase st2); try done.
  - rewrite (bool_decide_false (CONSOLIDATING = BROKEN)) by done. cbn [andb]. by apply Hent.
  - destruct (_ && _); [done|]. by apply Hent.
Qed.
End Breakout.

(** C38: In exact arithmetic, in every history of bars with highs that are not negative, fills and resyncs, a breakout entry buys a
    positive quantity, waits for its fill, and hands over two exits for 45 and 55 percent of it with a common stop strictly below
    the entry.  Bought and stopped out there with the slippage against it, the rates on what is traded and the fixed fee of every
    order, it loses at most the risk budget if it is sold in one order; sold in the two orders it hands over, it loses at most one
    fixed fee more, and exactly that much more than the budget when its notional is not capped (the stop being more than 1e-12
    away).  The target is at least the smaller of the configured reward and 2.8 times the distance to the stop away. *)
Theorem breakout_risk_bounded c sym ts m o intents st' : (0 <= bo_threshold c)%Q → Forall priced ts → (0 <= mm_high m)%Q →
  bo_bar c m (bo_run c sym ts) sym = ((Some o, intents), st') → bo_entry c sym o intents st'.
Proof. intros Ht Hp Hm. apply bar_entry; [done|done|]. by apply breakout_run_ok. Qed.

(** Ten narrow bars and a strong one. *)
Definition tight : bo_config :=
  {| bo_sizing := {| sz_equity := (2500 # 1)%Q; sz_risk_fraction := (5 # 1000)%Q; sz_entry_fee_rate := (4 # 10000)%Q; sz_exit_fee_rate := (4 # 10000)%Q;
        sz_entry_slip_bps := (2 # 1)%Q; sz_exit_slip_bps := (2 # 1)%Q; sz_fixed_fee_per_leg := (1 # 1)%Q; sz_max_notional_frac := 0%Q |}; bo_atr_period := 1; bo_vol_period := 1; bo_lookback := 2; bo_threshold := (75 # 10000)%Q;
     bo_atr_expansion := (15 # 100)%Q; bo_vol_mult := (1 # 2)%Q; bo_min_rr := (25 # 10)%Q |}.
Definition ohlc (o h l cl : Q) : market_msg :=
  {| mm_ts := 0; mm_symbol := "BTC"; mm_open := o; mm_high := h; mm_low := l; mm_close := cl; mm_volume := 1; mm_recv_ns := 0 |}.
Definition coiled : list bo_told := replicate 10 (bo_tell_bar (ohlc (100 # 1) (1005 # 10) (995 # 10) (100 # 1))).
Definition strong : market_msg := ohlc (100 # 1) (1032 # 10) (100 # 1) (103 # 1).
Lemma strong_buys : om_side <$> (bo_bar tight strong (bo_run tight "BTC" coiled) "BTC").1.1 = Some side_buy.
Proof. vm_compute. reflexivity. Qed.
Lemma breakout_risk_bounded_witness : ∃ o intents st', bo_entry tight "BTC" o intents st'.
Proof.
  pose proof strong_buys as H. pose proof (breakout_risk_bounded tight "BTC" coiled strong) as T. revert H T.
  generalize (bo_bar tight strong (bo_run tight "BTC" coiled) "BTC"). intros [[[o|] intents] st'] H T; [|discriminate H].
  exists o, intents, st'. apply (T o intents st'); [by vm_compute| |by vm_compute|reflexivity]. apply Forall_replicate. by vm_compute.
Defined.

(** ** Mean reversion *)

Section MeanReversion.
Variables (c : mr_config) (sym : string).
(** The three exit styles the parameter can choose. *)
Hypothesis Hstyle : mr_exit_style c = "pct" ∨ mr_exit_style c = "atr" ∨ mr_exit_style c = "fib".
Hypothesis Hpct : (0 < mr_sl_pct c)%Q.

(** The market is quiet when the impulse to the opposing swing is short for its true range. *)
Definition quiet (st : mr_state) (entry : Q) (long : bool) : bool :=
  use_structure c st && Qltb (Qabs ((impulse st entry long).1 - (impulse st entry long).2)) ((12 # 10) * atr_value (ms_atr st)).

Lemma base_stop st (entry qty : Q) long : ∃ sl : Q, stop_loss (mr_base_intent c st sym entry qty long) = Some (sl : num) ∧
  (quiet st entry long = false → sl = compute_intended_sl c st entry long).
Proof using Hstyle Hpct.
  unfold mr_base_intent, compute_intended_sl, quiet. destruct (use_structure c st) eqn:Eu.
  - eexists. split; [done|]. destruct (impulse st entry long) as [hi lo]. cbn [andb fst snd]. unfold n_abs. tt_exact. by intros ->.
  - assert ((bool_decide (mr_exit_style c = "atr") || needs_swing c) = needs_atr c) as ->.
    { unfold needs_swing, needs_atr. by destruct Hstyle as [-> | [-> | ->]]. }
    destruct (use_atr_levels c st), (needs_atr c); cbn [andb]; [eexists; by split|..];
      (destruct long; cbn; unfold n_zero, n_one; tt_exact; rewrite (Qltb_lt (0 # 1) (mr_sl_pct c)) by exact Hpct; eexists; by split).
Qed.

Definition against (s : order_side) : order_side := if bool_decide (s = side_buy) then side_sell else side_buy.
Definition closes_all (o : order_msg) (intents : list exit_intent) : Prop :=
  Forall (λ i, ei_symbol i = om_symbol o ∧ close_side i = against (om_side o) ∧ ei_qty i = om_quantity o ∧ reference_entry i = Some (om_price o)) intents ∧
  (foldr (λ i x, qty_fraction i + x) 0 intents == 1)%Q.
Definition side_for (d : bool) : order_side := if d then side_buy else side_sell.

Lemma base_closes st (entry qty : Q) long : let i := mr_base_intent c st sym entry qty long in
  ei_symbol i = sym ∧ close_side i = (if long then side_sell else side_buy) ∧ ei_qty i = qty ∧ reference_entry i = Some (entry : num) ∧ (qty_fraction i == 1)%Q.
Proof using Type. unfold mr_base_intent. repeat case_match; done. Qed.
Lemma exits_shape st (entry qty : Q) long (sl : Q) : stop_loss (mr_base_intent c st sym entry qty long) = Some (sl : num) →
  Forall (λ i, stop_loss i = Some (sl : num)) (mr_exit_intents c st sym entry qty long) ∧
  ∀ o, om_symbol o = sym → om_side o = side_for long → om_quantity o = qty → om_price o = entry →
  closes_all o (mr_exit_intents c st sym entry qty long).
Proof using Type.
  intros Hs. destruct (base_closes st entry qty long) as (H1 & H2 & H3 & H4 & H5). unfold mr_exit_intents. cbv zeta.
  set (b := mr_base_intent c st sym entry qty long) in *. clearbody b.
  assert (∀ o, om_side o = side_for long → against (om_side o) = close_side b) as Hside by (intros o ->; rewrite H2; by destruct long).
  match goal with |- context [if ?x then [first_part ?r b; runner_part _ ?t b] else _] => generalize t; intros trail; destruct x end;
    (split; [by repeat constructor|]); intros o E1 E2 E3 E4; specialize (Hside o E2); split.
  - apply Forall_cons_2; [|apply Forall_singleton]; split_and!; cbn; rewrite ?H1, ?H3, ?H4, ?E1, ?E3, ?E4; done.
  - cbn. unfold n_one. tt_exact. ring.
  - apply Forall_singleton; split_and!; rewrite ?H1, ?H3, ?H4, ?E1, ?E3, ?E4; done.
  - cbn. rewrite H5. ring.
Qed.

Record mr_entry (st : mr_state) (v price : Q) (o : order_msg) (intents : list exit_intent) (st' : mr_state) (d : bool) : Prop := {
  me_edge : if d then (price < v)%Q ∧ ms_prev_side st ≠ ss_below else (v < price)%Q ∧ ms_prev_side st ≠ ss_above;
  me_order : om_side o = side_for d ∧ om_symbol o = sym ∧ om_price o = price ∧ (0 < om_quantity o)%Q;
  me_gate : ms_open st = false ∧ ms_open st' = true;
  me_exits : closes_all o intents;
  me_stop : ∃ sl : Q, Forall (λ i, stop_loss i = Some (sl : num)) intents ∧
    (quiet st price d = false → (loss_at (mr_sizing c) price sl d (om_quantity o) <= budget (mr_sizing c))%Q) }.

Lemma try_entry_sound st ts (price v : Q) o intents st' : try_entry c sym ts price v st = ((Some o, intents), st') →
  ∃ d, mr_entry st v price o intents st' d.
Proof using Hstyle Hpct.
  unfold try_entry. destruct (ms_open st) eqn:Eo; [done|]. cbv zeta.
  set (side := @side_of exact_arith price v). set (st1 := mr_gate false side st).
  destruct (_ || _) eqn:Eside; [done|]. apply orb_false_iff in Eside as [Heq Hedge]. apply bool_decide_eq_false in Heq.
  set (d := bool_decide (side = ss_below) && bool_decide (ms_prev_side st ≠ ss_below)) in *.
  set (q := @compute_quantity_with_sl exact_arith c price (compute_intended_sl c st1 price d) d).
  change (@n_zero exact_arith) with 0%Q. tt_exact. destruct (Qleb_spec q 0) as [|Hq]; [done|]. intros [= <- <- <-].
  exists d. destruct (base_stop st1 price q d) as (sl & Hsl & Hint). destruct (exits_shape st1 price q d sl Hsl) as [Hst Hcl].
  split; [|done|done|by apply Hcl|].
  - assert (side = ss_below ∧ (price < v)%Q ∨ side = ss_above ∧ (v < price)%Q) as Hs.
    { unfold side, side_of in *. tt_exact. destruct (Qltb_spec price v); [by left|]. destruct (Qltb_spec v price); [by right|done]. }
    clear -Hs Hedge. subst d. destruct Hs as [[Es Hv]|[Es Hv]]; rewrite Es in *; revert Hedge.
    + rewrite (bool_decide_true (ss_below = ss_below)), (bool_decide_false (ss_below = ss_above)) by done. cbn [andb].
      case_bool_decide; cbn; done.
    + rewrite (bool_decide_true (ss_above = ss_above)), (bool_decide_false (ss_above = ss_below)) by done. cbn [andb negb].
      case_bool_decide; cbn; done.
  - exists sl. split; [done|]. intros Hq'. rewrite (Hint Hq'). by apply sized_within.
Qed.
End MeanReversion.

(** The state a bar is decided on. *)
Definition mr_seen (c : mr_config) (high low close : Q) (st : mr_state) : mr_state :=
  update_indicators c high low close
    {| ms_sma := (sma_update (close : num) (ms_sma st)).2; ms_atr := ms_atr st; ms_swing := ms_swing st; ms_open := ms_open st;
       ms_prev_side := ms_prev_side st |}.

(** In exact arithmetic, from any state, with a positive stop percentage and one of the three exit styles: a mean-reversion
    order is sent only when no position is open and the close has just moved below the average, to buy, or above it, to
    sell; it closes the gate; its exits close the other side of the whole quantity, relative to the entry, with fractions that add
    up to one and a common stop; and unless the market is quiet for its true range, the position stopped out there loses at
    most the risk budget, adverse fills and fees included. *)
Theorem mean_reversion_sound c sym ts (high low close : Q) st o intents st' :
  mr_exit_style c = "pct" ∨ mr_exit_style c = "atr" ∨ mr_exit_style c = "fib" → (0 < mr_sl_pct c)%Q →
  mr_bar c ts high low close st sym = ((Some o, intents), st') →
  ∃ v d, (sma_update (close : num) (ms_sma st)).1 = Some (v : num) ∧ mr_entry c sym (mr_seen c high low close st) v close o intents st' d.
Proof.
  intros Hs Hp H. unfold mr_bar in H. cbv zeta in H. destruct (sma_update _ _).1 as [v|] eqn:Ev; [|done].
  destruct (try_entry_sound c sym Hs Hp _ _ _ _ _ _ _ H) as [d Hd]. exists v, d. by split.
Qed.

(** In a quiet market a mean-reversion entry overshoots its risk budget: with the swing-based exits, when the impulse is short
    for the true range and the stop that is registered is farther than the one a true range away, a long entry, sized without
    a notional cap, loses strictly more than the risk budget when the stop it registers is hit. *)
Theorem quiet_entry_overshoots c sym ts (price v : Q) st o intents st' (sl : Q := structure_stop c st price true) (sized : Q := atr_stop c st price true) :
  try_entry c sym ts price v st = ((Some o, intents), st') → om_side o = side_buy → quiet c st price true = true →
  (0 < sl)%Q → (sl < sized)%Q → ((1 # 1000000000000) < price - sized)%Q →
  (sz_max_notional_frac (mr_sizing c) <= 0)%Q → (sz_exit_slip_bps (mr_sizing c) < 10000)%Q → (sz_exit_fee_rate (mr_sizing c) < 1)%Q →
  Forall (λ i, stop_loss i = Some (sl : num)) intents ∧ (budget (mr_sizing c) < loss_at (mr_sizing c) price sl true (om_quantity o))%Q.
Proof.
  intros H Hbuy Hquiet Hsl Hfar Heps Hcap Hslip Hfee. unfold quiet in Hquiet. apply andb_true_iff in Hquiet as [Hu Himp].
  unfold try_entry in H. destruct (ms_open st) eqn:Eo; [done|]. cbv zeta in H.
  set (side := @side_of exact_arith price v) in *. set (st1 := mr_gate false side st) in *. destruct (_ || _); [done|].
  set (d := bool_decide (side = ss_below) && bool_decide (ms_prev_side st ≠ ss_below)) in *.
  set (q := @compute_quantity_with_sl exact_arith c price (compute_intended_sl c st1 price d) d) in *.
  change (@n_zero exact_arith) with 0%Q in H. tt_exact. destruct (Qleb_spec q 0) as [|Hq]; [done|]. injection H as <- <- <-.
  assert (d = true) as Ed by (by destruct d). clearbody d. subst d.
  assert (compute_intended_sl c st1 price true = sized) as Eint.
  { unfold compute_intended_sl. change (use_structure c st1) with (use_structure c st). rewrite Hu.
    change (impulse st1 price true) with (impulse st price true). destruct (impulse st price true) as [hi lo]. cbn [fst snd] in Himp.
    change (atr_value (ms_atr st1)) with (atr_value (ms_atr st)). tt_exact. by rewrite Himp. }
  assert (stop_loss (mr_base_intent c st1 sym price q true) = Some (sl : num)) as Estop.
  { unfold mr_base_intent. change (use_structure c st1) with (use_structure c st). by rewrite Hu. }
  split; [by apply (exits_shape c sym st1 price q true sl)|]. cbn [om_quantity mk_order_msg].
  subst q. unfold compute_quantity_with_sl in *. rewrite Eint in *. destruct (sized_within _ _ _ _ Hq) as [_ E]. specialize (E Hcap).
  destruct (sized_positive _ _ _ _ Hq) as [Hpr _]. rewrite <- E. by apply farther_stop.
Qed.

Section QuietExample.
(** A hundred, a true range of a tenth and a swing high close by. *)
Definition flat_swings : swing_detector :=
  foldl (λ d (b : Q * Q), swing_update (b.1 : num) (b.2 : num) d) (mk_swing 1 4)
    [(100 # 1, 999 # 10); (10005 # 100, 999 # 10); (100 # 1, 999 # 10); (100 # 1, 999 # 10)]%Q.
Definition quiet_state : mr_state :=
  {| ms_sma := mk_sma 1; ms_atr := (atr_update (10005 # 100 : num)%Q (9995 # 100 : num)%Q (100 # 1 : num)%Q (mk_atr 1)).2; ms_swing := flat_swings;
     ms_open := false; ms_prev_side := ss_above |}.
Definition default_mr : mr_config := mr_cfg (mk_mean_reversion 20 (10000 # 1 : num)%Q (2 # 100 : num)%Q (5 # 1000 : num)%Q (1 # 100 : num)%Q 14).
Definition quiet_try := try_entry default_mr "BTC" 0 (100 # 1 : num)%Q (101 # 1 : num)%Q quiet_state.

Lemma quiet_buys : om_side <$> quiet_try.1.1 = Some side_buy.
Proof. vm_compute. reflexivity. Qed.
Lemma quiet_entry_overshoots_witness : ∃ o intents, Forall (λ i, stop_loss i = Some (structure_stop default_mr quiet_state (100 # 1 : num)%Q true)) intents ∧
  (budget (mr_sizing default_mr) < loss_at (mr_sizing default_mr) (100 # 1) (structure_stop default_mr quiet_state (100 # 1 : num)%Q true) true (om_quantity o))%Q.
Proof.
  pose proof quiet_buys as H. pose proof (quiet_entry_overshoots default_mr "BTC" 0 (100 # 1) (101 # 1) quiet_state) as T. revert H T. unfold quiet_try.
  generalize (try_entry default_mr "BTC" 0 (100 # 1 : num)%Q (101 # 1 : num)%Q quiet_state). intros [[[o|] intents] st'] H T; [|discriminate H].
  exists o, intents. apply (T o intents st'); [reflexivity|by injection H|by vm_compute..].
Defined.
End QuietExample.

Definition dip_state : mr_state :=
  {| ms_sma := (sma_update (102 # 1 : num)%Q (mk_sma 2)).2; ms_atr := mk_atr 1; ms_swing := mk_swing 1 4; ms_open := false; ms_prev_side := ss_above |}.
Lemma dip_buys : om_side <$> (mr_bar default_mr 0 (101 # 1 : num)%Q (99 # 1 : num)%Q (100 # 1 : num)%Q dip_state "BTC").1.1 = Some side_buy.
Proof. vm_compute. reflexivity. Qed.
Lemma mean_reversion_sound_witness : ∃ o intents st' v d, (sma_update (100 # 1 : num)%Q (ms_sma dip_state)).1 = Some (v : num) ∧
  mr_entry default_mr "BTC" (mr_seen default_mr (101 # 1) (99 # 1) (100 # 1) dip_state) v (100 # 1) o intents st' d.
Proof.
  pose proof dip_buys as H. pose proof (mean_reversion_sound default_mr "BTC" 0 (101 # 1) (99 # 1) (100 # 1) dip_state) as T. revert H T.
  generalize (mr_bar default_mr 0 (101 # 1 : num)%Q (99 # 1 : num)%Q (100 # 1 : num)%Q dip_state "BTC").
  intros [[[o|] intents] st'] H T; [|discriminate H]. exists o, intents, st'. apply (T o intents st'); [by right; right|by vm_compute|reflexivity].
Defined.

(** ** The continuation *)

(** What the continuation strategy sizes for. *)
Definition ct_budget (p : sizing_params) : Q := budget (set_sz_equity (n_lit 10000 1) p).

(** A long entry of the continuation strategy far above its average is sized for a stop nearer than the one it registers: when the
    average is more than two percent below the entry, the position, sized without a notional cap for a budget of a fixed
    account of 10000, loses strictly more than that budget when the stop it registers is hit, whatever the swings. *)
Theorem continuation_overshoots p m sym st (close : Q := mm_close m) (sl : Q := ct_stop st close true) o intents st' :
  ct_enter p m sym true st = ((Some o, intents), st') → ema_ready (ct_ema100 st) && swing_ready (ct_swing st) && atr_ready (ct_atr st) = true →
  (0 < ct_quantity p close (ct_distance st close true) (n_lit 10000 1) true)%Q →
  (0 < sl)%Q → (ema_value (ct_ema100 st) <= (98 # 100) * close)%Q →
  (sz_max_notional_frac p <= 0)%Q → (sz_exit_slip_bps p < 10000)%Q → (sz_exit_fee_rate p < 1)%Q → ((1 # 1000000000) < close)%Q →
  Forall (λ i, stop_loss i = Some (sl : num)) intents ∧ (ct_budget p < loss_at (set_sz_equity (n_lit 10000 1) p) close sl true (om_quantity o))%Q.
Proof.
  intros H Hready Hq Hsl Hema Hcap Hslip Hfee Hclose. unfold ct_enter in H. cbv zeta in H. fold close in H.
  set (D := @ct_distance exact_arith st close true) in *. set (q := @ct_quantity exact_arith p close D (n_lit 10000 1) true) in *.
  change (@n_zero exact_arith) with 0%Q in H. tt_exact. destruct (Qleb_spec q 0) as [|_]; [exfalso; lra|]. injection H as <- <- <-.
  apply andb_true_iff in Hready as [[H1 H2]%andb_true_iff H3]. cbn [om_quantity mk_order_msg].
  split.
  { unfold ct_exit_intents. cbn [ct_ema100 ct_swing ct_atr ct_move]. rewrite H1, H2, H3. cbn [negb orb]. by repeat constructor. }
  assert (D == close - ema_value (ct_ema100 st))%Q as HD.
  { subst D. unfold ct_distance, n_max, n_min. tt_exact.
    destruct (Qltb_spec (close * (98 # 100)) (ema_value (ct_ema100 st))); [exfalso; lra|].
    destruct (Qltb_spec (close - ema_value (ct_ema100 st)) (close * (5 # 1000))); [exfalso; lra|reflexivity]. }
  assert (sl < ema_value (ct_ema100 st))%Q as Hfar.
  { subst sl. unfold ct_stop. cbv zeta. match goal with |- context [n_min ?e ?w] => destruct (n_min_cases e w) as (Hmin & _ & _); set (x := n_min e w) in * end. clearbody x.
    unfold n_max. tt_exact. case_match; tt_exact; [|lra].
    match goal with H : Qltb _ _ = true |- _ => apply Qltb_true in H end. lra. }
  assert (q = compute_risk_quantity (size_inputs (set_sz_equity (n_lit 10000 1) p) close (close - D)%Q true)) as Eq.
  { subst q. unfold ct_quantity in *. cbv zeta in *. case_match; [cbn in Hq; lra|done]. }
  clearbody q. subst q. destruct (sized_within _ _ _ _ Hq) as [_ E]. specialize (E Hcap). destruct (sized_positive _ _ _ _ Hq) as [Hpr _].
  unfold ct_budget. rewrite <- E. apply farther_stop; [done|done|lra|lra|done|done|done].
Qed.

Definition far_above : ct_state :=
  {| ct_ema50 := mk_ema 1; ct_ema100 := (ema_update (90 # 1 : num)%Q (mk_ema 1)).2; ct_stoch := mk_stochastic 2 1 2; ct_swing := flat_swings;
     ct_atr := ms_atr quiet_state; ct_regime := default_regime; ct_phase := READY_FOR_CONTINUATION; ct_bias := 1; ct_since_exit := 0; ct_signals := 2;
     ct_cooldown := 0; ct_open := false; ct_open_lots := 0; ct_last_opener := 0; ct_last_close := (100 # 1)%Q |}.
Definition costless : sizing_params := no_costs (10000 # 1 : num)%Q (1 # 100 : num)%Q.
Definition at_hundred : market_msg := ohlc (100 # 1) (101 # 1) (99 # 1) (100 # 1).
Lemma continuation_overshoots_witness : ∃ o intents, Forall (λ i, stop_loss i = Some (ct_stop far_above (100 # 1 : num)%Q true)) intents ∧
  (ct_budget costless < loss_at (set_sz_equity (n_lit 10000 1) costless) (100 # 1) (ct_stop far_above (100 # 1 : num)%Q true) true (om_quantity o))%Q.
Proof.
  pose proof (continuation_overshoots costless at_hundred "BTC" far_above) as T. revert T.
  destruct (ct_enter costless at_hundred "BTC" true far_above) as [[[o|] intents] st'] eqn:E; [|discriminate E].
  intros T. exists o, intents. apply (T o intents st'); [reflexivity|by vm_compute..].
Defined.

(** A closer fill of any size makes the breakout strategy think it is flat, after one opener fill. *)
Lemma first_closer_rescans (f : fill_msg) opener (st : bo_state) : bs_open_lots st = 1 → (opener =? fm_order_id f) = false →
  bs_open (bo_filled f opener st) = false ∧ bs_open_lots (bo_filled f opener st) = 0 ∧ bs_phase (bo_filled f opener st) = SCANNING.
Proof. intros H1 H2. unfold bo_filled. by rewrite H1, H2. Qed.
