(* ===== verification/Hybrid.v ===== *)
(** * The adaptive hybrid strategy (src/src/strategy/adaptive_hybrid_strategy.h and .cpp,
    adaptive_hybrid_config.h)

    The imbalance engine over the top of the book, the validator with its sequence of
    checks, the monitors and the strategy that quotes on depth updates.  The ring between
    the on-chain thread and the strategy is the bounded queue it implements; the clock is
    an argument.  Loading the configuration from JSON is not modelled. *)

From Stdlib Require Import QArith Qabs Lqa Sorting.Sorted.
From S2P Require Import Prelude Float64 Event Arith Portfolio Sizing Exits Indicators Symbols EngineEvents EngineState Strategies.

Open Scope string_scope.
Open Scope list_scope.
Open Scope Z_scope.

Section Hybrid.
Context {A : Arith}.

Record AdaptiveHybridConfig := {
  hc_imbalance_long_threshold : num;
  hc_imbalance_short_threshold : num;
  hc_imbalance_defensive_abs : num;
  hc_spread_min_pct : num;
  hc_spread_max_pct : num;
  hc_maker_size_frac : num;
  hc_taker_size_frac : num;
  hc_inventory_max_pct : num;
  hc_spike_z_threshold : num;
  hc_spike_lookback_s : num;
  hc_spike_ewma_alpha : num;
  hc_require_positive : bool;
  hc_max_latency_ms : num;
  hc_max_global_exposure_pct : num;
  hc_max_impact_bps : num;
  hc_max_cancel_to_trade : num;
  hc_max_open_orders : Z;
  hc_small_cap_mode : bool;
  hc_small_cap_inventory_pct : num;
  hc_imb_ewma_alpha : num;
  hc_top_k_levels : Z;
  hc_rng_seed : Z;
  hc_enable_onchain_mock : bool }.
Definition set_hc_imbalance_long_threshold (x : num) (c : AdaptiveHybridConfig) : AdaptiveHybridConfig :=
  {| hc_imbalance_long_threshold := x; hc_imbalance_short_threshold := hc_imbalance_short_threshold c;
     hc_imbalance_defensive_abs := hc_imbalance_defensive_abs c; hc_spread_min_pct := hc_spread_min_pct c;
     hc_spread_max_pct := hc_spread_max_pct c; hc_maker_size_frac := hc_maker_size_frac c; hc_taker_size_frac :=
     hc_taker_size_frac c; hc_inventory_max_pct := hc_inventory_max_pct c; hc_spike_z_threshold := hc_spike_z_threshold c;
     hc_spike_lookback_s := hc_spike_lookback_s c; hc_spike_ewma_alpha := hc_spike_ewma_alpha c; hc_require_positive :=
     hc_require_positive c; hc_max_latency_ms := hc_max_latency_ms c; hc_max_global_exposure_pct :=
     hc_max_global_exposure_pct c; hc_max_impact_bps := hc_max_impact_bps c; hc_max_cancel_to_trade :=
     hc_max_cancel_to_trade c; hc_max_open_orders := hc_max_open_orders c; hc_small_cap_mode := hc_small_cap_mode c;
     hc_small_cap_inventory_pct := hc_small_cap_inventory_pct c; hc_imb_ewma_alpha := hc_imb_ewma_alpha c; hc_top_k_levels
     := hc_top_k_levels c; hc_rng_seed := hc_rng_seed c; hc_enable_onchain_mock := hc_enable_onchain_mock c |}.
Definition set_hc_maker_size_frac (x : num) (c : AdaptiveHybridConfig) : AdaptiveHybridConfig :=
  {| hc_imbalance_long_threshold := hc_imbalance_long_threshold c; hc_imbalance_short_threshold :=
     hc_imbalance_short_threshold c; hc_imbalance_defensive_abs := hc_imbalance_defensive_abs c; hc_spread_min_pct :=
     hc_spread_min_pct c; hc_spread_max_pct := hc_spread_max_pct c; hc_maker_size_frac := x; hc_taker_size_frac :=
     hc_taker_size_frac c; hc_inventory_max_pct := hc_inventory_max_pct c; hc_spike_z_threshold := hc_spike_z_threshold c;
     hc_spike_lookback_s := hc_spike_lookback_s c; hc_spike_ewma_alpha := hc_spike_ewma_alpha c; hc_require_positive :=
     hc_require_positive c; hc_max_latency_ms := hc_max_latency_ms c; hc_max_global_exposure_pct :=
     hc_max_global_exposure_pct c; hc_max_impact_bps := hc_max_impact_bps c; hc_max_cancel_to_trade :=
     hc_max_cancel_to_trade c; hc_max_open_orders := hc_max_open_orders c; hc_small_cap_mode := hc_small_cap_mode c;
     hc_small_cap_inventory_pct := hc_small_cap_inventory_pct c; hc_imb_ewma_alpha := hc_imb_ewma_alpha c; hc_top_k_levels
     := hc_top_k_levels c; hc_rng_seed := hc_rng_seed c; hc_enable_onchain_mock := hc_enable_onchain_mock c |}.
Definition set_hc_inventory_max_pct (x : num) (c : AdaptiveHybridConfig) : AdaptiveHybridConfig :=
  {| hc_imbalance_long_threshold := hc_imbalance_long_threshold c; hc_imbalance_short_threshold :=
     hc_imbalance_short_threshold c; hc_imbalance_defensive_abs := hc_imbalance_defensive_abs c; hc_spread_min_pct :=
     hc_spread_min_pct c; hc_spread_max_pct := hc_spread_max_pct c; hc_maker_size_frac := hc_maker_size_frac c;
     hc_taker_size_frac := hc_taker_size_frac c; hc_inventory_max_pct := x; hc_spike_z_threshold := hc_spike_z_threshold c;
     hc_spike_lookback_s := hc_spike_lookback_s c; hc_spike_ewma_alpha := hc_spike_ewma_alpha c; hc_require_positive :=
     hc_require_positive c; hc_max_latency_ms := hc_max_latency_ms c; hc_max_global_exposure_pct :=
     hc_max_global_exposure_pct c; hc_max_impact_bps := hc_max_impact_bps c; hc_max_cancel_to_trade :=
     hc_max_cancel_to_trade c; hc_max_open_orders := hc_max_open_orders c; hc_small_cap_mode := hc_small_cap_mode c;
     hc_small_cap_inventory_pct := hc_small_cap_inventory_pct c; hc_imb_ewma_alpha := hc_imb_ewma_alpha c; hc_top_k_levels
     := hc_top_k_levels c; hc_rng_seed := hc_rng_seed c; hc_enable_onchain_mock := hc_enable_onchain_mock c |}.
Definition set_hc_spike_z_threshold (x : num) (c : AdaptiveHybridConfig) : AdaptiveHybridConfig :=
  {| hc_imbalance_long_threshold := hc_imbalance_long_threshold c; hc_imbalance_short_threshold :=
     hc_imbalance_short_threshold c; hc_imbalance_defensive_abs := hc_imbalance_defensive_abs c; hc_spread_min_pct :=
     hc_spread_min_pct c; hc_spread_max_pct := hc_spread_max_pct c; hc_maker_size_frac := hc_maker_size_frac c;
     hc_taker_size_frac := hc_taker_size_frac c; hc_inventory_max_pct := hc_inventory_max_pct c; hc_spike_z_threshold := x;
     hc_spike_lookback_s := hc_spike_lookback_s c; hc_spike_ewma_alpha := hc_spike_ewma_alpha c; hc_require_positive :=
     hc_require_positive c; hc_max_latency_ms := hc_max_latency_ms c; hc_max_global_exposure_pct :=
     hc_max_global_exposure_pct c; hc_max_impact_bps := hc_max_impact_bps c; hc_max_cancel_to_trade :=
     hc_max_cancel_to_trade c; hc_max_open_orders := hc_max_open_orders c; hc_small_cap_mode := hc_small_cap_mode c;
     hc_small_cap_inventory_pct := hc_small_cap_inventory_pct c; hc_imb_ewma_alpha := hc_imb_ewma_alpha c; hc_top_k_levels
     := hc_top_k_levels c; hc_rng_seed := hc_rng_seed c; hc_enable_onchain_mock := hc_enable_onchain_mock c |}.
Definition set_hc_max_latency_ms (x : num) (c : AdaptiveHybridConfig) : AdaptiveHybridConfig :=
  {| hc_imbalance_long_threshold := hc_imbalance_long_threshold c; hc_imbalance_short_threshold :=
     hc_imbalance_short_threshold c; hc_imbalance_defensive_abs := hc_imbalance_defensive_abs c; hc_spread_min_pct :=
     hc_spread_min_pct c; hc_spread_max_pct := hc_spread_max_pct c; hc_maker_size_frac := hc_maker_size_frac c;
     hc_taker_size_frac := hc_taker_size_frac c; hc_inventory_max_pct := hc_inventory_max_pct c; hc_spike_z_threshold :=
     hc_spike_z_threshold c; hc_spike_lookback_s := hc_spike_lookback_s c; hc_spike_ewma_alpha := hc_spike_ewma_alpha c;
     hc_require_positive := hc_require_positive c; hc_max_latency_ms := x; hc_max_global_exposure_pct :=
     hc_max_global_exposure_pct c; hc_max_impact_bps := hc_max_impact_bps c; hc_max_cancel_to_trade :=
     hc_max_cancel_to_trade c; hc_max_open_orders := hc_max_open_orders c; hc_small_cap_mode := hc_small_cap_mode c;
     hc_small_cap_inventory_pct := hc_small_cap_inventory_pct c; hc_imb_ewma_alpha := hc_imb_ewma_alpha c; hc_top_k_levels
     := hc_top_k_levels c; hc_rng_seed := hc_rng_seed c; hc_enable_onchain_mock := hc_enable_onchain_mock c |}.
Definition default_hybrid_config : AdaptiveHybridConfig :=
  {| hc_imbalance_long_threshold := n_lit 22 100; hc_imbalance_short_threshold := n_lit (-22) 100; hc_imbalance_defensive_abs := n_lit 65 100;
     hc_spread_min_pct := n_lit 12 10000; hc_spread_max_pct := n_lit 45 10000; hc_maker_size_frac := n_lit 35 10000;
     hc_taker_size_frac := n_lit 65 10000; hc_inventory_max_pct := n_lit 4 100; hc_spike_z_threshold := n_lit 35 10;
     hc_spike_lookback_s := n_lit 15 1; hc_spike_ewma_alpha := n_lit 25 100; hc_require_positive := true; hc_max_latency_ms := n_lit 20 1;
     hc_max_global_exposure_pct := n_lit 18 100; hc_max_impact_bps := n_lit 6 1; hc_max_cancel_to_trade := n_lit 60 100;
     hc_max_open_orders := 40; hc_small_cap_mode := true; hc_small_cap_inventory_pct := n_lit 25 1000; hc_imb_ewma_alpha := n_lit 28 100;
     hc_top_k_levels := 8; hc_rng_seed := 3237998146; hc_enable_onchain_mock := true |}.

Inductive Mode := MAKER_IMBALANCE | SCALPER_MOMENTUM | DEFENSIVE.
#[global] Instance Mode_eq : EqDecision Mode.
Proof. solve_decision. Defined.
Inductive RejectionReason := NONE | GLOBAL_RISK | PER_COIN_INVENTORY | EXCESSIVE_SLIPPAGE | MANIPULATION_DETECTED | LATENCY_VIOLATION.
#[global] Instance RejectionReason_eq : EqDecision RejectionReason.
Proof. solve_decision. Defined.

(** ** ImbalanceEngine *)

Record L2Level := { lv_price : num; lv_qty : Z }.
Record ImbalanceEngine := {
  ie_cfg : AdaptiveHybridConfig;
  ie_bids : list L2Level;
  ie_asks : list L2Level;
  ie_ewma : num;
  ie_last_raw : num;
  ie_micro : num;
  ie_last_mid : num;
  ie_seq : Z;
  ie_last_ts : time_point }.
Definition mk_imbalance (cfg : AdaptiveHybridConfig) : ImbalanceEngine :=
  {| ie_cfg := cfg; ie_bids := []; ie_asks := []; ie_ewma := n_zero; ie_last_raw := n_zero; ie_micro := n_zero; ie_last_mid := n_zero;
     ie_seq := 0; ie_last_ts := 0 |}.
(** [std::sort] by price, descending for bids; levels of one price keep their order. *)
Definition sorts_before (bid : bool) (a b : L2Level) : bool := if bid then (lv_price a >? lv_price b)%num else (lv_price a <? lv_price b)%num.
Fixpoint insert_level (bid : bool) (x : L2Level) (l : list L2Level) : list L2Level :=
  match l with [] => [x] | y :: l' => if sorts_before bid x y then x :: l else y :: insert_level bid x l' end.
Definition sort_levels (bid : bool) (l : list L2Level) : list L2Level := foldl (λ acc x, insert_level bid x acc) [] l.

Definition same_level (price : num) (l : L2Level) : bool := (n_abs (lv_price l - price) <? n_eps9)%num.
(** The first level at the price is replaced, or erased when the quantity is not positive. *)
Fixpoint change_level (price : num) (qty : Z) (l : list L2Level) : option (list L2Level) :=
  match l with
  | [] => None
  | x :: l' =>
      if same_level price x then Some (if qty <=? 0 then l' else {| lv_price := lv_price x; lv_qty := qty |} :: l')
      else (λ r, x :: r) <$> change_level price qty l'
  end.
(** A bound that is negative is no bound once it is a [size_t]. *)
Definition apply_to_side (k : Z) (bid : bool) (price : num) (qty : Z) (vec : list L2Level) : list L2Level :=
  let vec :=
    match change_level price qty vec with
    | Some vec => vec
    | None => if qty <=? 0 then vec else sort_levels bid (vec ++ [{| lv_price := price; lv_qty := qty |}])
    end in
  if k + 4 <? 0 then vec else take (Z.to_nat (k + 4)) vec.
Definition ie_set_book (bids asks : list L2Level) (ts : time_point) (e : ImbalanceEngine) : ImbalanceEngine :=
  {| ie_cfg := ie_cfg e; ie_bids := bids; ie_asks := asks; ie_ewma := ie_ewma e; ie_last_raw := ie_last_raw e; ie_micro := ie_micro e;
     ie_last_mid := ie_last_mid e; ie_seq := ie_seq e + 1; ie_last_ts := ts |}.
Definition ie_set_scores (ewma raw micro mid : num) (e : ImbalanceEngine) : ImbalanceEngine :=
  {| ie_cfg := ie_cfg e; ie_bids := ie_bids e; ie_asks := ie_asks e; ie_ewma := ewma; ie_last_raw := raw; ie_micro := micro;
     ie_last_mid := mid; ie_seq := ie_seq e; ie_last_ts := ie_last_ts e |}.
Definition sum_qty (l : list L2Level) : num := foldl (λ s x, s + n_lit (lv_qty x) 1)%num n_zero l.
Definition raw_imbalance (k : Z) (bids asks : list L2Level) : num :=
  let k := Z.to_nat (Z.min k (Z.min (Z.of_nat (length bids)) (Z.of_nat (length asks)))) in
  let sum_bid := sum_qty (take k bids) in
  let sum_ask := sum_qty (take k asks) in
  let total := (sum_bid + sum_ask)%num in
  if (total >? n_eps9)%num then ((sum_bid - sum_ask) / total)%num else n_zero.
Definition bbo_micro (b a : L2Level) : num :=
  let tot := n_lit (lv_qty b + lv_qty a) 1 in
  if (tot >? n_eps9)%num then ((lv_price b * n_lit (lv_qty a) 1 + lv_price a * n_lit (lv_qty b) 1) / tot)%num
  else ((lv_price b + lv_price a) * n_lit 1 2)%num.
Definition recompute (e : ImbalanceEngine) : ImbalanceEngine :=
  match ie_bids e, ie_asks e with
  | b :: _, a :: _ =>
      let raw := raw_imbalance (hc_top_k_levels (ie_cfg e)) (ie_bids e) (ie_asks e) in
      let alpha := hc_imb_ewma_alpha (ie_cfg e) in
      ie_set_scores (alpha * raw + (n_one - alpha) * ie_ewma e)%num raw (bbo_micro b a) ((lv_price b + lv_price a) * n_lit 1 2)%num e
  | _, _ => ie_set_scores n_zero (ie_last_raw e) n_zero (ie_last_mid e) e
  end.
Definition ie_on_l2_snapshot (bids asks : list L2Level) (ts : time_point) (e : ImbalanceEngine) : ImbalanceEngine :=
  recompute (ie_set_book (sort_levels true bids) (sort_levels false asks) ts e).
Definition ie_on_l2_update (side : tick_side) (price : num) (qty : Z) (ts : time_point) (e : ImbalanceEngine) : ImbalanceEngine :=
  let k := hc_top_k_levels (ie_cfg e) in
  recompute
    (if bool_decide (side = tick_bid) then ie_set_book (apply_to_side k true price qty (ie_bids e)) (ie_asks e) ts e
     else ie_set_book (ie_bids e) (apply_to_side k false price qty (ie_asks e)) ts e).
Definition dynamic_spread_pct (e : ImbalanceEngine) : num :=
  let lo := hc_spread_min_pct (ie_cfg e) in
  let hi := hc_spread_max_pct (ie_cfg e) in
  n_clamp (lo + (hi - lo) * n_min n_one (n_abs (ie_ewma e) / n_lit 6 10))%num lo hi.
Definition side_depth (mid lim : num) (start : num) (l : list L2Level) : num :=
  foldl (λ s x, if (n_abs (lv_price x - mid) <=? lim)%num then s + lv_price x * n_lit (lv_qty x) 1 else s)%num start l.
Definition liquidity_depth_bps (bps : num) (e : ImbalanceEngine) : num :=
  if bool_decide (ie_bids e = []) || bool_decide (ie_asks e = []) || (ie_last_mid e <? n_eps9)%num then n_zero else
  let lim := (ie_last_mid e * (bps / n_lit 10000 1))%num in
  side_depth (ie_last_mid e) lim (side_depth (ie_last_mid e) lim n_zero (ie_bids e)) (ie_asks e).
Definition is_thin_book (e : ImbalanceEngine) : bool :=
  match ie_bids e, ie_asks e with b :: _, a :: _ => lv_qty b + lv_qty a <? 50000000 | _, _ => true end.
Definition imb_momentum (e : ImbalanceEngine) : num := (ie_ewma e - ie_last_raw e)%num.
Definition recommended_mode (spike : bool) (e : ImbalanceEngine) : Mode :=
  if (n_abs (ie_ewma e) >? hc_imbalance_defensive_abs (ie_cfg e))%num || is_thin_book e then DEFENSIVE
  else if spike && (n_abs (imb_momentum e) >? n_lit 8 100)%num then SCALPER_MOMENTUM else MAKER_IMBALANCE.
Definition ie_reset (e : ImbalanceEngine) : ImbalanceEngine :=
  {| ie_cfg := ie_cfg e; ie_bids := []; ie_asks := []; ie_ewma := n_zero; ie_last_raw := ie_last_raw e; ie_micro := n_zero;
     ie_last_mid := ie_last_mid e; ie_seq := ie_seq e; ie_last_ts := ie_last_ts e |}.

(** ** RiskValidator *)

Record RiskValidator := { rv_cfg : AdaptiveHybridConfig; rv_cancels : gmap string (list Z); rv_churn : gmap string Z }.
Definition mk_validator (cfg : AdaptiveHybridConfig) : RiskValidator := {| rv_cfg := cfg; rv_cancels := ∅; rv_churn := ∅ |}.
Definition inventory_limit (cfg : AdaptiveHybridConfig) : num :=
  if hc_small_cap_mode cfg then hc_small_cap_inventory_pct cfg else hc_inventory_max_pct cfg.
Definition check_global (current : num) (v : RiskValidator) : bool := (n_abs current <? hc_max_global_exposure_pct (rv_cfg v))%num.
Definition check_per_coin (current notional : num) (v : RiskValidator) : bool :=
  (n_abs current + (if notional >? n_zero then n_lit 1 1000 else n_zero) <=? inventory_limit (rv_cfg v))%num.
(** The walk over the bids ends when it has the notional; only whether it found any matters. *)
Fixpoint walk_bids (cum notional : num) (l : list L2Level) : num :=
  match l with
  | [] => cum
  | x :: l => let cum := (cum + lv_price x * n_lit (lv_qty x) 1)%num in if (cum >=? notional)%num then cum else walk_bids cum notional l
  end.
Definition check_slippage (bids asks : list L2Level) (notional : num) (v : RiskValidator) : bool * num :=
  match bids, asks with
  | b :: _, a :: _ =>
      let mid := ((lv_price b + lv_price a) * n_lit 1 2)%num in
      let worst := default b (last bids) in
      let impact := if (walk_bids n_zero notional bids >? n_zero)%num then n_abs ((mid - lv_price worst) / mid * n_lit 10000 1)%num else n_lit 50 1 in
      ((impact <=? hc_max_impact_bps (rv_cfg v))%num, impact)
  | _, _ => (false, n_lit 999 1)
  end.
Definition check_manipulation (sym : string) (v : RiskValidator) : bool :=
  let cancels := length (default [] (rv_cancels v !! sym)) in
  ((if (8 <? cancels)%nat then n_lit 75 100 else n_lit 2 10) <=? hc_max_cancel_to_trade (rv_cfg v))%num.
Definition check_latency (p99_ms : num) (v : RiskValidator) : bool := (p99_ms <=? hc_max_latency_ms (rv_cfg v))%num.
Definition rv_check_order (sym : string) (notional current : num) (bids asks : list L2Level) (p99_ms : num) (v : RiskValidator)
    : RejectionReason * num :=
  if negb (check_global current v) then (GLOBAL_RISK, n_zero) else
  if negb (check_per_coin current notional v) then (PER_COIN_INVENTORY, n_zero) else
  let '(ok, impact) := check_slippage bids asks notional v in
  if negb ok then (EXCESSIVE_SLIPPAGE, impact) else
  if negb (check_manipulation sym v) then (MANIPULATION_DETECTED, impact) else
  if negb (check_latency p99_ms v) then (LATENCY_VIOLATION, impact) else (NONE, impact).
(** Cancels of the last five seconds, by a clock in nanoseconds. *)
Fixpoint drop_old (now : Z) (l : list Z) : list Z :=
  match l with [] => [] | t :: l' => if 5000000000 <? now - t then drop_old now l' else l end.
Definition record_cancel (now : Z) (sym : string) (v : RiskValidator) : RiskValidator :=
  {| rv_cfg := rv_cfg v; rv_cancels := <[sym := drop_old now (default [] (rv_cancels v !! sym) ++ [now])]> (rv_cancels v); rv_churn := rv_churn v |}.
Definition on_l2_level_churn (sym : string) (prev now : Z) (v : RiskValidator) : RiskValidator :=
  if (200000000 <? Z.abs (now - prev)) && (now =? 0)
  then {| rv_cfg := rv_cfg v; rv_cancels := rv_cancels v; rv_churn := <[sym := default 0 (rv_churn v !! sym) + 1]> (rv_churn v) |} else v.

(** ** Monitors *)

Record OnChainSignal := { sig_seq : Z; sig_ts_ns : Z; sig_z_score : num; sig_volume_delta : num; sig_symbol : string; sig_is_spike : bool }.
Definition ring_capacity : nat := 2 ^ 16.
(** [try_push] into the ring: a full one takes nothing. *)
Definition ring_try_push (x : OnChainSignal) (q : list OnChainSignal) : list OnChainSignal :=
  if (ring_capacity <=? length q)%nat then q else q ++ [x].
(** The symbol is cut to the fifteen characters of its buffer. *)
Definition mk_spike (cfg : AdaptiveHybridConfig) (seq now : Z) (sym : string) (z vol : num) : OnChainSignal :=
  {| sig_seq := seq; sig_ts_ns := now; sig_z_score := z; sig_volume_delta := vol; sig_symbol := String.substring 0 15 sym;
     sig_is_spike := (z >=? hc_spike_z_threshold cfg)%num |}.
Definition has_recent_spike (sym : string) : bool := false.

Definition kBins : nat := 24.
Record LatencyHistogram := { lh_bins : list Z; lh_max_ns : Z; lh_count : Z }.
Definition mk_histogram : LatencyHistogram := {| lh_bins := replicate kBins 0; lh_max_ns := 0; lh_count := 0 |}.
Definition latency_bin (ns : Z) : nat :=
  if ns <? 200000 then 0 else if ns <? 1000000 then 1 else if ns <? 5000000 then 2 else if ns <? 10000000 then 3
  else if ns <? 15000000 then 4 else if ns <? 20000000 then 5 else if ns <? 25000000 then 6 else if ns <? 30000000 then 7
  else if ns <? 50000000 then 8 else 9.
Definition record_ns (ns : Z) (h : LatencyHistogram) : LatencyHistogram :=
  {| lh_bins := alter (Z.add 1) (Nat.min (latency_bin ns) (kBins - 1)) (lh_bins h); lh_max_ns := Z.max (lh_max_ns h) ns; lh_count := lh_count h + 1 |}.
Definition p99_ns (h : LatencyHistogram) : Z := lh_max_ns h.
Definition p50_ns (h : LatencyHistogram) : Z := Z.quot (lh_max_ns h) 2.

Definition reason_code (r : RejectionReason) : nat :=
  match r with NONE => 0 | GLOBAL_RISK => 1 | PER_COIN_INVENTORY => 2 | EXCESSIVE_SLIPPAGE => 3 | MANIPULATION_DETECTED => 4 | LATENCY_VIOLATION => 5 end.
Definition rc_inc (r : RejectionReason) (c : list Z) : list Z := alter (Z.add 1) (reason_code r) c.
Definition rc_get (r : RejectionReason) (c : list Z) : Z := default 0 (c !! reason_code r).
Definition rc_total (c : list Z) : Z := foldl Z.add 0 c.
(** ** AdaptiveHybridStrategy *)

Record l2_msg := { lm_ts : time_point; lm_symbol : string; lm_side : tick_side; lm_price : num; lm_quantity : Z; lm_recv_ns : Z }.
(** The monitor keeps the configuration it was made with and the sequence of its signals. *)
Record OnChainMonitor := { oc_cfg : AdaptiveHybridConfig; oc_seq : Z }.
Record AdaptiveHybridStrategy := {
  ah_cfg : AdaptiveHybridConfig;
  ah_engines : gmap string ImbalanceEngine;
  ah_inventory : gmap string num;
  ah_modes : gmap string Mode;
  ah_ring : list OnChainSignal;
  ah_monitor : option OnChainMonitor;
  ah_latency : LatencyHistogram;
  ah_rejections : list Z;
  ah_mids : gmap string num;
  ah_defensive : bool }.
Definition mk_hybrid (cfg : AdaptiveHybridConfig) : AdaptiveHybridStrategy :=
  {| ah_cfg := cfg; ah_engines := ∅; ah_inventory := ∅; ah_modes := ∅; ah_ring := [];
     ah_monitor := if hc_enable_onchain_mock cfg then Some {| oc_cfg := cfg; oc_seq := 0 |} else None;
     ah_latency := mk_histogram; ah_rejections := replicate 6 0; ah_mids := ∅; ah_defensive := false |}.
(** An engine made by [imb_engines_[sym]] has the default configuration. *)
Definition engine_at (sym : string) (s : AdaptiveHybridStrategy) : ImbalanceEngine :=
  default (mk_imbalance default_hybrid_config) (ah_engines s !! sym).
Definition inventory_at (sym : string) (s : AdaptiveHybridStrategy) : num := default n_zero (ah_inventory s !! sym).
Definition compute_equity_proxy : num := n_lit 25000 1.
Definition compute_proposed_notional (taker : bool) (s : AdaptiveHybridStrategy) : num :=
  (compute_equity_proxy * (if taker then hc_taker_size_frac (ah_cfg s) else hc_maker_size_frac (ah_cfg s)))%num.
(** [static_cast<int64_t>]: towards zero. *)
Definition i64_of_num (x : num) : Z := n_llround (if x <? n_zero then - n_floor (- x) else n_floor x)%num.

Definition ah_note (defensive : bool) (rejections : list Z) (s : AdaptiveHybridStrategy) : AdaptiveHybridStrategy :=
  {| ah_cfg := ah_cfg s; ah_engines := ah_engines s; ah_inventory := ah_inventory s; ah_modes := ah_modes s; ah_ring := ah_ring s;
     ah_monitor := ah_monitor s; ah_latency := ah_latency s; ah_rejections := rejections; ah_mids := ah_mids s; ah_defensive := defensive |}.

(** The reason a quote is refused, or its quantity; the mode is kept either way. *)
Definition decide (sym : string) (spike : bool) (price : num) (side : order_side) (s : AdaptiveHybridStrategy) : RejectionReason + num :=
  let m := recommended_mode spike (engine_at sym s) in
  if bool_decide (m = DEFENSIVE) then inl MANIPULATION_DETECTED else
  let equity := compute_equity_proxy in
  let frac := if bool_decide (m = SCALPER_MOMENTUM) then hc_taker_size_frac (ah_cfg s) else hc_maker_size_frac (ah_cfg s) in
  let qty := (equity * frac / price)%num in
  let delta := if bool_decide (side = side_buy) then (qty * price / equity)%num else (- qty * price / equity)%num in
  if (n_abs (inventory_at sym s + delta) >? inventory_limit (ah_cfg s))%num then inl PER_COIN_INVENTORY
  else if ah_defensive s then inl LATENCY_VIOLATION else inr qty.
Definition decide_and_validate (sym : string) (spike : bool) (price : num) (side : order_side) (s : AdaptiveHybridStrategy)
    : (RejectionReason + num) * AdaptiveHybridStrategy :=
  (decide sym spike price side s,
   {| ah_cfg := ah_cfg s; ah_engines := ah_engines s; ah_inventory := <[sym := inventory_at sym s]> (ah_inventory s);
      ah_modes := <[sym := recommended_mode spike (engine_at sym s)]> (ah_modes s); ah_ring := ah_ring s; ah_monitor := ah_monitor s;
      ah_latency := ah_latency s; ah_rejections := ah_rejections s; ah_mids := ah_mids s; ah_defensive := ah_defensive s |}).

(** Every signal is taken off the ring; one for the symbol counts when it is a spike. *)
Definition drain_ring (sym : string) (s : AdaptiveHybridStrategy) : bool * AdaptiveHybridStrategy :=
  (existsb (λ x, bool_decide (sig_symbol x = sym) && sig_is_spike x) (ah_ring s),
   {| ah_cfg := ah_cfg s; ah_engines := ah_engines s; ah_inventory := ah_inventory s; ah_modes := ah_modes s; ah_ring := [];
      ah_monitor := ah_monitor s; ah_latency := ah_latency s; ah_rejections := ah_rejections s; ah_mids := ah_mids s;
      ah_defensive := ah_defensive s |}).
Definition latches (r : RejectionReason) : bool := bool_decide (r = LATENCY_VIOLATION) || bool_decide (r = MANIPULATION_DETECTED).
Definition process_l2_update (wall : time_point) (ev : l2_msg) (s : AdaptiveHybridStrategy) : option order_msg * AdaptiveHybridStrategy :=
  let sym := lm_symbol ev in
  let imb := engine_at sym s in
  let '(drained, s) := drain_ring sym s in
  let spike := drained || (bool_decide (is_Some (ah_monitor s)) && has_recent_spike sym) in
  match decide_and_validate sym spike (lm_price ev) side_buy s with
  | (inl rej, s) => (None, ah_note (ah_defensive s || latches rej) (rc_inc rej (ah_rejections s)) s)
  | (inr qty, s) =>
      (Some (om_set_strategy "adaptive-hybrid"
               (mk_order_msg wall sym ot_limit (if (ie_ewma imb >? n_zero)%num then side_buy else side_sell) qty (ie_micro imb) tif_gtc)), s)
  end.
(** [now] is the steady clock in nanoseconds, [wall] the time stamped on the order. *)
Definition sample_latency (now : Z) (ev : l2_msg) (h : LatencyHistogram) : LatencyHistogram :=
  if (0 <? lm_recv_ns ev) && (0 <? now - lm_recv_ns ev) then record_ns (now - lm_recv_ns ev) h else h.
Definition ah_on_l2_update (now : Z) (wall : time_point) (ev : l2_msg) (s : AdaptiveHybridStrategy)
    : option order_msg * AdaptiveHybridStrategy :=
  let sym := lm_symbol ev in
  let imb := ie_on_l2_update (lm_side ev) (lm_price ev) (lm_quantity ev) (lm_ts ev) (engine_at sym s) in
  let hist := sample_latency now ev (ah_latency s) in
  let late := i64_of_num (hc_max_latency_ms (ah_cfg s) * n_lit 1000000 1)%num <? p99_ns hist in
  process_l2_update wall ev
    {| ah_cfg := ah_cfg s; ah_engines := <[sym := imb]> (ah_engines s); ah_inventory := ah_inventory s; ah_modes := ah_modes s;
       ah_ring := ah_ring s; ah_monitor := ah_monitor s; ah_latency := hist; ah_rejections := ah_rejections s;
       ah_mids := <[sym := lm_price ev]> (ah_mids s); ah_defensive := ah_defensive s || late |}.
Definition ah_on_market (m : market_msg) (s : AdaptiveHybridStrategy) : option order_msg * AdaptiveHybridStrategy := (None, s).
Definition ah_on_tick (t : tick_msg) (s : AdaptiveHybridStrategy) : option order_msg * AdaptiveHybridStrategy := (None, s).
Definition ah_on_fill (f : fill_msg) (s : AdaptiveHybridStrategy) : AdaptiveHybridStrategy :=
  let notional := (fm_price f * fm_quantity f)%num in
  let signed := if bool_decide (fm_side f = side_buy) then notional else (- notional)%num in
  {| ah_cfg := ah_cfg s; ah_engines := ah_engines s;
     ah_inventory := <[fm_symbol f := (inventory_at (fm_symbol f) s + signed)%num]> (ah_inventory s); ah_modes := ah_modes s;
     ah_ring := ah_ring s; ah_monitor := ah_monitor s; ah_latency := ah_latency s; ah_rejections := ah_rejections s;
     ah_mids := ah_mids s; ah_defensive := ah_defensive s |}.
Definition ah_set_position_open (sym : string) (open : bool) (s : AdaptiveHybridStrategy) : AdaptiveHybridStrategy := s.
Definition current_mode (sym : string) (s : AdaptiveHybridStrategy) : Mode := default MAKER_IMBALANCE (ah_modes s !! sym).
Definition current_inventory_pct (sym : string) (s : AdaptiveHybridStrategy) : num := inventory_at sym s.
Definition rejection_count (r : RejectionReason) (s : AdaptiveHybridStrategy) : Z := rc_get r (ah_rejections s).
Definition inject_onchain_spike (now : Z) (sym : string) (z vol : num) (s : AdaptiveHybridStrategy) : AdaptiveHybridStrategy :=
  match ah_monitor s with
  | None => s
  | Some m =>
      {| ah_cfg := ah_cfg s; ah_engines := ah_engines s; ah_inventory := ah_inventory s; ah_modes := ah_modes s;
         ah_ring := ring_try_push (mk_spike (oc_cfg m) (oc_seq m + 1) now sym z vol) (ah_ring s);
         ah_monitor := Some {| oc_cfg := oc_cfg m; oc_seq := oc_seq m + 1 |}; ah_latency := ah_latency s;
         ah_rejections := ah_rejections s; ah_mids := ah_mids s; ah_defensive := ah_defensive s |}
  end.
Definition ah_set_cfg (c : AdaptiveHybridConfig) (s : AdaptiveHybridStrategy) : AdaptiveHybridStrategy :=
  {| ah_cfg := c; ah_engines := ah_engines s; ah_inventory := ah_inventory s; ah_modes := ah_modes s; ah_ring := ah_ring s;
     ah_monitor := ah_monitor s; ah_latency := ah_latency s; ah_rejections := ah_rejections s; ah_mids := ah_mids s;
     ah_defensive := ah_defensive s |}.
Definition ah_set_param (key : string) (value : num) (s : AdaptiveHybridStrategy) : exc AdaptiveHybridStrategy :=
  let set f := Ret (ah_set_cfg (f value (ah_cfg s)) s) in
  if bool_decide (key = "imbalance_long_threshold") then set set_hc_imbalance_long_threshold
  else if bool_decide (key = "maker_size_frac") then set set_hc_maker_size_frac
  else if bool_decide (key = "inventory_max_pct") then set set_hc_inventory_max_pct
  else if bool_decide (key = "spike_z_threshold") then set set_hc_spike_z_threshold
  else if bool_decide (key = "max_latency_ms") then set set_hc_max_latency_ms
  else Throw ("Unknown adaptive-hybrid param: " +:+ key).
Definition bool_num (b : bool) : num := if b then n_one else n_zero.
Definition ie_get_values (e : ImbalanceEngine) : list (string * num) :=
  [("imbalance_ewma", ie_ewma e); ("micro_price", ie_micro e); ("spread_pct", dynamic_spread_pct e); ("thin_book", bool_num (is_thin_book e))].
Definition mode_code (m : Mode) : Z := match m with MAKER_IMBALANCE => 0 | SCALPER_MOMENTUM => 1 | DEFENSIVE => 2 end.
Definition ah_indicator_values (sym : string) (s : AdaptiveHybridStrategy) : list (string * num) :=
  match ah_engines s !! sym with Some e => ie_get_values e | None => [] end ++
  [("mode", n_lit (mode_code (current_mode sym s)) 1); ("inventory_pct", current_inventory_pct sym s);
   ("rejects_total", n_lit (rc_total (ah_rejections s)) 1); ("latency_p99_ns", n_lit (p99_ns (ah_latency s)) 1);
   ("defensive", bool_num (ah_defensive s))].
End Hybrid.
