(* ===== verification/HybridTheorems.v ===== *)
(** * What the adaptive hybrid strategy does over every history

    [hybrid_never_trades] holds for any arithmetic: the first depth update of a run finds
    one side of its book empty, which latches the defensive flag for good, so no update is
    ever answered with an order.  [imbalance_bounded] is about the imbalance engine in
    exact arithmetic: the book it keeps is sorted and bounded, and the values it derives
    from the book stay in their ranges. *)

From Stdlib Require Import QArith Qabs Lqa Sorting.Sorted.
From S2P Require Import Prelude Float64 Event Arith Portfolio Sizing Exits Indicators Symbols EngineEvents EngineState Strategies Hybrid.

Open Scope string_scope.
Open Scope list_scope.
Open Scope Z_scope.

Section NeverTrades.
Context {A : Arith}.

(** What the engine and a harness call. *)
Inductive hybrid_call :=
| hc_l2 (now : Z) (wall : time_point) (ev : l2_msg)
| hc_market (m : market_msg)
| hc_tick (t : tick_msg)
| hc_fill (f : fill_msg)
| hc_open (sym : string) (open : bool)
| hc_spike (now : Z) (sym : string) (z vol : num)
| hc_param (key : string) (value : num).
Definition hybrid_step (c : hybrid_call) (s : AdaptiveHybridStrategy) : option order_msg * AdaptiveHybridStrategy :=
  match c with
  | hc_l2 now wall ev => ah_on_l2_update now wall ev s
  | hc_market m => ah_on_market m s
  | hc_tick t => ah_on_tick t s
  | hc_fill f => (None, ah_on_fill f s)
  | hc_open sym open => (None, ah_set_position_open sym open s)
  | hc_spike now sym z vol => (None, inject_onchain_spike now sym z vol s)
  | hc_param key value => (None, match ah_set_param key value s with Ret s => s | Throw _ => s end)
  end.
Fixpoint hybrid_run (cs : list hybrid_call) (s : AdaptiveHybridStrategy) : list order_msg * AdaptiveHybridStrategy :=
  match cs with
  | [] => ([], s)
  | c :: cs => let '(o, s) := hybrid_step c s in let '(os, s) := hybrid_run cs s in (option_list o ++ os, s)
  end.
Definition is_l2 (c : hybrid_call) : bool := match c with hc_l2 _ _ _ => true | _ => false end.
Definition l2_calls (cs : list hybrid_call) : nat := length (List.filter is_l2 cs).

(** Either no book was seen yet or the flag is up; the counters have one entry per reason. *)
Record latched (n : nat) (s : AdaptiveHybridStrategy) : Prop := {
  la_flag : if (n =? 0)%nat then ah_engines s = ∅ else ah_defensive s = true;
  la_counters : length (ah_rejections s) = 6%nat;
  la_counted : rc_total (ah_rejections s) = Z.of_nat n }.

Lemma total_inc r c : (reason_code r < length c)%nat → rc_total (rc_inc r c) = rc_total c + 1.
Proof.
  unfold rc_total, rc_inc. intros H. assert (∀ z, foldl Z.add z (alter (Z.add 1) (reason_code r) c) = foldl Z.add z c + 1) as G; [|apply G].
  revert H. generalize (reason_code r) as i. induction c as [|x c IH]; intros [|i] H z; cbn in *; try lia.
  - replace (z + (1 + x)) with (z + x + 1) by lia. generalize (z + x). clear. induction c as [|y c IH]; intros z; cbn; [done|].
    rewrite <-IH. f_equal. lia.
  - apply IH. lia.
Qed.
Lemma code_small r : (reason_code r < 6)%nat.
Proof. destruct r; cbn; lia. Qed.

(** One update leaves a side of a fresh book empty. *)
Lemma fresh_book_thin cfg side price qty ts : is_thin_book (ie_on_l2_update side price qty ts (mk_imbalance cfg)) = true.
Proof.
  unfold ie_on_l2_update, is_thin_book. case_bool_decide; cbn [ie_set_book ie_bids ie_asks mk_imbalance recompute];
    [by destruct (apply_to_side _ _ _ _ _)|done].
Qed.
Lemma thin_is_defensive spike e : is_thin_book e = true → recommended_mode spike e = DEFENSIVE.
Proof. unfold recommended_mode. intros ->. by rewrite orb_true_r. Qed.

(** The pre-checks refuse when the book is thin or the flag is up, and the flag is up afterwards
    unless the inventory was the reason. *)
Lemma refuses sym spike price side s :
  recommended_mode spike (engine_at sym s) = DEFENSIVE ∨ ah_defensive s = true →
  ∃ r, decide sym spike price side s = inl r ∧ ah_defensive s || latches r = true.
Proof.
  unfold decide. intros [-> | H].
  - rewrite bool_decide_true by done. eexists. split; [reflexivity|]. apply orb_true_r.
  - rewrite H. cbv zeta. case_bool_decide; [by eexists|]. destruct (_ <? _)%num; by eexists.
Qed.
Lemma latched_step n c s : latched n s →
  (hybrid_step c s).1 = None ∧ latched (if is_l2 c then S n else n) (hybrid_step c s).2.
Proof.
  intros [Hf Hc Ht]. destruct c as [now wall ev|m|t|f|sym op|now sym z vol|key v]; cbn [hybrid_step is_l2 fst snd];
    try (split; [done|by split]).
  - unfold ah_on_l2_update. set (s1 := Build_AdaptiveHybridStrategy _ _ _ _ _ _ _ _ _ _). unfold process_l2_update, drain_ring, decide_and_validate.
    set (sp := existsb _ _ || _). set (s2 := Build_AdaptiveHybridStrategy _ _ _ _ [] _ _ _ _ _).
    destruct (refuses (lm_symbol ev) sp (lm_price ev) side_buy s2) as (r & -> & Hr).
    + destruct n as [|n]; cbn in Hf.
      * left. apply thin_is_defensive. unfold engine_at, s2, s1; cbn [ah_engines]. rewrite lookup_insert_eq. unfold engine_at. rewrite Hf, lookup_empty. cbn [default from_option id].
        apply fresh_book_thin.
      * right. cbn. by rewrite Hf.
    + split; [done|]. split; cbn [ah_note ah_defensive ah_rejections ah_engines].
      * exact Hr.
      * etrans; [apply length_alter|exact Hc].
      * cbn. rewrite total_inc, Ht; [lia|]. rewrite Hc. apply code_small.
  - split; [done|]. unfold inject_onchain_spike. destruct (ah_monitor s); by split.
  - split; [done|]. unfold ah_set_param. repeat (case_bool_decide; [by split|]). by split.
Qed.
Lemma latched_run cs n s : latched n s → (hybrid_run cs s).1 = [] ∧ latched (n + l2_calls cs) (hybrid_run cs s).2.
Proof.
  revert n s. induction cs as [|c cs IH]; intros n s H; cbn.
  - rewrite Nat.add_0_r. done.
  - destruct (latched_step n c s H) as [Ho Hl]. destruct (hybrid_step c s) as [o s1]. cbn in Ho, Hl. subst o.
    specialize (IH _ _ Hl). destruct (hybrid_run cs s1) as [os s2]. cbn in *. destruct IH as [-> IH]. split; [done|].
    unfold l2_calls in *. cbn. destruct (is_l2 c); cbn; [by rewrite <-Nat.add_succ_comm|done].
Qed.

(** The adaptive hybrid strategy never quotes: from its constructor, with any
    configuration, over every sequence of depth updates, bars, ticks, fills, on-chain
    spikes and parameter changes, no call returns an order; every depth update is counted
    as exactly one rejection, and after the first one the defensive flag is up and stays
    up.  (The first update of the first symbol finds the other side of its book empty,
    which counts as a thin book, is rejected as manipulation and latches the flag.) *)
Theorem hybrid_never_trades cfg cs (r := hybrid_run cs (mk_hybrid cfg)) :
  r.1 = [] ∧ rc_total (ah_rejections r.2) = Z.of_nat (l2_calls cs) ∧ ((0 < l2_calls cs)%nat → ah_defensive r.2 = true).
Proof.
  destruct (latched_run cs 0 (mk_hybrid cfg)) as [Ho [Hf _ Ht]]; [by split|]. fold r in Ho, Hf, Ht. split_and!; [done|done|].
  intros H. by destruct (Nat.eqb_spec (0 + l2_calls cs) 0) as [|]; [lia|].
Qed.
End NeverTrades.

(** Two sides of a deep book, quoted a tick apart, and a spike. *)
Definition deep_book `{Arith} : list hybrid_call :=
  [hc_l2 2 0 {| lm_ts := 0; lm_symbol := "BTC"; lm_side := tick_bid; lm_price := n_lit 100 1; lm_quantity := 60000000; lm_recv_ns := 1 |};
   hc_spike 3 "BTC" (n_lit 4 1) (n_lit 1 1);
   hc_l2 5 0 {| lm_ts := 0; lm_symbol := "BTC"; lm_side := tick_ask; lm_price := n_lit 101 1; lm_quantity := 60000000; lm_recv_ns := 4 |}].
Lemma hybrid_never_trades_witness :
  (hybrid_run deep_book (mk_hybrid (@default_hybrid_config double_arith))).1 = [] ∧
  ah_defensive (hybrid_run deep_book (mk_hybrid (@default_hybrid_config double_arith))).2 = true ∧
  is_thin_book (engine_at "BTC" (hybrid_run deep_book (mk_hybrid (@default_hybrid_config double_arith))).2) = false.
Proof.
  destruct (@hybrid_never_trades double_arith default_hybrid_config deep_book) as (H1 & _ & H2). split_and!.
  - exact H1.
  - apply H2. vm_compute. lia.
  - vm_compute. reflexivity.
Defined.

(** ** The imbalance engine in exact arithmetic *)

Section Imbalance.
#[local] Existing Instance exact_arith.
#[local] Open Scope Q_scope.

Definition level_better (bid : bool) (a b : L2Level) : Prop := if bid then (lv_price b : Q) < lv_price a else (lv_price a : Q) < lv_price b.
(** A side of the book: best price first, every level with a quantity, and bounded. *)
Record side_ok (k : Z) (bid : bool) (l : list L2Level) : Prop := {
  sd_sorted : StronglySorted (level_better bid) l;
  sd_qty : Forall (λ x, (0 < lv_qty x)%Z) l;
  sd_bound : (Z.of_nat (length l) <= k + 4)%Z }.
#[local] Hint Constructors StronglySorted Forall : core.

Lemma sorts_beforeP bid a b : sorts_before bid a b = true ↔ level_better bid a b.
Proof. unfold sorts_before, level_better. destruct bid; cbn [n_lt exact_arith]; destruct (Qltb_spec (lv_price a) (lv_price b)), (Qltb_spec (lv_price b) (lv_price a)); naive_solver lra. Qed.
Lemma level_better_asym bid a b : level_better bid a b → sorts_before bid b a = false.
Proof. intros H. destruct (sorts_before bid b a) eqn:E; [|done]. apply sorts_beforeP in E. unfold level_better in *. destruct bid; lra. Qed.
Lemma level_better_trans bid a b c : level_better bid a b → level_better bid b c → level_better bid a c.
Proof. unfold level_better. destruct bid; lra. Qed.

Lemma insert_last bid x l : Forall (λ y, level_better bid y x) l → insert_level bid x l = l ++ [x].
Proof. induction 1 as [|y l Hy _ IH]; cbn; [done|]. by rewrite level_better_asym, IH. Qed.
Lemma sort_from_sorted bid l acc : StronglySorted (level_better bid) (acc ++ l) → foldl (λ acc x, insert_level bid x acc) acc l = acc ++ l.
Proof.
  revert acc. induction l as [|x l IH]; intros acc H; cbn; [by rewrite app_nil_r|].
  assert (Forall (λ y, level_better bid y x) acc) as Ha.
  { clear IH. induction acc as [|y acc IHa]; [done|]. inversion H as [|? ? Hs Hf]; subst. constructor; [|by apply IHa].
    apply Forall_app in Hf as [_ Hf]. by inversion Hf. }
  rewrite insert_last by done. rewrite IH by by rewrite <-app_assoc. by rewrite <-app_assoc.
Qed.
Lemma sort_snoc bid l x : StronglySorted (level_better bid) l → sort_levels bid (l ++ [x]) = insert_level bid x l.
Proof. intros H. unfold sort_levels. rewrite foldl_app. cbn. f_equal. by apply (sort_from_sorted bid l []). Qed.
Lemma insert_forall bid x l (P : L2Level → Prop) : P x → Forall P l → Forall P (insert_level bid x l).
Proof. intros Hx. induction 1 as [|y l Hy Hl IH]; cbn; [auto|]. destruct (sorts_before bid x y); auto. Qed.
Lemma insert_length bid x l : length (insert_level bid x l) = S (length l).
Proof. induction l as [|y l IH]; cbn; [done|]. destruct (sorts_before bid x y); cbn; [done|]. by rewrite IH. Qed.
Lemma insert_sorted bid x l : Forall (λ y, ¬ (lv_price y : Q) == lv_price x) l →
  StronglySorted (level_better bid) l → StronglySorted (level_better bid) (insert_level bid x l).
Proof.
  intros Hd Hs. induction Hs as [|y l Hs IH Hf]; cbn; [auto|]. inversion Hd as [|? ? Hy Hd']; subst.
  destruct (sorts_before bid x y) eqn:E.
  - apply sorts_beforeP in E. repeat constructor; [done..|]. eapply Forall_impl; [exact Hf|]. intros z. by apply level_better_trans.
  - constructor; [by apply IH|]. apply insert_forall; [|done].
    assert (¬ level_better bid x y) as H by (rewrite <-sorts_beforeP; by rewrite E). unfold level_better in *. destruct bid; lra.
Qed.

(** A change keeps the prices; a price no level has is away from all of them. *)
Lemma change_spec price qty l : match change_level price qty l with
  | Some r => sublist (map lv_price r) (map lv_price l) ∧ (Forall (λ x, (0 < lv_qty x)%Z) l → Forall (λ x, (0 < lv_qty x)%Z) r)
  | None => Forall (λ y, ¬ (lv_price y : Q) == price) l
  end.
Proof.
  induction l as [|x l IH]; cbn [change_level]; [done|]. destruct (same_level price x) eqn:E.
  - destruct (Z.leb_spec qty 0); cbn; (split; [|intros H1; inversion H1; auto]).
    + by constructor.
    + done.
  - destruct (change_level price qty l) as [r|]; cbn [fmap option_fmap option_map].
    + destruct IH as [IH1 IH2]. split; [by constructor|]. intros H. inversion H. auto.
    + constructor; [|done]. unfold same_level in E. cbn [n_lt n_abs n_sub n_eps9 n_lit exact_arith] in E. intros Hq.
      destruct (Qltb_spec (Qabs (lv_price x - price)) (1 # 1000000000)) as [|H]; [done|].
      assert (lv_price x - price == 0) as Hz by lra. rewrite Hz in H. by apply H.
Qed.
Lemma sorted_prices bid l : StronglySorted (level_better bid) l ↔ StronglySorted (λ p q : Q, if bid then q < p else p < q) (map lv_price l).
Proof.
  induction l as [|x l IH]; cbn; [split; auto|]. split; inversion 1 as [|? ? Hs Hf]; subst; constructor; try (by apply IH).
  - apply Forall_fmap. eapply Forall_impl; [exact Hf|]. intros y. unfold level_better. cbn. by destruct bid.
  - apply List.Forall_map in Hf. eapply Forall_impl; [exact Hf|]. intros y. unfold level_better. cbn. by destruct bid.
Qed.
Lemma sublist_sorted (R : Q → Q → Prop) l l' : sublist l l' → StronglySorted R l' → StronglySorted R l.
Proof.
  induction 1 as [|x l l' Hsub IH|x l l' Hsub IH]; [auto| |]; inversion 1 as [|? ? Hs Hf]; subst; [|by apply IH].
  constructor; [by apply IH|]. rewrite Forall_forall in Hf |- *. intros y Hy. apply Hf. eapply elem_of_submseteq; [exact Hy|by apply sublist_submseteq].
Qed.
Lemma take_sorted bid n l : StronglySorted (level_better bid) l → StronglySorted (level_better bid) (take n l).
Proof. rewrite !sorted_prices. apply sublist_sorted. rewrite <-firstn_map. apply sublist_take. Qed.

(** Every update keeps a side in order. *)
Lemma apply_ok k bid price qty l : (0 <= k)%Z → side_ok k bid l → side_ok k bid (apply_to_side k bid price qty l).
Proof.
  intros Hk [Hs Hq Hb]. unfold apply_to_side. set (v := match change_level price qty l with Some _ => _ | None => _ end).
  assert (StronglySorted (level_better bid) v ∧ Forall (λ x, (0 < lv_qty x)%Z) v) as [Hs' Hq'].
  { subst v. pose proof (change_spec price qty l) as H. destruct (change_level price qty l) as [r|].
    - destruct H as [H1 H2]. split; [|auto]. apply sorted_prices. eapply sublist_sorted; [exact H1|]. by apply sorted_prices.
    - destruct (Z.leb_spec qty 0); [done|]. rewrite sort_snoc by done. split; [by apply insert_sorted|by apply insert_forall]. }
  destruct (Z.ltb_spec (k + 4) 0); [lia|]. split; [by apply take_sorted|by apply Forall_take|]. rewrite length_take. lia.
Qed.

(** Sums of quantities, and the imbalance of two of them. *)
Lemma sum_qty_nonneg l : Forall (λ x, (0 < lv_qty x)%Z) l → 0 <= sum_qty l.
Proof.
  unfold sum_qty. assert (∀ s : Q, 0 <= s → Forall (λ x, (0 < lv_qty x)%Z) l → 0 <= foldl (λ s x, s + n_lit (lv_qty x) 1)%num s l) as G; [|by apply G].
  induction l as [|x l IH]; intros s H0 Hl; cbn [foldl]; [done|]. inversion Hl as [|? ? Hx Hl']; subst. apply IH; [|done].
  cbn [n_add n_lit exact_arith]. assert (0 <= lv_qty x # 1) by (unfold Qle; cbn; lia). lra.
Qed.
Lemma ratio_bounded (a b : Q) : 0 <= a → 0 <= b → 0 < a + b → -1 <= (a - b) / (a + b) <= 1.
Proof. intros Ha Hb Ht. split; [apply Qle_shift_div_l|apply Qle_shift_div_r]; lra. Qed.
Lemma raw_bounded k bids asks : Forall (λ x, (0 < lv_qty x)%Z) bids → Forall (λ x, (0 < lv_qty x)%Z) asks →
  -1 <= raw_imbalance k bids asks <= 1.
Proof.
  intros Hb Ha. unfold raw_imbalance. set (n := Z.to_nat _).
  pose proof (sum_qty_nonneg (take n bids) (Forall_take _ _ _ Hb)). pose proof (sum_qty_nonneg (take n asks) (Forall_take _ _ _ Ha)).
  cbn [n_lt n_add n_sub n_div n_eps9 n_lit n_zero exact_arith].
  destruct (Qltb_spec (1 # 1000000000) (sum_qty (take n bids) + sum_qty (take n asks))) as [Hl|Hl]; [|by split].
  apply ratio_bounded; [done..|]. eapply Qlt_trans; [|exact Hl]. done.
Qed.
Lemma blend_bounded (al x y : Q) : 0 <= al <= 1 → -1 <= x <= 1 → -1 <= y <= 1 → -1 <= al * x + (1 - al) * y <= 1.
Proof. intros. split; nra. Qed.
Lemma weighted_between (pb pa qb qa : Q) : pb <= pa → 1 <= qb → 1 <= qa → pb <= (pb * qa + pa * qb) / (qb + qa) <= pa.
Proof. intros. split; [apply Qle_shift_div_l|apply Qle_shift_div_r]; nra. Qed.
(** The micro price lies between the two best prices. *)
Lemma micro_between b a : (0 < lv_qty b)%Z → (0 < lv_qty a)%Z → (lv_price b : Q) <= lv_price a →
  (lv_price b : Q) <= bbo_micro b a <= lv_price a.
Proof.
  intros Hb Ha Hp. unfold bbo_micro. cbn [n_lt n_add n_mul n_div n_eps9 n_lit exact_arith].
  assert (lv_qty b + lv_qty a # 1 == (lv_qty b # 1) + (lv_qty a # 1)) as Ht by (unfold Qeq; cbn; lia).
  assert (1 <= lv_qty b # 1) as H1 by (unfold Qle; cbn; lia). assert (1 <= lv_qty a # 1) as H2 by (unfold Qle; cbn; lia).
  destruct (Qltb_spec (1 # 1000000000) (lv_qty b + lv_qty a # 1)) as [H|H].
  - rewrite Ht. by apply weighted_between.
  - exfalso. lra.
Qed.

(** What holds of an engine after every update. *)
Record engine_ok (e : ImbalanceEngine) : Prop := {
  eo_bids : side_ok (hc_top_k_levels (ie_cfg e)) true (ie_bids e);
  eo_asks : side_ok (hc_top_k_levels (ie_cfg e)) false (ie_asks e);
  eo_ewma : -1 <= ie_ewma e <= 1;
  eo_micro : ∀ b a bs az, ie_bids e = b :: bs → ie_asks e = a :: az → (lv_price b : Q) <= lv_price a → (lv_price b : Q) <= ie_micro e <= lv_price a;
  eo_one_sided : ie_bids e = [] ∨ ie_asks e = [] → (ie_ewma e : Q) = 0 }.
(** A configuration whose weight is a weight and whose bounds are in order. *)
Record config_ok (c : AdaptiveHybridConfig) : Prop := {
  co_alpha : 0 <= hc_imb_ewma_alpha c <= 1;
  co_levels : (0 <= hc_top_k_levels c)%Z;
  co_spread : (hc_spread_min_pct c : Q) <= hc_spread_max_pct c }.

Lemma recompute_ok e : config_ok (ie_cfg e) → side_ok (hc_top_k_levels (ie_cfg e)) true (ie_bids e) →
  side_ok (hc_top_k_levels (ie_cfg e)) false (ie_asks e) → -1 <= ie_ewma e <= 1 → engine_ok (recompute e).
Proof.
  intros [Hal _ _] Hb Ha He. unfold recompute.
  assert (engine_ok (ie_set_scores n_zero (ie_last_raw e) n_zero (ie_last_mid e) e) ∨ (ie_bids e ≠ [] ∧ ie_asks e ≠ [])) as Hor.
  { destruct (ie_bids e) eqn:Eb; [left|destruct (ie_asks e) eqn:Ea; [left|by right]].
    - split; cbn; rewrite ?Eb in *; try done; by split.
    - split; cbn; rewrite ?Ea, ?Eb in *; try done; by split. }
  destruct (ie_bids e) as [|b bs] eqn:Eb; [naive_solver|]. destruct (ie_asks e) as [|a az] eqn:Ea; [naive_solver|]. clear Hor.
  split; cbn [ie_set_scores ie_cfg ie_bids ie_asks ie_ewma ie_micro]; rewrite ?Eb, ?Ea; [done|done| | |naive_solver].
  - apply blend_bounded; [done| |done]. apply raw_bounded; [apply Hb|apply Ha].
  - intros b' a' bs' az' [= <- <-] [= <- <-] Hp. destruct Hb as [_ Hqb _], Ha as [_ Hqa _]. inversion Hqb. inversion Hqa. by apply micro_between.
Qed.
Lemma imbalance_update_ok side price qty ts e : config_ok (ie_cfg e) → engine_ok e → engine_ok (ie_on_l2_update side price qty ts e).
Proof.
  intros Hc [Hb Ha He _ _]. unfold ie_on_l2_update. pose proof (co_levels _ Hc).
  case_bool_decide; apply recompute_ok; try done; by apply apply_ok.
Qed.
Lemma update_cfg side price qty ts e : ie_cfg (ie_on_l2_update side price qty ts e) = ie_cfg e.
Proof. unfold ie_on_l2_update, recompute. case_bool_decide; cbn; repeat case_match; done. Qed.

Definition imbalance_run (ups : list l2_msg) (e : ImbalanceEngine) : ImbalanceEngine :=
  foldl (λ e u, ie_on_l2_update (lm_side u) (lm_price u) (lm_quantity u) (lm_ts u) e) e ups.
Lemma spread_in_range e : config_ok (ie_cfg e) →
  (hc_spread_min_pct (ie_cfg e) : Q) <= dynamic_spread_pct e <= hc_spread_max_pct (ie_cfg e).
Proof.
  intros [_ _ Hs]. unfold dynamic_spread_pct, n_clamp. cbn [n_lt exact_arith]. set (v := n_add _ _).
  destruct (Qltb_spec v (hc_spread_min_pct (ie_cfg e))); [lra|]. destruct (Qltb_spec (hc_spread_max_pct (ie_cfg e)) v); lra.
Qed.

(** Over every sequence of depth updates, whatever their prices and quantities, an
    imbalance engine with a smoothing weight between zero and one keeps each side of its
    book best price first, with positive quantities and at most four levels more than it
    looks at; its imbalance stays between minus one and one and is zero while a side is
    empty; its spread stays within the configured bounds, and unless the book is crossed
    its micro price lies between the best bid and the best ask (exact arithmetic). *)
Theorem imbalance_bounded cfg ups (e := imbalance_run ups (mk_imbalance cfg)) : config_ok cfg →
  engine_ok e ∧ (hc_spread_min_pct cfg : Q) <= dynamic_spread_pct e <= hc_spread_max_pct cfg.
Proof.
  intros Hc. assert (ie_cfg e = cfg ∧ engine_ok e) as [He Hok].
  { subst e. induction ups as [|u ups [IH1 IH2]] using rev_ind.
    - pose proof (co_levels _ Hc). split; [done|]. split; cbn; try done; split; cbn; try lia; auto.
    - unfold imbalance_run in *. rewrite foldl_app. cbn [foldl]. rewrite update_cfg. split; [done|]. apply imbalance_update_ok; [by rewrite IH1|done]. }
  split; [done|]. rewrite <-He at 1 2. apply spread_in_range. by rewrite He.
Qed.
Definition two_sided : list l2_msg :=
  [{| lm_ts := 0%Z; lm_symbol := "BTC"; lm_side := tick_bid; lm_price := (99 # 1 : num); lm_quantity := 30%Z; lm_recv_ns := 0%Z |};
   {| lm_ts := 0%Z; lm_symbol := "BTC"; lm_side := tick_bid; lm_price := (100 # 1 : num); lm_quantity := 30%Z; lm_recv_ns := 0%Z |};
   {| lm_ts := 0%Z; lm_symbol := "BTC"; lm_side := tick_ask; lm_price := (101 # 1 : num); lm_quantity := 10%Z; lm_recv_ns := 0%Z |}].
Lemma imbalance_bounded_witness :
  engine_ok (imbalance_run two_sided (mk_imbalance default_hybrid_config)) ∧
  lv_price <$> ie_bids (imbalance_run two_sided (mk_imbalance default_hybrid_config)) = [100 # 1; 99 # 1] ∧
  (ie_ewma (imbalance_run two_sided (mk_imbalance default_hybrid_config)) : Q) == 14 # 100.
Proof.
  split; [|by vm_compute]. apply (imbalance_bounded default_hybrid_config two_sided). split; by vm_compute.
Defined.
End Imbalance.
