(* ===== verification/JsonScan.v ===== *)
(** * Scanners of venue messages (src/src/providers/binance/binance_parser.h,
    src/src/providers/bitget/bitget_parser.h)

    The providers read JSON without a JSON library: they search for ["key":] and take the
    text up to the closing quote or the next delimiter, or walk the fields of a flat object.
    A message is a list of characters; an index into it is the text from there on, so that
    [npos] is [None].  Both venues have the same scanners; what only Bitget has is marked.
    Numbers are read as [std::from_chars] and [std::strtod] read them.

    The theorems are about messages a venue prints compactly: every field is found, and
    found as it was printed. *)

From Stdlib Require Import Ascii.
From S2P Require Import Prelude Float64.

Open Scope string_scope.
Open Scope list_scope.
Open Scope Z_scope.

Definition text : Type := list ascii.
Definition txt (s : string) : text := String.list_ascii_of_string s.
Definition str (t : text) : string := String.string_of_list_ascii t.
Definition c_quote : ascii := Ascii false true false false false true false false.
Definition c_backslash : ascii := "092"%char.
Definition whitespace : list ascii := [" "; "009"; "010"; "013"]%char.
Definition token_end : list ascii := [","; "}"; "]"; " "; "009"; "010"; "013"]%char.
Definition one_of (l : list ascii) (c : ascii) : bool := bool_decide (c ∈ l).

(** The fields between separators. *)
Fixpoint split_on (c : ascii) (s : text) : list text :=
  match s with
  | [] => [[]]
  | x :: s' =>
      if bool_decide (x = c) then [] :: split_on c s'
      else match split_on c s' with w :: ws => (x :: w) :: ws | [] => [[x]] end
  end.

(** ** Positions *)

Fixpoint skip_ws (s : text) : text :=
  match s with c :: s' => if one_of whitespace c then skip_ws s' else s | [] => [] end.
(** The text before the first of some characters, and the text from it on. *)
Fixpoint span_until (l : list ascii) (s : text) : text * text :=
  match s with
  | [] => ([], [])
  | c :: s' => if one_of l c then ([], s) else let '(v, r) := span_until l s' in (c :: v, r)
  end.
(** Up to the next quote, which is dropped. *)
Fixpoint split_quote (s : text) : option (text * text) :=
  match s with
  | [] => None
  | c :: s' => if bool_decide (c = c_quote) then Some ([], s') else '(v, r) ← split_quote s'; Some (c :: v, r)
  end.
Fixpoint strip_prefix (p s : text) : option text :=
  match p, s with
  | [], _ => Some s
  | a :: p', b :: s' => if bool_decide (a = b) then strip_prefix p' s' else None
  | _ :: _, [] => None
  end.
(** [find]: the text after the first occurrence, and the text from it on. *)
Fixpoint find_after (needle s : text) : option text :=
  match strip_prefix needle s with
  | Some r => Some r
  | None => match s with [] => None | _ :: s' => find_after needle s' end
  end.
Fixpoint find_from (needle s : text) : option text :=
  match strip_prefix needle s with
  | Some _ => Some s
  | None => match s with [] => None | _ :: s' => find_from needle s' end
  end.
Definition contains (needle s : text) : bool := bool_decide (is_Some (find_after needle s)).

Definition key_needle (key : text) : text := c_quote :: key ++ [c_quote; ":"%char].
Definition find_key (json key : text) : option text :=
  if bool_decide (key = []) || (64 <? Z.of_nat (length key)) then None else find_after (key_needle key) json.
(** The value after a colon, and what follows it. *)
Definition value_at_colon (s : text) : text * text :=
  match skip_ws s with
  | [] => ([], [])
  | c :: s' =>
      if bool_decide (c = c_quote) then match split_quote s' with Some vr => vr | None => ([], []) end
      else span_until token_end (c :: s')
  end.
Definition starts_with (c : ascii) (s : text) : bool := match s with x :: _ => bool_decide (x = c) | [] => false end.
Definition extract_sv_string (json key : text) : text :=
  match find_key json key with
  | None => []
  | Some s => if starts_with c_quote (skip_ws s) then (value_at_colon s).1 else []
  end.
Definition extract_sv_number (json key : text) : text :=
  match find_key json key with None => [] | Some s => (value_at_colon s).1 end.
Definition extract_sv_bool (json key : text) : bool :=
  match find_key json key with None => false | Some s => bool_decide ((value_at_colon s).1 = txt "true") end.
Definition extract_sv_optional_bool (json key : text) : option bool :=
  s ← find_key json key;
  if bool_decide ((value_at_colon s).1 = txt "true") then Some true
  else if bool_decide ((value_at_colon s).1 = txt "false") then Some false else None.

(** ** Containers

    From an opening bracket to the one that closes it, strings skipped: the text with its
    brackets, the rest, and whether it was closed. *)
Fixpoint scan_container (o c : ascii) (depth : nat) (in_str escaped : bool) (s : text) : text * text * bool :=
  match s with
  | [] => ([], [], false)
  | x :: s' =>
      let next depth in_str escaped := let '(v, r, b) := scan_container o c depth in_str escaped s' in (x :: v, r, b) in
      if in_str then
        if escaped then next depth true false
        else if bool_decide (x = c_quote) then next depth false false
        else next depth true (bool_decide (x = c_backslash))
      else if bool_decide (x = c_quote) then next depth true false
      else if bool_decide (x = o) then next (S depth) false false
      else if bool_decide (x = c) then if (depth <=? 1)%nat then ([x], s', true) else next (pred depth) false false
      else next depth false false
  end.
Definition closer (o : ascii) : ascii := if bool_decide (o = "{"%char) then "}"%char else "]"%char.
(** Bitget's [match_container] and what is built on it. *)
Definition match_container (s : text) : option (text * text) :=
  match s with
  | o :: _ =>
      if bool_decide (o = "{"%char) || bool_decide (o = "["%char)
      then match scan_container o (closer o) 0 false false s with (v, r, true) => Some (v, r) | _ => None end else None
  | [] => None
  end.
Definition extract_container (o : ascii) (json key : text) : text :=
  match find_key json key with
  | None => []
  | Some s => let s := skip_ws s in if starts_with o s then match match_container s with Some (v, _) => v | None => [] end else []
  end.
Definition extract_object : text → text → text := extract_container "{"%char.
Definition extract_array : text → text → text := extract_container "["%char.
Fixpoint array_objects_from (fuel : nat) (s : text) : list text :=
  match fuel with
  | O => []
  | S fuel =>
      match skip_ws s with
      | [] => []
      | c :: s' =>
          if bool_decide (c = "]"%char) then [] else if bool_decide (c = ","%char) then array_objects_from fuel s' else
          if bool_decide (c = "{"%char) then
            match match_container (c :: s') with Some (v, r) => v :: array_objects_from fuel r | None => [] end
          else []
      end
  end.
Definition for_each_array_object (array : text) : list text :=
  match array with
  | c :: s => if (1 <? length array)%nat && bool_decide (c = "["%char) then array_objects_from (length array) s else []
  | [] => []
  end.
Definition first_data_object (json : text) : text := default [] (head (for_each_array_object (extract_array json (txt "data")))).

(** ** Fields of a flat object

    A region of a message is scanned as a text of its own.  Every turn of the loop takes
    characters off the text, so its length is enough fuel. *)
Fixpoint flat_fields (fuel : nat) (s : text) : list (text * text) :=
  match fuel with
  | O => []
  | S fuel =>
      match split_quote s with
      | None => []
      | Some (_, s1) =>
          match split_quote s1 with
          | None => []
          | Some (key, r) =>
              match skip_ws r with
              | c :: r =>
                  if bool_decide (c = ":"%char) then
                    match skip_ws r with
                    | [] => []
                    | c :: r' =>
                        if bool_decide (c = c_quote) then
                          match split_quote r' with Some (v, next) => (key, v) :: flat_fields fuel next | None => [] end
                        else if bool_decide (c = "{"%char) || bool_decide (c = "["%char) then
                          let '(v, next, _) := scan_container c (closer c) 0 false false (c :: r') in (key, v) :: flat_fields fuel next
                        else let '(v, next) := span_until token_end (c :: r') in (key, v) :: flat_fields fuel next
                    end
                  else flat_fields fuel s1
              | [] => flat_fields fuel s1
              end
          end
      end
  end.
Definition for_each_flat_field (s : text) : list (text * text) := flat_fields (S (length s)) s.
(** [key_tag]: the last four characters, in 32 bits. *)
Definition key_tag (k : text) : Z := foldl (λ h c, u32 (Z.lor (u32 (Z.shiftl h 8)) (Z.of_nat (nat_of_ascii c)))) 0 k.
(** What a handler that overwrites a variable for some keys ends with. *)
Definition last_field (p : text → bool) (fs : list (text * text)) : text :=
  foldl (λ acc kv, if p kv.1 then kv.2 else acc) [] fs.
Definition tagged (k : string) (key : text) : bool := key_tag key =? key_tag (txt k).
Definition named (k : string) (key : text) : bool := bool_decide (key = txt k).

(** ** Numbers *)

Definition digit_val (base : Z) (c : ascii) : option Z :=
  let n := Z.of_nat (nat_of_ascii c) in
  let v := if (48 <=? n) && (n <=? 57) then n - 48 else if (97 <=? n) && (n <=? 102) then n - 87
           else if (65 <=? n) && (n <=? 70) then n - 55 else base in
  if v <? base then Some v else None.
Fixpoint digits (base : Z) (s : text) : list Z * text :=
  match s with
  | [] => ([], [])
  | c :: s' => match digit_val base c with Some d => let '(ds, r) := digits base s' in (d :: ds, r) | None => ([], s) end
  end.
Definition digits_value (base : Z) (ds : list Z) : Z := foldl (λ a d, a * base + d) 0 ds.
Definition lower (c : ascii) : ascii :=
  let n := nat_of_ascii c in if ((65 <=? n) && (n <=? 90))%nat then ascii_of_nat (n + 32) else c.
Definition upper (c : ascii) : ascii :=
  let n := nat_of_ascii c in if ((97 <=? n) && (n <=? 122))%nat then ascii_of_nat (n - 32) else c.

Inductive magnitude := mg_inf | mg_nan | mg_ratio (n : Z) (d : positive).
(** [base ^ e] times a whole number. *)
Definition scaled (m base e : Z) : magnitude :=
  if 0 <=? e then mg_ratio (m * base ^ e) 1 else mg_ratio m (Z.to_pos (base ^ (- e))).
Definition exponent (s : text) : Z :=
  let '(neg, s) := match s with
    | c :: s' => if bool_decide (c = "-"%char) then (true, s') else if bool_decide (c = "+"%char) then (false, s') else (false, s)
    | [] => (false, s) end in
  let v := digits_value 10 (digits 10 s).1 in if neg then - v else v.
(** Digits with a point and an exponent; the exponent is to the base ten, or two after
    hexadecimal digits.  What follows the number is ignored. *)
Definition digits_number (base ebase : Z) (emark : ascii) (s : text) : option magnitude :=
  let '(i, r) := digits base s in
  let '(f, r) := match r with c :: r' => if bool_decide (c = "."%char) then digits base r' else ([], r) | [] => ([], r) end in
  if bool_decide (i ++ f = []) then None else
  let e := match r with c :: r' => if bool_decide (lower c = emark) then exponent r' else 0 | [] => 0 end in
  Some (if bool_decide (base = ebase) then scaled (digits_value base (i ++ f)) base (e - Z.of_nat (length f))
        else scaled (digits_value base (i ++ f)) ebase (e - 4 * Z.of_nat (length f))).
Definition named_number (s : text) : option magnitude :=
  if bool_decide (map lower (take 3 s) = txt "inf") then Some mg_inf
  else if bool_decide (map lower (take 3 s) = txt "nan") then Some mg_nan else None.
Definition magnitude_of (hex : bool) (s : text) : option magnitude :=
  match named_number s with
  | Some m => Some m
  | None =>
      match (if hex && bool_decide (map lower (take 2 s) = txt "0x") then digits_number 16 2 "p"%char (drop 2 s) else None) with
      | Some m => Some m
      | None => digits_number 10 10 "e"%char s
      end
  end.
Definition double_of (neg : bool) (m : magnitude) : double :=
  let d := match m with mg_inf => d_inf | mg_nan => d_nan | mg_ratio n d => d_of_ratio n d end in if neg then d_opp d else d.
(** A ratio that is not zero and becomes zero or infinite. *)
Definition out_of_range (m : magnitude) : bool :=
  match m with
  | mg_ratio n d =>
      negb (n =? 0) && match d_of_ratio n d with SpecFloat.S754_zero _ | SpecFloat.S754_infinity _ => true | _ => false end
  | _ => false
  end.
(** [std::from_chars]: a minus, no white space, no plus; a number out of range is an error. *)
Definition parse_double_sv (s : text) : option double :=
  let neg := starts_with "-"%char s in
  m ← magnitude_of false (if neg then drop 1 s else s);
  if out_of_range m then None else Some (double_of neg m).
Definition in_i64 (z : Z) : bool := (- 2 ^ 63 <=? z) && (z <? 2 ^ 63).
Definition parse_int64_sv (s : text) : option Z :=
  let neg := starts_with "-"%char s in
  let ds := (digits 10 (if neg then drop 1 s else s)).1 in
  let v := if neg then - digits_value 10 ds else digits_value 10 ds in
  if bool_decide (ds = []) || negb (in_i64 v) then None else Some v.
(** [std::strtod] and [std::strtoll]: white space and either sign; no number is zero, a number
    out of range is infinite, zero or the last of its range. *)
Definition c_spaces : list ascii := [" "; "009"; "010"; "011"; "012"; "013"]%char.
Fixpoint skip_spaces (s : text) : text :=
  match s with c :: s' => if one_of c_spaces c then skip_spaces s' else s | [] => [] end.
Definition signed (s : text) : bool * text :=
  match s with
  | c :: s' => if bool_decide (c = "-"%char) then (true, s') else if bool_decide (c = "+"%char) then (false, s') else (false, s)
  | [] => (false, s)
  end.
Definition strtod (s : text) : double :=
  let '(neg, s) := signed (skip_spaces s) in
  match magnitude_of true s with Some m => double_of neg m | None => d_zero end.
Definition strtoll (s : text) : Z :=
  let '(neg, s) := signed (skip_spaces s) in
  let v := digits_value 10 (digits 10 s).1 in
  Z.max (- 2 ^ 63) (Z.min (2 ^ 63 - 1) (if neg then - v else v)).
(** [static_cast<int64_t>]; out of range it is undefined, here zero. *)
Definition to_i64 (d : double) : Z := match d_trunc d with Some z => if in_i64 z then z else 0 | None => 0 end.
Definition to_double_or_zero (s : text) : double := default d_zero (parse_double_sv s).
