(* ===== verification/JsonTheorems.v ===== *)
(** * What the scanners find in a message the venue printed

    [print_object] is the compact form the venues send: quoted keys, values that are quoted
    or bare tokens, no white space.  The extractors and the field walk give back what was
    printed, whatever else the message holds. *)

From Stdlib Require Import Ascii.
From S2P Require Import Prelude Float64 JsonScan.

Open Scope string_scope.
Open Scope list_scope.
Open Scope Z_scope.

(** ** Fields between separators *)

Lemma split_whole c a : c ∉ a → split_on c a = [a].
Proof.
  induction a as [|x a IH]; intros H; cbn; [done|]. apply not_elem_of_cons in H as [H1 H2].
  rewrite bool_decide_false by done. by rewrite IH.
Qed.
Lemma split_app c a b : c ∉ a → split_on c (a ++ c :: b) = a :: split_on c b.
Proof.
  induction a as [|x a IH]; intros H; cbn; [by rewrite bool_decide_true|]. apply not_elem_of_cons in H as [H1 H2].
  rewrite bool_decide_false by done. by rewrite IH.
Qed.

(** ** Printed messages *)

Inductive jval := j_str (t : text) | j_tok (t : text).
Definition j_text (v : jval) : text := match v with j_str t | j_tok t => t end.
Definition print_val (v : jval) : text := match v with j_str t => c_quote :: t ++ [c_quote] | j_tok t => t end.
Definition print_field (f : text * jval) : text := c_quote :: f.1 ++ c_quote :: ":"%char :: print_val f.2.
Fixpoint print_fields (fs : list (text * jval)) : text :=
  match fs with [] => [] | [f] => print_field f | f :: fs => print_field f ++ ","%char :: print_fields fs end.
Definition print_object (fs : list (text * jval)) : text := "{"%char :: print_fields fs ++ ["}"%char].

Definition separators : list ascii := [":"; ","; "}"]%char.
Definition clean_key (k : text) : Prop :=
  c_quote ∉ k ∧ (length k <= 64)%nat ∧ match k with [] => False | c :: _ => c ∉ separators end.
Definition clean_val (v : jval) : Prop :=
  match v with
  | j_str t => c_quote ∉ t
  | j_tok t => Forall (λ c, c ∉ c_quote :: token_end) t ∧ match t with [] => False | c :: _ => c ∉ ["{"; "["]%char end
  end.
Definition clean (f : text * jval) : Prop := clean_key f.1 ∧ clean_val f.2.
#[global] Instance clean_key_dec k : Decision (clean_key k).
Proof. unfold clean_key. destruct k; apply _. Defined.
#[global] Instance clean_val_dec v : Decision (clean_val v).
Proof. destruct v as [t|t]; cbn; [apply _|destruct t; apply _]. Defined.
#[global] Instance clean_dec f : Decision (clean f).
Proof. unfold clean. apply _. Defined.

Lemma split_quote_app a r : c_quote ∉ a → split_quote (a ++ c_quote :: r) = Some (a, r).
Proof.
  induction a as [|c a IH]; intros H; cbn; [done|]. apply not_elem_of_cons in H as [H1 H2].
  rewrite bool_decide_false by done. by rewrite IH.
Qed.
Lemma span_until_app l a c r : Forall (λ x, x ∉ l) a → c ∈ l → span_until l (a ++ c :: r) = (a, c :: r).
Proof.
  intros H Hc. induction H as [|x a Hx _ IH]; cbn; unfold one_of; [by rewrite bool_decide_true|].
  rewrite bool_decide_false by done. by rewrite IH.
Qed.

(** ** Searching for a key *)

Lemma strip_prefix_head a p b s : a ≠ b → strip_prefix (a :: p) (b :: s) = None.
Proof. intros. cbn. by rewrite bool_decide_false. Qed.
Lemma strip_prefix_app p s : strip_prefix p (p ++ s) = Some s.
Proof. induction p as [|a p IH]; cbn; [done|]. by rewrite bool_decide_true. Qed.
Lemma strip_prefix_spec p s r : strip_prefix p s = Some r → s = p ++ r.
Proof.
  revert s. induction p as [|a p IH]; intros [|b s]; cbn; try done; [by intros [= ->]..|].
  case_bool_decide; [|done]. subst. intros H. f_equal. by apply IH.
Qed.
Lemma quote_split a a' r r' : c_quote ∉ a → c_quote ∉ a' → a ++ c_quote :: r = a' ++ c_quote :: r' → a = a' ∧ r = r'.
Proof.
  intros H H' E. apply (f_equal split_quote) in E. rewrite !split_quote_app in E by done. by injection E.
Qed.
Lemma needle_miss key seg c s : c_quote ∉ key → c_quote ∉ seg → seg ≠ key ∨ c ≠ ":"%char →
  strip_prefix (key_needle key) (c_quote :: seg ++ c_quote :: c :: s) = None.
Proof.
  intros Hk Hs H. destruct (strip_prefix _ _) as [r|] eqn:E; [|done]. apply strip_prefix_spec in E.
  unfold key_needle in E. cbn in E. injection E as E. rewrite <-app_assoc in E. cbn in E.
  apply quote_split in E as [-> E]; [|done..]. injection E as -> _. naive_solver.
Qed.
Lemma needle_miss_head key c s : clean_key key → c ∈ separators → strip_prefix (key_needle key) (c_quote :: c :: s) = None.
Proof.
  intros (_ & _ & H) Hc. destruct key as [|x key]; [done|]. unfold key_needle. cbn [app strip_prefix].
  rewrite bool_decide_true by done. apply strip_prefix_head. naive_solver.
Qed.
Lemma find_skip needle c s : strip_prefix needle (c :: s) = None → find_after needle (c :: s) = find_after needle s.
Proof. intros H. cbn [find_after]. by rewrite H. Qed.
Lemma find_skip_seg key seg s : c_quote ∉ seg → find_after (key_needle key) (seg ++ s) = find_after (key_needle key) s.
Proof.
  induction seg as [|c seg IH]; intros H; [done|]. apply not_elem_of_cons in H as [H1 H2].
  cbn [app]. rewrite find_skip; [by apply IH|]. by apply strip_prefix_head.
Qed.
Lemma find_skip_char key c s : c ≠ c_quote → find_after (key_needle key) (c :: s) = find_after (key_needle key) s.
Proof. intros H. apply find_skip. by apply strip_prefix_head. Qed.
Lemma find_skip_field key k v c s : clean_key key → clean (k, v) → k ≠ key → c ∈ separators → c ≠ ":"%char →
  find_after (key_needle key) (print_field (k, v) ++ c :: s) = find_after (key_needle key) (c :: s).
Proof.
  intros Hkey [(Hk & _ & _) Hv] Hne Hc Hnc. unfold print_field. cbn [fst snd app]. rewrite <-app_assoc. cbn [app].
  rewrite find_skip by (apply needle_miss; [apply Hkey|done|by left]). rewrite find_skip_seg by done.
  rewrite find_skip by (apply needle_miss_head; [done|set_solver]).
  rewrite find_skip_char by done.
  destruct v as [t|t]; cbn [print_val clean_val snd] in *.
  - cbn [app]. rewrite <-app_assoc. cbn [app]. rewrite find_skip by (apply needle_miss; [apply Hkey|done|by right]).
    rewrite find_skip_seg by done. by apply find_skip, needle_miss_head.
  - apply find_skip_seg. destruct Hv as [Hv _]. intros Hin. rewrite Forall_forall in Hv. apply (Hv _ Hin). set_solver.
Qed.

(** What follows a field in its object. *)
Definition after_field (fs : list (text * jval)) (rest : text) : text :=
  match fs with [] => "}"%char :: rest | _ => ","%char :: print_fields fs ++ "}"%char :: rest end.
Lemma print_cons f fs rest : print_fields (f :: fs) ++ "}"%char :: rest = print_field f ++ after_field fs rest.
Proof. destruct fs as [|g fs]; [done|]. cbn [print_fields]. rewrite <-app_assoc. done. Qed.
(** A key is found at its first field, and not before. *)
Lemma find_key_print pre fs1 key v fs2 rest : c_quote ∉ pre → clean_key key → Forall clean fs1 → key ∉ fs1.*1 →
  find_key (pre ++ print_fields (fs1 ++ (key, v) :: fs2) ++ "}"%char :: rest) key = Some (print_val v ++ after_field fs2 rest).
Proof.
  intros Hpre Hkey Hc Hnew. unfold find_key. assert (key ≠ []) by (intros ->; by destruct Hkey as (_ & _ & [])).
  rewrite bool_decide_false by done. cbn [orb]. pose proof Hkey as (Hq & Hlen & _).
  destruct (Z.ltb_spec 64 (Z.of_nat (length key))); [lia|]. rewrite find_skip_seg by done. clear Hpre.
  induction fs1 as [|[k w] fs1 IH].
  - cbn [app]. rewrite print_cons. unfold print_field. cbn [fst snd app]. cbn [find_after].
    replace (c_quote :: (key ++ c_quote :: ":"%char :: print_val v) ++ after_field fs2 rest) with (key_needle key ++ print_val v ++ after_field fs2 rest).
    + by rewrite strip_prefix_app.
    + unfold key_needle. cbn. by rewrite <-!app_assoc.
  - cbn [app fmap list_fmap fst] in *. apply Forall_cons in Hc as [Hc Hc']. apply not_elem_of_cons in Hnew as [Hne Hnew].
    rewrite print_cons. unfold after_field. destruct (fs1 ++ (key, v) :: fs2) as [|g gs] eqn:E; [by destruct fs1|].
    rewrite find_skip_field by (done || set_solver). rewrite find_skip_char by done. by apply IH.
Qed.
Lemma find_key_absent pre fs key rest : c_quote ∉ pre → c_quote ∉ rest → clean_key key → Forall clean fs → key ∉ fs.*1 →
  find_key (pre ++ print_fields fs ++ "}"%char :: rest) key = None.
Proof.
  intros Hpre Hrest Hkey Hc Hnew. unfold find_key. destruct (_ || _); [done|]. rewrite find_skip_seg by done.
  assert (find_after (key_needle key) ("}"%char :: rest) = None) as Hend.
  { rewrite find_skip_char by done. rewrite <-(app_nil_r rest). by rewrite find_skip_seg. }
  induction fs as [|[k w] fs IH]; [done|].
  apply Forall_cons in Hc as [Hc Hc']. cbn [fmap list_fmap fst] in Hnew. apply not_elem_of_cons in Hnew as [Hne Hnew].
  rewrite print_cons. unfold after_field. destruct fs as [|g fs].
  - by rewrite find_skip_field by (done || set_solver).
  - rewrite find_skip_field by (done || set_solver). rewrite find_skip_char by done. by apply IH.
Qed.

(** ** Values *)

Lemma skip_ws_id c s : c ∉ whitespace → skip_ws (c :: s) = c :: s.
Proof. intros H. cbn. unfold one_of. by rewrite bool_decide_false. Qed.
Lemma after_field_head fs rest : ∃ c s, after_field fs rest = c :: s ∧ c ∈ token_end ∧ c ≠ ":"%char ∧ c ∈ separators.
Proof. destruct fs as [|f fs]; cbn; do 2 eexists; (split; [reflexivity|]); split_and!; try done; set_solver. Qed.
Lemma token_chars t : Forall (λ c, c ∉ c_quote :: token_end) t →
  Forall (λ c, c ∉ token_end) t ∧ Forall (λ c, c ∉ whitespace) t ∧ c_quote ∉ t.
Proof.
  intros H. split_and!; [eapply Forall_impl; [exact H|]; set_solver..|]. intros Hin. rewrite Forall_forall in H. apply (H _ Hin). set_solver.
Qed.
Lemma value_at_print v fs rest : clean_val v → value_at_colon (print_val v ++ after_field fs rest) = (j_text v, after_field fs rest).
Proof.
  intros Hv. unfold value_at_colon. destruct v as [t|t]; cbn [print_val j_text clean_val] in *.
  - cbn [app]. rewrite skip_ws_id by (by vm_compute in Hv |- *; set_solver). rewrite bool_decide_true by done.
    rewrite <-app_assoc. cbn [app]. by rewrite split_quote_app.
  - destruct Hv as [Ht Hh]. destruct t as [|c t]; [done|]. destruct (token_chars _ Ht) as (H1 & H2 & H3). cbn [app].
    inversion H2; subst. rewrite skip_ws_id by done. rewrite bool_decide_false by set_solver.
    destruct (after_field_head fs rest) as (c' & s' & -> & Hc & _). by apply (span_until_app token_end (c :: t)).
Qed.
Lemma extract_string_print pre fs1 key v fs2 rest : c_quote ∉ pre → clean_key key → Forall clean fs1 → key ∉ fs1.*1 → clean_val v →
  extract_sv_string (pre ++ print_fields (fs1 ++ (key, v) :: fs2) ++ "}"%char :: rest) key = match v with j_str t => t | j_tok _ => [] end.
Proof.
  intros. unfold extract_sv_string. rewrite find_key_print by done. rewrite value_at_print by done. destruct v as [t|t]; [done|].
  destruct t as [|c t]; [by destruct H3|]. cbn [print_val app]. destruct H3 as [Ht _]. destruct (token_chars _ Ht) as (_ & Hw & Hq).
  inversion Hw; subst. rewrite skip_ws_id by done. cbn [starts_with]. rewrite bool_decide_false by set_solver. done.
Qed.
Lemma extract_number_print pre fs1 key v fs2 rest : c_quote ∉ pre → clean_key key → Forall clean fs1 → key ∉ fs1.*1 → clean_val v →
  extract_sv_number (pre ++ print_fields (fs1 ++ (key, v) :: fs2) ++ "}"%char :: rest) key = j_text v.
Proof. intros. unfold extract_sv_number. rewrite find_key_print by done. by rewrite value_at_print. Qed.

(** ** Walking the fields *)

Lemma flat_fields_print fuel pre fs : (length fs < fuel)%nat → c_quote ∉ pre → Forall clean fs →
  flat_fields fuel (pre ++ print_fields fs ++ ["}"%char]) = (λ f, (f.1, j_text f.2)) <$> fs.
Proof.
  revert pre fuel. induction fs as [|[k v] fs IH]; intros pre [|fuel] Hf Hpre Hc; cbn [length] in Hf; [lia| |lia|].
  - cbn [flat_fields print_fields app fmap list_fmap]. assert (split_quote (pre ++ ["}"%char]) = None) as ->; [|done].
    clear -Hpre. induction pre as [|c pre IH]; cbn; [done|]. apply not_elem_of_cons in Hpre as [H1 H2].
    rewrite bool_decide_false by done. by rewrite IH.
  - apply Forall_cons in Hc as [[(Hk & _) Hv] Hc']. cbn [fst snd] in *. rewrite print_cons. unfold print_field. cbn [fst snd].
    cbn [flat_fields]. replace (pre ++ (c_quote :: k ++ c_quote :: ":"%char :: print_val v) ++ after_field fs [])
      with (pre ++ c_quote :: (k ++ c_quote :: ":"%char :: print_val v ++ after_field fs [])) by (cbn; by rewrite <-!app_assoc).
    rewrite split_quote_app by done. rewrite split_quote_app by done. rewrite (skip_ws_id ":"%char) by (vm_compute; set_solver).
    rewrite bool_decide_true by done.
    assert (∀ v', (k, v') :: flat_fields fuel (after_field fs []) = (k, v') :: ((λ f, (f.1, j_text f.2)) <$> fs)) as Hrec.
    { intros v'. f_equal. unfold after_field. destruct fs as [|g fs]; [|by apply (IH [","%char]); [lia|vm_compute; set_solver|]].
      by apply (IH []); [lia|set_solver|]. }
    destruct v as [t|t]; cbn [print_val clean_val j_text snd fmap list_fmap] in *.
    + cbn [app]. rewrite skip_ws_id by (vm_compute; set_solver). rewrite bool_decide_true by done. rewrite <-app_assoc. cbn [app].
      rewrite split_quote_app by done. apply Hrec.
    + destruct Hv as [Ht Hh]. destruct t as [|c t]; [done|]. destruct (token_chars _ Ht) as (H1 & H2 & H3). cbn [app].
      inversion H2; subst. rewrite skip_ws_id by done. rewrite bool_decide_false by set_solver.
      rewrite !bool_decide_false by set_solver. cbn [orb].
      destruct (after_field_head fs []) as (c' & s' & E & Hc & _). rewrite E.
      change (c :: t ++ c' :: s') with ((c :: t) ++ c' :: s'). rewrite (span_until_app token_end (c :: t)) by done. rewrite <-E. apply Hrec.
Qed.

(** The first field of a key. *)
Fixpoint field (key : text) (fs : list (text * jval)) : option jval :=
  match fs with [] => None | (k, v) :: fs => if bool_decide (k = key) then Some v else field key fs end.
Lemma field_split key fs : match field key fs with
  | Some v => ∃ fs1 fs2, fs = fs1 ++ (key, v) :: fs2 ∧ key ∉ fs1.*1
  | None => key ∉ fs.*1
  end.
Proof.
  induction fs as [|[k v] fs IH]; cbn; [set_solver|]. case_bool_decide as E; subst.
  - exists [], fs. split; [done|]. cbn. set_solver.
  - destruct (field key fs) as [w|]; [|cbn; set_solver]. destruct IH as (fs1 & fs2 & -> & H). exists ((k, v) :: fs1), fs2.
    split; [done|]. cbn. set_solver.
Qed.

(** What the extractors give for a key of an object, read inside a text. *)
Definition quoted_field (key : text) (fs : list (text * jval)) : text := match field key fs with Some (j_str t) => t | _ => [] end.
Definition any_field (key : text) (fs : list (text * jval)) : text := match field key fs with Some v => j_text v | None => [] end.
Lemma extract_print pre fs rest key : c_quote ∉ pre → c_quote ∉ rest → Forall clean fs → clean_key key →
  extract_sv_string (pre ++ print_fields fs ++ "}"%char :: rest) key = quoted_field key fs ∧
  extract_sv_number (pre ++ print_fields fs ++ "}"%char :: rest) key = any_field key fs.
Proof.
  intros Hpre Hrest Hc Hk. unfold quoted_field, any_field. pose proof (field_split key fs) as H. destruct (field key fs) as [v|].
  - destruct H as (fs1 & fs2 & -> & H). apply Forall_app in Hc as [H1 H2]. apply Forall_cons in H2 as [[_ Hv] _].
    rewrite extract_string_print, extract_number_print by done. by destruct v.
  - unfold extract_sv_string, extract_sv_number. by rewrite find_key_absent.
Qed.

(** The walk gives every field of a printed object. *)
Lemma walk_print fs : Forall clean fs → for_each_flat_field (print_object fs) = (λ f, (f.1, j_text f.2)) <$> fs.
Proof.
  intros Hc. assert (c_quote ∉ ["{"%char]) as Hpre by (vm_compute; set_solver).
  unfold print_object. change ("{"%char :: ?x) with (["{"%char] ++ x).
  unfold for_each_flat_field. apply (flat_fields_print _ ["{"%char]); [|done|done].
  rewrite !length_app. enough (length fs <= length (print_fields fs))%nat by (cbn; lia).
  clear. induction fs as [|f [|g fs] IH]; [cbn; lia|cbn; lia|]. change (length (print_fields (f :: g :: fs)) ) with
    (length (print_field f ++ ","%char :: print_fields (g :: fs))). rewrite length_app. cbn [length] in *. lia.
Qed.

(** A message the venue printed compactly is read as it was printed: for every flat object
    with quoted keys and values that are quoted or bare tokens, the extractors give the first
    field of a key (the quoted form only when it was quoted, nothing when there is none) and the
    field walk gives every field in order, whatever the other fields hold. *)
Theorem scanners_roundtrip fs key : Forall clean fs → clean_key key →
  extract_sv_string (print_object fs) key = match field key fs with Some (j_str t) => t | _ => [] end ∧
  extract_sv_number (print_object fs) key = match field key fs with Some v => j_text v | None => [] end ∧
  for_each_flat_field (print_object fs) = (λ f, (f.1, j_text f.2)) <$> fs.
Proof.
  intros Hc Hk. assert (c_quote ∉ ["{"%char]) as Hpre by (vm_compute; set_solver).
  unfold print_object. change ("{"%char :: ?x) with (["{"%char] ++ x).
  destruct (extract_print ["{"%char] fs [] key) as [H1 H2]; [done|set_solver|done|done|]. split_and!; [done|done|].
  by apply walk_print.
Qed.
Definition sample : list (text * jval) := [(txt "e", j_str (txt "trade")); (txt "p", j_str (txt "10.5")); (txt "m", j_tok (txt "true"))].
Lemma scanners_roundtrip_witness :
  extract_sv_string (print_object sample) (txt "p") = txt "10.5" ∧ extract_sv_string (print_object sample) (txt "m") = [] ∧
  extract_sv_number (print_object sample) (txt "m") = txt "true".
Proof.
  destruct (scanners_roundtrip sample (txt "p")) as (H1 & _ & _); [by apply (bool_decide_unpack _); vm_compute|by apply (bool_decide_unpack _); vm_compute|].
  destruct (scanners_roundtrip sample (txt "m")) as (H2 & H3 & _); [by apply (bool_decide_unpack _); vm_compute|by apply (bool_decide_unpack _); vm_compute|].
  by rewrite H1, H2, H3.
Defined.
