(* ===== verification/BinanceParsers.v ===== *)
(** * Binance messages (src/src/providers/binance): binance_parser.h, binance_depth_parser.h,
    binance_user_data_parser.h, binance_futures_user_data_parser.h

    Trades, klines and depth payloads of the market streams, and the execution reports and
    account updates of the user-data streams, on the scanners of JsonScan.  The clock that
    stands in for a missing time stamp is an argument. *)

From Stdlib Require Import Ascii.
From S2P Require Import Prelude Float64 Event Bridge JsonScan.

Open Scope string_scope.
Open Scope list_scope.
Open Scope Z_scope.

Inductive data_tick_side := dts_bid | dts_ask | dts_unknown.
Record tick_record := { tk_timestamp : time_point; tk_symbol : string; tk_price : double; tk_quantity : Z; tk_side : data_tick_side }.
Record bar_record := {
  br_date : string; br_symbol : string; br_open : double; br_high : double; br_low : double; br_close : double; br_volume : Z }.
Record l2_level := { ll_price : double; ll_quantity : Z }.
Record l2_snapshot := { sn_timestamp : time_point; sn_symbol : string; sn_bids : list l2_level; sn_asks : list l2_level }.
Record l2_update := { up_timestamp : time_point; up_symbol : string; up_side : Z; up_price : double; up_quantity : Z }.

Definition ms_to_tp (ms : Z) : time_point := ms * 1000000.
(** Quantities are whole numbers of [1e-8]. *)
Definition scale_qty (q : double) : Z := to_i64 (d_mul q (d_of_Z 100000000)).

(** ** Trades and klines *)

Definition parse_trade (now : time_point) (json : text) : option tick_record :=
  let fs := for_each_flat_field json in
  let price_sv := last_field (tagged "p") fs in
  let qty_sv := last_field (tagged "q") fs in
  let symbol_sv := last_field (tagged "s") fs in
  let maker := bool_decide (last_field (tagged "m") fs = txt "true") in
  if bool_decide (last_field (tagged "e") fs ≠ txt "trade") then None else
  if bool_decide (price_sv = []) || bool_decide (qty_sv = []) || bool_decide (symbol_sv = []) then None else
  price ← parse_double_sv price_sv;
  qty ← parse_double_sv qty_sv;
  Some {| tk_timestamp := match parse_int64_sv (last_field (tagged "T") fs) with Some ms => ms_to_tp ms | None => now end;
          tk_symbol := str symbol_sv; tk_price := price; tk_quantity := scale_qty qty; tk_side := if maker then dts_ask else dts_bid |}.

(** The inside of the [k] object: the tight form is preferred, then one with white space. *)
Definition kline_region (json : text) : option text :=
  s ← match find_after (key_needle (txt "k") ++ ["{"%char]) json with
      | Some s => Some ("{"%char :: s)
      | None => s ← find_key json (txt "k"); if starts_with "{"%char (skip_ws s) then Some (skip_ws s) else None
      end;
  match scan_container "{"%char "}"%char 0 false false s with
  | (v, _, true) => Some (take (length v - 2) (drop 1 v))
  | _ => Some []
  end.
Definition parse_kline (json : text) : option bar_record :=
  e ← find_key json (txt "e");
  if bool_decide ((value_at_colon e).1 ≠ txt "kline") then None else
  region ← kline_region json;
  let fs := for_each_flat_field region in
  let get k := last_field (tagged k) fs in
  if bool_decide (get "o" = []) || bool_decide (get "c" = []) || bool_decide (get "h" = []) || bool_decide (get "l" = []) then None else
  open ← parse_double_sv (get "o"); high ← parse_double_sv (get "h"); low ← parse_double_sv (get "l"); close ← parse_double_sv (get "c");
  Some {| br_date := str (get "t"); br_symbol := str (get "s"); br_open := open; br_high := high; br_low := low; br_close := close;
          br_volume := match (if bool_decide (get "v" = []) then None else parse_double_sv (get "v")) with Some v => scale_qty v | None => 0 end |}.

(** ** Depth *)

Definition find_level_array (json key : text) : option text :=
  if 12 <? Z.of_nat (length key) then None else find_after (key_needle key ++ ["["%char]) json.
Fixpoint skip_chars (l : list ascii) (s : text) : text :=
  match s with c :: s' => if one_of l c then skip_chars l s' else s | [] => [] end.
(** A quoted string at the head of the text. *)
Definition quoted (s : text) : option (text * text) :=
  match s with c :: s' => if bool_decide (c = c_quote) then split_quote s' else None | [] => None end.
Definition parse_one_level (s : text) : option (double * double * text) :=
  match skip_chars [" "; ","]%char s with
  | c :: s =>
      if bool_decide (c ≠ "["%char) then None else
      '(price_sv, s) ← quoted (skip_chars [" "%char] s);
      '(qty_sv, s) ← quoted (skip_chars [","; " "]%char s);
      price ← parse_double_sv price_sv;
      qty ← parse_double_sv qty_sv;
      Some (price, qty, drop 1 (span_until ["]"%char] s).2)
  | [] => None
  end.
Fixpoint level_list (fuel : nat) (s : text) : list l2_level :=
  match fuel with
  | O => []
  | S fuel =>
      match parse_one_level s with
      | None => []
      | Some (price, qty, s) =>
          {| ll_price := price; ll_quantity := scale_qty qty |} ::
          let s := skip_chars [" "; ","]%char s in if starts_with "]"%char s || bool_decide (s = []) then [] else level_list fuel s
      end
  end.
Definition append_levels (json key : text) : list l2_level :=
  match find_level_array json key with None => [] | Some s => level_list (length s) s end.
Definition parse_side_levels (json long_key short_key : text) : list l2_level :=
  match append_levels json long_key with [] => append_levels json short_key | l => l end.
Definition parse_event_time (now : time_point) (json : text) : time_point :=
  match parse_int64_sv (extract_sv_number json (txt "E")) with Some ms => ms_to_tp ms | None => now end.
Definition parse_depth_snapshot (now : time_point) (json : text) : option l2_snapshot :=
  let bids := parse_side_levels json (txt "bids") (txt "b") in
  let asks := parse_side_levels json (txt "asks") (txt "a") in
  match bids, asks with
  | [], [] => None
  | _, _ => Some {| sn_timestamp := parse_event_time now json; sn_symbol := str (extract_sv_string json (txt "s")); sn_bids := bids; sn_asks := asks |}
  end.
Definition push_side (ts : time_point) (symbol : string) (side : Z) (l : l2_level) : l2_update :=
  {| up_timestamp := ts; up_symbol := symbol; up_side := side; up_price := ll_price l; up_quantity := ll_quantity l |}.
Definition parse_depth_updates (now : time_point) (json : text) : list l2_update :=
  let ts := parse_event_time now json in
  let symbol := str (extract_sv_string json (txt "s")) in
  (push_side ts symbol 0 <$> parse_side_levels json (txt "bids") (txt "b")) ++
  (push_side ts symbol 1 <$> parse_side_levels json (txt "asks") (txt "a")).

(** ** Execution reports *)

Definition to_double (s : text) : double := if bool_decide (s = []) then d_zero else strtod s.
Definition take_id (json key : text) : text :=
  match extract_sv_number json key with [] => extract_sv_string json key | n => n end.
Definition classify (x X : text) : exec_kind :=
  if bool_decide (x = txt "TRADE") then if bool_decide (X = txt "FILLED") then k_full_fill else k_partial_fill
  else if bool_decide (x = txt "NEW") then k_ack
  else if bool_decide (x = txt "CANCELED") then k_canceled
  else if bool_decide (x = txt "REJECTED") then k_rejected
  else if bool_decide (x = txt "EXPIRED") then k_expired
  else if bool_decide (X = txt "CANCELED") then k_canceled
  else if bool_decide (X = txt "REJECTED") then k_rejected
  else if bool_decide (X = txt "EXPIRED") then k_expired else k_other.
Definition event_time (json : text) : time_point :=
  match extract_sv_number json (txt "E") with [] => 0 | n => ms_to_tp (strtoll n) end.
(** The report in [inner], stamped with the time of the whole message. *)
Definition exec_of (json inner : text) : parsed_exec :=
  let get k := extract_sv_string inner (txt k) in
  let k := classify (get "x") (get "X") in
  {| pe_kind := k; pe_client_order_id := str (get "c"); pe_exchange_order_id := str (take_id inner (txt "i")); pe_symbol := str (get "s");
     pe_side := if bool_decide (get "S" = txt "SELL") then side_sell else side_buy; pe_last_fill_qty := to_double (get "l");
     pe_last_fill_price := to_double (get "L"); pe_cumulative_qty := to_double (get "z"); pe_commission := to_double (get "n");
     pe_commission_asset := str (get "N"); pe_ts := event_time json;
     pe_error := if bool_decide (k = k_rejected) then str (get "r") else "" |}.
Definition spot_parse (raw : string) : option parsed_exec :=
  let json := txt raw in
  if bool_decide (extract_sv_string json (txt "e") ≠ txt "executionReport") then None else Some (exec_of json json).
(** The futures stream wraps the report in an object [o]; what follows the wrapper's key is read. *)
Definition open_object (key : string) : text := key_needle (txt key) ++ ["{"%char].
Definition futures_parse (raw : string) : option parsed_exec :=
  let json := txt raw in
  if bool_decide (extract_sv_string json (txt "e") ≠ txt "ORDER_TRADE_UPDATE") then None else
  inner ← find_from (open_object "o") json;
  Some (exec_of json inner).

(** ** Account updates *)

Fixpoint plain_object (depth : nat) (s : text) : text * text :=
  match s with
  | [] => ([], [])
  | x :: s' =>
      let next depth := let '(v, r) := plain_object depth s' in (x :: v, r) in
      if bool_decide (x = "{"%char) then next (S depth)
      else if bool_decide (x = "}"%char) then if (depth =? 1)%nat then ([x], s') else next (pred depth)
      else next depth
  end.
(** Objects up to the bracket that ends the array, read only where an object may start. *)
Fixpoint plain_objects (fuel : nat) (stop : bool) (s : text) : list text :=
  match fuel, s with
  | S fuel, c :: _ =>
      if stop && bool_decide (c = "]"%char) then [] else
      match (span_until ["{"%char] s).2 with
      | [] => []
      | s => let '(v, r) := plain_object 0 s in v :: plain_objects fuel stop r
      end
  | _, _ => []
  end.
Definition for_each_object_in_array (body : text) (key : string) : list text :=
  match find_after (key_needle (txt key) ++ ["["%char]) body with None => [] | Some s => plain_objects (length s) true s end.
Definition classify_reason (m : text) : snapshot_reason :=
  if bool_decide (m = txt "ORDER") then sr_order
  else if bool_decide (m = txt "FUNDING_FEE") then sr_funding_fee
  else if bool_decide (m = txt "ADJUSTMENT") then sr_adjustment
  else if bool_decide (m = txt "DEPOSIT") then sr_deposit
  else if bool_decide (m = txt "WITHDRAW") then sr_withdraw
  else if bool_decide (m = txt "MARGIN_TRANSFER") then sr_margin_transfer
  else if bool_decide (m = txt "MARGIN_TYPE_CHANGE") then sr_margin_type_change
  else if bool_decide (m = txt "INSURANCE_CLEAR") then sr_liquidation
  else if bool_decide (m = txt "ADMIN_DEPOSIT") || bool_decide (m = txt "ADMIN_WITHDRAW") then sr_admin
  else if bool_decide (m = []) then sr_unknown else sr_other.
Definition normalize_margin_type (s : text) : text :=
  match s with
  | [] => []
  | c :: _ => if bool_decide (upper c = "I"%char) then txt "ISOLATED" else if bool_decide (upper c = "C"%char) then txt "CROSSED" else s
  end.
Definition balance_of (obj : text) : balance_row :=
  {| row_asset := str (extract_sv_string obj (txt "a")); row_wallet_balance := to_double (extract_sv_string obj (txt "wb"));
     row_balance_change := to_double (extract_sv_string obj (txt "bc")) |}.
Definition position_of (obj : text) : position_row :=
  {| row_symbol := str (extract_sv_string obj (txt "s")); row_qty := to_double (extract_sv_string obj (txt "pa"));
     row_margin_type := str (normalize_margin_type (extract_sv_string obj (txt "mt"))); row_position_side := str (extract_sv_string obj (txt "ps")) |}.
Definition futures_parse_snapshot (raw : string) : option parsed_position_snapshot :=
  let json := txt raw in
  if bool_decide (extract_sv_string json (txt "e") ≠ txt "ACCOUNT_UPDATE") then None else
  inner ← find_from (open_object "a") json;
  Some {| ps_reason := classify_reason (extract_sv_string inner (txt "m")); ps_ts := event_time json;
          ps_positions := filter (λ r, row_symbol r ≠ "") (position_of <$> for_each_object_in_array inner "P");
          ps_balances := filter (λ r, row_asset r ≠ "") (balance_of <$> for_each_object_in_array inner "B") |}.
