(* ===== verification/BitgetParsers.v ===== *)
(** * Bitget messages (src/src/providers/bitget): bitget_parser.h, bitget_futures_user_data_parser.h,
    and the business codes of bitget_rest_client.h

    Trades, books and klines with the gate that emits only closed candles, the combined
    parser, and the order, fill, position and account messages of the private stream. *)

From Stdlib Require Import Ascii.
From S2P Require Import Prelude Float64 Event Bridge JsonScan BinanceParsers.

Open Scope string_scope.
Open Scope list_scope.
Open Scope Z_scope.

(** The first text that is not empty. *)
Definition orelse (a b : text) : text := match a with [] => b | _ => a end.
Infix "//" := orelse (at level 35, right associativity).
Definition is_one_of (t : text) (l : list string) : bool := existsb (λ s, bool_decide (t = txt s)) l.

(** ** Market messages *)

Record tick := { ti_timestamp : time_point; ti_symbol : string; ti_price : double; ti_quantity : Z; ti_side : Z }.
Inductive status_kind := st_connected | st_disconnected | st_error | st_info.
Record provider_status := { ps_timestamp : time_point; ps_provider : string; ps_message : string; ps_type : status_kind }.
Inductive provider_event :=
  pv_bar (b : bar_record) | pv_tick (t : tick) | pv_snapshot (s : l2_snapshot) | pv_update (u : l2_update) | pv_status (s : provider_status).

Definition map_tick_side (side : text) : option data_tick_side :=
  if is_one_of side ["buy"; "BUY"; "Buy"] then Some dts_bid else if is_one_of side ["sell"; "SELL"; "Sell"] then Some dts_ask else None.
Definition side_to_u8 (s : data_tick_side) : Z := match s with dts_bid => 0 | dts_ask => 1 | dts_unknown => 2 end.
Definition parse_ts_ms (s : text) : option time_point := ms_to_tp <$> parse_int64_sv s.

(** Fields in order: a short key overwrites, a long one only when nothing was seen. *)
Definition pick (short long : string) (fs : list (text * text)) : text :=
  foldl (λ acc kv, if named short kv.1 then kv.2 else if named long kv.1 && bool_decide (acc = []) then kv.2 else acc) [] fs.
Definition parse_trade_object (now : time_point) (obj symbol : text) : option tick :=
  if bool_decide (symbol = []) then None else
  let fs := for_each_flat_field obj in
  let price_sv := last_field (named "p") fs in
  let qty_sv := last_field (named "v") fs in
  let side_sv := pick "S" "side" fs in
  if bool_decide (price_sv = []) || bool_decide (qty_sv = []) || bool_decide (side_sv = []) then None else
  price ← parse_double_sv price_sv; qty ← parse_double_sv qty_sv; side ← map_tick_side side_sv;
  Some {| ti_timestamp := default now (parse_ts_ms (pick "T" "ts" fs)); ti_symbol := str symbol; ti_price := price;
          ti_quantity := scale_qty qty; ti_side := side_to_u8 side |}.
Definition arg_of (json : text) : text := extract_object json (txt "arg").
Definition arg_field (json : text) (key : string) : text :=
  match arg_of json with [] => [] | arg => extract_sv_string arg (txt key) end.
Definition symbol_of (json : text) : text := arg_field json "symbol" // extract_sv_string json (txt "symbol").
Definition topic_of (json : text) : text := arg_field json "topic".
Definition is_topic (topic : text) (s : string) : bool := bool_decide (topic = []) || bool_decide (topic = txt s).
Definition parse_trade (now : time_point) (json : text) : option tick :=
  if negb (is_topic (topic_of json) "publicTrade") then None else
  parse_trade_object now (first_data_object json // json) (symbol_of json).
Definition parse_all_trades (now : time_point) (json : text) : list tick :=
  if bool_decide (symbol_of json = []) || negb (is_topic (topic_of json) "publicTrade") then [] else
  omap (λ obj, parse_trade_object now obj (symbol_of json)) (for_each_array_object (extract_array json (txt "data"))).
Definition tick_to_record (t : tick) : tick_record :=
  {| tk_timestamp := ti_timestamp t; tk_symbol := ti_symbol t; tk_price := ti_price t; tk_quantity := ti_quantity t;
     tk_side := if ti_side t =? 0 then dts_bid else if ti_side t =? 1 then dts_ask else dts_unknown |}.
Definition parse_trade_record (now : time_point) (json : text) : option tick_record := tick_to_record <$> parse_trade now json.
Definition parse_all_trade_records (now : time_point) (json : text) : list tick_record :=
  match tick_to_record <$> parse_all_trades now json with [] => option_list (parse_trade_record now json) | l => l end.

(** [append_levels]: the array is taken out of the message first. *)
Definition bg_blank : list ascii := [" "; ","; "010"; "013"; "009"]%char.
Fixpoint bg_levels (fuel : nat) (s : text) : list l2_level :=
  match fuel with
  | O => []
  | S fuel =>
      match skip_chars bg_blank s with
      | c :: s =>
          if bool_decide (c ≠ "["%char) then [] else
          match quoted (skip_ws s) with
          | None => []
          | Some (price_sv, s) =>
              match quoted (skip_chars [","; " "; "009"]%char s) with
              | None => []
              | Some (qty_sv, s) =>
                  match parse_double_sv price_sv, parse_double_sv qty_sv with
                  | Some price, Some qty =>
                      {| ll_price := price; ll_quantity := scale_qty qty |} :: bg_levels fuel (drop 1 (span_until ["]"%char] s).2)
                  | _, _ => []
                  end
              end
          end
      | [] => []
      end
  end.
Definition bg_append_levels (json : text) (key : string) : list l2_level :=
  let arr := extract_array json (txt key) in if (length arr <? 2)%nat then [] else bg_levels (length arr) (drop 1 arr).
Definition bg_side (body : text) (short long : string) : list l2_level :=
  match bg_append_levels body short with [] => bg_append_levels body long | l => l end.
(** Snapshots only: the limited books may leave the action out, the full book may not. *)
Definition books_gate (topic action : text) : bool :=
  bool_decide (topic = []) ||
  (if is_one_of topic ["books5"; "books1"; "books50"] then is_topic action "snapshot"
   else bool_decide (topic = txt "books") && bool_decide (action = txt "snapshot")).
Definition parse_books5 (now : time_point) (json : text) : option l2_snapshot :=
  if bool_decide (symbol_of json = []) || negb (books_gate (topic_of json) (extract_sv_string json (txt "action"))) then None else
  let body := first_data_object json // json in
  let ts := extract_sv_number body (txt "ts") // extract_sv_number json (txt "ts") in
  match bg_side body "b" "bids", bg_side body "a" "asks" with
  | [], [] => None
  | bids, asks => Some {| sn_timestamp := default now (parse_ts_ms ts); sn_symbol := str (symbol_of json); sn_bids := bids; sn_asks := asks |}
  end.

(** Long keys overwrite, the short form counts when nothing was seen; a volume has three names. *)
Definition pick_volume (fs : list (text * text)) : text :=
  foldl (λ acc kv, if named "volume" kv.1 then kv.2
                   else if (named "vol" kv.1 || named "v" kv.1) && bool_decide (acc = []) then kv.2 else acc) [] fs.
Definition bg_parse_kline (json : text) : option bar_record :=
  if bool_decide (symbol_of json = []) || negb (is_topic (topic_of json) "kline") then None else
  let fs := for_each_flat_field (first_data_object json // json) in
  let open_sv := pick "open" "o" fs in
  let high_sv := pick "high" "h" fs in
  let low_sv := pick "low" "l" fs in
  let close_sv := pick "close" "c" fs in
  if bool_decide (open_sv = []) || bool_decide (high_sv = []) || bool_decide (low_sv = []) || bool_decide (close_sv = []) then None else
  open ← parse_double_sv open_sv; high ← parse_double_sv high_sv; low ← parse_double_sv low_sv; close ← parse_double_sv close_sv;
  let vol_sv := pick_volume fs in
  Some {| br_date := str (pick "start" "t" fs // arg_field json "interval"); br_symbol := str (symbol_of json); br_open := open;
          br_high := high; br_low := low; br_close := close;
          br_volume := match (if bool_decide (vol_sv = []) then None else parse_double_sv vol_sv) with Some v => scale_qty v | None => 0 end |}.
Definition extract_kline_confirm (json : text) : option bool :=
  match extract_sv_optional_bool (first_data_object json // json) (txt "confirm") with
  | Some b => Some b
  | None => extract_sv_optional_bool json (txt "confirm")
  end.

(** ** kline_closed_gate *)

Definition kline_closed_gate : Type := option bar_record.
Definition gate_on_bar (b : bar_record) (confirm : option bool) (g : kline_closed_gate) : option bar_record * kline_closed_gate :=
  match confirm with
  | Some false => (None, Some b)
  | Some true => (Some b, None)
  | None =>
      match g with
      | None => (None, Some b)
      | Some p => if bool_decide (br_date b = br_date p) then (None, Some b) else (Some p, Some b)
      end
  end.
Definition gate_reset : kline_closed_gate := None.
Definition gated_kline_bar (g : kline_closed_gate) (json : text) : option bar_record * kline_closed_gate :=
  match bg_parse_kline json with None => (None, g) | Some b => gate_on_bar b (extract_kline_confirm json) g end.

Definition parse_ws_message (now : time_point) (json : text) : option provider_event :=
  let topic := topic_of json in
  if bool_decide (topic = txt "publicTrade") then pv_tick <$> parse_trade now json
  else if is_one_of topic ["books5"; "books1"; "books50"; "books"] then pv_snapshot <$> parse_books5 now json
  else if bool_decide (topic = txt "kline") then pv_bar <$> bg_parse_kline json
  else if bool_decide (topic = []) then
    match parse_trade now json with
    | Some t => Some (pv_tick t)
    | None => match parse_books5 now json with Some s => Some (pv_snapshot s) | None => pv_bar <$> bg_parse_kline json end
    end
  else None.
(** The combined parser: every trade of a batch, and only closed candles. *)
Definition parse_records (now : time_point) (line : text) (g : kline_closed_gate) : list provider_event * kline_closed_gate :=
  let topic := topic_of line in
  let ticks := if is_topic topic "publicTrade" then parse_all_trades now line else [] in
  match ticks with
  | _ :: _ => (pv_tick <$> ticks, g)
  | [] =>
      if bool_decide (topic = txt "kline") then let '(closed, g) := gated_kline_bar g line in (option_list (pv_bar <$> closed), g) else
      match (if bool_decide (topic = []) then bg_parse_kline line else None) with
      | Some raw => let '(closed, g) := gate_on_bar raw (extract_kline_confirm line) g in (option_list (pv_bar <$> closed), g)
      | None => (option_list (parse_ws_message now line), g)
      end
  end.

(** ** Business codes *)

Definition http_ok (status : Z) : bool := (200 <=? status) && (status <? 300).
Definition extract_business_code (body : text) : text := extract_sv_string body (txt "code") // extract_sv_number body (txt "code").
Definition is_business_success (status : Z) (body : text) : bool :=
  http_ok status && bool_decide (extract_business_code body = txt "00000").

(** ** The private stream *)

Definition first_sv (obj : text) (key : string) : text := extract_sv_string obj (txt key) // extract_sv_number obj (txt key).
Definition map_order_side (side : text) : order_side := if is_one_of side ["sell"; "SELL"; "Sell"] then side_sell else side_buy.
Definition classify_order_status (status : text) : exec_kind :=
  if is_one_of status ["new"; "live"; "init"] then k_ack
  else if bool_decide (status = txt "partially_filled") then k_partial_fill
  else if bool_decide (status = txt "filled") then k_full_fill
  else if is_one_of status ["cancelled"; "canceled"] then k_canceled
  else if bool_decide (status = txt "rejected") then k_rejected else k_other.
(** The commission and its asset. *)
Definition extract_fee (obj : text) : double * string :=
  match extract_array obj (txt "feeDetail") with
  | [] => let fee := first_sv obj "fee" in
          ((if bool_decide (fee = []) then d_zero else d_abs (to_double_or_zero fee)), str (extract_sv_string obj (txt "feeCoin")))
  | arr => match for_each_array_object arr with
           | o :: _ => (d_abs (to_double_or_zero (first_sv o "fee")), str (extract_sv_string o (txt "feeCoin")))
           | [] => (d_zero, "")
           end
  end.
Definition ts_of (sv : text) : option time_point := if bool_decide (sv = []) then None else parse_ts_ms sv.
Definition parse_ts (obj wrapper : text) : time_point :=
  default 0 (head (omap ts_of [first_sv obj "execTime"; first_sv obj "updatedTime"; first_sv obj "createdTime";
                               first_sv obj "ts" // first_sv wrapper "ts"])).
Definition exec_object (raw : text) : text := first_data_object raw // extract_object raw (txt "data").
Definition order_id_of (obj : text) : text := first_sv obj "orderId".
Definition bg_report (raw obj topic : text) : parsed_exec :=
  let base k qty price cum err :=
    {| pe_kind := k; pe_client_order_id := str (extract_sv_string obj (txt "clientOid")); pe_exchange_order_id := str (order_id_of obj);
       pe_symbol := str (extract_sv_string obj (txt "symbol")); pe_side := map_order_side (extract_sv_string obj (txt "side"));
       pe_last_fill_qty := qty; pe_last_fill_price := price; pe_cumulative_qty := cum; pe_commission := (extract_fee obj).1;
       pe_commission_asset := (extract_fee obj).2; pe_ts := parse_ts obj raw; pe_error := err |} in
  let is_fill := is_one_of topic ["fill"; "fast-fill"] || bool_decide (first_sv obj "execQty" ≠ []) in
  if is_fill && bool_decide (topic ≠ txt "order") then
    base k_partial_fill (to_double_or_zero (first_sv obj "execQty")) (to_double_or_zero (first_sv obj "execPrice"))
      (to_double_or_zero (first_sv obj "cumExecQty")) ""
  else
    let k := classify_order_status (extract_sv_string obj (txt "orderStatus")) in
    let k := if bool_decide (k = k_partial_fill) || bool_decide (k = k_full_fill) then k_other else k in
    let err := if bool_decide (k = k_rejected) || bool_decide (k = k_canceled)
               then str (extract_sv_string obj (txt "cancelReason") // extract_sv_string obj (txt "msg") // extract_sv_string obj (txt "error"))
               else "" in
    base k d_zero d_zero (to_double_or_zero (first_sv obj "cumExecQty")) err.
Definition bg_parse (raw : string) : option parsed_exec :=
  let raw := txt raw in
  let topic := topic_of raw in
  if negb (bool_decide (topic = []) || is_one_of topic ["order"; "fill"; "fast-fill"]) then None else
  let obj := exec_object raw in
  if bool_decide (obj = []) then None else
  if bool_decide (extract_sv_string obj (txt "clientOid") = []) && bool_decide (order_id_of obj = []) then None else
  if bool_decide (topic = []) && bool_decide (extract_sv_string obj (txt "orderStatus") = []) && bool_decide (first_sv obj "execQty" = []) then None else
  Some (bg_report raw obj topic).

(** Positions and balances *)

Definition is_short_side (s : text) : bool := is_one_of s ["short"; "SHORT"; "sell"; "SELL"].
Definition is_long_side (s : text) : bool := is_one_of s ["long"; "LONG"; "buy"; "BUY"].
Definition signed_position_qty (size_sv pos_side : text) : double :=
  let size := to_double_or_zero size_sv in
  if is_short_side pos_side then d_opp (d_abs size) else if is_long_side pos_side then d_abs size else size.
Definition canonical_margin_mode (mode : text) : text :=
  match mode with
  | [] => []
  | c :: _ => if bool_decide (lower c = "c"%char) then txt "CROSSED" else if bool_decide (lower c = "i"%char) then txt "ISOLATED" else mode
  end.
Definition bg_pos_side (obj : text) : text := extract_sv_string obj (txt "posSide") // extract_sv_string obj (txt "holdSide").
Definition bg_position_row (obj : text) : position_row :=
  {| row_symbol := str (extract_sv_string obj (txt "symbol"));
     row_qty := signed_position_qty (first_sv obj "size" // first_sv obj "total") (bg_pos_side obj);
     row_margin_type := str (canonical_margin_mode (extract_sv_string obj (txt "marginMode") // extract_sv_string obj (txt "marginType")));
     row_position_side := str (bg_pos_side obj) |}.
Definition looks_like_position (obj : text) : bool :=
  bool_decide (obj ≠ []) && bool_decide (extract_sv_string obj (txt "orderStatus") = []) && bool_decide (first_sv obj "execQty" = []) &&
  (bool_decide (bg_pos_side obj ≠ []) || bool_decide (first_sv obj "size" ≠ []) || bool_decide (first_sv obj "total" ≠ [])).
Definition looks_like_account (obj : text) : bool :=
  bool_decide (obj ≠ []) &&
  (bool_decide (extract_sv_string obj (txt "coin") ≠ []) || bool_decide (extract_sv_string obj (txt "asset") ≠ []) ||
   bool_decide (first_sv obj "available" ≠ []) || bool_decide (first_sv obj "equity" ≠ [])).
Definition classify_account_reason (obj : text) : snapshot_reason :=
  let t := extract_sv_string obj (txt "bizType") // extract_sv_string obj (txt "type") // extract_sv_string obj (txt "changeType") in
  if existsb (λ s, contains (txt s) t) ["fund"; "Fund"; "FUND"] then sr_funding_fee
  else if existsb (λ s, contains (txt s) t) ["liq"; "Liq"] then sr_liquidation else sr_other.
Definition bg_balance_row (obj : text) : balance_row :=
  {| row_asset := str (extract_sv_string obj (txt "coin") // extract_sv_string obj (txt "asset"));
     row_wallet_balance := to_double_or_zero (first_sv obj "available" // first_sv obj "equity" // first_sv obj "walletBalance" // first_sv obj "balance");
     row_balance_change := to_double_or_zero (first_sv obj "balanceChange" // first_sv obj "change" // first_sv obj "delta") |}.
(** A row without an asset counts when an amount differs from zero. *)
Definition counts (b : balance_row) : bool :=
  bool_decide (row_asset b ≠ "") || negb (d_eq (row_wallet_balance b) d_zero) || negb (d_eq (row_balance_change b) d_zero).
Definition account_snapshot (raw : text) : option parsed_position_snapshot :=
  let '(r, ts, rows) :=
    match extract_array raw (txt "data") with
    | [] => let body := extract_object raw (txt "data") // raw in (classify_account_reason body, parse_ts body raw, [body])
    | arr =>
        let objs := for_each_array_object arr in
        (foldl (λ r o, match r with sr_other => classify_account_reason o | _ => r end) sr_other objs,
         default 0 (ts_of (first_sv raw "ts")), objs)
    end in
  match List.filter counts (bg_balance_row <$> rows) with
  | [] => None
  | balances => Some {| ps_reason := r; ps_ts := ts; ps_positions := []; ps_balances := balances |}
  end.
Definition bg_parse_snapshot (raw : string) : option parsed_position_snapshot :=
  let raw := txt raw in
  let topic := topic_of raw in
  let position := bool_decide (topic = txt "position") in
  let reason := if position then sr_other else sr_unknown in
  let snapshot ts rows := {| ps_reason := reason; ps_ts := ts;
    ps_positions := filter (λ r, row_symbol r ≠ "") (bg_position_row <$> rows); ps_balances := [] |} in
  if bool_decide (topic = txt "account") then account_snapshot raw else
  if negb (is_topic topic "position") then None else
  match extract_array raw (txt "data") with
  | [] =>
      let body := extract_object raw (txt "data") // (if position || looks_like_position raw then raw else []) in
      if bool_decide (body = []) || (negb position && negb (looks_like_position body)) then None else
      let s := snapshot (parse_ts body raw) [body] in
      if position || bool_decide (ps_positions s ≠ []) then Some s else None
  | arr =>
      let objs := for_each_array_object arr in
      let first := default [] (head objs) in
      if negb position && negb (looks_like_position first) && negb (looks_like_account first) then None
      else Some (snapshot (default 0 (ts_of (extract_sv_number raw (txt "ts") // extract_sv_string raw (txt "ts")))) objs)
  end.
