(* ===== verification/VenueTheorems.v ===== *)
(** * What the parsers of the venues promise

    Execution reports of both Binance streams come out as they were printed, and the gate in
    front of Bitget's candles lets a candle through once, when it is over. *)

From Stdlib Require Import Ascii.
From S2P Require Import Prelude Float64 Event Bridge JsonScan JsonTheorems BinanceParsers BitgetParsers.

Open Scope string_scope.
Open Scope list_scope.
Open Scope Z_scope.

(** ** Execution reports *)

Lemma txt_str t : txt (str t) = t.
Proof. apply String.list_ascii_of_string_of_list_ascii. Qed.

(** The report whose fields are [fs], stamped with the time of the message's fields [env]. *)
Definition report_of (env fs : list (text * jval)) : parsed_exec :=
  let get k := quoted_field (txt k) fs in
  let k := classify (get "x") (get "X") in
  {| pe_kind := k; pe_client_order_id := str (get "c"); pe_exchange_order_id := str (any_field (txt "i") fs); pe_symbol := str (get "s");
     pe_side := if bool_decide (get "S" = txt "SELL") then side_sell else side_buy; pe_last_fill_qty := to_double (get "l");
     pe_last_fill_price := to_double (get "L"); pe_cumulative_qty := to_double (get "z"); pe_commission := to_double (get "n");
     pe_commission_asset := str (get "N");
     pe_ts := match any_field (txt "E") env with [] => 0 | n => ms_to_tp (strtoll n) end;
     pe_error := if bool_decide (k = k_rejected) then str (get "r") else "" |}.

(** A text in which the extractors find the fields [fs]. *)
Definition reads (t : text) (fs : list (text * jval)) : Prop :=
  ∀ key, clean_key key → key ≠ txt "o" → extract_sv_string t key = quoted_field key fs ∧ extract_sv_number t key = any_field key fs.
Lemma quoted_any key fs : any_field key fs = [] → quoted_field key fs = [].
Proof. unfold any_field, quoted_field. by destruct (field key fs) as [[t|t]|]. Qed.
Lemma exec_of_reads json inner env fs : reads inner fs → extract_sv_number json (txt "E") = any_field (txt "E") env →
  exec_of json inner = report_of env fs.
Proof.
  intros H HE. assert (∀ k, bool_decide (clean_key (txt k) ∧ txt k ≠ txt "o") = true →
    extract_sv_string inner (txt k) = quoted_field (txt k) fs ∧ extract_sv_number inner (txt k) = any_field (txt k) fs) as R.
  { intros k Hk. apply bool_decide_eq_true in Hk as [? ?]. by apply H. }
  unfold exec_of, report_of, event_time, take_id. rewrite HE.
  rewrite !(proj1 (R "x" eq_refl)), !(proj1 (R "X" eq_refl)), !(proj1 (R "c" eq_refl)), !(proj1 (R "s" eq_refl)), !(proj1 (R "S" eq_refl)),
    !(proj1 (R "l" eq_refl)), !(proj1 (R "L" eq_refl)), !(proj1 (R "z" eq_refl)), !(proj1 (R "n" eq_refl)), !(proj1 (R "N" eq_refl)),
    !(proj1 (R "r" eq_refl)), !(proj1 (R "i" eq_refl)), !(proj2 (R "i" eq_refl)).
  assert (match any_field (txt "i") fs with [] => quoted_field (txt "i") fs | n => n end = any_field (txt "i") fs) as ->; [|done].
  destruct (any_field (txt "i") fs) eqn:E; [by apply quoted_any|done].
Qed.

(** The report inside an object [o]. *)
Definition print_wrapped (env fs : list (text * jval)) : text := print_object (env ++ [(txt "o", j_tok (print_object fs))]).
Lemma find_from_needle p q s r r' : find_after p s = Some r → strip_prefix q r = Some r' → find_from (p ++ q) s = Some (p ++ r).
Proof.
  intros H Hq. assert (∀ s, strip_prefix (p ++ q) s = strip_prefix p s ≫= strip_prefix q) as Happ.
  { clear. induction p as [|a p IH]; intros [|b s]; cbn; try done. case_bool_decide; [apply IH|done]. }
  induction s as [|c s IH].
  - cbn in H. cbn [find_from]. rewrite Happ. destruct (strip_prefix p []) eqn:E; [|done]. injection H as ->. cbn. rewrite Hq.
    apply strip_prefix_spec in E. by rewrite <-E.
  - cbn [find_after] in H. cbn [find_from]. rewrite Happ. destruct (strip_prefix p (c :: s)) eqn:E; cbn; [|by apply IH].
    injection H as ->. rewrite Hq. apply strip_prefix_spec in E. by rewrite <-E.
Qed.
Lemma find_key_after json key r : find_key json key = Some r → find_after (key_needle key) json = Some r.
Proof. unfold find_key. by destruct (_ || _). Qed.
Lemma wrapped_found env fs : Forall clean env → txt "o" ∉ env.*1 →
  find_from (open_object "o") (print_wrapped env fs) = Some (key_needle (txt "o") ++ "{"%char :: print_fields fs ++ txt "}}").
Proof.
  intros Hc Ho. unfold open_object. eapply find_from_needle; [|by cbn].
  apply find_key_after. unfold print_wrapped, print_object. change ("{"%char :: ?x ++ ["}"%char]) with (["{"%char] ++ x ++ ["}"%char]).
  rewrite find_key_print; [|vm_compute; set_solver|by apply (bool_decide_unpack _); vm_compute|done|done].
  cbn. by rewrite <-app_assoc.
Qed.
Lemma wrapped_reads fs : Forall clean fs → reads (key_needle (txt "o") ++ "{"%char :: print_fields fs ++ txt "}}") fs.
Proof.
  intros Hc key Hk Hne.
  assert (find_key (key_needle (txt "o") ++ "{"%char :: print_fields fs ++ txt "}}") key
        = find_key (["{"%char] ++ print_fields fs ++ "}"%char :: txt "}") key) as E.
  { unfold find_key. destruct (_ || _); [done|]. cbn [key_needle txt String.list_ascii_of_string app].
    rewrite find_skip by (apply (needle_miss key (txt "o")); [apply Hk|vm_compute; set_solver|by left]).
    rewrite find_skip_char by done. rewrite find_skip by (apply needle_miss_head; [done|set_solver]). by rewrite find_skip_char by done. }
  unfold extract_sv_string, extract_sv_number. rewrite E. apply (extract_print ["{"%char] fs (txt "}") key); [vm_compute; set_solver..|done|done].
Qed.

(** C18: An execution report survives the trip: for every set of fields the venue prints compactly, the
    spot parser gives the report those fields describe, the futures parser gives the report of the
    fields inside the wrapper's object stamped with the wrapper's time, whatever other fields
    either holds and whether or not the inner object has keys of the wrapper; a message of another
    type gives none. *)
Theorem reports_roundtrip env fs : Forall clean env → Forall clean fs → txt "o" ∉ env.*1 →
  spot_parse (str (print_object env)) =
    (if bool_decide (quoted_field (txt "e") env = txt "executionReport") then Some (report_of env env) else None) ∧
  (field (txt "e") env ≠ None → field (txt "E") env ≠ None →
   futures_parse (str (print_wrapped env fs)) =
    (if bool_decide (quoted_field (txt "e") env = txt "ORDER_TRADE_UPDATE") then Some (report_of env fs) else None)).
Proof.
  intros Henv Hfs Ho. assert (∀ key, clean_key key → extract_sv_string (print_object env) key = quoted_field key env ∧
    extract_sv_number (print_object env) key = any_field key env) as R.
  { intros key Hk. apply (extract_print ["{"%char] env [] key); [vm_compute; set_solver|set_solver|done|done]. }
  assert (clean_key (txt "e") ∧ clean_key (txt "E")) as [Ke KE] by (split; apply (bool_decide_unpack _); by vm_compute).
  split.
  - unfold spot_parse. rewrite txt_str. rewrite (proj1 (R _ Ke)). case_bool_decide; case_bool_decide; try done.
    f_equal. apply exec_of_reads; [|by apply R]. intros key Hk _. by apply R.
  - intros He HE. unfold futures_parse. rewrite txt_str.
    assert (∀ key v, clean_key key → field key env = Some v →
      extract_sv_string (print_wrapped env fs) key = quoted_field key env ∧ extract_sv_number (print_wrapped env fs) key = any_field key env) as RW.
    { intros key v Hk E. unfold quoted_field, any_field. rewrite E. pose proof (field_split key env) as H. rewrite E in H.
      destruct H as (fs1 & fs2 & -> & H). apply Forall_app in Henv as [H1 H2]. apply Forall_cons in H2 as [[_ Hv] _].
      unfold print_wrapped. rewrite <-app_assoc. assert (c_quote ∉ ["{"%char]) as Hpre by (vm_compute; set_solver).
      pose proof (λ fs2', extract_string_print ["{"%char] fs1 key v fs2' [] Hpre Hk H1 H Hv) as HS.
      split; [etransitivity; [apply HS|by destruct v]|exact (extract_number_print ["{"%char] fs1 key v _ [] Hpre Hk H1 H Hv)]. }
    destruct (field (txt "e") env) as [ve|] eqn:Ee; [|done]. destruct (field (txt "E") env) as [vE|] eqn:EE; [|done].
    rewrite (proj1 (RW _ _ Ke Ee)). case_bool_decide; case_bool_decide; try done.
    rewrite wrapped_found by done. cbn [mbind option_bind]. f_equal. apply exec_of_reads; [by apply wrapped_reads|]. by eapply RW.
Qed.
Definition sample_env : list (text * jval) := [(txt "e", j_str (txt "ORDER_TRADE_UPDATE")); (txt "E", j_tok (txt "1568"))].
Definition sample_report : list (text * jval) :=
  [(txt "s", j_str (txt "BTC")); (txt "c", j_str (txt "tt-7")); (txt "S", j_str (txt "SELL")); (txt "o", j_str (txt "MARKET"));
   (txt "x", j_str (txt "TRADE")); (txt "X", j_str (txt "FILLED")); (txt "i", j_tok (txt "88"))].
Lemma reports_roundtrip_witness :
  futures_parse (str (print_wrapped sample_env sample_report)) = Some (report_of sample_env sample_report) ∧
  pe_kind (report_of sample_env sample_report) = k_full_fill ∧ pe_exchange_order_id (report_of sample_env sample_report) = "88" ∧
  spot_parse (str (print_object sample_env)) = None.
Proof.
  destruct (reports_roundtrip sample_env sample_report) as [H1 H2];
    [by apply (bool_decide_unpack _); vm_compute..|by apply (bool_decide_unpack _); vm_compute|].
  split_and!; [by rewrite H2|by vm_compute|by vm_compute|by rewrite H1].
Defined.

(** ** Closed candles *)

Fixpoint gate_run (g : kline_closed_gate) (l : list (bar_record * option bool)) : list bar_record * kline_closed_gate :=
  match l with
  | [] => ([], g)
  | (b, c) :: l => let '(o, g) := gate_on_bar b c g in let '(os, g) := gate_run g l in (option_list o ++ os, g)
  end.
(** A candle: its updates before the last, the last, all of one date. *)
Record candle := { cd_updates : list bar_record; cd_final : bar_record }.
Definition one_date (c : candle) : Prop := Forall (λ b, br_date b = br_date (cd_final c)) (cd_updates c).
Definition candle_date (c : candle) : string := br_date (cd_final c).
Definition unmarked (c : candle) : list (bar_record * option bool) := (λ b, (b, None)) <$> (cd_updates c ++ [cd_final c]).
Definition marked (c : candle) : list (bar_record * option bool) := ((λ b, (b, Some false)) <$> cd_updates c) ++ [(cd_final c, Some true)].
Fixpoint successive (d : option string) (l : list candle) : Prop :=
  match l with [] => True | c :: l => d ≠ Some (candle_date c) ∧ one_date c ∧ successive (Some (candle_date c)) l end.

Lemma gate_run_app g l l' : gate_run g (l ++ l') =
  let '(o, g) := gate_run g l in let '(o', g) := gate_run g l' in (o ++ o', g).
Proof.
  revert g. induction l as [|[b c] l IH]; intros g; cbn; [by destruct (gate_run g l')|].
  destruct (gate_on_bar b c g) as [o g1]. rewrite IH. destruct (gate_run g1 l) as [os g2]. destruct (gate_run g2 l') as [o' g3].
  by rewrite app_assoc.
Qed.
Lemma same_candle p l f : br_date p = br_date f → Forall (λ b, br_date b = br_date f) l →
  gate_run (Some p) ((λ b, (b, None)) <$> (l ++ [f])) = ([], Some f).
Proof.
  intros Hp H. revert p Hp. induction H as [|b l Hb _ IH]; intros p Hp; cbn.
  - by rewrite bool_decide_true.
  - rewrite bool_decide_true by congruence. by rewrite IH.
Qed.
Lemma next_candle g c : one_date c → (br_date <$> g) ≠ Some (candle_date c) → gate_run g (unmarked c) = (option_list g, Some (cd_final c)).
Proof.
  unfold one_date, unmarked, candle_date. destruct c as [[|b l] f]; cbn [cd_updates cd_final app]; intros H Hg.
  - destruct g as [p|]; cbn; [|done]. rewrite bool_decide_false by (cbn in Hg; congruence). done.
  - inversion H; subst. cbn [fmap list_fmap gate_run gate_on_bar].
    destruct g as [p|]; [rewrite bool_decide_false by (cbn in Hg; congruence)|]; rewrite same_candle by done; done.
Qed.
Lemma buffered g l : (gate_run g ((λ b, (b, Some false)) <$> l)).1 = [].
Proof. revert g. induction l as [|b l IH]; intros g; cbn; [done|]. specialize (IH (Some b)). by destruct (gate_run _ _). Qed.

(** C26: Only closed candles leave the gate, each of them once and in order.  For any sequence of
    candles, every one with any number of updates and its date different from the one before: when
    the venue does not mark the last update, every candle but the one still open has come out as
    it last stood, and that one is held; when the venue marks it, every candle has come out as it
    stood at its mark, and none is held back. *)
Theorem gate_emits_closed cs c : successive None (cs ++ [c]) →
  gate_run gate_reset ((cs ++ [c]) ≫= unmarked) = (cd_final <$> cs, Some (cd_final c)) ∧
  gate_run gate_reset ((cs ++ [c]) ≫= marked) = (cd_final <$> (cs ++ [c]), None).
Proof.
  intros H. unfold gate_reset. split.
  - assert (∀ g, successive (br_date <$> g) (cs ++ [c]) →
      gate_run g ((cs ++ [c]) ≫= unmarked) = (option_list g ++ (cd_final <$> cs), Some (cd_final c))) as Hrun; [|by apply (Hrun None)].
    clear H. induction cs as [|x cs IH]; intros g (Hg & Hd & Hs); cbn [app mbind list_bind fmap list_fmap] in *.
    + rewrite app_nil_r. rewrite next_candle by done. by rewrite app_nil_r.
    + rewrite gate_run_app, next_candle by done. rewrite (IH (Some (cd_final x))) by done. done.
  - clear H. induction (cs ++ [c]) as [|x l IH]; [done|]. cbn [mbind list_bind fmap list_fmap]. rewrite gate_run_app.
    unfold marked at 1. rewrite gate_run_app. pose proof (buffered None (cd_updates x)) as Hb.
    destruct (gate_run None (_ <$> cd_updates x)) as [o g]. cbn in Hb. subst. cbn. by rewrite IH.
Qed.
Definition sample_bar (d : string) (v : Z) : bar_record :=
  {| br_date := d; br_symbol := "BTC"; br_open := d_zero; br_high := d_zero; br_low := d_zero; br_close := d_zero; br_volume := v |}.
Lemma gate_emits_closed_witness :
  gate_run gate_reset [(sample_bar "1" 1, None); (sample_bar "1" 2, None); (sample_bar "2" 3, None)] = ([sample_bar "1" 2], Some (sample_bar "2" 3)).
Proof.
  destruct (gate_emits_closed [{| cd_updates := [sample_bar "1" 1]; cd_final := sample_bar "1" 2 |}] {| cd_updates := []; cd_final := sample_bar "2" 3 |})
    as [H _]; [|exact H]. cbn. split_and!; try done; repeat constructor.
Defined.

(** The private stream's parser reads one report of a frame: the second fill of a batch is lost. *)
Fixpoint print_objects (os : list (list (text * jval))) : text :=
  match os with [] => [] | [o] => print_object o | o :: os => print_object o ++ ","%char :: print_objects os end.
Definition print_batch (topic : string) (os : list (list (text * jval))) : text :=
  print_object [(txt "arg", j_tok (print_object [(txt "topic", j_str (txt topic))]));
                (txt "data", j_tok ("["%char :: print_objects os ++ ["]"%char]))].
Definition sample_fill (id qty : string) : list (text * jval) :=
  [(txt "orderId", j_str (txt id)); (txt "clientOid", j_str (txt "tt-1")); (txt "execQty", j_str (txt qty))].
Lemma second_fill_lost :
  bg_parse (str (print_batch "fill" [sample_fill "1" "2"; sample_fill "1" "5"])) = bg_parse (str (print_batch "fill" [sample_fill "1" "2"])) ∧
  (pe_last_fill_qty <$> bg_parse (str (print_batch "fill" [sample_fill "1" "2"; sample_fill "1" "5"]))) = Some (d_of_Z 2).
Proof. by vm_compute. Qed.
