(* ===== verification/LiveSafety.v ===== *)
(** * The live-safety surface: kill switches, reconcilers, dead man's switches, advisories and
    the watchdog (src/src/providers/binance, src/src/providers/bitget, threading/worker_watchdog.h)

    The venue is a world [W] that answers REST calls and has a clock; a call may change it and
    takes time.  A refusal of a reconciler and an advisory are their reason and the numbers
    they print; the text around them is not modelled.  Threads are their loop bodies: a turn of
    a heartbeat loop takes what its waits and posts found. *)

From Stdlib Require Import Ascii.
From S2P Require Import Prelude Float64 JsonScan BinanceParsers BitgetParsers.

Open Scope string_scope.
Open Scope list_scope.
Open Scope Z_scope.

(** ** Requests *)

Inductive verb := GET | POST | DELETE.
#[global] Instance verb_eq : EqDecision verb.
Proof. solve_decision. Defined.
Record request := { rq_verb : verb; rq_endpoint : string; rq_params : text }.
Record response := { rs_status : Z; rs_body : text }.
(** [v_client]: there is a REST client; [v_wired]: an adapter built on callables got the one of a
    verb. *)
Class Venue (W : Type) := {
  v_client : bool;
  v_wired : verb → bool;
  v_call : request → W → response * W;
  v_now : W → Z;
  v_timeout : W → Z;
  v_set_timeout : Z → W → W }.

Definition hex_digit (n : nat) : ascii := ascii_of_nat (if (n <? 10)%nat then 48 + n else 87 + n).
Definition unreserved (c : ascii) : bool :=
  let n := nat_of_ascii c in
  ((48 <=? n) && (n <=? 57) || (65 <=? n) && (n <=? 90) || (97 <=? n) && (n <=? 122))%nat || one_of ["-"; "_"; "."; "~"]%char c.
Definition url_encode (t : text) : text :=
  mbind (λ c, if unreserved c then [c] else ["%"%char; hex_digit (nat_of_ascii c / 16); hex_digit (nat_of_ascii c mod 16)]) t.
Definition append_param (out : text) (key : string) (value : text) : text :=
  (match out with [] => [] | _ => out ++ ["&"%char] end) ++ txt key ++ "="%char :: url_encode value.
(** ["%.8f"]: the exact value rounded to eight decimals, ties to even. *)
Definition pad (n : nat) (z : Z) : text := let s := txt (pretty z) in replicate (n - length s) "0"%char ++ s.
Definition fixed8 (d : double) : text :=
  let dec (s : bool) (z : Z) := (if s then ["-"%char] else []) ++ txt (pretty (z / 100000000)) ++ "."%char :: pad 8 (z mod 100000000) in
  match d with
  | SpecFloat.S754_nan => txt "nan"
  | SpecFloat.S754_infinity s => txt (if s then "-inf" else "inf")
  | SpecFloat.S754_zero s => dec s 0
  | SpecFloat.S754_finite s m e => dec s (if 0 <=? e then Zpos m * 2 ^ e * 100000000 else div_half_even (Zpos m * 100000000) (2 ^ (- e)))
  end.
(** Printed into a buffer of 64 bytes, which holds 63 characters. *)
Definition format_qty (d : double) : text := take 63 (fixed8 d).
Definition d_dust : double := d_of_ratio 1 1000000000000.

(** ** Reading balances and positions *)

Definition extract_balance (json asset : text) : option (double * double) :=
  rest ← find_from (c_quote :: txt "asset" ++ [c_quote; ":"%char; c_quote] ++ asset ++ [c_quote]) json;
  free ← parse_double_sv (extract_sv_string rest (txt "free"));
  locked ← parse_double_sv (extract_sv_string rest (txt "locked"));
  Some (free, locked).
Definition extract_available_balance (json : text) : option double := parse_double_sv (extract_sv_string json (txt "availableBalance")).
Definition extract_position_amt (json : text) : option double := parse_double_sv (extract_sv_string json (txt "positionAmt")).

(** ** Kill switches *)

Section Kill.
Context {W : Type} `{Venue W}.
Definition call (v : verb) (endpoint : string) (params : text) (w : W) : response * W :=
  v_call {| rq_verb := v; rq_endpoint := endpoint; rq_params := params |} w.
(** Each call gets at most a third of the deadline. *)
Definition per_call_ms (deadline : Z) : Z := Z.min 1500 (Z.quot deadline 3).
Definition bound_calls (deadline : Z) (w : W) : W := if 0 <? per_call_ms deadline then v_set_timeout (per_call_ms deadline) w else w.
Definition cancelled_ok (r : response) : bool := http_ok (rs_status r) || contains (txt "-2011") (rs_body r).
Definition symbol_params (symbol : text) : text := txt "symbol=" ++ url_encode symbol.
(** The close order; the client id is what the minter gave, if there is one. *)
Definition close_params (symbol : text) (side : string) (reduce_only : bool) (qty : double) (minted : option text) : text :=
  let p := append_param [] "symbol" symbol in
  let p := append_param p "side" (txt side) in
  let p := append_param p "type" (txt "MARKET") in
  let p := if reduce_only then append_param p "reduceOnly" (txt "true") else p in
  let p := append_param p "quantity" (format_qty qty) in
  match minted with Some id => append_param p "newClientOrderId" id | None => p end.

Definition spot_flatten (symbol base_asset : text) (minted : option text) (expires : Z) (w : W) : bool * W :=
  let '(acct, w) := call GET "/api/v3/account" [] w in
  if negb (http_ok (rs_status acct)) then (false, w) else
  match extract_balance (rs_body acct) base_asset with
  | None => (true, w)
  | Some (free, locked) =>
      if d_lt free d_dust then (negb (d_lt d_dust locked), w) else
      if expires <=? v_now w then (false, w) else
      let '(sell, w) := call POST "/api/v3/order" (close_params symbol "SELL" false free minted) w in
      (http_ok (rs_status sell), w)
  end.
Definition spot_cancel_all_and_flatten (symbol base_asset : text) (minted : option text) (deadline : Z) (w : W) : bool * W :=
  if negb (v_client (W := W)) then (false, w) else
  let expires := v_now w + deadline in
  let '(resp, w) := call DELETE "/api/v3/openOrders" (symbol_params symbol) (bound_calls deadline w) in
  if negb (cancelled_ok resp) then (false, w) else
  if expires <=? v_now w then (false, w) else spot_flatten symbol base_asset minted expires w.

Definition futures_flatten (symbol : text) (minted : option text) (expires : Z) (w : W) : bool * W :=
  let '(pr, w) := call GET "/fapi/v2/positionRisk" (symbol_params symbol) w in
  if negb (http_ok (rs_status pr)) then (false, w) else
  match extract_position_amt (rs_body pr) with
  | None => (false, w)
  | Some amt =>
      if d_lt (d_abs amt) d_dust then (true, w) else
      if expires <=? v_now w then (false, w) else
      let side := if d_lt d_zero amt then "SELL" else "BUY" in
      let '(close, w) := call POST "/fapi/v1/order" (close_params symbol side true (d_abs amt) minted) w in
      (http_ok (rs_status close), w)
  end.
Definition futures_cancel_all_and_flatten (symbol : text) (minted : option text) (deadline : Z) (w : W) : bool * W :=
  if negb (v_client (W := W)) then (false, w) else
  let expires := v_now w + deadline in
  let '(resp, w) := call DELETE "/fapi/v1/allOpenOrders" (symbol_params symbol) (bound_calls deadline w) in
  if negb (cancelled_ok resp) then (false, w) else
  if expires <=? v_now w then (false, w) else futures_flatten symbol minted expires w.

Definition is_cancel_noop_code (code : text) : bool := is_one_of code ["25204"; "24056"; "22001"].
Definition is_close_noop_code (code : text) : bool := is_one_of code ["25227"; "24056"; "22002"; "25601"].
Definition answered_ok (noop : text → bool) (r : response) : bool :=
  http_ok (rs_status r) && (is_business_success (rs_status r) (rs_body r) || noop (extract_business_code (rs_body r))).
Definition make_body (category symbol : text) : text :=
  "{"%char :: c_quote :: txt "category" ++ [c_quote; ":"%char; c_quote] ++ category ++ [c_quote] ++
  (match symbol with [] => [] | _ => ","%char :: c_quote :: txt "symbol" ++ [c_quote; ":"%char; c_quote] ++ symbol ++ [c_quote] end) ++ ["}"%char].
(** The timeout is put back on every way out. *)
Definition bitget_cancel_all_and_flatten (category symbol : text) (deadline : Z) (w : W) : bool * W :=
  if negb (v_wired (W := W) POST) then (false, w) else
  let expires := v_now w + deadline in
  let prev := v_timeout w in
  let restore r := (r.1, if 0 <? per_call_ms deadline then v_set_timeout prev r.2 else r.2) in
  let '(resp, w) := call POST "/api/v3/trade/cancel-symbol-order" (make_body category symbol) (bound_calls deadline w) in
  restore
    (if negb (answered_ok is_cancel_noop_code resp) then (false, w) else
     if expires <=? v_now w then (false, w) else
     let '(resp, w) := call POST "/api/v3/trade/close-positions" (make_body category symbol) w in
     (answered_ok is_close_noop_code resp, w)).

(** ** Reconcilers: [None] passes *)

Inductive recon_error := re_no_client | re_http (endpoint : string) (status : Z) | re_missing (what : text) | re_cash_drift (local venue : double)
| re_position_drift (local venue : double).
Definition within_tolerance (a b tolerance_bps : double) : bool :=
  let bound := d_max (d_abs a) (d_abs b) in
  d_lt bound (d_of_ratio 1 100000000) || d_le (d_mul (d_div (d_abs (d_sub a b)) bound) (d_of_Z 10000)) tolerance_bps.
Definition looks_like_reset (venue local : double) : bool :=
  d_lt (d_abs venue) (d_of_ratio 1 1000000) && d_lt (d_of_ratio 1 1000000) (d_abs local).
(** The position is compared only when the local one is not zero. *)
Definition spot_position_check (base_asset body : text) (testnet : bool) (local_qty : option double) (tol : double) : option recon_error :=
  match local_qty with
  | Some q =>
      if d_lt d_dust (d_abs q) then
        match extract_balance body base_asset with
        | None => Some (re_missing base_asset)
        | Some (free, locked) =>
            let venue := d_add free locked in
            if within_tolerance q venue tol || (testnet && looks_like_reset venue q) then None else Some (re_position_drift q venue)
        end
      else None
  | None => None
  end.
Definition spot_reconcile (base_asset quote_asset : text) (testnet : bool) (local_cash : double) (local_qty : option double) (tol : double) (w : W)
    : option recon_error * W :=
  if negb (v_client (W := W)) then (Some re_no_client, w) else
  let '(resp, w) := call GET "/api/v3/account" [] w in
  (if negb (http_ok (rs_status resp)) then Some (re_http "/api/v3/account" (rs_status resp)) else
   match extract_balance (rs_body resp) quote_asset with
   | None => Some (re_missing quote_asset)
   | Some (free, locked) =>
       let venue := d_add free locked in
       if negb (within_tolerance local_cash venue tol)
       then if testnet && looks_like_reset venue local_cash then None else Some (re_cash_drift local_cash venue)
       else spot_position_check base_asset (rs_body resp) testnet local_qty tol
   end, w).

(** Cash, then the position, of a venue that reports both. *)
Definition compare_accounts (venue_cash venue_qty : option double) (local_cash : double) (local_qty : option double) (tol : double) : option recon_error :=
  match venue_cash with
  | None => Some (re_missing (txt "cash"))
  | Some vc =>
      if negb (within_tolerance local_cash vc tol) then Some (re_cash_drift local_cash vc) else
      match venue_qty with
      | None => Some (re_missing (txt "position"))
      | Some vq => let q := default d_zero local_qty in if within_tolerance q vq tol then None else Some (re_position_drift q vq)
      end
  end.
Definition futures_reconcile (symbol : text) (local_cash : double) (local_qty : option double) (tol : double) (w : W) : option recon_error * W :=
  if negb (v_client (W := W)) then (Some re_no_client, w) else
  let '(pos, w) := call GET "/fapi/v2/positionRisk" (symbol_params symbol) w in
  if negb (http_ok (rs_status pos)) then (Some (re_http "/fapi/v2/positionRisk" (rs_status pos)), w) else
  let '(acct, w) := call GET "/fapi/v2/account" [] w in
  if negb (http_ok (rs_status acct)) then (Some (re_http "/fapi/v2/account" (rs_status acct)), w) else
  (compare_accounts (extract_available_balance (rs_body acct)) (extract_position_amt (rs_body pos)) local_cash local_qty tol, w).

(** Bitget's balances and positions. *)
Definition parse_available_field (obj : text) : option double :=
  match first_sv obj "available" // first_sv obj "availableEquity" with [] => None | sv => parse_double_sv sv end.
Definition is_usdt (obj : text) : bool := is_one_of (extract_sv_string obj (txt "coin")) ["USDT"; "usdt"].
Definition extract_available_usdt (json : text) : option double :=
  match extract_array json (txt "assets") with
  | [] => if is_usdt json then parse_available_field json else None
  | arr => head (omap (λ o, if is_usdt o then parse_available_field o else None) (for_each_array_object arr))
  end.
Definition row_size (obj : text) : text := first_sv obj "total" // first_sv obj "size" // first_sv obj "available".
Definition parse_position_row (obj want : text) : option double :=
  let sym := extract_sv_string obj (txt "symbol") in
  if bool_decide (want ≠ []) && bool_decide (sym ≠ []) && bool_decide (sym ≠ want) then None else
  match row_size obj with
  | [] => Some d_zero
  | sv =>
      size ← parse_double_sv sv;
      let side := bg_pos_side obj in
      Some (if is_short_side side then d_opp (d_abs size) else if is_long_side side then d_abs size else size)
  end.
Definition row_matches (want obj : text) : bool :=
  let sym := extract_sv_string obj (txt "symbol") in bool_decide (want = []) || bool_decide (sym = []) || bool_decide (sym = want).
Definition bg_extract_position_amt (json want : text) : option double :=
  match extract_array json (txt "list") // extract_array json (txt "data") with
  | [] =>
      let o := extract_object json (txt "data") in
      if bool_decide (o = []) || (bool_decide (extract_sv_string o (txt "symbol") = []) && bool_decide (first_sv o "size" = []) && bool_decide (first_sv o "total" = []))
      then Some d_zero else parse_position_row o want
  | arr =>
      let rows := for_each_array_object arr in
      match List.filter (row_matches want) rows with
      | o :: _ => parse_position_row o []
      | [] => if bool_decide (rows ≠ []) && bool_decide (want ≠ []) then None else Some d_zero
      end
  end.
Definition http_business_error (endpoint : string) (r : response) : option recon_error :=
  if is_business_success (rs_status r) (rs_body r) then None else Some (re_http endpoint (rs_status r)).
Definition bitget_reconcile (symbol category : text) (local_cash : double) (local_qty : option double) (tol : double) (w : W) : option recon_error * W :=
  if negb (v_wired (W := W) GET) then (Some re_no_client, w) else
  let '(pos, w) := call GET "/api/v3/position/current-position" (txt "category=" ++ category ++ txt "&symbol=" ++ symbol) w in
  match http_business_error "current-position" pos with
  | Some e => (Some e, w)
  | None =>
      let '(acct, w) := call GET "/api/v3/account/assets" [] w in
      match http_business_error "account/assets" acct with
      | Some e => (Some e, w)
      | None => (compare_accounts (extract_available_usdt (rs_body acct)) (bg_extract_position_amt (rs_body pos) symbol) local_cash local_qty tol, w)
      end
  end.
End Kill.

(** ** Dead man's switches *)

(** What a turn of the heartbeat loop met: a stop seen after a wait, and the answers of the posts
    with the monotonic time after them. *)
Record beat := { bt_stopped : bool; bt_first : bool; bt_first_at : Z; bt_stopped_retry : bool; bt_second : bool; bt_second_at : Z }.
Record dms := { dm_running : bool; dm_last_beat : Z; dm_fails : Z; dm_close_attempted : bool; dm_closes : nat; dm_posts : list Z }.
Definition mk_dms : dms := {| dm_running := false; dm_last_beat := 0; dm_fails := 0; dm_close_attempted := false; dm_closes := 0; dm_posts := [] |}.
Definition posted (ms : Z) (d : dms) : dms :=
  {| dm_running := dm_running d; dm_last_beat := dm_last_beat d; dm_fails := dm_fails d; dm_close_attempted := dm_close_attempted d;
     dm_closes := dm_closes d; dm_posts := dm_posts d ++ [ms] |}.
Definition beaten (at_ms : Z) (d : dms) : dms :=
  {| dm_running := dm_running d; dm_last_beat := at_ms; dm_fails := 0; dm_close_attempted := false; dm_closes := dm_closes d; dm_posts := dm_posts d |}.
Definition running (b : bool) (d : dms) : dms :=
  {| dm_running := b; dm_last_beat := dm_last_beat d; dm_fails := dm_fails d; dm_close_attempted := dm_close_attempted d;
     dm_closes := dm_closes d; dm_posts := dm_posts d |}.
Definition missed (fails : Z) (attempted : bool) (closes : nat) (d : dms) : dms :=
  {| dm_running := dm_running d; dm_last_beat := dm_last_beat d; dm_fails := fails; dm_close_attempted := attempted;
     dm_closes := closes; dm_posts := dm_posts d |}.

(** [start]: refused unless the arm is confirmed. *)
Definition dms_start (countdown : Z) (armed : bool) (now : Z) (d : dms) : bool * dms :=
  if dm_running d then (true, d) else
  let d := posted countdown d in
  if armed then (true, running true (missed 0 (dm_close_attempted d) (dm_closes d)
    {| dm_running := dm_running d; dm_last_beat := now; dm_fails := dm_fails d; dm_close_attempted := dm_close_attempted d;
       dm_closes := dm_closes d; dm_posts := dm_posts d |})) else (false, d).
Definition dms_stop (d : dms) : dms := running false d.
Definition dms_disarm (ok : bool) (d : dms) : bool * dms := (ok, posted 0 d).
(** Binance: one retry in the turn, then a close on every turn that failed twice. *)
Definition binance_turn (countdown : Z) (close : bool) (b : beat) (d : dms) : dms :=
  if negb (dm_running d) || bt_stopped b then d else
  let d := posted countdown d in
  if bt_first b then {| dm_running := dm_running d; dm_last_beat := bt_first_at b; dm_fails := dm_fails d; dm_close_attempted := dm_close_attempted d;
                        dm_closes := dm_closes d; dm_posts := dm_posts d |} else
  if bt_stopped_retry b then d else
  let d := posted countdown d in
  if bt_second b then {| dm_running := dm_running d; dm_last_beat := bt_second_at b; dm_fails := dm_fails d; dm_close_attempted := dm_close_attempted d;
                         dm_closes := dm_closes d; dm_posts := dm_posts d |} else
  missed (dm_fails d) (dm_close_attempted d) (if close then S (dm_closes d) else dm_closes d) d.
(** Bitget: no retry; a close on the second failed turn in a row, once until a beat succeeds. *)
Definition bitget_turn (countdown_sec : Z) (close : bool) (b : beat) (d : dms) : dms :=
  if negb (dm_running d) || bt_stopped b then d else
  let d := posted countdown_sec d in
  if bt_first b then beaten (bt_first_at b) d else
  let fails := dm_fails d + 1 in
  if (2 <=? fails) && close && negb (dm_close_attempted d) then missed fails true (S (dm_closes d)) d
  else missed fails (dm_close_attempted d) (dm_closes d) d.
Definition clamp_countdown_sec (countdown_ms : Z) : Z :=
  if countdown_ms <=? 0 then 5 else if countdown_ms <? 5000 then 5 else
  let sec := Z.quot countdown_ms 1000 in
  let sec := if sec <? 5 then 5 else sec in if 60 <? sec then 60 else sec.
Definition bitget_heartbeat (countdown_ms heartbeat_ms : Z) : Z :=
  let countdown := clamp_countdown_sec countdown_ms * 1000 in
  let hb := if heartbeat_ms <=? 0 then Z.quot countdown 3 else heartbeat_ms in
  let hb := if hb <? 1000 then 1000 else hb in
  if countdown <=? hb then Z.max 1000 (Z.quot countdown 3) else hb.
(** The providers' defaults. *)
Definition binance_heartbeat (countdown_ms heartbeat_ms : Z) : Z := if 0 <? heartbeat_ms then heartbeat_ms else Z.quot countdown_ms 3.
Definition liveness_deadline (heartbeat_ms : Z) : Z := heartbeat_ms * 3.

(** ** WorkerWatchdog *)

Record registration := { rg_name : string; rg_last_alive : Z; rg_deadline : Z }.
Definition is_hung (now last_alive deadline : Z) : bool :=
  if last_alive <=? 0 then false else if deadline <=? 0 then false else deadline <? now - last_alive.
(** What a poll finds: the first source that is overdue, and its age. *)
Definition first_hung (now : Z) (sources : list registration) : option (string * Z) :=
  head (omap (λ s, if is_hung now (rg_last_alive s) (rg_deadline s) then Some (rg_name s, now - rg_last_alive s) else None) sources).
(** [wd_halted] is what the callback was told; the loop ends at the first poll that finds one.
    [wd_thread] is a thread not joined yet: after a halt the watchdog starts again only when stopped. *)
Record watchdog := { wd_thread : bool; wd_running : bool; wd_triggered : bool; wd_halted : list (string * Z); wd_halt_flag : bool }.
Definition watchdog_start (w : watchdog) : watchdog :=
  if wd_thread w then w else
  {| wd_thread := true; wd_running := true; wd_triggered := false; wd_halted := wd_halted w; wd_halt_flag := wd_halt_flag w |}.
Definition watchdog_stop (w : watchdog) : watchdog :=
  if negb (wd_thread w) then w else
  {| wd_thread := false; wd_running := false; wd_triggered := wd_triggered w; wd_halted := wd_halted w; wd_halt_flag := wd_halt_flag w |}.
Definition poll (now : Z) (sources : list registration) (w : watchdog) : watchdog :=
  if negb (wd_running w) then w else
  match first_hung now sources with
  | None => w
  | Some h => {| wd_thread := wd_thread w; wd_running := false; wd_triggered := true; wd_halted := wd_halted w ++ [h]; wd_halt_flag := true |}
  end.

(** ** Startup advisories *)

Inductive advisory := margin_mode_mismatch (symbol have want : text) | liquidation_close (symbol : text) (distance mark liq : double).
Definition split_objects (body : text) : list text := plain_objects (length body) false body.
Definition liquidation_distance (long : bool) (mark liq : double) : double :=
  if long then d_div (d_sub mark liq) mark else d_div (d_sub liq mark) mark.
Definition margin_advice (sym have expected : text) : list advisory :=
  if bool_decide (expected ≠ []) && bool_decide (have ≠ []) && bool_decide (have ≠ expected) then [margin_mode_mismatch sym have expected] else [].
Definition liquidation_advice (sym : text) (qty mark liq warn_pct : double) : list advisory :=
  if negb (d_lt d_zero warn_pct) || d_le mark d_zero || d_le liq d_zero then [] else
  let distance := liquidation_distance (d_lt d_zero qty) mark liq in
  if d_lt distance warn_pct then [liquidation_close sym distance mark liq] else [].
Definition compute_advisories (position_risk expected_margin : text) (warn_pct : double) : list advisory :=
  let expected := normalize_margin_type expected_margin in
  mbind (λ obj,
    let get k := extract_sv_string obj (txt k) in
    let amt := to_double_or_zero (get "positionAmt") in
    if d_lt (d_abs amt) d_dust then [] else
    margin_advice (get "symbol") (normalize_margin_type (get "marginType")) expected ++
    liquidation_advice (get "symbol") amt (to_double_or_zero (get "markPrice")) (to_double_or_zero (get "liquidationPrice")) warn_pct)
  (if bool_decide (expected = []) && negb (d_lt d_zero warn_pct) then [] else split_objects position_risk).
Definition first_strict_refusal (l : list advisory) (strict : bool) : option advisory :=
  if strict then head (List.filter (λ a, match a with margin_mode_mismatch _ _ _ => true | _ => false end) l) else None.

(** Bitget's: a row counts for the wanted symbol or without one; the size has a sign only when no
    side is given. *)
Definition bg_normalize_margin (s : text) : text :=
  match s with
  | [] => []
  | c :: _ => if bool_decide (lower c = "i"%char) then txt "ISOLATED" else if bool_decide (lower c = "c"%char) then txt "CROSSED" else upper <$> s
  end.
Definition advised_size (obj : text) : text := first_sv obj "total" // first_sv obj "size".
Definition advised_qty (obj : text) : double :=
  let raw := to_double_or_zero (advised_size obj) in
  if is_short_side (bg_pos_side obj) then d_opp (d_abs raw)
  else if bool_decide (bg_pos_side obj = []) && d_lt raw d_zero then raw else d_abs raw.
Definition bg_consider (want expected : text) (warn_pct : double) (obj : text) : list advisory :=
  let sym := extract_sv_string obj (txt "symbol") in
  if bool_decide (want ≠ []) && bool_decide (sym ≠ []) && bool_decide (sym ≠ want) then [] else
  if d_lt (d_abs (to_double_or_zero (advised_size obj))) d_dust then [] else
  let name := if bool_decide (sym = []) then want else sym in
  margin_advice name (bg_normalize_margin (extract_sv_string obj (txt "marginMode") // extract_sv_string obj (txt "marginType"))) expected ++
  liquidation_advice name (advised_qty obj) (to_double_or_zero (first_sv obj "markPrice"))
    (to_double_or_zero (first_sv obj "liquidationPrice" // first_sv obj "liqPrice")) warn_pct.
Definition bg_compute_advisories (position want expected_margin : text) (warn_pct : double) : list advisory :=
  let expected := bg_normalize_margin expected_margin in
  if bool_decide (expected = []) && negb (d_lt d_zero warn_pct) then [] else
  match extract_array position (txt "list") // extract_array position (txt "data") with
  | [] => match extract_object position (txt "data") with [] => [] | obj => bg_consider want expected warn_pct obj end
  | arr => mbind (bg_consider want expected warn_pct) (for_each_array_object arr)
  end.
