(* ===== verification/LiveSafetyTheorems.v ===== *)
(** * What the live-safety surface promises

    The kill switch of the futures provider over every venue and every sequence of answers;
    what a passed reconciliation means; the intervals of the dead man's switch, the timer it
    keeps alive and the closes it makes; and when the watchdog fires. *)

From Stdlib Require Import Ascii.
From S2P Require Import Prelude Float64 JsonScan JsonTheorems BinanceParsers BitgetParsers LiveSafety.

Open Scope string_scope.
Open Scope list_scope.
Open Scope Z_scope.

(** ** Query strings

    [decode_query] reads a query string as the venue does: parameters at [&], key and value at
    the first [=], escapes undone. *)

Fixpoint break_at (c : ascii) (s : text) : text * text :=
  match s with
  | [] => ([], [])
  | x :: s' => if bool_decide (x = c) then ([], s') else let '(a, b) := break_at c s' in (x :: a, b)
  end.
Definition hex_value (c : ascii) : nat := let n := nat_of_ascii c in if (n <? 58)%nat then n - 48 else n - 87.
Fixpoint url_decode (s : text) : text :=
  match s with
  | c :: s' =>
      if bool_decide (c = "%"%char)
      then match s' with a :: b :: r => ascii_of_nat (16 * hex_value a + hex_value b) :: url_decode r | _ => s end
      else c :: url_decode s'
  | [] => []
  end.
Definition decode_query (s : text) : list (text * text) :=
  (λ p, let '(k, v) := break_at "="%char p in (k, url_decode v)) <$> split_on "&"%char s.
(** The query string of some parameters. *)
Definition print_param (p : string * text) : text := txt p.1 ++ "="%char :: url_encode p.2.
Fixpoint query (l : list (string * text)) : text :=
  match l with [] => [] | [p] => print_param p | p :: l => print_param p ++ "&"%char :: query l end.

Definition escaped (c : ascii) : text :=
  if unreserved c then [c] else ["%"%char; hex_digit (nat_of_ascii c / 16); hex_digit (nat_of_ascii c mod 16)].
Lemma url_encode_cons c s : url_encode (c :: s) = escaped c ++ url_encode s.
Proof. done. Qed.
Lemma escaped_spec c s : url_decode (escaped c ++ s) = c :: url_decode s ∧ "&"%char ∉ escaped c.
Proof.
  split; [destruct c as [[] [] [] [] [] [] [] []]; reflexivity|].
  apply (bool_decide_unpack _). destruct c as [[] [] [] [] [] [] [] []]; vm_compute; exact I.
Qed.
Lemma url_roundtrip s : url_decode (url_encode s) = s.
Proof. induction s as [|c s IH]; [done|]. rewrite url_encode_cons. destruct (escaped_spec c (url_encode s)) as [-> _]. by rewrite IH. Qed.
Lemma url_no_amp s : "&"%char ∉ url_encode s.
Proof. induction s as [|c s IH]; [apply not_elem_of_nil|]. rewrite url_encode_cons, not_elem_of_app. split; [apply (escaped_spec c [])|done]. Qed.

Lemma break_app c a b : c ∉ a → break_at c (a ++ c :: b) = (a, b).
Proof.
  induction a as [|x a IH]; intros H; cbn; [by rewrite bool_decide_true|]. apply not_elem_of_cons in H as [H1 H2].
  rewrite bool_decide_false by done. by rewrite IH.
Qed.
Definition plain_key (k : string) : Prop := "&"%char ∉ txt k ∧ "="%char ∉ txt k.
#[global] Instance plain_key_dec k : Decision (plain_key k) := _.
Lemma query_decodes p l : Forall (λ p, plain_key p.1) (p :: l) → decode_query (query (p :: l)) = (λ p, (txt p.1, p.2)) <$> (p :: l).
Proof.
  intros H. unfold decode_query.
  assert (∀ p, plain_key p.1 → "&"%char ∉ print_param p ∧ break_at "="%char (print_param p) = (txt p.1, url_encode p.2)) as Hp.
  { intros [k v] [H1 H2]. unfold print_param. cbn [fst snd] in *. rewrite break_app by done. split; [|done].
    rewrite not_elem_of_app, not_elem_of_cons. split_and!; [done|done|apply url_no_amp]. }
  revert p H. induction l as [|q l IH]; intros p H; apply Forall_cons in H as [H1 H2]; destruct (Hp p H1) as [Ha Hb].
  - cbn [query]. rewrite split_whole by done. cbn [fmap list_fmap]. rewrite Hb. by rewrite url_roundtrip.
  - cbn [query]. rewrite split_app by done. cbn [fmap list_fmap]. rewrite Hb, url_roundtrip. f_equal. by apply IH.
Qed.
Lemma query_cons p q l : query (p :: q :: l) = print_param p ++ "&"%char :: query (q :: l).
Proof. done. Qed.
Lemma append_query l k v : append_param (query l) k v = query (l ++ [(k, v)]).
Proof.
  assert (∀ l, l ≠ [] → query l ≠ []) as Hne.
  { intros [|p [|q l']] H; [done|..]; cbn; unfold print_param; by destruct (txt p.1). }
  unfold append_param. destruct l as [|p l]; [done|]. specialize (Hne (p :: l) ltac:(done)).
  destruct (query (p :: l)) eqn:E; [done|]. rewrite <-E. clear E Hne. revert p.
  induction l as [|q l IH]; intros p; [cbn; by rewrite <-app_assoc|].
  change ((p :: q :: l) ++ [(k, v)]) with (p :: q :: (l ++ [(k, v)])). rewrite !query_cons.
  change (q :: (l ++ [(k, v)])) with ((q :: l) ++ [(k, v)]). rewrite <-IH. rewrite <-!app_assoc. done.
Qed.

(** ** Kill switch *)

(** A venue that records every call with its answer and the time it came. *)
Definition call_log : Type := list (request * response * Z).
#[global] Instance recorded {W} `{Venue W} : Venue (W * call_log) := {
  v_client := v_client (W := W);
  v_wired := v_wired (W := W);
  v_call rq w := let '(r, w') := v_call rq w.1 in (r, (w', w.2 ++ [(rq, r, v_now w')]));
  v_now w := v_now w.1;
  v_timeout w := v_timeout w.1;
  v_set_timeout ms w := (v_set_timeout ms w.1, w.2) }.

Section KillTheorems.
Context {W : Type} {V : Venue W}.

(** What the venue reads of a request. *)
Definition asks (v : verb) (endpoint : string) (fields : list (text * text)) (rq : request) : Prop :=
  rq_verb rq = v ∧ rq_endpoint rq = endpoint ∧ decode_query (rq_params rq) = fields.
Definition says_ok (r : response) : Prop := 200 <= rs_status r < 300.
(** The orders are cancelled, or there were none. *)
Definition confirms (r : response) : Prop := says_ok r ∨ ∃ a b, rs_body r = a ++ txt "-2011" ++ b.
Definition reports (r : response) (amt : double) : Prop := says_ok r ∧ extract_position_amt (rs_body r) = Some amt.
Definition no_position (amt : double) : Prop := d_lt (d_abs amt) (d_of_ratio 1 1000000000000) = true.
Definition symbol_field (symbol : text) : list (text * text) := [(txt "symbol", symbol)].
Definition close_fields (symbol : text) (amt : double) (minted : option text) : list (text * text) :=
  [(txt "symbol", symbol); (txt "side", txt (if d_lt d_zero amt then "SELL" else "BUY")); (txt "type", txt "MARKET"); (txt "reduceOnly", txt "true");
   (txt "quantity", format_qty (d_abs amt))] ++ match minted with Some id => [(txt "newClientOrderId", id)] | None => [] end.

Lemma ok_says r : http_ok (rs_status r) = true ↔ says_ok r.
Proof. unfold http_ok, says_ok. rewrite andb_true_iff, Z.leb_le, Z.ltb_lt. lia. Qed.
Lemma contains_split needle s : contains needle s = true ↔ ∃ a b, s = a ++ needle ++ b.
Proof.
  unfold contains. rewrite bool_decide_eq_true. split.
  - intros [r Hr]. revert r Hr. induction s as [|c s IH]; intros r; cbn [find_after].
    + destruct (strip_prefix needle []) as [b|] eqn:E; [|done]. apply strip_prefix_spec in E. intros _. by exists [], b.
    + destruct (strip_prefix needle (c :: s)) as [b|] eqn:E; [apply strip_prefix_spec in E; intros _; by exists [], b|].
      intros (a & b & ->)%IH. by exists (c :: a), b.
  - intros (a & b & ->). induction a as [|c a IH]; cbn [app find_after].
    + pose proof (strip_prefix_app needle b) as E. destruct (needle ++ b); cbn [find_after]; rewrite E; by eexists.
    + destruct (strip_prefix needle (c :: _)); [by eexists|done].
Qed.
Lemma ok_confirms r : cancelled_ok r = true ↔ confirms r.
Proof. unfold cancelled_ok, confirms. by rewrite orb_true_iff, ok_says, contains_split. Qed.
Lemma symbol_reads symbol : decode_query (symbol_params symbol) = symbol_field symbol.
Proof. apply (query_decodes ("symbol", symbol) []). repeat constructor; by apply (bool_decide_unpack _); vm_compute. Qed.
Lemma close_reads symbol amt minted :
  decode_query (close_params symbol (if d_lt d_zero amt then "SELL" else "BUY") true (d_abs amt) minted) = close_fields symbol amt minted.
Proof.
  unfold close_params. cbv zeta. change (@nil ascii) with (query []). rewrite !append_query. cbn [app].
  destruct minted as [id|]; [rewrite append_query; cbn [app]|]; (rewrite query_decodes; [reflexivity|]);
    repeat constructor; by apply (bool_decide_unpack _); vm_compute.
Qed.

Lemma bounded_log deadline (w : W) : ∃ w', bound_calls deadline (w, [] : call_log) = (w', []).
Proof. unfold bound_calls. destruct (0 <? per_call_ms deadline); cbn; by eexists. Qed.

(** What follows a confirmed cancel: the position is read, and closed when there is one and there
    is time. *)
Definition flattens (symbol : text) (minted : option text) (expires : Z) (ok : bool) (l : call_log) : Prop :=
  ∃ rq p t rest, l = (rq, p, t) :: rest ∧ asks GET "/fapi/v2/positionRisk" (symbol_field symbol) rq ∧
    (rest ≠ [] ↔ ∃ amt, reports p amt ∧ ¬ no_position amt ∧ t < expires) ∧
    (rest = [] → (ok = true ↔ ∃ amt, reports p amt ∧ no_position amt)) ∧
    (rest ≠ [] → ∃ rq' amt o t', rest = [(rq', o, t')] ∧ reports p amt ∧ asks POST "/fapi/v1/order" (close_fields symbol amt minted) rq' ∧
      (ok = true ↔ says_ok o)).
Lemma flatten_flattens symbol minted expires (w : W) (l : call_log) : let r := futures_flatten symbol minted expires (w, l) in
  ∃ l', r.2.2 = l ++ l' ∧ flattens symbol minted expires r.1 l'.
Proof.
  cbv zeta. unfold futures_flatten, call. cbn [v_call recorded fst snd]. destruct (v_call _ w) as [p w2]. cbn [v_now recorded fst].
  assert (∀ ok, (ok = true ↔ ∃ amt, reports p amt ∧ no_position amt) → (∀ amt, reports p amt → no_position amt ∨ expires <= v_now w2) →
    flattens symbol minted expires ok [({| rq_verb := GET; rq_endpoint := "/fapi/v2/positionRisk"; rq_params := symbol_params symbol |}, p, v_now w2)]) as Hend.
  { intros ok Hok Hno. eexists _, _, _, []. split_and!; [done|by split_and!; [..|apply symbol_reads]| |done|done].
    split; [done|]. intros (amt & H1 & H2 & H3). destruct (Hno amt H1); [done|lia]. }
  assert (∀ amt, reports p amt ↔ http_ok (rs_status p) = true ∧ extract_position_amt (rs_body p) = Some amt) as Hrep.
  { intros amt. unfold reports. by rewrite ok_says. }
  destruct (http_ok (rs_status p)) eqn:Hp; cbn [negb].
  2: { eexists. split; [done|]. apply Hend; [split; [done|]|]; naive_solver. }
  destruct (extract_position_amt (rs_body p)) as [amt|] eqn:Ha.
  2: { eexists. split; [done|]. apply Hend; [split; [done|]|]; naive_solver. }
  destruct (d_lt (d_abs amt) d_dust) eqn:Hd.
  { eexists. split; [done|]. apply Hend; [split; [intros _; exists amt; by rewrite Hrep|done]|]. intros a [_ [= ->]]%Hrep. by left. }
  destruct (Z.leb_spec expires (v_now w2)).
  { eexists. split; [done|]. apply Hend; [split; [done|]|by right]. intros (a & [_ [= ->]]%Hrep & Hf). unfold no_position in Hf. fold d_dust in Hf. congruence. }
  destruct (v_call _ w2) as [o w3]. cbn [fst snd]. eexists. split; [by rewrite <- app_assoc|]. cbn [app].
  eexists _, _, _, _. split_and!; [done|by split_and!; [..|apply symbol_reads]| |done|].
  - split; [|done]. intros _. exists amt. rewrite Hrep. split_and!; [done|done| |done]. unfold no_position. fold d_dust. congruence.
  - intros _. eexists _, amt, _, _. split_and!; [done|by rewrite Hrep|by split_and!; [..|apply close_reads]|apply ok_says].
Qed.

(** C15: On every venue, whatever it answers and however long it takes, the kill switch of the
    futures provider first cancels every order of the symbol.  It reads the position exactly when
    the cancel was confirmed, or there was nothing to cancel, before the deadline; it sends an
    order exactly when a position was reported and the deadline had not passed, and only one:
    the venue reads it as a reduce-only market order of the symbol for the magnitude reported, on
    the side that closes it.  It reports success exactly when no position was reported or
    the order was accepted.  Without a REST client it makes no call and reports failure. *)
Theorem kill_switch_runs symbol minted deadline (w : W) :
  let r := futures_cancel_all_and_flatten symbol minted deadline (w, [] : call_log) in
  let expires := v_now w + deadline in
  if v_client (W := W) then
    ∃ rq c t rest, r.2.2 = (rq, c, t) :: rest ∧ asks DELETE "/fapi/v1/allOpenOrders" (symbol_field symbol) rq ∧
      (rest ≠ [] ↔ confirms c ∧ t < expires) ∧ (rest = [] → r.1 = false) ∧ (rest ≠ [] → flattens symbol minted expires r.1 rest)
  else r.1 = false ∧ r.2.2 = [].
Proof.
  cbv zeta. unfold futures_cancel_all_and_flatten. cbn [v_now v_client recorded fst]. destruct (v_client (W := W)); [|done]. cbn [negb].
  destruct (bounded_log deadline w) as [w0 ->]. unfold call. cbn [v_call recorded fst snd app]. destruct (v_call _ w0) as [c w1]. cbn [v_now recorded fst].
  pose proof (ok_confirms c) as Hc. destruct (cancelled_ok c); cbn [negb].
  2: { eexists _, _, _, []. split_and!; [done|by split_and!; [..|apply symbol_reads]|split; [done|intros [?%Hc _]; done]|done|done]. }
  destruct (Z.leb_spec (v_now w + deadline) (v_now w1)) as [|Ht].
  { eexists _, _, _, []. split_and!; [done|by split_and!; [..|apply symbol_reads]|split; [done|lia]|done|done]. }
  destruct (flatten_flattens symbol minted (v_now w + deadline) w1
    [({| rq_verb := DELETE; rq_endpoint := "/fapi/v1/allOpenOrders"; rq_params := symbol_params symbol |}, c, v_now w1)]) as (l & El & Hl).
  unfold call_log in *. rewrite El. assert (l ≠ []) by by destruct Hl as (? & ? & ? & ? & -> & _).
  eexists _, _, _, l. split_and!; [done|by split_and!; [..|apply symbol_reads]|split; [by split; [apply Hc|]|done]|done|done].
Qed.
End KillTheorems.

(** ** Reconciliation *)

Section Reconcile.
Context {W : Type} {V : Venue W}.

(** The futures reconcilers pass exactly when they have a client, the venue answered both requests, reported cash
    and position in a form that parses, and both agree with the local account within the
    tolerance: a failed request, a missing field or a drift of either is a refusal.  Bitget's
    requires success of the envelope too. *)
Theorem reconcile_exact symbol category cash qty tol (w : W) :
  (let '(pos, w1) := call GET "/fapi/v2/positionRisk" (symbol_params symbol) w in
   let '(acct, _) := call GET "/fapi/v2/account" [] w1 in
   (futures_reconcile symbol cash qty tol w).1 = None ↔
   v_client (W := W) = true ∧ http_ok (rs_status pos) = true ∧ http_ok (rs_status acct) = true ∧
   ∃ vc vq, extract_available_balance (rs_body acct) = Some vc ∧ extract_position_amt (rs_body pos) = Some vq ∧
     within_tolerance cash vc tol = true ∧ within_tolerance (default d_zero qty) vq tol = true) ∧
  (let '(pos, w1) := call GET "/api/v3/position/current-position" (txt "category=" ++ category ++ txt "&symbol=" ++ symbol) w in
   let '(acct, _) := call GET "/api/v3/account/assets" [] w1 in
   (bitget_reconcile symbol category cash qty tol w).1 = None ↔
   v_wired (W := W) GET = true ∧ is_business_success (rs_status pos) (rs_body pos) = true ∧ is_business_success (rs_status acct) (rs_body acct) = true ∧
   ∃ vc vq, extract_available_usdt (rs_body acct) = Some vc ∧ bg_extract_position_amt (rs_body pos) symbol = Some vq ∧
     within_tolerance cash vc tol = true ∧ within_tolerance (default d_zero qty) vq tol = true).
Proof.
  assert (∀ vc vq, compare_accounts vc vq cash qty tol = None ↔
    ∃ c q, vc = Some c ∧ vq = Some q ∧ within_tolerance cash c tol = true ∧ within_tolerance (default d_zero qty) q tol = true) as Hcmp.
  { intros [vc|] vq; cbn; [|split; [done|naive_solver]]. destruct (within_tolerance cash vc tol) eqn:E1; cbn; [|split; [done|naive_solver congruence]].
    destruct vq as [vq|]; [|split; [done|naive_solver]]. destruct (within_tolerance (default d_zero qty) vq tol) eqn:E2; split; naive_solver congruence. }
  split.
  - unfold futures_reconcile. destruct (call GET "/fapi/v2/positionRisk" _ w) as [pos w1]. destruct (call GET "/fapi/v2/account" [] w1) as [acct w2].
    destruct (v_client (W := W)); cbn; [|split; [done|naive_solver]]. destruct (http_ok (rs_status pos)); cbn; [|split; [done|naive_solver]].
    destruct (http_ok (rs_status acct)); cbn; [|split; [done|naive_solver]]. rewrite Hcmp. naive_solver.
  - unfold bitget_reconcile, http_business_error. destruct (call GET "/api/v3/position/current-position" _ w) as [pos w1].
    destruct (call GET "/api/v3/account/assets" [] w1) as [acct w2].
    destruct (v_wired (W := W) GET); cbn; [|split; [done|naive_solver]]. destruct (is_business_success (rs_status pos) (rs_body pos)); cbn; [|split; [done|naive_solver]].
    destruct (is_business_success (rs_status acct) (rs_body acct)); cbn; [|split; [done|naive_solver]]. rewrite Hcmp. naive_solver.
Qed.

(** The spot reconciler does not look at the venue's inventory while the local account is flat:
    what it decides does not depend on the asset. *)
Lemma spot_inventory_ignored base base' quote testnet cash qty tol (w : W) :
  match qty with Some q => d_lt d_dust (d_abs q) = false | None => True end →
  spot_reconcile base quote testnet cash qty tol w = spot_reconcile base' quote testnet cash qty tol w.
Proof.
  intros H. unfold spot_reconcile. destruct (negb _); [done|]. destruct (call _ _ _ _) as [r w']. f_equal. repeat (case_match; try done).
  unfold spot_position_check. destruct qty; [|done]. by rewrite H.
Qed.
End Reconcile.

(** ** Dead man's switch *)

Lemma third_bounds z : 0 <= z → 3 * Z.quot z 3 <= z < 3 * Z.quot z 3 + 3.
Proof. intros. rewrite Z.quot_div_nonneg by lia. pose proof (Z.mul_div_le z 3). pose proof (Z.mul_succ_div_gt z 3). lia. Qed.
Lemma clamp_bounds cd : 5 <= clamp_countdown_sec cd <= 60.
Proof. unfold clamp_countdown_sec. repeat case_match; lia. Qed.
(** The intervals of Bitget's switch: what the venue takes, its rate limit, and a beat before the timer. *)
Lemma heartbeat_bounds cd hb : 1000 <= bitget_heartbeat cd hb < clamp_countdown_sec cd * 1000.
Proof.
  unfold bitget_heartbeat. pose proof (clamp_bounds cd). generalize dependent (clamp_countdown_sec cd). intros sec Hsec.
  pose proof (third_bounds (sec * 1000) ltac:(lia)). repeat case_match; lia.
Qed.

(** Runs of the heartbeat loop in time.  [ex] is when the venue's timer fires and [t] when the loop
    starts to wait.  A wait lasts the interval and at most [slack] more, a post is answered
    within [lat]; an accepted post reaches the venue before its answer and restarts the timer.
    [failed]: the last turn did; no two turns in a row fail. *)
Section Alive.
Context (cd hb slack lat : Z) (close : bool).
#[local] Notation sec := (clamp_countdown_sec cd).
#[local] Notation interval := (bitget_heartbeat cd hb).
Definition turn_ok (answered : Z) : beat :=
  {| bt_stopped := false; bt_first := true; bt_first_at := answered; bt_stopped_retry := false; bt_second := false; bt_second_at := 0 |}.
Definition turn_failed : beat :=
  {| bt_stopped := false; bt_first := false; bt_first_at := 0; bt_stopped_retry := false; bt_second := false; bt_second_at := 0 |}.
Definition next_post (t sent answered : Z) : Prop := t + interval <= sent <= t + interval + slack ∧ sent <= answered <= sent + lat.
Inductive alive_run : bool → dms → Z → Z → Prop :=
| ar_start sent arrived answered : sent <= arrived <= answered → answered <= sent + lat →
    alive_run false (dms_start sec true answered mk_dms).2 (arrived + sec * 1000) answered
| ar_beat failed d ex t sent arrived answered : alive_run failed d ex t → next_post t sent answered → sent <= arrived <= answered →
    alive_run false (bitget_turn sec close (turn_ok answered) d) (arrived + sec * 1000) answered
| ar_miss d ex t sent answered : alive_run false d ex t → next_post t sent answered →
    alive_run true (bitget_turn sec close turn_failed d) ex answered.

Record alive_inv (failed : bool) (d : dms) (ex t : Z) : Prop := {
  ai_running : dm_running d = true;
  ai_fails : dm_fails d = if failed then 1 else 0;
  ai_closes : dm_closes d = 0%nat;
  ai_timer : dm_last_beat d - lat + sec * 1000 <= ex;
  ai_clock : t <= dm_last_beat d + dm_fails d * (interval + slack + lat) }.
Lemma alive_invariant failed d ex t : 0 <= slack → 0 <= lat → alive_run failed d ex t → alive_inv failed d ex t.
Proof.
  intros Hs Hl. induction 1 as [sent arrived answered H1 H2|failed d ex t sent arrived answered _ [Hr Hf Hc Ht Hk] [Hw Ha] Harr
                               |d ex t sent answered _ [Hr Hf Hc Ht Hk] [Hw Ha]].
  - split; cbn; auto; lia.
  - unfold bitget_turn. rewrite Hr. cbn [negb orb bt_stopped turn_ok bt_first bt_first_at]. split; cbn; auto; lia.
  - unfold bitget_turn. rewrite Hr. cbn [negb orb bt_stopped turn_failed bt_first]. cbn [posted dm_fails dm_close_attempted].
    rewrite Hf in Hk |- *. change (2 <=? 0 + 1) with false. cbn [andb].
    split; cbn [dm_running dm_fails dm_closes dm_last_beat missed posted]; [done|done|done|done|].
    lia.
Qed.

(** C16: Bitget's dead man's switch takes a countdown of 5 to 60 seconds and an interval of at
    least a second and shorter than the countdown, whatever is configured; and while no two
    turns in a row fail, it keeps the venue's timer from firing: if two turns with their delays
    fit into the countdown, then in every run of the heartbeat loop, whatever failures came
    before, the next accepted post, even after a turn that failed, reaches the venue before
    the timer fires; no position is closed; and, where two delays fit into an interval, the
    watchdog, whose deadline is three intervals, finds nothing until that post is answered. *)
Theorem timer_kept_alive : 5 <= sec <= 60 ∧ 1000 <= interval < sec * 1000 ∧
  ∀ failed d ex t sent arrived answered now name,
  0 <= slack → 0 <= lat → 2 * (interval + slack + lat) + lat < sec * 1000 → alive_run failed d ex t →
  next_post t sent answered → sent <= arrived <= answered →
  arrived < ex ∧ dm_closes d = 0%nat ∧
  (2 * (slack + lat) <= interval → now <= answered →
   first_hung now [{| rg_name := name; rg_last_alive := dm_last_beat d; rg_deadline := liveness_deadline interval |}] = None).
Proof.
  split; [apply clamp_bounds|]. split; [apply heartbeat_bounds|]. intros failed d ex t sent arrived answered now name.
  intros Hs Hl Hfit Hrun [Hw Ha] Harr. destruct (alive_invariant failed d ex t Hs Hl Hrun) as [Hr Hf Hc Ht Hk]. pose proof (heartbeat_bounds cd hb).
  rewrite Hf in Hk. split_and!; [|done|].
  - destruct failed; lia.
  - intros Hd Hnow. unfold first_hung. cbn [omap list_omap rg_last_alive rg_deadline].
    assert (is_hung now (dm_last_beat d) (liveness_deadline interval) = false) as ->; [|done].
    unfold is_hung, liveness_deadline. destruct (_ <=? 0); [done|]. destruct (_ <=? 0); [done|]. apply Z.ltb_ge.
    destruct failed; lia.
Qed.
End Alive.
(** A turn fails, one succeeds and one fails again. *)
Definition shaky : dms :=
  bitget_turn 60 true turn_failed (bitget_turn 60 true (turn_ok 41000) (bitget_turn 60 true turn_failed (dms_start 60 true 400 mk_dms).2)).
Lemma timer_kept_alive_witness : 81800 < 100900 ∧ dm_closes shaky = 0%nat ∧ dm_fails shaky = 1.
Proof.
  destruct (timer_kept_alive 60000 0 100 400 true) as (_ & _ & H0).
  destruct (H0 true shaky 100900 61450 81500 81800 81900 81900 "dms") as (H & Hc & _); [lia|lia|vm_compute; reflexivity| |vm_compute; intuition discriminate|lia|by split].
  unfold shaky. apply (ar_miss 60000 0 100 400 true _ _ 41000 61050 61450); [|vm_compute; intuition discriminate].
  apply (ar_beat 60000 0 100 400 true true _ 60000 20700 40750 40900 41000); [|vm_compute; intuition discriminate|lia].
  apply (ar_miss 60000 0 100 400 true _ _ 400 20450 20700); [|vm_compute; intuition discriminate].
  apply (ar_start 60000 0 100 400 true 0 0 400); lia.
Defined.

(** ** Watchdog *)

Definition timer_source (name : string) (answered hb : Z) : registration :=
  {| rg_name := name; rg_last_alive := answered; rg_deadline := liveness_deadline hb |}.
Lemma poll_halts now sources w : wd_halt_flag w = false → wd_halt_flag (poll now sources w) = true → is_Some (first_hung now sources).
Proof. intros Hw. unfold poll. destruct (negb (wd_running w)); [congruence|]. destruct (first_hung now sources); [by eexists|congruence]. Qed.
Lemma one_source_hung now name answered hb : is_Some (first_hung now [timer_source name answered hb]) → 3 * hb < now - answered.
Proof.
  unfold first_hung, timer_source. cbn [omap list_omap rg_last_alive rg_deadline]. unfold is_hung, liveness_deadline.
  destruct (_ <=? 0); [by intros []|]. destruct (_ <=? 0); [by intros []|]. destruct (Z.ltb_spec (hb * 3) (now - answered)); [lia|by intros []].
Qed.

(** With the default interval of either venue, a third of the countdown, the watchdog does not
    halt the engine before the venue's timer fires: the last accepted post arrived before it was
    answered, so when a poll halts the engine the countdown from the arrival has run out, but for
    the two milliseconds that the division can lose, and has run out already when the countdown is
    a multiple of three. *)
Theorem watchdog_after_timer cd now arrived answered name hb timer w :
  (hb = binance_heartbeat cd 0 ∧ timer = cd ∨ hb = bitget_heartbeat cd 0 ∧ timer = clamp_countdown_sec cd * 1000) →
  0 <= cd → arrived <= answered → wd_halt_flag w = false →
  wd_halt_flag (poll now [timer_source name answered hb] w) = true →
  arrived + timer <= now + 1 ∧ (timer mod 3 = 0 → arrived + timer < now).
Proof.
  intros Hhb Hcd Harr Hw H. apply poll_halts in H; [|done]. apply one_source_hung in H.
  enough (timer - 2 <= 3 * hb ∧ (timer mod 3 = 0 → timer = 3 * hb)) by lia. clear -Hhb Hcd.
  assert (0 <= timer ∧ Z.quot timer 3 <= hb ∧ 3 * hb <= timer) as (H0 & H1 & H2).
  { destruct Hhb as [[-> ->] | [-> ->]].
    - unfold binance_heartbeat. destruct (Z.ltb_spec 0 0); [lia|]. pose proof (third_bounds cd). lia.
    - unfold bitget_heartbeat. pose proof (clamp_bounds cd). generalize dependent (clamp_countdown_sec cd). intros sec Hsec.
      pose proof (third_bounds (sec * 1000) ltac:(lia)). repeat case_match; lia. }
  pose proof (third_bounds timer H0). split; [lia|]. intros Hm. pose proof (Z.div_mod timer 3). rewrite Z.quot_div_nonneg in * by lia. lia.
Qed.
Lemma watchdog_after_timer_witness :
  let w := {| wd_thread := true; wd_running := true; wd_triggered := false; wd_halted := []; wd_halt_flag := false |} in
  wd_halt_flag (poll 60011 [timer_source "dms" 10 20000] w) = true ∧ 5 + 60000 < 60011.
Proof.
  split; [reflexivity|].
  destruct (watchdog_after_timer 60000 60011 5 10 "dms" 20000 60000
    {| wd_thread := true; wd_running := true; wd_triggered := false; wd_halted := []; wd_halt_flag := false |}) as [_ H];
    [left; by vm_compute|lia|lia|reflexivity|reflexivity|]. by apply H.
Defined.
