(* ===== verification/Encoders.v ===== *)
(** * Order encoders (src/src/providers/binance/binance_order_encoder.h,
    binance_futures_order_encoder.h, src/src/providers/bitget/bitget_futures_order_encoder.h)

    How an order leaves for the venue: a query string for Binance, with the constant part
    cached by side, type and time in force, and a JSON body for Bitget.  Reading past the
    buffer of a printed number, or past the cache for a code that is no order type, has no
    defined result and is [None]. *)

From Stdlib Require Import Ascii.
From S2P Require Import Prelude Float64 Event Bridge JsonScan BinanceParsers BitgetParsers LiveSafety.

Open Scope string_scope.
Open Scope list_scope.
Open Scope Z_scope.

Definition uppercase (t : text) : text := upper <$> t.

(** ** Binance *)

Inductive market := spot | futures.
Definition endpoint_of (k : market) : string := match k with spot => "/api/v3/order" | futures => "/fapi/v1/order" end.
Definition takes_price (k : market) (t : order_type) : bool :=
  match k with
  | spot => bool_decide (t ≠ ot_market)
  | futures => bool_decide (t = ot_limit) || bool_decide (t = ot_stop_limit)
  end.
Definition takes_tif : market → order_type → bool := takes_price.
Definition takes_stop_price (t : order_type) : bool := bool_decide (t = ot_stop) || bool_decide (t = ot_stop_limit).
Definition side_to_binance (s : order_side) : string := if bool_decide (s = side_buy) then "BUY" else "SELL".
Definition order_type_to_binance (k : market) (t : order_type) : string :=
  match k, t with
  | _, ot_market => "MARKET"
  | _, ot_limit => "LIMIT"
  | spot, ot_stop | spot, ot_stop_limit => "STOP_LOSS_LIMIT"
  | futures, ot_stop => "STOP_MARKET"
  | futures, ot_stop_limit => "STOP"
  | _, ot_raw _ => "LIMIT"
  end.
Definition tif_to_binance (t : time_in_force) : string := match t with tif_ioc => "IOC" | tif_fok => "FOK" | _ => "GTC" end.
Definition prefix_for (k : market) (sym : text) (s : order_side) (t : order_type) (tif : time_in_force) : text :=
  let out := append_param [] "symbol" sym in
  let out := append_param out "side" (txt (side_to_binance s)) in
  let out := append_param out "type" (txt (order_type_to_binance k t)) in
  if takes_tif k t then append_param out "timeInForce" (txt (tif_to_binance tif)) else out.

Record encoder := { prefix_cache_ : list text; default_symbol_ : text }.
Definition kPrefixCacheSize : nat := 32.
Definition mk_encoder (sym : text) : encoder := {| prefix_cache_ := replicate kPrefixCacheSize []; default_symbol_ := uppercase sym |}.
Definition set_default_symbol (sym : text) (e : encoder) : encoder :=
  {| prefix_cache_ := (λ _, []) <$> prefix_cache_ e; default_symbol_ := uppercase sym |}.
Definition cache_index (s : order_side) (t : order_type) (tif : time_in_force) : nat :=
  Z.to_nat (order_side_code s * 16 + order_type_code t * 4 + time_in_force_code tif).
Definition cached_prefix (k : market) (s : order_side) (t : order_type) (tif : time_in_force) (e : encoder) : option (text * encoder) :=
  let idx := cache_index s t tif in
  slot ← prefix_cache_ e !! idx;
  match slot with
  | [] => let p := prefix_for k (default_symbol_ e) s t tif in
          Some (p, {| prefix_cache_ := <[idx := p]> (prefix_cache_ e); default_symbol_ := default_symbol_ e |})
  | p => Some (p, e)
  end.
(** A number is copied by the length it would have had. *)
Definition append_number (out : text) (key : string) (d : double) : option text :=
  if (63 <? length (fixed8 d))%nat then None else Some (out ++ "&"%char :: txt key ++ "="%char :: fixed8 d).
Definition append_number_if (b : bool) (out : text) (key : string) (d : double) : option text :=
  if b then append_number out key d else Some out.
Definition order_symbol (o : order_event) (e : encoder) : text :=
  uppercase (if bool_decide (oe_symbol o = "") then default_symbol_ e else txt (oe_symbol o)).
Definition encode_submit (k : market) (o : order_event) (client_order_id : text) (e : encoder) : option (encoded_order * encoder) :=
  let sym := order_symbol o e in
  let t := oe_order_type o in
  '(prefix, e) ← (if bool_decide (sym = default_symbol_ e) then cached_prefix k (oe_side o) t (oe_tif o) e
                  else Some (prefix_for k sym (oe_side o) t (oe_tif o), e));
  p ← append_number prefix "quantity" (oe_quantity o);
  p ← append_number_if (takes_price k t) p "price" (oe_price o);
  p ← append_number_if (takes_stop_price t) p "stopPrice" (oe_stop_price o);
  let p := if bool_decide (client_order_id = []) then p else append_param p "newClientOrderId" client_order_id in
  Some ({| enc_endpoint := endpoint_of k; enc_wire_payload := str p; enc_client_order_id := str client_order_id |}, e).
Definition encode_cancel (k : market) (symbol exchange_order_id client_order_id : text) (e : encoder) : encoded_order :=
  let sym := uppercase (if bool_decide (symbol = []) then default_symbol_ e else symbol) in
  let p := append_param [] "symbol" sym in
  let p := if bool_decide (exchange_order_id ≠ []) then append_param p "orderId" exchange_order_id
           else if bool_decide (client_order_id ≠ []) then append_param p "origClientOrderId" client_order_id else p in
  {| enc_endpoint := endpoint_of k; enc_wire_payload := str p; enc_client_order_id := str client_order_id |}.

(** The spot encoder's. *)
Definition spot_type : order_type → string := order_type_to_binance spot.
Definition spot_prefix_for : text → order_side → order_type → time_in_force → text := prefix_for spot.
Definition spot_encode_submit : order_event → text → encoder → option (encoded_order * encoder) := encode_submit spot.
Definition spot_encode_cancel : text → text → text → encoder → encoded_order := encode_cancel spot.

(** ** Bitget *)

Record bg_encoder := { bg_default_symbol : text; bg_category : text; bg_margin_mode : text; bg_reduce_only : bool }.
Definition mk_bg_encoder (sym category : text) : bg_encoder :=
  {| bg_default_symbol := uppercase sym; bg_category := category; bg_margin_mode := txt "crossed"; bg_reduce_only := false |}.
Definition bg_set_default_symbol (sym : text) (e : bg_encoder) : bg_encoder :=
  {| bg_default_symbol := uppercase sym; bg_category := bg_category e; bg_margin_mode := bg_margin_mode e; bg_reduce_only := bg_reduce_only e |}.
Definition bg_set_category (c : text) (e : bg_encoder) : bg_encoder :=
  {| bg_default_symbol := bg_default_symbol e; bg_category := c; bg_margin_mode := bg_margin_mode e; bg_reduce_only := bg_reduce_only e |}.
Definition bg_set_margin_mode (m : text) (e : bg_encoder) : bg_encoder :=
  {| bg_default_symbol := bg_default_symbol e; bg_category := bg_category e; bg_margin_mode := m; bg_reduce_only := bg_reduce_only e |}.
Definition bg_set_reduce_only (b : bool) (e : bg_encoder) : bg_encoder :=
  {| bg_default_symbol := bg_default_symbol e; bg_category := bg_category e; bg_margin_mode := bg_margin_mode e; bg_reduce_only := b |}.
Definition alnum (c : ascii) : bool :=
  let n := nat_of_ascii c in ((48 <=? n) && (n <=? 57) || (65 <=? n) && (n <=? 90) || (97 <=? n) && (n <=? 122))%nat.
Definition valid_client_oid (id : text) : bool :=
  bool_decide (id ≠ []) && (length id <=? 32)%nat && forallb (λ c, alnum c || one_of ["."; "-"; "_"; ":"; "/"]%char c) id.
(** Zeros after the point are dropped, then the point. *)
Fixpoint drop_zeros (rev_s : text) : text :=
  match rev_s with c :: s => if bool_decide (c = "0"%char) then drop_zeros s else rev_s | [] => [] end.
Definition drop_point (rev_s : text) : text :=
  match rev_s with c :: s => if bool_decide (c = "."%char) then s else rev_s | [] => [] end.
(** ["%.8f"] into 48 bytes, trimmed. *)
Definition fmt_double (d : double) : text :=
  let s := take 47 (fixed8 d) in
  if bool_decide ("."%char ∈ s) then rev (drop_point (drop_zeros (rev s))) else s.
Definition format_decimal (d : double) : text := match fmt_double d with [] => txt "0" | s => s end.
Definition append_kv_str (first : bool) (out : text) (key : string) (value : text) : text :=
  out ++ (if first then [] else [","%char]) ++ c_quote :: txt key ++ [c_quote; ":"%char; c_quote] ++ value ++ [c_quote].
Definition side_to_bitget (s : order_side) : string := if bool_decide (s = side_buy) then "buy" else "sell".
Definition tif_to_bitget (t : time_in_force) : string := match t with tif_ioc => "ioc" | tif_fok => "fok" | _ => "gtc" end.
Definition refused (client_order_id : text) : encoded_order :=
  {| enc_endpoint := ""; enc_wire_payload := ""; enc_client_order_id := str client_order_id |}.
Definition bg_order_symbol (o : order_event) (e : bg_encoder) : text :=
  uppercase (if bool_decide (oe_symbol o = "") then bg_default_symbol e else txt (oe_symbol o)).
Definition bg_body (o : order_event) (client_order_id : text) (e : bg_encoder) : text :=
  let is_limit := bool_decide (oe_order_type o = ot_limit) in
  let kv := append_kv_str false in
  let b := append_kv_str true ["{"%char] "category" (bg_category e) in
  let b := kv b "symbol" (bg_order_symbol o e) in
  let b := kv b "side" (txt (side_to_bitget (oe_side o))) in
  let b := kv b "orderType" (txt (if is_limit then "limit" else "market")) in
  let b := kv b "qty" (format_decimal (oe_quantity o)) in
  let b := if is_limit then kv (kv b "price" (format_decimal (oe_price o))) "timeInForce" (txt (tif_to_bitget (oe_tif o))) else b in
  let b := if bool_decide (client_order_id ≠ []) then kv b "clientOid" client_order_id else b in
  let b := kv b "reduceOnly" (txt (if bg_reduce_only e then "yes" else "no")) in
  let b := if is_limit && bool_decide (bg_margin_mode e ≠ []) then kv b "marginMode" (bg_margin_mode e) else b in
  b ++ ["}"%char].
Definition bg_encode_submit (o : order_event) (client_order_id : text) (e : bg_encoder) : encoded_order :=
  let t := oe_order_type o in
  if bool_decide (t = ot_stop) || bool_decide (t = ot_stop_limit) then refused client_order_id else
  if bool_decide (client_order_id ≠ []) && negb (valid_client_oid client_order_id) then refused client_order_id else
  if bool_decide (bg_order_symbol o e = []) || bool_decide (bg_category e = []) then refused client_order_id else
  if negb (bool_decide (t = ot_limit)) && bool_decide (t ≠ ot_market) then refused client_order_id else
  {| enc_endpoint := "/api/v3/trade/place-order"; enc_wire_payload := str (bg_body o client_order_id e); enc_client_order_id := str client_order_id |}.
Definition bg_encode_cancel (exchange_order_id client_order_id : text) (e : bg_encoder) : encoded_order :=
  let has_ex := bool_decide (exchange_order_id ≠ []) in
  let has_cli := bool_decide (client_order_id ≠ []) in
  if negb has_ex && negb has_cli then refused client_order_id else
  if has_cli && negb has_ex && negb (valid_client_oid client_order_id) then refused client_order_id else
  if bool_decide (bg_category e = []) then refused client_order_id else
  let b := append_kv_str true ["{"%char] "category" (bg_category e) in
  let b := if has_ex then append_kv_str false b "orderId" exchange_order_id else append_kv_str false b "clientOid" client_order_id in
  {| enc_endpoint := "/api/v3/trade/cancel-order"; enc_wire_payload := str (b ++ ["}"%char]); enc_client_order_id := str client_order_id |}.
