(* ===== verification/EncoderTheorems.v ===== *)
(** * What the venue reads of an encoded order

    Against the reader of query strings of LiveSafetyTheorems.v, which reads as the venue does. *)

From Stdlib Require Import Ascii.
From S2P Require Import Prelude Float64 Event Bridge JsonScan JsonTheorems BinanceParsers BitgetParsers VenueTheorems LiveSafety LiveSafetyTheorems Encoders.

Open Scope string_scope.
Open Scope list_scope.
Open Scope Z_scope.

(** ** Numbers *)

Lemma pretty_char (x : N) : (x < 10)%N → digit_val 10 (pretty_N_char x) = Some (Z.of_N x).
Proof.
  intros H. assert (Forall (λ x, digit_val 10 (pretty_N_char x) = Some (Z.of_N x)) (N.of_nat <$> seq 0 10)) as HF.
  { repeat (constructor; [vm_compute; reflexivity|]). constructor. }
  rewrite Forall_forall in HF. apply HF. apply list_elem_of_fmap. exists (N.to_nat x). split; [lia|]. apply elem_of_seq. lia.
Qed.
Lemma value_cons b d ds : digits_value b (d :: ds) = d * b ^ Z.of_nat (length ds) + digits_value b ds.
Proof.
  unfold digits_value. cbn [foldl]. rewrite Z.mul_0_l, Z.add_0_l. revert d. induction ds as [|x ds IH]; intros d; cbn [foldl length].
  - change (Z.of_nat 0) with 0. rewrite Z.pow_0_r. lia.
  - rewrite IH, (IH (0 * b + x)). rewrite Nat2Z.inj_succ, Z.pow_succ_r by lia. lia.
Qed.
Lemma pretty_go_digits (x : N) s ds r : digits 10 (txt s) = (ds, r) →
  ∃ ds', digits 10 (txt (pretty_N_go x s)) = (ds', r) ∧ digits_value 10 ds' = Z.of_N x * 10 ^ Z.of_nat (length ds) + digits_value 10 ds.
Proof.
  revert s ds. induction (N.lt_wf_0 x) as [x _ IH]; intros s ds Hs. destruct (decide (x = 0%N)) as [->|Hx].
  - rewrite pretty_N_go_0. exists ds. split; [done|]. lia.
  - rewrite pretty_N_go_step by lia. assert ((x mod 10 < 10)%N) by (apply N.mod_lt; lia).
    destruct (IH (x `div` 10)%N ltac:(apply N.div_lt; lia) (String (pretty_N_char (x `mod` 10)) s) (Z.of_N (x mod 10) :: ds)) as (ds' & H1 & H2).
    { cbn [txt String.list_ascii_of_string digits]. rewrite pretty_char by done. fold (txt s). by rewrite Hs. }
    exists ds'. split; [done|]. rewrite H2, value_cons. cbn [length]. rewrite Nat2Z.inj_succ, Z.pow_succ_r by lia.
    rewrite N2Z.inj_div, N2Z.inj_mod. pose proof (Z.div_mod (Z.of_N x) 10). change (Z.of_N 10) with 10. nia.
Qed.
Lemma pretty_digits (z : Z) : 0 <= z → ∃ ds, digits 10 (txt (pretty z)) = (ds, []) ∧ ds ≠ [] ∧ digits_value 10 ds = z.
Proof.
  intros Hz. assert (pretty z = pretty (Z.to_N z)) as ->.
  { destruct z; [done|done|lia]. }
  unfold pretty at 1, pretty_N. destruct (decide (Z.to_N z = 0%N)) as [E|E].
  - exists [0]. split_and!; [done|done|]. cbn. lia.
  - destruct (pretty_go_digits (Z.to_N z) "" [] []) as (ds & H1 & H2); [done|]. exists ds. split; [done|].
    cbn in H2. split; [intros ->; cbn in H2; lia|lia].
Qed.
Definition is_digit (c : ascii) : Prop := is_Some (digit_val 10 c).
Lemma digits_all s ds : digits 10 s = (ds, []) → Forall is_digit s.
Proof.
  revert ds. induction s as [|c s IH]; intros ds; cbn; [constructor|]. destruct (digit_val 10 c) eqn:E; [|done].
  destruct (digits 10 s) as [ds' r]. intros [= <- ->]. constructor; [by eexists|by eapply IH].
Qed.
Definition plain (c : ascii) : bool := unreserved c && negb (bool_decide (c = c_quote)).
Lemma digit_plain c : is_digit c → plain c = true.
Proof. unfold is_digit. intros [d H]. destruct c as [[] [] [] [] [] [] [] []]; first [reflexivity|discriminate H]. Qed.
Lemma pretty_plain (z : Z) : Forall (λ c, plain c = true) (txt (pretty z)).
Proof.
  assert (∀ z, 0 <= z → Forall (λ c, plain c = true) (txt (pretty z))) as H.
  { intros x Hx. destruct (pretty_digits x Hx) as (ds & E & _). apply digits_all in E. eapply Forall_impl; [exact E|apply digit_plain]. }
  destruct z as [|p|p]; [by apply H|by apply H|]. specialize (H (Zpos p) ltac:(lia)).
  change (pretty (Z.neg p)) with (String "-" (pretty (Z.pos p))). cbn [txt String.list_ascii_of_string]. by constructor.
Qed.
Lemma fixed8_plain d : Forall (λ c, plain c = true) (fixed8 d).
Proof.
  assert (∀ (s : bool) z, Forall (λ c, plain c = true)
    ((if s then ["-"%char] else []) ++ txt (pretty (z / 100000000)) ++ "."%char :: pad 8 (z mod 100000000))) as Hdec.
  { intros s z. rewrite !Forall_app, Forall_cons. split_and!; [destruct s; repeat constructor|apply pretty_plain|done|].
    unfold pad. rewrite Forall_app. split; [by apply Forall_replicate|apply pretty_plain]. }
  destruct d as [s|s| |s m e]; cbn [fixed8]; [apply Hdec|destruct s; by repeat constructor|by repeat constructor|apply Hdec].
Qed.
Lemma encode_plain s : Forall (λ c, plain c = true) s → url_encode s = s.
Proof.
  induction 1 as [|c s Hc _ IH]; [done|]. rewrite url_encode_cons. unfold escaped. unfold plain in Hc.
  destruct (unreserved c); [|done]. by rewrite IH.
Qed.
Definition fits (d : double) : bool := (length (fixed8 d) <=? 63)%nat.
Lemma number_query l k d : l ≠ [] → fits d = true → append_number (query l) k d = Some (query (l ++ [(k, fixed8 d)])).
Proof.
  unfold append_number, fits. intros Hl. destruct (Nat.leb_spec (length (fixed8 d)) 63); [|done]. intros _.
  destruct (Nat.ltb_spec 63 (length (fixed8 d))); [lia|]. f_equal. rewrite <-append_query. unfold append_param.
  rewrite (encode_plain (fixed8 d)) by apply fixed8_plain.
  destruct (query l) eqn:E; [|by rewrite <-app_assoc]. destruct l as [|x [|y l]]; [done|..]; cbn in E; unfold print_param in E; by destruct (txt x.1).
Qed.

(** ** Binance *)

Definition optional {A} (b : bool) (x : A) : list A := if b then [x] else [].
Definition prefix_fields (k : market) (sym : text) (s : order_side) (t : order_type) (tif : time_in_force) : list (string * text) :=
  [("symbol", sym); ("side", txt (side_to_binance s)); ("type", txt (order_type_to_binance k t))] ++
  optional (takes_tif k t) ("timeInForce", txt (tif_to_binance tif)).
(** The parameters of an order, as the venue should read them. *)
Definition order_fields (k : market) (sym : text) (o : order_event) (cid : text) : list (string * text) :=
  prefix_fields k sym (oe_side o) (oe_order_type o) (oe_tif o) ++ [("quantity", fixed8 (oe_quantity o))] ++
  optional (takes_price k (oe_order_type o)) ("price", fixed8 (oe_price o)) ++
  optional (takes_stop_price (oe_order_type o)) ("stopPrice", fixed8 (oe_stop_price o)) ++
  optional (bool_decide (cid ≠ [])) ("newClientOrderId", cid).
(** An order with codes of the enumerations, whose numbers fit the buffer. *)
Definition named_codes (s : order_side) (t : order_type) (tif : time_in_force) : bool :=
  match s, t, tif with side_raw _, _, _ | _, ot_raw _, _ | _, _, tif_raw _ => false | _, _, _ => true end.
Definition named_order (o : order_event) : bool := named_codes (oe_side o) (oe_order_type o) (oe_tif o).
Definition numbers_fit (k : market) (o : order_event) : bool :=
  fits (oe_quantity o) && (negb (takes_price k (oe_order_type o)) || fits (oe_price o)) &&
  (negb (takes_stop_price (oe_order_type o)) || fits (oe_stop_price o)).
Inductive encoder_run (k : market) : encoder → Prop :=
| er_new sym : encoder_run k (mk_encoder sym)
| er_default sym e : encoder_run k e → encoder_run k (set_default_symbol sym e)
| er_submit o cid enc e e' : encoder_run k e → named_order o = true → encode_submit k o cid e = Some (enc, e') → encoder_run k e'.

Lemma prefix_query k sym s t tif : prefix_for k sym s t tif = query (prefix_fields k sym s t tif).
Proof.
  unfold prefix_for, prefix_fields. change (append_param [] "symbol" sym) with (append_param (query []) "symbol" sym).
  rewrite !append_query. by destruct (takes_tif k t).
Qed.
Definition cache_ok (k : market) (e : encoder) : Prop :=
  length (prefix_cache_ e) = kPrefixCacheSize ∧
  ∀ s t tif (p : text), named_codes s t tif = true → prefix_cache_ e !! cache_index s t tif = Some p →
    p = [] ∨ p = prefix_for k (default_symbol_ e) s t tif.
Lemma index_bound s t tif : named_codes s t tif = true → (cache_index s t tif < kPrefixCacheSize)%nat.
Proof. destruct s, t, tif; intros H; try discriminate H; vm_compute; lia. Qed.
Lemma index_inj s t tif s' t' tif' : named_codes s t tif = true → named_codes s' t' tif' = true →
  cache_index s t tif = cache_index s' t' tif' → (s, t, tif) = (s', t', tif').
Proof.
  destruct s, t, tif; intros H; try discriminate H; clear H; destruct s', t', tif'; intros H; try discriminate H; clear H;
    vm_compute; intros H; first [reflexivity|discriminate H].
Qed.
Lemma cached_exact k s t tif e : cache_ok k e → named_codes s t tif = true →
  ∃ e', cached_prefix k s t tif e = Some (prefix_for k (default_symbol_ e) s t tif, e') ∧ cache_ok k e' ∧ default_symbol_ e' = default_symbol_ e.
Proof.
  intros [Hl Hc] Hn. pose proof (index_bound s t tif Hn) as Hb. rewrite <-Hl in Hb. unfold cached_prefix. set (i := cache_index s t tif) in *.
  destruct (lookup_lt_is_Some_2 (prefix_cache_ e) i Hb) as [p E].
  destruct (Hc s t tif p Hn E) as [->| ->]; unfold text in *; rewrite E; cbn [mbind option_bind].
  - eexists. split_and!; [done| |done]. split; [cbn; by rewrite length_insert|]. intros s' t' tif' p Hn' Hp. cbn in Hp |- *.
    unfold text in *. destruct (decide (i = cache_index s' t' tif')) as [Ei|Ei].
    + rewrite <-Ei, list_lookup_insert_eq in Hp by done. injection Hp as <-. apply index_inj in Ei as [= -> -> ->]; [|done..]. by right.
    + rewrite list_lookup_insert_ne in Hp by done. by apply Hc.
  - rewrite prefix_query. destruct (query _) eqn:Eq; eexists; split_and!; try done.
Qed.
Lemma submit_exact k e o cid : cache_ok k e → named_order o = true → numbers_fit k o = true →
  ∃ e', encode_submit k o cid e =
    Some ({| enc_endpoint := endpoint_of k; enc_wire_payload := str (query (order_fields k (order_symbol o e) o cid)); enc_client_order_id := str cid |}, e') ∧
    cache_ok k e' ∧ default_symbol_ e' = default_symbol_ e.
Proof.
  intros Hc Hn Hf. unfold encode_submit. set (sym := order_symbol o e).
  assert (∃ e', (if bool_decide (sym = default_symbol_ e) then cached_prefix k (oe_side o) (oe_order_type o) (oe_tif o) e
    else Some (prefix_for k sym (oe_side o) (oe_order_type o) (oe_tif o), e)) = Some (query (prefix_fields k sym (oe_side o) (oe_order_type o) (oe_tif o)), e') ∧
    cache_ok k e' ∧ default_symbol_ e' = default_symbol_ e) as (e' & -> & He & Hd).
  { rewrite <-prefix_query. case_bool_decide as Es; [|by exists e]. rewrite Es. by apply cached_exact. }
  cbn [mbind option_bind]. exists e'. split; [|done]. unfold order_fields. 
  assert (prefix_fields k sym (oe_side o) (oe_order_type o) (oe_tif o) ≠ []) as Hl by done.
  generalize dependent (prefix_fields k sym (oe_side o) (oe_order_type o) (oe_tif o)). intros l Hl.
  unfold numbers_fit in Hf. apply andb_true_iff in Hf as [Hf Hs]. apply andb_true_iff in Hf as [Hq Hp].
  rewrite (number_query l) by done. cbn [mbind option_bind].
  assert (∀ b l key d, l ≠ [] → negb b || fits d = true → append_number_if b (query l) key d = Some (query (l ++ optional b (key, fixed8 d)))) as Hif.
  { intros b l' key d Hl' Hb. unfold append_number_if, optional. destruct b; [by apply number_query|by rewrite app_nil_r]. }
  rewrite Hif by (done || by destruct l). cbn [mbind option_bind]. rewrite Hif by (done || by destruct l). cbn [mbind option_bind].
  rewrite <-!app_assoc. unfold optional at 3. case_bool_decide as Ec; [rewrite bool_decide_false by naive_solver|rewrite bool_decide_true by done].
  - by rewrite app_nil_r.
  - rewrite append_query. by rewrite <-!app_assoc.
Qed.

Lemma submit_keeps k e o cid enc e' : cache_ok k e → named_order o = true → encode_submit k o cid e = Some (enc, e') → cache_ok k e'.
Proof.
  intros Hc Hn. unfold encode_submit. set (sym := order_symbol o e). destruct (bool_decide (sym = default_symbol_ e)).
  - destruct (cached_exact k (oe_side o) (oe_order_type o) (oe_tif o) e Hc Hn) as (e1 & -> & H1 & _). cbn [mbind option_bind].
    repeat (destruct (append_number _ _ _) || destruct (append_number_if _ _ _ _); cbn [mbind option_bind]; try done). by intros [= _ <-].
  - cbn [mbind option_bind].
    repeat (destruct (append_number _ _ _) || destruct (append_number_if _ _ _ _); cbn [mbind option_bind]; try done). by intros [= _ <-].
Qed.
Lemma encoder_invariant k e : encoder_run k e → cache_ok k e.
Proof.
  induction 1 as [sym|sym e _ [Hl Hc]|o cid enc e e' _ IH Hn H].
  - split; [done|]. intros s t tif p Hn Hp. unfold mk_encoder in Hp. cbn [prefix_cache_] in Hp. apply lookup_replicate in Hp as [-> _]. by left.
  - split; [cbn; by rewrite length_fmap|]. cbn. intros s t tif p Hn Hp. rewrite list_lookup_fmap in Hp. left.
    by destruct (prefix_cache_ e !! cache_index s t tif); [injection Hp as <-|].
  - by eapply submit_keeps.
Qed.
Lemma order_fields_plain k sym o cid : Forall (λ p, plain_key p.1) (order_fields k sym o cid).
Proof.
  unfold order_fields, prefix_fields, optional. assert (∀ k : string, bool_decide (plain_key k) = true → plain_key k) as H by (intros; by eapply bool_decide_eq_true).
  repeat (apply Forall_app; split); repeat case_match; repeat constructor; cbn [fst]; try (apply H; by vm_compute).
  all: by apply H; vm_compute.
Qed.

(** C17: What the Binance encoders send is the order: after any sequence of orders and changes of the
    default symbol, for every order with a side, type and time in force of the enumerations
    whose numbers fit the buffer, the encoder returns a payload from which the venue reads exactly
    the parameters of the order (its symbol in upper case or the default one, side, type, the
    time in force, price and stop price where the type has them, and the client id), whether or
    not the constant part came from the cache, and whatever characters the symbol and id hold. *)
Theorem submit_decodes k e o cid : encoder_run k e → named_order o = true → numbers_fit k o = true →
  ∃ enc e', encode_submit k o cid e = Some (enc, e') ∧ enc_endpoint enc = endpoint_of k ∧ enc_client_order_id enc = str cid ∧
    decode_query (txt (enc_wire_payload enc)) = (λ p, (txt p.1, p.2)) <$> order_fields k (order_symbol o e) o cid.
Proof.
  intros Hr Hn Hf. destruct (submit_exact k e o cid (encoder_invariant k e Hr) Hn Hf) as (e' & -> & _). do 2 eexists.
  split; [done|]. split_and!; [done|done|]. cbn [enc_wire_payload]. rewrite txt_str.
  pose proof (order_fields_plain k (order_symbol o e) o cid) as Hp.
  destruct (order_fields k (order_symbol o e) o cid) as [|p l] eqn:E; [done|]. by apply query_decodes.
Qed.
Definition sample_order : order_event := mk_order_event 0 "btc" ot_limit side_sell (d_of_Z 2) (d_of_ratio 1 2) tif_gtc d_zero.
Lemma submit_decodes_witness :
  decode_query (txt "symbol=BTC&side=SELL&type=LIMIT&timeInForce=GTC&quantity=2.00000000&price=0.50000000&newClientOrderId=tt-1%2f") =
  [(txt "symbol", txt "BTC"); (txt "side", txt "SELL"); (txt "type", txt "LIMIT"); (txt "timeInForce", txt "GTC");
   (txt "quantity", txt "2.00000000"); (txt "price", txt "0.50000000"); (txt "newClientOrderId", txt "tt-1/")].
Proof.
  destruct (submit_decodes futures (mk_encoder (txt "btc")) sample_order (txt "tt-1/")) as (enc & e' & H & _ & _ & Hd);
    [constructor|reflexivity|vm_compute; reflexivity|].
  assert (enc_wire_payload enc = "symbol=BTC&side=SELL&type=LIMIT&timeInForce=GTC&quantity=2.00000000&price=0.50000000&newClientOrderId=tt-1%2f") as E.
  { vm_compute in H. by injection H as <- _. }
  rewrite E in Hd. rewrite Hd. vm_compute. reflexivity.
Defined.

(** ** Bitget *)

Definition quoted_fields (l : list (string * text)) : list (text * jval) := (λ p, (txt p.1, j_str p.2)) <$> l.
(** The fields of an order, as the venue should read them. *)
Definition bg_fields (o : order_event) (cid : text) (e : bg_encoder) : list (string * text) :=
  let limit := bool_decide (oe_order_type o = ot_limit) in
  [("category", bg_category e); ("symbol", bg_order_symbol o e); ("side", txt (side_to_bitget (oe_side o)));
   ("orderType", txt (if limit then "limit" else "market")); ("qty", format_decimal (oe_quantity o))] ++
  (if limit then [("price", format_decimal (oe_price o)); ("timeInForce", txt (tif_to_bitget (oe_tif o)))] else []) ++
  optional (bool_decide (cid ≠ [])) ("clientOid", cid) ++ [("reduceOnly", txt (if bg_reduce_only e then "yes" else "no"))] ++
  optional (limit && bool_decide (bg_margin_mode e ≠ [])) ("marginMode", bg_margin_mode e).
(** What is sent: market and limit orders with a symbol, a category and an id of the venue's form. *)
Definition bg_accepts (o : order_event) (cid : text) (e : bg_encoder) : bool :=
  (bool_decide (oe_order_type o = ot_market) || bool_decide (oe_order_type o = ot_limit)) && (bool_decide (cid = []) || valid_client_oid cid) &&
  bool_decide (bg_order_symbol o e ≠ []) && bool_decide (bg_category e ≠ []).

Lemma print_snoc f fs g : print_fields ((f :: fs) ++ [g]) = print_fields (f :: fs) ++ ","%char :: print_field g.
Proof.
  revert f. induction fs as [|h fs IH]; intros f; [done|].
  change (print_fields ((f :: h :: fs) ++ [g])) with (print_field f ++ ","%char :: print_fields ((h :: fs) ++ [g])). rewrite IH.
  change (print_fields (f :: h :: fs)) with (print_field f ++ ","%char :: print_fields (h :: fs)). by rewrite <-app_assoc.
Qed.
Lemma append_quoted l k v : l ≠ [] → append_kv_str false ("{"%char :: print_fields (quoted_fields l)) k v = "{"%char :: print_fields (quoted_fields (l ++ [(k, v)])).
Proof.
  intros Hl. unfold append_kv_str, quoted_fields. destruct l as [|p l]; [done|]. rewrite fmap_app. cbn [fmap list_fmap].
  rewrite print_snoc. done.
Qed.
Lemma first_quoted v k : append_kv_str true ["{"%char] k v = "{"%char :: print_fields (quoted_fields [(k, v)]).
Proof. done. Qed.
Lemma fmt_plain d : Forall (λ c, plain c = true) (fmt_double d) ∧ Forall (λ c, plain c = true) (format_decimal d).
Proof.
  assert (∀ s, Forall (λ c, plain c = true) s → Forall (λ c, plain c = true) (drop_zeros s)) as Hz.
  { induction 1 as [|c s Hc Hs IH]; cbn; [constructor|]. case_bool_decide; [done|by constructor]. }
  assert (∀ s, Forall (λ c, plain c = true) s → Forall (λ c, plain c = true) (drop_point s)) as Hp.
  { intros s Hs. destruct Hs as [|c s Hc Hs]; cbn; [constructor|]. case_bool_decide; [done|by constructor]. }
  assert (Forall (λ c, plain c = true) (fmt_double d)) as H.
  { pose proof (Forall_take _ 47 _ (fixed8_plain d)) as Ht. unfold fmt_double. case_bool_decide; [|done].
    apply Forall_rev, Hp, Hz, Forall_rev, Ht. }
  split; [done|]. unfold format_decimal. destruct (fmt_double d); [by repeat constructor|done].
Qed.
Lemma plain_no_quote s : Forall (λ c, plain c = true) s → c_quote ∉ s.
Proof. intros H Hin. rewrite Forall_forall in H. specialize (H _ Hin). discriminate H. Qed.
Lemma oid_no_quote cid : valid_client_oid cid = true → c_quote ∉ cid.
Proof.
  intros H Hin. unfold valid_client_oid in H. apply andb_true_iff in H as [_ H]. rewrite forallb_forall in H.
  specialize (H c_quote ltac:(by apply list_elem_of_In)). discriminate H.
Qed.
Lemma bg_body_exact o cid e : bg_body o cid e = print_object (quoted_fields (bg_fields o cid e)).
Proof.
  unfold bg_body, bg_fields, print_object. generalize (bool_decide (oe_order_type o = ot_limit)) as lim. intros lim. rewrite first_quoted.
  destruct lim, (bool_decide (cid ≠ [])), (bool_decide (bg_margin_mode e ≠ [])); cbn [andb optional];
    rewrite !append_quoted by done; rewrite <-?app_assoc; done.
Qed.
Lemma bg_exact o cid e : bg_encode_submit o cid e =
  if bg_accepts o cid e
  then {| enc_endpoint := "/api/v3/trade/place-order"; enc_wire_payload := str (print_object (quoted_fields (bg_fields o cid e))); enc_client_order_id := str cid |}
  else refused cid.
Proof.
  unfold bg_encode_submit, bg_accepts. rewrite bg_body_exact.
  rewrite !(bool_decide_not (bg_order_symbol o e = [])), !(bool_decide_not (bg_category e = [])), !(bool_decide_not (cid = [])).
  destruct (bool_decide (cid = [])), (bool_decide (bg_order_symbol o e = [])), (bool_decide (bg_category e = [])), (valid_client_oid cid), (oe_order_type o); reflexivity.
Qed.

(** What Bitget is sent is the order: an order is encoded exactly when it is a market or limit
    order with a symbol, a category and no client id or one of the venue's form, and is refused
    without a payload otherwise; and from the body of an encoded one a scanner reads its fields, in
    order and nothing else, when the configured names hold no quote. *)
Theorem bg_submit_read o cid e :
  c_quote ∉ bg_category e → c_quote ∉ bg_order_symbol o e → c_quote ∉ bg_margin_mode e →
  let enc := bg_encode_submit o cid e in
  if bg_accepts o cid e
  then enc_endpoint enc = "/api/v3/trade/place-order" ∧ enc_client_order_id enc = str cid ∧
       for_each_flat_field (txt (enc_wire_payload enc)) = (λ p, (txt p.1, p.2)) <$> bg_fields o cid e
  else enc = refused cid.
Proof.
  intros Hc Hs Hm. cbv zeta. rewrite bg_exact. destruct (bg_accepts o cid e) eqn:Ha; [|done]. split_and!; [done|done|].
  cbn [enc_wire_payload]. rewrite txt_str, walk_print.
  - unfold quoted_fields. rewrite <-list_fmap_compose. done.
  - assert (∀ k : string, bool_decide (clean_key (txt k)) = true → ∀ v, c_quote ∉ v → clean (txt k, j_str v)) as Hk.
    { intros k Hk v Hv. split; [by eapply bool_decide_eq_true|done]. }
    assert (cid = [] ∨ c_quote ∉ cid) as Hcid.
    { unfold bg_accepts in Ha. rewrite !andb_true_iff, !orb_true_iff in Ha. destruct Ha as [[[_ [H|H]] _] _]; [left; by eapply bool_decide_eq_true|right; by apply oid_no_quote]. }
    assert (∀ d, c_quote ∉ format_decimal d) as Hd by (intros d; apply plain_no_quote, fmt_plain).
    assert (∀ s, bool_decide (c_quote ∉ txt s) = true → c_quote ∉ txt s) as Ht by (intros s H; exact (proj1 (bool_decide_eq_true _) H)).
    unfold quoted_fields, bg_fields, optional. rewrite !fmap_app. repeat (apply Forall_app; split).
    + apply (Forall_cons_2 _ _ _ (Hk "category" eq_refl _ Hc)), (Forall_cons_2 _ _ _ (Hk "symbol" eq_refl _ Hs)), Forall_cons_2.
      { apply (Hk "side" eq_refl), Ht. unfold side_to_bitget. by destruct (bool_decide (oe_side o = side_buy)). }
      apply Forall_cons_2; [apply (Hk "orderType" eq_refl), Ht; by destruct (bool_decide (oe_order_type o = ot_limit))|].
      apply (Forall_cons_2 _ _ _ (Hk "qty" eq_refl _ (Hd _))). constructor.
    + destruct (bool_decide (oe_order_type o = ot_limit)); [|constructor]. apply (Forall_cons_2 _ _ _ (Hk "price" eq_refl _ (Hd _))).
      apply Forall_singleton, (Hk "timeInForce" eq_refl), Ht. by destruct (oe_tif o).
    + case_bool_decide; [|constructor]. apply Forall_singleton, Hk; [reflexivity|naive_solver].
    + apply Forall_singleton, Hk; [reflexivity|]. apply Ht. by destruct (bg_reduce_only e).
    + case_match; [|constructor]. apply Forall_singleton, Hk; [reflexivity|done].
Qed.
Lemma bg_submit_read_witness :
  for_each_flat_field (txt (enc_wire_payload (bg_encode_submit sample_order (txt "tt-1") (mk_bg_encoder [] (txt "USDT-FUTURES"))))) =
  (λ p, (txt p.1, p.2)) <$> bg_fields sample_order (txt "tt-1") (mk_bg_encoder [] (txt "USDT-FUTURES")) ∧
  bg_encode_submit sample_order [c_quote] (mk_bg_encoder [] (txt "USDT-FUTURES")) = refused [c_quote].
Proof.
  pose proof (λ cid, bg_submit_read sample_order cid (mk_bg_encoder [] (txt "USDT-FUTURES"))) as H.
  assert (∀ s : text, bool_decide (c_quote ∉ s) = true → c_quote ∉ s) as Q by (intros s E; exact (proj1 (bool_decide_eq_true _) E)).
  split; [apply (H (txt "tt-1")); apply Q; vm_compute; reflexivity|].
  apply (H [c_quote]); apply Q; vm_compute; reflexivity.
Defined.
