(* ===== verification/VenueBrackets.v ===== *)
(** * Brackets resting at the venue (src/src/providers/binance/binance_futures_bracket_adapter.h,
    binance_oco_bracket_adapter.h, src/src/providers/bitget/bitget_futures_bracket_adapter.h)

    The adapters behind the exit manager: they turn an exit intent into resting orders, cancel
    what they placed, and after a restart read from the venue which brackets still rest.  The
    opener's id travels in the client order id.  The venue is the world of the live-safety
    surface; an adapter without the callable it needs does nothing.  Prices are binary64. *)

From Stdlib Require Import Ascii.
From S2P Require Import Prelude Float64 Event Arith Portfolio Exits JsonScan BinanceParsers BitgetParsers LiveSafety Encoders.

Open Scope string_scope.
Open Scope list_scope.
Open Scope Z_scope.

#[local] Existing Instance double_arith.

Record bracket_caps := { cap_stop_market : bool; cap_stop_limit : bool; cap_oco : bool; cap_trailing_stop : bool }.

(** [std::stoull]: no digits and a value out of range are exceptions, a minus wraps. *)
Definition stoull (s : text) : option Z :=
  let '(neg, s) := signed (skip_spaces s) in
  let ds := (digits 10 s).1 in
  let v := digits_value 10 ds in
  if bool_decide (ds = []) || (2 ^ 64 <=? v) then None else Some (if neg then u64 (- v) else v).
(** The opener in a client order id with a prefix. *)
Definition opener_of (prefix : string) (cli : text) : option Z :=
  match strip_prefix (txt prefix) cli with Some ((_ :: _) as rest) => stoull rest | _ => None end.
Definition has_prefix (prefix : string) (cli : text) : bool :=
  match strip_prefix (txt prefix) cli with Some (_ :: _) => true | _ => false end.
Definition whole (i : exit_intent) : bool :=
  negb (d_lt (qty_fraction i) (d_of_ratio 999999 1000000)) && negb (d_lt (d_of_ratio 1000001 1000000) (qty_fraction i)).
Definition close_side_text (i : exit_intent) : text := txt (if bool_decide (close_side i = side_sell) then "SELL" else "BUY").
Definition non_empty (t : text) : option string := match t with [] => None | _ => Some (str t) end.
Definition midpoint (sl tp : option double) : double :=
  match sl, tp with
  | Some s, Some t => d_mul (d_add s t) (d_of_ratio 1 2)
  | Some x, None | None, Some x => x
  | None, None => d_zero
  end.
Definition no_bracket : recovered_bracket :=
  {| rb_opener_order_id := 0; rb_strategy_name := ""; rb_symbol := ""; rb_close_side := side_sell; rb_qty := d_zero;
     rb_entry_price := d_zero; rb_stop_loss := None; rb_take_profit := None; rb_handles := no_handles |}.
Definition set_entry (rb : recovered_bracket) : recovered_bracket :=
  {| rb_opener_order_id := rb_opener_order_id rb; rb_strategy_name := rb_strategy_name rb; rb_symbol := rb_symbol rb;
     rb_close_side := rb_close_side rb; rb_qty := rb_qty rb; rb_entry_price := midpoint (rb_stop_loss rb) (rb_take_profit rb);
     rb_stop_loss := rb_stop_loss rb; rb_take_profit := rb_take_profit rb; rb_handles := rb_handles rb |}.

Section Adapters.
Context {W : Type} `{Venue W}.

(** ** Binance futures: two orders that close the position *)

Definition fb_capabilities : bracket_caps := {| cap_stop_market := true; cap_stop_limit := false; cap_oco := false; cap_trailing_stop := false |}.
Definition leg_params (type : string) (symbol side : text) (trigger : double) (client_id : text) : text :=
  let p := append_param [] "symbol" symbol in
  let p := append_param p "side" side in
  let p := append_param p "type" (txt type) in
  let p := append_param p "stopPrice" (fmt_double trigger) in
  let p := append_param p "closePosition" (txt "true") in
  let p := append_param p "reduceOnly" (txt "true") in
  append_param p "newClientOrderId" client_id.
(** The order's id, empty when it was not placed. *)
Definition place_leg (type : string) (symbol side : text) (trigger : double) (client_id : text) (w : W) : text * W :=
  let '(r, w) := call POST "/fapi/v1/order" (leg_params type symbol side trigger client_id) w in
  if negb (http_ok (rs_status r)) then ([], w) else (take_id (rs_body r) (txt "orderId"), w).
Definition sl_pref : string := "tt-fb-sl-".
Definition tp_pref : string := "tt-fb-tp-".
Definition leg_client_id (pref : string) (opener : Z) : text := txt pref ++ txt (pretty opener).
Definition leg_handles (sl tp : text) (symbol : text) : bracket_handles :=
  {| sl_exchange_id := Some (str sl); tp_exchange_id := non_empty tp; oco_list_id := None; bh_symbol := str symbol |}.
Definition fb_place (opener : Z) (i : exit_intent) (w : W) : bracket_handles * W :=
  match stop_loss i, take_profit i with
  | Some sl, Some tp =>
      if negb (whole i) || negb (v_wired (W := W) POST) then (no_handles, w) else
      let symbol := uppercase (txt (ei_symbol i)) in
      let side := close_side_text i in
      let '(sl_id, w) := place_leg "STOP_MARKET" symbol side sl (leg_client_id sl_pref opener) w in
      if bool_decide (sl_id = []) then (no_handles, w) else
      let '(tp_id, w) := place_leg "TAKE_PROFIT_MARKET" symbol side tp (leg_client_id tp_pref opener) w in
      (leg_handles sl_id tp_id symbol, w)
  | _, _ => (no_handles, w)
  end.
Definition cancel_params (symbol id : string) : text :=
  let p := if bool_decide (symbol = "") then [] else append_param [] "symbol" (txt symbol) in append_param p "orderId" (txt id).
Definition cancel_leg (endpoint : string) (symbol : string) (id : option string) (w : W) : W :=
  match id with None => w | Some id => (call DELETE endpoint (cancel_params symbol id) w).2 end.
Definition fb_cancel (h : bracket_handles) (w : W) : W :=
  if negb (v_wired (W := W) DELETE) || handles_empty h then w else
  cancel_leg "/fapi/v1/order" (bh_symbol h) (tp_exchange_id h) (cancel_leg "/fapi/v1/order" (bh_symbol h) (sl_exchange_id h) w).

(** One open order is read into the bracket of its opener. *)
Definition or_else {A} (x y : option A) : option A := match x with Some _ => x | None => y end.
Definition read_leg (is_sl : bool) (opener : Z) (obj : text) (rb : recovered_bracket) : recovered_bracket :=
  let get k := extract_sv_string obj (txt k) in
  let id := non_empty (take_id obj (txt "orderId")) in
  let qty := strtod (get "origQty") in
  let stop := strtod (get "stopPrice") in
  let h := rb_handles rb in
  {| rb_opener_order_id := opener; rb_strategy_name := rb_strategy_name rb; rb_symbol := str (get "symbol");
     rb_close_side := if bool_decide (get "side" = txt "SELL") then side_sell else side_buy;
     rb_qty := if d_lt d_zero qty then qty else rb_qty rb; rb_entry_price := rb_entry_price rb;
     rb_stop_loss := if is_sl then Some stop else rb_stop_loss rb; rb_take_profit := if is_sl then rb_take_profit rb else Some stop;
     rb_handles := {| sl_exchange_id := if is_sl then or_else id (sl_exchange_id h) else sl_exchange_id h;
                      tp_exchange_id := if is_sl then tp_exchange_id h else or_else id (tp_exchange_id h);
                      oco_list_id := oco_list_id h; bh_symbol := str (get "symbol") |} |}.
Definition read_open_order (m : gmap Z recovered_bracket) (obj : text) : gmap Z recovered_bracket :=
  let cli := extract_sv_string obj (txt "clientOrderId") in
  let is_sl := has_prefix sl_pref cli in
  if negb (is_sl || has_prefix tp_pref cli) then m else
  match opener_of (if is_sl then sl_pref else tp_pref) cli with
  | None => m
  | Some opener => <[opener := read_leg is_sl opener obj (default no_bracket (m !! opener))]> m
  end.
Definition fb_read (body : text) : gmap Z recovered_bracket := foldl read_open_order ∅ (plain_objects (length body) false body).
(** The brackets come in the order of a hash table: some order. *)
Definition fb_list_open (w : W) : list recovered_bracket * W :=
  if negb (v_wired (W := W) GET) then ([], w) else
  let '(r, w) := call GET "/fapi/v1/openOrders" [] w in
  if negb (http_ok (rs_status r)) then ([], w) else (set_entry <$> (map_to_list (fb_read (rs_body r))).*2, w).

(** ** Binance spot: one list of two orders *)

Definition oco_capabilities : bracket_caps := {| cap_stop_market := false; cap_stop_limit := true; cap_oco := true; cap_trailing_stop := false |}.
Definition oco_pref : string := "tt-oco-".
(** The limit of the stop leg, a fraction beyond its trigger. *)
Definition stop_limit_price_for (offset : double) (side : order_side) (stop_px : double) : double :=
  d_mul stop_px (if bool_decide (side = side_sell) then d_sub (d_of_Z 1) offset else d_add (d_of_Z 1) offset).
(** The array of a key, found by its quoted name; strings are not skipped. *)
Fixpoint plain_array (depth : nat) (s : text) : option text :=
  match s with
  | [] => None
  | x :: s' =>
      let next depth := cons x <$> plain_array depth s' in
      if bool_decide (x = "["%char) then next (S depth)
      else if bool_decide (x = "]"%char) then if (depth =? 1)%nat then Some [x] else next (pred depth)
      else next depth
  end.
Definition slice (json : text) (key : string) : text :=
  match find_from (c_quote :: txt key ++ [c_quote]) json with
  | None => []
  | Some s => default [] (plain_array 0 (span_until ["["%char] s).2)
  end.
Definition objects_of (arr : text) : list text := plain_objects (length arr) false arr.
Definition is_stop_leg (obj : text) : bool := contains (txt "STOP") (extract_sv_string obj (txt "type")).
Definition leg_order_id (reports : text) (want_stop : bool) : text :=
  match List.filter (λ o, Bool.eqb (is_stop_leg o) want_stop) (objects_of reports) with
  | o :: _ => take_id o (txt "orderId")
  | [] => []
  end.
Definition parse_leg_ids (orders_arr : text) : list text :=
  List.filter (λ id, bool_decide (id ≠ [])) ((λ o, take_id o (txt "orderId")) <$> objects_of orders_arr).
Definition find_open_order (orders_arr target : text) : text :=
  default [] (head (List.filter (λ o, bool_decide (take_id o (txt "orderId") = target)) (objects_of orders_arr))).
Definition oco_params (offset : double) (opener : Z) (i : exit_intent) (sl tp : double) : text :=
  let p := append_param [] "symbol" (uppercase (txt (ei_symbol i))) in
  let p := append_param p "side" (close_side_text i) in
  let p := append_param p "quantity" (fmt_double (ei_qty i)) in
  let p := append_param p "price" (fmt_double tp) in
  let p := append_param p "stopPrice" (fmt_double sl) in
  let p := append_param p "stopLimitPrice" (fmt_double (stop_limit_price_for offset (close_side i) sl)) in
  let p := append_param p "stopLimitTimeInForce" (txt "GTC") in
  let p := append_param p "listClientOrderId" (leg_client_id oco_pref opener) in
  append_param p "newOrderRespType" (txt "RESULT").
Definition oco_place (offset : double) (opener : Z) (i : exit_intent) (w : W) : bracket_handles * W :=
  match stop_loss i, take_profit i with
  | Some sl, Some tp =>
      if negb (v_wired (W := W) POST) then (no_handles, w) else
      let '(r, w) := call POST "/api/v3/order/oco" (oco_params offset opener i sl tp) w in
      if negb (http_ok (rs_status r)) then (no_handles, w) else
      let list_id := extract_sv_number (rs_body r) (txt "orderListId") // extract_sv_string (rs_body r) (txt "listClientOrderId") in
      let reports := slice (rs_body r) "orderReports" in
      ({| sl_exchange_id := non_empty (leg_order_id reports true); tp_exchange_id := non_empty (leg_order_id reports false);
          oco_list_id := non_empty list_id; bh_symbol := str (uppercase (txt (ei_symbol i))) |}, w)
  | _, _ => (no_handles, w)
  end.
Definition oco_cancel (h : bracket_handles) (w : W) : W :=
  let per_leg w := cancel_leg "/api/v3/order" (bh_symbol h) (tp_exchange_id h) (cancel_leg "/api/v3/order" (bh_symbol h) (sl_exchange_id h) w) in
  if negb (v_wired (W := W) DELETE) || handles_empty h then w else
  match oco_list_id h with
  | None => per_leg w
  | Some id =>
      let '(r, w) := call DELETE "/api/v3/orderList" (append_param [] "orderListId" (txt id)) w in
      if http_ok (rs_status r) then w else per_leg w
  end.
Definition oco_read_leg (orders : text) (rb : recovered_bracket) (leg_id : text) : recovered_bracket :=
  match find_open_order orders leg_id with
  | [] => rb
  | leg =>
      let get k := extract_sv_string leg (txt k) in
      let stop := is_stop_leg leg in
      let h := rb_handles rb in
      {| rb_opener_order_id := rb_opener_order_id rb; rb_strategy_name := rb_strategy_name rb; rb_symbol := rb_symbol rb;
         rb_close_side := if bool_decide (get "side" = txt "SELL") then side_sell else side_buy; rb_qty := strtod (get "origQty");
         rb_entry_price := rb_entry_price rb; rb_stop_loss := if stop then Some (strtod (get "stopPrice")) else rb_stop_loss rb;
         rb_take_profit := if stop then rb_take_profit rb else Some (strtod (get "price"));
         rb_handles := {| sl_exchange_id := if stop then Some (str leg_id) else sl_exchange_id h;
                          tp_exchange_id := if stop then tp_exchange_id h else Some (str leg_id);
                          oco_list_id := oco_list_id h; bh_symbol := bh_symbol h |} |}
  end.
Definition oco_read_list (orders obj : text) : option recovered_bracket :=
  let cli := extract_sv_string obj (txt "listClientOrderId") in
  opener ← opener_of oco_pref cli;
  let ids := parse_leg_ids (slice obj "orders") in
  if (length ids <? 2)%nat then None else
  let symbol := str (extract_sv_string obj (txt "symbol")) in
  let rb := {| rb_opener_order_id := opener; rb_strategy_name := ""; rb_symbol := symbol; rb_close_side := side_sell; rb_qty := d_zero;
               rb_entry_price := d_zero; rb_stop_loss := None; rb_take_profit := None;
               rb_handles := {| sl_exchange_id := None; tp_exchange_id := None;
                                oco_list_id := Some (str (extract_sv_number obj (txt "orderListId") // cli)); bh_symbol := symbol |} |} in
  Some (set_entry (foldl (oco_read_leg orders) rb ids)).
Definition oco_list_open (w : W) : list recovered_bracket * W :=
  if negb (v_wired (W := W) GET) then ([], w) else
  let '(lists, w) := call GET "/api/v3/openOrderList" [] w in
  if negb (http_ok (rs_status lists)) then ([], w) else
  let '(orders, w) := call GET "/api/v3/openOrders" [] w in
  if negb (http_ok (rs_status orders)) then ([], w) else
  (omap (oco_read_list (rs_body orders)) (objects_of (rs_body lists)), w).

(** ** Bitget: one order with both levels *)

Definition bg_capabilities : bracket_caps := {| cap_stop_market := true; cap_stop_limit := false; cap_oco := true; cap_trailing_stop := false |}.
Definition bg_pref : string := "tt-fb-".
Definition strategy_body (category : text) (opener : Z) (i : exit_intent) (sl tp : double) : text :=
  let kv := append_kv_str false in
  let b := append_kv_str true ["{"%char] "category" category in
  let b := kv b "symbol" (uppercase (txt (ei_symbol i))) in
  let b := kv b "type" (txt "tpsl") in
  let b := kv b "tpslMode" (txt "full") in
  let b := kv b "side" (txt (if bool_decide (close_side i = side_sell) then "sell" else "buy")) in
  let b := kv b "stopLoss" (fmt_double sl) in
  let b := kv b "takeProfit" (fmt_double tp) in
  let b := kv b "slOrderType" (txt "market") in
  let b := kv b "tpOrderType" (txt "market") in
  let b := kv b "slTriggerBy" (txt "mark") in
  let b := kv b "tpTriggerBy" (txt "mark") in
  kv b "clientOid" (leg_client_id bg_pref opener) ++ ["}"%char].
Definition all_handles (id symbol : text) : bracket_handles :=
  {| sl_exchange_id := Some (str id); tp_exchange_id := Some (str id); oco_list_id := Some (str id); bh_symbol := str symbol |}.
Definition bg_place (category : text) (opener : Z) (i : exit_intent) (w : W) : bracket_handles * W :=
  match stop_loss i, take_profit i with
  | Some sl, Some tp =>
      if negb (whole i) || negb (v_wired (W := W) POST) || bool_decide (category = []) then (no_handles, w) else
      let '(r, w) := call POST "/api/v3/trade/place-strategy-order" (strategy_body category opener i sl tp) w in
      if negb (is_business_success (rs_status r) (rs_body r)) then (no_handles, w) else
      match first_sv (rs_body r) "orderId" with
      | [] => (no_handles, w)
      | id => (all_handles id (uppercase (txt (ei_symbol i))), w)
      end
  | _, _ => (no_handles, w)
  end.
Definition bg_cancel_id (h : bracket_handles) : option string := or_else (oco_list_id h) (or_else (sl_exchange_id h) (tp_exchange_id h)).
Definition order_id_body (id : string) : text := "{"%char :: c_quote :: txt "orderId" ++ [c_quote; ":"%char; c_quote] ++ txt id ++ [c_quote; "}"%char].
Definition bg_cancel (h : bracket_handles) (w : W) : W :=
  if negb (v_wired (W := W) POST) then w else
  match bg_cancel_id h with
  | Some id => if bool_decide (id = "") then w else (call POST "/api/v3/trade/cancel-strategy-order" (order_id_body id) w).2
  | None => w
  end.
Definition parse_level (sv : text) : option double := if bool_decide (sv = []) then None else parse_double_sv sv.
Definition bg_read_bracket (obj : text) : option recovered_bracket :=
  opener ← opener_of bg_pref (extract_sv_string obj (txt "clientOid"));
  let symbol := str (extract_sv_string obj (txt "symbol")) in
  let id := non_empty (first_sv obj "orderId") in
  let side := extract_sv_string obj (txt "side") in
  Some (set_entry {| rb_opener_order_id := opener; rb_strategy_name := ""; rb_symbol := symbol;
    rb_close_side := if is_one_of side ["sell"; "SELL"] then side_sell else side_buy; rb_qty := d_zero; rb_entry_price := d_zero;
    rb_stop_loss := parse_level (first_sv obj "stopLoss"); rb_take_profit := parse_level (first_sv obj "takeProfit");
    rb_handles := {| sl_exchange_id := id; tp_exchange_id := id; oco_list_id := id; bh_symbol := symbol |} |}).
Definition bg_list_open (category : text) (w : W) : list recovered_bracket * W :=
  if negb (v_wired (W := W) GET) then ([], w) else
  let '(r, w) := call GET "/api/v3/trade/unfilled-strategy-orders" (txt "category=" ++ category ++ txt "&type=tpsl") w in
  if negb (is_business_success (rs_status r) (rs_body r)) then ([], w) else
  (omap bg_read_bracket (for_each_array_object (extract_array (rs_body r) (txt "data"))), w).
End Adapters.
