(* ===== verification/VenueBracketTheorems.v ===== *)
(** * What the venue brackets promise

    Everything an adapter placed and was told about is what it later cancels, and after a
    restart the brackets are read back from the venue's list of open orders. *)

From Stdlib Require Import Ascii.
From S2P Require Import Prelude Float64 Event Arith Portfolio Exits JsonScan JsonTheorems BinanceParsers BitgetParsers VenueTheorems LiveSafety LiveSafetyTheorems Encoders EncoderTheorems VenueBrackets.

Open Scope string_scope.
Open Scope list_scope.
Open Scope Z_scope.

#[local] Existing Instance double_arith.

(** ** Teardown *)

Section Teardown.
Context {W : Type} {V : Venue W}.

(** The ids of the orders the venue accepted, in a log of calls. *)
Definition accepted (log : call_log) : list string :=
  omap (λ c, if decide (200 <= rs_status c.1.2 < 300) then non_empty (take_id (rs_body c.1.2) (txt "orderId")) else None) log.
(** What the venue reads of the order of a leg, and of a cancellation. *)
Definition leg_fields (i : exit_intent) (type : string) (level : double) (client_id : string) (opener : Z) : list (text * text) :=
  [(txt "symbol", uppercase (txt (ei_symbol i))); (txt "side", txt (match close_side i with side_sell => "SELL" | _ => "BUY" end));
   (txt "type", txt type); (txt "stopPrice", fmt_double level); (txt "closePosition", txt "true"); (txt "reduceOnly", txt "true");
   (txt "newClientOrderId", txt client_id ++ txt (pretty opener))].
Definition cancel_query (i : exit_intent) (id : string) : list (text * text) :=
  (if bool_decide (ei_symbol i = "") then [] else [(txt "symbol", uppercase (txt (ei_symbol i)))]) ++ [(txt "orderId", txt id)].
(** The intent closes the whole position. *)
Definition full_size (i : exit_intent) : Prop :=
  d_lt (qty_fraction i) (d_of_ratio 999999 1000000) = false ∧ d_lt (d_of_ratio 1000001 1000000) (qty_fraction i) = false.
(** The stop is placed, and the target when the stop was accepted. *)
Definition puts_up (opener : Z) (i : exit_intent) (sl tp : double) (placed : call_log) : Prop :=
  ∃ c1 rest, placed = c1 :: rest ∧ asks POST "/fapi/v1/order" (leg_fields i "STOP_MARKET" sl "tt-fb-sl-" opener) c1.1.1 ∧
    if decide (accepted [c1] = []) then rest = [] else
    ∃ c2, rest = [c2] ∧ asks POST "/fapi/v1/order" (leg_fields i "TAKE_PROFIT_MARKET" tp "tt-fb-tp-" opener) c2.1.1.

Ltac plain_keys := repeat constructor; by apply (bool_decide_unpack _); vm_compute.
Lemma side_text i : close_side_text i = txt (match close_side i with side_sell => "SELL" | _ => "BUY" end).
Proof. unfold close_side_text. destruct (close_side i); [by rewrite bool_decide_false|by rewrite bool_decide_true|by rewrite bool_decide_false]. Qed.
Lemma leg_reads i type level (pref : string) opener :
  decode_query (leg_params type (uppercase (txt (ei_symbol i))) (close_side_text i) level (leg_client_id pref opener)) = leg_fields i type level pref opener.
Proof.
  unfold leg_params. cbv zeta. change (@nil ascii) with (query []). rewrite !append_query. cbn [app]. rewrite query_decodes by plain_keys.
  by rewrite side_text.
Qed.
Lemma cancel_reads i id : decode_query (cancel_params (str (uppercase (txt (ei_symbol i)))) id) = cancel_query i id.
Proof.
  unfold cancel_params, cancel_query. change (@nil ascii) with (query []).
  assert (str (uppercase (txt (ei_symbol i))) = "" ↔ ei_symbol i = "") as Hs by (by destruct (ei_symbol i)).
  rewrite (bool_decide_ext _ _ Hs). case_bool_decide; rewrite !append_query; cbn [app]; rewrite query_decodes by plain_keys; [done|].
  cbn [fmap list_fmap fst snd]. do 2 f_equal. unfold txt, str. by rewrite String.list_ascii_of_string_of_list_ascii.
Qed.

Lemma cancel_logged i id (w : W) (l : call_log) : ∃ w' cs,
  cancel_leg "/fapi/v1/order" (str (uppercase (txt (ei_symbol i)))) id (w, l) = (w', l ++ cs) ∧
  Forall2 (λ c id, asks DELETE "/fapi/v1/order" (cancel_query i id) c.1.1) cs (option_list id).
Proof.
  destruct id as [id|]; cbn [cancel_leg option_list]; [|exists w, []; by rewrite app_nil_r].
  unfold call. cbn [v_call recorded fst snd]. destruct (v_call _ w) as [r w']. cbn [snd]. eexists w', [_]. split; [done|].
  constructor; [|constructor]. split_and!; [done..|apply cancel_reads].
Qed.
Lemma leg_logged opener i (type pref : string) level (w : W) (l : call_log) : ∃ id w' c,
  place_leg type (uppercase (txt (ei_symbol i))) (close_side_text i) level (leg_client_id pref opener) (w, l) = (id, (w', l ++ [c])) ∧
  asks POST "/fapi/v1/order" (leg_fields i type level pref opener) c.1.1 ∧ accepted [c] = option_list (non_empty id).
Proof.
  unfold place_leg, call. cbn [v_call recorded fst snd]. destruct (v_call _ w) as [r w']. unfold accepted. cbn [omap list_omap fst snd].
  pose proof (ok_says r) as Hr. unfold says_ok in Hr.
  destruct (http_ok (rs_status r)); cbn [negb]; do 3 eexists; (split; [reflexivity|]); (split; [split_and!; [done..|apply leg_reads]|]); cbn [fst snd].
  - rewrite decide_True by by apply Hr. by destruct (non_empty _).
  - rewrite decide_False by (intros H; by apply Hr in H). done.
Qed.
Lemma accepted_cons c l : accepted (c :: l) = accepted [c] ++ accepted l.
Proof. unfold accepted. cbn [omap list_omap]. by destruct (if decide _ then _ else _). Qed.
Lemma whole_full i : whole i = true ↔ full_size i.
Proof. unfold whole, full_size. by rewrite andb_true_iff, !negb_true_iff. Qed.

(** C20: The futures brackets are torn down as they were put up, on every venue, whatever it
    answers.  For an intent with both levels and the whole position (within a millionth) the
    stop is placed, and the target exactly when the stop was accepted with an id: the venue reads
    both as orders of the intent's symbol on the side that closes it, triggered at its levels, that
    close the position and only reduce it, under ids with the opener's number; for any other
    intent, and without a way to post, nothing is sent.  The handles are empty exactly when the
    venue returned no order id, and a cancel with them, given a way to cancel, sends one
    cancellation for each order id the venue returned, in order, and no other call. *)
Theorem bracket_torn_down opener i (w : W) :
  let '(h, (w1, placed)) := fb_place opener i (w, [] : call_log) in
  let '(_, cancelled) := fb_cancel h (w1, [] : call_log) in
  match stop_loss i, take_profit i with
  | Some sl, Some tp => (full_size i → v_wired (W := W) POST = true → puts_up opener i sl tp placed) ∧ (¬ full_size i ∨ v_wired (W := W) POST = false → placed = [])
  | _, _ => placed = []
  end ∧
  (handles_empty h = true ↔ accepted placed = []) ∧
  if v_wired (W := W) DELETE then Forall2 (λ c id, asks DELETE "/fapi/v1/order" (cancel_query i id) c.1.1) cancelled (accepted placed)
  else cancelled = [].
Proof.
  unfold fb_place, fb_cancel. cbn [v_wired recorded].
  destruct (stop_loss i) as [sl|]; [|by destruct (v_wired (W := W) DELETE); split_and!; try constructor].
  destruct (take_profit i) as [tp|]; [|by destruct (v_wired (W := W) DELETE); split_and!; try constructor].
  pose proof (whole_full i) as Hw. destruct (whole i); cbn [negb orb].
  2: { destruct (v_wired (W := W) DELETE); (split; [split; [intros H; by apply Hw in H|done]|split; [done|constructor || done]]). }
  destruct (v_wired (W := W) POST); cbn [negb]; [|destruct (v_wired (W := W) DELETE); (split; [by split|split; [done|constructor || done]])].
  destruct (leg_logged opener i "STOP_MARKET" "tt-fb-sl-" sl w []) as (id1 & w1 & c1 & E1 & Q1 & A1). change ([] ++ [c1]) with [c1] in E1.
  unfold sl_pref, tp_pref, call_log in *. rewrite E1.
  assert (¬ (¬ full_size i ∨ true = false)) as Hno by (intros [H|H]; [by apply H, Hw|done]).
  case_bool_decide as En.
  { subst id1. cbn [option_list non_empty] in A1. rewrite A1. cbn [handles_empty no_handles]. rewrite orb_true_r. split; [|split; [done|destruct (v_wired (W := W) DELETE); [constructor|done]]].
    split; [|by intros ?%Hno]. intros _ _. exists c1, []. split_and!; [done|done|]. by rewrite decide_True. }
  destruct (leg_logged opener i "TAKE_PROFIT_MARKET" "tt-fb-tp-" tp w1 [c1]) as (id2 & w2 & c2 & E2 & Q2 & A2). unfold call_log in *. rewrite E2. cbn [app].
  rewrite accepted_cons, A1, A2. cbn [handles_empty leg_handles sl_exchange_id tp_exchange_id oco_list_id bh_symbol]. rewrite orb_false_r.
  assert (non_empty id1 = Some (str id1)) as N1 by (by destruct id1). rewrite N1. cbn [option_list app].
  assert (puts_up opener i sl tp [c1; c2]) as Hup.
  { exists c1, [c2]. split_and!; [done|done|]. rewrite A1, N1, decide_False by done. by exists c2. }
  destruct (v_wired (W := W) DELETE); cbn [negb].
  - destruct (cancel_logged i (Some (str id1)) w2 []) as (w3 & l3 & E3 & F3). unfold call_log in *. rewrite E3. cbn [app].
    destruct (cancel_logged i (non_empty id2) w3 l3) as (w4 & l4 & E4 & F4). unfold call_log in *. rewrite E4. split; [by split; [|intros ?%Hno]|split; [done|]].
    by apply Forall2_app.
  - split; [by split; [|intros ?%Hno]|done].
Qed.
End Teardown.

(** ** Recovery *)

(** Arrays of objects, read by counting braces. *)
Definition no_brace (t : text) : Prop := "{"%char ∉ t ∧ "}"%char ∉ t.
Lemma plain_object_print t r : no_brace t → plain_object 0 ("{"%char :: t ++ "}"%char :: r) = ("{"%char :: t ++ ["}"%char], r).
Proof.
  intros [H1 H2]. cbn [plain_object]. rewrite bool_decide_true by done.
  assert (plain_object 1 (t ++ "}"%char :: r) = (t ++ ["}"%char], r)) as ->; [|done].
  induction t as [|c t IH]; [done|]. apply not_elem_of_cons in H1 as [H1 H1'], H2 as [H2 H2']. cbn [app plain_object].
  rewrite !bool_decide_false by done. by rewrite IH.
Qed.
Lemma span_skip c pre s : c ∉ pre → (span_until [c] (pre ++ c :: s)).2 = c :: s.
Proof.
  intros H. rewrite span_until_app; [done| |set_solver]. apply Forall_forall. intros x Hx. set_solver.
Qed.
Lemma span_none c pre : c ∉ pre → (span_until [c] pre).2 = [].
Proof.
  induction pre as [|x pre IH]; intros H; [done|]. apply not_elem_of_cons in H as [H1 H2]. cbn. unfold one_of.
  rewrite bool_decide_false by set_solver. specialize (IH H2). by destruct (span_until [c] pre).
Qed.
Lemma objects_print fuel pre os : (length os < fuel)%nat → "{"%char ∉ pre → Forall (λ o, no_brace (print_fields o)) os →
  plain_objects fuel false (pre ++ print_objects os ++ ["]"%char]) = print_object <$> os.
Proof.
  revert pre fuel. induction os as [|o os IH]; intros pre [|fuel] Hf Hpre Hn; cbn [length] in Hf; try lia.
  - cbn [print_objects app]. cbn [plain_objects]. destruct (pre ++ ["]"%char]) as [|c s] eqn:E; [done|]. cbn [andb].
    rewrite <-E. rewrite span_none; [done|]. rewrite not_elem_of_app. split; [done|]. by vm_compute; set_solver.
  - apply Forall_cons in Hn as [Hn Hns].
    assert (∃ r, pre ++ print_objects (o :: os) ++ ["]"%char] = pre ++ "{"%char :: print_fields o ++ "}"%char :: r ∧
                 plain_objects fuel false r = print_object <$> os) as (r & E & Hr).
    { destruct os as [|q os].
      - exists ["]"%char]. split; [unfold print_objects, print_object; cbn; by rewrite <-app_assoc|]. apply (IH [] fuel); [cbn; lia|set_solver|done].
      - exists (","%char :: print_objects (q :: os) ++ ["]"%char]). split.
        + change (print_objects (o :: q :: os)) with (print_object o ++ ","%char :: print_objects (q :: os)). unfold print_object at 1.
          cbn [app]. by rewrite <-!app_assoc.
        + apply (IH [","%char] fuel); [lia|by vm_compute; set_solver|done]. }
    rewrite E. cbn [plain_objects]. destruct (pre ++ "{"%char :: _) as [|c s] eqn:E'; [by destruct pre|]. cbn [andb]. rewrite <-E'.
    rewrite span_skip by done. rewrite plain_object_print by done. rewrite Hr. done.
Qed.
Definition print_array (os : list (list (text * jval))) : text := "["%char :: print_objects os ++ ["]"%char].
Lemma array_read os : Forall (λ o, no_brace (print_fields o)) os → objects_of (print_array os) = print_object <$> os.
Proof.
  intros H. unfold objects_of, print_array. apply (objects_print _ ["["%char]); [|by vm_compute; set_solver|done].
  cbn [length]. rewrite length_app. enough (length os <= length (print_objects os))%nat by (cbn; lia). clear H.
  induction os as [|o [|q os] IH]; [cbn; lia|cbn; lia|].
  change (print_objects (o :: q :: os)) with (print_object o ++ ","%char :: print_objects (q :: os)). rewrite length_app. cbn [length] in *. lia.
Qed.

(** Client order ids. *)
Lemma digit_not_space c : is_digit c → one_of c_spaces c = false ∧ c ≠ "-"%char ∧ c ≠ "+"%char.
Proof. intros [d H]. destruct c as [[] [] [] [] [] [] [] []]; first [discriminate H|by split_and!]. Qed.
Lemma stoull_pretty n : 0 <= n < 2 ^ 64 → stoull (txt (pretty n)) = Some n.
Proof.
  intros Hn. destruct (pretty_digits n ltac:(lia)) as (ds & E & Hne & Hv). pose proof (digits_all _ _ E) as Hd. unfold stoull.
  destruct (txt (pretty n)) as [|c t]; [cbn in E; congruence|]. inversion Hd as [|? ? Hc _]; subst. destruct (digit_not_space c Hc) as (H1 & H2 & H3).
  cbn [skip_spaces]. rewrite H1. cbn [signed]. rewrite !bool_decide_false by done. rewrite E. cbn [fst].
  rewrite bool_decide_false by done. destruct (Z.leb_spec (2 ^ 64) (digits_value 10 ds)); [lia|done].
Qed.
Lemma client_id_opener pref n : 0 <= n < 2 ^ 64 → opener_of pref (leg_client_id pref n) = Some n ∧ has_prefix pref (leg_client_id pref n) = true.
Proof.
  intros Hn. pose proof (stoull_pretty n Hn) as Hs. unfold opener_of, has_prefix, leg_client_id. rewrite strip_prefix_app.
  destruct (txt (pretty n)); [discriminate Hs|done].
Qed.

(** Open orders as the venue lists them, flat objects with their fields in any order: a leg of ours
    has its client id and an order id among its fields. *)
Record open_leg := { ol_sl : bool; ol_opener : Z; ol_fields : list (text * jval) }.
Definition ol_id (l : open_leg) : text := any_field (txt "orderId") (ol_fields l).
Definition ol_quoted (key : string) (l : open_leg) : text := quoted_field (txt key) (ol_fields l).
Inductive open_order := ours (l : open_leg) | foreign (fs : list (text * jval)).
Definition row_fields (r : open_order) : list (text * jval) := match r with ours l => ol_fields l | foreign fs => fs end.
Definition row_ok (r : open_order) : Prop :=
  Forall clean (row_fields r) ∧ no_brace (print_fields (row_fields r)) ∧
  match r with
  | ours l =>
      0 <= ol_opener l < 2 ^ 64 ∧ ol_id l ≠ [] ∧
      ol_quoted "clientOrderId" l = txt (if ol_sl l then "tt-fb-sl-" else "tt-fb-tp-") ++ txt (pretty (ol_opener l))
  | foreign fs => let cli := quoted_field (txt "clientOrderId") fs in has_prefix sl_pref cli = false ∧ has_prefix tp_pref cli = false
  end.
(** The legs of an opener, in the order they are listed, and those of one kind. *)
Definition all_legs (o : Z) (rows : list open_order) : list open_leg :=
  omap (λ r, match r with ours l => if bool_decide (ol_opener l = o) then Some l else None | foreign _ => None end) rows.
Definition legs_of (sl : bool) (o : Z) (rows : list open_order) : list open_leg := filter (λ l, ol_sl l = sl) (all_legs o rows).

Lemma row_read r key : row_ok r → clean_key key →
  extract_sv_string (print_object (row_fields r)) key = quoted_field key (row_fields r) ∧
  extract_sv_number (print_object (row_fields r)) key = any_field key (row_fields r).
Proof. intros (Hc & _ & _) Hk. apply (extract_print ["{"%char] (row_fields r) [] key); [by vm_compute; set_solver|set_solver|done|done]. Qed.
Lemma other_prefix n : has_prefix sl_pref (leg_client_id tp_pref n) = false.
Proof. done. Qed.

(** What a row does to the map. *)
Definition row_step (m : gmap Z recovered_bracket) (r : open_order) : gmap Z recovered_bracket :=
  match r with
  | ours l => <[ol_opener l := read_leg (ol_sl l) (ol_opener l) (print_object (ol_fields l)) (default no_bracket (m !! ol_opener l))]> m
  | foreign _ => m
  end.
Lemma read_row m r : row_ok r → read_open_order m (print_object (row_fields r)) = row_step m r.
Proof.
  intros Hr. unfold read_open_order. assert (clean_key (txt "clientOrderId")) as Hk by (by apply (bool_decide_unpack _); vm_compute).
  rewrite (proj1 (row_read r _ Hr Hk)). destruct r as [l|fs]; cbn [row_fields row_step].
  - destruct Hr as (_ & _ & Ho & _ & Ec). unfold ol_quoted in Ec. rewrite Ec. destruct (ol_sl l).
    + destruct (client_id_opener sl_pref (ol_opener l) Ho) as [E1 E2]. unfold leg_client_id, sl_pref in E1, E2. unfold sl_pref. rewrite E2. cbn [orb negb]. by rewrite E1.
    + destruct (client_id_opener tp_pref (ol_opener l) Ho) as [E1 E2]. pose proof (other_prefix (ol_opener l)) as E3.
      unfold leg_client_id, tp_pref in E1, E2, E3. unfold tp_pref. rewrite E2, E3. cbn [orb negb]. by rewrite E1.
  - destruct Hr as (_ & _ & H1 & H2). by rewrite H1, H2.
Qed.
(** What a leg of ours writes. *)
Definition says_side (l : open_leg) : order_side := if bool_decide (ol_quoted "side" l = txt "SELL") then side_sell else side_buy.
Lemma leg_read l rb : row_ok (ours l) →
  let rb' := read_leg (ol_sl l) (ol_opener l) (print_object (ol_fields l)) rb in
  rb_opener_order_id rb' = ol_opener l ∧ rb_symbol rb' = str (ol_quoted "symbol" l) ∧ rb_close_side rb' = says_side l ∧
  bh_symbol (rb_handles rb') = str (ol_quoted "symbol" l) ∧
  rb_stop_loss rb' = (if ol_sl l then Some (strtod (ol_quoted "stopPrice" l)) else rb_stop_loss rb) ∧
  rb_take_profit rb' = (if ol_sl l then rb_take_profit rb else Some (strtod (ol_quoted "stopPrice" l))) ∧
  sl_exchange_id (rb_handles rb') = (if ol_sl l then Some (str (ol_id l)) else sl_exchange_id (rb_handles rb)) ∧
  tp_exchange_id (rb_handles rb') = (if ol_sl l then tp_exchange_id (rb_handles rb) else Some (str (ol_id l))).
Proof.
  intros Hr. cbn [read_leg rb_opener_order_id rb_symbol rb_close_side rb_stop_loss rb_take_profit rb_handles sl_exchange_id tp_exchange_id bh_symbol].
  assert (∀ key, clean_key (txt key) → extract_sv_string (print_object (ol_fields l)) (txt key) = ol_quoted key l) as Hq.
  { intros key Hk. exact (proj1 (row_read (ours l) _ Hr Hk)). }
  assert (clean_key (txt "orderId")) as K by (apply (bool_decide_unpack _); by vm_compute).
  pose proof (proj2 (row_read (ours l) _ Hr K)) as E2. cbn [row_fields] in E2. fold (ol_id l) in E2.
  rewrite !Hq by (apply (bool_decide_unpack _); by vm_compute). unfold take_id. rewrite E2.
  destruct Hr as (_ & _ & _ & Hid & _). destruct (ol_id l); [done|]. by destruct (ol_sl l).
Qed.
(** The bracket of an opener, in terms of its last leg and of the last of each kind. *)
Record bracket_of (o : Z) (rows : list open_order) (rb : recovered_bracket) : Prop := {
  bo_opener : rb_opener_order_id rb = o;
  bo_symbol : Some (rb_symbol rb) = (λ l, str (ol_quoted "symbol" l)) <$> last (all_legs o rows) ∧ bh_symbol (rb_handles rb) = rb_symbol rb;
  bo_side : Some (rb_close_side rb) = says_side <$> last (all_legs o rows);
  bo_stop : rb_stop_loss rb = (λ l, strtod (ol_quoted "stopPrice" l)) <$> last (legs_of true o rows);
  bo_target : rb_take_profit rb = (λ l, strtod (ol_quoted "stopPrice" l)) <$> last (legs_of false o rows);
  bo_stop_id : sl_exchange_id (rb_handles rb) = (λ l, str (ol_id l)) <$> last (legs_of true o rows);
  bo_target_id : tp_exchange_id (rb_handles rb) = (λ l, str (ol_id l)) <$> last (legs_of false o rows) }.
Definition listed (o : Z) (rows : list open_order) : Prop := all_legs o rows ≠ [].
Lemma all_snoc o rows r : all_legs o (rows ++ [r]) = all_legs o rows ++
  match r with ours l => if bool_decide (ol_opener l = o) then [l] else [] | foreign _ => [] end.
Proof. unfold all_legs. rewrite omap_app. f_equal. cbn. destruct r as [l|fs]; [|done]. by destruct (bool_decide _). Qed.
Lemma rows_read rows o : Forall row_ok rows →
  match foldl row_step ∅ rows !! o with
  | Some rb => listed o rows ∧ bracket_of o rows rb
  | None => ¬ listed o rows
  end.
Proof.
  induction rows as [|r rows IH] using rev_ind; intros Hr; [cbn [foldl]; rewrite lookup_empty; by intros H|].
  apply Forall_app in Hr as [Hr Hl]. apply Forall_cons in Hl as [Hl _]. specialize (IH Hr). rewrite foldl_app. cbn [foldl].
  set (m := foldl row_step ∅ rows) in *. unfold listed in *. 
  assert (∀ rb, all_legs o (rows ++ [r]) = all_legs o rows → bracket_of o rows rb → bracket_of o (rows ++ [r]) rb) as Hsame.
  { intros rb E [H1 H2 H3 H4 H5 H6 H7]. by split; unfold legs_of in *; rewrite ?E. }
  pose proof (all_snoc o rows r) as Ha. destruct r as [l|fs]; cbn [row_step].
  2: { rewrite app_nil_r in Ha. rewrite Ha. destruct (m !! o); [|done]. destruct IH. split; [done|by apply Hsame]. }
  case_bool_decide as E.
  2: { rewrite app_nil_r in Ha. rewrite Ha. rewrite lookup_insert_ne by done. destruct (m !! o); [|done]. destruct IH. split; [done|by apply Hsame]. }
  subst o. rewrite lookup_insert_eq. split; [rewrite Ha; by destruct (all_legs _ rows)|].
  destruct (leg_read l (default no_bracket (m !! ol_opener l)) Hl) as (R1 & R2 & R3 & R4 & R5 & R6 & R7 & R8).
  assert (rb_stop_loss (default no_bracket (m !! ol_opener l)) = (λ l, strtod (ol_quoted "stopPrice" l)) <$> last (legs_of true (ol_opener l) rows) ∧
    rb_take_profit (default no_bracket (m !! ol_opener l)) = (λ l, strtod (ol_quoted "stopPrice" l)) <$> last (legs_of false (ol_opener l) rows) ∧
    sl_exchange_id (rb_handles (default no_bracket (m !! ol_opener l))) = (λ l, str (ol_id l)) <$> last (legs_of true (ol_opener l) rows) ∧
    tp_exchange_id (rb_handles (default no_bracket (m !! ol_opener l))) = (λ l, str (ol_id l)) <$> last (legs_of false (ol_opener l) rows))
    as (B1 & B2 & B3 & B4).
  { destruct (m !! ol_opener l) as [rb|]; cbn [default]; [by destruct IH as [_ [? ? ? ? ? ? ?]]|].
    apply dec_stable in IH. unfold legs_of. by rewrite IH. }
  assert (∀ sl, last (legs_of sl (ol_opener l) (rows ++ [ours l])) = if decide (ol_sl l = sl) then Some l else last (legs_of sl (ol_opener l) rows)) as Hlast.
  { intros sl. unfold legs_of. rewrite Ha, filter_app. destruct (decide (ol_sl l = sl)).
    - rewrite (filter_cons_True _ l []), filter_nil by done. by rewrite last_snoc.
    - rewrite (filter_cons_False _ l []), filter_nil by done. by rewrite app_nil_r. }
  split; rewrite ?Hlast, ?R5, ?R6, ?R7, ?R8; [done|by rewrite Ha, last_snoc, R2, R4|by rewrite Ha, last_snoc, R3|..];
    destruct (ol_sl l); by rewrite ?decide_True, ?decide_False by done.
Qed.
Lemma read_rows rows : Forall row_ok rows → fb_read (print_array (row_fields <$> rows)) = foldl row_step ∅ rows.
Proof.
  intros H. unfold fb_read. change (plain_objects (length ?b) false ?b) with (objects_of b). rewrite array_read.
  - generalize (∅ : gmap Z recovered_bracket) as m. induction H as [|r rows Hr _ IH]; intros m; [done|]. cbn [fmap list_fmap foldl].
    rewrite read_row by done. apply IH.
  - apply Forall_fmap. eapply Forall_impl; [exact H|]. by intros r (_ & Hn & _).
Qed.

Section Recovery.
Context {W : Type} {V : Venue W}.

(** C19: After a restart the resting futures brackets are read back from the venue.  When it answers
    with its open orders, flat objects with their fields in any order, in any order and among
    orders of others, every opener with a leg in the list comes back exactly once and no other
    does, with the opener's number, the symbol and the closing side of its legs, the stop and the
    target at their trigger prices and the ids to cancel them by (of the last leg of a kind, were
    there several). *)
Theorem brackets_recovered rows (w : W) : Forall row_ok rows → v_wired (W := W) GET = true →
  (let r := (call GET "/fapi/v1/openOrders" [] w).1 in http_ok (rs_status r) = true ∧ rs_body r = print_array (row_fields <$> rows)) →
  let out := (fb_list_open w).1 in
  NoDup (rb_opener_order_id <$> out) ∧ (∀ o, o ∈ rb_opener_order_id <$> out ↔ listed o rows) ∧
  Forall (λ rb, bracket_of (rb_opener_order_id rb) rows rb) out.
Proof.
  intros Hr Hg [Hs Hb]. cbv zeta. unfold fb_list_open. rewrite Hg. cbn [negb]. destruct (call _ _ _ w) as [r w']. cbn [fst] in *. rewrite Hs. cbn [negb fst]. rewrite Hb, read_rows by done.
  set (m := foldl row_step ∅ rows).
  assert (∀ o rb, (o, rb) ∈ map_to_list m → listed o rows ∧ bracket_of o rows rb) as Hm.
  { intros o rb Hin%elem_of_map_to_list. pose proof (rows_read rows o Hr) as H. fold m in H. by rewrite Hin in H. }
  assert (rb_opener_order_id <$> (set_entry <$> (map_to_list m).*2) = (map_to_list m).*1) as Ho.
  { rewrite <-!list_fmap_compose. apply list_fmap_ext. intros i [o rb] Hi. cbn. apply list_elem_of_lookup_2, Hm in Hi as [_ Hi]. apply (bo_opener _ _ _ Hi). }
  rewrite Ho. split_and!.
  - apply NoDup_fst_map_to_list.
  - intros o. rewrite list_elem_of_fmap. split.
    + intros ([o' rb] & -> & Hin). by apply Hm in Hin as [? _].
    + intros Hl. pose proof (rows_read rows o Hr) as H. fold m in H. destruct (m !! o) as [rb|] eqn:E; [|done].
      exists (o, rb). split; [done|]. by apply elem_of_map_to_list.
  - rewrite !Forall_fmap. apply Forall_forall. intros [o rb] Hin. apply Hm in Hin as [_ [H1 H2 H3 H4 H5 H6 H7]]. cbn. rewrite H1. by split.
Qed.
End Recovery.
(** A venue that gives one answer to everything. *)
#[global] Instance constant_venue : Venue response :=
  { v_client := true; v_wired _ := true; v_call _ w := (w, w); v_now _ := 0; v_timeout _ := 0; v_set_timeout _ w := w }.
(** The fields in the order of the repository's test of the adapter, and with the order id first. *)
Definition tested_leg (sl : bool) (opener : Z) (id stop : string) : open_leg :=
  {| ol_sl := sl; ol_opener := opener; ol_fields :=
     [(txt "clientOrderId", j_str (txt (if sl then "tt-fb-sl-" else "tt-fb-tp-") ++ txt (pretty opener))); (txt "symbol", j_str (txt "BTCUSDT"));
      (txt "side", j_str (txt "SELL")); (txt "stopPrice", j_str (txt stop)); (txt "origQty", j_str (txt "0")); (txt "orderId", j_tok (txt id))] |}.
Definition venue_leg (opener : Z) (id stop : string) : open_leg :=
  {| ol_sl := true; ol_opener := opener; ol_fields :=
     [(txt "orderId", j_tok (txt id)); (txt "symbol", j_str (txt "ETHUSDT")); (txt "status", j_str (txt "NEW"));
      (txt "clientOrderId", j_str (txt "tt-fb-sl-" ++ txt (pretty opener))); (txt "price", j_str (txt "0")); (txt "origQty", j_str (txt "0"));
      (txt "closePosition", j_tok (txt "true")); (txt "side", j_str (txt "BUY")); (txt "stopPrice", j_str (txt stop))] |}.
Definition sample_rows : list open_order :=
  [ours (tested_leg true 10 "1001" "95.5"); ours (tested_leg false 10 "1002" "110.0"); ours (venue_leg 11 "2001" "3500.0");
   foreign [(txt "clientOrderId", j_str (txt "some-other-tool")); (txt "orderId", j_tok (txt "9999"))]].
#[global] Instance row_ok_dec r : Decision (row_ok r).
Proof. unfold row_ok, no_brace. destruct r; apply _. Defined.
Lemma brackets_recovered_witness :
  let out := (fb_list_open {| rs_status := 200; rs_body := print_array (row_fields <$> sample_rows) |}).1 in
  10 ∈ rb_opener_order_id <$> out ∧ 11 ∈ rb_opener_order_id <$> out ∧ Forall (λ rb, bracket_of (rb_opener_order_id rb) sample_rows rb) out.
Proof.
  destruct (brackets_recovered sample_rows {| rs_status := 200; rs_body := print_array (row_fields <$> sample_rows) |}) as (_ & H1 & H2);
    [by apply (bool_decide_unpack _); vm_compute|done|by split|]. split_and!; [by apply H1..|exact H2].
Defined.
(** A bracket recovered from Bitget has no quantity, so that the exit it arms closes nothing. *)
Lemma bitget_recovered_empty {W} `{Venue W} category (w : W) : Forall (λ rb, rb_qty rb = d_zero ∧ ei_qty (recovered_intent rb) = d_zero) (bg_list_open category w).1.
Proof.
  unfold bg_list_open. destruct (negb (v_wired _)); [constructor|]. destruct (call _ _ _ w) as [r w']. destruct (negb _); [constructor|]. cbn [fst]. apply Forall_forall. intros rb Hrb.
  apply list_elem_of_omap in Hrb as (obj & _ & E). unfold bg_read_bracket in E. destruct (opener_of _ _); [|done]. by injection E as <-.
Qed.
