(* ===== verification/DateParse.v ===== *)
(** * Dates of bars (src/src/data/date_parse.h)

    The permissive parser of the data readers: epoch seconds or milliseconds, or a civil date
    with or without a time, read by [sscanf] and turned into seconds by days from civil.
    Signed overflow is undefined in the source and wraps here. *)

From Stdlib Require Import Ascii.
From S2P Require Import Prelude Float64 Event JsonScan.

Open Scope string_scope.
Open Scope list_scope.
Open Scope Z_scope.

Definition all_digits (s : text) : bool :=
  bool_decide (s ≠ []) && forallb (λ c, bool_decide (is_Some (digit_val 10 c))) s.
(** [utc_tm_to_epoch_s]; a month and a day may be out of range. *)
Definition days_from_civil (y m d : Z) : Z :=
  let y := if m <=? 2 then y - 1 else y in
  let era := Z.quot (if 0 <=? y then y else y - 399) 400 in
  let yoe := u32 (y - era * 400) in
  let doy := u32 (Z.quot (153 * (m + (if 2 <? m then -3 else 9)) + 2) 5 + d - 1) in
  let doe := u32 (yoe * 365 + yoe / 4 - yoe / 100 + doy) in
  era * 146097 + doe - 719468.
Definition utc_tm_to_epoch_s (y m d h mi s : Z) : Z := days_from_civil y m d * 86400 + h * 3600 + mi * 60 + s.

(** [sscanf]: a number of at most [width] characters, its sign included, after white space. *)
Definition scan_int (width : nat) (s : text) : option (Z * text) :=
  let s := skip_spaces s in
  let '(neg, r) := signed s in
  let used := (length s - length r)%nat in
  let ds := (digits 10 (take (width - used) r)).1 in
  if bool_decide (ds = []) then None
  else Some ((if neg then - digits_value 10 ds else digits_value 10 ds), drop (length ds) r).
Definition scan_char (c : ascii) (s : text) : option text :=
  match s with x :: s' => if bool_decide (x = c) then Some s' else None | [] => None end.
Definition scan_date (s : text) : option (Z * Z * Z * text) :=
  '(y, s) ← scan_int 4 s; s ← scan_char "-" s;
  '(m, s) ← scan_int 2 s; s ← scan_char "-" s;
  '(d, s) ← scan_int 2 s; Some (y, m, d, s).
Definition scan_time (s : text) : option (ascii * Z * Z * Z * text) :=
  match s with
  | [] => None
  | sep :: s =>
      '(h, s) ← scan_int 2 s; s ← scan_char ":" s;
      '(mi, s) ← scan_int 2 s; s ← scan_char ":" s;
      '(se, s) ← scan_int 2 s; Some (sep, h, mi, se, s)
  end.
(** The milliseconds are the number after the point, whatever its length up to three. *)
Definition scan_fraction (s : text) : Z :=
  match scan_char "." s with Some s => match scan_int 3 s with Some (f, _) => f | None => 0 end | None => 0 end.

Definition seconds_tp (s : Z) : time_point := i64 (s * 1000000000).
Definition millis_tp (ms : Z) : time_point := i64 (ms * 1000000).
Fixpoint trim_tail (rev_s : text) : text :=
  match rev_s with c :: s => if one_of [" "; "009"; "013"]%char c then trim_tail s else rev_s | [] => [] end.
Fixpoint trim_head (s : text) : text :=
  match s with c :: s' => if one_of [" "; "009"]%char c then trim_head s' else s | [] => [] end.
Definition trimmed (s : text) : text := rev (trim_tail (rev (trim_head s))).
(** What a C function sees of a string. *)
Fixpoint c_text (s : text) : text := match s with c :: s' => if bool_decide (c = zero) then [] else c :: c_text s' | [] => [] end.
Definition parse_date (s : text) : option time_point :=
  let s := trimmed s in
  if bool_decide (s = []) then None else
  if all_digits s then
    let v := foldl (λ v d, i64 (v * 10 + d)) 0 (digits 10 s).1 in
    if (13 <=? length s)%nat then Some (millis_tp v) else if (10 <=? length s)%nat then Some (seconds_tp v) else None
  else
    '(y, m, d, rest) ← scan_date (c_text s);
    match scan_time rest with
    | Some (sep, h, mi, se, rest) =>
        if bool_decide (sep = "T"%char) || bool_decide (sep = " "%char)
        then Some (millis_tp (utc_tm_to_epoch_s y m d h mi se * 1000 + scan_fraction rest))
        else Some (seconds_tp (utc_tm_to_epoch_s y m d 0 0 0))
    | None => Some (seconds_tp (utc_tm_to_epoch_s y m d 0 0 0))
    end.
