(* ===== verification/DateTheorems.v ===== *)
(** * The calendar behind the dates

    The reference is the calendar itself: the day after a day.  A date the parser reads is the
    number of days from the epoch in that order, and a printed date is read back. *)

From Stdlib Require Import Ascii.
From S2P Require Import Prelude Float64 Event JsonScan JsonTheorems LiveSafety EncoderTheorems DateParse.

Open Scope string_scope.
Open Scope list_scope.
Open Scope Z_scope.

(** ** The calendar *)

Definition leap (y : Z) : bool := (y mod 4 =? 0) && (negb (y mod 100 =? 0) || (y mod 400 =? 0)).
Definition month_length (y m : Z) : Z :=
  if m =? 2 then (if leap y then 29 else 28) else if (m =? 4) || (m =? 6) || (m =? 9) || (m =? 11) then 30 else 31.
Definition valid_date (d : Z * Z * Z) : Prop := let '(y, m, d) := d in 1 <= m <= 12 ∧ 1 <= d <= month_length y m.
Definition next_day (d : Z * Z * Z) : Z * Z * Z :=
  let '(y, m, d) := d in
  if d <? month_length y m then (y, m, d + 1) else if m <? 12 then (y, m + 1, 1) else (y + 1, 1, 1).
Definition days (d : Z * Z * Z) : Z := let '(y, m, d) := d in days_from_civil y m d.

(** Days before a year that starts in March, without the shift to the epoch. *)
Definition year_days (y : Z) : Z := 365 * y + y / 4 - y / 100 + y / 400.
Lemma year_step y : year_days (y + 1) = year_days y + if leap (y + 1) then 366 else 365.
Proof.
  unfold year_days, leap. destruct (Z.eqb_spec ((y + 1) mod 4) 0), (Z.eqb_spec ((y + 1) mod 100) 0), (Z.eqb_spec ((y + 1) mod 400) 0); cbn [andb orb negb];
    Z.to_euclidean_division_equations; lia.
Qed.
Lemma civil_exact y m d : 1 <= m <= 12 → 1 <= d <= 31 →
  let y' := if m <=? 2 then y - 1 else y in
  days_from_civil y m d = year_days y' + (153 * (m + (if 2 <? m then -3 else 9)) + 2) / 5 + d - 1 - 719468.
Proof.
  intros Hm Hd. cbv zeta. unfold days_from_civil. set (y' := if m <=? 2 then y - 1 else y).
  assert (Z.quot (if 0 <=? y' then y' else y' - 399) 400 = y' / 400) as ->.
  { destruct (Z.leb_spec 0 y'); Z.to_euclidean_division_equations; lia. }
  set (mp := m + (if 2 <? m then -3 else 9)). assert (0 <= mp <= 11) as Hmp by (unfold mp; destruct (Z.ltb_spec 2 m); lia).
  rewrite Z.quot_div_nonneg by lia. set (yoe := y' - y' / 400 * 400).
  assert (0 <= yoe < 400) as Hy by (unfold yoe; Z.to_euclidean_division_equations; lia).
  assert (0 <= (153 * mp + 2) / 5 + d - 1 < 400) as Hdoy by (Z.to_euclidean_division_equations; lia).
  rewrite (wrapu_id 32 yoe) by (unfold in_u; lia). rewrite (wrapu_id 32 (_ + d - 1)) by (unfold in_u; lia).
  rewrite wrapu_id by (unfold in_u; Z.to_euclidean_division_equations; lia).
  unfold year_days. unfold yoe. Z.to_euclidean_division_equations. lia.
Qed.
Lemma month_length_bounds y m : 1 <= m <= 12 → 28 <= month_length y m <= 31.
Proof. intros. unfold month_length. repeat case_match; lia. Qed.
Definition month_start (y m : Z) : Z := year_days (if m <=? 2 then y - 1 else y) + (153 * (m + (if 2 <? m then -3 else 9)) + 2) / 5.
Lemma month_step y m : 1 <= m < 12 → month_start y (m + 1) = month_start y m + month_length y m.
Proof.
  intros Hm. unfold month_start, month_length. pose proof (year_step (y - 1)) as Hy. replace (y - 1 + 1) with y in Hy by lia.
  destruct (Z.leb_spec (m + 1) 2), (Z.leb_spec m 2), (Z.ltb_spec 2 (m + 1)), (Z.ltb_spec 2 m), (Z.eqb_spec m 2); try lia.
  - assert (m = 1) as -> by lia. cbn [Z.eqb Pos.eqb orb]. Z.to_euclidean_division_equations. lia.
  - subst m. destruct (leap y); Z.to_euclidean_division_equations; lia.
  - destruct (Z.eqb_spec m 4), (Z.eqb_spec m 6), (Z.eqb_spec m 9), (Z.eqb_spec m 11); cbn [orb]; Z.to_euclidean_division_equations; lia.
Qed.
Lemma civil_start y m d : 1 <= m <= 12 → 1 <= d <= 31 → days_from_civil y m d = month_start y m + d - 1 - 719468.
Proof. intros. rewrite civil_exact by done. done. Qed.
Lemma next_day_step d : valid_date d → days (next_day d) = days d + 1 ∧ valid_date (next_day d).
Proof.
  destruct d as [[y m] d]. intros [Hm Hd]. pose proof (month_length_bounds y m Hm) as Hl. unfold next_day.
  destruct (Z.ltb_spec d (month_length y m)).
  { split; [|split; lia]. cbn [days]. rewrite !civil_start by lia. lia. }
  assert (d = month_length y m) as -> by lia. destruct (Z.ltb_spec m 12).
  - split; [|split; [lia|]; pose proof (month_length_bounds y (m + 1)); lia]. cbn [days]. rewrite !civil_start by lia. rewrite month_step by lia. lia.
  - assert (m = 12) as -> by lia. split; [|split; [lia|]; pose proof (month_length_bounds (y + 1) 1); lia]. cbn [days]. rewrite !civil_start by lia.
    change (month_length y 12) with 31. unfold month_start. change (1 <=? 2) with true. change (12 <=? 2) with false. change (2 <? 1) with false. change (2 <? 12) with true.
    cbv iota.
    replace (y + 1 - 1) with y by lia. Z.to_euclidean_division_equations. lia.
Qed.

Lemma days_after d n : valid_date d → days (Nat.iter n next_day d) = days d + Z.of_nat n ∧ valid_date (Nat.iter n next_day d).
Proof.
  intros Hd. induction n as [|n [IH IHv]]; [split; [change (days d = days d + 0); lia|done]|].
  change (Nat.iter (S n) next_day d) with (next_day (Nat.iter n next_day d)).
  destruct (next_day_step _ IHv) as [E ?]. split; [rewrite E, IH; lia|done].
Qed.

(** ** Printed dates *)

Definition digit_char (z : Z) : ascii := ascii_of_nat (48 + Z.to_nat z).
(** Decimal digits of a number, padded with zeros to a width. *)
Fixpoint padded (w : nat) (z : Z) : list Z := match w with O => [] | S w => padded w (z / 10) ++ [z mod 10] end.
Definition number_text (w : nat) (z : Z) : text := map digit_char (padded w z).
Definition date_text (d : Z * Z * Z) : text :=
  let '(y, m, d) := d in number_text 4 y ++ "-"%char :: number_text 2 m ++ "-"%char :: number_text 2 d.
Definition time_text (h mi s ms : Z) : text :=
  number_text 2 h ++ ":"%char :: number_text 2 mi ++ ":"%char :: number_text 2 s ++ "."%char :: number_text 3 ms.

Definition plain_digit (c : ascii) : Prop := one_of c_spaces c = false ∧ c ≠ "-"%char ∧ c ≠ "+"%char ∧ c ≠ zero.
Lemma digit_char_facts z : 0 <= z < 10 → digit_val 10 (digit_char z) = Some z ∧ plain_digit (digit_char z).
Proof.
  intros Hz. assert (z ∈ [0; 1; 2; 3; 4; 5; 6; 7; 8; 9]) as H.
  { rewrite !elem_of_cons. lia. }
  repeat (apply elem_of_cons in H as [-> | H]; [vm_compute; split_and!; congruence|]). by apply elem_of_nil in H.
Qed.
Lemma padded_digits w : ∀ z, Forall (λ d, 0 <= d < 10) (padded w z).
Proof. induction w as [|w IH]; intros z; [constructor|]. cbn. apply Forall_app. split; [done|]. constructor; [|constructor]. apply Z.mod_pos_bound; lia. Qed.
Lemma padded_length w : ∀ z, length (padded w z) = w.
Proof. induction w as [|w IH]; intros z; [done|]. cbn [padded]. rewrite length_app, IH. cbn. lia. Qed.
Lemma padded_value w : ∀ z, 0 <= z < 10 ^ Z.of_nat w → digits_value 10 (padded w z) = z.
Proof.
  induction w as [|w IH]; intros z Hz; [cbn in *; lia|]. rewrite Nat2Z.inj_succ, Z.pow_succ_r in Hz by lia. cbn [padded].
  unfold digits_value. rewrite foldl_app. change (digits_value 10 (padded w (z / 10)) * 10 + z mod 10 = z).
  rewrite IH; Z.to_euclidean_division_equations; lia.
Qed.
Lemma digits_printed ds : Forall (λ d, 0 <= d < 10) ds → digits 10 (map digit_char ds) = (ds, []).
Proof. induction 1 as [|d ds Hd _ IH]; [done|]. cbn [map digits]. rewrite (proj1 (digit_char_facts d Hd)), IH. done. Qed.
Lemma scan_printed w z r : (0 < w)%nat → 0 <= z < 10 ^ Z.of_nat w → scan_int w (number_text w z ++ r) = Some (z, r).
Proof.
  intros Hw Hz. pose proof (padded_digits w z) as Hd. pose proof (padded_length w z) as Hl. pose proof (padded_value w z Hz) as Hv.
  unfold number_text. destruct (padded w z) as [|d ds]; [cbn in Hl; lia|].
  assert (0 <= d < 10) as Hd0 by (by apply Forall_cons in Hd as [? _]). destruct (digit_char_facts d Hd0) as [_ (H1 & H2 & H3 & _)].
  unfold scan_int. cbn [map app skip_spaces]. rewrite H1. cbn [signed]. rewrite !bool_decide_eq_false_2 by done. rewrite Nat.sub_diag, Nat.sub_0_r.
  change (digit_char d :: map digit_char ds ++ r) with (map digit_char (d :: ds) ++ r).
  rewrite <- Hl, <- (length_map digit_char (d :: ds)), take_app_length, (digits_printed _ Hd). cbn [fst].
  rewrite bool_decide_eq_false_2 by done. rewrite Hv. rewrite <- (length_map digit_char (d :: ds)), drop_app_length. done.
Qed.

Lemma trim_head_keeps c s : one_of c_spaces c = false → trim_head (c :: s) = c :: s.
Proof. intros H. cbn [trim_head]. replace (one_of [" "; "009"]%char c) with false; [done|]. symmetry. apply bool_decide_eq_false. apply bool_decide_eq_false in H. set_solver. Qed.
Lemma trim_tail_keeps c s : one_of c_spaces c = false → trim_tail (c :: s) = c :: s.
Proof. intros H. cbn [trim_tail]. replace (one_of [" "; "009"; "013"]%char c) with false; [done|]. symmetry. apply bool_decide_eq_false. apply bool_decide_eq_false in H. set_solver. Qed.
Lemma trimmed_keeps c s e : one_of c_spaces c = false → one_of c_spaces e = false → trimmed (c :: s ++ [e]) = c :: s ++ [e].
Proof.
  intros Hc He. unfold trimmed. rewrite trim_head_keeps by done. rewrite app_comm_cons, rev_app_distr.
  change (rev [e] ++ rev (c :: s)) with (e :: rev (c :: s)). rewrite trim_tail_keeps by done.
  change (e :: rev (c :: s)) with (rev [e] ++ rev (c :: s)). rewrite <- rev_app_distr, rev_involutive. done.
Qed.
Lemma c_text_keeps s : Forall (λ c, c ≠ zero) s → c_text s = s.
Proof. induction 1 as [|c s Hc _ IH]; [done|]. cbn [c_text]. rewrite bool_decide_eq_false_2 by done. by rewrite IH. Qed.
Lemma number_plain w z : Forall plain_digit (number_text w z).
Proof. unfold number_text. apply Forall_map. eapply Forall_impl; [apply padded_digits|]. intros d Hd. exact (proj2 (digit_char_facts d Hd)). Qed.
Lemma number_ends w z : (0 < w)%nat → ∃ s e, number_text w z = s ++ [e] ∧ plain_digit e.
Proof.
  intros Hw. destruct w as [|w]; [lia|]. exists (map digit_char (padded w (z / 10))), (digit_char (z mod 10)).
  split; [unfold number_text; cbn [padded]; by rewrite map_app|]. apply digit_char_facts, Z.mod_pos_bound; lia.
Qed.
Lemma number_starts w z : (0 < w)%nat → ∃ c s, number_text w z = c :: s ∧ plain_digit c.
Proof.
  intros Hw. pose proof (number_plain w z) as Hp. pose proof (padded_length w z) as Hl. destruct (number_text w z) as [|c s] eqn:E.
  - unfold number_text in E. apply map_eq_nil in E. rewrite E in Hl. cbn in Hl. lia.
  - exists c, s. split; [done|]. by apply Forall_cons in Hp as [? _].
Qed.
Lemma number_not_nul w z : Forall (λ c, c ≠ zero) (number_text w z).
Proof. eapply Forall_impl; [apply number_plain|]. by intros c (_ & _ & _ & ?). Qed.
Lemma all_digits_stops s r : all_digits (s ++ "-"%char :: r) = false.
Proof. unfold all_digits. rewrite forallb_app. cbn [forallb]. replace (bool_decide (is_Some (digit_val 10 "-"))) with false by done. by rewrite !andb_false_r. Qed.

Lemma scan_char_hit c s : scan_char c (c :: s) = Some s.
Proof. cbn [scan_char]. by rewrite bool_decide_eq_true_2. Qed.
(** One directive of the format after another. *)
Ltac scan_steps :=
  repeat (first [rewrite scan_char_hit | rewrite scan_printed by (cbn; lia)];
    repeat match goal with |- context [mbind ?f (Some ?x)] => change (mbind f (Some x)) with (f x); cbv beta iota end).

(** A text between a first and a last digit, with a dash and no end of string in it, is scanned as a date. *)
Lemma parse_dashed y m d r : 0 <= y < 10000 → 0 <= m < 100 → 0 <= d < 100 → Forall (λ c, c ≠ zero) r →
  (r = [] ∨ ∃ s w z, (0 < w)%nat ∧ r = s ++ number_text w z) →
  parse_date (date_text (y, m, d) ++ r) =
    match scan_time r with
    | Some (sep, h, mi, se, rest) =>
        if bool_decide (sep = "T"%char) || bool_decide (sep = " "%char)
        then Some (millis_tp (utc_tm_to_epoch_s y m d h mi se * 1000 + scan_fraction rest))
        else Some (seconds_tp (utc_tm_to_epoch_s y m d 0 0 0))
    | None => Some (seconds_tp (utc_tm_to_epoch_s y m d 0 0 0))
    end.
Proof.
  intros Hy Hm Hd Hr He. unfold parse_date.
  assert (trimmed (date_text (y, m, d) ++ r) = date_text (y, m, d) ++ r) as ->.
  { unfold date_text. destruct (number_starts 4 y) as (c & s & -> & Hc & _); [lia|]. destruct He as [-> | (t & w & z & Hw & ->)].
    - destruct (number_ends 2 d) as (t & e & -> & He & _); [lia|]. rewrite app_nil_r, <- !app_comm_cons.
      change (("-"%char :: number_text 2 m ++ "-"%char :: t ++ [e])) with ([("-"%char)] ++ number_text 2 m ++ ["-"%char] ++ t ++ [e]).
      rewrite !app_assoc. by apply trimmed_keeps.
    - destruct (number_ends w z Hw) as (t' & e & -> & He & _). rewrite <- !app_comm_cons, !app_assoc. by apply trimmed_keeps. }
  rewrite bool_decide_eq_false_2 by (unfold date_text; by destruct (number_text 4 y)).
  replace (all_digits (date_text (y, m, d) ++ r)) with false by (unfold date_text; rewrite <- app_assoc; symmetry; apply all_digits_stops).
  rewrite c_text_keeps.
  2: { unfold date_text. rewrite !Forall_app, !Forall_cons, !Forall_app, !Forall_cons. split_and!; try apply number_not_nul; done. }
  assert (scan_date (date_text (y, m, d) ++ r) = Some (y, m, d, r)) as ->; [|done].
  unfold scan_date, date_text. repeat (rewrite <- ?app_assoc, <- ?app_comm_cons; cbn [app]). scan_steps. done.
Qed.
Lemma scan_time_printed sep h mi se ms : 0 <= h < 24 → 0 <= mi < 60 → 0 <= se < 60 → 0 <= ms < 1000 →
  ∃ rest, scan_time (sep :: time_text h mi se ms) = Some (sep, h, mi, se, rest) ∧ scan_fraction rest = ms.
Proof.
  intros. exists ("."%char :: number_text 3 ms). unfold scan_time, time_text. split.
  - scan_steps. done.
  - unfold scan_fraction. rewrite scan_char_hit. rewrite <- (app_nil_r (number_text 3 ms)), scan_printed by (cbn; lia). done.
Qed.
(** The days after the epoch that fit the clock are in years of four digits. *)
Lemma epoch_day n : Z.of_nat n <= 106750 →
  let '(y, m, d) := Nat.iter n next_day (1970, 1, 1) in
  0 <= y < 10000 ∧ 0 <= m < 100 ∧ 0 <= d < 100 ∧ days_from_civil y m d = Z.of_nat n.
Proof.
  intros Hn. destruct (days_after (1970, 1, 1) n) as [E V]; [vm_compute; intuition discriminate|]. change (days (1970, 1, 1)) with 0 in E.
  destruct (Nat.iter n next_day (1970, 1, 1)) as [[y m] d]. destruct V as [Hm Hd]. pose proof (month_length_bounds y m Hm). cbn [days] in E.
  split_and!; try lia; rewrite civil_exact in E by lia; unfold year_days in E; destruct (Z.leb_spec m 2), (Z.ltb_spec 2 m); Z.to_euclidean_division_equations; lia.
Qed.

(** C34: A printed date is read back as the day it is.  Count [n] days on the calendar from
    1970-01-01, month lengths and leap years as the calendar has them: the text of that day is the
    instant [n] days after the epoch, and with a time of day after it, to the millisecond, that
    instant; in every year the clock can hold. *)
Theorem dates_read_back n sep h mi se ms : Z.of_nat n <= 106750 →
  sep = "T"%char ∨ sep = " "%char → 0 <= h < 24 → 0 <= mi < 60 → 0 <= se < 60 → 0 <= ms < 1000 →
  let d := Nat.iter n next_day (1970, 1, 1) in
  parse_date (date_text d) = Some (Z.of_nat n * 86400 * 1000000000) ∧
  parse_date (date_text d ++ sep :: time_text h mi se ms) =
    Some ((((Z.of_nat n * 24 + h) * 60 + mi) * 60 + se) * 1000000000 + ms * 1000000).
Proof.
  intros Hn Hsep Hh Hmi Hse Hms. cbv zeta. pose proof (epoch_day n Hn) as Hd. destruct (Nat.iter n next_day (1970, 1, 1)) as [[y m] d].
  destruct Hd as (Hy & Hm & Hd & E). destruct (scan_time_printed sep h mi se ms Hh Hmi Hse Hms) as (rest & Es & Ef). split.
  - rewrite <- (app_nil_r (date_text _)), parse_dashed by (try done; by left). cbn [scan_time]. f_equal. unfold seconds_tp, utc_tm_to_epoch_s.
    rewrite E, wraps_id by (unfold in_s; lia). lia.
  - rewrite parse_dashed; try done.
    + rewrite Es, Ef. replace (bool_decide (sep = "T"%char) || bool_decide (sep = " "%char)) with true by (by destruct Hsep as [-> | ->]).
      f_equal. unfold millis_tp, utc_tm_to_epoch_s. rewrite E, wraps_id by (unfold in_s; lia). lia.
    + unfold time_text. rewrite !Forall_cons, !Forall_app, !Forall_cons, !Forall_app, !Forall_cons, !Forall_app, !Forall_cons.
      split_and!; try apply number_not_nul; try done. by destruct Hsep as [-> | ->].
    + right. exists (sep :: number_text 2 h ++ ":"%char :: number_text 2 mi ++ ":"%char :: number_text 2 se ++ ["."%char]), 3%nat, ms.
      split; [lia|]. unfold time_text. repeat (rewrite <- ?app_assoc, <- ?app_comm_cons; cbn [app]). done.
Qed.
Lemma dates_read_back_witness :
  parse_date (txt "1970-03-01") = Some (59 * 86400 * 1000000000) ∧
  parse_date (txt "1970-03-01T12:34:56.789") = Some ((((59 * 24 + 12) * 60 + 34) * 60 + 56) * 1000000000 + 789 * 1000000).
Proof. apply (dates_read_back 59 "T"%char 12 34 56 789); first [lia | by left]. Defined.
