(* ===== verification/MarketSeries.v ===== *)
(** * The series of bars and ticks (src/src/data/market_series.h, market_series.cpp,
    market_types.h, market_sink.h)

    The store the data readers fill and the engine reads: one column per field of a bar, and a
    list of ticks.  An index out of range is undefined in the source; here reading a bar gives
    nothing and a column skips it.  The warnings printed for a rejected record are left out. *)

From Stdlib Require Import Ascii.
From S2P Require Import Prelude Float64 Event JsonScan BinanceParsers DateParse.

Open Scope string_scope.
Open Scope list_scope.
Open Scope Z_scope.

Record Bar := {
  b_ts : time_point; b_symbol : string; b_date : string;
  b_open : double; b_high : double; b_low : double; b_close : double; b_volume : Z }.
#[global] Instance Bar_eq_dec : EqDecision Bar.
Proof. solve_decision. Defined.

(** ** Sinks *)

(** [IMarketSink]: false when the record is rejected. *)
Class IMarketSink (S : Type) := {
  sink_bar : Bar → S → bool * S;
  sink_tick : tick_record → S → bool * S }.
(** [DiscardMarketSink]. *)
Inductive DiscardMarketSink := discard.
#[global] Instance discard_sink : IMarketSink DiscardMarketSink := {
  sink_bar _ s := (true, s);
  sink_tick _ s := (true, s) }.

(** ** The store *)

Record MarketSeries := {
  validation_error_count : Z;
  bar_ts : list time_point; bar_date : list string; bar_symbol : list string;
  bar_open : list double; bar_high : list double; bar_low : list double; bar_close : list double;
  bar_volume : list Z;
  ticks : list tick_record }.
Definition empty_series : MarketSeries :=
  {| validation_error_count := 0; bar_ts := []; bar_date := []; bar_symbol := []; bar_open := []; bar_high := []; bar_low := [];
     bar_close := []; bar_volume := []; ticks := [] |}.

Definition parse_or_epoch (date : string) : time_point := default 0 (parse_date (txt date)).
Definition count_error (s : MarketSeries) : MarketSeries :=
  {| validation_error_count := u64 (validation_error_count s + 1); bar_ts := bar_ts s; bar_date := bar_date s; bar_symbol := bar_symbol s;
     bar_open := bar_open s; bar_high := bar_high s; bar_low := bar_low s; bar_close := bar_close s; bar_volume := bar_volume s;
     ticks := ticks s |}.
Definition push_bar (b : Bar) (s : MarketSeries) : MarketSeries :=
  {| validation_error_count := validation_error_count s;
     bar_ts := bar_ts s ++ [b_ts b]; bar_date := bar_date s ++ [b_date b]; bar_symbol := bar_symbol s ++ [b_symbol b];
     bar_open := bar_open s ++ [b_open b]; bar_high := bar_high s ++ [b_high b]; bar_low := bar_low s ++ [b_low b];
     bar_close := bar_close s ++ [b_close b]; bar_volume := bar_volume s ++ [b_volume b]; ticks := ticks s |}.
Definition validate_and_append_bar (date symbol : string) (ts : time_point) (o h l c : double) (v : Z) (s : MarketSeries) : bool * MarketSeries :=
  if d_le o d_zero || d_le h d_zero || d_le l d_zero || d_le c d_zero then (false, count_error s) else
  if d_lt h l then (false, count_error s) else
  if v <? 0 then (false, count_error s) else
  let ts := if (ts =? 0) && negb (bool_decide (date = "")) then parse_or_epoch date else ts in
  (true, push_bar {| b_ts := ts; b_symbol := symbol; b_date := date; b_open := o; b_high := h; b_low := l; b_close := c; b_volume := v |} s).
Definition series_on_bar (b : Bar) : MarketSeries → bool * MarketSeries :=
  validate_and_append_bar (b_date b) (b_symbol b) (b_ts b) (b_open b) (b_high b) (b_low b) (b_close b) (b_volume b).
Definition load_into_queue (date symbol : string) (o h l c : double) (v : Z) : MarketSeries → bool * MarketSeries :=
  validate_and_append_bar date symbol (parse_or_epoch date) o h l c v.
Definition push_tick (t : tick_record) (s : MarketSeries) : MarketSeries :=
  {| validation_error_count := validation_error_count s; bar_ts := bar_ts s; bar_date := bar_date s; bar_symbol := bar_symbol s;
     bar_open := bar_open s; bar_high := bar_high s; bar_low := bar_low s; bar_close := bar_close s; bar_volume := bar_volume s;
     ticks := ticks s ++ [t] |}.
Definition add_tick (t : tick_record) (s : MarketSeries) : bool * MarketSeries :=
  if d_le (tk_price t) d_zero then (false, count_error s) else
  if tk_quantity t <=? 0 then (false, count_error s) else
  if match last (ticks s) with Some b => tk_timestamp t <? tk_timestamp b | None => false end then (false, count_error s) else
  (true, push_tick t s).
Definition series_on_tick (t : tick_record) : MarketSeries → bool * MarketSeries := add_tick t.
#[global] Instance series_sink : IMarketSink MarketSeries := {
  sink_bar := series_on_bar;
  sink_tick := series_on_tick }.

(** ** Ordering *)

(** Any stable sort: the one arrangement in order that keeps the order of equals. *)
Fixpoint insert_stable {A} (lt : A → A → bool) (x : A) (l : list A) : list A :=
  match l with
  | [] => [x]
  | y :: l' => if lt y x then y :: insert_stable lt x l' else x :: l
  end.
Definition stable_sort {A} (lt : A → A → bool) (l : list A) : list A := foldr (insert_stable lt) [] l.
Definition key_lt (ts ts' : time_point) (symbol symbol' date date' : string) : bool :=
  if negb (ts =? ts') then ts <? ts' else
  if negb (String.eqb symbol symbol') then String.ltb symbol symbol' else String.ltb date date'.
(** The comparison of two indices. *)
Definition index_lt (s : MarketSeries) (a b : nat) : bool :=
  key_lt (nth a (bar_ts s) 0) (nth b (bar_ts s) 0) (nth a (bar_symbol s) "") (nth b (bar_symbol s) "") (nth a (bar_date s) "") (nth b (bar_date s) "").
Definition reorder {A} (idx : list nat) (v : list A) : list A := omap (λ i, v !! i) idx.
Definition sort_bars_by_time (s : MarketSeries) : MarketSeries :=
  let n := length (bar_symbol s) in
  if (n <? 2)%nat then s else
  let idx := stable_sort (index_lt s) (seq 0 n) in
  {| validation_error_count := validation_error_count s;
     bar_ts := reorder idx (bar_ts s); bar_date := reorder idx (bar_date s); bar_symbol := reorder idx (bar_symbol s);
     bar_open := reorder idx (bar_open s); bar_high := reorder idx (bar_high s); bar_low := reorder idx (bar_low s);
     bar_close := reorder idx (bar_close s); bar_volume := reorder idx (bar_volume s); ticks := ticks s |}.

(** ** Reading *)

Definition bar_count (s : MarketSeries) : nat := length (bar_symbol s).
Definition tick_count (s : MarketSeries) : nat := length (ticks s).
Definition has_bar_data (s : MarketSeries) : bool := negb (bool_decide (bar_symbol s = [])).
Definition has_tick_data (s : MarketSeries) : bool := negb (bool_decide (length (ticks s) = 0%nat)).
Definition series_empty (s : MarketSeries) : bool := negb (has_bar_data s) && negb (has_tick_data s).
Definition bar_at (s : MarketSeries) (i : nat) : option Bar :=
  ts ← bar_ts s !! i; sym ← bar_symbol s !! i; date ← bar_date s !! i; o ← bar_open s !! i; h ← bar_high s !! i; l ← bar_low s !! i;
  c ← bar_close s !! i; v ← bar_volume s !! i;
  Some {| b_ts := ts; b_symbol := sym; b_date := date; b_open := o; b_high := h; b_low := l; b_close := c; b_volume := v |}.
Definition tick_at (s : MarketSeries) (i : nat) : option tick_record := ticks s !! i.
Definition first_symbol (s : MarketSeries) : string := match bar_symbol s with sym :: _ => sym | [] => "" end.

(** ** The rest of the writers *)

Definition set_all_bar_symbols (sym : string) (s : MarketSeries) : MarketSeries :=
  {| validation_error_count := validation_error_count s; bar_ts := bar_ts s; bar_date := bar_date s;
     bar_symbol := match bar_symbol s with [] => [sym] | l => (λ _, sym) <$> l end;
     bar_open := bar_open s; bar_high := bar_high s; bar_low := bar_low s; bar_close := bar_close s; bar_volume := bar_volume s;
     ticks := ticks s |}.
Definition series_clear (s : MarketSeries) : MarketSeries := empty_series.
