(* ===== verification/SeriesTheorems.v ===== *)
(** * The series of bars and ticks as a list of rows

    The reference keeps whole bars in one list, and sorting is any stable rearrangement in the
    order of time, symbol and date.  The columns of the source are the columns of that list
    after every history of its operations. *)

From Stdlib Require Import Ascii Sorting.Sorted.
From S2P Require Import Prelude Float64 Event JsonScan BinanceParsers DateParse MarketSeries.

Open Scope string_scope.
Open Scope list_scope.
Open Scope Z_scope.

(** ** The order of bars *)

Definition bar_lt (a b : Bar) : bool := key_lt (b_ts a) (b_ts b) (b_symbol a) (b_symbol b) (b_date a) (b_date b).
Definition bar_key (b : Bar) : Z * string * string := (b_ts b, b_symbol b, b_date b).

Lemma str_lt_trans a : ∀ b c, String.compare a b = Lt → String.compare b c = Lt → String.compare a c = Lt.
Proof.
  induction a as [|x a IH]; intros [|y b] [|z c]; cbn; try done. unfold Ascii.compare.
  destruct (N.compare_spec (N_of_ascii x) (N_of_ascii y)) as [E|E|E]; [|intros _|done].
  - rewrite E. destruct (N.compare_spec (N_of_ascii y) (N_of_ascii z)); [apply IH|done|done].
  - destruct (N.compare_spec (N_of_ascii y) (N_of_ascii z)) as [F|F|F]; [intros _|intros _|done].
    + rewrite <- F. by apply N.compare_lt_iff in E as ->.
    + assert (N_of_ascii x < N_of_ascii z)%N as ->%N.compare_lt_iff by lia. done.
Qed.
Lemma str_eq_refl a : String.compare a a = Eq.
Proof. pose proof (String.compare_antisym a a) as H. by destruct (String.compare a a). Qed.
Lemma str_ltb_asym a b : String.ltb a b = true → String.ltb b a = false.
Proof. unfold String.ltb. rewrite (String.compare_antisym b a). by destruct (String.compare a b). Qed.
Lemma str_ltb_irrefl a : String.ltb a a = false.
Proof. unfold String.ltb. by rewrite str_eq_refl. Qed.
Lemma str_ltb_total a b : String.ltb a b = true ∨ a = b ∨ String.ltb b a = true.
Proof.
  unfold String.ltb. rewrite (String.compare_antisym b a). destruct (String.compare a b) eqn:E; [|by left|by right; right].
  right; left. by apply String.compare_eq_iff.
Qed.
Lemma str_ltb_trans a b c : String.ltb a b = true → String.ltb b c = true → String.ltb a c = true.
Proof.
  unfold String.ltb. destruct (String.compare a b) eqn:E, (String.compare b c) eqn:F; try done. intros _ _.
  by rewrite (str_lt_trans _ _ _ E F).
Qed.

(** The order as a proposition. *)
Lemma bar_lt_spec a b : bar_lt a b = true ↔
  b_ts a < b_ts b ∨ b_ts a = b_ts b ∧
    (String.ltb (b_symbol a) (b_symbol b) = true ∨ b_symbol a = b_symbol b ∧ String.ltb (b_date a) (b_date b) = true).
Proof.
  unfold bar_lt, key_lt. destruct (Z.eqb_spec (b_ts a) (b_ts b)) as [->|N]; cbn [negb].
  - destruct (String.eqb_spec (b_symbol a) (b_symbol b)) as [->|M]; cbn [negb].
    + rewrite str_ltb_irrefl. intuition (lia || done).
    + intuition (lia || done).
  - rewrite Z.ltb_lt. intuition (lia || done).
Qed.
Lemma bar_lt_irrefl a b : bar_key a = bar_key b → bar_lt a b = false.
Proof.
  intros [= Ht Hs Hd]. apply not_true_is_false. rewrite bar_lt_spec, Ht, Hs, Hd, !str_ltb_irrefl. intuition (lia || done).
Qed.
Lemma bar_lt_asym a b : bar_lt a b = true → bar_lt b a = false.
Proof.
  intros H%bar_lt_spec. apply not_true_is_false. rewrite bar_lt_spec. intros G.
  pose proof (str_ltb_asym (b_symbol a) (b_symbol b)). pose proof (str_ltb_asym (b_date a) (b_date b)).
  pose proof (str_ltb_irrefl (b_symbol a)). pose proof (str_ltb_irrefl (b_symbol b)).
  destruct H as [H | (E & [H | [F H]])], G as [G | (E' & [G | [F' G]])]; try lia; try congruence; intuition congruence.
Qed.
Lemma bar_lt_total a b : bar_lt a b = true ∨ bar_key a = bar_key b ∨ bar_lt b a = true.
Proof.
  rewrite !bar_lt_spec. unfold bar_key. destruct (Z.lt_total (b_ts a) (b_ts b)) as [H|[H|H]]; [by left; left| |by right; right; left].
  destruct (str_ltb_total (b_symbol a) (b_symbol b)) as [S|[S|S]]; [left; by right; split; [|left]| |right; right; by right; split; [|left]].
  destruct (str_ltb_total (b_date a) (b_date b)) as [D|[D|D]]; [left; by right; split; [|right]|right; left; congruence|right; right; by right; split; [|right]].
Qed.
Lemma bar_lt_trans a b c : bar_lt a b = true → bar_lt b c = true → bar_lt a c = true.
Proof.
  rewrite !bar_lt_spec. intros [H | (E & [H | [F H]])] [G | (E' & [G | [F' G]])]; try (left; lia); right; (split; [lia|]).
  - left. by eapply str_ltb_trans.
  - left. by rewrite <- F'.
  - left. by rewrite F.
  - right. split; [congruence|]. by eapply str_ltb_trans.
Qed.
Lemma bar_lt_key a b c : bar_key a = bar_key b → bar_lt a c = bar_lt b c ∧ bar_lt c a = bar_lt c b.
Proof. intros [= Ht Hs Hd]. unfold bar_lt. by rewrite Ht, Hs, Hd. Qed.
Lemma bar_le_trans a b c : bar_lt b a = false → bar_lt c b = false → bar_lt c a = false.
Proof.
  intros H G. apply not_true_is_false. intros K.
  destruct (bar_lt_total a b) as [L|[L|L]]; [|by rewrite (proj2 (bar_lt_key a b c L)) in K; congruence|congruence].
  pose proof (bar_lt_trans c a b K L). congruence.
Qed.

(** ** Stable sorting *)

Section Stable.
Context {A : Type} (lt : A → A → bool).

Lemma insert_perm x l : insert_stable lt x l ≡ₚ x :: l.
Proof. induction l as [|y l IH]; cbn; [done|]. destruct (lt y x); [|done]. rewrite IH. apply Permutation_swap. Qed.
Lemma stable_sort_perm l : stable_sort lt l ≡ₚ l.
Proof. induction l as [|x l IH]; [done|]. unfold stable_sort in *. cbn [foldr]. by rewrite insert_perm, IH. Qed.

(** Sorting elements on which the comparison is an order. *)
Section Ordered.
Variable P : A → Prop.
Hypothesis lt_asym : ∀ a b, P a → P b → lt a b = true → lt b a = false.
Hypothesis le_trans : ∀ a b c, P a → P b → P c → lt b a = false → lt c b = false → lt c a = false.

Lemma insert_keeps_order x l : P x → Forall P l → StronglySorted (λ a b, lt b a = false) l → StronglySorted (λ a b, lt b a = false) (insert_stable lt x l).
Proof.
  intros Hx Hl. induction 1 as [|y l Hs IH Hy]; cbn; [repeat constructor|]. apply Forall_cons in Hl as [Py Hl]. destruct (lt y x) eqn:E.
  - constructor; [by apply IH|]. rewrite insert_perm. constructor; [by apply lt_asym|done].
  - constructor; [by constructor|]. constructor; [done|]. rewrite Forall_forall in Hy, Hl |- *. intros z Hz. apply (le_trans x y z); auto.
Qed.
Lemma stable_sort_sorted l : Forall P l → StronglySorted (λ a b, lt b a = false) (stable_sort lt l).
Proof.
  induction 1 as [|x l Hx Hl IH]; [constructor|]. unfold stable_sort in *. cbn [foldr]. apply insert_keeps_order; [done| |done].
  change (Forall P (stable_sort lt l)). by rewrite stable_sort_perm.
Qed.
End Ordered.

(** Elements none of which is before another stay in order. *)
Lemma stable_sort_filter (P : A → Prop) `{∀ x, Decision (P x)} l : (∀ a b, P a → P b → lt a b = false) → filter P (stable_sort lt l) = filter P l.
Proof.
  intros HP. induction l as [|x l IH]; [done|]. unfold stable_sort in *. cbn [foldr].
  transitivity (filter P (x :: foldr (insert_stable lt) [] l)); [|rewrite !filter_cons, IH; done]. clear IH.
  induction (foldr (insert_stable lt) [] l) as [|y l' IH]; [done|]. cbn [insert_stable]. destruct (lt y x) eqn:E; [|done].
  rewrite !filter_cons in *. rewrite IH. destruct (decide (P y)) as [Hy|Hy], (decide (P x)) as [Hx|Hx]; try done.
  pose proof (HP y x Hy Hx). congruence.
Qed.
End Stable.
Lemma stable_sort_map {A B} (f : A → B) (lta : A → A → bool) (ltb : B → B → bool) l :
  (∀ x y, lta x y = ltb (f x) (f y)) → f <$> stable_sort lta l = stable_sort ltb (f <$> l).
Proof.
  intros Hf. induction l as [|x l IH]; [done|]. unfold stable_sort in *. cbn [foldr fmap list_fmap]. rewrite <- IH. clear IH.
  induction (foldr (insert_stable lta) [] l) as [|y l' IH]; [done|]. cbn [insert_stable fmap list_fmap]. rewrite <- Hf.
  destruct (lta y x); [|done]. cbn [fmap list_fmap]. by rewrite IH.
Qed.

(** ** Rows *)

Record rows := { r_bars : list Bar; r_ticks : list tick_record; r_errors : Z }.
Definition no_rows : rows := {| r_bars := []; r_ticks := []; r_errors := 0 |}.
(** The columns of some rows. *)
Definition columns (r : rows) : MarketSeries :=
  {| validation_error_count := r_errors r; bar_ts := b_ts <$> r_bars r; bar_date := b_date <$> r_bars r; bar_symbol := b_symbol <$> r_bars r;
     bar_open := b_open <$> r_bars r; bar_high := b_high <$> r_bars r; bar_low := b_low <$> r_bars r; bar_close := b_close <$> r_bars r;
     bar_volume := b_volume <$> r_bars r; ticks := r_ticks r |}.

(** Prices not at or below zero, a range not upside down, a volume not negative. *)
Definition acceptable (b : Bar) : Prop :=
  Forall (λ p, d_le p d_zero = false) [b_open b; b_high b; b_low b; b_close b] ∧ d_lt (b_high b) (b_low b) = false ∧ 0 <= b_volume b.
#[global] Instance acceptable_dec b : Decision (acceptable b) := _.
(** A bar without a time has the time of its date. *)
Definition dated (b : Bar) : Bar :=
  {| b_ts := if (b_ts b =? 0) && negb (bool_decide (b_date b = "")) then parse_or_epoch (b_date b) else b_ts b;
     b_symbol := b_symbol b; b_date := b_date b; b_open := b_open b; b_high := b_high b; b_low := b_low b; b_close := b_close b; b_volume := b_volume b |}.
Definition acceptable_tick (t : tick_record) (l : list tick_record) : Prop :=
  d_le (tk_price t) d_zero = false ∧ 0 < tk_quantity t ∧ match last l with Some t' => tk_timestamp t' <= tk_timestamp t | None => True end.
#[global] Instance acceptable_tick_dec t l : Decision (acceptable_tick t l).
Proof. unfold acceptable_tick. destruct (last l); apply _. Defined.
Definition with_symbol (sym : string) (b : Bar) : Bar :=
  {| b_ts := b_ts b; b_symbol := sym; b_date := b_date b; b_open := b_open b; b_high := b_high b; b_low := b_low b; b_close := b_close b; b_volume := b_volume b |}.

Definition add_error (r : rows) : rows := {| r_bars := r_bars r; r_ticks := r_ticks r; r_errors := u64 (r_errors r + 1) |}.
Definition add_bar (b : Bar) (r : rows) : rows := {| r_bars := r_bars r ++ [b]; r_ticks := r_ticks r; r_errors := r_errors r |}.
Definition add_row_tick (t : tick_record) (r : rows) : rows := {| r_bars := r_bars r; r_ticks := r_ticks r ++ [t]; r_errors := r_errors r |}.
Definition set_bars (l : list Bar) (r : rows) : rows := {| r_bars := l; r_ticks := r_ticks r; r_errors := r_errors r |}.

(** A rearrangement in order that keeps the order of bars with the same key. *)
Definition sorts (l l' : list Bar) : Prop :=
  l' ≡ₚ l ∧ StronglySorted (λ a b, bar_lt b a = false) l' ∧ ∀ k, filter (λ b, bar_key b = k) l' = filter (λ b, bar_key b = k) l.

Lemma append_rows b r : series_on_bar b (columns r) =
  if decide (acceptable b) then (true, columns (add_bar (dated b) r)) else (false, columns (add_error r)).
Proof.
  unfold series_on_bar, validate_and_append_bar. destruct (decide (acceptable b)) as [(Hp & Hr & Hv) | Hn].
  - rewrite !Forall_cons in Hp. destruct Hp as (-> & -> & -> & -> & _). rewrite Hr. cbn [orb]. destruct (Z.ltb_spec (b_volume b) 0); [lia|].
    f_equal. unfold push_bar, columns, add_bar, dated. cbn [r_bars r_ticks r_errors]. rewrite !fmap_app. done.
  - destruct (d_le (b_open b) d_zero) eqn:E1, (d_le (b_high b) d_zero) eqn:E2, (d_le (b_low b) d_zero) eqn:E3, (d_le (b_close b) d_zero) eqn:E4; try done. cbn [orb].
    destruct (d_lt (b_high b) (b_low b)) eqn:E5; [done|]. destruct (Z.ltb_spec (b_volume b) 0); [done|]. destruct Hn. split_and!; [by repeat constructor|done|lia].
Qed.
Lemma tick_rows t r : series_on_tick t (columns r) =
  if decide (acceptable_tick t (r_ticks r)) then (true, columns (add_row_tick t r)) else (false, columns (add_error r)).
Proof.
  unfold series_on_tick, add_tick. change (ticks (columns r)) with (r_ticks r). destruct (decide (acceptable_tick t (r_ticks r))) as [(Hp & Hq & Ht) | Hn].
  - rewrite Hp. destruct (Z.leb_spec (tk_quantity t) 0); [lia|]. destruct (last (r_ticks r)); [|done]. by destruct (Z.ltb_spec (tk_timestamp t) (tk_timestamp t0)); [lia|].
  - destruct (d_le (tk_price t) d_zero) eqn:E; [done|]. destruct (Z.leb_spec (tk_quantity t) 0); [done|]. unfold acceptable_tick in Hn.
    destruct (last (r_ticks r)) as [t'|]; [|naive_solver]. destruct (Z.ltb_spec (tk_timestamp t) (tk_timestamp t')); [done|]. destruct Hn. split_and!; done || lia.
Qed.

(** ** Sorting the columns *)

Definition blank : Bar :=
  {| b_ts := 0; b_symbol := ""; b_date := ""; b_open := d_zero; b_high := d_zero; b_low := d_zero; b_close := d_zero; b_volume := 0 |}.
Lemma nth_default {A B} (f : A → B) (d : A) (l : list A) i : nth i (f <$> l) (f d) = f (nth i l d).
Proof. apply map_nth. Qed.
Lemma reorder_rows {A} (f : Bar → A) (l : list Bar) idx : Forall (λ i, (i < length l)%nat) idx →
  reorder idx (f <$> l) = f <$> ((λ i, nth i l blank) <$> idx).
Proof.
  induction 1 as [|i idx Hi _ IH]; [done|]. unfold reorder in *. cbn [omap list_omap fmap list_fmap]. rewrite list_lookup_fmap.
  destruct (lookup_lt_is_Some_2 l i Hi) as [b E]. rewrite E. cbn [fmap option_fmap option_map]. rewrite IH. f_equal.
  by rewrite (nth_lookup_Some l i blank b E).
Qed.
Lemma rows_by_index (l : list Bar) : (λ i, nth i l blank) <$> seq 0 (length l) = l.
Proof.
  apply list_eq_same_length with (length l); [done|by rewrite length_fmap, length_seq|]. intros i x y Hi. rewrite list_lookup_fmap, lookup_seq_lt by done.
  intros [= <-] E. by apply nth_lookup_Some.
Qed.
Lemma sort_rows r : ∃ l, sort_bars_by_time (columns r) = columns (set_bars l r) ∧ sorts (r_bars r) l.
Proof.
  unfold sort_bars_by_time. change (bar_symbol (columns r)) with (b_symbol <$> r_bars r). rewrite length_fmap.
  destruct (Nat.ltb_spec (length (r_bars r)) 2).
  { exists (r_bars r). split; [by destruct r|]. split_and!; [done| |done].
    destruct (r_bars r) as [|b [|? ?]]; cbn in *; [constructor|by repeat constructor|lia]. }
  set (idx := stable_sort (index_lt (columns r)) (seq 0 (length (r_bars r)))).
  assert (Forall (λ i, (i < length (r_bars r))%nat) idx) as Hidx.
  { unfold idx. rewrite stable_sort_perm. apply Forall_seq. lia. }
  exists (stable_sort bar_lt (r_bars r)). split.
  - assert ((λ i, nth i (r_bars r) blank) <$> idx = stable_sort bar_lt (r_bars r)) as E.
    { unfold idx. rewrite (stable_sort_map _ _ bar_lt); [by rewrite rows_by_index|]. intros i j. unfold index_lt, bar_lt.
      change 0 with (b_ts blank). change "" with (b_symbol blank) at 1 2. change "" with (b_date blank). cbn [columns bar_ts bar_symbol bar_date]. rewrite !nth_default. done. }
    unfold columns at 1. cbn [columns validation_error_count bar_ts bar_date bar_symbol bar_open bar_high bar_low bar_close bar_volume ticks].
    rewrite !reorder_rows by done. rewrite E. done.
  - split_and!; [apply stable_sort_perm|apply (stable_sort_sorted _ (λ _, True)); [intros a b _ _; apply bar_lt_asym|intros a b c _ _ _; apply bar_le_trans|by apply Forall_true]|].
    intros k. apply stable_sort_filter. intros a b Ha Hb. apply bar_lt_irrefl. congruence.
Qed.

(** ** Histories *)

Inductive series_op :=
  | so_bar (b : Bar)
  | so_load (date symbol : string) (o h l c : double) (v : Z)
  | so_tick (t : tick_record)
  | so_sort
  | so_symbols (sym : string)
  | so_clear.
Definition series_step (s : MarketSeries) (op : series_op) : MarketSeries :=
  match op with
  | so_bar b => (series_on_bar b s).2
  | so_load date sym o h l c v => (load_into_queue date sym o h l c v s).2
  | so_tick t => (series_on_tick t s).2
  | so_sort => sort_bars_by_time s
  | so_symbols sym => set_all_bar_symbols sym s
  | so_clear => series_clear s
  end.
Definition series_run : list series_op → MarketSeries → MarketSeries := λ ops s, foldl series_step s ops.

Definition loaded (date symbol : string) (o h l c : double) (v : Z) : Bar :=
  {| b_ts := parse_or_epoch date; b_symbol := symbol; b_date := date; b_open := o; b_high := h; b_low := l; b_close := c; b_volume := v |}.
(** What an operation may do to the rows. *)
Inductive row_step : series_op → rows → rows → Prop :=
  | rs_bar b r : acceptable b → row_step (so_bar b) r (add_bar (dated b) r)
  | rs_bar_bad b r : ¬ acceptable b → row_step (so_bar b) r (add_error r)
  | rs_load date sym o h l c v r : acceptable (loaded date sym o h l c v) →
      row_step (so_load date sym o h l c v) r (add_bar (loaded date sym o h l c v) r)
  | rs_load_bad date sym o h l c v r : ¬ acceptable (loaded date sym o h l c v) → row_step (so_load date sym o h l c v) r (add_error r)
  | rs_tick t r : acceptable_tick t (r_ticks r) → row_step (so_tick t) r (add_row_tick t r)
  | rs_tick_bad t r : ¬ acceptable_tick t (r_ticks r) → row_step (so_tick t) r (add_error r)
  | rs_sort r l : sorts (r_bars r) l → row_step so_sort r (set_bars l r)
  | rs_symbols sym r : r_bars r ≠ [] → row_step (so_symbols sym) r (set_bars (with_symbol sym <$> r_bars r) r)
  | rs_clear r : row_step so_clear r no_rows.
Inductive row_steps : list series_op → rows → rows → Prop :=
  | rs_none r : row_steps [] r r
  | rs_snoc ops op r r' r'' : row_steps ops r r' → row_step op r' r'' → row_steps (ops ++ [op]) r r''.

Lemma dated_loaded date sym o h l c v : dated (loaded date sym o h l c v) = loaded date sym o h l c v.
Proof. unfold dated, loaded. cbn. by destruct ((parse_or_epoch date =? 0) && negb (bool_decide (date = ""))). Qed.
Lemma step_rows op r : (∀ sym, op = so_symbols sym → r_bars r ≠ []) → ∃ r', row_step op r r' ∧ series_step (columns r) op = columns r'.
Proof.
  destruct op as [b|date sym o h l c v|t| |sym|]; intros Hs; cbn [series_step].
  - rewrite append_rows. destruct (decide (acceptable b)); eexists; (split; [by constructor|done]).
  - change (load_into_queue date sym o h l c v (columns r)) with (series_on_bar (loaded date sym o h l c v) (columns r)). rewrite append_rows.
    destruct (decide (acceptable (loaded date sym o h l c v))); eexists; (split; [by constructor|]); [|done]. by rewrite dated_loaded.
  - rewrite tick_rows. destruct (decide (acceptable_tick t (r_ticks r))); eexists; (split; [by constructor|done]).
  - destruct (sort_rows r) as (l & E & Hl). eexists. split; [by constructor|done].
  - specialize (Hs sym eq_refl). eexists. split; [by constructor|]. unfold set_all_bar_symbols, columns, set_bars. cbn [r_bars r_ticks r_errors bar_symbol].
    destruct (r_bars r) as [|b l]; [done|]. cbn [fmap list_fmap]. by rewrite <- !list_fmap_compose.
  - eexists. split; [constructor|done].
Qed.
Lemma bar_at_rows r i : bar_at (columns r) i = r_bars r !! i.
Proof.
  unfold bar_at, columns. cbn [bar_ts bar_symbol bar_date bar_open bar_high bar_low bar_close bar_volume]. rewrite !list_lookup_fmap.
  by destruct (r_bars r !! i) as [[]|].
Qed.

(** What the rows keep: acceptable bars, and ticks in the order of time. *)
Definition rows_ok (r : rows) : Prop := Forall acceptable (r_bars r) ∧ StronglySorted (λ a b, tk_timestamp a <= tk_timestamp b) (r_ticks r).
Lemma tick_snoc t l : StronglySorted (λ a b, tk_timestamp a <= tk_timestamp b) l → acceptable_tick t l →
  StronglySorted (λ a b, tk_timestamp a <= tk_timestamp b) (l ++ [t]).
Proof.
  intros Hl (_ & _ & Ht). induction Hl as [|x l Hl IH Hx]; [repeat constructor|]. cbn [app]. constructor.
  - apply IH. destruct (last l) eqn:E; [|done]. by rewrite last_cons, E in Ht.
  - rewrite Forall_app. split; [done|]. constructor; [|constructor]. rewrite last_cons in Ht. destruct (last l) as [y|] eqn:E; [|done].
    rewrite Forall_forall in Hx. pose proof (Hx y) as Hy. apply last_Some in E as [? ->]. specialize (Hy ltac:(set_solver)). cbn in *. lia.
Qed.
Lemma row_step_ok op r r' : row_step op r r' → rows_ok r → rows_ok r'.
Proof.
  destruct 1; intros [Hb Ht]; try done; split; cbn [add_bar add_error add_row_tick set_bars r_bars r_ticks]; try done.
  - apply Forall_app. split; [done|]. constructor; [done|constructor].
  - apply Forall_app. split; [done|]. constructor; [done|constructor].
  - by apply tick_snoc.
  - destruct H as (Hp & _ & _). by rewrite Hp.
  - apply Forall_fmap. eapply Forall_impl; [exact Hb|]. by intros [].
  - constructor.
Qed.

(** C30: The columns are the columns of a list of bars.  After every history of bars, ticks, sorts,
    renamings and clears, in which symbols are not set on a series without bars, the series is
    what a list of whole bars would be after it: each index reads the bar of its row, a sort leaves
    the same bars in the order of time, symbol and date with equal ones in their old order, every
    bar was acceptable and the ticks are in the order of time. *)
Theorem series_refines ops :
  (∀ pre sym post, ops = pre ++ so_symbols sym :: post → bar_count (series_run pre empty_series) ≠ 0%nat) →
  ∃ r, row_steps ops no_rows r ∧ series_run ops empty_series = columns r ∧ rows_ok r ∧
    (∀ i, bar_at (series_run ops empty_series) i = r_bars r !! i) ∧ bar_count (series_run ops empty_series) = length (r_bars r).
Proof.
  intros Hs. assert (∃ r, row_steps ops no_rows r ∧ series_run ops empty_series = columns r ∧ rows_ok r) as (r & Hr & E & Hok).
  { induction ops as [|op ops IH] using rev_ind; [exists no_rows; split_and!; [constructor|done|split; constructor]|].
    destruct IH as (r & Hr & E & Hok). { intros pre sym post ->. apply (Hs pre sym (post ++ [op])). by rewrite <- app_assoc. }
    destruct (step_rows op r) as (r' & Hr' & E').
    { intros sym -> Hn. apply (Hs ops sym []); [done|]. rewrite E. unfold bar_count. cbn. by rewrite Hn. }
    exists r'. split_and!; [by econstructor| |by eapply row_step_ok]. unfold series_run in *. rewrite foldl_app, E. exact E'. }
  exists r. rewrite E. split_and!; try done; [apply bar_at_rows|unfold bar_count; cbn; by rewrite length_fmap].
Qed.

(** A renaming of an empty series leaves a count of one and nothing to read, and shifts every bar after it. *)
Lemma renamed_empty_series : let s := set_all_bar_symbols "X" empty_series in
  bar_count s = 1%nat ∧ bar_at s 0 = None ∧
  (let b := loaded "2024-01-01" "Y" d_one d_one d_one d_one 1 in
   bar_at (series_on_bar b s).2 0 = Some (with_symbol "X" b)).
Proof. vm_compute. done. Qed.

Definition sample_bar (date : string) (v : Z) : series_op := so_load date "BTC" d_one d_one d_one d_one v.
Lemma series_refines_witness :
  let s := series_run [sample_bar "2024-01-02" 1; sample_bar "2024-01-01" 2; sample_bar "2024-01-03" (-1); so_sort; so_symbols "ETH"] empty_series in
  b_volume <$> bar_at s 0 = Some 2 ∧ ∃ r, s = columns r ∧ length (r_bars r) = 2%nat.
Proof.
  cbv zeta. destruct (series_refines [sample_bar "2024-01-02" 1; sample_bar "2024-01-01" 2; sample_bar "2024-01-03" (-1); so_sort; so_symbols "ETH"]) as (r & _ & E & _ & _ & Hc).
  - intros pre sym post Hp. destruct pre as [|? [|? [|? [|? [|? pre]]]]]; try discriminate Hp; [|by destruct pre; discriminate Hp].
    injection Hp as <- <- <- <- _ _. vm_compute. discriminate.
  - split; [vm_compute; reflexivity|]. exists r. split; [exact E|]. rewrite <- Hc. vm_compute. reflexivity.
Defined.
