(* ===== verification/CsvSource.v ===== *)
(** * Files of bars and ticks (src/src/data/csv_data_source.cpp, tick_csv_data_source.cpp,
    data_wrapper.cpp, market_source.h)

    The readers of comma-separated files, the choice of a reader from a path or a URI, several
    files after one another, and the load of a series.  The file system is an argument: the
    content of a path, or nothing when it cannot be opened. *)

From Stdlib Require Import Ascii.
From S2P Require Import Prelude Float64 Event JsonScan BinanceParsers DateParse MarketSeries.

Open Scope string_scope.
Open Scope list_scope.
Open Scope Z_scope.

(** ** Lines, fields and numbers *)

(** The successive results of [std::getline]: no empty one after a last separator. *)
Definition getlines (delim : ascii) (s : text) : list text :=
  let l := split_on delim s in match rev l with [] :: r => rev r | _ => l end.
Definition c_newline : ascii := "010"%char.

(** [std::stoll] with the number of characters read, and [std::stod]; no number and a number out of
    range are exceptions. *)
Definition stoll (s : text) : option (Z * nat) :=
  let s := c_text s in
  let '(neg, r) := signed (skip_spaces s) in
  let ds := (digits 10 r).1 in
  let v := if neg then - digits_value 10 ds else digits_value 10 ds in
  if bool_decide (ds = []) || negb (in_i64 v) then None else Some (v, (length s - length r + length ds)%nat).
(** A subnormal number that is not exact is out of range too. *)
Definition stod_range (m : magnitude) : bool :=
  out_of_range m ||
  match m with
  | mg_ratio n d =>
      match d_of_ratio n d with
      | SpecFloat.S754_finite _ k e => (Zpos k <? 2 ^ 52) && negb (n * 2 ^ 1074 =? Zpos k * Zpos d)
      | _ => false
      end
  | _ => false
  end.
Definition stod (s : text) : option double :=
  let '(neg, r) := signed (skip_spaces (c_text s)) in
  m ← magnitude_of true r; if stod_range m then None else Some (double_of neg m).
(** [llround]; out of range it is unspecified, here zero. *)
Definition llround (d : double) : Z := match d_round_away d with Some z => if in_i64 z then z else 0 | None => 0 end.
Definition kVolumeScale : double := d_of_Z 100000000.
Definition scaled_volume (d : double) : Z := if d_lt (d_abs d) d_inf && d_le d_zero d then llround (d_mul d kVolumeScale) else 0.

(** ** Bars *)

Definition blanks : list ascii := [" "; "009"; "013"; "010"]%char.
Definition strip_blanks (s : text) : text :=
  rev (skip_chars blanks (rev (skip_chars blanks s))).
Definition column_index (names : list text) (col_index : gmap string nat) : gmap string nat :=
  (foldl (λ '(m, idx) col, (<[str (strip_blanks col) := idx]> m, S idx)) (col_index, 0%nat) names).1.
Definition required : list string := ["open"; "high"; "low"; "close"].
Definition missing_column (col_index : gmap string nat) : option string :=
  head (filter (λ name, col_index !! name = None) required).
Definition field_of (col_index : gmap string nat) (fields : list text) (name : string) : text :=
  match col_index !! name with Some idx => default [] (fields !! idx) | None => [] end.

Definition price_of (s : text) : option double := if bool_decide (s = []) then Some d_zero else stod s.
Definition volume_of (v_s : text) : Z :=
  if bool_decide (v_s = []) then 0 else
  match stoll v_s with
  | Some (iv, idx) => if bool_decide (idx = length v_s) then iv else match stod v_s with Some d => scaled_volume d | None => 0 end
  | None => match stod v_s with Some d => scaled_volume d | None => 0 end
  end.
Definition open_time_of (ot_s date : text) : time_point :=
  let ts := match (if bool_decide (ot_s = []) then None else stoll ot_s) with
            | Some (ms, _) => if 0 <? ms then millis_tp ms else 0
            | None => 0
            end in
  if ts =? 0 then default 0 (parse_date date) else ts.
(** The bar of a row; nothing when a price is no number. *)
Definition csv_bar (get : string → text) : option Bar :=
  o ← price_of (get "open"); h ← price_of (get "high"); l ← price_of (get "low"); c ← price_of (get "close");
  Some {| b_ts := open_time_of (get "open_time") (get "date"); b_symbol := str (get "symbol"); b_date := str (get "date");
          b_open := o; b_high := h; b_low := l; b_close := c; b_volume := volume_of (get "volume") |}.

Record LoadStats := { accepted : Z; rejected : Z; message : string }.
Definition count_record (ok : bool) (n : Z * Z) : Z * Z := if ok then (u64 (n.1 + 1), n.2) else (n.1, u64 (n.2 + 1)).
Definition counted (n : Z * Z) : LoadStats := {| accepted := n.1; rejected := n.2; message := "" |}.

Section Load.
Context {S : Type} `{IMarketSink S}.

Definition csv_row (col_index : gmap string nat) (line : text) (st : (Z * Z) * S) : (Z * Z) * S :=
  if bool_decide (line = []) then st else
  match csv_bar (field_of col_index (split_on ","%char line)) with
  | Some b => let '(ok, s) := sink_bar b st.2 in (count_record ok st.1, s)
  | None => (count_record false st.1, st.2)
  end.
Definition load_csv_bars (path : string) (file : option text) (s : S) : bool * LoadStats * S :=
  match file with
  | None => (false, {| accepted := 0; rejected := 0; message := "CSV file error: " +:+ path |}, s)
  | Some content =>
      match getlines c_newline content with
      | [] => (false, {| accepted := 0; rejected := 0; message := "CSV empty: " +:+ path |}, s)
      | header :: lines =>
          let col_index := column_index (getlines ","%char header) ∅ in
          match missing_column col_index with
          | Some name => (false, {| accepted := 0; rejected := 0; message := "CSV missing required column: " +:+ name |}, s)
          | None =>
              let '(n, s) := foldl (λ st line, csv_row col_index line st) ((0, 0), s) lines in
              (0 <? n.1, counted n, s)
          end
      end
  end.

(** ** Ticks *)

Definition csv_side (token : text) : data_tick_side :=
  match token with
  | c :: _ => if one_of ["B"; "b"]%char c then dts_bid else if one_of ["A"; "a"]%char c then dts_ask else dts_unknown
  | [] => dts_unknown
  end.
(** Time, symbol, price, quantity and perhaps a side, one token after another. *)
Definition csv_tick (line : text) : option tick_record :=
  match getlines ","%char line with
  | ts_s :: symbol :: price_s :: qty_s :: rest =>
      '(ts_ms, _) ← stoll ts_s; price ← stod price_s; '(qty, _) ← stoll qty_s;
      Some {| tk_timestamp := millis_tp ts_ms; tk_symbol := str symbol; tk_price := price; tk_quantity := qty;
              tk_side := match rest with token :: _ => csv_side token | [] => dts_unknown end |}
  | _ => None
  end.
Definition tick_row (line : text) (st : (Z * Z) * S) : (Z * Z) * S :=
  if bool_decide (line = []) then st else
  match csv_tick line with
  | Some t => let '(ok, s) := sink_tick t st.2 in (count_record ok st.1, s)
  | None => (count_record false st.1, st.2)
  end.
Definition load_csv_ticks (path : string) (file : option text) (s : S) : bool * LoadStats * S :=
  match file with
  | None => (false, {| accepted := 0; rejected := 0; message := "Failed to open tick CSV: " +:+ path |}, s)
  | Some content =>
      match getlines c_newline content with
      | [] => (false, {| accepted := 0; rejected := 0; message := "Tick CSV empty: " +:+ path |}, s)
      | _ :: lines => let '(n, s) := foldl (λ st line, tick_row line st) ((0, 0), s) lines in (0 <? n.1, counted n, s)
      end
  end.

(** ** Sources *)

Inductive file_source := CsvDataSource (path : string) | TickCsvDataSource (path : string).
Definition load_file (fs : string → option text) (src : file_source) (s : S) : bool * LoadStats * S :=
  match src with CsvDataSource p => load_csv_bars p (fs p) s | TickCsvDataSource p => load_csv_ticks p (fs p) s end.
(** [MultiSource]: the first part that fails ends the load. *)
Fixpoint load_parts (fs : string → option text) (parts : list file_source) (total : Z * Z) (any : bool) (s : S) : bool * LoadStats * S :=
  match parts with
  | [] => (any, counted total, s)
  | p :: parts =>
      let '(ok, part, s) := load_file fs p s in
      if negb ok then
        (any, {| accepted := total.1; rejected := total.2;
                 message := if bool_decide (message part = "") then "multi-source partial failure" else message part |}, s)
      else load_parts fs parts (u64 (total.1 + accepted part), u64 (total.2 + rejected part)) (any || (0 <? accepted part)) s
  end.
Inductive market_source := single (f : file_source) | MultiSource (parts : list file_source).
Definition load_source (fs : string → option text) (src : market_source) (s : S) : bool * LoadStats * S :=
  match src with single f => load_file fs f s | MultiSource parts => load_parts fs parts (0, 0) false s end.
End Load.

(** ** The choice of a source *)

Definition filename (path : text) : text := List.last (split_on "/"%char path) [].
Definition source_for_path (path : text) (force_tick : bool) : file_source :=
  if force_tick then TickCsvDataSource (str path)
  else if contains (txt "tick") (filename path) then TickCsvDataSource (str path) else CsvDataSource (str path).
Definition from_paths (paths : list text) : exc market_source :=
  match paths with
  | [] => Throw "DataWrapper::from_paths: empty path list"
  | [p] => Ret (single (source_for_path p false))
  | _ => Ret (MultiSource ((λ p, source_for_path p false) <$> paths))
  end.
Fixpoint strip_slashes (path : text) : text :=
  match path with
  | a :: ((b :: _) as r) => if bool_decide (a = "/"%char) && bool_decide (b = "/"%char) then strip_slashes r else path
  | _ => path
  end.
Definition has_scheme (scheme : string) (uri : text) : bool := bool_decide (take (String.length scheme) uri = txt scheme).
Definition from_uri (uri : text) : exc market_source :=
  let source path force_tick := Ret (single (source_for_path (strip_slashes path) force_tick)) in
  if has_scheme "csv+tick:" uri then source (drop 9 uri) true
  else if has_scheme "csv:" uri then source (drop 4 uri) false
  else if has_scheme "file://" uri then source (drop 7 uri) false
  else if has_scheme "parquet:" uri
  then Throw "DataWrapper: parquet: URI requires ENABLE_PARQUET (docs/internal/data-pipeline.md#D-08; deferred)"
  else source uri false.

(** ** Loading a series *)

Record DataLoadOptions := {
  opt_from : option time_point; opt_to : option time_point; opt_symbols : list string;
  sort_after_load : bool; fail_if_empty : bool; retain_streamed : bool; reserve_hint : Z }.
Definition default_options : DataLoadOptions :=
  {| opt_from := None; opt_to := None; opt_symbols := []; sort_after_load := true; fail_if_empty := true; retain_streamed := false;
     reserve_hint := 0 |}.
Definition wrapper_load (fs : string → option text) (opt : DataLoadOptions) (src : market_source) (out : MarketSeries) : bool * MarketSeries :=
  let '(ok, _, out) := load_source fs src out in
  if negb ok then (false, out) else
  if fail_if_empty opt && series_empty out then (false, out) else
  (true, if sort_after_load opt && has_bar_data out then sort_bars_by_time out else out).
