(* ===== verification/DataBridge.v ===== *)
(** * From a transport to a sink (src/src/providers/data_bridge.h, transport.h, parser.h,
    provider_convert.h, provider_sink.h, prepend_transport.h, local/csv_parser.h,
    local/file_transport.h, binance/binance_combined_parser.h)

    A bridge reads frames from a transport, has a parser turn each into records, and hands the
    records to a sink, as a batch or as a stream until a flag stops it. *)

From Stdlib Require Import Ascii.
From S2P Require Import Prelude Float64 Event JsonScan BinanceParsers BitgetParsers DateParse MarketSeries CsvSource.

Open Scope string_scope.
Open Scope list_scope.
Open Scope Z_scope.

(** ** Records of a file *)

(** [bar_record] with the open time of its row. *)
Record csv_record := { cr_bar : bar_record; cr_open_time_ms : Z }.

(** [std::from_chars] over the whole field. *)
Definition fast_stoll (s : text) : option Z :=
  let neg := starts_with "-"%char s in
  let '(ds, r) := digits 10 (if neg then drop 1 s else s) in
  let v := if neg then - digits_value 10 ds else digits_value 10 ds in
  if bool_decide (ds = []) || negb (in_i64 v) || negb (bool_decide (r = [])) then None else Some v.
Definition parse_bar_volume (s : text) : Z :=
  if bool_decide (s = []) then 0 else
  match fast_stoll s with Some v => v | None => match stod s with Some d => scaled_volume d | None => 0 end end.

(** [CsvBarParser]: the map of columns is its state. *)
Definition csv_parse_header (line : text) (col_index : gmap string nat) : bool * gmap string nat :=
  let m := column_index (getlines ","%char line) col_index in
  (match missing_column m with Some _ => false | None => true end, m).
Definition csv_parse_record (col_index : gmap string nat) (line : text) : option csv_record :=
  if bool_decide (line = []) then None else
  let get := field_of col_index (split_on ","%char line) in
  o ← price_of (get "open"); h ← price_of (get "high"); l ← price_of (get "low"); c ← price_of (get "close");
  Some {| cr_bar := {| br_date := str (get "date"); br_symbol := str (get "symbol"); br_open := o; br_high := h; br_low := l; br_close := c;
                       br_volume := parse_bar_volume (get "volume") |};
          cr_open_time_ms := if bool_decide (get "open_time" = []) then 0 else default 0 (fast_stoll (get "open_time")) |}.
(** [CsvTickParser]. *)
Definition tick_parse_record (line : text) : option tick_record :=
  if bool_decide (line = []) then None else
  match split_on ","%char line with
  | f0 :: f1 :: f2 :: f3 :: rest =>
      ts_ms ← fast_stoll f0; price ← stod f2; qty ← fast_stoll f3;
      Some {| tk_timestamp := millis_tp ts_ms; tk_symbol := str f1; tk_price := price; tk_quantity := qty;
              tk_side := match rest with f4 :: _ => csv_side f4 | [] => dts_unknown end |}
  | _ => None
  end.

(** ** Combined streams of Binance *)

Fixpoint skip_plain_spaces (s : text) : text :=
  match s with c :: s' => if bool_decide (c = " "%char) then skip_plain_spaces s' else s | [] => [] end.
(** Braces are counted wherever they stand, also inside strings. *)
Fixpoint balanced (depth : nat) (s : text) : option text :=
  match s with
  | [] => None
  | c :: s' =>
      let depth := if bool_decide (c = "{"%char) then S depth else if bool_decide (c = "}"%char) then pred depth else depth in
      if (depth =? 0)%nat then Some [c] else (λ r, c :: r) <$> balanced depth s'
  end.
Definition extract_data (json : text) : text :=
  match find_after (key_needle (txt "data")) json with
  | None => []
  | Some s => let s := skip_plain_spaces s in if starts_with "{"%char s then default [] (balanced 0 s) else []
  end.
Definition is_partial_book_stream (name : text) : bool :=
  match find_after (txt "@depth") name with Some (c :: _) => bool_decide (is_Some (digit_val 10 c)) | _ => false end.
Definition symbol_from_stream (name : text) : text := map upper (span_until ["@"%char] name).1.
Definition tick_of (r : tick_record) : tick :=
  {| ti_timestamp := tk_timestamp r; ti_symbol := tk_symbol r; ti_price := tk_price r; ti_quantity := tk_quantity r; ti_side := side_to_u8 (tk_side r) |}.
Definition named_snapshot (name : text) (s : l2_snapshot) : l2_snapshot :=
  if bool_decide (sn_symbol s = "")
  then {| sn_timestamp := sn_timestamp s; sn_symbol := str (symbol_from_stream name); sn_bids := sn_bids s; sn_asks := sn_asks s |}
  else s.
(** [BinanceCombinedParser::parse_record]; [now] is the clock. *)
Definition combined_parse_record (now : time_point) (line : text) : option provider_event :=
  let name := extract_sv_string line (txt "stream") in
  let data := match extract_data line with [] => line | d => d end in
  let e := extract_sv_string data (txt "e") in
  if bool_decide (e = txt "trade") then r ← BinanceParsers.parse_trade now data; Some (pv_tick (tick_of r))
  else if bool_decide (e = txt "kline") then pv_bar <$> parse_kline data
  else if bool_decide (e = txt "depthUpdate") then pv_snapshot <$> parse_depth_snapshot now data
  else if is_partial_book_stream name then r ← parse_depth_snapshot now data; Some (pv_snapshot (named_snapshot name r))
  else None.

(** ** Records into a sink *)

Definition to_bar_record (b : bar_record) : csv_record := {| cr_bar := b; cr_open_time_ms := 0 |}.
(** The enumeration has no value for a side above two; the source casts. *)
Definition to_tick_record (t : tick) : tick_record :=
  {| tk_timestamp := ti_timestamp t; tk_symbol := ti_symbol t; tk_price := ti_price t; tk_quantity := ti_quantity t;
     tk_side := if ti_side t =? 0 then dts_bid else if ti_side t =? 1 then dts_ask else dts_unknown |}.
Definition domain_bar (ts : time_point) (r : bar_record) : Bar :=
  {| b_ts := ts; b_symbol := br_symbol r; b_date := br_date r; b_open := br_open r; b_high := br_high r; b_low := br_low r; b_close := br_close r;
     b_volume := br_volume r |}.
(** [to_domain_bar] of a record of a file: no date is parsed. *)
Definition to_domain_bar (r : csv_record) : Bar :=
  domain_bar (if 0 <? cr_open_time_ms r then millis_tp (cr_open_time_ms r) else 0) (cr_bar r).
Definition record_bar (r : csv_record) : Bar :=
  domain_bar (if 0 <? cr_open_time_ms r then millis_tp (cr_open_time_ms r) else default 0 (parse_date (txt (br_date (cr_bar r))))) (cr_bar r).
Class Emit (R : Type) := emit_record : ∀ {S} `{IMarketSink S}, R → S → bool * S.
Definition emit_bar_record {S} `{IMarketSink S} (r : csv_record) (s : S) : bool * S := sink_bar (record_bar r) s.
Definition emit_tick_record {S} `{IMarketSink S} (r : tick_record) (s : S) : bool * S := sink_tick r s.
Definition emit_event_record {S} `{IMarketSink S} (ev : provider_event) (s : S) : bool * S :=
  match ev with
  | pv_bar b => emit_bar_record (to_bar_record b) s
  | pv_tick t => sink_tick (to_tick_record t) s
  | _ => (true, s)
  end.
#[global] Instance emit_bar : Emit csv_record := λ S _, emit_bar_record.
#[global] Instance emit_tick : Emit tick_record := λ S _, emit_tick_record.
#[global] Instance emit_event : Emit provider_event := λ S _, emit_event_record.
(** [provider::event_sink]. *)
Definition event_sink {S} `{IMarketSink S} (ev : provider_event) (s : S) : S :=
  match ev with
  | pv_bar b => (sink_bar (domain_bar (default 0 (parse_date (txt (br_date b)))) b) s).2
  | pv_tick t => (sink_tick (to_tick_record t) s).2
  | _ => s
  end.

(** ** Transports *)

Class IDataTransport (T : Type) := {
  tr_open : T → bool * T;
  tr_close : T → T;
  tr_is_open : T → bool;
  tr_is_streaming : T → bool;
  tr_read_line : T → option text * T;
  tr_read_frame : T → option text * T;
  tr_read_frame_blocking : T → option text * T;
  tr_request_stop : T → T }.

(** [FileTransport]: the content of its path, whether it is open, and the lines not read yet. *)
Record FileTransport := { ft_content : option text; ft_is_open : bool; ft_lines : list text }.
Definition ft_open (t : FileTransport) : bool * FileTransport :=
  match ft_content t with
  | Some c => (true, {| ft_content := Some c; ft_is_open := true; ft_lines := getlines c_newline c |})
  | None => (false, t)
  end.
Definition ft_close (t : FileTransport) : FileTransport := {| ft_content := ft_content t; ft_is_open := false; ft_lines := [] |}.
Definition ft_read_line (t : FileTransport) : option text * FileTransport :=
  match ft_lines t with
  | l :: ls => (Some l, {| ft_content := ft_content t; ft_is_open := ft_is_open t; ft_lines := ls |})
  | [] => (None, t)
  end.
#[global] Instance file_transport : IDataTransport FileTransport := {
  tr_open := ft_open; tr_close := ft_close; tr_is_open := ft_is_open; tr_is_streaming _ := false;
  tr_read_line := ft_read_line; tr_read_frame := ft_read_line; tr_read_frame_blocking := ft_read_line;
  tr_request_stop := ft_close }.

(** [PrependTransport]: some lines, then another transport, which may be missing. *)
Record PrependTransport (T : Type) := { pt_inner : option T; pt_lines : list text }.
Arguments pt_inner {T}. Arguments pt_lines {T}. Arguments Build_PrependTransport {T}.
Section Prepend.
Context {T : Type} `{IDataTransport T}.
Definition with_inner (f : T → T) (t : PrependTransport T) : PrependTransport T := {| pt_inner := f <$> pt_inner t; pt_lines := pt_lines t |}.
Definition pt_open (t : PrependTransport T) : bool * PrependTransport T :=
  match pt_inner t with
  | Some i => let '(ok, i) := tr_open i in (ok, {| pt_inner := Some i; pt_lines := pt_lines t |})
  | None => (false, t)
  end.
Definition pt_read (read : T → option text * T) (t : PrependTransport T) : option text * PrependTransport T :=
  match pt_lines t with
  | l :: ls => (Some l, {| pt_inner := pt_inner t; pt_lines := ls |})
  | [] => match pt_inner t with Some i => let '(l, i) := read i in (l, {| pt_inner := Some i; pt_lines := [] |}) | None => (None, t) end
  end.
#[global] Instance prepend_transport : IDataTransport (PrependTransport T) := {
  tr_open := pt_open; tr_close := with_inner tr_close;
  tr_is_open t := from_option tr_is_open false (pt_inner t); tr_is_streaming t := from_option tr_is_streaming false (pt_inner t);
  tr_read_line := pt_read tr_read_line; tr_read_frame := pt_read tr_read_frame; tr_read_frame_blocking := pt_read tr_read_frame_blocking;
  tr_request_stop := with_inner tr_request_stop }.
End Prepend.

(** ** The bridge *)

(** [IDataParser]: the header, and the records of a frame. *)
Class IDataParser (P R : Type) := {
  ps_header : text → P → bool * P;
  ps_records : text → P → list R * P }.
#[global] Instance csv_bar_parser : IDataParser (gmap string nat) csv_record := {
  ps_header := csv_parse_header;
  ps_records line m := (option_list (csv_parse_record m line), m) }.
#[global] Instance csv_tick_parser : IDataParser unit tick_record := {
  ps_header _ p := (true, p);
  ps_records line p := (option_list (tick_parse_record line), p) }.
(** The state is the clock. *)
#[global] Instance combined_parser : IDataParser time_point provider_event := {
  ps_header _ p := (true, p);
  ps_records line now := (option_list (combined_parse_record now line), now) }.

Section Bridge.
Context {T P R S : Type} `{IDataTransport T} `{IDataParser P R} `{Emit R} `{IMarketSink S}.

Definition emit_counted (st : (Z * Z) * S) (r : R) : (Z * Z) * S := let '(ok, s) := emit_record r st.2 in (count_record ok st.1, s).
(** Frames until there is none; nothing when the fuel ran out. *)
Fixpoint load_frames (fuel : nat) (t : T) (p : P) (st : (Z * Z) * S) : option (T * P * ((Z * Z) * S)) :=
  match fuel with
  | O => None
  | Datatypes.S fuel =>
      match tr_read_frame t with
      | (None, t) => Some (t, p, st)
      | (Some frame, t) => let '(rs, p) := ps_records frame p in load_frames fuel t p (foldl emit_counted st rs)
      end
  end.
Definition failed (why : string) : LoadStats := {| accepted := 0; rejected := 0; message := why |}.
Definition bridge_load (fuel : nat) (t : T) (p : P) (s : S) : option (bool * LoadStats * T * P * S) :=
  let '(ok, t) := tr_open t in
  if negb ok then Some (false, failed "transport failed to open", t, p, s) else
  match tr_read_line t with
  | (None, t) => Some (false, failed "empty transport", tr_close t, p, s)
  | (Some header, t) =>
      let '(ok, p) := ps_header header p in
      if negb ok then Some (false, failed "failed to parse header", tr_close t, p, s) else
      '(t, p, (n, s)) ← load_frames fuel t p ((0, 0), s);
      Some (0 <? n.1, counted n, tr_close t, p, s)
  end.
End Bridge.

(** ** Streaming *)

(** The callback and the halt flag belong to the engine: a computation of its own. *)
Section Stream.
Context {M : Type → Type} `{MRet M} `{MBind M} {T P R S : Type} `{IDataTransport T} `{IDataParser P R} `{Emit R} `{IMarketSink S}.
Context (on_record : R → M unit) (halted : M bool).

Fixpoint handle_records (rs : list R) (s : S) : M S :=
  match rs with [] => mret s | r :: rs => _ ← on_record r; handle_records rs (emit_record r s).2 end.
Definition handle_frame (frame : text) (st : P * S) : M (P * S) :=
  let '(rs, p) := ps_records frame st.1 in s ← handle_records rs st.2; mret (p, s).
(** The flag is read before and after each wait for a frame; nothing when the fuel ran out. *)
Fixpoint stream_loop (fuel : nat) (t : T) (st : P * S) : M (option (T * (P * S))) :=
  match fuel with
  | O => mret None
  | Datatypes.S fuel =>
      if negb (tr_is_open t) then mret (Some (t, st)) else
      h ← halted;
      if h : bool then mret (Some (t, st)) else
      match tr_read_frame_blocking t with
      | (None, t) => mret (Some (t, st))
      | (Some frame, t) => h ← halted; if h : bool then mret (Some (t, st)) else st ← handle_frame frame st; stream_loop fuel t st
      end
  end.
Definition close_stream (r : option (T * (P * S))) : option (T * (P * S)) := (λ x, (tr_close x.1, x.2)) <$> r.
Definition run_streaming_impl (fuel : nat) (t : T) (p : P) (s : S) : M (option (T * (P * S))) :=
  let '(ok, t) := tr_open t in
  if negb ok then mret (Some (t, (p, s))) else
  if negb (tr_is_streaming t) then
    match tr_read_line t with
    | (Some line, t) =>
        st ← handle_frame line ((ps_header line p).2, s);
        r ← stream_loop fuel t st; mret (close_stream r)
    | (None, t) => r ← stream_loop fuel t (p, s); mret (close_stream r)
    end
  else
    match tr_read_frame_blocking t with
    | (None, t) => mret (Some (tr_close t, (p, s)))
    | (Some frame, t) =>
        st ← handle_frame frame ((ps_header frame p).2, s);
        r ← stream_loop fuel t st; mret (close_stream r)
    end.
End Stream.
(** [run_streaming]: the series grows only when it retains what is streamed. *)
Definition run_streaming {M : Type → Type} `{MRet M} `{MBind M} {T P R} `{IDataTransport T} `{IDataParser P R} `{Emit R}
    (on_record : R → M unit) (halted : M bool) (retain : bool) (fuel : nat) (t : T) (p : P) (s : MarketSeries) : M (option (T * (P * MarketSeries))) :=
  if retain then run_streaming_impl on_record halted fuel t p s
  else r ← run_streaming_impl on_record halted fuel t p discard; mret ((λ x, (x.1, (x.2.1, s))) <$> r).
