(* ===== verification/CsvTheorems.v ===== *)
(** * What a file of bars becomes

    A table is a list of column names and rows that give each name its field.  Printed with the
    names in any order it loads the same bars; and the reader of the data layer and the bridge of
    the providers read the same file alike. *)

From Stdlib Require Import Ascii Sorting.Sorted.
From S2P Require Import Prelude Float64 Event JsonScan JsonTheorems BinanceParsers BitgetParsers DateParse DateTheorems MarketSeries SeriesTheorems CsvSource DataBridge.

Open Scope string_scope.
Open Scope list_scope.
Open Scope Z_scope.

(** ** Tables *)

Fixpoint join (c : ascii) (l : list text) : text :=
  match l with [] => [] | [a] => a | a :: l => a ++ c :: join c l end.
Definition table_row : Type := string → text.
Definition csv_line (names : list string) (row : table_row) : text := join ","%char (row <$> names).
Definition csv_file (names : list string) (rows : list table_row) : text :=
  join c_newline (join ","%char (txt <$> names) :: (csv_line names <$> rows)).
Definition clean_field (f : text) : Prop := ","%char ∉ f ∧ c_newline ∉ f.
Definition clean_name (n : string) : Prop := n ≠ "" ∧ clean_field (txt n) ∧ strip_blanks (txt n) = txt n.
#[global] Instance clean_field_dec f : Decision (clean_field f) := _.
#[global] Instance clean_name_dec n : Decision (clean_name n) := _.
(** The field of a column, empty when there is no such column. *)
Definition cell (names : list string) (row : table_row) (n : string) : text := if decide (n ∈ names) then row n else [].

Lemma split_join c a l : Forall (λ f, c ∉ f) (a :: l) → split_on c (join c (a :: l)) = a :: l.
Proof.
  revert a. induction l as [|b l IH]; intros a Hf; apply Forall_cons in Hf as [Ha Hf].
  - by apply split_whole.
  - change (join c (a :: b :: l)) with (a ++ c :: join c (b :: l)). rewrite split_app by done. by rewrite IH.
Qed.
(** Nothing is dropped when the last piece is not empty. *)
Lemma getlines_join c a l : Forall (λ f, c ∉ f) (a :: l) → List.last (a :: l) [] ≠ [] → getlines c (join c (a :: l)) = a :: l.
Proof.
  intros Hf Hl. unfold getlines. cbv zeta. rewrite split_join by done. unfold text in *. destruct (rev (a :: l)) as [|[|x f] r] eqn:E; [done| |done].
  exfalso. apply Hl. rewrite <- (rev_involutive (a :: l)), E. cbn [rev]. by rewrite last_last.
Qed.
Lemma join_in c d l : d ∈ join c l → d = c ∨ ∃ f, f ∈ l ∧ d ∈ f.
Proof.
  induction l as [|a [|b l] IH]; intros H; [by apply elem_of_nil in H|right; exists a; split; [apply list_elem_of_here|done]|].
  change (join c (a :: b :: l)) with (a ++ c :: join c (b :: l)) in H. rewrite elem_of_app, elem_of_cons in H.
  destruct H as [H | [-> | H]]; [right; exists a; split; [apply list_elem_of_here|done]|by left|]. destruct (IH H) as [-> | (f & Hf & Hd)]; [by left|].
  right. exists f. split; [by apply list_elem_of_further|done].
Qed.
Lemma join_not_empty c a b l : join c (a :: b :: l) ≠ [].
Proof. change (join c (a :: b :: l)) with (a ++ c :: join c (b :: l)). by destruct a. Qed.
Lemma last_not_empty {A} (a : list A) l : Forall (λ f, f ≠ []) (a :: l) → List.last (a :: l) [] ≠ [].
Proof. revert a. induction l as [|b l IH]; intros a Hf; apply Forall_cons in Hf as [Ha Hf]; [done|exact (IH b Hf)]. Qed.
Lemma getlines_pieces c l : l ≠ [] → Forall (λ f, c ∉ f) l → Forall (λ f, f ≠ []) l → getlines c (join c l) = l.
Proof. destruct l as [|a l]; [done|]. intros _ Hc Hn. by apply getlines_join, last_not_empty. Qed.
Lemma split_pieces c l : l ≠ [] → Forall (λ f, c ∉ f) l → split_on c (join c l) = l.
Proof. destruct l as [|a l]; [done|]. intros _. apply split_join. Qed.
Lemma str_txt s : str (txt s) = s.
Proof. apply String.string_of_list_ascii_of_string. Qed.
Lemma text_of_str t : txt (str t) = t.
Proof. apply String.list_ascii_of_string_of_list_ascii. Qed.

(** ** Columns *)

Definition index_from (m : gmap string nat) (k : nat) (names : list string) : gmap string nat :=
  foldl (λ m p, <[p.2 := p.1]> m) m (zip (seq k (length names)) names).
Lemma index_from_cons m k n names : index_from m k (n :: names) = index_from (<[n := k]> m) (S k) names.
Proof. done. Qed.
Lemma column_index_names names m : Forall clean_name names → column_index (txt <$> names) m = index_from m 0 names.
Proof.
  intros Hn. unfold column_index. generalize 0%nat as k. revert m. induction Hn as [|n names (_ & _ & Hs) _ IH]; intros m k; [done|].
  cbn [fmap list_fmap foldl]. rewrite Hs, str_txt, index_from_cons. apply IH.
Qed.
Lemma index_absent names : ∀ m k n, n ∉ names → index_from m k names !! n = m !! n.
Proof.
  induction names as [|a names IH]; intros m k n Hn; [done|]. apply not_elem_of_cons in Hn as [Ha Hn]. rewrite index_from_cons, IH by done.
  by apply lookup_insert_ne.
Qed.
Lemma index_found names n : ∀ i m k, NoDup names → names !! i = Some n → index_from m k names !! n = Some (k + i)%nat.
Proof.
  induction names as [|a names IH]; intros i m k Hd Hi; [done|]. apply NoDup_cons in Hd as [Ha Hd]. rewrite index_from_cons. destruct i as [|i]; cbn in Hi.
  - injection Hi as ->. rewrite index_absent by done. rewrite Nat.add_0_r. apply lookup_insert_eq.
  - rewrite (IH i) by done. f_equal. lia.
Qed.
Lemma field_cell names row n : NoDup names → Forall clean_name names →
  field_of (column_index (txt <$> names) ∅) (row <$> names) n = cell names row n.
Proof.
  intros Hd Hc. unfold field_of, cell. rewrite column_index_names by done. destruct (decide (n ∈ names)) as [Hn|Hn].
  - apply list_elem_of_lookup in Hn as [i Hi]. rewrite (index_found _ _ i) by done. cbn. by rewrite list_lookup_fmap, Hi.
  - by rewrite index_absent.
Qed.
Lemma no_missing names : NoDup names → Forall clean_name names → required ⊆ names → missing_column (column_index (txt <$> names) ∅) = None.
Proof.
  intros Hd Hc Hr. unfold missing_column. destruct (filter _ required) as [|n l] eqn:E; [done|]. exfalso.
  assert (n ∈ filter (λ name, column_index (txt <$> names) ∅ !! name = None) required) as H by (rewrite E; apply list_elem_of_here).
  apply list_elem_of_filter in H as [Hn Hin]. rewrite column_index_names in Hn by done.
  apply Hr, list_elem_of_lookup in Hin as [i Hi]. by rewrite (index_found _ _ i) in Hn.
Qed.

(** ** The load of a table *)

Section AnySink.
Context {S : Type} `{IMarketSink S}.
Definition load_row (st : (Z * Z) * S) (b : option Bar) : (Z * Z) * S :=
  match b with Some b => let '(ok, s) := sink_bar b st.2 in (count_record ok st.1, s) | None => (count_record false st.1, st.2) end.

Lemma csv_row_load m line st : line ≠ [] → csv_row m line st = load_row st (csv_bar (field_of m (split_on ","%char line))).
Proof. intros Hl. unfold csv_row. rewrite bool_decide_false by done. by destruct (csv_bar _). Qed.
Lemma csv_bar_ext g g' : (∀ n, g n = g' n) → csv_bar g = csv_bar g'.
Proof. intros E. unfold csv_bar. by rewrite !E. Qed.
Lemma two_names names : required ⊆ names → ∃ a b l, names = a :: b :: l.
Proof.
  intros Hr. assert ("open" ∈ names ∧ "high" ∈ names) as [H1 H2] by (split; apply Hr; unfold required; set_solver).
  destruct names as [|a [|b l]]; [by apply elem_of_nil in H1| |eauto]. apply list_elem_of_singleton in H1, H2. congruence.
Qed.

(** A clean table: distinct names, the prices among them, and fields without separators. *)
Definition clean_table (names : list string) (rows : list table_row) : Prop :=
  NoDup names ∧ Forall clean_name names ∧ required ⊆ names ∧ Forall (λ row, Forall (λ n, clean_field (row n)) names) rows.
Lemma table_lines names rows : clean_table names rows →
  getlines c_newline (csv_file names rows) = join ","%char (txt <$> names) :: (csv_line names <$> rows).
Proof.
  intros (Hd & Hc & Hr & Hf). destruct (two_names names Hr) as (a & b & l & E). apply getlines_join.
  - constructor.
    + intros [? | (f & Hin & Hn)]%join_in; [done|]. apply list_elem_of_fmap in Hin as (n & -> & Hin). rewrite Forall_forall in Hc. by destruct (Hc n Hin) as (_ & [_ ?] & _).
    + apply Forall_fmap. eapply Forall_impl; [exact Hf|]. intros row Hrow [? | (f & Hin & Hn)]%join_in; [done|].
      apply list_elem_of_fmap in Hin as (n & -> & Hin). rewrite Forall_forall in Hrow. by destruct (Hrow n Hin).
  - apply last_not_empty. subst names. constructor; [apply join_not_empty|]. apply Forall_fmap, Forall_true. intros row. apply join_not_empty.
Qed.
Lemma header_names names rows : clean_table names rows → getlines ","%char (join ","%char (txt <$> names)) = txt <$> names.
Proof.
  intros (Hd & Hc & Hr & _). apply getlines_pieces.
  - by destruct (two_names names Hr) as (a & b & l & ->).
  - apply Forall_fmap. eapply Forall_impl; [exact Hc|]. by intros n (_ & [? _] & _).
  - apply Forall_fmap. eapply Forall_impl; [exact Hc|]. intros n (Hn & _). by destruct n.
Qed.
Lemma table_row_loads names row st : NoDup names → Forall clean_name names → required ⊆ names → Forall (λ n, clean_field (row n)) names →
  csv_row (column_index (txt <$> names) ∅) (csv_line names row) st = load_row st (csv_bar (cell names row)).
Proof.
  intros Hd Hc Hr Hf. destruct (two_names names Hr) as (a & b & l & E). rewrite csv_row_load by (rewrite E; apply join_not_empty).
  f_equal. apply csv_bar_ext. intros n. rewrite <- field_cell by done. f_equal. apply split_pieces; [by rewrite E|].
  apply Forall_fmap. eapply Forall_impl; [exact Hf|]. by intros n' [? _].
Qed.
Lemma load_table path names rows (s : S) : clean_table names rows →
  load_csv_bars path (Some (csv_file names rows)) s =
  let '(n, s') := foldl load_row ((0, 0), s) ((λ row, csv_bar (cell names row)) <$> rows) in (0 <? n.1, counted n, s').
Proof.
  intros Ht. unfold load_csv_bars. rewrite table_lines, (header_names names rows) by done. pose proof Ht as (Hd & Hc & Hr & Hf). rewrite no_missing by done.
  generalize ((0, 0), s) as st. intros st. f_equal. clear Ht s. revert st. induction Hf as [|row rows Hrow _ IH]; intros st; [done|].
  cbn [fmap list_fmap foldl]. rewrite table_row_loads by done. apply IH.
Qed.
End AnySink.

(** The bars of a table a series takes. *)
Definition table_bars (names : list string) (rows : list table_row) : list Bar :=
  dated <$> filter acceptable (omap (λ row, csv_bar (cell names row)) rows).
Lemma load_rows_series bs : ∀ a b r, 0 <= a → a + Z.of_nat (length bs) < 2 ^ 64 →
  ∃ b' e, foldl load_row ((a, b), columns r) bs =
    ((a + Z.of_nat (length (filter acceptable (omap id bs))), b'),
     columns {| r_bars := r_bars r ++ (dated <$> filter acceptable (omap id bs)); r_ticks := r_ticks r; r_errors := e |}).
Proof.
  induction bs as [|[x|] bs IH]; intros a b r Ha Hl.
  - exists b, (r_errors r). cbn. rewrite app_nil_r, Z.add_0_r. by destruct r.
  - cbn [length] in Hl. cbn [foldl load_row fst snd omap list_omap id]. change (sink_bar x (columns r)) with (series_on_bar x (columns r)). rewrite append_rows, filter_cons.
    destruct (decide (acceptable x)); cbn [count_record fst snd].
    + rewrite wrapu_id by (unfold in_u; lia). destruct (IH (a + 1) b (add_bar (dated x) r)) as (b' & e & ->); [lia|lia|]. exists b', e. cbn [add_bar r_bars r_ticks fmap list_fmap length].
      rewrite <- app_assoc. f_equal. f_equal. lia.
    + destruct (IH a (u64 (b + 1)) (add_error r)) as (b' & e & ->); [lia|lia|]. by exists b', e.
  - cbn [length] in Hl. cbn [foldl load_row fst snd omap list_omap id count_record]. destruct (IH a (u64 (b + 1)) r) as (b' & e & ->); [lia|lia|]. by exists b', e.
Qed.

(** C31: What a file of bars becomes.  For every clean table, with its columns in any order and any
    further columns among them, loading its file gives the series exactly the acceptable bars of
    its rows, each read by the names of its fields, in the order of time, symbol and date with
    equal ones in the order of the file; a row with a price that is no number and a bar out of
    range are left out, and the load fails exactly when nothing is left. *)
Theorem csv_file_loads fs path names rows : clean_table names rows → Z.of_nat (length rows) < 2 ^ 64 →
  fs path = Some (csv_file names rows) →
  ∃ l e, wrapper_load fs default_options (single (CsvDataSource path)) empty_series =
      (bool_decide (table_bars names rows ≠ []), columns {| r_bars := l; r_ticks := []; r_errors := e |}) ∧
    sorts (table_bars names rows) l.
Proof.
  intros Ht Hl Hf. unfold wrapper_load. cbn [load_source load_file]. rewrite Hf, load_table by done. change empty_series with (columns no_rows).
  destruct (load_rows_series ((λ row, csv_bar (cell names row)) <$> rows) 0 0 no_rows) as (b' & e & ->); [lia|rewrite length_fmap; lia|].
  assert (omap id ((λ row, csv_bar (cell names row)) <$> rows) = omap (λ row, csv_bar (cell names row)) rows) as ->.
  { clear. induction rows as [|row rows IH]; [done|]. cbn [fmap list_fmap omap list_omap]. unfold id at 1. by rewrite IH. }
  cbn [fst app no_rows r_bars r_ticks]. fold (table_bars names rows). rewrite Z.add_0_l.
  destruct (table_bars names rows) as [|x l] eqn:E.
  - assert (filter acceptable (omap (λ row, csv_bar (cell names row)) rows) = []) as -> by (by apply fmap_nil_inv in E). exists [], e. split; [done|].
    split_and!; [done|constructor|done].
  - assert (0 < Z.of_nat (length (filter acceptable (omap (λ row, csv_bar (cell names row)) rows)))) as Hlt.
    { rewrite <- (length_fmap dated). fold (table_bars names rows). rewrite E. cbn. lia. }
    apply Z.ltb_lt in Hlt. rewrite Hlt. cbn [negb].
    destruct (sort_rows {| r_bars := x :: l; r_ticks := []; r_errors := e |}) as (l' & Es & Hs). exists l', e. split; [|exact Hs].
    cbn [series_empty fail_if_empty default_options has_bar_data columns bar_symbol r_bars fmap list_fmap]. rewrite Es. done.
Qed.
Definition sample_row (date price : string) : table_row := λ n, if String.eqb n "date" then txt date else txt price.
Lemma csv_file_loads_witness :
  let names := ["close"; "date"; "high"; "note"; "low"; "open"] in
  let rows := [sample_row "2024-01-02" "7"; sample_row "2024-01-01" "5"; sample_row "2024-01-03" "x"] in
  ∃ l e, wrapper_load (λ _, Some (csv_file names rows)) default_options (single (CsvDataSource "bars.csv")) empty_series =
    (true, columns {| r_bars := l; r_ticks := []; r_errors := e |}) ∧ length l = 2%nat.
Proof.
  cbv zeta. destruct (csv_file_loads (λ _, Some (csv_file ["close"; "date"; "high"; "note"; "low"; "open"]
    [sample_row "2024-01-02" "7"; sample_row "2024-01-01" "5"; sample_row "2024-01-03" "x"])) "bars.csv"
    ["close"; "date"; "high"; "note"; "low"; "open"] [sample_row "2024-01-02" "7"; sample_row "2024-01-01" "5"; sample_row "2024-01-03" "x"])
    as (l & e & E & (Hp & _ & _)).
  - apply (bool_decide_unpack _). vm_compute. exact I.
  - vm_compute. reflexivity.
  - reflexivity.
  - exists l, e. split; [rewrite E; f_equal; vm_compute; reflexivity|]. rewrite (Permutation_length Hp). vm_compute. reflexivity.
Defined.

(** ** The two readers of a file *)

(** A volume without white space, plus sign or end of string, and an open time of at most 17 digits. *)
Definition plain_volume (f : text) : Prop := Forall (λ c, c ∉ "+"%char :: zero :: c_spaces) f.
Definition plain_time (f : text) : Prop := Forall (λ c, is_Some (digit_val 10 c)) f ∧ (length f <= 17)%nat.

Lemma plain_text f : plain_volume f → c_text f = f ∧ skip_spaces f = f ∧ signed f = (starts_with "-"%char f, if starts_with "-"%char f then drop 1 f else f).
Proof.
  intros Hf. split; [apply c_text_keeps; eapply Forall_impl; [exact Hf|]; set_solver|]. destruct Hf as [|c f Hc _]; [done|].
  apply not_elem_of_cons in Hc as [H1 Hc]. apply not_elem_of_cons in Hc as [H2 H3]. cbn [skip_spaces signed starts_with]. split.
  - unfold one_of. by rewrite (bool_decide_eq_false_2 _ H3).
  - rewrite (bool_decide_eq_false_2 (c = "+"%char)) by done. by destruct (bool_decide (c = "-"%char)).
Qed.
Lemma digits_length s : (length (digits 10 s).1 + length (digits 10 s).2 = length s)%nat.
Proof. induction s as [|c s IH]; [done|]. cbn [digits]. destruct (digit_val 10 c); [|done]. destruct (digits 10 s) as [ds r]. cbn in *. lia. Qed.
Lemma fast_stoll_plain f : plain_volume f →
  fast_stoll f = match stoll f with Some (v, idx) => if bool_decide (idx = length f) then Some v else None | None => None end.
Proof.
  intros (Hc & Hs & Hg)%plain_text. unfold fast_stoll, stoll. rewrite Hc, Hs, Hg. cbv zeta. unfold text in *.
  set (r := if starts_with "-"%char f then drop 1 f else f). assert (length r <= length f)%nat as Hr.
  { unfold r. destruct (starts_with "-"%char f); [rewrite length_drop; lia|lia]. }
  pose proof (digits_length r) as Hd. destruct (digits 10 r) as [ds rest]. cbn [fst snd] in *.
  destruct (bool_decide (ds = []) || negb (in_i64 _)); [done|]. cbn [orb].
  destruct rest as [|x rest]; cbn [length] in Hd; [rewrite !bool_decide_eq_true_2 by (done || lia); done|]. rewrite !bool_decide_eq_false_2 by (done || lia). done.
Qed.
Lemma volumes_agree f : plain_volume f → parse_bar_volume f = volume_of f.
Proof.
  intros Hf. unfold parse_bar_volume, volume_of. rewrite fast_stoll_plain by done. destruct (bool_decide (f = [])); [done|].
  destruct (stoll f) as [[v idx]|]; [|done]. by destruct (bool_decide (idx = length f)).
Qed.

Lemma digit_not_blank c : is_Some (digit_val 10 c) → c ∉ "+"%char :: zero :: c_spaces ∧ c ≠ "-"%char.
Proof.
  intros Hc%(proj2 (bool_decide_eq_true _)). apply (proj1 (bool_decide_eq_true _)). revert Hc. destruct c as [[] [] [] [] [] [] [] []]; vm_compute; congruence.
Qed.
Lemma digits_value_bound ds : Forall (λ d, 0 <= d < 10) ds → 0 <= digits_value 10 ds < 10 ^ Z.of_nat (length ds).
Proof.
  induction ds as [|d ds IH] using rev_ind; intros Hd; [cbn; lia|]. apply Forall_app in Hd as [Hds Hd]. apply Forall_cons in Hd as [Hd _]. specialize (IH Hds).
  unfold digits_value in *. rewrite foldl_app, length_app. cbn [foldl length]. rewrite Nat2Z.inj_add, Z.pow_add_r by lia. cbn. lia.
Qed.
Lemma digits_range s : Forall (λ d, 0 <= d < 10) (digits 10 s).1.
Proof.
  induction s as [|c s IH]; [constructor|]. cbn [digits]. destruct (digit_val 10 c) as [v|] eqn:E; [|constructor]. destruct (digits 10 s) as [ds r].
  constructor; [|exact IH]. clear IH. revert E. destruct c as [[] [] [] [] [] [] [] []]; vm_compute; intros [= <-]; split; congruence.
Qed.
Lemma digits_whole s : Forall (λ c, is_Some (digit_val 10 c)) s → (digits 10 s).2 = [].
Proof. induction 1 as [|c s [v E] _ IH]; [done|]. cbn [digits]. rewrite E. by destruct (digits 10 s). Qed.
Lemma stoll_digits f : plain_time f → f ≠ [] → ∃ v, stoll f = Some (v, length f) ∧ fast_stoll f = Some v ∧ 0 <= v < 10 ^ 17.
Proof.
  intros [Hf Hl] Hn. assert (plain_volume f) as Hp by (eapply Forall_impl; [exact Hf|]; intros c Hc; apply (digit_not_blank c Hc)).
  pose proof (fast_stoll_plain f Hp) as E. assert (starts_with "-"%char f = false) as Hm.
  { destruct f as [|c f]; [done|]. apply Forall_cons in Hf as [Hc _]. cbn. apply bool_decide_eq_false_2, (digit_not_blank c Hc). }
  pose proof (digits_whole f Hf) as Hr. pose proof (digits_length f) as Hd. pose proof (digits_value_bound _ (digits_range f)) as Hv.
  destruct (plain_text f Hp) as (Hc & Hs & Hg). rewrite Hm in Hg. destruct (digits 10 f) as [ds r] eqn:Ed. cbn [fst snd] in *. subst r. cbn [length] in Hd.
  assert (10 ^ Z.of_nat (length ds) <= 10 ^ 17) by (apply Z.pow_le_mono_r; lia).
  assert (stoll f = Some (digits_value 10 ds, length f)) as Es.
  { unfold stoll. cbv zeta. rewrite Hc, Hs, Hg, Ed. cbn [fst]. rewrite bool_decide_eq_false_2 by (intros ->; destruct f; cbn in *; [done|lia]).
    assert (in_i64 (digits_value 10 ds) = true) as -> by (unfold in_i64; lia). cbn [orb negb]. do 2 f_equal. lia. }
  exists (digits_value 10 ds). rewrite E, Es, bool_decide_eq_true_2 by done. split_and!; done || lia.
Qed.
Lemma times_agree f date : plain_time f →
  open_time_of f date = let ms := if bool_decide (f = []) then 0 else default 0 (fast_stoll f) in if 0 <? ms then millis_tp ms else default 0 (parse_date date).
Proof.
  intros Hf. unfold open_time_of. cbv zeta. destruct (bool_decide_reflect (f = [])) as [Hn|Hn]; [done|].
  destruct (stoll_digits f Hf Hn) as (v & -> & -> & Hv). cbn [default from_option id]. destruct (Z.ltb_spec 0 v); [|done].
  destruct (Z.eqb_spec (millis_tp v) 0) as [E|]; [|done]. exfalso. revert E. unfold millis_tp, wraps. Z.to_euclidean_division_equations. lia.
Qed.

(** The fields on which the readers could differ are plain. *)
Definition plain_row (m : gmap string nat) (line : text) : Prop :=
  let get := field_of m (split_on ","%char line) in plain_volume (get "volume") ∧ plain_time (get "open_time").
Lemma records_agree m line : line ≠ [] → plain_row m line →
  record_bar <$> csv_parse_record m line = csv_bar (field_of m (split_on ","%char line)).
Proof.
  intros Hl [Hv Ht]. unfold csv_parse_record, csv_bar. rewrite bool_decide_eq_false_2 by done. cbv zeta.
  destruct (price_of (field_of m (split_on ","%char line) "open")); [|done]. cbn [mbind option_bind].
  destruct (price_of (field_of m (split_on ","%char line) "high")); [|done]. cbn [mbind option_bind].
  destruct (price_of (field_of m (split_on ","%char line) "low")); [|done]. cbn [mbind option_bind].
  destruct (price_of (field_of m (split_on ","%char line) "close")); [|done]. cbn [mbind option_bind fmap option_fmap option_map]. f_equal.
  unfold record_bar, domain_bar. cbn [cr_bar cr_open_time_ms br_date br_symbol br_open br_high br_low br_close br_volume].
  rewrite text_of_str, volumes_agree, times_agree by done. done.
Qed.

Section Readers.
Context {S : Type} `{IMarketSink S}.
Definition lines_left (content : option text) (ls : list text) : FileTransport := {| ft_content := content; ft_is_open := true; ft_lines := ls |}.
Lemma frames_agree m content ls : Forall (plain_row m) ls → ∀ fuel a b b2 (s : S), (length ls < fuel)%nat →
  ∃ a' b' b2' s', load_frames (R := csv_record) fuel (lines_left content ls) m ((a, b), s) = Some (lines_left content [], m, ((a', b'), s')) ∧
    foldl (λ st line, csv_row m line st) ((a, b2), s) ls = ((a', b2'), s').
Proof.
  induction 1 as [|line ls Hl Hls IH]; intros fuel a b b2 s Hf; (destruct fuel as [|fuel]; [lia|]).
  { exists a, b, b2, s. done. }
  cbn [length] in Hf. cbn [load_frames tr_read_frame file_transport ft_read_line lines_left ft_lines ft_content ft_is_open ps_records csv_bar_parser foldl].
  destruct (decide (line = [])) as [->|Hn]; [apply IH; lia|]. pose proof (records_agree m line Hn Hl) as E. rewrite csv_row_load by done. rewrite <- E.
  destruct (csv_parse_record m line) as [r|]; cbn [fmap option_fmap option_map load_row fst snd]; [|apply IH; lia].
  change (option_list (Some r)) with [r]. cbn [foldl]. unfold emit_counted at 1. cbn [fst snd]. change (emit_record r s) with (sink_bar (record_bar r) s). destruct (sink_bar (record_bar r) s) as [ok s'].
  destruct ok; cbn [count_record fst snd]; apply IH; lia.
Qed.
End Readers.

(** C32: The two readers of a file of bars agree.  Whatever the file and whatever the sink, when
    in its rows the volume has no white space, no plus sign and no end of string, and the open
    time is at most 17 digits, the bridge over a file with the parser of the providers returns
    when the reader of the data layer does, succeeds when it does, hands the sink the same bars
    in the same order, and counts as many accepted. *)
Theorem csv_readers_agree {S} `{IMarketSink S} path content fuel (s : S) :
  (length (getlines c_newline content) < fuel)%nat →
  (∀ header lines, getlines c_newline content = header :: lines → Forall (plain_row (column_index (getlines ","%char header) ∅)) lines) →
  let '(ok, stats, s') := load_csv_bars path (Some content) s in
  ∃ stats' t p, bridge_load (R := csv_record) fuel {| ft_content := Some content; ft_is_open := false; ft_lines := [] |} ∅ s = Some (ok, stats', t, p, s') ∧
    accepted stats' = accepted stats.
Proof.
  intros Hf Hl. unfold load_csv_bars, bridge_load. cbn [tr_open file_transport ft_open ft_content negb tr_read_line ft_read_line ft_lines].
  destruct (getlines c_newline content) as [|h lines] eqn:E; [do 3 eexists; split; done|]. specialize (Hl h lines eq_refl). cbn [length] in Hf.
  cbn [ps_header csv_bar_parser csv_parse_header]. unfold ft_read_line. cbn [ft_lines ft_content ft_is_open]. cbv zeta. set (m := column_index (getlines ","%char h) ∅) in *.
  destruct (missing_column m); cbn [negb]; [do 3 eexists; split; done|].
  destruct (frames_agree m (Some content) lines Hl fuel 0 0 0 s) as (a' & b' & b2' & s' & Eb & Ec); [lia|]. rewrite Ec.
  change {| ft_content := Some content; ft_is_open := true; ft_lines := lines |} with (lines_left (Some content) lines). rewrite Eb.
  cbn [mbind option_bind fst counted accepted]. do 3 eexists. split; done.
Qed.

(** With a space before the volume, or a carriage return after it, they read volumes apart by a
    factor of a hundred million. *)
Lemma readers_differ :
  volume_of (txt " 5") = 5 ∧ parse_bar_volume (txt " 5") = 500000000 ∧
  volume_of (txt "5") = 5 ∧ volume_of (txt "5" ++ ["013"%char]) = 500000000.
Proof. vm_compute. done. Qed.

Definition sample_file : text := join c_newline [txt "open,high,low,close,volume"; txt "2,3,1,2,10"; txt "2,3,1,x,10"; txt "2,1,3,2,1"].
Lemma csv_readers_agree_witness : ∃ stats' t p s',
  load_csv_bars "bars.csv" (Some sample_file) empty_series = (true, {| accepted := 1; rejected := 2; message := "" |}, s') ∧
  bridge_load (R := csv_record) 5 {| ft_content := Some sample_file; ft_is_open := false; ft_lines := [] |} ∅ empty_series = Some (true, stats', t, p, s') ∧
  accepted stats' = 1.
Proof.
  pose proof (csv_readers_agree "bars.csv" sample_file 5 empty_series) as A.
  destruct (load_csv_bars "bars.csv" (Some sample_file) empty_series) as [[ok stats] s'] eqn:E.
  assert (ok = true ∧ stats = {| accepted := 1; rejected := 2; message := "" |}) as [-> ->].
  { assert ((load_csv_bars "bars.csv" (Some sample_file) empty_series).1 = (ok, stats)) as E1 by (rewrite E; reflexivity).
    vm_compute in E1. injection E1 as <- <-. split; reflexivity. }
  destruct A as (stats' & t & p & Eb & Ea).
  - apply (bool_decide_unpack _). vm_compute. exact I.
  - intros h lines Eh. vm_compute in Eh. injection Eh as <- <-. repeat (constructor; [split; [|split]; apply (bool_decide_unpack _); vm_compute; exact I|]). constructor.
  - exists stats', t, p, s'. split; [reflexivity|]. split; [exact Eb|exact Ea].
Defined.
