(* ===== verification/MarginTable.v ===== *)
(** * Loading the margin tiers (src/src/risk/maintenance_margin_table.cpp)

    The tiers of a symbol are scanned out of the body the venue answers: the first array named
    brackets, its objects, and three numbers of each.  The lookups are in Risk.

    The theorems are about the body the venue sends: objects of numbers without white space, in
    an array named brackets.  Loading it gives the tiers of the objects, the numbers read from
    their texts, in the order of their caps. *)

From Stdlib Require Import Ascii Sorting.Sorted.
From S2P Require Import Prelude Float64 Arith Event Portfolio Risk JsonScan JsonTheorems DateParse DateTheorems MarketSeries SeriesTheorems.

Open Scope string_scope.
Open Scope list_scope.
Open Scope Z_scope.

Abbreviation tier := (@MarginTier double_arith).

(** [strtod] with whether it read anything. *)
Definition strtod_opt (s : text) : option double :=
  let '(neg, r) := signed (skip_spaces (c_text s)) in double_of neg <$> magnitude_of true r.
Definition quoted_key (key : string) : text := c_quote :: txt key ++ [c_quote].
Definition mt_extract_number (object : text) (key : string) : option double :=
  s ← find_after (quoted_key key) object;
  s ← find_after [":"%char] s;
  match skip_spaces s with
  | [] => None
  | (c :: s') as v => if bool_decide (c = c_quote) then '(value, _) ← split_quote s'; strtod_opt value else strtod_opt v
  end.

(** Up to the bracket that closes the first one; a string hides brackets. *)
Fixpoint close_array (depth : nat) (in_string escaped : bool) (s : text) : option text :=
  match s with
  | [] => None
  | c :: s' =>
      if in_string then
        (λ r, c :: r) <$>
        (if escaped then close_array depth true false s'
         else if bool_decide (c = c_backslash) then close_array depth true true s'
         else close_array depth (negb (bool_decide (c = c_quote))) false s')
      else if bool_decide (c = c_quote) then (λ r, c :: r) <$> close_array depth true escaped s'
      else if bool_decide (c = "["%char) then (λ r, c :: r) <$> close_array (S depth) false escaped s'
      else if bool_decide (c = "]"%char) then
        match depth with
        | 1%nat => Some []
        | _ => (λ r, c :: r) <$> close_array (pred depth) false escaped s'
        end
      else (λ r, c :: r) <$> close_array depth false escaped s'
  end.
Definition first_brackets_array (body : text) : option text :=
  s ← find_after (quoted_key "brackets") body;
  s ← find_after [":"%char] s;
  s ← find_after ["["%char] s;
  close_array 1 false false s.

(** The objects at the top, each from its brace to the brace that closes it; [cur] is the text of
    the object that is open, backwards. *)
Fixpoint bracket_objects (in_string escaped : bool) (depth : nat) (cur : text) (s : text) : list text :=
  match s with
  | [] => []
  | c :: s' =>
      if in_string then
        if escaped then bracket_objects true false depth (c :: cur) s'
        else if bool_decide (c = c_backslash) then bracket_objects true true depth (c :: cur) s'
        else bracket_objects (negb (bool_decide (c = c_quote))) false depth (c :: cur) s'
      else if bool_decide (c = c_quote) then bracket_objects true escaped depth (c :: cur) s'
      else if bool_decide (c = "{"%char) then bracket_objects false escaped (S depth) (if (depth =? 0)%nat then [c] else c :: cur) s'
      else if bool_decide (c = "}"%char) then
        match depth with
        | O => bracket_objects false escaped 0 (c :: cur) s'
        | 1%nat => rev (c :: cur) :: bracket_objects false escaped 0 [] s'
        | S d => bracket_objects false escaped d (c :: cur) s'
        end
      else bracket_objects false escaped depth (c :: cur) s'
  end.
Definition tier_of (object : text) : tier :=
  {| notional_cap := default d_max_finite (mt_extract_number object "notionalCap") : @num double_arith;
     maintenance_margin_rate := default d_zero (mt_extract_number object "maintMarginRatio") : @num double_arith;
     maint_amount := default d_zero (mt_extract_number object "cum") : @num double_arith |}.
Definition cap_lt (a b : tier) : bool := d_lt (notional_cap a) (notional_cap b).
(** [std::sort] leaves tiers of equal caps in any order; here in the order of the body.  A cap that
    is not a number makes the comparison no order, which is undefined. *)
Definition load_from_leverage_bracket_json (body : text) : list tier :=
  match first_brackets_array body with
  | None => []
  | Some brackets => stable_sort cap_lt (tier_of <$> bracket_objects false false 0 [] brackets)
  end.

(** ** Printed bodies *)

Definition digit_text (t : text) : Prop := Forall (λ c, is_Some (digit_val 10 c)) t.
(** Digits, perhaps with a point and more digits. *)
Definition number_token (t : text) : Prop :=
  ∃ i f (point : bool), i ≠ [] ∧ digit_text i ∧ digit_text f ∧ t = i ++ if point then "."%char :: f else [].
Definition tier_object : Type := list (text * text).
Definition fields_of (o : tier_object) : list (text * jval) := (λ f, (f.1, j_tok f.2)) <$> o.
Definition clean_tier_key (k : text) : Prop := clean_key k ∧ c_backslash ∉ k.
Definition clean_tier (o : tier_object) : Prop := o ≠ [] ∧ Forall (λ f, clean_tier_key f.1 ∧ number_token f.2) o.
Fixpoint print_tiers (os : list tier_object) : text :=
  match os with [] => [] | [o] => print_object (fields_of o) | o :: os => print_object (fields_of o) ++ ","%char :: print_tiers os end.
Definition print_body (symbol : text) (os : list tier_object) : text :=
  txt "[{" ++ quoted_key "symbol" ++ ":"%char :: c_quote :: symbol ++ c_quote :: ","%char :: quoted_key "brackets" ++ txt ":[" ++ print_tiers os ++ txt "]}]".

(** ** Numbers *)

Lemma digit_char_not c (l : list ascii) : is_Some (digit_val 10 c) → forallb (λ x, bool_decide (digit_val 10 x = None)) l = true → c ∉ l.
Proof. intros [v Hv] Hl Hc. rewrite forallb_forall in Hl. apply list_elem_of_In in Hc. specialize (Hl c Hc). apply bool_decide_eq_true in Hl. congruence. Qed.
Lemma digits_run i : digit_text i → ∃ ds, length ds = length i ∧ ∀ r, (∀ c r', r = c :: r' → digit_val 10 c = None) → digits 10 (i ++ r) = (ds, r).
Proof.
  induction 1 as [|c i [v Hv] _ (ds & Hl & IH)].
  - exists []. split; [done|]. intros [|c r] Hr; [done|]. cbn. by rewrite (Hr c r eq_refl).
  - exists (v :: ds). split; [cbn; lia|]. intros r Hr. cbn [app digits]. by rewrite Hv, IH.
Qed.
(** A number followed by a comma, a brace or nothing. *)
Definition stops (r : text) : Prop := match r with [] => True | c :: _ => c ∈ [","; "}"]%char end.
Lemma stops_not_digit r : stops r → ∀ c r', r = c :: r' → digit_val 10 c = None.
Proof. intros Hr c r' ->. cbn in Hr. rewrite !elem_of_cons in Hr. by destruct Hr as [-> | [-> | H]]; [done|done|apply elem_of_nil in H]. Qed.
Definition tail_of (point : bool) (f : text) : text := if point then "."%char :: f else [].
Lemma magnitude_number i f point : i ≠ [] → digit_text i → digit_text f →
  ∃ n d, ∀ r, stops r → magnitude_of true (i ++ tail_of point f ++ r) = Some (mg_ratio n d).
Proof.
  intros Hi Hdi Hdf. destruct (digits_run i Hdi) as (di & Hli & Ri). destruct (digits_run f Hdf) as (df & Hlf & Rf).
  assert (di ≠ []) as Hn by (intros ->; by destruct i).
  assert (∃ n d, scaled (digits_value 10 (di ++ if point then df else [])) 10 (0 - Z.of_nat (length (if point then df else []))) = mg_ratio n d) as (n & d & E).
  { unfold scaled. destruct (0 <=? _); by do 2 eexists. }
  exists n, d. rewrite <- E. clear E. intros r Hr.
  assert (named_number (i ++ tail_of point f ++ r) = None) as Hnn.
  { destruct Hdi as [|c i [v Hv] _]; [done|]. unfold named_number. destruct (decide (lower c = "i"%char)) as [E|E], (decide (lower c = "n"%char)) as [E'|E'];
      [congruence| | |]; [exfalso; clear -Hv E; destruct c as [[] [] [] [] [] [] [] []]; vm_compute in Hv, E; congruence
      |exfalso; clear -Hv E'; destruct c as [[] [] [] [] [] [] [] []]; vm_compute in Hv, E'; congruence|].
    rewrite !bool_decide_eq_false_2; [done|cbn [app take map]; intros [= ? _]; done..]. }
  unfold magnitude_of. rewrite Hnn.
  assert (bool_decide (map lower (take 2 (i ++ tail_of point f ++ r)) = txt "0x") = false) as ->.
  { apply bool_decide_eq_false_2. assert (∀ c, is_Some (digit_val 10 c) ∨ c ∈ ["."; ","; "}"]%char → lower c ≠ "x"%char) as Hx.
    { intros c [[v Hv] | Hc]; [clear -Hv; destruct c as [[] [] [] [] [] [] [] []]; vm_compute in Hv |- *; congruence|].
      rewrite !elem_of_cons in Hc. by destruct Hc as [-> | [-> | [-> | Hc%elem_of_nil]]]. }
    destruct Hdi as [|c [|c' i] _ Hd]; [done| |].
    - destruct point; [cbn; intros [= _ E]; by destruct (Hx "."%char); [right; set_solver|]|].
      destruct r as [|c' r]; [done|]. cbn. intros [= _ E]. apply (Hx c'); [right|done]. cbn in Hr. set_solver.
    - apply Forall_cons in Hd as [Hc' _]. cbn. intros [= _ E]. by apply (Hx c'); [left|]. }
  cbn [andb]. unfold digits_number. destruct point; cbn [tail_of].
  - rewrite Ri by (by intros c r' [= <- _]). cbn [app]. rewrite bool_decide_eq_true_2 by done. rewrite Rf by (by apply stops_not_digit).
    rewrite bool_decide_eq_false_2 by (by destruct di). rewrite (bool_decide_eq_true_2 (10 = 10)) by done.
    destruct r as [|c r]; [done|]. rewrite bool_decide_eq_false_2; [done|]. cbn in Hr. rewrite !elem_of_cons in Hr. by destruct Hr as [-> | [-> | H%elem_of_nil]].
  - cbn [app]. rewrite Ri by (by apply stops_not_digit). destruct r as [|c r].
    + rewrite bool_decide_eq_false_2 by (by destruct di). done.
    + assert (c ≠ "."%char ∧ lower c ≠ "e"%char) as [Hp He] by (cbn in Hr; rewrite !elem_of_cons in Hr; by destruct Hr as [-> | [-> | H%elem_of_nil]]).
      rewrite (bool_decide_eq_false_2 (c = "."%char)) by done. rewrite bool_decide_eq_false_2 by (by destruct di). rewrite (bool_decide_eq_false_2 (lower c = "e"%char)) by done. done.
Qed.
(** The nearest double of a ratio is a number. *)
Lemma shr_nonneg r n : 0 <= SpecFloat.shr_m r → 0 <= SpecFloat.shr_m (SpecFloat.iter_pos SpecFloat.shr_1 n r).
Proof.
  assert (∀ r, 0 <= SpecFloat.shr_m r → 0 <= SpecFloat.shr_m (SpecFloat.shr_1 r)) as H1.
  { intros [[|[p|p|]|p] b b'] H; cbn in *; lia. }
  revert r. induction n as [n IH|n IH|]; intros r H; cbn [SpecFloat.iter_pos]; auto.
Qed.
Lemma shr_fexp_nonneg m e l : 0 <= m → 0 <= SpecFloat.shr_m (SpecFloat.shr_fexp 53 1024 m e l).1.
Proof.
  intros Hm. unfold SpecFloat.shr_fexp. assert (0 <= SpecFloat.shr_m (SpecFloat.shr_record_of_loc m l)) as H by (by destruct l as [|[]]).
  destruct (_ - e) as [|p|p]; cbn [SpecFloat.shr fst]; [done|by apply shr_nonneg|done].
Qed.
Lemma round_number s m e l : 0 <= m → SpecFloat.binary_round_aux 53 1024 s m e l ≠ d_nan.
Proof.
  intros Hm. unfold SpecFloat.binary_round_aux. pose proof (shr_fexp_nonneg m e l Hm) as H. destruct (SpecFloat.shr_fexp 53 1024 m e l) as [r e']. cbn [fst] in H.
  assert (0 <= SpecFloat.round_nearest_even (SpecFloat.shr_m r) (SpecFloat.loc_of_shr_record r)) as H'.
  { unfold SpecFloat.round_nearest_even. destruct (SpecFloat.loc_of_shr_record r) as [|[]]; [done|destruct (Z.even _); lia|done|lia]. }
  pose proof (shr_fexp_nonneg _ e' SpecFloat.loc_Exact H') as H''. destruct (SpecFloat.shr_fexp 53 1024 _ e' SpecFloat.loc_Exact) as [r' e'']. cbn [fst] in H''.
  destruct (SpecFloat.shr_m r'); [done|destruct (_ <=? _); done|lia].
Qed.
Lemma ratio_number n d : d_of_ratio n d ≠ d_nan.
Proof.
  assert (∀ p s, (let '(m, e, l) := SpecFloat.SFdiv_core_binary 53 1024 (Zpos p) 0 (Zpos d) 0 in SpecFloat.binary_round_aux 53 1024 s m e l) ≠ d_nan) as H.
  { intros p s. unfold SpecFloat.SFdiv_core_binary. cbv zeta. set (m' := match _ with Z0 => _ | Zpos _ => _ | Zneg _ => _ end).
    assert (0 <= m') as Hm. { unfold m'. destruct (0 - 0 - _); [lia|apply Z.shiftl_nonneg; lia|lia]. }
    pose proof (Z.div_pos m' (Zpos d) Hm ltac:(lia)) as Hq. unfold Z.div in Hq. destruct (Z.div_eucl m' (Zpos d)) as [q r]. by apply round_number. }
  unfold d_of_ratio. destruct n as [|p|p]; [done|apply H|apply H].
Qed.
Lemma number_read t : number_token t → ∃ d, d ≠ d_nan ∧ ∀ r, stops r → strtod_opt (t ++ r) = Some d.
Proof.
  intros (i & f & point & Hi & Hdi & Hdf & ->). destruct (magnitude_number i f point Hi Hdi Hdf) as (n & d & Hm). exists (d_of_ratio n d).
  split; [apply ratio_number|]. intros r Hr. rewrite <- app_assoc. unfold strtod_opt, text in *.
  change (if point then "."%char :: f else []) with (tail_of point f).
  assert (c_text (i ++ tail_of point f ++ r) = i ++ tail_of point f ++ c_text r ∧ stops (c_text r)) as [-> Hs].
  { assert (∀ a : text, Forall (λ x, x ≠ zero) a → ∀ s, c_text (a ++ s) = a ++ c_text s) as Hz.
    { induction 1 as [|x a Hx _ IH]; intros s; [done|]. cbn [app c_text]. rewrite bool_decide_eq_false_2 by done. by rewrite IH. }
    assert (∀ a, digit_text a → Forall (λ x, x ≠ zero) a) as Hdz.
    { intros a Ha. eapply Forall_impl; [exact Ha|]. intros x Hx ->. by destruct Hx. }
    rewrite !Hz; [|destruct point; [constructor; [done|by apply Hdz]|constructor]|by apply Hdz]. split; [done|].
    destruct r as [|x r]; [done|]. cbn [c_text stops] in *. rewrite bool_decide_eq_false_2 by (intros ->; vm_compute in Hr; set_solver). done. }
  destruct Hdi as [|c i Hc Hd]; [done|]. cbn [app skip_spaces]. unfold one_of. rewrite bool_decide_eq_false_2 by (by apply digit_char_not).
  cbn [signed]. rewrite !bool_decide_eq_false_2 by (intros ->; by destruct Hc). change (c :: i ++ tail_of point f ++ c_text r) with ((c :: i) ++ tail_of point f ++ c_text r).
  by rewrite Hm.
Qed.

(** ** Numbers of an object *)

Fixpoint lookup_text (key : text) (o : tier_object) : option text :=
  match o with [] => None | (k, t) :: o => if decide (k = key) then Some t else lookup_text key o end.
Lemma token_no_quote t : number_token t → Forall (λ c, c ∉ [c_quote; c_backslash; "{"; "}"; "["; "]"; ":"; " "; "009"; "010"; "011"; "012"; "013"]%char) t.
Proof.
  intros (i & f & point & _ & Hi & Hf & ->). assert (∀ a, digit_text a → Forall (λ c, c ∉ [c_quote; c_backslash; "{"; "}"; "["; "]"; ":"; " "; "009"; "010"; "011"; "012"; "013"]%char) a) as H.
  { intros a Ha. eapply Forall_impl; [exact Ha|]. intros c Hc. by apply digit_char_not. }
  apply Forall_app. split; [by apply H|]. destruct point; [|constructor]. constructor; [|by apply H]. apply (bool_decide_unpack _). vm_compute. exact I.
Qed.
Lemma token_head t : number_token t → ∃ c t', t = c :: t'.
Proof. intros (i & f & point & Hi & _ & _ & ->). destruct i as [|c i]; [done|]. by eexists _, _. Qed.
Lemma not_in_sub (l l' : list ascii) t : l' ⊆ l → Forall (λ c, c ∉ l) t → Forall (λ c, c ∉ l') t.
Proof. intros Hs Ht. eapply Forall_impl; [exact Ht|]. set_solver. Qed.
Lemma quote_not_in t : Forall (λ c, c ∉ [c_quote]) t → c_quote ∉ t.
Proof. intros Ht Hq. rewrite Forall_forall in Ht. apply (Ht _ Hq). apply list_elem_of_here. Qed.

Lemma key_hit key s : strip_prefix (quoted_key key) (c_quote :: txt key ++ c_quote :: s) = Some s.
Proof. change (c_quote :: txt key ++ c_quote :: s) with ((c_quote :: txt key) ++ [c_quote] ++ s). rewrite app_assoc. apply strip_prefix_app. Qed.
Lemma key_miss key k s : c_quote ∉ txt key → c_quote ∉ k → k ≠ txt key → strip_prefix (quoted_key key) (c_quote :: k ++ c_quote :: s) = None.
Proof.
  intros Hk Hq Hne. destruct (strip_prefix _ _) as [r|] eqn:E; [|done]. apply strip_prefix_spec in E. unfold quoted_key in E. cbn [app] in E.
  injection E as E. rewrite <- app_assoc in E. apply quote_split in E as [-> _]; done.
Qed.
Lemma key_miss_close key s : clean_key (txt key) → strip_prefix (quoted_key key) (c_quote :: ":"%char :: s) = None.
Proof.
  intros (_ & _ & Hh). unfold quoted_key. destruct (txt key) as [|c k]; [done|]. cbn [app strip_prefix]. rewrite bool_decide_true by done.
  apply strip_prefix_head. intros ->. apply Hh. unfold separators. set_solver.
Qed.
Lemma skip_plain key seg s : c_quote ∉ seg → find_after (quoted_key key) (seg ++ s) = find_after (quoted_key key) s.
Proof.
  induction seg as [|c seg IH]; intros Hq; [done|]. apply not_elem_of_cons in Hq as [H1 H2]. cbn [app]. rewrite find_skip; [by apply IH|].
  by apply strip_prefix_head.
Qed.
Lemma find_tier_key key o rest : clean_key (txt key) → c_quote ∉ rest → Forall (λ f, clean_tier_key f.1 ∧ number_token f.2) o → o ≠ [] →
  match lookup_text (txt key) o with
  | Some t => number_token t ∧ ∃ r, stops r ∧ find_after (quoted_key key) (print_fields (fields_of o) ++ "}"%char :: rest) = Some (":"%char :: t ++ r)
  | None => find_after (quoted_key key) (print_fields (fields_of o) ++ "}"%char :: rest) = None
  end.
Proof.
  intros Hk Hrest Ho _. assert (find_after (quoted_key key) ("}"%char :: rest) = None) as Hend.
  { change ("}"%char :: rest) with (["}"%char] ++ rest). rewrite skip_plain by (vm_compute; set_solver). rewrite <- (app_nil_r rest). by rewrite skip_plain. }
  induction Ho as [|[k t] o [Hkk Ht] Ho IH]; [done|]. cbn [lookup_text fst snd] in *.
  change (fields_of ((k, t) :: o)) with ((k, j_tok t) :: fields_of o). rewrite print_cons. unfold print_field. cbn [fst snd print_val].
  destruct (decide (k = txt key)) as [-> | Hne].
  - split; [done|]. exists (after_field (fields_of o) rest). split; [by destruct o as [|[]]; cbn; set_solver|]. cbn [app]. rewrite <- app_assoc. cbn [app find_after].
    by rewrite key_hit.
  - assert (c_quote ∉ t) as Hqt by (apply quote_not_in; eapply not_in_sub; [|by apply token_no_quote]; set_solver).
    destruct Hkk as [(Hqk & _ & _) _]. assert (find_after (quoted_key key) ((c_quote :: k ++ c_quote :: ":"%char :: t) ++ after_field (fields_of o) rest) =
      find_after (quoted_key key) (after_field (fields_of o) rest)) as E.
    { cbn [app]. rewrite <- app_assoc. cbn [app]. rewrite find_skip by (apply key_miss; [apply Hk|done|done]). rewrite skip_plain by done.
      rewrite find_skip by (by apply key_miss_close). change (":"%char :: t ++ ?x) with ((":"%char :: t) ++ x). apply skip_plain. apply not_elem_of_cons. done. }
    rewrite E. destruct o as [|[k' t'] o].
    + exact Hend.
    + change (after_field (fields_of ((k', t') :: o)) rest) with ([","%char] ++ print_fields (fields_of ((k', t') :: o)) ++ "}"%char :: rest).
      rewrite skip_plain by (vm_compute; set_solver). exact IH.
Qed.
Lemma extract_tier_number o key : clean_tier o → clean_key (txt key) →
  mt_extract_number (print_object (fields_of o)) key = lookup_text (txt key) o ≫= strtod_opt.
Proof.
  intros [Hn Ho] Hk. unfold mt_extract_number, print_object. change ("{"%char :: ?x) with (["{"%char] ++ x). rewrite skip_plain by (vm_compute; set_solver).
  pose proof (find_tier_key key o [] Hk ltac:(apply not_elem_of_nil) Ho Hn) as H. destruct (lookup_text (txt key) o) as [t|]; [|by rewrite H].
  destruct H as (Ht & r & Hr & ->). cbn [mbind option_bind find_after strip_prefix]. rewrite bool_decide_true by done.
  destruct (number_read t Ht) as (d & _ & Hd). pose proof (Hd [] I) as Hd0. rewrite app_nil_r in Hd0. rewrite Hd0.
  pose proof (token_no_quote t Ht) as Hc. destruct (token_head t Ht) as (c & t' & ->). apply Forall_cons in Hc as [Hc _].
  match goal with |- Some ?x ≫= ?f = _ => change (f (c :: t' ++ r) = Some d) end. cbv beta.
  assert (skip_spaces (c :: t' ++ r) = c :: t' ++ r) as ->.
  { cbn [skip_spaces]. unfold one_of. rewrite bool_decide_eq_false_2; [done|]. unfold c_spaces. set_solver. }
  rewrite bool_decide_eq_false_2 by set_solver. exact (Hd r Hr).
Qed.

(** ** Objects of an array *)

(** Text without brackets, braces, quotes and backslashes, and text of a string. *)
Definition plain_chars (t : text) : Prop := Forall (λ c, c ∉ [c_quote; c_backslash; "{"; "}"; "["; "]"]%char) t.
Definition string_chars (t : text) : Prop := Forall (λ c, c ∉ [c_quote; c_backslash]) t.
Lemma objects_plain a : plain_chars a → ∀ d cur s, bracket_objects false false d cur (a ++ s) = bracket_objects false false d (rev a ++ cur) s.
Proof.
  induction 1 as [|c a Hc _ IH]; intros d cur s; [done|]. cbn [app bracket_objects rev]. rewrite !bool_decide_eq_false_2 by set_solver.
  rewrite IH, <- app_assoc. done.
Qed.
Lemma objects_string a : string_chars a → ∀ d cur s,
  bracket_objects false false d cur (c_quote :: a ++ c_quote :: s) = bracket_objects false false d (rev (c_quote :: a ++ [c_quote]) ++ cur) s.
Proof.
  intros Ha d cur s. cbn [bracket_objects]. rewrite bool_decide_eq_true_2 by done.
  assert (∀ cur, bracket_objects true false d cur (a ++ c_quote :: s) = bracket_objects false false d (c_quote :: rev a ++ cur) s) as H.
  { induction Ha as [|c a Hc _ IH]; intros cur'; cbn [app bracket_objects rev].
    - rewrite bool_decide_eq_false_2 by done. by rewrite bool_decide_eq_true_2.
    - rewrite !bool_decide_eq_false_2 by set_solver. cbn [negb]. rewrite IH, <- app_assoc. done. }
  rewrite H. f_equal. cbn [rev]. rewrite rev_app_distr. cbn [rev app]. by rewrite <- app_assoc.
Qed.
Lemma array_plain a : plain_chars a ∨ Forall (λ c, c ∈ ["{"; "}"]%char) a → ∀ d s, close_array d false false (a ++ s) = (λ r, a ++ r) <$> close_array d false false s.
Proof.
  intros Ha d s. assert (Forall (λ c, c ≠ c_quote ∧ c ≠ "["%char ∧ c ≠ "]"%char) a) as H.
  { destruct Ha as [Ha | Ha]; (eapply Forall_impl; [exact Ha|]); [set_solver|]. intros c Hc. rewrite !elem_of_cons in Hc. by destruct Hc as [-> | [-> | ?%elem_of_nil]]. }
  clear Ha. induction H as [|c a (H1 & H2 & H3) _ IH]; cbn [app close_array].
  - by destruct (close_array d false false s).
  - rewrite !bool_decide_eq_false_2 by done. rewrite IH. by destruct (close_array d false false s).
Qed.
Lemma array_string a : string_chars a → ∀ d s,
  close_array d false false (c_quote :: a ++ c_quote :: s) = (λ r, (c_quote :: a ++ [c_quote]) ++ r) <$> close_array d false false s.
Proof.
  intros Ha d s. cbn [close_array]. rewrite bool_decide_eq_true_2 by done.
  assert (close_array d true false (a ++ c_quote :: s) = (λ r, (a ++ [c_quote]) ++ r) <$> close_array d false false s) as ->.
  { induction Ha as [|c a Hc _ IH]; cbn [app close_array].
    - rewrite bool_decide_eq_false_2 by done. by rewrite bool_decide_eq_true_2.
    - rewrite !bool_decide_eq_false_2 by set_solver. cbn [negb]. rewrite IH. by destruct (close_array d false false s). }
  by destruct (close_array d false false s).
Qed.

Lemma clean_key_string k : clean_tier_key k → string_chars k.
Proof.
  intros [(Hq & _ & _) Hb]. apply Forall_forall. intros c Hc. rewrite !elem_of_cons. intros [-> | [-> | ?%elem_of_nil]]; done.
Qed.
Lemma token_plain t : number_token t → plain_chars t.
Proof. intros Ht. eapply not_in_sub; [|by apply token_no_quote]. set_solver. Qed.
Definition field_text (f : text * text) : text := c_quote :: f.1 ++ c_quote :: ":"%char :: f.2.
Lemma fields_objects o : Forall (λ f, clean_tier_key f.1 ∧ number_token f.2) o → ∀ d cur s,
  bracket_objects false false d cur (print_fields (fields_of o) ++ s) = bracket_objects false false d (rev (print_fields (fields_of o)) ++ cur) s.
Proof.
  assert (∀ k t d cur s, clean_tier_key k → number_token t →
    bracket_objects false false d cur (print_field (k, j_tok t) ++ s) = bracket_objects false false d (rev (print_field (k, j_tok t)) ++ cur) s) as Hf.
  { intros k t d cur s Hk Ht. unfold print_field. cbn [fst snd print_val app]. rewrite <- app_assoc. cbn [app].
    rewrite objects_string by (by apply clean_key_string). change (":"%char :: t ++ s) with ((":"%char :: t) ++ s). rewrite objects_plain.
    - f_equal. rewrite app_assoc. f_equal. rewrite <- rev_app_distr. f_equal. cbn [app]. by rewrite <- app_assoc.
    - constructor; [|by apply token_plain]. apply (bool_decide_unpack _). vm_compute. exact I. }
  induction 1 as [|[k t] o [Hk Ht] Ho IH]; intros d cur s; [done|]. destruct o as [|[k' t'] o].
  - by apply Hf.
  - change (print_fields (fields_of ((k, t) :: (k', t') :: o))) with (print_field (k, j_tok t) ++ [","%char] ++ print_fields (fields_of ((k', t') :: o))).
    rewrite <- !app_assoc, Hf by done. rewrite objects_plain, IH; [|repeat constructor; apply (bool_decide_unpack _); vm_compute; exact I].
    rewrite !rev_app_distr, <- !app_assoc. done.
Qed.
Lemma fields_array o : Forall (λ f, clean_tier_key f.1 ∧ number_token f.2) o → ∀ d s,
  close_array d false false (print_fields (fields_of o) ++ s) = (λ r, print_fields (fields_of o) ++ r) <$> close_array d false false s.
Proof.
  assert (∀ k t d s, clean_tier_key k → number_token t →
    close_array d false false (print_field (k, j_tok t) ++ s) = (λ r, print_field (k, j_tok t) ++ r) <$> close_array d false false s) as Hf.
  { intros k t d s Hk Ht. unfold print_field. cbn [fst snd print_val app]. rewrite <- app_assoc. cbn [app].
    rewrite array_string by (by apply clean_key_string). change (":"%char :: t ++ s) with ((":"%char :: t) ++ s). rewrite array_plain.
    - destruct (close_array d false false s); [|done]. cbn. f_equal. f_equal. by rewrite <- !app_assoc.
    - left. constructor; [|by apply token_plain]. apply (bool_decide_unpack _). vm_compute. exact I. }
  induction 1 as [|[k t] o [Hk Ht] Ho IH]; intros d s; [cbn [fields_of fmap list_fmap print_fields app]; by destruct (close_array d false false s)|]. destruct o as [|[k' t'] o].
  - by apply Hf.
  - change (print_fields (fields_of ((k, t) :: (k', t') :: o))) with (print_field (k, j_tok t) ++ [","%char] ++ print_fields (fields_of ((k', t') :: o))).
    rewrite <- !app_assoc, Hf by done. rewrite array_plain, IH; [|left; repeat constructor; apply (bool_decide_unpack _); vm_compute; exact I].
    destruct (close_array d false false s); [|done]. cbn. by rewrite <- !app_assoc.
Qed.

(** ** The order of caps *)

Definition rank (d : double) : Z * Z * Z :=
  match d with
  | SpecFloat.S754_infinity s => (if s then -2 else 2, 0, 0)
  | SpecFloat.S754_finite s m e => if s then (-1, - e, - Zpos m) else (1, e, Zpos m)
  | _ => (0, 0, 0)
  end.
Definition rank_lt (a b : Z * Z * Z) : Prop :=
  a.1.1 < b.1.1 ∨ a.1.1 = b.1.1 ∧ (a.1.2 < b.1.2 ∨ a.1.2 = b.1.2 ∧ a.2 < b.2).
Lemma d_lt_rank x y : x ≠ d_nan → y ≠ d_nan → d_lt x y = true ↔ rank_lt (rank x) (rank y).
Proof.
  intros Hx Hy. unfold d_lt, SpecFloat.SFltb, rank_lt.
  destruct x as [s|s| |s m e], y as [s'|s'| |s' m' e']; try done;
    [destruct s, s'|destruct s, s'|destruct s, s'|destruct s, s'|destruct s, s'|destruct s, s'|destruct s, s'|destruct s, s'|];
    try (cbn; split; [intros H; try done; lia|intros H; try done; lia]).
  cbn [SpecFloat.SFcompare rank fst snd]. change (PosDef.Pos.compare_cont Eq m m') with (Pos.compare m m').
  destruct s, s'; cbn [rank fst snd]; try (split; [intros H; try done; lia|intros H; try done; lia]);
    destruct (Z.compare_spec e e') as [E|E|E]; try (split; [intros H; try done; lia|intros H; try done; lia]);
    destruct (Pos.compare_spec m m') as [F|F|F]; cbn [CompOpp]; (split; [intros H; try done; lia|intros H; try done; lia]).
Qed.

(** ** Loading *)

Definition text_tier (o : tier_object) : tier :=
  {| notional_cap := default d_max_finite (lookup_text (txt "notionalCap") o ≫= strtod_opt) : @num double_arith;
     maintenance_margin_rate := default d_zero (lookup_text (txt "maintMarginRatio") o ≫= strtod_opt) : @num double_arith;
     maint_amount := default d_zero (lookup_text (txt "cum") o ≫= strtod_opt) : @num double_arith |}.
Lemma tier_printed o : clean_tier o → tier_of (print_object (fields_of o)) = text_tier o.
Proof.
  intros Ho. unfold tier_of. rewrite !extract_tier_number; [done|done|apply (bool_decide_unpack _); vm_compute; exact I|done|
    apply (bool_decide_unpack _); vm_compute; exact I|done|apply (bool_decide_unpack _); vm_compute; exact I].
Qed.
Lemma lookup_token key o t : Forall (λ f, clean_tier_key f.1 ∧ number_token f.2) o → lookup_text key o = Some t → number_token t.
Proof. induction 1 as [|[k t'] o [_ Ht] _ IH]; [done|]. cbn [lookup_text]. destruct (decide (k = key)); [by intros [= <-]|done]. Qed.
Lemma cap_number o : clean_tier o → notional_cap (text_tier o) ≠ d_nan.
Proof.
  intros [_ Ho]. cbn [text_tier notional_cap]. destruct (lookup_text (txt "notionalCap") o) as [t|] eqn:E; [|done]. cbn [mbind option_bind].
  destruct (number_read t (lookup_token _ _ _ Ho E)) as (d & Hd & H). pose proof (H [] I) as H0. rewrite app_nil_r in H0. rewrite H0. exact Hd.
Qed.
Lemma object_object o cur s : clean_tier o →
  bracket_objects false false 0 cur (print_object (fields_of o) ++ s) = print_object (fields_of o) :: bracket_objects false false 0 [] s.
Proof.
  intros [_ Ho]. unfold print_object. cbn [app bracket_objects]. rewrite bool_decide_eq_false_2 by done. rewrite bool_decide_eq_true_2 by done. cbn [Nat.eqb].
  rewrite <- app_assoc, fields_objects by done. cbn [app bracket_objects]. rewrite !bool_decide_eq_false_2 by done. rewrite bool_decide_eq_true_2 by done.
  f_equal. cbn [rev]. rewrite rev_app_distr, rev_involutive. done.
Qed.
Lemma tiers_objects os : Forall clean_tier os → ∀ cur, bracket_objects false false 0 cur (print_tiers os) = (λ o, print_object (fields_of o)) <$> os.
Proof.
  induction 1 as [|o os Ho Hos IH]; intros cur; [done|]. destruct os as [|o' os].
  - change (print_tiers [o]) with (print_object (fields_of o)). rewrite <- (app_nil_r (print_object (fields_of o))), object_object by done. done.
  - change (print_tiers (o :: o' :: os)) with (print_object (fields_of o) ++ [","%char] ++ print_tiers (o' :: os)). rewrite object_object by done.
    rewrite objects_plain by (repeat constructor; apply (bool_decide_unpack _); vm_compute; exact I). rewrite IH. done.
Qed.
Lemma tiers_array os s : Forall clean_tier os → close_array 1 false false (print_tiers os ++ "]"%char :: s) = Some (print_tiers os).
Proof.
  assert (∀ o s, clean_tier o → close_array 1 false false (print_object (fields_of o) ++ s) = (λ r, print_object (fields_of o) ++ r) <$> close_array 1 false false s) as H1.
  { intros o s' [_ Ho]. unfold print_object. change ("{"%char :: ?x) with (["{"%char] ++ x). rewrite <- !app_assoc.
    rewrite array_plain by (right; repeat constructor). rewrite fields_array by done. rewrite array_plain by (right; repeat constructor).
    destruct (close_array 1 false false s'); [|done]. cbn. by rewrite <- !app_assoc. }
  induction 1 as [|o os Ho Hos IH]; [done|]. destruct os as [|o' os].
  - change (print_tiers [o]) with (print_object (fields_of o)). rewrite H1 by done. cbn [close_array]. rewrite !bool_decide_eq_false_2 by done.
    rewrite bool_decide_eq_true_2 by done. cbn. by rewrite app_nil_r.
  - change (print_tiers (o :: o' :: os)) with (print_object (fields_of o) ++ [","%char] ++ print_tiers (o' :: os)). rewrite <- !app_assoc, H1 by done.
    rewrite array_plain by (left; repeat constructor; apply (bool_decide_unpack _); vm_compute; exact I). rewrite IH. done.
Qed.
Lemma body_brackets symbol os : c_quote ∉ symbol → symbol ≠ txt "brackets" → Forall clean_tier os →
  first_brackets_array (print_body symbol os) = Some (print_tiers os).
Proof.
  intros Hq Hne Hos. assert (clean_key (txt "brackets")) as Hk by (apply (bool_decide_unpack _); vm_compute; exact I).
  unfold first_brackets_array, print_body. rewrite skip_plain by (vm_compute; set_solver). unfold quoted_key at 2. cbn [app]. rewrite <- app_assoc. cbn [app].
  rewrite find_skip by (apply key_miss; [apply Hk|vm_compute; set_solver|done]). rewrite skip_plain by (vm_compute; set_solver).
  rewrite find_skip by (by apply key_miss_close). change (":"%char :: c_quote :: ?x) with ([":"%char] ++ c_quote :: x). rewrite skip_plain by (vm_compute; set_solver).
  rewrite find_skip by (apply key_miss; [apply Hk|done|done]). rewrite skip_plain by done.
  rewrite find_skip; [|by vm_compute]. change (","%char :: ?x) with ([","%char] ++ x). rewrite skip_plain by (vm_compute; set_solver).
  unfold quoted_key at 2. cbn [app]. rewrite <- app_assoc. cbn [app find_after]. rewrite key_hit. cbn [mbind option_bind].
  change (find_after [":"%char] (txt ":[" ++ print_tiers os ++ txt "]}]")) with (Some (["["%char] ++ print_tiers os ++ txt "]}]")). cbn [mbind option_bind].
  change (find_after ["["%char] (["["%char] ++ print_tiers os ++ txt "]}]")) with (Some (print_tiers os ++ txt "]}]")). cbn [mbind option_bind].
  by apply tiers_array.
Qed.
(** C33: The margin tiers of a body.  For every list of objects of numbers the venue prints, under
    any symbol but one named like the array, the table loaded from the body holds exactly the tiers
    of its objects, each number read from its text whatever else the object holds, a missing cap
    unlimited and a missing rate or amount zero, in the order of their caps: what the lookup by
    notional of the futures check goes through. *)
Theorem margin_table_loads symbol os : Forall clean_tier os → c_quote ∉ symbol → symbol ≠ txt "brackets" →
  load_from_leverage_bracket_json (print_body symbol os) ≡ₚ text_tier <$> os ∧
  StronglySorted (λ a b : tier, d_lt (notional_cap b) (notional_cap a) = false) (load_from_leverage_bracket_json (print_body symbol os)).
Proof.
  intros Hos Hq Hne. unfold load_from_leverage_bracket_json. rewrite body_brackets, tiers_objects by done.
  assert (tier_of <$> ((λ o, print_object (fields_of o)) <$> os) = text_tier <$> os) as ->.
  { rewrite <- list_fmap_compose. apply list_fmap_ext. intros i o Hi. apply tier_printed. by eapply Forall_lookup_1. }
  split; [apply stable_sort_perm|]. apply (stable_sort_sorted cap_lt (λ t : tier, (notional_cap t : double) ≠ d_nan)).
  - intros a b Ha Hb H. apply not_true_is_false. unfold cap_lt in *. rewrite d_lt_rank by done. apply d_lt_rank in H; [|done|done]. unfold rank_lt in *. lia.
  - intros a b c Ha Hb Hc H1 H2. apply not_true_is_false. apply not_true_iff_false in H1, H2. unfold cap_lt in *. rewrite d_lt_rank in * by done.
    unfold rank_lt in *. lia.
  - apply Forall_fmap. eapply Forall_impl; [exact Hos|]. intros o Ho. by apply cap_number.
Qed.
Definition sample_object (cap rate : string) : tier_object :=
  [(txt "bracket", txt "1"); (txt "notionalCap", txt cap); (txt "maintMarginRatio", txt rate); (txt "cum", txt "0.0")].
Lemma sample_clean cap rate : bool_decide (forallb (λ c, bool_decide (is_Some (digit_val 10 c))) (txt cap) = true ∧ cap ≠ "") = true →
  number_token (txt rate) → clean_tier (sample_object cap rate).
Proof.
  intros [Hc Hn]%bool_decide_eq_true Hr. split; [done|].
  assert (∀ i, digit_text i → i ≠ [] → number_token i) as Hw. { intros i Hi Hin. exists i, [], false. split_and!; [done|done|constructor|by rewrite app_nil_r]. }
  repeat constructor; try (apply (bool_decide_unpack _); vm_compute; exact I); cbn [snd].
  - apply Hw; [|done]. apply (bool_decide_unpack _). vm_compute. exact I.
  - apply Hw; [|by destruct cap]. apply Forall_forall. intros c Hin. rewrite forallb_forall in Hc. apply list_elem_of_In in Hin. specialize (Hc c Hin). by apply bool_decide_eq_true in Hc.
  - done.
  - exists (txt "0"), (txt "0"), true. split_and!; try done; apply (bool_decide_unpack _); vm_compute; exact I.
Qed.
Lemma margin_table_loads_witness :
  load_from_leverage_bracket_json (print_body (txt "BTCUSDT") [sample_object "250000" "0.01"; sample_object "50000" "0.004"]) ≡ₚ
    [text_tier (sample_object "250000" "0.01"); text_tier (sample_object "50000" "0.004")].
Proof.
  apply (margin_table_loads (txt "BTCUSDT") [sample_object "250000" "0.01"; sample_object "50000" "0.004"]).
  - constructor; [|constructor; [|constructor]]; (apply sample_clean; [vm_compute; reflexivity|]).
    + exists (txt "0"), (txt "01"), true. split_and!; try done; apply (bool_decide_unpack _); vm_compute; exact I.
    + exists (txt "0"), (txt "004"), true. split_and!; try done; apply (bool_decide_unpack _); vm_compute; exact I.
  - apply (bool_decide_unpack _). vm_compute. exact I.
  - vm_compute. discriminate.
Defined.
