(* ===== verification/IlpWriter.v ===== *)
(** * Lines for the time-series database (src/src/data/questdb/ilp_writer.h, ilp_writer.cpp, run_tag.cpp)

    A builder of rows of the line protocol, and the writer that buffers rows, sends them over a
    transport that may fail, and keeps or diverts what it could not send.  The clock is an
    argument of the operations that read it.

    What is proved: whatever the transport does, every line enqueued is in exactly one place, in
    order: sent, diverted to the fallback, or in the buffer. *)

From Stdlib Require Import Ascii.
From S2P Require Import Prelude Float64 JsonScan.

Open Scope string_scope.
Open Scope list_scope.
Open Scope Z_scope.

(** ** Rows *)

Definition escape_into (is_tag : bool) (s : text) : text :=
  s ≫= λ c, if one_of [" "; ","]%char c || (is_tag && bool_decide (c = "="%char)) then [c_backslash; c] else [c].
Definition escape_string_value (s : text) : text := s ≫= λ c, if one_of [c_quote; c_backslash] c then [c_backslash; c] else [c].
Record LineBuilder := { lb_line : text; in_fields : bool }.
Definition new_line (table : text) : LineBuilder := {| lb_line := escape_into true table; in_fields := false |}.
Definition add_tag (key value : text) (b : LineBuilder) : LineBuilder :=
  {| lb_line := lb_line b ++ ","%char :: escape_into true key ++ "="%char :: escape_into true value; in_fields := in_fields b |}.
Definition add_field (key value : text) (b : LineBuilder) : LineBuilder :=
  {| lb_line := lb_line b ++ (if in_fields b then ","%char else " "%char) :: escape_into true key ++ "="%char :: value; in_fields := true |}.
Definition add_field_str (key value : text) : LineBuilder → LineBuilder := add_field key (c_quote :: escape_string_value value ++ [c_quote]).
Definition add_field_long (key : text) (value : Z) : LineBuilder → LineBuilder := add_field key (txt (pretty value) ++ ["i"%char]).
Definition add_field_bool (key : text) (value : bool) : LineBuilder → LineBuilder := add_field key [if value then "t"%char else "f"%char].
Definition finish_line (timestamp_ns : Z) (b : LineBuilder) : text := lb_line b ++ " "%char :: txt (pretty timestamp_ns) ++ ["010"%char].

(** [%.17g]: seventeen digits of the exact value, halves to even, without zeros at the end. *)
Definition pow10 (e : Z) : Z * Z := if 0 <=? e then (10 ^ e, 1) else (1, 10 ^ (- e)).
Definition digit_count (n : Z) : Z := Z.of_nat (String.length (pretty n)).
Fixpoint strip_zeros (rev_s : text) : text :=
  match rev_s with c :: s => if bool_decide (c = "0"%char) then strip_zeros s else rev_s | [] => [] end.
Definition point_form (i f : text) : text := match rev (strip_zeros (rev f)) with [] => i | f => i ++ "."%char :: f end.
Definition g17_magnitude (n d : Z) : text :=
  let k := digit_count n - digit_count d in
  let '(up, down) := pow10 k in
  let x := if d * up <=? n * down then k else k - 1 in
  let '(up, down) := pow10 (16 - x) in
  let r := div_half_even (n * up) (d * down) in
  let '(r, x) := if r =? 10 ^ 17 then (10 ^ 16, x + 1) else (r, x) in
  let ds := txt (pretty r) in
  if (x <? -4) || (17 <=? x) then
    point_form (take 1 ds) (drop 1 ds) ++ "e"%char :: (if x <? 0 then "-"%char else "+"%char) ::
    (if Z.abs x <? 10 then "0"%char :: txt (pretty (Z.abs x)) else txt (pretty (Z.abs x)))
  else if x <? 0 then point_form (txt "0") (replicate (Z.to_nat (- x - 1)) "0"%char ++ ds)
  else point_form (take (Z.to_nat (x + 1)) ds) (drop (Z.to_nat (x + 1)) ds).
Definition g17 (v : double) : text :=
  match v with
  | SpecFloat.S754_zero s => txt (if s then "-0" else "0")
  | SpecFloat.S754_infinity s => txt (if s then "-inf" else "inf")
  | SpecFloat.S754_nan => txt "nan"
  | SpecFloat.S754_finite s m e =>
      (if s then ["-"%char] else []) ++ (if 0 <=? e then g17_magnitude (Zpos m * 2 ^ e) 1 else g17_magnitude (Zpos m) (2 ^ (- e)))
  end.
Definition add_field_double (key : text) (value : double) : LineBuilder → LineBuilder := add_field key (g17 value).
Example g17_examples : str (g17 (d_of_ratio 1 10)) = "0.10000000000000001" ∧ str (g17 (d_of_Z 1500)) = "1500" ∧
  str (g17 (d_of_ratio 1 100000)) = "1.0000000000000001e-05" ∧ str (g17 (d_of_Z (10 ^ 20))) = "1e+20".
Proof. vm_compute. done. Qed.

Definition is_valid_run_tag (tag : text) : bool :=
  negb (bool_decide (tag = [])) && (length tag <=? 64)%nat &&
  forallb (λ c, let n := nat_of_ascii c in
    ((48 <=? n) && (n <=? 57))%nat || ((65 <=? n) && (n <=? 90))%nat || ((97 <=? n) && (n <=? 122))%nat || bool_decide (c = "_"%char)) tag.

(** ** The writer *)

(** [IIlpTransport]. *)
Class IIlpTransport (T : Type) := {
  ilp_connect : T → bool * T;
  ilp_write_all : text → T → bool * T;
  ilp_close : T → T;
  ilp_is_connected : T → bool }.

Section Writer.
Context {T : Type} `{IIlpTransport T}.
(** The fallback is a file when there is one; its content is kept here. *)
Record IlpWriter := {
  flush_every_n_lines : Z; flush_every : Z; tcp : T;
  buffer : text; buffer_count : Z; last_flush : Z; consecutive_failures : Z;
  fallback_sink : option text; fallback_lines : Z }.
Definition new_writer (n every now : Z) (t : T) : IlpWriter :=
  {| flush_every_n_lines := n; flush_every := every; tcp := t; buffer := []; buffer_count := 0; last_flush := now; consecutive_failures := 0;
     fallback_sink := None; fallback_lines := 0 |}.
Definition set_tcp (t : T) (w : IlpWriter) : IlpWriter :=
  {| flush_every_n_lines := flush_every_n_lines w; flush_every := flush_every w; tcp := t; buffer := buffer w; buffer_count := buffer_count w;
     last_flush := last_flush w; consecutive_failures := consecutive_failures w; fallback_sink := fallback_sink w; fallback_lines := fallback_lines w |}.
Definition writer_connect (w : IlpWriter) : bool * IlpWriter := let '(ok, t) := ilp_connect (tcp w) in (ok, set_tcp t w).
Definition ensure_connected (w : IlpWriter) : bool * IlpWriter := if ilp_is_connected (tcp w) then (true, w) else writer_connect w.
(** A failure: the buffer goes to the fallback, or stays. *)
Definition flush_failed (w : IlpWriter) : IlpWriter :=
  match fallback_sink w with
  | Some file =>
      {| flush_every_n_lines := flush_every_n_lines w; flush_every := flush_every w; tcp := tcp w; buffer := []; buffer_count := 0;
         last_flush := last_flush w; consecutive_failures := consecutive_failures w + 1; fallback_sink := Some (file ++ buffer w);
         fallback_lines := u64 (fallback_lines w + buffer_count w) |}
  | None =>
      {| flush_every_n_lines := flush_every_n_lines w; flush_every := flush_every w; tcp := tcp w; buffer := buffer w; buffer_count := buffer_count w;
         last_flush := last_flush w; consecutive_failures := consecutive_failures w + 1; fallback_sink := None; fallback_lines := fallback_lines w |}
  end.
Definition flush_done (now : Z) (w : IlpWriter) : IlpWriter :=
  {| flush_every_n_lines := flush_every_n_lines w; flush_every := flush_every w; tcp := tcp w; buffer := []; buffer_count := 0;
     last_flush := now; consecutive_failures := 0; fallback_sink := fallback_sink w; fallback_lines := fallback_lines w |}.
Definition flush (now : Z) (w : IlpWriter) : bool * IlpWriter :=
  if bool_decide (buffer w = []) then
    (true, {| flush_every_n_lines := flush_every_n_lines w; flush_every := flush_every w; tcp := tcp w; buffer := buffer w; buffer_count := buffer_count w;
              last_flush := now; consecutive_failures := consecutive_failures w; fallback_sink := fallback_sink w; fallback_lines := fallback_lines w |})
  else
    let '(ok, w) := ensure_connected w in
    if negb ok then (false, flush_failed w) else
    let '(ok, t) := ilp_write_all (buffer w) (tcp w) in
    if negb ok then (false, flush_failed (set_tcp (ilp_close t) w)) else (true, flush_done now (set_tcp t w)).
Definition append_line (line : text) (w : IlpWriter) : IlpWriter :=
  {| flush_every_n_lines := flush_every_n_lines w; flush_every := flush_every w; tcp := tcp w; buffer := buffer w ++ line;
     buffer_count := u64 (buffer_count w + 1); last_flush := last_flush w; consecutive_failures := consecutive_failures w;
     fallback_sink := fallback_sink w; fallback_lines := fallback_lines w |}.
Definition enqueue (now : Z) (line : text) (w : IlpWriter) : IlpWriter :=
  let w := append_line line w in if flush_every_n_lines w <=? buffer_count w then (flush now w).2 else w.
Definition enable_fallback (file : text) (w : IlpWriter) : IlpWriter :=
  {| flush_every_n_lines := flush_every_n_lines w; flush_every := flush_every w; tcp := tcp w; buffer := buffer w; buffer_count := buffer_count w;
     last_flush := last_flush w; consecutive_failures := consecutive_failures w; fallback_sink := Some file; fallback_lines := 0 |}.
Definition maybe_time_flush (now : Z) (w : IlpWriter) : IlpWriter :=
  if bool_decide (buffer w = []) then w else if flush_every w <=? now - last_flush w then (flush now w).2 else w.
End Writer.
Arguments IlpWriter T : clear implicits.

(** ** Where the lines are *)

(** A transport that remembers the writes it acknowledged. *)
Record logged (T : Type) := { lg_inner : T; lg_sent : list text }.
Arguments lg_inner {T}. Arguments lg_sent {T}.
#[global] Instance logged_transport {T} `{IIlpTransport T} : IIlpTransport (logged T) := {
  ilp_connect t := let '(ok, i) := ilp_connect (lg_inner t) in (ok, {| lg_inner := i; lg_sent := lg_sent t |});
  ilp_write_all d t := let '(ok, i) := ilp_write_all d (lg_inner t) in (ok, {| lg_inner := i; lg_sent := if ok then lg_sent t ++ [d] else lg_sent t |});
  ilp_close t := {| lg_inner := ilp_close (lg_inner t); lg_sent := lg_sent t |};
  ilp_is_connected t := ilp_is_connected (lg_inner t) }.

Section Conservation.
Context {T : Type} `{IIlpTransport T}.
Inductive writer_op := wo_enqueue (now : Z) (line : text) | wo_flush (now : Z) | wo_time (now : Z) | wo_connect.
Definition writer_step (w : IlpWriter (logged T)) (op : writer_op) : IlpWriter (logged T) :=
  match op with
  | wo_enqueue now line => enqueue now line w
  | wo_flush now => (flush now w).2
  | wo_time now => maybe_time_flush now w
  | wo_connect => (writer_connect w).2
  end.
Definition enqueued (ops : list writer_op) : list text := omap (λ op, match op with wo_enqueue _ l => Some l | _ => None end) ops.

(** The chunks sent and diverted, in the order in which they left the buffer. *)
Inductive chunk := sent (t : text) | diverted (t : text).
Definition chunk_text (c : chunk) : text := match c with sent t | diverted t => t end.
Definition only_sent (c : chunk) : option text := match c with sent t => Some t | diverted _ => None end.
Definition only_diverted (c : chunk) : option text := match c with diverted t => Some t | sent _ => None end.
Definition accounts (base : text) (base_sent : list text) (lines : list text) (w : IlpWriter (logged T)) : Prop :=
  ∃ chunks, concat lines = (chunks ≫= chunk_text) ++ buffer w ∧
    lg_sent (tcp w) = base_sent ++ omap only_sent chunks ∧
    match fallback_sink w with Some f => f = base ++ concat (omap only_diverted chunks) | None => omap only_diverted chunks = [] end.

Lemma flush_accounts base bs lines now w : accounts base bs lines w → accounts base bs lines (flush now w).2.
Proof.
  intros (cs & Hl & Hs & Hf). unfold flush. destruct (bool_decide (buffer w = [])); [by exists cs|].
  assert (∃ ok w1, ensure_connected w = (ok, w1) ∧ buffer w1 = buffer w ∧ fallback_sink w1 = fallback_sink w ∧ lg_sent (tcp w1) = lg_sent (tcp w)) as (ok & w1 & -> & Hb & Hk & Ht).
  { unfold ensure_connected, writer_connect. destruct (ilp_is_connected (tcp w)); [by do 2 eexists|]. cbn [ilp_connect logged_transport].
    destruct (ilp_connect (lg_inner (tcp w))) as [ok i]. by do 2 eexists. }
  assert (∀ t, lg_sent t = lg_sent (tcp w1) → accounts base bs lines (flush_failed (set_tcp t w1))) as Hfail.
  { intros t Hts. unfold flush_failed. cbn [set_tcp fallback_sink buffer tcp]. rewrite Hk, Hb. destruct (fallback_sink w) as [file|].
    - exists (cs ++ [diverted (buffer w)]). cbn [buffer tcp fallback_sink]. rewrite bind_app, omap_app, omap_app, concat_app. cbn. rewrite !app_nil_r, Hts, Ht, Hf, app_assoc.
      split_and!; done.
    - exists cs. cbn [buffer tcp fallback_sink]. rewrite Hts, Ht. done. }
  destruct ok; cbn [negb].
  - cbn [ilp_write_all logged_transport]. destruct (ilp_write_all (buffer w1) (lg_inner (tcp w1))) as [ok i]. destruct ok; cbn [negb snd].
    + exists (cs ++ [sent (buffer w)]). cbn [flush_done set_tcp buffer tcp lg_sent fallback_sink]. rewrite bind_app, omap_app, omap_app, concat_app. cbn.
      rewrite !app_nil_r, Hb, Ht, Hs, Hk, <- app_assoc. split_and!; done.
    + by apply Hfail.
  - cbn [snd]. change (flush_failed w1) with (flush_failed (set_tcp (tcp w1) w1)). by apply Hfail.
Qed.

(** Whatever the transport answers, the lines enqueued are, in order, the chunks that left the
    buffer and then the buffer; the chunks acknowledged are those sent, and the rest are in the
    fallback file.  No line is lost, and none is in two places. *)
Theorem lines_accounted n every now t (fallback : option text) ops :
  let w0 := match fallback with Some f => enable_fallback f (new_writer n every now t) | None => new_writer n every now t end in
  accounts (default [] fallback) (lg_sent t) (enqueued ops) (foldl writer_step w0 ops).
Proof.
  cbv zeta. induction ops as [|op ops IH] using rev_ind.
  { exists []. destruct fallback; cbn; rewrite !app_nil_r; done. }
  rewrite foldl_app. cbn [foldl]. unfold enqueued. rewrite omap_app. fold (enqueued ops). set (w := foldl writer_step _ ops) in *.
  destruct op as [now' line|now'|now'|]; cbn [omap list_omap writer_step]; rewrite ?app_nil_r.
  - unfold enqueue. assert (accounts (default [] fallback) (lg_sent t) (enqueued ops ++ [line]) (append_line line w)) as Hw.
    { destruct IH as (cs & Hl & Hs & Hf). exists cs. split_and!; [|done|done]. cbn [append_line buffer]. rewrite concat_app, Hl. cbn. by rewrite app_nil_r, app_assoc. }
    destruct (_ <=? _); [by apply flush_accounts|done].
  - by apply flush_accounts.
  - unfold maybe_time_flush. destruct (bool_decide _); [done|]. destruct (_ <=? _); [by apply flush_accounts|done].
  - unfold writer_connect. cbn [ilp_connect logged_transport]. destruct (ilp_connect (lg_inner (tcp w))) as [ok i]. exact IH.
Qed.
End Conservation.
