(* ===== verification/EngineFeed.v ===== *)
(** * Market data into the engine (src/src/engine/engine.cpp: run, run_streaming)

    The batch run takes its bars or ticks from a series; the streaming run hands every event the
    bridge parses to the handler for it.  Without a dashboard, whose counters read only; the
    requests to switch the symbol or the strategy belong to the bar and tick streams and are not
    part of the stream of venue events.

    A streaming run over any transport and any parser of venue events is the handler of those
    events applied to them one after another, until there are no more, the engine has halted or a
    handler threw; what it keeps of them is what the series accepts. *)

From Stdlib Require Import Ascii.
From S2P Require Import Prelude Float64 Arith Event Bridge NodeHeap OrderBook Portfolio Sizing Risk Exits ExitPolicy.
From S2P Require Import ClientOrderId Indicators EngineEvents Analytics Trackers EngineState Engine EngineLoop EngineLogic EngineRuns EngineTheorems.
From S2P Require Import JsonScan BinanceParsers BitgetParsers DateParse MarketSeries CsvSource DataBridge.

Open Scope string_scope.
Open Scope list_scope.
Open Scope Z_scope.

Section Feed.
#[local] Existing Instance double_arith.
Context {HO : HashOrder} {MO : MultiOrder} {S : Type} {SI : IStrategy S} {W : Type} {XW : Execution W} (log_ : num → num).
#[local] Abbreviation engine := (@EngineState.engine double_arith S W).
#[local] Abbreviation E := (@EngineState.E double_arith S W).

(** ** Conversions *)

Definition market_of (ts : time_point) (b : bar_record) : market_msg :=
  {| mm_ts := ts; mm_symbol := br_symbol b; mm_open := (br_open b : num); mm_high := (br_high b : num); mm_low := (br_low b : num);
     mm_close := (br_close b : num); mm_volume := br_volume b; mm_recv_ns := 0 |}.
Definition engine_side (s : data_tick_side) : tick_side :=
  match s with dts_bid => tick_bid | dts_ask => tick_ask | dts_unknown => tick_unknown end.
Definition tick_msg_of (t : tick_record) : tick_msg :=
  {| tm_ts := tk_timestamp t; tm_symbol := tk_symbol t; tm_price := (tk_price t : num); tm_quantity := tk_quantity t;
     tm_side := engine_side (tk_side t); tm_recv_ns := 0 |}.
Definition engine_levels (l : list BinanceParsers.l2_level) : list (num * Z) := (λ x, (ll_price x : num, ll_quantity x)) <$> l.

(** ** The batch run *)

Definition history_of (b : Bar) : history_bar :=
  {| hb_msg := {| mm_ts := b_ts b; mm_symbol := b_symbol b; mm_open := (b_open b : num); mm_high := (b_high b : num); mm_low := (b_low b : num);
                  mm_close := (b_close b : num); mm_volume := b_volume b; mm_recv_ns := 0 |};
     hb_date := parse_date (txt (b_date b)) |}.
Definition series_bars (s : MarketSeries) : list Bar := omap (bar_at s) (seq 0 (bar_count s)).
(** [engine::run]. *)
Definition run_series (seeded : bool) (s : MarketSeries) : E unit :=
  if has_tick_data s then run_tick_data log_ (tick_msg_of <$> ticks s)
  else if negb (has_bar_data s)
  then λ e, (Throw "no data loaded — call IMarketSource::load_into() / DataWrapper::load() before run()", e)
  else run log_ seeded (history_of <$> series_bars s).

(** ** The streaming run *)

(** The time of a streamed bar: the milliseconds its date holds, and else the clock. *)
Definition stream_time (date : string) : option time_point :=
  match (if bool_decide (date = "") then None else stoll (txt date)) with
  | Some (ts_ms, _) => if 1000000000000 <? ts_ms then Some (millis_tp ts_ms) else None
  | None => None
  end.
Definition on_event (ev : provider_event) : E unit :=
  match ev with
  | pv_bar b =>
      ts ← match stream_time (br_date b) with Some ts => mret ts | None => world_ w_now end;
      process_single_bar log_ (market_of ts b)
  | pv_tick t => process_single_tick log_ (tick_msg_of (to_tick_record t))
  | pv_snapshot s => apply_l2_snapshot (sn_symbol s) (engine_levels (sn_bids s)) (engine_levels (sn_asks s))
  | pv_update u => apply_l2_update log_ (up_symbol u) (if up_side u =? 0 then tick_bid else tick_ask) (up_price u : num) (up_quantity u)
  | pv_status _ => mret ()
  end.
Definition run_streaming_events {T P} `{IDataTransport T} `{IDataParser P provider_event} (retain : bool) (fuel : nat) (t : T) (p : P) (s : MarketSeries) :
    E (option (T * (P * MarketSeries))) :=
  start_workers;;
  modify (set_en_count 0);;
  run_streaming on_event (gets en_halt) retain fuel t p s.
End Feed.

(** ** The events of a transport *)

Section Frames.
Context {T P R : Type} `{IDataTransport T} `{IDataParser P R}.

(** The frames a loop would read, whether it comes to their end, and the records of frames. *)
Fixpoint frames (fuel : nat) (t : T) : list text :=
  match fuel with
  | O => []
  | Datatypes.S fuel => if negb (tr_is_open t) then [] else match tr_read_frame_blocking t with (None, _) => [] | (Some f, t) => f :: frames fuel t end
  end.
Fixpoint ends (fuel : nat) (t : T) : bool :=
  match fuel with
  | O => false
  | Datatypes.S fuel => if negb (tr_is_open t) then true else match tr_read_frame_blocking t with (None, _) => true | (Some _, t) => ends fuel t end
  end.
Fixpoint records (p : P) (fs : list text) : list R :=
  match fs with [] => [] | f :: fs => let '(rs, p) := ps_records f p in rs ++ records p fs end.
(** The first read, a line unless the transport streams; without one a stream is over. *)
Definition first_read (t : T) : option text * T := if negb (tr_is_streaming t) then tr_read_line t else tr_read_frame_blocking t.
Definition all_ends (fuel : nat) (t : T) : bool :=
  let '(ok, t) := tr_open t in
  if negb ok then true else
  match first_read t with (Some _, t) => ends fuel t | (None, t') => tr_is_streaming t || ends fuel t' end.
(** The first frame is shown to the parser as a header too. *)
Definition all_records (fuel : nat) (t : T) (p : P) : list R :=
  let '(ok, t) := tr_open t in
  if negb ok then [] else
  match first_read t with
  | (Some f, t) => records (ps_header f p).2 (f :: frames fuel t)
  | (None, t') => if tr_is_streaming t then [] else records p (frames fuel t')
  end.
End Frames.

Section Feeding.
#[local] Existing Instance double_arith.
Context {HO : HashOrder} {MO : MultiOrder} {S : Type} {SI : IStrategy S} {W : Type} {XW : Execution W} (log_ : num → num).
#[local] Abbreviation engine := (@EngineState.engine double_arith S W).
#[local] Abbreviation E := (@EngineState.E double_arith S W).
Context {R : Type} (on_record : R → E unit).

(** A computation that hands on some of the records: those it was done with, and whether it was
    all of them, the engine had halted, or a record threw. *)
Definition feeds {X} (m : E X) (rs : list R) (Q : list R → X → Prop) (e : engine) : Prop :=
  ∃ done rest, rs = done ++ rest ∧
    match m e with
    | (Ret x, e') => for_each on_record done e = (Ret (), e') ∧ (rest = [] ∨ en_halt e' = true) ∧ Q done x
    | (Throw w, e') => for_each on_record done e = (Throw w, e')
    end.
(** One that hands on all of them. *)
Definition feeds_all {X} (m : E X) (rs : list R) (Q : X → Prop) (e : engine) : Prop :=
  match m e with
  | (Ret x, e') => for_each on_record rs e = (Ret (), e') ∧ Q x
  | (Throw w, e') => ∃ done rest, rs = done ++ rest ∧ for_each on_record done e = (Throw w, e')
  end.

Lemma for_each_app (l1 l2 : list R) (e : engine) :
  for_each on_record (l1 ++ l2) e = match for_each on_record l1 e with (Ret _, e1) => for_each on_record l2 e1 | (Throw w, e1) => (Throw w, e1) end.
Proof.
  revert e. induction l1 as [|r l1 IH]; intros e; [done|]. cbn [app for_each]. unfold mbind, E_bind. destruct (on_record r e) as [[]]; [|done]. apply IH.
Qed.
Lemma feeds_ret {X} (x : X) (Q : list R → X → Prop) e : Q [] x → feeds (mret x) [] Q e.
Proof. intros H. exists [], []. split; [done|]. split_and!; [done|by left|done]. Qed.
Lemma feeds_bind {X Y} (m : E X) (k : X → E Y) rs rs' (Q : X → Prop) (Q' : list R → Y → Prop) e :
  feeds_all m rs Q e → (∀ x e', Q x → feeds (k x) rs' (λ l, Q' (rs ++ l)) e') → feeds (mbind k m) (rs ++ rs') Q' e.
Proof.
  unfold feeds_all. intros Hm Hk. unfold feeds, mbind, E_bind. destruct (m e) as [[x|w] e'].
  - destruct Hm as [Hm HQ]. destruct (Hk x e' HQ) as (done & rest & -> & Hd). exists (rs ++ done), rest. split; [by rewrite app_assoc|]. rewrite for_each_app, Hm. exact Hd.
  - destruct Hm as (done & rest & -> & Hd). exists done, (rest ++ rs'). split; [by rewrite <- app_assoc|done].
Qed.
Lemma feeds_post {X} (m : E X) rs (Q Q' : list R → X → Prop) e : feeds m rs Q e → (∀ l x, Q l x → Q' l x) → feeds m rs Q' e.
Proof.
  intros (done & rest & -> & H) HQ. exists done, rest. split; [done|]. destruct (m e) as [[x|w] e']; [|done].
  destruct H as (H1 & H2 & H3). split_and!; [done..|by apply HQ].
Qed.
Lemma feeds_map {X Y} (m : E X) (f : X → Y) rs (Q : list R → X → Prop) (Q' : list R → Y → Prop) e :
  feeds m rs Q e → (∀ l x, Q l x → Q' l (f x)) → feeds (x ← m; mret (f x)) rs Q' e.
Proof.
  intros Hm HQ. destruct (feeds_post m rs Q (λ l x, Q' l (f x)) e Hm HQ) as (done & rest & -> & H). exists done, rest. split; [done|].
  unfold mbind, E_bind. by destruct (m e) as [[x|w] e'].
Qed.
(** The flag is asked first. *)
Lemma feeds_unless_halted {X} (x : X) (m : E X) rs (Q : list R → X → Prop) e :
  Q [] x → (en_halt e = false → feeds m rs Q e) → feeds (h ← gets en_halt; if h : bool then mret x else m) rs Q e.
Proof.
  intros Hx Hm. unfold feeds, mbind, E_bind, gets. destruct (en_halt e) eqn:Eh.
  - exists [], rs. split; [done|]. split_and!; [done|by right|done].
  - exact (Hm eq_refl).
Qed.

Context {T P K : Type} `{IDataTransport T} `{IDataParser P R} `{Emit R} `{IMarketSink K}.

(** What a sink has taken of some records. *)
Definition taken (s : K) (rs : list R) : K := foldl (λ s r, (emit_record r s).2) s rs.
(** The run came to an end when the transport does, and the sink has taken what was handed on. *)
Definition over (b : bool) (s : K) (done : list R) (r : option (T * (P * K))) : Prop :=
  (b = true → is_Some r) ∧ (∀ x, r = Some x → x.2.2 = taken s done).

Lemma handle_records_feeds rs : ∀ (s : K) (e : engine), feeds_all (handle_records (M := E) on_record rs s) rs (λ s', s' = taken s rs) e.
Proof.
  unfold feeds_all. induction rs as [|r rs IH]; intros s e; [done|]. cbn [handle_records for_each]. unfold mbind, E_bind. destruct (on_record r e) as [[u|w] e'] eqn:Er.
  - specialize (IH (emit_record r s).2 e'). destruct (handle_records (M := E) on_record rs (emit_record r s).2 e') as [[x|w] e'']; [done|].
    destruct IH as (done & rest & -> & Hd). exists (r :: done), rest. split; [done|]. cbn [for_each]. unfold mbind, E_bind. rewrite Er. exact Hd.
  - exists [r], rs. split; [done|]. cbn [for_each]. unfold mbind, E_bind. by rewrite Er.
Qed.
Lemma handle_frame_feeds f p (s : K) e rs p' : ps_records f p = (rs, p') → feeds_all (handle_frame (M := E) on_record f (p, s)) rs (λ x, x = (p', taken s rs)) e.
Proof.
  intros Ep. unfold handle_frame. cbn [fst snd]. rewrite Ep. pose proof (handle_records_feeds rs s e) as Hr. unfold feeds_all, mbind, E_bind in *.
  destruct (handle_records (M := E) on_record rs s e) as [[x|w] e']; [|done]. destruct Hr as [Hr ->]. done.
Qed.
Lemma over_app b s rs done r : over b (taken s rs) done r → over b s (rs ++ done) r.
Proof. intros [Ho Hs]. split; [done|]. intros x Hx. rewrite (Hs x Hx). unfold taken. by rewrite foldl_app. Qed.
Lemma over_here b s x : x.2.2 = s → over b s [] (Some x).
Proof. intros <-. split; [done|]. intros y Hy. by injection Hy as <-. Qed.

Lemma stream_loop_feeds fuel : ∀ (t : T) (p : P) (s : K) e,
  feeds (stream_loop (M := E) on_record (gets en_halt) fuel t (p, s)) (records p (frames fuel t)) (over (ends fuel t) s) e.
Proof.
  induction fuel as [|fuel IH]; intros t p s e; [by apply feeds_ret|]. cbn [stream_loop frames ends]. destruct (negb (tr_is_open t)); [by apply feeds_ret, over_here|].
  apply feeds_unless_halted; [by apply over_here|]. intros _. destruct (tr_read_frame_blocking t) as [[f|] t']; [|by apply feeds_ret, over_here].
  apply feeds_unless_halted; [by apply over_here|]. intros _. cbn [records]. destruct (ps_records f p) as [rs p'] eqn:Ep.
  apply (feeds_bind _ _ _ _ _ _ _ (handle_frame_feeds f p s e rs p' Ep)). intros x e' ->.
  eapply feeds_post; [apply IH|]. intros l r. apply over_app.
Qed.
(** The loop and the close after it, and a first frame before them. *)
Lemma stream_rest_feeds fuel (t : T) (p : P) (s : K) e :
  feeds (r ← stream_loop (M := E) on_record (gets en_halt) fuel t (p, s); mret (close_stream r)) (records p (frames fuel t)) (over (ends fuel t) s) e.
Proof.
  eapply feeds_map; [apply stream_loop_feeds|]. intros l r [Ho Hs]. unfold close_stream. split.
  - intros Hb. destruct (Ho Hb) as [x ->]. by eexists.
  - intros x Hx. destruct r as [y|]; [|done]. injection Hx as <-. by apply (Hs y).
Qed.
Lemma stream_from_feeds fuel f (t : T) (p : P) (s : K) e :
  feeds (st ← handle_frame (M := E) on_record f (p, s); r ← stream_loop (M := E) on_record (gets en_halt) fuel t st; mret (close_stream r))
    (records p (f :: frames fuel t)) (over (ends fuel t) s) e.
Proof.
  cbn [records]. destruct (ps_records f p) as [rs p'] eqn:Ep. apply (feeds_bind _ _ _ _ _ _ _ (handle_frame_feeds f p s e rs p' Ep)). intros x e' ->.
  eapply feeds_post; [apply stream_rest_feeds|]. intros l r. apply over_app.
Qed.
Lemma run_streaming_impl_feeds fuel (t : T) (p : P) (s : K) e :
  feeds (run_streaming_impl (M := E) on_record (gets en_halt) fuel t p s) (all_records fuel t p) (over (all_ends fuel t) s) e.
Proof.
  unfold run_streaming_impl, all_records, all_ends, first_read. destruct (tr_open t) as [ok t1]. destruct (negb ok); [by apply feeds_ret, over_here|].
  destruct (tr_is_streaming t1); cbn [negb orb].
  - destruct (tr_read_frame_blocking t1) as [[f|] t2]; [apply stream_from_feeds|by apply feeds_ret, over_here].
  - destruct (tr_read_line t1) as [[f|] t2]; [apply stream_from_feeds|apply stream_rest_feeds].
Qed.
End Feeding.

Section Events.
#[local] Existing Instance double_arith.
Context {HO : HashOrder} {MO : MultiOrder} {S : Type} {SI : IStrategy S} {W : Type} {XW : Execution W} (log_ : num → num).
#[local] Abbreviation engine := (@EngineState.engine double_arith S W).

Lemma on_event_pres (cfg : engine_config) (Rel : @law double_arith S W) {F : Whole log_ cfg Rel} ev : pres cfg Rel (on_event (S := S) (W := W) log_ ev).
Proof.
  destruct ev as [b|t|s|u|st]; cbn [on_event]; [|eapply process_single_tick_pres; exact F|eapply apply_l2_snapshot_pres; exact F|eapply apply_l2_update_pres; exact F|apply pres_ret, _].
  apply pres_bind; [exact _|destruct (stream_time (br_date b)); [apply pres_ret, _|apply pres_world_, _]|]. intros ts. eapply process_single_bar_pres; exact F.
Qed.

(** The engine a streaming run starts with. *)
Definition started (e : engine) : engine := set_en_count 0 (set_en_halt false e).

Lemma started_typed e : typed (en_cfg e) e → typed (en_cfg e) (started e).
Proof. by apply typed_same. Qed.

(** C35: a streaming run serves what is streamed.  Over any transport that comes to an end and any
    parser of venue events the run ends, by returning or by the exception of a handler; it is
    the handler of each event applied to the events of the frames, in their order and each
    once, up to a point that is the end of them unless the engine halted or a handler threw; the
    series has grown by exactly those events when it retains them and not at all otherwise; and
    the portfolio is what the fills and fundings published on the way make of it, but for at
    most one fill more, booked and never published, when a handler threw. *)
Theorem streamed_events_served {T P} `{IDataTransport T} `{IDataParser P provider_event} retain fuel (t : T) (p : P) s (e : engine) :
  typed (en_cfg e) e → all_ends fuel t = true →
  ∃ done rest l, all_records fuel t p = done ++ rest ∧
    en_out (run_streaming_events log_ retain fuel t p s e).2 = en_out e ++ l ∧
    match run_streaming_events log_ retain fuel t p s e with
    | (Ret r, e') =>
        for_each (on_event log_) done (started e) = (Ret (), e') ∧ (rest = [] ∨ en_halt e' = true) ∧
        (∃ t' p', r = Some (t', (p', if retain then taken s done else s))) ∧
        en_portfolio e' = foldl booked (en_portfolio e) l
    | (Throw w, e') =>
        for_each (on_event log_) done (started e) = (Throw w, e') ∧
        (en_portfolio e' = foldl booked (en_portfolio e) l ∨
         ∃ f, en_portfolio e' = booked (foldl booked (en_portfolio e) l) (out_publish (ev_fill f)))
    end.
Proof.
  intros Ht Hend. change (run_streaming_events log_ retain fuel t p s e) with (run_streaming (on_event log_) (gets en_halt) retain fuel t p s (started e)).
  assert (feeds (on_event log_) (run_streaming (on_event log_) (gets en_halt) retain fuel t p s) (all_records fuel t p)
    (λ done r, ∃ t' p', r = Some (t', (p', if retain then taken s done else s))) (started e)) as (done & rest & Er & Hrun).
  { unfold run_streaming. destruct retain.
    - eapply feeds_post; [apply run_streaming_impl_feeds|]. intros l r [Ho Hs]. destruct (Ho Hend) as [[t' [p' s']] ->]. exists t', p'. by rewrite <- (Hs _ eq_refl).
    - eapply feeds_map; [apply run_streaming_impl_feeds|]. intros l r [Ho _]. destruct (Ho Hend) as [[t' [p' s']] ->]. by exists t', p'. }
  assert (Whole log_ (en_cfg e) (accounts_law (S := S) (W := W) (λ _ _, True) (λ _ _, True))) as HF by by apply accounts_whole.
  destruct (pres_for_each (en_cfg e) _ (on_event log_) done (λ x, on_event_pres _ _ x) (started e) (started_typed e Ht) I) as (_ & Hm & _).
  unfold moved in Hm. destruct (run_streaming (on_event log_) (gets en_halt) retain fuel t p s (started e)) as [[r|w] e'].
  - destruct Hrun as (Hd & Hr & Hx). rewrite Hd in Hm. destruct Hm as (l & E1 & E2 & _). exists done, rest, l. by split_and!.
  - rewrite Hrun in Hm. destruct Hm as (l & E1 & E2). exists done, rest, l. by split_and!.
Qed.
End Events.

(** ** A stream *)

Section Example.
#[local] Existing Instance double_arith.

(** A venue that takes every order and fills none. *)
#[local] Instance silent : Execution Z := {|
  ad_new _ _ w := (Ret 7, w);
  ad_is_async _ _ := false;
  ad_set_mid_price _ _ w := w;
  ad_set_l2_seeded _ _ w := w;
  ad_submit _ _ w := (Ret (), w);
  ad_poll_fills _ w := ([], w);
  ad_cancel _ _ w := (Ret false, w);
  ad_modify _ _ _ _ w := (Ret false, w);
  ad_advance _ _ w := (Ret (), w);
  ad_on_trade _ _ _ _ _ w := w;
  ad_on_l2_snapshot _ _ _ _ w := w;
  ad_on_l2_update _ _ _ _ _ w := w;
  ad_on_book_trades _ _ _ w := w;
  ad_sweep _ _ _ _ _ w := (Ret false, w);
  ad_poll_results _ w := ([], w);
  ad_poll_meta _ w := ([], w);
  bk_get_or_create _ w := (Ret (), w);
  bk_replenish _ _ _ w := (Ret [], w);
  bk_cancel_in _ _ w := (Ret (), w);
  bk_l2_snapshot _ _ _ w := (Ret (), w);
  bk_l2_update _ _ _ _ w := (Ret (), w);
  w_next_id w := (w, w + 1);
  bk_add_maker_order _ w := (Ret [], w);
  bk_reset w := w;
  w_now w := (0, w);
  w_steady_ns w := (0, w);
  w_order_latency w := (0, w);
  w_ring_push _ _ w := (true, w);
  w_acquire _ w := (None, w);
  w_maker_orders w := ([], w);
  w_worker_failed _ := false;
  w_instrument _ _ := None;
  w_on_mid_price _ _ w := w |}.
#[local] Instance watching : IStrategy unit := {|
  st_on_market _ s := (Ret None, s);
  st_on_tick _ s := (Ret None, s);
  st_on_l2_update _ _ _ _ s := (Ret None, s);
  st_set_position_open _ _ s := (Ret (), s);
  st_on_fill _ _ s := (Ret (), s);
  st_take_pending_exit_intents s := (Ret [], s) |}.
Definition idle_config : engine_config := {|
  cf_mode := mode_backtest; cf_provider := None; cf_threading := inline_mode; cf_drop_policy := drop_allow; cf_risk_unwind := true;
  cf_risk_check := None; cf_latency_model := false; cf_execution_bar_delay := 1;
  cf_exit_defaults := {| mode := mode_floor; sl_pct := n_zero; tp_pct := n_zero; trail_pct := n_zero |};
  cf_maker_queue := false; cf_event_logger := true; cf_mm_worker := false; cf_overrides := ∅; cf_initial_balance := n_lit 1000 1;
  cf_primary_name := "s"; cf_extra_names := [] |}.
Definition open_limits : risk_limits :=
  {| max_position_value := n_zero; max_drawdown := n_zero; max_loss_per_trade := n_zero; max_open_orders := 0;
     max_portfolio_exposure := n_zero; max_daily_loss := n_zero; daily_reset_hour := 0; max_trades_per_hour := 0;
     max_orders_per_minute := 0; max_position_pct_of_equity := n_zero; max_portfolio_var_estimate := n_zero;
     max_spread_bps := n_zero; max_funding_8h_rate := n_zero |}.
Definition watcher : engine (S := unit) (W := Z) := {|
  en_cfg := idle_config; en_portfolio := mk_portfolio (n_lit 1000 1); en_risk := mk_RiskManager open_limits; en_exits := mk_ExitManager;
  en_tracker := ∅; en_analytics := mk_Analytics (n_lit 1000 1) 252 n_zero 252 100000; en_adverse := mk_adverse 0 0; en_shadow := None;
  en_exchange_portfolio := None; en_exchange_analytics := None; en_stops := []; en_pending := []; en_seq := 0; en_day_orders := [];
  en_cancels := ∅; en_meta := ∅; en_adapters := ∅; en_specs := ∅; en_l2_seeded := ∅; en_mid := n_zero; en_mark_symbol := "";
  en_halt := false; en_pause := false; en_flatten := false; en_drops := ∅; en_strategy := Some (); en_extras := [];
  en_world := 1; en_out := []; en_count := 0; en_halt_req := false |}.

(** Two frames of a combined stream: a trade and the depth. *)
Definition with_quotes (s : string) : text := map (λ c, if bool_decide (c = "'"%char) then c_quote else c) (txt s).
Definition recorded : FileTransport :=
  {| ft_content := Some (
       with_quotes "{'stream':'btcusdt@trade','data':{'e':'trade','s':'BTCUSDT','p':'100.5','q':'2','T':1700000000000,'m':false}}" ++ [c_newline] ++
       with_quotes "{'stream':'btcusdt@depth5','data':{'bids':[['100','1']],'asks':[['101','2']]}}");
     ft_is_open := false; ft_lines := [] |}.

Lemma streamed_events_served_witness :
  length (all_records (R := provider_event) 2 recorded 0) = 2%nat ∧
  ∃ e', (run_streaming_events (S := unit) (W := Z) (λ x, x) true 2 recorded 0 empty_series watcher).2 = e' ∧
    en_mid e' = d_of_ratio 201 2 ∧ "BTCUSDT" ∈ en_l2_seeded e' ∧ ∃ l, en_out e' = l ∧ en_portfolio e' = foldl booked (en_portfolio watcher) l.
Proof.
  split; [vm_compute; reflexivity|]. eexists. split; [reflexivity|]. split; [vm_compute; reflexivity|].
  split; [apply (bool_decide_unpack _); vm_compute; exact I|].
  destruct (streamed_events_served (S := unit) (W := Z) (λ x, x) true 2 recorded 0 empty_series watcher) as (done & rest & l & _ & E1 & E2).
  - split; [done|constructor..].
  - vm_compute. reflexivity.
  - exists l. split; [exact E1|]. revert E2. clear E1.
    destruct (run_streaming_events _ _ _ _ _ _ _) as [[r|w] e'] eqn:Er; [by intros (_ & _ & _ & E2)|].
    exfalso. apply (f_equal fst) in Er. vm_compute in Er. discriminate Er.
Defined.
End Example.
